(* ===== verification/_CoqProject ===== *)
-Q . S2P
Prelude.v
JsString.v
Errors.v
Paths.v
Schema.v
Rbac.v
Drives.v
ApiKeys.v
Orgs.v
Users.v
Invites.v
Identity.v
GlobCache.v
Text.v
Storage.v
World.v
Outbox.v
Worker.v
Search.v
Versioning.v
Favorites.v
Share.v
FileOps.v
FileSpec.v
History.v
Chunker.v
Address.v
Egress.v
Utf16.v
LocalAdapter.v
NodeFs.v
Base64.v
Signature.v
SecretKey.v
Mentions.v
Webhooks.v
WebhookSpec.v
DeliveryLog.v
LegacyFiles.v
JsMap.v
Presence.v
PresenceSpec.v
Comments.v
Notifications.v
CommentSpec.v
JbPath.v
RequestCache.v
JbBytes.v
JbAdapter.v
JbSpec.v
JbServer.v
JbTree.v
RawRoute.v
Gateway.v
EventStreams.v
PathNames.v
ShareList.v
Listing.v
ListSpec.v
Glob.v
Anchor.v
AnchorDiff.v
Json.v
Diff.v
AnchorSpec.v
AnchorCapture.v
AnchorLines.v
PathMigration.v
PathMigrationSpec.v
PathMigrationRun.v
FtsMigration.v
Sse.v
JsNumber.v
FileRoute.v
Ipc.v
IpcFrames.v
ShareRender.v
ShareRoute.v
SiteRoute.v
