(* ===== verification/Prelude.v ===== *)
(** * agent-fs: a verification library of its core, server, clients and viewer

    agent-fs is a file system for agents: files live in an object store, and a
    SQLite database keeps organisations, drives, roles, API keys, file versions,
    a search index, stars, comments, share links and an outbox of webhooks.  An
    HTTP server exposes the ops and streams events, and a daemon serves a FUSE
    mount over a local socket; clients are a command line, a file system for the
    just-bash shell, and a web viewer.  This library models the core package
    (src/packages/core/src; paths below are relative to it unless they name a
    package), the server's gates, file route, event streams and mount requests,
    the shell adapter, and of the viewer the comment anchors, the comparison of
    versions and the event parser (src/live/src/lib), and proves what makes them
    correct.  This first file is also the prelude: the notation of effectful
    programs, tables as lists of rows, record updates, and the lemmas and tactics
    that the components share.

    ** How a program of the source reads here

    A throw is a value ([Throw e] of [outcome]), and an effectful function is a
    computation [M E S A], written with [x ← m; k] as the source writes its
    statements.  A throw does not undo earlier writes; [transaction] does, as
    SQLite does.  [DbM] (Schema) runs over the database, [OpM] (World) over
    everything an op can change: [w_db], the storage backend [w_store], the
    published drive events, the wake-ups of the webhook worker, and the glob
    cache.  Long-lived objects have a state of their own (the presence registry,
    the request caches, the rate limiter, the open streams) and their methods
    are steps over it.  What the code takes from outside is an argument: the
    clock ([now], epoch milliseconds), the random ids ([Draws]), environment
    variables.

    Code outside the repository is a parameter, a class of operations with a
    class of the documented laws that the theorems use: the language's Unicode
    case mapping and SHA-256 ([Runtime], [RuntimeLaws], JsString), HMAC and AES
    ([Crypto], Signature), URL parsing, DNS and fetch (Egress), files-sdk and its
    disk ([FilesSdk], [FilesSdkLaws], LocalAdapter), the recursive chunker of a
    library (Chunker), the embedding provider and PDF extraction (World, Text),
    the Markdown renderer's document and the static texts of the share page
    (ShareRender), letter classes ([Unicode], [UnicodeLaws], Anchor), the patch of two texts
    ([Differ], [DifferLaws], Diff), [localeCompare] ([Collation], PathMigration)
    and msgpack ([Codec], [CodecLaws], IpcFrames).
    Inside the program the same shape states what one component promises
    another: [StorageAdapter] with [StorageView] and [StorageLaws] (what the ops
    rely on, Storage), [ListingLaws] (what the listings rely on, ListSpec), and
    [Remote] with [RemoteLaws] (what the shell adapter relies on of the server,
    JbSpec).  Every law class has an instance on which the witnesses run
    ([ascii_runtime], [memory_storage], [memory_listing], [mem_laws],
    [ascii_unicode], [whole_differ], [text_codec], ...), and LegacyFiles
    discharges [StorageLaws] for the local backend.

    An asynchronous op is one computation: the theorems of FileSpec, History and
    ListSpec run ops one after the other.  Where the code itself guards against
    what happens during an [await], the function is cut there and the pieces are
    separate steps: [createVersion] and [createVersion_commit] (Versioning),
    [getCachedDriveListing] and [settle] (GlobCache), [indexTextForSearch] and
    [indexTextForSearch_after] (Search), the claim and the result of a delivery
    (Worker), the two halves of [updateOrgMemberRole] (Orgs), which the code
    leaves outside its transaction, [rc_get] and [rc_settle] (RequestCache), the
    opening, heartbeats and cleanup of a stream (EventStreams), and the slices of
    the full-text migration, between which other requests write and the process
    may die (FtsMigration).  The public links check a link again after each wait:
    there ([await], ShareRoute) an arbitrary function of the world runs before and
    after the answer of every wait, and each look at the clock is its own argument.

    ** The parts

    Values and conventions:
    - JsString: strings as UTF-8 bytes, trimming, digits, hex.  - Utf16: their
      UTF-16 units.  - Base64.  - JsMap: insertion-ordered maps and sets.
    - JsNumber: [Number(text)], to doubles.  - Json: [JSON.parse].
    - Errors: errors.ts and the server's error middleware.
    - Paths: ops/paths.ts, storage/key-guard.ts, [getS3Key].  - PathNames:
      canonical paths as lists of names.
    - Text: ops/mime.ts, and the text functions the file ops use.
    Tables and identity:
    - Schema: db/schema.ts; a record per row, a list per table in rowid order,
      inserts that refuse repeated keys and missing parents.
    - Rbac: identity/rbac.ts, identity/context.ts, ops/index.ts ([dispatchOp]).
    - Drives, ApiKeys, Orgs, Users, Invites: identity/*.ts.
    - Identity: all identity writes as one type of commands.
    - PathMigration: db/path-normalization-migration.ts; PathMigrationSpec (one
      path) and PathMigrationRun (a whole run): what it does.
    - FtsMigration: db/fts-migration.ts.
    Files:
    - Storage: storage/adapter.ts as an interface with laws.
    - LocalAdapter: storage/local-adapter.ts.  - LegacyFiles:
      storage/legacy-reserved-keys.ts, over NodeFs, a disk with symbolic links.
    - World: ops/types.ts, events/bus.ts.
    - GlobCache: ops/glob-cache.ts.   - Search: search/fts.ts, search/pipeline.ts.
    - Chunker: search/chunker.ts.
    - Versioning: ops/versioning.ts.  - Favorites: ops/favorite.ts, path-kind.ts.
    - FileOps: ops/write.ts, append.ts, edit.ts, cat.ts, tail.ts, stat.ts, rm.ts,
      cp.ts, mv.ts, revert.ts, whole; FileSpec and History: their contracts.
    - Listing: ops/ls.ts, tree.ts, reveal.ts, log.ts, recent.ts; ListSpec: what
      they show.  - Glob: ops/glob.ts.
    Comments:
    - Mentions, Comments, Notifications: ops/comment-mentions.ts, comment.ts,
      comment-notification.ts; CommentSpec: their contracts.
    Webhooks and links:
    - Outbox: webhooks/events.ts, outbox.ts (the deliveries of file changes).
    - Worker: webhooks/worker.ts and the disabling of a subscription.
    - Address, Egress: webhooks/egress-guard.ts, egress.ts.
    - Signature: webhooks/signature.ts, sender.ts, crypto/secrets-cipher.ts.
    - SecretKey: webhooks/crypto/key.ts.
    - Webhooks: ops/webhook.ts, webhooks/subscriptions.ts, deliveries.ts;
      WebhookSpec and DeliveryLog: their contracts.
    - Share: ops/share.ts (share links, views, grants).  - ShareList:
      ops/share-list.ts.
    Presence and the server:
    - Presence: presence/registry.ts, schema.ts; PresenceSpec: its contract.
    - Gateway: packages/server/src/middleware/auth.ts, rate-limit.ts, app.ts.
    - RawRoute: packages/server/src/routes/files.ts (the raw path), and how each
      client builds and reads raw URLs.
    - FileRoute: the GET and PUT handlers of packages/server/src/routes/files.ts.
    - ShareRender: packages/server/src/share/render.ts; ShareRoute, SiteRoute:
      routes/share.ts, routes/site.ts (the public pages of share links).
    - EventStreams: packages/server/src/routes/events.ts.
    - Ipc, IpcFrames: packages/server/src/ipc/handlers.ts, server.ts (the requests
      and the framing of the FUSE mount).
    The viewer (src/live/src/lib):
    - Anchor: comment-anchor.ts; AnchorSpec, AnchorCapture (resolving a quote),
      AnchorLines (lines and offsets) and AnchorDiff (lines through an edit
      script): its contract.  - Diff: ops/diff.ts, diff-source.ts.
    - Sse: sse.ts.
    The shell adapter (packages/just-bash/src/index.ts):
    - JbPath (path helpers), RequestCache, JbBytes (encodings), JbAdapter (the
      file system); JbSpec: its caches against an abstract tree; JbServer: a drive
      in memory that keeps the laws; JbTree: recursive removal.

    An op of FileOps calls, in the code's order, the path guard (Paths), the
    version check (Versioning), the storage (Storage), [createVersion] (which
    writes the version row, the file row and, through Outbox, the deliveries in
    one transaction, then publishes on the bus and drops the drive's glob
    listings), the index (Search) and the stars (Favorites).  EventStreams
    delivers what is published on the bus, and Sse parses it in the viewer;
    Worker sends what Outbox queued, through Egress, signed by Signature with the
    secret of SecretKey.  FileRoute and Ipc are two doors to the same writes: both
    resolve the user's drive (Rbac, Drives) and call [writeRaw] (FileOps), with
    the version a client last saw as the expected one.

    ** What the theorems show

    - History: the content of every recorded version stays retrievable, whatever
      the ops and the backend do, and [revert] restores it.
    - Versioning: histories are 1, 2, 3, ... under any interleaving of writers;
      the loser of a race is told and writes nothing; a recorded version is the
      head and has queued its deliveries.
    - FileSpec: the contracts of write, edit, rm and cat (refusals included).
    - LegacyFiles, LocalAdapter: the local backend keeps the storage contract; a
      read through any links stays inside the root; the walk ends.
    - ListSpec, Listing: [ls], [tree] and [reveal] answer exactly what the storage
      holds below a folder.  Glob: [glob] answers what its description promises,
      and no more when the pattern has no two stars before a slash.
    - Paths, Rbac: keys cannot leave their drive; a role is checked before any
      handler; a foreign drive looks like a missing one.
    - Drives, Orgs, ApiKeys, Invites, Users, Identity: roles only rise by grants,
      no operation takes the last admin of an org away, nor of a drive but
      [setDriveMember], which does not look; a revoked key, primary or not,
      resolves to nobody again, invites are accepted once, removals are complete;
      and the races and the mistaken identity that the code does allow.
    - GlobCache, Search, Favorites, Outbox: no stale listing after an
      invalidation, no write of a superseded index job, stars follow a move, a
      path prefix selects exactly the paths under it.  Chunker: the segments
      tile the text and never split a surrogate pair.
    - CommentSpec: threads stay one level deep and whole, who may change what,
      an addition is atomic, mentions and notifications follow the text.
    - Worker: a delivery's result is recorded at most once; failed attempts come
      back on schedule.  Egress: no request of a guarded fetch, redirects
      included, reaches a private address, and credentials stay with their
      origin.  WebhookSpec, DeliveryLog: the secret handed out is the one that
      later processes decrypt, only admins change a hook, the pages of the log
      are the log.
    - Share: a link is opened at most [maxViews] times and never after its
      expiry or revocation; bytes need a grant of a counted view.  ShareList: a
      listing follows the authority to revoke, and a file's links are those that
      serve it.
    - PresenceSpec: clients that replay events know the sessions; stale sessions
      leave; no user touches another's.  EventStreams: counts are exact, streams
      bounded, events stay in their drive.
    - Gateway: past the gate a request acts as the user of its key and inside its
      scope; the limiter decides as counting would.  RawRoute: the URL a client
      builds names the very path it meant.
    - FileRoute: what a PUT stored a GET serves, under one ETag, and a PUT under
      the ETag of a file that has moved on changes nothing.  Ipc: a mount request
      acts for the user of the daemon's key with the role it needs, or changes
      nothing.  IpcFrames, Sse: messages survive any cutting into chunks.
    - ShareRoute, SiteRoute: whatever happens during the waits, bytes leave only
      while the link allows them, only of the shared file or folder, and never as a
      page of the host; a page leads to its download; a listing's links lead to
      its pages.  ShareRender: a file adds no markup to its page.
    - PathMigrationRun: the migration of stored paths keeps every version under
      its storage key, numbers merged histories by creation, ends with no bare path
      but those it reports, and does nothing when run again.  FtsMigration: each
      old row is copied or dropped once, whatever crashes and writes come between
      the slices, and the copy ends.
    - Diff, AnchorDiff: a line range carried through a diff and called untouched
      holds the same text.  AnchorSpec, AnchorCapture, AnchorLines: a resolution
      shows a span that contains the quote; in a text without links, surrogates
      and capital sigmas, a captured quote of at most 2000 units and fewer than 500
      occurrences resolves to its own selection or is called ambiguous; lines and
      offsets agree.
    - RequestCache, JbSpec, JbTree, JbBytes, JbPath: the adapter's caches never
      show what a write made stale, reads tell the drive, [rm] removes a tree and
      ends, contents and paths survive their encodings.

    ** Bounds and fuel

    Numbers are unbounded integers where the code keeps them below 2^53; 32-bit
    operators are written out at their width (Address).  Recursion is structural
    where the code's is.  The other loops have fuel, and it is enough:
    [trim_with], [count_from] and the chunker's [segments_from] and
    [fallback_from] drop at least one unit a step and get the length; a guarded
    fetch follows at most five redirects, its own limit; the delivery log is
    paged with more fuel than rows, and the worker's drain has the code's page
    bound; a disk walk pushes each folder once and gets [S (size d)] (the theorem
    proves it ends), and [realpath] the 40 links at which Node fails; the
    adapter's [collect], [refresh] and [rm] get more than the depth of the tree
    ([shallow]), [cp] and [mv] one unit a level; the binary search over lines
    gets their number, the search for a quote [MAX_CANDIDATES], the JSON parser
    twice the length of the text and two more, the copy of the full-text index one
    unit more than there are rows, and the loops over a socket's or a stream's
    buffer its length, since each frame takes some of it.

    ** Not modelled

    What is left is input and output, text in other languages, and engines from
    outside.  The other HTTP routes (organisations, authentication pages, the
    OpenAPI document) and the command line read
    arguments, call an op that is modelled here and print its answer.  The
    queries of find, fts, grep, search and vec-search are ranked by SQLite's FTS5
    and by vector extensions, with floating-point scores; the sql op runs the
    user's text on another engine; opening the database and the older migrations
    are SQL text.  The embedding providers, the background jobs that call them,
    the S3 client and its signed URLs are clients of services.  In modelled
    parts: a write's answer lacks the warnings about missing Markdown links
    (ops/md-links.ts), timers are calls of what they call, and log lines are left
    out.  The rest of the viewer and the landing page are React components, and
    the FUSE helper is another program, in Rust. *)

From stdpp Require Export base tactics numbers list strings gmap sets pretty.
From Stdlib Require Export ZArith Lia Ascii Sorted.
From Stdlib Require String.

(** ** Outcomes: a JavaScript call returns a value or throws *)

Inductive outcome (E A : Type) : Type :=
| Ok (a : A)
| Throw (e : E).
Arguments Ok {E A} a.
Arguments Throw {E A} e.

#[export] Instance outcome_eq_dec `{EqDecision E, EqDecision A} : EqDecision (outcome E A).
Proof. solve_decision. Defined.

#[export] Instance outcome_ret {E} : MRet (outcome E) := fun A a => Ok a.
#[export] Instance outcome_bind {E} : MBind (outcome E) := fun A B f o =>
  match o with Ok a => f a | Throw e => Throw e end.

Definition is_ok {E A} (o : outcome E A) : bool :=
  match o with Ok _ => true | Throw _ => false end.

(** ** The state monad of the effectful operations

    [M E S A] is a computation over a mutable state [S] that returns an [A] or
    throws an [E].  A throw does not undo the writes made before it: only
    [transaction] does, as SQLite's rollback does. *)

Definition M (E S A : Type) : Type := S -> outcome E A * S.

#[export] Instance M_ret {E S} : MRet (M E S) := fun A a s => (Ok a, s).
#[export] Instance M_bind {E S} : MBind (M E S) := fun A B f m s =>
  match m s with
  | (Ok a, s') => f a s'
  | (Throw e, s') => (Throw e, s')
  end.

Section Effects.
Context {E S : Type}.

Definition throw {A} (e : E) : M E S A := fun s => (Throw e, s).
Definition gets {A} (f : S -> A) : M E S A := fun s => (Ok (f s), s).
Definition modify (f : S -> S) : M E S unit := fun s => (Ok tt, f s).
Definition from_outcome {A} (o : outcome E A) : M E S A := fun s => (o, s).

(** [reads f]: a query that may throw and writes nothing. *)
Definition reads {A} (f : S -> outcome E A) : M E S A := fun s => (f s, s).

(** [db.transaction(cb)]: the writes of a callback that throws are rolled back. *)
Definition transaction {A} (m : M E S A) : M E S A := fun s =>
  match m s with
  | (Ok a, s') => (Ok a, s')
  | (Throw e, _) => (Throw e, s)
  end.

(** [if (c) throw e]. *)
Definition throw_if (c : bool) (e : E) : M E S unit :=
  if c then throw e else mret tt.

(** [if (c) m]. *)
Definition when (c : bool) (m : M E S unit) : M E S unit :=
  if c then m else mret tt.

(** [for (const a of l) f(a)]. *)
Fixpoint for_each {A} (l : list A) (f : A -> M E S unit) : M E S unit :=
  match l with
  | [] => mret tt
  | a :: l' => f a ≫= fun _ => for_each l' f
  end.

(** [l.map(f)] with an effectful [f]. *)
Fixpoint map_m {A B} (l : list A) (f : A -> M E S B) : M E S (list B) :=
  match l with
  | [] => mret []
  | a :: l' => f a ≫= fun b => map_m l' f ≫= fun bs => mret (b :: bs)
  end.

(** [try { m } catch (e) { h(e) }]. *)
Definition try_catch {A} (m : M E S A) (h : E -> M E S A) : M E S A := fun s =>
  match m s with
  | (Ok a, s') => (Ok a, s')
  | (Throw e, s') => h e s'
  end.
End Effects.

(** [x] or a throw when it is [undefined]: [const x = ...get(); if (!x) throw e]. *)
Definition some_or_throw {E S A} (o : option A) (e : E) : M E S A :=
  match o with Some a => mret a | None => throw e end.

(** Running a computation over a part of a larger state. *)
Definition on {E S T A} (get : T -> S) (put : S -> T -> T) (m : M E S A) : M E T A := fun t =>
  let '(o, s) := m (get t) in (o, put s t).

(** ** Tables: a list of rows in rowid order

    A query is stdpp's [filter] on a decidable predicate; [.get()] takes the
    first matching row. *)

Section Tables.
Context {R : Type}.
Implicit Types (t : list R).

Definition get_row (P : R -> Prop) `{forall r, Decision (P r)} (t : list R) : option R :=
  head (filter P t).

Definition update_where (P : R -> Prop) `{forall r, Decision (P r)} (f : R -> R) (t : list R) : list R :=
  (fun r => if decide (P r) then f r else r) <$> t.

Definition delete_where (P : R -> Prop) `{forall r, Decision (P r)} (t : list R) : list R :=
  filter (fun r => ~ P r) t.

(** Whether some row matches. *)
Definition exists_row (P : R -> Prop) `{forall r, Decision (P r)} (t : list R) : bool :=
  match filter P t with [] => false | _ => true end.
End Tables.

(** [ORDER BY]: a stable sort, by insertion. *)
Section Sorting.
Context {A : Type} (le : A -> A -> bool).

Fixpoint insert_sorted (a : A) (l : list A) : list A :=
  match l with
  | [] => [a]
  | b :: l' => if le a b then a :: b :: l' else b :: insert_sorted a l'
  end.

Definition sort_by (l : list A) : list A := foldr insert_sorted [] l.

Lemma insert_sorted_perm a l : insert_sorted a l ≡ₚ a :: l.
Proof.
  induction l as [|b l IH]; [done|]. cbn. destruct (le a b); [done|]. rewrite IH. apply Permutation_swap.
Qed.

Lemma sort_by_perm l : sort_by l ≡ₚ l.
Proof. induction l as [|a l IH]; [done|]. cbn. by rewrite insert_sorted_perm, IH. Qed.

Lemma elem_of_sort_by a l : a ∈ sort_by l <-> a ∈ l.
Proof. by rewrite sort_by_perm. Qed.

Lemma sort_by_sorted l :
  (forall a b, le a b = true \/ le b a = true) -> Sorted (fun a b => le a b = true) (sort_by l).
Proof.
  intros Htot. induction l as [|a l IH]; cbn; [constructor|].
  revert IH. fold (sort_by l). generalize (sort_by l). clear l. intros l H. induction H as [|b l Hl IH Hb]; cbn.
  - repeat constructor.
  - destruct (le a b) eqn:E; [by repeat constructor|].
    assert (Hba : le b a = true) by (destruct (Htot a b); congruence).
    constructor; [done|]. destruct l as [|c l]; cbn; [by constructor|].
    destruct (le a c); constructor; [done|]. by inversion Hb.
Qed.
End Sorting.

(** ** Notations of the development *)

Declare Scope js_scope.
Delimit Scope js_scope with js.
#[global] Open Scope js_scope.

(** [x ?? d]. *)
Notation "x ?? d" := (default d x) (at level 55, right associativity) : js_scope.

(** ** Record updates

    [r <| field := v |>] replaces one field and [r <| field ::= f |>] applies [f]
    to it.  A record opts in by declaring its eta-expansion ([Eta]); the updater
    of a field abstracts that field's projection in it. *)

Class Eta (R : Type) : Type := eta : R -> R.
Class Update {R T : Type} (field : R -> T) : Type := update : (T -> T) -> R -> R.
Arguments update {R T} field {_} f r.

Ltac build_update R field :=
  let e := eval hnf in (@eta R _) in
  lazymatch eval pattern field in e with
  | (fun _ => ?body) _ => fail "no such field"
  | ?abstracted _ => let g := constr:(fun f r => abstracted (fun r' => f (field r')) r) in
                     let g := eval cbv beta in g in exact g
  end.
#[export] Hint Extern 1 (@Update ?R _ ?field) => build_update R field : typeclass_instances.

(** [{ ...r, field: v }]. *)
Notation "r <| field ::= f |>" := (update field f r)
  (at level 12, field at next level, f at level 99, left associativity) : js_scope.
Notation "r <| field := v |>" := (update field (fun _ => v) r)
  (at level 12, field at next level, v at level 99, left associativity) : js_scope.

(** ** Reasoning about effectful code *)

Create HintDb preserve.
Create HintDb table.
Create HintDb write.

(** [preserves I m]: whether [m] returns or throws, it keeps the invariant. *)
Definition preserves {E S A} (I : S -> Prop) (m : M E S A) : Prop :=
  forall s, I s -> I (m s).2.

(** [evolves R m]: the state after [m], returned or thrown, is [R]-later. *)
Definition evolves {E S A} (R : S -> S -> Prop) (m : M E S A) : Prop :=
  forall s, R s (m s).2.

(** [silent m]: [m] writes nothing. *)
Definition silent {E S A} (m : M E S A) : Prop := forall s, (m s).2 = s.

Section Preservation.
Context {E S : Type}.
Implicit Types (I : S -> Prop).

Lemma bind_inv {A B} (m : M E S A) (f : A -> M E S B) s o s' :
  (m ≫= f) s = (o, s') ->
  (exists a s1, m s = (Ok a, s1) /\ f a s1 = (o, s')) \/
  (exists e, m s = (Throw e, s') /\ o = Throw e).
Proof.
  unfold mbind, M_bind. destruct (m s) as [[a|e] s1]; intros H.
  - left. eauto.
  - right. simplify_eq. eauto.
Qed.

Lemma bind_ok {A B} (m : M E S A) (f : A -> M E S B) s b s' :
  (m ≫= f) s = (Ok b, s') <->
  exists a s1, m s = (Ok a, s1) /\ f a s1 = (Ok b, s').
Proof.
  unfold mbind, M_bind. split.
  - destruct (m s) as [[a|e] s1]; intros H; [eauto|discriminate H].
  - intros (a & s1 & -> & ->). done.
Qed.

Lemma bind_assoc {A B C} (m : M E S A) (f : A -> M E S B) (g : B -> M E S C) s :
  ((m ≫= f) ≫= g) s = (m ≫= (fun a => f a ≫= g)) s.
Proof. unfold mbind, M_bind. by destruct (m s) as [[]]. Qed.

Lemma bind_ret_l {A B} (a : A) (f : A -> M E S B) s : (mret a ≫= f) s = f a s.
Proof. done. Qed.

Lemma bind_ret_r {A} (m : M E S A) s : (m ≫= mret) s = m s.
Proof. unfold mbind, M_bind. by destruct (m s) as [[]]. Qed.

Lemma throw_if_ok c (e : E) (s : S) a s' :
  throw_if c e s = (Ok a, s') <-> c = false /\ s' = s.
Proof.
  destruct a, c; cbn; unfold throw, mret, M_ret; split; intros H.
  - discriminate H.
  - destruct H as [H _]. discriminate H.
  - injection H as ->. done.
  - by destruct H as [_ ->].
Qed.

Lemma ret_ok {A} (a b : A) (s s' : S) : (mret a : M E S A) s = (Ok b, s') <-> b = a /\ s' = s.
Proof. unfold mret, M_ret. split; [by intros [= -> ->]|by intros [-> ->]]. Qed.

Lemma gets_ok {A} (f : S -> A) s a s' : (gets f : M E S A) s = (Ok a, s') <-> a = f s /\ s' = s.
Proof. unfold gets. split; [by intros [= -> ->]|by intros [-> ->]]. Qed.

Lemma modify_ok (f : S -> S) s a s' : (modify f : M E S unit) s = (Ok a, s') <-> a = tt /\ s' = f s.
Proof. unfold modify. split; [by intros [= <- ->]|by intros [-> ->]]. Qed.

Lemma reads_ok {A} (f : S -> outcome E A) s a s' : reads f s = (Ok a, s') <-> f s = Ok a /\ s' = s.
Proof. unfold reads. split; [by intros [= -> ->]|by intros [-> ->]]. Qed.

Lemma from_outcome_ok {A} (o : outcome E A) s a (s' : S) :
  from_outcome o s = (Ok a, s') <-> o = Ok a /\ s' = s.
Proof. unfold from_outcome. split; [by intros [= -> ->]|by intros [-> ->]]. Qed.

Lemma some_or_throw_ok {A} (o : option A) (e : E) (s : S) a s' :
  some_or_throw o e s = (Ok a, s') <-> o = Some a /\ s' = s.
Proof.
  destruct o; cbn; unfold throw, mret, M_ret.
  - split; [by intros [= -> ->]|by intros [[= ->] ->]].
  - split; [discriminate|]. by intros [[=] _].
Qed.

Lemma transaction_throw {A} (m : M E S A) s e s' :
  transaction m s = (Throw e, s') -> s' = s.
Proof. unfold transaction. destruct (m s) as [[]]; [discriminate|]. by intros [= _ ->]. Qed.

Lemma transaction_ok {A} (m : M E S A) s a s' :
  transaction m s = (Ok a, s') <-> m s = (Ok a, s').
Proof. unfold transaction. by destruct (m s) as [[]]. Qed.

Lemma preserves_ret I {A} (a : A) : preserves I (mret a : M E S A).
Proof. by intros s. Qed.

Lemma preserves_bind I {A B} (m : M E S A) (f : A -> M E S B) :
  preserves I m -> (forall a, preserves I (f a)) -> preserves I (m ≫= f).
Proof.
  intros Hm Hf s Hs. specialize (Hm s Hs). unfold mbind, M_bind.
  destruct (m s) as [[a|e] s1]; cbn in *; [by apply Hf | done].
Qed.

Lemma preserves_throw I {A} (e : E) : preserves I (throw e : M E S A).
Proof. by intros s. Qed.

Lemma preserves_gets I {A} (f : S -> A) : preserves I (gets f : M E S A).
Proof. by intros s. Qed.

Lemma preserves_reads I {A} (f : S -> outcome E A) : preserves I (reads f).
Proof. by intros s. Qed.

Lemma preserves_from_outcome I {A} (o : outcome E A) : preserves I (from_outcome o).
Proof. by intros s. Qed.

Lemma preserves_throw_if I c (e : E) : preserves I (throw_if c e).
Proof. by destruct c; intros s. Qed.

Lemma preserves_when I c (m : M E S unit) : preserves I m -> preserves I (when c m).
Proof. destruct c; [done|]. intros _ s; done. Qed.

Lemma preserves_some_or_throw I {A} (o : option A) (e : E) : preserves I (some_or_throw o e).
Proof. by destruct o; intros s. Qed.

Lemma preserves_modify I (f : S -> S) : (forall s, I s -> I (f s)) -> preserves I (modify f : M E S unit).
Proof. intros H s Hs. by apply H. Qed.

Lemma preserves_transaction I {A} (m : M E S A) : preserves I m -> preserves I (transaction m).
Proof.
  intros H s Hs. specialize (H s Hs). unfold transaction.
  by destruct (m s) as [[a|e] s1].
Qed.

Lemma preserves_for_each I {A} (l : list A) (f : A -> M E S unit) :
  (forall a, a ∈ l -> preserves I (f a)) -> preserves I (for_each l f).
Proof.
  induction l as [|a l IH]; intros H; [apply preserves_ret|].
  apply preserves_bind; [apply H; set_solver|]. intros _. apply IH. set_solver.
Qed.

Lemma preserves_map_m I {A B} (l : list A) (f : A -> M E S B) :
  (forall a, a ∈ l -> preserves I (f a)) -> preserves I (map_m l f).
Proof.
  induction l as [|a l IH]; intros H; [apply preserves_ret|].
  apply preserves_bind; [apply H; set_solver|]. intros b.
  apply preserves_bind; [apply IH; set_solver|]. intros bs. apply preserves_ret.
Qed.

Lemma preserves_try_catch I {A} (m : M E S A) (h : E -> M E S A) :
  preserves I m -> (forall e, preserves I (h e)) -> preserves I (try_catch m h).
Proof.
  intros Hm Hh s Hs. specialize (Hm s Hs). unfold try_catch.
  destruct (m s) as [[a|e] s1]; cbn in *; [done | by apply Hh].
Qed.

(** A monotone evolution is the invariant "later than the start". *)
Lemma evolves_preserves (R : S -> S -> Prop) `{!PreOrder R} {A} (m : M E S A) :
  (forall s0, preserves (R s0) m) <-> evolves R m.
Proof.
  split.
  - intros H s. apply H. reflexivity.
  - intros H s0 s Hs. etrans; [done|apply H].
Qed.
End Preservation.

#[export] Hint Resolve preserves_ret preserves_bind preserves_throw preserves_gets
  preserves_reads preserves_from_outcome preserves_throw_if preserves_when
  preserves_some_or_throw preserves_transaction preserves_for_each preserves_map_m
  preserves_try_catch : preserve.

(** Reduce a [preserves] goal to its writes. *)
Ltac preserve :=
  repeat first
    [ apply preserves_ret | apply preserves_throw | apply preserves_gets
    | apply preserves_reads | apply preserves_from_outcome | apply preserves_throw_if
    | apply preserves_some_or_throw
    | solve [eauto with preserve]
    | apply preserves_bind; [|intros ?]
    | apply preserves_transaction | apply preserves_when
    | apply preserves_for_each; intros ? ?
    | apply preserves_map_m; intros ? ?
    | apply preserves_try_catch; [|intros ?]
    | apply preserves_modify; intros ? ?
    | match goal with
      | |- preserves _ (match ?x with _ => _ end) => destruct x
      | |- preserves _ (match ?x with _ => _ end _) => destruct x
      end ].

(** Split hypotheses of the form [(m ≫= f) s = (Ok b, s')] into their steps. *)
Ltac inv_ok :=
  repeat match goal with
  | H : (_ ≫= _) _ = (Ok _, _) |- _ =>
      let a := fresh "a" in let s := fresh "s" in let H1 := fresh "H" in
      apply bind_ok in H; destruct H as (a & s & H1 & H)
  | H : throw_if _ _ _ = (Ok _, _) |- _ => apply throw_if_ok in H; destruct H as [? ?]; subst
  | H : transaction _ _ = (Ok _, _) |- _ => apply (proj1 (transaction_ok _ _ _ _)) in H
  | H : throw _ _ = (Ok _, _) |- _ => discriminate H
  | H : mret _ _ = (Ok _, _) |- _ => apply ret_ok in H; destruct H as [? ?]; subst
  | H : gets _ _ = (Ok _, _) |- _ => apply gets_ok in H; destruct H as [? ?]; subst
  | H : modify _ _ = (Ok _, _) |- _ => apply modify_ok in H; destruct H as [? ?]; subst
  | H : reads _ _ = (Ok _, _) |- _ => apply reads_ok in H; destruct H as [? ?]; subst
  | H : from_outcome _ _ = (Ok _, _) |- _ => apply from_outcome_ok in H; destruct H as [? ?]; subst
  | H : some_or_throw _ _ _ = (Ok _, _) |- _ => apply some_or_throw_ok in H; destruct H as [? ?]; subst
  end.

Lemma sublist_fmap_mono {A B} (f : A -> B) l1 l2 :
  l1 `sublist_of` l2 -> f <$> l1 `sublist_of` f <$> l2.
Proof. induction 1; cbn; by constructor. Qed.

Section TableLemmas.
Context {R : Type} (P : R -> Prop) `{Pdec : forall r, Decision (P r)}.
Implicit Types (t : list R).

Lemma get_row_some t r : get_row P t = Some r -> r ∈ t /\ P r.
Proof.
  unfold get_row. intros H. apply head_Some_elem_of in H.
  apply list_elem_of_filter in H. tauto.
Qed.

Lemma get_row_none t : get_row P t = None <-> forall r, r ∈ t -> ~ P r.
Proof.
  unfold get_row. split.
  - intros H r Hr HP. destruct (filter P t) eqn:E; [|done].
    assert (Hin : r ∈ filter P t) by (apply list_elem_of_filter; done).
    rewrite E in Hin. set_solver.
  - intros H. destruct (filter P t) as [|r l] eqn:E; [done|].
    assert (Hin : r ∈ filter P t) by (rewrite E; set_solver).
    apply list_elem_of_filter in Hin. naive_solver.
Qed.

Lemma get_row_is_some t r : r ∈ t -> P r -> is_Some (get_row P t).
Proof.
  intros Hr HP. destruct (get_row P t) eqn:E; [eauto|].
  by destruct (proj1 (get_row_none t) E r Hr).
Qed.

Lemma exists_row_true t : exists_row P t = true <-> exists r, r ∈ t /\ P r.
Proof.
  unfold exists_row. split.
  - destruct (filter P t) as [|r l] eqn:E; [done|]. intros _. exists r.
    assert (Hin : r ∈ filter P t) by (rewrite E; set_solver).
    apply list_elem_of_filter in Hin. tauto.
  - intros (r & Hr & HP).
    assert (Hin : r ∈ filter P t) by (apply list_elem_of_filter; done).
    destruct (filter P t); [set_solver|done].
Qed.

Lemma exists_row_false t : exists_row P t = false <-> forall r, r ∈ t -> ~ P r.
Proof.
  rewrite <- not_true_iff_false, exists_row_true. naive_solver.
Qed.

Lemma get_row_exists_row t : get_row P t = None <-> exists_row P t = false.
Proof. unfold get_row, exists_row. by destruct (filter P t). Qed.

Lemma elem_of_update_where f t r' :
  r' ∈ update_where P f t <->
  exists r, r ∈ t /\ ((P r /\ r' = f r) \/ (~ P r /\ r' = r)).
Proof.
  unfold update_where. rewrite list_elem_of_fmap. split.
  - intros (r & -> & Hr). exists r. case_decide; naive_solver.
  - intros (r & Hr & H). exists r. case_decide; naive_solver.
Qed.

Lemma elem_of_delete_where t r : r ∈ delete_where P t <-> r ∈ t /\ ~ P r.
Proof. unfold delete_where. rewrite list_elem_of_filter. tauto. Qed.

Lemma get_row_cons r t : get_row P (r :: t) = if decide (P r) then Some r else get_row P t.
Proof. unfold get_row. rewrite filter_cons. by case_decide. Qed.

Lemma get_row_snoc r t :
  get_row P (t ++ [r]) =
  match get_row P t with Some x => Some x | None => if decide (P r) then Some r else None end.
Proof.
  induction t as [|a t IH]; cbn [app]; rewrite get_row_cons; [reflexivity|].
  rewrite (get_row_cons a). destruct (decide (P a)); [reflexivity|exact IH].
Qed.

(** Updating the rows of a query updates its answer. *)
Lemma get_row_update_same f t :
  (forall r, P r -> P (f r)) -> get_row P (update_where P f t) = f <$> get_row P t.
Proof.
  intros Hf. unfold update_where. induction t as [|r t IH]; [done|].
  rewrite fmap_cons, !get_row_cons, IH.
  destruct (decide (P r)) as [Hr|Hr].
  - by rewrite decide_True by auto.
  - by rewrite decide_False.
Qed.

Lemma update_where_none f t : (forall r, r ∈ t -> ~ P r) -> update_where P f t = t.
Proof.
  unfold update_where. induction t as [|r t IH]; intros H; [done|]. cbn.
  rewrite IH by set_solver. rewrite decide_False; [done|]. apply H. set_solver.
Qed.

Lemma length_update_where f t : length (update_where P f t) = length t.
Proof. unfold update_where. by rewrite length_fmap. Qed.

Lemma fmap_update_where {K} (key : R -> K) f t :
  (forall r, r ∈ t -> P r -> key (f r) = key r) -> key <$> update_where P f t = key <$> t.
Proof.
  unfold update_where. intros H. rewrite <- list_fmap_compose.
  apply list_fmap_ext. intros i r Hr. cbn. case_decide; [|done].
  apply H; [by eapply list_elem_of_lookup_2 | done].
Qed.

Lemma delete_where_sublist t : delete_where P t `sublist_of` t.
Proof.
  unfold delete_where. induction t as [|r t IH]; [constructor|].
  rewrite filter_cons. case_decide; by constructor.
Qed.

Lemma NoDup_delete_where {K} (key : R -> K) t :
  NoDup (key <$> t) -> NoDup (key <$> delete_where P t).
Proof.
  intros H. apply (sublist_NoDup _ _ H).
  apply sublist_fmap_mono, delete_where_sublist.
Qed.
End TableLemmas.

(** Updating rows outside a query leaves its answer. *)
Lemma get_row_update_other {R} (P Q : R -> Prop) `{forall r, Decision (P r), forall r, Decision (Q r)} f t :
  (forall r, P r -> ~ Q r /\ ~ Q (f r)) -> get_row Q (update_where P f t) = get_row Q t.
Proof.
  intros Hf. unfold update_where. induction t as [|r t IH]; [done|].
  rewrite fmap_cons, !get_row_cons, IH. destruct (decide (P r)) as [Hr|Hr]; [|done].
  destruct (Hf r Hr). by rewrite !decide_False.
Qed.

Lemma filter_update_other {R} (P : R -> Prop) `{forall r, Decision (P r)} f t :
  (forall r, P r -> P (f r)) -> filter (fun r => ~ P r) (update_where P f t) = filter (fun r => ~ P r) t.
Proof.
  intros Hf. unfold update_where. induction t as [|r t IH]; [done|]. rewrite fmap_cons, !filter_cons.
  destruct (decide (P r)) as [Hr|Hr].
  - rewrite !decide_False by (intros Hn; by apply Hn; auto). exact IH.
  - rewrite !decide_True by done. by rewrite IH.
Qed.

Lemma get_row_delete_other {R} (P Q : R -> Prop) `{forall r, Decision (P r), forall r, Decision (Q r)} t :
  (forall r, P r -> ~ Q r) -> get_row Q (delete_where P t) = get_row Q t.
Proof.
  intros Hf. unfold delete_where. induction t as [|r t IH]; [done|].
  rewrite filter_cons, (get_row_cons Q r). destruct (decide (~ P r)) as [Hr|Hr].
  - by rewrite get_row_cons, IH.
  - rewrite decide_False by (apply Hf; by apply dec_stable). done.
Qed.

Lemma NoDup_fmap_snoc {A K} (key : A -> K) l a :
  NoDup (key <$> l) -> (forall b, b ∈ l -> key b <> key a) -> NoDup (key <$> (l ++ [a])).
Proof.
  intros Hl Ha. rewrite fmap_app. apply NoDup_app. split; [done|]. split; [|apply NoDup_singleton].
  intros k Hk Hk'. apply list_elem_of_fmap in Hk as (b & -> & Hb).
  cbn in Hk'. apply list_elem_of_singleton in Hk'. by apply (Ha b).
Qed.

(** Two rows of a table with the same unique key are one row. *)
Lemma NoDup_fmap_eq {A K} (key : A -> K) l a b :
  NoDup (key <$> l) -> a ∈ l -> b ∈ l -> key a = key b -> a = b.
Proof.
  induction l as [|c l IH]; [set_solver|]. cbn. rewrite NoDup_cons. intros [Hc Hl] Ha Hb Hk.
  apply elem_of_cons in Ha as [->|Ha]; apply elem_of_cons in Hb as [->|Hb]; auto.
  - destruct Hc. rewrite Hk. by apply list_elem_of_fmap_2.
  - destruct Hc. rewrite <- Hk. by apply list_elem_of_fmap_2.
Qed.

(** The one matching row of a table with a unique key. *)
Lemma get_row_unique {A K} (key : A -> K) (P : A -> Prop) `{forall x, Decision (P x)} l a :
  NoDup (key <$> l) -> a ∈ l -> P a -> (forall b, P b -> key b = key a) -> get_row P l = Some a.
Proof.
  intros Hnd Ha HP Hk. destruct (get_row_is_some P l a Ha HP) as [b Hb]. rewrite Hb.
  apply get_row_some in Hb as [Hin HPb]. f_equal. by apply (NoDup_fmap_eq key l); [..|apply Hk].
Qed.

Lemma filter_sublist {A} (P : A -> Prop) `{forall x, Decision (P x)} l : filter P l `sublist_of` l.
Proof.
  induction l as [|a l IH]; [constructor|]. rewrite filter_cons. case_decide; by constructor.
Qed.

Lemma filter_all {A} (P : A -> Prop) `{forall x, Decision (P x)} (l : list A) :
  (forall x, x ∈ l -> P x) -> filter P l = l.
Proof.
  induction l as [|a l IH]; intros Hl; [done|]. rewrite filter_cons_True by (apply Hl; set_solver).
  f_equal. apply IH. set_solver.
Qed.

Lemma filter_none {A} (P : A -> Prop) `{forall x, Decision (P x)} (l : list A) :
  (forall x, x ∈ l -> ~ P x) -> filter P l = [].
Proof.
  induction l as [|a l IH]; intros Hl; [done|]. rewrite filter_cons_False by (apply Hl; set_solver).
  apply IH. set_solver.
Qed.

Lemma filter_ext_in {A} (P Q : A -> Prop) `{forall x, Decision (P x), forall x, Decision (Q x)} (l : list A) :
  (forall x, x ∈ l -> (P x <-> Q x)) -> filter P l = filter Q l.
Proof.
  induction l as [|a l IH]; intros Hpq; [done|]. rewrite !filter_cons, IH by set_solver.
  destruct (decide (P a)) as [Ha|Ha]; rewrite (Hpq a) in Ha by set_solver; case_decide; done.
Qed.

Lemma update_where_ext {R} (P Q : R -> Prop) `{forall r, Decision (P r), forall r, Decision (Q r)} f (t : list R) :
  (forall r, r ∈ t -> (P r <-> Q r)) -> update_where P f t = update_where Q f t.
Proof.
  intros Hpq. apply list_fmap_ext. intros i r Hr. apply list_elem_of_lookup_2 in Hr.
  destruct (decide (P r)) as [HP|HP]; rewrite (Hpq r Hr) in HP; case_decide; done.
Qed.

Lemma NoDup_fmap_filter {A K} (key : A -> K) (P : A -> Prop) `{forall x, Decision (P x)} l :
  NoDup (key <$> l) -> NoDup (key <$> filter P l).
Proof. intros H'. apply (sublist_NoDup _ _ H'), sublist_fmap_mono, filter_sublist. Qed.

(** A key that separates the rows the first one separates. *)
Lemma NoDup_fmap_refine {A K K'} (key : A -> K) (key' : A -> K') l :
  (forall a b, a ∈ l -> b ∈ l -> key' a = key' b -> key a = key b) ->
  NoDup (key <$> l) -> NoDup (key' <$> l).
Proof.
  induction l as [|a l IH]; intros Hk H; [constructor|]. cbn in *.
  apply NoDup_cons in H as [Ha Hl]. apply NoDup_cons. split.
  - intros (b & Hab & Hb)%list_elem_of_fmap. apply Ha, list_elem_of_fmap. exists b.
    split; [|done]. apply Hk; [set_solver..|done].
  - apply IH; [|done]. intros x y Hx Hy. apply Hk; set_solver.
Qed.

(** With two matching rows, one has a key other than [k]. *)
Lemma filter_two_other {A K} `{EqDecision K} (key : A -> K) (P : A -> Prop) `{forall x, Decision (P x)} l k :
  NoDup (key <$> l) -> (2 <= length (filter P l))%nat -> exists b, b ∈ l /\ P b /\ key b <> k.
Proof.
  intros Hnd Hlen. pose proof (NoDup_fmap_filter key P l Hnd) as Hsub.
  assert (Hin : forall x, x ∈ filter P l -> x ∈ l /\ P x) by (intros x; rewrite list_elem_of_filter; tauto).
  destruct (filter P l) as [|x [|y rest]]; cbn in Hlen; [lia..|].
  destruct (decide (key x = k)) as [Hx|Hx].
  - exists y. destruct (Hin y) as [? ?]; [set_solver|]. split_and!; [done..|].
    intros Hy. cbn in Hsub. rewrite Hx, Hy in Hsub. apply NoDup_cons in Hsub as [Hnot _]. apply Hnot. set_solver.
  - exists x. destruct (Hin x) as [? ?]; [set_solver|]. done.
Qed.

Lemma length_filter_impl {A} (P Q : A -> Prop) `{forall x, Decision (P x), forall x, Decision (Q x)} l :
  (forall x, x ∈ l -> P x -> Q x) -> length (filter P l) <= length (filter Q l).
Proof.
  induction l as [|a l IH]; intros Himp; [done|]. rewrite !filter_cons.
  specialize (IH ltac:(set_solver)).
  destruct (decide (P a)), (decide (Q a)); cbn; try lia.
  exfalso. eauto using list_elem_of_here.
Qed.

#[export] Hint Rewrite @length_update_where @length_fmap @length_app : table.
