(* ===== verification/JsString.v ===== *)
(** * JavaScript strings

    A string is the list of its UTF-8 bytes ([String.string]).  The separators
    the program cuts at are ASCII, so prefix, suffix, split and slice at them
    agree with the UTF-16 view, and SQLite's BINARY collation compares exactly
    these bytes.  Code that counts UTF-16 units (the chunker, the webhook body)
    is modelled on lists of code units instead.

    The full Unicode case mapping and SHA-256 are parameters of the model (the
    class [Runtime]), used through the laws of [RuntimeLaws]. *)

From S2P Require Import Prelude.

#[global] Arguments String.append : simpl nomatch.

Definition starts_with (p s : string) : bool := String.prefix p s.

Fixpoint string_rev (s : string) : string :=
  match s with
  | EmptyString => EmptyString
  | String c s' => string_rev s' +:+ String c EmptyString
  end.

Definition ends_with (suffix s : string) : bool :=
  String.prefix (string_rev suffix) (string_rev s).

(** [s.slice(n)] for [n >= 0]. *)
Fixpoint drop_str (n : nat) (s : string) : string :=
  match n, s with
  | O, _ => s
  | _, EmptyString => EmptyString
  | S n', String _ s' => drop_str n' s'
  end.

(** [s.slice(0, n)] for [n >= 0]. *)
Fixpoint take_str (n : nat) (s : string) : string :=
  match n, s with
  | O, _ => EmptyString
  | _, EmptyString => EmptyString
  | S n', String c s' => String c (take_str n' s')
  end.

(** [s.slice(0, -1)]. *)
Definition drop_last_char (s : string) : string := take_str (String.length s - 1) s.

(** [s.includes(c)] for a one-byte [c]. *)
Fixpoint has_char (c : ascii) (s : string) : bool :=
  match s with
  | EmptyString => false
  | String d s' => bool_decide (c = d) || has_char c s'
  end.

(** [s.split(re)] where [re] matches exactly the one-byte separators [sep]. *)
Fixpoint split_on (sep : ascii -> bool) (s : string) : list string :=
  match s with
  | EmptyString => [EmptyString]
  | String c s' =>
      if sep c then EmptyString :: split_on sep s'
      else match split_on sep s' with
           | [] => [String c EmptyString]
           | w :: ws => String c w :: ws
           end
  end.

(** [parts.join(sep)]. *)
Fixpoint join (sep : string) (parts : list string) : string :=
  match parts with
  | [] => EmptyString
  | [p] => p
  | p :: ps => p +:+ sep +:+ join sep ps
  end.

Definition chr (n : nat) : ascii := Ascii.ascii_of_nat n.
Definition slash : ascii := "/"%char.
Definition nul : ascii := chr 0.

(** Bytes from a list of codes, for literals outside printable ASCII. *)
Definition bytes (l : list nat) : string :=
  foldr (fun n s => String (chr n) s) EmptyString l.

(** Byte order: SQLite's BINARY collation. *)
Fixpoint string_le (a b : string) : bool :=
  match a, b with
  | EmptyString, _ => true
  | String _ _, EmptyString => false
  | String x a', String y b' =>
      if Nat.ltb (Ascii.nat_of_ascii x) (Ascii.nat_of_ascii y) then true
      else if bool_decide (x = y) then string_le a' b' else false
  end.
Definition string_lt (a b : string) : bool := string_le a b && negb (bool_decide (a = b)).

(** ** [trim]: JavaScript's white space and line terminators, in UTF-8 *)

Definition js_spaces : list string :=
  [bytes [9]; bytes [10]; bytes [11]; bytes [12]; bytes [13]; bytes [32];
   bytes [194; 160]; bytes [225; 154; 128];
   bytes [226; 128; 128]; bytes [226; 128; 129]; bytes [226; 128; 130]; bytes [226; 128; 131];
   bytes [226; 128; 132]; bytes [226; 128; 133]; bytes [226; 128; 134]; bytes [226; 128; 135];
   bytes [226; 128; 136]; bytes [226; 128; 137]; bytes [226; 128; 138];
   bytes [226; 128; 168]; bytes [226; 128; 169]; bytes [226; 128; 175];
   bytes [226; 129; 159]; bytes [227; 128; 128]; bytes [239; 187; 191]].

(** The length of the first member of [ws] that [s] starts with. *)
Definition space_length (ws : list string) (s : string) : option nat :=
  String.length <$> head (filter (fun w => starts_with w s = true) ws).

Fixpoint trim_with (ws : list string) (fuel : nat) (s : string) : string :=
  match fuel with
  | O => s
  | S fuel' =>
      match space_length ws s with
      | Some n => trim_with ws fuel' (drop_str n s)
      | None => s
      end
  end.

Definition trim_start (s : string) : string := trim_with js_spaces (String.length s) s.
Definition trim_end (s : string) : string :=
  string_rev (trim_with (string_rev <$> js_spaces) (String.length s) (string_rev s)).
Definition trim (s : string) : string := trim_end (trim_start s).

(** ** [length]: the number of UTF-16 units

    A character of one to three UTF-8 bytes is one unit, one of four bytes two. *)

Definition utf16_units (lead : ascii) : Z :=
  let n := Ascii.nat_of_ascii lead in
  (if Nat.ltb n 128 then 1 else if Nat.ltb n 192 then 0 else if Nat.ltb n 240 then 1 else 2)%Z.

Fixpoint js_length (s : string) : Z :=
  match s with
  | EmptyString => 0%Z
  | String c s' => (utf16_units c + js_length s')%Z
  end.

(** ** Case *)

Definition lower_ascii_char (c : ascii) : ascii :=
  let n := Ascii.nat_of_ascii c in
  if Nat.leb 65 n && Nat.leb n 90 then chr (n + 32) else c.

(** SQLite's [lower()]: ASCII letters only. *)
Fixpoint sql_lower (s : string) : string :=
  match s with
  | EmptyString => EmptyString
  | String c s' => String (lower_ascii_char c) (sql_lower s')
  end.

Fixpoint ascii_only (s : string) : bool :=
  match s with
  | EmptyString => true
  | String c s' => Nat.ltb (Ascii.nat_of_ascii c) 128 && ascii_only s'
  end.

Fixpoint all_chars (p : ascii -> bool) (s : string) : bool :=
  match s with
  | EmptyString => true
  | String c s' => p c && all_chars p s'
  end.

(** ** What the runtime provides

    [toLowerCase] is JavaScript's Unicode mapping, [sha256hex] the lowercase
    hex digest of a string's UTF-8 bytes. *)

Class Runtime : Type := {
  toLowerCase : string -> string;
  sha256hex : string -> string
}.

(** A lower-case hex digit. *)
Definition is_hex_char (c : ascii) : bool :=
  let n := Ascii.nat_of_ascii c in (Nat.leb 48 n && Nat.leb n 57) || (Nat.leb 97 n && Nat.leb n 102).

(** The laws the theorems rely on: lower-casing agrees with SQLite's on ASCII
    text and on an ASCII suffix, and a digest is a non-empty hex string. *)
Class RuntimeLaws (rt : Runtime) : Prop := {
  toLowerCase_ascii : forall s, ascii_only s = true -> toLowerCase s = sql_lower s;
  toLowerCase_suffix : forall a b, ascii_only b = true -> exists a', toLowerCase (a +:+ b) = a' +:+ sql_lower b;
  sha256hex_nonempty : forall s, sha256hex s <> "";
  sha256hex_hex : forall s, all_chars is_hex_char (sha256hex s) = true
}.

(** ** Decimal digits: [/^\d+$/] and [Number(...)] *)

Definition is_digit (c : ascii) : bool :=
  let n := Ascii.nat_of_ascii c in Nat.leb 48 n && Nat.leb n 57.

(** [/^\d+$/.test(s)]. *)
Definition all_digits (s : string) : bool :=
  negb (bool_decide (s = "")) && all_chars is_digit s.

(** [Number(s)] of a string of digits, before rounding to a double. *)
Fixpoint digits_value (acc : Z) (s : string) : Z :=
  match s with
  | EmptyString => acc
  | String c s' => digits_value (acc * 10 + (Z.of_nat (Ascii.nat_of_ascii c) - 48)) s'
  end.

(** ** Lemmas *)

Lemma app_nil_r_str s : s +:+ "" = s.
Proof. induction s as [|c s IH]; cbn; [done|by rewrite IH]. Qed.

Lemma app_assoc_str a b c : (a +:+ b) +:+ c = a +:+ b +:+ c.
Proof. induction a as [|x a IH]; cbn; [done|by rewrite IH]. Qed.

Lemma app_inj_l_str a b c : a +:+ b = a +:+ c -> b = c.
Proof. induction a as [|x a IH]; cbn; [done|]. intros [= H]. by apply IH. Qed.

Lemma length_app_str a b : String.length (a +:+ b) = String.length a + String.length b.
Proof. induction a as [|x a IH]; cbn; [done|by rewrite IH]. Qed.

Lemma string_rev_app a b : string_rev (a +:+ b) = string_rev b +:+ string_rev a.
Proof.
  induction a as [|c a IH]; cbn; [by rewrite app_nil_r_str|]. by rewrite IH, app_assoc_str.
Qed.

Lemma string_rev_rev s : string_rev (string_rev s) = s.
Proof. induction s as [|c s IH]; cbn; [done|]. rewrite string_rev_app, IH. done. Qed.

Lemma starts_with_spec p s : starts_with p s = true <-> exists r, s = p +:+ r.
Proof.
  unfold starts_with. revert s. induction p as [|c p IH]; intros s; cbn.
  - split; [|by destruct s]. intros _. by exists s.
  - destruct s as [|d s]; cbn.
    + split; [discriminate|]. intros [r [=]].
    + destruct (ascii_dec c d) as [->|Hne].
      * rewrite IH. split; intros [r H]; exists r; [by rewrite H|by injection H].
      * split; [discriminate|]. intros [r [= -> _]]. done.
Qed.

Lemma ends_with_spec p s : ends_with p s = true <-> exists r, s = r +:+ p.
Proof.
  unfold ends_with. change String.prefix with starts_with. rewrite starts_with_spec. split.
  - intros [r H]. exists (string_rev r).
    rewrite <- (string_rev_rev s), H, string_rev_app, string_rev_rev. done.
  - intros [r ->]. rewrite string_rev_app. eauto.
Qed.

Lemma starts_with_app p s : starts_with p (p +:+ s) = true.
Proof. apply starts_with_spec. eauto. Qed.

Lemma ends_with_app p s : ends_with p (s +:+ p) = true.
Proof. apply ends_with_spec. eauto. Qed.

Lemma drop_str_app a b : drop_str (String.length a) (a +:+ b) = b.
Proof. induction a; cbn; [by destruct b|done]. Qed.

Lemma take_str_app a b : take_str (String.length a) (a +:+ b) = a.
Proof. induction a as [|c a IH]; cbn; [by destruct b|by rewrite IH]. Qed.

Lemma drop_last_char_app a c : drop_last_char (a +:+ String c "") = a.
Proof.
  unfold drop_last_char. rewrite length_app_str. cbn.
  replace (String.length a + 1 - 1) with (String.length a) by lia. apply take_str_app.
Qed.

Lemma all_chars_app p a b : all_chars p (a +:+ b) = all_chars p a && all_chars p b.
Proof. induction a as [|c a IH]; cbn; [done|]. by rewrite IH, andb_assoc. Qed.

Lemma digits_value_nonneg acc s : all_chars is_digit s = true -> (0 <= acc)%Z -> (0 <= digits_value acc s)%Z.
Proof.
  revert acc. induction s as [|c s IH]; intros acc H Hacc; [done|]. cbn in H |- *.
  apply andb_true_iff in H as [Hc Hs]. apply IH; [done|]. unfold is_digit in Hc.
  apply andb_true_iff in Hc as [Hc _]. apply Nat.leb_le in Hc. lia.
Qed.

(** ** Lemmas on [trim] *)

(** No white space of JavaScript starts, or ends, with this byte. *)
Definition never_space (c : ascii) : bool :=
  forallb (fun w => match w with String d _ => negb (bool_decide (c = d)) | EmptyString => false end)
    (js_spaces ++ (string_rev <$> js_spaces)).

Lemma space_length_none ws c s :
  forallb (fun w => match w with String d _ => negb (bool_decide (c = d)) | EmptyString => false end) ws = true ->
  space_length ws (String c s) = None.
Proof.
  unfold space_length. induction ws as [|w ws IH]; [done|]. cbn [forallb].
  intros [Hw Hws]%andb_true_iff. rewrite filter_cons_False; [by apply IH|].
  destruct w as [|d w]; [discriminate|]. cbn. destruct (ascii_dec d c) as [->|]; [|discriminate].
  by rewrite bool_decide_true in Hw.
Qed.

Lemma never_space_start c s : never_space c = true -> space_length js_spaces (String c s) = None.
Proof.
  unfold never_space. rewrite forallb_app. intros [H1 _]%andb_true_iff. by apply space_length_none.
Qed.

Lemma never_space_end c s :
  never_space c = true -> space_length (string_rev <$> js_spaces) (String c s) = None.
Proof.
  unfold never_space. rewrite forallb_app. intros [_ H2]%andb_true_iff. by apply space_length_none.
Qed.

Lemma trim_with_stop ws n s : space_length ws s = None -> trim_with ws n s = s.
Proof. intros Hs. destruct n; cbn; [done|]. by rewrite Hs. Qed.

Lemma all_chars_rev p s : all_chars p (string_rev s) = all_chars p s.
Proof.
  induction s as [|c s IH]; cbn; [done|]. rewrite all_chars_app, IH. cbn. rewrite andb_true_r. apply andb_comm.
Qed.

Lemma length_string_rev s : String.length (string_rev s) = String.length s.
Proof. induction s as [|c s IH]; cbn; [done|]. rewrite length_app_str, IH. cbn. lia. Qed.

(** Text without a byte of white space is not trimmed. *)
Lemma trim_no_space s : all_chars never_space s = true -> trim s = s.
Proof.
  intros Hs. unfold trim, trim_end, trim_start.
  assert (Hstart : trim_with js_spaces (String.length s) s = s).
  { destruct s as [|c s]; [done|]. apply trim_with_stop, never_space_start. cbn in Hs. by apply andb_true_iff in Hs as [? _]. }
  rewrite Hstart, trim_with_stop; [apply string_rev_rev|].
  destruct (string_rev s) as [|c r] eqn:E; [done|]. apply never_space_end.
  rewrite <- all_chars_rev, E in Hs. cbn in Hs. by apply andb_true_iff in Hs as [? _].
Qed.

Lemma has_char_app c a b : has_char c (a +:+ b) = has_char c a || has_char c b.
Proof. induction a as [|d a IH]; cbn; [done|]. by rewrite IH, orb_assoc. Qed.

Lemma split_on_nonempty sep s : split_on sep s <> [].
Proof.
  destruct s as [|c s]; cbn; [done|]. destruct (sep c); [done|].
  by destruct (split_on sep s).
Qed.

Lemma split_on_app_sep sep a c b :
  sep c = true -> split_on sep (a +:+ String c b) = split_on sep a ++ split_on sep b.
Proof.
  intros Hc. induction a as [|d a IH]; cbn; [by rewrite Hc|].
  destruct (sep d); [by rewrite IH|]. rewrite IH.
  destruct (split_on sep a) eqn:E; [by apply split_on_nonempty in E|]. done.
Qed.

Lemma split_on_lacks sep s : (forall c, has_char c s = true -> sep c = false) -> split_on sep s = [s].
Proof.
  induction s as [|d s IH]; cbn; intros Hs; [done|]. rewrite (Hs d) by (by rewrite bool_decide_true).
  rewrite IH; [done|]. intros c Hc. apply Hs. by rewrite Hc, orb_true_r.
Qed.

Lemma split_on_no_sep c s : has_char c s = false -> split_on (fun d => bool_decide (d = c)) s = [s].
Proof. intros Hc. apply split_on_lacks. intros d Hd. apply bool_decide_eq_false. congruence. Qed.

(** Cutting at more separators cuts each piece again. *)
Lemma split_on_refine (sep1 sep2 : ascii -> bool) s :
  (forall c, sep1 c = true -> sep2 c = true) ->
  split_on sep2 s = split_on sep1 s ≫= split_on sep2.
Proof.
  intros Himp. induction s as [|c s IH]; cbn; [done|].
  destruct (sep1 c) eqn:E1.
  - rewrite (Himp c E1). cbn. by rewrite IH.
  - destruct (split_on sep1 s) as [|w ws] eqn:E; [by apply split_on_nonempty in E|].
    cbn in IH |- *. destruct (sep2 c); rewrite IH; [done|].
    destruct (split_on sep2 w) eqn:Ew; [by apply split_on_nonempty in Ew|]. done.
Qed.

Lemma join_split c s :
  join (String c "") (split_on (fun d => bool_decide (d = c)) s) = s.
Proof.
  induction s as [|d s IH]; cbn; [done|]. case_bool_decide as Hd.
  - subst d. destruct (split_on _ s) eqn:E; [by apply split_on_nonempty in E|].
    cbn in IH |- *. by rewrite IH.
  - destruct (split_on _ s) as [|w ws] eqn:E; [by apply split_on_nonempty in E|].
    destruct ws; cbn in IH |- *; by rewrite IH.
Qed.

Lemma sql_lower_idem s : sql_lower (sql_lower s) = sql_lower s.
Proof.
  induction s as [|c s IH]; cbn; [done|]. rewrite IH. f_equal.
  destruct c as [[] [] [] [] [] [] [] []]; reflexivity.
Qed.

Lemma string_le_refl s : string_le s s = true.
Proof.
  induction s as [|c s IH]; cbn -[Nat.ltb]; [done|].
  rewrite Nat.ltb_irrefl, bool_decide_true by done. done.
Qed.

(** ** A concrete runtime, for witnesses: ASCII case, digest = the bytes in hex *)

Definition hex_digit (n : nat) : ascii := chr (if Nat.ltb n 10 then 48 + n else 87 + n).

Fixpoint to_hex (s : string) : string :=
  match s with
  | EmptyString => EmptyString
  | String c s' =>
      let n := Ascii.nat_of_ascii c in
      String (hex_digit (n / 16)) (String (hex_digit (n mod 16)) (to_hex s'))
  end.

(** A digest that is hex, and injective. *)
Definition toy_digest (s : string) : string := String "e" (to_hex s).

Definition ascii_runtime : Runtime := {| toLowerCase := sql_lower; sha256hex := toy_digest |}.

#[export] Instance ascii_runtime_laws : RuntimeLaws ascii_runtime.
Proof.
  split; cbn.
  - done.
  - intros a b _. exists (sql_lower a). induction a as [|c a IH]; cbn; [done|by rewrite IH].
  - done.
  - induction s as [|c s IH]; cbn -[hex_digit Nat.div Nat.modulo]; [done|].
    assert (Hn : forall n, n < 16 -> is_hex_char (hex_digit n) = true).
    { intros n Hn. do 16 (destruct n as [|n]; [done|]). lia. }
    pose proof (Ascii.nat_ascii_bounded c).
    rewrite !Hn; [exact IH| |apply Nat.Div0.div_lt_upper_bound; lia].
    apply Nat.mod_upper_bound. lia.
Qed.

(** No character of a digest is outside hex. *)
Lemma sha256hex_lacks {rt : Runtime} {RL : RuntimeLaws rt} c s : is_hex_char c = false -> has_char c (sha256hex s) = false.
Proof.
  intros Hc. pose proof (sha256hex_hex s) as H. revert H. generalize (sha256hex s). intros t.
  induction t as [|d t IH]; [done|]. cbn [all_chars has_char]. intros [Hd Ht]%andb_true_iff. rewrite (IH Ht), orb_false_r.
  apply bool_decide_eq_false. congruence.
Qed.

Lemma sha256hex_no_colon {rt : Runtime} {RL : RuntimeLaws rt} s : has_char ":"%char (sha256hex s) = false.
Proof. by apply sha256hex_lacks. Qed.
