(* ===== verification/Errors.v ===== *)
(** * The error classes of core/src/errors.ts and their HTTP form

    [AgentFSError] and its subclasses are the constructors of one type; the
    message, code and JSON body are functions of the constructor.  [JsError] is
    a plain [new Error(message)]; [ForeignError] is an exception of code outside
    the repository (SQLite, the S3 client, the file system), of which the ops
    look only at [name], at [$metadata.httpStatusCode] and at whether it has a
    [code].  [getStatusCode] and [handleError] are the server's error
    middleware. *)

From S2P Require Import Prelude.

(** ** The classes (errors.ts) *)

Inductive error : Type :=
| AgentFSError (code message : string) (suggestion : option string)
| NotFoundError (message : string) (path suggestion : option string)
| PermissionDeniedError (message : string) (requiredRole yourRole suggestion : option string)
| EditConflictError (message : string) (path suggestion : option string)
| IndexingInProgressError (message : string) (path suggestion : option string)
| ValidationError (message : string) (field suggestion : option string)
| EmbeddingProviderError (message : string)
| UnsupportedOperation (operation : string) (backend suggestion : option string)
| PresenceLimitError
| JsError (message : string)
| ForeignError (name message : string) (httpStatus : option Z) (has_code : bool).

#[export] Instance error_eq_dec : EqDecision error.
Proof. solve_decision. Defined.

(** [readonly code] of an AgentFSError. *)
Definition error_code (e : error) : option string :=
  match e with
  | AgentFSError code _ _ => Some code
  | NotFoundError _ _ _ => Some "NOT_FOUND"
  | PermissionDeniedError _ _ _ _ => Some "PERMISSION_DENIED"
  | EditConflictError _ _ _ => Some "EDIT_CONFLICT"
  | IndexingInProgressError _ _ _ => Some "INDEXING_IN_PROGRESS"
  | ValidationError _ _ _ => Some "VALIDATION_ERROR"
  | EmbeddingProviderError _ => Some "EMBEDDING_PROVIDER_ERROR"
  | UnsupportedOperation _ _ _ => Some "UNSUPPORTED_OPERATION"
  | PresenceLimitError => Some "RATE_LIMITED"
  | JsError _ | ForeignError _ _ _ _ => None
  end.

(** JavaScript truthiness of an optional string: absent and [""] are falsy. *)
Definition truthy (o : option string) : option string :=
  match o with
  | Some EmptyString => None
  | _ => o
  end.

Definition error_message (e : error) : string :=
  match e with
  | AgentFSError _ m _ | NotFoundError m _ _ | PermissionDeniedError m _ _ _
  | EditConflictError m _ _ | IndexingInProgressError m _ _ | ValidationError m _ _
  | EmbeddingProviderError m | JsError m | ForeignError _ m _ _ => m
  | UnsupportedOperation operation backend _ =>
      match truthy backend with
      | Some b => "Operation '" +:+ operation +:+ "' is not supported by the '" +:+ b
                    +:+ "' storage backend"
      | None => "Operation '" +:+ operation
                  +:+ "' is not supported by the current storage backend"
      end
  | PresenceLimitError => "Too many presence sessions for this user and drive"
  end.

Definition error_suggestion (e : error) : option string :=
  match e with
  | AgentFSError _ _ s | NotFoundError _ _ s | PermissionDeniedError _ _ _ s
  | EditConflictError _ _ s | ValidationError _ _ s => s
  | IndexingInProgressError _ _ s => Some (s ?? "Try again in a moment")
  | EmbeddingProviderError _ =>
      Some "Check the embedding provider configuration, then try again"
  | UnsupportedOperation _ _ s =>
      Some (s ?? "Use a backend that supports this operation (e.g. an S3/MinIO or local-FS drive)")
  | PresenceLimitError | JsError _ | ForeignError _ _ _ _ => None
  end.

(** [...(v && { k: v })]: the field appears only when [v] is truthy. *)
Definition opt_field (k : string) (v : option string) : list (string * string) :=
  match truthy v with
  | Some x => [(k, x)]
  | None => []
  end.

(** [toJSON] of the base class. *)
Definition base_toJSON (e : error) : list (string * string) :=
  match error_code e with
  | Some c => [("error", c); ("message", error_message e)] ++ opt_field "suggestion" (error_suggestion e)
  | None => []
  end.

(** [toJSON]; [None] for an exception that is not an AgentFSError. *)
Definition toJSON (e : error) : option (list (string * string)) :=
  match e with
  | AgentFSError _ _ _ | EmbeddingProviderError _ | PresenceLimitError => Some (base_toJSON e)
  | NotFoundError _ path _ | EditConflictError _ path _ | IndexingInProgressError _ path _ =>
      Some (base_toJSON e ++ opt_field "path" path)
  | PermissionDeniedError _ requiredRole yourRole _ =>
      Some (base_toJSON e ++ opt_field "required_role" requiredRole ++ opt_field "your_role" yourRole)
  | ValidationError _ field _ => Some (base_toJSON e ++ opt_field "field" field)
  | UnsupportedOperation operation backend _ =>
      Some (base_toJSON e ++ [("operation", operation)] ++ opt_field "backend" backend)
  | JsError _ | ForeignError _ _ _ _ => None
  end.

(** ** The error middleware (server/src/middleware/error.ts) *)

Definition getStatusCode (e : error) : Z :=
  match e with
  | NotFoundError _ _ _ => 404
  | PermissionDeniedError _ _ _ _ => 403
  | EditConflictError _ _ _ => 409
  | IndexingInProgressError _ _ _ => 503
  | ValidationError _ _ _ => 400
  | UnsupportedOperation _ _ _ => 422
  | EmbeddingProviderError _ => 502
  | PresenceLimitError => 429
  | AgentFSError _ _ _ => 400
  | ForeignError _ _ _ has_code => if has_code then 400 else 500
  | JsError _ => 500
  end.

Definition handleError (e : error) : Z * list (string * string) :=
  let status := getStatusCode e in
  match toJSON e with
  | Some body => (status, body)
  | None => (status, [("error", "INTERNAL_ERROR"); ("message", error_message e)])
  end.

(** ** Shapes the ops look at *)

(** [err?.name === "NoSuchKey" || err?.$metadata?.httpStatusCode === 404]. *)
Definition is_no_such_key (e : error) : bool :=
  match e with
  | ForeignError name _ st _ => bool_decide (name = "NoSuchKey") || bool_decide (st = Some 404%Z)
  | _ => false
  end.

(** ... as above, or [err?.name === "NotFound"]. *)
Definition is_storage_not_found (e : error) : bool :=
  match e with
  | ForeignError name _ _ _ => bool_decide (name = "NotFound") || is_no_such_key e
  | _ => false
  end.

(** A uniqueness or foreign-key violation as bun:sqlite throws it. *)
Definition sqlite_unique (columns : string) : error :=
  ForeignError "SQLiteError" ("UNIQUE constraint failed: " +:+ columns) None true.
Definition sqlite_foreign_key : error :=
  ForeignError "SQLiteError" "FOREIGN KEY constraint failed" None true.

(** ** Lemmas *)

(** The body of every AgentFSError starts with its code and its message. *)
Lemma toJSON_head e c :
  error_code e = Some c ->
  exists rest, toJSON e = Some (("error", c) :: ("message", error_message e) :: rest).
Proof.
  destruct e; cbn; intros [= <-]; unfold base_toJSON; cbn; eexists; reflexivity.
Qed.

Lemma getStatusCode_range e : (400 <= getStatusCode e <= 503)%Z.
Proof. destruct e; cbn; try lia. destruct has_code; lia. Qed.
