(* ===== verification/Paths.v ===== *)
(** * Paths and keys: core/src/ops/paths.ts, core/src/storage/key-guard.ts

    The path conventions of the ops, the guard that keeps a path or a storage
    key inside one drive, and the storage key of a file.  The theorems say what
    the conventions are, that the guard is exactly the absence of dot segments
    and NUL bytes, and that a key that passes it resolves, under the file
    system's rules for [.] and [..], inside the drive it was built for. *)

From S2P Require Import Prelude JsString Errors.

(** ** paths.ts *)

Definition normalizePath (path : string) : string :=
  let p := if starts_with "/" path then path else "/" +:+ path in
  if bool_decide (1 < String.length p) && ends_with "/" p then drop_last_char p else p.

Definition normalizePrefix (path : string) : string :=
  let p := if starts_with "/" path then path else "/" +:+ path in
  if ends_with "/" p then p else p +:+ "/".

Definition withLeadingSlash (path : string) : string :=
  if starts_with "/" path then path else "/" +:+ path.

Definition stripLeadingSlash (path : string) : string :=
  if starts_with "/" path then drop_str 1 path else path.

(** The separators of [split(/[\\/]/)]. *)
Definition is_separator (c : ascii) : bool :=
  bool_decide (c = slash) || bool_decide (c = chr 92).

Definition has_dot_segment (path : string) : bool :=
  existsb (fun segment => bool_decide (segment = ".") || bool_decide (segment = ".."))
          (split_on is_separator path).

Definition nul_error : error :=
  ValidationError "Path must not contain NUL bytes" (Some "path") None.
Definition dot_error : error :=
  ValidationError "Path must not contain '.' or '..' segments" (Some "path")
    (Some "Use the absolute path of the file inside the drive, e.g. /docs/report.pdf").

Definition assertPathInsideDrive (path : string) : outcome error unit :=
  if has_char nul path then Throw nul_error
  else if has_dot_segment path then Throw dot_error
  else Ok tt.

(** ** key-guard.ts *)

Definition assertKeyInsideDrive (key : string) : outcome error unit :=
  if has_char nul key then Throw nul_error
  else if has_dot_segment key then Throw dot_error
  else Ok tt.

(** ** versioning.ts: the storage key of a file *)

Definition getS3Key (orgId driveId path : string) : string :=
  let normalized := stripLeadingSlash path in
  orgId +:+ "/drives/" +:+ driveId +:+ "/" +:+ normalized.

(** ** What a key names on a file system

    [path.resolve(root, key)] walks the segments of the key: an empty segment
    and [.] stay, [..] climbs, anything else descends.  [resolve_segments]
    gives the place reached, as the list of directories below the root, or
    [None] when a [..] climbs above the root. *)

Definition is_slash (c : ascii) : bool := bool_decide (c = slash).

Fixpoint resolve_segments (at_ : list string) (segments : list string) : option (list string) :=
  match segments with
  | [] => Some at_
  | seg :: rest =>
      if bool_decide (seg = "") || bool_decide (seg = ".") then resolve_segments at_ rest
      else if bool_decide (seg = "..") then
        match at_ with
        | [] => None
        | _ => resolve_segments (removelast at_) rest
        end
      else resolve_segments (at_ ++ [seg]) rest
  end.

Definition resolve (key : string) : option (list string) :=
  resolve_segments [] (split_on is_slash key).

(** An identifier that is one path segment (ids are UUIDs). *)
Definition plain_segment (s : string) : Prop :=
  s <> "" /\ s <> "." /\ s <> ".." /\ has_char slash s = false.

(** ** Lemmas *)

Lemma withLeadingSlash_rooted p : exists q, withLeadingSlash p = "/" +:+ q.
Proof.
  unfold withLeadingSlash. destruct (starts_with "/" p) eqn:E; [|by eexists].
  by apply starts_with_spec in E as [q ->]; eexists.
Qed.

(** The second step of [normalizePath]. *)
Definition strip_trailing (p : string) : string :=
  if bool_decide (1 < String.length p) && ends_with "/" p then drop_last_char p else p.

Lemma normalizePath_eq p : normalizePath p = strip_trailing (withLeadingSlash p).
Proof. done. Qed.

Lemma normalizePath_fixed p :
  starts_with "/" p = true -> p = "/" \/ ends_with "/" p = false -> normalizePath p = p.
Proof.
  intros Hs Hc. unfold normalizePath. rewrite Hs.
  destruct Hc as [-> | ->]; [done|]. by rewrite andb_false_r.
Qed.

Lemma trailing_slash_removed w :
  ends_with "/" w = true -> 1 < String.length w -> starts_with "/" w = true ->
  ends_with "//" w = false ->
  exists a, w = a +:+ "/" /\ starts_with "/" a = true /\ ends_with "/" a = false.
Proof.
  intros [a ->]%ends_with_spec Hl Hs Hd. exists a. split; [done|]. split.
  - destruct a as [|c a]; [cbn in Hl; lia|]. cbn in Hs |- *. by destruct (ascii_dec "/" c); destruct a.
  - apply not_true_iff_false. intros [b ->]%ends_with_spec.
    apply not_true_iff_false in Hd. apply Hd. rewrite app_assoc_str. apply ends_with_app.
Qed.

Lemma stripLeadingSlash_normalized p :
  starts_with "/" p = true -> "/" +:+ stripLeadingSlash p = p.
Proof.
  intros H. unfold stripLeadingSlash. rewrite H.
  apply starts_with_spec in H as [r ->]. cbn. by destruct r.
Qed.

Lemma separator_of_slash c : is_slash c = true -> is_separator c = true.
Proof. unfold is_slash, is_separator. by intros ->. Qed.

(** A path without dot segments has none between slashes either. *)
Lemma no_dot_segment_slash path seg :
  has_dot_segment path = false -> seg ∈ split_on is_slash path -> seg <> "." /\ seg <> "..".
Proof.
  unfold has_dot_segment. rewrite (split_on_refine is_slash is_separator path separator_of_slash).
  intros Hno Hseg.
  assert (Hin : forall s, (s = "." \/ s = "..") -> seg <> s).
  { intros s Hs ->. apply not_true_iff_false in Hno. apply Hno, existsb_exists. exists s. split.
    - apply list_elem_of_In, list_elem_of_bind. exists s. split; [|done].
      destruct Hs as [-> | ->]; vm_compute; apply list_elem_of_here.
    - destruct Hs as [-> | ->]; done. }
  split; apply Hin; auto.
Qed.

(** Without dot segments, resolution only descends. *)
Lemma resolve_segments_descend at_ segs :
  (forall s, s ∈ segs -> s <> "." /\ s <> "..") ->
  resolve_segments at_ segs = Some (at_ ++ filter (fun s => s <> "") segs).
Proof.
  revert at_. induction segs as [|s segs IH]; intros at_ H; cbn [resolve_segments].
  { cbn. by rewrite app_nil_r. }
  destruct (H s ltac:(set_solver)) as [H1 H2].
  rewrite (bool_decide_false (s = ".")), (bool_decide_false (s = "..")) by done.
  case_bool_decide as He; cbn [orb].
  - rewrite filter_cons_False by naive_solver. apply IH. set_solver.
  - rewrite filter_cons_True by done. rewrite IH by set_solver. by rewrite <- app_assoc.
Qed.

Lemma split_plain s : plain_segment s -> split_on is_slash s = [s].
Proof. intros (_ & _ & _ & H). apply (split_on_no_sep slash s H). Qed.

(** The segments of a key. *)
Lemma split_getS3Key o d p :
  plain_segment o -> plain_segment d ->
  split_on is_slash (getS3Key o d p) = o :: "drives" :: d :: split_on is_slash (stripLeadingSlash p).
Proof.
  intros Ho Hd. unfold getS3Key.
  change ("/drives/" +:+ ?x) with (String slash ("drives" +:+ String slash x)).
  rewrite split_on_app_sep by done. rewrite split_plain by done. cbn [app].
  rewrite split_on_app_sep by done. change ("/" +:+ ?x) with (String slash x).
  rewrite split_on_app_sep by done. rewrite (split_plain d) by done. done.
Qed.

(** The assertion passes exactly on paths with no NUL byte and no dot segment. *)
Lemma assertPathInsideDrive_ok path :
  assertPathInsideDrive path = Ok tt <-> has_char nul path = false /\ has_dot_segment path = false.
Proof.
  unfold assertPathInsideDrive. destruct (has_char nul path), (has_dot_segment path); naive_solver.
Qed.

Lemma assertKeyInsideDrive_path key : assertKeyInsideDrive key = assertPathInsideDrive key.
Proof. done. Qed.

(** The names on a path. *)
Definition path_names (p : string) : list string := filter (fun s => s <> "") (split_on is_slash p).

Lemma path_names_slash a b : path_names (a +:+ String slash b) = path_names a ++ path_names b.
Proof. unfold path_names. by rewrite split_on_app_sep, filter_app. Qed.

Lemma path_names_rooted b : path_names (String slash b) = path_names b.
Proof. exact (path_names_slash "" b). Qed.

Lemma path_names_strip p : path_names (stripLeadingSlash p) = path_names p.
Proof.
  unfold stripLeadingSlash. destruct (starts_with "/" p) eqn:E; [|done].
  apply starts_with_spec in E as [r ->]. change (drop_str 1 ("/" +:+ r)) with (drop_str (String.length "/") ("/" +:+ r)).
  rewrite drop_str_app. symmetry. apply path_names_rooted.
Qed.

Lemma path_names_prefix p r : path_names (normalizePrefix p +:+ r) = path_names p ++ path_names r.
Proof.
  unfold normalizePrefix. fold (withLeadingSlash p).
  assert (Hw : path_names (withLeadingSlash p) = path_names p).
  { unfold withLeadingSlash. destruct (starts_with "/" p); [done|]. apply path_names_rooted. }
  destruct (ends_with "/" (withLeadingSlash p)) eqn:E.
  - apply ends_with_spec in E as [q Hq]. rewrite Hq in Hw |- *. rewrite app_assoc_str.
    change ("/" +:+ r) with (String slash r). rewrite path_names_slash. change "/" with (String slash "") in Hw. rewrite path_names_slash, app_nil_r in Hw. by rewrite Hw.
  - rewrite app_assoc_str. change ("/" +:+ r) with (String slash r). by rewrite path_names_slash, Hw.
Qed.

(** A key without dot names resolves to its names. *)
Lemma key_of_names o d p :
  plain_segment o -> plain_segment d -> (forall s, s ∈ path_names p -> s <> "." /\ s <> "..") ->
  resolve (getS3Key o d p) = Some (o :: "drives" :: d :: path_names p).
Proof.
  intros Ho Hd Hp. unfold resolve. rewrite split_getS3Key by done.
  rewrite <- path_names_strip in Hp |- *. rewrite resolve_segments_descend.
  - cbn [app]. rewrite !filter_cons. rewrite !decide_True; [done|apply Hd|done|apply Ho].
  - intros s Hs. destruct (decide (s = "")) as [->|Hne]; [done|].
    repeat (apply elem_of_cons in Hs as [->|Hs]; [unfold plain_segment in *; naive_solver|]).
    apply Hp. by apply list_elem_of_filter.
Qed.

Lemma no_dot_names p s : has_dot_segment p = false -> s ∈ path_names p -> s <> "." /\ s <> "..".
Proof. intros Hp [_ Hs]%list_elem_of_filter. by eapply no_dot_segment_slash. Qed.

(** ** Properties *)

(** C3: Tenant containment on a file-system backend.  Whatever path a caller
    supplies, if the key built for their own org and drive passes
    [assertKeyInsideDrive], then resolving it the way a file system resolves
    [.] and [..] reaches a place strictly inside [<org>/drives/<drive>]. *)
Theorem key_resolves_inside_drive o d p :
  plain_segment o -> plain_segment d ->
  assertKeyInsideDrive (getS3Key o d p) = Ok tt ->
  exists rest, resolve (getS3Key o d p) = Some (o :: "drives" :: d :: rest) /\
    rest = filter (fun s => s <> "") (split_on is_slash (stripLeadingSlash p)).
Proof.
  intros Ho Hd [_ Hdot]%assertPathInsideDrive_ok. eexists. split; [|done].
  unfold resolve. rewrite resolve_segments_descend by (intros; by eapply no_dot_segment_slash).
  rewrite split_getS3Key by done. cbn [app]. rewrite !filter_cons.
  rewrite !decide_True; [done|apply Hd|done|apply Ho].
Qed.

(** A path whose key passes the guard, and one that would leave the drive: the
    guard refuses it although it resolves to another tenant's drive. *)
Lemma key_resolves_inside_drive_witness :
  resolve (getS3Key "o1" "d1" "/docs//a.md") = Some ["o1"; "drives"; "d1"; "docs"; "a.md"] /\
  resolve (getS3Key "o1" "d1" "/../../../o2/drives/d2/x") = Some ["o2"; "drives"; "d2"; "x"] /\
  assertKeyInsideDrive (getS3Key "o1" "d1" "/../../../o2/drives/d2/x") = Throw dot_error.
Proof.
  split; [|split; reflexivity].
  destruct (key_resolves_inside_drive "o1" "d1" "/docs//a.md") as (rest & H & ->);
    [repeat split; (discriminate || reflexivity)..|reflexivity|exact H].
Defined.

(** Storage keys do not collide.  Two keys of normalized paths are equal
    only for the same org, the same drive and the same path, so no write of one
    tenant lands on a key of another. *)
Theorem getS3Key_injective o d p o' d' p' :
  plain_segment o -> plain_segment d -> plain_segment o' -> plain_segment d' ->
  starts_with "/" p = true -> starts_with "/" p' = true ->
  getS3Key o d p = getS3Key o' d' p' -> o = o' /\ d = d' /\ p = p'.
Proof.
  intros Ho Hd Ho' Hd' Hp Hp' H.
  pose proof (f_equal (split_on is_slash) H) as Hs.
  rewrite !split_getS3Key in Hs by done. injection Hs as <- <- Hs.
  split_and!; [done..|]. rewrite <- (stripLeadingSlash_normalized p Hp).
  rewrite <- (stripLeadingSlash_normalized p' Hp'). f_equal.
  rewrite <- (join_split slash (stripLeadingSlash p)), <- (join_split slash (stripLeadingSlash p')).
  unfold is_slash in Hs. by rewrite Hs.
Qed.

Lemma getS3Key_injective_witness :
  "o" = "o" /\ "d" = "d" /\ normalizePath "a/b" = normalizePath "/a/b/".
Proof. apply getS3Key_injective; [repeat split; (discriminate || reflexivity)..|reflexivity| |]; reflexivity. Defined.

(** [normalizePath] puts every path in canonical form.  Unless the input ends
    in two slashes, the result is rooted, is [/] or has no trailing slash, is a
    fixed point of [normalizePath], and names the input up to the added leading
    slash and the removed trailing one. *)
Theorem normalizePath_canonical p :
  ends_with "//" (withLeadingSlash p) = false ->
  starts_with "/" (normalizePath p) = true /\
  (normalizePath p = "/" \/ ends_with "/" (normalizePath p) = false) /\
  normalizePath (normalizePath p) = normalizePath p /\
  (withLeadingSlash p = normalizePath p \/ withLeadingSlash p = normalizePath p +:+ "/").
Proof.
  intros Hend. rewrite normalizePath_eq. destruct (withLeadingSlash_rooted p) as [q Hq].
  set (w := withLeadingSlash p) in *. assert (Hw : starts_with "/" w = true) by (by rewrite Hq, starts_with_app).
  unfold strip_trailing. case_bool_decide as Hl; cbn [andb].
  - destruct (ends_with "/" w) eqn:E.
    + destruct (trailing_slash_removed w E Hl Hw Hend) as (a & Ea & Ha & Ha').
      assert (Hd : drop_last_char w = a) by (rewrite Ea; apply drop_last_char_app).
      rewrite Hd, normalizePath_fixed by auto. auto 6.
    + rewrite normalizePath_fixed by auto. auto 6.
  - rewrite Hq in Hl |- *. destruct q as [|c q]; [|cbn in Hl; lia]. cbn. auto 6.
Qed.

Lemma normalizePath_canonical_witness :
  ends_with "//" (withLeadingSlash "docs/a.md/") = false /\ normalizePath "docs/a.md/" = "/docs/a.md" /\
  normalizePath (normalizePath "docs/a.md/") = normalizePath "docs/a.md/".
Proof. split; [reflexivity|]. split; [reflexivity|]. by apply normalizePath_canonical. Defined.

(** The convention "no trailing slash" of the header of paths.ts does not hold
    of an input that ends in two slashes. *)
Lemma normalizePath_double_slash : normalizePath "a//" = "/a/" /\ normalizePath "/a/" = "/a".
Proof. split; reflexivity. Qed.
