(* ===== verification/Schema.v ===== *)
(** * The database of core/src/db/schema.ts

    One record per table row, one list of rows per table (in rowid order) and
    [Db], the whole database.  A column declared [.notNull()] has its type, any
    other an [option]; an [enum] column is an inductive type; a JSON column holds
    the decoded value.  Columns of mode "timestamp" hold epoch milliseconds cut
    to the second ([ts_sec]), as drizzle stores them; columns of mode
    "timestamp_ms" hold epoch milliseconds.

    [insert_*] are the INSERT statements: they refuse a row that repeats a
    primary key or a unique index, or that names a missing row through a foreign
    key (core/src/db/index.ts turns [foreign_keys] on). *)

From S2P Require Import Prelude Errors.

#[global] Open Scope Z_scope.

(** ** Column types *)

Inductive Role : Type := Viewer | Editor | Admin.
Inductive EmbeddingStatus : Type := EsPending | EsIndexed | EsFailed | EsSkipped.
Inductive ImageEmbeddingStatus : Type := IsPending | IsIndexed | IsFailed.
Inductive FileOperation : Type := OpWrite | OpEdit | OpAppend | OpDelete | OpRevert.
Inductive EventStatus : Type := EvCreated | EvAck | EvDeleted.
Inductive DisabledReason : Type := DrGone | DrFailing | DrManual.
Inductive DeliveryStatus : Type := DsPending | DsDelivered | DsFailed.
Inductive ChunkKind : Type := TextChunk | ImageChunk.
Inductive ShareKind : Type := ShareFile | ShareSite.
Inductive EntryKind : Type := KindFile | KindDirectory.

(** JSON values, for the columns and payloads that hold them; [JDate] is a date,
    which serialises as its ISO string. *)
Inductive json : Type :=
| JNull
| JBool (b : bool)
| JNum (n : Z)
| JStr (s : string)
| JDate (ms : Z)
| JArr (l : list json)
| JObj (fields : list (string * json)).

#[export] Instance Role_eq_dec : EqDecision Role.
Proof. solve_decision. Defined.
#[export] Instance EmbeddingStatus_eq_dec : EqDecision EmbeddingStatus.
Proof. solve_decision. Defined.
#[export] Instance ImageEmbeddingStatus_eq_dec : EqDecision ImageEmbeddingStatus.
Proof. solve_decision. Defined.
#[export] Instance FileOperation_eq_dec : EqDecision FileOperation.
Proof. solve_decision. Defined.
#[export] Instance EventStatus_eq_dec : EqDecision EventStatus.
Proof. solve_decision. Defined.
#[export] Instance DisabledReason_eq_dec : EqDecision DisabledReason.
Proof. solve_decision. Defined.
#[export] Instance DeliveryStatus_eq_dec : EqDecision DeliveryStatus.
Proof. solve_decision. Defined.
#[export] Instance ChunkKind_eq_dec : EqDecision ChunkKind.
Proof. solve_decision. Defined.
#[export] Instance ShareKind_eq_dec : EqDecision ShareKind.
Proof. solve_decision. Defined.
#[export] Instance EntryKind_eq_dec : EqDecision EntryKind.
Proof. solve_decision. Defined.

(** The text of a role. *)
Definition role_name (r : Role) : string :=
  match r with Viewer => "viewer" | Editor => "editor" | Admin => "admin" end.

(** A date as a "timestamp" column stores it: [Math.floor(ms / 1000)] seconds. *)
Definition ts_sec (ms : Z) : Z := ms / 1000 * 1000.

(** ** Rows *)

Record User : Type := {
  usr_id : string;
  usr_email : string;
  usr_displayName : option string;
  usr_apiKeyHash : string;
  usr_createdAt : Z
}.

Record UserApiKey : Type := {
  key_id : string;
  key_userId : string;
  key_keyHash : string;
  key_label : string;
  key_createdAt : Z;
  key_lastUsedAt : option Z;
  key_revokedAt : option Z;
  key_createdByUserId : string;
  key_orgId : option string
}.

Record Org : Type := {
  org_id : string;
  org_name : string;
  org_isPersonal : bool;
  org_createdAt : Z
}.

Record OrgMember : Type := {
  om_orgId : string;
  om_userId : string;
  om_role : Role
}.

Record Drive : Type := {
  drv_id : string;
  drv_orgId : string;
  drv_name : string;
  drv_isDefault : bool;
  drv_createdAt : Z
}.

Record DriveMember : Type := {
  dm_driveId : string;
  dm_userId : string;
  dm_role : Role
}.

Record File : Type := {
  file_path : string;
  file_driveId : string;
  file_size : Z;
  file_contentType : option string;
  file_author : string;
  file_currentVersionId : option string;
  file_createdAt : Z;
  file_modifiedAt : Z;
  file_isDeleted : bool;
  file_embeddingStatus : option EmbeddingStatus;
  file_imageEmbeddingStatus : option ImageEmbeddingStatus
}.

Record FileVersion : Type := {
  fv_id : Z;
  fv_path : string;
  fv_driveId : string;
  fv_version : Z;
  fv_s3VersionId : string;
  fv_author : string;
  fv_operation : FileOperation;
  fv_message : option string;
  fv_diffSummary : option string;
  fv_size : option Z;
  fv_etag : option string;
  fv_contentHash : option string;
  fv_createdAt : Z
}.

Record Comment_ : Type := {
  com_id : string;
  com_parentId : option string;
  com_orgId : string;
  com_driveId : string;
  com_path : string;
  com_lineStart : option Z;
  com_lineEnd : option Z;
  com_quotedContent : option string;
  com_quoteExact : option string;
  com_quotePrefix : option string;
  com_quoteSuffix : option string;
  com_fileVersionId : option Z;
  com_body : string;
  com_author : string;
  com_resolved : bool;
  com_resolvedBy : option string;
  com_resolvedAt : option Z;
  com_createdAt : Z;
  com_updatedAt : Z;
  com_isDeleted : bool
}.

Record CommentMention : Type := {
  men_commentId : string;
  men_userId : string;
  men_createdAt : Z
}.

Record Event : Type := {
  ev_id : string;
  ev_orgId : string;
  ev_type : string;
  ev_resourceType : string;
  ev_resourceId : string;
  ev_actor : string;
  ev_target : option string;
  ev_status : EventStatus;
  ev_metadata : option json;
  ev_createdAt : Z
}.

Record WebhookSubscription : Type := {
  sub_id : string;
  sub_orgId : string;
  sub_driveId : option string;
  sub_url : string;
  sub_description : option string;
  sub_eventTypes : json;
  sub_pathPrefix : option string;
  sub_secretCiphertext : string;
  sub_enabled : bool;
  sub_disabledReason : option DisabledReason;
  sub_disabledAt : option Z;
  sub_consecutiveFailures : Z;
  sub_failingSince : option Z;
  sub_lastSuccessAt : option Z;
  sub_lastFailureAt : option Z;
  sub_createdBy : string;
  sub_createdAt : Z;
  sub_updatedAt : Z
}.

Record WebhookDelivery : Type := {
  del_id : string;
  del_subscriptionId : string;
  del_eventId : string;
  del_eventType : string;
  del_payload : json;
  del_status : DeliveryStatus;
  del_attempts : Z;
  del_nextAttemptAt : Z;
  del_leaseUntil : option Z;
  del_lastAttemptAt : option Z;
  del_lastStatusCode : option Z;
  del_lastError : option string;
  del_deliveredAt : option Z;
  del_createdAt : Z
}.

Record ContentChunk : Type := {
  chunk_id : Z;
  chunk_filePath : string;
  chunk_driveId : string;
  chunk_chunkIndex : Z;
  chunk_content : string;
  chunk_charOffset : Z;
  chunk_tokenCount : Z;
  chunk_page : option Z;
  chunk_kind : ChunkKind
}.

Record Share : Type := {
  share_id : string;
  share_orgId : string;
  share_driveId : string;
  share_path : string;
  share_kind : ShareKind;
  share_tokenHash : string;
  share_expiresAt : Z;
  share_neverExpires : bool;
  share_maxViews : option Z;
  share_views : Z;
  share_lastViewedAt : option Z;
  share_createdBy : string;
  share_createdAt : Z;
  share_revokedAt : option Z;
  share_revokedBy : option string
}.

Record Favorite : Type := {
  fav_userId : string;
  fav_driveId : string;
  fav_path : string;
  fav_kind : EntryKind;
  fav_createdAt : Z
}.

Record ShareViewGrant : Type := {
  grant_grantHash : string;
  grant_shareId : string;
  grant_expiresAt : Z;
  grant_createdAt : Z
}.

Record OrgInvite : Type := {
  inv_id : string;
  inv_orgId : string;
  inv_email : string;
  inv_orgRole : Role;
  inv_drives : list (string * Role);
  inv_tokenHash : string;
  inv_createdBy : string;
  inv_createdAt : Z;
  inv_expiresAt : Z;
  inv_acceptedAt : option Z;
  inv_acceptedBy : option string;
  inv_revokedAt : option Z
}.

(** ** The database: a table per field, and the AUTOINCREMENT counters *)

Record Db : Type := {
  users : list User;
  userApiKeys : list UserApiKey;
  orgs : list Org;
  orgMembers : list OrgMember;
  drives : list Drive;
  driveMembers : list DriveMember;
  files : list File;
  fileVersions : list FileVersion;
  comments : list Comment_;
  commentMentions : list CommentMention;
  events : list Event;
  webhookSubscriptions : list WebhookSubscription;
  webhookDeliveries : list WebhookDelivery;
  contentChunks : list ContentChunk;
  shares : list Share;
  favorites : list Favorite;
  shareViewGrants : list ShareViewGrant;
  orgInvites : list OrgInvite;
  next_version_id : Z;
  next_chunk_id : Z;
  fts_docs : list (string * string * string);
  chunk_vectors : list Z
}.

Definition empty_db : Db := {|
  users := [];
  userApiKeys := [];
  orgs := [];
  orgMembers := [];
  drives := [];
  driveMembers := [];
  files := [];
  fileVersions := [];
  comments := [];
  commentMentions := [];
  events := [];
  webhookSubscriptions := [];
  webhookDeliveries := [];
  contentChunks := [];
  shares := [];
  favorites := [];
  shareViewGrants := [];
  orgInvites := [];
  next_version_id := 1%Z;
  next_chunk_id := 1%Z;
  fts_docs := [];
  chunk_vectors := []
|}.

(** ** Field updates *)

#[export] Instance User_eta : Eta User := fun r => Build_User r.(usr_id) r.(usr_email)
  r.(usr_displayName) r.(usr_apiKeyHash) r.(usr_createdAt).
#[export] Instance UserApiKey_eta : Eta UserApiKey := fun r => Build_UserApiKey r.(key_id)
  r.(key_userId) r.(key_keyHash) r.(key_label) r.(key_createdAt) r.(key_lastUsedAt)
  r.(key_revokedAt) r.(key_createdByUserId) r.(key_orgId).
#[export] Instance Org_eta : Eta Org := fun r => Build_Org r.(org_id) r.(org_name)
  r.(org_isPersonal) r.(org_createdAt).
#[export] Instance OrgMember_eta : Eta OrgMember := fun r => Build_OrgMember r.(om_orgId)
  r.(om_userId) r.(om_role).
#[export] Instance Drive_eta : Eta Drive := fun r => Build_Drive r.(drv_id) r.(drv_orgId)
  r.(drv_name) r.(drv_isDefault) r.(drv_createdAt).
#[export] Instance DriveMember_eta : Eta DriveMember := fun r => Build_DriveMember
  r.(dm_driveId) r.(dm_userId) r.(dm_role).
#[export] Instance File_eta : Eta File := fun r => Build_File r.(file_path) r.(file_driveId)
  r.(file_size) r.(file_contentType) r.(file_author) r.(file_currentVersionId)
  r.(file_createdAt) r.(file_modifiedAt) r.(file_isDeleted) r.(file_embeddingStatus)
  r.(file_imageEmbeddingStatus).
#[export] Instance FileVersion_eta : Eta FileVersion := fun r => Build_FileVersion r.(fv_id)
  r.(fv_path) r.(fv_driveId) r.(fv_version) r.(fv_s3VersionId) r.(fv_author) r.(fv_operation)
  r.(fv_message) r.(fv_diffSummary) r.(fv_size) r.(fv_etag) r.(fv_contentHash) r.(fv_createdAt).
#[export] Instance Comment__eta : Eta Comment_ := fun r => Build_Comment_ r.(com_id)
  r.(com_parentId) r.(com_orgId) r.(com_driveId) r.(com_path) r.(com_lineStart) r.(com_lineEnd)
  r.(com_quotedContent) r.(com_quoteExact) r.(com_quotePrefix) r.(com_quoteSuffix)
  r.(com_fileVersionId) r.(com_body) r.(com_author) r.(com_resolved) r.(com_resolvedBy)
  r.(com_resolvedAt) r.(com_createdAt) r.(com_updatedAt) r.(com_isDeleted).
#[export] Instance CommentMention_eta : Eta CommentMention := fun r => Build_CommentMention
  r.(men_commentId) r.(men_userId) r.(men_createdAt).
#[export] Instance Event_eta : Eta Event := fun r => Build_Event r.(ev_id) r.(ev_orgId)
  r.(ev_type) r.(ev_resourceType) r.(ev_resourceId) r.(ev_actor) r.(ev_target) r.(ev_status)
  r.(ev_metadata) r.(ev_createdAt).
#[export] Instance WebhookSubscription_eta : Eta WebhookSubscription := fun r =>
  Build_WebhookSubscription r.(sub_id) r.(sub_orgId) r.(sub_driveId) r.(sub_url)
  r.(sub_description) r.(sub_eventTypes) r.(sub_pathPrefix) r.(sub_secretCiphertext)
  r.(sub_enabled) r.(sub_disabledReason) r.(sub_disabledAt) r.(sub_consecutiveFailures)
  r.(sub_failingSince) r.(sub_lastSuccessAt) r.(sub_lastFailureAt) r.(sub_createdBy)
  r.(sub_createdAt) r.(sub_updatedAt).
#[export] Instance WebhookDelivery_eta : Eta WebhookDelivery := fun r => Build_WebhookDelivery
  r.(del_id) r.(del_subscriptionId) r.(del_eventId) r.(del_eventType) r.(del_payload)
  r.(del_status) r.(del_attempts) r.(del_nextAttemptAt) r.(del_leaseUntil) r.(del_lastAttemptAt)
  r.(del_lastStatusCode) r.(del_lastError) r.(del_deliveredAt) r.(del_createdAt).
#[export] Instance ContentChunk_eta : Eta ContentChunk := fun r => Build_ContentChunk
  r.(chunk_id) r.(chunk_filePath) r.(chunk_driveId) r.(chunk_chunkIndex) r.(chunk_content)
  r.(chunk_charOffset) r.(chunk_tokenCount) r.(chunk_page) r.(chunk_kind).
#[export] Instance Share_eta : Eta Share := fun r => Build_Share r.(share_id) r.(share_orgId)
  r.(share_driveId) r.(share_path) r.(share_kind) r.(share_tokenHash) r.(share_expiresAt)
  r.(share_neverExpires) r.(share_maxViews) r.(share_views) r.(share_lastViewedAt)
  r.(share_createdBy) r.(share_createdAt) r.(share_revokedAt) r.(share_revokedBy).
#[export] Instance Favorite_eta : Eta Favorite := fun r => Build_Favorite r.(fav_userId)
  r.(fav_driveId) r.(fav_path) r.(fav_kind) r.(fav_createdAt).
#[export] Instance ShareViewGrant_eta : Eta ShareViewGrant := fun r => Build_ShareViewGrant
  r.(grant_grantHash) r.(grant_shareId) r.(grant_expiresAt) r.(grant_createdAt).
#[export] Instance OrgInvite_eta : Eta OrgInvite := fun r => Build_OrgInvite r.(inv_id)
  r.(inv_orgId) r.(inv_email) r.(inv_orgRole) r.(inv_drives) r.(inv_tokenHash) r.(inv_createdBy)
  r.(inv_createdAt) r.(inv_expiresAt) r.(inv_acceptedAt) r.(inv_acceptedBy) r.(inv_revokedAt).
#[export] Instance Db_eta : Eta Db := fun r => Build_Db r.(users) r.(userApiKeys) r.(orgs)
  r.(orgMembers) r.(drives) r.(driveMembers) r.(files) r.(fileVersions) r.(comments)
  r.(commentMentions) r.(events) r.(webhookSubscriptions) r.(webhookDeliveries)
  r.(contentChunks) r.(shares) r.(favorites) r.(shareViewGrants) r.(orgInvites)
  r.(next_version_id) r.(next_chunk_id) r.(fts_docs) r.(chunk_vectors).
(** ** Statements

    [DbM A] is an operation on the database.  [insert] runs an INSERT: [conflict]
    names the unique key the row repeats, [fk_ok] says that its foreign keys
    resolve. *)

Definition DbM (A : Type) : Type := M error Db A.

Definition insert (conflict : Db -> option string) (fk_ok : Db -> bool) (write : Db -> Db) : DbM unit :=
  fun db =>
    match conflict db with
    | Some columns => (Throw (sqlite_unique columns), db)
    | None => if fk_ok db then (Ok tt, write db) else (Throw sqlite_foreign_key, db)
    end.

(** The first unique key that is taken. *)
Fixpoint first_taken (keys : list (bool * string)) : option string :=
  match keys with
  | [] => None
  | (true, columns) :: _ => Some columns
  | (false, _) :: keys' => first_taken keys'
  end.

Definition user_exists (id : string) (db : Db) : bool :=
  exists_row (fun u => u.(usr_id) = id) db.(users).
Definition org_exists (id : string) (db : Db) : bool :=
  exists_row (fun o => o.(org_id) = id) db.(orgs).
Definition drive_exists (id : string) (db : Db) : bool :=
  exists_row (fun d => d.(drv_id) = id) db.(drives).

Definition insert_user (r : User) : DbM unit :=
  insert (fun db => first_taken
      [(user_exists r.(usr_id) db, "users.id");
       (exists_row (fun u => u.(usr_email) = r.(usr_email)) db.(users), "users.email")])
    (fun _ => true) (fun db => db <| users ::= fun t => t ++ [r] |>).

Definition insert_user_api_key (r : UserApiKey) : DbM unit :=
  insert (fun db => first_taken
      [(exists_row (fun k => k.(key_id) = r.(key_id)) db.(userApiKeys), "user_api_keys.id");
       (exists_row (fun k => k.(key_keyHash) = r.(key_keyHash)) db.(userApiKeys),
         "user_api_keys.key_hash")])
    (fun _ => true) (fun db => db <| userApiKeys ::= fun t => t ++ [r] |>).

Definition insert_org (r : Org) : DbM unit :=
  insert (fun db => first_taken [(org_exists r.(org_id) db, "orgs.id")])
    (fun _ => true) (fun db => db <| orgs ::= fun t => t ++ [r] |>).

Definition is_org_member (orgId userId : string) (m : OrgMember) : Prop :=
  m.(om_orgId) = orgId /\ m.(om_userId) = userId.
#[export] Instance is_org_member_dec o u m : Decision (is_org_member o u m).
Proof. unfold is_org_member. apply _. Defined.

Definition is_drive_member (driveId userId : string) (m : DriveMember) : Prop :=
  m.(dm_driveId) = driveId /\ m.(dm_userId) = userId.
#[export] Instance is_drive_member_dec d u m : Decision (is_drive_member d u m).
Proof. unfold is_drive_member. apply _. Defined.

Definition insert_org_member (r : OrgMember) : DbM unit :=
  insert (fun db => first_taken
      [(exists_row (is_org_member r.(om_orgId) r.(om_userId)) db.(orgMembers),
        "org_members.org_id, org_members.user_id")])
    (fun db => org_exists r.(om_orgId) db && user_exists r.(om_userId) db)
    (fun db => db <| orgMembers ::= fun t => t ++ [r] |>).

Definition insert_drive (r : Drive) : DbM unit :=
  insert (fun db => first_taken [(drive_exists r.(drv_id) db, "drives.id")])
    (fun db => org_exists r.(drv_orgId) db) (fun db => db <| drives ::= fun t => t ++ [r] |>).

Definition insert_drive_member (r : DriveMember) : DbM unit :=
  insert (fun db => first_taken
      [(exists_row (is_drive_member r.(dm_driveId) r.(dm_userId)) db.(driveMembers),
        "drive_members.drive_id, drive_members.user_id")])
    (fun db => drive_exists r.(dm_driveId) db && user_exists r.(dm_userId) db)
    (fun db => db <| driveMembers ::= fun t => t ++ [r] |>).

Definition insert_event (r : Event) : DbM unit :=
  insert (fun db => first_taken [(exists_row (fun e => e.(ev_id) = r.(ev_id)) db.(events), "events.id")])
    (fun db => org_exists r.(ev_orgId) db && user_exists r.(ev_actor) db)
    (fun db => db <| events ::= fun t => t ++ [r] |>).

Definition insert_invite (r : OrgInvite) : DbM unit :=
  insert (fun db => first_taken
      [(exists_row (fun i => i.(inv_id) = r.(inv_id)) db.(orgInvites), "org_invites.id");
       (exists_row (fun i => i.(inv_tokenHash) = r.(inv_tokenHash)) db.(orgInvites),
         "org_invites.token_hash")])
    (fun _ => true) (fun db => db <| orgInvites ::= fun t => t ++ [r] |>).

(** ** Lemmas *)

Lemma insert_ok conflict fk_ok write db a db' :
  insert conflict fk_ok write db = (Ok a, db') <->
  conflict db = None /\ fk_ok db = true /\ db' = write db.
Proof.
  unfold insert. destruct a, (conflict db) as [c|].
  - split; [discriminate|]. by intros [[=] _].
  - destruct (fk_ok db); split; try discriminate; [by intros [= <-]|by intros (_ & _ & ->)|].
    by intros (_ & [=] & _).
Qed.

Lemma preserves_insert (I : Db -> Prop) conflict fk_ok write :
  (forall db, I db -> conflict db = None -> fk_ok db = true -> I (write db)) ->
  preserves I (insert conflict fk_ok write).
Proof.
  intros H db Hdb. unfold insert. destruct (conflict db) eqn:Ec; [done|].
  destruct (fk_ok db) eqn:Ef; [|done]. by apply H.
Qed.

Lemma first_taken_none b columns keys :
  first_taken ((b, columns) :: keys) = None <-> b = false /\ first_taken keys = None.
Proof. destruct b; cbn; naive_solver. Qed.

Lemma ts_sec_le ms : ts_sec ms <= ms < ts_sec ms + 1000.
Proof. unfold ts_sec. pose proof (Z.mod_pos_bound ms 1000). pose proof (Z.div_mod ms 1000). lia. Qed.

Lemma ts_sec_idem ms : ts_sec (ts_sec ms) = ts_sec ms.
Proof. unfold ts_sec. by rewrite Z.div_mul. Qed.

Lemma ts_sec_mono a b : a <= b -> ts_sec a <= ts_sec b.
Proof. unfold ts_sec. intros H. apply (Z.div_le_mono _ _ 1000) in H; lia. Qed.
