(* ===== verification/Rbac.v ===== *)
(** * Roles and request context: core/src/identity/rbac.ts, context.ts, ops/index.ts

    The role lattice, the role an op needs, the membership queries and the
    guards built on them; [resolveContext], which picks the drive a request acts
    on; and [dispatchOp], which checks the role before it runs a handler.  The
    theorems characterise each guard by the membership rows and say that a
    caller cannot tell a drive they have no role on from one that does not
    exist. *)

From S2P Require Import Prelude JsString Errors Schema.

(** ** rbac.ts *)

Definition ROLE_LEVELS (r : Role) : Z :=
  match r with Viewer => 0 | Editor => 1 | Admin => 2 end.

Definition OP_ROLES : list (string * Role) := [
  ("ls", Viewer); ("cat", Viewer); ("tail", Viewer); ("stat", Viewer); ("reveal", Viewer);
  ("grep", Viewer); ("fts", Viewer); ("search", Viewer); ("vec-search", Viewer);
  ("log", Viewer); ("diff", Viewer); ("recent", Viewer); ("tree", Viewer); ("glob", Viewer);
  ("find", Viewer); ("sql", Viewer); ("signed-url", Viewer); ("share-create", Viewer);
  ("share-revoke", Viewer); ("share-list", Viewer);
  ("write", Editor); ("edit", Editor); ("append", Editor); ("rm", Editor); ("mv", Editor);
  ("cp", Editor); ("revert", Editor); ("reindex", Admin);
  ("comment-add", Editor); ("comment-list", Viewer); ("comment-get", Viewer);
  ("comment-notification-list", Viewer); ("comment-notification-read", Viewer);
  ("drive-members", Viewer);
  ("favorite-add", Viewer); ("favorite-remove", Viewer); ("favorite-list", Viewer);
  ("comment-update", Editor); ("comment-delete", Editor); ("comment-resolve", Editor);
  ("webhook-create", Viewer); ("webhook-list", Viewer); ("webhook-update", Viewer);
  ("webhook-delete", Viewer); ("webhook-test", Viewer); ("webhook-deliveries", Viewer);
  ("webhook-redeliver", Viewer)].

(** [table[key]] of an object used as a map. *)
Definition lookup_key {A} (key : string) (table : list (string * A)) : option A :=
  snd <$> get_row (fun e => e.1 = key) table.

Definition getRequiredRole (opName : string) : Role := lookup_key opName OP_ROLES ?? Admin.

Definition roleAtLeast (role : option Role) (required : Role) : bool :=
  match role with
  | None => false
  | Some r => ROLE_LEVELS required <=? ROLE_LEVELS r
  end.

Definition getUserOrgRole (db : Db) (userId orgId : string) : option Role :=
  om_role <$> get_row (is_org_member orgId userId) db.(orgMembers).

Definition getUserDriveRole (db : Db) (userId driveId : string) : option Role :=
  dm_role <$> get_row (is_drive_member driveId userId) db.(driveMembers).

Definition requireDriveRole (db : Db) (userId driveId : string) (requiredRole : Role)
    : outcome error Role :=
  match getUserDriveRole db userId driveId with
  | None => Throw (PermissionDeniedError "You do not have access to this drive"
      (Some (role_name requiredRole)) (Some "none") (Some "Request access from the drive admin"))
  | Some userRole =>
      if ROLE_LEVELS userRole <? ROLE_LEVELS requiredRole then
        Throw (PermissionDeniedError
          ("This operation requires '" +:+ role_name requiredRole +:+ "' role, but you have '"
             +:+ role_name userRole +:+ "'")
          (Some (role_name requiredRole)) (Some (role_name userRole))
          (Some (if decide (requiredRole = Editor)
                 then "Ask a drive admin to upgrade your role to editor"
                 else "Ask a drive admin to upgrade your role")))
      else Ok userRole
  end.

Definition checkPermission (db : Db) (userId driveId : string) (requiredRole : Role)
    : outcome error unit :=
  _ ← requireDriveRole db userId driveId requiredRole; Ok tt.

Definition requireOrgRole (db : Db) (userId orgId : string) (requiredRole : Role)
    : outcome error Role :=
  match getUserOrgRole db userId orgId with
  | None => Throw (PermissionDeniedError "You do not have access to this organization"
      (Some (role_name requiredRole)) (Some "none") (Some "Request access from an org admin"))
  | Some userRole =>
      if ROLE_LEVELS userRole <? ROLE_LEVELS requiredRole then
        Throw (PermissionDeniedError
          ("This operation requires '" +:+ role_name requiredRole
             +:+ "' role in the org, but you have '" +:+ role_name userRole +:+ "'")
          (Some (role_name requiredRole)) (Some (role_name userRole))
          (Some "Ask an org admin to upgrade your role"))
      else Ok userRole
  end.

Definition get_drive_row (db : Db) (driveId : string) : option Drive :=
  get_row (fun d => d.(drv_id) = driveId) db.(drives).

Definition requireDriveAdmin (db : Db) (userId driveId : string) : outcome error Role :=
  match get_drive_row db driveId with
  | None => Throw (NotFoundError ("Drive not found: " +:+ driveId) None None)
  | Some drive =>
      let driveRole := getUserDriveRole db userId driveId in
      if decide (driveRole = Some Admin) then Ok Admin
      else
        let orgRole := getUserOrgRole db userId drive.(drv_orgId) in
        if decide (orgRole = Some Admin) then Ok Admin
        else Throw (PermissionDeniedError "This operation requires drive admin or org admin role"
          (Some "admin")
          (Some (match driveRole, orgRole with
                 | Some r, _ => role_name r
                 | None, Some r => role_name r
                 | None, None => "none"
                 end))
          (Some "Ask a drive or org admin to perform this operation"))
  end.

Definition assertDriveInOrg (db : Db) (driveId orgId : string) : outcome error Drive :=
  let refused := Throw (NotFoundError ("Drive not found in org: " +:+ driveId) None
    (Some "Check the driveId belongs to the org you are addressing")) in
  match get_drive_row db driveId with
  | None => refused
  | Some drive => if decide (drive.(drv_orgId) = orgId) then Ok drive else refused
  end.

(** ** context.ts *)

Record ResolvedContext : Type := {
  ctx_orgId : string;
  ctx_driveId : string;
  ctx_role : Role
}.

Definition drive_not_found (driveId : string) (orgId : option string) : error :=
  NotFoundError ("Drive not found: " +:+ driveId) None
    (if orgId then Some "Check the driveId belongs to the org you are addressing" else None).

Definition no_default_drive (orgId : string) : error :=
  NotFoundError ("No default drive for org: " +:+ orgId) None None.

Definition default_drive (db : Db) (orgId : string) : option Drive :=
  get_row (fun d => d.(drv_orgId) = orgId /\ d.(drv_isDefault) = true) db.(drives).

(** The first membership of [userId] in a personal org. *)
Definition personal_org (db : Db) (userId : string) : option string :=
  om_orgId <$> get_row (fun m => m.(om_userId) = userId /\
    exists_row (fun o => o.(org_id) = m.(om_orgId) /\ o.(org_isPersonal) = true) db.(orgs) = true)
    db.(orgMembers).

(** [params.orgId] and [params.driveId] count as absent when empty. *)
Definition resolveContext (db : Db) (userId : string) (orgId driveId : option string)
    : outcome error ResolvedContext :=
  match truthy driveId, truthy orgId with
  | Some d, org =>
      match get_drive_row db d with
      | None => Throw (drive_not_found d org)
      | Some drive =>
          if match org with Some o => bool_decide (drive.(drv_orgId) <> o) | None => false end
          then Throw (drive_not_found d org)
          else
            match getUserDriveRole db userId d with
            | None => Throw (drive_not_found d org)
            | Some role =>
                Ok {| ctx_orgId := drive.(drv_orgId); ctx_driveId := d; ctx_role := role |}
            end
      end
  | None, Some o =>
      match default_drive db o with
      | None => Throw (no_default_drive o)
      | Some drive =>
          match getUserDriveRole db userId drive.(drv_id) with
          | None => Throw (no_default_drive o)
          | Some role => Ok {| ctx_orgId := o; ctx_driveId := drive.(drv_id); ctx_role := role |}
          end
      end
  | None, None =>
      match personal_org db userId with
      | None => Throw (JsError "No personal org found for user")
      | Some o =>
          match default_drive db o with
          | None => Throw (JsError "No default drive found")
          | Some drive =>
              match getUserDriveRole db userId drive.(drv_id) with
              | None => Throw (JsError "You do not have access to your default drive")
              | Some role => Ok {| ctx_orgId := o; ctx_driveId := drive.(drv_id); ctx_role := role |}
              end
          end
      end
  end.

(** ** ops/index.ts: the dispatcher *)

Section Dispatch.
Context {World Params Result : Type}.
Variable world_db : World -> Db.

(** An entry of the registry: the schema's [parse] and the handler. *)
Record OpDefinition : Type := {
  op_parse : json -> outcome error Params;
  op_handler : string -> string -> Params -> M error World Result
}.

Variable opRegistry : list (string * OpDefinition).

Definition dispatchOp (userId driveId opName : string) (params : json) (skipAuth : bool)
    : M error World Result :=
  op ← some_or_throw (lookup_key opName opRegistry) (JsError ("Unknown operation: " +:+ opName));
  _ ← (if skipAuth then mret tt
       else reads (fun w => checkPermission (world_db w) userId driveId (getRequiredRole opName)));
  validated ← from_outcome (op.(op_parse) params);
  op.(op_handler) userId driveId validated.
End Dispatch.

(** The names the registry of ops/index.ts declares, in order. *)
Definition registered_ops : list string := [
  "write"; "cat"; "edit"; "append"; "ls"; "stat"; "reveal"; "rm"; "mv"; "cp"; "tail"; "log";
  "diff"; "revert"; "recent"; "grep"; "fts"; "search"; "vec-search"; "reindex"; "tree"; "glob";
  "find"; "sql"; "signed-url"; "share-create"; "share-revoke"; "comment-add"; "comment-list";
  "comment-get"; "comment-update"; "comment-delete"; "comment-resolve";
  "comment-notification-list"; "comment-notification-read"; "drive-members"; "favorite-add";
  "favorite-remove"; "favorite-list"; "webhook-create"; "webhook-list"; "webhook-update";
  "webhook-delete"; "webhook-test"; "share-list"; "webhook-deliveries"; "webhook-redeliver"].

Definition buildAppUrl (baseUrl orgId driveId path : string) : string :=
  let cleanPath := if starts_with "/" path then drop_str 1 path else path in
  baseUrl +:+ "/file/~/" +:+ orgId +:+ "/" +:+ driveId +:+ "/" +:+ cleanPath.

(** ** Lemmas *)

Lemma ROLE_LEVELS_inj r s : ROLE_LEVELS r = ROLE_LEVELS s -> r = s.
Proof. by destruct r, s. Qed.

Lemma roleAtLeast_admin r : roleAtLeast r Admin = true <-> r = Some Admin.
Proof. destruct r as [[]|]; cbn; split; (done || discriminate). Qed.

(** A guard passes exactly when the role is at least the one required. *)
Lemma requireDriveRole_ok db u d required r :
  requireDriveRole db u d required = Ok r <->
  getUserDriveRole db u d = Some r /\ roleAtLeast (Some r) required = true.
Proof.
  unfold requireDriveRole, roleAtLeast.
  destruct (getUserDriveRole db u d) as [r'|]; [|split; [discriminate|by intros [[=] _]]].
  destruct (Z.ltb_spec (ROLE_LEVELS r') (ROLE_LEVELS required)); split.
  - discriminate.
  - intros [[= ->] Hle]. apply Z.leb_le in Hle. lia.
  - intros [= ->]. split; [done|]. apply Z.leb_le. lia.
  - by intros [[= ->] _].
Qed.

Lemma requireOrgRole_ok db u o required r :
  requireOrgRole db u o required = Ok r <->
  getUserOrgRole db u o = Some r /\ roleAtLeast (Some r) required = true.
Proof.
  unfold requireOrgRole, roleAtLeast.
  destruct (getUserOrgRole db u o) as [r'|]; [|split; [discriminate|by intros [[=] _]]].
  destruct (Z.ltb_spec (ROLE_LEVELS r') (ROLE_LEVELS required)); split.
  - discriminate.
  - intros [[= ->] Hle]. apply Z.leb_le in Hle. lia.
  - intros [= ->]. split; [done|]. apply Z.leb_le. lia.
  - by intros [[= ->] _].
Qed.

Lemma checkPermission_ok db u d required :
  checkPermission db u d required = Ok tt <->
  exists r, getUserDriveRole db u d = Some r /\ roleAtLeast (Some r) required = true.
Proof.
  unfold checkPermission, mbind, outcome_bind.
  destruct (requireDriveRole db u d required) as [r|e] eqn:E.
  - apply requireDriveRole_ok in E. split; [eauto|done].
  - split; [discriminate|]. intros (r & H). apply requireDriveRole_ok in H. congruence.
Qed.

(** A refused permission check carries the caller's role, and 403. *)
Lemma checkPermission_refused db u d required e :
  checkPermission db u d required = Throw e ->
  getStatusCode e = 403 /\ roleAtLeast (getUserDriveRole db u d) required = false.
Proof.
  unfold checkPermission, requireDriveRole, mbind, outcome_bind.
  destruct (getUserDriveRole db u d) as [r|]; [|by intros [= <-]].
  destruct (ROLE_LEVELS r <? ROLE_LEVELS required) eqn:E; intros [= <-].
  split; [done|]. cbn. apply Z.ltb_lt in E. apply Z.leb_gt. done.
Qed.

Lemma getUserDriveRole_some db u d r :
  getUserDriveRole db u d = Some r ->
  exists m, m ∈ db.(driveMembers) /\ is_drive_member d u m /\ m.(dm_role) = r.
Proof.
  unfold getUserDriveRole. intros (m & Hm & ->)%fmap_Some.
  apply get_row_some in Hm as [? ?]. eauto.
Qed.

Lemma get_drive_row_some db d drive :
  get_drive_row db d = Some drive -> drive ∈ db.(drives) /\ drive.(drv_id) = d.
Proof. intros H. by apply get_row_some in H. Qed.

(** ** Properties *)

(** No existence oracle.  For a caller with no role on drive [d], asking for
    [d] throws the same NotFoundError, in every database: whether the drive
    exists, whose org it is in and who is on it are not observable. *)
Theorem resolveContext_no_oracle db db' u org d :
  d <> "" ->
  getUserDriveRole db u d = None -> getUserDriveRole db' u d = None ->
  resolveContext db u org (Some d) = resolveContext db' u org (Some d) /\
  exists e, resolveContext db u org (Some d) = Throw e /\ getStatusCode e = 404.
Proof.
  intros Hd Hr Hr'.
  assert (H : forall db0, getUserDriveRole db0 u d = None ->
    resolveContext db0 u org (Some d) = Throw (drive_not_found d (truthy org))).
  { intros db0 Hn. unfold resolveContext. destruct d as [|c d]; [done|]. cbn [truthy].
    rewrite Hn. destruct (get_drive_row _ _); [|done].
    by destruct (match truthy org with Some _ => _ | None => _ end). }
  rewrite !H by done. split; [done|]. eexists. split; reflexivity.
Qed.

Definition sample_db : Db := empty_db
  <| users := [Build_User "u1" "a@x" None "h1" 0; Build_User "u2" "b@x" None "h2" 0] |>
  <| orgs := [Build_Org "o1" "acme" false 0] |>
  <| orgMembers := [Build_OrgMember "o1" "u1" Admin; Build_OrgMember "o1" "u2" Editor] |>
  <| drives := [Build_Drive "d1" "o1" "default" true 0; Build_Drive "d2" "o1" "secret" false 0] |>
  <| driveMembers := [Build_DriveMember "d1" "u1" Admin; Build_DriveMember "d1" "u2" Editor;
                      Build_DriveMember "d2" "u1" Admin] |>.

(** An existing drive of the same org, and an empty database. *)
Lemma resolveContext_no_oracle_witness :
  resolveContext sample_db "u2" (Some "o1") (Some "d2") =
  resolveContext empty_db "u2" (Some "o1") (Some "d2") /\
  resolveContext sample_db "u1" (Some "o1") (Some "d2") =
    Ok {| ctx_orgId := "o1"; ctx_driveId := "d2"; ctx_role := Admin |}.
Proof. split; [|reflexivity]. apply resolveContext_no_oracle; [discriminate|reflexivity..]. Defined.

(** A resolved context is the caller's own.  If [resolveContext] returns, the
    drive exists, the caller holds the returned role on it, the drive belongs
    to the returned org, and a pinned org or drive is the one returned. *)
Theorem resolveContext_sound db u org d ctx :
  resolveContext db u org d = Ok ctx ->
  (exists drive, drive ∈ db.(drives) /\ drive.(drv_id) = ctx.(ctx_driveId) /\
     drive.(drv_orgId) = ctx.(ctx_orgId)) /\
  getUserDriveRole db u ctx.(ctx_driveId) = Some ctx.(ctx_role) /\
  (forall o, truthy org = Some o -> ctx.(ctx_orgId) = o) /\
  (forall d', truthy d = Some d' -> ctx.(ctx_driveId) = d').
Proof.
  unfold resolveContext. destruct (truthy d) as [d'|] eqn:Ed.
  - destruct (get_drive_row db d') as [drive|] eqn:Edr; [|discriminate].
    apply get_drive_row_some in Edr as [Hin Hid].
    destruct (match truthy org with Some _ => _ | None => _ end) eqn:Eorg; [discriminate|].
    destruct (getUserDriveRole db u d') as [role|] eqn:Er; [|discriminate].
    intros [= <-]. cbn. split_and!; [eauto|done| |congruence].
    intros o Ho. rewrite Ho in Eorg. apply bool_decide_eq_false in Eorg.
    by apply dec_stable.
  - destruct (truthy org) as [o|].
    + destruct (default_drive db o) as [drive|] eqn:Edr; [|discriminate].
      apply get_row_some in Edr as (Hin & Ho & _).
      destruct (getUserDriveRole db u (drv_id drive)) as [role|] eqn:Er; [|discriminate].
      intros [= <-]. cbn. split_and!; [eauto|done|congruence|done].
    + destruct (personal_org db u) as [o|]; [|discriminate].
      destruct (default_drive db o) as [drive|] eqn:Edr; [|discriminate].
      apply get_row_some in Edr as (Hin & Ho & _).
      destruct (getUserDriveRole db u (drv_id drive)) as [role|] eqn:Er; [|discriminate].
      intros [= <-]. cbn. split_and!; [eauto|done|done|done].
Qed.

Lemma resolveContext_sound_witness :
  exists ctx, resolveContext sample_db "u2" (Some "o1") None = Ok ctx /\
    getUserDriveRole sample_db "u2" ctx.(ctx_driveId) = Some ctx.(ctx_role).
Proof.
  eexists. split; [reflexivity|].
  apply (resolveContext_sound sample_db "u2" (Some "o1") None). reflexivity.
Defined.

(** C4: The dispatcher authorises before it acts.  Unless the caller skips
    authorisation, an op whose handler ran found a drive role at least as high
    as the op's required role, and a refused caller leaves the world unchanged. *)
Theorem dispatchOp_authorised {World Params Result} (world_db : World -> Db)
    (reg : list (string * @OpDefinition World Params Result)) u d op params w :
  match checkPermission (world_db w) u d (getRequiredRole op) with
  | Throw e => is_Some (lookup_key op reg) ->
      dispatchOp world_db reg u d op params false w = (Throw e, w) /\ getStatusCode e = 403
  | Ok _ =>
      (exists r, getUserDriveRole (world_db w) u d = Some r /\
                 roleAtLeast (Some r) (getRequiredRole op) = true) /\
      dispatchOp world_db reg u d op params false w =
      dispatchOp world_db reg u d op params true w
  end.
Proof.
  destruct (checkPermission _ u d _) as [[]|e] eqn:E.
  - split; [by apply checkPermission_ok|].
    unfold dispatchOp, mbind, M_bind, some_or_throw, reads.
    destruct (lookup_key op reg) as [o|]; [|reflexivity]. cbn. rewrite E. reflexivity.
  - intros [o Ho]. unfold dispatchOp, mbind, M_bind, some_or_throw, reads.
    rewrite Ho. cbn. rewrite E. split; [reflexivity|].
    by apply checkPermission_refused in E as [H _].
Qed.

Definition sample_registry : list (string * @OpDefinition Db unit unit) :=
  [("write", {| op_parse := fun _ => Ok tt; op_handler := fun _ _ _ => modify (fun _ => empty_db) |})].

(** A handler that would erase everything does not run for a non-member. *)
Lemma dispatchOp_authorised_witness :
  exists e, dispatchOp (fun db => db) sample_registry "u2" "d2" "write" JNull false sample_db
    = (Throw e, sample_db).
Proof.
  eexists. exact (proj1 (dispatchOp_authorised (fun db => db) sample_registry "u2" "d2" "write"
    JNull sample_db (ltac:(eexists; reflexivity)))).
Defined.

(** Every op the registry declares has an entry of its own in [OP_ROLES]: none
    falls back to the default. *)
Lemma registered_ops_have_roles :
  Forall (fun op => is_Some (lookup_key op OP_ROLES)) registered_ops.
Proof. repeat constructor; eexists; reflexivity. Qed.
