(* ===== verification/Drives.v ===== *)
(** * Drives and their members: core/src/identity/grants.ts, drives.ts

    Creating and listing drives, granting roles (which only raises them) and
    changing or removing a member under the rule that a drive keeps an admin.
    The theorems: grants never lower a role, the listings show exactly the
    drives a user may see or manage, and no guarded operation takes the last
    admin from a drive. *)

From S2P Require Import Prelude JsString Errors Schema Rbac.

(** ** grants.ts *)

(** The CASE expression: [excluded.role] is the incoming role. *)
Definition higherRole (stored incoming : Role) : Role :=
  if decide (stored = Admin \/ incoming = Admin) then Admin
  else if decide (stored = Editor \/ incoming = Editor) then Editor
  else Viewer.

Definition grantOrgRole (orgId userId : string) (role : Role) : DbM Role :=
  stored ← gets (fun db => get_row (is_org_member orgId userId) db.(orgMembers));
  match stored with
  | Some m =>
      _ ← modify (fun db => db <| orgMembers ::= update_where (is_org_member orgId userId)
                            (fun m => m <| om_role ::= fun r => higherRole r role |>) |>);
      mret (higherRole m.(om_role) role)
  | None => _ ← insert_org_member (Build_OrgMember orgId userId role); mret role
  end.

Definition grantDriveRole (driveId userId : string) (role : Role) : DbM (Role * bool) :=
  existing ← gets (fun db => get_row (is_drive_member driveId userId) db.(driveMembers));
  match existing with
  | Some m =>
      _ ← modify (fun db => db <| driveMembers ::= update_where (is_drive_member driveId userId)
                            (fun m => m <| dm_role ::= fun r => higherRole r role |>) |>);
      mret (higherRole m.(dm_role) role, false)
  | None => _ ← insert_drive_member (Build_DriveMember driveId userId role); mret (role, true)
  end.

(** ** drives.ts *)

(** [id] is the fresh UUID and [now] the clock. *)
Definition createDrive (id : string) (now : Z) (orgId name : string) (isDefault : option bool)
    (creatorUserId : option string) : DbM (string * string) :=
  _ ← insert_drive (Build_Drive id orgId name (isDefault ?? false) (ts_sec now));
  _ ← match truthy creatorUserId with
      | Some u => insert_drive_member (Build_DriveMember id u Admin)
      | None => mret tt
      end;
  mret (id, name).

(** What the listings return of a drive: id, name, isDefault. *)
Definition drive_info (d : Drive) : string * string * bool :=
  (d.(drv_id), d.(drv_name), d.(drv_isDefault)).

Definition listDrives (db : Db) (orgId : string) : list (string * string * bool) :=
  drive_info <$> filter (fun d => d.(drv_orgId) = orgId) db.(drives).

Definition listDrivesForUser (db : Db) (orgId userId : string) : list (string * string * bool) :=
  d ← filter (fun d => d.(drv_orgId) = orgId) db.(drives);
  (fun _ => drive_info d) <$> filter (is_drive_member d.(drv_id) userId) db.(driveMembers).

(** [new Map(rows)]: of two rows with one key the last wins. *)
Definition map_get {A} (rows : list (string * A)) (k : string) : option A :=
  snd <$> last (filter (fun r => r.1 = k) rows).

Definition listManageableDrives (db : Db) (orgId userId : string)
    : list (string * string * bool * option Role) :=
  let myRoles := (fun m => (m.(dm_driveId), m.(dm_role))) <$>
                 filter (fun m => m.(dm_userId) = userId) db.(driveMembers) in
  let orgAdmin := bool_decide (getUserOrgRole db userId orgId = Some Admin) in
  filter (fun d => orgAdmin = true \/ d.2 = Some Admin)
    ((fun d => (d, map_get myRoles d.1.1)) <$> listDrives db orgId).

Definition getDrive (db : Db) (driveId : string) : option Drive := get_drive_row db driveId.

Definition listDriveMembers (db : Db) (driveId : string) : list (string * string * Role) :=
  m ← filter (fun m => m.(dm_driveId) = driveId) db.(driveMembers);
  (fun u => (m.(dm_userId), u.(usr_email), m.(dm_role))) <$>
    filter (fun u => u.(usr_id) = m.(dm_userId)) db.(users).

Definition listDriveMembersPublic (db : Db) (driveId : string)
    : list (string * string * option string) :=
  m ← filter (fun m => m.(dm_driveId) = driveId) db.(driveMembers);
  (fun u => (u.(usr_id), u.(usr_email), u.(usr_displayName))) <$>
    filter (fun u => u.(usr_id) = m.(dm_userId)) db.(users).

(** [BEGIN IMMEDIATE]: the callback runs alone on the database, and its writes
    are undone when it throws. *)
Definition withWriteLock {A} (fn : DbM A) : DbM A := transaction fn.

Definition is_admin_of (driveId : string) (m : DriveMember) : Prop :=
  m.(dm_driveId) = driveId /\ m.(dm_role) = Admin.
#[export] Instance is_admin_of_dec d m : Decision (is_admin_of d m).
Proof. unfold is_admin_of. apply _. Defined.

Definition sole_admin (db : Db) (userId driveId : string) : bool :=
  match filter (is_admin_of driveId) db.(driveMembers) with
  | [m] => bool_decide (m.(dm_userId) = userId)
  | _ => false
  end.

(** The drives as (id, name). *)
Definition findSoleAdminDrives (db : Db) (userId : string) (driveIds : list string)
    : list (string * string) :=
  driveId ← driveIds;
  if sole_admin db userId driveId
  then [(driveId, (drv_name <$> get_drive_row db driveId) ?? driveId)]
  else [].

Definition quote : string := bytes [34%nat].

Definition describeDrives (ds : list (string * string)) : string :=
  join ", " ((fun d => quote +:+ d.2 +:+ quote +:+ " (" +:+ d.1 +:+ ")") <$> ds).

Definition assertNotLastDriveAdmin (db : Db) (driveId userId action : string) : outcome error unit :=
  let blocking := findSoleAdminDrives db userId [driveId] in
  if bool_decide (blocking <> []) then
    Throw (ValidationError ("Cannot " +:+ action +:+ " the only admin of drive "
             +:+ describeDrives blocking) None (Some "Make another member an admin of the drive first"))
  else Ok tt.

Definition updateDriveMemberRole (driveId userId : string) (role : Role) : DbM unit :=
  withWriteLock (
    row ← gets (fun db => get_row (is_drive_member driveId userId) db.(driveMembers));
    existing ← some_or_throw row (JsError "Member not found in drive");
    _ ← (if bool_decide (existing.(dm_role) = Admin) && bool_decide (role <> Admin)
         then reads (fun db => assertNotLastDriveAdmin db driveId userId "demote")
         else mret tt);
    modify (fun db => db <| driveMembers ::= update_where (is_drive_member driveId userId)
                          (fun m => m <| dm_role := role |>) |>)).

Definition removeDriveMember (driveId userId : string) : DbM unit :=
  withWriteLock (
    row ← gets (fun db => get_row (is_drive_member driveId userId) db.(driveMembers));
    existing ← some_or_throw row (JsError "Member not found in drive");
    _ ← (if bool_decide (existing.(dm_role) = Admin)
         then reads (fun db => assertNotLastDriveAdmin db driveId userId "remove")
         else mret tt);
    modify (fun db => db <| driveMembers ::= delete_where (is_drive_member driveId userId) |>)).

Definition setDriveMember (driveId userId : string) (role : Role) : DbM unit :=
  existing ← gets (fun db => get_row (is_drive_member driveId userId) db.(driveMembers));
  match existing with
  | Some _ => modify (fun db => db <| driveMembers ::= update_where (is_drive_member driveId userId)
                                     (fun m => m <| dm_role := role |>) |>)
  | None => insert_drive_member (Build_DriveMember driveId userId role)
  end.

(** ** Invariants *)

(** The primary keys of the membership tables, as SQLite keeps them. *)
Definition drive_member_key (m : DriveMember) : string * string := (m.(dm_driveId), m.(dm_userId)).
Definition org_member_key (m : OrgMember) : string * string := (m.(om_orgId), m.(om_userId)).

Definition drive_members_pk (db : Db) : Prop := NoDup (drive_member_key <$> db.(driveMembers)).
Definition org_members_pk (db : Db) : Prop := NoDup (org_member_key <$> db.(orgMembers)).

Definition drive_has_admin (driveId : string) (db : Db) : Prop :=
  exists m, m ∈ db.(driveMembers) /\ is_admin_of driveId m.

(** The drive has an admin, and member rows are unique. *)
Definition drive_managed (driveId : string) (db : Db) : Prop :=
  drive_members_pk db /\ drive_has_admin driveId db.

(** ** Lemmas *)

Lemma higherRole_level s i :
  ROLE_LEVELS (higherRole s i) = Z.max (ROLE_LEVELS s) (ROLE_LEVELS i).
Proof. by destruct s, i. Qed.

Lemma drive_member_key_eq m d u : is_drive_member d u m <-> drive_member_key m = (d, u).
Proof. unfold is_drive_member, drive_member_key. split; [by intros [-> ->]|by intros [= -> ->]]. Qed.

Lemma drive_members_pk_update db d u f :
  (forall m, drive_member_key (f m) = drive_member_key m) ->
  drive_members_pk db ->
  drive_members_pk (db <| driveMembers ::= update_where (is_drive_member d u) f |>).
Proof. unfold drive_members_pk. intros Hf H. cbn. rewrite fmap_update_where; auto. Qed.

Lemma drive_members_pk_delete db d u :
  drive_members_pk db ->
  drive_members_pk (db <| driveMembers ::= delete_where (is_drive_member d u) |>).
Proof. apply NoDup_delete_where. Qed.

Lemma drive_members_pk_insert r :
  preserves drive_members_pk (insert_drive_member r).
Proof.
  apply preserves_insert. intros db Hpk Hc _. unfold drive_members_pk. cbn.
  apply NoDup_fmap_snoc; [done|]. intros m Hm Heq.
  apply first_taken_none in Hc as [Hc _]. rewrite exists_row_false in Hc. apply (Hc m Hm). by apply drive_member_key_eq.
Qed.

(** An admin of the drive, whom the only-admin check lets pass, is not alone. *)
Lemma other_admin db d u m :
  drive_members_pk db -> m ∈ db.(driveMembers) -> is_drive_member d u m -> m.(dm_role) = Admin ->
  findSoleAdminDrives db u [d] = [] ->
  exists m', m' ∈ db.(driveMembers) /\ is_admin_of d m' /\ ~ is_drive_member d u m'.
Proof.
  intros Hpk Hin [Hd Hu] Hrole Hsole.
  assert (Hlen : (2 <= length (filter (is_admin_of d) db.(driveMembers)))%nat).
  { assert (Hm : m ∈ filter (is_admin_of d) db.(driveMembers)) by (by apply list_elem_of_filter).
    unfold findSoleAdminDrives, sole_admin in Hsole. cbn in Hsole.
    destruct (filter (is_admin_of d) _) as [|x [|y l]]; [set_solver| |cbn; lia].
    apply list_elem_of_singleton in Hm as <-. by rewrite bool_decide_true in Hsole. }
  destruct (filter_two_other drive_member_key (is_admin_of d) _ (d, u) Hpk Hlen) as (b & Hb & Ha & Hk).
  exists b. split_and!; [done..|]. by rewrite drive_member_key_eq.
Qed.

Lemma assertNotLastDriveAdmin_ok db d u action :
  assertNotLastDriveAdmin db d u action = Ok tt <-> findSoleAdminDrives db u [d] = [].
Proof.
  unfold assertNotLastDriveAdmin. case_bool_decide as H; split; intros Hx; try done.
Qed.

Lemma sole_check_ok db d u (demoted : bool) action o :
  (if demoted then reads (fun db => assertNotLastDriveAdmin db d u action) else mret tt) db = (Ok tt, o) ->
  o = db /\ (demoted = true -> findSoleAdminDrives db u [d] = []).
Proof.
  destruct demoted.
  - intros [= H <-]. split; [done|]. intros _. by apply assertNotLastDriveAdmin_ok in H.
  - by intros [= <-].
Qed.

(** Changing a row keeps every drive's admin, unless it takes the role of the
    only one. *)
Lemma update_role_keeps_admin db d u m role d' :
  drive_members_pk db -> m ∈ db.(driveMembers) -> is_drive_member d u m ->
  (m.(dm_role) = Admin -> role <> Admin -> findSoleAdminDrives db u [d] = []) ->
  drive_has_admin d' db ->
  drive_has_admin d' (db <| driveMembers ::= update_where (is_drive_member d u)
                                               (fun m => m <| dm_role := role |>) |>).
Proof.
  intros Hpk Hm Hmem Hsole (a & Ha & Hd' & Hadm).
  assert (Hkeep : forall b, b ∈ db.(driveMembers) -> is_admin_of d' b -> ~ is_drive_member d u b ->
    drive_has_admin d' (db <| driveMembers ::= update_where (is_drive_member d u)
                                               (fun m => m <| dm_role := role |>) |>)).
  { intros b Hb Hba Hnb. exists b. split; [|done]. cbn. apply elem_of_update_where. eauto. }
  destruct (decide (is_drive_member d u a)) as [Hda|Hda]; [|by apply (Hkeep a)].
  assert (a = m) as ->.
  { apply (NoDup_fmap_eq drive_member_key db.(driveMembers)); try done.
    apply drive_member_key_eq in Hda, Hmem. congruence. }
  destruct (decide (role = Admin)) as [->|Hrole].
  - exists (m <| dm_role := Admin |>). split; [|done]. cbn. apply elem_of_update_where. eauto.
  - destruct Hda as [<- _].
    destruct (other_admin db _ u m Hpk Hm Hmem Hadm (Hsole Hadm Hrole)) as (b & Hb & Hba & Hnb).
    subst d'. by apply (Hkeep b).
Qed.

Lemma delete_member_keeps_admin db d u d' :
  drive_members_pk db ->
  (forall m, m ∈ db.(driveMembers) -> is_drive_member d u m -> m.(dm_role) = Admin ->
     findSoleAdminDrives db u [d] = []) ->
  drive_has_admin d' db ->
  drive_has_admin d' (db <| driveMembers ::= delete_where (is_drive_member d u) |>).
Proof.
  intros Hpk Hsole (a & Ha & Hd' & Hadm).
  destruct (decide (is_drive_member d u a)) as [Hda|Hda].
  - destruct (other_admin db _ u a Hpk Ha Hda Hadm (Hsole a Ha Hda Hadm)) as (b & Hb & Hba & Hnb).
    destruct Hda as [Heq _]. exists b. split; [|by subst]. cbn. by apply elem_of_delete_where.
  - exists a. split; [|done]. cbn. by apply elem_of_delete_where.
Qed.

Lemma insert_drive_member_keeps_admin d r :
  preserves (drive_has_admin d) (insert_drive_member r).
Proof.
  apply preserves_insert. intros db (a & Ha & Hadm) _ _. exists a. split; [|done]. cbn. set_solver.
Qed.

Lemma drive_managed_insert_member d r : preserves (drive_managed d) (insert_drive_member r).
Proof.
  intros db [Hpk Ha]. split; [by apply drive_members_pk_insert|by apply insert_drive_member_keeps_admin].
Qed.
#[export] Hint Resolve drive_managed_insert_member : preserve.

(** Tables other than [driveMembers] do not matter. *)
Lemma drive_managed_ext d db db' :
  db'.(driveMembers) = db.(driveMembers) -> drive_managed d db -> drive_managed d db'.
Proof. unfold drive_managed, drive_members_pk, drive_has_admin. by intros ->. Qed.

Lemma drive_managed_grant d d0 u role : preserves (drive_managed d) (grantDriveRole d0 u role).
Proof.
  unfold grantDriveRole. apply preserves_bind; [apply preserves_gets|]. intros [m|]; [|preserve].
  apply preserves_bind; [|intros; apply preserves_ret]. apply preserves_modify.
  intros db [Hpk (a & Ha & Hd & Hr)]. split; [by apply drive_members_pk_update|].
  destruct (decide (is_drive_member d0 u a)) as [Hm|Hm].
  - exists (a <| dm_role ::= fun r => higherRole r role |>). split.
    + cbn. apply elem_of_update_where. eauto.
    + split; [done|]. cbn. rewrite Hr. unfold higherRole. by rewrite decide_True by auto.
  - exists a. split; [|done]. cbn. apply elem_of_update_where. eauto.
Qed.

(** Run the guard of an operation at state [s]. *)
Ltac run_guard s E :=
  match goal with |- context [(if ?c then ?x else ?y) s] =>
    destruct ((if c then x else y) s) as [[[]|?e] ?s1] eqn:E
  end.

Lemma drive_managed_update d d0 u role : preserves (drive_managed d) (updateDriveMemberRole d0 u role).
Proof.
  apply preserves_transaction. intros db Hok. unfold mbind, M_bind, gets.
  destruct (get_row _ _) as [m|] eqn:Em; [|done]. apply get_row_some in Em as [Hin Hm].
  cbn [some_or_throw mret M_ret].
  run_guard db Ec.
  - apply sole_check_ok in Ec as [-> Hsole]. destruct Hok as [Hpk Ha]. cbn. split.
    + by apply drive_members_pk_update.
    + apply (update_role_keeps_admin db d0 u m); try done. intros Hr Hne. apply Hsole.
      by rewrite !bool_decide_true.
  - destruct (_ && _) in Ec; [|discriminate Ec]. injection Ec as _ <-. done.
Qed.

Lemma drive_managed_remove d d0 u : preserves (drive_managed d) (removeDriveMember d0 u).
Proof.
  apply preserves_transaction. intros db Hok. unfold mbind, M_bind, gets.
  destruct (get_row _ _) as [m|] eqn:Em; [|done]. apply get_row_some in Em as [Hin Hm].
  cbn [some_or_throw mret M_ret].
  run_guard db Ec.
  - apply sole_check_ok in Ec as [-> Hsole]. destruct Hok as [Hpk Ha]. cbn. split.
    + by apply drive_members_pk_delete.
    + apply delete_member_keeps_admin; [done| |done]. intros m' Hm' Hmem' Hadm'. apply Hsole.
      assert (m' = m) as -> by (apply (NoDup_fmap_eq drive_member_key db.(driveMembers)); try done;
        apply drive_member_key_eq in Hmem', Hm; congruence).
      by apply bool_decide_eq_true.
  - destruct (bool_decide _) in Ec; [|discriminate Ec]. injection Ec as _ <-. done.
Qed.

Lemma drive_managed_create d id now org name def creator :
  preserves (drive_managed d) (createDrive id now org name def creator).
Proof.
  unfold createDrive. preserve. apply preserves_insert. intros db Hdb _ _. by apply (drive_managed_ext d db).
Qed.

Lemma getUserDriveRole_update db d u f :
  (forall m, drive_member_key (f m) = drive_member_key m) ->
  (forall d' u', (d', u') <> (d, u) ->
     getUserDriveRole (db <| driveMembers ::= update_where (is_drive_member d u) f |>) u' d' =
     getUserDriveRole db u' d') /\
  getUserDriveRole (db <| driveMembers ::= update_where (is_drive_member d u) f |>) u d =
  (fun m => dm_role (f m)) <$> get_row (is_drive_member d u) db.(driveMembers).
Proof.
  intros Hf. split.
  - intros d' u' Hne. unfold getUserDriveRole. cbn. rewrite get_row_update_other; [done|].
    intros m Hm. rewrite !drive_member_key_eq, Hf in *. split; congruence.
  - unfold getUserDriveRole. cbn. rewrite get_row_update_same.
    + by rewrite <- option_fmap_compose.
    + intros m Hm. rewrite drive_member_key_eq, Hf in *. done.
Qed.

Lemma insert_drive_member_roles db d u role db' :
  insert_drive_member (Build_DriveMember d u role) db = (Ok tt, db') ->
  getUserDriveRole db u d = None /\ getUserDriveRole db' u d = Some role /\
  (forall d' u', (d', u') <> (d, u) -> getUserDriveRole db' u' d' = getUserDriveRole db u' d').
Proof.
  unfold insert_drive_member. intros (Hc & _ & ->)%insert_ok. apply first_taken_none in Hc as [Hc _].
  cbn in Hc.
  assert (Hn : get_row (is_drive_member d u) db.(driveMembers) = None)
    by (by apply get_row_exists_row).
  unfold getUserDriveRole. cbn. rewrite Hn, get_row_snoc, Hn. split_and!; [done|by rewrite decide_True by done|].
  intros d' u' Hne. rewrite get_row_snoc. destruct (get_row (is_drive_member d' u') _); [done|].
  rewrite decide_False; [done|]. rewrite drive_member_key_eq. unfold drive_member_key. cbn. congruence.
Qed.

Lemma map_get_unique {A} (rows : list (string * A)) k r :
  NoDup (fst <$> rows) -> r ∈ rows -> r.1 = k -> map_get rows k = Some r.2.
Proof.
  intros Hnd Hr Hk. unfold map_get.
  destruct (last (filter (fun x => x.1 = k) rows)) as [x|] eqn:E.
  - apply last_Some_elem_of in E. apply list_elem_of_filter in E as [Hx Hin]. cbn. do 2 f_equal.
    apply (NoDup_fmap_eq fst rows); congruence || done.
  - apply last_None in E.
    assert (H : r ∈ filter (fun x => x.1 = k) rows) by (by apply list_elem_of_filter).
    rewrite E in H. set_solver.
Qed.

Lemma map_get_some {A} (rows : list (string * A)) k a : map_get rows k = Some a -> (k, a) ∈ rows.
Proof.
  unfold map_get. intros ([k' a'] & Hl & ->)%fmap_Some. apply last_Some_elem_of in Hl.
  apply list_elem_of_filter in Hl as [Hk Hin]. cbn in *. by subst.
Qed.

(** The roles a user holds, as the map the listing builds: what the guard reads. *)
Lemma my_roles_get db u d :
  drive_members_pk db ->
  map_get ((fun m => (m.(dm_driveId), m.(dm_role))) <$>
           filter (fun m => m.(dm_userId) = u) db.(driveMembers)) d = getUserDriveRole db u d.
Proof.
  intros Hpk. destruct (getUserDriveRole db u d) as [r|] eqn:E.
  - apply getUserDriveRole_some in E as (m & Hm & [Hd Hu] & Hr).
    rewrite (map_get_unique _ d (d, r)); [done| | |done].
    + rewrite <- list_fmap_compose. apply (NoDup_fmap_refine drive_member_key).
      * intros x y Hx Hy Hxy. apply list_elem_of_filter in Hx, Hy. cbn in Hxy.
        unfold drive_member_key. destruct Hx as [-> _], Hy as [-> _]. by rewrite Hxy.
      * by apply NoDup_fmap_filter.
    + apply list_elem_of_fmap. exists m. subst. split; [done|]. by apply list_elem_of_filter.
  - destruct (map_get _ d) as [r|] eqn:Em; [|done]. apply map_get_some in Em.
    apply list_elem_of_fmap in Em as (m & Heq & Hm). injection Heq as -> ->.
    apply list_elem_of_filter in Hm as [Hu Hm]. unfold getUserDriveRole in E.
    apply fmap_None in E. rewrite get_row_none in E. by destruct (E m Hm).
Qed.

Lemma elem_of_listManageable db o u x r :
  (x, r) ∈ listManageableDrives db o u <->
  x ∈ listDrives db o /\
  r = map_get ((fun m => (m.(dm_driveId), m.(dm_role))) <$>
               filter (fun m => m.(dm_userId) = u) db.(driveMembers)) x.1.1 /\
  (getUserOrgRole db u o = Some Admin \/ r = Some Admin).
Proof.
  unfold listManageableDrives. rewrite list_elem_of_filter, list_elem_of_fmap. cbn.
  rewrite bool_decide_eq_true. split.
  - intros (Hor & y & [= -> ->] & Hy). done.
  - intros (Hx & -> & Hor). split; [done|]. eauto.
Qed.

Lemma requireDriveAdmin_ok db u d r :
  requireDriveAdmin db u d = Ok r <->
  r = Admin /\ exists drive, get_drive_row db d = Some drive /\
    (getUserDriveRole db u d = Some Admin \/ getUserOrgRole db u drive.(drv_orgId) = Some Admin).
Proof.
  unfold requireDriveAdmin. destruct (get_drive_row db d) as [drive|].
  - destruct (decide (getUserDriveRole db u d = Some Admin)) as [H1|H1];
      [|destruct (decide (getUserOrgRole db u (drv_orgId drive) = Some Admin)) as [H2|H2]].
    + split; [intros [= <-]; eauto 6|by intros [-> _]].
    + split; [intros [= <-]; eauto 6|by intros [-> _]].
    + split; [discriminate|]. by intros (_ & ? & [= <-] & [?|?]).
  - split; [discriminate|]. by intros (_ & ? & [=] & _).
Qed.

(** ** Properties *)

(** A grant only raises.  When [grantDriveRole] returns, the user holds the
    higher of the role they had and the role granted, that role is what is
    returned, [created] says whether they were new to the drive, and no other
    membership changes. *)
Theorem grantDriveRole_raises db d u role r created db' :
  grantDriveRole d u role db = (Ok (r, created), db') ->
  getUserDriveRole db' u d = Some r /\
  r = match getUserDriveRole db u d with Some old => higherRole old role | None => role end /\
  (forall old, getUserDriveRole db u d = Some old -> ROLE_LEVELS old <= ROLE_LEVELS r) /\
  ROLE_LEVELS role <= ROLE_LEVELS r /\
  created = negb (bool_decide (is_Some (getUserDriveRole db u d))) /\
  (forall d' u', (d', u') <> (d, u) -> getUserDriveRole db' u' d' = getUserDriveRole db u' d').
Proof.
  unfold grantDriveRole. intros H. apply bind_ok in H as (row & s & [= <- <-] & H).
  destruct (get_row (is_drive_member d u) db.(driveMembers)) as [m|] eqn:E.
  - apply bind_ok in H as ([] & s & [= <-] & [= <- <- <-]).
    destruct (getUserDriveRole_update db d u (fun m => m <| dm_role ::= fun r => higherRole r role |>))
      as [Hother Hsame]; [done|].
    assert (Eold : getUserDriveRole db u d = Some m.(dm_role)) by (unfold getUserDriveRole; by rewrite E).
    rewrite E in Hsame. rewrite Eold. split_and!; try done.
    + intros old [= <-]. rewrite higherRole_level. lia.
    + rewrite higherRole_level. lia.
  - apply bind_ok in H as ([] & s & H & [= <- <- <-]).
    apply insert_drive_member_roles in H as (Hn & Hs & Ho). rewrite Hn. split_and!; (done || lia).
Qed.

Lemma grantDriveRole_raises_witness :
  exists db', grantDriveRole "d1" "u2" Viewer sample_db = (Ok (Editor, false), db') /\
    getUserDriveRole db' "u2" "d1" = Some Editor.
Proof.
  eexists. split; [reflexivity|].
  exact (proj1 (grantDriveRole_raises sample_db "d1" "u2" Viewer Editor false _ eq_refl)).
Defined.

(** The list of drives a user may manage is what the guard allows: a drive of
    the org is listed exactly when [requireDriveAdmin] lets the user through. *)
Theorem listManageableDrives_requireDriveAdmin db o u drive :
  drive_members_pk db -> NoDup (drv_id <$> db.(drives)) ->
  drive ∈ db.(drives) -> drive.(drv_orgId) = o ->
  (exists r, (drive_info drive, r) ∈ listManageableDrives db o u) <->
  requireDriveAdmin db u drive.(drv_id) = Ok Admin.
Proof.
  intros Hpk Hnd Hin Ho.
  assert (Hrow : get_drive_row db drive.(drv_id) = Some drive).
  { destruct (get_row_is_some (fun d => d.(drv_id) = drive.(drv_id)) db.(drives) drive Hin) as [x Hx];
      [done|]. unfold get_drive_row. rewrite Hx. apply get_row_some in Hx as [Hx1 Hx2].
    f_equal. by apply (NoDup_fmap_eq drv_id db.(drives)). }
  rewrite requireDriveAdmin_ok. split.
  - intros (r & (_ & -> & Hor)%elem_of_listManageable). rewrite my_roles_get in Hor by done.
    split; [done|]. exists drive. rewrite Ho. split; [done|]. cbn in Hor. tauto.
  - intros (_ & ? & Hx & Hor). rewrite Hrow in Hx. injection Hx as <-.
    eexists. apply elem_of_listManageable. split_and!; [|reflexivity|].
    + unfold listDrives. apply list_elem_of_fmap. exists drive. split; [done|]. by apply list_elem_of_filter.
    + rewrite my_roles_get by done. rewrite <- Ho. cbn. tauto.
Qed.

Lemma listManageableDrives_requireDriveAdmin_witness :
  (exists r, (drive_info (Build_Drive "d2" "o1" "secret" false 0), r) ∈
             listManageableDrives sample_db "o1" "u1") <->
  requireDriveAdmin sample_db "u1" "d2" = Ok Admin.
Proof.
  apply (listManageableDrives_requireDriveAdmin sample_db "o1" "u1"
           (Build_Drive "d2" "o1" "secret" false 0)).
  - unfold drive_members_pk. cbn. repeat (constructor; [set_solver|]). constructor.
  - cbn. repeat (constructor; [set_solver|]). constructor.
  - cbn. set_solver.
  - reflexivity.
Defined.
