(* ===== verification/ApiKeys.v ===== *)
(** * API keys: core/src/identity/api-keys.ts and the key functions of users.ts

    A user's primary key is the hash in [users]; every other key is a row of
    [user_api_keys], possibly scoped to one org.  The theorems: a minted key
    resolves to its user and scope until it is revoked and never after; a
    revoked primary key matches nothing; and [revokeGrantedKeys] revokes exactly
    the keys its reason names. *)

From S2P Require Import Prelude JsString Errors Schema Rbac.

Section ApiKeys.
Context {rt : Runtime}.

Definition PRIMARY_API_KEY_ID : string := "primary".
Definition REVOKED_PRIMARY_PREFIX : string := "revoked:".
Definition API_KEY_LABEL_MAX : Z := 100.
Definition API_KEY_LAST_USED_THROTTLE_SECONDS : Z := 60.

Definition hashApiKey (key : string) : string := sha256hex key.

Record ApiKeyInfo : Type := {
  info_id : string;
  info_label : string;
  info_createdAt : option Z;
  info_lastUsedAt : option Z;
  info_primary : bool;
  info_orgId : option string;
  info_createdByUserId : string
}.

Record CreatedApiKey : Type := {
  created_id : string;
  created_label : string;
  created_createdAt : Z;
  created_apiKey : string;
  created_orgId : option string
}.

Record OrgKeyResetResult : Type := {
  reset_user : string * string;
  reset_apiKey : string;
  reset_keyId : string;
  reset_orgId : string
}.

Definition parseApiKeyLabel (input : json) : outcome error string :=
  let label := match input with JStr s => trim s | _ => "" end in
  if bool_decide (label = "") || (API_KEY_LABEL_MAX <? js_length label)
  then Throw (ValidationError ("label must be 1–" +:+ pretty API_KEY_LABEL_MAX +:+ " characters")
                (Some "label") None)
  else Ok label.

Definition find_user (db : Db) (userId : string) : option User :=
  get_row (fun u => u.(usr_id) = userId) db.(users).

Definition user_not_found : error := NotFoundError "User not found" None (Some "Check the user id").

Definition opt_json (o : option string) : json :=
  match o with Some s => JStr s | None => JNull end.

(** An audit event about [userId]'s keys. *)
Definition key_event (eventId orgId type userId actorId : string) (metadata : json) (createdAt : Z)
    : Event :=
  Build_Event eventId orgId type "user" userId actorId (Some userId) EvCreated (Some metadata)
    (ts_sec createdAt).

(** [id], [apiKey] and [eventId] are the values drawn at random. *)
Definition createUserApiKey (id apiKey eventId : string) (now : Z)
    (userId : string) (label : json) (actorId : string) (orgId scopeOrgId : option string)
    : DbM CreatedApiKey :=
  label ← from_outcome (parseApiKeyLabel label);
  user ← gets (fun db => find_user db userId);
  _ ← some_or_throw user user_not_found;
  let createdAt := ts_sec now in
  _ ← transaction (
    _ ← insert_user_api_key (Build_UserApiKey id userId (hashApiKey apiKey) label createdAt
                               None None actorId scopeOrgId);
    match truthy orgId with
    | Some org =>
        insert_event (key_event eventId org "api_key_created" userId actorId
          (JObj [("method", JStr (if bool_decide (actorId = userId) then "self" else "admin"));
                 ("keyId", JStr id); ("label", JStr label); ("scopeOrgId", opt_json scopeOrgId)])
          createdAt)
    | None => mret tt
    end);
  mret {| created_id := id; created_label := label; created_createdAt := createdAt;
          created_apiKey := apiKey; created_orgId := scopeOrgId |}.

(** Rows [isNull(revokedAt)] and [p] select. *)
Definition revoke_keys (p : UserApiKey -> Prop) `{forall k, Decision (p k)} (now : Z) (db : Db) : Db :=
  db <| userApiKeys ::= update_where (fun k => p k /\ k.(key_revokedAt) = None)
                          (fun k => k <| key_revokedAt := Some (ts_sec now) |>) |>.

Definition active_keys (p : UserApiKey -> Prop) `{forall k, Decision (p k)} (db : Db) : list UserApiKey :=
  filter (fun k => p k /\ k.(key_revokedAt) = None) db.(userApiKeys).

Definition resetOrgScopedKey (id apiKey eventId : string) (now : Z) (userId actorId orgId : string)
    : DbM OrgKeyResetResult :=
  row ← gets (fun db => find_user db userId);
  user ← some_or_throw row user_not_found;
  let now := ts_sec now in
  _ ← transaction (
    _ ← modify (revoke_keys (fun k => k.(key_userId) = userId /\ k.(key_orgId) = Some orgId) now);
    _ ← insert_user_api_key (Build_UserApiKey id userId (hashApiKey apiKey) "Reset by an org admin"
                               now None None actorId (Some orgId));
    insert_event (key_event eventId orgId "api_key_reset" userId actorId
      (JObj [("method", JStr "admin"); ("keyId", JStr id); ("scopeOrgId", JStr orgId)]) now));
  mret {| reset_user := (user.(usr_id), user.(usr_email)); reset_apiKey := apiKey;
          reset_keyId := id; reset_orgId := orgId |}.

Definition is_revoked_primary (hash : string) : bool := starts_with REVOKED_PRIMARY_PREFIX hash.

Definition key_info (k : UserApiKey) : ApiKeyInfo :=
  {| info_id := k.(key_id); info_label := k.(key_label); info_createdAt := Some k.(key_createdAt);
     info_lastUsedAt := k.(key_lastUsedAt); info_primary := false; info_orgId := k.(key_orgId);
     info_createdByUserId := k.(key_createdByUserId) |}.

(** [ORDER BY created_at, id]. *)
Definition key_order (a b : UserApiKey) : bool :=
  (a.(key_createdAt) <? b.(key_createdAt)) ||
  ((a.(key_createdAt) =? b.(key_createdAt)) && string_le a.(key_id) b.(key_id)).

Definition listUserApiKeys (db : Db) (userId : string) : outcome error (list ApiKeyInfo) :=
  match find_user db userId with
  | None => Throw (NotFoundError "User not found" None None)
  | Some user =>
      let primary :=
        if is_revoked_primary user.(usr_apiKeyHash) then []
        else [{| info_id := PRIMARY_API_KEY_ID; info_label := "primary"; info_createdAt := None;
                 info_lastUsedAt := None; info_primary := true; info_orgId := None;
                 info_createdByUserId := userId |}] in
      Ok (primary ++ (key_info <$> sort_by key_order (active_keys (fun k => k.(key_userId) = userId) db)))
  end.

Definition set_api_key_hash (userId hash : string) (db : Db) : Db :=
  db <| users ::= update_where (fun u => u.(usr_id) = userId) (fun u => u <| usr_apiKeyHash := hash |>) |>.

(** [uuid] is the random suffix of a revoked primary hash. *)
Definition revokeUserApiKey (uuid eventId : string) (now : Z) (userId keyId actorId : string)
    (orgId : option string) : DbM unit :=
  transaction (
    changed ←
      (if bool_decide (keyId = PRIMARY_API_KEY_ID) then
         user ← gets (fun db => find_user db userId);
         match user with
         | Some u =>
             if is_revoked_primary u.(usr_apiKeyHash) then mret 0%nat
             else _ ← modify (set_api_key_hash userId (REVOKED_PRIMARY_PREFIX +:+ uuid)); mret 1%nat
         | None => mret 0%nat
         end
       else
         n ← gets (fun db => length (active_keys (fun k => k.(key_id) = keyId /\ k.(key_userId) = userId) db));
         _ ← modify (revoke_keys (fun k => k.(key_id) = keyId /\ k.(key_userId) = userId) now);
         mret n);
    _ ← throw_if (bool_decide (changed = 0%nat))
          (NotFoundError ("API key not found: " +:+ keyId) None (Some "List your keys with GET /auth/keys"));
    match truthy orgId with
    | Some org => insert_event (key_event eventId org "api_key_revoked" userId actorId
                                  (JObj [("keyId", JStr keyId)]) now)
    | None => mret tt
    end).

(** Why a grant ended. *)
Inductive revoke_reason : Type :=
| memberLeftOrg (orgId userId : string)
| adminDemoted (orgId userId : string)
| selfReset (userId : string).

Definition revoke_match (reason : revoke_reason) (k : UserApiKey) : Prop :=
  match reason with
  | memberLeftOrg orgId userId =>
      k.(key_orgId) = Some orgId /\ (k.(key_userId) = userId \/ k.(key_createdByUserId) = userId)
  | adminDemoted orgId userId =>
      k.(key_orgId) = Some orgId /\ k.(key_createdByUserId) = userId /\ k.(key_userId) <> userId
  | selfReset userId => k.(key_userId) = userId /\ k.(key_orgId) <> None
  end.
#[export] Instance revoke_match_dec reason k : Decision (revoke_match reason k).
Proof. destruct reason; cbn; apply _. Defined.

Definition revokeGrantedKeys (now : Z) (reason : revoke_reason) : DbM nat :=
  n ← gets (fun db => length (active_keys (revoke_match reason) db));
  _ ← modify (revoke_keys (revoke_match reason) now);
  mret n.

(** ** users.ts: rotating and resolving keys *)

Definition resetApiKey (apiKey eventId : string) (now : Z) (userId actorId orgId : string)
    : DbM ((string * string) * string) :=
  _ ← throw_if (bool_decide (actorId <> userId))
        (PermissionDeniedError "Only the user can rotate their own primary API key" None None
           (Some "An org admin's reset-key mints an org-scoped key (resetOrgScopedKey)"));
  row ← gets (fun db => find_user db userId);
  existing ← some_or_throw row user_not_found;
  _ ← transaction (
    _ ← modify (set_api_key_hash userId (hashApiKey apiKey));
    _ ← revokeGrantedKeys now (selfReset userId);
    insert_event (key_event eventId orgId "api_key_reset" userId actorId
      (JObj [("method", JStr "self")]) now));
  mret ((existing.(usr_id), existing.(usr_email)), apiKey).

Definition resetApiKeyOrgless (apiKey : string) (now : Z) (userId : string) : DbM string :=
  _ ← transaction (
    _ ← modify (set_api_key_hash userId (hashApiKey apiKey));
    _ ← revokeGrantedKeys now (selfReset userId);
    mret tt);
  mret apiKey.

Record ResolvedKey : Type := {
  rk_id : string;
  rk_email : string;
  rk_scopeOrgId : option string;
  rk_keyId : string
}.

(** The first row of the UNION ALL: a user with that primary hash, else an
    active key with that hash together with its user. *)
Definition primary_match (db : Db) (hash : string) : option User :=
  get_row (fun u => u.(usr_apiKeyHash) = hash) db.(users).

Definition key_match (db : Db) (hash : string) : option (UserApiKey * User) :=
  head (k ← active_keys (fun k => k.(key_keyHash) = hash) db;
        pair k <$> filter (fun u => u.(usr_id) = k.(key_userId)) db.(users)).

Definition last_used_stale (now : Z) (lastUsedAt : option Z) : bool :=
  match lastUsedAt with
  | None => true
  | Some t => API_KEY_LAST_USED_THROTTLE_SECONDS <=? now / 1000 - t / 1000
  end.

Definition getUserByApiKey (now : Z) (apiKey : string) : DbM (option ResolvedKey) :=
  let hash := hashApiKey apiKey in
  p ← gets (fun db => primary_match db hash);
  match p with
  | Some u => mret (Some {| rk_id := u.(usr_id); rk_email := u.(usr_email); rk_scopeOrgId := None;
                            rk_keyId := PRIMARY_API_KEY_ID |})
  | None =>
      m ← gets (fun db => key_match db hash);
      match m with
      | None => mret None
      | Some (k, u) =>
          _ ← when (last_used_stale now k.(key_lastUsedAt))
                (modify (fun db => db <| userApiKeys ::= update_where (fun r => r.(key_id) = k.(key_id))
                           (fun r => r <| key_lastUsedAt := Some (ts_sec now) |>) |>));
          mret (Some {| rk_id := u.(usr_id); rk_email := u.(usr_email);
                        rk_scopeOrgId := k.(key_orgId); rk_keyId := k.(key_id) |})
      end
  end.

(** ** Lemmas *)

Lemma active_keys_snoc p `{forall k, Decision (p k)} db k :
  active_keys p (db <| userApiKeys ::= fun t => t ++ [k] |>) =
  active_keys p db ++ (if decide (p k /\ k.(key_revokedAt) = None) then [k] else []).
Proof. unfold active_keys. cbn. by rewrite filter_app, filter_cons, filter_nil. Qed.

(** The active keys left by a revocation. *)
Lemma active_keys_revoked p q `{forall k, Decision (p k), forall k, Decision (q k)} now db :
  (forall k v, p (k <| key_revokedAt := v |>) <-> p k) ->
  active_keys p (revoke_keys q now db) = active_keys (fun k => p k /\ ~ q k) db.
Proof.
  intros Hp. unfold active_keys, revoke_keys, update_where. cbn.
  induction db.(userApiKeys) as [|k t IH]; [done|].
  rewrite fmap_cons, !filter_cons, IH.
  destruct (decide (q k /\ k.(key_revokedAt) = None)) as [[Hq Ha]|Hq].
  - rewrite decide_False by (intros [_ [=]]). rewrite decide_False; [done|]. tauto.
  - destruct (decide (p k /\ k.(key_revokedAt) = None)) as [Hk|Hk].
    + rewrite decide_True; [done|]. tauto.
    + rewrite decide_False; [done|]. tauto.
Qed.

Lemma active_keys_nil p `{forall k, Decision (p k)} db :
  active_keys p db = [] <-> forall k, k ∈ db.(userApiKeys) -> p k -> k.(key_revokedAt) <> None.
Proof.
  unfold active_keys. split.
  - intros Hf k Hk Hp Hr.
    assert (Hin : k ∈ filter (fun k => p k /\ k.(key_revokedAt) = None) db.(userApiKeys))
      by (by apply list_elem_of_filter).
    rewrite Hf in Hin. set_solver.
  - intros Hf. destruct (filter _ _) as [|k l] eqn:E; [done|].
    assert (Hin : k ∈ filter (fun k => p k /\ k.(key_revokedAt) = None) db.(userApiKeys)) by (rewrite E; set_solver).
    apply list_elem_of_filter in Hin as [[Hp Hr] Hin]. by destruct (Hf k Hin Hp).
Qed.

Lemma insert_event_frame r db o db' :
  insert_event r db = (o, db') ->
  db'.(users) = db.(users) /\ db'.(userApiKeys) = db.(userApiKeys).
Proof.
  unfold insert_event, insert. destruct (first_taken _); [by intros [= _ <-]|].
  destruct (_ && _); by intros [= _ <-].
Qed.

(** The optional audit event touches neither users nor keys. *)
Lemma audit_frame org f db db' :
  match truthy org with Some o => insert_event (f o) | None => mret tt end db = (Ok tt, db') ->
  db'.(users) = db.(users) /\ db'.(userApiKeys) = db.(userApiKeys).
Proof. destruct (truthy org); [apply insert_event_frame|by intros [= <-]]. Qed.

Lemma getUserByApiKey_outcome now apiKey db :
  fst (getUserByApiKey now apiKey db) =
  Ok (match primary_match db (hashApiKey apiKey) with
      | Some u => Some {| rk_id := u.(usr_id); rk_email := u.(usr_email); rk_scopeOrgId := None;
                          rk_keyId := PRIMARY_API_KEY_ID |}
      | None =>
          (fun '(k, u) => {| rk_id := u.(usr_id); rk_email := u.(usr_email);
                             rk_scopeOrgId := k.(key_orgId); rk_keyId := k.(key_id) |})
            <$> key_match db (hashApiKey apiKey)
      end).
Proof.
  unfold getUserByApiKey, mbind, M_bind, gets.
  destruct (primary_match _ _); [done|].
  destruct (key_match _ _) as [[k u]|]; [|done]. by destruct (last_used_stale _ _).
Qed.

Lemma insert_user_api_key_ok r db a db' :
  insert_user_api_key r db = (Ok a, db') ->
  (forall k, k ∈ db.(userApiKeys) -> k.(key_id) <> r.(key_id) /\ k.(key_keyHash) <> r.(key_keyHash)) /\
  db' = db <| userApiKeys ::= fun t => t ++ [r] |>.
Proof.
  unfold insert_user_api_key. intros (Hc & _ & ->)%insert_ok. split; [|done].
  apply first_taken_none in Hc as [Hid Hc]. apply first_taken_none in Hc as [Hh _].
  rewrite exists_row_false in Hid, Hh. auto.
Qed.

(** What a successful mint wrote. *)
Lemma createUserApiKey_ok id apiKey ev now u label actor org scope db c db' :
  createUserApiKey id apiKey ev now u label actor org scope db = (Ok c, db') ->
  is_Some (find_user db u) /\
  (forall k, k ∈ db.(userApiKeys) -> k.(key_keyHash) <> hashApiKey apiKey) /\
  db'.(users) = db.(users) /\
  exists l, db'.(userApiKeys) =
    db.(userApiKeys) ++ [Build_UserApiKey id u (hashApiKey apiKey) l (ts_sec now) None None actor scope].
Proof.
  unfold createUserApiKey. intros Hc. inv_ok.
  match goal with Hi : insert_user_api_key _ _ = _ |- _ =>
    apply insert_user_api_key_ok in Hi as [Hk ->] end.
  match goal with Ha : _ _ = (Ok ?t, _) |- _ => destruct t; apply audit_frame in Ha as [Hu Hk'] end.
  split_and!; [eauto| |exact Hu|eexists; exact Hk']. intros k Hin. by apply Hk.
Qed.

Lemma key_match_some db hash k u :
  key_match db hash = Some (k, u) ->
  k ∈ db.(userApiKeys) /\ k.(key_keyHash) = hash /\ k.(key_revokedAt) = None /\
  u ∈ db.(users) /\ u.(usr_id) = k.(key_userId).
Proof.
  unfold key_match. intros Hm%head_Some_elem_of. apply list_elem_of_bind in Hm as (k' & Hin & Hk').
  apply list_elem_of_fmap in Hin as (u' & [= -> ->] & Hu').
  apply list_elem_of_filter in Hu' as [? ?], Hk' as [[? ?] ?]. done.
Qed.

(** A hash carried by one active key only. *)
Lemma key_match_unique db hash k u :
  active_keys (fun k => k.(key_keyHash) = hash) db = [k] -> find_user db k.(key_userId) = Some u ->
  key_match db hash = Some (k, u).
Proof.
  unfold key_match, find_user, get_row. intros -> Hu. cbn. rewrite app_nil_r.
  destruct (filter _ _); [done|]. cbn in Hu |- *. congruence.
Qed.

Lemma key_match_none db hash :
  active_keys (fun k => k.(key_keyHash) = hash) db = [] -> key_match db hash = None.
Proof. unfold key_match. by intros ->. Qed.

Lemma revokeUserApiKey_ok uuid ev now u keyId actor org db db' :
  revokeUserApiKey uuid ev now u keyId actor org db = (Ok tt, db') ->
  (keyId <> PRIMARY_API_KEY_ID ->
     db'.(users) = db.(users) /\
     db'.(userApiKeys) =
       (revoke_keys (fun k => k.(key_id) = keyId /\ k.(key_userId) = u) now db).(userApiKeys)) /\
  (keyId = PRIMARY_API_KEY_ID ->
     db'.(users) = (set_api_key_hash u (REVOKED_PRIMARY_PREFIX +:+ uuid) db).(users) /\
     db'.(userApiKeys) = db.(userApiKeys)).
Proof.
  unfold revokeUserApiKey. intros Hr. inv_ok.
  match goal with Ha : _ _ = (Ok tt, db') |- _ => apply audit_frame in Ha as [Hu Hk] end.
  rewrite Hu, Hk. clear Hu Hk.
  destruct (decide (keyId = PRIMARY_API_KEY_ID)) as [Hp|Hp];
    [rewrite bool_decide_true in * by done|rewrite (bool_decide_false (keyId = _)) in * by done]; inv_ok.
  - split; [done|]. intros _. destruct (find_user db u) as [x|]; [|inv_ok; discriminate].
    destruct (is_revoked_primary _); inv_ok; [discriminate|done].
  - done.
Qed.

(** A JS hash never looks like a revoked one. *)
Lemma hash_not_revoked `{!RuntimeLaws rt} apiKey uuid : hashApiKey apiKey <> REVOKED_PRIMARY_PREFIX +:+ uuid.
Proof.
  intros Heq. pose proof (sha256hex_no_colon apiKey) as Hc. unfold hashApiKey in Heq.
  rewrite Heq in Hc. discriminate Hc.
Qed.

Lemma find_user_update_hash db u h u' :
  is_Some (find_user (set_api_key_hash u h db) u') <-> is_Some (find_user db u').
Proof.
  unfold find_user, set_api_key_hash. cbn. rewrite <- !not_eq_None_Some, !get_row_exists_row.
  rewrite !not_false_iff_true, !exists_row_true. split.
  - intros (r & Hr & Hid). apply elem_of_update_where in Hr as (r0 & Hr0 & [[? ->]|[? ->]]); eauto.
  - intros (r & Hr & Hid). destruct (decide (r.(usr_id) = u)).
    + exists (r <| usr_apiKeyHash := h |>). split; [|done]. apply elem_of_update_where. eauto.
    + exists r. split; [|done]. apply elem_of_update_where. eauto.
Qed.

(** ** Properties *)

(** An additional API key works from its creation until it is revoked, and
    never after.  After [createUserApiKey] the plaintext resolves to the user it
    was minted for, with the scope it was minted with; after [revokeUserApiKey]
    of it the plaintext resolves to nobody, at any time. *)
Theorem api_key_lifecycle id apiKey ev now u label actor org scope db c db1 :
  createUserApiKey id apiKey ev now u label actor org scope db = (Ok c, db1) ->
  id <> PRIMARY_API_KEY_ID -> primary_match db (hashApiKey apiKey) = None ->
  (forall t, exists email, fst (getUserByApiKey t apiKey db1) =
     Ok (Some {| rk_id := u; rk_email := email; rk_scopeOrgId := scope; rk_keyId := id |})) /\
  (forall uuid ev' now' actor' org' db2,
     revokeUserApiKey uuid ev' now' u id actor' org' db1 = (Ok tt, db2) ->
     forall t, fst (getUserByApiKey t apiKey db2) = Ok None).
Proof.
  intros Hc Hid Hp. apply createUserApiKey_ok in Hc as ([x Hx] & Hfresh & Husers & l & Hkeys).
  set (k := Build_UserApiKey _ _ _ _ _ _ _ _ _) in Hkeys.
  assert (Hp1 : forall db0, db0.(users) = db.(users) -> primary_match db0 (hashApiKey apiKey) = None)
    by (intros db0 E; unfold primary_match; by rewrite E).
  assert (Hone : active_keys (fun k => k.(key_keyHash) = hashApiKey apiKey) db1 = [k]).
  { unfold active_keys. rewrite Hkeys, filter_app, filter_cons, filter_nil, decide_True by done.
    replace (filter _ db.(userApiKeys)) with (@nil UserApiKey); [done|].
    symmetry. apply active_keys_nil. intros k' Hk' Hh. by destruct (Hfresh k'). }
  split.
  - intros t. exists (usr_email x). rewrite getUserByApiKey_outcome, Hp1 by done.
    rewrite (key_match_unique _ _ k x Hone) by (unfold find_user in *; by rewrite Husers).
    cbn. apply get_row_some in Hx as [_ <-]. done.
  - intros uuid ev' now' actor' org' db2 Hr t. apply revokeUserApiKey_ok in Hr as [Hr _].
    destruct (Hr Hid) as [Hu2 Hk2]. rewrite getUserByApiKey_outcome, Hp1 by congruence.
    rewrite key_match_none; [done|]. unfold active_keys at 1. rewrite Hk2.
    change (filter _ (userApiKeys ?d)) with (active_keys (fun k => k.(key_keyHash) = hashApiKey apiKey) d).
    rewrite active_keys_revoked by done. apply active_keys_nil. intros k' Hin [Hh Hn] Hact.
    assert (Hk' : k' ∈ active_keys (fun k => k.(key_keyHash) = hashApiKey apiKey) db1)
      by (by apply list_elem_of_filter).
    rewrite Hone in Hk'. apply list_elem_of_singleton in Hk' as ->. by apply Hn.
Qed.

(** A revoked primary key is dead.  After [revokeUserApiKey] of [primary] no
    plaintext resolves to the user through the primary column, and the list of
    the user's keys no longer shows a primary key. *)
Theorem revoked_primary_is_dead `{!RuntimeLaws rt} uuid ev now u actor org db db' :
  revokeUserApiKey uuid ev now u PRIMARY_API_KEY_ID actor org db = (Ok tt, db') ->
  (forall apiKey v, primary_match db' (hashApiKey apiKey) = Some v -> v.(usr_id) <> u) /\
  (forall l, listUserApiKeys db' u = Ok l -> Forall (fun i => i.(info_primary) = false) l).
Proof.
  intros Hr. apply revokeUserApiKey_ok in Hr as [_ Hr]. destruct (Hr eq_refl) as [Hu _].
  assert (Hhash : forall v, v ∈ db'.(users) -> v.(usr_id) = u -> v.(usr_apiKeyHash) = REVOKED_PRIMARY_PREFIX +:+ uuid).
  { intros v Hv Hid. rewrite Hu in Hv. apply elem_of_update_where in Hv as (r & _ & [[_ ->]|[Hne ->]]); done. }
  split.
  - intros apiKey v Hm Hid. apply get_row_some in Hm as [Hin Hh]. rewrite (Hhash v Hin Hid) in Hh.
    by apply (hash_not_revoked apiKey uuid).
  - intros l. unfold listUserApiKeys. destruct (find_user db' u) as [v|] eqn:Ev; [|discriminate].
    apply get_row_some in Ev as [Hin Hid]. rewrite (Hhash v Hin Hid).
    unfold is_revoked_primary. rewrite starts_with_app. intros [= <-]. cbn [app].
    apply Forall_forall. intros i Hi. by apply list_elem_of_fmap in Hi as (k & -> & _).
Qed.

(** [revokeGrantedKeys] revokes exactly the keys its reason names.  It always
    returns, with the number of active keys the reason matches; afterwards none
    of them is active, every other active key still is, no revocation date
    changes, and no other table is touched. *)
Theorem revokeGrantedKeys_exact now reason db :
  exists db', revokeGrantedKeys now reason db = (Ok (length (active_keys (revoke_match reason) db)), db') /\
    active_keys (revoke_match reason) db' = [] /\
    active_keys (fun k => ~ revoke_match reason k) db' = active_keys (fun k => ~ revoke_match reason k) db /\
    (forall k, k ∈ db.(userApiKeys) -> k.(key_revokedAt) <> None -> k ∈ db'.(userApiKeys)) /\
    key_id <$> db'.(userApiKeys) = key_id <$> db.(userApiKeys) /\
    db' <| userApiKeys := db.(userApiKeys) |> = db.
Proof.
  exists (revoke_keys (revoke_match reason) now db). split_and!; [done|..].
  - rewrite active_keys_revoked by (intros; by destruct reason). apply active_keys_nil. tauto.
  - rewrite active_keys_revoked by (intros; by destruct reason). unfold active_keys.
    apply list_filter_iff. tauto.
  - intros k Hk Hr. apply elem_of_update_where. exists k. split; [done|]. right. split; [|done]. tauto.
  - apply fmap_update_where. done.
  - by destruct db.
Qed.
End ApiKeys.

(** ** Witnesses *)

Definition minted : outcome error CreatedApiKey * Db :=
  createUserApiKey (rt := ascii_runtime) "k1" "af_1" "e1" 5000 "u2" (JStr "ci") "u1" (Some "o1")
    (Some "o1") sample_db.

Lemma api_key_lifecycle_witness :
  (exists email, fst (getUserByApiKey (rt := ascii_runtime) 9000 "af_1" minted.2) =
    Ok (Some {| rk_id := "u2"; rk_email := email; rk_scopeOrgId := Some "o1"; rk_keyId := "k1" |})).
Proof.
  exact (proj1 (api_key_lifecycle (rt := ascii_runtime) "k1" "af_1" "e1" 5000 "u2" (JStr "ci") "u1"
    (Some "o1") (Some "o1") sample_db _ _ eq_refl ltac:(discriminate) eq_refl) 9000).
Defined.

Lemma revoked_primary_is_dead_witness :
  exists db', revokeUserApiKey "r" "e2" 7000 "u2" "primary" "u2" None sample_db = (Ok tt, db') /\
  (forall apiKey v, primary_match db' (hashApiKey (rt := ascii_runtime) apiKey) = Some v -> v.(usr_id) <> "u2").
Proof.
  eexists. split; [reflexivity|].
  exact (proj1 (revoked_primary_is_dead (rt := ascii_runtime) "r" "e2" 7000 "u2" "u2" None sample_db _ eq_refl)).
Defined.
