(* ===== verification/Orgs.v ===== *)
(** * Organisations and their members: core/src/identity/orgs.ts

    Creating an org, listing its members, changing a role and removing a member
    (invitations are in Invites.v).  A removal is all or nothing and takes every
    drive membership and org-scoped key with it; an org and each of its drives
    keep an admin.  [updateOrgMemberRole] reads outside the write lock: its two
    halves are separate definitions, and a race of two calls is exhibited. *)

From S2P Require Import Prelude JsString Errors Schema Rbac Drives ApiKeys.

(** [orgId] and [driveId] are the fresh UUIDs. *)
Definition createOrg (orgId driveId : string) (now : Z) (name userId : string)
    (isPersonal : option bool) : DbM (string * string) :=
  _ ← insert_org (Build_Org orgId name (isPersonal ?? false) (ts_sec now));
  _ ← insert_org_member (Build_OrgMember orgId userId Admin);
  _ ← createDrive driveId now orgId "default" (Some true) (Some userId);
  mret (orgId, name).

(** id, name, role, isPersonal. *)
Definition listUserOrgs (db : Db) (userId : string) : list (string * string * Role * bool) :=
  m ← filter (fun m => m.(om_userId) = userId) db.(orgMembers);
  (fun o => (m.(om_orgId), o.(org_name), m.(om_role), o.(org_isPersonal))) <$>
    filter (fun o => o.(org_id) = m.(om_orgId)) db.(orgs).

Definition getOrg (db : Db) (orgId : string) : option Org :=
  get_row (fun o => o.(org_id) = orgId) db.(orgs).

Definition listOrgMembers (db : Db) (orgId : string) : list (string * string * Role) :=
  m ← filter (fun m => m.(om_orgId) = orgId) db.(orgMembers);
  (fun u => (m.(om_userId), u.(usr_email), m.(om_role))) <$>
    filter (fun u => u.(usr_id) = m.(om_userId)) db.(users).

Definition is_org_admin (orgId : string) (m : OrgMember) : Prop :=
  m.(om_orgId) = orgId /\ m.(om_role) = Admin.
#[export] Instance is_org_admin_dec o m : Decision (is_org_admin o m).
Proof. unfold is_org_admin. apply _. Defined.

Definition adminCount (db : Db) (orgId : string) : nat :=
  length (filter (is_org_admin orgId) db.(orgMembers)).

Definition last_org_admin : error := JsError "Cannot remove the last admin from the org".

(** The checks, which run on the caller's connection with no lock held: they
    return the role read. *)
Definition updateOrgMemberRole_check (orgId userId : string) (role : Role) (db : Db)
    : outcome error Role :=
  match getUserOrgRole db userId orgId with
  | None => Throw (JsError "Member not found in org")
  | Some existing =>
      if bool_decide (existing = Admin) && bool_decide (role <> Admin)
         && bool_decide (adminCount db orgId <= 1)%nat
      then Throw last_org_admin
      else Ok existing
  end.

(** The transaction that follows, given the role read before it. *)
Definition updateOrgMemberRole_write (now : Z) (orgId userId : string) (role existing : Role)
    : DbM unit :=
  transaction (
    _ ← modify (fun db => db <| orgMembers ::= update_where (is_org_member orgId userId)
                             (fun m => m <| om_role := role |>) |>);
    when (bool_decide (existing = Admin) && bool_decide (role <> Admin))
      (_ ← revokeGrantedKeys now (adminDemoted orgId userId); mret tt)).

Definition updateOrgMemberRole (now : Z) (orgId userId : string) (role : Role) : DbM unit :=
  existing ← reads (updateOrgMemberRole_check orgId userId role);
  updateOrgMemberRole_write now orgId userId role existing.

(** The cascade of a removal over the drives of the org. *)
Definition leave_drives (userId : string) (driveIds : list string) : DbM unit :=
  for_each driveIds (fun d =>
    modify (fun db => db <| driveMembers ::= delete_where (is_drive_member d userId) |>)).

Definition org_drive_ids (db : Db) (orgId : string) : list string :=
  drv_id <$> filter (fun d => d.(drv_orgId) = orgId) db.(drives).

Definition removeOrgMember (now : Z) (orgId userId : string) : DbM unit :=
  withWriteLock (
    org ← gets (fun db => getOrg db orgId);
    _ ← throw_if (match org with Some o => o.(org_isPersonal) | None => false end)
          (JsError "Cannot remove members from a personal org");
    row ← gets (fun db => getUserOrgRole db userId orgId);
    role ← some_or_throw row (JsError "Member not found in org");
    count ← gets (fun db => adminCount db orgId);
    _ ← throw_if (bool_decide (role = Admin) && bool_decide (count <= 1)%nat) last_org_admin;
    driveIds ← gets (fun db => org_drive_ids db orgId);
    blocking ← gets (fun db => findSoleAdminDrives db userId driveIds);
    _ ← throw_if (bool_decide (blocking <> []))
          (ValidationError ("Cannot remove this member: they are the only admin of "
             +:+ (if bool_decide (length blocking = 1%nat) then "drive" else "drives") +:+ " "
             +:+ describeDrives blocking) None
             (Some "Make another member an admin of each of these drives first"));
    _ ← leave_drives userId driveIds;
    _ ← modify (fun db => db <| orgMembers ::= delete_where (is_org_member orgId userId) |>);
    _ ← revokeGrantedKeys now (memberLeftOrg orgId userId);
    mret tt).

(** ** Invariants *)

Definition org_has_admin (orgId : string) (db : Db) : Prop :=
  exists m, m ∈ db.(orgMembers) /\ is_org_admin orgId m.

Definition org_managed (orgId : string) (db : Db) : Prop :=
  org_members_pk db /\ org_has_admin orgId db.

(** ** Lemmas *)

Lemma org_member_key_eq m o u : is_org_member o u m <-> org_member_key m = (o, u).
Proof. unfold is_org_member, org_member_key. split; [by intros [-> ->]|by intros [= -> ->]]. Qed.

Lemma getUserOrgRole_some db u o r :
  getUserOrgRole db u o = Some r ->
  exists m, m ∈ db.(orgMembers) /\ is_org_member o u m /\ m.(om_role) = r.
Proof.
  unfold getUserOrgRole. intros (m & Hm & ->)%fmap_Some. apply get_row_some in Hm as [? ?]. eauto.
Qed.

(** With more than one admin, one of them is someone else. *)
Lemma other_org_admin db o u :
  org_members_pk db -> (2 <= adminCount db o)%nat ->
  exists m, m ∈ db.(orgMembers) /\ is_org_admin o m /\ ~ is_org_member o u m.
Proof.
  intros Hpk Hlen.
  destruct (filter_two_other org_member_key (is_org_admin o) _ (o, u) Hpk Hlen) as (m & Hm & Ha & Hk).
  exists m. by rewrite org_member_key_eq.
Qed.

Lemma leave_drives_run u ids db :
  leave_drives u ids db =
  (Ok tt, db <| driveMembers ::= filter (fun m => ~ (m.(dm_userId) = u /\ m.(dm_driveId) ∈ ids)) |>).
Proof.
  unfold leave_drives. revert db. induction ids as [|d ids IH]; intros db; cbn.
  - unfold mret, M_ret. f_equal. destruct db. unfold update; cbn. f_equal.
    symmetry. apply filter_all. intros m _. set_solver.
  - unfold mbind, M_bind, modify. cbn. rewrite IH. f_equal. destruct db. unfold update, delete_where; cbn.
    f_equal. rewrite list_filter_filter. apply list_filter_iff. intros m. unfold is_drive_member.
    rewrite elem_of_cons. tauto.
Qed.

Lemma org_managed_ext o db db' :
  db'.(orgMembers) = db.(orgMembers) -> org_managed o db -> org_managed o db'.
Proof. unfold org_managed, org_members_pk, org_has_admin. by intros ->. Qed.

Lemma org_members_pk_update db o u f :
  (forall m, org_member_key (f m) = org_member_key m) ->
  org_members_pk db -> org_members_pk (db <| orgMembers ::= update_where (is_org_member o u) f |>).
Proof. unfold org_members_pk. intros Hf Hpk. cbn. rewrite fmap_update_where; auto. Qed.

(** The tables revocation leaves alone. *)
Lemma revokeGrantedKeys_frame now reason :
  forall db, (revokeGrantedKeys now reason db).2 = revoke_keys (revoke_match reason) now db.
Proof. done. Qed.

(** Changing a role under the check keeps every org's admin. *)
Lemma org_managed_update o now o0 u role :
  preserves (org_managed o) (updateOrgMemberRole now o0 u role).
Proof.
  intros db [Hpk (a & Ha & Ho & Hr)].
  unfold updateOrgMemberRole, mbind, M_bind, reads.
  destruct (updateOrgMemberRole_check o0 u role db) as [existing|e] eqn:Ec; [|by split; [|exists a]].
  assert (Hs : (updateOrgMemberRole_write now o0 u role existing db).2.(orgMembers) =
    update_where (is_org_member o0 u) (fun m => m <| om_role := role |>) db.(orgMembers)).
  { unfold updateOrgMemberRole_write, transaction, mbind, M_bind, modify. cbn.
    by destruct (bool_decide (existing = Admin) && _). }
  apply (org_managed_ext o (db <| orgMembers ::= update_where (is_org_member o0 u)
           (fun m => m <| om_role := role |>) |>)); [exact Hs|]. clear Hs.
  split; [by apply org_members_pk_update|].
  unfold updateOrgMemberRole_check in Ec.
  destruct (getUserOrgRole db u o0) as [r|] eqn:Er; [|discriminate].
  destruct (decide (is_org_member o0 u a)) as [Hm|Hm].
  - destruct (decide (role = Admin)) as [->|Hne].
    { exists (a <| om_role := Admin |>). split; [|done]. cbn. apply elem_of_update_where. eauto. }
    apply getUserOrgRole_some in Er as (m & Hm' & Hmem & <-).
    assert (m = a) as ->.
    { apply (NoDup_fmap_eq org_member_key db.(orgMembers)); try done.
      apply org_member_key_eq in Hm, Hmem. congruence. }
    rewrite Hr, !bool_decide_true in Ec by done. cbn [andb] in Ec.
    case_bool_decide as Hc; [discriminate|].
    destruct (other_org_admin db o0 u Hpk ltac:(lia)) as (b & Hb & Hba & Hnb).
    destruct Hm as [<- _]. exists b. split; [|by rewrite <- Ho]. cbn. apply elem_of_update_where. eauto.
  - exists a. split; [|done]. cbn. apply elem_of_update_where. eauto.
Qed.

(** What a removal that returns has checked and written. *)
Lemma removeOrgMember_ok now o u db db' :
  removeOrgMember now o u db = (Ok tt, db') ->
  exists role, getUserOrgRole db u o = Some role /\ (role = Admin -> (2 <= adminCount db o)%nat) /\
    findSoleAdminDrives db u (org_drive_ids db o) = [] /\
    db'.(orgMembers) = delete_where (is_org_member o u) db.(orgMembers) /\
    db'.(driveMembers) =
      filter (fun m => ~ (m.(dm_userId) = u /\ m.(dm_driveId) ∈ org_drive_ids db o)) db.(driveMembers) /\
    db'.(userApiKeys) = (revoke_keys (revoke_match (memberLeftOrg o u)) now db).(userApiKeys) /\
    db'.(drives) = db.(drives).
Proof.
  unfold removeOrgMember, withWriteLock. intros Hr. inv_ok.
  match goal with Hl : leave_drives _ _ _ = _ |- _ => rewrite leave_drives_run in Hl; injection Hl as Hl end.
  match goal with Hk : revokeGrantedKeys _ _ _ = _ |- _ =>
    apply (f_equal snd) in Hk; rewrite revokeGrantedKeys_frame in Hk; cbn in Hk; subst end.
  eexists. split_and!; [eassumption| | |done..].
  - intros ->. match goal with Hc : bool_decide (Admin = Admin) && _ = false |- _ =>
      rewrite bool_decide_true in Hc by done; cbn in Hc; apply bool_decide_eq_false in Hc end. lia.
  - match goal with Hc : bool_decide (findSoleAdminDrives _ _ _ <> []) = false |- _ =>
      apply bool_decide_eq_false in Hc; by apply dec_stable end.
Qed.

Lemma sole_admin_drives_nil db u ids d :
  findSoleAdminDrives db u ids = [] -> d ∈ ids -> findSoleAdminDrives db u [d] = [].
Proof.
  intros Hn Hd. unfold findSoleAdminDrives. cbn. destruct (sole_admin db u d) eqn:E; [|done]. exfalso.
  assert (Hin : (d, (drv_name <$> get_drive_row db d) ?? d) ∈ findSoleAdminDrives db u ids).
  { apply list_elem_of_bind. exists d. split; [|done]. rewrite E. apply list_elem_of_here. }
  rewrite Hn in Hin. set_solver.
Qed.

Lemma org_managed_remove o now o0 u : preserves (org_managed o) (removeOrgMember now o0 u).
Proof.
  intros db Hdb. destruct (removeOrgMember now o0 u db) as [[[]|e] db'] eqn:E.
  - apply removeOrgMember_ok in E as (role & Hrole & Hcount & _ & Hom & _).
    apply (org_managed_ext o (db <| orgMembers ::= delete_where (is_org_member o0 u) |>)); [done|].
    destruct Hdb as [Hpk (a & Ha & Ho & Hr)]. split; [by apply NoDup_delete_where|].
    destruct (decide (is_org_member o0 u a)) as [Hm|Hm].
    + apply getUserOrgRole_some in Hrole as (m & Hm' & Hmem & <-).
      assert (m = a) as -> by (apply (NoDup_fmap_eq org_member_key db.(orgMembers)); try done;
        apply org_member_key_eq in Hm, Hmem; congruence).
      destruct (other_org_admin db o0 u Hpk (Hcount Hr)) as (b & Hb & Hba & Hnb).
      destruct Hm as [<- _]. exists b. split; [|by rewrite <- Ho]. cbn. by apply elem_of_delete_where.
    + exists a. split; [|done]. cbn. by apply elem_of_delete_where.
  - unfold removeOrgMember, withWriteLock in E. by apply transaction_throw in E as ->.
Qed.

Lemma drive_managed_remove_org d now o u : preserves (drive_managed d) (removeOrgMember now o u).
Proof.
  intros db Hdb. destruct (removeOrgMember now o u db) as [[[]|e] db'] eqn:E.
  - apply removeOrgMember_ok in E as (role & _ & _ & Hsole & _ & Hdm & _).
    apply (drive_managed_ext d (db <| driveMembers ::=
      filter (fun m => ~ (m.(dm_userId) = u /\ m.(dm_driveId) ∈ org_drive_ids db o)) |>)); [done|].
    destruct Hdb as [Hpk (a & Ha & Hd & Hr)]. split; [by apply NoDup_fmap_filter|].
    destruct (decide (a.(dm_userId) = u /\ a.(dm_driveId) ∈ org_drive_ids db o)) as [[Hu Hin]|Hk].
    + destruct (other_admin db d u a Hpk Ha (conj Hd Hu) Hr) as (b & Hb & Hba & Hnb).
      { apply (sole_admin_drives_nil db u _ d Hsole). congruence. }
      exists b. split; [|done]. cbn. apply list_elem_of_filter. split; [|done].
      intros [Hbu _]. apply Hnb. split; [apply Hba|done].
    + exists a. split; [|done]. cbn. by apply list_elem_of_filter.
  - unfold removeOrgMember, withWriteLock in E. by apply transaction_throw in E as ->.
Qed.

(** ** Properties *)

(** Removing a member is all or nothing, and complete.  A refused removal
    changes nothing.  After one that returns, the member has no role in the
    org nor on any of its drives, no active key of theirs or minted by them is
    scoped to the org, everyone else's memberships are as before, and the org
    is left with an admin. *)
Theorem removeOrgMember_complete now o u db r db' :
  removeOrgMember now o u db = (r, db') ->
  match r with
  | Throw _ => db' = db
  | Ok _ =>
      getUserOrgRole db' u o = None /\
      (forall d, d ∈ db.(drives) -> d.(drv_orgId) = o -> getUserDriveRole db' u d.(drv_id) = None) /\
      active_keys (revoke_match (memberLeftOrg o u)) db' = [] /\
      (forall u' o', (o', u') <> (o, u) -> getUserOrgRole db' u' o' = getUserOrgRole db u' o') /\
      (forall u' d, u' <> u -> getUserDriveRole db' u' d = getUserDriveRole db u' d) /\
      (org_managed o db -> org_has_admin o db')
  end.
Proof.
  intros E. destruct r as [[]|e]; [|by apply transaction_throw in E].
  pose proof (org_managed_remove o now o u db) as Hman. rewrite E in Hman.
  apply removeOrgMember_ok in E as (role & Hrole & _ & _ & Hom & Hdm & Hk & _). split_and!.
  - unfold getUserOrgRole. rewrite Hom. apply fmap_None, get_row_none.
    intros m [_ Hm]%elem_of_delete_where. done.
  - intros d Hd Ho. unfold getUserDriveRole. rewrite Hdm. apply fmap_None, get_row_none.
    intros m [Hn _]%list_elem_of_filter [Hmd Hmu]. apply Hn. split; [done|]. rewrite Hmd.
    unfold org_drive_ids. apply list_elem_of_fmap. exists d. split; [done|]. by apply list_elem_of_filter.
  - unfold active_keys. rewrite Hk.
    change (active_keys (revoke_match (memberLeftOrg o u))
              (revoke_keys (revoke_match (memberLeftOrg o u)) now db) = []).
    rewrite active_keys_revoked by done. apply active_keys_nil. tauto.
  - intros u' o' Hne. unfold getUserOrgRole. rewrite Hom, get_row_delete_other; [done|].
    intros m. rewrite !org_member_key_eq. congruence.
  - intros u' d Hne. unfold getUserDriveRole. rewrite Hdm.
    change (filter _ _) with (delete_where (fun m => m.(dm_userId) = u /\ m.(dm_driveId) ∈ org_drive_ids db o)
                                db.(driveMembers)).
    rewrite get_row_delete_other; [done|]. intros m [Hm _] [_ Hu]. congruence.
  - intros Hdb. by apply Hman.
Qed.

Lemma removeOrgMember_complete_witness :
  exists db', removeOrgMember 9000 "o1" "u2" sample_db = (Ok tt, db') /\ getUserOrgRole db' "u2" "o1" = None.
Proof.
  eexists. split; [reflexivity|].
  exact (proj1 (removeOrgMember_complete 9000 "o1" "u2" sample_db (Ok tt) _ eq_refl)).
Defined.

(** Two admins of one org, demoted by two connections: both checks run before
    either write. *)
Definition demote_race (now : Z) (orgId u1 u2 : string) (db : Db) : option Db :=
  match updateOrgMemberRole_check orgId u1 Viewer db, updateOrgMemberRole_check orgId u2 Viewer db with
  | Ok r1, Ok r2 =>
      let db1 := (updateOrgMemberRole_write now orgId u1 Viewer r1 db).2 in
      Some (updateOrgMemberRole_write now orgId u2 Viewer r2 db1).2
  | _, _ => None
  end.

(** Checking outside the write lock is not enough.  One call of
    [updateOrgMemberRole] at a time keeps the org's admin, but when a second
    connection checks between the first one's check and its write, both
    demotions go through and the org is left without an admin. *)
Theorem updateOrgMemberRole_race :
  (forall now o o' u role db, org_managed o db -> org_has_admin o (updateOrgMemberRole now o' u role db).2) /\
  (exists db db', org_managed "o1" db /\ demote_race 0 "o1" "u1" "u2" db = Some db' /\ ~ org_has_admin "o1" db').
Proof.
  split; [intros; by eapply org_managed_update|].
  exists (sample_db <| orgMembers := [Build_OrgMember "o1" "u1" Admin; Build_OrgMember "o1" "u2" Admin] |>).
  eexists. split_and!; [|reflexivity|].
  - split; [|exists (Build_OrgMember "o1" "u1" Admin); split; [cbn; set_solver|done]].
    unfold org_members_pk. cbn. repeat (constructor; [set_solver|]). constructor.
  - intros (m & Hm & _ & Ha). cbn in Hm.
    apply elem_of_cons in Hm as [->|Hm]; [discriminate|].
    apply list_elem_of_singleton in Hm as ->. discriminate.
Qed.
