(* ===== verification/Users.v ===== *)
(** * Accounts: core/src/identity/users.ts

    Registration, the profile, and resolving an email to one account (the API
    key functions of users.ts are in ApiKeys.v).  The theorem on
    [resolveUserByEmail] says when an answer is an exact match, when it is the
    only case-insensitive one, and when the caller is told it is ambiguous. *)

From S2P Require Import Prelude JsString Errors Schema Rbac Drives ApiKeys Orgs.

Section Users.
Context {rt : Runtime}.

(** [email.split("@")[0]]. *)
Definition local_part (email : string) : string :=
  default "" (head (split_on (fun c => bool_decide (c = "@"%char)) email)).

(** The ids and the key are drawn at random; [createUser] is not a transaction. *)
Definition createUser (id apiKey orgId driveId : string) (now : Z) (email : string)
    : DbM ((string * string) * string) :=
  _ ← insert_user (Build_User id email None (hashApiKey apiKey) (ts_sec now));
  _ ← createOrg orgId driveId now (local_part email) id (Some true);
  mret ((id, email), apiKey).

Definition getUserByEmail (db : Db) (email : string) : option (string * string) :=
  (fun u => (u.(usr_id), u.(usr_email))) <$> get_row (fun u => u.(usr_email) = email) db.(users).

(** [profileUpdateSchema.safeParse(input)]: the new display name. *)
Definition profileUpdateSchema (input : json) : option (option string) :=
  match input with
  | JObj [(k, v)] =>
      if bool_decide (k = "displayName") then
        match v with
        | JNull => Some None
        | JStr s =>
            let t := trim s in
            if (1 <=? js_length t) && (js_length t <=? 100) then Some (Some t) else None
        | _ => None
        end
      else None
  | _ => None
  end.

(** userId, email, displayName. *)
Definition getProfile (db : Db) (userId : string) : outcome error (string * string * option string) :=
  match find_user db userId with
  | Some u => Ok (u.(usr_id), u.(usr_email), u.(usr_displayName))
  | None => Throw (NotFoundError "User not found" None None)
  end.

Definition updateProfile (userId : string) (input : json) : DbM (string * string * option string) :=
  match profileUpdateSchema input with
  | None => throw (ValidationError
      "displayName must be 1–100 characters or null; no other fields are allowed" None None)
  | Some name =>
      _ ← modify (fun db => db <| users ::= update_where (fun u => u.(usr_id) = userId)
                               (fun u => u <| usr_displayName := name |>) |>);
      reads (fun db => getProfile db userId)
  end.

Inductive email_lookup : Type :=
| Found (u : User)
| NoUser
| Ambiguous (candidates : list User).

Definition resolveUserByEmail (db : Db) (email : string) : email_lookup :=
  let trimmed := trim email in
  match get_row (fun u => u.(usr_email) = trimmed) db.(users) with
  | Some u => Found u
  | None =>
      match filter (fun u => sql_lower u.(usr_email) = sql_lower trimmed) db.(users) with
      | [] => NoUser
      | [u] => Found u
      | candidates => Ambiguous candidates
      end
  end.

Definition ambiguousEmailError (email : string) (count : nat) : error :=
  ValidationError (pretty (Z.of_nat count) +:+ " accounts match " +:+ trim email
                     +:+ " when letter case is ignored")
    (Some "email") (Some "Use the account's exact email, including letter case").

(** ** Lemmas *)

Lemma resolveUserByEmail_found db email u :
  resolveUserByEmail db email = Found u ->
  u ∈ db.(users) /\ sql_lower u.(usr_email) = sql_lower (trim email).
Proof.
  unfold resolveUserByEmail. destruct (get_row _ _) as [x|] eqn:E.
  - intros [= ->]. apply get_row_some in E as [? ->]. done.
  - destruct (filter _ _) as [|x [|y l]] eqn:Ef; intros [= ->].
    assert (Hin : u ∈ filter (fun u => sql_lower u.(usr_email) = sql_lower (trim email)) db.(users))
      by (rewrite Ef; set_solver).
    by apply list_elem_of_filter in Hin as [? ?].
Qed.

(** ** Properties *)

(** Resolving an email never picks one of several accounts.  The answer is
    the account with exactly the (trimmed) email when there is one; otherwise
    the only account that matches when ASCII case is ignored; several matches
    are reported, all of them, and none means no account matches at all. *)
Theorem resolveUserByEmail_spec db email :
  let same_case u := u.(usr_email) = trim email in
  let any_case u := sql_lower u.(usr_email) = sql_lower (trim email) in
  match resolveUserByEmail db email with
  | Found u => u ∈ db.(users) /\
      (same_case u \/
       ((forall v, v ∈ db.(users) -> ~ same_case v) /\ filter any_case db.(users) = [u]))
  | NoUser => forall v, v ∈ db.(users) -> ~ any_case v
  | Ambiguous l => (2 <= length l)%nat /\ (forall v, v ∈ l <-> v ∈ db.(users) /\ any_case v) /\
      forall v, v ∈ db.(users) -> ~ same_case v
  end.
Proof.
  cbn. unfold resolveUserByEmail. destruct (get_row _ _) as [x|] eqn:E.
  - apply get_row_some in E as [? ?]. auto.
  - rewrite get_row_none in E.
    assert (Hl : forall v, v ∈ filter (fun u => sql_lower u.(usr_email) = sql_lower (trim email)) db.(users)
      <-> v ∈ db.(users) /\ sql_lower v.(usr_email) = sql_lower (trim email))
      by (intros v; rewrite list_elem_of_filter; tauto).
    destruct (filter _ _) as [|x [|y l]] eqn:Ef.
    + intros v Hv Hc. assert (Hin : v ∈ @nil User) by (by apply Hl). set_solver.
    + split; [|by right]. assert (Hin : x ∈ [x]) by set_solver. by apply Hl in Hin as [? ?].
    + split_and!; [cbn; lia|exact Hl|exact E].
Qed.
End Users.
