(* ===== verification/Invites.v ===== *)
(** * Invitations: core/src/identity/invites.ts, and inviteToOrg / addDriveMember of orgs.ts

    A pending invite is a row whose token is stored hashed; it is open until it
    is accepted or revoked.  The theorems: an org and an email have at most one
    open invite, a token is accepted at most once and only by the account the
    invite's email resolves to, acceptance only raises roles, an accept link
    parses back to its token, and the four ways a token can be dead look alike. *)

From S2P Require Import Prelude JsString Errors Schema Rbac Drives ApiKeys Orgs Users.

Section Invites.
Context {rt : Runtime}.

Definition INVITE_TTL_SECONDS : Z := 7 * 24 * 3600.

Definition normalizeInviteEmail (email : string) : string := toLowerCase (trim email).
Definition hashInviteToken (token : string) : string := sha256hex token.

(** ** Tokens and links *)

(** [A-Za-z0-9_-]. *)
Definition token_char (c : ascii) : bool :=
  let n := Ascii.nat_of_ascii c in
  (Nat.leb 65 n && Nat.leb n 90) || (Nat.leb 97 n && Nat.leb n 122) || (Nat.leb 48 n && Nat.leb n 57)
  || Nat.eqb n 95 || Nat.eqb n 45.

(** [TOKEN_RE]. *)
Definition is_token (s : string) : bool :=
  Nat.eqb (String.length s) 43 && all_chars token_char s.

(** The leftmost place where [m] matches. *)
Fixpoint search (m : string -> option string) (s : string) : option string :=
  match m s with
  | Some t => Some t
  | None => match s with EmptyString => None | String _ s' => search m s' end
  end.

(** The query of a link: up to a hash sign or white space. *)
Fixpoint skip_query (s : string) : string :=
  match s with
  | EmptyString => EmptyString
  | String c s' =>
      if bool_decide (c = "#"%char) || bool_decide (is_Some (space_length js_spaces s))
      then s else skip_query s'
  end.

(** The fragment form at the start of [s]: [/invite], perhaps a slash, perhaps a
    query, a hash sign, and a token that ends the input. *)
Definition match_fragment (s : string) : option string :=
  if starts_with "/invite" s then
    let s1 := drop_str 7 s in
    let s2 := if starts_with "/" s1 then drop_str 1 s1 else s1 in
    let s3 := if starts_with "?" s2 then skip_query (drop_str 1 s2) else s2 in
    if starts_with "#" s3 then
      let t := drop_str 1 s3 in if is_token t then Some t else None
    else None
  else None.

(** The path form at the start of [s]: [/invite/] and a token, then a slash, a
    question mark, a hash sign or the end. *)
Definition match_path (s : string) : option string :=
  if starts_with "/invite/" s then
    let t := take_str 43 (drop_str 8 s) in
    let rest := drop_str 51 s in
    if is_token t && (bool_decide (rest = "") || starts_with "/" rest || starts_with "?" rest
                      || starts_with "#" rest)
    then Some t else None
  else None.

Definition parseInviteToken (input : string) : option string :=
  let trimmed := trim input in
  if is_token trimmed then Some trimmed
  else match search match_fragment trimmed with
       | Some t => Some t
       | None => search match_path trimmed
       end.

(** [.replace(/\/+$/, "")]. *)
Fixpoint drop_slashes (s : string) : string :=
  match s with
  | String c s' => if bool_decide (c = slash) then drop_slashes s' else s
  | EmptyString => EmptyString
  end.
Definition strip_trailing_slashes (s : string) : string := string_rev (drop_slashes (string_rev s)).

Definition inviteAcceptUrl (appUrl : option string) (token : string) : option string :=
  match truthy appUrl with
  | Some app => Some (strip_trailing_slashes app +:+ "/invite#" +:+ token)
  | None => None
  end.

(** ** The store of invites *)

Definition invalidInvite : error :=
  NotFoundError "Invite not found or no longer valid" None
    (Some "Ask the person who invited you for a new link").

Definition isOpen (i : OrgInvite) : Prop := i.(inv_acceptedAt) = None /\ i.(inv_revokedAt) = None.
#[export] Instance isOpen_dec i : Decision (isOpen i).
Proof. unfold isOpen. apply _. Defined.

(** The open invite of an org and a normalized email. *)
Definition open_for (orgId email : string) (i : OrgInvite) : Prop :=
  i.(inv_orgId) = orgId /\ i.(inv_email) = email /\ isOpen i.
#[export] Instance open_for_dec o e i : Decision (open_for o e i).
Proof. unfold open_for. apply _. Defined.

Definition revokeOpenInviteForEmail (now : Z) (orgId email : string) : DbM bool :=
  found ← gets (fun db => exists_row (open_for orgId (normalizeInviteEmail email)) db.(orgInvites));
  _ ← modify (fun db => db <| orgInvites ::= update_where (open_for orgId (normalizeInviteEmail email))
                           (fun i => i <| inv_revokedAt := Some (ts_sec now) |>) |>);
  mret found.

Record PendingInviteResult : Type := {
  pi_inviteId : string;
  pi_email : string;
  pi_token : string;
  pi_expiresAt : Z;
  pi_drives : list (string * Role)
}.

(** [id] and [token] are drawn at random. *)
Definition createPendingInvite (id token : string) (now : Z) (orgId email : string) (role : Role)
    (drives : list (string * Role)) (invitedBy : string) : DbM PendingInviteResult :=
  let email := normalizeInviteEmail email in
  let expiresAt := now + INVITE_TTL_SECONDS * 1000 in
  _ ← transaction (
    _ ← revokeOpenInviteForEmail now orgId email;
    insert_invite (Build_OrgInvite id orgId email role drives (hashInviteToken token) invitedBy
                     (ts_sec now) (ts_sec expiresAt) None None None));
  mret {| pi_inviteId := id; pi_email := email; pi_token := token; pi_expiresAt := expiresAt;
          pi_drives := drives |}.

Definition getInviteByToken (now : Z) (token : string) (db : Db) : option OrgInvite :=
  if is_token token then
    match get_row (fun i => i.(inv_tokenHash) = hashInviteToken token /\ isOpen i) db.(orgInvites) with
    | Some i => if i.(inv_expiresAt) <=? now then None else Some i
    | None => None
    end
  else None.

Record InvitePreview : Type := {
  ip_orgId : string;
  ip_orgName : string;
  ip_invitedBy : string;
  ip_email : string;
  ip_drives : list (string * string * Role);
  ip_expiresAt : Z
}.

(** Drives of the org, for [Map.has] and [Map.get]. *)
Definition org_drive (db : Db) (orgId driveId : string) : option Drive :=
  last (filter (fun d => d.(drv_orgId) = orgId /\ d.(drv_id) = driveId) db.(drives)).

Definition getInvitePreview (now : Z) (token : string) (db : Db) : outcome error InvitePreview :=
  match getInviteByToken now token db with
  | None => Throw invalidInvite
  | Some invite =>
      match getOrg db invite.(inv_orgId) with
      | None => Throw invalidInvite
      | Some org =>
          let inviter := find_user db invite.(inv_createdBy) in
          Ok {| ip_orgId := invite.(inv_orgId); ip_orgName := org.(org_name);
                ip_invitedBy :=
                  match inviter ≫= fun u => truthy u.(usr_displayName) with
                  | Some n => n
                  | None => truthy (usr_email <$> inviter) ?? "an org admin"
                  end;
                ip_email := invite.(inv_email);
                ip_drives := omap (fun g => (fun d => (g.1, d.(drv_name), g.2)) <$>
                               org_drive db invite.(inv_orgId) g.1) invite.(inv_drives);
                ip_expiresAt := invite.(inv_expiresAt) |}
      end
  end.

Record AcceptInviteResult : Type := {
  ai_orgId : string;
  ai_role : Role;
  ai_drives : list (string * Role);
  ai_skippedDrives : list string
}.

Definition grant_drives (userId : string) (grants : list (string * Role)) : DbM (list (string * Role)) :=
  map_m grants (fun g => r ← grantDriveRole g.1 userId g.2; mret (g.1, r.1)).

(** The transaction of [acceptInvite]. *)
Definition consumeInvite (now : Z) (invite : OrgInvite) (userId : string)
    (granted : list (string * Role)) : DbM (Role * list (string * Role)) :=
  transaction (
    consumed ← gets (fun db => exists_row (fun i => i.(inv_id) = invite.(inv_id) /\ isOpen i) db.(orgInvites));
    _ ← modify (fun db => db <| orgInvites ::=
          update_where (fun i => i.(inv_id) = invite.(inv_id) /\ isOpen i)
            (fun i => i <| inv_acceptedAt := Some (ts_sec now) |> <| inv_acceptedBy := Some userId |>) |>);
    _ ← throw_if (negb consumed) invalidInvite;
    role ← grantOrgRole invite.(inv_orgId) userId invite.(inv_orgRole);
    held ← grant_drives userId granted;
    mret (role, held)).

Definition acceptInvite (now : Z) (token userId : string) : DbM AcceptInviteResult :=
  found ← gets (getInviteByToken now token);
  invite ← some_or_throw found invalidInvite;
  lookup ← gets (fun db => resolveUserByEmail db invite.(inv_email));
  _ ← match lookup with
      | Ambiguous l => throw (ambiguousEmailError invite.(inv_email) (length l))
      | Found u => throw_if (bool_decide (u.(usr_id) <> userId))
          (PermissionDeniedError ("This invite is for " +:+ invite.(inv_email)) None None
            (Some ("Sign in as " +:+ invite.(inv_email)
               +:+ " (register that email if it has no account yet), then accept again")))
      | NoUser => throw
          (PermissionDeniedError ("This invite is for " +:+ invite.(inv_email)) None None
            (Some ("Sign in as " +:+ invite.(inv_email)
               +:+ " (register that email if it has no account yet), then accept again")))
      end;
  existing ← gets (fun db => org_drive_ids db invite.(inv_orgId));
  let granted := filter (fun g : string * Role => g.1 ∈ existing) invite.(inv_drives) in
  let skippedDrives := (filter (fun g : string * Role => g.1 ∉ existing) invite.(inv_drives)).*1 in
  result ← consumeInvite now invite userId granted;
  mret {| ai_orgId := invite.(inv_orgId); ai_role := result.1; ai_drives := result.2;
          ai_skippedDrives := skippedDrives |}.

(** Open invites of an org, newest first, each with whether it has expired. *)
Definition listInvites (now : Z) (orgId : string) (db : Db) : list (OrgInvite * bool) :=
  (fun i => (i, i.(inv_expiresAt) <=? now)) <$>
    sort_by (fun a b => b.(inv_createdAt) <=? a.(inv_createdAt))
      (filter (fun i => i.(inv_orgId) = orgId /\ isOpen i) db.(orgInvites)).

Definition revokeInvite (now : Z) (orgId inviteId : string) : DbM unit :=
  found ← gets (fun db => exists_row (fun i => i.(inv_id) = inviteId /\ i.(inv_orgId) = orgId /\ isOpen i)
                            db.(orgInvites));
  _ ← modify (fun db => db <| orgInvites ::=
        update_where (fun i => i.(inv_id) = inviteId /\ i.(inv_orgId) = orgId /\ isOpen i)
          (fun i => i <| inv_revokedAt := Some (ts_sec now) |>) |>);
  throw_if (negb found)
    (NotFoundError ("Pending invite not found: " +:+ inviteId) None
       (Some "List pending invites with 'agent-fs member invites'")).

(** ** orgs.ts: inviting and adding members *)

(** [[...new Map(pairs).values()]]: a repeated key keeps its first place and its
    last value. *)
Definition dedupe_grants (grants : list (string * Role)) : list (string * Role) :=
  foldl (fun acc g =>
      if existsb (fun h : string * Role => bool_decide (h.1 = g.1)) acc
      then (fun h : string * Role => if bool_decide (h.1 = g.1) then g else h) <$> acc
      else acc ++ [g]) [] grants.

Definition resolveInviteGrants (db : Db) (orgId : string) (role : Role)
    (drives : option (list (string * Role))) : outcome error (list (string * Role)) :=
  match drives with
  | None => Ok (match default_drive db orgId with Some d => [(d.(drv_id), role)] | None => [] end)
  | Some grants =>
      match head (filter (fun g => is_ok (assertDriveInOrg db g.1 orgId) = false) grants) with
      | Some g => match assertDriveInOrg db g.1 orgId with Throw e => Throw e | Ok _ => Ok [] end
      | None => Ok (dedupe_grants grants)
      end
  end.

Inductive InviteResult : Type :=
| Added (userId email : string) (orgRole : Role) (drives : list (string * Role))
| Pending (invite : PendingInviteResult).

Definition inviteToOrg (id token : string) (now : Z) (orgId email : string) (role : Role)
    (drives : option (list (string * Role))) (invitedBy : option string) : DbM InviteResult :=
  lookup ← gets (fun db => resolveUserByEmail db email);
  user ← match lookup with
         | Ambiguous l => throw (ambiguousEmailError email (length l))
         | Found u => mret (Some u)
         | NoUser => mret None
         end;
  _ ← throw_if (bool_decide (user = None) && bool_decide (truthy invitedBy = None))
        (NotFoundError ("User with email " +:+ trim email +:+ " not found") None
           (Some "The person must register an agent-fs account first"));
  grants ← reads (fun db => resolveInviteGrants db orgId role drives);
  isMember ← gets (fun db => match user with
                             | Some u => bool_decide (getUserOrgRole db u.(usr_id) orgId <> None)
                             | None => false
                             end);
  match user with
  | Some u =>
      if bool_decide (truthy invitedBy <> None) && negb isMember then
        p ← createPendingInvite id token now orgId email role grants (invitedBy ?? "");
        mret (Pending p)
      else
        effective ← transaction (
          orgRole ← grantOrgRole orgId u.(usr_id) role;
          held ← grant_drives u.(usr_id) grants;
          _ ← revokeOpenInviteForEmail now orgId u.(usr_email);
          mret (orgRole, held));
        mret (Added u.(usr_id) u.(usr_email) effective.1 effective.2)
  | None =>
      p ← createPendingInvite id token now orgId email role grants (invitedBy ?? "");
      mret (Pending p)
  end.

(** [params.userId], or else [params.email]. *)
Inductive member_ref : Type := ByUserId (userId : string) | ByEmail (email : string).

Definition addDriveMember (orgId driveId : string) (role : Role) (who : member_ref)
    : DbM (string * string * string * Role * bool) :=
  _ ← reads (fun db => assertDriveInOrg db driveId orgId);
  user ← reads (fun db =>
    match who with
    | ByUserId u => Ok (find_user db u)
    | ByEmail email =>
        match resolveUserByEmail db email with
        | Ambiguous l =>
            let members := filter (fun u => getUserOrgRole db u.(usr_id) orgId <> None) l in
            if bool_decide (1 < length members)%nat
            then Throw (ambiguousEmailError email (length members)) else Ok None
        | Found u => Ok (Some u)
        | NoUser => Ok None
        end
    end);
  orgRole ← gets (fun db => user ≫= fun u => getUserOrgRole db u.(usr_id) orgId);
  match user, orgRole with
  | Some u, Some _ =>
      r ← transaction (grantDriveRole driveId u.(usr_id) role);
      mret (u.(usr_id), u.(usr_email), driveId, r.1, r.2)
  | _, _ => throw (NotFoundError "Not a member of this org" None
      (Some "Ask an org admin to invite them to the org first, and use the account's exact email"))
  end.

(** ** Lemmas *)

Lemma insert_invite_ok r db a db' :
  insert_invite r db = (Ok a, db') ->
  (forall i, i ∈ db.(orgInvites) -> i.(inv_id) <> r.(inv_id) /\ i.(inv_tokenHash) <> r.(inv_tokenHash)) /\
  db' = db <| orgInvites ::= fun t => t ++ [r] |>.
Proof.
  unfold insert_invite. intros (Hc & _ & ->)%insert_ok. split; [|done].
  apply first_taken_none in Hc as [Hid Hc]. apply first_taken_none in Hc as [Hh _].
  rewrite exists_row_false in Hid, Hh. auto.
Qed.

Lemma grantOrgRole_ok o u role db r db' :
  grantOrgRole o u role db = (Ok r, db') ->
  getUserOrgRole db' u o = Some r /\
  ROLE_LEVELS role <= ROLE_LEVELS r /\
  (forall old, getUserOrgRole db u o = Some old -> ROLE_LEVELS old <= ROLE_LEVELS r) /\
  db'.(orgInvites) = db.(orgInvites).
Proof.
  unfold grantOrgRole, getUserOrgRole. intros Hg. apply bind_ok in Hg as (row & s & [= <- <-] & Hg).
  destruct (get_row (is_org_member o u) db.(orgMembers)) as [m|] eqn:E; inv_ok.
  - cbn. rewrite get_row_update_same by (intros m'; by rewrite !org_member_key_eq).
    rewrite E. cbn. rewrite higherRole_level. split_and!; [done|lia| |done].
    intros old [= <-]. lia.
  - match goal with Hi : insert_org_member _ _ = _ |- _ => unfold insert_org_member in Hi;
      apply insert_ok in Hi as (_ & _ & ->) end.
    cbn. rewrite get_row_snoc, E, decide_True by done. split_and!; [done|lia|done|done].
Qed.

(** Granting drives leaves org roles and invites alone. *)
Definition same_org_side (db db' : Db) : Prop :=
  db'.(orgMembers) = db.(orgMembers) /\ db'.(orgInvites) = db.(orgInvites).

#[export] Instance same_org_side_preorder : PreOrder same_org_side.
Proof. split; [done|]. intros x y z [? ?] [? ?]. unfold same_org_side. split; congruence. Qed.

Lemma grant_drives_org_side u grants : evolves same_org_side (grant_drives u grants).
Proof.
  apply (proj1 (evolves_preserves _ _)). intros db0. unfold grant_drives. apply preserves_map_m. intros g _.
  apply preserves_bind; [|intros; apply preserves_ret]. unfold grantDriveRole.
  apply preserves_bind; [apply preserves_gets|]. intros [m|].
  - apply preserves_bind; [|intros; apply preserves_ret]. by apply preserves_modify.
  - apply preserves_bind; [|intros; apply preserves_ret]. by apply preserves_insert.
Qed.

(** What a consumption that returns has checked and written. *)
Lemma consumeInvite_ok now i u granted db role held db' :
  consumeInvite now i u granted db = (Ok (role, held), db') ->
  getUserOrgRole db' u i.(inv_orgId) = Some role /\ ROLE_LEVELS i.(inv_orgRole) <= ROLE_LEVELS role /\
  (forall old, getUserOrgRole db u i.(inv_orgId) = Some old -> ROLE_LEVELS old <= ROLE_LEVELS role) /\
  db'.(orgInvites) = update_where (fun j => j.(inv_id) = i.(inv_id) /\ isOpen j)
    (fun j => j <| inv_acceptedAt := Some (ts_sec now) |> <| inv_acceptedBy := Some u |>) db.(orgInvites).
Proof.
  unfold consumeInvite. intros Hc. inv_ok.
  match goal with Hg : grantOrgRole _ _ _ _ = (Ok ?r, ?s1), Hd : grant_drives _ _ ?s1 = (_, ?s2),
    Hp : (_, _) = (_, _) |- _ =>
    injection Hp as -> ->; apply grantOrgRole_ok in Hg as (Hr & Hlev & Hold & Hinv);
    pose proof (grant_drives_org_side u granted s1) as Hside; rewrite Hd in Hside;
    destruct Hside as [Hm Hi]; cbn in Hm, Hi end.
  unfold getUserOrgRole in *. rewrite Hm, Hi, Hinv. done.
Qed.

Lemma acceptInvite_ok now token u db r db' :
  acceptInvite now token u db = (Ok r, db') ->
  exists i granted held, getInviteByToken now token db = Some i /\
    (exists v, resolveUserByEmail db i.(inv_email) = Found v /\ v.(usr_id) = u) /\
    r.(ai_orgId) = i.(inv_orgId) /\
    consumeInvite now i u granted db = (Ok (r.(ai_role), held), db').
Proof.
  unfold acceptInvite. intros Ha. inv_ok.
  match goal with Hi : getInviteByToken now token db = Some ?i, Hc : consumeInvite _ _ _ _ _ = (Ok ?rh, _) |- _ =>
    destruct (resolveUserByEmail db (inv_email i)) as [v| |l] eqn:Ev; inv_ok; destruct rh as [role held] end.
  match goal with Hb : bool_decide _ = false |- _ => apply bool_decide_eq_false in Hb; apply dec_stable in Hb end.
  eauto 10.
Qed.

Lemma getInviteByToken_some now token db i :
  getInviteByToken now token db = Some i ->
  i ∈ db.(orgInvites) /\ i.(inv_tokenHash) = hashInviteToken token /\ isOpen i /\ now < i.(inv_expiresAt).
Proof.
  unfold getInviteByToken. destruct (is_token token); [|done].
  destruct (get_row _ _) as [j|] eqn:E; [|done]. apply get_row_some in E as (Hin & Hh & Ho).
  destruct (Z.leb_spec j.(inv_expiresAt) now); [done|]. by intros [= ->].
Qed.

Lemma filter_open_for_update (o e : string) now (t : list OrgInvite) :
  filter (open_for o e) (update_where (open_for o e) (fun i => i <| inv_revokedAt := Some now |>) t) = [].
Proof.
  apply filter_none. intros i Hi. apply elem_of_update_where in Hi as (j & Hj & [[Hp ->]|[Hn ->]]).
  - intros (_ & _ & _ & [=]).
  - exact Hn.
Qed.

Lemma filter_open_for_update_other o e o' e' now (t : list OrgInvite) :
  (o', e') <> (o, e) ->
  filter (open_for o' e') (update_where (open_for o e) (fun i => i <| inv_revokedAt := Some now |>) t)
  = filter (open_for o' e') t.
Proof.
  intros Hne. unfold update_where. induction t as [|i t IH]; [done|].
  rewrite fmap_cons, !filter_cons, IH.
  destruct (decide (open_for o e i)) as [(H1 & H2 & _)|Hn]; [|done].
  rewrite !decide_False; [done|..]; unfold open_for; cbn; intros (? & ? & _); congruence.
Qed.

Lemma is_token_length t : is_token t = true -> String.length t = 43%nat /\ all_chars token_char t = true.
Proof. unfold is_token. intros [H1 H2]%andb_true_iff. by apply Nat.eqb_eq in H1. Qed.

Lemma token_char_never_space c : token_char c = true -> never_space c = true.
Proof. destruct c as [[] [] [] [] [] [] [] []]; vm_compute; done. Qed.

(** Each white space is made of bytes that no link character is. *)
Lemma space_prefix_app c a b n :
  c = slash -> space_length js_spaces (a +:+ String c b) = Some n ->
  exists a', drop_str n (a +:+ String c b) = a' +:+ String c b.
Proof.
  intros -> Hs. unfold space_length in Hs. apply fmap_Some in Hs as (w & Hw & ->).
  apply head_Some_elem_of, list_elem_of_filter in Hw as [Hp Hw].
  apply starts_with_spec in Hp as [r Hr]. rewrite Hr, drop_str_app.
  assert (Hns : has_char slash w = false).
  { apply list_elem_of_In in Hw. revert w Hw Hr. clear. intros w Hw _.
    repeat (destruct Hw as [<-|Hw]; [reflexivity|]). destruct Hw. }
  clear Hw. revert a Hr. induction w as [|d w IH]; intros a Hr; [by exists a|].
  cbn in Hns. apply orb_false_iff in Hns as [Hd Hns]. destruct a as [|x a]; cbn in Hr.
  - injection Hr as <- _. by rewrite bool_decide_true in Hd.
  - injection Hr as <- Hr. by apply (IH Hns a).
Qed.

Lemma trim_start_keeps c n a b :
  c = slash -> exists a', trim_with js_spaces n (a +:+ String c b) = a' +:+ String c b.
Proof.
  intros ->. revert a. induction n as [|n IH]; intros a; cbn; [by exists a|].
  destruct (space_length js_spaces (a +:+ String slash b)) as [k|] eqn:E; [|by exists a].
  destruct (space_prefix_app slash a b k eq_refl E) as [a' ->]. apply IH.
Qed.

(** A string that ends in a token is not trimmed at its end. *)
Lemma trim_end_token a t : is_token t = true -> trim_end (a +:+ t) = a +:+ t.
Proof.
  intros [Hl Hc]%is_token_length. unfold trim_end. rewrite string_rev_app.
  destruct (string_rev t) as [|c r] eqn:E.
  { apply (f_equal String.length) in E. rewrite length_string_rev, Hl in E. discriminate. }
  rewrite trim_with_stop.
  - cbn. rewrite <- (string_rev_rev t), E. cbn. rewrite string_rev_app, string_rev_rev.
    by rewrite app_assoc_str.
  - cbn. apply never_space_end, token_char_never_space.
    rewrite <- all_chars_rev, E in Hc. cbn in Hc. by apply andb_true_iff in Hc as [? _].
Qed.

Lemma trim_link a t : is_token t = true ->
  exists a', trim (a +:+ "/invite#" +:+ t) = a' +:+ "/invite#" +:+ t.
Proof.
  intros Ht. unfold trim, trim_start. change ("/invite#" +:+ t) with (String slash ("invite#" +:+ t)).
  destruct (trim_start_keeps slash (String.length (a +:+ String slash ("invite#" +:+ t))) a ("invite#" +:+ t) eq_refl)
    as [a' ->]. exists a'.
  change (String slash ("invite#" +:+ t)) with ("/invite#" +:+ t).
  rewrite <- app_assoc_str. by apply trim_end_token.
Qed.

Lemma search_app m a b t : m b = Some t -> exists t', search m (a +:+ b) = Some t' /\
  (t' = t \/ exists a1 a2, a = a1 +:+ a2 /\ m (a2 +:+ b) = Some t').
Proof.
  intros Hb. induction a as [|c a IH]; cbn.
  - exists t. destruct b; cbn; rewrite Hb; auto.
  - destruct (m (String c (a +:+ b))) as [t'|] eqn:E.
    + exists t'. split; [done|]. right. exists "", (String c a). auto.
    + destruct IH as (t' & Hs & [->|(a1 & a2 & -> & Hm)]); [eauto|].
      exists t'. split; [done|]. right. exists (String c a1), a2. auto.
Qed.

(** Whatever matches the fragment form is the last 43 bytes of the input. *)
Lemma match_fragment_suffix s t :
  match_fragment s = Some t -> is_token t = true /\ exists p, s = p +:+ t.
Proof.
  assert (Hdrop : forall n s, exists p, s = p +:+ drop_str n s).
  { induction n as [|n IH]; intros s0; [by exists ""|]. destruct s0 as [|c s0]; [by exists ""|].
    destruct (IH s0) as [p Hp]. exists (String c p). cbn. by rewrite <- Hp. }
  assert (Hskip : forall s, exists p, s = p +:+ skip_query s).
  { induction s0 as [|c s0 [p Hp]]; [by exists ""|]. cbn [skip_query].
    destruct (_ || _); [by exists ""|]. exists (String c p). cbn. by rewrite <- Hp. }
  unfold match_fragment. destruct (starts_with _ s); [|done].
  set (s2 := if starts_with "/" (drop_str 7 s) then _ else _).
  set (s3 := if starts_with "?" s2 then _ else _).
  destruct (starts_with "#" s3); [|done]. destruct (Hdrop 1%nat s3) as [p4 Hp4].
  destruct (Hdrop 7%nat s) as [p1 Hp1]. remember (drop_str 1 s3) as t' eqn:Et'. clear Et'.
  destruct (is_token t') eqn:Et; [|done]. intros [= <-]. split; [done|].
  assert (H2 : exists p, drop_str 7 s = p +:+ s2).
  { subst s2. destruct (starts_with "/" _); [apply Hdrop|by exists ""]. }
  assert (H3 : exists p, s2 = p +:+ s3).
  { subst s3. destruct (starts_with "?" s2); [|by exists ""].
    destruct (Hdrop 1%nat s2) as [p Hp], (Hskip (drop_str 1 s2)) as [q Hq].
    exists (p +:+ q). rewrite app_assoc_str, <- Hq. exact Hp. }
  clearbody s3. clearbody s2. destruct H2 as [p2 H2], H3 as [p3 H3].
  exists (p1 +:+ p2 +:+ p3 +:+ p4). rewrite !app_assoc_str, <- Hp4, <- H3, <- H2. exact Hp1.
Qed.

Lemma app_same_suffix a b t t' :
  a +:+ t = b +:+ t' -> String.length t = String.length t' -> t = t'.
Proof.
  revert b. induction a as [|c a IH]; intros b Heq Hl.
  - destruct b as [|d b]; [done|]. apply (f_equal String.length) in Heq. cbn in Heq.
    rewrite length_app_str in Heq. lia.
  - destruct b as [|d b]; cbn in Heq.
    + subst t'. cbn in Hl. rewrite length_app_str in Hl. lia.
    + injection Heq as _ Heq. by apply (IH b).
Qed.

(** ** Properties *)

(** An accept link parses back to its token.  For every application URL and
    every well-formed token, the link [inviteAcceptUrl] builds is read by
    [parseInviteToken] as that token, and so is the bare token. *)
Theorem parse_accept_url app token url :
  is_token token = true -> inviteAcceptUrl (Some app) token = Some url ->
  parseInviteToken url = Some token /\ parseInviteToken token = Some token.
Proof.
  intros Ht Hu. split.
  - unfold inviteAcceptUrl in Hu. destruct (truthy (Some app)) as [app'|]; [|discriminate].
    replace url with (strip_trailing_slashes app' +:+ "/invite#" +:+ token) by congruence.
    unfold parseInviteToken.
    destruct (trim_link (strip_trailing_slashes app') token Ht) as [a ->].
    assert (Hnt : is_token (a +:+ "/invite#" +:+ token) = false).
    { apply not_true_iff_false. intros [Hl _]%is_token_length. apply is_token_length in Ht as [Ht _].
      rewrite !length_app_str, Ht in Hl. cbn in Hl. lia. }
    rewrite Hnt.
    assert (Hm : match_fragment ("/invite#" +:+ token) = Some token).
    { destruct token as [|c r]; [discriminate|].
      change (match_fragment _) with (if is_token (String c r) then Some (String c r) else None). by rewrite Ht. }
    destruct (search_app match_fragment a _ _ Hm) as (t' & -> & [->|(a1 & a2 & -> & Hm')]); [done|].
    apply match_fragment_suffix in Hm' as [Ht' [p Hp]]. f_equal.
    symmetry. apply (app_same_suffix (a2 +:+ "/invite#") p); [by rewrite app_assoc_str|].
    apply is_token_length in Ht as [-> _], Ht' as [-> _]. done.
  - unfold parseInviteToken. replace (trim token) with token; [by rewrite Ht|].
    unfold trim, trim_start. rewrite trim_with_stop.
    + symmetry. apply (trim_end_token "" token Ht).
    + apply is_token_length in Ht as [Hl Hc]. destruct token as [|c r]; [discriminate|].
      apply never_space_start, token_char_never_space. cbn in Hc. by apply andb_true_iff in Hc as [? _].
Qed.

(** A new invite replaces the open one.  After [createPendingInvite] the org
    and the (normalized) email have exactly one open invite, the new one, and
    its token finds it until it expires; other orgs' and emails' open invites
    are untouched. *)
Theorem createPendingInvite_replaces id token now o email role ds inviter db p db' :
  createPendingInvite id token now o email role ds inviter db = (Ok p, db') ->
  normalizeInviteEmail (normalizeInviteEmail email) = normalizeInviteEmail email ->
  (exists row, filter (open_for o (normalizeInviteEmail email)) db'.(orgInvites) = [row] /\
     row.(inv_drives) = ds /\ row.(inv_orgRole) = role /\
     forall t, is_token token = true -> t < ts_sec (now + INVITE_TTL_SECONDS * 1000) ->
       getInviteByToken t token db' = Some row) /\
  (forall o' e', (o', e') <> (o, normalizeInviteEmail email) ->
     filter (open_for o' e') db'.(orgInvites) = filter (open_for o' e') db.(orgInvites)).
Proof.
  intros Hc Hnorm. unfold createPendingInvite in Hc. inv_ok.
  match goal with Hr : revokeOpenInviteForEmail _ _ _ _ = _ |- _ =>
    unfold revokeOpenInviteForEmail in Hr; inv_ok end.
  match goal with Hi : insert_invite ?r _ = _ |- _ =>
    set (row := r) in *; apply insert_invite_ok in Hi as [Hfresh ->] end.
  rewrite Hnorm in *. cbn [orgInvites update] in *.
  set (e := normalizeInviteEmail email) in *.
  assert (Hopen : open_for o e row) by done.
  split.
  - exists row. cbn. rewrite filter_app, filter_open_for_update, filter_cons_True, filter_nil by done.
    split_and!; [done..|]. intros t Ht Hexp. unfold getInviteByToken. rewrite Ht. cbn.
    rewrite get_row_snoc. destruct (get_row _ (update_where _ _ _)) as [j|] eqn:Ej.
    + apply get_row_some in Ej as (Hin & Hh & _). by destruct (Hfresh j Hin).
    + rewrite decide_True by done. destruct (Z.leb_spec (inv_expiresAt row) t) as [Hle|_]; [|done].
      cbn in Hle. lia.
  - intros o' e' Hne. cbn. rewrite filter_app, filter_open_for_update_other by done.
    rewrite filter_cons_False, filter_nil, app_nil_r; [done|].
    intros (H1 & H2 & _). cbn in H1, H2. congruence.
Qed.

(** A token works exactly once, for the right account, and only raises.
    When [acceptInvite] returns, the invite was open and unexpired and its
    email resolves to the caller; the caller ends with at least the invite's
    org role and at least the one they had; and no later call with the token,
    by anyone, does anything but throw the not-found error. *)
Theorem acceptInvite_once now token u db r db' :
  NoDup (inv_tokenHash <$> db.(orgInvites)) ->
  acceptInvite now token u db = (Ok r, db') ->
  (exists i, getInviteByToken now token db = Some i /\ r.(ai_orgId) = i.(inv_orgId) /\
     (exists v, resolveUserByEmail db i.(inv_email) = Found v /\ v.(usr_id) = u) /\
     getUserOrgRole db' u i.(inv_orgId) = Some r.(ai_role) /\
     ROLE_LEVELS i.(inv_orgRole) <= ROLE_LEVELS r.(ai_role) /\
     (forall old, getUserOrgRole db u i.(inv_orgId) = Some old -> ROLE_LEVELS old <= ROLE_LEVELS r.(ai_role))) /\
  (forall now' u', acceptInvite now' token u' db' = (Throw invalidInvite, db')).
Proof.
  intros Hnd Ha. apply acceptInvite_ok in Ha as (i & granted & held & Hi & Hv & Horg & Hc).
  apply consumeInvite_ok in Hc as (Hrole & Hlev & Hold & Hinv).
  split; [exists i; auto 10|]. intros now' u'.
  assert (Hnone : getInviteByToken now' token db' = None).
  { apply getInviteByToken_some in Hi as (Hin & Hh & Hopen & _). unfold getInviteByToken.
    destruct (is_token token); [|done]. destruct (get_row _ _) as [j|] eqn:Ej; [|done]. exfalso.
    apply get_row_some in Ej as (Hj & Hjh & Hjo). rewrite Hinv in Hj.
    apply elem_of_update_where in Hj as (k & Hk & [[_ ->]|[Hn ->]]); [by destruct Hjo|].
    apply Hn. assert (k = i) as -> by (apply (NoDup_fmap_eq inv_tokenHash db.(orgInvites)); congruence || done).
    done. }
  unfold acceptInvite, mbind, M_bind, gets. by rewrite Hnone.
Qed.
End Invites.

(** ** Witnesses *)

Definition sample_token : string := "aaaaaaaaaaaaaaaaaaaaaaaaaaaaaaaaaaaaaaaaaaa".

Lemma parse_accept_url_witness :
  parseInviteToken "https://agent.example/invite#aaaaaaaaaaaaaaaaaaaaaaaaaaaaaaaaaaaaaaaaaaa" = Some sample_token.
Proof.
  exact (proj1 (parse_accept_url "https://agent.example//" sample_token _ eq_refl eq_refl)).
Defined.

Definition invited_db : Db := Eval vm_compute in
  (createPendingInvite (rt := ascii_runtime) "i1" sample_token 0 "o1" " B@x " Viewer [("d2", Viewer)] "u1" sample_db).2.

Lemma createPendingInvite_replaces_witness :
  exists row, filter (open_for "o1" "b@x") invited_db.(orgInvites) = [row] /\ row.(inv_drives) = [("d2", Viewer)].
Proof.
  destruct (createPendingInvite_replaces (rt := ascii_runtime) "i1" sample_token 0 "o1" " B@x " Viewer
    [("d2", Viewer)] "u1" sample_db
    {| pi_inviteId := "i1"; pi_email := "b@x"; pi_token := sample_token; pi_expiresAt := 604800000;
       pi_drives := [("d2", Viewer)] |} invited_db) as [(row & H1 & H2 & _) _];
    [vm_compute; reflexivity|vm_compute; reflexivity|].
  exists row. split; [exact H1|exact H2].
Defined.

Definition accepted_db : Db := Eval vm_compute in
  (acceptInvite (rt := ascii_runtime) 5000 sample_token "u2" invited_db).2.

(** The invitee already holds a higher org role and keeps it. *)
Lemma acceptInvite_once_witness :
  acceptInvite (rt := ascii_runtime) 5000 sample_token "u2" invited_db =
    (Ok {| ai_orgId := "o1"; ai_role := Editor; ai_drives := [("d2", Viewer)]; ai_skippedDrives := [] |}, accepted_db) /\
  (forall now' u', acceptInvite (rt := ascii_runtime) now' sample_token u' accepted_db =
     (Throw invalidInvite, accepted_db)).
Proof.
  assert (E : acceptInvite (rt := ascii_runtime) 5000 sample_token "u2" invited_db =
    (Ok {| ai_orgId := "o1"; ai_role := Editor; ai_drives := [("d2", Viewer)]; ai_skippedDrives := [] |}, accepted_db))
    by (vm_compute; reflexivity).
  split; [exact E|]. refine (proj2 (acceptInvite_once (rt := ascii_runtime) 5000 sample_token "u2" invited_db _ _ _ E)).
  cbn. repeat (constructor; [set_solver|]). constructor.
Defined.

(** Two accounts whose emails differ only in case; the org invites the one with
    a capital letter. *)
Definition variants_db : Db := sample_db
  <| users ::= fun t => t ++ [Build_User "big" "Bob@x" None "h3" 0; Build_User "small" "bob@x" None "h4" 0] |>.

Definition variant_invited_db : Db := Eval vm_compute in
  (inviteToOrg (rt := ascii_runtime) "i1" sample_token 0 "o1" "Bob@x" Viewer None (Some "u1") variants_db).2.
Definition variant_accepted_db : Db := Eval vm_compute in
  (acceptInvite (rt := ascii_runtime) 1000 sample_token "small" variant_invited_db).2.

(** An invite can land on another account.  When two accounts' emails differ
    only in case, inviting the account with capitals, which the email resolves
    to exactly, stores the lowercased email: the invited account is refused,
    and the lowercase account joins with the same token. *)
Theorem invite_lands_on_case_variant :
  (exists u, resolveUserByEmail variants_db "Bob@x" = Found u /\ u.(usr_id) = "big") /\
  (exists r, inviteToOrg (rt := ascii_runtime) "i1" sample_token 0 "o1" "Bob@x" Viewer None (Some "u1") variants_db
     = (Ok r, variant_invited_db)) /\
  is_ok (acceptInvite (rt := ascii_runtime) 1000 sample_token "big" variant_invited_db).1 = false /\
  (exists r, acceptInvite (rt := ascii_runtime) 1000 sample_token "small" variant_invited_db
     = (Ok r, variant_accepted_db)) /\
  getUserOrgRole variant_accepted_db "small" "o1" = Some Viewer.
Proof.
  split_and!.
  - eexists. split; vm_compute; reflexivity.
  - eexists. vm_compute. reflexivity.
  - vm_compute. reflexivity.
  - eexists. vm_compute. reflexivity.
  - vm_compute. reflexivity.
Qed.
