(* ===== verification/Identity.v ===== *)
(** * The identity operations together

    Every function of grants.ts, drives.ts, api-keys.ts, orgs.ts, users.ts and
    invites.ts that writes, as one type of commands, and what holds after any
    sequence of them, run one after another, from any callers and with any
    outcome.  An org that has an admin keeps one; so does a drive, unless
    [setDriveMember], the one write without the last-admin check, lowers its only
    admin.  A revoked key, a user's primary key or another, resolves to nobody
    again. *)

From S2P Require Import Prelude JsString Errors Schema Rbac Drives ApiKeys Orgs Users Invites.

Section Identity.
Context {rt : Runtime}.

Inductive identity_op : Type :=
| DoCreateUser (id apiKey orgId driveId : string) (now : Z) (email : string)
| DoUpdateProfile (userId : string) (input : json)
| DoCreateOrg (orgId driveId : string) (now : Z) (name userId : string) (isPersonal : option bool)
| DoUpdateOrgMemberRole (now : Z) (orgId userId : string) (role : Role)
| DoRemoveOrgMember (now : Z) (orgId userId : string)
| DoCreateDrive (id : string) (now : Z) (orgId name : string) (isDefault : option bool) (creator : option string)
| DoUpdateDriveMemberRole (driveId userId : string) (role : Role)
| DoRemoveDriveMember (driveId userId : string)
| DoAddDriveMember (orgId driveId : string) (role : Role) (who : member_ref)
| DoInviteToOrg (id token : string) (now : Z) (orgId email : string) (role : Role)
    (drives : option (list (string * Role))) (invitedBy : option string)
| DoAcceptInvite (now : Z) (token userId : string)
| DoRevokeInvite (now : Z) (orgId inviteId : string)
| DoCreateUserApiKey (id apiKey eventId : string) (now : Z) (userId : string) (label : json)
    (actorId : string) (orgId scopeOrgId : option string)
| DoResetOrgScopedKey (id apiKey eventId : string) (now : Z) (userId actorId orgId : string)
| DoRevokeUserApiKey (uuid eventId : string) (now : Z) (userId keyId actorId : string) (orgId : option string)
| DoResetApiKey (apiKey eventId : string) (now : Z) (userId actorId orgId : string)
| DoResetApiKeyOrgless (apiKey : string) (now : Z) (userId : string)
| DoGetUserByApiKey (now : Z) (apiKey : string)
| DoSetDriveMember (driveId userId : string) (role : Role)
| DoGrantOrgRole (orgId userId : string) (role : Role)
| DoGrantDriveRole (driveId userId : string) (role : Role)
| DoCreatePendingInvite (id token : string) (now : Z) (orgId email : string) (role : Role)
    (drives : list (string * Role)) (invitedBy : string)
| DoRevokeOpenInviteForEmail (now : Z) (orgId email : string)
| DoRevokeGrantedKeys (now : Z) (reason : revoke_reason).

Definition ignore {A} (m : DbM A) : DbM unit := _ ← m; mret tt.

Definition run_op (op : identity_op) : DbM unit :=
  match op with
  | DoCreateUser id k o d now email => ignore (createUser id k o d now email)
  | DoUpdateProfile u input => ignore (updateProfile u input)
  | DoCreateOrg o d now name u p => ignore (createOrg o d now name u p)
  | DoUpdateOrgMemberRole now o u r => updateOrgMemberRole now o u r
  | DoRemoveOrgMember now o u => removeOrgMember now o u
  | DoCreateDrive id now o name def c => ignore (createDrive id now o name def c)
  | DoUpdateDriveMemberRole d u r => updateDriveMemberRole d u r
  | DoRemoveDriveMember d u => removeDriveMember d u
  | DoAddDriveMember o d r who => ignore (addDriveMember o d r who)
  | DoInviteToOrg id t now o e r ds by_ => ignore (inviteToOrg id t now o e r ds by_)
  | DoAcceptInvite now t u => ignore (acceptInvite now t u)
  | DoRevokeInvite now o i => revokeInvite now o i
  | DoCreateUserApiKey id k ev now u l a o s => ignore (createUserApiKey id k ev now u l a o s)
  | DoResetOrgScopedKey id k ev now u a o => ignore (resetOrgScopedKey id k ev now u a o)
  | DoRevokeUserApiKey r ev now u k a o => revokeUserApiKey r ev now u k a o
  | DoResetApiKey k ev now u a o => ignore (resetApiKey k ev now u a o)
  | DoResetApiKeyOrgless k now u => ignore (resetApiKeyOrgless k now u)
  | DoGetUserByApiKey now k => ignore (getUserByApiKey now k)
  | DoSetDriveMember d u r => setDriveMember d u r
  | DoGrantOrgRole o u r => ignore (grantOrgRole o u r)
  | DoGrantDriveRole d u r => ignore (grantDriveRole d u r)
  | DoCreatePendingInvite id t now o e r ds by_ => ignore (createPendingInvite id t now o e r ds by_)
  | DoRevokeOpenInviteForEmail now o e => ignore (revokeOpenInviteForEmail now o e)
  | DoRevokeGrantedKeys now reason => ignore (revokeGrantedKeys now reason)
  end.

(** The database after a sequence of requests; a request that throws leaves what
    it wrote before. *)
Definition run_ops (ops : list identity_op) (db : Db) : Db :=
  foldl (fun s op => (run_op op s).2) db ops.

(** ** Invariants *)

(** The drive, where one is named, and the org have an admin. *)
Definition managed (d : option string) (o : string) (db : Db) : Prop :=
  (forall d', d = Some d' -> drive_managed d' db) /\ org_managed o db.

(** [u] is the drive's only admin. *)
Definition only_admin (d u : string) (db : Db) : Prop :=
  drive_has_admin d db /\ forall m, m ∈ db.(driveMembers) -> is_admin_of d m -> m.(dm_userId) = u.

(** Nothing resolves to hash [h]: no user has it, and no key that is not revoked. *)
Definition hash_dead (h : string) (db : Db) : Prop :=
  (forall x, x ∈ db.(users) -> x.(usr_apiKeyHash) <> h) /\
  (forall k, k ∈ db.(userApiKeys) -> k.(key_keyHash) = h -> k.(key_revokedAt) <> None).

(** ** Lemmas *)

Lemma managed_ext d o db db' :
  db'.(driveMembers) = db.(driveMembers) -> db'.(orgMembers) = db.(orgMembers) ->
  managed d o db -> managed d o db'.
Proof.
  intros Hd Ho [H1 H2]. split; [|by apply (org_managed_ext o db)].
  intros d' E. apply (drive_managed_ext d' db); [done|by apply H1].
Qed.

(** An operation that keeps the admins of every drive and of the org. *)
Lemma managed_both d o {A} (m : DbM A) :
  (forall d', preserves (drive_managed d') m) -> preserves (org_managed o) m -> preserves (managed d o) m.
Proof. intros Hd Ho db [H1 H2]. split; [|by apply Ho]. intros d' E. by apply Hd, H1. Qed.

Lemma managed_modify d o (f : Db -> Db) :
  (forall db, (f db).(driveMembers) = db.(driveMembers) /\ (f db).(orgMembers) = db.(orgMembers)) ->
  preserves (managed d o) (modify f : DbM unit).
Proof. intros Hf. apply preserves_modify. intros db. destruct (Hf db). by apply managed_ext. Qed.

Lemma managed_insert d o c f (w : Db -> Db) :
  (forall db, (w db).(driveMembers) = db.(driveMembers) /\ (w db).(orgMembers) = db.(orgMembers)) ->
  preserves (managed d o) (insert c f w).
Proof. intros Hw. apply preserves_insert. intros db Hdb _ _. destruct (Hw db). by apply (managed_ext d o db). Qed.

Lemma managed_insert_drive_member d o r : preserves (managed d o) (insert_drive_member r).
Proof.
  apply managed_both; [intros d'; apply drive_managed_insert_member|].
  apply preserves_insert. intros db Ho _ _. by apply (org_managed_ext o db).
Qed.

Lemma managed_insert_org_member d o r : preserves (managed d o) (insert_org_member r).
Proof.
  apply preserves_insert. intros db [Hd [Hpk (a & Ha & Hadm)]] Hc _.
  split; [intros d' E; apply (drive_managed_ext d' db); [done|by apply Hd]|]. split.
  - unfold org_members_pk. cbn. apply NoDup_fmap_snoc; [done|]. intros m Hm Heq.
    apply first_taken_none in Hc as [Hc _]. rewrite exists_row_false in Hc.
    apply (Hc m Hm). by apply org_member_key_eq.
  - exists a. split; [cbn; set_solver|done].
Qed.

Lemma managed_grant_drive d o d0 u r : preserves (managed d o) (grantDriveRole d0 u r).
Proof.
  apply managed_both; [intros d'; apply drive_managed_grant|]. intros db Ho.
  assert (Hk : (grantDriveRole d0 u r db).2.(orgMembers) = db.(orgMembers)).
  { unfold grantDriveRole, mbind, M_bind, gets. destruct (get_row _ _); [done|].
    unfold insert_drive_member, insert. destruct (first_taken _); [done|]. by destruct (_ && _). }
  by apply (org_managed_ext o db).
Qed.

Lemma managed_grant_org d o o0 u r : preserves (managed d o) (grantOrgRole o0 u r).
Proof.
  unfold grantOrgRole. apply preserves_bind; [apply preserves_gets|]. intros [m|].
  - apply preserves_bind; [|intros; apply preserves_ret]. apply preserves_modify.
    intros db [Hd [Hpk (a & Ha & Ho & Hr)]].
    split; [intros d' E; apply (drive_managed_ext d' db); [done|by apply Hd]|].
    split; [by apply org_members_pk_update|]. destruct (decide (is_org_member o0 u a)).
    + exists (a <| om_role ::= fun r0 => higherRole r0 r |>). split.
      * cbn. apply elem_of_update_where. eauto.
      * split; [done|]. cbn. rewrite Hr. unfold higherRole. by rewrite decide_True by auto.
    + exists a. split; [|done]. cbn. apply elem_of_update_where. eauto.
  - apply preserves_bind; [apply managed_insert_org_member|]. intros; apply preserves_ret.
Qed.

(** Operations that change one side only. *)
Lemma managed_update_drive d o d0 u r : preserves (managed d o) (updateDriveMemberRole d0 u r).
Proof.
  apply managed_both; [intros d'; apply drive_managed_update|].
  intros db. apply org_managed_ext. unfold updateDriveMemberRole, withWriteLock, transaction, mbind, M_bind, gets.
  destruct (get_row _ _); [|done]. cbn. run_guard db Ec; [|done]. apply sole_check_ok in Ec as [-> _]. done.
Qed.

Lemma managed_remove_drive d o d0 u : preserves (managed d o) (removeDriveMember d0 u).
Proof.
  apply managed_both; [intros d'; apply drive_managed_remove|].
  intros db. apply org_managed_ext. unfold removeDriveMember, withWriteLock, transaction, mbind, M_bind, gets.
  destruct (get_row _ _); [|done]. cbn. run_guard db Ec; [|done]. apply sole_check_ok in Ec as [-> _]. done.
Qed.

Lemma managed_update_org d o now o0 u r : preserves (managed d o) (updateOrgMemberRole now o0 u r).
Proof.
  apply managed_both; [|apply org_managed_update].
  intros d' db. apply drive_managed_ext. unfold updateOrgMemberRole, mbind, M_bind, reads.
  destruct (updateOrgMemberRole_check _ _ _ _); [|done].
  unfold updateOrgMemberRole_write, transaction, mbind, M_bind, modify. by destruct (bool_decide _ && _).
Qed.

Lemma managed_remove_org d o now o0 u : preserves (managed d o) (removeOrgMember now o0 u).
Proof. apply managed_both; [intros d'; apply drive_managed_remove_org|apply org_managed_remove]. Qed.

Lemma sole_admin_only db u d : findSoleAdminDrives db u [d] <> [] -> only_admin d u db.
Proof.
  unfold findSoleAdminDrives. cbn. destruct (sole_admin db u d) eqn:E; [|done]. intros _. unfold sole_admin in E.
  assert (Hall : forall m, m ∈ db.(driveMembers) -> is_admin_of d m -> m ∈ filter (is_admin_of d) db.(driveMembers))
    by (intros m Hm Ha; by apply list_elem_of_filter).
  destruct (filter (is_admin_of d) db.(driveMembers)) as [|m [|m' l]] eqn:Ef; [done| |done]. apply bool_decide_eq_true in E.
  split.
  - assert (Hin : m ∈ filter (is_admin_of d) db.(driveMembers)) by (rewrite Ef; by left).
    apply list_elem_of_filter in Hin as [? ?]. by exists m.
  - intros x Hx Ha. by apply (Hall x Hx), list_elem_of_singleton in Ha as ->.
Qed.

(** [setDriveMember] keeps the org, and the drive's admin unless it lowers the
    only one. *)
Lemma managed_set_member d o d0 u r db :
  managed d o db ->
  managed d o (setDriveMember d0 u r db).2 \/
  managed None o (setDriveMember d0 u r db).2 /\ d = Some d0 /\ r <> Admin /\ only_admin d0 u db.
Proof.
  intros [Hd Ho]. unfold setDriveMember, mbind, M_bind, gets. destruct (get_row _ _) as [m|] eqn:Em; cbn.
  2:{ left. by apply managed_insert_drive_member. }
  apply get_row_some in Em as [Hm Hmem].
  set (db' := db <| driveMembers ::= _ |>).
  assert (Hone : org_managed o db') by (by apply (org_managed_ext o db)).
  destruct (decide (m.(dm_role) = Admin -> r <> Admin -> findSoleAdminDrives db u [d0] = [])) as [H|H].
  - left. split; [|done]. intros d' E. destruct (Hd d' E) as [Hpk Ha].
    split; [by apply drive_members_pk_update|by apply (update_role_keeps_admin db d0 u m)].
  - destruct (decide (d = Some d0)) as [->|Hne].
    + right. split; [by split|]. split; [done|]. split; [tauto|]. apply sole_admin_only. tauto.
    + left. split; [|done]. intros d' E. destruct (Hd d' E) as [Hpk (a & Ha & Had & Hadm)].
      split; [by apply drive_members_pk_update|]. exists a. split; [|done]. cbn. apply elem_of_update_where.
      exists a. split; [done|]. right. split; [|done]. intros [Hx _]. congruence.
Qed.
End Identity.

#[export] Hint Resolve managed_insert_drive_member managed_insert_org_member managed_grant_drive
  managed_grant_org managed_update_drive managed_remove_drive managed_update_org managed_remove_org
  : preserve.
#[export] Hint Extern 1 (preserves (managed _ _) (modify _)) => apply managed_modify; done : preserve.
#[export] Hint Extern 1 (preserves (managed _ _) (insert _ _ _)) => apply managed_insert; done : preserve.

Section Together.
Context {rt : Runtime}.

Ltac writes := unfold ignore, insert_user, insert_org, insert_drive, insert_event, insert_invite,
  insert_user_api_key, revokeGrantedKeys, revokeOpenInviteForEmail, grant_drives.

Lemma managed_createOrg d o o0 d0 now name u p : preserves (managed d o) (createOrg o0 d0 now name u p).
Proof. unfold createOrg, createDrive. writes. preserve. Qed.

Lemma managed_createPendingInvite d o id t now o0 e r ds i :
  preserves (managed d o) (createPendingInvite id t now o0 e r ds i).
Proof. unfold createPendingInvite. writes. preserve. Qed.

Lemma managed_invite d o id t now o0 e r ds i : preserves (managed d o) (inviteToOrg id t now o0 e r ds i).
Proof.
  unfold inviteToOrg. pose proof managed_createPendingInvite as Hp. writes.
  repeat first [apply Hp | progress preserve].
Qed.

Lemma managed_accept d o now t u : preserves (managed d o) (acceptInvite now t u).
Proof. unfold acceptInvite, consumeInvite. writes. preserve. Qed.

Definition is_set_member (op : identity_op) : bool := match op with DoSetDriveMember _ _ _ => true | _ => false end.

Lemma managed_run_op d o op : is_set_member op = false -> preserves (managed d o) (run_op op).
Proof.
  pose proof managed_createOrg. pose proof managed_invite. pose proof managed_accept. pose proof managed_createPendingInvite.
  destruct op; intros Hop; cbn [run_op is_set_member] in *; try discriminate Hop;
    unfold createUser, updateProfile, createDrive, addDriveMember, revokeInvite,
    createUserApiKey, resetOrgScopedKey, revokeUserApiKey, resetApiKey, resetApiKeyOrgless, getUserByApiKey;
    writes; preserve.
Qed.

(** The org keeps an admin through every operation. *)
Lemma managed_none_run_op o op : preserves (managed None o) (run_op op).
Proof.
  destruct (is_set_member op) eqn:E; [|by apply managed_run_op]. destruct op; try discriminate E.
  intros db Hdb. cbn [run_op]. by destruct (managed_set_member None o driveId userId role db Hdb) as [?|[? _]].
Qed.

(** One operation, and a sequence of them. *)
Lemma managed_step d o op db : managed (Some d) o db ->
  managed (Some d) o (run_op op db).2 \/
  exists u r, op = DoSetDriveMember d u r /\ r <> Admin /\ only_admin d u db.
Proof.
  intros Hdb. destruct (is_set_member op) eqn:E; [|left; by apply managed_run_op]. destruct op; try discriminate E.
  cbn [run_op]. destruct (managed_set_member (Some d) o driveId userId role db Hdb) as [?|(_ & [= <-] & Hr & Hu)]; [by left|].
  right. eauto.
Qed.

Lemma run_ops_app xs ys db : run_ops (xs ++ ys) db = run_ops ys (run_ops xs db).
Proof. apply foldl_app. Qed.

Lemma managed_run_ops d o ops db : managed (Some d) o db ->
  managed (Some d) o (run_ops ops db) \/
  exists before u r after, ops = before ++ DoSetDriveMember d u r :: after /\ r <> Admin /\ only_admin d u (run_ops before db).
Proof.
  revert db. induction ops as [|op ops IH]; intros db Hdb; [by left|].
  destruct (managed_step d o op db Hdb) as [Hk|(u & r & -> & Hr & Hu)].
  - destruct (IH _ Hk) as [?|(before & u & r & after & -> & Hr & Hu)]; [by left|].
    right. exists (op :: before), u, r, after. done.
  - right. exists [], u, r, ops. done.
Qed.

Lemma run_ops_preserves (I : Db -> Prop) ops :
  (forall op, preserves I (run_op op)) -> forall db, I db -> I (run_ops ops db).
Proof.
  intros Hop. unfold run_ops. induction ops as [|op ops IH]; intros db Hdb; [done|].
  apply IH. by apply Hop.
Qed.

(** ** Revoked keys *)

Lemma hash_dead_ext h db db' :
  db'.(users) = db.(users) -> db'.(userApiKeys) = db.(userApiKeys) -> hash_dead h db -> hash_dead h db'.
Proof. unfold hash_dead. by intros -> ->. Qed.

Lemma hash_dead_modify h (f : Db -> Db) :
  (forall db, (f db).(users) = db.(users) /\ (f db).(userApiKeys) = db.(userApiKeys)) ->
  preserves (hash_dead h) (modify f : DbM unit).
Proof. intros Hf. apply preserves_modify. intros db. destruct (Hf db). by apply hash_dead_ext. Qed.

Lemma hash_dead_insert h c f (w : Db -> Db) :
  (forall db, (w db).(users) = db.(users) /\ (w db).(userApiKeys) = db.(userApiKeys)) ->
  preserves (hash_dead h) (insert c f w).
Proof. intros Hw. apply preserves_insert. intros db Hdb _ _. destruct (Hw db). by apply (hash_dead_ext h db). Qed.

(** Updating keys without clearing a revocation date. *)
Lemma hash_dead_update_keys h (P : UserApiKey -> Prop) `{forall k, Decision (P k)} (f : UserApiKey -> UserApiKey) :
  (forall k, (f k).(key_keyHash) = k.(key_keyHash) /\
             (k.(key_revokedAt) <> None -> (f k).(key_revokedAt) <> None)) ->
  preserves (hash_dead h) (modify (fun db => db <| userApiKeys ::= update_where P f |>) : DbM unit).
Proof.
  intros Hf. apply preserves_modify. intros db [Hu Hk]. split; [done|].
  intros k (k0 & Hk0 & [[_ ->]|[_ ->]])%elem_of_update_where; [|by apply Hk].
  destruct (Hf k0) as [Hh Hr]. intros Hx. apply Hr, Hk; [done|congruence].
Qed.

Lemma hash_dead_revoke_keys h (P : UserApiKey -> Prop) `{forall k, Decision (P k)} now :
  preserves (hash_dead h) (modify (revoke_keys P now) : DbM unit).
Proof. by apply hash_dead_update_keys. Qed.

(** Updating users without giving one the hash. *)
Lemma hash_dead_update_users h (P : User -> Prop) `{forall x, Decision (P x)} (f : User -> User) :
  (forall x, x.(usr_apiKeyHash) <> h -> (f x).(usr_apiKeyHash) <> h) ->
  preserves (hash_dead h) (modify (fun db => db <| users ::= update_where P f |>) : DbM unit).
Proof.
  intros Hf. apply preserves_modify. intros db [Hu Hk]. split; [|done].
  intros x (x0 & Hx0 & [[_ ->]|[_ ->]])%elem_of_update_where; [|by apply Hu]. by apply Hf, Hu.
Qed.

Lemma hash_dead_set_hash h u h' : h' <> h -> preserves (hash_dead h) (modify (set_api_key_hash u h') : DbM unit).
Proof. intros Hne. by apply hash_dead_update_users. Qed.

Lemma hash_dead_insert_key h r : r.(key_keyHash) <> h -> preserves (hash_dead h) (insert_user_api_key r).
Proof.
  intros Hne. apply preserves_insert. intros db [Hu Hk] _ _. split; [done|]. cbn.
  intros k [Hin| ->%list_elem_of_singleton]%elem_of_app; [by apply Hk|done].
Qed.

Lemma hash_dead_insert_user h r : r.(usr_apiKeyHash) <> h -> preserves (hash_dead h) (insert_user r).
Proof.
  intros Hne. apply preserves_insert. intros db [Hu Hk] _ _. split; [|done]. cbn.
  intros x [Hin| ->%list_elem_of_singleton]%elem_of_app; [by apply Hu|done].
Qed.
End Together.

#[export] Hint Extern 1 (preserves (hash_dead _) (insert_user_api_key _)) => apply hash_dead_insert_key; assumption : preserve.
#[export] Hint Extern 1 (preserves (hash_dead _) (insert_user _)) => apply hash_dead_insert_user; assumption : preserve.
#[export] Hint Extern 1 (preserves (hash_dead _) (modify (set_api_key_hash _ _))) => apply hash_dead_set_hash; assumption : preserve.
#[export] Hint Extern 1 (preserves (hash_dead _) (modify (revoke_keys _ _))) =>
  apply hash_dead_revoke_keys : preserve.
#[export] Hint Extern 2 (preserves (hash_dead _) (modify _)) => apply hash_dead_modify; done : preserve.
#[export] Hint Extern 2 (preserves (hash_dead _) (modify _)) => apply hash_dead_update_keys; done : preserve.
#[export] Hint Extern 2 (preserves (hash_dead _) (modify _)) => apply hash_dead_update_users; done : preserve.
#[export] Hint Extern 1 (preserves (hash_dead _) (insert _ _ _)) => apply hash_dead_insert; done : preserve.

Section Properties.
Context {rt : Runtime}.

(** The key an operation draws at random. *)
Definition draws (op : identity_op) : option string :=
  match op with
  | DoCreateUser _ k _ _ _ _ | DoCreateUserApiKey _ k _ _ _ _ _ _ _ | DoResetOrgScopedKey _ k _ _ _ _ _
  | DoResetApiKey k _ _ _ _ _ | DoResetApiKeyOrgless k _ _ => Some k
  | _ => None
  end.

Lemma hash_dead_leave h u ids : preserves (hash_dead h) (leave_drives u ids).
Proof. unfold leave_drives. preserve. Qed.

Lemma hash_dead_run_op `{!RuntimeLaws rt} apiKey op :
  (forall k, draws op = Some k -> hashApiKey k <> hashApiKey apiKey) ->
  preserves (hash_dead (hashApiKey apiKey)) (run_op op).
Proof.
  pose proof hash_dead_leave as Hleave. intros Hdraw.
  assert (Hrev : forall r, REVOKED_PRIMARY_PREFIX +:+ r <> hashApiKey apiKey)
    by (intros r E; by apply (hash_not_revoked apiKey r)).
  destruct op; cbn [draws run_op] in *; try specialize (Hdraw _ eq_refl); try pose proof (Hrev uuid);
    unfold createUser, createOrg, updateProfile, createDrive, addDriveMember, revokeInvite, setDriveMember,
    createUserApiKey, resetOrgScopedKey, revokeUserApiKey, resetApiKey, resetApiKeyOrgless, getUserByApiKey,
    inviteToOrg, createPendingInvite, acceptInvite, consumeInvite, updateOrgMemberRole, updateOrgMemberRole_write,
    removeOrgMember, updateDriveMemberRole, removeDriveMember, withWriteLock, grantOrgRole, grantDriveRole,
    ignore, insert_org, insert_drive, insert_event, insert_invite, insert_org_member,
    insert_drive_member, revokeGrantedKeys, revokeOpenInviteForEmail, grant_drives, grantDriveRole, insert_drive_member; preserve.
Qed.

Lemma hash_dead_run_ops `{!RuntimeLaws rt} apiKey ops db :
  (forall op k, op ∈ ops -> draws op = Some k -> hashApiKey k <> hashApiKey apiKey) ->
  hash_dead (hashApiKey apiKey) db -> hash_dead (hashApiKey apiKey) (run_ops ops db).
Proof.
  revert db. induction ops as [|op ops IH]; intros db Hd Hdb; [done|]. apply (IH (run_op op db).2).
  - intros op' k Hin. apply Hd. by right.
  - apply hash_dead_run_op; [|done]. intros k. apply Hd. by left.
Qed.

(** A dead hash resolves to nobody. *)
Lemma hash_dead_resolves t apiKey db : hash_dead (hashApiKey apiKey) db -> fst (getUserByApiKey t apiKey db) = Ok None.
Proof.
  intros [Hu Hk]. rewrite getUserByApiKey_outcome.
  assert (Hp : primary_match db (hashApiKey apiKey) = None) by (apply get_row_none; intros x Hx; by apply Hu).
  by rewrite Hp, key_match_none by (by apply active_keys_nil).
Qed.

(** ** How a key is revoked *)

(** No two keys of the database, primary or not, have the same hash. *)
Definition keys_distinct (db : Db) : Prop :=
  NoDup ((usr_apiKeyHash <$> db.(users)) ++ (key_keyHash <$> db.(userApiKeys))).

(** The key with hash [h] is the one that [keyId] names of user [u]. *)
Definition names_key (db : Db) (u keyId h : string) : Prop :=
  if decide (keyId = "primary") then exists x, x ∈ db.(users) /\ x.(usr_id) = u /\ x.(usr_apiKeyHash) = h
  else exists k, k ∈ db.(userApiKeys) /\ k.(key_id) = keyId /\ k.(key_userId) = u /\ k.(key_keyHash) = h.

(** A call that returned and revoked the key with hash [h], from [db] to [db']:
    the request to revoke it, the end of the grant that it came from, its user or
    its creator leaving its org, or the rotation of a primary key; or a
    revocation of before. *)
Inductive revocation (h : string) (db : Db) : Db -> Prop :=
| RevokedByRequest uuid ev now u keyId actor org db' :
    names_key db u keyId h -> revokeUserApiKey uuid ev now u keyId actor org db = (Ok tt, db') -> revocation h db db'
| RevokedWithGrant now reason k n db' :
    k ∈ db.(userApiKeys) -> k.(key_keyHash) = h -> revoke_match reason k ->
    revokeGrantedKeys now reason db = (Ok n, db') -> revocation h db db'
| RevokedOnLeaving now o u k db' :
    k ∈ db.(userApiKeys) -> k.(key_keyHash) = h -> k.(key_orgId) = Some o ->
    k.(key_userId) = u \/ k.(key_createdByUserId) = u ->
    removeOrgMember now o u db = (Ok tt, db') -> revocation h db db'
| RevokedByRotation newKey ev now u o r db' :
    names_key db u "primary" h -> hashApiKey newKey <> h ->
    resetApiKey newKey ev now u u o db = (Ok r, db') -> revocation h db db'
| RevokedByOrglessRotation newKey now u r db' :
    names_key db u "primary" h -> hashApiKey newKey <> h ->
    resetApiKeyOrgless newKey now u db = (Ok r, db') -> revocation h db db'
| RevokedBefore k : k ∈ db.(userApiKeys) -> k.(key_keyHash) = h -> k.(key_revokedAt) <> None -> revocation h db db.

Lemma distinct_key db k : keys_distinct db -> k ∈ db.(userApiKeys) ->
  (forall x, x ∈ db.(users) -> x.(usr_apiKeyHash) <> k.(key_keyHash)) /\
  (forall k', k' ∈ db.(userApiKeys) -> k'.(key_keyHash) = k.(key_keyHash) -> k' = k).
Proof.
  intros (_ & Hx & Hnd)%NoDup_app Hk. split.
  - intros x Hin E. apply (Hx (x.(usr_apiKeyHash))); [by apply list_elem_of_fmap_2|]. rewrite E. by apply list_elem_of_fmap_2.
  - intros k' Hk' E. by apply (NoDup_fmap_eq key_keyHash db.(userApiKeys)).
Qed.

Lemma distinct_primary db x : keys_distinct db -> x ∈ db.(users) ->
  (forall y, y ∈ db.(users) -> y.(usr_apiKeyHash) = x.(usr_apiKeyHash) -> y = x) /\
  (forall k, k ∈ db.(userApiKeys) -> k.(key_keyHash) <> x.(usr_apiKeyHash)).
Proof.
  intros (Hnd & Hx & _)%NoDup_app Hin. split.
  - intros y Hy E. by apply (NoDup_fmap_eq usr_apiKeyHash db.(users)).
  - intros k Hk E. apply (Hx (x.(usr_apiKeyHash))); [by apply list_elem_of_fmap_2|]. rewrite <- E. by apply list_elem_of_fmap_2.
Qed.

(** Revoking the keys that [p] selects kills the hash of one of them. *)
Lemma revoke_kills db db' k (p : UserApiKey -> Prop) `{forall k, Decision (p k)} now :
  keys_distinct db -> k ∈ db.(userApiKeys) -> p k ->
  db'.(users) = db.(users) -> db'.(userApiKeys) = (revoke_keys p now db).(userApiKeys) -> hash_dead k.(key_keyHash) db'.
Proof.
  intros Hd Hk Hp Hu Hks. destruct (distinct_key db k Hd Hk) as [Hx Hone]. split; [by rewrite Hu|].
  rewrite Hks. intros k' (k0 & Hk0 & [[_ ->]|[Hn ->]])%elem_of_update_where Hh; [done|].
  rewrite (Hone k0 Hk0 Hh) in *. tauto.
Qed.

(** Replacing a user's primary hash kills the old one. *)
Lemma replace_kills db db' x h' :
  keys_distinct db -> x ∈ db.(users) -> h' <> x.(usr_apiKeyHash) ->
  db'.(users) = (set_api_key_hash x.(usr_id) h' db).(users) ->
  (forall k, k ∈ db'.(userApiKeys) -> exists k0, k0 ∈ db.(userApiKeys) /\ k.(key_keyHash) = k0.(key_keyHash)) ->
  hash_dead x.(usr_apiKeyHash) db'.
Proof.
  intros Hd Hx Hne Hu Hk. destruct (distinct_primary db x Hd Hx) as [Hone Hkeys]. split.
  - rewrite Hu. intros y (y0 & Hy0 & [[_ ->]|[Hn ->]])%elem_of_update_where; [done|].
    intros E. by rewrite (Hone y0 Hy0 E) in Hn.
  - intros k (k0 & Hk0 & E)%Hk Hh. exfalso. apply (Hkeys k0 Hk0). congruence.
Qed.

Lemma resetApiKey_ok newKey ev now u o db r db' :
  resetApiKey newKey ev now u u o db = (Ok r, db') ->
  db'.(users) = (set_api_key_hash u (hashApiKey newKey) db).(users) /\
  db'.(userApiKeys) = (revoke_keys (revoke_match (selfReset u)) now db).(userApiKeys).
Proof.
  unfold resetApiKey. intros Hr. inv_ok.
  match goal with He : insert_event _ _ = _ |- _ => apply insert_event_frame in He as [Hu Hk] end.
  match goal with Hg : revokeGrantedKeys _ _ _ = _ |- _ => injection Hg as _ <- end.
  by rewrite Hu, Hk.
Qed.

Lemma resetApiKeyOrgless_ok newKey now u db r db' :
  resetApiKeyOrgless newKey now u db = (Ok r, db') ->
  db'.(users) = (set_api_key_hash u (hashApiKey newKey) db).(users) /\
  db'.(userApiKeys) = (revoke_keys (revoke_match (selfReset u)) now db).(userApiKeys).
Proof. unfold resetApiKeyOrgless. intros Hr. inv_ok. match goal with Hg : revokeGrantedKeys _ _ _ = _ |- _ => injection Hg as _ <- end. done. Qed.

Lemma rotation_kills db db' newKey now u h :
  keys_distinct db -> names_key db u "primary" h -> hashApiKey newKey <> h ->
  db'.(users) = (set_api_key_hash u (hashApiKey newKey) db).(users) ->
  db'.(userApiKeys) = (revoke_keys (revoke_match (selfReset u)) now db).(userApiKeys) -> hash_dead h db'.
Proof.
  intros Hd (x & Hx & <- & <-) Hne Hus Hks. apply (replace_kills db _ x (hashApiKey newKey)); [done..|].
  rewrite Hks. intros k (k0 & Hk0 & [[_ ->]|[_ ->]])%elem_of_update_where; eauto.
Qed.

(** Removing a member touches no user. *)
Lemma removeOrgMember_users now o u h :
  preserves (fun db => forall x, x ∈ db.(users) -> x.(usr_apiKeyHash) <> h) (removeOrgMember now o u).
Proof.
  unfold removeOrgMember, withWriteLock, revokeGrantedKeys, leave_drives. preserve; done.
Qed.

Lemma revocation_kills `{!RuntimeLaws rt} apiKey db db' :
  keys_distinct db -> revocation (hashApiKey apiKey) db db' -> hash_dead (hashApiKey apiKey) db'.
Proof.
  intros Hd [uuid ev now u keyId actor org db1 Hname Hr|now reason k n db1 Hk Hh Hm Hr|now o u k db1 Hk Hh Ho Hu Hr|
    newKey ev now u o r db1 Hname Hne Hr|newKey now u r db1 Hname Hne Hr|k Hk Hh Hrev]; try rewrite <- Hh.
  - apply revokeUserApiKey_ok in Hr as [Hother Hprimary]. unfold names_key in Hname.
    destruct (decide (keyId = "primary")) as [E|E].
    + destruct (Hprimary E) as [Hus Hks]. destruct Hname as (x & Hx & <- & Hh). rewrite <- Hh.
      apply (replace_kills db _ x (REVOKED_PRIMARY_PREFIX +:+ uuid)); [done..| |done|rewrite Hks; eauto].
      intros Heq. apply (hash_not_revoked apiKey uuid). congruence.
    + destruct (Hother E) as [Hus Hks]. destruct Hname as (k & Hk & <- & <- & Hh). rewrite <- Hh.
      by eapply (revoke_kills db _ k (fun k0 => k0.(key_id) = k.(key_id) /\ k0.(key_userId) = k.(key_userId)) now).
  - assert (E : db1 = revoke_keys (revoke_match reason) now db) by (by injection Hr).
    subst db1. by eapply (revoke_kills db _ k).
  - destruct (distinct_key db k Hd Hk) as [Hx _].
    pose proof (removeOrgMember_users now o u k.(key_keyHash) db Hx) as Hx'. rewrite Hr in Hx'. cbn in Hx'.
    apply removeOrgMember_ok in Hr as (_ & _ & _ & _ & _ & _ & Hks & _). split; [done|].
    rewrite Hks. refine (proj2 (revoke_kills db (revoke_keys (revoke_match (memberLeftOrg o u)) now db) k
      (revoke_match (memberLeftOrg o u)) now Hd Hk _ eq_refl eq_refl)). by split.
  - apply resetApiKey_ok in Hr as [Hus Hks]. by eapply rotation_kills.
  - apply resetApiKeyOrgless_ok in Hr as [Hus Hks]. by eapply rotation_kills.
  - destruct (distinct_key db k Hd Hk) as [Hx Hone]. split; [done|]. intros k' Hk' E. by rewrite (Hone k' Hk' E).
Qed.

(** ** Properties *)

(** [setDriveMember] writes the role without the last-admin check that the other
    writes have: the only admin of a drive becomes a viewer. *)
Lemma set_member_takes_last_admin :
  drive_has_admin "d1" sample_db /\ ~ drive_has_admin "d1" (run_ops [DoSetDriveMember "d1" "u1" Viewer] sample_db).
Proof.
  split; [exists (Build_DriveMember "d1" "u1" Admin); split; [cbn; set_solver|done]|].
  intros (m & Hm & Hd & Hr). cbn in Hm. repeat (apply elem_of_cons in Hm as [->|Hm]; [done|]). by apply elem_of_nil in Hm.
Qed.

(** C5: Through any sequence of identity operations, run one after another,
    whoever calls them and whether or not they throw, an org that has an admin
    keeps one; and so does a drive, unless one of them is a [setDriveMember] that
    gave the only admin of the drive a lower role. *)
Theorem admins_are_kept ops db d o :
  drive_managed d db -> org_managed o db ->
  org_has_admin o (run_ops ops db) /\
  (drive_has_admin d (run_ops ops db) \/
   exists before u r after, ops = before ++ DoSetDriveMember d u r :: after /\ r <> Admin /\ only_admin d u (run_ops before db)).
Proof.
  intros Hd Ho. split.
  - assert (Hn : managed None o (run_ops ops db)); [|apply Hn].
    apply run_ops_preserves; [apply managed_none_run_op|by split].
  - destruct (managed_run_ops d o ops db) as [[Hk _]|Hset]; [split; [by intros d' [= <-]|done]| |by right].
    left. by apply (Hk d).
Qed.

(** C6: Revocation is final.  Once a key is revoked, by a request to revoke it (the
    primary key of a user included), by the end of the grant that it came from, by
    its user or creator leaving its org, or by the rotation of a primary key, its
    plaintext resolves to nobody, at any time and through any sequence of identity
    operations that do not draw a key with the same hash.  At the revocation no two
    keys have one hash. *)
Theorem revoked_key_stays_dead `{!RuntimeLaws rt} apiKey db db' ops t :
  keys_distinct db -> revocation (hashApiKey apiKey) db db' ->
  (forall op k, op ∈ ops -> draws op = Some k -> hashApiKey k <> hashApiKey apiKey) ->
  fst (getUserByApiKey t apiKey (run_ops ops db')) = Ok None.
Proof.
  intros Hd Hr Hdraw. apply hash_dead_resolves, hash_dead_run_ops; [done|]. by apply (revocation_kills apiKey db).
Qed.
End Properties.

(** ** Witnesses *)

(** The only admin is demoted, removed and removed from the org: all refused. *)
Lemma admins_are_kept_witness :
  let ops := [DoUpdateDriveMemberRole "d1" "u1" Viewer; DoRemoveDriveMember "d1" "u1"; DoRemoveOrgMember 0 "o1" "u1";
              DoSetDriveMember "d1" "u2" Viewer] in
  org_has_admin "o1" (run_ops (rt := ascii_runtime) ops sample_db) /\
  drive_has_admin "d1" (run_ops (rt := ascii_runtime) ops sample_db).
Proof.
  intros ops. destruct (admins_are_kept (rt := ascii_runtime) ops sample_db "d1" "o1") as [Ho [Hd|Hset]].
  - split; [unfold drive_members_pk; cbn; repeat (constructor; [set_solver|]); constructor|].
    exists (Build_DriveMember "d1" "u1" Admin). split; [cbn; set_solver|done].
  - split; [unfold org_members_pk; cbn; repeat (constructor; [set_solver|]); constructor|].
    exists (Build_OrgMember "o1" "u1" Admin). split; [cbn; set_solver|done].
  - split; [exact Ho|exact Hd].
  - exfalso. destruct Hset as (before & u & r & after & E & _ & [_ Honly]). unfold ops in E.
    do 3 (destruct before as [|? before]; [discriminate E|]; injection E as <- E).
    destruct before as [|? before]; [|injection E as _ E; by apply app_cons_not_nil in E].
    injection E as <- _ _. assert (Hu : "u1" = "u2"); [|discriminate Hu].
    apply (Honly (Build_DriveMember "d1" "u1" Admin)); [vm_compute; left|by split].
Defined.

(** [u2] rotates the primary key, which is then revoked, and mints another, which
    [u1] revokes; both are presented later, after more keys were minted. *)
Definition rotated : Db := (resetApiKey (rt := ascii_runtime) "af_p" "e0" 0 "u2" "u2" "o1" minted.2).2.
Definition key_revoked : Db := (revokeUserApiKey "r" "e2" 7000 "u2" "k1" "u1" (Some "o1") minted.2).2.
Definition primary_revoked : Db := (revokeUserApiKey "r" "e3" 7000 "u2" "primary" "u2" None rotated).2.
Definition later : list identity_op :=
  [DoGetUserByApiKey 8000 "af_1"; DoCreateUserApiKey "k2" "af_2" "e4" 8000 "u2" (JStr "x") "u2" None None;
   DoResetApiKey "af_3" "e5" 8500 "u1" "u1" "o1"].

Lemma revoked_key_stays_dead_witness :
  (exists r, fst (getUserByApiKey (rt := ascii_runtime) 6000 "af_1" minted.2) = Ok (Some r)) /\
  fst (getUserByApiKey (rt := ascii_runtime) 9000 "af_1" (run_ops (rt := ascii_runtime) later key_revoked)) = Ok None /\
  (exists r, fst (getUserByApiKey (rt := ascii_runtime) 6000 "af_p" rotated) = Ok (Some r)) /\
  fst (getUserByApiKey (rt := ascii_runtime) 9000 "af_p" (run_ops (rt := ascii_runtime) later primary_revoked)) = Ok None.
Proof.
  assert (Hlater : forall k, k = "af_1" \/ k = "af_p" ->
    forall op k', op ∈ later -> draws op = Some k' -> hashApiKey (rt := ascii_runtime) k' <> hashApiKey (rt := ascii_runtime) k).
  { intros k Hk op k' Hin Hd. unfold later in Hin.
    repeat (apply elem_of_cons in Hin as [->|Hin]; [cbn in Hd; try discriminate Hd; injection Hd as <-; by destruct Hk as [-> | ->]|]).
    by apply elem_of_nil in Hin. }
  split; [by eexists|]. split.
  - apply (revoked_key_stays_dead (rt := ascii_runtime) "af_1" minted.2); [| |apply Hlater; by left].
    + unfold keys_distinct. apply (bool_decide_unpack _). vm_compute. exact I.
    + eapply (RevokedByRequest _ _ "r" "e2" 7000 "u2" "k1" "u1" (Some "o1")); [|reflexivity].
      eexists. split; [left|]. done.
  - split; [by eexists|].
    apply (revoked_key_stays_dead (rt := ascii_runtime) "af_p" rotated); [| |apply Hlater; by right].
    + unfold keys_distinct. apply (bool_decide_unpack _). vm_compute. exact I.
    + eapply (RevokedByRequest _ _ "r" "e3" 7000 "u2" "primary" "u2" None); [|reflexivity].
      eexists. split; [right; left|]. done.
Defined.
