(* ===== verification/GlobCache.v ===== *)
(** * The glob listing cache: core/src/ops/glob-cache.ts

    A module-level cache of drive listings with a three-second life, at most 100
    entries in least-recently-used order, and the listings being loaded.  A load
    is asynchronous: [getCachedDriveListing] starts request number
    [next_request] and [settle] is the continuation that runs when its promise
    settles, with [loaded r] the listing (or the failure) of request [r].  The
    theorem: after an invalidation nobody is handed a listing whose load began
    before it. *)

From S2P Require Import Prelude Schema.

Definition TTL_MS : Z := 3000.
Definition MAX_ENTRIES : nat := 100.

(** [listingKey]: JSON of the three parts, which is injective. *)
Definition listing_key : Type := string * string * string.
Definition listingKey (orgId driveId prefix : string) : listing_key := (orgId, driveId, prefix).

Section GlobCache.
Context {Listing : Type}.

Record CachedListing : Type := {
  cl_orgId : string;
  cl_driveId : string;
  cl_listing : Listing;
  cl_expiresAt : Z
}.

Record PendingListing : Type := {
  pl_orgId : string;
  pl_driveId : string;
  pl_invalidated : bool
}.

(** [cache] and [pending] in insertion order; [requests] holds the request objects
    of the promises that have not settled. *)
Record GlobCache : Type := {
  gc_cache : list (listing_key * CachedListing);
  gc_pending : list (listing_key * nat);
  gc_requests : gmap nat (listing_key * PendingListing);
  gc_next : nat
}.

Definition empty_glob_cache : GlobCache :=
  {| gc_cache := []; gc_pending := []; gc_requests := ∅; gc_next := 0 |}.

(** JavaScript [Map]: [get], [delete], and [set] of an absent key. *)
Definition map_find {V} (k : listing_key) (m : list (listing_key * V)) : option V :=
  snd <$> get_row (fun e => e.1 = k) m.
Definition map_delete {V} (k : listing_key) (m : list (listing_key * V)) : list (listing_key * V) :=
  delete_where (fun e => e.1 = k) m.

(** What the caller gets: a cached listing, or the promise of a request. *)
Inductive glob_answer : Type :=
| Cached (l : Listing)
| Promised (request : nat).

Definition getCachedDriveListing (now : Z) (orgId driveId prefix : string) (s : GlobCache)
    : glob_answer * GlobCache :=
  let key := listingKey orgId driveId prefix in
  let cached := map_find key s.(gc_cache) in
  match cached with
  | Some e =>
      if now <? e.(cl_expiresAt) then
        (Cached e.(cl_listing),
         {| gc_cache := map_delete key s.(gc_cache) ++ [(key, e)]; gc_pending := s.(gc_pending);
            gc_requests := s.(gc_requests); gc_next := s.(gc_next) |})
      else
        match map_find key s.(gc_pending) with
        | Some r => (Promised r, {| gc_cache := map_delete key s.(gc_cache); gc_pending := s.(gc_pending);
                                    gc_requests := s.(gc_requests); gc_next := s.(gc_next) |})
        | None => (Promised s.(gc_next),
            {| gc_cache := map_delete key s.(gc_cache);
               gc_pending := s.(gc_pending) ++ [(key, s.(gc_next))];
               gc_requests := <[s.(gc_next) := (key, Build_PendingListing orgId driveId false)]> s.(gc_requests);
               gc_next := S s.(gc_next) |})
        end
  | None =>
      match map_find key s.(gc_pending) with
      | Some r => (Promised r, s)
      | None => (Promised s.(gc_next),
          {| gc_cache := s.(gc_cache);
             gc_pending := s.(gc_pending) ++ [(key, s.(gc_next))];
             gc_requests := <[s.(gc_next) := (key, Build_PendingListing orgId driveId false)]> s.(gc_requests);
             gc_next := S s.(gc_next) |})
      end
  end.

(** [while (cache.size > MAX_ENTRIES) delete the oldest]. *)
Definition evict (c : list (listing_key * CachedListing)) : list (listing_key * CachedListing) :=
  drop (length c - MAX_ENTRIES) c.

(** The promise of request [r] settles: with a listing, or with an error. *)
Definition settle (now : Z) (r : nat) (result : option Listing) (s : GlobCache) : GlobCache :=
  match s.(gc_requests) !! r with
  | None => s
  | Some (key, request) =>
      let cache := match result with
        | Some listing =>
            if request.(pl_invalidated) then s.(gc_cache)
            else evict (map_delete key s.(gc_cache) ++
                   [(key, Build_CachedListing request.(pl_orgId) request.(pl_driveId) listing (now + TTL_MS))])
        | None => s.(gc_cache)
        end in
      let pending := if bool_decide (map_find key s.(gc_pending) = Some r)
                     then map_delete key s.(gc_pending) else s.(gc_pending) in
      {| gc_cache := cache; gc_pending := pending; gc_requests := delete r s.(gc_requests);
         gc_next := s.(gc_next) |}
  end.

Definition of_drive (orgId driveId o d : string) : bool :=
  bool_decide (o = orgId) && bool_decide (d = driveId).

Definition invalidateDriveGlobListings (orgId driveId : string) (s : GlobCache) : GlobCache :=
  let hit (r : nat) := match s.(gc_requests) !! r with
    | Some (_, request) => of_drive orgId driveId request.(pl_orgId) request.(pl_driveId)
    | None => false
    end in
  {| gc_cache := filter (fun e => of_drive orgId driveId e.2.(cl_orgId) e.2.(cl_driveId) = false) s.(gc_cache);
     gc_pending := filter (fun e => hit e.2 = false) s.(gc_pending);
     gc_requests := map_imap (fun r kr =>
         Some (if bool_decide (r ∈ s.(gc_pending).*2) && hit r
               then (kr.1, Build_PendingListing kr.2.(pl_orgId) kr.2.(pl_driveId) true) else kr))
         s.(gc_requests);
     gc_next := s.(gc_next) |}.

(** ** Histories *)

Variable loaded : nat -> option Listing.

Inductive glob_op : Type :=
| GlobGet (now : Z) (orgId driveId prefix : string)
| GlobSettle (now : Z) (request : nat)
| GlobInvalidate (orgId driveId : string).

Definition glob_step (op : glob_op) (s : GlobCache) : GlobCache :=
  match op with
  | GlobGet now o d p => (getCachedDriveListing now o d p s).2
  | GlobSettle now r => settle now r (loaded r) s
  | GlobInvalidate o d => invalidateDriveGlobListings o d s
  end.

Definition glob_run (ops : list glob_op) (s : GlobCache) : GlobCache := foldl (fun s op => glob_step op s) s ops.

(** ** The invariant

    Requests are numbered in order; a request that has not been invalidated is
    the pending one of its key; what is cached under a key is of its drive. *)
Record glob_wf (s : GlobCache) : Prop := {
  wf_requests : forall r k q, s.(gc_requests) !! r = Some (k, q) ->
    (r < s.(gc_next))%nat /\ k.1.1 = q.(pl_orgId) /\ k.1.2 = q.(pl_driveId);
  wf_cached : forall k e, (k, e) ∈ s.(gc_cache) -> k.1.1 = e.(cl_orgId) /\ k.1.2 = e.(cl_driveId);
  wf_live : forall r k q, s.(gc_requests) !! r = Some (k, q) ->
    q.(pl_invalidated) = false -> (k, r) ∈ s.(gc_pending);
  wf_pending : forall k r, (k, r) ∈ s.(gc_pending) -> exists q, s.(gc_requests) !! r = Some (k, q);
  wf_keys : NoDup s.(gc_pending).*1
}.

(** Nothing of the drive that can still be handed out, or still enter the cache,
    was loaded by a request numbered below [n]. *)
Record fresh_since (n : nat) (orgId driveId : string) (s : GlobCache) : Prop := {
  fr_next : (n <= s.(gc_next))%nat;
  fr_cached : forall k e, (k, e) ∈ s.(gc_cache) -> k.1 = (orgId, driveId) ->
    exists r, (n <= r)%nat /\ loaded r = Some e.(cl_listing);
  fr_live : forall r k q, s.(gc_requests) !! r = Some (k, q) -> k.1 = (orgId, driveId) ->
    q.(pl_invalidated) = false -> (n <= r)%nat;
  fr_pending : forall k r, (k, r) ∈ s.(gc_pending) -> k.1 = (orgId, driveId) -> (n <= r)%nat
}.

(** ** Lemmas *)

Lemma map_find_some {V} k (m : list (listing_key * V)) v : map_find k m = Some v -> (k, v) ∈ m.
Proof.
  unfold map_find. intros ([k' v'] & Hg & ->)%fmap_Some. apply get_row_some in Hg as [Hin Hk].
  cbn in *. by subst.
Qed.

Lemma map_delete_elem {V} k k' (m : list (listing_key * V)) v :
  (k', v) ∈ map_delete k m -> (k', v) ∈ m /\ k' <> k.
Proof. unfold map_delete. by intros [? ?]%elem_of_delete_where. Qed.

Lemma map_find_none {V} k (m : list (listing_key * V)) v : map_find k m = None -> (k, v) ∈ m -> False.
Proof. unfold map_find. intros Hn%fmap_None Hin. rewrite get_row_none in Hn. by apply (Hn (k, v)). Qed.

Lemma map_find_unique {V} k (m : list (listing_key * V)) v :
  NoDup m.*1 -> (k, v) ∈ m -> map_find k m = Some v.
Proof.
  intros Hnd Hin. destruct (map_find k m) as [v'|] eqn:E; [|by destruct (map_find_none k m v)].
  apply map_find_some in E. f_equal.
  by injection (NoDup_fmap_eq fst m (k, v') (k, v) Hnd E Hin eq_refl).
Qed.

(** Two states that agree but for a smaller cache. *)
Lemma glob_shrink s c n o d :
  (forall x, x ∈ c -> x ∈ s.(gc_cache)) ->
  glob_wf s -> fresh_since n o d s ->
  glob_wf {| gc_cache := c; gc_pending := s.(gc_pending); gc_requests := s.(gc_requests); gc_next := s.(gc_next) |} /\
  fresh_since n o d {| gc_cache := c; gc_pending := s.(gc_pending); gc_requests := s.(gc_requests); gc_next := s.(gc_next) |}.
Proof.
  intros Hc [H1 H2 H3 H4 H5] [F1 F2 F3 F4]. split; split; cbn; eauto.
Qed.

(** Starting a request for a key with none pending. *)
Lemma glob_start s o d p n o' d' :
  map_find (o, d, p) s.(gc_pending) = None -> glob_wf s -> fresh_since n o' d' s ->
  let s' := {| gc_cache := s.(gc_cache); gc_pending := s.(gc_pending) ++ [((o, d, p), s.(gc_next))];
     gc_requests := <[s.(gc_next) := ((o, d, p), Build_PendingListing o d false)]> s.(gc_requests);
     gc_next := S s.(gc_next) |} in
  glob_wf s' /\ fresh_since n o' d' s'.
Proof.
  intros Hnone [H1 H2 H3 H4 H5] [F1 F2 F3 F4]. cbn. split; split; cbn.
  - intros r k q [[<- [= <- <-]]|[Hne Hr]]%lookup_insert_Some; [cbn; auto with lia|].
    destruct (H1 r k q Hr) as (? & ? & ?). auto with lia.
  - done.
  - intros r k q [[<- [= <- <-]]|[Hne Hr]]%lookup_insert_Some Hi; [set_solver|].
    specialize (H3 r k q Hr Hi). set_solver.
  - intros k r [Hin|Hin]%elem_of_app.
    + destruct (H4 k r Hin) as [q Hq]. exists q. rewrite lookup_insert_ne; [done|].
      destruct (H1 r k q Hq) as [? _]. lia.
    + apply list_elem_of_singleton in Hin as [= -> ->]. eexists. apply lookup_insert_eq.
  - apply NoDup_fmap_snoc; [done|]. intros [k r] Hin Heq. cbn in Heq. subst k.
    by apply (map_find_none _ _ _ Hnone Hin).
  - lia.
  - done.
  - intros r k q [[<- [= <- <-]]|[Hne Hr]]%lookup_insert_Some Hk Hi; [lia|eauto].
  - intros k r [Hin|Hin]%elem_of_app Hk; [eauto|]. apply list_elem_of_singleton in Hin as [= -> ->]. lia.
Qed.

Lemma glob_get_inv now o d p s n o' d' :
  glob_wf s -> fresh_since n o' d' s ->
  glob_wf (getCachedDriveListing now o d p s).2 /\
  fresh_since n o' d' (getCachedDriveListing now o d p s).2.
Proof.
  intros Hwf Hfr. unfold getCachedDriveListing. set (key := listingKey o d p).
  assert (Hdel : forall x, x ∈ map_delete key s.(gc_cache) -> x ∈ s.(gc_cache))
    by (intros [k e] Hx; by apply map_delete_elem in Hx as [? _]).
  destruct (map_find key s.(gc_cache)) as [e|] eqn:Ec.
  - apply map_find_some in Ec. destruct (now <? cl_expiresAt e).
    + apply glob_shrink; try done. intros x [Hx|Hx]%elem_of_app; [by apply Hdel|].
      by apply list_elem_of_singleton in Hx as ->.
    + destruct (glob_shrink s _ n o' d' Hdel Hwf Hfr) as [Hwf' Hfr'].
      destruct (map_find key s.(gc_pending)) eqn:Ep; [done|]. exact (glob_start (Build_GlobCache _ _ _ _) o d p n o' d' Ep Hwf' Hfr').
  - destruct (map_find key s.(gc_pending)) eqn:Ep; [done|]. by apply (glob_start s o d p n o' d').
Qed.

Lemma glob_settle_inv now r s n o d :
  glob_wf s -> fresh_since n o d s ->
  glob_wf (settle now r (loaded r) s) /\ fresh_since n o d (settle now r (loaded r) s).
Proof.
  intros Hwf Hfr. unfold settle. destruct (s.(gc_requests) !! r) as [[key q]|] eqn:Er; [|done].
  destruct Hwf as [H1 H2 H3 H4 H5], Hfr as [F1 F2 F3 F4].
  destruct (H1 r key q Er) as (Hlt & Ho & Hd).
  set (cache := match loaded r with Some _ => _ | None => _ end).
  assert (Hcache : forall k e, (k, e) ∈ cache -> (k, e) ∈ s.(gc_cache) \/
    (k = key /\ q.(pl_invalidated) = false /\ e.(cl_orgId) = q.(pl_orgId) /\ e.(cl_driveId) = q.(pl_driveId) /\
     loaded r = Some e.(cl_listing))).
  { intros k e. subst cache. destruct (loaded r) as [l|]; [|auto]. destruct (pl_invalidated q) eqn:Ei; [auto|].
    unfold evict. intros Hin. apply list_elem_of_lookup in Hin as [i Hi]. rewrite lookup_drop in Hi.
    apply list_elem_of_lookup_2 in Hi.
    apply elem_of_app in Hi as [Hi|Hi]; [by apply map_delete_elem in Hi as [? _]; auto|].
    apply list_elem_of_singleton in Hi as [= -> ->]. right. auto. }
  assert (Hpend : forall k r', (k, r') ∈ (if bool_decide (map_find key s.(gc_pending) = Some r)
     then map_delete key s.(gc_pending) else s.(gc_pending)) -> (k, r') ∈ s.(gc_pending)).
  { intros k r'. case_bool_decide; [|done]. by intros [? _]%map_delete_elem. }
  split; split; cbn.
  - intros r' k q' [_ Hr']%lookup_delete_Some. eauto.
  - intros k e [Hin|(-> & _ & -> & -> & _)]%Hcache; eauto.
  - intros r' k q' [Hne Hr']%lookup_delete_Some Hi. specialize (H3 r' k q' Hr' Hi).
    case_bool_decide as Hb; [|done]. apply elem_of_delete_where. split; [done|]. cbn. intros ->.
    rewrite (map_find_unique key _ r' H5 H3) in Hb. congruence.
  - intros k r' Hin. destruct (H4 k r' (Hpend k r' Hin)) as [q' Hq']. exists q'.
    apply lookup_delete_Some. split; [|done]. intros <-. rewrite Er in Hq'. injection Hq' as <- <-.
    assert (Hb : map_find key s.(gc_pending) = Some r) by (apply map_find_unique; auto).
    rewrite bool_decide_true in Hin by done. by apply map_delete_elem in Hin as [_ ?].
  - case_bool_decide; [|done]. by apply NoDup_delete_where.
  - done.
  - intros k e [Hin|(-> & Hi & _ & _ & Hl)]%Hcache Hk; [eauto|]. exists r. split; [|done].
    by apply (F3 r key q Er Hk).
  - intros r' k q' [_ Hr']%lookup_delete_Some. eauto.
  - intros k r' Hin. eauto.
Qed.

Lemma glob_invalidate_requests o d s r k q :
  (invalidateDriveGlobListings o d s).(gc_requests) !! r = Some (k, q) ->
  exists q0, s.(gc_requests) !! r = Some (k, q0) /\ q.(pl_orgId) = q0.(pl_orgId) /\
    q.(pl_driveId) = q0.(pl_driveId) /\
    (q.(pl_invalidated) = false -> q0.(pl_invalidated) = false /\
       ~ (r ∈ s.(gc_pending).*2 /\ of_drive o d q0.(pl_orgId) q0.(pl_driveId) = true)).
Proof.
  cbn. rewrite map_lookup_imap. destruct (s.(gc_requests) !! r) as [[k0 q0]|] eqn:E; [|done]. cbn.
  case_bool_decide as Hin; cbn [andb].
  - destruct (of_drive o d _ _) eqn:Ed; intros [= <- <-]; exists q0; cbn; split_and!; try done.
    intros Hi. split; [done|]. intros [_ Ht]; congruence.
  - intros [= <- <-]. exists q0. split_and!; try done. intros Hi. split; [done|]. tauto.
Qed.

Lemma of_drive_true o d o' d' : of_drive o d o' d' = true <-> (o', d') = (o, d).
Proof.
  unfold of_drive. rewrite andb_true_iff, !bool_decide_eq_true. split; [by intros [-> ->]|by intros [= -> ->]].
Qed.

Lemma glob_invalidate_wf o d s : glob_wf s -> glob_wf (invalidateDriveGlobListings o d s).
Proof.
  intros [H1 H2 H3 H4 H5]. split.
  - intros r k q Hr. apply glob_invalidate_requests in Hr as (q0 & Hr & Ho & Hd & _). rewrite Ho, Hd. eauto.
  - cbn. intros k e [_ Hin]%list_elem_of_filter. eauto.
  - intros r k q Hr Hi. apply glob_invalidate_requests in Hr as (q0 & Hr & Ho & Hd & Hinv).
    destruct (Hinv Hi) as [Hi0 Hn]. pose proof (H3 r k q0 Hr Hi0) as Hp. cbn.
    apply list_elem_of_filter. split; [|done]. cbn. rewrite Hr. apply not_true_iff_false. intros Ht.
    apply Hn. split; [|done]. apply list_elem_of_fmap. by exists (k, r).
  - cbn. intros k r [_ Hin]%list_elem_of_filter. destruct (H4 k r Hin) as [q Hq].
    rewrite map_lookup_imap, Hq. cbn. by destruct (_ && _); eexists.
  - cbn. by apply NoDup_fmap_filter.
Qed.

(** The invalidation itself. *)
Lemma glob_invalidate_fresh o d s :
  glob_wf s -> fresh_since s.(gc_next) o d (invalidateDriveGlobListings o d s).
Proof.
  intros Hwf. destruct (Hwf) as [H1 H2 H3 H4 H5]. split; cbn [gc_next invalidateDriveGlobListings].
  - done.
  - cbn. intros k e [Hf Hin]%list_elem_of_filter Hk. destruct (H2 k e Hin) as [Ho Hd]. cbn in Hf.
    assert (of_drive o d (cl_orgId e) (cl_driveId e) = true) by
      (apply of_drive_true; rewrite <- Ho, <- Hd; by destruct k as [[? ?] ?]).
    congruence.
  - intros r k q Hr Hk Hi. apply glob_invalidate_requests in Hr as (q0 & Hr & _ & _ & Hinv).
    destruct (Hinv Hi) as [Hi0 Hn]. exfalso. apply Hn. split.
    + apply list_elem_of_fmap. exists (k, r). split; [done|]. by apply (H3 r k q0).
    + apply of_drive_true. destruct (H1 r k q0 Hr) as (_ & <- & <-). by destruct k as [[? ?] ?].
  - cbn. intros k r [Hf Hin]%list_elem_of_filter Hk. destruct (H4 k r Hin) as [q Hq]. cbn in Hf.
    rewrite Hq in Hf. destruct (H1 r k q Hq) as (_ & Ho & Hd).
    assert (of_drive o d (pl_orgId q) (pl_driveId q) = true) by
      (apply of_drive_true; rewrite <- Ho, <- Hd; by destruct k as [[? ?] ?]).
    congruence.
Qed.

Lemma glob_invalidate_inv o d s n o' d' :
  glob_wf s -> fresh_since n o' d' s ->
  glob_wf (invalidateDriveGlobListings o d s) /\ fresh_since n o' d' (invalidateDriveGlobListings o d s).
Proof.
  intros Hwf [F1 F2 F3 F4]. split; [by apply glob_invalidate_wf|]. split.
  - done.
  - cbn. intros k e [_ Hin]%list_elem_of_filter. eauto.
  - intros r k q Hr Hk Hi. apply glob_invalidate_requests in Hr as (q0 & Hr & _ & _ & Hinv).
    destruct (Hinv Hi). eauto.
  - cbn. intros k r [_ Hin]%list_elem_of_filter. eauto.
Qed.

Lemma glob_run_inv ops s n o d :
  glob_wf s -> fresh_since n o d s -> glob_wf (glob_run ops s) /\ fresh_since n o d (glob_run ops s).
Proof.
  unfold glob_run. revert s. induction ops as [|op ops IH]; intros s Hwf Hfr; [done|]. cbn.
  assert (Hop : glob_wf (glob_step op s) /\ fresh_since n o d (glob_step op s)).
  { destruct op; cbn [glob_step]; [by apply glob_get_inv|by apply glob_settle_inv|by apply glob_invalidate_inv]. }
  destruct Hop. by apply IH.
Qed.

Lemma glob_run_wf ops : glob_wf (glob_run ops empty_glob_cache).
Proof.
  apply (glob_run_inv ops empty_glob_cache 0 "" ""); split; cbn; intros; rewrite ?lookup_empty in *;
    first [done | apply NoDup_nil_2 | set_solver].
Qed.

Lemma length_evict c : (length (evict c) <= MAX_ENTRIES)%nat.
Proof. unfold evict. rewrite length_drop. lia. Qed.

(** ** Properties *)

(** No stale listing after an invalidation.  In any history of lookups,
    settling loads and invalidations, once the drive's listings have been
    invalidated, a lookup of the drive hands out only a listing loaded by a
    request that began after the invalidation, or the promise of such a request. *)
Theorem glob_no_stale_listing before after o d now p :
  let s := glob_run before empty_glob_cache in
  let s' := glob_run after (invalidateDriveGlobListings o d s) in
  match (getCachedDriveListing now o d p s').1 with
  | Cached l => exists r, (s.(gc_next) <= r)%nat /\ loaded r = Some l
  | Promised r => (s.(gc_next) <= r)%nat
  end.
Proof.
  cbn. set (s := glob_run before empty_glob_cache). pose proof (glob_run_wf before) as Hwf. fold s in Hwf.
  destruct (glob_run_inv after (invalidateDriveGlobListings o d s) s.(gc_next) o d) as [Hwf' [F1 F2 F3 F4]];
    [by apply glob_invalidate_wf|by apply glob_invalidate_fresh|].
  set (s' := glob_run after _) in *. unfold getCachedDriveListing.
  destruct (map_find _ s'.(gc_cache)) as [e|] eqn:Ec.
  - apply map_find_some in Ec. destruct (now <? cl_expiresAt e); [by apply (F2 (o, d, p))|].
    destruct (map_find _ s'.(gc_pending)) as [r|] eqn:Ep; [|done].
    apply map_find_some in Ep. by apply (F4 (o, d, p)).
  - destruct (map_find _ s'.(gc_pending)) as [r|] eqn:Ep; [|done].
    apply map_find_some in Ep. by apply (F4 (o, d, p)).
Qed.
End GlobCache.
