(* ===== verification/Text.v ===== *)
(** * Text: decoding, searching and replacing, and the MIME table of core/src/ops/mime.ts

    What the file ops use of the language's text functions, on UTF-8 bytes:
    [TextDecoder] (replacing and fatal), [split]/[join]/[slice] on lines,
    [split(s).length - 1] as a count of occurrences, [String.replace] with its
    [$] patterns, and [JSON.stringify] of a string. *)

From S2P Require Import Prelude JsString.

(** ** TextDecoder

    The decoder of the Encoding standard: [need] continuation bytes are due, the
    next one in [lo..hi]; [pend] holds the bytes of the sequence so far.  An
    ill-formed sequence decodes to U+FFFD.  The flag says that one was met. *)

Definition replacement : string := bytes [239; 191; 189]%nat.

Fixpoint decode_from (need : nat) (lo hi : nat) (pend s : string) : string * bool :=
  match s with
  | EmptyString => match need with O => (EmptyString, false) | _ => (replacement, true) end
  | String c s' =>
      let n := Ascii.nat_of_ascii c in
      let start :=
        if Nat.ltb n 128 then let r := decode_from 0 128 191 "" s' in (String c r.1, r.2)
        else if Nat.leb 194 n && Nat.leb n 223 then decode_from 1 128 191 (String c "") s'
        else if Nat.leb 224 n && Nat.leb n 239 then
          decode_from 2 (if Nat.eqb n 224 then 160 else 128)%nat (if Nat.eqb n 237 then 159 else 191)%nat
            (String c "") s'
        else if Nat.leb 240 n && Nat.leb n 244 then
          decode_from 3 (if Nat.eqb n 240 then 144 else 128)%nat (if Nat.eqb n 244 then 143 else 191)%nat
            (String c "") s'
        else let r := decode_from 0 128 191 "" s' in (replacement +:+ r.1, true) in
      match need with
      | O => start
      | S k =>
          if Nat.leb lo n && Nat.leb n hi then
            match k with
            | O => let r := decode_from 0 128 191 "" s' in (pend +:+ String c r.1, r.2)
            | _ => decode_from k 128 191 (pend +:+ String c "") s'
            end
          else (replacement +:+ start.1, true)
      end
  end.

(** A leading byte order mark is dropped. *)
Definition strip_bom (s : string) : string :=
  if starts_with (bytes [239; 187; 191]%nat) s then drop_str 3 s else s.

(** [new TextDecoder().decode(bytes)]. *)
Definition decode_utf8 (b : string) : string := (decode_from 0 128 191 "" (strip_bom b)).1.

(** [decodeUtf8Strict] of mime.ts. *)
Definition decodeUtf8Strict (b : string) : option string :=
  let r := decode_from 0 128 191 "" (strip_bom b) in if r.2 then None else Some r.1.

(** ** Searching and replacing *)

(** The text before and after the first occurrence of [pat]. *)
Fixpoint cut_first (pat s : string) : option (string * string) :=
  if starts_with pat s then Some ("", drop_str (String.length pat) s)
  else match s with
       | EmptyString => None
       | String c s' => (fun p => (String c p.1, p.2)) <$> cut_first pat s'
       end.

(** Non-overlapping occurrences, from the left. *)
Fixpoint count_from (fuel : nat) (pat s : string) : Z :=
  match fuel with
  | O => 0
  | S fuel' =>
      match cut_first pat s with
      | None => 0
      | Some (_, rest) => 1 + count_from fuel' pat rest
      end
  end%Z.

(** [s.split(pat).length - 1]: with an empty separator, [split] gives one part
    per UTF-16 unit. *)
Definition occurrences (pat s : string) : Z :=
  if bool_decide (pat = "") then (js_length s - 1)%Z else count_from (S (String.length s)) pat s.

(** The [$] patterns of a replacement string: a doubled dollar, the match, the
    text before it and the text after it.  Any other dollar stands for itself. *)
Definition expand_dollar (before matched after : string) (c : ascii) : option string :=
  if bool_decide (c = "$"%char) then Some "$"
  else if bool_decide (c = "&"%char) then Some matched
  else if bool_decide (c = "`"%char) then Some before
  else if bool_decide (c = "'"%char) then Some after
  else None.

Fixpoint expand (before matched after repl : string) : string :=
  match repl with
  | EmptyString => EmptyString
  | String c rest =>
      match rest with
      | EmptyString => String c EmptyString
      | String d rest' =>
          if bool_decide (c = "$"%char) then
            match expand_dollar before matched after d with
            | Some t => t +:+ expand before matched after rest'
            | None => String c (expand before matched after rest)
            end
          else String c (expand before matched after rest)
      end
  end.

(** [s.replace(pat, repl)]: the first occurrence. *)
Definition js_replace (pat repl s : string) : string :=
  match cut_first pat s with
  | None => s
  | Some (before, after) => before +:+ expand before pat after repl +:+ after
  end.

Definition newline : ascii := chr 10.
Definition is_newline (c : ascii) : bool := bool_decide (c = newline).
Definition lines (s : string) : list string := split_on is_newline s.
Definition unlines (l : list string) : string := join (String newline "") l.

(** ** JSON.stringify of a string *)

Definition json_char (c : ascii) : string :=
  let n := Ascii.nat_of_ascii c in
  if Nat.eqb n 34 then bytes [92; 34]%nat
  else if Nat.eqb n 92 then bytes [92; 92]%nat
  else if Nat.eqb n 8 then bytes [92; 98]%nat
  else if Nat.eqb n 12 then bytes [92; 102]%nat
  else if Nat.eqb n 10 then bytes [92; 110]%nat
  else if Nat.eqb n 13 then bytes [92; 114]%nat
  else if Nat.eqb n 9 then bytes [92; 116]%nat
  else if Nat.ltb n 32 then bytes [92; 117; 48; 48]%nat +:+ to_hex (String c "")
  else String c "".

Fixpoint json_chars (s : string) : string :=
  match s with
  | EmptyString => EmptyString
  | String c s' => json_char c +:+ json_chars s'
  end.

Definition json_string (s : string) : string := bytes [34]%nat +:+ json_chars s +:+ bytes [34]%nat.

(** ** mime.ts *)

Section Mime.
Context {rt : Runtime}.

Definition MIME_MAP : list (string * string) := [
  ("png", "image/png"); ("jpg", "image/jpeg"); ("jpeg", "image/jpeg"); ("gif", "image/gif");
  ("svg", "image/svg+xml"); ("webp", "image/webp"); ("ico", "image/x-icon");
  ("pdf", "application/pdf");
  ("txt", "text/plain"); ("md", "text/markdown"); ("mdx", "text/markdown"); ("html", "text/html");
  ("css", "text/css"); ("csv", "text/csv"); ("tsv", "text/tab-separated-values");
  ("xml", "application/xml"); ("json", "application/json"); ("jsonl", "application/x-ndjson");
  ("ndjson", "application/x-ndjson"); ("yaml", "application/x-yaml"); ("yml", "application/x-yaml");
  ("toml", "application/toml");
  ("ts", "text/plain"); ("tsx", "text/plain"); ("js", "text/javascript"); ("jsx", "text/javascript");
  ("py", "text/x-python"); ("rb", "text/x-ruby"); ("rs", "text/x-rust"); ("go", "text/x-go");
  ("java", "text/x-java"); ("c", "text/x-c"); ("cpp", "text/x-c++"); ("h", "text/x-c");
  ("hpp", "text/x-c++"); ("sh", "text/x-shellscript"); ("sql", "text/x-sql");
  ("graphql", "text/x-graphql");
  ("parquet", "application/vnd.apache.parquet");
  ("xlsx", "application/vnd.openxmlformats-officedocument.spreadsheetml.sheet");
  ("db", "application/vnd.sqlite3"); ("sqlite", "application/vnd.sqlite3");
  ("sqlite3", "application/vnd.sqlite3");
  ("zip", "application/zip"); ("tar", "application/x-tar"); ("gz", "application/gzip")].

(** The lookup in the table's own keys.  The two lowercase names that the object
    literal inherits, [constructor] and [__proto__], give a function and an object
    there, which are no content type; here they are unknown extensions. *)
Definition detectMimeType (path : string) : string :=
  let ext := toLowerCase (last (split_on (fun c => bool_decide (c = "."%char)) path) ?? "") in
  (snd <$> get_row (fun e => e.1 = ext) MIME_MAP) ?? "application/octet-stream".

(** [contentType.split(";")[0].trim()]. *)
Definition mime_base (contentType : string) : string :=
  trim (head (split_on (fun c => bool_decide (c = ";"%char)) contentType) ?? "").

Definition isIndexableMimeType (contentType : string) : bool :=
  let normalized := toLowerCase (mime_base contentType) in
  starts_with "text/" normalized ||
  bool_decide (normalized ∈ ["application/json"; "application/x-ndjson"; "application/xml";
                             "application/x-yaml"; "application/toml"; "image/svg+xml"]).

Fixpoint count_suspicious (s : string) : option Z :=
  match s with
  | EmptyString => Some 0%Z
  | String c s' =>
      let n := Ascii.nat_of_ascii c in
      if Nat.eqb n 0 then None
      else (fun k => if Nat.ltb n 32 && negb (bool_decide (n ∈ [9; 10; 12; 13]%nat)) then (k + 1)%Z else k)
             <$> count_suspicious s'
  end.

(** [suspicious / length < 0.01]. *)
Definition looksLikeTextBytes (b : string) : bool :=
  bool_decide (b = "") ||
  match count_suspicious b with
  | None => false
  | Some k => (100 * k <? Z.of_nat (String.length b))%Z
  end.

Definition decodeIndexableText (b contentType : string) : option string :=
  match decodeUtf8Strict b with
  | None => None
  | Some decoded =>
      if isIndexableMimeType contentType then Some decoded
      else if bool_decide (contentType = "application/octet-stream") && looksLikeTextBytes b
      then Some decoded else None
  end.
End Mime.

(** ** Lemmas *)

Lemma cut_first_app pat s before after :
  cut_first pat s = Some (before, after) -> s = before +:+ pat +:+ after.
Proof.
  revert before. induction s as [|c s IH]; intros before; cbn [cut_first];
    destruct (starts_with pat _) eqn:E.
  - intros [= <- <-]. apply starts_with_spec in E as [r Hr]. by destruct pat.
  - done.
  - intros [= <- <-]. apply starts_with_spec in E as [r Hr]. cbn [String.append].
    rewrite Hr, drop_str_app. done.
  - destruct (cut_first pat s) as [[b a]|]; [|done]. intros [= <- <-]. cbn. by rewrite <- (IH b).
Qed.

Lemma cut_first_none pat s : cut_first pat s = None -> forall a b, s <> a +:+ pat +:+ b.
Proof.
  induction s as [|c s IH]; cbn [cut_first]; destruct (starts_with pat _) eqn:E; try done.
  - intros _ a b Hs. destruct a; [|done]. cbn in Hs.
    pose proof (starts_with_app pat b) as E'. rewrite <- Hs in E'. congruence.
  - destruct (cut_first pat s) as [|] eqn:Ec; [done|]. intros _ a b Hs. destruct a as [|d a].
    + cbn in Hs. pose proof (starts_with_app pat b) as E'. rewrite <- Hs in E'. congruence.
    + cbn in Hs. injection Hs as _ Hs. by apply (IH eq_refl a b).
Qed.

(** A replacement without dollars is inserted as it is. *)
Lemma expand_plain before matched after repl :
  has_char "$"%char repl = false -> expand before matched after repl = repl.
Proof.
  induction repl as [|c repl IH]; cbn [has_char]; [done|]. intros [Hc Hr]%orb_false_iff.
  apply bool_decide_eq_false in Hc. cbn [expand]. destruct repl as [|d repl]; [done|].
  rewrite bool_decide_false by congruence. by rewrite IH.
Qed.

Lemma unlines_lines s : unlines (lines s) = s.
Proof. apply join_split. Qed.

Lemma lines_nonempty s : (1 <= length (lines s))%nat.
Proof. unfold lines. destruct (split_on is_newline s) eqn:E; [by apply split_on_nonempty in E|cbn; lia]. Qed.

Lemma count_from_nonneg fuel pat s : (0 <= count_from fuel pat s)%Z.
Proof.
  revert s. induction fuel as [|f IH]; intros s; cbn [count_from]; [done|].
  destruct (cut_first pat s) as [[? t]|]; [|done]. specialize (IH t). lia.
Qed.

(** One occurrence: the text is cut at it, and it is nowhere else to the right. *)
Lemma occurrences_one pat s :
  pat <> "" -> occurrences pat s = 1%Z ->
  exists before after, cut_first pat s = Some (before, after) /\ s = before +:+ pat +:+ after /\
    forall a b, after <> a +:+ pat +:+ b.
Proof.
  intros Hp. unfold occurrences. rewrite bool_decide_false by done. cbn [count_from].
  destruct (cut_first pat s) as [[before after]|] eqn:E; [|discriminate].
  intros Hc. exists before, after. split; [done|]. pose proof (cut_first_app _ _ _ _ E) as Hs.
  split; [exact Hs|]. apply cut_first_none. destruct (cut_first pat after) as [[x y]|] eqn:Ea; [|done].
  exfalso. apply (f_equal String.length) in Hs. rewrite !length_app_str in Hs.
  assert (1 <= String.length pat)%nat by (destruct pat; [done|cbn; lia]).
  destruct (String.length s) as [|k] eqn:El; [lia|]. cbn [count_from] in Hc. rewrite Ea in Hc.
  pose proof (count_from_nonneg k pat y). lia.
Qed.

(** [s.includes(pat)]. *)
Definition includes (pat s : string) : bool := bool_decide (is_Some (cut_first pat s)).
