(* ===== verification/Storage.v ===== *)
(** * The storage contract: core/src/storage/adapter.ts, capabilities.ts

    [StorageAdapter] is the interface the ops call, as a class over the backend's
    state; [StorageLaws] is what the contract promises, in terms of what a key
    holds now ([object]) and what a version handle retrieves ([version_object]).
    A call may always fail with a backend error, so each law speaks of the calls
    that return.  [StorageView] is how a backend's state is read.
    [memory_storage] is a backend that satisfies the laws; the witnesses run on
    it. *)

From S2P Require Import Prelude JsString Errors Paths.
#[global] Open Scope Z_scope.

(** [so_lastModified] is [None] for the time of the call, which the local
    adapter gives an object without a date. *)
Record S3Object : Type := { so_key : string; so_size : Z; so_lastModified : option Z; so_etag : option string }.

Record PutObjectResult : Type := { put_etag : option string; put_versionId : option string }.

Record GetObjectResult : Type := {
  get_body : string;
  get_contentType : option string;
  get_etag : option string
}.

Record HeadObjectResult : Type := {
  head_contentType : option string;
  head_size : Z;
  head_lastModified : option Z;
  head_etag : option string
}.

Record StorageCapabilities : Type := { cap_versioning : bool; cap_presignedUrls : bool }.

Class StorageAdapter (Store : Type) : Type := {
  capabilities : StorageCapabilities;
  putObject : string -> string -> option string -> M error Store PutObjectResult;
  getObject : string -> option string -> M error Store GetObjectResult;
  deleteObject : string -> M error Store unit;
  copyObject : string -> string -> M error Store PutObjectResult;
  listObjects : string -> option string -> option nat -> M error Store (list S3Object * list string);
  headObject : string -> M error Store HeadObjectResult
}.

(** [assertCapability(adapter, "versioning", operation)]. *)
Definition assertCapability (has : bool) (operation : string) (backend : option string) : outcome error unit :=
  if has then Ok tt else Throw (UnsupportedOperation operation backend None).

(** How the state of a backend is read: what a key holds now, what a version
    handle retrieves, which keys may hold a file, and whether the versions are
    sound (of a backend that keeps contents by digest: each under its own). *)
Class StorageView (Store : Type) : Type := {
  object : Store -> string -> option string;
  version_object : Store -> string -> string -> option string;
  object_key : string -> Prop;
  store_sound : Store -> Prop
}.

(** A write to [k]: the objects at other paths (a file system has one object for
    all the keys that name a path) and every retrievable version stay, and so
    does the soundness of the versions. *)
Definition storage_frame {Store} {SV : StorageView Store} (k : string) (s s' : Store) : Prop :=
  (forall k', path_names k' <> path_names k -> object s' k' = object s k') /\
  (forall k' v b, version_object s k' v = Some b -> version_object s' k' v = Some b) /\
  (store_sound s -> store_sound s').

Lemma storage_frame_refl {Store} {SV : StorageView Store} k (s : Store) : storage_frame k s s.
Proof. split; [done|split; auto]. Qed.

(** What a result's version handle retrieves: content of the same digest, for a
    backend may store contents by their digest. *)
Definition handle_retrieves {rt : Runtime} {Store} {SV : StorageView Store} (s : Store) (k b : string)
    (r : PutObjectResult) : Prop :=
  forall v, r.(put_versionId) = Some v -> v <> "" ->
    exists b', version_object s k v = Some b' /\ sha256hex b' = sha256hex b.

Class StorageLaws {rt : Runtime} (Store : Type) {SA : StorageAdapter Store} {SV : StorageView Store} : Prop := {
  drive_key_law : forall orgId driveId path, plain_segment orgId -> object_key (getS3Key orgId driveId path);
  put_law : forall k b ct s o s', object_key k -> putObject k b ct s = (o, s') ->
    storage_frame k s s' /\
    forall r, o = Ok r -> object s' k = Some b /\ (store_sound s -> handle_retrieves s' k b r);
  get_law : forall k s o s', getObject k None s = (o, s') ->
    s' = s /\ (object_key k -> forall r, o = Ok r -> object s k = Some r.(get_body)) /\
    (object_key k -> forall e, o = Throw e -> is_no_such_key e = true -> object s k = None);
  get_version_law : forall k v s o s', v <> "" -> getObject k (Some v) s = (o, s') ->
    s' = s /\ forall r b, o = Ok r -> version_object s k v = Some b -> r.(get_body) = b;
  delete_law : forall k s o s', object_key k -> deleteObject k s = (o, s') ->
    storage_frame k s s' /\ forall r, o = Ok r -> object s' k = None;
  copy_law : forall k k' s o s', object_key k -> object_key k' -> copyObject k k' s = (o, s') ->
    storage_frame k' s s' /\
    forall r, o = Ok r -> exists b, object s k = Some b /\ object s' k' = Some b /\
      (store_sound s -> handle_retrieves s' k' b r);
  head_law : forall k s o s', headObject k s = (o, s') ->
    s' = s /\ (object_key k -> forall r, o = Ok r ->
                 exists b, object s k = Some b /\ r.(head_size) = Z.of_nat (String.length b)) /\
    (object_key k -> forall e, o = Throw e -> is_storage_not_found e = true -> object s k = None);
  list_law : forall p d n s o s', listObjects p d n s = (o, s') -> s' = s
}.

(** ** A backend in memory

    It never reuses a version handle: a put whose handle is taken is refused. *)

Record MemStore : Type := {
  ms_objects : gmap string (string * option string);
  ms_versions : gmap (string * string) string;
  ms_next : nat
}.

Definition empty_store : MemStore := {| ms_objects := ∅; ms_versions := ∅; ms_next := 0 |}.

Definition no_such_key (key : string) : error := ForeignError "NoSuchKey" ("NoSuchKey: " +:+ key) None false.

Definition mem_put (k b : string) (ct : option string) : M error MemStore PutObjectResult := fun s =>
  let v := "v" +:+ pretty s.(ms_next) in
  (Ok {| put_etag := Some v; put_versionId := Some v |},
   {| ms_objects := <[k := (b, ct)]> s.(ms_objects);
      ms_versions := <[(k, v) := b]> s.(ms_versions);
      ms_next := S s.(ms_next) |}).

Definition mem_object_info (e : string * (string * option string)) : S3Object :=
  {| so_key := e.1; so_size := Z.of_nat (String.length e.2.1); so_lastModified := None; so_etag := None |}.

(** The folder of one level under [p] that [key] is in. *)
Definition level_prefix (p key : string) : option string :=
  match split_on is_slash (drop_str (String.length p) key) with
  | folder :: _ :: _ => Some (p +:+ folder +:+ "/")
  | _ => None
  end.

(** The delimiter, if any, is a slash. *)
Definition mem_list (p : string) (d : option string) (n : option nat) (s : MemStore)
    : list S3Object * list string :=
  let all := mem_object_info <$> filter (fun e : string * (string * option string) => starts_with p e.1 = true)
               (map_to_list s.(ms_objects)) in
  let listing := match d with
    | None => (all, [])
    | Some _ => (filter (fun o => level_prefix p o.(so_key) = None) all,
                 remove_dups (omap (fun o => level_prefix p o.(so_key)) all))
    end in
  match n with
  | None => listing
  | Some n => (take n listing.1, take (n - length listing.1) listing.2)
  end.

#[export] Instance memory_storage : StorageAdapter MemStore := {|
  capabilities := {| cap_versioning := true; cap_presignedUrls := false |};
  putObject k b ct := fun s =>
    match s.(ms_versions) !! (k, "v" +:+ pretty s.(ms_next)) with
    | Some _ => (Throw (JsError "handle taken"), s)
    | None => mem_put k b ct s
    end;
  getObject k v := fun s =>
    match v with
    | None =>
        match s.(ms_objects) !! k with
        | Some (b, ct) => (Ok {| get_body := b; get_contentType := ct; get_etag := None |}, s)
        | None => (Throw (no_such_key k), s)
        end
    | Some v =>
        match s.(ms_versions) !! (k, v) with
        | Some b => (Ok {| get_body := b; get_contentType := None; get_etag := None |}, s)
        | None => (Throw (no_such_key k), s)
        end
    end;
  deleteObject k := modify (fun s =>
    {| ms_objects := delete k s.(ms_objects); ms_versions := s.(ms_versions); ms_next := s.(ms_next) |});
  copyObject k k' := fun s =>
    match s.(ms_objects) !! k with
    | None => (Throw (no_such_key k), s)
    | Some (b, ct) =>
        match s.(ms_versions) !! (k', "v" +:+ pretty s.(ms_next)) with
        | Some _ => (Throw (JsError "handle taken"), s)
        | None => mem_put k' b ct s
        end
    end;
  listObjects p d n := fun s => (Ok (mem_list p d n s), s);
  headObject k := fun s =>
    match s.(ms_objects) !! k with
    | Some (b, ct) => (Ok {| head_contentType := ct; head_size := Z.of_nat (String.length b);
                             head_lastModified := None; head_etag := None |}, s)
    | None => (Throw (no_such_key k), s)
    end
|}.

Definition mem_object (s : MemStore) (k : string) : option string := fst <$> s.(ms_objects) !! k.
Definition mem_version (s : MemStore) (k v : string) : option string := s.(ms_versions) !! (k, v).

#[export] Instance memory_view : StorageView MemStore := {|
  object := mem_object; version_object := mem_version; object_key _ := True; store_sound _ := True
|}.

Section Memory.
Context {rt : Runtime}.

Lemma mem_put_ok k b ct s :
  s.(ms_versions) !! (k, "v" +:+ pretty s.(ms_next)) = None ->
  let r := mem_put k b ct s in
  storage_frame k s r.2 /\
  forall x, r.1 = Ok x -> mem_object r.2 k = Some b /\ handle_retrieves r.2 k b x.
Proof.
  intros Hn. unfold mem_put. cbn. split; [split; [|split; [|done]]|].
  - intros k' Hk. cbn. unfold mem_object. cbn. rewrite lookup_insert_ne; congruence.
  - intros k' v b' Hb. cbn in Hb |- *. unfold mem_version in *. cbn. rewrite lookup_insert_ne; [done|].
    intros Heq. cbn in Heq, Hn. rewrite Heq in Hn. congruence.
  - intros x [= <-]. split; [unfold mem_object; cbn; by rewrite lookup_insert_eq|].
    intros v [= <-] _. exists b. cbn. unfold mem_version. cbn. by rewrite lookup_insert_eq.
Qed.

#[export] Instance memory_laws : StorageLaws MemStore.
Proof.
  split.
  - done.
  - intros k b ct s o s' _. cbn. destruct (ms_versions s !! _) eqn:E.
    + intros [= <- <-]. split; [apply storage_frame_refl|]. intros r [=].
    + intros H. pose proof (mem_put_ok k b ct s E) as [Hf Hr]. rewrite H in Hf, Hr. split; [exact Hf|].
      intros r Ho. by destruct (Hr r Ho).
  - intros k s o s'. cbn. destruct (ms_objects s !! k) as [[b ct]|] eqn:E; intros [= <- <-].
    + split; [done|]. split; [|discriminate]. intros _ r [= <-]. cbn. unfold mem_object. by rewrite E.
    + split; [done|]. split; [discriminate|]. intros _ e _ _. cbn. unfold mem_object. by rewrite E.
  - intros k v s o s' Hv. cbn. destruct (ms_versions s !! (k, v)) as [b|] eqn:E; intros [= <- <-]; split; try done.
    intros r b' [= <-] Hb. cbn in Hb. unfold mem_version in Hb. cbn. congruence.
  - intros k s o s' _. cbn. intros [= <- <-]. split; [split; [|split; done]|].
    + intros k' Hk. cbn. unfold mem_object. cbn. rewrite lookup_delete_ne; congruence.
    + intros r _. cbn. unfold mem_object. cbn. by rewrite lookup_delete_eq.
  - intros k k' s o s' _ _. cbn. destruct (ms_objects s !! k) as [[b ct]|] eqn:E.
    + destruct (ms_versions s !! _) eqn:Ev.
      * intros [= <- <-]. split; [apply storage_frame_refl|]. intros r [=].
      * intros H. pose proof (mem_put_ok k' b ct s Ev) as [Hf Hr]. rewrite H in Hf, Hr.
        split; [exact Hf|]. intros r Ho. exists b. split; [cbn; unfold mem_object; by rewrite E|].
        destruct (Hr r Ho). auto.
    + intros [= <- <-]. split; [apply storage_frame_refl|]. intros r [=].
  - intros k s o s'. cbn. destruct (ms_objects s !! k) as [[b ct]|] eqn:E; intros [= <- <-].
    + split; [done|]. split; [|discriminate]. intros _ r [= <-]. exists b. cbn. unfold mem_object. by rewrite E.
    + split; [done|]. split; [discriminate|]. intros _ e _ _. cbn. unfold mem_object. by rewrite E.
  - intros p d n s o s'. cbn. by intros [= _ <-].
Qed.
End Memory.
