(* ===== verification/World.v ===== *)
(** * The state and context of an op: core/src/ops/types.ts, core/src/events/bus.ts

    [World] is what an op can change: the database, the storage backend, the
    events published on the in-process bus, how often the webhook worker was
    woken, and the glob listing cache.  [OpContext] is what an op is given. *)

From S2P Require Import Prelude JsString Errors Schema Storage GlobCache.

(** The embedding provider, as far as the ops look at it: which image types it
    takes, and whether PDF pages can be rendered for it. *)
Record EmbeddingProvider : Type := {
  ep_supportsMime : string -> bool;
  ep_pdfPageImages : bool
}.

(** Where [apiUrl] came from. *)
Inductive ApiUrlSource : Type := UrlConfigured | UrlRequest.
#[export] Instance ApiUrlSource_eq_dec : EqDecision ApiUrlSource.
Proof. solve_decision. Defined.

Record OpContext : Type := {
  op_orgId : string;
  op_driveId : string;
  op_userId : string;
  op_embeddingProvider : option EmbeddingProvider;
  op_appUrl : option string;
  op_apiUrl : option string;
  op_apiUrlSource : option ApiUrlSource
}.

Inductive comment_action : Type := CaCreated | CaUpdated | CaResolved | CaReopened | CaDeleted.

Inductive DriveEvent : Type :=
| FileChanged (driveId path : string) (version : Z) (operation : FileOperation) (actor : string) (at_ : Z)
| CommentChanged (driveId path commentId : string) (parentId : option string) (action : comment_action)
    (actor : string) (at_ : Z).

Definition event_drive (e : DriveEvent) : string :=
  match e with
  | FileChanged d _ _ _ _ _ => d
  | CommentChanged d _ _ _ _ _ _ => d
  end.

Record World {Store : Type} : Type := {
  w_db : Db;
  w_store : Store;
  w_events : list DriveEvent;
  w_wakeups : nat;
  w_glob : @GlobCache (list S3Object * list string)
}.
Arguments World : clear implicits.

#[export] Instance World_eta {Store} : Eta (World Store) := fun w =>
  Build_World Store w.(w_db) w.(w_store) w.(w_events) w.(w_wakeups) w.(w_glob).

(** ** events/bus.ts

    Listeners by drive, each with its id, in subscription order.  A listener that
    throws does not stop the others, so delivery is a function of who listens. *)

Definition Bus : Type := gmap string (list nat).

Definition publishDriveEvent (bus : Bus) (e : DriveEvent) : list nat := bus !! event_drive e ?? [].

(** [subscribers.add(fn)] of a [Set]. *)
Definition subscribeDrive (driveId : string) (fn : nat) (bus : Bus) : Bus :=
  let subscribers := bus !! driveId ?? [] in
  <[driveId := if bool_decide (fn ∈ subscribers) then subscribers else subscribers ++ [fn]]> bus.

(** The function [subscribeDrive] returns. *)
Definition unsubscribeDrive (driveId : string) (fn : nat) (bus : Bus) : Bus :=
  match bus !! driveId with
  | None => bus
  | Some subscribers =>
      let rest := filter (fun x => x <> fn) subscribers in
      if bool_decide (rest = []) then delete driveId bus else <[driveId := rest]> bus
  end.

Section World.
Context {Store : Type}.

Definition OpM (A : Type) : Type := M error (World Store) A.

(** Running on one part of the world. *)
Definition in_db {A} (m : DbM A) : OpM A := on w_db (fun db w => w <| w_db := db |>) m.
Definition in_store {A} (m : M error Store A) : OpM A := on w_store (fun s w => w <| w_store := s |>) m.
Definition query {A} (f : Db -> A) : OpM A := gets (fun w => f w.(w_db)).
Definition write_db (f : Db -> Db) : OpM unit := modify (fun w => w <| w_db ::= f |>).
Definition publish (e : DriveEvent) : OpM unit := modify (fun w => w <| w_events ::= fun l => l ++ [e] |>).
Definition notifyWebhooksEnqueued : OpM unit := modify (fun w => w <| w_wakeups ::= S |>).
Definition invalidate_globs (orgId driveId : string) : OpM unit :=
  modify (fun w => w <| w_glob ::= invalidateDriveGlobListings orgId driveId |>).

Lemma in_db_state {A} (m : DbM A) (w : World Store) : (in_db m w).2.(w_db) = (m w.(w_db)).2.
Proof. unfold in_db, on. by destruct (m w.(w_db)). Qed.

Lemma in_db_result {A} (m : DbM A) (w : World Store) : (in_db m w).1 = (m w.(w_db)).1.
Proof. unfold in_db, on. by destruct (m w.(w_db)). Qed.

Lemma in_db_ok {A} (m : DbM A) (w : World Store) a w' :
  in_db m w = (Ok a, w') <-> exists db', m w.(w_db) = (Ok a, db') /\ w' = w <| w_db := db' |>.
Proof.
  unfold in_db, on. destruct (m w.(w_db)) as [o db']. split.
  - intros [= -> <-]. eauto.
  - by intros (db2 & [= -> ->] & ->).
Qed.
End World.
Arguments OpM : clear implicits.
