(* ===== verification/Outbox.v ===== *)
(** * The webhook outbox for file changes: core/src/webhooks/events.ts, outbox.ts

    The event types and delivery constants, and [enqueueFileWebhooks], which
    writes one delivery per matching subscription inside the transaction that
    records a version.  The subscription's path prefix is matched by a range of
    BINARY-collated strings; the theorem says the range is exactly "starts with
    the prefix". *)

From S2P Require Import Prelude JsString Errors Paths Schema Rbac Storage GlobCache World.

(** ** events.ts *)

Definition COMMENT_WEBHOOK_EVENT_TYPES : list string := [
  "comment.created"; "comment.mentioned"; "comment.updated"; "comment.resolved";
  "comment.reopened"; "comment.deleted"].

Definition WEBHOOK_EVENT_TYPES : list string := COMMENT_WEBHOOK_EVENT_TYPES ++ ["file.changed"].

Definition INTERNAL_TO_WEBHOOK : list (string * string) := [
  ("comment_created", "comment.created"); ("comment_mention", "comment.mentioned");
  ("comment_updated", "comment.updated"); ("comment_resolved", "comment.resolved");
  ("comment_reopened", "comment.reopened"); ("comment_deleted", "comment.deleted")].

Definition isWebhookEventType (value : string) : bool := bool_decide (value ∈ WEBHOOK_EVENT_TYPES).

Definition RETRY_SCHEDULE_MS : list Z := [5000; 300000; 1800000; 7200000; 18000000; 36000000; 36000000].
Definition AUTO_DISABLE_AFTER_MS : Z := 5 * 86400000.
Definition SEND_TIMEOUT_MS : Z := 15000.
Definition LEASE_MS : Z := 60000.
Definition BODY_MAX_CHARS : nat := 8000.
Definition MAX_SUBSCRIPTIONS_PER_ORG : nat := 25.
Definition DELIVERY_RETENTION_MS : Z := 30 * 86400000.
Definition PRUNE_INTERVAL_MS : Z := 3600000.

(** [Number.MAX_SAFE_INTEGER]. *)
Definition MAX_SAFE_INTEGER : Z := 9007199254740991.

(** [raw]: the environment variable. *)
Definition retryScheduleMs (raw : option string) : list Z :=
  match truthy (trim <$> raw) with
  | None => RETRY_SCHEDULE_MS
  | Some t =>
      let parts := trim <$> split_on (fun c => bool_decide (c = ","%char)) t in
      if forallb (fun p => all_digits p && (digits_value 0 p <=? MAX_SAFE_INTEGER)) parts
      then digits_value 0 <$> parts else RETRY_SCHEDULE_MS
  end.

(** ** outbox.ts *)

(** On UTF-16 code units. *)
Definition truncateWebhookBody (body : list Z) : list Z * bool :=
  if (length body <=? BODY_MAX_CHARS)%nat then (body, false)
  else
    let last := body !! (BODY_MAX_CHARS - 1)%nat ?? 0 in
    let end_ := if (55296 <=? last) && (last <=? 56319) then (BODY_MAX_CHARS - 1)%nat else BODY_MAX_CHARS in
    (take end_ body, true).

Definition parseEventTypes (raw : json) : option (list string) :=
  match raw with
  | JArr l => Some (omap (fun t => match t with JStr s => Some s | _ => None end) l)
  | _ => None
  end.

(** [substr(s, 1, n)] and [substr(s, 2, n)] of SQLite: a negative length counts
    the characters before the start. *)
Definition sql_substr1 (s : string) (n : Z) : string := if n <? 0 then "" else take_str (Z.to_nat n) s.
Definition sql_substr2 (s : string) (n : Z) : string :=
  if n <? 0 then take_str 1 s else take_str (Z.to_nat n) (drop_str 1 s).

(** [a >= b] and [a < b] under BINARY. *)
Definition in_range (lo hi path : string) : bool := string_le lo path && string_lt path hi.

Definition matches_prefix (pathPrefix : option string) (path : string) : bool :=
  match pathPrefix with
  | None => true
  | Some p =>
      let n := Z.of_nat (String.length p) in
      in_range p (sql_substr1 p (n - 1) +:+ "0") path ||
      in_range (drop_str 1 p) (sql_substr2 p (n - 2) +:+ "0") path
  end.

(** An enabled subscription of the org, for the drive or the whole org. *)
Definition in_scope (orgId driveId : string) (s : WebhookSubscription) : Prop :=
  s.(sub_orgId) = orgId /\ s.(sub_enabled) = true /\
  (s.(sub_driveId) = None \/ s.(sub_driveId) = Some driveId).
#[export] Instance in_scope_dec o d s : Decision (in_scope o d s).
Proof. unfold in_scope. apply _. Defined.

Definition wants_file_changed (s : WebhookSubscription) : bool :=
  match parseEventTypes s.(sub_eventTypes) with
  | Some types => bool_decide ("file.changed" ∈ types)
  | None => false
  end.

(** The subscriptions that get a delivery for [path]. *)
Definition file_subscribers (db : Db) (orgId driveId path : string) : list WebhookSubscription :=
  filter (fun s => wants_file_changed s = true)
    (filter (fun s => in_scope orgId driveId s /\ matches_prefix s.(sub_pathPrefix) path = true)
       db.(webhookSubscriptions)).

Definition operation_name (op : FileOperation) : string :=
  match op with
  | OpWrite => "write" | OpEdit => "edit" | OpAppend => "append" | OpDelete => "delete" | OpRevert => "revert"
  end.

Definition opt_str (o : option string) : json := match o with Some s => JStr s | None => JNull end.
Definition opt_num (o : option Z) : json := match o with Some n => JNum n | None => JNull end.

Record FileChange : Type := {
  fc_path : string;
  fc_version : Z;
  fc_operation : FileOperation;
  fc_size : option Z;
  fc_etag : option string;
  fc_at : Z
}.

Definition file_payload (ctx : OpContext) (user : option User) (eventId : string) (input : FileChange) : json :=
  let path := normalizePath input.(fc_path) in
  JObj [("type", JStr "file.changed"); ("timestamp", JDate input.(fc_at));
        ("data", JObj ([("eventId", JStr eventId); ("orgId", JStr ctx.(op_orgId));
            ("driveId", JStr ctx.(op_driveId)); ("path", JStr path)] ++
          match truthy ctx.(op_appUrl) with
          | Some url => [("url", JStr (buildAppUrl url ctx.(op_orgId) ctx.(op_driveId) path))]
          | None => []
          end ++
          [("version", JNum input.(fc_version)); ("operation", JStr (operation_name input.(fc_operation)));
           ("author", JObj [("id", JStr ctx.(op_userId)); ("email", opt_str (usr_email <$> user));
                            ("displayName", opt_str (user ≫= usr_displayName))]);
           ("size", opt_num input.(fc_size)); ("etag", opt_str input.(fc_etag))]))].

Definition insert_delivery (r : WebhookDelivery) : DbM unit :=
  insert (fun db => first_taken
      [(exists_row (fun d => d.(del_id) = r.(del_id)) db.(webhookDeliveries), "webhook_deliveries.id");
       (exists_row (fun d => d.(del_subscriptionId) = r.(del_subscriptionId) /\ d.(del_eventId) = r.(del_eventId))
          db.(webhookDeliveries), "webhook_deliveries.subscription_id, webhook_deliveries.event_id")])
    (fun db => exists_row (fun s => s.(sub_id) = r.(del_subscriptionId)) db.(webhookSubscriptions))
    (fun db => db <| webhookDeliveries ::= fun t => t ++ [r] |>).

Definition pending_delivery (id subscriptionId eventId eventType : string) (payload : json) (at_ : Z)
    : WebhookDelivery :=
  Build_WebhookDelivery id subscriptionId eventId eventType payload DsPending 0 at_ None None None None None at_.

(** [uuids i] is the [i]-th random id drawn; [eventId] is drawn first. *)
Definition enqueueFileWebhooks (eventId : string) (uuids : nat -> string) (ctx : OpContext) (input : FileChange)
    : DbM nat :=
  subs ← gets (fun db => file_subscribers db ctx.(op_orgId) ctx.(op_driveId) input.(fc_path));
  if bool_decide (subs = []) then mret 0%nat
  else
    user ← gets (fun db => get_row (fun u => u.(usr_id) = ctx.(op_userId)) db.(users));
    let payload := file_payload ctx user eventId input in
    _ ← for_each (imap (fun i s => (i, s)) subs) (fun e =>
          insert_delivery (pending_delivery (uuids e.1) e.2.(sub_id) eventId "file.changed" payload input.(fc_at)));
    mret (length subs).

(** ** Lemmas *)

Lemma nat_of_ascii_inj c d : Ascii.nat_of_ascii c = Ascii.nat_of_ascii d -> c = d.
Proof. intros H. by rewrite <- (Ascii.ascii_nat_embedding c), H, Ascii.ascii_nat_embedding. Qed.

Lemma string_lt_cons c a d b :
  string_lt (String c a) (String d b) =
  Nat.ltb (Ascii.nat_of_ascii c) (Ascii.nat_of_ascii d) || (bool_decide (c = d) && string_lt a b).
Proof.
  unfold string_lt. cbn [string_le]. destruct (Nat.ltb_spec (Ascii.nat_of_ascii c) (Ascii.nat_of_ascii d)).
  - cbn [orb andb]. rewrite bool_decide_false; [done|]. intros [= -> _]. lia.
  - cbn [orb]. case_bool_decide as Hc; [|done]. subst d. cbn [andb]. f_equal.
    destruct (decide (a = b)) as [->|Hn]; [by rewrite !bool_decide_true|].
    rewrite !bool_decide_false; congruence.
Qed.

Lemma string_le_cons c a d b :
  string_le (String c a) (String d b) =
  Nat.ltb (Ascii.nat_of_ascii c) (Ascii.nat_of_ascii d) || (bool_decide (c = d) && string_le a b).
Proof. cbn [string_le]. destruct (Nat.ltb _ _); [done|]. by case_bool_decide. Qed.

Lemma starts_with_cons c p d s :
  starts_with (String c p) (String d s) = bool_decide (c = d) && starts_with p s.
Proof.
  unfold starts_with. cbn. destruct (ascii_dec c d) as [->|Hn].
  - by rewrite bool_decide_true.
  - by rewrite bool_decide_false.
Qed.

Lemma starts_with_nil s : starts_with "" s = true.
Proof. by destruct s. Qed.

(** "0" is the byte after "/": the range holds the strings that start with [a/]. *)
Lemma range_is_prefix a path : in_range (a +:+ "/") (a +:+ "0") path = starts_with (a +:+ "/") path.
Proof.
  unfold in_range. revert path. induction a as [|c a IH]; intros path.
  - cbn [String.append]. destruct path as [|d r]; [done|].
    rewrite string_le_cons, string_lt_cons, starts_with_cons, starts_with_nil.
    replace (string_lt r "") with false by (unfold string_lt; destruct r; [done|]; by cbn).
    replace (string_le "" r) with true by done. rewrite !andb_true_r, !andb_false_r, orb_false_r.
    change (Ascii.nat_of_ascii "/") with 47%nat. change (Ascii.nat_of_ascii "0") with 48%nat.
    replace (bool_decide ("/"%char = d)) with (Nat.eqb 47 (Ascii.nat_of_ascii d)).
    + destruct (Nat.ltb_spec 47 (Ascii.nat_of_ascii d)), (Nat.ltb_spec (Ascii.nat_of_ascii d) 48),
        (Nat.eqb_spec 47 (Ascii.nat_of_ascii d)); try done; lia.
    + case_bool_decide as Hd; [by subst|]. apply Nat.eqb_neq. intros Hn. apply Hd.
      by apply nat_of_ascii_inj.
  - cbn [String.append]. destruct path as [|d r]; [done|].
    rewrite string_le_cons, string_lt_cons, starts_with_cons, <- IH.
    destruct (decide (c = d)) as [->|Hn].
    + rewrite !bool_decide_true, Nat.ltb_irrefl by done. done.
    + rewrite !(bool_decide_false (_ = _)) by congruence. cbn [andb]. rewrite !orb_false_r.
      destruct (Nat.ltb_spec (Ascii.nat_of_ascii c) (Ascii.nat_of_ascii d)),
        (Nat.ltb_spec (Ascii.nat_of_ascii d) (Ascii.nat_of_ascii c)); try done. lia.
Qed.

Lemma insert_delivery_ok r db a db' :
  insert_delivery r db = (Ok a, db') -> db' = db <| webhookDeliveries ::= fun t => t ++ [r] |>.
Proof. unfold insert_delivery. by intros (_ & _ & ->)%insert_ok. Qed.

(** The rows a run of inserts appends. *)
Lemma insert_deliveries_ok {A} (f : A -> WebhookDelivery) l db a db' :
  for_each l (fun x => insert_delivery (f x)) db = (Ok a, db') ->
  db' = db <| webhookDeliveries ::= fun t => t ++ (f <$> l) |>.
Proof.
  revert db. induction l as [|x l IH]; intros db; cbn; intros Hr; inv_ok.
  - unfold update. cbn. rewrite app_nil_r. by destruct db.
  - match goal with Hi : insert_delivery _ _ = _ |- _ => apply insert_delivery_ok in Hi as -> end.
    apply IH in Hr as ->. unfold update. cbn. by rewrite <- app_assoc.
Qed.

(** A row both of whose keys are free, for an existing subscription. *)
Definition storable (db : Db) (r : WebhookDelivery) : Prop :=
  (forall d, d ∈ db.(webhookDeliveries) -> d.(del_id) <> r.(del_id)) /\
  (forall d, d ∈ db.(webhookDeliveries) -> d.(del_subscriptionId) = r.(del_subscriptionId) ->
     d.(del_eventId) <> r.(del_eventId)) /\
  exists s, s ∈ db.(webhookSubscriptions) /\ s.(sub_id) = r.(del_subscriptionId).

Lemma insert_delivery_run r db :
  storable db r -> insert_delivery r db = (Ok tt, db <| webhookDeliveries ::= fun t => t ++ [r] |>).
Proof.
  intros (Hid & Hpair & Hsub). apply insert_ok. split_and!; [|by apply exists_row_true|done].
  apply first_taken_none. split; [apply exists_row_false; exact Hid|].
  apply first_taken_none. split; [|done]. apply exists_row_false. intros d Hd [H1 H2]. by apply (Hpair d).
Qed.

(** A run of storable rows with distinct ids and subscriptions is stored. *)
Lemma insert_deliveries_run {A} (f : A -> WebhookDelivery) l db :
  Forall (fun x => storable db (f x)) l ->
  NoDup ((fun x => (f x).(del_id)) <$> l) -> NoDup ((fun x => (f x).(del_subscriptionId)) <$> l) ->
  exists db', for_each l (fun x => insert_delivery (f x)) db = (Ok tt, db').
Proof.
  revert db. induction l as [|x l IH]; intros db Hs Hid Hsub; [by eexists|]. cbn [for_each].
  apply Forall_cons in Hs as [Hx Hl]. cbn in Hid, Hsub.
  apply NoDup_cons in Hid as [Hidx Hid]. apply NoDup_cons in Hsub as [Hsubx Hsub].
  unfold mbind, M_bind. rewrite insert_delivery_run by done. apply IH; [|done..].
  apply Forall_forall. intros y Hy. rewrite Forall_forall in Hl. destruct (Hl y Hy) as (H1 & H2 & H3).
  split_and!; [| |exact H3]; cbn; intros d [Hd| ->%list_elem_of_singleton]%elem_of_app; auto.
  - intros Heq. apply Hidx. rewrite Heq. by apply (list_elem_of_fmap_2 (fun x => (f x).(del_id))).
  - intros Heq. exfalso. apply Hsubx. rewrite Heq. by apply (list_elem_of_fmap_2 (fun x => (f x).(del_subscriptionId))).
Qed.

(** Fresh random ids, and a subscription table with unique ids: every matching
    subscription gets its delivery. *)
Lemma enqueueFileWebhooks_run ev uuids ctx input db :
  Inj eq eq uuids ->
  (forall i d, d ∈ db.(webhookDeliveries) -> d.(del_id) <> uuids i) ->
  (forall d, d ∈ db.(webhookDeliveries) -> d.(del_eventId) <> ev) ->
  NoDup (sub_id <$> db.(webhookSubscriptions)) ->
  exists db', enqueueFileWebhooks ev uuids ctx input db =
    (Ok (length (file_subscribers db ctx.(op_orgId) ctx.(op_driveId) input.(fc_path))), db').
Proof.
  intros Hinj Hid Hev Hnd. unfold enqueueFileWebhooks, gets, mbind, M_bind. cbn.
  set (subs := file_subscribers db _ _ _).
  assert (Hin : forall s, s ∈ subs -> s ∈ db.(webhookSubscriptions)).
  { intros s [_ [_ H]%list_elem_of_filter]%list_elem_of_filter. exact H. }
  case_bool_decide as Hs; [rewrite Hs; by eexists|].
  match goal with |- context [for_each ?l ?g db] => destruct (insert_deliveries_run
    (fun e : nat * WebhookSubscription => pending_delivery (uuids e.1) e.2.(sub_id) ev "file.changed"
       (file_payload ctx (get_row (fun u => usr_id u = op_userId ctx) (users db)) ev input) input.(fc_at)) l db)
    as [db' Hrun] end.
  - apply Forall_forall. intros [i s] Hi. apply elem_of_lookup_imap in Hi as (j & s' & [= -> ->] & Hj).
    split_and!; [intros d Hd; cbn; auto|intros d Hd _; cbn; auto|].
    exists s'. split; [|done]. apply Hin. by eapply list_elem_of_lookup_2.
  - rewrite fmap_imap. cbn. apply NoDup_alt. intros i j x.
    rewrite !list_lookup_imap. destruct (subs !! i), (subs !! j); cbn; try done.
    intros [= <-] [= He]. by apply Hinj in He.
  - rewrite fmap_imap.
    replace (imap _ subs) with (sub_id <$> subs) by (rewrite <- imap_const; by apply imap_ext).
    apply (sublist_NoDup _ _ Hnd), sublist_fmap_mono.
    subst subs. unfold file_subscribers. etrans; apply filter_sublist.
  - rewrite Hrun. by eexists.
Qed.

Lemma enqueueFileWebhooks_ok ev uuids ctx input db n db' :
  enqueueFileWebhooks ev uuids ctx input db = (Ok n, db') ->
  let subs := file_subscribers db ctx.(op_orgId) ctx.(op_driveId) input.(fc_path) in
  let user := get_row (fun u => u.(usr_id) = ctx.(op_userId)) db.(users) in
  n = length subs /\
  db' = db <| webhookDeliveries ::= fun t => t ++ ((fun e : nat * WebhookSubscription =>
          pending_delivery (uuids e.1) e.2.(sub_id) ev "file.changed" (file_payload ctx user ev input) input.(fc_at))
          <$> imap (fun i s => (i, s)) subs) |>.
Proof.
  unfold enqueueFileWebhooks. cbn. intros Hr. inv_ok.
  case_bool_decide as Hs.
  - inv_ok. rewrite Hs. split; [done|]. unfold update. cbn. rewrite app_nil_r. by destruct db.
  - inv_ok. split; [done|].
    match goal with Hf : for_each _ _ _ = _ |- _ =>
      by apply (insert_deliveries_ok (fun e : nat * WebhookSubscription => pending_delivery (uuids e.1)
        e.2.(sub_id) ev "file.changed" _ _)) in Hf end.
Qed.

(** ** Properties *)

(** A path prefix selects exactly the paths under it.  For a stored prefix
    [/dir/] the SQL range comparison accepts a path exactly when the path
    starts with [/dir/], or with [dir/] when it was stored without its slash. *)
Theorem matches_prefix_exact dir path :
  matches_prefix (Some ("/" +:+ dir +:+ "/")) path =
  starts_with ("/" +:+ dir +:+ "/") path || starts_with (dir +:+ "/") path.
Proof.
  unfold matches_prefix. set (p := "/" +:+ dir +:+ "/").
  assert (Hlen : String.length p = (String.length dir + 2)%nat).
  { subst p. rewrite !length_app_str. cbn. lia. }
  assert (H1 : sql_substr1 p (Z.of_nat (String.length p) - 1) = "/" +:+ dir).
  { unfold sql_substr1. rewrite Hlen. destruct (Z.ltb_spec (Z.of_nat (String.length dir + 2) - 1) 0); [lia|].
    replace (Z.to_nat (Z.of_nat (String.length dir + 2) - 1)) with (String.length ("/" +:+ dir)) by (cbn; lia).
    subst p. rewrite <- app_assoc_str. apply take_str_app. }
  assert (H2 : sql_substr2 p (Z.of_nat (String.length p) - 2) = dir).
  { unfold sql_substr2. rewrite Hlen. destruct (Z.ltb_spec (Z.of_nat (String.length dir + 2) - 2) 0); [lia|].
    replace (Z.to_nat (Z.of_nat (String.length dir + 2) - 2)) with (String.length dir) by lia.
    apply take_str_app. }
  cbv zeta. rewrite H1, H2. change (drop_str 1 p) with (dir +:+ "/").
  rewrite range_is_prefix. subst p. rewrite <- app_assoc_str. by rewrite range_is_prefix.
Qed.
