(* ===== verification/Worker.v ===== *)
(** * Webhook delivery: core/src/webhooks/worker.ts, subscriptions.ts

    The worker claims due deliveries under a lease, sends them, and records each
    result in a transaction fenced on the lease the claim set.  The network and
    the decryption are the environment: [recordResult] is given what the send
    returned, the clock and the random draw.  [worker_step] is the system: any
    number of ticks, of this process or of one started after a crash, results
    that come back in any order or never, disables, redeliveries and the pruning
    of old rows.  It assumes a clock that does not run backwards, and that two
    claims are not made in the same millisecond. *)

From S2P Require Import Prelude JsString Errors Schema Storage GlobCache World Outbox.

Record SendWebhookResult : Type := {
  sr_ok : bool;
  sr_statusCode : option Z;
  sr_error : option string
}.

Record ClaimedDelivery : Type := {
  cl_id : string;
  cl_subscriptionId : string;
  cl_eventId : string;
  cl_payload : json;
  cl_attempts : Z;
  cl_leaseUntil : Z
}.

Inductive Outcome : Type := Delivered | Retrying | Failed | Released | Deferred.
#[export] Instance Outcome_eq_dec : EqDecision Outcome.
Proof. solve_decision. Defined.

Definition DEFAULT_WEBHOOK_BATCH : nat := 10.
Definition SERVER_ERROR_RETRY_MS : Z := 60000.

(** [Math.round(delayMs * (0.8 + 0.4 * random()))], exactly: [random()] is
    [u / 2^53] with [0 <= u < 2^53]. *)
Definition RANDOM_ONE : Z := 9007199254740992.
Definition webhookRetryJitter (delayMs u : Z) : Z :=
  (2 * delayMs * (8 * RANDOM_ONE + 4 * u) + 10 * RANDOM_ONE) / (20 * RANDOM_ONE).

(** [raw]: the environment variable. *)
Definition autoDisableAfterMs (raw : option string) : Z :=
  match truthy (trim <$> raw) with
  | Some t => if all_digits t then digits_value 0 t else AUTO_DISABLE_AFTER_MS
  | None => AUTO_DISABLE_AFTER_MS
  end.

(** ** Claiming *)

Definition is_due (db : Db) (now : Z) (d : WebhookDelivery) : Prop :=
  d.(del_status) = DsPending /\ d.(del_nextAttemptAt) <= now /\
  match d.(del_leaseUntil) with None => True | Some l => l < now end /\
  exists_row (fun s => s.(sub_id) = d.(del_subscriptionId) /\ s.(sub_enabled) = true) db.(webhookSubscriptions) = true.
#[export] Instance is_due_dec db now d : Decision (is_due db now d).
Proof. unfold is_due. destruct (del_leaseUntil d); apply _. Defined.

(** The subquery: the ids of the first [batch] due rows. *)
Definition due_ids (db : Db) (now : Z) (batch : nat) : list string :=
  del_id <$> take batch (sort_by (fun a b => a.(del_nextAttemptAt) <=? b.(del_nextAttemptAt))
                           (filter (is_due db now) db.(webhookDeliveries))).

Definition lease_row (now : Z) (d : WebhookDelivery) : WebhookDelivery :=
  d <| del_leaseUntil := Some (now + LEASE_MS) |> <| del_attempts ::= Z.succ |> <| del_lastAttemptAt := Some now |>.

Definition claim_of (leaseUntil : Z) (d : WebhookDelivery) : ClaimedDelivery :=
  Build_ClaimedDelivery d.(del_id) d.(del_subscriptionId) d.(del_eventId) d.(del_payload) d.(del_attempts) leaseUntil.

Definition claimDueDeliveries (now : Z) (batch : nat) : DbM (list ClaimedDelivery) :=
  ids ← gets (fun db => due_ids db now batch);
  _ ← modify (fun db => db <| webhookDeliveries ::= update_where (fun d => d.(del_id) ∈ ids) (lease_row now) |>);
  rows ← gets (fun db => filter (fun d => d.(del_id) ∈ ids) db.(webhookDeliveries));
  mret (claim_of (now + LEASE_MS) <$> rows).

(** ** subscriptions.ts *)

Definition of_subscription (id : string) (d : WebhookDelivery) : Prop :=
  d.(del_subscriptionId) = id /\ d.(del_status) = DsPending.
#[export] Instance of_subscription_dec id d : Decision (of_subscription id d).
Proof. unfold of_subscription. apply _. Defined.

Definition update_subscription (id : string) (f : WebhookSubscription -> WebhookSubscription) (db : Db) : Db :=
  db <| webhookSubscriptions ::= update_where (fun s => s.(sub_id) = id) f |>.

Definition fail_disabled (d : WebhookDelivery) : WebhookDelivery :=
  d <| del_status := DsFailed |> <| del_lastError := Some "subscription disabled" |> <| del_leaseUntil := None |>.

Definition disableSubscription (id : string) (reason : DisabledReason) (now : Z) : DbM unit :=
  transaction (
    _ ← modify (update_subscription id (fun s => s <| sub_enabled := false |> <| sub_disabledReason := Some reason |>
                  <| sub_disabledAt := Some now |> <| sub_updatedAt := now |>));
    modify (fun db => db <| webhookDeliveries ::= update_where (of_subscription id) fail_disabled |>)).

(** ** Recording *)

(** [WHERE id = $id AND status = 'pending' AND lease_until = $lease]. *)
Definition fenced (c : ClaimedDelivery) (d : WebhookDelivery) : Prop :=
  d.(del_id) = c.(cl_id) /\ d.(del_status) = DsPending /\ d.(del_leaseUntil) = Some c.(cl_leaseUntil).
#[export] Instance fenced_dec c d : Decision (fenced c d).
Proof. unfold fenced. apply _. Defined.

(** A fenced UPDATE, with whether it changed a row. *)
Definition update_fenced (c : ClaimedDelivery) (f : WebhookDelivery -> WebhookDelivery) : DbM bool :=
  hit ← gets (fun db => exists_row (fenced c) db.(webhookDeliveries));
  _ ← modify (fun db => db <| webhookDeliveries ::= update_where (fenced c) f |>);
  mret hit.

Definition deferClaim (c : ClaimedDelivery) (error : string) (now : Z) : DbM (option Outcome) :=
  changed ← update_fenced c (fun d => d <| del_attempts ::= Z.pred |>
              <| del_nextAttemptAt := now + SERVER_ERROR_RETRY_MS |> <| del_leaseUntil := None |>
              <| del_lastError := Some error |>);
  mret (if changed : bool then Some Deferred else None).

Record RecordContext : Type := {
  rc_now : Z;
  rc_schedule : list Z;
  rc_random : Z;
  rc_autoDisableMs : Z;
  rc_stopped : bool
}.

Definition mark_delivered (now : Z) (code : option Z) (d : WebhookDelivery) : WebhookDelivery :=
  d <| del_status := DsDelivered |> <| del_deliveredAt := Some now |> <| del_lastStatusCode := code |>
    <| del_lastError := None |> <| del_leaseUntil := None |>.

Definition mark_gone (d : WebhookDelivery) : WebhookDelivery :=
  d <| del_status := DsFailed |> <| del_lastStatusCode := Some 410 |>
    <| del_lastError := Some "410 Gone: subscription disabled" |> <| del_leaseUntil := None |>.

Definition mark_retry (next : Z) (code : option Z) (error : option string) (d : WebhookDelivery) : WebhookDelivery :=
  d <| del_nextAttemptAt := next |> <| del_leaseUntil := None |> <| del_lastStatusCode := code |>
    <| del_lastError := error |>.

Definition mark_failed (code : option Z) (error : option string) (d : WebhookDelivery) : WebhookDelivery :=
  d <| del_status := DsFailed |> <| del_leaseUntil := None |> <| del_lastStatusCode := code |>
    <| del_lastError := error |>.

Definition count_failure (now : Z) (s : WebhookSubscription) : WebhookSubscription :=
  s <| sub_consecutiveFailures ::= Z.succ |> <| sub_failingSince := Some (s.(sub_failingSince) ?? now) |>
    <| sub_lastFailureAt := Some now |>.

(** The failure counted, and the subscription disabled when it has failed long enough. *)
Definition record_failure (ctx : RecordContext) (c : ClaimedDelivery) (outcome : Outcome) : DbM (option Outcome) :=
  let now := ctx.(rc_now) in
  _ ← modify (update_subscription c.(cl_subscriptionId) (count_failure now));
  sub ← gets (fun db => get_row (fun s => s.(sub_id) = c.(cl_subscriptionId)) db.(webhookSubscriptions));
  match sub with
  | Some s =>
      if s.(sub_enabled) && (ctx.(rc_autoDisableMs) <=? now - (s.(sub_failingSince) ?? now)) then
        _ ← disableSubscription c.(cl_subscriptionId) DrFailing now;
        mret (Some Failed)
      else mret (Some outcome)
  | None => mret (Some outcome)
  end.

Definition recordResult (ctx : RecordContext) (c : ClaimedDelivery) (result : SendWebhookResult)
    : DbM (option Outcome) :=
  let now := ctx.(rc_now) in
  let code := result.(sr_statusCode) in
  transaction (
    if result.(sr_ok) then
      changed ← update_fenced c (mark_delivered now code);
      if negb changed then mret None
      else
        _ ← modify (update_subscription c.(cl_subscriptionId) (fun s => s <| sub_consecutiveFailures := 0 |>
              <| sub_failingSince := None |> <| sub_lastSuccessAt := Some now |>));
        mret (Some Delivered)
    else if ctx.(rc_stopped) then
      changed ← update_fenced c (fun d => d <| del_leaseUntil := None |>);
      mret (if changed : bool then Some Released else None)
    else if bool_decide (code = Some 410) then
      changed ← update_fenced c mark_gone;
      if negb changed then mret None
      else
        _ ← modify (update_subscription c.(cl_subscriptionId) (fun s => s <| sub_lastFailureAt := Some now |>));
        _ ← disableSubscription c.(cl_subscriptionId) DrGone now;
        mret (Some Failed)
    else
      let retryIndex := Z.to_nat (c.(cl_attempts) - 1) in
      match ctx.(rc_schedule) !! retryIndex with
      | Some delay =>
          changed ← update_fenced c (mark_retry (now + webhookRetryJitter delay ctx.(rc_random)) code result.(sr_error));
          if negb changed then mret None else record_failure ctx c Retrying
      | None =>
          changed ← update_fenced c (mark_failed code result.(sr_error));
          if negb changed then mret None else record_failure ctx c Failed
      end).

(** ** Pruning *)

Definition prunable (cutoff : Z) (d : WebhookDelivery) : Prop :=
  (d.(del_status) = DsDelivered \/ d.(del_status) = DsFailed) /\ d.(del_createdAt) < cutoff.
#[export] Instance prunable_dec c d : Decision (prunable c d).
Proof. unfold prunable. apply _. Defined.

Definition pruneWebhookDeliveries (now : Z) : DbM nat :=
  let cutoff := now - DELIVERY_RETENTION_MS in
  n ← gets (fun db => length (filter (prunable cutoff) db.(webhookDeliveries)));
  _ ← modify (fun db => db <| webhookDeliveries ::= delete_where (prunable cutoff) |>);
  mret n.

(** The fenced write of [webhookRedeliver] (core/src/ops/webhook.ts), once the
    delivery and its enabled subscription are found. *)
Definition redeliverable (id : string) (now : Z) (d : WebhookDelivery) : Prop :=
  d.(del_id) = id /\ (d.(del_status) <> DsPending \/
    match d.(del_leaseUntil) with None => True | Some l => l <= now end).
#[export] Instance redeliverable_dec id now d : Decision (redeliverable id now d).
Proof. unfold redeliverable. destruct (del_leaseUntil d); apply _. Defined.

Definition redeliver_write (id : string) (now : Z) : DbM unit :=
  hit ← gets (fun db => exists_row (redeliverable id now) db.(webhookDeliveries));
  _ ← throw_if (negb hit)
        (EditConflictError ("Webhook delivery " +:+ id +:+ " is being sent right now") None
           (Some "Wait for the attempt to finish, then check webhook-deliveries"));
  modify (fun db => db <| webhookDeliveries ::= update_where (redeliverable id now) (fun d =>
    d <| del_status := DsPending |> <| del_nextAttemptAt := now |> <| del_leaseUntil := None |>) |>).

(** ** The system *)

Record WorkerState : Type := {
  wk_db : Db;
  wk_claims : list ClaimedDelivery;  (* claims whose result is not recorded *)
  wk_now : Z
}.

Inductive worker_step : WorkerState -> WorkerState -> Prop :=
| ws_claim s now batch cs db' :
    s.(wk_now) < now -> claimDueDeliveries now batch s.(wk_db) = (Ok cs, db') ->
    worker_step s {| wk_db := db'; wk_claims := s.(wk_claims) ++ cs; wk_now := now |}
| ws_record db l1 c l2 t ctx result :
    t <= ctx.(rc_now) ->
    worker_step {| wk_db := db; wk_claims := l1 ++ c :: l2; wk_now := t |}
      {| wk_db := (recordResult ctx c result db).2; wk_claims := l1 ++ l2; wk_now := ctx.(rc_now) |}
| ws_defer db l1 c l2 t error now :
    t <= now ->
    worker_step {| wk_db := db; wk_claims := l1 ++ c :: l2; wk_now := t |}
      {| wk_db := (deferClaim c error now db).2; wk_claims := l1 ++ l2; wk_now := now |}
| ws_lose db l1 c l2 t :  (* the process died, or the recording failed *)
    worker_step {| wk_db := db; wk_claims := l1 ++ c :: l2; wk_now := t |}
      {| wk_db := db; wk_claims := l1 ++ l2; wk_now := t |}
| ws_disable s id reason now :
    s.(wk_now) <= now ->
    worker_step s {| wk_db := (disableSubscription id reason now s.(wk_db)).2; wk_claims := s.(wk_claims); wk_now := now |}
| ws_redeliver s id now :
    s.(wk_now) <= now ->
    worker_step s {| wk_db := (redeliver_write id now s.(wk_db)).2; wk_claims := s.(wk_claims); wk_now := now |}
| ws_prune s now :
    s.(wk_now) <= now ->
    worker_step s {| wk_db := (pruneWebhookDeliveries now s.(wk_db)).2; wk_claims := s.(wk_claims); wk_now := now |}
| ws_enqueue s id sub ev type payload at_ now :
    s.(wk_now) <= now ->
    worker_step s {| wk_db := (insert_delivery (pending_delivery id sub ev type payload at_) s.(wk_db)).2;
                     wk_claims := s.(wk_claims); wk_now := now |}.

(** ** Lemmas *)

(** The leases of pending rows in [db'] are above [bound] or were there in [db]. *)
Definition leases_from (bound : Z) (db db' : Db) : Prop :=
  forall d' l, d' ∈ db'.(webhookDeliveries) -> d'.(del_status) = DsPending -> d'.(del_leaseUntil) = Some l ->
    bound < l \/ exists d, d ∈ db.(webhookDeliveries) /\ d.(del_id) = d'.(del_id) /\
                   d.(del_status) = DsPending /\ d.(del_leaseUntil) = Some l.

(** The rows keep distinct ids. *)
Definition delivery_ids (db : Db) : Prop := NoDup (del_id <$> db.(webhookDeliveries)).

Definition outbox_later (bound : Z) (db db' : Db) : Prop :=
  (delivery_ids db -> delivery_ids db') /\ leases_from bound db db'.

#[export] Instance outbox_later_preorder bound : PreOrder (outbox_later bound).
Proof.
  split.
  - intros db. split; [done|]. intros d l Hd Hs Hl. right. by exists d.
  - intros a b c [Hab1 Hab2] [Hbc1 Hbc2]. split; [tauto|]. intros d l Hd Hs Hl.
    destruct (Hbc2 d l Hd Hs Hl) as [?|(e & He & Hid & Hes & Hel)]; [by left|].
    destruct (Hab2 e l He Hes Hel) as [?|(f & Hf & Hfid & ?)]; [by left|]. right. exists f. by rewrite <- Hid.
Qed.

(** An update of rows that keeps the id and gives up the lease, or keeps it. *)
Lemma later_update bound (P : WebhookDelivery -> Prop) `{forall d, Decision (P d)} f db :
  (forall d, (f d).(del_id) = d.(del_id)) ->
  (forall d l, P d -> (f d).(del_status) = DsPending -> (f d).(del_leaseUntil) = Some l -> bound < l) ->
  outbox_later bound db (db <| webhookDeliveries ::= update_where P f |>).
Proof.
  intros Hid Hl. split.
  - unfold delivery_ids. cbn. by rewrite fmap_update_where.
  - intros d' l Hd' Hs Hlease. cbn in Hd'. apply elem_of_update_where in Hd' as (d & Hd & [[HP ->]|[_ ->]]).
    + left. by eapply Hl.
    + right. by exists d.
Qed.

Lemma later_subscriptions bound id f db : outbox_later bound db (update_subscription id f db).
Proof. split; [done|]. intros d l Hd Hs Hl. right. by exists d. Qed.

Lemma later_step bound (f : Db -> Db) db0 :
  (forall db, outbox_later bound db (f db)) -> preserves (E := error) (outbox_later bound db0) (modify f).
Proof. intros Hf. apply preserves_modify. intros db Hdb. etrans; [exact Hdb|apply Hf]. Qed.

Lemma update_fenced_later bound c f db0 :
  (forall d, (f d).(del_id) = d.(del_id)) -> (forall d, (f d).(del_leaseUntil) = None) ->
  preserves (outbox_later bound db0) (update_fenced c f).
Proof.
  intros Hid Hl. unfold update_fenced. apply preserves_bind; [apply preserves_gets|intros hit].
  apply preserves_bind; [|intros _; apply preserves_ret]. apply later_step. intros db.
  apply later_update; [exact Hid|]. intros d l _ _. by rewrite Hl.
Qed.

Lemma disable_later bound id reason now db0 :
  preserves (outbox_later bound db0) (disableSubscription id reason now).
Proof.
  unfold disableSubscription. apply preserves_transaction, preserves_bind.
  - apply later_step. intros db. apply later_subscriptions.
  - intros _. apply later_step. intros db. by apply later_update.
Qed.

Lemma record_failure_later bound ctx c o db0 : preserves (outbox_later bound db0) (record_failure ctx c o).
Proof.
  unfold record_failure. apply preserves_bind; [apply later_step; intros db; apply later_subscriptions|intros _].
  apply preserves_bind; [apply preserves_gets|]. intros [s|]; [|apply preserves_ret].
  destruct (_ && _); [|apply preserves_ret]. apply preserves_bind; [apply disable_later|intros _; apply preserves_ret].
Qed.

Lemma deferClaim_later bound c e now db0 : preserves (outbox_later bound db0) (deferClaim c e now).
Proof. unfold deferClaim. apply preserves_bind; [by apply update_fenced_later|intros b; apply preserves_ret]. Qed.

Lemma recordResult_later bound ctx c r db0 : preserves (outbox_later bound db0) (recordResult ctx c r).
Proof.
  unfold recordResult. apply preserves_transaction. destruct (sr_ok r).
  { apply preserves_bind; [by apply update_fenced_later|]. intros [|]; cbn [negb]; [|apply preserves_ret].
    apply preserves_bind; [apply later_step; intros db; apply later_subscriptions|intros _; apply preserves_ret]. }
  destruct (rc_stopped ctx).
  { apply preserves_bind; [by apply update_fenced_later|]. intros b. apply preserves_ret. }
  destruct (bool_decide _).
  { apply preserves_bind; [by apply update_fenced_later|]. intros [|]; cbn [negb]; [|apply preserves_ret].
    apply preserves_bind; [apply later_step; intros db; apply later_subscriptions|intros _].
    apply preserves_bind; [apply disable_later|intros _; apply preserves_ret]. }
  destruct (_ !! _); (apply preserves_bind; [by apply update_fenced_later|]);
    (intros [|]; cbn [negb]; [apply record_failure_later|apply preserves_ret]).
Qed.

(** What a claim does to the table, and what it returns. *)
Lemma claim_ok now batch db cs db' :
  claimDueDeliveries now batch db = (Ok cs, db') ->
  db' = db <| webhookDeliveries ::= update_where (fun d => d.(del_id) ∈ due_ids db now batch) (lease_row now) |> /\
  cs = claim_of (now + LEASE_MS) <$> filter (fun d => d.(del_id) ∈ due_ids db now batch) db'.(webhookDeliveries).
Proof. unfold claimDueDeliveries. intros Hr. inv_ok. done. Qed.

Lemma claim_later bound now batch db cs db' :
  claimDueDeliveries now batch db = (Ok cs, db') -> bound < now + LEASE_MS -> outbox_later bound db db'.
Proof.
  intros [-> _]%claim_ok Hb. apply later_update; [done|]. intros d l _ _. cbn. by intros [= <-].
Qed.

Lemma redeliver_later bound id now db0 : preserves (outbox_later bound db0) (redeliver_write id now).
Proof.
  unfold redeliver_write. apply preserves_bind; [apply preserves_gets|intros hit].
  apply preserves_bind; [apply preserves_throw_if|intros _]. apply later_step. intros db. by apply later_update.
Qed.

Lemma prune_later bound now db0 : preserves (outbox_later bound db0) (pruneWebhookDeliveries now).
Proof.
  unfold pruneWebhookDeliveries. apply preserves_bind; [apply preserves_gets|intros n].
  apply preserves_bind; [|intros _; apply preserves_ret]. apply later_step. intros db. split.
  - unfold delivery_ids. cbn. apply NoDup_delete_where.
  - intros d l [Hd _]%elem_of_delete_where Hs Hl. right. by exists d.
Qed.

Lemma enqueue_later bound id sub ev type payload at_ db0 :
  preserves (outbox_later bound db0) (insert_delivery (pending_delivery id sub ev type payload at_)).
Proof.
  unfold insert_delivery. apply preserves_insert. intros db Hdb Htaken _. etrans; [exact Hdb|].
  apply first_taken_none in Htaken as [Hid _]. rewrite exists_row_false in Hid. split.
  - unfold delivery_ids. cbn. intros Hnd. by apply NoDup_fmap_snoc.
  - intros d l Hd Hs Hl. cbn in Hd. apply elem_of_app in Hd as [Hd| ->%list_elem_of_singleton]; [|done].
    right. by exists d.
Qed.

(** ** Claims in flight *)

Definition claim_key (c : ClaimedDelivery) : string * Z := (c.(cl_id), c.(cl_leaseUntil)).

(** Ids are unique, no claim is leased beyond the clock, and no two claims in
    flight have the same delivery and lease. *)
Definition worker_inv (s : WorkerState) : Prop :=
  delivery_ids s.(wk_db) /\ NoDup (claim_key <$> s.(wk_claims)) /\
  forall c, c ∈ s.(wk_claims) -> c.(cl_leaseUntil) <= s.(wk_now) + LEASE_MS.

(** No row is under this claim's lease. *)
Definition stale (c : ClaimedDelivery) (db : Db) : Prop := forall d, d ∈ db.(webhookDeliveries) -> ~ fenced c d.

Lemma stale_later c bound db db' :
  outbox_later bound db db' -> c.(cl_leaseUntil) <= bound -> stale c db -> stale c db'.
Proof.
  intros [_ Hl] Hb Hs d' Hd' (Hid & Hp & Hlease). destruct (Hl d' _ Hd' Hp Hlease) as [?|(d & Hd & Hdid & Hdp & Hdl)]; [lia|].
  apply (Hs d Hd). split_and!; [congruence|done|done].
Qed.

(** Every step leaves the outbox later, for any bound up to the clock's lease. *)
Lemma worker_step_later s s' : worker_step s s' ->
  outbox_later (s.(wk_now) + LEASE_MS) s.(wk_db) s'.(wk_db) /\ s.(wk_now) <= s'.(wk_now).
Proof.
  intros Hstep. destruct Hstep as [s now batch cs db' Hnow Hc|db l1 c l2 t ctx r Hnow|db l1 c l2 t e now Hnow|db l1 c l2 t
    |s id reason now Hnow|s id now Hnow|s now Hnow|s id sub ev ty p at_ now Hnow]; cbn; (split; [|lia]).
  - apply (claim_later _ _ _ _ _ _ Hc). lia.
  - apply recordResult_later. reflexivity.
  - apply deferClaim_later. reflexivity.
  - reflexivity.
  - apply disable_later. reflexivity.
  - apply redeliver_later. reflexivity.
  - apply prune_later. reflexivity.
  - apply enqueue_later. reflexivity.
Qed.

Lemma claimed_keys now batch db cs db' :
  delivery_ids db -> claimDueDeliveries now batch db = (Ok cs, db') ->
  NoDup (claim_key <$> cs) /\ forall c, c ∈ cs -> c.(cl_leaseUntil) = now + LEASE_MS.
Proof.
  intros Hnd Hc. pose proof (claim_later (now + LEASE_MS - 1) _ _ _ _ _ Hc ltac:(lia)) as [Hnd' _].
  specialize (Hnd' Hnd). apply claim_ok in Hc as [_ ->]. split.
  - rewrite <- list_fmap_compose. apply (NoDup_fmap_refine del_id); [by intros a b _ _ [= ?]|].
    by apply NoDup_fmap_filter.
  - intros c (d & -> & _)%list_elem_of_fmap. done.
Qed.

Lemma drop_one_claim l1 (c : ClaimedDelivery) l2 :
  NoDup (claim_key <$> (l1 ++ c :: l2)) -> NoDup (claim_key <$> (l1 ++ l2)).
Proof.
  intros H. apply (sublist_NoDup _ _ H), sublist_fmap_mono. apply sublist_app; [done|by constructor].
Qed.

Lemma worker_step_inv s s' : worker_step s s' -> worker_inv s -> worker_inv s'.
Proof.
  intros Hstep (Hnd & Hk & Hb). pose proof (worker_step_later _ _ Hstep) as [[Hids _] Hnow].
  split; [by apply Hids|].
  destruct Hstep as [s now batch cs db' Hlt Hc|db l1 c l2 t ctx r _|db l1 c l2 t e now _|db l1 c l2 t
    |s id reason now _|s id now _|s now _|s id sub ev ty p at_ now _]; cbn in *;
    try (split; [exact Hk|]; intros c' Hc'; specialize (Hb c' Hc'); lia).
  - destruct (claimed_keys _ _ _ _ _ Hnd Hc) as [Hnk Hlk]. split.
    + rewrite fmap_app. apply NoDup_app. split_and!; [done| |done].
      intros k (c & -> & Hin)%list_elem_of_fmap (c' & Heq & Hin')%list_elem_of_fmap.
      injection Heq as _ Hl. specialize (Hb c Hin). rewrite (Hlk c' Hin') in Hl. lia.
    + intros c [Hin|Hin]%elem_of_app; [specialize (Hb c Hin); lia|]. rewrite (Hlk c Hin). lia.
  - apply drop_one_claim in Hk. split; [exact Hk|]. intros c' Hc'. specialize (Hb c' ltac:(set_solver)). lia.
  - apply drop_one_claim in Hk. split; [exact Hk|]. intros c' Hc'. specialize (Hb c' ltac:(set_solver)). lia.
  - apply drop_one_claim in Hk. split; [exact Hk|]. intros c' Hc'. specialize (Hb c' ltac:(set_solver)). lia.
Qed.

(** Two claims in flight of one delivery: one of them is stale. *)
Lemma one_is_stale s c1 c2 :
  worker_inv s -> c1 ∈ s.(wk_claims) -> c2 ∈ s.(wk_claims) -> c1 <> c2 -> c1.(cl_id) = c2.(cl_id) ->
  stale c1 s.(wk_db) \/ stale c2 s.(wk_db).
Proof.
  intros (Hnd & Hk & _) H1 H2 Hne Hid.
  destruct (exists_row (fenced c1) s.(wk_db).(webhookDeliveries)) eqn:E; [|left; exact (proj1 (exists_row_false _ _) E)].
  apply exists_row_true in E as (d1 & Hd1 & Hi1 & _ & Hl1). right. intros d2 Hd2 (Hi2 & _ & Hl2).
  assert (d1 = d2) as <- by (apply (NoDup_fmap_eq del_id _ d1 d2 Hnd Hd1 Hd2); congruence).
  apply Hne. apply (NoDup_fmap_eq claim_key _ c1 c2 Hk H1 H2). unfold claim_key. congruence.
Qed.

(** A stale claim changes nothing. *)
Lemma update_fenced_stale c f db : stale c db -> update_fenced c f db = (Ok false, db).
Proof.
  intros Hs. unfold update_fenced, gets, modify, mbind, M_bind, mret, M_ret.
  rewrite (proj2 (exists_row_false _ _) Hs). f_equal.
  change (db <| webhookDeliveries ::= update_where (fenced c) f |>) with
    (db <| webhookDeliveries := update_where (fenced c) f db.(webhookDeliveries) |>).
  rewrite update_where_none by exact Hs. by destruct db.
Qed.

Lemma recordResult_stale ctx c r db : stale c db -> recordResult ctx c r db = (Ok None, db).
Proof.
  intros Hs. unfold recordResult, transaction, mbind, M_bind.
  destruct (sr_ok r); [by rewrite update_fenced_stale|].
  destruct (rc_stopped ctx); [by rewrite update_fenced_stale|].
  destruct (bool_decide _); [by rewrite update_fenced_stale|].
  destruct (_ !! _); by rewrite update_fenced_stale.
Qed.

Lemma deferClaim_stale c e now db : stale c db -> deferClaim c e now db = (Ok None, db).
Proof. intros Hs. unfold deferClaim, mbind, M_bind. by rewrite update_fenced_stale. Qed.

(** ** Properties *)

(** C11: A delivery's attempt is recorded at most once.  In every reachable state,
    of two claims in flight of the same delivery (the second taken after the
    first one's lease ran out, the process crashed, or a redelivery), one is
    stale: from then on, whatever claims, results, disables, redeliveries and
    prunings happen, its result and its postponement change nothing at all. *)
Theorem stale_result_never_lands s0 s c1 c2 :
  delivery_ids s0.(wk_db) -> s0.(wk_claims) = [] -> rtc worker_step s0 s ->
  c1 ∈ s.(wk_claims) -> c2 ∈ s.(wk_claims) -> c1 <> c2 -> c1.(cl_id) = c2.(cl_id) ->
  exists c, (c = c1 \/ c = c2) /\ forall s', rtc worker_step s s' ->
    (forall ctx result, recordResult ctx c result s'.(wk_db) = (Ok None, s'.(wk_db))) /\
    (forall e now, deferClaim c e now s'.(wk_db) = (Ok None, s'.(wk_db))).
Proof.
  intros Hnd Hno Hreach H1 H2 Hne Hid.
  assert (Hinv : worker_inv s).
  { assert (H0 : worker_inv s0) by (split_and!; [done|rewrite Hno; constructor|rewrite Hno; set_solver]).
    clear - Hreach H0. induction Hreach; eauto using worker_step_inv. }
  assert (Hstale : exists c, (c = c1 \/ c = c2) /\ stale c s.(wk_db) /\ c.(cl_leaseUntil) <= s.(wk_now) + LEASE_MS).
  { destruct (one_is_stale s c1 c2 Hinv H1 H2 Hne Hid); [exists c1|exists c2]; (split; [tauto|]); split; try done;
      by apply Hinv. }
  destruct Hstale as (c & Hc & Hs & Hb). exists c. split; [exact Hc|]. intros s' Hsteps.
  assert (stale c s'.(wk_db)) as Hs'.
  { clear - Hs Hb Hsteps. induction Hsteps as [|s a s' Hstep _ IH]; [done|].
    pose proof (worker_step_later _ _ Hstep) as [Hl Hnow]. apply IH; [|lia]. by eapply stale_later. }
  split; intros; [by apply recordResult_stale|by apply deferClaim_stale].
Qed.

(** *** Witnesses: one subscription, one delivery, claimed twice *)

Definition sample_sub : WebhookSubscription :=
  Build_WebhookSubscription "s1" "o1" None "https://x.test" None (JArr [JStr "file.changed"]) None "c" true None None
    0 None None None "u1" 0 0.
Definition sample_outbox : Db := empty_db <| webhookSubscriptions := [sample_sub] |>
  <| webhookDeliveries := [pending_delivery "d1" "s1" "e1" "file.changed" JNull 0] |>.
Definition sample_claim (id : string) (attempts lease : Z) : ClaimedDelivery :=
  Build_ClaimedDelivery id "s1" "e1" JNull attempts lease.

(** The outbox after a claim at [t1], and after another at [t2]. *)
Definition claimed_at (t : Z) (db : Db) : Db := (claimDueDeliveries t DEFAULT_WEBHOOK_BATCH db).2.
Definition sample_idle : WorkerState := {| wk_db := sample_outbox; wk_claims := []; wk_now := 0 |}.
Definition sample_claimed : WorkerState :=
  {| wk_db := claimed_at 1000 sample_outbox; wk_claims := [sample_claim "d1" 1 61000]; wk_now := 1000 |}.
Definition sample_reclaimed : WorkerState :=
  {| wk_db := claimed_at 70000 (claimed_at 1000 sample_outbox);
     wk_claims := [sample_claim "d1" 1 61000; sample_claim "d1" 2 130000]; wk_now := 70000 |}.

Lemma sample_reclaimed_reachable : rtc worker_step sample_idle sample_reclaimed.
Proof.
  apply (rtc_l _ _ sample_claimed).
  - apply (ws_claim sample_idle 1000 10 [sample_claim "d1" 1 61000]); [done|vm_compute; reflexivity].
  - apply rtc_once. apply (ws_claim sample_claimed 70000 10 [sample_claim "d1" 2 130000]); [done|vm_compute; reflexivity].
Qed.

Lemma stale_result_never_lands_witness :
  exists c, (c = sample_claim "d1" 1 61000 \/ c = sample_claim "d1" 2 130000) /\
    (forall s', rtc worker_step sample_reclaimed s' ->
      (forall ctx result, recordResult ctx c result s'.(wk_db) = (Ok None, s'.(wk_db))) /\
      (forall e now, deferClaim c e now s'.(wk_db) = (Ok None, s'.(wk_db)))).
Proof.
  apply (stale_result_never_lands sample_idle sample_reclaimed).
  - apply NoDup_singleton.
  - reflexivity.
  - apply sample_reclaimed_reachable.
  - left.
  - right. left.
  - discriminate.
  - reflexivity.
Defined.

Lemma jitter_bounds delay u :
  0 <= delay -> 0 <= u < RANDOM_ONE -> 8 * delay - 5 <= 10 * webhookRetryJitter delay u <= 12 * delay + 5.
Proof.
  intros Hd Hu. unfold webhookRetryJitter.
  set (num := 2 * delay * (8 * RANDOM_ONE + 4 * u) + 10 * RANDOM_ONE).
  pose proof (Z.div_mod num (20 * RANDOM_ONE) ltac:(unfold RANDOM_ONE; lia)) as Hdm.
  pose proof (Z.mod_pos_bound num (20 * RANDOM_ONE) ltac:(unfold RANDOM_ONE; lia)) as Hm.
  assert (16 * delay * RANDOM_ONE + 10 * RANDOM_ONE <= num <= 24 * delay * RANDOM_ONE + 10 * RANDOM_ONE)
    by (subst num; unfold RANDOM_ONE in *; nia).
  set (q := num / (20 * RANDOM_ONE)) in *. unfold RANDOM_ONE in *. nia.
Qed.

(** The row a claim holds, after a fenced update. *)
Lemma update_fenced_hit c f db d :
  d ∈ db.(webhookDeliveries) -> fenced c d ->
  update_fenced c f db = (Ok true, db <| webhookDeliveries ::= update_where (fenced c) f |>).
Proof.
  intros Hd Hf. unfold update_fenced, gets, modify, mbind, M_bind, mret, M_ret.
  assert (exists_row (fenced c) db.(webhookDeliveries) = true) as -> by (apply exists_row_true; eauto). done.
Qed.

(** A failed attempt is retried on schedule.  When the attempt of a held
    claim fails (not with 410, not by a stop) and the schedule has a delay for
    it, the delivery stays pending without a lease, its next attempt lies within
    20% of that delay (to the nearest millisecond), the failure is counted on its
    subscription, and, unless the subscription has been failing for the
    auto-disable window, the row is due again at that time. *)
Theorem failed_attempt_rescheduled ctx c result db d sub delay :
  delivery_ids db -> NoDup (sub_id <$> db.(webhookSubscriptions)) ->
  d ∈ db.(webhookDeliveries) -> fenced c d -> d.(del_subscriptionId) = c.(cl_subscriptionId) ->
  sub ∈ db.(webhookSubscriptions) -> sub.(sub_id) = c.(cl_subscriptionId) -> sub.(sub_enabled) = true ->
  result.(sr_ok) = false -> ctx.(rc_stopped) = false -> result.(sr_statusCode) <> Some 410 ->
  ctx.(rc_schedule) !! Z.to_nat (c.(cl_attempts) - 1) = Some delay -> 0 <= delay -> 0 <= ctx.(rc_random) < RANDOM_ONE ->
  ctx.(rc_now) - (sub.(sub_failingSince) ?? ctx.(rc_now)) < ctx.(rc_autoDisableMs) ->
  exists db' d' sub', recordResult ctx c result db = (Ok (Some Retrying), db') /\
    d' ∈ db'.(webhookDeliveries) /\ d'.(del_id) = c.(cl_id) /\ d'.(del_status) = DsPending /\
    d'.(del_leaseUntil) = None /\ d'.(del_attempts) = d.(del_attempts) /\
    8 * delay - 5 <= 10 * (d'.(del_nextAttemptAt) - ctx.(rc_now)) <= 12 * delay + 5 /\
    sub' ∈ db'.(webhookSubscriptions) /\ sub'.(sub_id) = sub.(sub_id) /\ sub'.(sub_enabled) = true /\
    sub'.(sub_consecutiveFailures) = sub.(sub_consecutiveFailures) + 1 /\ is_due db' d'.(del_nextAttemptAt) d'.
Proof.
  intros Hids Hsubs Hd Hf Hds Hsub Hsid Hen Hok Hstop Hcode Hsched Hdelay Hrand Hwin.
  set (now := ctx.(rc_now)) in *. set (next := now + webhookRetryJitter delay ctx.(rc_random)).
  set (f := mark_retry next result.(sr_statusCode) result.(sr_error)).
  set (db1 := db <| webhookDeliveries ::= update_where (fenced c) f |>).
  set (db2 := update_subscription c.(cl_subscriptionId) (count_failure now) db1).
  assert (Hget : get_row (fun s => s.(sub_id) = c.(cl_subscriptionId)) db2.(webhookSubscriptions)
                 = Some (count_failure now sub)).
  { change db2.(webhookSubscriptions) with
      (update_where (fun s => s.(sub_id) = c.(cl_subscriptionId)) (count_failure now) db.(webhookSubscriptions)).
    rewrite get_row_update_same by done.
    rewrite (get_row_unique sub_id _ _ sub Hsubs Hsub Hsid); [done|]. intros s Hs. congruence. }
  assert (Hsub' : count_failure now sub ∈ db2.(webhookSubscriptions)).
  { apply elem_of_update_where. exists sub. split; [done|]. by left. }
  exists db2, (f d), (count_failure now sub). split_and!; try done.
  - unfold recordResult. rewrite Hok, Hstop, bool_decide_false by exact Hcode. rewrite Hsched. apply transaction_ok.
    apply bind_ok. exists true, db1. split; [by eapply update_fenced_hit|]. cbn [negb].
    unfold record_failure. apply bind_ok. exists tt, db2. split; [reflexivity|]. apply bind_ok. eexists _, db2. split; [reflexivity|].
    rewrite Hget. assert (Hleb : ctx.(rc_autoDisableMs) <=? now - (sub_failingSince (count_failure now sub) ?? now) = false)
      by (apply Z.leb_gt; exact Hwin).
    cbv zeta. fold now. by rewrite Hleb, andb_false_r.
  - apply elem_of_update_where. exists d. split; [done|]. by left.
  - exact (proj1 Hf).
  - exact (proj1 (proj2 Hf)).
  - subst f. cbn. replace (next - now) with (webhookRetryJitter delay ctx.(rc_random)) by lia. by apply jitter_bounds.
  - subst f. cbn. replace (next - now) with (webhookRetryJitter delay ctx.(rc_random)) by lia. by apply jitter_bounds.
  - split_and!; [exact (proj1 (proj2 Hf))|done|done|]. apply exists_row_true.
    exists (count_failure now sub). split; [done|]. cbn. split; [congruence|done].
Qed.

Definition sample_record : RecordContext :=
  {| rc_now := 2000; rc_schedule := RETRY_SCHEDULE_MS; rc_random := 0; rc_autoDisableMs := AUTO_DISABLE_AFTER_MS;
     rc_stopped := false |}.
Definition sample_leased : WebhookDelivery := lease_row 1000 (pending_delivery "d1" "s1" "e1" "file.changed" JNull 0).
Definition sample_failure : SendWebhookResult :=
  {| sr_ok := false; sr_statusCode := Some 500; sr_error := Some "HTTP 500" |}.

Lemma failed_attempt_rescheduled_witness :
  exists db' d' sub', recordResult sample_record (sample_claim "d1" 1 61000) sample_failure (claimed_at 1000 sample_outbox)
      = (Ok (Some Retrying), db') /\
    d' ∈ db'.(webhookDeliveries) /\ d'.(del_id) = "d1" /\ d'.(del_status) = DsPending /\
    d'.(del_leaseUntil) = None /\ d'.(del_attempts) = 1 /\
    8 * 5000 - 5 <= 10 * (d'.(del_nextAttemptAt) - 2000) <= 12 * 5000 + 5 /\
    sub' ∈ db'.(webhookSubscriptions) /\ sub'.(sub_id) = "s1" /\ sub'.(sub_enabled) = true /\
    sub'.(sub_consecutiveFailures) = 0 + 1 /\ is_due db' d'.(del_nextAttemptAt) d'.
Proof.
  apply (failed_attempt_rescheduled sample_record (sample_claim "d1" 1 61000) sample_failure
           (claimed_at 1000 sample_outbox) sample_leased sample_sub 5000).
  - apply NoDup_singleton.
  - apply NoDup_singleton.
  - left.
  - by vm_compute.
  - reflexivity.
  - left.
  - reflexivity.
  - reflexivity.
  - reflexivity.
  - reflexivity.
  - discriminate.
  - reflexivity.
  - done.
  - done.
  - vm_compute. reflexivity.
Defined.
