(* ===== verification/Search.v ===== *)
(** * The search index: core/src/search/fts.ts, pipeline.ts, core/src/ops/search-index.ts

    The full-text documents, the embedding chunks and the status columns of a
    file, and the ops' entry points to them.  The asynchronous entry points are
    cut where they wait: the part before reads the file's current version, the
    part after ([_after]) checks it again before it writes.  The theorem: a job
    whose version has been superseded changes nothing, and one that is current
    replaces the file's text chunks, each with its vector, and nothing else's. *)

From S2P Require Import Prelude JsString Errors Text Schema Storage GlobCache World.

(** The configuration the ops read. *)
Class Config : Type := {
  getEmbeddingExcludeDrives : list string;
  getEmbeddingMaxBytes : option Z;
  getMaxUploadBytes : Z
}.

(** ** fts.ts: documents by (drive, path) *)

Definition is_doc (driveId path : string) (d : string * string * string) : Prop := d.1 = (driveId, path).
#[export] Instance is_doc_dec d p x : Decision (is_doc d p x).
Proof. unfold is_doc. apply _. Defined.

Definition removeFromIndex (path driveId : string) (db : Db) : Db :=
  db <| fts_docs ::= delete_where (is_doc driveId path) |>.

Definition indexFile (path driveId content : string) (db : Db) : Db :=
  removeFromIndex path driveId db <| fts_docs ::= fun t => t ++ [(driveId, path, content)] |>.

Definition indexedContent (db : Db) (path driveId : string) : option string :=
  snd <$> get_row (is_doc driveId path) db.(fts_docs).

(** ** pipeline.ts *)

Inductive ChunkDeleteScope : Type := ScopeText | ScopeImage | ScopeAll.

Definition in_kind (scope : ChunkDeleteScope) (k : ChunkKind) : bool :=
  match scope, k with
  | ScopeAll, _ | ScopeText, TextChunk | ScopeImage, ImageChunk => true
  | _, _ => false
  end.

Definition chunk_of (path driveId : string) (scope : ChunkDeleteScope) (c : ContentChunk) : Prop :=
  c.(chunk_filePath) = path /\ c.(chunk_driveId) = driveId /\ in_kind scope c.(chunk_kind) = true.
#[export] Instance chunk_of_dec p d s c : Decision (chunk_of p d s c).
Proof. unfold chunk_of. apply _. Defined.

Definition deleteChunks (path driveId : string) (kind : ChunkDeleteScope) (db : Db) : Db :=
  let oldChunks := chunk_id <$> filter (chunk_of path driveId kind) db.(contentChunks) in
  db <| chunk_vectors ::= filter (fun id => id ∉ oldChunks) |>
     <| contentChunks ::= delete_where (chunk_of path driveId kind) |>.

Definition is_file (path driveId : string) (f : File) : Prop :=
  f.(file_path) = path /\ f.(file_driveId) = driveId.
#[export] Instance is_file_dec p d f : Decision (is_file p d f).
Proof. unfold is_file. apply _. Defined.

Definition get_file (db : Db) (path driveId : string) : option File :=
  get_row (is_file path driveId) db.(files).

Definition update_file (path driveId : string) (f : File -> File) (db : Db) : Db :=
  db <| files ::= update_where (is_file path driveId) f |>.

(** [None] is [undefined] (gone or deleted), [Some None] is [null]. *)
Definition readCurrentVersion (db : Db) (path driveId : string) : option (option string) :=
  match get_file db path driveId with
  | Some f => if f.(file_isDeleted) then None else Some f.(file_currentVersionId)
  | None => None
  end.

Definition clear_status (kind : ChunkDeleteScope) (f : File) : File :=
  let f := match kind with ScopeImage => f | _ => f <| file_embeddingStatus := None |> end in
  match kind with ScopeText => f | _ => f <| file_imageEmbeddingStatus := None |> end.

Definition clearEmbeddings (path driveId : string) (version : option string) (kind : ChunkDeleteScope)
    : DbM bool :=
  transaction (
    current ← gets (fun db => readCurrentVersion db path driveId);
    if decide (current <> Some version) then mret false
    else
      _ ← modify (deleteChunks path driveId kind);
      _ ← modify (update_file path driveId (clear_status kind));
      mret true).

(** A chunk of text: content, offset, token count. *)
Record Chunk : Type := { ck_content : string; ck_charOffset : Z; ck_tokenCount : Z }.

(** [db.insert(contentChunks).returning(id)], then the vector of that id. *)
Definition insert_chunk (path driveId : string) (index : Z) (page : option Z) (c : Chunk) (db : Db) : Db :=
  let id := db.(next_chunk_id) in
  db <| contentChunks ::= fun t => t ++ [Build_ContentChunk id path driveId index c.(ck_content)
          c.(ck_charOffset) c.(ck_tokenCount) page TextChunk] |>
     <| chunk_vectors ::= fun t => t ++ [id] |>
     <| next_chunk_id ::= Z.succ |>.

Inductive embed_outcome : Type := EoIndexed | EoSkipped | EoSuperseded.

(** The transaction of [indexFileEmbeddings], once the chunks are embedded.
    [fts] is the content to refresh the full-text document with. *)
Definition indexFileEmbeddings_commit (path driveId : string) (version : option string)
    (fts : option string) (chunks : list (Chunk * option Z)) (status : option EmbeddingStatus)
    : DbM embed_outcome :=
  transaction (
    current ← gets (fun db => readCurrentVersion db path driveId);
    if decide (current <> Some version) then mret EoSuperseded
    else
      _ ← match fts with Some c => modify (indexFile path driveId c) | None => mret tt end;
      _ ← modify (deleteChunks path driveId ScopeText);
      _ ← for_each (imap (fun i c => (i, c)) chunks) (fun e =>
            modify (insert_chunk path driveId (Z.of_nat e.1) e.2.2 e.2.1));
      _ ← modify (update_file path driveId (fun f => f <| file_embeddingStatus := status |>));
      mret (if decide (status = Some EsIndexed) then EoIndexed else EoSkipped)).

(** [scheduleEmbedding]: the synchronous part.  The version it returns is the one
    the background job will check. *)
Definition scheduleEmbedding (provider : option EmbeddingProvider) (path driveId : string)
    : DbM (option (option string)) :=
  match provider with
  | None => mret None
  | Some _ =>
      _ ← modify (update_file path driveId (fun f => f <| file_embeddingStatus := Some EsPending |>));
      gets (fun db => readCurrentVersion db path driveId)
  end.

(** ** search-index.ts *)

Section SearchIndex.
Context {rt : Runtime} {cfg : Config} {Store : Type}.

Definition imageEligible (provider : option EmbeddingProvider) (mime : string) (pdfPageImages : bool)
    (driveId : string) : bool :=
  if bool_decide (driveId ∈ getEmbeddingExcludeDrives) then false
  else if bool_decide (mime = "application/pdf") then pdfPageImages
  else match provider with Some p => p.(ep_supportsMime) mime | None => false end.

Definition clearSearchData (path driveId : string) (kind : ChunkDeleteScope) (db : Db) : Db :=
  update_file path driveId (clear_status kind)
    (deleteChunks path driveId kind
       (match kind with ScopeImage => db | _ => removeFromIndex path driveId db end)).

(** [canRenderPdfPages(provider)]. *)
Definition canRenderPdfPages (provider : option EmbeddingProvider) : bool :=
  match provider with Some p => p.(ep_pdfPageImages) | None => false end.

Definition indexTextForSearch_after (ctx : OpContext) (path content : string)
    (version : option (option string)) : DbM unit :=
  current ← gets (fun db => readCurrentVersion db path ctx.(op_driveId));
  if decide (current <> version) then mret tt
  else
    file ← gets (fun db => get_file db path ctx.(op_driveId));
    let mime := (file ≫= file_contentType) ?? detectMimeType path in
    _ ← when (negb (imageEligible ctx.(op_embeddingProvider) mime (canRenderPdfPages ctx.(op_embeddingProvider))
                      ctx.(op_driveId)))
          (modify (clearSearchData path ctx.(op_driveId) ScopeImage));
    _ ← modify (indexFile path ctx.(op_driveId) content);
    _ ← scheduleEmbedding ctx.(op_embeddingProvider) path ctx.(op_driveId);
    mret tt.

Definition indexTextForSearch (ctx : OpContext) (path content : string) : DbM unit :=
  version ← gets (fun db => readCurrentVersion db path ctx.(op_driveId));
  indexTextForSearch_after ctx path content version.

(** [extracted] is what the text extraction of the bytes returned. *)
Definition indexBytesForSearch_after (ctx : OpContext) (path contentType : string)
    (extracted : option string) (version : option (option string)) : DbM (option string) :=
  current ← gets (fun db => readCurrentVersion db path ctx.(op_driveId));
  if decide (current <> version) then mret None
  else
    _ ← modify (clearSearchData path ctx.(op_driveId) ScopeImage);
    let imagePending := imageEligible ctx.(op_embeddingProvider) contentType
                          (canRenderPdfPages ctx.(op_embeddingProvider)) ctx.(op_driveId) in
    _ ← when imagePending
          (modify (update_file path ctx.(op_driveId) (fun f => f <| file_imageEmbeddingStatus := Some IsPending |>)));
    _ ← match extracted with
        | None => modify (clearSearchData path ctx.(op_driveId) ScopeText)
        | Some text => indexTextForSearch ctx path text
        end;
    mret extracted.

(** PDF text extraction is a third-party library's. *)
Definition extractIndexableText (extractPdfText : string -> option string) (b contentType : string)
    : option string :=
  if bool_decide (toLowerCase (mime_base contentType) = "application/pdf")
  then extractPdfText b else decodeIndexableText b contentType.

Definition indexBytesForSearch (extractPdfText : string -> option string) (ctx : OpContext)
    (path b contentType : string) : DbM (option string) :=
  version ← gets (fun db => readCurrentVersion db path ctx.(op_driveId));
  indexBytesForSearch_after ctx path contentType (extractIndexableText extractPdfText b contentType) version.
End SearchIndex.

(** ** Lemmas *)

Lemma insert_chunks_run path d (chunks : list (Chunk * option Z)) n db :
  exists l, for_each (imap (fun i c => ((n + i)%nat, c)) chunks)
      (fun e => modify (insert_chunk path d (Z.of_nat e.1) e.2.2 e.2.1)) db =
    (Ok tt : outcome error unit, db <| contentChunks ::= fun t => t ++ l |>
        <| chunk_vectors ::= fun t => t ++ (chunk_id <$> l) |>
        <| next_chunk_id ::= fun k => k + Z.of_nat (length chunks) |>) /\
    chunk_content <$> l = (fun c => c.1.(ck_content)) <$> chunks /\
    chunk_id <$> l = (fun i => db.(next_chunk_id) + Z.of_nat i) <$> seq 0 (length chunks) /\
    Forall (chunk_of path d ScopeText) l.
Proof.
  revert n db. induction chunks as [|c chunks IH]; intros n db.
  - exists []. cbn. split_and!; [|done..]. unfold mret, M_ret, update. cbn. rewrite !app_nil_r, Z.add_0_r.
    by destruct db.
  - cbn [imap for_each]. rewrite Nat.add_0_r.
    destruct (IH (S n) (insert_chunk path d (Z.of_nat n) c.2 c.1 db)) as (l & Hr & Hc & Hi & Hf).
    eexists (_ :: l). split_and!.
    + unfold mbind at 1, M_bind at 1, modify at 1. cbn [fst snd].
      replace (imap ((λ i c0, ((n + i)%nat, c0)) ∘ S) chunks) with (imap (λ i c0, ((S n + i)%nat, c0)) chunks)
        by (apply imap_ext; intros; cbn; f_equal; lia).
      rewrite Hr. f_equal. unfold update, insert_chunk. cbn. rewrite <- !app_assoc. cbn. f_equal; lia.
    + cbn. by rewrite Hc.
    + cbn [fmap list_fmap length seq]. rewrite Hi. cbn. f_equal; [lia|].
      rewrite <- fmap_S_seq, <- list_fmap_compose. apply list_fmap_ext. intros i x _. cbn. lia.
    + by constructor.
Qed.

(** ** Properties *)

(** An embedding job is versioned.  The commit of a job whose version is no
    longer the file's current one (a newer write, a delete) changes nothing and
    reports it; a current job leaves the file with exactly its chunks, in
    order, each with its vector, and leaves the chunks of every other file and
    of the file's images alone. *)
Theorem embedding_commit_versioned path d version fts chunks status db :
  exists r db', indexFileEmbeddings_commit path d version fts chunks status db = (Ok r, db') /\
  if decide (readCurrentVersion db path d = Some version) then
    r <> EoSuperseded /\
    chunk_content <$> filter (chunk_of path d ScopeText) db'.(contentChunks) = (fun c => c.1.(ck_content)) <$> chunks /\
    (forall c, c ∈ filter (chunk_of path d ScopeText) db'.(contentChunks) -> c.(chunk_id) ∈ db'.(chunk_vectors)) /\
    filter (fun c => ~ chunk_of path d ScopeText c) db'.(contentChunks) =
    filter (fun c => ~ chunk_of path d ScopeText c) db.(contentChunks)
  else r = EoSuperseded /\ db' = db.
Proof.
  unfold indexFileEmbeddings_commit, transaction, mbind, M_bind, gets.
  destruct (decide (readCurrentVersion db path d <> Some version)) as [Hne|He].
  - exists EoSuperseded, db. split; [reflexivity|]. by rewrite decide_False by exact Hne.
  - apply dec_stable in He.
    set (db1 := match fts with Some c => indexFile path d c db | None => db end).
    assert (Hfts : match fts with Some c => modify (indexFile path d c) | None => mret tt end db
                   = (Ok tt : outcome error unit, db1)) by (by destruct fts).
    rewrite Hfts. unfold modify at 1.
    assert (Hdb1 : db1.(contentChunks) = db.(contentChunks)) by (by destruct fts).
    clearbody db1. clear Hfts.
    destruct (insert_chunks_run path d chunks 0 (deleteChunks path d ScopeText db1)) as (l & Hr & Hc & Hi & Hf).
    cbn [Nat.add] in Hr. change (λ (i : nat) c, (i, c)) with (λ (i : nat) (c : Chunk * option Z), (i, c)) in Hr.
    rewrite Hr. eexists _, _. split; [reflexivity|].
    rewrite (decide_True _ _ He). split; [by destruct (decide _)|].
    cbn [contentChunks chunk_vectors update update_file deleteChunks].
    assert (Hl : filter (chunk_of path d ScopeText) l = l) by (apply filter_all; by rewrite Forall_forall in Hf).
    assert (Hkeep : filter (chunk_of path d ScopeText) (delete_where (chunk_of path d ScopeText) db1.(contentChunks)) = []).
    { apply filter_none. intros c Hin. by apply elem_of_delete_where in Hin as [_ ?]. }
    rewrite !filter_app, Hkeep, Hl. split_and!.
    + exact Hc.
    + intros c Hin. apply elem_of_app. right. by apply list_elem_of_fmap_2.
    + rewrite (filter_none _ l), app_nil_r.
      * unfold delete_where. rewrite list_filter_filter, Hdb1. apply list_filter_iff. tauto.
      * intros c Hin Hn. rewrite Forall_forall in Hf. by apply Hn, Hf.
Qed.
