(* ===== verification/Versioning.v ===== *)
(** * File versions: core/src/ops/versioning.ts

    Version numbers, the optimistic-concurrency check and [createVersion], which
    records a version in one transaction with the file row and the webhook
    deliveries, then publishes the change.  [createVersion] waits between
    reading the next version number and its transaction, so it is cut there;
    the theorems hold for any interleaving of the halves of any number of
    writers: the history of a path is always 1, 2, 3, ... and of two writers
    that read the same number one is told of the conflict and writes nothing. *)

From S2P Require Import Prelude JsString Errors Text Paths Schema Rbac Storage GlobCache World Outbox Search.

Definition is_version (path driveId : string) (v : FileVersion) : Prop :=
  v.(fv_path) = path /\ v.(fv_driveId) = driveId.
#[export] Instance is_version_dec p d v : Decision (is_version p d v).
Proof. unfold is_version. apply _. Defined.

(** The version numbers of a path, in the order they were recorded. *)
Definition history (db : Db) (path driveId : string) : list Z :=
  fv_version <$> filter (is_version path driveId) db.(fileVersions).

(** [MAX(version)]. *)
Definition sql_max (l : list Z) : option Z :=
  foldr (fun v m => Some (match m with Some x => Z.max v x | None => v end)) None l.

Definition getNextVersion (db : Db) (driveId path : string) : Z := (sql_max (history db path driveId) ?? 0) + 1.

(** The row of [ORDER BY version DESC LIMIT 1]. *)
Definition head_version (db : Db) (driveId path : string) : option FileVersion :=
  head (sort_by (fun a b => b.(fv_version) <=? a.(fv_version))
          (filter (is_version path driveId) db.(fileVersions))).

Record HeadVersionRow : Type := {
  hv_version : Z;
  hv_contentHash : option string;
  hv_etag : option string;
  hv_createdAt : Z
}.

Definition getHeadVersionRow (db : Db) (driveId path : string) : option HeadVersionRow :=
  (fun r => {| hv_version := r.(fv_version); hv_contentHash := r.(fv_contentHash);
               hv_etag := r.(fv_etag); hv_createdAt := r.(fv_createdAt) |}) <$> head_version db driveId path.

Definition assertExpectedVersion (db : Db) (driveId path : string) (expectedVersion : option Z)
    : outcome error Z :=
  let head := head_version db driveId path in
  let currentVersion := (fv_version <$> head) ?? 0 in
  match expectedVersion with
  | None => Ok currentVersion
  | Some e =>
      if bool_decide (e = currentVersion)
         || (bool_decide (e = 0) && bool_decide (fv_operation <$> head = Some OpDelete))
      then Ok currentVersion
      else Throw (EditConflictError
        ("Expected version " +:+ pretty e +:+ " but file is at version " +:+ pretty currentVersion)
        (Some path) (Some "Re-read the file to get the current version and retry"))
  end.

Definition getHeadContentHash (db : Db) (driveId path : string) : option string :=
  head_version db driveId path ≫= fv_contentHash.

Record VersionParams : Type := {
  vp_path : string;
  vp_s3VersionId : string;
  vp_operation : FileOperation;
  vp_message : option string;
  vp_diffSummary : option string;
  vp_size : option Z;
  vp_etag : option string;
  vp_contentType : option string;
  vp_contentHash : option string
}.

(** The AUTOINCREMENT id is taken by the insert. *)
Definition insert_file_version (r : Z -> FileVersion) : DbM unit :=
  insert (fun db => let v := r db.(next_version_id) in first_taken
      [(exists_row (fun x => is_version v.(fv_path) v.(fv_driveId) x /\ x.(fv_version) = v.(fv_version))
          db.(fileVersions),
        "file_versions.path, file_versions.drive_id, file_versions.version")])
    (fun _ => true)
    (fun db => db <| fileVersions ::= fun t => t ++ [r db.(next_version_id)] |> <| next_version_id ::= Z.succ |>).

Definition insert_file (r : File) : DbM unit :=
  insert (fun db => first_taken [(exists_row (is_file r.(file_path) r.(file_driveId)) db.(files),
                                  "files.path, files.drive_id")])
    (fun db => drive_exists r.(file_driveId) db)
    (fun db => db <| files ::= fun t => t ++ [r] |>).

Definition version_row (ctx : OpContext) (p : VersionParams) (version now id : Z) : FileVersion :=
  {| fv_id := id; fv_path := p.(vp_path); fv_driveId := ctx.(op_driveId); fv_version := version;
     fv_s3VersionId := p.(vp_s3VersionId); fv_author := ctx.(op_userId); fv_operation := p.(vp_operation);
     fv_message := p.(vp_message); fv_diffSummary := p.(vp_diffSummary); fv_size := p.(vp_size);
     fv_etag := p.(vp_etag); fv_contentHash := p.(vp_contentHash); fv_createdAt := ts_sec now |}.

(** The existing row, as the update leaves it. *)
Definition touch_file (ctx : OpContext) (p : VersionParams) (version now : Z) (f : File) : File :=
  f <| file_size := p.(vp_size) ?? f.(file_size) |>
    <| file_contentType := match p.(vp_contentType) with Some c => Some c | None => f.(file_contentType) end |>
    <| file_author := ctx.(op_userId) |> <| file_currentVersionId := Some (pretty version) |>
    <| file_modifiedAt := ts_sec now |> <| file_isDeleted := bool_decide (p.(vp_operation) = OpDelete) |>.

Definition new_file (ctx : OpContext) (p : VersionParams) (version now : Z) : File :=
  {| file_path := p.(vp_path); file_driveId := ctx.(op_driveId); file_size := p.(vp_size) ?? 0;
     file_contentType := p.(vp_contentType); file_author := ctx.(op_userId);
     file_currentVersionId := Some (pretty version); file_createdAt := ts_sec now;
     file_modifiedAt := ts_sec now; file_isDeleted := bool_decide (p.(vp_operation) = OpDelete);
     file_embeddingStatus := Some EsPending; file_imageEmbeddingStatus := None |}.

Definition file_change (p : VersionParams) (version now : Z) : FileChange :=
  {| fc_path := p.(vp_path); fc_version := version; fc_operation := p.(vp_operation);
     fc_size := p.(vp_size); fc_etag := p.(vp_etag); fc_at := now |}.

(** Random draws of one [createVersion]: the event's id and the deliveries'. *)
Record Draws : Type := { dr_eventId : string; dr_uuids : nat -> string }.

(** The transaction: the number of deliveries queued. *)
Definition record_version (dr : Draws) (ctx : OpContext) (p : VersionParams) (version now : Z) : DbM nat :=
  transaction (
    _ ← insert_file_version (version_row ctx p version now);
    existing ← gets (fun db => get_file db p.(vp_path) ctx.(op_driveId));
    _ ← match existing with
        | Some _ => modify (update_file p.(vp_path) ctx.(op_driveId) (touch_file ctx p version now))
        | None => insert_file (new_file ctx p version now)
        end;
    enqueueFileWebhooks dr.(dr_eventId) dr.(dr_uuids) ctx (file_change p version now)).

Definition conflict_error (path : string) (version : Z) : error :=
  EditConflictError ("Concurrent write detected for " +:+ path +:+ ": version " +:+ pretty version
                       +:+ " already exists") (Some path)
    (Some "Re-read the file to get the current version and retry the write").

Definition map_version_error (path : string) (version : Z) (e : error) : error :=
  if includes "UNIQUE constraint failed" (error_message e) && includes "file_versions" (error_message e)
  then conflict_error path version else e.

Section Versioning.
Context {Store : Type}.

(** What follows the wait. *)
Definition createVersion_commit (dr : Draws) (now : Z) (ctx : OpContext) (p : VersionParams) (version : Z)
    : OpM Store Z :=
  queued ← try_catch (in_db (record_version dr ctx p version now))
             (fun e => throw (map_version_error p.(vp_path) version e));
  _ ← publish (FileChanged ctx.(op_driveId) p.(vp_path) version p.(vp_operation) ctx.(op_userId) now);
  _ ← when (bool_decide (0 < queued)%nat) notifyWebhooksEnqueued;
  mret version.

Definition createVersion (dr : Draws) (now : Z) (ctx : OpContext) (p : VersionParams) : OpM Store Z :=
  _ ← invalidate_globs ctx.(op_orgId) ctx.(op_driveId);
  version ← query (fun db => getNextVersion db ctx.(op_driveId) p.(vp_path));
  createVersion_commit dr now ctx p version.
End Versioning.

(** ** Lemmas *)

Lemma sql_max_seq n : sql_max (seqZ 1 n) = if decide (0 < n) then Some n else None.
Proof.
  assert (Hgen : forall k a, sql_max (seqZ a (Z.of_nat k)) = if decide (0 < k)%nat then Some (a + Z.of_nat k - 1) else None).
  { induction k as [|k IH]; intros a; [done|].
    rewrite seqZ_cons by lia. cbn [sql_max foldr]. fold (sql_max (seqZ (Z.succ a) (Z.pred (Z.of_nat (S k))))).
    replace (Z.pred (Z.of_nat (S k))) with (Z.of_nat k) by lia. rewrite IH.
    rewrite (decide_True (P := (0 < S k)%nat)) by lia. case_decide; f_equal; lia. }
  destruct (decide (0 < n)).
  - rewrite <- (Z2Nat.id n) at 1 by lia. rewrite Hgen, decide_True by lia. f_equal. lia.
  - by rewrite seqZ_nil by lia.
Qed.

Lemma seqZ_snoc n : 0 <= n -> seqZ 1 (n + 1) = seqZ 1 n ++ [n + 1].
Proof. intros Hn. rewrite (seqZ_app 1 n 1) by lia. by rewrite (Z.add_comm n 1). Qed.

(** A path's versions are 1, 2, ..., n, recorded in that order. *)
Definition contiguous (db : Db) : Prop :=
  forall path driveId, exists n, history db path driveId = seqZ 1 n.

Lemma next_version_contiguous db path d n :
  history db path d = seqZ 1 n -> 0 <= n -> getNextVersion db d path = n + 1.
Proof.
  intros Hh Hn. unfold getNextVersion. rewrite Hh, sql_max_seq. case_decide; cbn; lia.
Qed.

Lemma history_nonneg db path d : contiguous db -> exists n, 0 <= n /\ history db path d = seqZ 1 n.
Proof.
  intros Hc. destruct (Hc path d) as [n Hn]. destruct (decide (0 <= n)); [eauto|].
  exists 0. split; [done|]. rewrite Hn, !seqZ_nil by lia. done.
Qed.

(** The state the transaction leaves when it commits. *)
Lemma record_version_ok dr ctx p version now db n db' :
  record_version dr ctx p version now db = (Ok n, db') ->
  version ∉ history db p.(vp_path) ctx.(op_driveId) /\
  db'.(fileVersions) = db.(fileVersions) ++ [version_row ctx p version now db.(next_version_id)] /\
  db'.(files) = (match get_file db p.(vp_path) ctx.(op_driveId) with
                 | Some _ => update_file p.(vp_path) ctx.(op_driveId) (touch_file ctx p version now) db
                 | None => db <| files ::= fun t => t ++ [new_file ctx p version now] |>
                 end).(files) /\
  n = length (file_subscribers db ctx.(op_orgId) ctx.(op_driveId) p.(vp_path)) /\
  length db'.(webhookDeliveries) = (length db.(webhookDeliveries) + n)%nat /\
  db'.(contentChunks) = db.(contentChunks) /\ db'.(comments) = db.(comments) /\ db'.(fts_docs) = db.(fts_docs) /\
  db'.(favorites) = db.(favorites).
Proof.
  unfold record_version. intros Hr. inv_ok.
  match goal with Hi : insert_file_version _ _ = _ |- _ =>
    unfold insert_file_version in Hi; apply insert_ok in Hi as (Htaken & _ & ->) end.
  apply first_taken_none in Htaken as [Htaken _]. rewrite exists_row_false in Htaken.
  match goal with He : enqueueFileWebhooks _ _ _ _ _ = _ |- _ =>
    apply enqueueFileWebhooks_ok in He as [-> ->] end.
  assert (Hnot : version ∉ history db p.(vp_path) ctx.(op_driveId)).
  { unfold history. intros (v & Hv & Hin)%list_elem_of_fmap. apply list_elem_of_filter in Hin as [Hp Hin].
    by apply (Htaken v Hin). }
  match goal with Hf : match get_file ?db1 _ _ with _ => _ end _ = _ |- _ =>
    change (get_file db1 (vp_path p) (op_driveId ctx)) with (get_file db (vp_path p) (op_driveId ctx)) in Hf;
    destruct (get_file db (vp_path p) (op_driveId ctx)) eqn:Ef; inv_ok end.
  - cbn. rewrite length_app, length_fmap, length_imap. done.
  - match goal with Hi : insert_file _ _ = _ |- _ => unfold insert_file in Hi; apply insert_ok in Hi as (_ & _ & ->) end.
    cbn. rewrite length_app, length_fmap, length_imap. done.
Qed.

(** The number is taken: the conflict, and no write. *)
Lemma record_version_taken dr ctx p version now db :
  version ∈ history db p.(vp_path) ctx.(op_driveId) ->
  record_version dr ctx p version now db =
  (Throw (sqlite_unique "file_versions.path, file_versions.drive_id, file_versions.version"), db).
Proof.
  intros (v & Hv & Hin)%list_elem_of_fmap. apply list_elem_of_filter in Hin as [Hp Hin].
  unfold record_version, transaction, mbind, M_bind, insert_file_version, insert at 1. cbn [fv_path fv_driveId fv_version version_row first_taken].
  assert (Ht : exists_row (fun x => is_version p.(vp_path) ctx.(op_driveId) x /\ x.(fv_version) = version) db.(fileVersions) = true)
    by (apply exists_row_true; eauto).
  by rewrite Ht.
Qed.

Lemma history_app db path d rows :
  fv_version <$> filter (is_version path d) (db.(fileVersions) ++ rows) =
  history db path d ++ (fv_version <$> filter (is_version path d) rows).
Proof. unfold history. by rewrite filter_app, fmap_app. Qed.

Lemma history_after_commit dr ctx p version now db n db' path d :
  record_version dr ctx p version now db = (Ok n, db') ->
  history db' path d = history db path d ++
    (if decide ((path, d) = (p.(vp_path), ctx.(op_driveId))) then [version] else []).
Proof.
  intros (_ & Hv & _)%record_version_ok. unfold history at 1. rewrite Hv, history_app. f_equal.
  case_decide as Hd.
  - injection Hd as -> ->. by rewrite filter_cons_True.
  - rewrite filter_cons_False; [done|]. unfold is_version. cbn. intros [? ?]. apply Hd. congruence.
Qed.

(** The transaction commits when the number and the random ids are fresh. *)
Definition fresh_draws (dr : Draws) (db : Db) : Prop :=
  Inj eq eq dr.(dr_uuids) /\
  (forall i d, d ∈ db.(webhookDeliveries) -> d.(del_id) <> dr.(dr_uuids) i) /\
  (forall d, d ∈ db.(webhookDeliveries) -> d.(del_eventId) <> dr.(dr_eventId)) /\
  NoDup (sub_id <$> db.(webhookSubscriptions)).

Lemma record_version_run dr ctx p version now db :
  version ∉ history db p.(vp_path) ctx.(op_driveId) -> drive_exists ctx.(op_driveId) db = true ->
  fresh_draws dr db -> exists n db', record_version dr ctx p version now db = (Ok n, db').
Proof.
  intros Hv Hd (Hinj & Hid & Hev & Hnd). unfold record_version.
  set (db1 := db <| fileVersions ::= fun t => t ++ [version_row ctx p version now db.(next_version_id)] |>
                 <| next_version_id ::= Z.succ |>).
  assert (H1 : insert_file_version (version_row ctx p version now) db = (Ok tt, db1)).
  { apply insert_ok. split_and!; [|done..]. apply first_taken_none. split; [|done]. apply exists_row_false.
    intros v Hin [Hp Hver]. apply Hv, list_elem_of_fmap. exists v. split; [done|]. by apply list_elem_of_filter. }
  assert (H2 : exists db2, match get_file db p.(vp_path) ctx.(op_driveId) with
      | Some _ => modify (update_file p.(vp_path) ctx.(op_driveId) (touch_file ctx p version now))
      | None => insert_file (new_file ctx p version now)
      end db1 = (Ok tt, db2) /\ db2.(webhookDeliveries) = db.(webhookDeliveries) /\
      db2.(webhookSubscriptions) = db.(webhookSubscriptions)).
  { destruct (get_file db _ _) eqn:Ef; [eexists; split_and!; reflexivity|].
    exists (db1 <| files ::= fun t => t ++ [new_file ctx p version now] |>).
    split; [|split; reflexivity]. apply insert_ok. split_and!; [|exact Hd|reflexivity].
    apply first_taken_none. split; [|done]. by apply get_row_exists_row in Ef. }
  destruct H2 as (db2 & H2 & Hdel & Hsub).
  destruct (enqueueFileWebhooks_run dr.(dr_eventId) dr.(dr_uuids) ctx (file_change p version now) db2
    Hinj ltac:(by rewrite Hdel) ltac:(by rewrite Hdel) ltac:(by rewrite Hsub)) as [db3 H3].
  eexists _, db3. apply transaction_ok, bind_ok. exists tt, db1. split; [exact H1|].
  apply bind_ok. eexists _, db1. split; [reflexivity|]. apply bind_ok. exists tt, db2. split; [exact H2|exact H3].
Qed.

(** The head of a path whose newest row was recorded last. *)
Lemma head_version_snoc db path d v :
  is_version path d v -> (forall x, x ∈ db.(fileVersions) -> is_version path d x -> x.(fv_version) < v.(fv_version)) ->
  forall db', db'.(fileVersions) = db.(fileVersions) ++ [v] -> head_version db' d path = Some v.
Proof.
  intros Hv Hlt db' Hdb'. unfold head_version. rewrite Hdb', filter_app, filter_cons_True by done. cbn.
  set (l := filter _ db.(fileVersions)).
  set (le := fun a b : FileVersion => fv_version b <=? fv_version a).
  assert (Hl : forall x, x ∈ l -> x.(fv_version) < v.(fv_version)).
  { intros x [Hp Hin]%list_elem_of_filter. by apply Hlt. }
  clearbody l. induction l as [|x l IH]; [done|]. cbn [app sort_by foldr]. fold (sort_by le (l ++ [v])).
  destruct (sort_by le (l ++ [v])) as [|y rest] eqn:E; [discriminate IH; set_solver|].
  assert (y = v) as ->. { assert (Some y = Some v) as [= ->] by (apply IH; set_solver). done. }
  cbn [insert_sorted]. unfold le at 1. specialize (Hl x ltac:(set_solver)).
  by destruct (Z.leb_spec (fv_version v) (fv_version x)); [lia|].
Qed.

Section VersioningLemmas.
Context {Store : Type}.

Lemma in_db_throw {A} (m : DbM A) (w : World Store) e :
  m w.(w_db) = (Throw e, w.(w_db)) -> in_db m w = (Throw e, w).
Proof. unfold in_db, on. intros ->. by destruct w. Qed.

(** A commit that throws leaves the world as it was. *)
Lemma commit_throw dr now ctx p version (w : World Store) e w' :
  createVersion_commit dr now ctx p version w = (Throw e, w') -> w' = w.
Proof.
  unfold createVersion_commit, mbind, M_bind, try_catch.
  destruct (in_db _ w) as [[n|e'] w1] eqn:E.
  - unfold publish, modify. cbn. unfold when. by case_bool_decide.
  - cbn. intros [= _ <-]. unfold in_db, on in E.
    destruct (record_version dr ctx p version now (w_db w)) as [o db'] eqn:Er. injection E as -> <-.
    unfold record_version in Er. apply transaction_throw in Er as ->. by destruct w.
Qed.

Lemma commit_ok dr now ctx p version (w : World Store) v w' :
  createVersion_commit dr now ctx p version w = (Ok v, w') ->
  v = version /\ exists n db', record_version dr ctx p version now w.(w_db) = (Ok n, db') /\
    w'.(w_db) = db' /\ w'.(w_store) = w.(w_store) /\ w'.(w_glob) = w.(w_glob) /\
    w'.(w_events) = w.(w_events) ++
      [FileChanged ctx.(op_driveId) p.(vp_path) version p.(vp_operation) ctx.(op_userId) now] /\
    w'.(w_wakeups) = (if bool_decide (0 < n)%nat then S w.(w_wakeups) else w.(w_wakeups)).
Proof.
  unfold createVersion_commit, try_catch, in_db, on. intros Hr. apply bind_ok in Hr as (n & w1 & H1 & Hr).
  destruct (record_version dr ctx p version now (w_db w)) as [[n'|e] db'] eqn:Er; [|done].
  injection H1 as -> <-. unfold publish, notifyWebhooksEnqueued, when in Hr. inv_ok.
  split; [done|]. exists n, db'. split; [done|].
  case_bool_decide; inv_ok; cbn; done.
Qed.

(** The whole of [createVersion]. *)
Lemma createVersion_ok dr now ctx p (w : World Store) v w' :
  createVersion dr now ctx p w = (Ok v, w') ->
  v = getNextVersion w.(w_db) ctx.(op_driveId) p.(vp_path) /\
  w'.(w_store) = w.(w_store) /\
  w'.(w_events) = w.(w_events) ++
    [FileChanged ctx.(op_driveId) p.(vp_path) v p.(vp_operation) ctx.(op_userId) now] /\
  exists n, record_version dr ctx p v now w.(w_db) = (Ok n, w'.(w_db)).
Proof.
  unfold createVersion, invalidate_globs, query. intros Hr. inv_ok.
  match goal with Hc : createVersion_commit _ _ _ _ _ _ = _ |- _ =>
    apply commit_ok in Hc as (-> & n & db' & Hrec & <- & Hs & _ & He & _) end.
  cbn in Hrec, Hs, He |- *. eauto 6.
Qed.

(** It succeeds when its transaction does. *)
Lemma createVersion_run dr now ctx p (w : World Store) n db' :
  record_version dr ctx p (getNextVersion w.(w_db) ctx.(op_driveId) p.(vp_path)) now w.(w_db) = (Ok n, db') ->
  exists w', createVersion dr now ctx p w
    = (Ok (getNextVersion w.(w_db) ctx.(op_driveId) p.(vp_path)), w').
Proof.
  intros Hrec. unfold createVersion, invalidate_globs, modify, query, gets, mbind at 1 2, M_bind at 1 2.
  cbn [w_db update]. unfold createVersion_commit, try_catch, in_db, on, mbind at 1, M_bind at 1.
  change (getNextVersion (w_db (w <| w_glob ::= _ |>)) (op_driveId ctx) (vp_path p))
    with (getNextVersion w.(w_db) (op_driveId ctx) (vp_path p)).
  match goal with |- context [record_version dr ctx p ?v now ?x] => change x with w.(w_db) end.
  rewrite Hrec. unfold when. case_bool_decide; eexists; reflexivity.
Qed.

(** ** Concurrent writers *)

Record Writer : Type := { wr_ctx : OpContext; wr_params : VersionParams; wr_draws : Draws; wr_now : Z }.

(** The world and the writers that have read their version number. *)
Definition Writers : Type := World Store * list (Writer * Z).

Inductive writer_step : Writers -> Writers -> Prop :=
| writer_begins x w fl :
    writer_step (w, fl)
      (w <| w_glob ::= invalidateDriveGlobListings x.(wr_ctx).(op_orgId) x.(wr_ctx).(op_driveId) |>,
       fl ++ [(x, getNextVersion w.(w_db) x.(wr_ctx).(op_driveId) x.(wr_params).(vp_path))])
| writer_commits x v w fl1 fl2 :
    writer_step (w, fl1 ++ (x, v) :: fl2)
      ((createVersion_commit x.(wr_draws) x.(wr_now) x.(wr_ctx) x.(wr_params) v w).2, fl1 ++ fl2).

(** Histories are contiguous, and a number a writer holds is at most the next. *)
Definition writers_inv (s : Writers) : Prop :=
  contiguous s.1.(w_db) /\
  forall x v, (x, v) ∈ s.2 -> 1 <= v <= getNextVersion s.1.(w_db) x.(wr_ctx).(op_driveId) x.(wr_params).(vp_path).

Lemma next_version_mono db db' path d n extra :
  history db path d = seqZ 1 n -> 0 <= n -> history db' path d = history db path d ++ extra ->
  extra = [] \/ extra = [n + 1] -> getNextVersion db d path <= getNextVersion db' d path.
Proof.
  intros Hh Hn Hh' [-> | ->].
  - unfold getNextVersion. rewrite Hh', app_nil_r. lia.
  - rewrite (next_version_contiguous db path d n Hh Hn).
    rewrite (next_version_contiguous db' path d (n + 1)); [lia| |lia].
    by rewrite Hh', Hh, seqZ_snoc.
Qed.

Lemma writer_step_inv s s' : writer_step s s' -> writers_inv s -> writers_inv s'.
Proof.
  intros Hstep [Hc Hfl]. destruct Hstep as [x w fl|x v w fl1 fl2]; cbn in *.
  - split; [exact Hc|]. cbn. intros y u [Hy|Hy]%elem_of_app; [by apply Hfl|].
    apply list_elem_of_singleton in Hy as [= -> ->]. split; [|done].
    destruct (history_nonneg w.(w_db) (vp_path (wr_params x)) (op_driveId (wr_ctx x)) Hc) as (n & Hn & Hh).
    rewrite (next_version_contiguous _ _ _ n Hh Hn). lia.
  - destruct (createVersion_commit _ _ _ _ v w) as [[u|e] w'] eqn:E.
    + apply commit_ok in E as (-> & n & db' & Hrec & <- & _). unfold writers_inv. cbn.
      pose proof (record_version_ok _ _ _ _ _ _ _ _ Hrec) as [Hnew _].
      pose proof (fun path d => history_after_commit _ _ _ _ _ _ _ _ path d Hrec) as Hhist.
      assert (Hv := Hfl x v ltac:(set_solver)).
      destruct (history_nonneg w.(w_db) (vp_path (wr_params x)) (op_driveId (wr_ctx x)) Hc) as (m & Hm & Hh).
      rewrite (next_version_contiguous _ _ _ m Hh Hm) in Hv. rewrite Hh in Hnew.
      assert (v = m + 1) as -> by (rewrite elem_of_seqZ in Hnew; lia).
      split.
      * intros path d. rewrite Hhist. destruct (Hc path d) as [k Hk]. case_decide as Hd; [|exists k; by rewrite app_nil_r].
        injection Hd as -> ->. exists (m + 1). by rewrite Hh, seqZ_snoc.
      * intros y u Hy. assert (Hyv := Hfl y u ltac:(set_solver)). split; [lia|].
        destruct (history_nonneg w.(w_db) (vp_path (wr_params y)) (op_driveId (wr_ctx y)) Hc) as (k & Hk & Hhk).
        etrans; [apply Hyv|]. eapply (next_version_mono _ _ _ _ k); [exact Hhk|exact Hk|apply Hhist|].
        case_decide as Hd; [|by left]. right. f_equal. injection Hd as Hp Hdr. rewrite Hp, Hdr, Hh in Hhk.
        apply (f_equal length) in Hhk. rewrite !length_seqZ in Hhk. lia.
    + apply commit_throw in E as ->. split; [exact Hc|]. intros y u Hy. apply Hfl. set_solver.
Qed.
End VersioningLemmas.

Section VersioningProperties.
Context {Store : Type}.

Lemma record_keeps_contiguous dr ctx p now db n db' :
  contiguous db -> record_version dr ctx p (getNextVersion db ctx.(op_driveId) p.(vp_path)) now db = (Ok n, db') ->
  contiguous db'.
Proof.
  intros Hc Hr path d. rewrite (history_after_commit _ _ _ _ _ _ _ _ path d Hr).
  destruct (history_nonneg db path d Hc) as (k & Hk & Hh). case_decide as Hd; [|exists k; by rewrite app_nil_r].
  injection Hd as -> ->. rewrite (next_version_contiguous _ _ _ k Hh Hk). exists (k + 1). by rewrite Hh, seqZ_snoc.
Qed.

(** The file row a commit leaves. *)
Lemma record_version_file dr ctx p version now db n db' :
  record_version dr ctx p version now db = (Ok n, db') ->
  get_file db' p.(vp_path) ctx.(op_driveId) =
  Some (match get_file db p.(vp_path) ctx.(op_driveId) with
        | Some f => touch_file ctx p version now f
        | None => new_file ctx p version now
        end).
Proof.
  intros (_ & _ & Hf & _)%record_version_ok. unfold get_file at 1. rewrite Hf.
  destruct (get_file db _ _) as [f|] eqn:E; cbn.
  - rewrite get_row_update_same; [by unfold get_file in E; rewrite E|]. intros r Hr. exact Hr.
  - rewrite get_row_snoc. unfold get_file in E. by rewrite E, decide_True.
Qed.

(** The recorded row is the head, with the number after the last. *)
Lemma record_version_head dr ctx p now db n db' :
  contiguous db -> record_version dr ctx p (getNextVersion db ctx.(op_driveId) p.(vp_path)) now db = (Ok n, db') ->
  head_version db' ctx.(op_driveId) p.(vp_path)
    = Some (version_row ctx p (getNextVersion db ctx.(op_driveId) p.(vp_path)) now db.(next_version_id)).
Proof.
  intros Hc Hrec. pose proof (record_version_ok _ _ _ _ _ _ _ _ Hrec) as (_ & Hrows & _).
  destruct (history_nonneg _ p.(vp_path) ctx.(op_driveId) Hc) as (k & Hk & Hh).
  eapply head_version_snoc; [by split| |exact Hrows]. cbn. intros x Hx Hpx.
  assert (Hin : fv_version x ∈ history db p.(vp_path) ctx.(op_driveId)).
  { apply list_elem_of_fmap. exists x. split; [done|]. by apply list_elem_of_filter. }
  rewrite (next_version_contiguous _ _ _ k Hh Hk). rewrite Hh, elem_of_seqZ in Hin. lia.
Qed.

Lemma next_version_length db path d :
  contiguous db -> getNextVersion db d path = Z.of_nat (length (history db path d)) + 1.
Proof.
  intros Hc. destruct (history_nonneg db path d Hc) as (k & Hk & Hh).
  rewrite (next_version_contiguous _ _ _ k Hh Hk), Hh, length_seqZ. lia.
Qed.

(** [createVersion] succeeds on a well-formed history with fresh random ids. *)
Lemma createVersion_succeeds dr now ctx p (w : World Store) :
  contiguous w.(w_db) -> drive_exists ctx.(op_driveId) w.(w_db) = true -> fresh_draws dr w.(w_db) ->
  exists v w', createVersion dr now ctx p w = (Ok v, w').
Proof.
  intros Hc Hd Hfr. destruct (history_nonneg _ p.(vp_path) ctx.(op_driveId) Hc) as (k & Hk & Hh).
  destruct (record_version_run dr ctx p (k + 1) now w.(w_db)) as (n & db' & Hrec); [|done..|].
  { rewrite Hh, elem_of_seqZ. lia. }
  rewrite <- (next_version_contiguous _ _ _ k Hh Hk) in Hrec.
  destruct (createVersion_run _ _ _ _ _ _ _ Hrec) as [w' Hrun]. eauto.
Qed.

(** Recording a version.  On a well-formed history, with fresh random ids,
    [createVersion] always succeeds: it takes the number after the last one, the
    new row is the head of the path's history, the file row names the number and
    is marked deleted exactly for a delete, one delivery is queued for every
    matching subscription, one event is published, and storage is untouched. *)
Theorem createVersion_records dr now ctx p (w : World Store) :
  contiguous w.(w_db) -> drive_exists ctx.(op_driveId) w.(w_db) = true -> fresh_draws dr w.(w_db) ->
  exists v w', createVersion dr now ctx p w = (Ok v, w') /\
    v = Z.of_nat (length (history w.(w_db) p.(vp_path) ctx.(op_driveId))) + 1 /\
    contiguous w'.(w_db) /\
    head_version w'.(w_db) ctx.(op_driveId) p.(vp_path)
      = Some (version_row ctx p v now w.(w_db).(next_version_id)) /\
    (exists f, get_file w'.(w_db) p.(vp_path) ctx.(op_driveId) = Some f /\
       f.(file_currentVersionId) = Some (pretty v) /\ f.(file_isDeleted) = bool_decide (p.(vp_operation) = OpDelete)) /\
    length w'.(w_db).(webhookDeliveries) = (length w.(w_db).(webhookDeliveries) +
      length (file_subscribers w.(w_db) ctx.(op_orgId) ctx.(op_driveId) p.(vp_path)))%nat /\
    w'.(w_events) = w.(w_events) ++ [FileChanged ctx.(op_driveId) p.(vp_path) v p.(vp_operation) ctx.(op_userId) now] /\
    w'.(w_store) = w.(w_store).
Proof.
  intros Hc Hd Hfr. destruct (createVersion_succeeds dr now ctx p w Hc Hd Hfr) as (v & w' & Hrun).
  exists v, w'. pose proof Hrun as Hok. apply createVersion_ok in Hok as (Hv & Hst & Hev & n & Hrec).
  pose proof (record_version_ok _ _ _ _ _ _ _ _ Hrec) as (_ & _ & _ & Hn & Hdel & _).
  split_and!; try done.
  - rewrite Hv. by apply next_version_length.
  - rewrite Hv in Hrec. exact (record_keeps_contiguous _ _ _ _ _ _ _ Hc Hrec).
  - rewrite Hv in Hrec |- *. exact (record_version_head _ _ _ _ _ _ _ Hc Hrec).
  - eexists. split; [exact (record_version_file _ _ _ _ _ _ _ _ Hrec)|]. by destruct (get_file _ _ _).
  - rewrite Hdel. congruence.
Qed.

(** C2: Histories stay gapless under concurrency.  However the two halves of any
    number of writers interleave, every path's recorded versions are 1, 2, ...,
    n in the order they were recorded. *)
Theorem versions_contiguous (w w' : World Store) fl :
  contiguous w.(w_db) -> rtc writer_step (w, []) (w', fl) -> contiguous w'.(w_db).
Proof.
  intros Hc Hsteps. enough (writers_inv (w', fl)) as [H _] by exact H.
  assert (H0 : writers_inv (w, @nil (Writer * Z))) by (split; [exact Hc|set_solver]).
  revert H0. induction Hsteps; eauto using writer_step_inv.
Qed.

(** A lost race is reported and writes nothing.  Of two writers of one path
    that hold the same version number, the one that commits second gets an
    edit conflict naming the path and the number, and the world stays as the
    first left it. *)
Theorem concurrent_write_conflict dr1 dr2 now1 now2 ctx1 ctx2 p1 p2 version v (w w1 : World Store) :
  ctx1.(op_driveId) = ctx2.(op_driveId) -> p1.(vp_path) = p2.(vp_path) ->
  createVersion_commit dr1 now1 ctx1 p1 version w = (Ok v, w1) ->
  createVersion_commit dr2 now2 ctx2 p2 version w1 = (Throw (conflict_error p2.(vp_path) version), w1).
Proof.
  intros Hd Hp (_ & n & db1 & Hrec & <- & _)%commit_ok.
  pose proof (history_after_commit _ _ _ _ _ _ _ _ p2.(vp_path) ctx2.(op_driveId) Hrec) as Hh.
  rewrite decide_True in Hh by congruence.
  unfold createVersion_commit, try_catch, mbind, M_bind. rewrite (in_db_throw _ _
    (sqlite_unique "file_versions.path, file_versions.drive_id, file_versions.version")).
  - unfold throw, map_version_error. f_equal.
  - apply record_version_taken. rewrite Hh. set_solver.
Qed.
End VersioningProperties.

(** ** Witnesses *)

Definition sample_ctx (user : string) : OpContext := Build_OpContext "o1" "d1" user None None None None.
Definition sample_params (path content : string) : VersionParams :=
  Build_VersionParams path "v0" OpWrite None None (Some (Z.of_nat (String.length content))) None
    (Some "text/plain") None.
Definition sample_world : World MemStore := Build_World MemStore sample_db empty_store [] 0 empty_glob_cache.
Definition sample_draws (n : string) : Draws :=
  {| dr_eventId := "e" +:+ n; dr_uuids := fun i => "w" +:+ n +:+ "-" +:+ pretty i |}.

Lemma sample_contiguous : contiguous sample_db.
Proof. intros path d. by exists 0. Qed.

Lemma sample_draws_fresh n : fresh_draws (sample_draws n) sample_db.
Proof.
  split_and!; [|by intros i d Hd%elem_of_nil|by intros d Hd%elem_of_nil|constructor].
  intros i j H. injection H as H. apply (inj (String.append n)) in H. injection H as H.
  by apply (inj (pretty (A:=nat))) in H.
Qed.

Lemma createVersion_records_witness :
  exists v w', createVersion (sample_draws "1") 5 (sample_ctx "u2") (sample_params "/a.txt" "hello") sample_world
    = (Ok v, w') /\ v = 1.
Proof.
  destruct (createVersion_records (sample_draws "1") 5 (sample_ctx "u2") (sample_params "/a.txt" "hello")
    sample_world sample_contiguous eq_refl (sample_draws_fresh "1")) as (v & w' & H & Hv & _).
  exists v, w'. split; [exact H|]. rewrite Hv. reflexivity.
Defined.

Definition sample_writer (user n : string) : Writer :=
  {| wr_ctx := sample_ctx user; wr_params := sample_params "/a.txt" user; wr_draws := sample_draws n; wr_now := 5 |}.

(** Two writers read the same number; both commit; the second is refused. *)
Definition sample_racing : World MemStore :=
  sample_world <| w_glob ::= invalidateDriveGlobListings "o1" "d1" |>
               <| w_glob ::= invalidateDriveGlobListings "o1" "d1" |>.
Definition sample_commit (x : Writer) (w : World MemStore) : World MemStore :=
  (createVersion_commit x.(wr_draws) x.(wr_now) x.(wr_ctx) x.(wr_params) 1 w).2.

Lemma versions_contiguous_witness :
  contiguous (sample_commit (sample_writer "u1" "2") (sample_commit (sample_writer "u2" "1") sample_racing)).(w_db).
Proof.
  set (x := sample_writer "u2" "1"). set (y := sample_writer "u1" "2").
  set (w1 := sample_world <| w_glob ::= invalidateDriveGlobListings "o1" "d1" |>).
  assert (B1 : writer_step (sample_world, []) (w1, [(x, 1)])) by exact (writer_begins x sample_world []).
  assert (B2 : writer_step (w1, [(x, 1)]) (sample_racing, [(x, 1); (y, 1)])) by exact (writer_begins y w1 [(x, 1)]).
  assert (H1 : writer_step (sample_racing, [(x, 1); (y, 1)]) (sample_commit x sample_racing, [(y, 1)]))
    by exact (writer_commits x 1 sample_racing [] [(y, 1)]).
  assert (H2 : writer_step (sample_commit x sample_racing, [(y, 1)])
                 (sample_commit y (sample_commit x sample_racing), []))
    by exact (writer_commits y 1 (sample_commit x sample_racing) [] []).
  apply (versions_contiguous sample_world _ [] sample_contiguous).
  exact (rtc_l _ _ _ _ B1 (rtc_l _ _ _ _ B2 (rtc_l _ _ _ _ H1 (rtc_once _ _ H2)))).
Defined.

Lemma concurrent_write_conflict_witness :
  let w1 := sample_commit (sample_writer "u2" "1") sample_racing in
  createVersion_commit (sample_draws "2") 5 (sample_ctx "u1") (sample_params "/a.txt" "u1") 1 w1 =
  (Throw (conflict_error "/a.txt" 1), w1).
Proof.
  assert (Hrun : is_ok (createVersion_commit (sample_draws "1") 5 (sample_ctx "u2") (sample_params "/a.txt" "u2") 1
                          sample_racing).1 = true) by (vm_compute; reflexivity).
  cbv zeta. unfold sample_commit. cbn [wr_draws wr_now wr_ctx wr_params sample_writer].
  destruct (createVersion_commit (sample_draws "1") 5 _ _ 1 sample_racing) as [[v|e] w1] eqn:E; [|discriminate Hrun].
  exact (concurrent_write_conflict (sample_draws "1") (sample_draws "2") 5 5 (sample_ctx "u2") (sample_ctx "u1")
    (sample_params "/a.txt" "u2") (sample_params "/a.txt" "u1") 1 v sample_racing w1 eq_refl eq_refl E).
Defined.
