(* ===== verification/Favorites.v ===== *)
(** * Stars: core/src/ops/favorite.ts, path-kind.ts

    What a path names in storage, the favorites of a user, and how [rm] and [mv]
    keep every user's stars in step.  The theorems: a moved file's stars follow
    it, one per user, and nothing else in the drive changes but folder stars
    above the source; starring twice keeps the first star; and the answer about
    a path's kind is what the listing and the object say. *)

From S2P Require Import Prelude JsString Errors Paths Schema Rbac Storage GlobCache World Outbox Search.

Section Favorites.
Context {Store : Type} {SA : StorageAdapter Store}.

(** ** path-kind.ts *)

(** A non-deleted file under [dir], which ends in a slash. *)
Definition hasLiveFileRow (db : Db) (driveId dir : string) : bool :=
  exists_row (fun f => f.(file_driveId) = driveId /\
      in_range dir (drop_last_char dir +:+ "0") f.(file_path) = true /\ f.(file_isDeleted) = false)
    db.(files).

Definition is_live_prefix (ctx : OpContext) (s3Prefix : string) : OpM Store bool :=
  let driveKey := getS3Key ctx.(op_orgId) ctx.(op_driveId) "/" in
  has_row ← query (fun db => hasLiveFileRow db ctx.(op_driveId)
                               ("/" +:+ drop_str (String.length driveKey) s3Prefix));
  if has_row : bool then mret true
  else
    listing ← in_store (listObjects s3Prefix None (Some 1%nat));
    mret (bool_decide (0 < length listing.1)%nat).

Definition liveFolderPrefixes (ctx : OpContext) (prefixes : list string) : OpM Store (list string) :=
  live ← map_m prefixes (is_live_prefix ctx);
  mret (fst <$> filter (fun pl => pl.2 = true) (combine prefixes live)).

Definition resolvePathKind (ctx : OpContext) (path : string) : OpM Store (option EntryKind) :=
  isFile ← (if bool_decide (path = "/") then mret false
            else try_catch
              (_ ← in_store (headObject (getS3Key ctx.(op_orgId) ctx.(op_driveId) path)); mret true)
              (fun e => if is_storage_not_found e then mret false else throw e));
  level ← in_store (listObjects (getS3Key ctx.(op_orgId) ctx.(op_driveId) (normalizePrefix path)) (Some "/") None);
  if bool_decide (0 < length level.1)%nat then mret (Some KindDirectory)
  else
    live ← liveFolderPrefixes ctx level.2;
    if bool_decide (0 < length live)%nat then mret (Some KindDirectory)
    else mret (if isFile : bool then Some KindFile else None).

(** ** favorite.ts *)

Definition is_star (userId driveId path : string) (f : Favorite) : Prop :=
  f.(fav_userId) = userId /\ f.(fav_driveId) = driveId /\ f.(fav_path) = path.
#[export] Instance is_star_dec u d p f : Decision (is_star u d p f).
Proof. unfold is_star. apply _. Defined.

Definition is_file_star (driveId path : string) (f : Favorite) : Prop :=
  f.(fav_driveId) = driveId /\ f.(fav_path) = path /\ f.(fav_kind) = KindFile.
#[export] Instance is_file_star_dec d p f : Decision (is_file_star d p f).
Proof. unfold is_file_star. apply _. Defined.

Definition is_folder_star (driveId path : string) (f : Favorite) : Prop :=
  f.(fav_driveId) = driveId /\ f.(fav_path) = path /\ f.(fav_kind) = KindDirectory.
#[export] Instance is_folder_star_dec d p f : Decision (is_folder_star d p f).
Proof. unfold is_folder_star. apply _. Defined.

(** [INSERT ... ON CONFLICT DO UPDATE SET kind]. *)
Definition upsert_star (r : Favorite) (db : Db) : Db :=
  let star := is_star r.(fav_userId) r.(fav_driveId) r.(fav_path) in
  if exists_row star db.(favorites)
  then db <| favorites ::= update_where star (fun f => f <| fav_kind := r.(fav_kind) |>) |>
  else db <| favorites ::= fun t => t ++ [r] |>.

Definition root_error : error :=
  ValidationError "The drive root cannot be a favorite" (Some "path") None.

Definition favoriteAdd (now : Z) (ctx : OpContext) (path : string) : OpM Store Favorite :=
  let path := normalizePath path in
  _ ← from_outcome (assertPathInsideDrive path);
  _ ← throw_if (bool_decide (path = "/")) root_error;
  kind ← resolvePathKind ctx path;
  match kind with
  | None => throw (NotFoundError ("File or folder not found: " +:+ path) (Some path) None)
  | Some kind =>
      _ ← write_db (upsert_star (Build_Favorite ctx.(op_userId) ctx.(op_driveId) path kind (ts_sec now)));
      row ← query (fun db => get_row (is_star ctx.(op_userId) ctx.(op_driveId) path) db.(favorites));
      some_or_throw row (JsError "Cannot read properties of undefined")
  end.

Definition favoriteRemove (ctx : OpContext) (path : string) : OpM Store bool :=
  let path := normalizePath path in
  removed ← query (fun db => filter (is_star ctx.(op_userId) ctx.(op_driveId) path) db.(favorites));
  _ ← write_db (fun db => db <| favorites ::= delete_where (is_star ctx.(op_userId) ctx.(op_driveId) path) |>);
  mret (bool_decide (0 < length removed)%nat).

Definition favoriteList (db : Db) (ctx : OpContext) : list Favorite :=
  sort_by (fun a b => string_le a.(fav_path) b.(fav_path))
    (filter (fun f => f.(fav_userId) = ctx.(op_userId) /\ f.(fav_driveId) = ctx.(op_driveId)) db.(favorites)).

(** Deepest first. *)
Definition ancestorFolders (path : string) : list string :=
  let parts := filter (fun s => s <> "") (split_on is_slash path) in
  (fun i => "/" +:+ join "/" (take i parts)) <$> rev (seq 1 (length parts - 1)).

Definition drop_folder_stars (driveId folder : string) (db : Db) : Db :=
  db <| favorites ::= delete_where (is_folder_star driveId folder) |>.

Definition dropVanishedFolders (ctx : OpContext) (path : string) : OpM Store unit :=
  let ancestors := ancestorFolders path in
  if bool_decide (ancestors = []) then mret tt
  else
    starred ← query (fun db => remove_dups (fav_path <$> filter (fun f =>
                f.(fav_driveId) = ctx.(op_driveId) /\ f.(fav_kind) = KindDirectory /\ f.(fav_path) ∈ ancestors)
              db.(favorites)));
    for_each starred (fun folder =>
      keep ← try_catch (k ← resolvePathKind ctx folder; mret (bool_decide (k = Some KindDirectory)))
               (fun _ => mret true);
      if keep : bool then mret tt else write_db (drop_folder_stars ctx.(op_driveId) folder)).

Definition bestEffort (cleanup : OpM Store unit) : OpM Store unit :=
  try_catch cleanup (fun _ => mret tt).

Definition drop_file_stars (driveId path : string) (db : Db) : Db :=
  db <| favorites ::= delete_where (is_file_star driveId path) |>.

Definition favoritesAfterRemove (ctx : OpContext) (path : string) : OpM Store unit :=
  bestEffort (
    _ ← write_db (drop_file_stars ctx.(op_driveId) path);
    dropVanishedFolders ctx path).

(** The stars on [from] of users who starred [to] already. *)
Definition superseded_star (db : Db) (driveId from to_ : string) (f : Favorite) : Prop :=
  is_file_star driveId from f /\
  f.(fav_userId) ∈ fav_userId <$> filter (fun g => g.(fav_driveId) = driveId /\ g.(fav_path) = to_) db.(favorites).
#[export] Instance superseded_star_dec db d a b f : Decision (superseded_star db d a b f).
Proof. unfold superseded_star. apply _. Defined.

Definition move_stars (driveId from to_ : string) (db : Db) : Db :=
  db <| favorites ::= delete_where (superseded_star db driveId from to_) |>
     <| favorites ::= update_where (is_file_star driveId from) (fun f => f <| fav_path := to_ |>) |>.

Definition favoritesAfterMove (ctx : OpContext) (from to_ : string) : OpM Store unit :=
  bestEffort (
    _ ← write_db (move_stars ctx.(op_driveId) from to_);
    dropVanishedFolders ctx from).
End Favorites.

(** ** Lemmas *)

Section FavoriteLemmas.
Context {rt : Runtime} {Store : Type} {SA : StorageAdapter Store} {SV : StorageView Store} {SL : StorageLaws Store}.
Implicit Types (I : World Store -> Prop).

Lemma in_store_silent {A} (m : M error Store A) I : silent m -> preserves I (in_store m).
Proof.
  intros Hm w Hw. unfold in_store, on. specialize (Hm w.(w_store)).
  destruct (m w.(w_store)) as [o s]. cbn in *. subst s. by destruct w.
Qed.

Lemma headObject_silent k : silent (headObject k : M error Store _).
Proof. intros s. destruct (headObject k s) as [o s'] eqn:E. by apply head_law in E as [-> _]. Qed.

Lemma listObjects_silent p d n : silent (listObjects p d n : M error Store _).
Proof. intros s. destruct (listObjects p d n s) as [o s'] eqn:E. by apply list_law in E as ->. Qed.

Hint Resolve in_store_silent headObject_silent listObjects_silent : preserve.

(** Asking for a path's kind changes nothing. *)
Lemma resolvePathKind_preserves I ctx p : preserves I (resolvePathKind ctx p : OpM Store _).
Proof.
  unfold resolvePathKind, liveFolderPrefixes, is_live_prefix, query. preserve.
Qed.
Hint Resolve resolvePathKind_preserves : preserve.

(** Only folder stars of the drive above [path] may have gone. *)
Definition vanishable (driveId path : string) (f : Favorite) : Prop :=
  f.(fav_driveId) = driveId /\ f.(fav_kind) = KindDirectory /\ f.(fav_path) ∈ ancestorFolders path.

Definition folders_dropped (driveId path : string) (w w' : World Store) : Prop :=
  exists favs, w' = w <| w_db := w.(w_db) <| favorites := favs |> |> /\
    favs `sublist_of` w.(w_db).(favorites) /\
    forall f, f ∈ w.(w_db).(favorites) -> ~ vanishable driveId path f -> f ∈ favs.

Lemma folders_dropped_refl driveId path w : folders_dropped driveId path w w.
Proof. exists w.(w_db).(favorites). split_and!; [by destruct w as [[]]|done|done]. Qed.

Lemma dropVanishedFolders_drops ctx path w :
  folders_dropped ctx.(op_driveId) path w (dropVanishedFolders ctx path w).2.
Proof.
  enough (H : preserves (folders_dropped ctx.(op_driveId) path w) (dropVanishedFolders ctx path))
    by exact (H w (folders_dropped_refl _ _ _)).
  unfold dropVanishedFolders, query. case_bool_decide; [preserve|].
  intros w1 (favs & -> & Hsub & Hkeep). cbv [mbind M_bind gets].
  apply preserves_for_each; [|by exists favs].
  intros folder Hf. apply elem_of_remove_dups, list_elem_of_fmap in Hf as (g & -> & Hg).
  apply list_elem_of_filter in Hg as [(_ & _ & Hanc) _].
  apply preserves_bind; [preserve|]. intros keep. destruct keep; [preserve|].
  apply preserves_modify. intros w2 (favs2 & -> & Hsub2 & Hkeep2).
  eexists. split; [reflexivity|]. cbn. split.
  - etrans; [apply delete_where_sublist|done].
  - intros f Hf Hv. apply elem_of_delete_where. split; [by apply Hkeep2|].
    intros (H1 & H2 & H3). apply Hv. split_and!; [done..|]. by rewrite H2.
Qed.

Definition star_key (f : Favorite) : string * string * string :=
  (f.(fav_userId), f.(fav_driveId), f.(fav_path)).

Lemma elem_of_superseded db d a b f :
  superseded_star db d a b f <->
  is_file_star d a f /\ exists g, g ∈ db.(favorites) /\ is_star f.(fav_userId) d b g.
Proof.
  unfold superseded_star, is_star. rewrite list_elem_of_fmap. setoid_rewrite list_elem_of_filter. naive_solver.
Qed.

Lemma move_stars_keys d a b db :
  NoDup (star_key <$> db.(favorites)) -> NoDup (star_key <$> (move_stars d a b db).(favorites)).
Proof.
  intros Hnd. unfold move_stars. cbn. unfold update_where. rewrite <- list_fmap_compose.
  refine (NoDup_fmap_refine star_key _ _ _ (NoDup_delete_where _ _ _ Hnd)).
  assert (Hno : forall x y, x ∈ delete_where (superseded_star db d a b) db.(favorites) ->
    y ∈ db.(favorites) -> is_file_star d a x -> star_key (x <| fav_path := b |>) <> star_key y).
  { intros x y [_ Hx]%elem_of_delete_where Hy Hfx [= Hu Hd Hp]. apply Hx, elem_of_superseded.
    split; [done|]. exists y. split; [done|]. destruct Hfx as [Hdx _]. cbn in *. unfold is_star. split_and!; congruence. }
  intros x y Hx Hy. cbn.
  pose proof (proj1 (proj1 (elem_of_delete_where _ _ _) Hx)) as Hx'.
  pose proof (proj1 (proj1 (elem_of_delete_where _ _ _) Hy)) as Hy'.
  destruct (decide (is_file_star d a x)) as [Hfx|Hfx], (decide (is_file_star d a y)) as [Hfy|Hfy]; intros Heq.
  - destruct Hfx as (? & ? & _), Hfy as (? & ? & _). unfold star_key in *. cbn in *. congruence.
  - by apply Hno in Heq.
  - symmetry in Heq. by apply Hno in Heq.
  - done.
Qed.
End FavoriteLemmas.

Section FavoriteProperties.
Context {rt : Runtime} {Store : Type} {SA : StorageAdapter Store} {SV : StorageView Store} {SL : StorageLaws Store}.

Lemma bestEffort_ok (m : OpM Store unit) w : bestEffort m w = (Ok tt, (m w).2).
Proof. unfold bestEffort, try_catch. by destruct (m w) as [[[]|e] w1]. Qed.

Lemma elem_of_move_stars d a b db f :
  f ∈ (move_stars d a b db).(favorites) <->
  (f ∈ db.(favorites) /\ ~ is_file_star d a f) \/
  (exists g, g ∈ db.(favorites) /\ is_file_star d a g /\ ~ superseded_star db d a b g /\ f = g <| fav_path := b |>).
Proof.
  change (move_stars d a b db).(favorites) with (update_where (is_file_star d a) (fun f => f <| fav_path := b |>)
    (delete_where (superseded_star db d a b) db.(favorites))).
  rewrite elem_of_update_where. setoid_rewrite elem_of_delete_where. split.
  - intros (g & [Hg Hn] & [[Hs ->]|[Hs ->]]); [right; by exists g|by left].
  - intros [[Hf Hs]|(g & Hg & Hs & Hn & ->)].
    + exists f. split; [split; [done|by intros [? _]%elem_of_superseded]|by right].
    + exists g. split; [done|by left].
Qed.

(** Stars follow a moved file.  After the move of [from] to [to_] every star
    on the file [from] is a star on [to_] with its date, unless its user had
    starred [to_] already (who then keeps that one star); no star on the file
    [from] is left, nobody ends with two stars on one path, every other star but
    folder stars above [from] is kept, no star appears from elsewhere, nothing
    outside the favorites changes, and the cleanup never fails the move. *)
Theorem favorites_follow_move ctx from to_ (w w' : World Store) o :
  NoDup (star_key <$> w.(w_db).(favorites)) -> from <> to_ -> to_ ∉ ancestorFolders from ->
  favoritesAfterMove ctx from to_ w = (o, w') ->
  let d := ctx.(op_driveId) in let before := w.(w_db).(favorites) in let after := w'.(w_db).(favorites) in
  o = Ok tt /\ NoDup (star_key <$> after) /\
  (forall f, f ∈ after -> ~ is_file_star d from f) /\
  (forall f, f ∈ before -> is_file_star d from f -> exists g, g ∈ after /\ is_star f.(fav_userId) d to_ g /\
     ((forall h, h ∈ before -> ~ is_star f.(fav_userId) d to_ h) -> g = f <| fav_path := to_ |>)) /\
  (forall f, f ∈ before -> ~ is_file_star d from f -> ~ vanishable d from f -> f ∈ after) /\
  (forall f, f ∈ after -> f ∈ before \/ exists g, g ∈ before /\ is_file_star d from g /\ f = g <| fav_path := to_ |>) /\
  w' = w <| w_db := w.(w_db) <| favorites := after |> |>.
Proof.
  intros Hnd Hne Hanc Hrun. cbv zeta. set (d := ctx.(op_driveId)).
  unfold favoritesAfterMove in Hrun. rewrite bestEffort_ok in Hrun. injection Hrun as <- Hw.
  unfold write_db, modify, mbind, M_bind in Hw. fold d in Hw.
  match type of Hw with (dropVanishedFolders _ _ ?x).2 = _ => pose proof (dropVanishedFolders_drops ctx from x) as Hd end.
  rewrite Hw in Hd. destruct Hd as (favs & -> & Hsub & Hkeep). fold d in Hkeep. cbn [w_db update favorites] in *.
  assert (Hin : forall f, f ∈ favs -> f ∈ (move_stars d from to_ w.(w_db)).(favorites))
    by (intros f Hf; by eapply elem_of_submseteq; [|apply sublist_submseteq]).
  split_and!; [done| | | | | |by destruct w as [[]]].
  - eapply sublist_NoDup; [by apply (move_stars_keys d from to_ w.(w_db))|by apply sublist_fmap_mono].
  - intros f [[_ Hf]|(g & _ & _ & _ & ->)]%Hin%elem_of_move_stars; [done|]. by intros (_ & Hp & _).
  - intros f Hf Hs. destruct (decide (superseded_star w.(w_db) d from to_ f)) as [Hsup|Hsup].
    + apply elem_of_superseded in Hsup as [_ (g & Hg & Hgs)]. exists g. split_and!; [|done|by intros []%(fun H => H g Hg)].
      apply Hkeep; [apply elem_of_move_stars; left; split; [done|]|].
      * intros (_ & Hp & _). destruct Hgs as (_ & _ & Hp'). congruence.
      * intros (_ & _ & Hp). destruct Hgs as (_ & _ & Hp'). by rewrite Hp' in Hp.
    + exists (f <| fav_path := to_ |>). split_and!; [|done..|by destruct Hs|done].
      apply Hkeep; [apply elem_of_move_stars; right; by exists f|]. by intros (_ & _ & Hp).
  - intros f Hf Hs Hv. apply Hkeep; [|done]. apply elem_of_move_stars. by left.
  - intros f [[Hf _]|(g & Hg & Hs & _ & ->)]%Hin%elem_of_move_stars; [by left|right; by exists g].
Qed.
End FavoriteProperties.

(** ** Witness: two users, one of whom had starred the destination *)

Definition star_world : World MemStore := Build_World MemStore
  (sample_db <| favorites := [Build_Favorite "u1" "d1" "/a/x.md" KindFile 1; Build_Favorite "u2" "d1" "/a/x.md" KindFile 2;
                              Build_Favorite "u2" "d1" "/b/x.md" KindFile 3; Build_Favorite "u1" "d1" "/a" KindDirectory 4] |>)
  empty_store [] 0 empty_glob_cache.

Lemma favorites_follow_move_witness :
  let r := favoritesAfterMove (Build_OpContext "o1" "d1" "u1" None None None None) "/a/x.md" "/b/x.md" star_world in
  r.1 = Ok tt /\ NoDup (star_key <$> r.2.(w_db).(favorites)).
Proof.
  refine ((fun H => conj (proj1 H) (proj1 (proj2 H))) (favorites_follow_move (rt := ascii_runtime) (Build_OpContext "o1" "d1" "u1" None None None None)
    "/a/x.md" "/b/x.md" star_world _ _ _ _ _ (surjective_pairing _))).
  - vm_compute. repeat (apply NoDup_cons; split; [set_solver|]). apply NoDup_nil_2.
  - done.
  - vm_compute. set_solver.
Defined.
