(* ===== verification/Share.v ===== *)
(** * Share links: core/src/ops/share.ts

    A share is a public link to one file or one folder ("site") of a drive; only
    the hash of its token is stored.  Opening a view-limited link spends a view
    and mints a grant, the credential for the file's bytes, in one transaction.
    Random tokens and ids and the clock are arguments.  The signer of presigned
    URLs and the platform's URL parser are parameters.  The theorems: the atomic
    guard of a view agrees with the state that is shown; the view counter is
    exact, bounded and frozen by a revocation, over any sequence of share
    operations; bytes of a view-limited link need the grant of a counted view; a
    site link serves nothing outside its folder; a revocation reaches exactly
    the links the caller may revoke. *)

From S2P Require Import Prelude JsString Errors Paths Schema Rbac Invites Text Storage GlobCache World Outbox Search Favorites.

Section Share.
Context {rt : Runtime}.

Definition SHARE_DEFAULT_TTL_SECONDS : Z := 86400.
Definition SHARE_MAX_TTL_SECONDS : Z := 604800.
(** [Date.UTC(2999, 0, 1)]. *)
Definition SHARE_NEVER_EXPIRES_AT : Z := 32472144000000.
Definition SHARE_VIEW_GRANT_TTL_SECONDS : Z := 3600.

(** ** Tokens *)

Definition isWellFormedShareToken (token : string) : bool := is_token token.
Definition hashShareToken (token : string) : string := sha256hex token.

(** [[^/?#]+], from the start of [s]. *)
Fixpoint link_segment (s : string) : string :=
  match s with
  | String c s' =>
      if bool_decide (c = slash) || bool_decide (c = "?"%char) || bool_decide (c = "#"%char) then EmptyString
      else String c (link_segment s')
  | EmptyString => EmptyString
  end.

(** [/share/] or [/site/] and a segment, at the start of [s]. *)
Definition match_share_link (s : string) : option string :=
  if starts_with "/share/" s then truthy (Some (link_segment (drop_str 7 s)))
  else if starts_with "/site/" s then truthy (Some (link_segment (drop_str 6 s)))
  else None.

Definition extractShareToken (input : string) : option string :=
  let trimmed := trim input in
  let candidate := search match_share_link trimmed ?? trimmed in
  if isWellFormedShareToken candidate then Some candidate else None.

(** ** Records and states *)

Record ShareRecord : Type := {
  sh_id : string;
  sh_orgId : string;
  sh_driveId : string;
  sh_path : string;
  sh_kind : ShareKind;
  sh_expiresAt : Z;
  sh_neverExpires : bool;
  sh_maxViews : option Z;
  sh_views : Z;
  sh_lastViewedAt : option Z;
  sh_createdBy : string;
  sh_createdAt : Z;
  sh_revokedAt : option Z
}.

Inductive ShareState : Type := StActive | StRevoked | StExpired | StExhausted.
#[export] Instance ShareState_eq_dec : EqDecision ShareState.
Proof. solve_decision. Defined.

Definition toRecord (row : Share) : ShareRecord :=
  Build_ShareRecord row.(share_id) row.(share_orgId) row.(share_driveId) row.(share_path) row.(share_kind)
    row.(share_expiresAt) row.(share_neverExpires) row.(share_maxViews) row.(share_views) row.(share_lastViewedAt)
    row.(share_createdBy) row.(share_createdAt) row.(share_revokedAt).

Definition findShareByToken (db : Db) (token : string) : option ShareRecord :=
  if negb (isWellFormedShareToken token) then None
  else toRecord <$> get_row (fun s => s.(share_tokenHash) = hashShareToken token) db.(shares).

Definition getShareState (share : ShareRecord) (now : Z) : ShareState :=
  match share.(sh_revokedAt) with
  | Some _ => StRevoked
  | None =>
      if share.(sh_expiresAt) <=? now then StExpired
      else match share.(sh_maxViews) with
           | Some m => if m <=? share.(sh_views) then StExhausted else StActive
           | None => StActive
           end
  end.

(** ** Views and grants *)

(** The guards of the UPDATE: a date is compared in whole seconds. *)
Definition consumable (token : string) (now : Z) (s : Share) : Prop :=
  s.(share_tokenHash) = hashShareToken token /\ s.(share_revokedAt) = None /\ ts_sec now < s.(share_expiresAt) /\
  match s.(share_maxViews) with None => True | Some m => s.(share_views) < m end.
#[export] Instance consumable_dec t n s : Decision (consumable t n s).
Proof. unfold consumable. destruct (share_maxViews s); apply _. Defined.

Definition count_view (now : Z) (s : Share) : Share :=
  s <| share_views ::= Z.succ |> <| share_lastViewedAt := Some (ts_sec now) |>.

Definition consumeShareView (token : string) (now : Z) : DbM (option ShareRecord) :=
  if negb (isWellFormedShareToken token) then mret None
  else
    row ← gets (fun db => get_row (consumable token now) db.(shares));
    _ ← modify (fun db => db <| shares ::= update_where (consumable token now) (count_view now) |>);
    mret ((fun s => toRecord (count_view now s)) <$> row).

(** A view as the caller sees it: the grant's token and its expiry. *)
Record OpenedShareView : Type := {
  ov_share : ShareRecord;
  ov_grant : option (string * Z)
}.

Definition insert_grant (r : ShareViewGrant) : DbM unit :=
  insert (fun db => first_taken [(exists_row (fun g => g.(grant_grantHash) = r.(grant_grantHash)) db.(shareViewGrants),
                                  "share_view_grants.grant_hash")])
    (fun _ => true) (fun db => db <| shareViewGrants ::= fun t => t ++ [r] |>).

Definition grant_expiry (now : Z) (share : ShareRecord) : Z :=
  Z.min (ts_sec now + SHARE_VIEW_GRANT_TTL_SECONDS * 1000) share.(sh_expiresAt).

(** [grantToken] is drawn at random. *)
Definition openShareView (grantToken token : string) (now : Z) : DbM (option OpenedShareView) :=
  transaction (
    share ← consumeShareView token now;
    match share with
    | None => mret None
    | Some share =>
        _ ← modify (fun db => db <| shareViewGrants ::= delete_where (fun g => g.(grant_expiresAt) <= ts_sec now) |>);
        match share.(sh_maxViews) with
        | None => mret (Some (Build_OpenedShareView share None))
        | Some _ =>
            let expiresAt := grant_expiry now share in
            _ ← insert_grant (Build_ShareViewGrant (hashShareToken grantToken) share.(sh_id) (ts_sec expiresAt) (ts_sec now));
            mret (Some (Build_OpenedShareView share (Some (grantToken, expiresAt))))
        end
    end).

Inductive DenialReason : Type := NotFound | Gone | GrantRequired.
Inductive ShareByteAccess : Type := BytesOk (share : ShareRecord) | BytesDenied (reason : DenialReason).

Definition valid_grant (hash shareId : string) (now : Z) (g : ShareViewGrant) : Prop :=
  g.(grant_grantHash) = hash /\ g.(grant_shareId) = shareId /\ ts_sec now < g.(grant_expiresAt).
#[export] Instance valid_grant_dec h i n g : Decision (valid_grant h i n g).
Proof. unfold valid_grant. apply _. Defined.

Definition authorizeShareBytes (db : Db) (token : string) (grant : option string) (now : Z) : ShareByteAccess :=
  match findShareByToken db token with
  | None => BytesDenied NotFound
  | Some share =>
      let state := getShareState share now in
      if bool_decide (state = StRevoked) || bool_decide (state = StExpired) then BytesDenied Gone
      else match share.(sh_maxViews) with
      | None => BytesOk share
      | Some _ =>
          let denied := if bool_decide (state = StExhausted) then Gone else GrantRequired in
          match truthy grant with
          | None => BytesDenied denied
          | Some grant =>
              if negb (isWellFormedShareToken grant) then BytesDenied denied
              else if exists_row (valid_grant (hashShareToken grant) share.(sh_id) now) db.(shareViewGrants)
              then BytesOk share else BytesDenied denied
          end
      end
  end.

(** ** Presigned URLs *)

Definition capUrlTtlSeconds (share : ShareRecord) (capSeconds at_ : Z) : option Z :=
  let remaining := (share.(sh_expiresAt) - at_) / 1000 in
  let ttl := Z.min capSeconds remaining in
  if 1 <=? ttl then Some ttl else None.

(** [Date.UTC(year, month, day, hour, minute, second)], [month] from 0. *)
Definition days_before_month (year month : Z) : Z :=
  let y := year + month / 12 in
  let m := month mod 12 in
  let y' := if m <? 2 then y - 1 else y in
  let shifted := (m + 10) mod 12 in
  let doe := y' mod 400 * 365 + y' mod 400 / 4 - y' mod 400 / 100 + (153 * shifted + 2) / 5 in
  y' / 400 * 146097 + doe - 719468.
Definition date_UTC (year month day hour minute second : Z) : Z :=
  let y := if (0 <=? year) && (year <=? 99) then 1900 + year else year in
  (days_before_month y month + day - 1) * 86400000 + hour * 3600000 + minute * 60000 + second * 1000.

(** A Date: its time, or NaN when it is out of range. *)
Definition TIME_MAX : Z := 8640000000000000.
Definition js_date (t : Z) : option Z := if Z.abs t <=? TIME_MAX then Some t else None.

(** [s.slice(from, from + n)], when it is all digits. *)
Definition digits_at (s : string) (from n : nat) : option Z :=
  let d := take_str n (drop_str from s) in
  if Nat.eqb (String.length d) n && all_digits d then Some (digits_value 0 d) else None.

(** [YYYYMMDDTHHMMSSZ]. *)
Definition parse_amz_date (s : string) : option Z :=
  if Nat.eqb (String.length s) 16 && starts_with "T" (drop_str 8 s) && starts_with "Z" (drop_str 15 s) then
    year ← digits_at s 0 4; month ← digits_at s 4 2; day ← digits_at s 6 2;
    hour ← digits_at s 9 2; minute ← digits_at s 11 2; second ← digits_at s 13 2;
    Some (date_UTC year (month - 1) day hour minute second)
  else None.

(** [url_params url]: [new URL(url).searchParams.get], or a throw. *)
Definition presignedUrlDeadline (url_params : string -> option (string -> option string)) (url : string)
    : option (option Z) :=
  params ← url_params url;
  signed ← parse_amz_date (params "X-Amz-Date" ?? "");
  lifetime ← params "X-Amz-Expires";
  if all_digits lifetime then Some (js_date (signed + digits_value 0 lifetime * 1000)) else None.

(** [presign key ttl contentType disposition signedAt]: the backend's signer.  A
    comparison with NaN is false. *)
Definition presignShareUrl (url_params : string -> option (string -> option string))
    (presign : string -> Z -> option string -> option string -> Z -> outcome error string)
    (signedAt : Z) (share : ShareRecord) (key : string) (capSeconds : Z) (contentType disposition : option string)
    : outcome error (option string) :=
  match capUrlTtlSeconds share capSeconds signedAt with
  | None => Ok None
  | Some ttl =>
      url ← presign key ttl contentType disposition signedAt;
      match presignedUrlDeadline url_params url with
      | None => Ok None
      | Some deadline =>
          let late := match deadline with Some t => share.(sh_expiresAt) <? t | None => false end in
          Ok (if late : bool then None else Some url)
      end
  end.

(** ** Storage keys *)

Definition shareStorageKey (share : ShareRecord) : option string :=
  match assertPathInsideDrive share.(sh_path) with
  | Throw _ => None
  | Ok _ => Some (getS3Key share.(sh_orgId) share.(sh_driveId) share.(sh_path))
  end.

Definition hex_value (c : ascii) : option nat :=
  let n := Ascii.nat_of_ascii c in
  if Nat.leb 48 n && Nat.leb n 57 then Some (n - 48)%nat
  else if Nat.leb 97 n && Nat.leb n 102 then Some (n - 87)%nat
  else if Nat.leb 65 n && Nat.leb n 70 then Some (n - 55)%nat
  else None.

(** The bytes a percent-encoded string stands for. *)
Fixpoint percent_decode (s : string) : option string :=
  match s with
  | EmptyString => Some EmptyString
  | String c s' =>
      if bool_decide (c = "%"%char) then
        match s' with
        | String h (String l rest) =>
            match hex_value h, hex_value l with
            | Some a, Some b => String (chr (a * 16 + b)) <$> percent_decode rest
            | _, _ => None
            end
        | _ => None
        end
      else String c <$> percent_decode s'
  end.

(** The bytes must be well-formed UTF-8. *)
Definition decodeURIComponent (s : string) : option string :=
  b ← percent_decode s;
  if (decode_from 0 128 191 "" b).2 then None else Some b.

Definition siteObjectKey (share : ShareRecord) (rest : string) : option string :=
  if negb (bool_decide (share.(sh_kind) = ShareSite)) then None
  else match decodeURIComponent rest with
  | None => None
  | Some decoded =>
      match assertPathInsideDrive share.(sh_path), assertPathInsideDrive decoded with
      | Ok _, Ok _ =>
          let relative := drop_slashes decoded in
          Some (getS3Key share.(sh_orgId) share.(sh_driveId) (normalizePrefix share.(sh_path) +:+ relative))
      | _, _ => None
      end
  end.

(** [id] is the event's random id. *)
Definition recordShareViewed (id : string) (now : Z) (share : ShareRecord) : DbM unit :=
  try_catch
    (insert_event (Build_Event id share.(sh_orgId) "share_viewed" "share" share.(sh_id) share.(sh_createdBy) None
       EvCreated
       (Some (JObj [("anonymous", JBool true); ("path", JStr share.(sh_path)); ("driveId", JStr share.(sh_driveId));
                    ("viewNumber", JNum share.(sh_views))])) (ts_sec now)))
    (fun _ => mret tt).

(** ** share-create *)

Record ShareCreateParams : Type := {
  sc_path : string;
  sc_expiresIn : option (option Z);  (* [None] omitted, [Some None] null *)
  sc_maxViews : option Z
}.

Record ShareCreateResult : Type := {
  scr_id : string;
  scr_kind : ShareKind;
  scr_url : string;
  scr_urlSource : ApiUrlSource;
  scr_sharePath : string;
  scr_path : string;
  scr_expiresIn : option Z;
  scr_expiresAt : option Z;
  scr_maxViews : option Z
}.

Definition insert_share (r : Share) : DbM unit :=
  insert (fun db => first_taken
      [(exists_row (fun s => s.(share_id) = r.(share_id)) db.(shares), "shares.id");
       (exists_row (fun s => s.(share_tokenHash) = r.(share_tokenHash)) db.(shares), "shares.token_hash")])
    (fun _ => true) (fun db => db <| shares ::= fun t => t ++ [r] |>).

Definition max_views_on_site : error :=
  ValidationError "maxViews is not supported when sharing a folder" (Some "maxViews")
    (Some "Leave out maxViews; use expiresIn and share-revoke to limit a site link").

Section Ops.
Context {Store : Type} {SA : StorageAdapter Store}.

(** [token] and [id] are drawn at random. *)
Definition shareCreate (token id : string) (now : Z) (ctx : OpContext) (params : ShareCreateParams)
    : OpM Store ShareCreateResult :=
  let normalizedPath := normalizePath params.(sc_path) in
  _ ← from_outcome (assertPathInsideDrive normalizedPath);
  pathKind ← resolvePathKind ctx normalizedPath;
  match pathKind with
  | None => throw (NotFoundError ("File or folder not found: " +:+ normalizedPath) (Some normalizedPath) None)
  | Some pathKind =>
      let kind := if bool_decide (pathKind = KindDirectory) then ShareSite else ShareFile in
      _ ← throw_if (bool_decide (kind = ShareSite) && bool_decide (is_Some params.(sc_maxViews))) max_views_on_site;
      let neverExpires := bool_decide (params.(sc_expiresIn) = Some None) in
      let expiresIn := if neverExpires then None
                       else Some (mjoin params.(sc_expiresIn) ?? SHARE_DEFAULT_TTL_SECONDS) in
      let expiresAt := match expiresIn with
                       | None => SHARE_NEVER_EXPIRES_AT
                       | Some n => ts_sec now + n * 1000
                       end in
      _ ← in_db (insert_share (Build_Share id ctx.(op_orgId) ctx.(op_driveId) normalizedPath kind (hashShareToken token)
             expiresAt neverExpires params.(sc_maxViews) 0 None ctx.(op_userId) (ts_sec now) None None));
      let sharePath := if bool_decide (kind = ShareSite) then "/site/" +:+ token +:+ "/" else "/share/" +:+ token in
      mret {| scr_id := id;
              scr_kind := kind;
              scr_url := match truthy ctx.(op_apiUrl) with
                         | Some url => strip_trailing_slashes url +:+ sharePath
                         | None => sharePath
                         end;
              scr_urlSource := if bool_decide (is_Some (truthy ctx.(op_apiUrl))) &&
                                  bool_decide (ctx.(op_apiUrlSource) = Some UrlConfigured)
                               then UrlConfigured else UrlRequest;
              scr_sharePath := sharePath;
              scr_path := normalizedPath;
              scr_expiresIn := expiresIn;
              scr_expiresAt := if neverExpires then None else Some expiresAt;
              scr_maxViews := params.(sc_maxViews) |}
  end.
End Ops.

(** ** share-revoke *)

Record ShareRevokeParams : Type := {
  sv_id : option string;
  sv_token : option string;
  sv_path : option string
}.

(** The rows the parameters name, or the error of the parameters. *)
Definition named_shares (db : Db) (ctx : OpContext) (params : ShareRevokeParams) : outcome error (list Share) :=
  match params.(sv_id), params.(sv_token), params.(sv_path) with
  | Some id, None, None =>
      Ok (filter (fun s => s.(share_id) = id /\ s.(share_driveId) = ctx.(op_driveId)) db.(shares))
  | None, Some input, None =>
      match extractShareToken input with
      | None => Throw (ValidationError "Not a valid share token or share URL" (Some "token") None)
      | Some token => Ok (filter (fun s => s.(share_tokenHash) = hashShareToken token /\
                                    s.(share_driveId) = ctx.(op_driveId)) db.(shares))
      end
  | None, None, Some path =>
      Ok (filter (fun s => s.(share_path) = normalizePath path /\ s.(share_driveId) = ctx.(op_driveId)) db.(shares))
  | _, _, _ =>
      Throw (ValidationError "Provide exactly one of: id, token (or the share URL), path" None
        (Some "Use the id or url returned by share-create, or a file or folder path to revoke all of its links"))
  end.

Definition unrevoked (id : string) (s : Share) : Prop := s.(share_id) = id /\ s.(share_revokedAt) = None.
#[export] Instance unrevoked_dec id s : Decision (unrevoked id s).
Proof. unfold unrevoked. apply _. Defined.

Definition mark_revoked (now : Z) (userId : string) (s : Share) : Share :=
  s <| share_revokedAt := Some (ts_sec now) |> <| share_revokedBy := Some userId |>.

(** One round of the loop: the id, when this call revoked it. *)
Definition revoke_one (now : Z) (userId : string) (row : Share) : DbM (list string) :=
  match row.(share_revokedAt) with
  | Some _ => mret []
  | None =>
      hit ← gets (fun db => exists_row (unrevoked row.(share_id)) db.(shares));
      _ ← modify (fun db => db <| shares ::= update_where (unrevoked row.(share_id)) (mark_revoked now userId) |>);
      mret (if hit : bool then [row.(share_id)] else [])
  end.

Definition is_share_admin (db : Db) (ctx : OpContext) : bool :=
  bool_decide (getUserDriveRole db ctx.(op_userId) ctx.(op_driveId) = Some Admin) ||
  bool_decide (getUserOrgRole db ctx.(op_userId) ctx.(op_orgId) = Some Admin).

Definition may_revoke (db : Db) (ctx : OpContext) (r : Share) : Prop :=
  is_share_admin db ctx = true \/ r.(share_createdBy) = ctx.(op_userId).
#[export] Instance may_revoke_dec db ctx r : Decision (may_revoke db ctx r).
Proof. unfold may_revoke. apply _. Defined.

Definition shareRevoke (now : Z) (ctx : OpContext) (params : ShareRevokeParams) : DbM (list string) :=
  rows ← reads (fun db => named_shares db ctx params);
  _ ← throw_if (bool_decide (rows = [])) (NotFoundError "Share link not found" None None);
  allowed ← gets (fun db => filter (may_revoke db ctx) rows);
  _ ← throw_if (bool_decide (allowed = []))
        (PermissionDeniedError "Only the person who created a share link, or a drive admin, can revoke it" None None
           (Some "Ask the link's creator or a drive admin to revoke it"));
  ids ← map_m allowed (revoke_one now ctx.(op_userId));
  mret (concat ids).
End Share.

(** ** The system of share operations *)

Section System.
Context {rt : Runtime} {Store : Type} {SA : StorageAdapter Store}.

Inductive share_op : Type :=
| SoCreate (token id : string) (now : Z) (ctx : OpContext) (params : ShareCreateParams)
| SoOpen (grantToken token : string) (now : Z)
| SoViewed (id : string) (now : Z) (share : ShareRecord)
| SoRevoke (now : Z) (ctx : OpContext) (params : ShareRevokeParams).

(** The views opened by an operation, each with its time, and the state after. *)
Definition run_share_op (op : share_op) (w : World Store) : list (Z * OpenedShareView) * World Store :=
  match op with
  | SoCreate token id now ctx params => ([], (shareCreate token id now ctx params w).2)
  | SoOpen grantToken token now =>
      let r := in_db (openShareView grantToken token now) w in
      (match r.1 with Ok (Some v) => [(now, v)] | _ => [] end, r.2)
  | SoViewed id now share => ([], (in_db (recordShareViewed id now share) w).2)
  | SoRevoke now ctx params => ([], (in_db (shareRevoke now ctx params) w).2)
  end.

Fixpoint run_share_ops (ops : list share_op) (w : World Store) : list (Z * OpenedShareView) * World Store :=
  match ops with
  | [] => ([], w)
  | op :: ops' =>
      let r := run_share_op op w in
      let r' := run_share_ops ops' r.2 in
      (r.1 ++ r'.1, r'.2)
  end.
End System.

(** How often the share was opened. *)
Definition opened (id : string) (views : list (Z * OpenedShareView)) : Z :=
  Z.of_nat (length (filter (fun v => v.2.(ov_share).(sh_id) = id) views)).

(** The unique keys of the table. *)
Definition shares_keyed (db : Db) : Prop :=
  NoDup (share_id <$> db.(shares)) /\ NoDup (share_tokenHash <$> db.(shares)).

Lemma opened_app id l1 l2 : opened id (l1 ++ l2) = opened id l1 + opened id l2.
Proof. unfold opened. rewrite filter_app, length_app. lia. Qed.

Lemma opened_one id now v : opened id [(now, v)] = if decide (v.(ov_share).(sh_id) = id) then 1 else 0.
Proof. unfold opened. rewrite filter_cons. cbn. by destruct (decide _). Qed.

Lemma opened_nonneg id l : 0 <= opened id l.
Proof. unfold opened. lia. Qed.

(** What becomes of a row while [views] are opened. *)
Record row_after (views : list (Z * OpenedShareView)) (s s' : Share) : Prop := {
  ra_id : s'.(share_id) = s.(share_id);
  ra_hash : s'.(share_tokenHash) = s.(share_tokenHash);
  ra_max : s'.(share_maxViews) = s.(share_maxViews);
  ra_expiry : s'.(share_expiresAt) = s.(share_expiresAt);
  ra_views : s'.(share_views) = s.(share_views) + opened s.(share_id) views;
  ra_bound : forall m, s.(share_maxViews) = Some m -> s.(share_views) <= m -> s'.(share_views) <= m;
  ra_revoked : is_Some s.(share_revokedAt) -> s'.(share_revokedAt) = s.(share_revokedAt) /\ opened s.(share_id) views = 0
}.

Section ShareLemmas.
Context {rt : Runtime}.

(** A grant that one of [views] minted. *)
Definition minted (views : list (Z * OpenedShareView)) (g : ShareViewGrant) : Prop :=
  exists now v token, (now, v) ∈ views /\ v.(ov_grant) = Some (token, grant_expiry now v.(ov_share)) /\
    g = Build_ShareViewGrant (hashShareToken token) v.(ov_share).(sh_id) (ts_sec (grant_expiry now v.(ov_share)))
          (ts_sec now).

(** What becomes of the share tables while [views] are opened. *)
Record share_later (views : list (Z * OpenedShareView)) (db db' : Db) : Prop := {
  sl_keyed : shares_keyed db';
  sl_rows : exists kept new, db'.(shares) = kept ++ new /\ Forall2 (row_after views) db.(shares) kept;
  sl_grants : forall g, g ∈ db'.(shareViewGrants) -> g ∈ db.(shareViewGrants) \/ minted views g
}.

Lemma row_after_refl s : row_after [] s s.
Proof. split; try done; unfold opened; cbn; lia. Qed.

Lemma row_after_trans l1 l2 a b c : row_after l1 a b -> row_after l2 b c -> row_after (l1 ++ l2) a c.
Proof.
  intros [Hi1 Hh1 Hm1 He1 Hv1 Hb1 Hr1] [Hi2 Hh2 Hm2 He2 Hv2 Hb2 Hr2]. split; try congruence.
  - rewrite opened_app, Hv2, Hv1, Hi1. lia.
  - intros m Hm Hle. apply Hb2; [congruence|]. by apply Hb1.
  - intros Hr. destruct (Hr1 Hr) as [Hr1' Ho1]. destruct Hr2 as [Hr2' Ho2]; [by rewrite Hr1'|].
    rewrite opened_app. split; [congruence|]. rewrite Hi1 in Ho2. lia.
Qed.

Lemma minted_weaken l l' g : (forall v, v ∈ l -> v ∈ l') -> minted l g -> minted l' g.
Proof. intros Hl (now & v & t & Hin & H). exists now, v, t. split; [by apply Hl|done]. Qed.

Lemma share_later_trans l1 l2 a b c : share_later l1 a b -> share_later l2 b c -> share_later (l1 ++ l2) a c.
Proof.
  intros [_ (k1 & n1 & Hb & Hk1) Hg1] [Hkc (k2 & n2 & Hc & Hk2) Hg2]. split; [done| |].
  - rewrite Hb in Hk2. apply Forall2_app_inv_l in Hk2 as (k3 & k4 & H3 & H4 & ->).
    exists k3, (k4 ++ n2). split; [by rewrite Hc, app_assoc|].
    clear - Hk1 H3. revert k3 H3. induction Hk1 as [|s s' l l' Hs _ IH]; intros k3 H3; inversion H3; subst; constructor.
    + by eapply row_after_trans.
    + by apply IH.
  - intros g [Hg|Hg]%Hg2; [apply Hg1 in Hg as [Hg|Hg]; [by left|]|]; right; (eapply minted_weaken; [|exact Hg]); set_solver.
Qed.

Lemma share_later_same db db' :
  shares_keyed db -> db'.(shares) = db.(shares) -> db'.(shareViewGrants) = db.(shareViewGrants) -> share_later [] db db'.
Proof.
  intros Hk Hs Hg. split.
  - unfold shares_keyed. by rewrite Hs.
  - exists db.(shares), []. rewrite Hs, app_nil_r. split; [done|]. apply Forall2_same_length_lookup.
    split; [done|]. intros i x y Hx Hy. simplify_eq. apply row_after_refl.
  - intros g. rewrite Hg. by left.
Qed.

(** The row a view is spent on. *)
Definition spendable (token : string) (now : Z) (db : Db) : option Share :=
  if isWellFormedShareToken token then get_row (consumable token now) db.(shares) else None.

Lemma consumeShareView_eq token now db :
  consumeShareView token now db =
  match spendable token now db with
  | None => (Ok None, db)
  | Some s => (Ok (Some (toRecord (count_view now s))),
               db <| shares ::= update_where (consumable token now) (count_view now) |>)
  end.
Proof.
  unfold consumeShareView, spendable. destruct (isWellFormedShareToken token); [|done].
  cbn [negb]. unfold mbind, M_bind, gets, modify. destruct (get_row _ _) as [s|] eqn:E; cbn; [done|].
  unfold mret, M_ret. f_equal. rewrite get_row_none in E.
  change (db <| shares ::= update_where (consumable token now) (count_view now) |>) with
    (db <| shares := update_where (consumable token now) (count_view now) db.(shares) |>).
  rewrite update_where_none by exact E. by destruct db.
Qed.

Lemma spendable_some token now db s :
  spendable token now db = Some s -> s ∈ db.(shares) /\ consumable token now s.
Proof. unfold spendable. destruct (isWellFormedShareToken token); [|done]. apply get_row_some. Qed.

(** The table after a spent view. *)
Lemma spent_rows token now db s v :
  shares_keyed db -> spendable token now db = Some s -> v.(ov_share) = toRecord (count_view now s) ->
  Forall2 (row_after [(now, v)]) db.(shares) (update_where (consumable token now) (count_view now) db.(shares)).
Proof.
  intros [Hid Hhash] [Hs Hc]%spendable_some Hv. unfold update_where. apply Forall2_same_length_lookup.
  split; [by rewrite length_fmap|]. intros i x y Hx Hy. rewrite list_lookup_fmap, Hx in Hy. injection Hy as <-.
  apply list_elem_of_lookup_2 in Hx. pose proof (opened_one x.(share_id) now v) as Ho. rewrite Hv in Ho. cbn in Ho.
  destruct (decide (consumable token now x)) as [Hx'|Hx'].
  - assert (x = s) as -> by (apply (NoDup_fmap_eq share_tokenHash _ _ _ Hhash Hx Hs); destruct Hc, Hx'; congruence).
    destruct Hc as (_ & Hrev & _ & Hmax). rewrite decide_True in Ho by done. split; cbn; rewrite ?Ho; try done.
    + intros m Hm _. rewrite Hm in Hmax. lia.
    + rewrite Hrev. by intros [? [=]].
  - rewrite decide_False in Ho; [split; rewrite ?Ho; try done; lia|].
    intros Heq. apply Hx'. by rewrite <- (NoDup_fmap_eq share_id _ _ _ Hid Hs Hx Heq).
Qed.

Lemma keyed_update token now db :
  shares_keyed db ->
  shares_keyed (db <| shares ::= update_where (consumable token now) (count_view now) |>).
Proof. intros [H1 H2]. split; cbn; by rewrite fmap_update_where. Qed.

Lemma openShareView_later g token now db :
  shares_keyed db ->
  let r := openShareView g token now db in
  share_later (match r.1 with Ok (Some v) => [(now, v)] | _ => [] end) db r.2.
Proof.
  intros Hk. unfold openShareView, transaction, mbind, M_bind. rewrite consumeShareView_eq.
  destruct (spendable token now db) as [s|] eqn:E; [|by apply share_later_same].
  set (db1 := db <| shares ::= update_where (consumable token now) (count_view now) |>).
  set (v := fun gr => Build_OpenedShareView (toRecord (count_view now s)) gr).
  assert (Hrows : forall gr, exists kept new, db1.(shares) = kept ++ new /\
            Forall2 (row_after [(now, v gr)]) db.(shares) kept).
  { intros gr. exists db1.(shares), []. rewrite app_nil_r. split; [done|]. by apply spent_rows with (s := s). }
  assert (Hkeep : forall x, x ∈ delete_where (fun g => g.(grant_expiresAt) <= ts_sec now) db.(shareViewGrants) ->
            x ∈ db.(shareViewGrants)) by (intros x [Hx _]%elem_of_delete_where; done).
  cbn. destruct (share_maxViews s) as [m|].
  - unfold insert_grant, insert. destruct (first_taken _); cbn; [by apply share_later_same|].
    split; [by apply keyed_update|exact (Hrows _)|].
    intros x [Hx| ->%list_elem_of_singleton]%elem_of_app; [left; by apply Hkeep|].
    right. exists now, (v (Some (g, grant_expiry now (toRecord (count_view now s))))), g. split; [set_solver|done].
  - split; [by apply keyed_update|exact (Hrows _)|]. intros x Hx. left. by apply Hkeep.
Qed.

Lemma share_later_quiet db0 db db' : share_later [] db0 db -> share_later [] db db' -> share_later [] db0 db'.
Proof. apply (share_later_trans [] []). Qed.

(** Marking unrevoked rows as revoked. *)
Lemma revoke_one_later now u row db0 : preserves (share_later [] db0) (revoke_one now u row).
Proof.
  unfold revoke_one. destruct (share_revokedAt row); [preserve|]. apply preserves_bind; [preserve|]. intros hit.
  apply preserves_bind; [|preserve]. apply preserves_modify. intros db Hdb. apply (share_later_quiet _ _ _ Hdb).
  apply sl_keyed in Hdb as [H1 H2]. split.
  - split; cbn; by rewrite fmap_update_where.
  - eexists _, []. rewrite app_nil_r. split; [reflexivity|]. cbn. unfold update_where. apply Forall2_same_length_lookup.
    split; [by rewrite length_fmap|]. intros i x y Hx Hy. rewrite list_lookup_fmap, Hx in Hy. injection Hy as <-.
    case_decide as Hr; [|apply row_after_refl]. destruct Hr as [_ Hr]. split; cbn; try done; unfold opened; cbn; try lia.
    rewrite Hr. by intros [? [=]].
  - by left.
Qed.
Hint Resolve revoke_one_later : preserve.

Lemma shareRevoke_later now ctx params db0 : preserves (share_later [] db0) (shareRevoke now ctx params).
Proof. unfold shareRevoke. preserve. Qed.

Lemma recordShareViewed_later id now share db0 : preserves (share_later [] db0) (recordShareViewed id now share).
Proof.
  unfold recordShareViewed, insert_event. apply preserves_try_catch; [|preserve].
  apply preserves_insert. intros db Hdb _ _. apply (share_later_quiet _ _ _ Hdb). apply share_later_same; [by apply Hdb|done..].
Qed.

Lemma insert_share_later r db0 : preserves (share_later [] db0) (insert_share r).
Proof.
  unfold insert_share. apply preserves_insert. intros db Hdb Htaken _. apply (share_later_quiet _ _ _ Hdb).
  apply sl_keyed in Hdb as [H1 H2].
  apply first_taken_none in Htaken as [Hid Htaken]. apply first_taken_none in Htaken as [Hhash _].
  rewrite exists_row_false in Hid, Hhash. split.
  - split; cbn; apply NoDup_fmap_snoc; auto.
  - exists db.(shares), [r]. split; [done|]. apply Forall2_same_length_lookup.
    split; [done|]. intros i x y Hx Hy. simplify_eq. apply row_after_refl.
  - by left.
Qed.

Context {Store : Type} {SA : StorageAdapter Store} {SV : StorageView Store} {SL : StorageLaws Store}.
Hint Resolve resolvePathKind_preserves : preserve.

Lemma shareCreate_later token id now ctx params db0 :
  preserves (fun w : World Store => share_later [] db0 w.(w_db)) (shareCreate token id now ctx params).
Proof.
  unfold shareCreate. apply preserves_bind; [preserve|]. intros _. apply preserves_bind; [preserve|]. intros [k|]; [|preserve].
  apply preserves_bind; [preserve|]. intros _. apply preserves_bind; [|preserve].
  intros w Hw. rewrite in_db_state. exact (insert_share_later _ _ _ Hw).
Qed.

Lemma run_share_op_later op w :
  shares_keyed w.(w_db) -> let r := run_share_op op w in share_later r.1 w.(w_db) r.2.(w_db).
Proof.
  intros Hk. pose proof (share_later_same w.(w_db) w.(w_db) Hk eq_refl eq_refl) as H0.
  destruct op as [token id now ctx params|g token now|id now share|now ctx params]; cbn.
  - by apply shareCreate_later.
  - rewrite in_db_result, in_db_state. by apply openShareView_later.
  - rewrite in_db_state. by apply recordShareViewed_later.
  - rewrite in_db_state. by apply shareRevoke_later.
Qed.

Lemma run_share_ops_later ops w :
  shares_keyed w.(w_db) -> let r := run_share_ops ops w in share_later r.1 w.(w_db) r.2.(w_db).
Proof.
  revert w. induction ops as [|op ops IH]; intros w Hk; cbn; [by apply share_later_same|].
  pose proof (run_share_op_later op w Hk) as H1. eapply share_later_trans; [exact H1|]. apply IH. apply H1.
Qed.
End ShareLemmas.

(** ** Properties *)

(** Dates are stored in whole seconds. *)
Definition whole_seconds (db : Db) : Prop :=
  forall s, s ∈ db.(shares) -> ts_sec s.(share_expiresAt) = s.(share_expiresAt).

Lemma ts_sec_lt_iff now e : ts_sec e = e -> ts_sec now < e <-> now < e.
Proof.
  intros He. pose proof (ts_sec_le now). split; [|lia]. intros Hlt. unfold ts_sec in *. nia.
Qed.

Lemma ts_sec_lt a b : ts_sec a < ts_sec b -> a < b.
Proof. intros H. pose proof (ts_sec_le a). pose proof (ts_sec_le b). unfold ts_sec in *. nia. Qed.

Section ShareProperties.
Context {rt : Runtime}.

Lemma active_consumable token now s :
  ts_sec s.(share_expiresAt) = s.(share_expiresAt) -> s.(share_tokenHash) = hashShareToken token ->
  getShareState (toRecord s) now = StActive <-> consumable token now s.
Proof.
  intros He Hh. unfold getShareState, consumable. cbn. rewrite (ts_sec_lt_iff now _ He).
  destruct (share_revokedAt s); [naive_solver|].
  destruct (share_expiresAt s <=? now) eqn:Ee; [apply Z.leb_le in Ee; split; [done|lia]|]. apply Z.leb_gt in Ee.
  destruct (share_maxViews s) as [m|]; [|naive_solver].
  destruct (m <=? share_views s) eqn:Em; [apply Z.leb_le in Em; split; [done|lia]|apply Z.leb_gt in Em; naive_solver].
Qed.

(** A view is spent exactly when the link shows as active.  The guards inside
    the atomic UPDATE of [consumeShareView] agree with the state that
    [getShareState] reads: on an active link the call counts one view and returns
    the counted link; on an unknown, revoked, expired or used-up link it returns
    nothing and changes nothing. *)
Theorem share_view_gate token now db :
  shares_keyed db -> whole_seconds db ->
  match findShareByToken db token with
  | Some share =>
      if decide (getShareState share now = StActive) then
        exists s db', consumeShareView token now db = (Ok (Some (toRecord (count_view now s))), db') /\
          toRecord s = share /\ count_view now s ∈ db'.(shares) /\
          (count_view now s).(share_views) = share.(sh_views) + 1
      else consumeShareView token now db = (Ok None, db)
  | None => consumeShareView token now db = (Ok None, db)
  end.
Proof.
  intros [_ Hhash] Hsec. rewrite consumeShareView_eq. unfold findShareByToken, spendable.
  destruct (isWellFormedShareToken token) eqn:Ew; [|done]. cbn [negb].
  destruct (get_row (fun s => s.(share_tokenHash) = hashShareToken token) db.(shares)) as [s|] eqn:E; cbn [fmap option_fmap option_map].
  - apply get_row_some in E as [Hs Hh]. destruct (decide (getShareState (toRecord s) now = StActive)) as [Ha|Ha].
    + apply (active_consumable token now s (Hsec s Hs) Hh) in Ha.
      rewrite (get_row_unique share_tokenHash _ _ s Hhash Hs Ha); [|intros b Hb; destruct Hb; congruence].
      eexists s, _. split; [reflexivity|]. split; [done|]. split; [|done].
      apply elem_of_update_where. exists s. split; [done|]. by left.
    + replace (get_row (consumable token now) db.(shares)) with (@None Share); [done|]. symmetry.
      apply get_row_none. intros b Hb Hc. apply Ha.
      assert (b = s) as -> by (apply (NoDup_fmap_eq share_tokenHash _ _ _ Hhash Hb Hs); destruct Hc; congruence).
      by apply (active_consumable token now s (Hsec s Hs) Hh).
  - replace (get_row (consumable token now) db.(shares)) with (@None Share); [done|]. symmetry.
    apply get_row_none. intros b Hb Hc. rewrite get_row_none in E. apply (E b Hb). by destruct Hc.
Qed.

Lemma path_names_drop_slashes p : path_names (drop_slashes p) = path_names p.
Proof.
  induction p as [|c p IH]; [done|]. cbn [drop_slashes]. case_bool_decide as Hc; [|done].
  subst c. by rewrite path_names_rooted.
Qed.

(** A site link serves nothing outside its folder.  Whatever the rest of the
    request path is, with any percent-encoding, the key a site share is turned
    into resolves, under a file system's rules for [.] and [..], to the share's
    own folder in its own drive, followed by the names of the decoded path. *)
Theorem site_key_inside_folder share rest key :
  plain_segment share.(sh_orgId) -> plain_segment share.(sh_driveId) ->
  siteObjectKey share rest = Some key ->
  exists decoded, decodeURIComponent rest = Some decoded /\ share.(sh_kind) = ShareSite /\
    resolve key = Some (share.(sh_orgId) :: "drives" :: share.(sh_driveId) ::
                          path_names share.(sh_path) ++ path_names decoded).
Proof.
  intros Ho Hd. unfold siteObjectKey. case_bool_decide as Hk; [|done]. cbn [negb].
  destruct (decodeURIComponent rest) as [decoded|]; [|done].
  destruct (assertPathInsideDrive share.(sh_path)) as [[]|] eqn:Ep; [|done].
  destruct (assertPathInsideDrive decoded) as [[]|] eqn:Er; [|done]. intros [= <-].
  apply assertPathInsideDrive_ok in Ep as [_ Ep], Er as [_ Er].
  exists decoded. split; [done|]. split; [done|].
  rewrite <- (path_names_drop_slashes decoded), <- path_names_prefix. apply key_of_names; [done..|].
  intros s. rewrite path_names_prefix, path_names_drop_slashes. intros [Hs|Hs]%elem_of_app;
    [exact (no_dot_names _ _ Ep Hs)|exact (no_dot_names _ _ Er Hs)].
Qed.

Context {Store : Type} {SA : StorageAdapter Store} {SV : StorageView Store} {SL : StorageLaws Store}.

(** C12: The view counter is exact.  Over any sequence of creations, openings,
    audits and revocations a link's counter rises by exactly the number of times
    the link was opened; so a link with [maxViews] is opened at most that often,
    and a revoked link is never opened again. *)
Theorem share_views_exact ops (w : World Store) s :
  shares_keyed w.(w_db) -> s ∈ w.(w_db).(shares) ->
  exists s', s' ∈ (run_share_ops ops w).2.(w_db).(shares) /\ s'.(share_id) = s.(share_id) /\
    s'.(share_maxViews) = s.(share_maxViews) /\
    s'.(share_views) = s.(share_views) + opened s.(share_id) (run_share_ops ops w).1 /\
    (forall m, s.(share_maxViews) = Some m -> s.(share_views) <= m -> s'.(share_views) <= m) /\
    (is_Some s.(share_revokedAt) -> opened s.(share_id) (run_share_ops ops w).1 = 0).
Proof.
  intros Hk Hs. pose proof (run_share_ops_later ops w Hk) as [_ (kept & new & Hrows & Hkept) _].
  apply list_elem_of_lookup in Hs as [i Hi]. destruct (Forall2_lookup_l _ _ _ _ _ Hkept Hi) as (s' & Hi' & H).
  exists s'. rewrite Hrows. split_and!; [apply elem_of_app; left; by eapply list_elem_of_lookup_2|apply H..|].
  intros Hr. by apply H.
Qed.

(** C13: Bytes of a view-limited link need a counted view.  If, after any sequence
    of share operations, the bytes of a view-limited link are released to a
    request, the link is neither revoked nor expired and the request's grant is
    one that was minted by an opening of this very link within the last hour
    (unless a valid grant of that link was there before). *)
Theorem share_bytes_need_counted_view ops (w : World Store) token grant now share m :
  shares_keyed w.(w_db) ->
  (forall g, g ∈ w.(w_db).(shareViewGrants) -> ~ valid_grant (hashShareToken grant) share.(sh_id) now g) ->
  authorizeShareBytes (run_share_ops ops w).2.(w_db) token (Some grant) now = BytesOk share ->
  share.(sh_maxViews) = Some m ->
  share.(sh_revokedAt) = None /\ now < share.(sh_expiresAt) /\
  exists t v minted_token e, (t, v) ∈ (run_share_ops ops w).1 /\ v.(ov_share).(sh_id) = share.(sh_id) /\
    v.(ov_grant) = Some (minted_token, e) /\ hashShareToken minted_token = hashShareToken grant /\
    now < e /\ e <= v.(ov_share).(sh_expiresAt) /\ e <= ts_sec t + SHARE_VIEW_GRANT_TTL_SECONDS * 1000.
Proof.
  intros Hk Hnone Hauth Hm. pose proof (run_share_ops_later ops w Hk) as [_ _ Hg].
  set (r := run_share_ops ops w) in *. unfold authorizeShareBytes in Hauth.
  destruct (findShareByToken _ _) as [sh|] eqn:Ef; [|done].
  destruct (bool_decide (getShareState sh now = StRevoked) || bool_decide (getShareState sh now = StExpired)) eqn:Es;
    [discriminate|]. apply orb_false_iff in Es as [Hrev%bool_decide_eq_false Hexp%bool_decide_eq_false].
  assert (Hsh : sh = share) by (destruct (sh_maxViews sh); [|congruence]; destruct (truthy _); [|done];
    destruct (negb _); [done|]; destruct (exists_row _ _); congruence).
  subst sh. rewrite Hm in Hauth. destruct (truthy (Some grant)) as [t|] eqn:Et; [|done].
  assert (t = grant) as -> by (cbn in Et; destruct grant; congruence).
  destruct (negb _); [done|]. destruct (exists_row _ _) eqn:Ex; [|done]. clear Hauth.
  apply exists_row_true in Ex as (g & Hgin & Hval). destruct (Hg g Hgin) as [Hold|(t0 & v & tok & Hin & Hgr & ->)].
  { exfalso. by eapply Hnone. }
  unfold getShareState in Hrev, Hexp. destruct (sh_revokedAt share); [done|].
  destruct (sh_expiresAt share <=? now) eqn:Ee; [done|]. apply Z.leb_gt in Ee. split_and!; [done..|].
  destruct Hval as (Hh & Hid & Hlt). cbn in Hh, Hid, Hlt. unfold grant_expiry in *.
  exists t0, v, tok, (grant_expiry t0 v.(ov_share)). unfold grant_expiry. split_and!; [done|done|done|done| |lia|lia].
  by apply ts_sec_lt.
Qed.
End ShareProperties.

Section ShareRevocation.
Context {rt : Runtime}.

(** One round on an open row of the table. *)
Lemma revoke_one_open now u r db :
  r ∈ db.(shares) -> r.(share_revokedAt) = None ->
  revoke_one now u r db =
    (Ok [r.(share_id)], db <| shares ::= update_where (unrevoked r.(share_id)) (mark_revoked now u) |>).
Proof.
  intros Hin Hr. unfold revoke_one. rewrite Hr. unfold mbind, M_bind, gets, modify, mret, M_ret.
  assert (exists_row (unrevoked r.(share_id)) db.(shares) = true) as -> by (apply exists_row_true; by exists r). done.
Qed.

(** Marking a list of rows one after the other, and at once. *)
Lemma revoke_all now u l db :
  NoDup (share_id <$> db.(shares)) -> NoDup (share_id <$> l) -> (forall r, r ∈ l -> r ∈ db.(shares)) ->
  exists idss, map_m l (revoke_one now u) db =
    (Ok idss, db <| shares ::= update_where (fun s => s.(share_id) ∈ concat idss) (mark_revoked now u) |>) /\
    concat idss = share_id <$> filter (fun r => r.(share_revokedAt) = None) l.
Proof.
  revert db. induction l as [|r l IH]; intros db Hdb Hl Hin.
  { exists []. split; [|done]. cbn. unfold mret, M_ret. f_equal.
    change (db <| shares ::= ?f |>) with (db <| shares := f db.(shares) |>).
    rewrite update_where_none by (intros x _; set_solver). by destruct db. }
  cbn in Hl. apply NoDup_cons in Hl as [Hr Hl]. assert (Hrin : r ∈ db.(shares)) by set_solver.
  cbn [map_m]. unfold mbind at 1, M_bind at 1. rewrite filter_cons. destruct (share_revokedAt r) as [t|] eqn:Er.
  - rewrite decide_False by done. destruct (IH db Hdb Hl ltac:(set_solver)) as (idss & Hrun & Hids).
    exists ([] :: idss). split; [|done]. unfold revoke_one at 1. rewrite Er. cbn [mret M_ret].
    unfold mbind, M_bind. by rewrite Hrun.
  - rewrite decide_True by done.
    set (db1 := db <| shares ::= update_where (unrevoked r.(share_id)) (mark_revoked now u) |>).
    assert (Hdb1 : NoDup (share_id <$> db1.(shares))) by (cbn; by rewrite fmap_update_where).
    destruct (IH db1 Hdb1 Hl) as (idss & Hrun & Hids).
    { intros x Hx. apply elem_of_update_where. exists x. split; [set_solver|]. right. split; [|done].
      intros [Hid _]. apply Hr. rewrite <- Hid. by apply list_elem_of_fmap_2. }
    exists ([r.(share_id)] :: idss). split; [|by rewrite fmap_cons; cbn; rewrite Hids].
    rewrite (revoke_one_open now u r db Hrin Er). fold db1. unfold mbind, M_bind. rewrite Hrun. unfold mret, M_ret. f_equal.
    pose (set := fun t => db <| shares := t |>).
    change (set (update_where (fun s => s.(share_id) ∈ concat idss) (mark_revoked now u)
                  (update_where (unrevoked r.(share_id)) (mark_revoked now u) db.(shares))) =
            set (update_where (fun s => s.(share_id) ∈ concat ([r.(share_id)] :: idss)) (mark_revoked now u) db.(shares))).
    f_equal. clear set.
    unfold update_where. rewrite <- list_fmap_compose. apply list_fmap_ext. intros i x Hx. cbn.
    apply list_elem_of_lookup_2 in Hx. destruct (decide (unrevoked r.(share_id) x)) as [[Hid Hrev]|Hnot].
    + rewrite decide_False, decide_True; [done|set_solver|]. cbn. rewrite Hids, Hid. intros Hbad. apply Hr.
      apply list_elem_of_fmap in Hbad as (y & Hy & [_ Hyl]%list_elem_of_filter). rewrite Hy. by apply list_elem_of_fmap_2.
    + destruct (decide (x.(share_id) ∈ concat idss)) as [Hc|Hc]; [rewrite decide_True; [done|set_solver]|].
      rewrite decide_False; [done|]. cbn. intros [Heq|?]%elem_of_cons; [|done].
      apply Hnot. by rewrite (NoDup_fmap_eq share_id _ _ _ Hdb Hx Hrin Heq).
Qed.

(** The rows a request names are rows of the caller's drive. *)
Lemma named_shares_rows db ctx params rows :
  named_shares db ctx params = Ok rows ->
  rows `sublist_of` db.(shares) /\ forall r, r ∈ rows -> r.(share_driveId) = ctx.(op_driveId).
Proof.
  unfold named_shares. destruct (sv_id params), (sv_token params), (sv_path params); try discriminate;
    try (destruct (extractShareToken _); [|discriminate]); intros [= <-];
    (split; [apply filter_sublist|intros r [[_ Hd] _]%list_elem_of_filter; exact Hd]).
Qed.

(** A revocation reaches exactly the links the caller may revoke.  When
    [shareRevoke] succeeds, the links that the request names in the caller's own
    drive, that are theirs or that they administer, and that were still open are
    now revoked, by the caller and at this time, in one pass; their ids are what
    is returned; and no other row of the table changes.  It fails, without any
    effect, exactly when the parameters are wrong, no link of the drive is named,
    or none of the named ones is the caller's to revoke. *)
Theorem shareRevoke_exact now ctx params db :
  shares_keyed db ->
  match named_shares db ctx params with
  | Throw e => shareRevoke now ctx params db = (Throw e, db)
  | Ok rows =>
      let allowed := filter (may_revoke db ctx) rows in
      let ids := share_id <$> filter (fun r => r.(share_revokedAt) = None) allowed in
      (forall r, r ∈ rows -> r ∈ db.(shares) /\ r.(share_driveId) = ctx.(op_driveId)) /\
      if decide (allowed = []) then exists e, shareRevoke now ctx params db = (Throw e, db)
      else shareRevoke now ctx params db =
        (Ok ids, db <| shares ::= update_where (fun s => s.(share_id) ∈ ids) (mark_revoked now ctx.(op_userId)) |>)
  end.
Proof.
  intros [Hids _]. unfold shareRevoke, reads, gets, mbind, M_bind.
  destruct (named_shares db ctx params) as [rows|e] eqn:En; [|done].
  apply named_shares_rows in En as [Hsub Hdrive]. cbv zeta.
  split; [intros r Hr; split; [by eapply elem_of_sublist|by apply Hdrive]|].
  destruct (decide (filter (may_revoke db ctx) rows = [])) as [He|Hne].
  - destruct (bool_decide (rows = [])); [by eexists|]. cbn [throw_if mret M_ret]. rewrite He. by eexists.
  - rewrite (bool_decide_false (rows = [])) by (intros ->; by apply Hne). cbn [throw_if mret M_ret].
    rewrite bool_decide_false by exact Hne. cbn [throw_if mret M_ret].
    destruct (revoke_all now ctx.(op_userId) (filter (may_revoke db ctx) rows) db Hids) as (idss & Hrun & Hconcat).
    + apply NoDup_fmap_filter. apply (sublist_NoDup _ _ Hids). by apply sublist_fmap_mono.
    + intros r [_ Hr]%list_elem_of_filter. by eapply elem_of_sublist.
    + rewrite Hrun, Hconcat. unfold mret, M_ret. done.
Qed.
End ShareRevocation.

(** ** Presigned URLs *)

(** A released URL whose deadline is a date dies with the link. *)
Lemma presign_within_expiry params presign at_ share key cap ct disp url t :
  presignShareUrl params presign at_ share key cap ct disp = Ok (Some url) ->
  presignedUrlDeadline params url = Some (Some t) -> t <= share.(sh_expiresAt).
Proof.
  unfold presignShareUrl. destruct (capUrlTtlSeconds _ _ _) as [ttl|]; [|done].
  destruct (presign _ _ _ _ _) as [u|]; [|done]. cbn. intros H Hd.
  destruct (presignedUrlDeadline params u) as [d|] eqn:E; [|done].
  destruct (match d with Some t => _ | None => false end) eqn:El; [done|]. simplify_eq. by apply Z.ltb_ge in El.
Qed.

(** A URL whose lifetime is out of a Date's range is released: its deadline is
    NaN, which compares as not late. *)
Lemma presign_nan_deadline share :
  1000 <= share.(sh_expiresAt) ->
  let params := fun _ : string => Some (fun name =>
    if bool_decide (name = "X-Amz-Date") then Some "20240101T000000Z"
    else if bool_decide (name = "X-Amz-Expires") then Some "9999999999999999" else None) in
  presignShareUrl params (fun _ _ _ _ _ => Ok "https://s3.test/x") 0 share "k" 3600 None None = Ok (Some "https://s3.test/x").
Proof.
  intros Hexp params. unfold presignShareUrl, capUrlTtlSeconds. rewrite Z.sub_0_r.
  pose proof (Z.div_le_lower_bound share.(sh_expiresAt) 1000 1 ltac:(lia) ltac:(lia)).
  destruct (1 <=? Z.min 3600 (sh_expiresAt share / 1000)) eqn:E; [|apply Z.leb_gt in E; lia]. reflexivity.
Qed.

(** ** Witnesses: a one-off link, opened once *)

Definition sample_share_token : string := "AAAAAAAAAAAAAAAAAAAAAAAAAAAAAAAAAAAAAAAAAAA".
Definition sample_grant_token : string := "BBBBBBBBBBBBBBBBBBBBBBBBBBBBBBBBBBBBBBBBBBB".
Definition sample_share : Share :=
  Build_Share "s1" "o1" "d1" "/a.md" ShareFile (toy_digest sample_share_token) 90000 false (Some 1) 0 None "u1" 0 None None.
Definition sample_shares : Db := empty_db <| shares := [sample_share] |>.
Definition sample_shares_world : World MemStore :=
  {| w_db := sample_shares; w_store := empty_store; w_events := []; w_wakeups := 0; w_glob := empty_glob_cache |}.
(** Opened twice: the second time there is no view left. *)
Definition sample_openings : list share_op :=
  [SoOpen sample_grant_token sample_share_token 1500; SoOpen "" sample_share_token 2000].

Lemma share_view_gate_witness :
  getShareState (toRecord sample_share) 1500 = StActive /\
  exists s db', consumeShareView (rt := ascii_runtime) sample_share_token 1500 sample_shares
      = (Ok (Some (toRecord (count_view 1500 s))), db') /\
    toRecord s = toRecord sample_share /\ count_view 1500 s ∈ db'.(shares) /\
    (count_view 1500 s).(share_views) = (toRecord sample_share).(sh_views) + 1.
Proof.
  split; [reflexivity|].
  apply (share_view_gate (rt := ascii_runtime) sample_share_token 1500 sample_shares).
  - split; apply NoDup_singleton.
  - intros s Hs. apply list_elem_of_singleton in Hs. subst s. reflexivity.
Defined.

Lemma share_views_exact_witness :
  exists s', s' ∈ (run_share_ops (rt := ascii_runtime) (SA := memory_storage) sample_openings sample_shares_world).2.(w_db).(shares) /\
    s'.(share_id) = "s1" /\ s'.(share_maxViews) = Some 1 /\
    s'.(share_views) = 0 + opened "s1" (run_share_ops (rt := ascii_runtime) (SA := memory_storage) sample_openings sample_shares_world).1 /\
    (forall m, Some 1 = Some m -> 0 <= m -> s'.(share_views) <= m) /\
    (is_Some (@None Z) -> opened "s1" (run_share_ops (rt := ascii_runtime) (SA := memory_storage) sample_openings sample_shares_world).1 = 0).
Proof.
  apply (share_views_exact (rt := ascii_runtime) (SL := memory_laws (rt := ascii_runtime)) sample_openings sample_shares_world sample_share).
  - split; apply NoDup_singleton.
  - left.
Defined.

Lemma share_bytes_need_counted_view_witness :
  (toRecord sample_share).(sh_revokedAt) = None /\ 3000 < 90000 /\
  exists t v minted_token e,
    (t, v) ∈ (run_share_ops (rt := ascii_runtime) (SA := memory_storage) sample_openings sample_shares_world).1 /\
    v.(ov_share).(sh_id) = "s1" /\ v.(ov_grant) = Some (minted_token, e) /\
    toy_digest minted_token = toy_digest sample_grant_token /\ 3000 < e /\ e <= v.(ov_share).(sh_expiresAt) /\
    e <= ts_sec t + SHARE_VIEW_GRANT_TTL_SECONDS * 1000.
Proof.
  apply (share_bytes_need_counted_view (rt := ascii_runtime) (SL := memory_laws (rt := ascii_runtime)) sample_openings sample_shares_world
           sample_share_token sample_grant_token 3000 (toRecord (count_view 1500 sample_share)) 1).
  - split; apply NoDup_singleton.
  - intros g Hg. apply elem_of_nil in Hg. destruct Hg.
  - vm_compute. reflexivity.
  - reflexivity.
Defined.

Lemma site_key_inside_folder_witness :
  exists decoded, decodeURIComponent "css%2Fa%2e.css" = Some decoded /\ ShareSite = ShareSite /\
    resolve "o1/drives/d1/site/css/a..css" =
      Some ("o1" :: "drives" :: "d1" :: path_names "/site" ++ path_names decoded).
Proof.
  apply (site_key_inside_folder
    (Build_ShareRecord "s1" "o1" "d1" "/site" ShareSite 0 false None 0 None "u1" 0 None) "css%2Fa%2e.css").
  - repeat split; discriminate.
  - repeat split; discriminate.
  - vm_compute. reflexivity.
Defined.

Lemma shareRevoke_exact_witness :
  (forall r, r ∈ [sample_share] -> r ∈ sample_shares.(shares) /\ r.(share_driveId) = "d1") /\
  shareRevoke (rt := ascii_runtime) 5000 (Build_OpContext "o1" "d1" "u1" None None None None)
      {| sv_id := Some "s1"; sv_token := None; sv_path := None |} sample_shares =
    (Ok ["s1"], sample_shares <| shares ::= update_where (fun s => s.(share_id) ∈ ["s1"]) (mark_revoked 5000 "u1") |>).
Proof.
  apply (shareRevoke_exact (rt := ascii_runtime) 5000 (Build_OpContext "o1" "d1" "u1" None None None None)
           {| sv_id := Some "s1"; sv_token := None; sv_path := None |} sample_shares).
  split; apply NoDup_singleton.
Defined.
