(* ===== verification/FileOps.v ===== *)
(** * The file operations: core/src/ops/write.ts, append.ts, edit.ts, cat.ts,
      tail.ts, stat.ts, rm.ts, cp.ts, mv.ts, revert.ts

    Each op as the composition the code writes: the version check, the storage
    call, [createVersion], the search index, the clean-ups.  A content argument
    is the UTF-8 of the string.  [dr] are the random ids the op's versions draw
    ([dr2] for the second version of [mv]) and [now] the clock. *)

From S2P Require Import Prelude JsString Errors Text Paths Schema Rbac Storage GlobCache World Outbox Search Versioning Favorites.

(** The number formats of a message: [mb1] is [(n / 1024 / 1024).toFixed(1)] and
    [mb] is [String(n / 1024 / 1024)]. *)
Record Formats : Type := { mb1 : Z -> string; mb : Z -> string }.

Record WriteResult : Type := {
  wr_version : Z; wr_path : string; wr_size : Z; wr_contentHash : string; wr_deduped : bool }.
Record CatResult : Type := { cat_content : string; cat_totalLines : Z; cat_truncated : bool }.
Record StatResult : Type := {
  st_path : string; st_size : Z; st_contentType : option string; st_author : string;
  st_currentVersion : option Z; st_createdAt : Z; st_modifiedAt : Z; st_isDeleted : bool;
  st_embeddingStatus : option EmbeddingStatus; st_etag : option string }.

Definition MAX_FILE_SIZE : Z := 10 * 1024 * 1024.
Definition file_not_found (path : string) : error := NotFoundError ("File not found: " +:+ path) (Some path) None.

Definition blen (s : string) : Z := Z.of_nat (String.length s).

Section FileOps.
Context {rt : Runtime} {cfg : Config} {Store : Type} {SA : StorageAdapter Store}.
Variable fmt : Formats.
Variable extractPdfText : string -> option string.

(** [if (params.expectedVersion !== undefined) await assertExpectedVersion(...)]. *)
Definition check_version (ctx : OpContext) (path : string) (expectedVersion : option Z) : OpM Store unit :=
  match expectedVersion with
  | None => mret tt
  | Some e => _ ← reads (fun w => assertExpectedVersion w.(w_db) ctx.(op_driveId) path (Some e)); mret tt
  end.

(** A missing object is the op's own error. *)
Definition get_or_not_found (key path : string) : OpM Store GetObjectResult :=
  try_catch (in_store (getObject key None))
    (fun e => if is_no_such_key e then throw (file_not_found path) else throw e).

(** ** write.ts *)

Definition too_large (size maxSize : Z) : error :=
  ValidationError ("File size " +:+ fmt.(mb1) size +:+ "MB exceeds the " +:+ fmt.(mb) maxSize +:+ "MB limit")
    (Some "content") (Some "Split large files into smaller chunks").

(** The short-circuit: [Some v] when the content is the head version's. *)
Definition dedup_check (ctx : OpContext) (path contentHash : string) (expectedVersion : option Z)
    : OpM Store (option Z) :=
  match expectedVersion with
  | None => mret None
  | Some e =>
      currentVersion ← reads (fun w => assertExpectedVersion w.(w_db) ctx.(op_driveId) path (Some e));
      if 0 <? currentVersion then
        headHash ← query (fun db => getHeadContentHash db ctx.(op_driveId) path);
        mret (if bool_decide (headHash = Some contentHash) then Some currentVersion else None)
      else mret None
  end.

(** [indexableText] is absent for raw writes. *)
Definition writeInternal (dr : Draws) (now : Z) (ctx : OpContext) (path b : string) (message : option string)
    (expectedVersion : option Z) (indexableText : option string) (maxSize : Z) : OpM Store WriteResult :=
  let path := normalizePath path in
  let s3Key := getS3Key ctx.(op_orgId) ctx.(op_driveId) path in
  let size := blen b in
  _ ← throw_if (maxSize <? size) (too_large size maxSize);
  let contentHash := sha256hex b in
  dedup ← dedup_check ctx path contentHash expectedVersion;
  match dedup with
  | Some currentVersion => mret (Build_WriteResult currentVersion path size contentHash true)
  | None =>
      let contentType := detectMimeType path in
      s3Result ← in_store (putObject s3Key b (Some contentType));
      version ← createVersion dr now ctx (Build_VersionParams path (s3Result.(put_versionId) ?? "") OpWrite
                  message None (Some size) s3Result.(put_etag) (Some contentType) (Some contentHash));
      _ ← match indexableText with
          | Some text => in_db (indexTextForSearch ctx path text)
          | None => _ ← in_db (indexBytesForSearch extractPdfText ctx path b contentType); mret tt
          end;
      mret (Build_WriteResult version path size contentHash false)
  end.

Definition write (dr : Draws) (now : Z) (ctx : OpContext) (path content : string) (message : option string)
    (expectedVersion : option Z) : OpM Store WriteResult :=
  writeInternal dr now ctx path content message expectedVersion (Some content) MAX_FILE_SIZE.

Definition writeRaw (dr : Draws) (now : Z) (ctx : OpContext) (path b : string) (message : option string)
    (expectedVersion : option Z) : OpM Store WriteResult :=
  _ ← reads (fun w => requireDriveRole w.(w_db) ctx.(op_userId) ctx.(op_driveId) Editor);
  writeInternal dr now ctx path b message expectedVersion None getMaxUploadBytes.

(** ** append.ts *)

Definition append (dr : Draws) (now : Z) (ctx : OpContext) (path content : string) (message : option string)
    (expectedVersion : option Z) : OpM Store (Z * Z) :=
  let path := normalizePath path in
  let s3Key := getS3Key ctx.(op_orgId) ctx.(op_driveId) path in
  _ ← check_version ctx path expectedVersion;
  result ← get_or_not_found s3Key path;
  let currentContent := decode_utf8 result.(get_body) in
  let newContent := currentContent +:+ content in
  let size := blen newContent in
  let contentType := detectMimeType path in
  let contentHash := sha256hex newContent in
  s3Result ← in_store (putObject s3Key newContent (Some contentType));
  version ← createVersion dr now ctx (Build_VersionParams path (s3Result.(put_versionId) ?? "") OpAppend
              message None (Some size) s3Result.(put_etag) (Some contentType) (Some contentHash));
  _ ← in_db (indexTextForSearch ctx path newContent);
  mret (version, size).

(** ** edit.ts *)

Definition old_not_found (path : string) : error :=
  EditConflictError ("old_string not found in " +:+ path) (Some path)
    (Some "Verify the exact text you want to replace").
Definition old_not_unique (path : string) (n : Z) : error :=
  EditConflictError ("old_string found " +:+ pretty n +:+ " times in " +:+ path +:+ ", expected exactly 1")
    (Some path) (Some "Provide more surrounding context to make the match unique").

(** [JSON.stringify({ old, new })]. *)
Definition diff_summary (old_string new_string : string) : string :=
  let field k v := bytes [34]%nat +:+ k +:+ bytes [34; 58]%nat +:+ json_string v in
  "{" +:+ field "old" old_string +:+ "," +:+ field "new" new_string +:+ "}".

(** The content after the edit, or the refusal. *)
Definition edit_text (path old_string new_string content : string) : outcome error string :=
  let n := occurrences old_string content in
  if n =? 0 then Throw (old_not_found path)
  else if 1 <? n then Throw (old_not_unique path n)
  else Ok (js_replace old_string new_string content).

Definition edit (dr : Draws) (now : Z) (ctx : OpContext) (path old_string new_string : string)
    (message : option string) (expectedVersion : option Z) : OpM Store (Z * string * Z) :=
  let path := normalizePath path in
  let s3Key := getS3Key ctx.(op_orgId) ctx.(op_driveId) path in
  _ ← check_version ctx path expectedVersion;
  result ← get_or_not_found s3Key path;
  newContent ← from_outcome (edit_text path old_string new_string (decode_utf8 result.(get_body)));
  let size := blen newContent in
  let contentType := detectMimeType path in
  let contentHash := sha256hex newContent in
  s3Result ← in_store (putObject s3Key newContent (Some contentType));
  version ← createVersion dr now ctx (Build_VersionParams path (s3Result.(put_versionId) ?? "") OpEdit
              message (Some (diff_summary old_string new_string)) (Some size) s3Result.(put_etag)
              (Some contentType) (Some contentHash));
  _ ← in_db (indexTextForSearch ctx path newContent);
  mret (version, path, 1).

(** ** cat.ts, tail.ts, stat.ts *)

Definition DEFAULT_LIMIT : Z := 200.
Definition DEFAULT_LINES : Z := 20.

(** [l.slice(a, b)]: a negative index counts from the end. *)
Definition slice_index (len i : Z) : Z := if i <? 0 then Z.max 0 (len + i) else Z.min i len.
Definition slice {A} (l : list A) (a b : Z) : list A :=
  let len := Z.of_nat (length l) in
  let a := slice_index len a in
  let b := slice_index len b in
  take (Z.to_nat (b - a)) (drop (Z.to_nat a) l).

Definition not_text (path : string) : error :=
  ValidationError ("File is not readable as text: " +:+ path) (Some "path")
    (Some "Use `agent-fs download` or `agent-fs signed-url` for binary files").

Definition cat (ctx : OpContext) (path : string) (offset limit : option Z) : OpM Store CatResult :=
  let path := normalizePath path in
  let s3Key := getS3Key ctx.(op_orgId) ctx.(op_driveId) path in
  result ← get_or_not_found s3Key path;
  match decodeIndexableText result.(get_body) (result.(get_contentType) ?? detectMimeType path) with
  | None => throw (not_text path)
  | Some content =>
      let ls := lines content in
      let totalLines := Z.of_nat (length ls) in
      let offset := offset ?? 0 in
      let limit := limit ?? DEFAULT_LIMIT in
      mret {| cat_content := unlines (slice ls offset (offset + limit)); cat_totalLines := totalLines;
              cat_truncated := offset + limit <? totalLines |}
  end.

Definition tail (ctx : OpContext) (path : string) (lines_ : option Z) : OpM Store CatResult :=
  let path := normalizePath path in
  let s3Key := getS3Key ctx.(op_orgId) ctx.(op_driveId) path in
  let n := lines_ ?? DEFAULT_LINES in
  result ← get_or_not_found s3Key path;
  let ls := lines (decode_utf8 result.(get_body)) in
  let totalLines := Z.of_nat (length ls) in
  let start := Z.max 0 (totalLines - n) in
  mret {| cat_content := unlines (slice ls start totalLines); cat_totalLines := totalLines;
          cat_truncated := 0 <? start |}.

(** [parseInt] of a version id, which [createVersion] writes in decimal. *)
Definition version_of_id (id : option string) : option Z := digits_value 0 <$> truthy id.

Definition stat (now : Z) (ctx : OpContext) (path : string) : OpM Store StatResult :=
  let path := normalizePath path in
  let s3Key := getS3Key ctx.(op_orgId) ctx.(op_driveId) path in
  s3Head ← try_catch (in_store (headObject s3Key))
    (fun e => if is_storage_not_found e then throw (file_not_found path) else throw e);
  dbFile ← query (fun db => get_file db path ctx.(op_driveId));
  mret {| st_path := path; st_size := s3Head.(head_size); st_contentType := s3Head.(head_contentType);
          st_author := (file_author <$> dbFile) ?? "unknown";
          st_currentVersion := dbFile ≫= fun f => version_of_id f.(file_currentVersionId);
          st_createdAt := (file_createdAt <$> dbFile) ?? now;
          st_modifiedAt := (file_modifiedAt <$> dbFile) ?? (s3Head.(head_lastModified) ?? now);
          st_isDeleted := (file_isDeleted <$> dbFile) ?? false;
          st_embeddingStatus := dbFile ≫= file_embeddingStatus; st_etag := s3Head.(head_etag) |}.

(** ** rm.ts *)

Definition on_file (driveId path : string) (c : Comment_) : Prop := c.(com_path) = path /\ c.(com_driveId) = driveId.
#[export] Instance on_file_dec d p c : Decision (on_file d p c).
Proof. unfold on_file. apply _. Defined.

Definition live_roots (driveId path : string) (db : Db) : list Comment_ :=
  filter (fun c => on_file driveId path c /\ c.(com_parentId) = None /\ c.(com_isDeleted) = false) db.(comments).

Definition delete_comments (driveId path : string) (now : Z) (db : Db) : Db :=
  db <| comments ::= update_where (on_file driveId path)
          (fun c => c <| com_isDeleted := true |> <| com_updatedAt := ts_sec now |>) |>.

Definition rm (dr : Draws) (now : Z) (ctx : OpContext) (path : string) (expectedVersion : option Z)
    : OpM Store string :=
  let path := normalizePath path in
  let s3Key := getS3Key ctx.(op_orgId) ctx.(op_driveId) path in
  _ ← check_version ctx path expectedVersion;
  _ ← in_store (deleteObject s3Key);
  _ ← createVersion dr now ctx (Build_VersionParams path "" OpDelete None None None None None None);
  _ ← write_db (clearSearchData path ctx.(op_driveId) ScopeAll);
  deletedComments ← query (live_roots ctx.(op_driveId) path);
  _ ← write_db (delete_comments ctx.(op_driveId) path now);
  _ ← for_each deletedComments (fun comment =>
        publish (CommentChanged ctx.(op_driveId) comment.(com_path) comment.(com_id) None CaDeleted
                   ctx.(op_userId) now));
  _ ← favoritesAfterRemove ctx path;
  mret path.

(** ** cp.ts *)

Definition same_path : error := ValidationError "Source and destination are the same path" None None.

Definition cp (dr : Draws) (now : Z) (ctx : OpContext) (from to_ : string) (expectedVersion : option Z)
    : OpM Store (string * string * Z) :=
  let from := normalizePath from in
  let to_ := normalizePath to_ in
  _ ← throw_if (bool_decide (from = to_)) same_path;
  let fromKey := getS3Key ctx.(op_orgId) ctx.(op_driveId) from in
  let toKey := getS3Key ctx.(op_orgId) ctx.(op_driveId) to_ in
  _ ← check_version ctx to_ expectedVersion;
  copyResult ← in_store (copyObject fromKey toKey);
  _ ← invalidate_globs ctx.(op_orgId) ctx.(op_driveId);
  hd ← in_store (headObject toKey);
  obj ← in_store (getObject toKey None);
  let contentHash := sha256hex obj.(get_body) in
  let contentType := match hd.(head_contentType) with
                     | Some c => c | None => obj.(get_contentType) ?? detectMimeType to_ end in
  version ← createVersion dr now ctx (Build_VersionParams to_ (copyResult.(put_versionId) ?? "") OpWrite
              (Some ("Copied from " +:+ from)) None (Some hd.(head_size)) copyResult.(put_etag)
              (Some contentType) (Some contentHash));
  _ ← in_db (indexBytesForSearch extractPdfText ctx to_ obj.(get_body) contentType);
  mret (from, to_, version).

(** ** mv.ts *)

(** Chunks in place, so their vectors keep their ids. *)
Definition move_chunks (driveId from to_ : string) (db : Db) : Db :=
  db <| contentChunks ::= update_where (fun c => c.(chunk_filePath) = from /\ c.(chunk_driveId) = driveId)
          (fun c => c <| chunk_filePath := to_ |>) |>.

(** What [mv] does to the index when no newer write of [to_] has landed.
    [content] is the text to index, if any; [keep] whether the text chunks move. *)
Definition move_index (driveId from to_ : string) (preserveImages keep : bool) (content : option string)
    (source : option File) (db : Db) : Db :=
  let db := clearSearchData to_ driveId ScopeAll db in
  let db := if preserveImages then db else clearSearchData from driveId ScopeImage db in
  let db := match content with Some c => indexFile to_ driveId c db | None => db end in
  let db := if keep then move_chunks driveId from to_ db else clearSearchData from driveId ScopeText db in
  update_file to_ driveId (fun f => f
    <| file_imageEmbeddingStatus := if preserveImages then source ≫= file_imageEmbeddingStatus else None |>
    <| file_embeddingStatus := if keep then source ≫= file_embeddingStatus else None |>) db.

Definition mv (dr dr2 : Draws) (now : Z) (ctx : OpContext) (from to_ : string) (message : option string)
    (expectedVersion : option Z) : OpM Store (string * string * Z) :=
  let from := normalizePath from in
  let to_ := normalizePath to_ in
  let d := ctx.(op_driveId) in
  _ ← throw_if (bool_decide (from = to_)) same_path;
  let fromKey := getS3Key ctx.(op_orgId) d from in
  let toKey := getS3Key ctx.(op_orgId) d to_ in
  _ ← check_version ctx from expectedVersion;
  copyResult ← in_store (copyObject fromKey toKey);
  _ ← invalidate_globs ctx.(op_orgId) d;
  hd ← in_store (headObject toKey);
  obj ← in_store (getObject toKey None);
  let contentHash := sha256hex obj.(get_body) in
  let contentType := match hd.(head_contentType) with
                     | Some c => c | None => obj.(get_contentType) ?? detectMimeType to_ end in
  let preserveImages := imageEligible ctx.(op_embeddingProvider) contentType
                          (canRenderPdfPages ctx.(op_embeddingProvider)) d in
  sourceFile ← query (fun db => get_file db from d);
  let is_pdf := bool_decide (contentType = "application/pdf") in
  pdfText ← query (fun db => if is_pdf then indexedContent db from d else None);
  version ← createVersion dr now ctx (Build_VersionParams to_ (copyResult.(put_versionId) ?? "") OpWrite
              (Some (message ?? ("Moved from " +:+ from))) None (Some hd.(head_size)) copyResult.(put_etag)
              (Some contentType) (Some contentHash));
  targetVersion ← query (fun db => readCurrentVersion db to_ d);
  _ ← in_store (deleteObject fromKey);
  _ ← createVersion dr2 now ctx (Build_VersionParams from "" OpDelete (Some ("Moved to " +:+ to_))
        None None None None None);
  _ ← write_db (removeFromIndex from d);
  let preserveText := is_pdf || preserveImages in
  let extracted := if preserveText then None else extractIndexableText extractPdfText obj.(get_body) contentType in
  current ← query (fun db => readCurrentVersion db to_ d);
  _ ← (if decide (current = targetVersion)
       then write_db (move_index d from to_ preserveImages (preserveText || bool_decide (is_Some extracted))
                        (if preserveText then pdfText else extracted) sourceFile)
       else write_db (clearSearchData from d ScopeAll));
  _ ← favoritesAfterMove ctx from to_;
  mret (from, to_, version).

(** ** revert.ts *)

Definition versioning_required : error :=
  AgentFSError "VERSIONING_REQUIRED" "S3 versioning required for revert"
    (Some "Enable S3 versioning on the bucket").

Definition find_version (db : Db) (driveId path : string) (version : Z) : option FileVersion :=
  get_row (fun v => is_version path driveId v /\ v.(fv_version) = version) db.(fileVersions).

Definition revert (dr : Draws) (now : Z) (ctx : OpContext) (path : string) (version : Z)
    (expectedVersion : option Z) : OpM Store (Z * Z) :=
  let path := normalizePath path in
  _ ← from_outcome (assertCapability (cap_versioning (@capabilities _ SA)) "revert" None);
  _ ← check_version ctx path expectedVersion;
  target ← query (fun db => find_version db ctx.(op_driveId) path version);
  targetVersion ← some_or_throw target
    (NotFoundError ("Version " +:+ pretty version +:+ " not found for " +:+ path) (Some path) None);
  _ ← throw_if (bool_decide (targetVersion.(fv_s3VersionId) = "")) versioning_required;
  let s3Key := getS3Key ctx.(op_orgId) ctx.(op_driveId) path in
  oldContent ← in_store (getObject s3Key (Some targetVersion.(fv_s3VersionId)));
  let contentType := detectMimeType path in
  s3Result ← in_store (putObject s3Key oldContent.(get_body) (Some contentType));
  let size := blen oldContent.(get_body) in
  let contentHash := sha256hex oldContent.(get_body) in
  v ← createVersion dr now ctx (Build_VersionParams path (s3Result.(put_versionId) ?? "") OpRevert
        (Some ("Reverted to version " +:+ pretty version)) None (Some size) s3Result.(put_etag)
        (Some contentType) (Some contentHash));
  _ ← in_db (indexBytesForSearch extractPdfText ctx path oldContent.(get_body) contentType);
  mret (v, version).
End FileOps.
