(* ===== verification/FileSpec.v ===== *)
(** * What the file operations promise

    The frame of the search index (what indexing may touch), what a recorded
    version leaves, and the contracts of the ops of [FileOps] over any storage
    backend that keeps the storage contract. *)

From S2P Require Import Prelude JsString Errors Text Paths Schema Rbac Storage GlobCache World Outbox Search Versioning Favorites FileOps.

(** ** The frame of the search index *)

(** The columns of a file row that indexing never writes. *)
Definition file_core (f : File) : File := f <| file_embeddingStatus := None |> <| file_imageEmbeddingStatus := None |>.

(** From [db] to [db'] only search data has changed, and only that of one file
    (with the status columns). *)
Record index_frame (path driveId : string) (db db' : Db) : Prop := {
  if_versions : db'.(fileVersions) = db.(fileVersions);
  if_comments : db'.(comments) = db.(comments);
  if_favorites : db'.(favorites) = db.(favorites);
  if_deliveries : db'.(webhookDeliveries) = db.(webhookDeliveries);
  if_files : file_core <$> db'.(files) = file_core <$> db.(files);
  if_docs : filter (fun x => ~ is_doc driveId path x) db'.(fts_docs)
              = filter (fun x => ~ is_doc driveId path x) db.(fts_docs);
  if_chunks : filter (fun c => ~ chunk_of path driveId ScopeAll c) db'.(contentChunks)
              = filter (fun c => ~ chunk_of path driveId ScopeAll c) db.(contentChunks)
}.

#[export] Instance index_frame_preorder path d : PreOrder (index_frame path d).
Proof.
  split; [by intros db|]. intros a b c [] []. constructor; congruence.
Qed.

Lemma filter_twice {A} (P Q : A -> Prop) `{forall x, Decision (P x), forall x, Decision (Q x)} (l : list A) :
  (forall x, Q x -> P x) -> filter Q (filter P l) = filter Q l.
Proof. intros Hi. rewrite list_filter_filter. apply list_filter_iff. naive_solver. Qed.

Lemma frame_remove path d db : index_frame path d db (removeFromIndex path d db).
Proof. constructor; try done. cbn. unfold delete_where. by rewrite filter_twice. Qed.

Lemma frame_index path d c db : index_frame path d db (indexFile path d c db).
Proof.
  etrans; [apply frame_remove|]. constructor; try done. cbn. rewrite filter_app, (filter_none _ [_]); [apply app_nil_r|].
  intros x ->%list_elem_of_singleton Hn. by apply Hn.
Qed.

Lemma chunk_of_all path d s c : chunk_of path d s c -> chunk_of path d ScopeAll c.
Proof. by intros (? & ? & _). Qed.

Lemma frame_chunks path d s db : index_frame path d db (deleteChunks path d s db).
Proof.
  constructor; try done. cbn. unfold delete_where. apply filter_twice. intros c Hc Hs. by eapply Hc, chunk_of_all.
Qed.

(** A write of status columns. *)
Lemma frame_status path d f db :
  (forall x, file_core (f x) = file_core x) -> index_frame path d db (update_file path d f db).
Proof. intros Hf. constructor; try done. apply fmap_update_where. auto. Qed.

Lemma clear_status_core k f : file_core (clear_status k f) = file_core f.
Proof. by destruct k. Qed.

Lemma frame_clear path d k db : index_frame path d db (clearSearchData path d k db).
Proof.
  unfold clearSearchData. etrans; [|apply frame_status, clear_status_core].
  etrans; [|apply frame_chunks]. destruct k; [apply frame_remove|done|apply frame_remove].
Qed.

Lemma frame_step {E} path d db0 (f : Db -> Db) :
  (forall db, index_frame path d db (f db)) -> preserves (E := E) (index_frame path d db0) (modify f).
Proof. intros Hf. apply preserves_modify. intros db Hdb. etrans; [exact Hdb|apply Hf]. Qed.

(** A computation that always returns. *)
Definition total {E S A} (m : M E S A) : Prop := forall s, exists a s', m s = (Ok a, s').

Lemma total_bind {E S A B} (m : M E S A) (f : A -> M E S B) :
  total m -> (forall a, total (f a)) -> total (m ≫= f).
Proof. intros Hm Hf s. destruct (Hm s) as (a & s1 & H). unfold mbind, M_bind. rewrite H. apply Hf. Qed.

Lemma total_ret {E S A} (a : A) : total (mret a : M E S A).
Proof. intros s. by eexists _, _. Qed.
Lemma total_gets {E S A} (f : S -> A) : total (gets f : M E S A).
Proof. intros s. by eexists _, _. Qed.
Lemma total_modify {E S} (f : S -> S) : total (modify f : M E S unit).
Proof. intros s. by eexists _, _. Qed.
Lemma total_when {E S} c (m : M E S unit) : total m -> total (when c m).
Proof. by destruct c; [|intros _; apply total_ret]. Qed.

Ltac total :=
  repeat first [ apply total_ret | apply total_gets | apply total_modify | apply total_when
               | apply total_bind; [|intros ?]
               | match goal with
                 | |- total (match ?x with _ => _ end) => destruct x
                 | |- total (when _ _) => apply total_when
                 end ].

Section SearchFrame.
Context {rt : Runtime} {cfg : Config}.

Lemma scheduleEmbedding_total provider path d : total (scheduleEmbedding provider path d).
Proof. unfold scheduleEmbedding. total. Qed.

Lemma indexText_total ctx path content : total (indexTextForSearch ctx path content).
Proof.
  unfold indexTextForSearch, indexTextForSearch_after. total. apply scheduleEmbedding_total.
Qed.

Lemma indexBytes_total pdf ctx path b ct : total (indexBytesForSearch pdf ctx path b ct).
Proof.
  unfold indexBytesForSearch, indexBytesForSearch_after. total. all: apply scheduleEmbedding_total.
Qed.

Lemma scheduleEmbedding_frame provider path d db0 :
  preserves (index_frame path d db0) (scheduleEmbedding provider path d).
Proof.
  unfold scheduleEmbedding. destruct provider; [|apply preserves_ret].
  apply preserves_bind; [|intros _; apply preserves_gets]. apply frame_step. intros db. by apply frame_status.
Qed.

Lemma indexText_frame ctx path content db0 :
  preserves (index_frame path ctx.(op_driveId) db0) (indexTextForSearch ctx path content).
Proof.
  unfold indexTextForSearch, indexTextForSearch_after.
  repeat (apply preserves_bind; [apply preserves_gets|intros ?]).
  destruct (decide _); [apply preserves_ret|].
  repeat (apply preserves_bind; [|intros ?]); auto using preserves_gets, preserves_ret, scheduleEmbedding_frame.
  - apply preserves_when, frame_step, frame_clear.
  - apply frame_step. intros db. apply frame_index.
Qed.

Lemma indexBytes_frame pdf ctx path b ct db0 :
  preserves (index_frame path ctx.(op_driveId) db0) (indexBytesForSearch pdf ctx path b ct).
Proof.
  unfold indexBytesForSearch, indexBytesForSearch_after.
  repeat (apply preserves_bind; [apply preserves_gets|intros ?]).
  destruct (decide _); [apply preserves_ret|].
  repeat (apply preserves_bind; [|intros ?]); auto using preserves_ret.
  - apply frame_step, frame_clear.
  - apply preserves_when, frame_step. intros db. by apply frame_status.
  - destruct (extractIndexableText pdf b ct); [apply indexText_frame|apply frame_step, frame_clear].
Qed.

Lemma indexedContent_index path d c db : indexedContent (indexFile path d c db) path d = Some c.
Proof.
  unfold indexedContent, indexFile, removeFromIndex. cbn. rewrite get_row_snoc.
  match goal with |- context [get_row ?P ?t] => assert (Hn : get_row P t = None) end.
  { apply get_row_none. intros x [_ Hx]%elem_of_delete_where Hd. by apply Hx. }
  rewrite Hn, decide_True; [done|]. done.
Qed.

Lemma scheduleEmbedding_docs provider path d db a db' :
  scheduleEmbedding provider path d db = (Ok a, db') -> db'.(fts_docs) = db.(fts_docs).
Proof. unfold scheduleEmbedding. destruct provider; intros Hr; inv_ok; done. Qed.

(** The text is indexed. *)
Lemma indexText_indexes ctx path content db a db' :
  indexTextForSearch ctx path content db = (Ok a, db') ->
  indexedContent db' path ctx.(op_driveId) = Some content.
Proof.
  unfold indexTextForSearch, indexTextForSearch_after. intros Hr. inv_ok.
  rewrite decide_False in Hr by tauto. inv_ok.
  match goal with Hs : scheduleEmbedding _ _ _ _ = _ |- _ => apply scheduleEmbedding_docs in Hs end.
  unfold indexedContent. match goal with Hd : fts_docs _ = fts_docs _ |- _ => rewrite Hd end.
  apply indexedContent_index.
Qed.
End SearchFrame.

(** ** The state after a step *)

Lemma bind_run {E S A B} (m : M E S A) (f : A -> M E S B) s a s1 :
  m s = (Ok a, s1) -> (m ≫= f) s = f a s1.
Proof. intros H. unfold mbind, M_bind. by rewrite H. Qed.

Lemma throw_if_false {E S} c (e : E) (s : S) : c = false -> throw_if c e s = (Ok tt, s).
Proof. by intros ->. Qed.

Lemma ret_run {E S A} (a : A) (s : S) : (mret a : M E S A) s = (Ok a, s).
Proof. done. Qed.

(** Take the first step of a program, given its result. *)
Ltac run H := etrans; [eapply bind_run; exact H|]; cbv beta iota.

Lemma get_row_core p d t :
  file_core <$> get_row (is_file p d) t = get_row (is_file p d) (file_core <$> t).
Proof.
  induction t as [|f t IH]; [done|]. rewrite fmap_cons, !get_row_cons.
  destruct (decide (is_file p d f)) as [Hf|Hf].
  - by rewrite decide_True by exact Hf.
  - rewrite decide_False by exact Hf. exact IH.
Qed.

Lemma readCurrentVersion_core db db' p d :
  file_core <$> db'.(files) = file_core <$> db.(files) ->
  readCurrentVersion db' p d = readCurrentVersion db p d.
Proof.
  intros H. assert (Hc : file_core <$> get_file db' p d = file_core <$> get_file db p d).
  { unfold get_file. by rewrite !get_row_core, H. }
  unfold readCurrentVersion. destruct (get_file db' p d) as [f'|], (get_file db p d) as [f|]; try done.
  injection Hc as Hc. assert (file_isDeleted f' = file_isDeleted f /\ file_currentVersionId f' = file_currentVersionId f)
    as [-> ->]; [|done]. destruct f, f'. unfold file_core, update in Hc. cbn in Hc. by simplify_eq.
Qed.

Lemma frame_head path d db db' d' p : index_frame path d db db' -> head_version db' d' p = head_version db d' p.
Proof. intros []. unfold head_version. congruence. Qed.

Lemma frame_contiguous path d db db' : index_frame path d db db' -> contiguous db -> contiguous db'.
Proof. intros [Hv] Hc p d'. destruct (Hc p d') as [n Hn]. exists n. rewrite <- Hn. unfold history. by rewrite Hv. Qed.

Section Effects.
Context {Store : Type}.

(** [bind_run] for the ops. *)
Lemma op_bind_run {A B} (m : OpM Store A) (f : A -> OpM Store B) w a w1 : m w = (Ok a, w1) -> (m ≫= f) w = f a w1.
Proof. apply bind_run. Qed.

Lemma in_store_ok {A} (m : M error Store A) (w : World Store) a w' :
  in_store m w = (Ok a, w') <-> exists s', m w.(w_store) = (Ok a, s') /\ w' = w <| w_store := s' |>.
Proof.
  unfold in_store, on. destruct (m w.(w_store)) as [o s']. split.
  - intros [= -> <-]. eauto.
  - by intros (s2 & [= -> ->] & ->).
Qed.

(** What a recorded version leaves. *)
Record recorded (now : Z) (ctx : OpContext) (p : VersionParams) (w : World Store) (v : Z) (w' : World Store) : Prop := {
  rec_version : v = Z.of_nat (length (history w.(w_db) p.(vp_path) ctx.(op_driveId))) + 1;
  rec_contiguous : contiguous w'.(w_db);
  rec_head : head_version w'.(w_db) ctx.(op_driveId) p.(vp_path)
    = Some (version_row ctx p v now w.(w_db).(next_version_id));
  rec_current : readCurrentVersion w'.(w_db) p.(vp_path) ctx.(op_driveId)
    = if decide (p.(vp_operation) = OpDelete) then None else Some (Some (pretty v));
  rec_rows : w'.(w_db).(fileVersions) = w.(w_db).(fileVersions) ++ [version_row ctx p v now w.(w_db).(next_version_id)];
  rec_store : w'.(w_store) = w.(w_store);
  rec_chunks : w'.(w_db).(contentChunks) = w.(w_db).(contentChunks);
  rec_docs : w'.(w_db).(fts_docs) = w.(w_db).(fts_docs);
  rec_comments : w'.(w_db).(comments) = w.(w_db).(comments);
  rec_favorites : w'.(w_db).(favorites) = w.(w_db).(favorites);
  rec_events : w'.(w_events) = w.(w_events) ++
    [FileChanged ctx.(op_driveId) p.(vp_path) v p.(vp_operation) ctx.(op_userId) now]
}.

Lemma createVersion_recorded dr now ctx p (w : World Store) v w' :
  contiguous w.(w_db) -> createVersion dr now ctx p w = (Ok v, w') -> recorded now ctx p w v w'.
Proof.
  intros Hc (Hv & Hst & Hev & n & Hrec)%createVersion_ok.
  pose proof (record_version_ok _ _ _ _ _ _ _ _ Hrec) as (_ & Hrows & _ & _ & _ & Hch & Hco & Hdo & Hfa).
  constructor; try done.
  - rewrite Hv. by apply next_version_length.
  - rewrite Hv in Hrec. exact (record_keeps_contiguous _ _ _ _ _ _ _ Hc Hrec).
  - rewrite Hv in Hrec |- *. exact (record_version_head _ _ _ _ _ _ _ Hc Hrec).
  - unfold readCurrentVersion. rewrite (record_version_file _ _ _ _ _ _ _ _ Hrec).
    destruct (get_file _ _ _); cbn; case_bool_decide; destruct (decide (vp_operation p = OpDelete)); done.
Qed.
End Effects.

(** ** The contracts *)

(** The storage key of a path an op is given. *)
Definition key_of (ctx : OpContext) (path : string) : string :=
  getS3Key ctx.(op_orgId) ctx.(op_driveId) (normalizePath path).

Section Contracts.
Context {rt : Runtime} {cfg : Config} {Store : Type} {SA : StorageAdapter Store} {SV : StorageView Store} {SL : StorageLaws Store}.
Variable fmt : Formats.
Variable extractPdfText : string -> option string.

(** A world ready to record a version of a file of the drive; an org's id, a
    UUID, is a plain name. *)
Definition ready (dr : Draws) (ctx : OpContext) (w : World Store) : Prop :=
  contiguous w.(w_db) /\ drive_exists ctx.(op_driveId) w.(w_db) = true /\ fresh_draws dr w.(w_db) /\
  plain_segment ctx.(op_orgId).

Lemma ready_key dr ctx w path : ready dr ctx w -> object_key (key_of ctx path).
Proof. intros (_ & _ & _ & Horg). by apply drive_key_law. Qed.

(** The index step of a write, for text and for bytes. *)
Definition index_step (ctx : OpContext) (p b contentType : string) (indexableText : option string) : OpM Store unit :=
  match indexableText with
  | Some text => in_db (indexTextForSearch ctx p text)
  | None => _ ← in_db (indexBytesForSearch extractPdfText ctx p b contentType); mret tt
  end.

Lemma index_step_run ctx p b ct text (w : World Store) :
  exists db', index_step ctx p b ct text w = (Ok tt, w <| w_db := db' |>) /\
    index_frame p ctx.(op_driveId) w.(w_db) db' /\
    forall t, text = Some t -> indexedContent db' p ctx.(op_driveId) = Some t.
Proof.
  destruct text as [t|].
  - destruct (indexText_total ctx p t w.(w_db)) as ([] & db' & Hix). exists db'. split_and!.
    + apply in_db_ok. eauto.
    + pose proof (indexText_frame ctx p t w.(w_db) w.(w_db) ltac:(reflexivity)) as H. by rewrite Hix in H.
    + intros t' [= ->]. by apply (indexText_indexes _ _ _ _ _ _ Hix).
  - destruct (indexBytes_total extractPdfText ctx p b ct w.(w_db)) as (u & db' & Hix). exists db'. split_and!; [| |done].
    + unfold index_step. run (proj2 (in_db_ok _ w u _) (ex_intro _ db' (conj Hix eq_refl))). apply ret_run.
    + pose proof (indexBytes_frame extractPdfText ctx p b ct w.(w_db) w.(w_db) ltac:(reflexivity)) as H. by rewrite Hix in H.
Qed.

(** What a stored content leaves: the object, the head row, the current version. *)
Record stored (ctx : OpContext) (path b : string) (v : Z) (w w' : World Store) : Prop := {
  sd_version : v = Z.of_nat (length (history w.(w_db) (normalizePath path) ctx.(op_driveId))) + 1;
  sd_object : object w'.(w_store) (key_of ctx path) = Some b;
  sd_head : exists h, head_version w'.(w_db) ctx.(op_driveId) (normalizePath path) = Some h /\ h.(fv_version) = v /\
     h.(fv_contentHash) = Some (sha256hex b) /\ h.(fv_size) = Some (blen b) /\
     h.(fv_author) = ctx.(op_userId) /\ h.(fv_operation) = OpWrite;
  sd_current : readCurrentVersion w'.(w_db) (normalizePath path) ctx.(op_driveId) = Some (Some (pretty v));
  sd_contiguous : contiguous w'.(w_db)
}.

Lemma writeInternal_stores dr now ctx path b message text maxSize (w : World Store) r s :
  ready dr ctx w -> blen b <= maxSize ->
  putObject (key_of ctx path) b (Some (detectMimeType (normalizePath path))) w.(w_store) = (Ok r, s) ->
  let p := normalizePath path in
  exists v w', writeInternal fmt extractPdfText dr now ctx path b message None text maxSize w
      = (Ok (Build_WriteResult v p (blen b) (sha256hex b) false), w') /\
    stored ctx path b v w w' /\ forall t, text = Some t -> indexedContent w'.(w_db) p ctx.(op_driveId) = Some t.
Proof.
  intros Hready Hsize Hput p. pose proof (ready_key _ _ _ path Hready) as Hkey. destruct Hready as (Hc & Hd & Hfr & _).
  set (params := Build_VersionParams p (r.(put_versionId) ?? "") OpWrite message None (Some (blen b))
    r.(put_etag) (Some (detectMimeType p)) (Some (sha256hex b))).
  pose (w0 := w <| w_store := s |>).
  destruct (createVersion_succeeds dr now ctx params w0 Hc Hd Hfr) as (v & w1 & Hrun).
  pose proof (createVersion_recorded _ _ _ _ w0 _ _ Hc Hrun) as [Hv Hc1 Hh Hcur _ Hst _ _ _ _ _].
  destruct (index_step_run ctx p b (detectMimeType p) text w1) as (db' & Hix & Hfra & Htext).
  exists v, (w1 <| w_db := db' |>). split_and!; [| |exact Htext].
  - unfold writeInternal. cbv zeta. fold p.
    run (throw_if_false _ (too_large fmt (blen b) maxSize) w (proj2 (Z.ltb_ge _ _) Hsize)).
    run (ret_run (E := error) (@None Z) w).
    run (proj2 (in_store_ok _ w r _) (ex_intro _ s (conj Hput eq_refl))).
    run Hrun. by run Hix.
  - constructor; fold p.
    + exact Hv.
    + cbn. rewrite Hst. by apply put_law in Hput as [_ Hok]; [destruct (Hok r eq_refl)|].
    + eexists. split; [cbn; rewrite (frame_head _ _ _ _ _ _ Hfra); exact Hh|done].
    + cbn. rewrite (readCurrentVersion_core _ _ _ _ (if_files _ _ _ _ Hfra)). exact Hcur.
    + by apply (frame_contiguous _ _ _ _ Hfra).
Qed.

(** C9: A write stores its content.  When the storage accepts the bytes, a write
    within the size limit always succeeds; the object then holds exactly the
    content, the head of the file's history is a new version with the content's
    hash and size and the writer as author, the file's current version is that
    one, the full text indexed is the content, and the history stays gapless. *)
Theorem write_stores dr now ctx path content message (w : World Store) r s :
  ready dr ctx w -> blen content <= MAX_FILE_SIZE ->
  putObject (key_of ctx path) content (Some (detectMimeType (normalizePath path))) w.(w_store) = (Ok r, s) ->
  let p := normalizePath path in
  exists v w', write fmt extractPdfText dr now ctx path content message None w
      = (Ok (Build_WriteResult v p (blen content) (sha256hex content) false), w') /\
    v = Z.of_nat (length (history w.(w_db) p ctx.(op_driveId))) + 1 /\
    object w'.(w_store) (key_of ctx path) = Some content /\
    (exists h, head_version w'.(w_db) ctx.(op_driveId) p = Some h /\ h.(fv_version) = v /\
       h.(fv_contentHash) = Some (sha256hex content) /\ h.(fv_size) = Some (blen content) /\
       h.(fv_author) = ctx.(op_userId) /\ h.(fv_operation) = OpWrite) /\
    readCurrentVersion w'.(w_db) p ctx.(op_driveId) = Some (Some (pretty v)) /\
    indexedContent w'.(w_db) p ctx.(op_driveId) = Some content /\
    contiguous w'.(w_db).
Proof.
  intros Hready Hsize Hput p.
  destruct (writeInternal_stores dr now ctx path content message (Some content) MAX_FILE_SIZE w r s Hready Hsize Hput)
    as (v & w' & Hrun & [Hv Ho Hh Hcur Hc] & Hix).
  exists v, w'. split_and!; [exact Hrun|done..| |done]. by apply Hix.
Qed.

Lemma writeInternal_guard dr now ctx path b message text maxSize e (w : World Store) :
  blen b <= maxSize ->
  let p := normalizePath path in let d := ctx.(op_driveId) in
  let head := head_version w.(w_db) d p in
  let current := (fv_version <$> head) ?? 0 in
  let result := writeInternal fmt extractPdfText dr now ctx path b message (Some e) text maxSize w in
  if decide (e = current \/ (e = 0 /\ fv_operation <$> head = Some OpDelete)) then
    if decide (0 < current /\ head ≫= fv_contentHash = Some (sha256hex b))
    then result = (Ok (Build_WriteResult current p (blen b) (sha256hex b) true), w)
    else result = writeInternal fmt extractPdfText dr now ctx path b message None text maxSize w
  else exists err, result = (Throw err, w) /\ getStatusCode err = 409.
Proof.
  intros Hsize p d head current result. subst result. unfold writeInternal. cbv zeta. fold p d.
  pose proof (throw_if_false (S := World Store) _ (too_large fmt (blen b) maxSize) w
    (proj2 (Z.ltb_ge _ _) Hsize)) as Hthrow.
  assert (Hassert : assertExpectedVersion w.(w_db) d p (Some e) =
    if decide (e = current \/ (e = 0 /\ fv_operation <$> head = Some OpDelete)) then Ok current
    else Throw (EditConflictError ("Expected version " +:+ pretty e +:+ " but file is at version " +:+ pretty current)
                  (Some p) (Some "Re-read the file to get the current version and retry"))).
  { unfold assertExpectedVersion. fold head current. destruct (decide (_ \/ _)) as [Hd|Hd].
    - destruct Hd as [->|[-> Hd]]; [by rewrite bool_decide_true|].
      by rewrite (bool_decide_true (0 = 0)), (bool_decide_true (_ = Some OpDelete)), orb_true_r.
    - rewrite bool_decide_false by tauto. destruct (decide (e = 0)).
      + by rewrite (bool_decide_false (_ = Some OpDelete)) by tauto; rewrite andb_false_r.
      + by rewrite (bool_decide_false (e = 0)). }
  destruct (decide (_ \/ _)) as [Hd|Hd].
  - assert (Hdedup : dedup_check ctx p (sha256hex b) (Some e) w =
      (Ok (if decide (0 < current /\ head ≫= fv_contentHash = Some (sha256hex b)) then Some current else None), w)).
    { unfold dedup_check, reads, mbind, M_bind. fold d. rewrite Hassert. cbv beta iota.
      destruct (Z.ltb_spec 0 current); [|by rewrite decide_False by lia].
      unfold query, gets, mret, M_ret, getHeadContentHash. fold head.
      case_bool_decide; [by rewrite decide_True|by rewrite decide_False by tauto]. }
    destruct (decide (0 < current /\ _)).
    + run Hthrow. by run Hdedup.
    + etrans; [|symmetry]; run Hthrow; [run Hdedup; reflexivity|by run (ret_run (E := error) (@None Z) w)].
  - eexists (EditConflictError _ _ _). split; [|reflexivity]. run Hthrow. unfold mbind at 1, M_bind at 1. cbv beta.
    unfold dedup_check, reads, mbind at 1, M_bind at 1. fold d. by rewrite Hassert.
Qed.
(** The version check of a write.  With an expected version, a write within
    the size limit is refused as an edit conflict without any change when the
    head is at another version (a deleted file also counts as version 0);
    otherwise, when the content is already the head version's, it reports that
    version and changes nothing; otherwise it is the unconditional write. *)
Theorem write_expected_version dr now ctx path content message e (w : World Store) :
  blen content <= MAX_FILE_SIZE ->
  let p := normalizePath path in let d := ctx.(op_driveId) in
  let head := head_version w.(w_db) d p in
  let current := (fv_version <$> head) ?? 0 in
  let result := write fmt extractPdfText dr now ctx path content message (Some e) w in
  if decide (e = current \/ (e = 0 /\ fv_operation <$> head = Some OpDelete)) then
    if decide (0 < current /\ head ≫= fv_contentHash = Some (sha256hex content))
    then result = (Ok (Build_WriteResult current p (blen content) (sha256hex content) true), w)
    else result = write fmt extractPdfText dr now ctx path content message None w
  else exists err, result = (Throw err, w) /\ getStatusCode err = 409.
Proof. intros Hsize. by apply writeInternal_guard. Qed.
End Contracts.

(** ** edit.ts *)

Lemma occurrences_zero pat s : pat <> "" -> occurrences pat s = 0 -> forall a b, s <> a +:+ pat +:+ b.
Proof.
  intros Hp. unfold occurrences. rewrite bool_decide_false by done. cbn [count_from].
  destruct (cut_first pat s) as [[x y]|] eqn:E; [|intros _; by apply cut_first_none].
  pose proof (count_from_nonneg (String.length s) pat y). lia.
Qed.

Lemma occurrences_many pat s :
  pat <> "" -> 1 < occurrences pat s -> exists a m b, s = a +:+ pat +:+ m +:+ pat +:+ b.
Proof.
  intros Hp. unfold occurrences. rewrite bool_decide_false by done. cbn [count_from].
  destruct (cut_first pat s) as [[x y]|] eqn:E; [|lia]. destruct (String.length s) as [|k]; cbn [count_from]; [lia|].
  destruct (cut_first pat y) as [[m b]|] eqn:E2; [|lia]. intros _. exists x, m, b.
  rewrite (cut_first_app _ _ _ _ E). by rewrite (cut_first_app _ _ _ _ E2).
Qed.

(** An edit replaces the one occurrence.  For a non-empty old string and a
    new string without dollar signs, an accepted edit cuts the content around an
    occurrence of the old string and puts the new string there; it is refused
    as not found exactly when the old string does not occur, and as not unique
    only when it occurs twice. *)
Theorem edit_text_spec path old_string new_string content :
  old_string <> "" -> has_char "$"%char new_string = false ->
  match edit_text path old_string new_string content with
  | Ok out => exists before after, content = before +:+ old_string +:+ after /\
                out = before +:+ new_string +:+ after /\ (forall a b, after <> a +:+ old_string +:+ b)
  | Throw e => (e = old_not_found path /\ forall a b, content <> a +:+ old_string +:+ b) \/
               (e = old_not_unique path (occurrences old_string content) /\
                exists a m b, content = a +:+ old_string +:+ m +:+ old_string +:+ b)
  end.
Proof.
  intros Hold Hdollar. unfold edit_text. destruct (Z.eqb_spec (occurrences old_string content) 0) as [H0|H0].
  { left. split; [done|]. by apply occurrences_zero. }
  destruct (Z.ltb_spec 1 (occurrences old_string content)) as [H1|H1].
  { right. split; [done|]. by apply occurrences_many. }
  assert (Hone : occurrences old_string content = 1).
  { assert (0 <= occurrences old_string content) by (unfold occurrences; rewrite bool_decide_false by done;
      apply count_from_nonneg). lia. }
  destruct (occurrences_one _ _ Hold Hone) as (before & after & Hcut & Hs & Hno).
  exists before, after. split_and!; [done| |done]. unfold js_replace. by rewrite Hcut, expand_plain.
Qed.

Lemma edit_text_spec_witness :
  "a-b" <> "" /\ edit_text "/f" "b" "xyz" "abc" = Ok "axyzc" /\
  exists before after, "abc" = before +:+ "b" +:+ after /\ "axyzc" = before +:+ "xyz" +:+ after.
Proof.
  split; [done|]. split; [reflexivity|].
  destruct (edit_text_spec "/f" "b" "xyz" "abc" ltac:(discriminate) eq_refl) as (x & y & H1 & H2 & _).
  by exists x, y.
Defined.

(** Dollar signs in the new string are not written as they are.  The new
    string is passed to [String.replace], which reads [$$] as one dollar, [$&] as
    the old string, and [$`] as the text before it: an accepted edit to such a
    text stores another text than the one asked for. *)
Theorem edit_dollar_pattern path old_string content before after :
  occurrences old_string content = 1 -> cut_first old_string content = Some (before, after) ->
  edit_text path old_string "$$" content = Ok (before +:+ "$" +:+ after) /\
  edit_text path old_string "$&" content = Ok content /\
  edit_text path old_string "$`" content = Ok (before +:+ before +:+ after).
Proof.
  intros Hone Hc. unfold edit_text, js_replace. rewrite Hone, Hc. split_and!; [reflexivity| |].
  - rewrite (cut_first_app _ _ _ _ Hc).
    replace (expand before old_string after "$&") with (old_string +:+ "") by reflexivity. by rewrite app_nil_r_str.
  - replace (expand before old_string after "$`") with (before +:+ "") by reflexivity. by rewrite app_nil_r_str.
Qed.

Lemma edit_dollar_pattern_witness :
  edit_text "/f" "5 EUR" "$$" "price: 5 EUR." = Ok "price: $.".
Proof. exact (proj1 (edit_dollar_pattern "/f" "5 EUR" "price: 5 EUR." "price: " "." eq_refl eq_refl)). Defined.

(** ** rm.ts *)

Lemma publish_all_run {Store} (f : Comment_ -> DriveEvent) l (w : World Store) :
  for_each l (fun c => publish (f c)) w = (Ok tt, w <| w_events := w.(w_events) ++ (f <$> l) |>).
Proof.
  revert w. induction l as [|c l IH]; intros w; cbn [for_each].
  - unfold mret, M_ret. cbn. rewrite app_nil_r. by destruct w.
  - etrans; [eapply bind_run; reflexivity|]. cbv beta. rewrite IH. unfold update. cbn. by rewrite <- app_assoc.
Qed.

Lemma clear_all_docs path d db :
  indexedContent (clearSearchData path d ScopeAll db) path d = None /\
  (forall c, c ∈ (clearSearchData path d ScopeAll db).(contentChunks) -> ~ chunk_of path d ScopeAll c).
Proof.
  split.
  - unfold indexedContent. cbn. apply fmap_None, get_row_none. by intros x [_ Hx]%elem_of_delete_where.
  - cbn. by intros c [_ Hc]%elem_of_delete_where.
Qed.

Section Remove.
Context {rt : Runtime} {Store : Type} {SA : StorageAdapter Store} {SV : StorageView Store} {SL : StorageLaws Store}.

Lemma favoritesAfterRemove_run ctx path (w : World Store) :
  exists favs, favoritesAfterRemove ctx path w = (Ok tt, w <| w_db := w.(w_db) <| favorites := favs |> |>) /\
    favs `sublist_of` delete_where (is_file_star ctx.(op_driveId) path) w.(w_db).(favorites).
Proof.
  unfold favoritesAfterRemove. rewrite bestEffort_ok. unfold write_db, modify, mbind, M_bind.
  match goal with |- context [dropVanishedFolders ctx path ?x] =>
    destruct (dropVanishedFolders_drops ctx path x) as (favs & -> & Hsub & _) end.
  by exists favs.
Qed.

(** C10: A removal leaves no trace but history.  When the storage deletes the
    object, [rm] succeeds: the object is gone, the history ends in a new delete
    version, the file reads as deleted, its text and its chunks have left the
    index, every comment on it is soft-deleted with one event for every live
    root, nobody stars the file, and the comments and the index of other files
    are as they were. *)
Theorem rm_clears dr now ctx path (w : World Store) u s :
  ready dr ctx w -> deleteObject (key_of ctx path) w.(w_store) = (Ok u, s) ->
  let p := normalizePath path in let d := ctx.(op_driveId) in
  exists w', rm dr now ctx path None w = (Ok p, w') /\
    object w'.(w_store) (key_of ctx path) = None /\
    (exists h, head_version w'.(w_db) d p = Some h /\ h.(fv_operation) = OpDelete /\
       h.(fv_version) = Z.of_nat (length (history w.(w_db) p d)) + 1) /\
    readCurrentVersion w'.(w_db) p d = None /\ indexedContent w'.(w_db) p d = None /\
    (forall c, c ∈ w'.(w_db).(contentChunks) -> ~ chunk_of p d ScopeAll c) /\
    (forall c, c ∈ w'.(w_db).(comments) -> on_file d p c -> c.(com_isDeleted) = true) /\
    (forall c, c ∈ live_roots d p w.(w_db) ->
       CommentChanged d c.(com_path) c.(com_id) None CaDeleted ctx.(op_userId) now ∈ w'.(w_events)) /\
    (forall f, f ∈ w'.(w_db).(favorites) -> ~ is_file_star d p f) /\
    filter (fun c => ~ on_file d p c) w'.(w_db).(comments) = filter (fun c => ~ on_file d p c) w.(w_db).(comments) /\
    filter (fun x => ~ is_doc d p x) w'.(w_db).(fts_docs) = filter (fun x => ~ is_doc d p x) w.(w_db).(fts_docs).
Proof.
  intros Hready Hdel p d. pose proof (ready_key _ _ _ path Hready) as Hkey. destruct Hready as (Hc & Hd & Hfr & _).
  set (params := Build_VersionParams p "" OpDelete None None None None None None).
  pose (w0 := w <| w_store := s |>).
  destruct (createVersion_succeeds dr now ctx params w0 Hc Hd Hfr) as (v & w1 & Hrun).
  destruct (createVersion_recorded _ _ _ _ w0 _ _ Hc Hrun) as [Hv _ Hh Hcur _ Hst _ Hdocs Hcom Hfav _].
  pose (db2 := clearSearchData p d ScopeAll w1.(w_db)). pose (db3 := delete_comments d p now db2).
  set (deleted := fun c => CommentChanged d (com_path c) (com_id c) None CaDeleted (op_userId ctx) now).
  pose (w4 := w1 <| w_db := db3 |> <| w_events := w1.(w_events) ++ (deleted <$> live_roots d p w.(w_db)) |>).
  destruct (favoritesAfterRemove_run ctx p w4) as (favs & Hrm & Hsub).
  pose proof (frame_clear p d ScopeAll w1.(w_db)) as Hfra. fold db2 in Hfra.
  destruct (clear_all_docs p d w1.(w_db)) as [Hdoc Hchunk]. fold db2 in Hdoc, Hchunk.
  assert (Hroots : live_roots d p db2 = live_roots d p w.(w_db)).
  { unfold live_roots. by rewrite (if_comments _ _ _ _ Hfra), Hcom. }
  eexists. split_and!.
  - unfold rm. cbv zeta. fold p d. run (ret_run (E := error) tt w).
    run (proj2 (in_store_ok _ w u _) (ex_intro _ s (conj Hdel eq_refl))). run Hrun.
    unfold write_db at 1 2, query. etrans; [eapply bind_run; reflexivity|]. etrans; [eapply bind_run; reflexivity|].
    etrans; [eapply bind_run; reflexivity|]. cbv beta.
    change (w_db (w1 <| w_db ::= clearSearchData p d ScopeAll |>)) with db2. rewrite Hroots.
    etrans; [eapply bind_run; exact (publish_all_run deleted _ _)|]. cbv beta.
    etrans; [eapply bind_run; exact Hrm|]. reflexivity.
  - cbn. rewrite Hst. by apply delete_law in Hdel as [_ Hok]; [apply (Hok u)|].
  - eexists. split; [etrans; [exact (frame_head _ _ _ _ d p Hfra)|exact Hh]|]. split; [done|exact Hv].
  - etrans; [exact (readCurrentVersion_core _ _ p d (if_files _ _ _ _ Hfra))|exact Hcur].
  - exact Hdoc.
  - exact Hchunk.
  - cbn. intros c Hin Hon. apply elem_of_update_where in Hin as (c0 & _ & [[_ ->]|[Hn ->]]); [done|by destruct Hn].
  - intros c Hin. cbn. apply elem_of_app. right. by apply (list_elem_of_fmap_2 deleted).
  - cbn. intros f Hf. eapply elem_of_submseteq in Hf; [|by apply sublist_submseteq].
    by apply elem_of_delete_where in Hf as [_ Hf].
  - etrans; [apply filter_update_other; intros c Hon; exact Hon|]. rewrite (if_comments _ _ _ _ Hfra). by rewrite Hcom.
  - etrans; [exact (if_docs _ _ _ _ Hfra)|]. by rewrite Hdocs.
Qed.
End Remove.

(** ** cat.ts *)

Lemma slice_prefix {A} (l : list A) (k : Z) :
  0 <= k -> slice l 0 k = take (Z.to_nat k) l.
Proof.
  intros Hk. unfold slice, slice_index. cbn [Z.ltb Z.compare]. destruct (Z.ltb_spec k 0); [lia|].
  replace (Z.to_nat (Z.min 0 (Z.of_nat (length l)))) with 0%nat by lia. cbn [drop].
  destruct (Z.le_ge_cases k (Z.of_nat (length l))).
  - rewrite drop_0. f_equal. lia.
  - rewrite drop_0, !take_ge by lia. done.
Qed.

Lemma slice_suffix {A} (l : list A) (k n : Z) :
  0 <= k <= Z.of_nat (length l) -> Z.of_nat (length l) <= n -> slice l k n = drop (Z.to_nat k) l.
Proof.
  intros Hk Hn. unfold slice, slice_index. destruct (Z.ltb_spec k 0), (Z.ltb_spec n 0); try lia.
  rewrite (Z.min_l k), (Z.min_r n) by lia. rewrite take_ge; [done|]. rewrite length_drop. lia.
Qed.

Lemma unlines_app a b : a <> [] -> b <> [] -> unlines (a ++ b) = unlines a +:+ String newline "" +:+ unlines b.
Proof.
  intros Ha Hb. unfold unlines. induction a as [|x [|y a] IH]; [done|by destruct b|].
  specialize (IH ltac:(done)). cbn [app] in IH |- *.
  change (join ?s (x :: y :: ?t)) with (x +:+ s +:+ join s (y :: t)). rewrite IH. by rewrite !app_assoc_str.
Qed.

Section Cat.
Context {rt : Runtime} {cfg : Config} {Store : Type} {SA : StorageAdapter Store} {SV : StorageView Store} {SL : StorageLaws Store}.

(** [cat] of a readable object. *)
Lemma cat_run ctx path offset limit (w : World Store) g s text :
  getObject (key_of ctx path) None w.(w_store) = (Ok g, s) ->
  decodeIndexableText g.(get_body) (g.(get_contentType) ?? detectMimeType (normalizePath path)) = Some text ->
  cat ctx path offset limit w =
  (Ok {| cat_content := unlines (slice (lines text) (offset ?? 0) ((offset ?? 0) + (limit ?? DEFAULT_LIMIT)));
         cat_totalLines := Z.of_nat (length (lines text));
         cat_truncated := (offset ?? 0) + (limit ?? DEFAULT_LIMIT) <? Z.of_nat (length (lines text)) |}, w).
Proof.
  intros Hget Hdec. unfold cat. cbv zeta. etrans; [eapply (bind_run _ _ w g w)|].
  - unfold get_or_not_found, try_catch, in_store, on. unfold key_of in Hget. rewrite Hget.
    apply get_law in Hget as [-> _]. by destruct w.
  - cbv beta. by rewrite Hdec.
Qed.

(** The pages of a file are the file.  Reading a text object leaves the
    world as it was; a page that covers all lines is the whole text and is not
    marked truncated; the first [k] lines and the lines from [k] on, joined by a
    newline, are the whole text; and a page is marked truncated exactly when
    lines follow it. *)
Theorem cat_pages ctx path k n (w : World Store) g s text :
  getObject (key_of ctx path) None w.(w_store) = (Ok g, s) ->
  decodeIndexableText g.(get_body) (g.(get_contentType) ?? detectMimeType (normalizePath path)) = Some text ->
  let total := Z.of_nat (length (lines text)) in
  total <= n -> 0 < k < total ->
  cat ctx path None (Some n) w = (Ok (Build_CatResult text total false), w) /\
  exists first rest,
    cat ctx path None (Some k) w = (Ok (Build_CatResult first total true), w) /\
    cat ctx path (Some k) (Some n) w = (Ok (Build_CatResult rest total false), w) /\
    first +:+ String newline "" +:+ rest = text.
Proof.
  intros Hget Hdec total Hn Hk. rewrite !(cat_run _ _ _ _ _ _ _ _ Hget Hdec). cbn [from_option id]. fold total.
  rewrite Z.add_0_l, (slice_prefix _ n), (take_ge (lines text)), unlines_lines by lia.
  rewrite (proj2 (Z.ltb_ge n total) Hn). split; [done|].
  eexists (unlines (take (Z.to_nat k) (lines text))), (unlines (drop (Z.to_nat k) (lines text))). split_and!.
  - rewrite Z.add_0_l, slice_prefix by lia. by rewrite (proj2 (Z.ltb_lt k total)) by lia.
  - rewrite slice_suffix by lia. by rewrite (proj2 (Z.ltb_ge (k + n) total)) by lia.
  - rewrite <- unlines_app, take_drop; [apply unlines_lines|..].
    + intros H%(f_equal length). rewrite length_take in H. cbn in H. lia.
    + intros H%(f_equal length). rewrite length_drop in H. cbn in H. lia.
Qed.
End Cat.

(** ** Witnesses *)

#[export] Instance sample_config : Config :=
  {| getEmbeddingExcludeDrives := []; getEmbeddingMaxBytes := None; getMaxUploadBytes := 52428800 |}.
Definition sample_formats : Formats := {| mb1 := fun n => pretty (n / 1048576); mb := fun n => pretty (n / 1048576) |}.
Definition no_pdf (b : string) : option string := None.

Lemma sample_org : plain_segment "o1".
Proof. by repeat split. Qed.

Lemma sample_ready n : ready (sample_draws n) (sample_ctx "u2") sample_world.
Proof. split_and!; [apply sample_contiguous|reflexivity|apply sample_draws_fresh|exact sample_org]. Qed.

Lemma write_stores_witness :
  exists v w', write (rt := ascii_runtime) sample_formats no_pdf (sample_draws "1") 5 (sample_ctx "u2") "/a.txt" "hello"
      None None sample_world = (Ok (Build_WriteResult v "/a.txt" 5 (sha256hex (Runtime := ascii_runtime) "hello") false), w') /\
    object w'.(w_store) (key_of (sample_ctx "u2") "/a.txt") = Some "hello".
Proof.
  destruct (write_stores (rt := ascii_runtime) sample_formats no_pdf (sample_draws "1") 5 (sample_ctx "u2") "/a.txt"
    "hello" None sample_world _ _ (sample_ready "1") ltac:(vm_compute; discriminate) (surjective_pairing _))
    as (v & w' & H & _ & Ho & _).
  by exists v, w'.
Defined.

(** The sample world with a file of three lines, and one comment on it. *)
Definition sample_text : string := "a" +:+ String newline "b" +:+ String newline "c".
Definition sample_written : World MemStore :=
  (write (rt := ascii_runtime) sample_formats no_pdf (sample_draws "1") 5 (sample_ctx "u2") "/a.txt" sample_text
     None None sample_world).2.

(** A stale version, version 0 and the right version with the same content. *)
Lemma write_expected_version_witness :
  let again e := write (rt := ascii_runtime) sample_formats no_pdf (sample_draws "2") 9 (sample_ctx "u1") "/a.txt"
    sample_text None (Some e) sample_written in
  (exists err, again 7 = (Throw err, sample_written) /\ getStatusCode err = 409) /\
  again 1 = (Ok (Build_WriteResult 1 "/a.txt" 5 (sha256hex (Runtime := ascii_runtime) sample_text) true), sample_written).
Proof.
  split.
  - pose proof (write_expected_version (rt := ascii_runtime) sample_formats no_pdf (sample_draws "2") 9 (sample_ctx "u1")
      "/a.txt" sample_text None 7 sample_written ltac:(vm_compute; discriminate)) as H.
    cbv zeta in H. rewrite decide_False in H; [exact H|].
    intros [H'|[H' _]]; vm_compute in H'; discriminate H'.
  - pose proof (write_expected_version (rt := ascii_runtime) sample_formats no_pdf (sample_draws "2") 9 (sample_ctx "u1")
      "/a.txt" sample_text None 1 sample_written ltac:(vm_compute; discriminate)) as H.
    cbv zeta in H. rewrite decide_True, decide_True in H; [exact H| |].
    + split; vm_compute; reflexivity.
    + left. vm_compute. reflexivity.
Defined.

Lemma rm_clears_witness :
  exists w', rm (sample_draws "1") 7 (sample_ctx "u2") "a.txt" None sample_world = (Ok "/a.txt", w') /\
    readCurrentVersion w'.(w_db) "/a.txt" "d1" = None.
Proof.
  destruct (rm_clears (SL := memory_laws (rt := ascii_runtime)) (sample_draws "1") 7 (sample_ctx "u2") "a.txt" sample_world tt empty_store
    (sample_ready "1") ltac:(vm_compute; reflexivity)) as (w' & H & _ & _ & Hr & _).
  by exists w'.
Defined.

Lemma cat_pages_witness :
  exists first rest,
    cat (rt := ascii_runtime) (sample_ctx "u1") "/a.txt" None (Some 1) sample_written
      = (Ok (Build_CatResult first 3 true), sample_written) /\
    cat (rt := ascii_runtime) (sample_ctx "u1") "/a.txt" (Some 1) (Some 9) sample_written
      = (Ok (Build_CatResult rest 3 false), sample_written) /\
    first +:+ String newline "" +:+ rest = sample_text.
Proof.
  destruct (cat_pages (rt := ascii_runtime) (SL := memory_laws (rt := ascii_runtime)) (sample_ctx "u1") "/a.txt" 1 9 sample_written
    {| get_body := sample_text; get_contentType := Some "text/plain"; get_etag := None |} sample_written.(w_store) sample_text
    ltac:(vm_compute; reflexivity) eq_refl ltac:(vm_compute; discriminate) ltac:(split; vm_compute; reflexivity))
    as (_ & first & rest & H1 & H2 & H3).
  exists first, rest. split; [exact H1|]. by split.
Defined.
