(* ===== verification/History.v ===== *)
(** * History: every version handle leads back to its content

    The invariant of the version table over the storage: a row with a version
    handle names a retrievable object whose digest is the row's content hash.
    Every file operation keeps it, whatever the backend answers, so [revert]
    puts back the content a version was recorded with. *)

From S2P Require Import Prelude JsString Errors Text Paths Schema Rbac Storage GlobCache World Outbox Search Versioning Favorites FileOps FileSpec.

(** ** Triples that keep an invariant

    From a state of [P], [m] ends in [I], and in [Q a] when it returns [a]. *)

Definition triple {E S A} (I P : S -> Prop) (m : M E S A) (Q : A -> S -> Prop) : Prop :=
  forall s, P s -> match m s with (Ok a, s') => I s' /\ Q a s' | (Throw _, s') => I s' end.

Section Triples.
Context {E S : Type} (I : S -> Prop).

Lemma triple_bind {A B} P (m : M E S A) Q (f : A -> M E S B) R :
  triple I P m Q -> (forall a, triple I (fun s => I s /\ Q a s) (f a) R) -> triple I P (m ≫= f) R.
Proof.
  intros Hm Hf s Hs. specialize (Hm s Hs). unfold mbind, M_bind.
  destruct (m s) as [[a|e] s1]; [|done]. by apply Hf.
Qed.

Lemma triple_preserves {A} (m : M E S A) : preserves I m -> triple I I m (fun _ => I).
Proof. intros Hm s Hs. specialize (Hm s Hs). by destruct (m s) as [[a|e] s1]. Qed.

(** The first step only reads and the fact about the state stays. *)
Lemma triple_pre {A} (P P' : S -> Prop) (m : M E S A) Q : (forall s, P' s -> P s) -> triple I P m Q -> triple I P' m Q.
Proof. intros Hp Hm s Hs. apply Hm. by apply Hp. Qed.

Lemma preserves_of_triple {A} (m : M E S A) Q : triple I I m Q -> preserves I m.
Proof. intros Hm s Hs. specialize (Hm s Hs). destruct (m s) as [[a|e] s1]; [by destruct Hm|done]. Qed.
End Triples.

Section History.
Context {rt : Runtime} {cfg : Config} {Store : Type} {SA : StorageAdapter Store} {SV : StorageView Store} {SL : StorageLaws Store}.
Variable fmt : Formats.
Variable extractPdfText : string -> option string.
(** The organisation of a drive. *)
Variable org_of : string -> string.

Definition handle_good (s : Store) (key handle : string) (hash : option string) : Prop :=
  handle <> "" -> exists b, version_object s key handle = Some b /\ hash = Some (sha256hex b).

Definition row_key (v : FileVersion) : string := getS3Key (org_of v.(fv_driveId)) v.(fv_driveId) v.(fv_path).

Definition retrievable (w : World Store) : Prop :=
  store_sound w.(w_store) /\
  forall v, v ∈ w.(w_db).(fileVersions) -> handle_good w.(w_store) (row_key v) v.(fv_s3VersionId) v.(fv_contentHash).

(** A request's drive belongs to its organisation ([resolveContext]), whose id, a
    UUID, is a plain name. *)
Definition in_org (ctx : OpContext) : Prop :=
  ctx.(op_orgId) = org_of ctx.(op_driveId) /\ plain_segment ctx.(op_orgId).

Lemma in_org_key ctx path : in_org ctx -> object_key (getS3Key ctx.(op_orgId) ctx.(op_driveId) path).
Proof. intros [_ Horg]. by apply drive_key_law. Qed.

(** *** Steps that leave the versions alone *)

Lemma retrievable_frame (w w' : World Store) k :
  retrievable w -> w'.(w_db).(fileVersions) = w.(w_db).(fileVersions) ->
  storage_frame k w.(w_store) w'.(w_store) -> retrievable w'.
Proof.
  intros [Hs Hw] Hv (_ & Hf & Hsound). split; [auto|]. intros v Hin Hh. rewrite Hv in Hin.
  destruct (Hw v Hin Hh) as (b & Hb & Hhash). eauto.
Qed.

Lemma retrievable_same (w w' : World Store) :
  retrievable w -> w'.(w_db).(fileVersions) = w.(w_db).(fileVersions) -> w'.(w_store) = w.(w_store) -> retrievable w'.
Proof. intros Hw Hv Hs. apply (retrievable_frame w w' ""); [done..|]. rewrite Hs. apply storage_frame_refl. Qed.

Lemma in_store_frame {A} (m : M error Store A) k :
  (forall s o s', m s = (o, s') -> storage_frame k s s') -> preserves retrievable (in_store m).
Proof.
  intros Hm w Hw. unfold in_store, on. destruct (m w.(w_store)) as [o s'] eqn:E.
  apply (retrievable_frame w _ k Hw); [done|]. by eapply Hm.
Qed.

Lemma put_retrievable k b ct : object_key k -> preserves retrievable (in_store (putObject k b ct)).
Proof. intros Hk. apply (in_store_frame _ k). intros s o s' H. by apply put_law in H as [? _]. Qed.
Lemma delete_retrievable k : object_key k -> preserves retrievable (in_store (deleteObject k)).
Proof. intros Hk. apply (in_store_frame _ k). intros s o s' H. by apply delete_law in H as [? _]. Qed.
Lemma copy_retrievable k k' : object_key k -> object_key k' -> preserves retrievable (in_store (copyObject k k')).
Proof. intros Hk Hk'. apply (in_store_frame _ k'). intros s o s' H. by apply copy_law in H as [? _]. Qed.

Lemma get_retrievable k : preserves retrievable (in_store (getObject k None)).
Proof. apply in_store_silent. intros s. destruct (getObject k None s) as [o s'] eqn:E. by apply get_law in E as [-> _]. Qed.
Lemma head_retrievable k : preserves retrievable (in_store (headObject k)).
Proof. apply in_store_silent, headObject_silent. Qed.

Lemma db_retrievable {A} (m : DbM A) :
  (forall db, (m db).2.(fileVersions) = db.(fileVersions)) -> preserves retrievable (in_db m).
Proof.
  intros Hm w Hw. unfold in_db, on. specialize (Hm w.(w_db)). destruct (m w.(w_db)) as [o db'].
  by apply (retrievable_same w).
Qed.

Lemma write_db_retrievable f :
  (forall db, (f db).(fileVersions) = db.(fileVersions)) -> preserves retrievable (write_db f : OpM Store unit).
Proof. intros Hf. apply preserves_modify. intros w Hw. apply (retrievable_same w); [exact Hw|apply Hf|reflexivity]. Qed.

Lemma globs_retrievable o d : preserves retrievable (invalidate_globs o d : OpM Store unit).
Proof. apply preserves_modify. intros w Hw. by apply (retrievable_same w). Qed.

Lemma publish_retrievable e : preserves retrievable (publish e : OpM Store unit).
Proof. apply preserves_modify. intros w Hw. by apply (retrievable_same w). Qed.

Lemma indexText_retrievable ctx path content : preserves retrievable (in_db (indexTextForSearch ctx path content)).
Proof. apply db_retrievable. intros db. exact (if_versions _ _ _ _ (indexText_frame ctx path content db db ltac:(reflexivity))). Qed.

Lemma indexBytes_retrievable ctx path b ct :
  preserves retrievable (in_db (indexBytesForSearch extractPdfText ctx path b ct)).
Proof. apply db_retrievable. intros db. exact (if_versions _ _ _ _ (indexBytes_frame extractPdfText ctx path b ct db db ltac:(reflexivity))). Qed.

Lemma check_retrievable ctx path e : preserves retrievable (check_version ctx path e : OpM Store unit).
Proof. unfold check_version. destruct e; [|apply preserves_ret]. apply preserves_bind; [apply preserves_reads|]. intros _. apply preserves_ret. Qed.

Lemma get_or_not_found_retrievable k p : preserves retrievable (get_or_not_found k p).
Proof.
  unfold get_or_not_found. apply preserves_try_catch; [apply get_retrievable|]. intros e.
  destruct (is_no_such_key e); apply preserves_throw.
Qed.

Lemma dropVanished_retrievable ctx path : preserves retrievable (dropVanishedFolders ctx path : OpM Store unit).
Proof.
  intros w Hw. destruct (dropVanishedFolders_drops ctx path w) as (favs & -> & _). by apply (retrievable_same w).
Qed.

Lemma afterRemove_retrievable ctx path : preserves retrievable (favoritesAfterRemove ctx path : OpM Store unit).
Proof.
  unfold favoritesAfterRemove, bestEffort. apply preserves_try_catch; [|intros e; apply preserves_ret].
  apply preserves_bind; [by apply write_db_retrievable|]. intros _. apply dropVanished_retrievable.
Qed.

Lemma afterMove_retrievable ctx a b : preserves retrievable (favoritesAfterMove ctx a b : OpM Store unit).
Proof.
  unfold favoritesAfterMove, bestEffort. apply preserves_try_catch; [|intros e; apply preserves_ret].
  apply preserves_bind; [by apply write_db_retrievable|]. intros _. apply dropVanished_retrievable.
Qed.

Hint Resolve put_retrievable delete_retrievable copy_retrievable get_retrievable head_retrievable globs_retrievable
  publish_retrievable indexText_retrievable indexBytes_retrievable check_retrievable get_or_not_found_retrievable
  afterRemove_retrievable afterMove_retrievable : preserve.

(** *** Recording a version *)

(** The handle and hash the parameters carry are good in the store. *)
Definition params_good (ctx : OpContext) (p : VersionParams) (s : Store) : Prop :=
  handle_good s (getS3Key ctx.(op_orgId) ctx.(op_driveId) p.(vp_path)) p.(vp_s3VersionId) p.(vp_contentHash).

Lemma createVersion_triple dr now ctx p :
  in_org ctx -> triple retrievable (fun w => retrievable w /\ params_good ctx p w.(w_store))
                  (createVersion dr now ctx p) (fun _ _ => True).
Proof.
  intros Horg w [Hw Hp]. destruct (createVersion dr now ctx p w) as [[v|e] w'] eqn:E.
  - split; [|done]. apply createVersion_ok in E as (_ & Hst & _ & n & Hrec).
    apply record_version_ok in Hrec as (_ & Hrows & _). unfold retrievable. rewrite Hst. split; [apply Hw|].
    intros x Hx. rewrite Hrows in Hx.
    apply elem_of_app in Hx as [Hx| ->%list_elem_of_singleton]; [by apply Hw|].
    unfold row_key. cbn. rewrite <- (proj1 Horg). exact Hp.
  - unfold createVersion, invalidate_globs, query, gets, modify, mbind at 1 2, M_bind at 1 2 in E.
    apply commit_throw in E as ->. by apply (retrievable_same w).
Qed.

(** A version without a handle. *)
Lemma createVersion_no_handle dr now ctx p :
  in_org ctx -> p.(vp_s3VersionId) = "" -> preserves retrievable (createVersion dr now ctx p : OpM Store Z).
Proof.
  intros Horg Hp w Hw. pose proof (createVersion_triple dr now ctx p Horg w) as H.
  destruct (createVersion dr now ctx p w) as [[v|e] w']; [apply H|apply H]; (split; [exact Hw|]); by intros [].
Qed.

(** The put of [b] and the version of it. *)
Lemma put_triple ctx path b ct : in_org ctx ->
  triple retrievable retrievable (in_store (putObject (getS3Key ctx.(op_orgId) ctx.(op_driveId) path) b ct))
    (fun r w => handle_good w.(w_store) (getS3Key ctx.(op_orgId) ctx.(op_driveId) path)
                  (r.(put_versionId) ?? "") (Some (sha256hex b))).
Proof.
  intros Horg w Hw. pose proof (in_org_key ctx path Horg) as Hkey. pose proof (put_retrievable _ b ct Hkey w Hw) as H.
  destruct (in_store _ w) as [[r|e] w'] eqn:E; [|exact H]. split; [exact H|].
  apply in_store_ok in E as (s & Hput & ->). apply put_law in Hput as [_ Hok]; [|done]. destruct (Hok r eq_refl) as [_ Hh]. specialize (Hh (proj1 Hw)).
  intros Hne. destruct r as [et [v|]]; [|done]. destruct (Hh v eq_refl Hne) as (b' & Hb & <-). by exists b'.
Qed.

Lemma put_then_version {A} dr now ctx path b ct (p : PutObjectResult -> VersionParams) (k : PutObjectResult -> Z -> OpM Store A) :
  in_org ctx -> (forall r, (p r).(vp_path) = path /\ (p r).(vp_s3VersionId) = r.(put_versionId) ?? "" /\
                           (p r).(vp_contentHash) = Some (sha256hex b)) ->
  (forall r v, preserves retrievable (k r v)) ->
  preserves retrievable (r ← in_store (putObject (getS3Key ctx.(op_orgId) ctx.(op_driveId) path) b ct);
                         v ← createVersion dr now ctx (p r); k r v).
Proof.
  intros Horg Hp Hk. eapply preserves_of_triple, triple_bind; [by apply put_triple|]. intros r.
  destruct (Hp r) as (Hpath & Hid & Hhash).
  eapply triple_bind.
  - eapply triple_pre; [|by apply createVersion_triple]. intros w [Hw Hg]. split; [exact Hw|].
    unfold params_good. by rewrite Hpath, Hid, Hhash.
  - intros v. eapply triple_pre; [|apply triple_preserves, Hk]. by intros w [Hw _].
Qed.

(** *** The copy of an object and the version of it *)

Lemma triple_keep {A} (P : World Store -> Prop) (m : OpM Store A) :
  (forall w, P w -> retrievable w) -> preserves P m -> triple retrievable P m (fun _ => P).
Proof.
  intros HP Hm w Hw. specialize (Hm w Hw). destruct (m w) as [[a|e] w1]; cbn in Hm; [split|]; auto.
Qed.

(** The object at [key] is what the result's handle retrieves. *)
Definition copied (key : string) (r : PutObjectResult) (w : World Store) : Prop :=
  retrievable w /\ exists b, object w.(w_store) key = Some b /\ handle_retrieves w.(w_store) key b r.

Definition copy_hashed (key hash : string) (r : PutObjectResult) (w : World Store) : Prop :=
  retrievable w /\ handle_good w.(w_store) key (r.(put_versionId) ?? "") (Some hash).

Lemma copy_triple k key : object_key k -> object_key key ->
  triple retrievable retrievable (in_store (copyObject k key)) (fun r w => copied key r w).
Proof.
  intros Hk Hkey w Hw. pose proof (copy_retrievable k key Hk Hkey w Hw) as H.
  destruct (in_store _ w) as [[r|e] w'] eqn:E; [|exact H]. split; [exact H|]. split; [exact H|].
  apply in_store_ok in E as (s & Hcopy & ->). apply copy_law in Hcopy as [_ Hok]; [|done..].
  destruct (Hok r eq_refl) as (b & _ & Ho & Hh). exists b. split; [done|]. apply Hh, Hw.
Qed.

Lemma get_copied_triple key r : object_key key ->
  triple retrievable (copied key r) (in_store (getObject key None))
    (fun obj w => copy_hashed key (sha256hex obj.(get_body)) r w).
Proof.
  intros Hkey w [Hw (b & Ho & Hh)]. pose proof (get_retrievable key w Hw) as H.
  destruct (in_store _ w) as [[g|e] w'] eqn:E; [|exact H]. split; [exact H|]. split; [exact H|].
  apply in_store_ok in E as (s & Hget & ->). apply get_law in Hget as (-> & Hok & _).
  specialize (Hok Hkey g eq_refl). rewrite Ho in Hok. injection Hok as ->.
  intros Hne. destruct r as [et [v|]]; [|done]. destruct (Hh v eq_refl Hne) as (b' & Hb & <-). by exists b'.
Qed.

Lemma copied_globs key r o d : preserves (copied key r) (invalidate_globs o d : OpM Store unit).
Proof. apply preserves_modify. intros w [Hw Hc]. split; [by apply (retrievable_same w)|exact Hc]. Qed.

(** [copyObject], [headObject], [getObject]: what follows knows the digest. *)
Lemma copy_prefix {A} o d k key (rest : PutObjectResult -> HeadObjectResult -> GetObjectResult -> OpM Store A) :
  object_key k -> object_key key ->
  (forall r hd obj, triple retrievable (copy_hashed key (sha256hex obj.(get_body)) r) (rest r hd obj) (fun _ _ => True)) ->
  preserves retrievable (r ← in_store (copyObject k key); _ ← invalidate_globs o d;
    hd ← in_store (headObject key); obj ← in_store (getObject key None); rest r hd obj).
Proof.
  intros Hk Hkey Hrest. eapply preserves_of_triple, triple_bind; [by apply copy_triple|]. intros r.
  eapply triple_bind; [eapply triple_pre; [|apply (triple_keep (copied key r)); [by intros w []|apply copied_globs]]|].
  { by intros w [_ H]. }
  intros ?. eapply triple_bind.
  { eapply triple_pre; [|apply (triple_keep (copied key r)); [by intros w []|apply in_store_silent, headObject_silent]].
    by intros w [_ H]. }
  intros hd. eapply triple_bind; [eapply triple_pre; [|by apply get_copied_triple]; by intros w [_ H]|].
  intros obj. eapply triple_pre; [|apply Hrest]. by intros w [_ H].
Qed.

Lemma hashed_version {A} dr now ctx path hash r p (k : Z -> OpM Store A) :
  in_org ctx -> p.(vp_path) = path -> p.(vp_s3VersionId) = r.(put_versionId) ?? "" -> p.(vp_contentHash) = Some hash ->
  (forall v, preserves retrievable (k v)) ->
  triple retrievable (copy_hashed (getS3Key ctx.(op_orgId) ctx.(op_driveId) path) hash r)
    (v ← createVersion dr now ctx p; k v) (fun _ _ => True).
Proof.
  intros Horg Hpath Hid Hhash Hk. eapply triple_bind.
  - eapply triple_pre; [|by apply createVersion_triple]. intros w (Hw & Hg). split; [exact Hw|].
    unfold params_good. by rewrite Hpath, Hid, Hhash.
  - intros v w [Hw _]. specialize (Hk v w Hw). by destruct (k v w) as [[a|e] w'].
Qed.

Lemma query_triple {A B} (P : World Store -> Prop) (f : Db -> A) (k : A -> OpM Store B) Q :
  (forall a, triple retrievable P (k a) Q) -> triple retrievable P (x ← query f; k x) Q.
Proof. intros Hk w Hw. exact (Hk _ w Hw). Qed.

(** *** The operations *)

Lemma writeInternal_retrievable dr now ctx path b message e text max :
  in_org ctx -> preserves retrievable (writeInternal fmt extractPdfText dr now ctx path b message e text max).
Proof.
  intros Horg. unfold writeInternal. apply preserves_bind; [apply preserves_throw_if|intros _].
  apply preserves_bind; [|intros [v|]].
  - unfold dedup_check. destruct e; [|apply preserves_ret]. apply preserves_bind; [apply preserves_reads|].
    intros c. destruct (0 <? c); [|apply preserves_ret]. apply preserves_bind; [apply preserves_gets|].
    intros h. apply preserves_ret.
  - apply preserves_ret.
  - apply put_then_version; [done|done|]. intros r v.
    apply preserves_bind; [|intros _; apply preserves_ret]. destruct text; [apply indexText_retrievable|].
    apply preserves_bind; [apply indexBytes_retrievable|]. intros _. apply preserves_ret.
Qed.

Lemma append_retrievable dr now ctx path content message e :
  in_org ctx -> preserves retrievable (append dr now ctx path content message e).
Proof.
  intros Horg. unfold append. apply preserves_bind; [apply check_retrievable|intros _].
  apply preserves_bind; [apply get_or_not_found_retrievable|intros g].
  apply put_then_version; [done|done|]. intros r v.
  apply preserves_bind; [apply indexText_retrievable|]. intros _. apply preserves_ret.
Qed.

Lemma edit_retrievable dr now ctx path old new message e :
  in_org ctx -> preserves retrievable (edit dr now ctx path old new message e).
Proof.
  intros Horg. unfold edit. apply preserves_bind; [apply check_retrievable|intros _].
  apply preserves_bind; [apply get_or_not_found_retrievable|intros g].
  apply preserves_bind; [apply preserves_from_outcome|intros t].
  apply put_then_version; [done|done|]. intros r v.
  apply preserves_bind; [apply indexText_retrievable|]. intros _. apply preserves_ret.
Qed.

Lemma rm_retrievable dr now ctx path e : in_org ctx -> preserves retrievable (rm dr now ctx path e : OpM Store string).
Proof.
  intros Horg. unfold rm. apply preserves_bind; [apply check_retrievable|intros _].
  apply preserves_bind; [by apply delete_retrievable, in_org_key|intros _].
  apply preserves_bind; [by apply createVersion_no_handle|intros _].
  apply preserves_bind; [by apply write_db_retrievable|intros _]. apply preserves_bind; [apply preserves_gets|intros roots].
  apply preserves_bind; [by apply write_db_retrievable|intros _].
  apply preserves_bind; [apply preserves_for_each; intros c _; apply publish_retrievable|intros _].
  apply preserves_bind; [apply afterRemove_retrievable|intros _]. apply preserves_ret.
Qed.

Lemma cp_retrievable dr now ctx a b e : in_org ctx -> preserves retrievable (cp extractPdfText dr now ctx a b e).
Proof.
  intros Horg. unfold cp. apply preserves_bind; [apply preserves_throw_if|intros _].
  apply preserves_bind; [apply check_retrievable|intros _].
  apply copy_prefix; [by apply in_org_key..|]. intros r hd obj. apply hashed_version; [done..|]. intros v.
  apply preserves_bind; [apply indexBytes_retrievable|]. intros _. apply preserves_ret.
Qed.

Lemma move_index_versions d a b images keep content source db :
  (move_index d a b images keep content source db).(fileVersions) = db.(fileVersions).
Proof. by destruct images, keep, content. Qed.

Lemma mv_retrievable dr dr2 now ctx a b message e :
  in_org ctx -> preserves retrievable (mv extractPdfText dr dr2 now ctx a b message e).
Proof.
  intros Horg. unfold mv. apply preserves_bind; [apply preserves_throw_if|intros _].
  apply preserves_bind; [apply check_retrievable|intros _].
  apply copy_prefix; [by apply in_org_key..|]. intros r hd obj. do 2 (apply query_triple; intros ?).
  apply hashed_version; [done..|]. intros v.
  apply preserves_bind; [apply preserves_gets|intros target].
  apply preserves_bind; [by apply delete_retrievable, in_org_key|intros _].
  apply preserves_bind; [by apply createVersion_no_handle|intros _].
  apply preserves_bind; [by apply write_db_retrievable|intros _].
  apply preserves_bind; [apply preserves_gets|intros current].
  apply preserves_bind; [|intros _; apply preserves_bind; [apply afterMove_retrievable|intros _; apply preserves_ret]].
  destruct (decide (current = target)); apply write_db_retrievable; [|done].
  intros db. apply move_index_versions.
Qed.

Lemma revert_retrievable dr now ctx path n e :
  in_org ctx -> preserves retrievable (revert extractPdfText dr now ctx path n e).
Proof.
  intros Horg. unfold revert. apply preserves_bind; [apply preserves_from_outcome|intros _].
  apply preserves_bind; [apply check_retrievable|intros _].
  apply preserves_bind; [apply preserves_gets|intros t]. apply preserves_bind; [apply preserves_some_or_throw|intros row].
  unfold throw_if. case_bool_decide as Hh; [intros w Hw; exact Hw|].
  apply preserves_bind; [apply preserves_ret|intros _].
  apply preserves_bind.
  { apply in_store_silent. intros s. destruct (getObject _ _ s) as [o s'] eqn:E. by apply get_version_law in E as [-> _]. }
  intros old. apply put_then_version; [done|done|]. intros r v.
  apply preserves_bind; [apply indexBytes_retrievable|]. intros _. apply preserves_ret.
Qed.

(** ** Any sequence of file operations *)

Inductive file_op : Type :=
| FoWrite (dr : Draws) (now : Z) (path content : string) (message : option string) (e : option Z)
| FoWriteRaw (dr : Draws) (now : Z) (path b : string) (message : option string) (e : option Z)
| FoAppend (dr : Draws) (now : Z) (path content : string) (message : option string) (e : option Z)
| FoEdit (dr : Draws) (now : Z) (path old_string new_string : string) (message : option string) (e : option Z)
| FoRm (dr : Draws) (now : Z) (path : string) (e : option Z)
| FoCp (dr : Draws) (now : Z) (from to_ : string) (e : option Z)
| FoMv (dr dr2 : Draws) (now : Z) (from to_ : string) (message : option string) (e : option Z)
| FoRevert (dr : Draws) (now : Z) (path : string) (version : Z) (e : option Z).

(** The state after an op, whether it returned or threw. *)
Definition run_file_op (ctx : OpContext) (op : file_op) (w : World Store) : World Store :=
  match op with
  | FoWrite dr now path content message e => (write fmt extractPdfText dr now ctx path content message e w).2
  | FoWriteRaw dr now path b message e => (writeRaw fmt extractPdfText dr now ctx path b message e w).2
  | FoAppend dr now path content message e => (append dr now ctx path content message e w).2
  | FoEdit dr now path o n message e => (edit dr now ctx path o n message e w).2
  | FoRm dr now path e => (rm dr now ctx path e w).2
  | FoCp dr now a b e => (cp extractPdfText dr now ctx a b e w).2
  | FoMv dr dr2 now a b message e => (mv extractPdfText dr dr2 now ctx a b message e w).2
  | FoRevert dr now path n e => (revert extractPdfText dr now ctx path n e w).2
  end.

Lemma run_file_op_retrievable ctx op w : in_org ctx -> retrievable w -> retrievable (run_file_op ctx op w).
Proof.
  intros Horg Hw. destruct op; cbn [run_file_op].
  - by apply writeInternal_retrievable.
  - refine (preserves_bind retrievable _ _ (preserves_reads _ _) _ w Hw). intros _. by apply writeInternal_retrievable.
  - by apply append_retrievable.
  - by apply edit_retrievable.
  - by apply rm_retrievable.
  - by apply cp_retrievable.
  - by apply mv_retrievable.
  - by apply revert_retrievable.
Qed.

Definition run_file_ops (ops : list (OpContext * file_op)) (w : World Store) : World Store :=
  foldl (fun w x => run_file_op x.1 x.2 w) w ops.

(** C1: Every recorded version stays retrievable.  Through any sequence of file
    operations of any users, on any backend that keeps the storage contract,
    whatever calls fail in between, each version row that has a storage handle
    still names an object, and that object's digest is the row's content hash. *)
Theorem history_stays_retrievable ops w :
  Forall (fun x => in_org x.1) ops -> retrievable w -> retrievable (run_file_ops ops w).
Proof.
  intros Hops. revert w. induction Hops as [|x ops Hx _ IH]; intros w Hw; [exact Hw|].
  apply IH. by apply run_file_op_retrievable.
Qed.

(** C8: Revert restores.  On a retrievable history, when the backend keeps old
    versions and answers, reverting to a version with a handle always succeeds:
    the object is again the content recorded under that version's hash, and a new
    revert version with the same hash is the head of the history. *)
Theorem revert_restores dr now ctx path n (w : World Store) t g r s :
  in_org ctx -> retrievable w -> ready dr ctx w -> cap_versioning (@capabilities _ SA) = true ->
  let p := normalizePath path in
  find_version w.(w_db) ctx.(op_driveId) p n = Some t -> t.(fv_s3VersionId) <> "" ->
  getObject (key_of ctx path) (Some t.(fv_s3VersionId)) w.(w_store) = (Ok g, w.(w_store)) ->
  putObject (key_of ctx path) g.(get_body) (Some (detectMimeType p)) w.(w_store) = (Ok r, s) ->
  exists b v w', revert extractPdfText dr now ctx path n None w = (Ok (v, n), w') /\
    t.(fv_contentHash) = Some (sha256hex b) /\ object w'.(w_store) (key_of ctx path) = Some b /\
    exists h, head_version w'.(w_db) ctx.(op_driveId) p = Some h /\ h.(fv_version) = v /\
      h.(fv_operation) = OpRevert /\ h.(fv_contentHash) = t.(fv_contentHash) /\
      v = Z.of_nat (length (history w.(w_db) p ctx.(op_driveId))) + 1.
Proof.
  intros Horg Hw (Hc & Hd & Hfr & _) Hcap p Hfind Hhandle Hget Hput.
  pose proof Hfind as Hrow. unfold find_version in Hrow. apply get_row_some in Hrow as (Hin & [Hp Hdrive] & _).
  destruct (proj2 Hw t Hin Hhandle) as (b & Hb & Hhash).
  assert (Hkey : row_key t = key_of ctx path) by (unfold row_key, key_of; by rewrite Hdrive, Hp, (proj1 Horg)).
  rewrite Hkey in Hb. assert (Hbody : g.(get_body) = b).
  { apply get_version_law in Hget as [_ Hg]; [|done]. by apply Hg. }
  set (params := Build_VersionParams p (r.(put_versionId) ?? "") OpRevert (Some ("Reverted to version " +:+ pretty n))
    None (Some (blen g.(get_body))) r.(put_etag) (Some (detectMimeType p)) (Some (sha256hex g.(get_body)))).
  pose (w0 := w <| w_store := s |>).
  destruct (createVersion_succeeds dr now ctx params w0 Hc Hd Hfr) as (v & w1 & Hrun).
  destruct (createVersion_recorded _ _ _ _ w0 _ _ Hc Hrun) as [Hv _ Hh _ _ Hst _ _ _ _ _].
  destruct (indexBytes_total extractPdfText ctx p g.(get_body) (detectMimeType p) w1.(w_db)) as (u & db' & Hix).
  pose proof (indexBytes_frame extractPdfText ctx p g.(get_body) (detectMimeType p) w1.(w_db) w1.(w_db)
    ltac:(reflexivity)) as Hfra. rewrite Hix in Hfra.
  exists b, v, (w1 <| w_db := db' |>). split_and!; [|exact Hhash| |].
  - unfold revert. cbv zeta. fold p. rewrite Hcap.
    run (ret_run (E := error) tt w). run (ret_run (E := error) tt w).
    etrans; [eapply bind_run; reflexivity|]. cbv beta. rewrite Hfind. run (ret_run (E := error) t w).
    run (throw_if_false (S := World Store) _ versioning_required w (bool_decide_eq_false_2 _ Hhandle)).
    etrans; [eapply (bind_run _ _ w g w)|]; cbv beta.
    { unfold in_store, on. unfold key_of in Hget. fold p in Hget. rewrite Hget. by destruct w. }
    run (proj2 (in_store_ok _ w r _) (ex_intro _ s (conj Hput eq_refl))). run Hrun.
    by run (proj2 (in_db_ok _ w1 u _) (ex_intro _ db' (conj Hix eq_refl))).
  - cbn. rewrite Hst. apply put_law in Hput as [_ Hok]; [|by apply in_org_key]. destruct (Hok r eq_refl) as [Ho _]. by rewrite <- Hbody.
  - eexists. split; [etrans; [exact (frame_head _ _ _ _ _ _ Hfra)|exact Hh]|].
    split_and!; [done|done|cbn; by rewrite Hbody|exact Hv].
Qed.
End History.

(** ** Witnesses: a file is written twice, removed, and reverted to its first version *)

Definition one_org (driveId : string) : string := "o1".

Lemma empty_retrievable : retrievable (rt := ascii_runtime) one_org sample_world.
Proof. split; [done|]. intros v Hv%elem_of_nil. done. Qed.

Definition two_writes : list (OpContext * file_op) :=
  [(sample_ctx "u2", FoWrite (sample_draws "1") 5 "/a.txt" "one" None None);
   (sample_ctx "u1", FoWrite (sample_draws "2") 6 "/a.txt" "two" None (Some 1));
   (sample_ctx "u1", FoRm (sample_draws "3") 7 "/a.txt" None)].

Definition after_two_writes : World MemStore :=
  run_file_ops (rt := ascii_runtime) sample_formats no_pdf two_writes sample_world.

Lemma history_stays_retrievable_witness : retrievable (rt := ascii_runtime) one_org after_two_writes.
Proof.
  apply (history_stays_retrievable (rt := ascii_runtime) sample_formats no_pdf one_org two_writes sample_world);
    [by repeat (constructor; [exact (conj eq_refl sample_org)|])|apply empty_retrievable].
Defined.

Lemma after_two_writes_retrievable : retrievable (rt := ascii_runtime) one_org after_two_writes.
Proof.
  unfold after_two_writes, run_file_ops. cbn [foldl two_writes].
  do 3 (apply run_file_op_retrievable; [exact (conj eq_refl sample_org)|]). apply empty_retrievable.
Qed.

Lemma contiguous_single db p d n :
  (forall v, v ∈ db.(fileVersions) -> is_version p d v) -> fv_version <$> db.(fileVersions) = seqZ 1 n -> contiguous db.
Proof.
  intros Hall Hn path d'. unfold history. destruct (decide (path = p /\ d' = d)) as [[-> ->]|Hne].
  - exists n. by rewrite filter_all.
  - exists 0. rewrite filter_none; [done|]. intros v Hv [H1 H2]. destruct (Hall v Hv) as [H3 H4]. apply Hne. split; congruence.
Qed.

Lemma draws_fresh_without_hooks n db :
  db.(webhookDeliveries) = [] -> db.(webhookSubscriptions) = [] -> fresh_draws (sample_draws n) db.
Proof. intros Hd Hs. destruct (sample_draws_fresh n) as (Hi & _). unfold fresh_draws. rewrite Hd, Hs. split_and!; [done|set_solver..|constructor]. Qed.

Lemma after_two_writes_ready : ready (sample_draws "4") (sample_ctx "u2") after_two_writes.
Proof.
  split_and!; [|vm_compute; reflexivity|apply draws_fresh_without_hooks; vm_compute; reflexivity|exact sample_org].
  apply (contiguous_single _ "/a.txt" "d1" 3); [|vm_compute; reflexivity].
  apply Forall_forall. vm_compute. repeat constructor.
Qed.

Definition first_row : FileVersion :=
  {| fv_id := 1; fv_path := "/a.txt"; fv_driveId := "d1"; fv_version := 1; fv_s3VersionId := "v0"; fv_author := "u2";
     fv_operation := OpWrite; fv_message := None; fv_diffSummary := None; fv_size := Some 3; fv_etag := Some "v0";
     fv_contentHash := Some (toy_digest "one"); fv_createdAt := 0 |}.

Lemma revert_restores_witness :
  exists b v w', revert (rt := ascii_runtime) no_pdf (sample_draws "4") 9 (sample_ctx "u2") "/a.txt" 1 None after_two_writes
      = (Ok (v, 1), w') /\ object w'.(w_store) (key_of (sample_ctx "u2") "/a.txt") = Some b /\
    first_row.(fv_contentHash) = Some (sha256hex (Runtime := ascii_runtime) b).
Proof.
  destruct (revert_restores (rt := ascii_runtime) (SL := memory_laws (rt := ascii_runtime)) no_pdf one_org (sample_draws "4") 9 (sample_ctx "u2")
    "/a.txt" 1 after_two_writes first_row {| get_body := "one"; get_contentType := None; get_etag := None |}
    {| put_etag := Some "v2"; put_versionId := Some "v2" |}
    (putObject (key_of (sample_ctx "u2") "/a.txt") "one" (Some "text/plain") after_two_writes.(w_store)).2
    (conj eq_refl sample_org) after_two_writes_retrievable after_two_writes_ready eq_refl)
    as (b & v & w' & H & Hh & Ho & _); [vm_compute; reflexivity|discriminate|vm_compute; reflexivity..|].
  exists b, v, w'. split; [exact H|]. by split.
Defined.
