(* ===== verification/Chunker.v ===== *)
(** * Chunking text for embeddings: core/src/search/chunker.ts

    Text is a list of UTF-16 code units, and positions are indices into it.  The
    recursive chunker of the library is a parameter that may throw: creating it,
    and one call per segment.  A loop that does not make progress is a loop that
    runs out of fuel ([None]); the fuel is the length of the text.  The theorems:
    the loops end for every text; the segments partition the text, are bounded,
    and never separate a surrogate pair; the fallback's chunks are slices at
    their offsets, bounded, and leave no unit of the text out. *)

From S2P Require Import Prelude JsString Errors.
#[global] Open Scope Z_scope.

Record TextChunk : Type := {
  tc_content : list Z;
  tc_charOffset : nat;
  tc_tokenCount : nat
}.

Definition CHUNK_CHARS : nat := 2000.
Definition SEGMENT_CHARS : nat := 64 * 1024.
Definition OVERLAP : nat := 512.

(** ** String functions on units *)

(** [s.slice(from, to)]. *)
Definition slice_units (s : list Z) (from to_ : nat) : list Z := take (to_ - from) (drop from s).

(** The last index at which [p] holds of the rest of the text. *)
Fixpoint last_match (p : list Z -> bool) (s : list Z) : option nat :=
  match s with
  | [] => None
  | _ :: s' =>
      match last_match p s' with
      | Some i => Some (S i)
      | None => if p s then Some 0%nat else None
      end
  end.

Definition NEWLINE : Z := 10.
Definition at_newline (s : list Z) : bool := match s with c :: _ => c =? NEWLINE | [] => false end.
Definition at_paragraph (s : list Z) : bool :=
  match s with c :: d :: _ => (c =? NEWLINE) && (d =? NEWLINE) | _ => false end.

(** [s.lastIndexOf("\n", from)]. *)
Definition last_newline (s : list Z) (from : nat) : option nat := last_match at_newline (take (S from) s).

Definition isHighSurrogate (code : Z) : bool := (55296 <=? code) && (code <=? 56319).
Definition is_low_surrogate (code : Z) : bool := (56320 <=? code) && (code <=? 57343).

(** [Math.ceil(n / 4)]. *)
Definition token_count (n : nat) : nat := Nat.div (n + 3) 4.

(** ** segments *)

(** Where the segment from [start] ends. *)
Definition segment_end (content : list Z) (size start : nat) : nat :=
  let end_ := Nat.min (start + size) (length content) in
  if (end_ <? length content)%nat then
    match last_newline content (end_ - 1) with
    | Some i =>
        if (2 * start + size <=? 2 * i)%nat then S i
        else if isHighSurrogate (content !!! (end_ - 1)%nat) then (end_ - 1)%nat else end_
    | None => if isHighSurrogate (content !!! (end_ - 1)%nat) then (end_ - 1)%nat else end_
    end
  else end_.

Fixpoint segments_from (fuel : nat) (content : list Z) (size start : nat) : option (list (nat * nat)) :=
  if (length content <=? start)%nat then Some []
  else match fuel with
  | O => None
  | S fuel' =>
      let end_ := segment_end content size start in
      cons (start, end_) <$> segments_from fuel' content size end_
  end.

Definition segments (content : list Z) (size : nat) : option (list (nat * nat)) :=
  segments_from (length content) content size 0.

(** ** fallbackChunk *)

(** The text of the chunk from [offset]. *)
Definition fallback_text (content : list Z) (offset : nat) : list Z :=
  let end_ := Nat.min (offset + CHUNK_CHARS) (length content) in
  let chunk := slice_units content offset end_ in
  if (end_ <? length content)%nat then
    match last_match at_paragraph chunk with
    | Some lastParagraph => if (CHUNK_CHARS <? 2 * lastParagraph)%nat then take lastParagraph chunk else chunk
    | None => chunk
    end
  else chunk.

Definition fallback_next (offset len : nat) : nat :=
  let next := (offset + len - OVERLAP)%nat in
  if (next <=? offset)%nat then (offset + len)%nat else next.

Fixpoint fallback_from (fuel : nat) (content : list Z) (offset : nat) : option (list TextChunk) :=
  if (length content <=? offset)%nat then Some []
  else match fuel with
  | O => None
  | S fuel' =>
      let chunk := fallback_text content offset in
      cons {| tc_content := chunk; tc_charOffset := offset; tc_tokenCount := token_count (length chunk) |}
        <$> fallback_from fuel' content (fallback_next offset (length chunk))
  end.

Definition fallbackChunk (content : list Z) : option (list TextChunk) :=
  if bool_decide (content = []) then Some []
  else if (length content <=? CHUNK_CHARS)%nat then
    Some [{| tc_content := content; tc_charOffset := 0; tc_tokenCount := token_count (length content) |}]
  else fallback_from (length content) content 0.

(** ** chunkContent *)

(** A chunk of the library: its text and its [startIndex]. *)
Definition LibraryChunk : Type := list Z * option nat.

(** One segment after the other. *)
Fixpoint chunk_segments (chunk : list Z -> outcome error (list LibraryChunk)) (content : list Z)
    (ranges : list (nat * nat)) : outcome error (list TextChunk) :=
  match ranges with
  | [] => Ok []
  | (start, end_) :: ranges' =>
      chunks ← chunk (slice_units content start end_);
      rest ← chunk_segments chunk content ranges';
      Ok (((fun c : LibraryChunk => {| tc_content := c.1; tc_charOffset := (start + (c.2 ?? 0))%nat;
                                       tc_tokenCount := token_count (length c.1) |}) <$> chunks) ++ rest)
  end.

(** [create]: importing the library and creating its chunker. *)
Definition chunkContent (create : outcome error (list Z -> outcome error (list LibraryChunk))) (content : list Z)
    : option (list TextChunk) :=
  if bool_decide (content = []) then Some []
  else match create with
  | Throw _ => fallbackChunk content
  | Ok chunk =>
      ranges ← segments content SEGMENT_CHARS;
      match chunk_segments chunk content ranges with
      | Ok result => Some result
      | Throw _ => fallbackChunk content
      end
  end.

(** ** Lemmas *)

Lemma last_match_some p s i : last_match p s = Some i -> (i < length s)%nat /\ p (drop i s) = true.
Proof.
  revert i. induction s as [|c s IH]; intros i H; [done|]. cbn [last_match] in H.
  destruct (last_match p s) as [j|] eqn:E.
  - injection H as <-. destruct (IH j eq_refl) as [Hj Hp]. cbn. split; [lia|done].
  - destruct (p (c :: s)) eqn:Ep; [|done]. injection H as <-. cbn. split; [lia|done].
Qed.

Lemma last_newline_some s from i :
  last_newline s from = Some i -> (i <= from)%nat /\ s !! i = Some NEWLINE.
Proof.
  intros [Hi Hn]%last_match_some. rewrite length_take in Hi. split; [lia|].
  unfold at_newline in Hn. destruct (drop i (take (S from) s)) as [|c r] eqn:E; [done|].
  apply Z.eqb_eq in Hn as ->. assert (H : (drop i (take (S from) s)) !! 0%nat = Some NEWLINE) by by rewrite E.
  rewrite lookup_drop, Nat.add_0_r in H. apply lookup_take_Some in H. tauto.
Qed.

(** A cut between units [i - 1] and [i] separates no surrogate pair, a unit from
    0xD800 to 0xDBFF before one from 0xDC00 to 0xDFFF. *)
Definition safe_cut (content : list Z) (i : nat) : Prop :=
  ~ (55296 <= content !!! (i - 1)%nat <= 56319 /\ 56320 <= content !!! i <= 57343).

Lemma safe_cut_units content i :
  isHighSurrogate (content !!! (i - 1)%nat) && is_low_surrogate (content !!! i) = false -> safe_cut content i.
Proof. unfold safe_cut, isHighSurrogate, is_low_surrogate. lia. Qed.

Lemma high_not_low c : isHighSurrogate c = true -> is_low_surrogate c = false.
Proof. unfold isHighSurrogate, is_low_surrogate. lia. Qed.

Lemma segment_end_spec content size start :
  (2 <= size)%nat -> (start < length content)%nat ->
  let e := segment_end content size start in
  (start < e <= start + size)%nat /\ (e <= length content)%nat /\ ((e < length content)%nat -> safe_cut content e).
Proof.
  intros Hsize Hstart. unfold segment_end.
  set (e0 := Nat.min (start + size) (length content)). destruct (e0 <? length content)%nat eqn:Elt; cbv zeta.
  2:{ apply Nat.ltb_ge in Elt. lia. }
  apply Nat.ltb_lt in Elt. assert (He0 : e0 = (start + size)%nat) by lia.
  assert (Hcut : let e := if isHighSurrogate (content !!! (e0 - 1)%nat) then (e0 - 1)%nat else e0 in
    (start < e <= start + size)%nat /\ (e <= length content)%nat /\
    ((e < length content)%nat -> safe_cut content e)).
  { destruct (isHighSurrogate (content !!! (e0 - 1)%nat)) eqn:Eh; cbv zeta; split_and!; try lia; intros _; apply safe_cut_units.
    - by rewrite (high_not_low _ Eh), andb_false_r.
    - by rewrite Eh. }
  destruct (last_newline content (e0 - 1)) as [i|] eqn:En; [|exact Hcut].
  destruct (2 * start + size <=? 2 * i)%nat eqn:Ei; [|exact Hcut].
  apply Nat.leb_le in Ei. apply last_newline_some in En as [Hi Hc]. split_and!; [lia..|]. intros _. apply safe_cut_units.
  replace (S i - 1)%nat with i by lia. by rewrite (list_lookup_total_correct _ _ _ Hc).
Qed.

(** The range of a segment is what [segment_end] allows. *)
Definition good_range (content : list Z) (size : nat) (r : nat * nat) : Prop :=
  (r.1 < r.2 <= r.1 + size)%nat /\ (r.2 <= length content)%nat /\
  ((r.2 < length content)%nat -> safe_cut content r.2).

Lemma slice_then_drop (s : list Z) a b : (a <= b)%nat -> slice_units s a b ++ drop b s = drop a s.
Proof.
  intros H. unfold slice_units. rewrite <- (take_drop (b - a) (drop a s)) at 2. rewrite drop_drop.
  by replace (a + (b - a))%nat with b by lia.
Qed.

Lemma segments_from_spec fuel content size start :
  (2 <= size)%nat -> (length content - start <= fuel)%nat -> (start <= length content)%nat ->
  exists ranges, segments_from fuel content size start = Some ranges /\
    concat ((fun r => slice_units content r.1 r.2) <$> ranges) = drop start content /\
    Forall (good_range content size) ranges.
Proof.
  intros Hsize. revert start. induction fuel as [|fuel IH]; intros start Hfuel Hstart; cbn [segments_from].
  - rewrite (proj2 (Nat.leb_le _ _)) by lia. exists []. split; [done|]. by rewrite drop_ge by lia.
  - destruct (length content <=? start)%nat eqn:E.
    + apply Nat.leb_le in E. exists []. split; [done|]. by rewrite drop_ge by lia.
    + apply Nat.leb_gt in E. pose proof (segment_end_spec content size start Hsize E) as (H1 & H2 & H3).
      set (e := segment_end content size start) in *.
      destruct (IH e) as (ranges & -> & Hconcat & Hgood); [lia..|].
      exists ((start, e) :: ranges). split; [done|]. split.
      * cbn. rewrite Hconcat. apply slice_then_drop. lia.
      * by constructor.
Qed.

Lemma fallback_text_spec content offset :
  (offset < length content)%nat ->
  let chunk := fallback_text content offset in
  chunk = slice_units content offset (offset + length chunk) /\
  (0 < length chunk <= CHUNK_CHARS)%nat /\ (offset + length chunk <= length content)%nat.
Proof.
  intros Ho. unfold fallback_text, CHUNK_CHARS. set (e := Nat.min (offset + 2000) (length content)).
  assert (Hlen : forall k, (0 < k <= e - offset)%nat ->
    let chunk := take k (slice_units content offset e) in
    chunk = slice_units content offset (offset + length chunk) /\ (0 < length chunk <= 2000)%nat /\
    (offset + length chunk <= length content)%nat).
  { intros k Hk. cbv zeta. unfold slice_units.
    assert (length (take k (take (e - offset) (drop offset content))) = k) as -> by (rewrite !length_take, length_drop; lia).
    split_and!; [|lia..]. rewrite take_take. f_equal. lia. }
  assert (Hfull : slice_units content offset e = take (e - offset) (slice_units content offset e))
    by (unfold slice_units; rewrite take_take; f_equal; lia).
  destruct (e <? length content)%nat eqn:E; [|rewrite Hfull; apply Hlen; lia].
  destruct (last_match at_paragraph _) as [i|] eqn:Ei; [|rewrite Hfull; apply Hlen; lia].
  destruct (2000 <? 2 * i)%nat eqn:Ei2; [|rewrite Hfull; apply Hlen; lia].
  apply Nat.ltb_lt in Ei2. apply last_match_some in Ei as [Hi _].
  unfold slice_units in Hi. rewrite length_take, length_drop in Hi. apply Hlen. lia.
Qed.

Lemma fallback_next_spec offset len :
  (0 < len)%nat -> (offset < fallback_next offset len <= offset + len)%nat /\
  (offset + len <= fallback_next offset len + OVERLAP)%nat.
Proof.
  intros Hlen. unfold fallback_next, OVERLAP. destruct (_ <=? _)%nat eqn:E.
  - lia.
  - apply Nat.leb_gt in E. lia.
Qed.

(** A chunk is the text at its offset. *)
Definition faithful (content : list Z) (c : TextChunk) : Prop :=
  tc_content c = slice_units content (tc_charOffset c) (tc_charOffset c + length (tc_content c)) /\
  tc_tokenCount c = token_count (length (tc_content c)).

Definition covers (c : TextChunk) (i : nat) : Prop :=
  (tc_charOffset c <= i < tc_charOffset c + length (tc_content c))%nat.

Definition bounded (content : list Z) (c : TextChunk) : Prop :=
  (0 < length (tc_content c) <= CHUNK_CHARS)%nat /\ (tc_charOffset c + length (tc_content c) <= length content)%nat.

Lemma fallback_from_spec fuel content offset :
  (length content - offset <= fuel)%nat -> exists chunks, fallback_from fuel content offset = Some chunks /\
    Forall (fun c => faithful content c /\ bounded content c) chunks /\
    forall i, (offset <= i < length content)%nat -> exists c, c ∈ chunks /\ covers c i.
Proof.
  revert offset. induction fuel as [|fuel IH]; intros offset Hfuel; cbn [fallback_from].
  - rewrite (proj2 (Nat.leb_le _ _)) by lia. exists []. split_and!; [done..|]. lia.
  - destruct (length content <=? offset)%nat eqn:E.
    + apply Nat.leb_le in E. exists []. split_and!; [done..|]. lia.
    + apply Nat.leb_gt in E. pose proof (fallback_text_spec content offset E) as (Hs & Hlen & Hend).
      set (chunk := fallback_text content offset) in *.
      destruct (fallback_next_spec offset (length chunk)) as [Hn Ho]; [lia|].
      destruct (IH (fallback_next offset (length chunk))) as (chunks & -> & Hall & Hcov); [lia|].
      eexists. split; [reflexivity|]. split; [by constructor|].
      intros i Hi. destruct (decide (i < offset + length chunk)%nat) as [Hin|Hin].
      * eexists. split; [apply list_elem_of_here|]. unfold covers. cbn. lia.
      * destruct (Hcov i) as (c & Hc & Hci); [lia|]. exists c. split; [by apply list_elem_of_further|done].
Qed.

(** What the library documents: a chunk is the text of the segment at its
    [startIndex]. *)
Definition library_chunks (s : list Z) (cs : list LibraryChunk) : Prop :=
  Forall (fun c : LibraryChunk => exists k, c.2 = Some k /\ c.1 = slice_units s k (k + length c.1)) cs.

Lemma slice_of_slice s a b k (t : list Z) :
  t = slice_units (slice_units s a b) k (k + length t) -> t = slice_units s (a + k) (a + k + length t).
Proof.
  intros Ht. assert (Hlen : (length t <= b - a - k)%nat).
  { assert (H : length t = length (slice_units (slice_units s a b) k (k + length t))) by by rewrite <- Ht.
    unfold slice_units in H. rewrite !length_take, !length_drop, length_take in H. lia. }
  rewrite Ht at 1. unfold slice_units.
  replace (k + length t - k)%nat with (length t) by lia.
  replace (a + k + length t - (a + k))%nat with (length t) by lia.
  rewrite skipn_firstn_comm, take_take, drop_drop. f_equal. lia.
Qed.

Lemma chunk_segments_faithful chunk content ranges result :
  (forall s cs, chunk s = Ok cs -> library_chunks s cs) ->
  chunk_segments chunk content ranges = Ok result -> Forall (faithful content) result.
Proof.
  intros Hlib. revert result. induction ranges as [|[a b] ranges IH]; intros result; cbn [chunk_segments].
  { by intros [= <-]. }
  destruct (chunk (slice_units content a b)) as [cs|] eqn:E; [|done]. cbn.
  destruct (chunk_segments chunk content ranges) as [rest|]; [|done]. cbn. intros [= <-].
  apply Forall_app_2; [|by apply IH]. apply Forall_fmap. apply Hlib in E. unfold library_chunks in E.
  eapply Forall_impl; [exact E|]. intros [t i] (k & Hi & Ht). cbn in *. subst i. split; [|done]. cbn.
  by apply slice_of_slice with (b := b).
Qed.

Lemma fallbackChunk_spec content : exists chunks, fallbackChunk content = Some chunks /\
  Forall (fun c => faithful content c /\ bounded content c) chunks /\
  forall i, (i < length content)%nat -> exists c, c ∈ chunks /\ covers c i.
Proof.
  unfold fallbackChunk. case_bool_decide as Hc.
  { exists []. split_and!; [done..|]. subst. cbn. lia. }
  assert (Hne : (0 < length content)%nat) by (destruct content; [done|cbn; lia]).
  destruct (length content <=? CHUNK_CHARS)%nat eqn:E.
  - apply Nat.leb_le in E. eexists. split; [reflexivity|]. split.
    + apply Forall_singleton. split; [split; [|done]|split; cbn; lia]. cbn. unfold slice_units.
      by rewrite Nat.sub_0_r, drop_0, take_ge.
    + intros i Hi. eexists. split; [apply list_elem_of_here|]. unfold covers. cbn. lia.
  - destruct (fallback_from_spec (length content) content 0) as (chunks & Hrun & Hall & Hcov); [lia|].
    exists chunks. split_and!; [done..|]. intros i Hi. apply Hcov. lia.
Qed.

(** ** Properties *)

(** Chunking ends, with faithful offsets.  For every text, and whatever the
    chunking library does (it may be missing, or throw on any segment),
    [chunkContent] returns; and if the library's chunks are the text at their
    start index, every chunk returned is the slice of the text at its
    [charOffset], with the token count of its length. *)
Theorem chunkContent_returns create content :
  exists chunks, chunkContent create content = Some chunks /\
    ((forall chunk s cs, create = Ok chunk -> chunk s = Ok cs -> library_chunks s cs) ->
     Forall (faithful content) chunks).
Proof.
  assert (Hfall : exists chunks, fallbackChunk content = Some chunks /\ Forall (faithful content) chunks).
  { destruct (fallbackChunk_spec content) as (chunks & Hrun & Hall & _). exists chunks. split; [done|].
    eapply Forall_impl; [exact Hall|]. by intros c [? _]. }
  unfold chunkContent. case_bool_decide; [by exists []|].
  destruct create as [chunk|]; [|destruct Hfall as (chunks & ? & ?); by exists chunks].
  destruct (segments_from_spec (length content) content SEGMENT_CHARS 0) as (ranges & Hseg & _);
    [unfold SEGMENT_CHARS; lia|lia|lia|].
  unfold segments. rewrite Hseg. cbn.
  destruct (chunk_segments chunk content ranges) as [result|] eqn:E.
  - exists result. split; [done|]. intros Hlib. eapply chunk_segments_faithful; [|exact E]. intros s cs. by apply Hlib.
  - destruct Hfall as (chunks & ? & ?). by exists chunks.
Qed.

(** C39: The segments are a partition of the text.  For every segment size of at
    least two units the loop ends; the segments, put one after the other, are
    the text; each is nonempty and at most that size; and no segment ends
    between the two halves of a surrogate pair. *)
Theorem segments_partition content size :
  (2 <= size)%nat ->
  exists ranges, segments content size = Some ranges /\
    concat ((fun r => slice_units content r.1 r.2) <$> ranges) = content /\
    Forall (good_range content size) ranges.
Proof.
  intros Hsize. destruct (segments_from_spec (length content) content size 0 Hsize) as (ranges & H1 & H2 & H3); [lia..|].
  exists ranges. by rewrite drop_0 in H2.
Qed.

Lemma segments_partition_witness :
  (exists ranges, segments [97; 10; 55357; 56832; 98] 3 = Some ranges /\
    concat ((fun r => slice_units [97; 10; 55357; 56832; 98] r.1 r.2) <$> ranges) = [97; 10; 55357; 56832; 98] /\
    Forall (good_range [97; 10; 55357; 56832; 98] 3) ranges) /\
  segments [97; 98; 55357; 56832; 98] 3 = Some [(0, 2); (2, 5)]%nat.
Proof. split; [apply (segments_partition [97; 10; 55357; 56832; 98] 3); lia|reflexivity]. Defined.

(** With segments of one unit the loop would not end: a surrogate pair is never cut. *)
Lemma segments_one_unit : segments [55357; 56832] 1 = None.
Proof. reflexivity. Qed.

(** The fallback leaves nothing out.  It ends for every text, each of its
    chunks is nonempty, at most 2000 units, and the text at its offset, and every
    unit of the text is in some chunk. *)
Theorem fallbackChunk_covers content :
  exists chunks, fallbackChunk content = Some chunks /\
    Forall (fun c => faithful content c /\ bounded content c) chunks /\
    forall i, (i < length content)%nat -> exists c, c ∈ chunks /\ covers c i.
Proof. apply fallbackChunk_spec. Qed.
