(* ===== verification/Address.v ===== *)
(** * Address classification: core/src/webhooks/egress-guard.ts (first part)

    The literals the egress guard reads: dotted-quad IPv4 as a 32-bit number,
    IPv6 text as 16 bytes, and the ranges it refuses.  32-bit operators are
    written with their conversions.  The theorems: parsing inverts printing;
    the IPv4 ranges are exactly the listed prefixes; an IPv4 address embedded in
    an IPv4-mapped or NAT64 address is refused exactly when it is refused by
    itself. *)

From S2P Require Import Prelude JsString Errors Text.
#[global] Open Scope Z_scope.

(** ** 32-bit operators *)

Definition to_uint32 (n : Z) : Z := n mod 2 ^ 32.
Definition to_int32 (n : Z) : Z :=
  let m := n mod 2 ^ 32 in if 2 ^ 31 <=? m then m - 2 ^ 32 else m.

(** ** IPv4 *)

Definition is_colon (c : ascii) : bool := bool_decide (c = ":"%char).
Definition is_dot (c : ascii) : bool := bool_decide (c = "."%char).

(** [/^\d{1,3}$/], at most 255. *)
Definition parse_octet (part : string) : option Z :=
  if all_digits part && (String.length part <=? 3)%nat then
    let octet := digits_value 0 part in if 255 <? octet then None else Some octet
  else None.

Fixpoint parse_octets (value : Z) (parts : list string) : option Z :=
  match parts with
  | [] => Some value
  | part :: parts' =>
      match parse_octet part with
      | None => None
      | Some octet => parse_octets (value * 256 + octet) parts'
      end
  end.

Definition parseIPv4 (host : string) : option Z :=
  let parts := split_on is_dot host in
  if negb (length parts =? 4)%nat then None else parse_octets 0 parts.

Definition BLOCKED_IPV4 : list (string * Z) := [
  ("0.0.0.0", 8); ("10.0.0.0", 8); ("100.64.0.0", 10); ("127.0.0.0", 8); ("169.254.0.0", 16);
  ("172.16.0.0", 12); ("192.0.0.0", 24); ("192.168.0.0", 16); ("198.18.0.0", 15); ("224.0.0.0", 4);
  ("240.0.0.0", 4)].

(** The start and the size of each range. *)
Definition BLOCKED_IPV4_RANGES : list (Z * Z) :=
  (fun nb : string * Z => (parseIPv4 nb.1 ?? 0, 2 ^ (32 - nb.2))) <$> BLOCKED_IPV4.

Definition isBlockedIPv4Number (value : Z) : bool :=
  existsb (fun r : Z * Z => (r.1 <=? value) && (value <? r.1 + r.2)) BLOCKED_IPV4_RANGES.

(** ** IPv6 *)

(** The text before and after the last [c]. *)
Fixpoint cut_last (c : ascii) (s : string) : option (string * string) :=
  match s with
  | EmptyString => None
  | String d s' =>
      match cut_last c s' with
      | Some (a, b) => Some (String d a, b)
      | None => if bool_decide (d = c) then Some ("", s') else None
      end
  end.

Definition hex_value (c : ascii) : option Z :=
  let n := Ascii.nat_of_ascii c in
  if Nat.leb 48 n && Nat.leb n 57 then Some (Z.of_nat n - 48)
  else if Nat.leb 97 n && Nat.leb n 102 then Some (Z.of_nat n - 87)
  else if Nat.leb 65 n && Nat.leb n 70 then Some (Z.of_nat n - 55)
  else None.

Fixpoint parse_hex (acc : Z) (s : string) : option Z :=
  match s with
  | EmptyString => Some acc
  | String c s' => match hex_value c with Some d => parse_hex (acc * 16 + d) s' | None => None end
  end.

(** [/^[0-9a-f]{1,4}$/i]. *)
Definition parse_group (group : string) : option Z :=
  if (1 <=? String.length group)%nat && (String.length group <=? 4)%nat then parse_hex 0 group else None.

Definition toGroups (part : string) : option (list Z) :=
  if bool_decide (part = "") then Some [] else mapM parse_group (split_on is_colon part).

Definition group_bytes (group : Z) : list Z := [Z.shiftr group 8 mod 256; Z.land group 255].

(** The IPv4 at the end of the text, as two groups, and the text before it. *)
Definition ipv4_tail (host : string) : option (string * list Z) :=
  match cut_last ":"%char host with
  | None => Some (host, [])
  | Some (prefix, maybeV4) =>
      if has_char "."%char maybeV4 then
        match parseIPv4 maybeV4 with
        | None => None
        | Some v4 => Some (if ends_with ":" prefix then prefix +:+ ":" else prefix,
                           [Z.land (Z.shiftr (to_uint32 v4) 16) 65535; Z.land (to_int32 v4) 65535])
        end
      else Some (host, [])
  end.

(** [text.split("::")], when it has at most two parts. *)
Definition halves_of (text : string) : option (string * option string) :=
  match cut_first "::" text with
  | None => Some (text, None)
  | Some (a, b) => match cut_first "::" b with None => Some (a, Some b) | Some _ => None end
  end.

Definition parseIPv6 (host : string) : option (list Z) :=
  if negb (has_char ":"%char host) then None
  else match ipv4_tail host with
  | None => None
  | Some (text, tail) =>
      match halves_of text with
      | None => None
      | Some (first, second) =>
          match toGroups first, (match second with Some part => toGroups part | None => Some [] end) with
          | Some head, Some rest =>
              let known := (length head + length rest + length tail)%nat in
              match second with
              | Some _ =>
                  if (7 <? known)%nat then None
                  else Some (concat (group_bytes <$> (head ++ repeat 0 (8 - known) ++ rest ++ tail)))
              | None =>
                  if negb (known =? 8)%nat then None else Some (concat (group_bytes <$> (head ++ tail)))
              end
          | _, _ => None
          end
      end
  end.

Definition byte_at (bytes : list Z) (i : nat) : Z := bytes !! i ?? 0.

Definition embeddedIPv4 (bytes : list Z) (offset : nat) : Z :=
  to_uint32 (to_int32 (Z.shiftl (byte_at bytes offset) 24) + to_int32 (Z.shiftl (byte_at bytes (offset + 1)) 16) +
             to_int32 (Z.shiftl (byte_at bytes (offset + 2)) 8) + byte_at bytes (offset + 3)).

Definition all_zero (bytes : list Z) (from to_ : nat) : bool :=
  forallb (fun b => b =? 0) (take (to_ - from) (drop from bytes)).

Definition isBlockedIPv6Bytes (bytes : list Z) : bool :=
  let b := byte_at bytes in
  if all_zero bytes 0 12 then true
  else if all_zero bytes 0 10 && (b 10%nat =? 255) && (b 11%nat =? 255) then
    isBlockedIPv4Number (embeddedIPv4 bytes 12)
  else if (b 0%nat =? 0) && (b 1%nat =? 100) && (b 2%nat =? 255) && (b 3%nat =? 155) then
    if (b 4%nat =? 0) && (b 5%nat =? 1) then true else isBlockedIPv4Number (embeddedIPv4 bytes 12)
  else if all_zero bytes 0 8 && (b 8%nat =? 255) && (b 9%nat =? 255) && (b 10%nat =? 0) && (b 11%nat =? 0) then true
  else if (b 0%nat =? 32) && (b 1%nat =? 1) && (b 2%nat =? 0) && (b 3%nat =? 0) then true
  else if (b 0%nat =? 32) && (b 1%nat =? 2) then isBlockedIPv4Number (embeddedIPv4 bytes 2)
  else if (b 0%nat =? 1) && (b 1%nat =? 0) && all_zero bytes 2 8 then true
  else if Z.land (b 0%nat) 254 =? 252 then true
  else if (b 0%nat =? 254) && (Z.land (b 1%nat) 192 =? 128) then true
  else if (b 0%nat =? 254) && (Z.land (b 1%nat) 192 =? 192) then true
  else b 0%nat =? 255.

(** The text before the first [c], or all of it. *)
Fixpoint before_char (c : ascii) (s : string) : string :=
  match s with
  | EmptyString => EmptyString
  | String d s' => if bool_decide (d = c) then EmptyString else String d (before_char c s')
  end.

Definition stripBrackets (host : string) : string :=
  let unbracketed := if starts_with "[" host && ends_with "]" host then drop_last_char (drop_str 1 host) else host in
  before_char "%"%char unbracketed.

(** A literal in a refused range. *)
Definition blocked_literal (host : string) : bool :=
  match parseIPv4 host with
  | Some v4 => isBlockedIPv4Number v4
  | None => match parseIPv6 host with Some v6 => isBlockedIPv6Bytes v6 | None => false end
  end.

Definition isPrivateAddress {rt : Runtime} (address : string) : bool :=
  blocked_literal (stripBrackets (toLowerCase (trim address))).

Definition isIPv4Literal (host : string) : bool := bool_decide (is_Some (parseIPv4 host)).
Definition isIPv6Literal (host : string) : bool := bool_decide (is_Some (parseIPv6 (stripBrackets host))).

Definition isLoopbackName {rt : Runtime} (host : string) : bool :=
  let lower := toLowerCase host in
  let name := if ends_with "." lower then drop_last_char lower else lower in
  bool_decide (name = "localhost") || ends_with ".localhost" name.

(** ** Lemmas *)

Lemma parse_octet_range part o : parse_octet part = Some o -> 0 <= o <= 255.
Proof.
  unfold parse_octet. destruct (all_digits part && _) eqn:E; [|done].
  apply andb_true_iff in E as [E _]. unfold all_digits in E. apply andb_true_iff in E as [_ E].
  destruct (255 <? digits_value 0 part) eqn:El; [done|]. apply Z.ltb_ge in El. intros [= <-].
  split; [by apply digits_value_nonneg|done].
Qed.

Lemma parse_octets_range value parts v :
  0 <= value -> parse_octets value parts = Some v ->
  value * 256 ^ Z.of_nat (length parts) <= v < (value + 1) * 256 ^ Z.of_nat (length parts).
Proof.
  revert value. induction parts as [|p parts IH]; intros value Hv; cbn [parse_octets length].
  { intros [= <-]. change (256 ^ Z.of_nat 0) with 1. lia. }
  destruct (parse_octet p) as [o|] eqn:E; [|done]. apply parse_octet_range in E. intros H.
  apply IH in H; [|lia]. rewrite Nat2Z.inj_succ, Z.pow_succ_r by lia.
  set (k := 256 ^ Z.of_nat (length parts)) in *. assert (0 < k) by (apply Z.pow_pos_nonneg; lia). nia.
Qed.

(** A parsed IPv4 is a 32-bit number. *)
Lemma parseIPv4_range host v : parseIPv4 host = Some v -> 0 <= v < 2 ^ 32.
Proof.
  unfold parseIPv4. destruct (length (split_on is_dot host) =? 4)%nat eqn:E; [|done]. cbn [negb].
  apply Nat.eqb_eq in E. intros H. apply parse_octets_range in H; [|done]. rewrite E in H.
  change (256 ^ Z.of_nat 4) with (2 ^ 32) in H. lia.
Qed.

(** The dotted quad of a 32-bit number. *)
Definition octets_of (v : Z) : list Z := [v / 2 ^ 24 mod 256; v / 2 ^ 16 mod 256; v / 2 ^ 8 mod 256; v mod 256].
Definition print_ipv4 (v : Z) : string := join "." ((fun o => pretty (Z.to_N o)) <$> octets_of v).

Lemma octets_all : forallb (fun n => bool_decide (parse_octet (pretty (N.of_nat n)) = Some (Z.of_nat n)) &&
                                     negb (has_char "."%char (pretty (N.of_nat n)))) (seq 0 256) = true.
Proof. vm_compute. reflexivity. Qed.

Lemma octet_prints o : 0 <= o < 256 ->
  parse_octet (pretty (Z.to_N o)) = Some o /\ has_char "."%char (pretty (Z.to_N o)) = false.
Proof.
  intros Ho. pose proof octets_all as H. rewrite forallb_forall in H.
  specialize (H (Z.to_nat o) (proj2 (in_seq 256 0 (Z.to_nat o)) ltac:(lia))).
  apply andb_true_iff in H as [H1 H2]. apply bool_decide_eq_true in H1. apply negb_true_iff in H2.
  rewrite Z_nat_N, Z2Nat.id in H1 by lia. rewrite Z_nat_N in H2. done.
Qed.

(** Joining pieces without the separator and cutting again. *)
Lemma split_join_dot parts :
  parts <> [] -> (forall p, p ∈ parts -> has_char "."%char p = false) -> split_on is_dot (join "." parts) = parts.
Proof.
  induction parts as [|p [|q parts] IH]; intros Hne H; [done|apply split_on_no_sep, H; set_solver|].
  change (join "." (p :: q :: parts)) with (p +:+ String "."%char (join "." (q :: parts))).
  rewrite split_on_app_sep by done. rewrite (split_on_no_sep "."%char) by (apply H; set_solver).
  rewrite IH; [done|done|]. set_solver.
Qed.

Lemma octets_value v : 0 <= v < 2 ^ 32 ->
  (((0 * 256 + v / 2 ^ 24 mod 256) * 256 + v / 2 ^ 16 mod 256) * 256 + v / 2 ^ 8 mod 256) * 256 + v mod 256 = v.
Proof. intros Hv. change (2 ^ 24) with 16777216. change (2 ^ 16) with 65536. change (2 ^ 8) with 256. Z.div_mod_to_equations. lia. Qed.

(** An aligned range is a prefix. *)
Lemma aligned_range start k v :
  0 <= k -> start mod 2 ^ k = 0 -> (start <= v < start + 2 ^ k) <-> Z.shiftr v k = Z.shiftr start k.
Proof.
  intros Hk Hal. rewrite !Z.shiftr_div_pow2 by done. assert (0 < 2 ^ k) by (apply Z.pow_pos_nonneg; lia).
  pose proof (Z.div_mod start (2 ^ k) ltac:(lia)) as Hs. rewrite Hal in Hs.
  pose proof (Z.div_mod v (2 ^ k) ltac:(lia)) as Hv. pose proof (Z.mod_pos_bound v (2 ^ k) ltac:(lia)). nia.
Qed.

Lemma blocked_table_aligned : forallb (fun nb : string * Z =>
    match parseIPv4 nb.1 with
    | Some n => (n mod 2 ^ (32 - nb.2) =? 0) && (nb.2 <=? 32)
    | None => false
    end) BLOCKED_IPV4 = true.
Proof. vm_compute. reflexivity. Qed.

(** The four bytes of a 32-bit number, read back. *)
Lemma embedded_of_groups v pre :
  0 <= v < 2 ^ 32 -> length pre = 12%nat ->
  embeddedIPv4 (pre ++ concat (group_bytes <$> [Z.land (Z.shiftr (to_uint32 v) 16) 65535; Z.land (to_int32 v) 65535])) 12 = v.
Proof.
  intros Hv Hpre. unfold embeddedIPv4, byte_at, group_bytes. cbn [fmap list_fmap concat app].
  rewrite !lookup_app_r by lia. rewrite Hpre. cbn [Nat.sub Nat.add lookup list_lookup default].
  unfold to_int32, to_uint32.
  change 65535 with (Z.ones 16). change 255 with (Z.ones 8). rewrite !Z.land_ones by lia.
  rewrite !Z.shiftr_div_pow2, !Z.shiftl_mul_pow2 by lia.
  change (2 ^ 32) with 4294967296 in *. change (2 ^ 31) with 2147483648. change (2 ^ 16) with 65536.
  change (2 ^ 8) with 256. change (2 ^ 24) with 16777216.
  rewrite (Z.mod_small v) by lia. cbn [default id].
  assert (H16 : forall b, 0 <= b < 256 -> (b * 65536) mod 4294967296 = b * 65536) by (intros; apply Z.mod_small; lia).
  assert (H8 : forall b, 0 <= b < 256 -> (b * 256) mod 4294967296 = b * 256) by (intros; apply Z.mod_small; lia).
  assert (H24 : forall b, 0 <= b < 256 -> (b * 16777216) mod 4294967296 = b * 16777216) by (intros; apply Z.mod_small; lia).
  set (hi := (v / 65536) mod 65536).
  set (lo := (if 2147483648 <=? v then v - 4294967296 else v) mod 65536).
  assert (Hhi : hi = v / 65536) by (apply Z.mod_small; Z.div_mod_to_equations; lia).
  assert (Hlo : lo = v mod 65536).
  { unfold lo. destruct (2147483648 <=? v); [|done]. replace (v - 4294967296) with (v + (-65536) * 65536) by lia.
    apply Z.mod_add. lia. }
  clearbody hi lo. subst hi lo.
  rewrite H24, H16, H8 by (apply Z.mod_pos_bound; lia).
  assert (Hb : 0 <= (v / 65536 / 256) mod 256 < 256) by (apply Z.mod_pos_bound; lia).
  assert (Hb2 : 0 <= (v / 65536) mod 256 < 256) by (apply Z.mod_pos_bound; lia).
  assert (Hb3 : 0 <= (v mod 65536 / 256) mod 256 < 256) by (apply Z.mod_pos_bound; lia).
  rewrite (proj2 (Z.leb_gt 2147483648 ((v / 65536) mod 256 * 65536))) by lia.
  rewrite (proj2 (Z.leb_gt 2147483648 ((v mod 65536 / 256) mod 256 * 256))) by lia.
  assert (Hsum : (v / 65536 / 256) mod 256 * 16777216 + (v / 65536) mod 256 * 65536 +
                 (v mod 65536 / 256) mod 256 * 256 + (v mod 65536) mod 256 = v) by (Z.div_mod_to_equations; lia).
  destruct (2147483648 <=? _); [|rewrite Hsum; apply Z.mod_small; lia].
  match goal with |- ?e mod _ = _ => replace e with (v + (-1) * 4294967296) by lia end.
  rewrite Z.mod_add by lia. apply Z.mod_small. lia.
Qed.

(** A dotted quad has a dot and no colon. *)
Lemma octets_chars host v : parseIPv4 host = Some v ->
  has_char "."%char host = true /\ has_char ":"%char host = false.
Proof.
  unfold parseIPv4. intros H. split.
  - destruct (has_char "."%char host) eqn:E; [done|]. unfold is_dot in H. by rewrite split_on_no_sep in H by done.
  - destruct (negb _); [done|]. revert H. rewrite <- (join_split "."%char host) at 2.
    change (fun d => bool_decide (d = "."%char)) with is_dot. generalize 0 as value.
    induction (split_on is_dot host) as [|p parts IH]; intros value H; [done|]. cbn [parse_octets] in H.
    destruct (parse_octet p) as [o|] eqn:E; [|done].
    assert (Hp : has_char ":"%char p = false).
    { unfold parse_octet in E. destruct (all_digits p && _) eqn:Ed; [|done]. apply andb_true_iff in Ed as [Ed _].
      unfold all_digits in Ed. apply andb_true_iff in Ed as [_ Ed]. clear -Ed.
      induction p as [|c p IH]; [done|]. cbn in Ed |- *. apply andb_true_iff in Ed as [Hc Hp].
      rewrite (IH Hp), orb_false_r. apply bool_decide_false. intros <-. discriminate Hc. }
    specialize (IH _ H). destruct parts as [|q parts]; [exact Hp|].
    change (join "." (p :: q :: parts)) with (p +:+ String "."%char (join "." (q :: parts))).
    rewrite has_char_app, Hp. exact IH.
Qed.

Lemma cut_last_none c s : has_char c s = false -> cut_last c s = None.
Proof.
  induction s as [|d s IH]; [done|]. cbn. intros [Hd Hs]%orb_false_iff. rewrite (IH Hs).
  apply bool_decide_eq_false in Hd. by rewrite bool_decide_false.
Qed.

Lemma cut_last_app c a b : has_char c b = false -> cut_last c (a +:+ String c b) = Some (a, b).
Proof.
  intros Hb. induction a as [|d a IH]; cbn.
  - by rewrite cut_last_none, bool_decide_true.
  - by rewrite IH.
Qed.

(** An IPv6 text is no IPv4. *)
Lemma parseIPv4_colon s : has_char ":"%char s = true -> parseIPv4 s = None.
Proof.
  intros Hs. destruct (parseIPv4 s) as [v|] eqn:E; [|done]. apply octets_chars in E as [_ E]. congruence.
Qed.

(** An IPv6 text that ends in a dotted quad: the tail is the quad's two groups. *)
Lemma ipv4_tail_quad prefix host v : parseIPv4 host = Some v ->
  ipv4_tail (prefix +:+ String ":"%char host) =
  Some (if ends_with ":" prefix then prefix +:+ ":" else prefix,
        [Z.land (Z.shiftr (to_uint32 v) 16) 65535; Z.land (to_int32 v) 65535]).
Proof.
  intros H. pose proof (octets_chars _ _ H) as [Hdot Hcolon]. unfold ipv4_tail.
  by rewrite cut_last_app, Hdot, H by done.
Qed.

(** The 16 bytes of an IPv6 text. *)
Lemma length_group_bytes l : length (concat (group_bytes <$> l)) = (2 * length l)%nat.
Proof. induction l as [|g l IH]; [done|]. cbn in IH |- *. rewrite IH. lia. Qed.

Lemma group_bytes_range l : Forall (fun b => 0 <= b < 256) (concat (group_bytes <$> l)).
Proof.
  induction l as [|g l IH]; [by constructor|]. cbn. repeat constructor; [..|exact IH];
    try apply Z.mod_pos_bound; try lia; change 255 with (Z.ones 8); rewrite Z.land_ones by lia;
    apply Z.mod_pos_bound; lia.
Qed.

(** ** Properties *)

(** Printing and parsing an IPv4 address are inverse.  Every 32-bit number
    is what its dotted quad parses to, and whatever parses is a 32-bit number; so
    is every parsed IPv6 text 16 bytes. *)
Theorem ipv4_roundtrip :
  (forall v, 0 <= v < 2 ^ 32 -> parseIPv4 (print_ipv4 v) = Some v) /\
  (forall host v, parseIPv4 host = Some v -> 0 <= v < 2 ^ 32) /\
  (forall host bytes, parseIPv6 host = Some bytes -> length bytes = 16%nat /\ Forall (fun b => 0 <= b < 256) bytes).
Proof.
  split_and!; [|exact parseIPv4_range|].
  - intros v Hv. assert (Ho : forall o, o ∈ octets_of v -> 0 <= o < 256).
    { intros o H. unfold octets_of in H. repeat (apply elem_of_cons in H as [->|H]; [apply Z.mod_pos_bound; lia|]). set_solver. }
    unfold parseIPv4, print_ipv4. rewrite split_join_dot; [|done|].
    + cbn [octets_of fmap list_fmap length Nat.eqb negb parse_octets].
      rewrite !(fun o H => proj1 (octet_prints o H)) by (apply Z.mod_pos_bound; lia). by rewrite octets_value.
    + intros p (o & -> & H)%list_elem_of_fmap. by apply octet_prints, Ho.
  - intros host bytes. unfold parseIPv6. destruct (negb _); [done|]. destruct (ipv4_tail host) as [[text tail]|]; [|done].
    destruct (halves_of text) as [[first second]|]; [|done]. destruct (toGroups first) as [head|]; [|done].
    destruct second as [part|].
    + destruct (toGroups part) as [rest|]; [|done]. destruct (7 <? _)%nat eqn:E; [done|]. apply Nat.ltb_ge in E.
      intros [= <-]. rewrite length_group_bytes, !length_app, repeat_length. split; [lia|apply group_bytes_range].
    + destruct (negb _) eqn:E; [done|]. apply negb_false_iff, Nat.eqb_eq in E. cbn in E.
      intros [= <-]. rewrite length_group_bytes, length_app. split; [lia|apply group_bytes_range].
Qed.

(** The refused IPv4 ranges are the listed prefixes.  A number is refused
    exactly when its leading bits are those of a listed network, for the listed
    number of bits. *)
Theorem blocked_ipv4_prefixes v :
  isBlockedIPv4Number v = true <->
  exists network bits n, (network, bits) ∈ BLOCKED_IPV4 /\ parseIPv4 network = Some n /\
    Z.shiftr v (32 - bits) = Z.shiftr n (32 - bits).
Proof.
  pose proof blocked_table_aligned as Hal. rewrite forallb_forall in Hal.
  assert (Hrow : forall network bits, (network, bits) ∈ BLOCKED_IPV4 -> exists n, parseIPv4 network = Some n /\
    ((n <=? v) && (v <? n + 2 ^ (32 - bits)) = true <-> Z.shiftr v (32 - bits) = Z.shiftr n (32 - bits))).
  { intros network bits Hin. specialize (Hal _ (proj1 (list_elem_of_In _ _) Hin)). cbn in Hal.
    destruct (parseIPv4 network) as [n|]; [|done]. exists n. split; [done|].
    apply andb_true_iff in Hal as [Hal%Z.eqb_eq Hb%Z.leb_le].
    rewrite <- aligned_range by (done || lia). rewrite andb_true_iff, Z.leb_le, Z.ltb_lt. done. }
  unfold isBlockedIPv4Number, BLOCKED_IPV4_RANGES. rewrite existsb_exists. split.
  - intros (r & Hr & Hv). apply list_elem_of_In, list_elem_of_fmap in Hr as ([network bits] & -> & Hin).
    destruct (Hrow network bits Hin) as (n & Hn & Hiff). cbn in Hv. rewrite Hn in Hv. cbn in Hv.
    exists network, bits, n. split_and!; [done..|]. by apply Hiff.
  - intros (network & bits & n & Hin & Hn & Hv). destruct (Hrow network bits Hin) as (n' & Hn' & Hiff).
    rewrite Hn in Hn'. injection Hn' as <-. exists (n, 2 ^ (32 - bits)). split; [|by apply Hiff].
    apply list_elem_of_In, list_elem_of_fmap. exists (network, bits). cbn. by rewrite Hn.
Qed.

(** Embedding does not get around the guard.  An IPv4 address written inside
    an IPv4-mapped ([::ffff:a.b.c.d]) or NAT64 ([64:ff9b::a.b.c.d]) address is
    refused exactly when it is refused by itself, and in the IPv4-compatible form
    ([::a.b.c.d]) it is always refused. *)
Theorem embedded_ipv4_guarded host v :
  parseIPv4 host = Some v ->
  blocked_literal ("::ffff:" +:+ host) = blocked_literal host /\
  blocked_literal ("64:ff9b::" +:+ host) = blocked_literal host /\
  blocked_literal ("::" +:+ host) = true.
Proof.
  intros H. pose proof (parseIPv4_range _ _ H) as Hv. unfold blocked_literal. rewrite H.
  set (groups := [Z.land (Z.shiftr (to_uint32 v) 16) 65535; Z.land (to_int32 v) 65535]).
  assert (Hpre : forall prefix bytes pre text,
    text = (if ends_with ":" prefix then prefix +:+ ":" else prefix) ->
    (has_char ":"%char (prefix +:+ String ":"%char host) = true) ->
    (match halves_of text with
     | Some (first, Some part) =>
         match toGroups first, toGroups part with
         | Some head, Some rest => if (7 <? length head + length rest + 2)%nat then None
             else Some (head ++ repeat 0 (8 - (length head + length rest + 2)) ++ rest)
         | _, _ => None
         end
     | _ => None
     end) = Some pre -> bytes = concat (group_bytes <$> pre) ++ concat (group_bytes <$> groups) ->
    parseIPv6 (prefix +:+ String ":"%char host) = Some bytes).
  { intros prefix bytes pre text -> Hcolon Hhalves ->. unfold parseIPv6. rewrite Hcolon. cbn [negb].
    rewrite (ipv4_tail_quad _ _ _ H). fold groups. destruct (halves_of _) as [[first [part|]]|]; [|done|done].
    destruct (toGroups first) as [head|]; [|done]. destruct (toGroups part) as [rest|]; [|done]. cbn [length groups].
    destruct (7 <? _)%nat; [done|]. injection Hhalves as <-. f_equal.
    rewrite <- concat_app, <- fmap_app. by rewrite <- !app_assoc. }
  assert (Hc : forall p, has_char ":"%char (p +:+ String ":"%char host) = true)
    by (intros p; rewrite has_char_app; cbn; by rewrite orb_true_r).
  split_and!.
  - change ("::ffff:" +:+ host) with ("::ffff" +:+ String ":"%char host).
    rewrite parseIPv4_colon by apply Hc. erewrite (Hpre "::ffff"); [|reflexivity|apply Hc|reflexivity|reflexivity].
    unfold isBlockedIPv6Bytes. cbn -[embeddedIPv4 group_bytes concat groups isBlockedIPv4Number].
    rewrite <- (embedded_of_groups v (concat (group_bytes <$> [0; 0; 0; 0; 0; 65535])) Hv (length_group_bytes [0; 0; 0; 0; 0; 65535])). reflexivity.
  - change ("64:ff9b::" +:+ host) with ("64:ff9b:" +:+ String ":"%char host).
    rewrite parseIPv4_colon by apply Hc. erewrite (Hpre "64:ff9b:"); [|reflexivity|apply Hc|reflexivity|reflexivity].
    unfold isBlockedIPv6Bytes. cbn -[embeddedIPv4 group_bytes concat groups isBlockedIPv4Number].
    rewrite <- (embedded_of_groups v (concat (group_bytes <$> [100; 65435; 0; 0; 0; 0])) Hv (length_group_bytes [100; 65435; 0; 0; 0; 0])). reflexivity.
  - change ("::" +:+ host) with (":" +:+ String ":"%char host).
    rewrite parseIPv4_colon by apply Hc. erewrite (Hpre ":"); [|reflexivity|apply Hc|reflexivity|reflexivity]. reflexivity.
Qed.

Lemma embedded_ipv4_guarded_witness :
  blocked_literal ("::ffff:" +:+ "169.254.169.254") = blocked_literal "169.254.169.254" /\
  blocked_literal ("64:ff9b::" +:+ "169.254.169.254") = blocked_literal "169.254.169.254" /\
  blocked_literal ("::" +:+ "169.254.169.254") = true.
Proof. apply (embedded_ipv4_guarded "169.254.169.254" 2852039166). reflexivity. Defined.
