(* ===== verification/Egress.v ===== *)
(** * The egress guard: core/src/webhooks/egress-guard.ts, egress.ts

    Which URLs a webhook may be sent to, and the guarded fetch that checks every
    redirect hop.  The platform's URL parser, the DNS and the network are
    parameters ([Net]): a URL is the record of what the code reads of it, and the
    guard's effect is the list of requests it sends.  A class of the repository
    that extends [Error] directly is a [ForeignError] with that name.  The
    theorems: every request of a guarded fetch, redirects included, goes to a
    trusted host or to an address that was checked and is not private, and there
    are at most six; credentials never follow a redirect to another origin. *)

From S2P Require Import Prelude JsString Errors Address.
#[global] Open Scope Z_scope.

(** What the code reads of a [URL]. *)
Record Url : Type := {
  u_href : string;
  u_protocol : string;
  u_hostname : string;
  u_port : string;
  u_host : string;
  u_origin : string;
  u_username : string;
  u_password : string
}.

#[export] Instance Url_eta : Eta Url := fun r => Build_Url r.(u_href) r.(u_protocol) r.(u_hostname) r.(u_port)
  r.(u_host) r.(u_origin) r.(u_username) r.(u_password).

Definition is_http (url : Url) : bool :=
  bool_decide (url.(u_protocol) = "http:") || bool_decide (url.(u_protocol) = "https:").

(** ** The guard of a URL string *)

Record SsrfGuardOptions : Type := { sg_allowPrivateHosts : bool; sg_allowInsecure : bool }.

Section Guard.
Context {rt : Runtime}.

Definition assertUrlSafe (parse : string -> option Url) (rawUrl : string) (opts : SsrfGuardOptions) : outcome error Url :=
  match parse rawUrl with
  | None => Throw (JsError ("Invalid URL: " +:+ rawUrl))
  | Some parsed =>
      if negb (is_http parsed) then Throw (JsError ("Refusing unsupported protocol: " +:+ parsed.(u_protocol)))
      else if bool_decide (parsed.(u_protocol) = "http:") && negb opts.(sg_allowInsecure) then
        Throw (JsError ("Refusing insecure (http://) URL in production: " +:+ rawUrl))
      else
        let host := parsed.(u_hostname) in
        if bool_decide (host = "") then Throw (JsError ("Missing hostname: " +:+ rawUrl))
        else if opts.(sg_allowPrivateHosts) then Ok parsed
        else if isLoopbackName host then Throw (JsError ("Refusing loopback hostname: " +:+ host))
        else if isIPv4Literal host && isPrivateAddress host then
          Throw (JsError ("Refusing private IPv4 host: " +:+ host))
        else if isIPv6Literal host && isPrivateAddress host then
          Throw (JsError ("Refusing private IPv6 host: " +:+ host))
        else Ok parsed
  end.

(** ** The allowlist *)

Definition effectivePort (url : Url) : string :=
  if negb (bool_decide (url.(u_port) = "")) then url.(u_port)
  else if bool_decide (url.(u_protocol) = "https:") then "443" else "80".

Definition drop_trailing_dot (s : string) : string := if ends_with "." s then drop_last_char s else s.

(** [/^\[([^\]]+)\](?::(\d+))?$/]: the bracketed host and the port. *)
Definition bracketed_entry (entry : string) : option (string * option string) :=
  if starts_with "[" entry then
    let inner := before_char "]"%char (drop_str 1 entry) in
    let rest := drop_str (S (String.length inner)) entry in
    if bool_decide (inner = "") then None
    else if bool_decide (rest = "]") then Some (inner, None)
    else if starts_with "]:" rest && all_digits (drop_str 2 rest) then Some (inner, Some (drop_str 2 rest))
    else None
  else None.

(** The host and the port an entry names. *)
Definition entry_parts (entry : string) : string * option string :=
  match bracketed_entry entry with
  | Some parts => parts
  | None =>
      match split_on is_colon entry with
      | [name; portText] => (name, Some portText)
      | _ => (entry, None)
      end
  end.

Definition matches_entry (host port rawEntry : string) : bool :=
  let entry := toLowerCase (trim rawEntry) in
  if bool_decide (entry = "") then false
  else
    let '(entryHost, entryPort) := entry_parts entry in
    if match entryPort with Some p => negb (bool_decide (p = port)) | None => false end then false
    else if starts_with "*." entryHost then
      let suffix := drop_str 1 entryHost in
      ends_with suffix host && (String.length suffix <? String.length host)%nat
    else bool_decide (host = entryHost).

Definition matchesAllowlist (url : Url) (allowlist : list string) : bool :=
  let host := drop_trailing_dot (stripBrackets (toLowerCase url.(u_hostname))) in
  existsb (matches_entry host (effectivePort url)) allowlist.

Definition parseEgressAllowlist (value : option string) : option (list string) :=
  let entries := filter (fun e => e <> "") (trim <$> split_on (fun c => bool_decide (c = ","%char)) (value ?? "")) in
  if bool_decide (entries = []) then None else Some entries.

Definition is_alnum (c : ascii) : bool :=
  let n := Ascii.nat_of_ascii c in
  (Nat.leb 48 n && Nat.leb n 57) || (Nat.leb 97 n && Nat.leb n 122) || (Nat.leb 65 n && Nat.leb n 90).
Definition is_hex_colon (c : ascii) : bool := bool_decide (is_Some (hex_value c)) || is_colon c.

(** [[a-z0-9]([a-z0-9-]*[a-z0-9])?]. *)
Definition is_label (s : string) : bool :=
  match s, string_rev s with
  | String first _, String last _ =>
      is_alnum first && is_alnum last && all_chars (fun c => is_alnum c || bool_decide (c = "-"%char)) s
  | _, _ => false
  end.

(** [(:\d{1,5})?]. *)
Definition is_port_suffix (s : string) : bool :=
  bool_decide (s = "") ||
  (starts_with ":" s && all_digits (drop_str 1 s) && (String.length s <=? 6)%nat).

Definition is_name_entry (entry : string) : bool :=
  let name := before_char ":"%char entry in
  let labels := if starts_with "*." name then drop_str 2 name else name in
  forallb is_label (split_on is_dot labels) && is_port_suffix (drop_str (String.length name) entry).

Definition is_bracket_entry (entry : string) : bool :=
  if starts_with "[" entry then
    let inner := before_char "]"%char (drop_str 1 entry) in
    negb (bool_decide (inner = "")) && all_chars (fun c => is_hex_colon c || is_dot c) inner &&
    starts_with "]" (drop_str (S (String.length inner)) entry) &&
    is_port_suffix (drop_str (S (S (String.length inner))) entry)
  else false.

Definition is_v6_entry (entry : string) : bool :=
  let first := before_char ":"%char entry in
  has_char ":"%char entry && all_chars is_hex_colon first &&
  all_chars (fun c => is_hex_colon c || is_dot c) (drop_str (String.length first) entry).

Definition dquote : string := bytes [34%nat].

Definition validateEgressAllowlist (value : string) : option string :=
  (fun entry => "Invalid AGENT_FS_WEBHOOK_ALLOWED_HOSTS entry " +:+ dquote +:+ entry +:+ dquote +:+
     " (use comma-separated host[:port] patterns; a leading *. matches subdomains)")
  <$> head (filter (fun entry => is_name_entry entry || is_bracket_entry entry || is_v6_entry entry <> true)
              (parseEgressAllowlist (Some value) ?? [])).

(** ** The check of one URL *)

Record EgressPolicy : Type := { ep_allowPrivate : bool; ep_allowlist : option (list string) }.

(** [gf_resolve] is the resolver in force: [options.resolve] or the DNS. *)
Record GuardedFetchOptions : Type := {
  gf_policy : EgressPolicy;
  gf_isTrusted : option (Url -> bool)
}.

Definition EgressDeniedError (message : string) : error := ForeignError "EgressDeniedError" message None false.
Definition TypeError (message : string) : error := ForeignError "TypeError" message None false.

Definition denied (url : Url) : error :=
  EgressDeniedError ("Webhook egress refused: " +:+ url.(u_host) +:+
    " is a private or loopback address. Add it to AGENT_FS_WEBHOOK_ALLOWED_HOSTS or set AGENT_FS_WEBHOOK_ALLOW_PRIVATE=true").

(** The checked address to connect to, if the host had to be resolved. *)
Definition assertEgressAllowed (resolve : string -> outcome error (list string)) (url : Url)
    (options : GuardedFetchOptions) : outcome error (option string) :=
  if negb (is_http url) then
    if bool_decide (url.(u_protocol) = "data:") || bool_decide (url.(u_protocol) = "blob:") then Ok None
    else Throw (EgressDeniedError ("Webhook egress refused: unsupported protocol " +:+ url.(u_protocol)))
  else if match options.(gf_isTrusted) with Some trusted => trusted url | None => false end then Ok None
  else match options.(gf_policy).(ep_allowlist) with
  | Some ((_ :: _) as allowlist) =>
      if matchesAllowlist url allowlist then Ok None
      else Throw (EgressDeniedError ("Webhook egress refused: " +:+ url.(u_host) +:+
                    " is not in AGENT_FS_WEBHOOK_ALLOWED_HOSTS"))
  | _ =>
      if options.(gf_policy).(ep_allowPrivate) then Ok None
      else
        let host := stripBrackets url.(u_hostname) in
        if isLoopbackName host then Throw (denied url)
        else if isIPv4Literal host || isIPv6Literal host then
          if isPrivateAddress host then Throw (denied url) else Ok None
        else match resolve host with
        | Throw e => Throw (EgressDeniedError ("Webhook egress refused: could not resolve " +:+ host +:+
                              " (" +:+ error_message e +:+ ")"))
        | Ok addresses =>
            match addresses with
            | [] => Throw (EgressDeniedError ("Webhook egress refused: " +:+ host +:+ " resolved to no address"))
            | first :: _ =>
                if existsb isPrivateAddress addresses then Throw (denied url)
                else Ok (Some (head (filter (fun a => isIPv4Literal a = true) addresses) ?? first))
            end
        end
  end.

(** ** Redirect hops *)

Definition MAX_REDIRECTS : nat := 5.
Definition REDIRECT_STATUSES : list Z := [301; 302; 303; 307; 308].
Definition CREDENTIAL_HEADERS : list string := ["authorization"; "cookie"; "proxy-authorization"].

(** Headers by lowercase name; [Body] is opaque. *)
Context {Body : Type}.
Record HopRequest : Type := { hr_method : string; hr_headers : list (string * string); hr_body : option Body }.

Definition delete_headers (names : list string) (headers : list (string * string)) : list (string * string) :=
  filter (fun h => h.1 ∉ names) headers.

(** Methods are ASCII, and upper case already. *)
Definition nextHopRequest (status : Z) (from to_ : Url) (request : HopRequest) : HopRequest :=
  let headers := if bool_decide (to_.(u_origin) <> from.(u_origin))
                 then delete_headers CREDENTIAL_HEADERS request.(hr_headers) else request.(hr_headers) in
  let method := request.(hr_method) in
  let toGet := if status =? 303 then negb (bool_decide (method = "HEAD"))
               else ((status =? 301) || (status =? 302)) && bool_decide (method = "POST") in
  if negb toGet then {| hr_method := method; hr_headers := headers; hr_body := request.(hr_body) |}
  else {| hr_method := "GET"; hr_headers := delete_headers ["content-type"; "content-length"] headers; hr_body := None |}.

(** What goes out: the URL asked for, the address connected to when it was
    resolved, the request, and the TLS server name. *)
Record Sent : Type := {
  st_url : Url;
  st_address : option string;
  st_request : HopRequest;
  st_serverName : option string
}.

Definition pinToAddress (url : Url) (address : string) (request : HopRequest) : Sent :=
  {| st_url := url;
     st_address := Some (if isIPv6Literal address then "[" +:+ stripBrackets address +:+ "]" else address);
     st_request := {| hr_method := request.(hr_method);
                      hr_headers := if bool_decide ("host" ∈ fst <$> request.(hr_headers)) then request.(hr_headers)
                                    else request.(hr_headers) ++ [("host", url.(u_host))];
                      hr_body := request.(hr_body) |};
     st_serverName := if bool_decide (url.(u_protocol) = "https:") then Some (drop_trailing_dot url.(u_hostname)) else None |}.

Record Response : Type := { rs_status : Z; rs_location : option string }.

(** The environment of one fetch, by hop. *)
Record Net : Type := {
  net_resolve : nat -> string -> outcome error (list string);
  net_fetch : nat -> Sent -> outcome error Response;
  net_join : string -> Url -> option Url  (* new URL(location, base) *)
}.

Inductive RedirectMode : Type := Follow | Manual | ErrorMode.
#[export] Instance RedirectMode_eq_dec : EqDecision RedirectMode.
Proof. solve_decision. Defined.

Definition MAX_REPLAY_BODY_BYTES : Z := 1048576.
Definition RequestBodyTooLargeError : error :=
  ForeignError "RequestBodyTooLargeError"
    ("Cannot resend a streamed request body over 1 MiB on a 307/308 redirect: it is sent as it is read, not kept in memory. Send a smaller or non-streamed body, or use redirect: " +:+ dquote +:+ "manual" +:+ dquote) None false.

(** The loop of [createGuardedFetch], with the requests it sends: [left] hops may
    still follow the one numbered [hop].  [replayable]: the body may be sent again. *)
Fixpoint guarded_from (net : Net) (options : GuardedFetchOptions) (mode : RedirectMode) (replayable : bool)
    (left hop : nat) (url : Url) (request : HopRequest) : outcome error Response * list Sent :=
  match assertEgressAllowed (net.(net_resolve) hop) url options with
  | Throw e => (Throw e, [])
  | Ok address =>
      let sent := match address with
                  | Some a => pinToAddress url a request
                  | None => {| st_url := url; st_address := None; st_request := request; st_serverName := None |}
                  end in
      match net.(net_fetch) hop sent with
      | Throw e => (Throw e, [sent])
      | Ok response =>
          if negb (bool_decide (response.(rs_status) ∈ REDIRECT_STATUSES)) || bool_decide (mode = Manual)
          then (Ok response, [sent])
          else match truthy response.(rs_location) with
          | None => (Ok response, [sent])
          | Some location =>
              if bool_decide (mode = ErrorMode) then
                (Throw (TypeError ("fetch redirect refused (redirect: " +:+ dquote +:+ "error" +:+ dquote +:+ "): " +:+ url.(u_href))), [sent])
              else match left with
              | O => (Throw (EgressDeniedError "Webhook egress refused: more than 5 redirects"), [sent])
              | S left' =>
                  match net.(net_join) location url with
                  | None => (Throw (TypeError "Invalid URL"), [sent])
                  | Some next =>
                      let request' := nextHopRequest response.(rs_status) url next request in
                      if negb replayable && bool_decide (is_Some request'.(hr_body)) then (Throw RequestBodyTooLargeError, [sent])
                      else
                        let r := guarded_from net options mode replayable left' (S hop) next request' in
                        (r.1, sent :: r.2)
                  end
              end
          end
      end
  end.

Definition createGuardedFetch (net : Net) (options : GuardedFetchOptions) (mode : RedirectMode) (replayable : bool)
    (url : Url) (request : HopRequest) : outcome error Response * list Sent :=
  guarded_from net options mode replayable MAX_REDIRECTS 0 url request.

(** ** egress.ts *)

Definition WEBHOOK_URL_MAX_CHARS : Z := 2048.

Record WebhookEgressConfig : Type := { wc_allowedHosts : option (list string); wc_allowPrivate : bool }.

(** [allowedHosts], [allowPrivate]: the two environment variables. *)
Definition webhookEgressConfig (allowedHosts allowPrivate : option string) : outcome error WebhookEgressConfig :=
  let raw := allowedHosts ?? "" in
  match validateEgressAllowlist raw with
  | Some invalid => Throw (JsError invalid)
  | None => Ok {| wc_allowedHosts := parseEgressAllowlist (Some raw);
                  wc_allowPrivate := bool_decide (allowPrivate = Some "true") |}
  end.

Definition guardOptions (config : WebhookEgressConfig) : GuardedFetchOptions :=
  {| gf_policy := {| ep_allowPrivate := config.(wc_allowPrivate); ep_allowlist := None |};
     gf_isTrusted := (fun allowed url => matchesAllowlist url allowed) <$> config.(wc_allowedHosts) |}.

Definition refuse (message : string) : error :=
  ValidationError message (Some "url")
    (Some "Use a public https:// URL, or list the host in AGENT_FS_WEBHOOK_ALLOWED_HOSTS").

Definition is_egress_denied (e : error) : bool :=
  match e with ForeignError name _ _ _ => bool_decide (name = "EgressDeniedError") | _ => false end.

Definition assertWebhookUrl (parse : string -> option Url) (resolve : string -> outcome error (list string))
    (allowedHosts allowPrivate : option string) (raw : string) : outcome error Url :=
  if WEBHOOK_URL_MAX_CHARS <? js_length raw then
    Throw (refuse "Webhook URL is longer than 2048 characters")
  else match parse raw with
  | None => Throw (refuse "Webhook URL is not a valid URL")
  | Some url =>
      if negb (bool_decide (url.(u_username) = "")) || negb (bool_decide (url.(u_password) = "")) then
        Throw (refuse "Webhook URL must not contain a username or password")
      else if negb (is_http url) then
        Throw (refuse ("Webhook URL must use https:// (got " +:+ url.(u_protocol) +:+ ")"))
      else
        config ← webhookEgressConfig allowedHosts allowPrivate;
        let allowlisted := match config.(wc_allowedHosts) with
                           | Some allowed => matchesAllowlist url allowed
                           | None => false
                           end in
        if bool_decide (url.(u_protocol) = "http:") && negb allowlisted && negb config.(wc_allowPrivate) then
          Throw (refuse "Webhook URL must use https://. Plain http:// is accepted only for hosts in AGENT_FS_WEBHOOK_ALLOWED_HOSTS or with AGENT_FS_WEBHOOK_ALLOW_PRIVATE=true")
        else match assertEgressAllowed resolve url (guardOptions config) with
        | Throw e => Throw (if is_egress_denied e then refuse (error_message e) else e)
        | Ok _ => Ok url
        end
  end.

(** ** Where a guarded fetch connects *)

(** What hop [i] may do under a policy with neither private hosts nor an
    exclusive allowlist. *)
Definition hop_checked (net : Net) (options : GuardedFetchOptions) (i : nat) (s : Sent) : Prop :=
  let url := s.(st_url) in
  let host := stripBrackets url.(u_hostname) in
  match s.(st_address) with
  | None =>
      url.(u_protocol) = "data:" \/ url.(u_protocol) = "blob:" \/
      (exists trusted, options.(gf_isTrusted) = Some trusted /\ trusted url = true) \/
      ((isIPv4Literal host = true \/ isIPv6Literal host = true) /\
       isPrivateAddress host = false /\ isLoopbackName host = false)
  | Some _ =>
      exists answers address request,
        net.(net_resolve) i host = Ok answers /\ address ∈ answers /\
        Forall (fun a => isPrivateAddress a = false) answers /\
        isLoopbackName host = false /\ s = pinToAddress url address request
  end.

Lemma existsb_none {A} (f : A -> bool) l : existsb f l = false -> Forall (fun a => f a = false) l.
Proof. induction l as [|x l IH]; cbn; [constructor|]. intros [Hx Hl]%orb_false_iff. constructor; auto. Qed.

Lemma head_filter_elem {A} (P : A -> Prop) `{!forall x, Decision (P x)} (x : A) l :
  (head (filter P (x :: l)) ?? x) ∈ x :: l.
Proof.
  destruct (filter P (x :: l)) as [|y t] eqn:E; cbn [head from_option id]; [set_solver|].
  assert (Hy : y ∈ filter P (x :: l)) by (rewrite E; set_solver).
  by apply list_elem_of_filter in Hy as [_ Hy].
Qed.

Definition sent_of (url : Url) (address : option string) (request : HopRequest) : Sent :=
  match address with
  | Some a => pinToAddress url a request
  | None => {| st_url := url; st_address := None; st_request := request; st_serverName := None |}
  end.

Lemma allowed_hop_checked net options i url address request :
  options.(gf_policy).(ep_allowPrivate) = false -> options.(gf_policy).(ep_allowlist) = None ->
  assertEgressAllowed (net.(net_resolve) i) url options = Ok address ->
  hop_checked net options i (sent_of url address request).
Proof.
  intros Hpriv Hallow. unfold assertEgressAllowed. rewrite Hallow, Hpriv.
  destruct (is_http url); cbn [negb].
  2: { destruct (bool_decide_reflect (u_protocol url = "data:")) as [Hd|]; cbn [orb].
       { intros [= <-]. by left. }
       case_bool_decide as Hb; [|done]. intros [= <-]. by right; left. }
  destruct (match gf_isTrusted options with Some t => t url | None => false end) eqn:Ht.
  { intros [= <-]. destruct (gf_isTrusted options) as [t|] eqn:Et; [|done]. right; right; left. by exists t. }
  destruct (isLoopbackName (stripBrackets (u_hostname url))) eqn:Hloop; [done|].
  destruct (isIPv4Literal _ || isIPv6Literal _) eqn:Hlit.
  { destruct (isPrivateAddress _) eqn:Hp; [done|]. intros [= <-].
    right; right; right. apply orb_true_iff in Hlit. tauto. }
  destruct (net_resolve net i _) as [answers|e] eqn:Hres; [|done].
  destruct answers as [|first rest]; [done|].
  destruct (existsb isPrivateAddress (first :: rest)) eqn:Hp; [done|]. intros [= <-].
  cbn [sent_of hop_checked pinToAddress st_url st_address].
  eexists (first :: rest), _, request. repeat split; try done; [apply head_filter_elem|by apply existsb_none].
Qed.

(** One hop of the loop. *)
Lemma guarded_from_eq net options mode replayable left hop url request :
  guarded_from net options mode replayable left hop url request =
  match assertEgressAllowed (net.(net_resolve) hop) url options with
  | Throw e => (Throw e, [])
  | Ok address =>
      let sent := sent_of url address request in
      match net.(net_fetch) hop sent with
      | Throw e => (Throw e, [sent])
      | Ok response =>
          if negb (bool_decide (response.(rs_status) ∈ REDIRECT_STATUSES)) || bool_decide (mode = Manual)
          then (Ok response, [sent])
          else match truthy response.(rs_location) with
          | None => (Ok response, [sent])
          | Some location =>
              if bool_decide (mode = ErrorMode) then
                (Throw (TypeError ("fetch redirect refused (redirect: " +:+ dquote +:+ "error" +:+ dquote +:+ "): " +:+ url.(u_href))), [sent])
              else match left with
              | O => (Throw (EgressDeniedError "Webhook egress refused: more than 5 redirects"), [sent])
              | S left' =>
                  match net.(net_join) location url with
                  | None => (Throw (TypeError "Invalid URL"), [sent])
                  | Some next =>
                      let request' := nextHopRequest response.(rs_status) url next request in
                      if negb replayable && bool_decide (is_Some request'.(hr_body)) then (Throw RequestBodyTooLargeError, [sent])
                      else
                        let r := guarded_from net options mode replayable left' (S hop) next request' in
                        (r.1, sent :: r.2)
                  end
              end
          end
      end
  end.
Proof. by destruct left. Qed.

(** The requests a guarded fetch may send, as a relation: nothing when the check
    refuses, the hop's request, or that and the hops after a redirect. *)
Inductive hops (net : Net) (options : GuardedFetchOptions) : nat -> nat -> Url -> HopRequest -> list Sent -> Prop :=
  | hops_refused left hop url request : hops net options left hop url request []
  | hops_last left hop url request address :
      assertEgressAllowed (net.(net_resolve) hop) url options = Ok address ->
      hops net options left hop url request [sent_of url address request]
  | hops_redirect left hop url request address status next log :
      assertEgressAllowed (net.(net_resolve) hop) url options = Ok address ->
      hops net options left (S hop) next (nextHopRequest status url next request) log ->
      hops net options (S left) hop url request (sent_of url address request :: log).

Lemma guarded_hops net options mode replayable left :
  forall hop url request,
  hops net options left hop url request (guarded_from net options mode replayable left hop url request).2.
Proof.
  induction left as [|left IH]; intros hop url request; rewrite guarded_from_eq;
    (destruct (assertEgressAllowed _ url options) as [address|e] eqn:Hok; [|apply hops_refused]); cbv zeta;
    (destruct (net_fetch net hop _) as [response|e]; [|by apply hops_last]);
    (destruct (_ || _); [by apply hops_last|]);
    (destruct (truthy _) as [location|]; [|by apply hops_last]);
    (case_bool_decide; [by apply hops_last|]); [by apply hops_last|].
  destruct (net_join net location url) as [next|]; [|by apply hops_last].
  destruct (_ && _); [by apply hops_last|]. eapply hops_redirect; [done|]. apply IH.
Qed.

Lemma hops_length net options left hop url request log :
  hops net options left hop url request log -> (length log <= S left)%nat.
Proof. induction 1; cbn; lia. Qed.

Lemma hops_all_checked net options left hop url request log :
  options.(gf_policy).(ep_allowPrivate) = false -> options.(gf_policy).(ep_allowlist) = None ->
  hops net options left hop url request log ->
  forall i s, log !! i = Some s -> hop_checked net options (hop + i) s.
Proof.
  intros Hpriv Hallow. induction 1 as [|left hop url request address Hok|left hop url request address status next log Hok _ IH];
    intros [|i] s; cbn [lookup list_lookup]; try done;
    rewrite ?Nat.add_0_r; try (intros [= <-]; by apply allowed_hop_checked).
  intros Hi. rewrite <- Nat.add_succ_comm. exact (IH _ _ Hi).
Qed.


(** ** Credentials *)

(** The headers of a request that carry credentials, by name. *)
Definition is_credential (name : string) : bool :=
  bool_decide (name = "authorization") || bool_decide (name = "cookie") || bool_decide (name = "proxy-authorization").

Definition carries_credentials (headers : list (string * string)) : bool := existsb (fun h => is_credential h.1) headers.

(** The code's list names every one of them. *)
Lemma credential_listed name : is_credential name = true -> name ∈ CREDENTIAL_HEADERS.
Proof. unfold is_credential. rewrite !orb_true_iff, !bool_decide_eq_true. intros [[-> | ->]| ->]; set_solver. Qed.

Lemma delete_no_credentials names headers :
  carries_credentials headers = false -> carries_credentials (delete_headers names headers) = false.
Proof.
  unfold carries_credentials, delete_headers. intros H%existsb_none.
  apply not_true_is_false. intros (h & [_ Hin]%list_elem_of_In%list_elem_of_filter & Ht)%existsb_exists.
  rewrite Forall_forall in H. by rewrite (H h Hin) in Ht.
Qed.

Lemma delete_credentials headers : carries_credentials (delete_headers CREDENTIAL_HEADERS headers) = false.
Proof.
  apply not_true_is_false. intros (h & [Hn _]%list_elem_of_In%list_elem_of_filter & Ht)%existsb_exists.
  by apply Hn, credential_listed.
Qed.

Lemma sent_of_no_credentials url address request :
  carries_credentials request.(hr_headers) = false ->
  carries_credentials (sent_of url address request).(st_request).(hr_headers) = false.
Proof.
  intros H. destruct address as [a|]; [|done]. cbn [sent_of pinToAddress st_request hr_headers].
  case_bool_decide; [done|]. unfold carries_credentials in *. rewrite existsb_app, H. done.
Qed.

Lemma nextHop_no_credentials status from to_ request :
  carries_credentials request.(hr_headers) = false \/ to_.(u_origin) <> from.(u_origin) ->
  carries_credentials (nextHopRequest status from to_ request).(hr_headers) = false.
Proof.
  intros H.
  assert (Hh : carries_credentials (if bool_decide (to_.(u_origin) <> from.(u_origin))
    then delete_headers CREDENTIAL_HEADERS request.(hr_headers) else request.(hr_headers)) = false).
  { case_bool_decide as Ho; [apply delete_credentials|]. by destruct H. }
  unfold nextHopRequest. destruct (if status =? 303 then _ else _); cbn [negb hr_headers]; [|done].
  by apply delete_no_credentials.
Qed.

Lemma hops_no_credentials net options left hop url request log :
  hops net options left hop url request log ->
  carries_credentials request.(hr_headers) = false ->
  Forall (fun s => carries_credentials s.(st_request).(hr_headers) = false) log.
Proof.
  induction 1 as [| |? ? url request address status next log _ _ IH]; intros Hreq;
    repeat constructor; try by apply sent_of_no_credentials.
  apply IH, nextHop_no_credentials. by left.
Qed.

Lemma sent_of_url url address request : (sent_of url address request).(st_url) = url.
Proof. by destruct address. Qed.

Lemma hops_crossed net options left hop url request log :
  hops net options left hop url request log ->
  forall j i sj si, log !! j = Some sj -> sj.(st_url).(u_origin) <> url.(u_origin) ->
  log !! i = Some si -> (j <= i)%nat -> carries_credentials si.(st_request).(hr_headers) = false.
Proof.
  induction 1 as [| |left hop url request address status next log _ Hlog IH]; intros [|j] i sj si; cbn [lookup list_lookup];
    try done; try (intros [= <-]; by rewrite sent_of_url).
  intros Hj Ho Hi Hji. destruct i as [|i]; [lia|]. cbn in Hi.
  destruct (decide (next.(u_origin) = url.(u_origin))) as [E|Hne].
  - eapply (IH j i); [exact Hj|by rewrite E|exact Hi|lia].
  - pose proof (hops_no_credentials _ _ _ _ _ _ _ Hlog) as Hall.
    rewrite Forall_lookup in Hall. eapply Hall; [|exact Hi]. apply nextHop_no_credentials. by right.
Qed.

(** C18: from the first hop that leaves the origin the fetch was asked for, no
    request has a header named [authorization], [cookie] or [proxy-authorization]
    (the names are lowercase in [Headers]), also after a redirect back to that
    origin. *)
Theorem credentials_never_cross_origin (net : Net) (options : GuardedFetchOptions) (mode : RedirectMode)
    (replayable : bool) (url : Url) (request : HopRequest) (j i : nat) (sj si : Sent)
    (Hj : (createGuardedFetch net options mode replayable url request).2 !! j = Some sj)
    (Ho : sj.(st_url).(u_origin) <> url.(u_origin))
    (Hi : (createGuardedFetch net options mode replayable url request).2 !! i = Some si)
    (Hji : (j <= i)%nat) :
  carries_credentials si.(st_request).(hr_headers) = false.
Proof. exact (hops_crossed _ _ _ _ _ _ _ (guarded_hops _ _ _ _ _ _ _ _) _ _ _ _ Hj Ho Hi Hji). Qed.
End Guard.

(** A fetch of [https://a.example/] whose server redirects to [b.example] and
    back, each name resolving to a public address. *)
Module Sample.
Definition site (name : string) : Url :=
  {| u_href := "https://" +:+ name +:+ "/"; u_protocol := "https:"; u_hostname := name; u_port := "";
     u_host := name; u_origin := "https://" +:+ name; u_username := ""; u_password := "" |}.
Definition net : Net (Body := unit) :=
  {| net_resolve := fun _ _ => Ok ["2606:4700::1"; "93.184.216.34"];
     net_fetch := fun i _ => Ok match i with
                                | O => {| rs_status := 302; rs_location := Some "b.example" |}
                                | S O => {| rs_status := 307; rs_location := Some "a.example" |}
                                | _ => {| rs_status := 200; rs_location := None |}
                                end;
     net_join := fun name _ => Some (site name) |}.
Definition options : GuardedFetchOptions :=
  {| gf_policy := {| ep_allowPrivate := false; ep_allowlist := None |}; gf_isTrusted := None |}.
Definition request : HopRequest (Body := unit) :=
  {| hr_method := "GET"; hr_headers := [("authorization", "Bearer t"); ("cookie", "s=1"); ("proxy-authorization", "Basic p"); ("accept", "*/*")]; hr_body := None |}.
Definition log : list (Sent (Body := unit)) :=
  (createGuardedFetch (rt := ascii_runtime) net options Follow true (site "a.example") request).2.
End Sample.


(** The first request has the credentials, the one after the redirects does not. *)
Lemma credentials_never_cross_origin_witness :
  exists s, Sample.log !! 2%nat = Some s /\ s.(st_url) = Sample.site "a.example" /\
    carries_credentials s.(st_request).(hr_headers) = false /\ s.(st_request).(hr_headers).*1 = ["accept"; "host"] /\
    (fun s => s.(st_request).(hr_headers).*1) <$> head Sample.log =
      Some ["authorization"; "cookie"; "proxy-authorization"; "accept"; "host"].
Proof.
  destruct (Sample.log !! 2%nat) as [s|] eqn:E; [|vm_compute in E; discriminate].
  exists s. split; [reflexivity|]. split; [vm_compute in E; injection E as <-; reflexivity|]. split.
  - destruct (Sample.log !! 1%nat) as [s1|] eqn:E1; [|vm_compute in E1; discriminate].
    apply (credentials_never_cross_origin (rt := ascii_runtime) Sample.net Sample.options Follow true
             (Sample.site "a.example") Sample.request 1 2 s1 s E1); [|exact E|lia].
    vm_compute in E1. injection E1 as <-. vm_compute. discriminate.
  - split; [vm_compute in E; injection E as <-; reflexivity|vm_compute; reflexivity].
Defined.
