(* ===== verification/Utf16.v ===== *)
(** * UTF-16 units of a UTF-8 string

    The source indexes and slices strings by UTF-16 unit; a string here is its
    UTF-8 bytes.  [to_utf16] and [of_utf16] convert; a lone surrogate, which a
    slice can leave, becomes U+FFFD, as it does when the string is stored or
    encoded. *)

From S2P Require Import Prelude JsString Text Schema.

Definition byte_value (c : ascii) : Z := Z.of_nat (Ascii.nat_of_ascii c).
Definition cont_value (c : ascii) : Z := byte_value c mod 64.

Definition is_high (u : Z) : bool := (55296 <=? u) && (u <=? 56319).
Definition is_low (u : Z) : bool := (56320 <=? u) && (u <=? 57343).

(** A code point above U+FFFF as two units. *)
Definition surrogate_pair (cp : Z) : list Z := [55296 + (cp - 65536) / 1024; 56320 + (cp - 65536) mod 1024].

Fixpoint to_utf16 (s : string) : list Z :=
  match s with
  | EmptyString => []
  | String a s1 =>
      let n := byte_value a in
      if n <? 128 then n :: to_utf16 s1
      else match s1 with
      | EmptyString => [65533]
      | String b s2 =>
          if n <? 224 then n mod 32 * 64 + cont_value b :: to_utf16 s2
          else match s2 with
          | EmptyString => [65533]
          | String c s3 =>
              if n <? 240 then n mod 16 * 4096 + cont_value b * 64 + cont_value c :: to_utf16 s3
              else match s3 with
              | EmptyString => [65533]
              | String d s4 =>
                  surrogate_pair (n mod 8 * 262144 + cont_value b * 4096 + cont_value c * 64 + cont_value d) ++
                  to_utf16 s4
              end
          end
      end
  end.

Definition byte_of (n : Z) : ascii := Ascii.ascii_of_nat (Z.to_nat n).

Definition encode_point (cp : Z) : string :=
  if cp <? 128 then String (byte_of cp) ""
  else if cp <? 2048 then String (byte_of (192 + cp / 64)) (String (byte_of (128 + cp mod 64)) "")
  else if cp <? 65536 then
    String (byte_of (224 + cp / 4096)) (String (byte_of (128 + cp / 64 mod 64)) (String (byte_of (128 + cp mod 64)) ""))
  else
    String (byte_of (240 + cp / 262144)) (String (byte_of (128 + cp / 4096 mod 64))
      (String (byte_of (128 + cp / 64 mod 64)) (String (byte_of (128 + cp mod 64)) ""))).

Fixpoint of_utf16 (units : list Z) : string :=
  match units with
  | [] => ""
  | u :: t =>
      if is_high u then
        match t with
        | v :: t' =>
            if is_low v then encode_point (65536 + (u - 55296) * 1024 + (v - 56320)) +:+ of_utf16 t'
            else replacement +:+ of_utf16 t
        | [] => replacement
        end
      else (if is_low u then replacement else encode_point u) +:+ of_utf16 t
  end.

(** [s.slice(0, n)] and [s.slice(-n)]. *)
Definition slice_first (n : nat) (s : string) : string := of_utf16 (take n (to_utf16 s)).
Definition slice_last (n : nat) (s : string) : string :=
  let units := to_utf16 s in of_utf16 (drop (length units - n) units).

Example utf16_round_trip : of_utf16 (to_utf16 (bytes [97; 195; 169; 226; 130; 172; 240; 159; 152; 128]%nat)) =
  bytes [97; 195; 169; 226; 130; 172; 240; 159; 152; 128]%nat /\
  to_utf16 (bytes [240; 159; 152; 128]%nat) = [55357; 56832].
Proof. by vm_compute. Qed.
