(* ===== verification/LocalAdapter.v ===== *)
(** * The local storage backend: core/src/storage/local-adapter.ts

    [LocalStorageAdapter] over files-sdk (class [FilesSdk], with what the code
    relies on in [FilesSdkLaws]) and over the functions of
    legacy-reserved-keys.ts, which serve the keys files-sdk refuses (class
    [LegacyKeys] with [LegacyLaws]).  Both work on one disk, of which the laws
    speak through [disk_view]: the bytes of the object at a path.  Keys that name
    the same path are the same object.  The theorem is a refinement: the adapter
    keeps the storage contract of the ops ([StorageLaws]), so what is proved of
    the file ops over any backend holds over this one. *)

From S2P Require Import Prelude JsString Errors Paths Storage Text Utf16.

(** ** files-sdk *)

(** [FilesError]: its [code] and message. *)
Record FilesError : Type := { fe_code : string; fe_message : string }.

Record Stored : Type := {
  stored_body : string;
  stored_type : option string;
  stored_size : Z;
  stored_etag : option string
}.

Record StoredHead : Type := {
  hd_contentType : option string;
  hd_size : Z;
  hd_lastModified : option Z;
  hd_etag : option string
}.

Record ListPage : Type := {
  page_items : list S3Object;
  page_prefixes : option (list string);
  page_cursor : option string
}.

Class FilesSdk (Disk : Type) : Type := {
  files_exists : string -> Disk -> outcome FilesError bool;
  files_upload : string -> string -> option string -> M FilesError Disk unit;
  files_download : string -> Disk -> outcome FilesError Stored;
  files_delete : string -> M FilesError Disk unit;
  files_head : string -> Disk -> outcome FilesError StoredHead;
  files_list : string -> option string -> option string -> Disk -> outcome FilesError ListPage;
  disk_is_directory : string -> Disk -> bool  (* stat(resolve(root, key)).isDirectory() *)
}.

(** ** legacy-reserved-keys.ts *)

Record LegacyObject : Type := {
  lo_size : Z;
  lo_contentType : string;
  lo_etag : option string;
  lo_lastModified : Z
}.

Class LegacyKeys (Disk : Type) : Type := {
  assertLegacyWritable : string -> Disk -> outcome error unit;
  legacyGet : string -> Disk -> outcome error (option (string * LegacyObject));
  legacyHead : string -> Disk -> outcome error (option LegacyObject);
  legacyPut : string -> string -> option string -> M error Disk unit;
  legacyDelete : string -> M error Disk unit;
  legacyList : string -> Disk -> outcome error (list (string * LegacyObject))
}.

Section Adapter.
Context {rt : Runtime} {Disk : Type} {sdk : FilesSdk Disk} {lk : LegacyKeys Disk}.

Definition TMP_SUFFIX : string := ".fls-tmp".

(** [path.basename]: the last name of the path. *)
Definition basename (key : string) : string := default "" (last (path_names key)).

(** The trailing dots and spaces. *)
Fixpoint drop_noise (s : string) : string :=
  match s with
  | String c s' => if bool_decide (c = "."%char) || bool_decide (c = " "%char) then drop_noise s' else s
  | EmptyString => ""
  end.

Definition isLegacyReservedKey (key : string) : bool :=
  ends_with TMP_SUFFIX (toLowerCase (string_rev (drop_noise (string_rev (basename key))))).

(** ** local-adapter.ts *)

Definition BLOB_PREFIX : string := "_afs-blobs/sha256/".

Definition blobKey (hash : string) : string := BLOB_PREFIX +:+ hash.
#[global] Arguments blobKey : simpl never.

Definition isFilesNotFound (err : FilesError) : bool := bool_decide (err.(fe_code) = "NotFound").

Definition noSuchKey (key : string) : error := ForeignError "NoSuchKey" ("NoSuchKey: " +:+ key) None false.

(** A [FilesError] as the ops see it. *)
Definition files_error (err : FilesError) : error := ForeignError "FilesError" err.(fe_message) None true.

Definition translateError (err : FilesError) (key : string) : error :=
  if isFilesNotFound err then noSuchKey key else files_error err.

(** A call of files-sdk whose error passes through [f]. *)
Definition sdk_reads {A} (f : FilesError -> error) (m : Disk -> outcome FilesError A) : M error Disk A := fun s =>
  (match m s with Ok a => Ok a | Throw e => Throw (f e) end, s).
Definition sdk_writes {A} (m : M FilesError Disk A) : M error Disk A := fun s =>
  let '(o, s') := m s in (match o with Ok a => Ok a | Throw e => Throw (files_error e) end, s').

Definition local_put (key body : string) (contentType : option string) : M error Disk PutObjectResult :=
  _ ← from_outcome (assertKeyInsideDrive key);
  let hash := sha256hex body in
  let legacy := isLegacyReservedKey key in
  _ ← (if legacy then reads (assertLegacyWritable key) else mret tt);
  let bk := blobKey hash in
  present ← sdk_reads files_error (files_exists bk);
  _ ← (if present : bool then mret tt else sdk_writes (files_upload bk body None));
  _ ← (if legacy then legacyPut key body contentType else sdk_writes (files_upload key body (truthy contentType)));
  mret {| put_etag := Some hash; put_versionId := Some hash |}.

Definition local_get (key : string) (versionId : option string) : M error Disk GetObjectResult :=
  _ ← from_outcome (assertKeyInsideDrive key);
  let target := match truthy versionId with Some v => blobKey v | None => key end in
  _ ← from_outcome (assertKeyInsideDrive target);
  if bool_decide (truthy versionId = None) && isLegacyReservedKey key then
    legacy ← reads (legacyGet key);
    match legacy with
    | None => throw (noSuchKey key)
    | Some (body, o) =>
        mret {| get_body := body; get_contentType := Some o.(lo_contentType); get_etag := o.(lo_etag) |}
    end
  else
    stored ← sdk_reads (fun e => translateError e key) (files_download target);
    mret {| get_body := stored.(stored_body); get_contentType := stored.(stored_type); get_etag := stored.(stored_etag) |}.

Definition local_delete (key : string) : M error Disk unit :=
  _ ← from_outcome (assertKeyInsideDrive key);
  if isLegacyReservedKey key then legacyDelete key
  else fun s =>
    match files_delete key s with
    | (Ok a, s') => (Ok a, s')
    | (Throw e, s') => (if isFilesNotFound e then Ok tt else Throw (files_error e), s')
    end.

Definition local_copy (fromKey toKey : string) : M error Disk PutObjectResult :=
  _ ← from_outcome (assertKeyInsideDrive fromKey);
  _ ← from_outcome (assertKeyInsideDrive toKey);
  src ← local_get fromKey None;
  local_put toKey src.(get_body) src.(get_contentType).

Definition local_head (key : string) : M error Disk HeadObjectResult :=
  _ ← from_outcome (assertKeyInsideDrive key);
  if isLegacyReservedKey key then
    legacy ← reads (legacyHead key);
    match legacy with
    | None => throw (noSuchKey key)
    | Some o => mret {| head_contentType := Some o.(lo_contentType); head_size := o.(lo_size);
                        head_lastModified := Some o.(lo_lastModified); head_etag := o.(lo_etag) |}
    end
  else
    stored ← sdk_reads (fun e => translateError e key) (files_head key);
    directory ← gets (disk_is_directory key);
    _ ← throw_if directory (noSuchKey key);
    mret {| head_contentType := stored.(hd_contentType); head_size := stored.(hd_size);
            head_lastModified := stored.(hd_lastModified); head_etag := stored.(hd_etag) |}.

(** The pages of a listing, from a cursor on: [None] when [fuel] pages do not
    reach the last one. *)
Fixpoint drain (fuel : nat) (prefix : string) (delimiter cursor : option string) (s : Disk)
    : option (outcome FilesError (list S3Object * list string)) :=
  match fuel with
  | O => None
  | S fuel' =>
      match files_list prefix (truthy delimiter) (truthy cursor) s with
      | Throw e => Some (Throw e)
      | Ok page =>
          match truthy page.(page_cursor) with
          | None => Some (Ok (page.(page_items), page.(page_prefixes) ?? []))
          | Some next =>
              match drain fuel' prefix delimiter (Some next) s with
              | Some (Ok rest) => Some (Ok (page.(page_items) ++ rest.1, (page.(page_prefixes) ?? []) ++ rest.2))
              | r => r
              end
          end
      end
  end.

(** [Set] of prefixes, in the order of their first addition. *)
Definition set_of (l : list string) : list string :=
  foldl (fun acc p => if bool_decide (p ∈ acc) then acc else acc ++ [p]) [] l.

(** [a < b] of JavaScript strings: by UTF-16 unit. *)
Fixpoint units_le (a b : list Z) : bool :=
  match a, b with
  | [], _ => true
  | _, [] => false
  | x :: a', y :: b' => if x <? y then true else if x =? y then units_le a' b' else false
  end.
Definition js_le (a b : string) : bool := units_le (to_utf16 a) (to_utf16 b).

(** A legacy object under the prefix, or the folder it is grouped into. *)
Definition group_legacy (prefix : string) (delimiter : option string) (acc : list S3Object * list string)
    (it : string * LegacyObject) : list S3Object * list string :=
  let rest := drop_str (String.length prefix) it.1 in
  match truthy delimiter ≫= fun d => (fun cut => (d, cut.1)) <$> cut_first d rest with
  | Some (d, before) => (acc.1, acc.2 ++ [prefix +:+ before +:+ d])
  | None => (acc.1 ++ [{| so_key := it.1; so_size := it.2.(lo_size);
                      so_lastModified := Some it.2.(lo_lastModified); so_etag := it.2.(lo_etag) |}], acc.2)
  end.

(** [pages]: a bound on the number of pages, which a listing of a disk has. *)
Definition listAll (pages : nat) (prefix : string) (delimiter : option string)
    : M error Disk (list S3Object * list string) :=
  listing ← (fun s => match drain pages prefix delimiter None s with
                      | Some (Ok l) => (Ok l, s)
                      | Some (Throw e) => (Throw (files_error e), s)
                      | None => (Throw (JsError "more pages than the bound"), s)
                      end);
  legacy ← reads (legacyList prefix);
  match legacy with
  | [] => mret (listing.1, set_of listing.2)
  | _ =>
      let all := foldl (group_legacy prefix delimiter) listing legacy in
      mret (sort_by (fun a b => js_le a.(so_key) b.(so_key)) all.1, sort_by js_le (set_of all.2))
  end.

Definition local_list (pages : nat) (prefix : string) (delimiter : option string) (maxKeys : option nat)
    : M error Disk (list S3Object * list string) :=
  _ ← from_outcome (assertKeyInsideDrive prefix);
  listing ← listAll pages prefix delimiter;
  match maxKeys with
  | None => mret listing
  | Some max =>
      let objects := take max listing.1 in
      mret (objects, take (max - length objects) listing.2)
  end.

Definition local_capabilities : StorageCapabilities := {| cap_versioning := true; cap_presignedUrls := false |}.

(** Native versions, presigned URLs: not on this backend. *)
Definition listObjectVersions (key : string) : M error Disk (list string) := mret [].
Definition checkVersioningEnabled : M error Disk bool := mret true.
Definition getPresignedUrl : M error Disk string := throw (UnsupportedOperation "signed-url" (Some "local") None).

Definition local_storage (pages : nat) : StorageAdapter Disk := {|
  capabilities := local_capabilities;
  putObject := local_put;
  getObject := local_get;
  deleteObject := local_delete;
  copyObject := local_copy;
  listObjects := local_list pages;
  headObject := local_head
|}.

(** ** What the adapter relies on *)

(** A write under [key] touches one path. *)
Definition one_path (view : Disk -> list string -> option string) (key : string) (s s' : Disk) : Prop :=
  forall n, n <> path_names key -> view s' n = view s n.

(** It leaves there what was there, or [b]; on success [b]. *)
Definition wrote {E} (view : Disk -> list string -> option string) (key : string) (b : option string) (s : Disk)
    (r : outcome E unit * Disk) : Prop :=
  one_path view key s r.2 /\
  (view r.2 (path_names key) = view s (path_names key) \/ view r.2 (path_names key) = b) /\
  (is_ok r.1 = true -> view r.2 (path_names key) = b).

(** A key the guard passes and files-sdk takes. *)
Definition sdk_key (k : string) : Prop :=
  assertKeyInsideDrive k = Ok tt /\ starts_with "/" k = false /\ isLegacyReservedKey k = false.

(** A key the guard passes and legacy-reserved-keys.ts serves. *)
Definition legacy_key (k : string) : Prop :=
  assertKeyInsideDrive k = Ok tt /\ starts_with "/" k = false /\ isLegacyReservedKey k = true.

(** files-sdk, over the disk's [view] of the objects. *)
Class SdkLaws (view : Disk -> list string -> option string) : Prop := {
  exists_law : forall k s b, sdk_key k -> files_exists k s = Ok b -> b = bool_decide (is_Some (view s (path_names k)));
  upload_law : forall k b ct s, sdk_key k -> wrote view k (Some b) s (files_upload k b ct s);
  download_law : forall k s r, sdk_key k -> files_download k s = Ok r -> view s (path_names k) = Some r.(stored_body);
  download_missing : forall k s e, sdk_key k -> files_download k s = Throw e -> isFilesNotFound e = true ->
    view s (path_names k) = None;
  files_delete_law : forall k s, sdk_key k -> wrote view k None s (files_delete k s);
  delete_missing : forall k s e s', sdk_key k -> files_delete k s = (Throw e, s') -> isFilesNotFound e = true ->
    view s' (path_names k) = None;
  files_head_law : forall k s r, sdk_key k -> files_head k s = Ok r -> disk_is_directory k s = false ->
    exists b, view s (path_names k) = Some b /\ r.(hd_size) = Z.of_nat (String.length b);
  head_missing : forall k s e, sdk_key k -> files_head k s = Throw e -> isFilesNotFound e = true ->
    view s (path_names k) = None;
  directory_law : forall k s, sdk_key k -> disk_is_directory k s = true -> view s (path_names k) = None;
  refused_law : forall k s r, isLegacyReservedKey k = true -> files_download k s <> Ok r
}.

(** legacy-reserved-keys.ts, on the keys it serves. *)
Class LegacyLaws (view : Disk -> list string -> option string) : Prop := {
  legacy_put_law : forall k b ct s, legacy_key k -> wrote view k (Some b) s (legacyPut k b ct s);
  legacy_delete_law : forall k s, legacy_key k -> wrote view k None s (legacyDelete k s);
  legacy_get_law : forall k s r, legacy_key k -> legacyGet k s = Ok r ->
    view s (path_names k) = fst <$> r;
  legacy_head_law : forall k s r, legacy_key k -> legacyHead k s = Ok r ->
    match r with
    | Some o => exists b, view s (path_names k) = Some b /\ o.(lo_size) = Z.of_nat (String.length b)
    | None => view s (path_names k) = None
    end;
  legacy_get_error : forall k s e, legacy_key k -> legacyGet k s = Throw e -> is_storage_not_found e = false;
  legacy_head_error : forall k s e, legacy_key k -> legacyHead k s = Throw e -> is_storage_not_found e = false
}.

(** The paths of the history blobs. *)
Definition is_blob_path (names : list string) : bool :=
  match names with a :: b :: _ => bool_decide (a = "_afs-blobs") && bool_decide (b = "sha256") | _ => false end.

Section Refinement.
Context (disk_view : Disk -> list string -> option string) {RL : RuntimeLaws rt}.
Context {KL : SdkLaws disk_view} {LL : LegacyLaws disk_view}.

(** The contract's view of the disk: a version handle is the name of a blob. *)
Definition local_view : StorageView Disk := {|
  object s k := if is_blob_path (path_names k) then None else disk_view s (path_names k);
  version_object s k v := disk_view s (path_names (blobKey v));
  object_key k := starts_with "/" k = false /\ is_blob_path (path_names k) = false;
  store_sound s := forall n b, disk_view s ["_afs-blobs"; "sha256"; n] = Some b -> sha256hex b = n
|}.
#[local] Existing Instance local_view.

Lemma blob_names h : path_names (blobKey h) = ["_afs-blobs"; "sha256"] ++ path_names h.
Proof.
  unfold blobKey, BLOB_PREFIX. change ("_afs-blobs/sha256/" +:+ h) with ("_afs-blobs" +:+ String slash ("sha256" +:+ String slash h)).
  by rewrite !path_names_slash.
Qed.

Lemma hash_names b : path_names (blobKey (sha256hex b)) = ["_afs-blobs"; "sha256"; sha256hex b].
Proof.
  rewrite blob_names. unfold path_names, is_slash. rewrite (split_on_no_sep slash) by (by apply sha256hex_lacks).
  rewrite filter_cons_True by apply sha256hex_nonempty. done.
Qed.

Lemma drop_noise_hex s : all_chars is_hex_char s = true -> drop_noise s = s.
Proof. destruct s as [|c s]; [done|]. cbn. intros [Hc _]%andb_true_iff. by repeat (case_bool_decide; [subst; discriminate|]). Qed.

Lemma lower_hex s : all_chars is_hex_char s = true -> toLowerCase s = s.
Proof.
  intros Hs. rewrite toLowerCase_ascii.
  - revert Hs. induction s as [|c s IH]; cbn; [done|]. intros [Hc Hs]%andb_true_iff. rewrite (IH Hs). f_equal.
    revert Hc. by destruct c as [[] [] [] [] [] [] [] []].
  - revert Hs. induction s as [|c s IH]; cbn; [done|]. intros [Hc Hs]%andb_true_iff. rewrite (IH Hs), andb_true_r.
    revert Hc. by destruct c as [[] [] [] [] [] [] [] []].
Qed.

(** files-sdk takes the key of a blob. *)
Lemma blob_sdk_key b : sdk_key (blobKey (sha256hex b)).
Proof.
  split; [|split; [done|]].
  - apply assertPathInsideDrive_ok. unfold blobKey. rewrite has_char_app, sha256hex_lacks by done. split; [done|].
    unfold has_dot_segment, BLOB_PREFIX.
    change ("_afs-blobs/sha256/" +:+ ?x) with ("_afs-blobs/sha256" +:+ String slash x).
    rewrite split_on_app_sep by done. rewrite existsb_app. cbn [existsb]. apply orb_false_iff. split; [done|].
    rewrite split_on_lacks.
    + cbn [existsb]. rewrite orb_false_r. apply orb_false_iff. pose proof (sha256hex_hex b) as Hx.
      by split; apply bool_decide_eq_false; intros E; rewrite E in Hx.
    + intros c Hc. pose proof (sha256hex_lacks slash b eq_refl). pose proof (sha256hex_lacks (chr 92) b eq_refl).
      unfold is_separator.
      apply orb_false_iff. split; apply bool_decide_eq_false; intros ->; congruence.
  - unfold isLegacyReservedKey, basename. rewrite hash_names. cbn [last default from_option id].
    pose proof (sha256hex_hex b) as Hx. rewrite drop_noise_hex by (by rewrite all_chars_rev).
    rewrite string_rev_rev, lower_hex by done. apply not_true_iff_false. intros [r Hr]%ends_with_spec.
    rewrite Hr, all_chars_app in Hx. cbn in Hx. by rewrite andb_false_r in Hx.
Qed.

Lemma storage_frame_trans k (a b c : Disk) : storage_frame k a b -> storage_frame k b c -> storage_frame k a c.
Proof.
  intros (Ho1 & Hv1 & Hs1) (Ho2 & Hv2 & Hs2). split; [|split; auto].
  intros k' Hk. by rewrite (Ho2 k' Hk), (Ho1 k' Hk).
Qed.

(** Writing an object's own path. *)
Lemma own_path_frame k (s s' : Disk) : object_key k -> one_path disk_view k s s' -> storage_frame k s s'.
Proof.
  cbn. intros [_ Hk] Hone. assert (Hblob : forall n, is_blob_path n = true -> disk_view s' n = disk_view s n).
  { intros n Hn. apply Hone. congruence. }
  split; [|split]; cbn.
  - intros k' Hne. destruct (is_blob_path (path_names k')); [done|]. by apply Hone.
  - intros k' v b. by rewrite Hblob by (by rewrite blob_names).
  - intros Hs n b. rewrite Hblob by done. apply Hs.
Qed.

(** The object of a key that is not a blob's, under the view. *)
Lemma object_view k (s : Disk) : object_key k -> object s k = disk_view s (path_names k).
Proof. cbn. by intros [_ ->]. Qed.

(** The history of a digest is in place. *)
Definition has_blob (s : Disk) (b : string) : Prop :=
  exists b', disk_view s (path_names (blobKey (sha256hex b))) = Some b' /\ (store_sound s -> sha256hex b' = sha256hex b).

(** The blob step of a put touches no object and no history; when it passes,
    the history of the body is in place. *)
Definition put_blob (body : string) : M error Disk unit :=
  present ← sdk_reads files_error (files_exists (blobKey (sha256hex body)));
  if present : bool then mret tt else sdk_writes (files_upload (blobKey (sha256hex body)) body None).

Lemma blob_step body k s o s' :
  put_blob body s = (o, s') -> storage_frame k s s' /\ (o = Ok tt -> has_blob s' body).
Proof.
  intros H. pose proof (blob_sdk_key body) as Hk. unfold put_blob in H. apply bind_inv in H as [(present & s1 & Hp & H)|(e & Hp & ->)].
  2: { unfold sdk_reads in Hp. injection Hp as _ <-. split; [apply storage_frame_refl|discriminate]. }
  unfold sdk_reads in Hp. injection Hp as Hp <-. destruct (files_exists _ s) as [p|e] eqn:Ex; [|discriminate].
  injection Hp as ->. pose proof (exists_law _ _ _ Hk Ex) as Hpres. destruct present.
  - injection H as <- <-. split; [apply storage_frame_refl|]. intros _. symmetry in Hpres.
    apply bool_decide_eq_true in Hpres as [b' Hb']. exists b'. split; [done|]. rewrite hash_names in Hb'. intros Hs. by apply Hs.
  - symmetry in Hpres. apply bool_decide_eq_false, eq_None_not_Some in Hpres.
    unfold sdk_writes in H. pose proof (upload_law _ body None s Hk) as Hw.
    destruct (files_upload _ _ _ s) as [ou su]. injection H as <- <-. destruct Hw as (Hone & Heither & Hok).
    cbn [fst snd] in *. split.
    + split; [|split].
      * cbn. intros k' _. destruct (is_blob_path (path_names k')) eqn:Eb; [done|]. apply Hone. intros Heq.
        by rewrite Heq, blob_names in Eb.
      * cbn. intros k' v b Hb. rewrite Hone; [done|]. intros Heq. rewrite Heq in Hb. congruence.
      * cbn. intros Hs n b Hb. destruct (decide (n = sha256hex body)) as [->|Hn].
        -- rewrite <- hash_names in Hb. destruct Heither as [E|E]; congruence.
        -- apply Hs. rewrite <- Hone; [done|]. rewrite hash_names. congruence.
    + intros Ho. exists body. split; [|done]. apply Hok. by destruct ou.
Qed.

(** The last step of a put: files-sdk's upload, or the legacy one. *)
Definition put_own (key body : string) (ct : option string) : M error Disk unit :=
  if isLegacyReservedKey key then legacyPut key body ct else sdk_writes (files_upload key body (truthy ct)).

Lemma own_step key body ct s o s' :
  assertKeyInsideDrive key = Ok tt -> starts_with "/" key = false -> put_own key body ct s = (o, s') ->
  one_path disk_view key s s' /\ (o = Ok tt -> disk_view s' (path_names key) = Some body).
Proof.
  intros Hg Hrel H. unfold put_own in H. destruct (isLegacyReservedKey key) eqn:El.
  - destruct (legacy_put_law key body ct s) as (Hone & _ & Hok); [done|]. rewrite H in Hone, Hok. cbn in *.
    split; [done|]. intros ->. by apply Hok.
  - unfold sdk_writes in H. destruct (upload_law key body (truthy ct) s) as (Hone & _ & Hok); [done|].
    destruct (files_upload _ _ _ s) as [ou su]. injection H as <- <-. cbn in *. split; [done|].
    intros Ho. apply Hok. by destruct ou.
Qed.

Lemma local_put_steps key body ct s :
  local_put key body ct s =
  (_ ← from_outcome (assertKeyInsideDrive key);
   _ ← (if isLegacyReservedKey key then reads (assertLegacyWritable key) else mret tt);
   _ ← put_blob body;
   _ ← put_own key body ct;
   mret {| put_etag := Some (sha256hex body); put_versionId := Some (sha256hex body) |}) s.
Proof.
  unfold local_put, put_blob, put_own, mbind, M_bind. destruct (from_outcome (assertKeyInsideDrive key) s) as [[] ?]; [|done].
  destruct (if isLegacyReservedKey key then _ else _) as [[] ?]; [|done].
  by destruct (sdk_reads files_error (files_exists (blobKey (sha256hex body))) _) as [[[]|] ?].
Qed.

Lemma put_refines k b ct s o s' : object_key k -> local_put k b ct s = (o, s') ->
  storage_frame k s s' /\
  forall r, o = Ok r -> object s' k = Some b /\ (store_sound s -> handle_retrieves s' k b r).
Proof.
  intros Hk H. rewrite local_put_steps in H.
  apply bind_inv in H as [([] & s1 & Hg & H)|(e & Hg & ->)].
  2: { unfold from_outcome in Hg. injection Hg as _ <-. split; [apply storage_frame_refl|discriminate]. }
  apply from_outcome_ok in Hg as [Hg ->].
  apply bind_inv in H as [([] & s1 & Hw & H)|(e & Hw & ->)].
  2: { destruct (isLegacyReservedKey k); injection Hw as _ <-; (split; [apply storage_frame_refl|discriminate]). }
  assert (s1 = s) as -> by (destruct (isLegacyReservedKey k); by injection Hw). clear Hw.
  apply bind_inv in H as [([] & s1 & Hb & H)|(e & Hb & ->)]; apply (blob_step b k) in Hb as [Hf Hblob].
  2: { split; [done|discriminate]. }
  specialize (Hblob eq_refl).
  apply bind_inv in H as [([] & s2 & Ho & H)|(e & Ho & ->)]; destruct (own_step _ _ _ _ _ _ Hg (proj1 Hk) Ho) as [Hone Hown].
  - injection H as <- <-. split; [by eapply storage_frame_trans, own_path_frame|].
    intros r [= <-]. split; [rewrite object_view by done; auto|]. intros Hs v [= <-] _.
    destruct Hblob as (b' & Hb' & Hd). exists b'. split; [|by apply Hd, Hf].
    cbn. rewrite Hone; [done|]. intros Heq. destruct Hk as [_ Hk]. by rewrite <- Heq, blob_names in Hk.
  - split; [by eapply storage_frame_trans, own_path_frame|discriminate].
Qed.

Lemma get_silent k v : silent (local_get k v).
Proof.
  intros s. unfold local_get, sdk_reads, reads, from_outcome, mbind, M_bind.
  destruct (assertKeyInsideDrive k); [|done]. destruct (assertKeyInsideDrive _); [|done].
  destruct (_ && _); [destruct (legacyGet k s) as [[[]|]|]|destruct (files_download _ s)]; done.
Qed.

Lemma head_silent k : silent (local_head k).
Proof.
  intros s. unfold local_head, sdk_reads, reads, from_outcome, gets, throw_if, mbind, M_bind.
  destruct (assertKeyInsideDrive k); [|done]. destruct (isLegacyReservedKey k).
  - by destruct (legacyHead k s) as [[]|].
  - destruct (files_head k s); [|done]. by destruct (disk_is_directory k s).
Qed.

Lemma get_refines k s o s' : starts_with "/" k = false -> local_get k None s = (o, s') ->
  s' = s /\ (forall r, o = Ok r -> disk_view s (path_names k) = Some r.(get_body)) /\
  (forall e, o = Throw e -> is_no_such_key e = true -> disk_view s (path_names k) = None).
Proof.
  intros Hrel H. unfold local_get in H. cbn [truthy] in H.
  apply bind_inv in H as [([] & s1 & Hg & H)|(e & Hg & ->)].
  2: { unfold from_outcome in Hg. injection Hg as Hg <-. split; [done|]. split; [discriminate|]. intros e' [= <-] He.
       unfold assertKeyInsideDrive in Hg. destruct (has_char nul k), (has_dot_segment k); by simplify_eq. }
  apply from_outcome_ok in Hg as [Hg ->].
  apply bind_inv in H as [([] & s1 & Hg' & H)|(e & Hg' & ->)]; [|unfold from_outcome in Hg'; congruence].
  apply from_outcome_ok in Hg' as [_ ->].
  rewrite bool_decide_true in H by done. cbn [andb] in H. destruct (isLegacyReservedKey k) eqn:El.
  - unfold reads, mbind, M_bind in H. destruct (legacyGet k s) as [r|e] eqn:Er.
    + pose proof (legacy_get_law k s r (conj Hg (conj Hrel El)) Er) as Hr. destruct r as [[body lo]|].
      * injection H as <- <-. split; [done|]. split; [|discriminate]. by intros r [= <-].
      * injection H as <- <-. split; [done|]. split; [discriminate|]. done.
    + injection H as <- <-. split; [done|]. split; [discriminate|]. intros e' [= <-] He.
      pose proof (legacy_get_error k s e (conj Hg (conj Hrel El)) Er) as Hn. exfalso. destruct e; try discriminate. cbn in Hn, He.
      rewrite He in Hn. by rewrite orb_true_r in Hn.
  - unfold sdk_reads, mbind, M_bind in H. destruct (files_download k s) as [r|e] eqn:Er.
    + injection H as <- <-. split; [done|]. split; [|discriminate]. intros r' [= <-]. by apply (download_law k s r).
    + injection H as <- <-. split; [done|]. split; [discriminate|]. intros e' [= <-] He.
      apply (download_missing k s e); [done|done|]. unfold translateError in He. by destruct (isFilesNotFound e).
Qed.

Lemma get_version_refines k v s o s' : v <> "" -> local_get k (Some v) s = (o, s') ->
  s' = s /\ forall r b, o = Ok r -> disk_view s (path_names (blobKey v)) = Some b -> r.(get_body) = b.
Proof.
  intros Hv H. assert (Ht : truthy (Some v) = Some v) by (by destruct v). unfold local_get in H. rewrite !Ht in H.
  apply bind_inv in H as [([] & s1 & Hg & H)|(e & Hg & ->)]; [|injection Hg as _ <-; by split].
  apply from_outcome_ok in Hg as [_ ->].
  apply bind_inv in H as [([] & s1 & Hg & H)|(e & Hg & ->)]; [|injection Hg as _ <-; by split].
  apply from_outcome_ok in Hg as [Hg ->]. rewrite bool_decide_false in H by done. cbn [andb] in H.
  unfold sdk_reads, mbind, M_bind in H. destruct (files_download (blobKey v) s) as [r|e] eqn:Er; injection H as <- <-; [|by split].
  split; [done|]. intros r' b [= <-] Hb. cbn.
  destruct (isLegacyReservedKey (blobKey v)) eqn:El; [by destruct (refused_law (blobKey v) s r El)|].
  pose proof (download_law (blobKey v) s r (conj Hg (conj eq_refl El)) Er). congruence.
Qed.

Lemma delete_refines k s o s' : object_key k -> local_delete k s = (o, s') ->
  storage_frame k s s' /\ forall r, o = Ok r -> object s' k = None.
Proof.
  intros Hk H. pose proof (proj1 Hk) as Hrel. unfold local_delete in H.
  apply bind_inv in H as [([] & s1 & Hg & H)|(e & Hg & ->)].
  2: { injection Hg as _ <-. split; [apply storage_frame_refl|discriminate]. }
  apply from_outcome_ok in Hg as [Hg ->]. setoid_rewrite (object_view k s' Hk). destruct (isLegacyReservedKey k) eqn:El.
  - destruct (legacy_delete_law k s (conj Hg (conj Hrel El))) as (Hone & _ & Hok). rewrite H in Hone, Hok. cbn in Hone, Hok.
    split; [by apply own_path_frame|]. intros r ->. by apply Hok.
  - destruct (files_delete_law k s (conj Hg (conj Hrel El))) as (Hone & _ & Hok).
    destruct (files_delete k s) as [[a|e] s1] eqn:Ed; injection H as <- <-; cbn in Hone, Hok.
    + split; [by apply own_path_frame|]. intros r _. by apply Hok.
    + split; [by apply own_path_frame|]. intros r Hr. destruct (isFilesNotFound e) eqn:En; [|discriminate].
      by apply (delete_missing k s e s1).
Qed.

Lemma copy_refines k k' s o s' : object_key k -> object_key k' -> local_copy k k' s = (o, s') ->
  storage_frame k' s s' /\
  forall r, o = Ok r -> exists b, object s k = Some b /\ object s' k' = Some b /\
    (store_sound s -> handle_retrieves s' k' b r).
Proof.
  intros Hk Hk' H. unfold local_copy in H.
  apply bind_inv in H as [([] & s1 & Hg & H)|(e & Hg & ->)].
  2: { injection Hg as _ <-. split; [apply storage_frame_refl|discriminate]. }
  apply from_outcome_ok in Hg as [_ ->].
  apply bind_inv in H as [([] & s1 & Hg & H)|(e & Hg & ->)].
  2: { injection Hg as _ <-. split; [apply storage_frame_refl|discriminate]. }
  apply from_outcome_ok in Hg as [_ ->].
  apply bind_inv in H as [(src & s1 & Hg & H)|(e & Hg & ->)]; apply get_refines in Hg as (-> & Hget & _); try apply Hk.
  2: { split; [apply storage_frame_refl|discriminate]. }
  apply put_refines in H as [Hf Hr]; [|done]. split; [done|]. intros r Ho. destruct (Hr r Ho) as [Hobj Hh].
  exists src.(get_body). split; [|by split]. rewrite object_view by done. by apply Hget.
Qed.

Lemma head_refines k s o s' : starts_with "/" k = false -> local_head k s = (o, s') ->
  s' = s /\ (forall r, o = Ok r ->
     exists b, disk_view s (path_names k) = Some b /\ r.(head_size) = Z.of_nat (String.length b)) /\
  (forall e, o = Throw e -> is_storage_not_found e = true -> disk_view s (path_names k) = None).
Proof.
  intros Hrel H. unfold local_head in H.
  apply bind_inv in H as [([] & s1 & Hg & H)|(e & Hg & ->)].
  2: { injection Hg as Hg <-. split; [done|]. split; [discriminate|]. intros e' [= <-] He.
       unfold assertKeyInsideDrive in Hg. destruct (has_char nul k), (has_dot_segment k); by simplify_eq. }
  apply from_outcome_ok in Hg as [Hg ->]. destruct (isLegacyReservedKey k) eqn:El.
  - unfold reads, mbind, M_bind in H. destruct (legacyHead k s) as [r|e] eqn:Er.
    + pose proof (legacy_head_law k s r (conj Hg (conj Hrel El)) Er) as Hr. destruct r as [lo|]; injection H as <- <-.
      * split; [done|]. split; [|discriminate]. by intros r [= <-].
      * split; [done|]. split; [discriminate|done].
    + injection H as <- <-. split; [done|]. split; [discriminate|]. intros e' [= <-] He.
      pose proof (legacy_head_error k s e (conj Hg (conj Hrel El)) Er). congruence.
  - unfold sdk_reads, gets, throw_if, mbind, M_bind in H. destruct (files_head k s) as [r|e] eqn:Er.
    + destruct (disk_is_directory k s) eqn:Ed; injection H as <- <-.
      * split; [done|]. split; [discriminate|]. intros _ _ _. by apply directory_law.
      * split; [done|]. split; [|discriminate]. intros r' [= <-]. by apply (files_head_law k s r).
    + injection H as <- <-. split; [done|]. split; [discriminate|]. intros e' [= <-] He.
      apply (head_missing k s e); [done|done|]. unfold translateError in He. by destruct (isFilesNotFound e).
Qed.

Lemma list_refines pages p d n s o s' : local_list pages p d n s = (o, s') -> s' = s.
Proof.
  intros H. unfold local_list, listAll, reads, mbind, M_bind, from_outcome in H.
  destruct (assertKeyInsideDrive p); [|congruence].
  destruct (drain pages p d None s) as [[l|]|]; [|congruence..].
  destruct (legacyList p s) as [[|]|]; [destruct n; unfold mret, M_ret in H; congruence..|congruence].
Qed.

(** The keys of a drive: relative, and never a blob's. *)
Lemma drive_keys orgId driveId path :
  plain_segment orgId -> object_key (getS3Key orgId driveId path).
Proof.
  intros (Hne & _ & _ & Ho). unfold getS3Key. change ("/drives/" +:+ ?x) with (String slash ("drives" +:+ String slash x)).
  split.
  { apply not_true_iff_false. intros [r Hr]%starts_with_spec. destruct orgId as [|c o]; [done|].
    injection Hr as Hc _. cbn in Ho. by rewrite Hc, bool_decide_true in Ho. }
  rewrite !path_names_slash. unfold path_names at 1, is_slash. rewrite (split_on_no_sep slash) by done.
  change (path_names "drives") with ["drives"]. rewrite filter_cons_True by done. cbn. apply andb_false_r.
Qed.
(** The adapter keeps the contract of the ops. *)
Lemma local_refines pages : StorageLaws Disk (SA := local_storage pages) (SV := local_view).
Proof.
  split.
  - intros. by apply drive_keys.
  - exact put_refines.
  - intros k s o s' H. split; [pose proof (get_silent k None s) as Hs; cbn in H; by rewrite H in Hs|].
    split; intros Hk; rewrite object_view by done; apply get_refines in H as (-> & Hr & He); (done || apply Hk).
  - exact get_version_refines.
  - exact delete_refines.
  - exact copy_refines.
  - intros k s o s' H. split; [pose proof (head_silent k s) as Hs; cbn in H; by rewrite H in Hs|].
    split; intros Hk; rewrite object_view by done; apply head_refines in H as (-> & Hr & He); (done || apply Hk).
  - exact (list_refines pages).
Qed.
End Refinement.
End Adapter.
