(* ===== verification/NodeFs.v ===== *)
(** * The file system, as node:fs shows it

    What storage/legacy-reserved-keys.ts uses of [node:fs/promises] and
    [node:path]: a disk maps absolute paths, as lists of names, to files, folders
    and symbolic links; [realpath] follows links the way the kernel does, with its
    bound of 40; [mkdir] recursive, [rename] onto a path and [rm] act where the
    links lead.  A disk without links, in which every entry is in a folder, is
    [plain_disk]. *)

From S2P Require Import Prelude JsString Errors Paths.

Inductive entry : Type :=
| FileEntry (body : string) (mtimeMs : Z)
| DirEntry
| LinkEntry (absolute : bool) (target : list string).

#[export] Instance entry_eq_dec : EqDecision entry.
Proof. solve_decision. Defined.

Notation FsDisk := (gmap (list string) entry).

Inductive fs_code : Type := ENOENT | ENOTDIR | ELOOP | EISDIR.

#[export] Instance fs_code_eq_dec : EqDecision fs_code.
Proof. solve_decision. Defined.

Definition code_name (c : fs_code) : string :=
  match c with ENOENT => "ENOENT" | ENOTDIR => "ENOTDIR" | ELOOP => "ELOOP" | EISDIR => "EISDIR" end.

(** A system error as it leaves the module. *)
Definition fs_error (c : fs_code) : error := ForeignError "Error" (code_name c) None true.

(** The entry at a real path; [/] is a folder. *)
Definition entry_at (d : FsDisk) (p : list string) : option entry :=
  match p with [] => Some DirEntry | _ => d !! p end.

(** [path.dirname], [path.basename] of an absolute path. *)
Definition dirname (p : list string) : list string := removelast p.
Definition last_name (p : list string) : string := default "" (last p).

(** The path with a suffix on its last name. *)
Definition with_suffix (p : list string) (suffix : string) : list string :=
  dirname p ++ [last_name p +:+ suffix].

(** [path.resolve]: names from a place. *)
Definition resolve_names (from names : list string) : list string :=
  foldl (fun at_ n => if bool_decide (n = "") || bool_decide (n = ".") then at_
                      else if bool_decide (n = "..") then removelast at_ else at_ ++ [n]) from names.

Definition resolve_key (root : list string) (key : string) : list string :=
  resolve_names (if starts_with "/" key then [] else root) (split_on is_slash key).

(** Following a path from the real folder [cur]: each link crossed costs one of
    [links]. *)
Fixpoint follow (links : nat) (d : FsDisk) (cur todo : list string) {struct links} : outcome fs_code (list string) :=
  (fix go (cur todo : list string) {struct todo} : outcome fs_code (list string) :=
     match todo with
     | [] => Ok cur
     | n :: rest =>
         if bool_decide (n = ".") then go cur rest
         else if bool_decide (n = "..") then go (removelast cur) rest
         else
           match entry_at d (cur ++ [n]) with
           | None => Throw ENOENT
           | Some DirEntry => go (cur ++ [n]) rest
           | Some (FileEntry _ _) => match rest with [] => Ok (cur ++ [n]) | _ => Throw ENOTDIR end
           | Some (LinkEntry absolute target) =>
               match links with
               | O => Throw ELOOP
               | S links' => follow links' d (if absolute then [] else cur) (target ++ rest)
               end
           end
     end) cur todo.

Definition realpath (d : FsDisk) (p : list string) : outcome fs_code (list string) := follow 40 d [] p.

(** [fs_stat]: the entry a path leads to. *)
Definition fs_stat (d : FsDisk) (p : list string) : outcome fs_code entry :=
  match realpath d p with
  | Throw c => Throw c
  | Ok real => match entry_at d real with Some e => Ok e | None => Throw ENOENT end
  end.

Definition readFile (d : FsDisk) (p : list string) : outcome fs_code string :=
  match fs_stat d p with
  | Ok (FileEntry body _) => Ok body
  | Ok _ => Throw EISDIR
  | Throw c => Throw c
  end.

(** Where the path's last name lives: its folder followed, the name not. *)
Definition fs_place (d : FsDisk) (p : list string) : outcome fs_code (list string) :=
  match realpath d (dirname p) with
  | Throw c => Throw c
  | Ok real =>
      match entry_at d real with
      | Some DirEntry => Ok (real ++ [last_name p])
      | _ => Throw ENOTDIR
      end
  end.

(** [lstat]. *)
Definition lstat (d : FsDisk) (p : list string) : outcome fs_code entry :=
  match fs_place d p with
  | Throw c => Throw c
  | Ok at_ => match entry_at d at_ with Some e => Ok e | None => Throw ENOENT end
  end.

(** [mkdir(p, { recursive: true })] from the real folder [cur]. *)
Fixpoint mkdirs (cur todo : list string) (d : FsDisk) : outcome fs_code (list string) * FsDisk :=
  match todo with
  | [] => (Ok cur, d)
  | n :: rest =>
      match entry_at d (cur ++ [n]) with
      | None => mkdirs (cur ++ [n]) rest (<[cur ++ [n] := DirEntry]> d)
      | Some DirEntry => mkdirs (cur ++ [n]) rest d
      | Some (FileEntry _ _) => (Throw ENOTDIR, d)
      | Some (LinkEntry _ _) =>
          match realpath d (cur ++ [n]) with
          | Throw c => (Throw c, d)
          | Ok real =>
              match entry_at d real with
              | Some DirEntry => mkdirs real rest d
              | _ => (Throw ENOTDIR, d)
              end
          end
      end
  end.

Definition mkdir_recursive (p : list string) : M fs_code FsDisk (list string) := mkdirs [] p.

(** A file staged under a fresh name and renamed onto [p]: it replaces a file or
    a link, not a folder. *)
Definition rename_onto (p : list string) (body : string) (now : Z) : M fs_code FsDisk unit := fun d =>
  match fs_place d p with
  | Throw c => (Throw c, d)
  | Ok at_ =>
      match entry_at d at_ with
      | Some DirEntry => (Throw EISDIR, d)
      | _ => (Ok tt, <[at_ := FileEntry body now]> d)
      end
  end.

(** [rm(p, { force: true })]: a missing path is no error, a folder is one. *)
Definition rm_force (p : list string) : M fs_code FsDisk unit := fun d =>
  match fs_place d p with
  | Throw ENOENT => (Ok tt, d)
  | Throw c => (Throw c, d)
  | Ok at_ =>
      match entry_at d at_ with
      | None => (Ok tt, d)
      | Some DirEntry => (Throw EISDIR, d)
      | Some _ => (Ok tt, delete at_ d)
      end
  end.

(** ** Following a path *)

Lemma follow_nil links d cur : follow links d cur [] = Ok cur.
Proof. by destruct links. Qed.

Lemma follow_cons links d cur n rest :
  follow links d cur (n :: rest) =
  if bool_decide (n = ".") then follow links d cur rest
  else if bool_decide (n = "..") then follow links d (removelast cur) rest
  else match entry_at d (cur ++ [n]) with
       | None => Throw ENOENT
       | Some DirEntry => follow links d (cur ++ [n]) rest
       | Some (FileEntry _ _) => match rest with [] => Ok (cur ++ [n]) | _ => Throw ENOTDIR end
       | Some (LinkEntry absolute target) =>
           match links with
           | O => Throw ELOOP
           | S links' => follow links' d (if absolute then [] else cur) (target ++ rest)
           end
       end.
Proof. by destruct links. Qed.

(** ** Disks without links *)

Definition dotless (p : list string) : Prop := Forall (fun n => n <> "." /\ n <> "..") p.

Record plain_disk (d : FsDisk) : Prop := {
  plain_links : forall p a t, d !! p <> Some (LinkEntry a t);
  plain_parents : forall p n e, d !! (p ++ [n]) = Some e -> entry_at d p = Some DirEntry
}.

Lemma entry_snoc d p n : entry_at d (p ++ [n]) = d !! (p ++ [n]).
Proof. by destruct p. Qed.

Lemma entry_not_link d p a t : plain_disk d -> entry_at d p <> Some (LinkEntry a t).
Proof. intros Hd. destruct p; [done|]. by apply Hd. Qed.

(** An entry below a path makes it a folder. *)
Lemma plain_prefix d p q e : plain_disk d -> q <> [] -> entry_at d (p ++ q) = Some e -> entry_at d p = Some DirEntry.
Proof.
  intros Hd. revert e. induction q as [|n q IH] using rev_ind; intros e Hq He; [done|].
  rewrite app_assoc, entry_snoc in He. apply (plain_parents d Hd) in He.
  destruct (decide (q = [])) as [->|Hne]; [by rewrite app_nil_r in He|]. by apply (IH DirEntry).
Qed.

(** There a path leads to itself, or to nothing. *)
Lemma follow_plain links d cur todo : plain_disk d -> dotless todo -> entry_at d cur = Some DirEntry ->
  match follow links d cur todo with
  | Ok p => p = cur ++ todo /\ is_Some (entry_at d p)
  | Throw c => (c = ENOENT \/ c = ENOTDIR) /\ entry_at d (cur ++ todo) = None
  end.
Proof.
  intros Hd. revert cur. induction todo as [|n rest IH]; intros cur Hdot Hcur.
  { rewrite follow_nil, app_nil_r. eauto. }
  apply Forall_cons in Hdot as [[H1 H2] Hdot]. rewrite follow_cons, !bool_decide_false by done.
  destruct (entry_at d (cur ++ [n])) as [[body m| |a t]|] eqn:E.
  - destruct rest as [|n' rest]; [by rewrite E; eauto|]. split; [by right|].
    rewrite cons_middle, app_assoc. destruct (entry_at d ((cur ++ [n]) ++ n' :: rest)) eqn:E2; [|done].
    apply plain_prefix in E2; [congruence|done..].
  - specialize (IH (cur ++ [n]) Hdot E). by rewrite <- app_assoc in IH.
  - by apply entry_not_link in E.
  - split; [by left|]. destruct (entry_at d (cur ++ n :: rest)) eqn:E2; [|done].
    rewrite cons_middle, app_assoc in E2. destruct (decide (rest = [])) as [->|Hne]; [by rewrite app_nil_r, E in E2|].
    apply plain_prefix in E2; [congruence|done..].
Qed.

Lemma realpath_plain d p : plain_disk d -> dotless p ->
  match realpath d p with
  | Ok q => q = p /\ is_Some (entry_at d p)
  | Throw c => (c = ENOENT \/ c = ENOTDIR) /\ entry_at d p = None
  end.
Proof. intros Hd Hp. pose proof (follow_plain 40 d [] p Hd Hp eq_refl) as H. unfold realpath. destruct (follow _ _ _ _); [destruct H as [-> ?]; eauto|done]. Qed.

Lemma place_plain d q n : plain_disk d -> dotless q ->
  match fs_place d (q ++ [n]) with
  | Ok at_ => at_ = q ++ [n] /\ entry_at d q = Some DirEntry
  | Throw c => (c = ENOENT \/ c = ENOTDIR) /\ entry_at d (q ++ [n]) = None
  end.
Proof.
  intros Hd Hq. unfold fs_place, dirname, last_name. rewrite removelast_last, last_snoc. cbn [default from_option id].
  pose proof (realpath_plain d q Hd Hq) as H. assert (Hnone : entry_at d q <> Some DirEntry -> entry_at d (q ++ [n]) = None).
  { intros Hne. destruct (entry_at d (q ++ [n])) eqn:E; [|done]. by apply plain_prefix in E. }
  destruct (realpath d q) as [r|c].
  - destruct H as [-> [e He]]. rewrite He in Hnone |- *. destruct e; [|done|]; (split; [by right|by apply Hnone]).
  - destruct H as [Hc Hn]. split; [done|]. apply Hnone. congruence.
Qed.

Lemma plain_insert d q n e : plain_disk d -> entry_at d q = Some DirEntry -> (forall a t, e <> LinkEntry a t) ->
  (e <> DirEntry -> entry_at d (q ++ [n]) <> Some DirEntry) -> plain_disk (<[q ++ [n] := e]> d).
Proof.
  intros [Hl Hp] Hq He Hdir. split.
  - intros p a t. destruct (decide (p = q ++ [n])) as [->|Hne]; [rewrite lookup_insert_eq; intros [= ->]; by apply (He a t)|].
    rewrite lookup_insert_ne by done. apply Hl.
  - intros p m e' He'.
    assert (Hpar : entry_at d p = Some DirEntry).
    { destruct (decide (p ++ [m] = q ++ [n])) as [Heq|Hne].
      - by apply app_inj_tail in Heq as [-> ->].
      - rewrite lookup_insert_ne in He' by done. by eapply Hp. }
    destruct p as [|x p]; [done|]. cbn in Hpar |- *. destruct (decide (x :: p = q ++ [n])) as [Heq|Hne].
    + rewrite Heq in Hpar |- *. rewrite lookup_insert_eq. f_equal.
      destruct (decide (e = DirEntry)) as [|Hd]; [done|]. exfalso. apply (Hdir Hd). by rewrite entry_snoc.
    + by rewrite lookup_insert_ne by done.
Qed.

(** What is a file at a path. *)
Definition file_at (d : FsDisk) (p : list string) : option string :=
  match entry_at d p with Some (FileEntry body _) => Some body | _ => None end.

Lemma entry_insert d p e q : p <> [] -> entry_at (<[p := e]> d) q = if decide (q = p) then Some e else entry_at d q.
Proof.
  intros Hp. case_decide as Hq.
  - subst. destruct p; [done|]. cbn. apply lookup_insert_eq.
  - destruct q; [done|]. cbn. by rewrite lookup_insert_ne.
Qed.

(** [mkdir] makes folders only, where there was nothing. *)
Lemma mkdirs_plain cur todo d : plain_disk d -> entry_at d cur = Some DirEntry ->
  let d' := (mkdirs cur todo d).2 in
  plain_disk d' /\ (forall p, entry_at d' p = entry_at d p \/ (entry_at d p = None /\ entry_at d' p = Some DirEntry)).
Proof.
  revert cur d. induction todo as [|n rest IH]; intros cur d Hd Hcur; cbn; [eauto|].
  destruct (entry_at d (cur ++ [n])) as [[| |]|] eqn:E; [by eauto|by apply IH|by apply entry_not_link in E|].
  destruct (IH (cur ++ [n]) (<[cur ++ [n] := DirEntry]> d)) as [Hd' Hp].
  - by apply plain_insert.
  - rewrite entry_snoc. apply lookup_insert_eq.
  - split; [done|]. intros p. specialize (Hp p). rewrite entry_insert in Hp by (by destruct cur).
    case_decide as Hpe; [|done]. rewrite Hpe, E. right. split; [done|]. subst. by destruct Hp as [->|[[=] _]].
Qed.

Lemma mkdirs_files cur todo d p : plain_disk d -> entry_at d cur = Some DirEntry ->
  file_at (mkdirs cur todo d).2 p = file_at d p.
Proof.
  intros Hd Hcur. destruct (mkdirs_plain cur todo d Hd Hcur) as [_ Hp]. unfold file_at.
  destruct (Hp p) as [->|[-> ->]]; done.
Qed.

Lemma rename_plain q n body now d o d' : plain_disk d -> dotless q -> rename_onto (q ++ [n]) body now d = (o, d') ->
  plain_disk d' /\ (forall p, p <> q ++ [n] -> file_at d' p = file_at d p) /\
  match o with Ok _ => file_at d' (q ++ [n]) = Some body | Throw _ => d' = d end.
Proof.
  intros Hd Hq H. unfold rename_onto in H. pose proof (place_plain d q n Hd Hq) as Hplace.
  destruct (fs_place d (q ++ [n])) as [at_|c]; [|injection H as <- <-; eauto]. destruct Hplace as [-> Hdir].
  assert (Hins : entry_at d (q ++ [n]) <> Some DirEntry -> plain_disk (<[q ++ [n] := FileEntry body now]> d)).
  { intros He. by apply plain_insert. }
  assert (Hfile : forall p, file_at (<[q ++ [n] := FileEntry body now]> d) p = if decide (p = q ++ [n]) then Some body else file_at d p).
  { intros p. unfold file_at. rewrite entry_insert by (by destruct q). by case_decide. }
  destruct (entry_at d (q ++ [n])) as [[| |]|]; injection H as <- <-; [|by eauto|..];
    (split; [by apply Hins|split; [intros p Hp; by rewrite Hfile, decide_False|by rewrite Hfile, decide_True]]).
Qed.

Lemma rm_plain q n d o d' : plain_disk d -> dotless q -> rm_force (q ++ [n]) d = (o, d') ->
  plain_disk d' /\ (forall p, p <> q ++ [n] -> file_at d' p = file_at d p) /\
  match o with Ok _ => file_at d' (q ++ [n]) = None | Throw _ => d' = d end.
Proof.
  intros Hd Hq H. unfold rm_force in H. pose proof (place_plain d q n Hd Hq) as Hplace.
  destruct (fs_place d (q ++ [n])) as [at_|c].
  2: { destruct Hplace as [[-> | ->] Hn]; injection H as <- <-; split_and!; try done. unfold file_at. by rewrite Hn. }
  destruct Hplace as [-> Hdir]. destruct (entry_at d (q ++ [n])) as [[b m| |a t]|] eqn:E; [|by simplify_eq|by apply entry_not_link in E|].
  2: { injection H as <- <-. split_and!; try done. unfold file_at. by rewrite E. }
  injection H as <- <-. rewrite entry_snoc in E. split; [split|split].
  - intros p a t. rewrite lookup_delete_Some. intros [_ Hp]. by apply (plain_links d Hd) in Hp.
  - intros p k e. rewrite lookup_delete_Some. intros [Hne Hp]. apply (plain_parents d Hd) in Hp.
    destruct p; [done|]. cbn in Hp |- *. rewrite lookup_delete_ne; [done|]. intros Heq. congruence.
  - intros p Hp. unfold file_at. destruct p; [done|]. cbn. by rewrite lookup_delete_ne.
  - unfold file_at. rewrite entry_snoc. by rewrite lookup_delete_eq.
Qed.

(** ** Real paths *)

(** Every fs_place above [p] is a folder, and no name is a dot. *)
Definition under_folders (d : FsDisk) (p : list string) : Prop :=
  dotless p /\ forall q n r, p = q ++ n :: r -> entry_at d q = Some DirEntry.

(** A real path: it is in place, and no link. *)
Definition real_path (d : FsDisk) (p : list string) : Prop :=
  under_folders d p /\ exists e, entry_at d p = Some e /\ forall a t, e <> LinkEntry a t.

(** A real folder. *)
Definition real_folder (d : FsDisk) (p : list string) : Prop := under_folders d p /\ entry_at d p = Some DirEntry.

Lemma under_folders_snoc d p n : real_folder d p -> n <> "." -> n <> ".." -> under_folders d (p ++ [n]).
Proof.
  intros [[Hdot Hup] Hp] H1 H2. split; [apply Forall_app; by repeat constructor|]. intros q m r Heq.
  destruct r as [|x r _] using rev_ind.
  - by apply app_inj_tail in Heq as [<- _].
  - change (q ++ m :: r ++ [x]) with (q ++ (m :: r) ++ [x]) in Heq. rewrite (app_assoc q) in Heq.
    apply app_inj_tail in Heq as [-> _]. by apply (Hup q m r).
Qed.

Lemma real_folder_up d p : real_folder d p -> real_folder d (removelast p).
Proof.
  intros [[Hdot Hup] Hp]. destruct p as [|p n _] using rev_ind; [done|]. rewrite removelast_last.
  apply Forall_app in Hdot as [Hdot _]. split; [split; [done|]|by apply (Hup n p [])].
  intros q m r ->. apply (Hup q m (r ++ [p])). by rewrite <- app_assoc.
Qed.

Lemma real_root d : real_folder d [].
Proof. split; [split; [constructor|]|done]. by intros []. Qed.

Lemma follow_real links d cur todo p :
  real_folder d cur -> follow links d cur todo = Ok p -> real_path d p.
Proof.
  revert cur todo. induction links as [|links IHl]; intros cur todo; revert cur;
    (induction todo as [|n rest IH]; intros cur Hcur; [rewrite follow_nil; intros [= <-]; destruct Hcur as [Hu He]; split; [done|by exists DirEntry]|]);
    rewrite follow_cons; (case_bool_decide; [by apply IH|]); (case_bool_decide; [by apply IH, real_folder_up|]);
    (destruct (entry_at d (cur ++ [n])) as [[b m| |a t]|] eqn:E; [|apply IH; split; [by apply under_folders_snoc|done]| |done]).
  - destruct rest; [|done]. intros [= <-]. split; [by apply under_folders_snoc|by eexists].
  - done.
  - destruct rest; [|done]. intros [= <-]. split; [by apply under_folders_snoc|by eexists].
  - apply IHl. destruct a; [apply real_root|done].
Qed.

(** A real path leads to itself. *)
Lemma follow_self links d cur todo :
  real_folder d cur -> real_path d (cur ++ todo) -> follow links d cur todo = Ok (cur ++ todo).
Proof.
  revert cur. induction todo as [|n rest IH]; intros cur Hcur Hp; [by rewrite follow_nil, app_nil_r|].
  pose proof Hp as [[Hdot Hup] (e & He & Hl)]. apply Forall_app in Hdot as [_ [[H1 H2] _]%Forall_cons].
  rewrite follow_cons, !bool_decide_false by done.
  destruct rest as [|n' rest].
  - rewrite He. destruct e as [| |a t]; [done|apply follow_nil|by destruct (Hl a t)].
  - rewrite (Hup (cur ++ [n]) n' rest) by (by rewrite <- app_assoc). rewrite IH; [by rewrite <- app_assoc|..].
    + split; [by apply under_folders_snoc|]. apply (Hup _ n' rest). by rewrite <- app_assoc.
    + by rewrite <- app_assoc.
Qed.

Lemma realpath_real d p q : realpath d p = Ok q -> real_path d q /\ realpath d q = Ok q.
Proof.
  intros H. apply follow_real in H; [|apply real_root]. split; [done|]. apply (follow_self 40 d [] q); [apply real_root|done].
Qed.

(** *** The same, for a path as given *)

Lemma place_split d p : fs_place d p = fs_place d (dirname p ++ [last_name p]).
Proof. unfold fs_place, dirname, last_name. by rewrite removelast_last, last_snoc. Qed.

Lemma dirname_dotless p : dotless p -> dotless (dirname p).
Proof.
  intros Hp. destruct p as [|n q _] using rev_ind; [done|]. unfold dirname. rewrite removelast_last. by apply Forall_app in Hp as [? _].
Qed.

Lemma mkdir_plain p d : plain_disk d -> plain_disk (mkdir_recursive p d).2.
Proof. intros Hd. by apply (mkdirs_plain [] p d). Qed.

Lemma rename_path_plain p body now d : dotless p -> plain_disk d -> plain_disk (rename_onto p body now d).2.
Proof.
  intros Hp Hd. unfold rename_onto. rewrite place_split. fold (rename_onto (dirname p ++ [last_name p]) body now d).
  destruct (rename_onto _ _ _ _) as [o d'] eqn:E. by apply rename_plain in E as (H & _); [|done|by apply dirname_dotless].
Qed.

Lemma rm_path_plain p d : dotless p -> plain_disk d -> plain_disk (rm_force p d).2.
Proof.
  intros Hp Hd. unfold rm_force. rewrite place_split. fold (rm_force (dirname p ++ [last_name p]) d).
  destruct (rm_force _ _) as [o d'] eqn:E. by apply rm_plain in E as (H & _); [|done|by apply dirname_dotless].
Qed.

Lemma with_suffix_dotless p suffix : dotless p -> last_name p +:+ suffix <> "." -> last_name p +:+ suffix <> ".." ->
  dotless (with_suffix p suffix).
Proof. intros Hp H1 H2. apply Forall_app. split; [by apply dirname_dotless|by repeat constructor]. Qed.
