(* ===== verification/Base64.v ===== *)
(** * Base64 and decimal numerals

    [buf.toString("base64")], [buf.toString("base64url")] and
    [Buffer.from(s, "base64")], which accepts both alphabets, skips what is in
    neither, ends at the first ['='] and drops an incomplete last byte; and
    [String(n)] of a natural number against [Number(s)].  A buffer is a string
    of bytes.  The lemmas are the round trips. *)

From S2P Require Import Prelude JsString Utf16.
#[global] Open Scope Z_scope.

(** ** Sextets *)

Definition sextet_char (url : bool) (n : Z) : ascii :=
  byte_of (if n <? 26 then n + 65 else if n <? 52 then n + 71 else if n <? 62 then n - 4
           else if n =? 62 then (if url then 45 else 43) else (if url then 95 else 47)).

Definition sextet_value (c : ascii) : option Z :=
  let n := byte_value c in
  if (65 <=? n) && (n <=? 90) then Some (n - 65)
  else if (97 <=? n) && (n <=? 122) then Some (n - 71)
  else if (48 <=? n) && (n <=? 57) then Some (n + 4)
  else if (n =? 43) || (n =? 45) then Some 62
  else if (n =? 47) || (n =? 95) then Some 63
  else None.

(** ** Encoding *)

Fixpoint to_sextets (s : string) : list Z :=
  match s with
  | EmptyString => []
  | String a EmptyString => [byte_value a / 4; byte_value a mod 4 * 16]
  | String a (String b EmptyString) =>
      [byte_value a / 4; byte_value a mod 4 * 16 + byte_value b / 16; byte_value b mod 16 * 4]
  | String a (String b (String c s')) =>
      [byte_value a / 4; byte_value a mod 4 * 16 + byte_value b / 16;
       byte_value b mod 16 * 4 + byte_value c / 64; byte_value c mod 64] ++ to_sextets s'
  end.

Fixpoint of_chars (l : list ascii) : string :=
  match l with [] => "" | c :: l' => String c (of_chars l') end.

Definition padding (s : string) : string :=
  match (String.length s mod 3)%nat with 1%nat => "==" | 2%nat => "=" | _ => "" end.

Definition base64_encode (s : string) : string := of_chars (sextet_char false <$> to_sextets s) +:+ padding s.
Definition base64url_encode (s : string) : string := of_chars (sextet_char true <$> to_sextets s).

(** ** Decoding *)

Fixpoint sextets_of (s : string) : list Z :=
  match s with
  | EmptyString => []
  | String c s' =>
      if bool_decide (c = "="%char) then []
      else match sextet_value c with Some n => n :: sextets_of s' | None => sextets_of s' end
  end.

Fixpoint of_sextets (l : list Z) : string :=
  match l with
  | a :: b :: l1 =>
      String (byte_of (a * 4 + b / 16))
        match l1 with
        | c :: l2 =>
            String (byte_of (b mod 16 * 16 + c / 4))
              match l2 with
              | d :: l3 => String (byte_of (c mod 4 * 64 + d)) (of_sextets l3)
              | [] => ""
              end
        | [] => ""
        end
  | _ => ""
  end.

Definition base64_decode (s : string) : string := of_sextets (sextets_of s).

(** ** Lemmas *)

Lemma byte_value_range c : 0 <= byte_value c < 256.
Proof. unfold byte_value. pose proof (Ascii.nat_ascii_bounded c). lia. Qed.

Lemma byte_of_value c n : n = byte_value c -> byte_of n = c.
Proof. intros ->. unfold byte_of, byte_value. by rewrite Nat2Z.id, Ascii.ascii_nat_embedding. Qed.

Lemma string_ind3 (P : string -> Prop) :
  P "" -> (forall a, P (String a "")) -> (forall a b, P (String a (String b ""))) ->
  (forall a b c s, P s -> P (String a (String b (String c s)))) -> forall s, P s.
Proof.
  intros H0 H1 H2 H3. fix IH 1. intros [|a [|b [|c s]]]; [done|apply H1|apply H2|apply H3, IH].
Qed.

Definition is_sextet (n : Z) : Prop := 0 <= n < 64.

(** Every byte of the goal is between 0 and 255. *)
Ltac byte_arith :=
  repeat match goal with
  | |- context [byte_value ?c] =>
      pose proof (byte_value_range c); generalize dependent (byte_value c); intros
  end; Z.to_euclidean_division_equations; lia.

Lemma to_sextets_range s : Forall is_sextet (to_sextets s).
Proof.
  induction s as [|a|a b|a b c s IH] using string_ind3; cbn -[Z.div Z.modulo Z.mul]; unfold is_sextet in *;
    repeat (apply List.Forall_cons; [byte_arith|]); solve [apply List.Forall_nil | exact IH].
Qed.

Lemma of_to_sextets s : of_sextets (to_sextets s) = s.
Proof.
  induction s as [|a|a b|a b c s IH] using string_ind3; [done|..]; cbn -[Z.div Z.modulo Z.mul]; try rewrite IH;
    repeat f_equal; apply byte_of_value; byte_arith.
Qed.

Lemma sextet_char_all url : forallb (fun n => bool_decide (sextet_value (sextet_char url (Z.of_nat n)) = Some (Z.of_nat n)) &&
    negb (bool_decide (sextet_char url (Z.of_nat n) = "="%char))) (seq 0 64) = true.
Proof. by destruct url. Qed.

Lemma sextet_char_value url n : is_sextet n ->
  sextet_value (sextet_char url n) = Some n /\ sextet_char url n <> "="%char.
Proof.
  unfold is_sextet. intros Hn. pose proof (sextet_char_all url) as Hall.
  rewrite forallb_forall in Hall. specialize (Hall (Z.to_nat n)).
  rewrite Z2Nat.id in Hall by lia. rewrite andb_true_iff, negb_true_iff, bool_decide_eq_true, bool_decide_eq_false in Hall.
  apply Hall, in_seq. lia.
Qed.

Lemma sextets_of_chars url l rest : Forall is_sextet l ->
  sextets_of (of_chars (sextet_char url <$> l) +:+ rest) = l ++ sextets_of rest.
Proof.
  induction 1 as [|n l Hn _ IH]; [done|]. cbn.
  destruct (sextet_char_value url n Hn) as [-> Hne]. rewrite bool_decide_false by done. by rewrite IH.
Qed.

Lemma sextets_of_padding s : sextets_of (padding s) = [].
Proof. unfold padding. by destruct (String.length s mod 3)%nat as [|[|[|]]]. Qed.

Lemma base64_round_trip s : base64_decode (base64_encode s) = s.
Proof.
  unfold base64_decode, base64_encode. rewrite sextets_of_chars by apply to_sextets_range.
  rewrite sextets_of_padding, app_nil_r. apply of_to_sextets.
Qed.

Lemma base64url_round_trip s : base64_decode (base64url_encode s) = s.
Proof.
  unfold base64_decode, base64url_encode. pose proof (sextets_of_chars true (to_sextets s) "" (to_sextets_range s)) as H.
  rewrite app_nil_r_str, app_nil_r in H. rewrite H. apply of_to_sextets.
Qed.

(** ** The shape of an encoding *)

Definition is_base64_char (c : ascii) : bool :=
  let n := byte_value c in
  ((65 <=? n) && (n <=? 90)) || ((97 <=? n) && (n <=? 122)) || ((48 <=? n) && (n <=? 57)) || (n =? 43) || (n =? 47).

Lemma sextet_char_class : forallb (fun n => is_base64_char (sextet_char false (Z.of_nat n))) (seq 0 64) = true.
Proof. reflexivity. Qed.

Lemma sextet_is_base64 n : is_sextet n -> is_base64_char (sextet_char false n) = true.
Proof.
  unfold is_sextet. intros Hn. pose proof sextet_char_class as H. rewrite forallb_forall in H.
  specialize (H (Z.to_nat n)). rewrite Z2Nat.id in H by lia. apply H, in_seq. lia.
Qed.

Lemma all_chars_of_chars p l : all_chars p (of_chars l) = forallb p l.
Proof. induction l as [|c l IH]; [done|]. cbn. by rewrite IH. Qed.

Lemma length_of_chars l : String.length (of_chars l) = length l.
Proof. induction l as [|c l IH]; [done|]. cbn. by rewrite IH. Qed.

Lemma sextets_are_base64 l : Forall is_sextet l -> all_chars is_base64_char (of_chars (sextet_char false <$> l)) = true.
Proof.
  intros Hl. rewrite all_chars_of_chars. induction Hl as [|n l Hn _ IH]; [done|]. cbn.
  by rewrite sextet_is_base64.
Qed.

(** The characters and the padding make whole groups of four. *)
Lemma base64_groups s : exists k, String.length (base64_encode s) = (4 * k)%nat.
Proof.
  unfold base64_encode. rewrite length_app_str, length_of_chars, length_fmap. unfold padding.
  induction s as [|a|a b|a b c s [k IH]] using string_ind3; [by exists 0%nat|by exists 1%nat|by exists 1%nat|].
  exists (S k). cbn [to_sextets app length].
  replace (String.length (String a (String b (String c s))) mod 3)%nat with (String.length s mod 3)%nat; [lia|].
  change (String.length (String a (String b (String c s)))) with (3 + String.length s)%nat.
  rewrite <- (Nat.Div0.add_mod_idemp_l 3). reflexivity.
Qed.

Lemma base64_nonempty s : s <> "" -> exists c l, of_chars (sextet_char false <$> to_sextets s) = String c l.
Proof. destruct s as [|a [|b [|c s]]]; [done|..]; cbn; eauto. Qed.

Lemma padding_short s : padding s = "" \/ padding s = "=" \/ padding s = "==".
Proof. unfold padding. destruct (String.length s mod 3)%nat as [|[|[|]]]; auto. Qed.

(** ** Decimal numerals *)

Lemma digits_value_app acc a b : digits_value acc (a +:+ b) = digits_value (digits_value acc a) b.
Proof. revert acc. induction a as [|c a IH]; intros acc; [done|]. cbn. apply IH. Qed.

Lemma pretty_char n : (n < 10)%N ->
  is_digit (pretty_N_char n) = true /\ Z.of_nat (Ascii.nat_of_ascii (pretty_N_char n)) - 48 = Z.of_N n.
Proof.
  intros Hn.
  assert (Hall : forallb (fun k => is_digit (pretty_N_char (N.of_nat k)) &&
    (Z.of_nat (Ascii.nat_of_ascii (pretty_N_char (N.of_nat k))) - 48 =? Z.of_nat k)) (seq 0 10) = true) by reflexivity.
  rewrite forallb_forall in Hall. specialize (Hall (N.to_nat n)). rewrite N2Nat.id, N_nat_Z in Hall.
  rewrite andb_true_iff, Z.eqb_eq in Hall. apply Hall, in_seq. lia.
Qed.

Lemma pretty_go_app n s : pretty_N_go n s = pretty_N_go n "" +:+ s.
Proof.
  revert s. induction (N.lt_wf_0 n) as [n _ IH]. intros s.
  assert (n = 0 \/ 0 < n)%N as [->|Hn] by lia; [done|].
  assert (Hd : (n / 10 < n)%N) by (apply N.div_lt; lia).
  rewrite !(pretty_N_go_step n) by done. rewrite (IH _ Hd (String _ s)), (IH _ Hd (String _ "")).
  by rewrite app_assoc_str.
Qed.

Lemma pretty_go_value n :
  all_chars is_digit (pretty_N_go n "") = true /\ digits_value 0 (pretty_N_go n "") = Z.of_N n.
Proof.
  induction (N.lt_wf_0 n) as [n _ IH].
  assert (n = 0 \/ 0 < n)%N as [->|Hn] by lia; [done|].
  rewrite pretty_N_go_step, pretty_go_app by done.
  destruct (IH (n / 10)%N) as [Hc Hv]; [apply N.div_lt; lia|].
  destruct (pretty_char (n mod 10)) as [Hdc Hdv]; [apply N.mod_lt; lia|].
  rewrite all_chars_app, digits_value_app, Hc, Hv. cbn [all_chars digits_value]. rewrite Hdc, Hdv.
  split; [done|]. rewrite N2Z.inj_div, N2Z.inj_mod. pose proof (Z.div_mod (Z.of_N n) 10). lia.
Qed.

(** [String(n)] of a natural number is digits, and [Number] reads it back. *)
Lemma pretty_digits n : 0 <= n -> all_digits (pretty n) = true /\ digits_value 0 (pretty n) = n.
Proof.
  intros Hn. destruct n as [|p|p]; [done| |lia].
  change (pretty (Zpos p)) with (pretty (Npos p)). unfold pretty, pretty_N.
  rewrite decide_False by done. destruct (pretty_go_value (N.pos p)) as [Hc Hv].
  split; [|by rewrite Hv]. unfold all_digits. rewrite Hc, andb_true_r, negb_true_iff, bool_decide_eq_false.
  intros Hnil. rewrite Hnil in Hv. discriminate.
Qed.
