(* ===== verification/Signature.v ===== *)
(** * Webhook signing: core/src/webhooks/signature.ts, sender.ts, crypto/secrets-cipher.ts

    Standard Webhooks signatures and their verification, the AES-256-GCM cipher
    that keeps signing secrets at rest, and one signed POST.  HMAC-SHA256 and
    AES-GCM are the class [Crypto] with [CryptoLaws]; random bytes are
    arguments.  A buffer is the string of its bytes.  The theorems: a signature
    is accepted within the tolerance, and only a signature over the very id,
    timestamp and body is; what the cipher decrypts is what it encrypted. *)

From S2P Require Import Prelude JsString Errors Text Schema GlobCache World Outbox Worker Utf16 Base64.

(** ** node:crypto

    [gcm_seal key iv plaintext] is the ciphertext and the tag; [gcm_open]
    verifies the tag. *)
Class Crypto : Type := {
  hmac_sha256 : string -> string -> string;
  gcm_seal : string -> string -> string -> string * string;
  gcm_open : string -> string -> string -> string -> option string
}.

(** AES-GCM: a tag has 16 bytes, and exactly what was sealed opens. *)
Class CryptoLaws (cr : Crypto) : Prop := {
  gcm_tag : forall key iv p, String.length (gcm_seal key iv p).2 = 16%nat;
  gcm_opens : forall key iv ct tag p, gcm_open key iv ct tag = Some p <-> gcm_seal key iv p = (ct, tag)
}.

Section Signature.
Context {cr : Crypto}.

(** ** signature.ts *)

Definition WEBHOOK_SECRET_PREFIX : string := "whsec_".

(** [random]: 32 random bytes. *)
Definition generateWebhookSecret (random : string) : string := WEBHOOK_SECRET_PREFIX +:+ base64_encode random.

(** The characters before the first that is not [p], and the rest. *)
Fixpoint span_chars (p : ascii -> bool) (s : string) : string * string :=
  match s with
  | String c s' => if p c then let r := span_chars p s' in (String c r.1, r.2) else ("", s)
  | EmptyString => ("", "")
  end.

(** [/^[A-Za-z0-9+/]+={0,2}$/]. *)
Definition is_base64_text (s : string) : bool :=
  let '(body, rest) := span_chars is_base64_char s in
  negb (bool_decide (body = "")) && (bool_decide (rest = "") || bool_decide (rest = "=") || bool_decide (rest = "==")).

Definition decodeWebhookSecret (secret : string) : option string :=
  let encoded := if starts_with WEBHOOK_SECRET_PREFIX secret
                 then drop_str (String.length WEBHOOK_SECRET_PREFIX) secret else secret in
  if negb (is_base64_text encoded) || (String.length encoded mod 4 =? 1)%nat then None
  else
    let key := base64_decode encoded in
    if (0 <? String.length key)%nat then Some key else None.

Definition signed_content (id timestamp body : string) : string := id +:+ "." +:+ timestamp +:+ "." +:+ body.

Definition is_safe (n : Z) : bool := (- MAX_SAFE_INTEGER <=? n) && (n <=? MAX_SAFE_INTEGER).

Definition signWebhook (secret id : string) (timestampSec : Z) (body : string) : outcome error string :=
  match decodeWebhookSecret secret with
  | None => Throw (JsError "signWebhook: secret is not a valid whsec_<base64> value")
  | Some key =>
      if negb (is_safe timestampSec) || (timestampSec <? 0) then
        Throw (JsError "signWebhook: timestampSec must be a non-negative integer (unix seconds)")
      else Ok ("v1," +:+ base64_encode (hmac_sha256 key (signed_content id (pretty timestampSec) body)))
  end.

Record SignatureHeaders : Type := { sh_id : string; sh_timestamp : string; sh_signature : string }.

Definition is_space (c : ascii) : bool := bool_decide (c = " "%char).

(** One [<version>,<base64>] entry against the expected digest. *)
Definition entry_matches (expected entry : string) : bool :=
  match cut_first "," entry with
  | None => false
  | Some (version, provided) =>
      if bool_decide (version = "") || negb (bool_decide (version = "v1")) then false
      else (String.length provided =? String.length expected)%nat && bool_decide (provided = expected)
  end.

(** [now / 1000 - timestamp] in milliseconds. *)
Definition verifyWebhookSignature (key body : string) (headers : SignatureHeaders) (toleranceSeconds : option Z)
    (nowMs : Z) : bool :=
  let tolerance := toleranceSeconds ?? 300 in
  if negb (all_digits headers.(sh_timestamp)) then false
  else
    let timestampSeconds := digits_value 0 headers.(sh_timestamp) in
    if negb (is_safe timestampSeconds) then false
    else if tolerance * 1000 <? Z.abs (nowMs - timestampSeconds * 1000) then false
    else
      let expected := base64_encode (hmac_sha256 key (signed_content headers.(sh_id) headers.(sh_timestamp) body)) in
      existsb (entry_matches expected) (split_on is_space headers.(sh_signature)).

(** ** crypto/secrets-cipher.ts *)

Definition AES_KEY_BYTES : nat := 32.
Definition IV_BYTES : nat := 12.
Definition TAG_BYTES : nat := 16.

Definition assertKey (key : string) : outcome error unit :=
  if (String.length key =? AES_KEY_BYTES)%nat then Ok tt
  else Throw (JsError ("Invalid encryption key: expected 32 bytes, got " +:+ pretty (String.length key) +:+ " bytes")).

(** [iv]: the 12 random bytes. *)
Definition encryptSecret (iv plaintext key : string) : outcome error string :=
  _ ← assertKey key;
  let '(ciphertext, authTag) := gcm_seal key iv plaintext in
  if negb (String.length authTag =? TAG_BYTES)%nat then
    Throw (JsError ("encryptSecret: unexpected auth tag length " +:+ pretty (String.length authTag)))
  else Ok (base64_encode (iv +:+ ciphertext +:+ authTag)).

(** [gcm_message]: the message of OpenSSL's error. *)
Definition decryptSecret (gcm_message encoded key : string) : outcome error string :=
  _ ← assertKey key;
  let buf := base64_decode encoded in
  let n := String.length buf in
  if (n <? IV_BYTES + TAG_BYTES)%nat then
    Throw (JsError ("decryptSecret: payload too short (" +:+ pretty n +:+ " bytes, need at least 28)"))
  else
    let iv := take_str IV_BYTES buf in
    let authTag := drop_str (n - TAG_BYTES) buf in
    let ciphertext := drop_str IV_BYTES (take_str (n - TAG_BYTES) buf) in
    match gcm_open key iv ciphertext authTag with
    | Some plaintext => Ok ((decode_from 0 128 191 "" plaintext).1)
    | None => Throw (JsError ("decryptSecret: auth tag verification failed or payload corrupted: " +:+ gcm_message))
    end.

(** ** sender.ts *)

Definition RESPONSE_SNIPPET_BYTES : nat := 1024.

Record SendWebhookInput : Type := { si_url : string; si_secret : string; si_webhookId : string; si_body : string }.

(** [version]: the package's. *)
Definition webhookHeaders (version : string) (input : SendWebhookInput) (timestampSec : Z)
    : outcome error (list (string * string)) :=
  signature ← signWebhook input.(si_secret) input.(si_webhookId) timestampSec input.(si_body);
  Ok [("content-type", "application/json"); ("user-agent", "agent-fs-webhooks/" +:+ version);
      ("webhook-id", input.(si_webhookId)); ("webhook-timestamp", pretty timestampSec);
      ("webhook-signature", signature)].

(** What the code reads of a response: the body's chunks, and whether reading
    fails after them. *)
Record SendResponse : Type := {
  re_status : Z;
  re_location : option string;
  re_chunks : list string;
  re_fails : bool
}.

(** The POST that goes out; redirects are manual. *)
Record SendRequest : Type := { rq_url : string; rq_headers : list (string * string); rq_body : string }.

(** The chunks read until there are enough bytes; [None]: reading failed. *)
Fixpoint read_chunks (chunks : list string) (fails : bool) (size : nat) : option string :=
  if (size <? RESPONSE_SNIPPET_BYTES)%nat then
    match chunks with
    | [] => if fails then None else Some ""
    | c :: rest => String.append c <$> read_chunks rest fails (size + String.length c)
    end
  else Some "".

Definition readSnippet (response : SendResponse) : option string :=
  (fun b => trim (decode_utf8 (take_str RESPONSE_SNIPPET_BYTES b))) <$>
    read_chunks response.(re_chunks) response.(re_fails) 0.

(** [err.name] of the classes of errors.ts is their class name, of a plain
    [Error] it is "Error". *)
Definition error_class (e : error) : string :=
  match e with
  | AgentFSError _ _ _ => "AgentFSError" | NotFoundError _ _ _ => "NotFoundError"
  | PermissionDeniedError _ _ _ _ => "PermissionDeniedError" | EditConflictError _ _ _ => "EditConflictError"
  | IndexingInProgressError _ _ _ => "IndexingInProgressError" | ValidationError _ _ _ => "ValidationError"
  | EmbeddingProviderError _ => "EmbeddingProviderError" | UnsupportedOperation _ _ _ => "UnsupportedOperation"
  | PresenceLimitError => "PresenceLimitError" | JsError _ => "Error" | ForeignError name _ _ _ => name
  end.

Definition describeError (err : error) (timeoutMs : Z) : string :=
  let name := error_class err in
  if bool_decide (name = "TimeoutError") then "timed out after " +:+ pretty timeoutMs +:+ " ms"
  else if bool_decide (name = "AbortError") then "aborted"
  else if bool_decide (name = "Error") then error_message err
  else name +:+ ": " +:+ error_message err.

(** [host_of location base]: [new URL(location, base).host]. *)
Definition describeRedirect (host_of : string -> string -> option string) (statusCode : Z) (response : SendResponse)
    (requestUrl : string) : string :=
  let target := match truthy response.(re_location) with
                | None => "no Location header"
                | Some location =>
                    match host_of location requestUrl with
                    | Some host => "Location host " +:+ host
                    | None => "an invalid Location header"
                    end
                end in
  "HTTP " +:+ pretty statusCode +:+ ": redirect not followed (" +:+ target +:+ "); point the webhook at the final URL".

(** The clock of the process, the network and the URL parser. *)
Record SendEnv : Type := {
  se_version : string;
  se_fetch : outcome error (SendRequest -> outcome error SendResponse);  (* [webhookFetch()] may throw *)
  se_host_of : string -> string -> option string;
  se_nowMs : Z;
  se_timeoutMs : Z
}.

(** The request that is sent, if one is. *)
Definition webhook_request (env : SendEnv) (input : SendWebhookInput) : outcome error SendRequest :=
  headers ← webhookHeaders env.(se_version) input (env.(se_nowMs) / 1000);
  Ok {| rq_url := input.(si_url); rq_headers := headers; rq_body := input.(si_body) |}.

(** [durationMs], a reading of the clock, is left out of the result. *)
Definition sendWebhook (env : SendEnv) (input : SendWebhookInput) : SendWebhookResult :=
  match fetch ← env.(se_fetch); request ← webhook_request env input; fetch request with
  | Throw err => {| sr_ok := false; sr_statusCode := None; sr_error := Some (describeError err env.(se_timeoutMs)) |}
  | Ok response =>
      let statusCode := response.(re_status) in
      if (200 <=? statusCode) && (statusCode <? 300) then
        {| sr_ok := true; sr_statusCode := Some statusCode; sr_error := None |}
      else if (300 <=? statusCode) && (statusCode <? 400) then
        {| sr_ok := false; sr_statusCode := Some statusCode;
           sr_error := Some (describeRedirect env.(se_host_of) statusCode response input.(si_url)) |}
      else
        let snippet := readSnippet response ?? "" in
        {| sr_ok := false; sr_statusCode := Some statusCode;
           sr_error := Some ("HTTP " +:+ pretty statusCode +:+
                             (if bool_decide (snippet = "") then "" else ": " +:+ snippet)) |}
  end.

(** ** Lemmas *)

Lemma span_chars_app p a b :
  all_chars p a = true -> match b with String c _ => p c = false | "" => True end -> span_chars p (a +:+ b) = (a, b).
Proof.
  intros Ha Hb. induction a as [|c a IH]; cbn.
  - destruct b as [|c b]; [done|]. cbn. by rewrite Hb.
  - cbn in Ha. apply andb_true_iff in Ha as [-> Ha]. by rewrite IH.
Qed.

Lemma is_base64_encoding s : s <> "" -> is_base64_text (base64_encode s) = true.
Proof.
  intros Hs. unfold is_base64_text, base64_encode. rewrite span_chars_app.
  - destruct (base64_nonempty s Hs) as (c & l & ->). by destruct (padding_short s) as [-> |[-> | ->]].
  - apply sextets_are_base64, to_sextets_range.
  - by destruct (padding_short s) as [-> |[-> | ->]].
Qed.

Lemma generated_secret_decodes random : random <> "" ->
  decodeWebhookSecret (generateWebhookSecret random) = Some random.
Proof.
  intros Hr. unfold decodeWebhookSecret, generateWebhookSecret.
  rewrite starts_with_app, drop_str_app, is_base64_encoding by done.
  destruct (base64_groups random) as [k ->].
  replace (4 * k mod 4)%nat with 0%nat by (rewrite Nat.mul_comm, Nat.Div0.mod_mul; done).
  rewrite base64_round_trip. by destruct random.
Qed.

(** No space and no comma in an encoding. *)
Lemma encoding_lacks c s : is_base64_char c = false -> c <> "="%char -> has_char c (base64_encode s) = false.
Proof.
  intros Hc Heq. unfold base64_encode. rewrite has_char_app, orb_false_iff. split.
  - pose proof (sextets_are_base64 _ (to_sextets_range s)) as H. revert H.
    generalize (of_chars (sextet_char false <$> to_sextets s)). intros t. induction t as [|d t IH]; [done|]. cbn.
    intros [Hd Ht]%andb_true_iff. rewrite IH by done. rewrite bool_decide_false; [done|]. congruence.
  - destruct (padding_short s) as [-> |[-> | ->]]; cbn [has_char]; by rewrite ?(bool_decide_false (c = "="%char)).
Qed.

Lemma entry_matches_iff expected entry :
  entry_matches expected entry = true <-> entry = "v1," +:+ expected.
Proof.
  unfold entry_matches. split.
  - destruct (cut_first "," entry) as [[version provided]|] eqn:E; [|done].
    destruct (bool_decide (version = "")); [done|]. cbn [orb].
    destruct (bool_decide_reflect (version = "v1")) as [-> |]; [|done]. cbn [negb].
    intros [_ ->%bool_decide_eq_true]%andb_true_iff. by apply cut_first_app in E.
  - intros ->. replace (cut_first "," ("v1," +:+ expected)) with (Some ("v1", expected)) by (by destruct expected).
    cbn [orb negb]. rewrite Nat.eqb_refl, (bool_decide_true (expected = expected)) by done. done.
Qed.

(** An accepted request names a fresh timestamp and carries the one digest of
    its id, timestamp and body under the key. *)
Lemma verify_iff key body headers tol now :
  verifyWebhookSignature key body headers tol now = true <->
  all_digits headers.(sh_timestamp) = true /\ digits_value 0 headers.(sh_timestamp) <= MAX_SAFE_INTEGER /\
  Z.abs (now - digits_value 0 headers.(sh_timestamp) * 1000) <= (tol ?? 300) * 1000 /\
  "v1," +:+ base64_encode (hmac_sha256 key (signed_content headers.(sh_id) headers.(sh_timestamp) body))
    ∈ split_on is_space headers.(sh_signature).
Proof.
  unfold verifyWebhookSignature, is_safe, MAX_SAFE_INTEGER. destruct (all_digits (sh_timestamp headers)) eqn:Hd; [|by split; [|intros []]].
  cbn [negb]. assert (0 <= digits_value 0 (sh_timestamp headers)).
  { apply digits_value_nonneg; [|done]. by apply andb_true_iff in Hd as [_ Hd]. }
  destruct (Z.leb_spec (- (9007199254740991)) (digits_value 0 (sh_timestamp headers))); [|lia].
  destruct (Z.leb_spec (digits_value 0 (sh_timestamp headers)) 9007199254740991); cbn [negb andb]; [|split; [done|intros (_ & ? & _); lia]].
  destruct (Z.ltb_spec ((tol ?? 300) * 1000) (Z.abs (now - digits_value 0 (sh_timestamp headers) * 1000)));
    [split; [done|intros (_ & _ & ? & _); lia]|].
  rewrite existsb_exists. setoid_rewrite entry_matches_iff. split.
  - intros (x & Hx%list_elem_of_In & ->). done.
  - intros (_ & _ & _ & Hx%list_elem_of_In). eauto.
Qed.

(** The request of one attempt carries these headers. *)
Lemma webhook_request_signed env input request key :
  decodeWebhookSecret input.(si_secret) = Some key -> webhook_request env input = Ok request ->
  let ts := env.(se_nowMs) / 1000 in
  0 <= ts <= MAX_SAFE_INTEGER /\ request.(rq_body) = input.(si_body) /\
  request.(rq_headers) =
    [("content-type", "application/json"); ("user-agent", "agent-fs-webhooks/" +:+ env.(se_version));
     ("webhook-id", input.(si_webhookId)); ("webhook-timestamp", pretty ts);
     ("webhook-signature", "v1," +:+ base64_encode
        (hmac_sha256 key (signed_content input.(si_webhookId) (pretty ts) input.(si_body))))].
Proof.
  intros Hkey. unfold webhook_request, webhookHeaders, signWebhook, is_safe. rewrite Hkey. cbv zeta.
  destruct (Z.leb_spec (- MAX_SAFE_INTEGER) (se_nowMs env / 1000)); [|done].
  destruct (Z.leb_spec (se_nowMs env / 1000) MAX_SAFE_INTEGER); [|done].
  destruct (Z.ltb_spec (se_nowMs env / 1000) 0); [done|]. cbn. intros [= <-]. done.
Qed.

Definition header (name : string) (headers : list (string * string)) : string :=
  match list_find (fun h => h.1 = name) headers with Some (_, (_, v)) => v | None => "" end.

(** What a receiver reads of a request. *)
Definition signature_headers (request : SendRequest) : SignatureHeaders :=
  {| sh_id := header "webhook-id" request.(rq_headers);
     sh_timestamp := header "webhook-timestamp" request.(rq_headers);
     sh_signature := header "webhook-signature" request.(rq_headers) |}.

(** A receiver that holds a generated secret accepts the POST of one
    delivery exactly within the tolerance around the second it was signed in,
    and whatever it accepts under the id and timestamp of that POST, with the
    same signature header, has a body of the same digest. *)
Theorem delivery_verifies env input request random body tol now :
  random <> "" -> input.(si_secret) = generateWebhookSecret random -> webhook_request env input = Ok request ->
  let headers := signature_headers request in
  let signed b := hmac_sha256 random (signed_content headers.(sh_id) headers.(sh_timestamp) b) in
  verifyWebhookSignature random body headers tol now = true <->
  Z.abs (now - env.(se_nowMs) / 1000 * 1000) <= (tol ?? 300) * 1000 /\ signed body = signed request.(rq_body).
Proof.
  intros Hr Hsecret Hreq.
  assert (Hkey : decodeWebhookSecret input.(si_secret) = Some random)
    by (rewrite Hsecret; by apply generated_secret_decodes).
  destruct (webhook_request_signed _ _ _ _ Hkey Hreq) as (Hts & Hbody & Hheaders).
  unfold signature_headers. rewrite Hheaders, Hbody. cbv zeta. rewrite verify_iff. cbn [sh_timestamp sh_id sh_signature].
  change (header "webhook-timestamp" _) with (pretty (se_nowMs env / 1000)).
  change (header "webhook-id" _) with input.(si_webhookId).
  change (header "webhook-signature" _) with ("v1," +:+ base64_encode
    (hmac_sha256 random (signed_content (si_webhookId input) (pretty (se_nowMs env / 1000)) (si_body input)))).
  destruct (pretty_digits (se_nowMs env / 1000)) as [Hd Hv]; [lia|]. rewrite Hd, Hv.
  unfold is_space. rewrite split_on_no_sep by (cbn; by rewrite encoding_lacks). rewrite list_elem_of_singleton.
  split.
  - intros (_ & _ & Hnow & Heq%app_inj_l_str). split; [done|].
    rewrite <- (base64_round_trip (hmac_sha256 random (signed_content _ _ body))), Heq. apply base64_round_trip.
  - intros (Hnow & ->). repeat split; [lia|done].
Qed.

(** ** The cipher *)

Lemma take_drop_str n s : take_str n s +:+ drop_str n s = s.
Proof. revert n. induction s as [|c s IH]; intros [|n]; cbn; [done..|]. by rewrite IH. Qed.

Lemma length_take_str n s : (n <= String.length s)%nat -> String.length (take_str n s) = n.
Proof. revert n. induction s as [|c s IH]; intros [|n] H; cbn in *; try done; try lia. rewrite IH; lia. Qed.

Lemma length_drop_str n s : String.length (drop_str n s) = (String.length s - n)%nat.
Proof. revert n. induction s as [|c s IH]; intros [|n]; cbn; auto. Qed.

Lemma take_take_str n m s : (n <= m)%nat -> take_str n (take_str m s) = take_str n s.
Proof.
  revert n m. induction s as [|c s IH]; intros [|n] [|m] H; cbn; try done; try lia. rewrite IH; [done|lia].
Qed.

(** A payload cut at [iv] and [tag] bytes. *)
Lemma payload_cut a b s : (a + b <= String.length s)%nat ->
  s = take_str a s +:+ drop_str a (take_str (String.length s - b) s) +:+ drop_str (String.length s - b) s.
Proof.
  intros H. rewrite <- app_assoc_str.
  rewrite <- (take_take_str a (String.length s - b) s) by lia. by rewrite !take_drop_str.
Qed.

Lemma payload_parts iv ct tag : String.length iv = IV_BYTES -> String.length tag = TAG_BYTES ->
  let buf := iv +:+ ct +:+ tag in
  take_str IV_BYTES buf = iv /\ drop_str (String.length buf - TAG_BYTES) buf = tag /\
  drop_str IV_BYTES (take_str (String.length buf - TAG_BYTES) buf) = ct.
Proof.
  intros Hiv Htag. cbv zeta.
  assert (Hn : (String.length (iv +:+ ct +:+ tag) - TAG_BYTES)%nat = String.length (iv +:+ ct)).
  { rewrite !length_app_str, Htag. lia. }
  rewrite Hn. split; [rewrite <- Hiv; apply take_str_app|].
  rewrite <- app_assoc_str, drop_str_app, take_str_app. split; [done|]. rewrite <- Hiv. apply drop_str_app.
Qed.

Lemma decode_ascii s : ascii_only s = true -> (decode_from 0 128 191 "" s).1 = s.
Proof.
  induction s as [|c s IH]; [done|]. cbn -[Nat.ltb Nat.leb]. intros [Hc Hs]%andb_true_iff. rewrite Hc. cbn.
  by rewrite IH.
Qed.

Lemma encryptSecret_ok iv plaintext key c : encryptSecret iv plaintext key = Ok c ->
  String.length key = AES_KEY_BYTES /\
  c = base64_encode (iv +:+ (gcm_seal key iv plaintext).1 +:+ (gcm_seal key iv plaintext).2).
Proof.
  unfold encryptSecret, assertKey. destruct (Nat.eqb_spec (String.length key) AES_KEY_BYTES); [|done].
  cbn [mbind outcome_bind]. destruct (gcm_seal key iv plaintext) as [ct tag]. destruct (negb _); [done|].
  by intros [= <-].
Qed.

Context {CR : CryptoLaws cr}.

Lemma encryptSecret_total iv plaintext key : String.length key = AES_KEY_BYTES ->
  exists c, encryptSecret iv plaintext key = Ok c.
Proof.
  intros Hkey. unfold encryptSecret, assertKey. rewrite Hkey. pose proof (gcm_tag key iv plaintext) as Ht.
  destruct (gcm_seal key iv plaintext) as [ct tag]. cbn in Ht |- *. rewrite Ht. eauto.
Qed.

Lemma decrypt_iff msg encoded key p : String.length key = AES_KEY_BYTES ->
  decryptSecret msg encoded key = Ok p <->
  exists iv raw, String.length iv = IV_BYTES /\ (decode_from 0 128 191 "" raw).1 = p /\
    base64_decode encoded = iv +:+ (gcm_seal key iv raw).1 +:+ (gcm_seal key iv raw).2.
Proof.
  intros Hkey. unfold decryptSecret, assertKey. rewrite Hkey. cbn [Nat.eqb AES_KEY_BYTES mbind outcome_bind].
  set (buf := base64_decode encoded). split.
  - destruct (Nat.ltb_spec (String.length buf) (IV_BYTES + TAG_BYTES)) as [|Hlen]; [done|].
    destruct (gcm_open _ _ _ _) as [raw|] eqn:Hopen; [|done]. intros [= <-].
    apply gcm_opens in Hopen. eexists _, raw. rewrite Hopen. cbn [fst snd].
    split; [apply length_take_str; lia|]. split; [done|]. by apply payload_cut.
  - intros (iv & raw & Hiv & <- & Hbuf). pose proof (gcm_tag key iv raw) as Htag.
    destruct (gcm_seal key iv raw) as [ct tag] eqn:Hseal. cbn in Htag, Hbuf.
    destruct (payload_parts iv ct tag Hiv Htag) as (H1 & H2 & H3). rewrite Hbuf, H1, H2, H3.
    rewrite (proj2 (gcm_opens key iv ct tag raw) Hseal).
    destruct (Nat.ltb_spec (String.length (iv +:+ ct +:+ tag)) (IV_BYTES + TAG_BYTES)) as [Hlt|]; [|done].
    exfalso. rewrite !length_app_str, Hiv, Htag in Hlt. unfold IV_BYTES, TAG_BYTES in Hlt. lia.
Qed.

(** What was encrypted is decrypted. *)
Lemma encrypted_decrypts msg iv plaintext key c :
  String.length iv = IV_BYTES -> ascii_only plaintext = true ->
  encryptSecret iv plaintext key = Ok c -> decryptSecret msg c key = Ok plaintext.
Proof.
  intros Hiv Hp [Hkey ->]%encryptSecret_ok. apply decrypt_iff; [done|]. exists iv, plaintext.
  rewrite base64_round_trip. split; [done|]. split; [by apply decode_ascii|done].
Qed.

Lemma ascii_only_app a b : ascii_only (a +:+ b) = ascii_only a && ascii_only b.
Proof. induction a as [|c a IH]; [done|]. cbn. by rewrite IH, andb_assoc. Qed.

Lemma generated_secret_ascii random : ascii_only (generateWebhookSecret random) = true.
Proof.
  unfold generateWebhookSecret, base64_encode. rewrite !ascii_only_app.
  change (ascii_only WEBHOOK_SECRET_PREFIX) with true. cbn [andb]. replace (ascii_only (padding random)) with true
    by (by destruct (padding_short random) as [-> |[-> | ->]]).
  rewrite andb_true_r. pose proof (sextets_are_base64 _ (to_sextets_range random)) as H. revert H.
  generalize (of_chars (sextet_char false <$> to_sextets random)). intros t. induction t as [|d t IH]; [done|].
  cbn -[Nat.ltb]. intros [Hd Ht]%andb_true_iff. rewrite IH by done. rewrite andb_true_r.
  apply Nat.ltb_lt. revert Hd. unfold is_base64_char, byte_value. cbv zeta. rewrite ?orb_true_iff, ?andb_true_iff, ?Z.leb_le, ?Z.eqb_eq. lia.
Qed.
End Signature.

(** ** A concrete cipher, for the witnesses *)

Definition sixteen : string := "0123456789abcdef".

Definition toy_tag (key iv : string) : string := take_str TAG_BYTES (key +:+ iv +:+ sixteen).

Definition toy_crypto : Crypto := {|
  hmac_sha256 key message := key +:+ message;
  gcm_seal key iv p := (p, toy_tag key iv);
  gcm_open key iv ct tag := if bool_decide (tag = toy_tag key iv) then Some ct else None
|}.

#[export] Instance toy_crypto_laws : CryptoLaws toy_crypto.
Proof.
  split.
  - intros key iv p. apply length_take_str. rewrite !length_app_str. cbn. unfold TAG_BYTES. lia.
  - intros key iv ct tag p. cbn. case_bool_decide as H; split; congruence.
Qed.

Module Sample.
Definition random : string := "0123456789abcdef0123456789abcdef".
Definition input : SendWebhookInput :=
  {| si_url := "https://example.com/hook"; si_secret := generateWebhookSecret random;
     si_webhookId := "ev-1"; si_body := "body" |}.
Definition env : SendEnv :=
  {| se_version := "1.0.0";
     se_fetch := Ok (fun _ => Ok {| re_status := 204; re_location := None; re_chunks := []; re_fails := false |});
     se_host_of := fun _ _ => None; se_nowMs := 1700000000123; se_timeoutMs := 15000 |}.
End Sample.

Lemma delivery_verifies_witness :
  exists request, webhook_request (cr := toy_crypto) Sample.env Sample.input = Ok request /\
    verifyWebhookSignature (cr := toy_crypto) Sample.random "body" (signature_headers request) None 1700000300000 = true /\
    verifyWebhookSignature (cr := toy_crypto) Sample.random "body" (signature_headers request) None 1700000300001 = false.
Proof.
  eexists. split; [vm_compute; reflexivity|]. split.
  - apply (delivery_verifies (cr := toy_crypto) Sample.env Sample.input _ Sample.random);
      [done|reflexivity|vm_compute; reflexivity|]. split; [vm_compute; discriminate|reflexivity].
  - apply not_true_is_false. intros H.
    apply (delivery_verifies (cr := toy_crypto) Sample.env Sample.input _ Sample.random) in H;
      [|done|reflexivity|vm_compute; reflexivity]. destruct H as [H _]. by apply H.
Defined.

Example sent_ok : sendWebhook (cr := toy_crypto) Sample.env Sample.input =
  {| sr_ok := true; sr_statusCode := Some 204; sr_error := None |}.
Proof. vm_compute. reflexivity. Qed.
