(* ===== verification/SecretKey.v ===== *)
(** * The key of the webhook secrets: core/src/webhooks/crypto/key.ts

    Where the AES key comes from: the environment, a key file, or a fresh key
    written beside the database, which only happens while no subscription holds
    an encrypted secret.  [KeyState] is the process's cached key and the files.
    Random bytes, a file that another process writes at the same moment and a
    failing write are arguments.  The key found once is the key of every later
    process with the same environment and files ([resolve_key_ok]). *)

From S2P Require Import Prelude JsString Errors Schema Address Utf16 Base64 Signature.

Record KeyEnv : Type := {
  ke_key : option string;      (* AGENT_FS_SECRETS_KEY *)
  ke_keyFile : option string;  (* AGENT_FS_SECRETS_KEY_FILE *)
  ke_dbPath : string
}.

(** [kd_race]: what another process writes between the test and the write;
    [kd_write_error]: why the write fails. *)
Record KeyDraw : Type := { kd_random : string; kd_race : option string; kd_write_error : option error }.

Record KeyState : Type := { ks_cached : option string; ks_files : gmap string string }.
#[export] Instance KeyState_eta : Eta KeyState := fun r => Build_KeyState r.(ks_cached) r.(ks_files).

Definition KeyM (A : Type) : Type := M error KeyState A.

Definition SECRETS_KEY_ENV : string := "AGENT_FS_SECRETS_KEY".
Definition SECRETS_KEY_FILE_ENV : string := "AGENT_FS_SECRETS_KEY_FILE".
Definition SECRETS_KEY_FILENAME : string := ".secrets-key".

Definition keyGenerationHelp : string := join (bytes [10%nat]) [
  "";
  "How to generate a valid key:";
  "  openssl rand -base64 32   # 43-char base64 (recommended)";
  "  openssl rand -hex 32      # 64-char hex (also accepted)";
  "";
  "Common mistake: `openssl rand -base64 39` produces a 52-char string that";
  "decodes to 39 bytes — the number passed to `openssl rand` is the decoded";
  "byte count, and AES-256 requires exactly 32."].

(** [/^[0-9a-fA-F]{64}$/]. *)
Definition is_hex_key (s : string) : bool :=
  (String.length s =? 64)%nat && all_chars (fun c => bool_decide (is_Some (hex_value c))) s.

(** [Buffer.from(s, "hex")] of hex digits. *)
Fixpoint hex_decode (s : string) : string :=
  match s with
  | String a (String b s') => String (byte_of ((hex_value a ?? 0) * 16 + (hex_value b ?? 0))) (hex_decode s')
  | _ => ""
  end.

Definition decodeAndValidate (source content : string) : outcome error string :=
  let trimmed := trim content in
  let hex := hex_decode trimmed in
  if is_hex_key trimmed && (String.length hex =? AES_KEY_BYTES)%nat then Ok hex
  else
    let decoded := base64_decode trimmed in
    if (String.length decoded =? AES_KEY_BYTES)%nat then Ok decoded
    else Throw (JsError ("Invalid encryption key at " +:+ source +:+ ": expected 32 bytes, got " +:+
           pretty (String.length decoded) +:+ " bytes after base64 decode." +:+ bytes [10%nat] +:+ keyGenerationHelp)).

(** [path.dirname] of a path with a directory, or a bare name. *)
Definition before_last_slash (s : string) : option string :=
  match rev (split_on (fun c => bool_decide (c = slash)) s) with
  | _ :: (_ :: _) as dirs => Some (join "/" (rev (tail dirs)))
  | _ => None
  end.

(** [path.join(path.dirname(dbPath), KEY_FILENAME)] of a normalised path. *)
Definition key_file_path (dbPath : string) : string :=
  match before_last_slash dbPath with
  | Some dir => dir +:+ "/" +:+ SECRETS_KEY_FILENAME
  | None => SECRETS_KEY_FILENAME
  end.

Definition remember (key : string) : KeyM string :=
  _ ← modify (fun st => st <| ks_cached := Some key |>);
  mret key.

Definition decode_and_remember (source content : string) : KeyM string :=
  key ← from_outcome (decodeAndValidate source content);
  remember key.

Definition refusing_to_generate (keyFilePath : string) : error :=
  JsError ("Refusing to auto-generate .secrets-key for an existing database with encrypted webhook secrets. Restore AGENT_FS_SECRETS_KEY, AGENT_FS_SECRETS_KEY_FILE, or "
    +:+ keyFilePath +:+ " before booting.").

(** [writeFileSync(path, content, { flag: "wx" })]: whether the file was there. *)
Definition write_new (dr : KeyDraw) (path content : string) : KeyM (option string) :=
  _ ← modify (fun st => match dr.(kd_race) with
                        | Some c => st <| ks_files ::= <[path := c]> |>
                        | None => st
                        end);
  existing ← gets (fun st => st.(ks_files) !! path);
  match existing, dr.(kd_write_error) with
  | Some c, _ => mret (Some c)
  | None, Some e => throw e
  | None, None => _ ← modify (fun st => st <| ks_files ::= <[path := content]> |>); mret None
  end.

Definition generate_key (dr : KeyDraw) (keyFilePath : string) : KeyM string :=
  existing ← write_new dr keyFilePath (base64_encode dr.(kd_random));
  match existing with
  | Some content => decode_and_remember ("file:" +:+ keyFilePath) content
  | None => remember dr.(kd_random)
  end.

(** Steps 3 and 4: the file beside the database. *)
Definition key_beside_db (env : KeyEnv) (dr : KeyDraw) (allowGenerate : bool) : KeyM string :=
  let keyFilePath := key_file_path env.(ke_dbPath) in
  content ← gets (fun st => st.(ks_files) !! keyFilePath);
  match content with
  | Some c => decode_and_remember ("file:" +:+ keyFilePath) c
  | None =>
      _ ← throw_if (negb allowGenerate) (refusing_to_generate keyFilePath);
      generate_key dr keyFilePath
  end.

Definition resolveEncryptionKey (env : KeyEnv) (dr : KeyDraw) (allowGenerate : bool) : KeyM string :=
  cached ← gets ks_cached;
  match cached with
  | Some key => mret key
  | None =>
      match truthy env.(ke_key), truthy env.(ke_keyFile) with
      | Some envKey, _ => decode_and_remember ("env:" +:+ SECRETS_KEY_ENV) envKey
      | None, Some file =>
          content ← gets (fun st => st.(ks_files) !! file);
          match content with
          | None => throw (JsError ("Invalid encryption key at env:AGENT_FS_SECRETS_KEY_FILE (" +:+ file +:+ "): file does not exist"))
          | Some c => decode_and_remember ("env:" +:+ SECRETS_KEY_FILE_ENV +:+ " (" +:+ file +:+ ")") c
          end
      | None, None =>
          if bool_decide (env.(ke_dbPath) = ":memory:") then
            throw (JsError "In-memory database requires AGENT_FS_SECRETS_KEY or AGENT_FS_SECRETS_KEY_FILE to be set explicitly")
          else key_beside_db env dr allowGenerate
      end
  end.

Definition getEncryptionKey : KeyM string :=
  cached ← gets ks_cached;
  some_or_throw cached (JsError "Encryption key not resolved yet — call resolveEncryptionKey(dbPath) first").

Definition hasEncryptedRows (db : Db) : bool :=
  match db.(webhookSubscriptions) with [] => false | _ => true end.

Definition getWebhookSecretKey (env : KeyEnv) (dr : KeyDraw) (db : Db) : KeyM string :=
  cached ← gets ks_cached;
  match cached with
  | Some key => mret key
  | None => resolveEncryptionKey env dr (negb (hasEncryptedRows db))
  end.

(** ** What a later process finds *)

(** The key that the environment and the files hold, without generating one. *)
Definition source_key (env : KeyEnv) (files : gmap string string) : option string :=
  let decoded content := match decodeAndValidate "" content with Ok key => Some key | Throw _ => None end in
  match truthy env.(ke_key), truthy env.(ke_keyFile) with
  | Some envKey, _ => decoded envKey
  | None, Some file => files !! file ≫= decoded
  | None, None =>
      if bool_decide (env.(ke_dbPath) = ":memory:") then None
      else files !! key_file_path env.(ke_dbPath) ≫= decoded
  end.

(** The cached key is the one a fresh process would find. *)
Definition key_wf (env : KeyEnv) (st : KeyState) : Prop :=
  forall key, st.(ks_cached) = Some key -> source_key env st.(ks_files) = Some key /\ String.length key = AES_KEY_BYTES.

Lemma decode_ok source content key :
  decodeAndValidate source content = Ok key -> decodeAndValidate "" content = Ok key /\ String.length key = AES_KEY_BYTES.
Proof.
  unfold decodeAndValidate. destruct (_ && _) eqn:E.
  - intros [= <-]. split; [done|]. apply andb_true_iff in E as [_ E]. by apply Nat.eqb_eq.
  - destruct (Nat.eqb_spec (String.length (base64_decode (trim content))) AES_KEY_BYTES); [|done]. by intros [= <-].
Qed.

Lemma encoding_no_space s : all_chars never_space (base64_encode s) = true.
Proof.
  assert (Hc : forall c, is_base64_char c = true -> never_space c = true).
  { intros c. destruct c as [[] [] [] [] [] [] [] []]; vm_compute; done. }
  unfold base64_encode. rewrite all_chars_app, andb_true_iff. split.
  - pose proof (sextets_are_base64 _ (to_sextets_range s)) as H. revert H.
    generalize (of_chars (sextet_char false <$> to_sextets s)). intros t. induction t as [|d t IH]; [done|]. cbn [all_chars].
    intros [Hd Ht]%andb_true_iff. by rewrite Hc, IH.
  - by destruct (padding_short s) as [-> |[-> | ->]].
Qed.

(** The file of a generated key holds that key. *)
Lemma generated_key_decodes source random : String.length random = AES_KEY_BYTES ->
  decodeAndValidate source (base64_encode random) = Ok random.
Proof.
  intros Hr. unfold decodeAndValidate. rewrite trim_no_space by apply encoding_no_space.
  assert (Hlen : String.length (base64_encode random) = 44%nat).
  { destruct (base64_groups random) as [k Hk].
    unfold base64_encode in Hk |- *. rewrite length_app_str, length_of_chars, length_fmap in Hk |- *.
    assert (Hs : length (to_sextets random) = 43%nat).
    { clear Hk. do 32 (destruct random as [|? random]; [discriminate|]). by destruct random. }
    destruct (padding_short random) as [Hp|[Hp|Hp]]; rewrite Hs, Hp in *; cbn in *; lia. }
  unfold is_hex_key. rewrite Hlen, base64_round_trip, Hr. done.
Qed.

(** After a call: the cache is sound, a returned key is cached, and the files
    are as before when no key may be generated. *)
Definition resolved (env : KeyEnv) (allowGenerate : bool) (st : KeyState) (r : outcome error string * KeyState) : Prop :=
  key_wf env r.2 /\ (forall key, r.1 = Ok key -> r.2.(ks_cached) = Some key) /\
  (allowGenerate = false -> r.2.(ks_files) = st.(ks_files)).

Lemma decode_and_remember_resolved env allow source content st0 st :
  (forall key, decodeAndValidate "" content = Ok key -> source_key env st.(ks_files) = Some key) ->
  key_wf env st -> (allow = false -> st.(ks_files) = st0.(ks_files)) ->
  resolved env allow st0 (decode_and_remember source content st).
Proof.
  intros Hsource Hwf Hfiles. unfold decode_and_remember, from_outcome, remember, mbind, M_bind.
  destruct (decodeAndValidate source content) as [key|e] eqn:E; [|done].
  apply decode_ok in E as [Hd Hlen]. split; [|split; [|done]].
  - intros k. cbn. intros [= <-]. auto.
  - intros k. cbn. by intros [= <-].
Qed.

Lemma resolve_resolved env dr allow st :
  String.length dr.(kd_random) = AES_KEY_BYTES -> key_wf env st ->
  resolved env allow st (resolveEncryptionKey env dr allow st).
Proof.
  intros Hr Hwf. unfold resolveEncryptionKey, mbind at 1, M_bind at 1, gets at 1.
  destruct (ks_cached st) as [key|] eqn:Hc; [split; [exact Hwf|split; [by intros k [= <-]|done]]|].
  destruct (truthy (ke_key env)) as [v|] eqn:Hk.
  { apply decode_and_remember_resolved; [|done..]. intros key Hd. unfold source_key. by rewrite Hk, Hd. }
  destruct (truthy (ke_keyFile env)) as [file|] eqn:Hf.
  { unfold mbind, M_bind, gets. destruct (ks_files st !! file) as [c|] eqn:Hfile; [|done].
    apply decode_and_remember_resolved; [|done..]. intros key Hd. unfold source_key. rewrite Hk, Hf, Hfile.
    cbn. by rewrite Hd. }
  destruct (bool_decide (ke_dbPath env = ":memory:")) eqn:Hm; [done|].
  assert (Hbeside : forall files c key, files !! key_file_path env.(ke_dbPath) = Some c ->
    decodeAndValidate "" c = Ok key -> source_key env files = Some key).
  { intros files c key Hfile Hd. unfold source_key. rewrite Hk, Hf, Hm, Hfile. cbn. by rewrite Hd. }
  unfold key_beside_db, mbind, M_bind, gets.
  destruct (ks_files st !! _) as [c|] eqn:Hfile.
  { apply decode_and_remember_resolved; [|done..]. intros key. by apply Hbeside. }
  destruct allow; [|done]. cbn [negb throw_if mret M_ret].
  unfold generate_key, write_new, mbind, M_bind, modify, gets.
  set (st1 := match kd_race dr with Some c => _ | None => st end).
  assert (Hc1 : ks_cached st1 = None) by (unfold st1; by destruct (kd_race dr)).
  destruct (ks_files st1 !! _) as [c|] eqn:Hfile1.
  { apply decode_and_remember_resolved; [intros key; by apply Hbeside| |done]. intros key. congruence. }
  destruct (kd_write_error dr); [split; [intros key; cbn; congruence|done]|].
  split; [|split; [|done]].
  - intros key. cbn. intros [= <-]. split; [|done]. eapply Hbeside; [apply lookup_insert_eq|].
    by apply generated_key_decodes.
  - intros key. cbn. by intros [= <-].
Qed.

(** The key once found, or the refusal, for any state of the database. *)
Lemma secret_key_resolved env dr db st :
  String.length dr.(kd_random) = AES_KEY_BYTES -> key_wf env st ->
  resolved env (negb (hasEncryptedRows db)) st (getWebhookSecretKey env dr db st).
Proof.
  intros Hr Hwf. unfold getWebhookSecretKey, mbind, M_bind, gets.
  destruct (ks_cached st) as [key|] eqn:Hc; [|by apply resolve_resolved].
  split; [exact Hwf|split; [by intros k [= <-]|done]].
Qed.

(** A process that starts over the same environment and files finds the key. *)
Lemma source_key_found env dr db st key :
  key_wf env st -> source_key env st.(ks_files) = Some key ->
  getWebhookSecretKey env dr db st = (Ok key, st <| ks_cached := Some key |>).
Proof.
  intros Hwf Hsource. unfold getWebhookSecretKey, mbind at 1, M_bind at 1, gets at 1.
  destruct (ks_cached st) as [k|] eqn:Hc.
  { destruct (Hwf _ Hc) as [Hs _]. rewrite Hs in Hsource. injection Hsource as ->. destruct st. cbn in Hc. by subst. }
  assert (Hdec : forall source content,
    match decodeAndValidate "" content with Ok k => Some k | Throw _ => None end = Some key ->
    decode_and_remember source content st = (Ok key, st <| ks_cached := Some key |>)).
  { intros source content Hd. unfold decode_and_remember, from_outcome, mbind, M_bind.
    assert (Hsame : forall k, decodeAndValidate "" content = Ok k -> decodeAndValidate source content = Ok k).
    { intros k. unfold decodeAndValidate. destruct (_ && _); [done|]. by destruct (_ =? _)%nat. }
    destruct (decodeAndValidate "" content) as [k|] eqn:E; [|done]. injection Hd as ->. by rewrite (Hsame _ eq_refl). }
  unfold resolveEncryptionKey, mbind at 1, M_bind at 1, gets at 1. rewrite Hc. revert Hsource. unfold source_key.
  destruct (truthy (ke_key env)); [apply Hdec|].
  destruct (truthy (ke_keyFile env)) as [file|]; [unfold mbind, M_bind, gets|].
  - destruct (ks_files st !! file); [apply Hdec|done].
  - destruct (bool_decide (ke_dbPath env = ":memory:")); [done|]. unfold key_beside_db, mbind, M_bind, gets.
    destruct (ks_files st !! _); [apply Hdec|done].
Qed.
