(* ===== verification/Mentions.v ===== *)
(** * Mentions and the comment outbox: core/src/ops/comment-mentions.ts, webhooks/outbox.ts

    Who is mentioned in a comment and is told so, and [enqueueCommentWebhooks],
    which writes a delivery per event and subscription that wants it.  All of it
    runs inside the transaction of the comment op that calls it. *)

From S2P Require Import Prelude JsString Errors Paths Schema Rbac Drives Storage GlobCache Text Utf16 World Outbox.

Definition COMMENT_NOTIFICATION_EVENT : string := "comment_notification".
Definition COMMENT_MENTION_EVENT : string := "comment_mention".

(** ** resolveMentions *)

Definition mention_error (message : string) (suggestion : option string) : error :=
  ValidationError message (Some "mentions") suggestion.

(** One entry: a member's id, or the email of exactly one member. *)
Definition resolve_mention {rt : Runtime} (members : list (string * string * option string)) (entry : string)
    : outcome error string :=
  let unknown := mention_error ("Mention target is not a member of this drive: " +:+ entry) None in
  match truthy (get_row (fun id => id = entry) (fst ∘ fst <$> members)) with
  | Some userId => Ok userId
  | None =>
      match (fst ∘ fst) <$> filter (fun m => toLowerCase m.1.2 = toLowerCase entry) members with
      | [] => Throw unknown
      | [userId] => match truthy (Some userId) with Some u => Ok u | None => Throw unknown end
      | _ => Throw (mention_error ("Mention email matches multiple drive members: " +:+ entry)
                      (Some "Use a user ID to select the intended drive member"))
      end
  end.

(** [resolved.add(userId)] of a [Set]. *)
Definition set_add (x : string) (l : list string) : list string := if bool_decide (x ∈ l) then l else l ++ [x].

Fixpoint resolve_entries {rt : Runtime} (members : list (string * string * option string)) (self : string)
    (resolved raw : list string) : outcome error (list string) :=
  match raw with
  | [] => Ok resolved
  | entry :: rest =>
      userId ← resolve_mention members entry;
      resolve_entries members self (if bool_decide (userId <> self) then set_add userId resolved else resolved) rest
  end.

Definition resolveMentions {rt : Runtime} (db : Db) (ctx : OpContext) (raw : list string) : outcome error (list string) :=
  resolve_entries (listDriveMembersPublic db ctx.(op_driveId)) ctx.(op_userId) [] raw.

(** ** saveMentions and the notification events *)

Definition is_mention (commentId userId : string) (m : CommentMention) : Prop :=
  m.(men_commentId) = commentId /\ m.(men_userId) = userId.
#[export] Instance is_mention_dec c u m : Decision (is_mention c u m).
Proof. unfold is_mention. apply _. Defined.

Definition comment_exists (id : string) (db : Db) : bool := exists_row (fun c => c.(com_id) = id) db.(comments).

(** One row of [INSERT ... ON CONFLICT DO NOTHING RETURNING user_id]. *)
Definition insert_mention (r : CommentMention) : DbM (list string) := fun db =>
  if exists_row (is_mention r.(men_commentId) r.(men_userId)) db.(commentMentions) then (Ok [], db)
  else if comment_exists r.(men_commentId) db && user_exists r.(men_userId) db
  then (Ok [r.(men_userId)], db <| commentMentions ::= fun t => t ++ [r] |>)
  else (Throw sqlite_foreign_key, db).

(** The users who were not mentioned yet. *)
Definition saveMentions (commentId : string) (userIds : list string) (now : Z) : DbM (list string) :=
  if bool_decide (userIds = []) then mret []
  else transaction (
    inserted ← map_m userIds (fun userId => insert_mention (Build_CommentMention commentId userId (ts_sec now)));
    mret (mjoin inserted)).

(** [JSON.stringify({ path, parentId })]: an undefined property is left out. *)
Definition comment_metadata (path : string) (parentId : option string) : json :=
  JObj (("path", JStr path) :: match parentId with Some p => [("parentId", JStr p)] | None => [] end).

(** [ids i]: the random id drawn for the [i]-th user. *)
Definition emitCommentNotificationEvents (ids : nat -> string) (ctx : OpContext) (eventType commentId : string)
    (userIds : list string) (metadata : json) (createdAt : Z) : DbM (list (string * string)) :=
  if bool_decide (userIds = []) then mret []
  else
    let rows := imap (fun i userId => (ids i, userId)) userIds in
    _ ← transaction (for_each rows (fun r =>
          insert_event (Build_Event r.1 ctx.(op_orgId) eventType "comment" commentId ctx.(op_userId) (Some r.2)
                          EvCreated (Some metadata) (ts_sec createdAt))));
    mret rows.

Definition emitMentionNotifications (ids : nat -> string) (ctx : OpContext) (commentId path : string)
    (parentId : option string) (userIds : list string) (createdAt : Z) : DbM (list (string * string)) :=
  emitCommentNotificationEvents ids ctx COMMENT_MENTION_EVENT commentId userIds (comment_metadata path parentId) createdAt.

(** ** addMentions *)

Record Mention : Type := { mn_userId : string; mn_email : string; mn_displayName : option string }.

(** The mentions of one comment, oldest first ([ORDER BY created_at] leaves the
    order of rows of one second open; here it is the order they were added in). *)
Definition mentions_of (db : Db) (commentId : string) : list Mention :=
  m ← sort_by (fun a b => a.(men_createdAt) <=? b.(men_createdAt))
        (filter (fun m => m.(men_commentId) = commentId) db.(commentMentions));
  (fun u => {| mn_userId := u.(usr_id); mn_email := u.(usr_email); mn_displayName := u.(usr_displayName) |}) <$>
    filter (fun u => u.(usr_id) = m.(men_userId)) db.(users).

(** ** The comment half of outbox.ts *)

Record CommentWebhookEvent : Type := {
  cw_eventId : string;
  cw_internalType : string;
  cw_mentionedUserId : option string
}.

Definition webhook_type (internalType : string) : option string :=
  snd <$> get_row (fun p => p.1 = internalType) INTERNAL_TO_WEBHOOK.

(** The subscriptions in scope whose event types are readable. *)
Definition comment_subscribers (db : Db) (orgId driveId : string) : list (string * list string) :=
  omap (fun s => (fun types => (s.(sub_id), types)) <$> parseEventTypes s.(sub_eventTypes))
    (filter (in_scope orgId driveId) db.(webhookSubscriptions)).

(** Each event with its webhook type and the subscriptions that want it. *)
Definition webhook_work (subs : list (string * list string)) (events_ : list CommentWebhookEvent)
    : list (CommentWebhookEvent * string * list string) :=
  omap (fun event =>
      type ← webhook_type event.(cw_internalType);
      let subIds := fst <$> filter (fun s : string * list string => type ∈ s.2) subs in
      if bool_decide (subIds = []) then None else Some (event, type, subIds)) events_.

(** Row order is order of first appearance; [sort_by] is stable. *)
Definition thread_participants (db : Db) (userId driveId parentId : string) : list string :=
  let rows := filter (fun c => c.(com_driveId) = driveId /\
                (c.(com_id) = parentId \/ c.(com_parentId) = Some parentId) /\
                c.(com_isDeleted) = false /\ c.(com_author) <> userId) db.(comments) in
  let first author := foldr Z.min (2 ^ 63) (com_createdAt <$> filter (fun c => c.(com_author) = author) rows) in
  sort_by (fun a b => first a <=? first b) (foldl (fun l c => set_add c.(com_author) l) [] rows).

Definition user_ref (db : Db) (id : string) : json :=
  let u := get_row (fun u => u.(usr_id) = id) db.(users) in
  JObj [("id", JStr id); ("email", opt_str (usr_email <$> u)); ("displayName", opt_str (u ≫= usr_displayName))].

Definition comment_json (db : Db) (comment : Comment_) : json :=
  let '(body, truncated) := truncateWebhookBody (to_utf16 comment.(com_body)) in
  JObj [("id", JStr comment.(com_id)); ("parentId", opt_str comment.(com_parentId));
        ("body", JStr (of_utf16 body)); ("bodyTruncated", JBool truncated);
        ("quote", match truthy comment.(com_quoteExact) with
                  | Some exact => JObj [("exact", JStr exact); ("prefix", opt_str comment.(com_quotePrefix));
                                        ("suffix", opt_str comment.(com_quoteSuffix))]
                  | None => JNull
                  end);
        ("lineStart", opt_num comment.(com_lineStart)); ("lineEnd", opt_num comment.(com_lineEnd));
        ("resolved", JBool comment.(com_resolved)); ("createdAt", JDate comment.(com_createdAt));
        ("updatedAt", JDate comment.(com_updatedAt)); ("author", user_ref db comment.(com_author));
        ("mentions", JArr ((fun m => JObj [("id", JStr m.(mn_userId)); ("email", JStr m.(mn_email));
                                           ("displayName", opt_str m.(mn_displayName))])
                           <$> mentions_of db comment.(com_id)))].

Definition comment_payload (db : Db) (ctx : OpContext) (comment : Comment_) (event : CommentWebhookEvent)
    (type : string) (at_ : Z) : json :=
  JObj [("type", JStr type); ("timestamp", JDate at_);
        ("data", JObj ([("eventId", JStr event.(cw_eventId)); ("orgId", JStr ctx.(op_orgId));
            ("driveId", JStr comment.(com_driveId)); ("path", JStr comment.(com_path))] ++
          match truthy ctx.(op_appUrl) with
          | Some url => [("url", JStr (buildAppUrl url ctx.(op_orgId) comment.(com_driveId) comment.(com_path)))]
          | None => []
          end ++
          [("actor", user_ref db ctx.(op_userId)); ("comment", comment_json db comment)] ++
          match truthy event.(cw_mentionedUserId) with
          | Some u => if bool_decide (type = "comment.mentioned") then [("mentioned", user_ref db u)] else []
          | None => []
          end ++
          match truthy comment.(com_parentId) with
          | Some root => [("thread", JObj [("rootId", JStr root);
                            ("participants", JArr (user_ref db <$>
                               thread_participants db ctx.(op_userId) comment.(com_driveId) root))])]
          | None => []
          end))].

(** [ON CONFLICT (subscription_id, event_id) DO NOTHING]: whether the row went in. *)
Definition insert_delivery_once (r : WebhookDelivery) : DbM bool := fun db =>
  if exists_row (fun d => d.(del_subscriptionId) = r.(del_subscriptionId) /\ d.(del_eventId) = r.(del_eventId))
       db.(webhookDeliveries)
  then (Ok false, db)
  else (_ ← insert_delivery r; mret true) db.

(** The delivery rows, in order: event by event, subscription by subscription. *)
Definition comment_deliveries (uuids : nat -> string) (db : Db) (ctx : OpContext) (comment : Comment_)
    (events_ : list CommentWebhookEvent) (at_ : Z) : list WebhookDelivery :=
  let work := webhook_work (comment_subscribers db ctx.(op_orgId) ctx.(op_driveId)) events_ in
  imap (fun i e => e (uuids i))
    (w ← work;
     (fun subId id => pending_delivery id subId w.1.1.(cw_eventId) w.1.2
                        (comment_payload db ctx comment w.1.1 w.1.2 at_) at_) <$> w.2).

Definition enqueueCommentWebhooks (uuids : nat -> string) (ctx : OpContext) (comment : Comment_)
    (events_ : list CommentWebhookEvent) (at_ : Z) : DbM nat :=
  rows ← gets (fun db => comment_deliveries uuids db ctx comment events_ at_);
  inserted ← transaction (map_m rows insert_delivery_once);
  mret (length (filter (fun b => b = true) inserted)).
