(* ===== verification/Webhooks.v ===== *)
(** * The webhook ops: core/src/ops/webhook.ts, webhooks/subscriptions.ts, deliveries.ts

    The seven ops over the subscriptions and their deliveries, with the
    authorization of a hook by its scope, the public shapes (which have no field
    for the secret) and the cursor of the delivery log.  [WhState] is what an op
    can change: the database, the key of the secrets, and how often the worker
    was woken.  An op runs as one computation; the await inside
    [assertWebhookUrl] is not cut.  Dates are epoch milliseconds, stored JSON is
    a value.  The contracts are in WebhookSpec. *)

From S2P Require Import Prelude JsString Errors Paths Schema Rbac Text Storage GlobCache World Outbox Worker Address Egress Utf16 Base64 Signature SecretKey Mentions.

Section Webhooks.
Context {rt : Runtime} {cr : Crypto}.

Record WhState : Type := { wh_db : Db; wh_keys : KeyState; wh_wakeups : nat }.
#[export] Instance WhState_eta : Eta WhState := fun r => Build_WhState r.(wh_db) r.(wh_keys) r.(wh_wakeups).

Definition WhM (A : Type) : Type := M error WhState A.

Definition wh_in_db {A} (m : DbM A) : WhM A := on wh_db (fun db st => st <| wh_db := db |>) m.
Definition wh_in_keys {A} (m : KeyM A) : WhM A := on wh_keys (fun ks st => st <| wh_keys := ks |>) m.
Definition wh_query {A} (f : Db -> outcome error A) : WhM A := reads (fun st => f st.(wh_db)).

(** The environment: URLs and DNS, the variables the ops read. *)
Record WhEnv : Type := {
  we_parse : string -> option Url;
  we_resolve : string -> outcome error (list string);
  we_allowedHosts : option string;
  we_allowPrivate : option string;
  we_key : KeyEnv;
  we_worker : option string;   (* AGENT_FS_WEBHOOK_WORKER *)
  we_send : SendEnv;
  we_gcm_message : string
}.

(** Random draws of one op. *)
Record WhDraws : Type := { wd_id : string; wd_secret : string; wd_iv : string; wd_key : KeyDraw }.

(** ** subscriptions.ts *)

Inductive WebhookScope : Type := ScopeDrive | ScopeOrg.
#[export] Instance WebhookScope_eq_dec : EqDecision WebhookScope.
Proof. solve_decision. Defined.

Record PublicWebhook : Type := {
  pw_id : string;
  pw_scope : WebhookScope;
  pw_driveId : option string;
  pw_url : string;
  pw_description : option string;
  pw_eventTypes : list string;
  pw_pathPrefix : option string;
  pw_enabled : bool;
  pw_disabledReason : option DisabledReason;
  pw_disabledAt : option Z;
  pw_consecutiveFailures : Z;
  pw_lastSuccessAt : option Z;
  pw_lastFailureAt : option Z;
  pw_createdBy : string;
  pw_createdAt : Z;
  pw_updatedAt : Z;
  pw_workerEnabled : bool
}.

Definition isWebhookWorkerEnabled (raw : option string) : bool :=
  let value := (fun s => toLowerCase (trim s)) <$> raw in
  bool_decide (value = Some "true") || bool_decide (value = Some "1").

Definition authorizeWebhookScope (db : Db) (ctx : OpContext) (scope : WebhookScope) : outcome error unit :=
  match scope with
  | ScopeDrive => _ ← requireDriveAdmin db ctx.(op_userId) ctx.(op_driveId); Ok tt
  | ScopeOrg => _ ← requireOrgRole db ctx.(op_userId) ctx.(op_orgId) Admin; Ok tt
  end.

Definition scopeOf (row : WebhookSubscription) : WebhookScope :=
  match truthy row.(sub_driveId) with Some _ => ScopeDrive | None => ScopeOrg end.

(** An org hook of the caller's org, or a drive hook of the caller's drive in it. *)
Definition hook_visible (ctx : OpContext) (id : string) (s : WebhookSubscription) : Prop :=
  s.(sub_id) = id /\ s.(sub_orgId) = ctx.(op_orgId) /\
  (s.(sub_driveId) = None \/ s.(sub_driveId) = Some ctx.(op_driveId)).
#[export] Instance hook_visible_dec ctx id s : Decision (hook_visible ctx id s).
Proof. unfold hook_visible. apply _. Defined.

Definition getScopedSubscription (db : Db) (ctx : OpContext) (id : string) : outcome error WebhookSubscription :=
  match get_row (hook_visible ctx id) db.(webhookSubscriptions) with
  | None => Throw (NotFoundError ("Webhook not found: " +:+ id) None
                     (Some "Run webhook-list to see the hooks of this drive and org"))
  | Some row => _ ← authorizeWebhookScope db ctx (scopeOf row); Ok row
  end.

Definition parseStoredEventTypes (raw : json) : list string :=
  match raw with
  | JArr l => omap (fun t => match t with JStr s => if isWebhookEventType s then Some s else None | _ => None end) l
  | _ => []
  end.

Definition toPublic (env : WhEnv) (row : WebhookSubscription) : PublicWebhook := {|
  pw_id := row.(sub_id);
  pw_scope := scopeOf row;
  pw_driveId := row.(sub_driveId);
  pw_url := row.(sub_url);
  pw_description := row.(sub_description);
  pw_eventTypes := parseStoredEventTypes row.(sub_eventTypes);
  pw_pathPrefix := row.(sub_pathPrefix);
  pw_enabled := row.(sub_enabled);
  pw_disabledReason := row.(sub_disabledReason);
  pw_disabledAt := row.(sub_disabledAt);
  pw_consecutiveFailures := row.(sub_consecutiveFailures);
  pw_lastSuccessAt := row.(sub_lastSuccessAt);
  pw_lastFailureAt := row.(sub_lastFailureAt);
  pw_createdBy := row.(sub_createdBy);
  pw_createdAt := row.(sub_createdAt);
  pw_updatedAt := row.(sub_updatedAt);
  pw_workerEnabled := isWebhookWorkerEnabled env.(we_worker)
|}.

(** ** deliveries.ts *)

Definition DEFAULT_DELIVERIES_LIMIT : nat := 50.
Definition MAX_DELIVERIES_LIMIT : nat := 200.

Record PublicDelivery : Type := {
  pd_id : string;
  pd_subscriptionId : string;
  pd_eventId : string;
  pd_eventType : string;
  pd_status : DeliveryStatus;
  pd_attempts : Z;
  pd_nextAttemptAt : option Z;
  pd_lastAttemptAt : option Z;
  pd_lastStatusCode : option Z;
  pd_lastError : option string;
  pd_deliveredAt : option Z;
  pd_createdAt : Z;
  pd_payload : option json
}.

Definition toPublicDelivery (row : WebhookDelivery) (includePayload : bool) : PublicDelivery := {|
  pd_id := row.(del_id);
  pd_subscriptionId := row.(del_subscriptionId);
  pd_eventId := row.(del_eventId);
  pd_eventType := row.(del_eventType);
  pd_status := row.(del_status);
  pd_attempts := row.(del_attempts);
  pd_nextAttemptAt := if decide (row.(del_status) = DsPending) then Some row.(del_nextAttemptAt) else None;
  pd_lastAttemptAt := row.(del_lastAttemptAt);
  pd_lastStatusCode := row.(del_lastStatusCode);
  pd_lastError := row.(del_lastError);
  pd_deliveredAt := row.(del_deliveredAt);
  pd_createdAt := row.(del_createdAt);
  pd_payload := if includePayload then Some row.(del_payload) else None
|}.

Record DeliveriesCursor : Type := { dc_createdAt : Z; dc_id : string }.

Definition encodeDeliveriesCursor (row : WebhookDelivery) : string :=
  base64url_encode (pretty row.(del_createdAt) +:+ ":" +:+ row.(del_id)).

Definition decodeDeliveriesCursor (cursor : string) : outcome error DeliveriesCursor :=
  let text := (decode_from 0 128 191 "" (base64_decode cursor)).1 in
  let '(ms, id) := match cut_first ":" text with
                   | Some (ms, id) => if bool_decide (ms = "") then ("", "") else (ms, id)
                   | None => ("", "")
                   end in
  if negb (all_digits ms) || bool_decide (id = "") then
    Throw (ValidationError "Invalid deliveries cursor" (Some "cursor")
             (Some "Pass the nextCursor value from the previous webhook-deliveries call"))
  else Ok {| dc_createdAt := digits_value 0 ms; dc_id := id |}.

Definition getScopedDelivery (db : Db) (ctx : OpContext) (deliveryId : string)
    : outcome error (WebhookDelivery * WebhookSubscription) :=
  match get_row (fun d => d.(del_id) = deliveryId /\
                   exists_row (hook_visible ctx d.(del_subscriptionId)) db.(webhookSubscriptions) = true)
          db.(webhookDeliveries) ≫= fun d =>
        (fun s => (d, s)) <$> get_row (hook_visible ctx d.(del_subscriptionId)) db.(webhookSubscriptions) with
  | None => Throw (NotFoundError ("Webhook delivery not found: " +:+ deliveryId) None
                     (Some "Run webhook-deliveries <webhook-id> to see a hook's deliveries"))
  | Some found => _ ← authorizeWebhookScope db ctx (scopeOf found.2); Ok found
  end.

(** ** Dates and JSON text *)

Definition pad (n : nat) (v : Z) : string :=
  let s := pretty v in of_chars (repeat "0"%char (n - String.length s)) +:+ s.

(** The civil date of a number of days since 1970-01-01, in the proleptic
    Gregorian calendar; years begin in March while it is computed. *)
Definition civil_of_days (days : Z) : Z * Z * Z :=
  let z := days + 719468 in
  let era := z / 146097 in
  let doe := z mod 146097 in
  let yoe := (doe - doe / 1460 + doe / 36524 - doe / 146096) / 365 in
  let doy := doe - (365 * yoe + yoe / 4 - yoe / 100) in
  let mp := (5 * doy + 2) / 153 in
  let month := if mp <? 10 then mp + 3 else mp - 9 in
  (yoe + era * 400 + (if month <=? 2 then 1 else 0), month, doy - (153 * mp + 2) / 5 + 1).

(** [toISOString] of a date of the years 0 to 9999. *)
Definition toISOString (ms : Z) : string :=
  let '(y, m, d) := civil_of_days (ms / 86400000) in
  let t := ms mod 86400000 in
  pad 4 y +:+ "-" +:+ pad 2 m +:+ "-" +:+ pad 2 d +:+ "T" +:+ pad 2 (t / 3600000) +:+ ":" +:+
  pad 2 (t / 60000 mod 60) +:+ ":" +:+ pad 2 (t / 1000 mod 60) +:+ "." +:+ pad 3 (t mod 1000) +:+ "Z".

(** [JSON.stringify] of a value. *)
Fixpoint json_text (j : json) : string :=
  match j with
  | JNull => "null"
  | JBool b => if b then "true" else "false"
  | JNum n => pretty n
  | JStr s => json_string s
  | JDate ms => json_string (toISOString ms)
  | JArr l => "[" +:+ join "," (map json_text l) +:+ "]"
  | JObj fields => "{" +:+ join "," (map (fun f => json_string f.1 +:+ ":" +:+ json_text f.2) fields) +:+ "}"
  end.

(** ** webhook.ts *)

Record WebhookCreateParams : Type := {
  wc_scope : option WebhookScope;
  wc_url : string;
  wc_eventTypes : list string;
  wc_description : option string;
  wc_pathPrefix : option string
}.

Record WebhookUpdateParams : Type := {
  wu_id : string;
  wu_url : option string;
  wu_eventTypes : option (list string);
  wu_description : option string;
  wu_pathPrefix : option string;
  wu_enabled : option bool;
  wu_rotateSecret : bool
}.

Definition hook_row (db : Db) (id : string) : option WebhookSubscription :=
  get_row (fun s => s.(sub_id) = id) db.(webhookSubscriptions).

(** [getRow(db, id)!]: reading a field of [undefined]. *)
Definition getRow (id : string) : WhM WebhookSubscription :=
  row ← gets (fun st => hook_row st.(wh_db) id);
  some_or_throw row (TypeError "undefined is not an object").

Definition normalizeDescription (description : option string) : option string := truthy (trim <$> description).

(** [err.message.replace(/^Path/, "pathPrefix")]. *)
Definition prefix_message (message : string) : string :=
  if starts_with "Path" message then "pathPrefix" +:+ drop_str 4 message else message.

Definition normalizeWebhookPathPrefix (pathPrefix : option string) : outcome error (option string) :=
  match truthy (trim <$> pathPrefix) with
  | None => Ok None
  | Some trimmed =>
      match assertPathInsideDrive trimmed with
      | Throw (ValidationError message _ _) =>
          Throw (ValidationError (prefix_message message) (Some "pathPrefix")
                   (Some "Give a directory inside the drive, e.g. /docs/"))
      | Throw e => Throw e
      | Ok _ =>
          let prefix := normalizePrefix trimmed in
          Ok (if bool_decide (prefix = "/") then None else Some prefix)
      end
  end.

(** [[...new Set(eventTypes)]]. *)
Definition encodeEventTypes (eventTypes : list string) : json :=
  JArr (JStr <$> foldl (fun l t => set_add t l) [] eventTypes).

Definition check_url (env : WhEnv) (url : string) : WhM unit :=
  from_outcome (_ ← assertWebhookUrl env.(we_parse) env.(we_resolve) env.(we_allowedHosts) env.(we_allowPrivate) url;
                Ok tt).

(** A fresh secret and its ciphertext under the key of the secrets. *)
Definition fresh_secret (env : WhEnv) (dr : WhDraws) : WhM (string * string) :=
  let secret := generateWebhookSecret dr.(wd_secret) in
  db ← gets wh_db;
  key ← wh_in_keys (getWebhookSecretKey env.(we_key) dr.(wd_key) db);
  secretCiphertext ← from_outcome (encryptSecret dr.(wd_iv) secret key);
  mret (secret, secretCiphertext).

Definition insert_subscription (row : WebhookSubscription) : DbM unit :=
  insert (fun db => first_taken [(exists_row (fun s => s.(sub_id) = row.(sub_id)) db.(webhookSubscriptions), "webhook_subscriptions.id")])
    (fun db => exists_row (fun o => o.(org_id) = row.(sub_orgId)) db.(orgs) &&
               match row.(sub_driveId) with
               | Some d => exists_row (fun x => x.(drv_id) = d) db.(drives)
               | None => true
               end && user_exists row.(sub_createdBy) db)
    (fun db => db <| webhookSubscriptions ::= fun t => t ++ [row] |>).

Definition org_hooks (orgId : string) (db : Db) : list WebhookSubscription :=
  filter (fun s => s.(sub_orgId) = orgId) db.(webhookSubscriptions).

Definition new_hook (dr : WhDraws) (now : Z) (ctx : OpContext) (params : WebhookCreateParams)
    (pathPrefix : option string) (secretCiphertext : string) : WebhookSubscription := {|
  sub_id := dr.(wd_id);
  sub_orgId := ctx.(op_orgId);
  sub_driveId := match params.(wc_scope) ?? ScopeDrive with ScopeDrive => Some ctx.(op_driveId) | ScopeOrg => None end;
  sub_url := params.(wc_url);
  sub_description := normalizeDescription params.(wc_description);
  sub_eventTypes := encodeEventTypes params.(wc_eventTypes);
  sub_pathPrefix := pathPrefix;
  sub_secretCiphertext := secretCiphertext;
  sub_enabled := true;
  sub_disabledReason := None;
  sub_disabledAt := None;
  sub_consecutiveFailures := 0;
  sub_failingSince := None;
  sub_lastSuccessAt := None;
  sub_lastFailureAt := None;
  sub_createdBy := ctx.(op_userId);
  sub_createdAt := now;
  sub_updatedAt := now
|}.

Definition insert_capped (row : WebhookSubscription) : DbM unit :=
  transaction (
    existing ← gets (fun db => length (org_hooks row.(sub_orgId) db));
    _ ← throw_if (MAX_SUBSCRIPTIONS_PER_ORG <=? existing)%nat
          (ValidationError ("This org already has " +:+ pretty existing +:+ " webhooks; the limit is 25") None
             (Some "Delete an unused webhook with webhook-delete first"));
    insert_subscription row).

Definition webhookCreate (env : WhEnv) (dr : WhDraws) (now : Z) (ctx : OpContext) (params : WebhookCreateParams)
    : WhM (PublicWebhook * string) :=
  _ ← wh_query (fun db => authorizeWebhookScope db ctx (params.(wc_scope) ?? ScopeDrive));
  _ ← check_url env params.(wc_url);
  pathPrefix ← from_outcome (normalizeWebhookPathPrefix params.(wc_pathPrefix));
  '(secret, secretCiphertext) ← fresh_secret env dr;
  _ ← wh_in_db (insert_capped (new_hook dr now ctx params pathPrefix secretCiphertext));
  row ← getRow dr.(wd_id);
  mret (toPublic env row, secret).

(** [scope]: [None] is the scope of all hooks. *)
Definition webhookList (env : WhEnv) (ctx : OpContext) (scope : option WebhookScope) : WhM (list PublicWebhook) :=
  '(includeDrive, includeOrg) ← wh_query (fun db =>
    match scope with
    | Some s => _ ← authorizeWebhookScope db ctx s;
                Ok (bool_decide (s = ScopeDrive), bool_decide (s = ScopeOrg))
    | None => _ ← requireDriveAdmin db ctx.(op_userId) ctx.(op_driveId);
              Ok (true, bool_decide (getUserOrgRole db ctx.(op_userId) ctx.(op_orgId) = Some Admin))
    end);
  gets (fun st =>
    let subs := st.(wh_db).(webhookSubscriptions) in
    let order := sort_by (fun a b => a.(sub_createdAt) <=? b.(sub_createdAt)) in
    toPublic env <$>
      (if includeOrg : bool then order (filter (fun s => s.(sub_orgId) = ctx.(op_orgId) /\ s.(sub_driveId) = None) subs) else []) ++
      (if includeDrive : bool then order (filter (fun s => s.(sub_orgId) = ctx.(op_orgId) /\ s.(sub_driveId) = Some ctx.(op_driveId)) subs) else [])).

(** The columns an update sets. *)
Definition set_hook (now : Z) (params : WebhookUpdateParams) (pathPrefix : option (option string))
    (secretCiphertext : option string) (s : WebhookSubscription) : WebhookSubscription :=
  let reset := bool_decide (params.(wu_enabled) = Some true) in
  {| sub_id := s.(sub_id);
     sub_orgId := s.(sub_orgId);
     sub_driveId := s.(sub_driveId);
     sub_url := params.(wu_url) ?? s.(sub_url);
     sub_description := match params.(wu_description) with
                        | Some d => normalizeDescription (Some d) | None => s.(sub_description) end;
     sub_eventTypes := match params.(wu_eventTypes) with Some l => encodeEventTypes l | None => s.(sub_eventTypes) end;
     sub_pathPrefix := pathPrefix ?? s.(sub_pathPrefix);
     sub_secretCiphertext := secretCiphertext ?? s.(sub_secretCiphertext);
     sub_enabled := if reset then true else s.(sub_enabled);
     sub_disabledReason := if reset then None else s.(sub_disabledReason);
     sub_disabledAt := if reset then None else s.(sub_disabledAt);
     sub_consecutiveFailures := if reset then 0 else s.(sub_consecutiveFailures);
     sub_failingSince := if reset then None else s.(sub_failingSince);
     sub_lastSuccessAt := s.(sub_lastSuccessAt);
     sub_lastFailureAt := s.(sub_lastFailureAt);
     sub_createdBy := s.(sub_createdBy);
     sub_createdAt := s.(sub_createdAt);
     sub_updatedAt := now |}.

Definition webhookUpdate (env : WhEnv) (dr : WhDraws) (now : Z) (ctx : OpContext) (params : WebhookUpdateParams)
    : WhM (PublicWebhook * option string) :=
  row ← wh_query (fun db => getScopedSubscription db ctx params.(wu_id));
  _ ← match params.(wu_url) with Some url => check_url env url | None => mret tt end;
  pathPrefix ← match params.(wu_pathPrefix) with
               | Some p => prefix ← from_outcome (normalizeWebhookPathPrefix (Some p)); mret (Some prefix)
               | None => mret None
               end;
  fresh ← (if params.(wu_rotateSecret) then f ← fresh_secret env dr; mret (Some f) else mret None);
  _ ← wh_in_db (transaction (
        _ ← modify (update_subscription row.(sub_id) (set_hook now params pathPrefix (snd <$> fresh)));
        when (bool_decide (params.(wu_enabled) = Some false) && row.(sub_enabled))
          (disableSubscription row.(sub_id) DrManual now)));
  updated ← getRow row.(sub_id);
  mret (toPublic env updated, fst <$> fresh).

(** The deliveries go with the hook (ON DELETE CASCADE). *)
Definition delete_hook (id : string) (db : Db) : Db :=
  db <| webhookSubscriptions ::= delete_where (fun s => s.(sub_id) = id) |>
     <| webhookDeliveries ::= delete_where (fun d => d.(del_subscriptionId) = id) |>.

Definition webhookDelete (ctx : OpContext) (id : string) : WhM unit :=
  row ← wh_query (fun db => getScopedSubscription db ctx id);
  wh_in_db (modify (delete_hook row.(sub_id))).

(** The body of the [ping]. *)
Definition ping_envelope (now : Z) (row : WebhookSubscription) : json :=
  JObj [("type", JStr "ping"); ("timestamp", JDate now);
        ("data", JObj [("subscriptionId", JStr row.(sub_id)); ("orgId", JStr row.(sub_orgId));
                       ("driveId", opt_str row.(sub_driveId))])].

Definition webhookTest (env : WhEnv) (dr : WhDraws) (now : Z) (ctx : OpContext) (id : string)
    : WhM (SendWebhookResult * string) :=
  row ← wh_query (fun db => getScopedSubscription db ctx id);
  db ← gets wh_db;
  key ← wh_in_keys (getWebhookSecretKey env.(we_key) dr.(wd_key) db);
  secret ← from_outcome (decryptSecret env.(we_gcm_message) row.(sub_secretCiphertext) key);
  let webhookId := "ping_" +:+ dr.(wd_id) in
  mret (sendWebhook env.(we_send) {| si_url := row.(sub_url); si_secret := secret; si_webhookId := webhookId;
                                     si_body := json_text (ping_envelope now row) |}, webhookId).

(** [createdAt < at OR (createdAt = at AND id < after.id)]; a time that is not a
    date of JavaScript matches nothing. *)
Definition after_cursor (cursor : DeliveriesCursor) (d : WebhookDelivery) : bool :=
  (cursor.(dc_createdAt) <=? 8640000000000000) &&
  ((d.(del_createdAt) <? cursor.(dc_createdAt)) ||
   ((d.(del_createdAt) =? cursor.(dc_createdAt)) && string_lt d.(del_id) cursor.(dc_id))).

(** [ORDER BY created_at DESC, id DESC]. *)
Definition newest_first (a b : WebhookDelivery) : bool :=
  (b.(del_createdAt) <? a.(del_createdAt)) ||
  ((a.(del_createdAt) =? b.(del_createdAt)) && string_le b.(del_id) a.(del_id)).

Record WebhookDeliveriesParams : Type := {
  wp_id : string;
  wp_status : option DeliveryStatus;
  wp_limit : option nat;
  wp_cursor : option string;
  wp_includePayload : bool
}.

(** The rows the conditions select. *)
Definition log_row (subId : string) (status : option DeliveryStatus) (after : option DeliveriesCursor)
    (d : WebhookDelivery) : Prop :=
  d.(del_subscriptionId) = subId /\
  match status with Some s => d.(del_status) = s | None => True end /\
  match after with Some c => after_cursor c d = true | None => True end.
#[export] Instance log_row_dec i s a d : Decision (log_row i s a d).
Proof. unfold log_row. destruct s, a; apply _. Defined.

Definition webhookDeliveries_op (ctx : OpContext) (params : WebhookDeliveriesParams)
    : WhM (list PublicDelivery * option string) :=
  sub ← wh_query (fun db => getScopedSubscription db ctx params.(wp_id));
  let limit := params.(wp_limit) ?? DEFAULT_DELIVERIES_LIMIT in
  after ← match params.(wp_cursor) with
          | Some c => a ← from_outcome (decodeDeliveriesCursor c); mret (Some a)
          | None => mret None
          end;
  gets (fun st =>
    let rows := take (limit + 1) (sort_by newest_first
                  (filter (log_row sub.(sub_id) params.(wp_status) after) st.(wh_db).(webhookDeliveries))) in
    let page := take limit rows in
    ((fun row => toPublicDelivery row params.(wp_includePayload)) <$> page,
     if (limit <? length rows)%nat then encodeDeliveriesCursor <$> last page else None)).

Definition reason_text (r : option DisabledReason) : string :=
  match r with Some DrGone => "gone" | Some DrFailing => "failing" | Some DrManual | None => "manual" end.

Definition webhookRedeliver (now : Z) (ctx : OpContext) (deliveryId : string) : WhM PublicDelivery :=
  row ← wh_in_db (transaction (
    found ← reads (fun db => getScopedDelivery db ctx deliveryId);
    let subscription := found.2 in
    _ ← throw_if (negb subscription.(sub_enabled))
          (ValidationError ("Webhook " +:+ subscription.(sub_id) +:+ " is disabled (" +:+
             reason_text subscription.(sub_disabledReason) +:+ "); its deliveries cannot be redelivered")
             (Some "deliveryId")
             (Some ("Re-enable it first: webhook update " +:+ subscription.(sub_id) +:+ " --enable")));
    _ ← redeliver_write found.1.(del_id) now;
    updated ← gets (fun db => get_row (fun d => d.(del_id) = found.1.(del_id)) db.(webhookDeliveries));
    some_or_throw updated (TypeError "undefined is not an object")));
  _ ← modify (fun st => st <| wh_wakeups ::= S |>);
  mret (toPublicDelivery row false).
End Webhooks.
