(* ===== verification/WebhookSpec.v ===== *)
(** * Contracts of the webhook ops

    The seven ops, with restarts of the process between them, as one type of
    steps.  [hooks_change] says what a step may do to the subscriptions; from it
    follow the cap on an org's hooks, the authority behind every change, and
    that each stored secret stays readable, under the key that every later
    process finds, until it is rotated.  The delivery log is paged without
    repeats or gaps. *)

From S2P Require Import Prelude JsString Errors Paths Schema Rbac Drives Text Storage GlobCache World Outbox Worker Address Egress Utf16 Base64 Signature SecretKey Mentions Webhooks.

(** ** Running over a part of the state *)

Lemma on_run {E S T A} (get : T -> S) (put : S -> T -> T) (m : M E S A) t :
  on get put m t = ((m (get t)).1, put (m (get t)).2 t).
Proof. unfold on. by destruct (m (get t)). Qed.

Lemma update_where_compose {R} (P : R -> Prop) `{forall r, Decision (P r)} (f g : R -> R) t :
  (forall r, P r -> P (f r)) -> update_where P g (update_where P f t) = update_where P (fun r => g (f r)) t.
Proof.
  intros Hf. unfold update_where. rewrite <- list_fmap_compose. apply list_fmap_ext. intros i r _. cbn.
  destruct (decide (P r)) as [Hr|Hr]; [by rewrite decide_True by auto|by rewrite decide_False].
Qed.

Section WebhookSpec.
Context {rt : Runtime} {cr : Crypto} (env : WhEnv).

(** ** Steps *)

Inductive wh_op : Type :=
| WCreate (dr : WhDraws) (ctx : OpContext) (params : WebhookCreateParams)
| WList (ctx : OpContext) (scope : option WebhookScope)
| WUpdate (dr : WhDraws) (ctx : OpContext) (params : WebhookUpdateParams)
| WDelete (ctx : OpContext) (id : string)
| WTest (dr : WhDraws) (ctx : OpContext) (id : string)
| WDeliveries (ctx : OpContext) (params : WebhookDeliveriesParams)
| WRedeliver (ctx : OpContext) (deliveryId : string)
| WRestart.  (* the process ends; its cached key is gone *)

Definition wh_step (now : Z) (op : wh_op) (st : WhState) : WhState :=
  match op with
  | WCreate dr ctx params => (webhookCreate env dr now ctx params st).2
  | WList ctx scope => (webhookList env ctx scope st).2
  | WUpdate dr ctx params => (webhookUpdate env dr now ctx params st).2
  | WDelete ctx id => (webhookDelete ctx id st).2
  | WTest dr ctx id => (webhookTest env dr now ctx id st).2
  | WDeliveries ctx params => (webhookDeliveries_op ctx params st).2
  | WRedeliver ctx id => (webhookRedeliver now ctx id st).2
  | WRestart => st <| wh_keys ::= fun ks => ks <| ks_cached := None |> |>
  end.

Definition wh_steps (ops : list (Z * wh_op)) (st : WhState) : WhState :=
  foldl (fun s o => wh_step o.1 o.2 s) st ops.

(** Random bytes come in the numbers the code asks for. *)
Definition draws_bytes (op : wh_op) : Prop :=
  match op with
  | WCreate dr _ _ | WUpdate dr _ _ | WTest dr _ _ =>
      String.length dr.(wd_secret) = 32%nat /\ String.length dr.(wd_iv) = IV_BYTES /\
      String.length dr.(wd_key).(kd_random) = AES_KEY_BYTES
  | _ => True
  end.

(** ** What a step does to the key *)

Definition keys_change (st st' : WhState) : Prop :=
  key_wf env.(we_key) st'.(wh_keys) /\
  (st.(wh_db).(webhookSubscriptions) <> [] -> st'.(wh_keys).(ks_files) = st.(wh_keys).(ks_files)).

Lemma keys_same st st' : key_wf env.(we_key) st.(wh_keys) -> st'.(wh_keys) = st.(wh_keys) -> keys_change st st'.
Proof. intros Hwf Hk. unfold keys_change. by rewrite Hk. Qed.

(** The state after [getWebhookSecretKey]. *)
Definition with_key (dr : WhDraws) (st : WhState) : WhState :=
  st <| wh_keys := (getWebhookSecretKey env.(we_key) dr.(wd_key) st.(wh_db) st.(wh_keys)).2 |>.

Lemma with_key_change dr st st' :
  String.length dr.(wd_key).(kd_random) = AES_KEY_BYTES -> key_wf env.(we_key) st.(wh_keys) ->
  st'.(wh_keys) = (with_key dr st).(wh_keys) -> keys_change st st'.
Proof.
  intros Hr Hwf Hk. unfold keys_change. rewrite Hk. cbn.
  destruct (secret_key_resolved env.(we_key) dr.(wd_key) st.(wh_db) st.(wh_keys) Hr Hwf) as (H1 & _ & H3).
  split; [done|]. intros Hrows. apply H3. unfold hasEncryptedRows. by destruct (webhookSubscriptions _).
Qed.

(** The ciphertext of the secret drawn, under the key then cached. *)
Definition secret_written (dr : WhDraws) (st' : WhState) (c : string) : Prop :=
  exists key, st'.(wh_keys).(ks_cached) = Some key /\
    encryptSecret dr.(wd_iv) (generateWebhookSecret dr.(wd_secret)) key = Ok c.

(** ** What a step does to the subscriptions *)

(** An update keeps the id, the org and the drive of a hook. *)
Definition keeps_place (g : WebhookSubscription -> WebhookSubscription) : Prop :=
  forall s, (g s).(sub_id) = s.(sub_id) /\ (g s).(sub_orgId) = s.(sub_orgId) /\ (g s).(sub_driveId) = s.(sub_driveId).

Inductive hooks_change (op : wh_op) (st st' : WhState) : list WebhookSubscription -> Prop :=
| hc_same : hooks_change op st st' st.(wh_db).(webhookSubscriptions)
| hc_create dr ctx params now prefix c :
    op = WCreate dr ctx params ->
    authorizeWebhookScope st.(wh_db) ctx (params.(wc_scope) ?? ScopeDrive) = Ok tt ->
    (length (org_hooks ctx.(op_orgId) st.(wh_db)) < MAX_SUBSCRIPTIONS_PER_ORG)%nat ->
    (forall s, s ∈ st.(wh_db).(webhookSubscriptions) -> s.(sub_id) <> dr.(wd_id)) ->
    secret_written dr st' c ->
    hooks_change op st st' (st.(wh_db).(webhookSubscriptions) ++ [new_hook dr now ctx params prefix c])
| hc_update dr ctx params row g :
    op = WUpdate dr ctx params ->
    getScopedSubscription st.(wh_db) ctx params.(wu_id) = Ok row ->
    keeps_place g ->
    (forall s, if params.(wu_rotateSecret) then secret_written dr st' (g s).(sub_secretCiphertext)
               else (g s).(sub_secretCiphertext) = s.(sub_secretCiphertext)) ->
    hooks_change op st st' (update_where (fun s => s.(sub_id) = row.(sub_id)) g st.(wh_db).(webhookSubscriptions))
| hc_delete ctx id row :
    op = WDelete ctx id -> getScopedSubscription st.(wh_db) ctx id = Ok row ->
    hooks_change op st st' (delete_where (fun s => s.(sub_id) = row.(sub_id)) st.(wh_db).(webhookSubscriptions)).

Definition step_change (op : wh_op) (st st' : WhState) : Prop :=
  keys_change st st' /\ hooks_change op st st' st'.(wh_db).(webhookSubscriptions).

Lemma unchanged op st st' :
  key_wf env.(we_key) st.(wh_keys) -> st'.(wh_keys) = st.(wh_keys) -> st'.(wh_db).(webhookSubscriptions) = st.(wh_db).(webhookSubscriptions) ->
  step_change op st st'.
Proof. intros Hwf Hk Hs. split; [by apply keys_same|]. rewrite Hs. constructor. Qed.

Lemma rekeyed op dr st st' :
  String.length dr.(wd_key).(kd_random) = AES_KEY_BYTES -> key_wf env.(we_key) st.(wh_keys) ->
  st'.(wh_keys) = (with_key dr st).(wh_keys) -> st'.(wh_db).(webhookSubscriptions) = st.(wh_db).(webhookSubscriptions) ->
  step_change op st st'.
Proof. intros Hr Hwf Hk Hs. split; [by eapply with_key_change|]. rewrite Hs. constructor. Qed.

(** A query changes nothing; a write of the database leaves the keys. *)
Lemma wh_query_run {A} (f : Db -> outcome error A) st : wh_query f st = (f st.(wh_db), st).
Proof. done. Qed.

Lemma wh_in_db_run {A} (m : DbM A) st :
  wh_in_db m st = ((m st.(wh_db)).1, st <| wh_db := (m st.(wh_db)).2 |>).
Proof. unfold wh_in_db, wh_in_keys. by rewrite on_run. Qed.

Lemma wh_in_keys_run {A} (m : KeyM A) st :
  wh_in_keys m st = ((m st.(wh_keys)).1, st <| wh_keys := (m st.(wh_keys)).2 |>).
Proof. unfold wh_in_db, wh_in_keys. by rewrite on_run. Qed.

Lemma fresh_secret_run dr st o st' : fresh_secret env dr st = (o, st') ->
  st' = with_key dr st /\
  forall s c, o = Ok (s, c) -> s = generateWebhookSecret dr.(wd_secret) /\
    exists key, getWebhookSecretKey env.(we_key) dr.(wd_key) st.(wh_db) st.(wh_keys) = (Ok key, st'.(wh_keys)) /\
      encryptSecret dr.(wd_iv) (generateWebhookSecret dr.(wd_secret)) key = Ok c.
Proof.
  unfold fresh_secret. intros [(db & st1 & [= <- <-] & H)|(e & [=] & _)]%bind_inv.
  apply bind_inv in H. rewrite wh_in_keys_run in H. unfold with_key.
  destruct (getWebhookSecretKey _ _ _ _) as [ok ks] eqn:Ek. cbn in H.
  destruct H as [(key & st1 & [= -> <-] & H)|(e & [= -> <-] & ->)]; [|split; [done|by intros s c [=]]].
  apply bind_inv in H as [(c & st2 & [= Hc <-] & [= <- <-])|(e & [= Hc <-] & ->)]; cbn; split; try done.
  intros s c' [= <- <-]. split; [done|]. by exists key.
Qed.

Lemma fresh_secret_written dr st s c st' :
  String.length dr.(wd_key).(kd_random) = AES_KEY_BYTES -> key_wf env.(we_key) st.(wh_keys) ->
  fresh_secret env dr st = (Ok (s, c), st') -> secret_written dr st' c.
Proof.
  intros Hr Hwf Hf. apply fresh_secret_run in Hf as [_ Hf]. destruct (Hf s c eq_refl) as (_ & key & Hk & He).
  exists key. split; [|done].
  destruct (secret_key_resolved env.(we_key) dr.(wd_key) st.(wh_db) st.(wh_keys) Hr Hwf) as (_ & H2 & _).
  rewrite Hk in H2. by apply H2.
Qed.

(** ** The ops, one by one *)

Lemma insert_subscription_ok row db a db' : insert_subscription row db = (Ok a, db') ->
  (forall s, s ∈ db.(webhookSubscriptions) -> s.(sub_id) <> row.(sub_id)) /\
  db' = db <| webhookSubscriptions ::= fun t => t ++ [row] |>.
Proof.
  unfold insert_subscription. intros (Hc & _ & ->)%insert_ok. split; [|done].
  apply first_taken_none in Hc as [Hc _]. by rewrite exists_row_false in Hc.
Qed.

Lemma insert_capped_run row db :
  let r := insert_capped row db in
  match r.1 with
  | Ok _ => (length (org_hooks row.(sub_orgId) db) < MAX_SUBSCRIPTIONS_PER_ORG)%nat /\
            (forall s, s ∈ db.(webhookSubscriptions) -> s.(sub_id) <> row.(sub_id)) /\
            r.2 = db <| webhookSubscriptions ::= fun t => t ++ [row] |>
  | Throw _ => r.2 = db
  end.
Proof.
  cbv zeta. destruct (insert_capped row db) as [[a|e] db'] eqn:H; cbn [fst snd].
  - unfold insert_capped in H. inv_ok. apply insert_subscription_ok in H as [Hid ->].
    match goal with Hn : (_ <=? _)%nat = false |- _ => apply Nat.leb_gt in Hn end. done.
  - by apply transaction_throw in H.
Qed.

Lemma create_change now dr ctx params st :
  draws_bytes (WCreate dr ctx params) -> key_wf env.(we_key) st.(wh_keys) ->
  step_change (WCreate dr ctx params) st (webhookCreate env dr now ctx params st).2.
Proof.
  intros (_ & _ & Hr) Hwf. destruct (webhookCreate env dr now ctx params st) as [o st'] eqn:H. cbn [snd].
  unfold webhookCreate in H. apply bind_inv in H as [([] & s1 & [= Ha <-] & H)|(e & [= Ha <-] & ->)]; [|by apply unchanged].
  apply bind_inv in H as [([] & s1 & [= Hu <-] & H)|(e & [= Hu <-] & ->)]; [|by apply unchanged].
  apply bind_inv in H as [(prefix & s1 & [= Hp <-] & H)|(e & [= Hp <-] & ->)]; [|by apply unchanged].
  apply bind_inv in H as [([s c] & s1 & Hf & H)|(e & Hf & ->)].
  2:{ apply fresh_secret_run in Hf as [-> _]. by eapply rekeyed. }
  pose proof (fresh_secret_written dr st s c s1 Hr Hwf Hf) as Hw.
  apply fresh_secret_run in Hf as [-> _].
  apply bind_inv in H. rewrite wh_in_db_run in H.
  pose proof (insert_capped_run (new_hook dr now ctx params prefix c) (with_key dr st).(wh_db)) as Hi. cbv zeta in Hi.
  destruct (insert_capped _ _) as [oi db'] eqn:Ei. cbn [fst snd] in H, Hi.
  destruct H as [(a & s2 & [= -> <-] & H)|(e & [= -> <-] & ->)].
  2:{ eapply rekeyed; [done..|]. by rewrite Hi. }
  destruct Hi as (Hcap & Hid & ->).
  assert (Hst : st' = with_key dr st <| wh_db := st.(wh_db) <| webhookSubscriptions ::= fun t => t ++ [new_hook dr now ctx params prefix c] |> |>).
  { apply bind_inv in H as [(row & s3 & Hg & [= _ <-])|(e & Hg & _)]; unfold getRow, mbind, M_bind, gets in Hg;
      destruct (hook_row _ _); by injection Hg. }
  subst st'. split; [by eapply with_key_change|]. by eapply hc_create.
Qed.

Lemma list_change now ctx scope st : key_wf env.(we_key) st.(wh_keys) ->
  step_change (WList ctx scope) st (wh_step now (WList ctx scope) st).
Proof.
  intros Hwf. cbn. destruct (webhookList env ctx scope st) as [o st'] eqn:H. cbn [snd]. unfold webhookList in H.
  apply bind_inv in H as [([a b] & s1 & [= Ha <-] & [= _ <-])|(e & [= Ha <-] & ->)]; by apply unchanged.
Qed.

Lemma log_change now ctx params st : key_wf env.(we_key) st.(wh_keys) ->
  step_change (WDeliveries ctx params) st (wh_step now (WDeliveries ctx params) st).
Proof.
  intros Hwf. cbn. destruct (webhookDeliveries_op ctx params st) as [o st'] eqn:H. cbn [snd]. unfold webhookDeliveries_op in H.
  apply bind_inv in H as [(sub & s1 & [= Ha <-] & H)|(e & [= Ha <-] & ->)]; [|by apply unchanged].
  apply bind_inv in H. destruct (wp_cursor params) as [c|].
  - destruct H as [(a & s1 & H1 & [= _ <-])|(e & H1 & ->)];
      apply bind_inv in H1 as [(b & s2 & [= _ <-] & [= _ <-])|(e' & [= _ <-] & _)]; by apply unchanged.
  - destruct H as [(a & s1 & [= _ <-] & [= _ <-])|(e & [= ] & ->)]; by apply unchanged.
Qed.

Lemma delete_change now ctx id st : key_wf env.(we_key) st.(wh_keys) ->
  step_change (WDelete ctx id) st (wh_step now (WDelete ctx id) st).
Proof.
  intros Hwf. cbn. destruct (webhookDelete ctx id st) as [o st'] eqn:H. cbn [snd]. unfold webhookDelete in H.
  apply bind_inv in H as [(row & s1 & [= Ha <-] & H)|(e & [= Ha <-] & ->)]; [|by apply unchanged].
  rewrite wh_in_db_run in H. injection H as _ <-. split; [by apply keys_same|]. by eapply hc_delete.
Qed.

Lemma test_change now dr ctx id st :
  draws_bytes (WTest dr ctx id) -> key_wf env.(we_key) st.(wh_keys) ->
  step_change (WTest dr ctx id) st (wh_step now (WTest dr ctx id) st).
Proof.
  intros (_ & _ & Hr) Hwf. cbn. destruct (webhookTest env dr now ctx id st) as [o st'] eqn:H. cbn [snd]. unfold webhookTest in H.
  apply bind_inv in H as [(row & s1 & [= Ha <-] & H)|(e & [= Ha <-] & ->)]; [|by apply unchanged].
  apply bind_inv in H as [(db & s1 & [= <- <-] & H)|(e & [=] & _)].
  apply bind_inv in H. rewrite wh_in_keys_run in H. fold (with_key dr st) in H.
  destruct H as [(key & s1 & [= _ <-] & H)|(e & [= _ <-] & ->)]; [|by eapply rekeyed].
  apply bind_inv in H as [(secret & s1 & [= _ <-] & [= _ <-])|(e & [= _ <-] & ->)]; by eapply rekeyed.
Qed.

(** The transaction of a redelivery writes no subscription. *)
Lemma redeliver_write_subs subs id now : preserves (fun db => db.(webhookSubscriptions) = subs) (redeliver_write id now).
Proof. unfold redeliver_write. by preserve. Qed.

Lemma redeliver_change now ctx id st : key_wf env.(we_key) st.(wh_keys) ->
  step_change (WRedeliver ctx id) st (wh_step now (WRedeliver ctx id) st).
Proof.
  intros Hwf. cbn. destruct (webhookRedeliver now ctx id st) as [o st'] eqn:H. cbn [snd]. unfold webhookRedeliver in H.
  apply bind_inv in H. rewrite wh_in_db_run in H.
  match type of H with context [transaction ?m ?db] =>
    assert (Hsubs : preserves (fun d => d.(webhookSubscriptions) = st.(wh_db).(webhookSubscriptions)) (transaction m))
  end.
  { pose proof redeliver_write_subs. preserve. }
  specialize (Hsubs st.(wh_db) eq_refl).
  destruct H as [(row & s1 & [= _ <-] & H)|(e & [= _ <-] & ->)]; [|by apply unchanged].
  apply bind_inv in H as [(? & s2 & [= _ <-] & [= _ <-])|(e & [=] & _)]. by apply unchanged.
Qed.

(** What the transaction of an update leaves in the table. *)
Lemma update_tx_subs now id (f : WebhookSubscription -> WebhookSubscription) disable db :
  (forall s, (f s).(sub_id) = s.(sub_id)) ->
  (transaction (_ ← modify (update_subscription id f); when disable (disableSubscription id DrManual now)) db).2.(webhookSubscriptions)
  = update_where (fun s => s.(sub_id) = id)
      (fun s => if disable then f s <| sub_enabled := false |> <| sub_disabledReason := Some DrManual |>
                  <| sub_disabledAt := Some now |> <| sub_updatedAt := now |> else f s) db.(webhookSubscriptions).
Proof.
  intros Hf. destruct disable; [|done].
  refine (update_where_compose (fun s => s.(sub_id) = id) f (fun s => s <| sub_enabled := false |>
    <| sub_disabledReason := Some DrManual |> <| sub_disabledAt := Some now |> <| sub_updatedAt := now |>) _ _).
  intros s Hs. by rewrite Hf.
Qed.

Lemma update_tx_ok now id (f : WebhookSubscription -> WebhookSubscription) disable db :
  is_ok (transaction (_ ← modify (update_subscription id f); when disable (disableSubscription id DrManual now)) db).1 = true.
Proof. by destruct disable. Qed.

Lemma update_change now dr ctx params st :
  draws_bytes (WUpdate dr ctx params) -> key_wf env.(we_key) st.(wh_keys) ->
  step_change (WUpdate dr ctx params) st (webhookUpdate env dr now ctx params st).2.
Proof.
  intros (_ & _ & Hr) Hwf. destruct (webhookUpdate env dr now ctx params st) as [o st'] eqn:H. cbn [snd].
  unfold webhookUpdate in H. apply bind_inv in H as [(row & s1 & [= Ha <-] & H)|(e & [= Ha <-] & ->)]; [|by apply unchanged].
  apply bind_inv in H as [([] & s1 & Hu & H)|(e & Hu & ->)].
  2:{ destruct (wu_url params); [injection Hu as _ <-; by apply unchanged|discriminate]. }
  assert (s1 = st) as -> by (destruct (wu_url params); by injection Hu).
  apply bind_inv in H as [(prefix & s1 & Hp & H)|(e & Hp & ->)].
  2:{ destruct (wu_pathPrefix params); [|discriminate].
      apply bind_inv in Hp as [(? & ? & [= _ <-] & [=])|(e' & [= _ <-] & _)]. by apply unchanged. }
  assert (s1 = st) as ->.
  { destruct (wu_pathPrefix params); [|by injection Hp].
    by apply bind_inv in Hp as [(? & ? & [= _ <-] & [= _ <-])|(e' & _ & [=])]. }
  apply bind_inv in H as [(fresh & s1 & Hf & H)|(e & Hf & ->)].
  2:{ destruct (wu_rotateSecret params); [|discriminate].
      apply bind_inv in Hf as [(? & ? & _ & [=])|(e' & Hf & _)].
      apply fresh_secret_run in Hf as [-> _]. by eapply rekeyed. }
  apply bind_inv in H. rewrite wh_in_db_run in H.
  set (g := set_hook now params prefix (snd <$> fresh)) in H.
  set (disable := bool_decide (wu_enabled params = Some false) && sub_enabled row) in H.
  pose proof (update_tx_subs now row.(sub_id) g disable s1.(wh_db) ltac:(done)) as Hsubs.
  pose proof (update_tx_ok now row.(sub_id) g disable s1.(wh_db)) as Hok.
  destruct (transaction _ _) as [[a|e] db']; [|done]. cbn [fst snd] in H, Hsubs.
  destruct H as [(a' & s2 & [= <- <-] & H)|(e & [=] & _)].
  assert (st' = s1 <| wh_db := db' |>) as ->.
  { apply bind_inv in H as [(r & s3 & Hg & [= _ <-])|(e & Hg & _)]; unfold getRow, mbind, M_bind, gets in Hg;
      destruct (hook_row _ _); by injection Hg. }
  assert (Hs1 : s1.(wh_db) = st.(wh_db) /\ keys_change st (s1 <| wh_db := db' |>) /\
    if params.(wu_rotateSecret) then exists s c, fresh = Some (s, c) /\ secret_written dr s1 c else fresh = None).
  { destruct (wu_rotateSecret params).
    - apply bind_inv in Hf as [([s c] & s2 & Hf & [= <- <-])|(e' & _ & [=])].
      pose proof (fresh_secret_written dr st s c s2 Hr Hwf Hf). apply fresh_secret_run in Hf as [-> _].
      split; [done|]. split; [by eapply with_key_change|]. eauto.
    - injection Hf as <- <-. split; [done|]. split; [by apply keys_same|done]. }
  destruct Hs1 as (Hdb & Hkeys & Hfresh). rewrite Hdb in Hsubs. split; [done|].
  change (webhookSubscriptions (wh_db (s1 <| wh_db := db' |>))) with (webhookSubscriptions db'). rewrite Hsubs.
  eapply hc_update; [done..| |].
  - intros s. by destruct disable.
  - intros s. destruct (wu_rotateSecret params).
    + destruct Hfresh as (s' & c & -> & key & Hk & He). exists key. split; [done|]. by destruct disable.
    + subst fresh. by destruct disable.
Qed.

Lemma restart_change now st : key_wf env.(we_key) st.(wh_keys) -> step_change WRestart st (wh_step now WRestart st).
Proof. intros Hwf. split; [split; [intros key; cbn; congruence|done]|]. exact (hc_same WRestart st _). Qed.

(** Every step is a change of the table and of the key. *)
Lemma wh_step_change now op st :
  draws_bytes op -> key_wf env.(we_key) st.(wh_keys) -> step_change op st (wh_step now op st).
Proof.
  intros Hd Hwf. destruct op.
  - by apply create_change.
  - by apply list_change.
  - by apply update_change.
  - by apply delete_change.
  - by apply test_change.
  - by apply log_change.
  - by apply redeliver_change.
  - by apply restart_change.
Qed.

(** ** The cap *)

Definition capped (db : Db) : Prop := forall orgId, (length (org_hooks orgId db) <= MAX_SUBSCRIPTIONS_PER_ORG)%nat.

(** The number of rows with a key is a function of the keys. *)
Lemma length_filter_key {A} (key : A -> string) k (l : list A) :
  length (filter (fun a => key a = k) l) = length (filter (fun x => x = k) (key <$> l)).
Proof.
  induction l as [|a l IH]; [done|]. rewrite fmap_cons, !filter_cons. by case_decide; cbn; rewrite IH.
Qed.

Lemma hooks_change_capped op st st' :
  capped st.(wh_db) -> hooks_change op st st' st'.(wh_db).(webhookSubscriptions) -> capped st'.(wh_db).
Proof.
  unfold capped, org_hooks. intros Hcap Hch orgId. specialize (Hcap orgId). inversion Hch as
    [Heq|dr ctx params now prefix c _ _ Hlt _ _ Heq|dr ctx params row g _ _ Hg _ Heq|ctx id row _ _ Heq].
  - done.
  - rewrite filter_app, length_app. cbn [filter list_filter]. case_decide as Ho; cbn [length app]; [|lia].
    cbn in Ho. subst orgId. unfold org_hooks in Hlt. lia.
  - rewrite length_filter_key, fmap_update_where by (intros; apply Hg). by rewrite <- length_filter_key.
  - unfold delete_where. etrans; [|exact Hcap]. rewrite list_filter_filter. apply length_filter_impl. tauto.
Qed.

(** No sequence of webhook ops and restarts, by any callers, leaves an org
    with more than 25 subscriptions. *)
Theorem hooks_stay_capped (ops : list (Z * wh_op)) st :
  Forall (fun o => draws_bytes o.2) ops -> key_wf env.(we_key) st.(wh_keys) ->
  capped st.(wh_db) -> capped (wh_steps ops st).(wh_db).
Proof.
  intros Hd. revert st. induction Hd as [|[now op] ops Hop _ IH]; intros st Hwf Hcap; [done|].
  destruct (wh_step_change now op st Hop Hwf) as [[Hwf' _] Hch]. apply IH; [done|]. by eapply hooks_change_capped.
Qed.

(** ** Authority *)

Definition may_manage (db : Db) (ctx : OpContext) (scope : WebhookScope) : Prop :=
  match scope with
  | ScopeOrg => getUserOrgRole db ctx.(op_userId) ctx.(op_orgId) = Some Admin
  | ScopeDrive => exists drive, get_drive_row db ctx.(op_driveId) = Some drive /\
      (getUserDriveRole db ctx.(op_userId) ctx.(op_driveId) = Some Admin \/
       getUserOrgRole db ctx.(op_userId) drive.(drv_orgId) = Some Admin)
  end.

Lemma authorized db ctx scope : authorizeWebhookScope db ctx scope = Ok tt -> may_manage db ctx scope.
Proof.
  destruct scope; cbn.
  - destruct (requireDriveAdmin _ _ _) as [r|] eqn:E; [|done]. intros _. apply requireDriveAdmin_ok in E. apply E.
  - destruct (requireOrgRole _ _ _ _) as [r|] eqn:E; [|done]. intros _. apply requireOrgRole_ok in E as [-> Hr].
    by apply roleAtLeast_admin.
Qed.

(** The hook is the org's or the drive's, by the scope. *)
Definition governed (ctx : OpContext) (scope : WebhookScope) (s : WebhookSubscription) : Prop :=
  s.(sub_orgId) = ctx.(op_orgId) /\
  s.(sub_driveId) = match scope with ScopeDrive => Some ctx.(op_driveId) | ScopeOrg => None end.

Lemma scoped_governed db ctx id row : ctx.(op_driveId) <> "" ->
  getScopedSubscription db ctx id = Ok row ->
  row ∈ db.(webhookSubscriptions) /\ row.(sub_id) = id /\ may_manage db ctx (scopeOf row) /\ governed ctx (scopeOf row) row.
Proof.
  intros Hd. unfold getScopedSubscription. destruct (get_row _ _) as [r|] eqn:E; [|done].
  apply get_row_some in E as (Hin & Hid & Horg & Hdrive).
  destruct (authorizeWebhookScope db ctx (scopeOf r)) as [[]|] eqn:Ha; [|done]. intros [= <-].
  apply authorized in Ha. repeat split; try done. unfold scopeOf. destruct Hdrive as [-> | ->]; [done|].
  by destruct (op_driveId ctx).
Qed.

Definition op_ctx (op : wh_op) : option OpContext :=
  match op with
  | WCreate _ ctx _ | WList ctx _ | WUpdate _ ctx _ | WDelete ctx _ | WTest _ ctx _ | WDeliveries ctx _
  | WRedeliver ctx _ => Some ctx
  | WRestart => None
  end.

(** Whatever op runs, a subscription that is new, different or gone after it
    is of the caller's org, and of the caller's drive or the whole org; and the
    caller is an admin of that drive, or of the org. *)
Theorem hook_authority now op st id :
  draws_bytes op -> key_wf env.(we_key) st.(wh_keys) -> NoDup (sub_id <$> st.(wh_db).(webhookSubscriptions)) ->
  (forall ctx, op_ctx op = Some ctx -> ctx.(op_driveId) <> "") ->
  let st' := wh_step now op st in
  hook_row st'.(wh_db) id <> hook_row st.(wh_db) id ->
  exists ctx scope, op_ctx op = Some ctx /\ may_manage st.(wh_db) ctx scope /\
    forall s, hook_row st.(wh_db) id = Some s \/ hook_row st'.(wh_db) id = Some s -> governed ctx scope s.
Proof.
  intros Hdraws Hwf Hnd Hdrive st' Hne.
  destruct (wh_step_change now op st Hdraws Hwf) as [_ Hch]. fold st' in Hch. clearbody st'.
  unfold hook_row in *. revert Hne Hch. generalize (webhookSubscriptions (wh_db st')). intros subs Hne Hch.
  destruct Hch as [|dr ctx params t prefix c -> Ha Hlt Hid Hw|dr ctx params row g -> Hrow Hg Hw|ctx i row -> Hrow].
  - done.
  - exists ctx, (params.(wc_scope) ?? ScopeDrive). split; [done|]. split; [by apply authorized|].
    rewrite get_row_snoc in *. destruct (get_row _ (webhookSubscriptions (wh_db st))) as [x|] eqn:E; [done|].
    case_decide; [|done]. intros s [[=]|[= <-]]. done.
  - apply scoped_governed in Hrow as (Hin & Hrid & Hm & Hgov); [|by apply Hdrive].
    destruct (decide (row.(sub_id) = id)) as [Hi|Hi].
    2:{ rewrite get_row_update_other in Hne; [done|]. intros r Hr. rewrite (proj1 (Hg r)). split; congruence. }
    exists ctx, (scopeOf row). split; [done|]. split; [done|].
    assert (Hold : get_row (fun s => s.(sub_id) = id) st.(wh_db).(webhookSubscriptions) = Some row)
      by (apply (get_row_unique sub_id); [done..|congruence]).
    rewrite Hi, get_row_update_same, Hold by (intros r Hr; by rewrite (proj1 (Hg r))).
    intros s [[= <-]|[= <-]]; [done|]. destruct Hgov as [H1 H2], (Hg row) as (_ & H3 & H4). split; congruence.
  - apply scoped_governed in Hrow as (Hin & Hrid & Hm & Hgov); [|by apply Hdrive].
    destruct (decide (row.(sub_id) = id)) as [Hi|Hi].
    2:{ rewrite get_row_delete_other in Hne; [done|]. intros r Hr. congruence. }
    exists ctx, (scopeOf row). split; [done|]. split; [done|].
    assert (Hold : get_row (fun s => s.(sub_id) = id) st.(wh_db).(webhookSubscriptions) = Some row)
      by (apply (get_row_unique sub_id); [done..|congruence]).
    rewrite Hold. intros s [[= <-]|Hs]; [done|]. apply get_row_some in Hs as [Hs Hsid].
    apply elem_of_delete_where in Hs as [_ Hs]. congruence.
Qed.

(** ** Stored secrets stay readable *)

Context {CR : CryptoLaws cr}.

(** A process that starts now finds a key that decrypts the hook's secret. *)
Definition readable (st : WhState) (id secret : string) : Prop :=
  key_wf env.(we_key) st.(wh_keys) /\
  forall row, row ∈ st.(wh_db).(webhookSubscriptions) -> row.(sub_id) = id ->
    exists key, source_key env.(we_key) st.(wh_keys).(ks_files) = Some key /\
      decryptSecret env.(we_gcm_message) row.(sub_secretCiphertext) key = Ok secret.

(** The step gives the hook another secret, or makes another hook of that id. *)
Definition replaces (id : string) (op : wh_op) : Prop :=
  match op with
  | WCreate dr _ _ => dr.(wd_id) = id
  | WUpdate _ _ params => params.(wu_id) = id /\ params.(wu_rotateSecret) = true
  | _ => False
  end.

Lemma getScopedSubscription_some db ctx id row :
  getScopedSubscription db ctx id = Ok row -> row ∈ db.(webhookSubscriptions) /\ row.(sub_id) = id.
Proof.
  unfold getScopedSubscription. destruct (get_row _ _) as [r|] eqn:E; [|done].
  apply get_row_some in E as (Hin & Hid & _). destruct (authorizeWebhookScope _ _ _); [|done]. by intros [= <-].
Qed.

(** A hook whose secret is not replaced was there, with the same ciphertext. *)
Lemma ciphertext_kept op st st' id row :
  ~ replaces id op -> hooks_change op st st' st'.(wh_db).(webhookSubscriptions) ->
  row ∈ st'.(wh_db).(webhookSubscriptions) -> row.(sub_id) = id ->
  exists old, old ∈ st.(wh_db).(webhookSubscriptions) /\ old.(sub_id) = id /\
    row.(sub_secretCiphertext) = old.(sub_secretCiphertext).
Proof.
  intros Hno Hch. revert Hch. generalize (webhookSubscriptions (wh_db st')). intros subs Hch Hin Hid.
  destruct Hch as [|dr ctx params t prefix c -> _ _ _ _|dr ctx params r g -> Hrow Hg Hw|ctx i r _ _].
  - by exists row.
  - apply elem_of_app in Hin as [Hin| ->%list_elem_of_singleton]; [by exists row|]. by destruct Hno.
  - apply elem_of_update_where in Hin as (s & Hs & [[Hsid ->]|[_ ->]]); [|by exists s].
    rewrite (proj1 (Hg s)) in Hid. exists s. split; [done|]. split; [done|].
    apply getScopedSubscription_some in Hrow as [_ Hrid]. specialize (Hw s). cbn in Hno.
    destruct (wu_rotateSecret params); [|done]. destruct Hno. split; congruence.
  - apply elem_of_delete_where in Hin as [Hin _]. by exists row.
Qed.

Lemma readable_step now op st id secret :
  draws_bytes op -> ~ replaces id op -> readable st id secret -> readable (wh_step now op st) id secret.
Proof.
  intros Hd Hno [Hwf Hread]. destruct (wh_step_change now op st Hd Hwf) as [[Hwf' Hfiles] Hch].
  split; [done|]. intros row Hin Hid.
  destruct (ciphertext_kept op st _ id row Hno Hch Hin Hid) as (old & Hold & Hoid & ->).
  rewrite Hfiles; [by apply Hread|]. intros Hnil. rewrite Hnil in Hold. set_solver.
Qed.

Lemma readable_steps (ops : list (Z * wh_op)) st id secret :
  Forall (fun o => draws_bytes o.2 /\ ~ replaces id o.2) ops ->
  readable st id secret -> readable (wh_steps ops st) id secret.
Proof.
  intros Hops. revert st. induction Hops as [|[now op] ops [Hd Hno] _ IH]; intros st Hr; [done|].
  apply IH. by apply readable_step.
Qed.

Lemma create_readable now dr ctx params st pub secret st1 :
  draws_bytes (WCreate dr ctx params) -> key_wf env.(we_key) st.(wh_keys) ->
  webhookCreate env dr now ctx params st = (Ok (pub, secret), st1) ->
  pub.(pw_id) = dr.(wd_id) /\ secret = generateWebhookSecret dr.(wd_secret) /\ readable st1 dr.(wd_id) secret.
Proof.
  intros (Hs & Hiv & Hr) Hwf H. unfold webhookCreate in H.
  apply bind_ok in H as ([] & ? & [= _ <-] & H). apply bind_ok in H as ([] & ? & [= _ <-] & H).
  apply bind_ok in H as (prefix & ? & [= _ <-] & H). apply bind_ok in H as ([s c] & s1 & Hf & H).
  pose proof (fresh_secret_written _ _ _ _ _ Hr Hwf Hf) as (key & Hkey & Henc).
  apply fresh_secret_run in Hf as [-> Hf]. destruct (Hf s c eq_refl) as [-> _]. clear Hf.
  apply bind_ok in H as ([] & s2 & Hi & H). rewrite wh_in_db_run in Hi. injection Hi as Hok <-.
  pose proof (insert_capped_run (new_hook dr now ctx params prefix c) st.(wh_db)) as Hi.
  cbv zeta in Hi. rewrite Hok in Hi. destruct Hi as (_ & Hfresh & Hdb). change (wh_db (with_key dr st)) with (wh_db st) in H. rewrite Hdb in H.
  apply bind_ok in H as (row & s3 & Hg & H). apply ret_ok in H as [Heq Hst]. injection Heq as Hp Hsc. subst pub secret st1.
  unfold getRow in Hg. apply bind_ok in Hg as (o & s4 & [= <- <-] & [Hrow ->]%some_or_throw_ok).
  apply get_row_some in Hrow as [_ Hid]. split; [exact Hid|]. split; [done|].
  destruct (with_key_change dr st (with_key dr st) Hr Hwf eq_refl) as [Hwf1 _]. split; [exact Hwf1|].
  intros r [Hin| ->%list_elem_of_singleton]%elem_of_app Hrid; [by destruct (Hfresh r Hin)|].
  exists key. split; [by apply Hwf1|]. eapply encrypted_decrypts; [done|apply generated_secret_ascii|done].
Qed.

(** The secret that [webhookCreate] hands out is the one every later process
    decrypts from the row, through any ops and restarts that neither rotate it
    nor reuse the id, as long as the hook is there; and it decodes to the 32
    bytes drawn, which are the key its deliveries are signed with. *)
Theorem secret_survives now dr ctx params st pub secret st1 (ops : list (Z * wh_op)) dk row :
  draws_bytes (WCreate dr ctx params) -> key_wf env.(we_key) st.(wh_keys) ->
  webhookCreate env dr now ctx params st = (Ok (pub, secret), st1) ->
  Forall (fun o => draws_bytes o.2 /\ ~ replaces pub.(pw_id) o.2) ops ->
  let st2 := wh_steps ops st1 in
  hook_row st2.(wh_db) pub.(pw_id) = Some row ->
  exists key, (getWebhookSecretKey env.(we_key) dk st2.(wh_db) st2.(wh_keys)).1 = Ok key /\
    decryptSecret env.(we_gcm_message) row.(sub_secretCiphertext) key = Ok secret /\
    decodeWebhookSecret secret = Some dr.(wd_secret).
Proof.
  intros Hd Hwf Hc Hops st2 Hrow. destruct (create_readable _ _ _ _ _ _ _ _ Hd Hwf Hc) as (Hid & -> & Hread).
  rewrite <- Hid in Hread. apply (readable_steps ops) in Hread as [Hwf2 Hread]; [|done]. fold st2 in Hwf2, Hread.
  apply get_row_some in Hrow as [Hin Hrid]. destruct (Hread row Hin Hrid) as (key & Hsource & Hdec).
  exists key. rewrite (source_key_found _ dk st2.(wh_db) _ _ Hwf2 Hsource). split; [done|]. split; [done|].
  apply generated_secret_decodes. intros Hnil. destruct Hd as [Hlen _]. by rewrite Hnil in Hlen.
Qed.
End WebhookSpec.

(** ** A small org, for the witnesses *)

Module Sample.
Definition env : WhEnv := {|
  we_parse s := Some (Build_Url s "https:" "hooks.example.com" "" "hooks.example.com" "https://hooks.example.com" "" "");
  we_resolve host := Ok ["93.184.216.34"];
  we_allowedHosts := None;
  we_allowPrivate := None;
  we_key := Build_KeyEnv None None "/home/a/agent-fs.db";
  we_worker := Some "true";
  we_send := Signature.Sample.env;
  we_gcm_message := "bad tag"
|}.
Definition db : Db := empty_db
  <| users := [Build_User "alice" "alice@x" (Some "Alice") "h1" 0; Build_User "bob" "bob@x" None "h2" 0] |>
  <| orgs := [Build_Org "o" "Org" false 0] |>
  <| orgMembers := [Build_OrgMember "o" "alice" Admin; Build_OrgMember "o" "bob" Viewer] |>
  <| drives := [Build_Drive "d" "o" "Drive" true 0] |>
  <| driveMembers := [Build_DriveMember "d" "alice" Admin; Build_DriveMember "d" "bob" Editor] |>.
Definition start : WhState := Build_WhState db (Build_KeyState None ∅) 0.
Definition ctx (user : string) : OpContext := Build_OpContext "o" "d" user None None None None.
Definition key_draw : KeyDraw := Build_KeyDraw "abcdefghijklmnopqrstuvwxyz012345" None None.
Definition draws (id : string) : WhDraws := Build_WhDraws id "0123456789abcdef0123456789abcdef" "iviviviviviv" key_draw.
Definition create : WebhookCreateParams := Build_WebhookCreateParams None "https://hooks.example.com/x" ["file.changed"] None (Some "docs").
Definition update (enabled : option bool) : WebhookUpdateParams :=
  Build_WebhookUpdateParams "h1" (Some "https://hooks.example.com/y") None None None enabled false.
Definition ops : list (Z * wh_op) := [
  (2000, WRestart); (3000, WUpdate (draws "u") (ctx "alice") (update (Some false)));
  (4000, WCreate (draws "h2") (ctx "alice") create); (5000, WUpdate (draws "v") (ctx "alice") (update (Some true)));
  (6000, WRestart); (7000, WTest (draws "t") (ctx "alice") "h1")].
Definition created : WhState := (webhookCreate (rt := ascii_runtime) (cr := toy_crypto) env (draws "h1") 1000 (ctx "alice") create start).2.
End Sample.

Lemma draws_ok (ops : list (Z * wh_op)) :
  forallb (fun o => match o.2 with
    | WCreate dr _ _ | WUpdate dr _ _ | WTest dr _ _ =>
        (String.length dr.(wd_secret) =? 32)%nat && (String.length dr.(wd_iv) =? IV_BYTES)%nat &&
        (String.length dr.(wd_key).(kd_random) =? AES_KEY_BYTES)%nat
    | _ => true end) ops = true -> Forall (fun o => draws_bytes o.2) ops.
Proof.
  rewrite forallb_forall, Forall_forall. intros H o Ho%list_elem_of_In. specialize (H o Ho).
  destruct o as [now []]; cbn [snd draws_bytes] in *; try exact I;
    rewrite !andb_true_iff, !Nat.eqb_eq in H; tauto.
Qed.

Lemma fresh_process_wf files : key_wf Sample.env.(we_key) (Build_KeyState None files).
Proof. intros key [=]. Qed.

Lemma hooks_stay_capped_witness :
  capped (wh_steps (rt := ascii_runtime) (cr := toy_crypto) Sample.env Sample.ops Sample.created).(wh_db) /\
  (sub_id <$> (wh_steps (rt := ascii_runtime) (cr := toy_crypto) Sample.env Sample.ops Sample.created).(wh_db).(webhookSubscriptions))
    = ["h1"; "h2"].
Proof.
  split; [|vm_compute; reflexivity].
  apply (hooks_stay_capped (rt := ascii_runtime) (cr := toy_crypto) Sample.env Sample.ops Sample.created).
  - apply draws_ok. vm_compute. reflexivity.
  - intros key Hk. vm_compute in Hk. injection Hk as <-. split; vm_compute; reflexivity.
  - intros o. transitivity 1%nat; [|apply Nat.leb_le; reflexivity]. unfold org_hooks.
    etransitivity; [apply length_filter|]. vm_compute. apply le_n.
Defined.

Lemma hook_authority_witness :
  exists ctx scope,
    op_ctx (WUpdate (Sample.draws "u") (Sample.ctx "alice") (Sample.update (Some false))) = Some ctx /\
    may_manage Sample.created.(wh_db) ctx scope /\ ctx.(op_userId) = "alice" /\
    (wh_step (rt := ascii_runtime) (cr := toy_crypto) Sample.env 3000 (WUpdate (Sample.draws "u") (Sample.ctx "bob") (Sample.update (Some false))) Sample.created) = Sample.created.
Proof.
  destruct (hook_authority (rt := ascii_runtime) (cr := toy_crypto) Sample.env 3000
    (WUpdate (Sample.draws "u") (Sample.ctx "alice") (Sample.update (Some false))) Sample.created "h1") as (c & s & Hc & Hm & _).
  - split; [reflexivity|split; reflexivity].
  - intros key Hk. vm_compute in Hk. injection Hk as <-. split; vm_compute; reflexivity.
  - vm_compute. repeat constructor. intros H. by apply not_elem_of_nil in H.
  - intros c [= <-]. discriminate.
  - intros H. vm_compute in H. discriminate H.
  - exists c, s. split; [exact Hc|]. split; [exact Hm|]. split; [|vm_compute; reflexivity].
    injection Hc as <-. reflexivity.
Defined.

Lemma secret_survives_witness :
  exists row key,
    hook_row (wh_steps (rt := ascii_runtime) (cr := toy_crypto) Sample.env Sample.ops Sample.created).(wh_db) "h1" = Some row /\
    decryptSecret (cr := toy_crypto) "bad tag" row.(sub_secretCiphertext) key = Ok (generateWebhookSecret "0123456789abcdef0123456789abcdef") /\
    key = "abcdefghijklmnopqrstuvwxyz012345".
Proof.
  destruct (webhookCreate (rt := ascii_runtime) (cr := toy_crypto) Sample.env (Sample.draws "h1") 1000 (Sample.ctx "alice") Sample.create Sample.start)
    as [[[pub secret]|e] st1] eqn:E; [|vm_compute in E; discriminate].
  assert (st1 = Sample.created) as -> by (unfold Sample.created; rewrite E; reflexivity).
  assert (pub.(pw_id) = "h1" /\ secret = generateWebhookSecret "0123456789abcdef0123456789abcdef") as [Hid Hs].
  { vm_compute in E. injection E as <- <-. split; vm_compute; reflexivity. }
  destruct (hook_row (wh_steps (rt := ascii_runtime) (cr := toy_crypto) Sample.env Sample.ops Sample.created).(wh_db) "h1")
    as [row|] eqn:Hrow; [|vm_compute in Hrow; discriminate].
  destruct (secret_survives (rt := ascii_runtime) (cr := toy_crypto) Sample.env 1000 (Sample.draws "h1") (Sample.ctx "alice")
    Sample.create Sample.start pub secret Sample.created Sample.ops Sample.key_draw row) as (key & Hkey & Hdec & _).
  - split; [reflexivity|split; reflexivity].
  - apply fresh_process_wf.
  - exact E.
  - rewrite Hid. repeat (apply Forall_cons; split; [split; [first [exact I | split; [reflexivity|split; reflexivity]]|cbn; intuition discriminate]|]).
    apply Forall_nil. exact I.
  - rewrite Hid. exact Hrow.
  - exists row, key. split; [reflexivity|]. rewrite <- Hs. split; [exact Hdec|].
    vm_compute in Hkey. injection Hkey as <-. reflexivity.
Defined.
