(* ===== verification/DeliveryLog.v ===== *)
(** * The delivery log, page by page: [webhookDeliveries] of core/src/ops/webhook.ts

    Following [nextCursor] from the first page visits every delivery of the
    subscription once, newest first.  The cursor is the base64url text of the
    last row's time and id, so the proof goes through its round trip and through
    the order that the query sorts by. *)

From S2P Require Import Prelude JsString Errors Paths Schema Rbac Text Storage GlobCache World Outbox Worker Utf16 Base64 Signature SecretKey Webhooks.

(** ** Byte order *)

Lemma string_le_cons_iff x a y b :
  string_le (String x a) (String y b) = true <->
  (Ascii.nat_of_ascii x < Ascii.nat_of_ascii y)%nat \/ (x = y /\ string_le a b = true).
Proof. by rewrite string_le_cons, orb_true_iff, andb_true_iff, Nat.ltb_lt, bool_decide_eq_true. Qed.

Lemma string_le_total a b : string_le a b = true \/ string_le b a = true.
Proof.
  revert b. induction a as [|x a IH]; intros [|y b]; [by left..|by right|]. rewrite !string_le_cons_iff.
  destruct (Nat.lt_trichotomy (Ascii.nat_of_ascii x) (Ascii.nat_of_ascii y)) as [H|[H|H]]; [auto| |auto].
  apply nat_of_ascii_inj in H as ->. destruct (IH b); auto.
Qed.

Lemma string_le_antisym a b : string_le a b = true -> string_le b a = true -> a = b.
Proof.
  revert b. induction a as [|x a IH]; intros [|y b]; [done..|]. rewrite !string_le_cons_iff.
  intros [H1|[-> H1]] [H2|[Heq H2]]; try subst; try lia. f_equal. by apply IH.
Qed.

Lemma string_le_trans a b c : string_le a b = true -> string_le b c = true -> string_le a c = true.
Proof.
  revert b c. induction a as [|x a IH]; intros [|y b] [|z c]; [done..|]. rewrite !string_le_cons_iff.
  intros [H1|[-> H1]] [H2|[-> H2]]; [left; lia|by left..|]. right. eauto.
Qed.

(** ** Sorting and filtering commute *)

Section FilterSort.
Context {A : Type} (le : A -> A -> bool).
Hypothesis le_total : forall a b, le a b = true \/ le b a = true.
Hypothesis le_trans : forall a b c, le a b = true -> le b c = true -> le a c = true.

Lemma sort_by_strongly l : StronglySorted (fun a b => le a b = true) (sort_by le l).
Proof. apply Sorted_StronglySorted; [intros a b c; apply le_trans|]. by apply sort_by_sorted. Qed.

Lemma insert_sorted_head a l : Forall (fun b => le a b = true) l -> insert_sorted le a l = a :: l.
Proof. destruct 1 as [|b l Hb _]; cbn; [done|]. by rewrite Hb. Qed.

Lemma filter_insert_sorted (Q : A -> Prop) `{forall x, Decision (Q x)} a l :
  StronglySorted (fun a b => le a b = true) l ->
  filter Q (insert_sorted le a l) = if decide (Q a) then insert_sorted le a (filter Q l) else filter Q l.
Proof.
  induction 1 as [|b l Hl IH Hb]; cbn [insert_sorted]; [by rewrite filter_cons; case_decide|].
  destruct (le a b) eqn:E.
  - rewrite (filter_cons Q a). destruct (decide (Q a)); [|done]. rewrite insert_sorted_head; [done|].
    apply Forall_forall. intros c [_ Hc]%list_elem_of_filter. apply elem_of_cons in Hc as [-> |Hc]; [done|].
    rewrite Forall_forall in Hb. eapply le_trans; [exact E|]. by apply Hb.
  - rewrite !(filter_cons Q b), IH. destruct (decide (Q a)), (decide (Q b)); cbn [insert_sorted]; [by rewrite E|done..].
Qed.

Lemma filter_sort_by (Q : A -> Prop) `{forall x, Decision (Q x)} l :
  filter Q (sort_by le l) = sort_by le (filter Q l).
Proof.
  induction l as [|a l IH]; [done|]. change (sort_by le (a :: l)) with (insert_sorted le a (sort_by le l)).
  rewrite filter_insert_sorted, IH, filter_cons by apply sort_by_strongly. by case_decide.
Qed.
End FilterSort.

(** ** The order of the log *)

Lemma newest_first_total a b : newest_first a b = true \/ newest_first b a = true.
Proof.
  unfold newest_first. destruct (string_le_total a.(del_id) b.(del_id)) as [H|H]; rewrite H;
    destruct (Z.ltb_spec (del_createdAt b) (del_createdAt a)), (Z.ltb_spec (del_createdAt a) (del_createdAt b)),
      (Z.eqb_spec (del_createdAt a) (del_createdAt b)), (Z.eqb_spec (del_createdAt b) (del_createdAt a)); cbn; auto; lia.
Qed.

Lemma newest_first_iff a b :
  newest_first a b = true <->
  b.(del_createdAt) < a.(del_createdAt) \/ (a.(del_createdAt) = b.(del_createdAt) /\ string_le b.(del_id) a.(del_id) = true).
Proof. unfold newest_first. by rewrite orb_true_iff, andb_true_iff, Z.ltb_lt, Z.eqb_eq. Qed.

Lemma newest_first_trans a b c : newest_first a b = true -> newest_first b c = true -> newest_first a c = true.
Proof.
  rewrite !newest_first_iff. intros [H1|[H1 H1']] [H2|[H2 H2']]; [left; lia..|].
  right. split; [lia|]. by eapply string_le_trans.
Qed.

Definition cursor_at (d : WebhookDelivery) : DeliveriesCursor := {| dc_createdAt := d.(del_createdAt); dc_id := d.(del_id) |}.

(** Dates of JavaScript, and ids in ASCII, as UUIDs are. *)
Definition plain_row (d : WebhookDelivery) : Prop :=
  0 <= d.(del_createdAt) <= 8640000000000000 /\ d.(del_id) <> "" /\ ascii_only d.(del_id) = true.

(** Strictly after [x] in the log: older, by another id. *)
Lemma after_cursor_iff x d : x.(del_createdAt) <= 8640000000000000 -> d.(del_id) <> x.(del_id) ->
  after_cursor (cursor_at x) d = true <-> newest_first x d = true.
Proof.
  intros Hx Hne. rewrite newest_first_iff. unfold after_cursor, cursor_at, string_lt. cbn [dc_createdAt dc_id].
  rewrite (bool_decide_false (del_id d = del_id x)) by done.
  rewrite andb_true_iff, orb_true_iff, andb_true_iff, Z.leb_le, Z.ltb_lt, Z.eqb_eq, andb_true_r. naive_solver lia.
Qed.

Lemma after_cursor_self x : after_cursor (cursor_at x) x = false.
Proof.
  unfold after_cursor, cursor_at, string_lt. cbn. rewrite Z.ltb_irrefl, Z.eqb_refl, bool_decide_true by done.
  cbn. by rewrite andb_false_r, andb_false_r.
Qed.

Lemma newest_first_ids a b :
  newest_first a b = true -> newest_first b a = true -> a.(del_id) = b.(del_id).
Proof.
  rewrite !newest_first_iff. intros [H1|[H1 H1']] [H2|[H2 H2']]; try lia. by apply string_le_antisym.
Qed.

(** What comes after a row of the sorted log. *)
Lemma after_split l1 x l2 : x.(del_createdAt) <= 8640000000000000 -> NoDup (del_id <$> (l1 ++ x :: l2)) ->
  StronglySorted (fun a b => newest_first a b = true) (l1 ++ x :: l2) ->
  filter (fun d => after_cursor (cursor_at x) d = true) (l1 ++ x :: l2) = l2.
Proof.
  intros Hx Hnd Hs. rewrite filter_app, filter_cons, decide_False by (by rewrite after_cursor_self).
  rewrite fmap_app, fmap_cons in Hnd. apply NoDup_app in Hnd as (_ & Hd1 & [Hd2 _]%NoDup_cons).
  assert (Hafter : Forall (fun d => newest_first x d = true) l2).
  { clear Hd1 Hd2. induction l1 as [|y l1 IH]; cbn in Hs; apply StronglySorted_inv in Hs as [Hs Hy]; auto. }
  assert (Hbefore : Forall (fun d => newest_first d x = true) l1).
  { clear Hd1 Hd2 Hafter. induction l1 as [|y l1 IH]; [constructor|]. cbn in Hs. apply StronglySorted_inv in Hs as [Hs Hy].
    constructor; [|by apply IH]. apply Forall_app in Hy as [_ Hy]. by inversion Hy. }
  rewrite filter_none, filter_all; [done| |].
  - intros d Hd. apply after_cursor_iff; [done| |by rewrite Forall_forall in Hafter; apply Hafter].
    intros Heq. apply Hd2. apply list_elem_of_fmap. by exists d.
  - intros d Hd Haft. assert (Hne : d.(del_id) <> x.(del_id)).
    { intros Heq. apply (Hd1 (del_id x)); [|set_solver]. apply list_elem_of_fmap. by exists d. }
    apply after_cursor_iff in Haft; [|done..]. apply Hne. apply newest_first_ids; [|done].
    rewrite Forall_forall in Hbefore. by apply Hbefore.
Qed.

(** ** The cursor *)

Lemma cut_first_colon a b : has_char ":"%char a = false -> cut_first ":" (a +:+ String ":"%char b) = Some (a, b).
Proof.
  induction a as [|c a IH]; intros Ha; [by destruct b|]. cbn in Ha. apply orb_false_iff in Ha as [Hc Ha].
  apply bool_decide_eq_false in Hc.
  change (String c a +:+ String ":"%char b) with (String c (a +:+ String ":"%char b)). cbn [cut_first].
  rewrite (IH Ha). replace (starts_with ":" (String c (a +:+ String ":"%char b))) with false; [done|].
  unfold starts_with. cbn [String.prefix]. by destruct (ascii_dec ":"%char c).
Qed.

Lemma digits_plain s : all_chars is_digit s = true -> has_char ":"%char s = false /\ ascii_only s = true.
Proof.
  induction s as [|c s IH]; [done|]. cbn -[Nat.ltb]. intros [Hc Hs]%andb_true_iff.
  destruct (IH Hs) as [-> ->]. rewrite orb_false_r, andb_true_r. unfold is_digit in Hc.
  apply andb_true_iff in Hc as [H1%Nat.leb_le H2%Nat.leb_le]. split; [|apply Nat.ltb_lt; lia].
  apply bool_decide_eq_false. intros <-. change (Ascii.nat_of_ascii ":") with 58%nat in H2. lia.
Qed.

Lemma cursor_round_trip d : plain_row d -> decodeDeliveriesCursor (encodeDeliveriesCursor d) = Ok (cursor_at d).
Proof.
  intros ((Hat & _) & Hid & Hascii). unfold decodeDeliveriesCursor, encodeDeliveriesCursor.
  destruct (pretty_digits d.(del_createdAt) Hat) as [Hd Hv].
  assert (Hc : all_chars is_digit (pretty d.(del_createdAt)) = true) by (by apply andb_true_iff in Hd as [_ Hd]).
  destruct (digits_plain _ Hc) as [Hcolon Hplain].
  rewrite base64url_round_trip, decode_ascii by (rewrite !ascii_only_app, Hplain, Hascii; done).
  change (":" +:+ del_id d) with (String ":"%char (del_id d)). rewrite cut_first_colon by done.
  destruct (bool_decide_reflect (pretty (del_createdAt d) = "")) as [Hnil|_]; [by rewrite Hnil in Hd|].
  rewrite Hd, Hv, bool_decide_false by done. done.
Qed.

(** ** Pages *)

Section Log.
Context {rt : Runtime} {cr : Crypto}.

Definition full_log (db : Db) (subId : string) (status : option DeliveryStatus) : list WebhookDelivery :=
  sort_by newest_first (filter (log_row subId status None) db.(webhookDeliveries)).

(** The pages from a cursor on: [None] when the fuel runs out or a call fails. *)
Fixpoint log_pages (fuel : nat) (ctx : OpContext) (params : WebhookDeliveriesParams) (st : WhState)
    : option (list (list PublicDelivery)) :=
  match fuel with
  | O => None
  | S fuel' =>
      match (webhookDeliveries_op ctx params st).1 with
      | Throw _ => None
      | Ok (page, None) => Some [page]
      | Ok (page, Some cursor) =>
          cons page <$> log_pages fuel' ctx {| wp_id := params.(wp_id); wp_status := params.(wp_status);
            wp_limit := params.(wp_limit); wp_cursor := Some cursor; wp_includePayload := params.(wp_includePayload) |} st
      end
  end.

(** One call: a page of the rows its cursor selects. *)


Lemma deliveries_call ctx params st sub after rows limit :
  getScopedSubscription st.(wh_db) ctx params.(wp_id) = Ok sub ->
  match params.(wp_cursor) with
  | Some c => decodeDeliveriesCursor c = Ok after
  | None => True
  end ->
  rows = sort_by newest_first (filter (log_row sub.(sub_id) params.(wp_status)
           (match params.(wp_cursor) with Some _ => Some after | None => None end)) st.(wh_db).(webhookDeliveries)) ->
  limit = params.(wp_limit) ?? DEFAULT_DELIVERIES_LIMIT ->
  (webhookDeliveries_op ctx params st).1 =
  Ok ((fun row => toPublicDelivery row params.(wp_includePayload)) <$> take limit rows,
      if (limit <? length rows)%nat then encodeDeliveriesCursor <$> last (take limit rows) else None).
Proof.
  intros Hsub Hcursor -> ->. unfold webhookDeliveries_op, mbind, M_bind. unfold wh_query, reads; rewrite Hsub. cbv beta iota.
  destruct (wp_cursor params) as [c|].
  all: unfold from_outcome, mret, M_ret, gets; try rewrite Hcursor; cbn [fst];
    rewrite take_take, Nat.min_l, length_take by lia;
    match goal with |- context [(?a <? ?b `min` ?c)%nat] =>
      replace (a <? b `min` c)%nat with (a <? c)%nat by (destruct (Nat.ltb_spec a c), (Nat.ltb_spec a (b `min` c)); lia || done) end;
    reflexivity.
Qed.

(** The cursor of [params] stands before the rows [rest] of the log. *)
Definition stands_before (params : WebhookDeliveriesParams) (log rest : list WebhookDelivery) : Prop :=
  (params.(wp_cursor) = None /\ rest = log) \/
  exists before x, params.(wp_cursor) = Some (encodeDeliveriesCursor x) /\ log = before ++ x :: rest.

Lemma full_log_elem db subId status d : d ∈ full_log db subId status -> d ∈ db.(webhookDeliveries).
Proof. unfold full_log. rewrite elem_of_sort_by, list_elem_of_filter. tauto. Qed.

Lemma full_log_ids db subId status :
  NoDup (del_id <$> db.(webhookDeliveries)) -> NoDup (del_id <$> full_log db subId status).
Proof. intros Hnd. unfold full_log. rewrite (sort_by_perm newest_first). by apply NoDup_fmap_filter. Qed.

Section Pages.
Variables (ctx : OpContext) (st : WhState) (sub : WebhookSubscription).
Hypothesis Hids : NoDup (del_id <$> st.(wh_db).(webhookDeliveries)).
Hypothesis Hplain : Forall plain_row st.(wh_db).(webhookDeliveries).

(** A call answers with the first [limit] of the rows its cursor stands before. *)
Lemma page_call params rest :
  getScopedSubscription st.(wh_db) ctx params.(wp_id) = Ok sub ->
  stands_before params (full_log st.(wh_db) sub.(sub_id) params.(wp_status)) rest ->
  let limit := params.(wp_limit) ?? DEFAULT_DELIVERIES_LIMIT in
  (webhookDeliveries_op ctx params st).1 =
  Ok ((fun row => toPublicDelivery row params.(wp_includePayload)) <$> take limit rest,
      if (limit <? length rest)%nat then encodeDeliveriesCursor <$> last (take limit rest) else None).
Proof.
  intros Hsub [[Hc ->]|(before & x & Hc & Hlog)] limit.
  - apply (deliveries_call ctx params st sub (Build_DeliveriesCursor 0 "")); rewrite ?Hc; done.
  - assert (Hx : plain_row x).
    { rewrite Forall_forall in Hplain. apply Hplain, (full_log_elem _ sub.(sub_id) params.(wp_status)).
      rewrite Hlog. set_solver. }
    apply (deliveries_call ctx params st sub (cursor_at x)); rewrite ?Hc; [done|by apply cursor_round_trip| |done].
    assert (Hafter : filter (fun d => after_cursor (cursor_at x) d = true) (full_log st.(wh_db) sub.(sub_id) params.(wp_status)) = rest).
    { pose proof (full_log_ids st.(wh_db) sub.(sub_id) params.(wp_status) Hids) as Hnd.
      pose proof (sort_by_strongly newest_first newest_first_total newest_first_trans
        (filter (log_row sub.(sub_id) params.(wp_status) None) st.(wh_db).(webhookDeliveries))) as Hs.
      change (sort_by newest_first _) with (full_log st.(wh_db) sub.(sub_id) params.(wp_status)) in Hs.
      rewrite Hlog in Hnd, Hs |- *. apply after_split; [apply Hx|done..]. }
    rewrite <- Hafter. unfold full_log.
    rewrite filter_sort_by by first [apply newest_first_total|apply newest_first_trans].
    rewrite list_filter_filter. f_equal. apply filter_ext_in. intros d _. unfold log_row. tauto.
Qed.

Lemma log_pages_from params rest fuel :
  getScopedSubscription st.(wh_db) ctx params.(wp_id) = Ok sub ->
  (1 <= params.(wp_limit) ?? DEFAULT_DELIVERIES_LIMIT)%nat ->
  stands_before params (full_log st.(wh_db) sub.(sub_id) params.(wp_status)) rest ->
  (length rest < fuel)%nat ->
  exists pages, log_pages fuel ctx params st = Some pages /\
    concat pages = (fun row => toPublicDelivery row params.(wp_includePayload)) <$> rest /\
    Forall (fun p => (length p <= params.(wp_limit) ?? DEFAULT_DELIVERIES_LIMIT)%nat) pages.
Proof.
  intros Hsub Hlimit. revert params rest Hsub Hlimit. induction fuel as [|fuel IH]; intros params rest Hsub Hlimit Hstands Hfuel; [lia|].
  cbn [log_pages]. rewrite (page_call params rest Hsub Hstands). cbv zeta.
  set (limit := wp_limit params ?? DEFAULT_DELIVERIES_LIMIT) in *.
  set (public := fun row => toPublicDelivery row (wp_includePayload params)).
  assert (Hlen : (length (public <$> take limit rest) <= limit)%nat) by (rewrite length_fmap, length_take; lia).
  destruct (Nat.ltb_spec limit (length rest)) as [Hmore|Hdone].
  2:{ exists [public <$> take limit rest]. rewrite take_ge in * by lia. cbn [concat]. rewrite app_nil_r. auto. }
  assert (Hlast : exists front x, take limit rest = front ++ [x]).
  { destruct (take limit rest) as [|x front _] eqn:E using rev_ind; [|eauto].
    apply (f_equal length) in E. rewrite length_take in E. cbn in E. lia. }
  destruct Hlast as (front & x & Hx). rewrite Hx, last_snoc. cbn [fmap option_fmap option_map].
  set (next := Build_WebhookDeliveriesParams _ _ _ _ _).
  destruct (IH next (drop limit rest)) as (pages & Hp & Hcat & Hall); [done..| |rewrite length_drop; lia|].
  { right. assert (Hrest : rest = front ++ x :: drop limit rest).
    { rewrite <- (take_drop limit rest) at 1. by rewrite Hx, <- app_assoc. }
    destruct Hstands as [[_ Hlog]|(before & y & _ & Hlog)].
    - exists front, x. split; [done|]. cbn [wp_status next]. rewrite <- Hlog. exact Hrest.
    - exists (before ++ y :: front), x. split; [done|]. cbn [wp_status next]. rewrite <- app_assoc, Hlog. cbn. by rewrite <- Hrest. }
  exists ((public <$> front ++ [x]) :: pages). rewrite Hp. split; [done|]. split.
  - cbn [concat]. rewrite Hcat, <- Hx. cbn [wp_includePayload next]. fold public. by rewrite <- fmap_app, take_drop.
  - constructor; [by rewrite <- Hx|done].
Qed.
End Pages.

(** Following [nextCursor] from the first page ends, and its pages, each at
    most [limit] long, together are the hook's whole log, every delivery of the
    asked status once, newest first. *)
Theorem log_pages_exact ctx params st sub fuel :
  NoDup (del_id <$> st.(wh_db).(webhookDeliveries)) -> Forall plain_row st.(wh_db).(webhookDeliveries) ->
  getScopedSubscription st.(wh_db) ctx params.(wp_id) = Ok sub ->
  params.(wp_cursor) = None -> (1 <= params.(wp_limit) ?? DEFAULT_DELIVERIES_LIMIT)%nat ->
  let log := full_log st.(wh_db) sub.(sub_id) params.(wp_status) in
  (length log < fuel)%nat ->
  StronglySorted (fun a b => newest_first a b = true) log /\
  log ≡ₚ filter (log_row sub.(sub_id) params.(wp_status) None) st.(wh_db).(webhookDeliveries) /\
  exists pages, log_pages fuel ctx params st = Some pages /\
    concat pages = (fun row => toPublicDelivery row params.(wp_includePayload)) <$> log /\
    Forall (fun p => (length p <= params.(wp_limit) ?? DEFAULT_DELIVERIES_LIMIT)%nat) pages.
Proof.
  intros Hids Hplain Hsub Hc Hlimit log Hfuel.
  split; [apply sort_by_strongly; [apply newest_first_total|apply newest_first_trans]|]. split; [apply sort_by_perm|].
  apply (log_pages_from ctx st sub); try done. by left.
Qed.
End Log.

Module Sample.
Definition row (id : string) (at_ : Z) (status : DeliveryStatus) : WebhookDelivery :=
  Build_WebhookDelivery id "s" ("ev-" +:+ id) "file.changed" (JObj []) status 1 at_ None None None None None at_.
Definition db : Db := empty_db
  <| orgMembers := [Build_OrgMember "o" "alice" Admin] |>
  <| webhookSubscriptions := [Build_WebhookSubscription "s" "o" None "https://r" None (JArr [JStr "file.changed"]) None "c" true
       None None 0 None None None "alice" 0 0] |>
  <| webhookDeliveries := [row "a" 10 DsDelivered; row "c" 30 DsFailed; row "b" 30 DsDelivered; row "e" 20 DsPending;
       row "f" 30 DsDelivered] |>.
Definition state : WhState := Build_WhState db (Build_KeyState None ∅) 0.
Definition ctx : OpContext := Build_OpContext "o" "d" "alice" None None None None.
Definition params : WebhookDeliveriesParams := Build_WebhookDeliveriesParams "s" (Some DsDelivered) (Some 2%nat) None false.
End Sample.

Lemma log_pages_exact_witness :
  exists pages, log_pages 10 Sample.ctx Sample.params Sample.state = Some pages /\
    map (map pd_id) pages = [["f"; "b"]; ["a"]].
Proof.
  destruct (log_pages_exact Sample.ctx Sample.params Sample.state
    (Build_WebhookSubscription "s" "o" None "https://r" None (JArr [JStr "file.changed"]) None "c" true
       None None 0 None None None "alice" 0 0) 10) as (_ & _ & pages & Hp & _).
  - apply (bool_decide_unpack _). vm_compute. exact I.
  - repeat (apply Forall_cons; split; [split; [split; discriminate|split; [discriminate|reflexivity]]|]). apply Forall_nil. exact I.
  - vm_compute. reflexivity.
  - reflexivity.
  - apply Nat.leb_le. reflexivity.
  - apply Nat.ltb_lt. vm_compute. reflexivity.
  - exists pages. split; [exact Hp|]. vm_compute in Hp. injection Hp as <-. reflexivity.
Defined.
