(* ===== verification/LegacyFiles.v ===== *)
(** * Keys files-sdk reserves: core/src/storage/legacy-reserved-keys.ts

    The functions that serve keys ending in [.fls-tmp] from the 2.0.0 layout (the
    body at the key's path, a JSON sidecar beside it) on the disk of NodeFs.v,
    symbolic links included.  [JSON.parse] and the SHA-1 digest are parameters
    (class [SidecarText]).  A staged file has a name nothing else uses
    ([randomUUID]), so that staging, renaming and cleaning up leave no trace of it;
    commits on one path are serialised by the lock, so each is one step.  The
    theorems: no read returns bytes from outside the root, whatever links the disk
    has; the listing ends; and on a disk without links the functions keep the laws
    the local backend relies on. *)

From S2P Require Import Prelude JsString Errors Paths Schema Storage Text Webhooks LocalAdapter NodeFs.

Class SidecarText : Type := {
  sha1hex : string -> string;
  json_parse : string -> outcome error json
}.

Section Legacy.
Context {rt : Runtime} {st : SidecarText}.
Variable root : list string.   (* the resolved root directory *)
Variable now : Z.              (* [Date.now()] of the call *)

Definition SIDECAR_SUFFIX : string := ".meta.json".
Definition DEFAULT_CONTENT_TYPE : string := "application/octet-stream".

(** [isMissing] of a system error. *)
Definition isMissing (c : fs_code) : bool := bool_decide (c = ENOENT) || bool_decide (c = ENOTDIR).

Definition outsideRoot (key : string) : error :=
  ValidationError ("Path resolves outside the storage root: " +:+ json_string key) (Some "path") None.

(** [target.startsWith(root.endsWith(sep) ? root : root + sep)]. *)
Definition isInside (base target : list string) : bool :=
  bool_decide (base = []) || (bool_decide (base `prefix_of` target) && negb (bool_decide (target = base))).

Definition keyPath (key : string) : outcome error (list string) :=
  let target := resolve_key root key in
  if isInside root target then Ok target else Throw (outsideRoot key).

(** The climb to the nearest existing ancestor, on the reversed path. *)
Fixpoint climb (d : FsDisk) (realRoot rev_dir : list string) (key : string) : outcome error unit :=
  match realpath d (rev rev_dir) with
  | Ok real =>
      if negb (bool_decide (real = realRoot)) && negb (isInside realRoot real) then Throw (outsideRoot key) else Ok tt
  | Throw c =>
      if isMissing c then match rev_dir with [] => Ok tt | _ :: up => climb d realRoot up key end
      else Throw (fs_error c)
  end.

Definition assertParentInsideRoot (target : list string) (key : string) (d : FsDisk) : outcome error unit :=
  match realpath d root with
  | Throw c => if isMissing c then Ok tt else Throw (fs_error c)
  | Ok realRoot => climb d realRoot (rev (dirname target)) key
  end.

Record Sidecar : Type := { sc_contentType : string; sc_etag : string; sc_lastModified : Z }.

(** A property of a parsed value. *)
Definition member (name : string) (j : json) : option json :=
  match j with
  | JObj fields => snd <$> last (filter (fun f : string * json => f.1 = name) fields)
  | _ => None
  end.

Definition readSidecar (bodyPath : list string) (d : FsDisk) : outcome error (option Sidecar) :=
  match readFile d (with_suffix bodyPath SIDECAR_SUFFIX) with
  | Throw c => if isMissing c then Ok None else Throw (fs_error c)
  | Ok text =>
      match json_parse text with
      | Throw e => Throw e
      | Ok parsed =>
          match member "contentType" parsed, member "etag" parsed, member "lastModified" parsed with
          | Some (JStr ct), Some (JStr etag), Some (JNum lm) =>
              Ok (Some {| sc_contentType := ct; sc_etag := etag; sc_lastModified := lm |})
          | _, _, _ => Ok None
          end
      end
  end.

(** What a sidecar, or its absence, makes of a file. *)
Definition legacy_object (size : Z) (mtimeMs : Z) (sidecar : option Sidecar) : LegacyObject :=
  {| lo_size := size;
     lo_contentType := default DEFAULT_CONTENT_TYPE (sc_contentType <$> sidecar);
     lo_etag := sc_etag <$> sidecar;
     lo_lastModified := default mtimeMs (sc_lastModified <$> sidecar) |}.

(** The file a legacy key leads to: [realpath], the containment check, [stat]. *)
Definition legacy_file (key : string) (d : FsDisk) : outcome error (option (string * Z * list string)) :=
  match keyPath key with
  | Throw e => Throw e
  | Ok bodyPath =>
      let missing c := if isMissing c then Ok None else Throw (fs_error c) in
      match realpath d bodyPath with
      | Throw c => missing c
      | Ok realBody =>
          match realpath d root with
          | Throw c => missing c
          | Ok realRoot =>
              if negb (isInside realRoot realBody) then Throw (outsideRoot key)
              else match fs_stat d realBody with
                   | Throw c => missing c
                   | Ok (FileEntry body mtimeMs) => Ok (Some (body, mtimeMs, bodyPath))
                   | Ok _ => Ok None
                   end
          end
      end
  end.

Definition fs_legacyGet (key : string) (d : FsDisk) : outcome error (option (string * LegacyObject)) :=
  match legacy_file key d with
  | Throw e => Throw e
  | Ok None => Ok None
  | Ok (Some (body, mtimeMs, bodyPath)) =>
      match readSidecar bodyPath d with
      | Throw e => Throw e
      | Ok sidecar => Ok (Some (body, legacy_object (Z.of_nat (String.length body)) mtimeMs sidecar))
      end
  end.

Definition fs_legacyHead (key : string) (d : FsDisk) : outcome error (option LegacyObject) :=
  match legacy_file key d with
  | Throw e => Throw e
  | Ok None => Ok None
  | Ok (Some (body, mtimeMs, bodyPath)) =>
      match readSidecar bodyPath d with
      | Throw e => Throw e
      | Ok sidecar => Ok (Some (legacy_object (Z.of_nat (String.length body)) mtimeMs sidecar))
      end
  end.

Definition assertWritable (key : string) (d : FsDisk) : outcome error (list string) :=
  match keyPath key with
  | Throw e => Throw e
  | Ok bodyPath =>
      match assertParentInsideRoot bodyPath key d with Throw e => Throw e | Ok _ => Ok bodyPath end
  end.

(** A call of node:fs whose error leaves the module. *)
Definition fs_call {A} (m : M fs_code FsDisk A) : M error FsDisk A := fun d =>
  let '(o, d') := m d in (match o with Ok a => Ok a | Throw c => Throw (fs_error c) end, d').

Definition json_quote : string := bytes [34]%nat.

Definition sidecar_json (content : string) (contentType : option string) : json :=
  JObj [("contentType", JStr (contentType ?? DEFAULT_CONTENT_TYPE));
        ("etag", JStr (json_quote +:+ take_str 16 (sha1hex content) +:+ json_quote));
        ("lastModified", JNum now)].

Definition fs_legacyPut (key content : string) (contentType : option string) : M error FsDisk unit :=
  bodyPath ← reads (assertWritable key);
  _ ← fs_call (mkdir_recursive (dirname bodyPath));
  _ ← fs_call (rename_onto bodyPath content now);
  fs_call (rename_onto (with_suffix bodyPath SIDECAR_SUFFIX) (json_text (sidecar_json content contentType)) now).

Definition fs_legacyDelete (key : string) : M error FsDisk unit :=
  bodyPath ← reads (assertWritable key);
  found ← gets (fun d => lstat d bodyPath);
  match found with
  | Throw c => if isMissing c then mret tt else throw (fs_error c)
  | Ok DirEntry => mret tt
  | Ok _ =>
      _ ← fs_call (rm_force bodyPath);
      fs_call (rm_force (with_suffix bodyPath SIDECAR_SUFFIX))
  end.

(** *** The listing *)

(** [SDK_STAGING_NAME]: [h] stands for a hex digit. *)
Definition staging_template : string := ".hhhhhhhh-hhhh-hhhh-hhhh-hhhhhhhhhhhh.fls-tmp".

Fixpoint fits (template s : string) : bool :=
  match template, s with
  | EmptyString, EmptyString => true
  | String t template', String c s' =>
      (if bool_decide (t = "h"%char) then is_hex_char c else bool_decide (c = t)) && fits template' s'
  | _, _ => false
  end.

Definition is_staging_name (name : string) : bool :=
  Nat.leb (String.length staging_template) (String.length name) &&
  fits staging_template (drop_str (String.length name - String.length staging_template) name).

(** [readdir]: the names in a real folder. *)
Definition readdir (d : FsDisk) (real : list string) : list (string * entry) :=
  (fun e : list string * entry => (last_name e.1, e.2)) <$>
    filter (fun e : list string * entry => e.1 <> [] /\ dirname e.1 = real) (map_to_list d).

(** The entry of a file met in the walk. *)
Definition legacy_entry (d : FsDisk) (prefix : string) (abs : list string) (name : string)
    : outcome error (option (string * LegacyObject)) :=
  if negb (ends_with TMP_SUFFIX name) then Ok None
  else
    let key := join "/" (drop (length root) abs) in
    if negb (starts_with prefix key) then Ok None
    else match lstat d abs with
         | Throw c => if isMissing c then Ok None else Throw (fs_error c)
         | Ok (FileEntry body mtimeMs) =>
             match readSidecar abs d with
             | Throw e => Throw e
             | Ok sidecar =>
                 if bool_decide (sidecar = None) && is_staging_name name then Ok None
                 else Ok (Some (key, legacy_object (Z.of_nat (String.length body)) mtimeMs sidecar))
             end
         | Ok _ => Ok None
         end.

(** A folder's entries: the folders to visit, the last on top, and the files found. *)
Fixpoint visit (d : FsDisk) (prefix : string) (dir : list string) (entries : list (string * entry))
    (stack : list (list string)) (found : list (string * LegacyObject))
    : outcome error (list (list string) * list (string * LegacyObject)) :=
  match entries with
  | [] => Ok (stack, found)
  | (name, DirEntry) :: rest => visit d prefix dir rest ((dir ++ [name]) :: stack) found
  | (name, FileEntry _ _) :: rest =>
      match legacy_entry d prefix (dir ++ [name]) name with
      | Throw e => Throw e
      | Ok None => visit d prefix dir rest stack found
      | Ok (Some it) => visit d prefix dir rest stack (found ++ [it])
      end
  | (_, LinkEntry _ _) :: rest => visit d prefix dir rest stack found
  end.

(** The walk, [None] when [fuel] visits do not empty the stack. *)
Fixpoint walk (fuel : nat) (d : FsDisk) (realBase : list string) (prefix : string) (stack : list (list string))
    (found : list (string * LegacyObject)) : option (outcome error (list (string * LegacyObject))) :=
  match fuel, stack with
  | _, [] => Some (Ok found)
  | O, _ => None
  | S fuel', dir :: rest =>
      let skip := walk fuel' d realBase prefix rest found in
      match realpath d dir with
      | Throw c => if isMissing c || bool_decide (c = ELOOP) then skip else Some (Throw (fs_error c))
      | Ok real =>
          if negb (bool_decide (real = realBase ++ drop (length root) dir)) then skip
          else if negb (bool_decide (entry_at d real = Some DirEntry)) then skip
          else match visit d prefix dir (readdir d real) rest found with
               | Throw e => Some (Throw e)
               | Ok (stack', found') => walk fuel' d realBase prefix stack' found'
               end
      end
  end.

(** One visit per entry of the disk, and one for the start, are enough. *)
Definition walk_fuel (d : FsDisk) : nat := S (size d).

Definition fs_legacyList (prefix : string) (d : FsDisk) : outcome error (list (string * LegacyObject)) :=
  let start := resolve_key root (take_str (String.length prefix - String.length (last_name (split_on is_slash prefix))) prefix) in
  if negb (bool_decide (start = root)) && negb (isInside root start) then Throw (outsideRoot prefix)
  else match realpath d root with
       | Throw c => if isMissing c then Ok [] else Throw (fs_error c)
       | Ok realBase =>
           match walk (walk_fuel d) d realBase prefix [start] [] with
           | Some r => r
           | None => Throw (JsError "the walk did not end")
           end
       end.

(** ** The walk ends *)

Section Walk.
Variables (d : FsDisk) (realBase : list string) (prefix : string).

(** The paths of the disk at or below a place. *)
Definition at_or_below (r : list string) : list (list string) := filter (fun p => r `prefix_of` p) (map_to_list d).*1.

Definition strictly_below (r : list string) : list (list string) :=
  filter (fun p => r `prefix_of` p /\ p <> r) (map_to_list d).*1.

Lemma at_or_below_entry r : is_Some (d !! r) -> length (at_or_below r) = S (length (strictly_below r)).
Proof.
  intros [e He]. unfold at_or_below, strictly_below.
  assert (Hin : r ∈ (map_to_list d).*1) by (apply list_elem_of_fmap; exists (r, e); split; [done|by apply elem_of_map_to_list]).
  pose proof (NoDup_fst_map_to_list d) as Hnd. revert Hin Hnd. generalize ((map_to_list d).*1). intros l Hin Hnd.
  apply list_elem_of_split in Hin as (l1 & l2 & ->). apply NoDup_app in Hnd as (_ & Hl1 & Hnd).
  apply NoDup_cons in Hnd as [Hl2 _]. rewrite !filter_app, !filter_cons, !length_app.
  rewrite decide_True by done. rewrite decide_False by naive_solver. cbn [length].
  rewrite (filter_ext_in (fun p => r `prefix_of` p) (fun p => r `prefix_of` p /\ p <> r) l1).
  - rewrite (filter_ext_in (fun p => r `prefix_of` p) (fun p => r `prefix_of` p /\ p <> r) l2); [lia|].
    intros p Hp. split; [|tauto]. intros ?. split; [done|]. by intros ->.
  - intros p Hp. split; [|tauto]. intros ?. split; [done|]. intros ->. apply (Hl1 r Hp). by left.
Qed.

Definition weight (dir : list string) : nat := S (length (strictly_below (realBase ++ drop (length root) dir))).

(** The places below different names of a folder are apart. *)
Lemma children_weight r names :
  NoDup names -> (forall n, n ∈ names -> is_Some (d !! (r ++ [n]))) ->
  (sum_list_with (fun n => S (length (strictly_below (r ++ [n])))) names <= length (strictly_below r))%nat.
Proof.
  intros Hnd Hin. transitivity (length (filter (fun p => Exists (fun n => r ++ [n] `prefix_of` p) names) (map_to_list d).*1)).
  - induction names as [|n names IH]; [cbn; lia|]. apply NoDup_cons in Hnd as [Hn Hnd]. cbn [sum_list_with].
    rewrite <- at_or_below_entry by (apply Hin; by left). specialize (IH Hnd ltac:(intros; apply Hin; by right)).
    etrans; [apply Nat.add_le_mono_l, IH|]. unfold at_or_below. clear IH Hin Hnd. generalize ((map_to_list d).*1). intros l.
    induction l as [|p l IH]; [done|]. rewrite !filter_cons.
    destruct (decide (r ++ [n] `prefix_of` p)) as [Hp|Hp], (decide (Exists _ names)) as [Hr|Hr];
      [|rewrite decide_True by (by left); cbn [length]; lia|rewrite decide_True by (by right); cbn [length]; lia|].
    + exfalso. destruct Hn. apply Exists_exists in Hr as (m & Hm & [q2 Hq2]). destruct Hp as [q1 Hq1].
      rewrite Hq1, <- !app_assoc in Hq2. apply app_inv_head in Hq2. by injection Hq2 as -> _.
    + rewrite decide_False by (intros [?|?]%Exists_cons; done). lia.
  - apply length_filter_impl. intros p _ (n & _ & [q ->])%Exists_exists. split.
    + rewrite <- app_assoc. by eexists.
    + intros Heq. rewrite <- app_assoc in Heq. apply (f_equal length) in Heq. rewrite !length_app in Heq. cbn in Heq. lia.
Qed.

Definition stack_weight (stack : list (list string)) : nat := sum_list_with weight stack.

(** A visit pushes the folder's folders, and nothing else. *)
Lemma visit_stack dir entries stack found stack' found' :
  visit d prefix dir entries stack found = Ok (stack', found') ->
  stack' = rev ((fun e => dir ++ [e.1]) <$> filter (fun e : string * entry => e.2 = DirEntry) entries) ++ stack.
Proof.
  revert stack found. induction entries as [|[n e] entries IH]; intros stack found; cbn [visit]; [by intros [= <- _]|].
  destruct e.
  - rewrite filter_cons_False by done. destruct (legacy_entry _ _ _ _) as [[it|]|]; [apply IH..|done].
  - rewrite filter_cons_True by done. intros ->%IH. cbn. by rewrite <- app_assoc.
  - rewrite filter_cons_False by done. apply IH.
Qed.

Lemma readdir_spec r n e : (n, e) ∈ readdir d r -> d !! (r ++ [n]) = Some e.
Proof.
  unfold readdir. intros ([p e'] & [= -> ->] & [[Hne Hdir] Hp]%list_elem_of_filter)%list_elem_of_fmap. cbn in *.
  apply elem_of_map_to_list in Hp. destruct p as [|p m _] using rev_ind; [done|].
  unfold dirname in Hdir. rewrite removelast_last in Hdir. subst. unfold last_name. by rewrite last_snoc.
Qed.

Lemma readdir_names r : NoDup (readdir d r).*1.
Proof.
  unfold readdir. rewrite <- list_fmap_compose. pose proof (NoDup_fst_map_to_list d) as Hnd.
  revert Hnd. generalize (map_to_list d). intros l. induction l as [|[p e] l IH]; intros Hnd; [constructor|].
  cbn in Hnd. apply NoDup_cons in Hnd as [Hp Hnd]. rewrite filter_cons. case_decide as Hf; [|by apply IH].
  cbn. apply NoDup_cons. split; [|by apply IH]. intros ([q e'] & Heq & [[Hq Hdq] Hin]%list_elem_of_filter)%list_elem_of_fmap.
  cbn in *. destruct Hf as [Hp0 Hdp]. apply Hp, list_elem_of_fmap. exists (q, e'). split; [|done]. cbn.
  destruct p as [|p m _] using rev_ind; [done|]. destruct q as [|q m' _] using rev_ind; [done|].
  unfold dirname, last_name in *. rewrite removelast_last in Hdp, Hdq. rewrite !last_snoc in Heq. cbn in Heq. congruence.
Qed.

Lemma stack_weight_app a b : stack_weight (a ++ b) = (stack_weight a + stack_weight b)%nat.
Proof. apply sum_list_with_app. Qed.

Lemma stack_weight_rev a : stack_weight (rev a) = stack_weight a.
Proof. induction a as [|x a IH]; [done|]. cbn [rev]. rewrite stack_weight_app, IH. unfold stack_weight. cbn [sum_list_with]. lia. Qed.

(** A visit of a real folder costs more than all it pushes. *)
Lemma visit_weight dir : (length root <= length dir)%nat ->
  (stack_weight ((fun e => dir ++ [e.1]) <$> filter (fun e : string * entry => e.2 = DirEntry)
            (readdir d (realBase ++ drop (length root) dir))) < weight dir)%nat.
Proof.
  intros Hlen. set (r := realBase ++ drop (length root) dir).
  assert (Hw : forall l : list (string * entry), stack_weight ((fun e => dir ++ [e.1]) <$> l) =
    sum_list_with (fun n => S (length (strictly_below (r ++ [n])))) l.*1).
  { unfold stack_weight. intros l. induction l as [|e l IH]; [done|]. cbn [fmap list_fmap sum_list_with fst]. rewrite IH. unfold weight, r.
    by rewrite drop_app_le, app_assoc. }
  rewrite Hw. unfold weight. apply Nat.lt_succ_r, children_weight.
  - eapply sublist_NoDup; [apply (readdir_names r)|]. apply sublist_fmap_mono, filter_sublist.
  - intros n (e & -> & [_ He]%list_elem_of_filter)%list_elem_of_fmap. destruct e as [m e]. apply readdir_spec in He. eauto.
Qed.

Lemma walk_ends fuel stack found :
  Forall (fun dir => length root <= length dir)%nat stack -> (stack_weight stack <= fuel)%nat ->
  walk fuel d realBase prefix stack found <> None.
Proof.
  revert stack found. induction fuel as [|fuel IH]; intros [|dir stack] found Hlen Hfuel;
    [done|unfold stack_weight, weight in Hfuel; cbn in Hfuel; lia|done|].
  apply Forall_cons in Hlen as [Hdir Hlen]. cbn [walk].
  change (weight dir + stack_weight stack <= S fuel)%nat in Hfuel.
  assert (Hskip : walk fuel d realBase prefix stack found <> None) by (apply IH; [done|unfold weight in Hfuel; lia]).
  destruct (realpath d dir) as [real|c]; [|by destruct (_ || _)].
  destruct (negb _) eqn:Hreal; [done|]. destruct (negb (bool_decide (entry_at _ _ = _))); [done|].
  apply negb_false_iff, bool_decide_eq_true in Hreal as ->.
  destruct (visit _ _ _ _ _ _) as [[stack' found']|e] eqn:Ev; [|done]. apply visit_stack in Ev as ->. apply IH.
  - apply Forall_app. split; [|done]. apply Forall_rev, Forall_fmap, Forall_forall. intros e _. cbn. rewrite length_app. lia.
  - rewrite stack_weight_app, stack_weight_rev. pose proof (visit_weight dir Hdir). lia.
Qed.
End Walk.

Lemma start_weight d realBase start : (stack_weight d realBase [start] <= walk_fuel d)%nat.
Proof.
  unfold stack_weight, weight, walk_fuel, strictly_below. cbn. rewrite Nat.add_0_r. apply le_n_S.
  etrans; [apply length_filter|]. by rewrite length_fmap, length_map_to_list.
Qed.

(** The listing of reserved keys ends.  The walk of the disk keeps an explicit
    stack of folders; whatever folders, files and links the disk has, as many
    visits as the disk has entries, and one, empty the stack, so the listing
    always returns its files or the error it met. *)
Theorem legacy_list_ends d realBase start prefix :
  start = root \/ isInside root start = true ->
  exists r, walk (walk_fuel d) d realBase prefix [start] [] = Some r.
Proof.
  intros Hstart. destruct (walk _ _ _ _ _ _) as [r|] eqn:E; [by exists r|]. exfalso. revert E. apply walk_ends; [|apply start_weight].
  repeat constructor. destruct Hstart as [-> | H]; [done|]. unfold isInside in H.
  apply orb_true_iff in H as [->%bool_decide_eq_true|[[q ->]%bool_decide_eq_true _]%andb_true_iff]; [cbn; lia|].
  rewrite length_app. lia.
Qed.

(** No link leads a read of a reserved key outside the root.  Whatever
    symbolic links the disk has, along the key's path or at the file itself, when
    the read returns a body, that body is the content of a file at a real path
    inside the real root. *)
Theorem legacy_reads_inside key d body o :
  fs_legacyGet key d = Ok (Some (body, o)) ->
  exists realRoot p m, realpath d root = Ok realRoot /\ isInside realRoot p = true /\ real_path d p /\
    d !! p = Some (FileEntry body m) /\ o.(lo_size) = Z.of_nat (String.length body).
Proof.
  unfold fs_legacyGet, legacy_file. destruct (keyPath key) as [bp|]; [|done].
  destruct (realpath d bp) as [p|c] eqn:Ep; [|by destruct (isMissing c)].
  destruct (realpath d root) as [rr|c] eqn:Er; [|by destruct (isMissing c)].
  destruct (isInside rr p) eqn:Ei; [cbn|done]. apply realpath_real in Ep as [Hreal Hself]. unfold fs_stat. rewrite Hself.
  destruct Hreal as [Hup (e & He & Hl)]. rewrite He. destruct e as [b m| |]; [|done|by destruct (Hl absolute target)].
  destruct (readSidecar bp d) as [sc|]; [|done]. intros [= <- <-]. exists rr, p, m. split_and!; try done.
  - split; [done|]. by eexists.
  - by destruct p.
Qed.
End Legacy.

(** ** The laws of the local backend, on disks without links *)


(** A name that ends in the sidecar's suffix is not reserved. *)
Lemma sidecar_not_reserved {rt : Runtime} {RL : RuntimeLaws rt} key :
  isLegacyReservedKey key = true -> ends_with SIDECAR_SUFFIX (basename key) = false.
Proof.
  intros Hk. apply not_true_iff_false. intros [a Ha]%ends_with_spec. unfold isLegacyReservedKey in Hk. rewrite Ha in Hk.
  rewrite (string_rev_app a SIDECAR_SUFFIX) in Hk.
  change (drop_noise (string_rev SIDECAR_SUFFIX +:+ string_rev a)) with (string_rev SIDECAR_SUFFIX +:+ string_rev a) in Hk.
  rewrite <- string_rev_app, string_rev_rev in Hk. destruct (toLowerCase_suffix a SIDECAR_SUFFIX eq_refl) as [b Hb].
  rewrite Hb in Hk. apply ends_with_spec in Hk as [c Hc]. apply (f_equal string_rev) in Hc. by rewrite !string_rev_app in Hc.
Qed.

Definition PlainDisk : Type := { d : FsDisk | plain_disk d }.

(** An operation that keeps disks plain, on plain disks. *)
Definition on_plain {E A} (m : M E FsDisk A) (Hm : forall d, plain_disk d -> plain_disk (m d).2) : M E PlainDisk A :=
  fun s => let r := m (proj1_sig s) in (r.1, exist _ r.2 (Hm _ (proj2_sig s))).

Section Plain.
Context {rt : Runtime} {RL : RuntimeLaws rt} {st : SidecarText}.
Variables (root : list string) (now : Z).
Hypothesis Hroot : dotless root.

(** *** Keys and their paths *)

Lemma resolve_dotless from names : dotless from -> dotless (resolve_names from names).
Proof.
  revert from. induction names as [|n names IH]; intros from Hf; [done|]. cbn. apply IH.
  case_bool_decide as H1; [done|]. case_bool_decide as H2; cbn [orb]; [done|]. case_bool_decide as H3.
  - destruct from as [|x from _] using rev_ind; [done|]. rewrite removelast_last. by apply Forall_app in Hf as [? _].
  - apply Forall_app. by repeat constructor.
Qed.

Lemma resolve_plain from names :
  (forall n, n ∈ names -> n <> "." /\ n <> "..") -> resolve_names from names = from ++ filter (fun n => n <> "") names.
Proof.
  revert from. induction names as [|n names IH]; intros from Hn; [by rewrite app_nil_r|].
  destruct (Hn n ltac:(by left)) as [H1 H2]. unfold resolve_names. cbn [foldl].
  change (resolve_names ?a ?l) with (resolve_names a l) in IH.
  rewrite (bool_decide_false (n = ".")), (bool_decide_false (n = "..")), orb_false_r by done. fold (resolve_names).
  case_bool_decide as He.
  - rewrite filter_cons_False by naive_solver. apply IH. intros m Hm. apply Hn. by right.
  - rewrite filter_cons_True by done. unfold resolve_names in IH. rewrite IH by (intros m Hm; apply Hn; by right). by rewrite <- app_assoc.
Qed.

(** The path of a guarded relative key. *)
Lemma key_path_plain k : assertKeyInsideDrive k = Ok tt -> starts_with "/" k = false ->
  resolve_key root k = root ++ path_names k.
Proof.
  intros [_ Hdot]%assertPathInsideDrive_ok Hrel. unfold resolve_key. rewrite Hrel. apply resolve_plain.
  intros n Hn. by eapply no_dot_segment_slash.
Qed.

Lemma reserved_names k : isLegacyReservedKey k = true -> exists q, path_names k = q ++ [basename k].
Proof.
  intros Hk. unfold basename. destruct (path_names k) as [|n q _] eqn:E using rev_ind.
  - unfold isLegacyReservedKey, basename in Hk. rewrite E in Hk. cbn in Hk. by rewrite toLowerCase_ascii in Hk.
  - exists q. by rewrite last_snoc.
Qed.

Lemma path_names_dotless k : assertKeyInsideDrive k = Ok tt -> dotless (path_names k).
Proof. intros [_ Hdot]%assertPathInsideDrive_ok. apply Forall_forall. intros n Hn. by eapply no_dot_names. Qed.

(** *** Plain disks stay plain *)

Lemma target_dotless key target : keyPath root key = Ok target -> dotless target.
Proof.
  unfold keyPath. destruct (isInside _ _); [|done]. intros [= <-]. apply resolve_dotless.
  destruct (starts_with "/" key); [constructor|done].
Qed.

Lemma writable_ok key d p : assertWritable root key d = Ok p -> keyPath root key = Ok p.
Proof. unfold assertWritable. destruct (keyPath root key); [|done]. by destruct (assertParentInsideRoot _ _ _ _); [intros [= <-]|]. Qed.

(** Once the paths are known, a call keeps what its node:fs calls keep. *)
Lemma fs_call_plain {A : Type} (m : M fs_code FsDisk A) d :
  plain_disk d -> plain_disk (m d).2 -> plain_disk (fs_call m d).2.
Proof. unfold fs_call. by destruct (m d). Qed.

Lemma sidecar_dotless p : dotless p -> dotless (with_suffix p SIDECAR_SUFFIX).
Proof.
  intros Hp. apply with_suffix_dotless; [done|..]; intros H%(f_equal string_rev); by rewrite string_rev_app in H.
Qed.

Lemma bind_plain {A B : Type} (m : M error FsDisk A) (f : A -> M error FsDisk B) d :
  plain_disk (m d).2 -> (forall a d1, m d = (Ok a, d1) -> plain_disk d1 -> plain_disk (f a d1).2) -> plain_disk ((m ≫= f) d).2.
Proof. unfold mbind, M_bind. destruct (m d) as [[a|e] d1]; cbn; auto. Qed.

Lemma writable_plain key d p d1 : reads (assertWritable root key) d = (Ok p, d1) -> dotless p.
Proof. intros [Hw _]%reads_ok. by apply writable_ok, target_dotless in Hw. Qed.

Lemma put_plain key b ct d : plain_disk d -> plain_disk (fs_legacyPut root now key b ct d).2.
Proof.
  intros Hd. unfold fs_legacyPut. apply bind_plain; [done|]. intros p d1 Hp%writable_plain H1.
  apply bind_plain; [by apply fs_call_plain, mkdir_plain|]. intros _ d2 _ H2.
  apply bind_plain; [by apply fs_call_plain, rename_path_plain|]. intros _ d3 _ H3.
  by apply fs_call_plain, rename_path_plain, H3; [|apply sidecar_dotless].
Qed.

Lemma delete_plain key d : plain_disk d -> plain_disk (fs_legacyDelete root key d).2.
Proof.
  intros Hd. unfold fs_legacyDelete. apply bind_plain; [done|]. intros p d1 Hp%writable_plain H1.
  apply bind_plain; [done|]. intros found d2 _ H2.
  assert (Hrm : plain_disk ((_ ← fs_call (rm_force p); fs_call (rm_force (with_suffix p SIDECAR_SUFFIX))) d2).2).
  { apply bind_plain; [by apply fs_call_plain, rm_path_plain|]. intros _ d3 _ H3.
    by apply fs_call_plain, rm_path_plain, H3; [|apply sidecar_dotless]. }
  destruct found as [[| |]|c]; [done..|by destruct (isMissing c)].
Qed.

(** *** The view, and the laws *)

(** What files-sdk's layout shows of a disk: the files below the root, less the
    sidecars. *)
Definition fs_view (s : PlainDisk) (names : list string) : option string :=
  if ends_with SIDECAR_SUFFIX (last_name names) then None else file_at (proj1_sig s) (root ++ names).

Definition plain_legacy : LegacyKeys PlainDisk := {|
  assertLegacyWritable key s := match assertWritable root key (proj1_sig s) with Ok _ => Ok tt | Throw e => Throw e end;
  legacyGet key s := fs_legacyGet root key (proj1_sig s);
  legacyHead key s := fs_legacyHead root key (proj1_sig s);
  legacyPut key b ct := on_plain (fs_legacyPut root now key b ct) (put_plain key b ct);
  legacyDelete key := on_plain (fs_legacyDelete root key) (delete_plain key);
  legacyList prefix s := fs_legacyList root prefix (proj1_sig s)
|}.

(** The path of a reserved key, in its folder. *)
Lemma reserved_path k : legacy_key k ->
  exists q, root ++ path_names k = (root ++ q) ++ [basename k] /\ path_names k = q ++ [basename k] /\
    dotless (root ++ q) /\ keyPath root k = Ok (root ++ path_names k) /\
    ends_with SIDECAR_SUFFIX (last_name (path_names k)) = false.
Proof.
  intros (Hg & Hrel & Hk). pose proof (sidecar_not_reserved k Hk) as Hs. destruct (reserved_names k Hk) as [q Hq].
  exists q. rewrite Hq, app_assoc. split_and!; [done|done| | |].
  - apply Forall_app. split; [done|]. apply path_names_dotless in Hg. rewrite Hq in Hg. by apply Forall_app in Hg as [? _].
  - unfold keyPath. rewrite (key_path_plain k Hg Hrel), Hq, app_assoc. unfold isInside.
    rewrite (bool_decide_true (root `prefix_of` _)) by (rewrite <- app_assoc; by eexists).
    rewrite (bool_decide_false (_ = root)); [cbn; by rewrite orb_true_r|]. intros H%(f_equal length). rewrite !length_app in H. cbn in H. lia.
  - unfold last_name. by rewrite last_snoc.
Qed.

(** A sidecar's path is none of the view's. *)
Lemma sidecar_apart q b n : ends_with SIDECAR_SUFFIX (last_name n) = false ->
  root ++ n <> (root ++ q) ++ [b +:+ SIDECAR_SUFFIX].
Proof.
  intros Hn Heq. rewrite <- app_assoc in Heq. apply app_inv_head in Heq as ->. unfold last_name in Hn.
  rewrite last_snoc in Hn. cbn [default from_option id] in Hn. by rewrite ends_with_app in Hn.
Qed.

Lemma put_effect k b ct d o d' : legacy_key k -> plain_disk d -> fs_legacyPut root now k b ct d = (o, d') ->
  (forall n, n <> path_names k -> ends_with SIDECAR_SUFFIX (last_name n) = false -> file_at d' (root ++ n) = file_at d (root ++ n)) /\
  (file_at d' (root ++ path_names k) = file_at d (root ++ path_names k) \/ file_at d' (root ++ path_names k) = Some b) /\
  (is_ok o = true -> file_at d' (root ++ path_names k) = Some b).
Proof.
  intros Hk Hd H. destruct (reserved_path k Hk) as (q & Hp & Hnames & Hdot & Hkey & Hside). unfold fs_legacyPut in H.
  apply bind_inv in H as [(p & d1 & Hw & H)|(e & Hw & ->)]; [|unfold reads in Hw; injection Hw as _ <-; split_and!; auto; discriminate].
  apply reads_ok in Hw as [Hw ->]. apply writable_ok in Hw. rewrite Hkey in Hw. injection Hw as <-.
  assert (Hmk : forall n, file_at (mkdir_recursive (dirname (root ++ path_names k)) d).2 n = file_at d n) by (intros n; by apply mkdirs_files).
  pose proof (mkdir_plain (dirname (root ++ path_names k)) d Hd) as Hd1.
  unfold fs_call, mbind, M_bind in H. destruct (mkdir_recursive _ d) as [[r|c] d1] eqn:Emk; cbn in Hmk, Hd1.
  2: { injection H as <- <-. split_and!; auto. discriminate. }
  assert (Hlast : last_name ((root ++ q) ++ [basename k]) = basename k) by (unfold last_name; by rewrite last_snoc).
  assert (Hdir : dirname ((root ++ q) ++ [basename k]) = root ++ q) by (unfold dirname; by rewrite removelast_last).
  unfold with_suffix in H. rewrite Hp, Hlast, Hdir in H. rewrite Hp.
  destruct (rename_onto ((root ++ q) ++ [basename k]) b now d1) as [[u|c] d2] eqn:E1;
    destruct (rename_plain _ _ _ _ _ _ _ Hd1 Hdot E1) as (Hd2 & Hfr & Hb).
  2: { injection H as <- <-. subst d2. split_and!; auto. discriminate. }
  destruct (rename_onto ((root ++ q) ++ [_ +:+ _]) _ now d2) as [o2 d3] eqn:E2.
  destruct (rename_plain _ _ _ _ _ _ _ Hd2 Hdot E2) as (_ & Hfr2 & _).
  assert (Hb2 : file_at d3 ((root ++ q) ++ [basename k]) = Some b).
  { rewrite Hfr2; [done|]. rewrite <- Hp. by apply sidecar_apart. }
  destruct o2; injection H as <- <-; (split_and!; [|by right|done]); intros n Hn Hs;
    (rewrite Hfr2, Hfr; [done| |by apply sidecar_apart]); rewrite <- Hp; by intros ?%app_inv_head.
Qed.

Lemma delete_effect k d o d' : legacy_key k -> plain_disk d -> fs_legacyDelete root k d = (o, d') ->
  (forall n, n <> path_names k -> ends_with SIDECAR_SUFFIX (last_name n) = false -> file_at d' (root ++ n) = file_at d (root ++ n)) /\
  (file_at d' (root ++ path_names k) = file_at d (root ++ path_names k) \/ file_at d' (root ++ path_names k) = None) /\
  (is_ok o = true -> file_at d' (root ++ path_names k) = None).
Proof.
  intros Hk Hd H. destruct (reserved_path k Hk) as (q & Hp & Hnames & Hdot & Hkey & Hside). unfold fs_legacyDelete in H.
  apply bind_inv in H as [(p & d1 & Hw & H)|(e & Hw & ->)]; [|unfold reads in Hw; injection Hw as _ <-; split_and!; auto; discriminate].
  apply reads_ok in Hw as [Hw ->]. apply writable_ok in Hw. rewrite Hkey in Hw. injection Hw as <-.
  unfold gets in H. unfold mbind at 1, M_bind at 1 in H. rewrite Hp in H |- *.
  assert (Hlast : last_name ((root ++ q) ++ [basename k]) = basename k) by (unfold last_name; by rewrite last_snoc).
  assert (Hdir : dirname ((root ++ q) ++ [basename k]) = root ++ q) by (unfold dirname; by rewrite removelast_last).
  pose proof (place_plain d (root ++ q) (basename k) Hd Hdot) as Hpl. unfold lstat in H.
  destruct (fs_place d ((root ++ q) ++ [basename k])) as [at_|c].
  2: { destruct Hpl as [Hc Hn]. assert (isMissing c = true) as Hm by (by destruct Hc as [-> | ->]). rewrite Hm in H.
       injection H as <- <-. unfold file_at at 3 4 5 6. rewrite Hn. split_and!; auto. }
  destruct Hpl as [-> _].
  destruct (entry_at d ((root ++ q) ++ [basename k])) as [[b m| |a t]|] eqn:E; [|injection H as <- <-|by apply entry_not_link in E|injection H as <- <-].
  2, 3: (unfold file_at at 3 4 5 6; rewrite E; split_and!; auto).
  unfold with_suffix, fs_call, mbind, M_bind in H. rewrite Hlast, Hdir in H.
  destruct (rm_force ((root ++ q) ++ [basename k]) d) as [[u|c] d1] eqn:E1;
    destruct (rm_plain _ _ _ _ _ Hd Hdot E1) as (Hd1 & Hfr & Hb).
  2: { injection H as <- <-. subst d1. split_and!; auto. discriminate. }
  destruct (rm_force ((root ++ q) ++ [_ +:+ _]) d1) as [o2 d2] eqn:E2.
  destruct (rm_plain _ _ _ _ _ Hd1 Hdot E2) as (_ & Hfr2 & _).
  assert (Hb2 : file_at d2 ((root ++ q) ++ [basename k]) = None).
  { rewrite Hfr2; [done|]. rewrite <- Hp. by apply sidecar_apart. }
  destruct o2; injection H as <- <-; (split_and!; [|by right|done]); intros n Hn Hs;
    (rewrite Hfr2, Hfr; [done| |by apply sidecar_apart]); rewrite <- Hp; by intros ?%app_inv_head.
Qed.

(** The file a reserved key leads to is the one at its path. *)
Lemma legacy_file_plain k d r : legacy_key k -> plain_disk d -> legacy_file root k d = Ok r ->
  file_at d (root ++ path_names k) = (fun x : string * Z * list string => x.1.1) <$> r.
Proof.
  intros Hk Hd H. destruct (reserved_path k Hk) as (q & Hp & Hnames & Hdot & Hkey & _). unfold legacy_file in H. rewrite Hkey in H.
  assert (Hdk : dotless (root ++ path_names k)) by (apply Forall_app; split; [done|apply path_names_dotless, Hk]).
  pose proof (realpath_plain d _ Hd Hdk) as Hreal. unfold file_at. destruct (realpath d (root ++ path_names k)) as [real|c] eqn:Er.
  - destruct Hreal as [-> [e He]]. pose proof (realpath_plain d root Hd Hroot) as Hrr. destruct (realpath d root) as [rr|c].
    + destruct Hrr as [-> _]. destruct (negb _); [done|]. unfold fs_stat in H. rewrite Er, He in H. rewrite He.
      destruct e as [b m| |]; injection H as <-; done.
    + destruct Hrr as [_ Hrr]. exfalso. rewrite Hnames in He. destruct root as [|r0 root']; [done|].
      apply plain_prefix in He; [congruence|done|]. by destruct q.
  - destruct Hreal as [Hc ->]. assert (isMissing c = true) as Hm by (by destruct Hc as [-> | ->]). rewrite Hm in H. by injection H as <-.
Qed.

Lemma fs_error_not_found c : is_storage_not_found (fs_error c) = false.
Proof. by destruct c. Qed.

(** [JSON.parse] throws a [SyntaxError]. *)
Hypothesis parse_error : forall text e, json_parse text = Throw e -> is_storage_not_found e = false.

Lemma sidecar_error p d e : readSidecar p d = Throw e -> is_storage_not_found e = false.
Proof.
  unfold readSidecar. destruct (readFile _ _) as [text|c].
  - destruct (json_parse text) as [j|e'] eqn:E; [|intros [= <-]; by eapply parse_error].
    by repeat case_match.
  - destruct (isMissing c); [done|]. intros [= <-]. apply fs_error_not_found.
Qed.

Lemma legacy_file_error k d e : legacy_file root k d = Throw e -> is_storage_not_found e = false.
Proof.
  unfold legacy_file, keyPath. destruct (isInside _ _); [|by intros [= <-]].
  assert (Hmiss : forall c, (if isMissing c then Ok None else Throw (fs_error c) : outcome error (option (string * Z * list string))) = Throw e ->
    is_storage_not_found e = false).
  { intros c. destruct (isMissing c); [done|]. intros [= <-]. apply fs_error_not_found. }
  destruct (realpath d _); [|apply Hmiss]. destruct (realpath d root); [|apply Hmiss].
  destruct (negb _); [by intros [= <-]|]. destruct (fs_stat _ _) as [[]|]; [done..|apply Hmiss].
Qed.

(** legacy-reserved-keys.ts keeps the laws the local backend relies on. *)
Lemma plain_legacy_laws : LegacyLaws (lk := plain_legacy) fs_view.
Proof.
  assert (Hview : forall k s, legacy_key k -> fs_view s (path_names k) = file_at (proj1_sig s) (root ++ path_names k)).
  { intros k s Hk. destruct (reserved_path k Hk) as (_ & _ & _ & _ & _ & Hs). unfold fs_view. by rewrite Hs. }
  split.
  - intros k b ct s Hk. unfold wrote. rewrite !Hview by done.
    destruct (put_effect k b ct _ _ _ Hk (proj2_sig s) (surjective_pairing _)) as (Hf & He & Hok).
    split_and!; [|exact He|exact Hok]. intros n Hn. unfold fs_view.
    destruct (ends_with SIDECAR_SUFFIX (last_name n)) eqn:Es; [done|]. by apply Hf.
  - intros k s Hk. unfold wrote. rewrite !Hview by done.
    destruct (delete_effect k _ _ _ Hk (proj2_sig s) (surjective_pairing _)) as (Hf & He & Hok).
    split_and!; [|exact He|exact Hok]. intros n Hn. unfold fs_view.
    destruct (ends_with SIDECAR_SUFFIX (last_name n)) eqn:Es; [done|]. by apply Hf.
  - intros k s r Hk H. rewrite Hview by done. cbn in H. unfold fs_legacyGet in H.
    destruct (legacy_file root k (proj1_sig s)) as [f|] eqn:E; [|done]. apply legacy_file_plain in E; [|done|apply proj2_sig].
    rewrite E. destruct f as [[[b m] bp]|]; [|by injection H as <-]. destruct (readSidecar bp _); [|done]. by injection H as <-.
  - intros k s r Hk H. rewrite Hview by done. cbn in H. unfold fs_legacyHead in H.
    destruct (legacy_file root k (proj1_sig s)) as [f|] eqn:E; [|done]. apply legacy_file_plain in E; [|done|apply proj2_sig].
    rewrite E. destruct f as [[[b m] bp]|]; [|by injection H as <-]. destruct (readSidecar bp _); [|done]. injection H as <-. by exists b.
  - intros k s e _ H. cbn in H. unfold fs_legacyGet in H. destruct (legacy_file root k (proj1_sig s)) as [[[[b m] bp]|]|] eqn:E;
      [|done|injection H as <-; by eapply legacy_file_error].
    destruct (readSidecar bp _) eqn:Er; [done|]. injection H as <-. by eapply sidecar_error.
  - intros k s e _ H. cbn in H. unfold fs_legacyHead in H. destruct (legacy_file root k (proj1_sig s)) as [[[[b m] bp]|]|] eqn:E;
      [|done|injection H as <-; by eapply legacy_file_error].
    destruct (readSidecar bp _) eqn:Er; [done|]. injection H as <-. by eapply sidecar_error.
Qed.

(** C33: The local backend refines the storage contract.  On a disk without links,
    with files-sdk as documented, [LocalStorageAdapter] and the functions of
    legacy-reserved-keys.ts, seen as current objects at the drives' paths and
    history blobs named by the digest of their content, keep every law of
    [StorageLaws], of which a listing has only that it changes nothing: a put or
    copy that returns makes the body the key's object and its handle retrieve the
    same digest, a read returns it, a delete removes only the object, and a write
    touches neither another path's object nor any retrievable version. *)
Theorem local_disk_refines (sdk : FilesSdk PlainDisk) pages :
  SdkLaws fs_view ->
  StorageLaws PlainDisk (SA := local_storage (lk := plain_legacy) pages) (SV := local_view fs_view).
Proof. intros HL. apply local_refines; [done|exact HL|exact plain_legacy_laws]. Qed.

(** *** A files-sdk that keeps each object in a plain file *)

Definition sdk_refuses (k : string) : bool :=
  isLegacyReservedKey k || ends_with SIDECAR_SUFFIX (basename k) || bool_decide (path_names k = [])
  || negb (is_ok (assertKeyInsideDrive k)).

Definition sdk_error (code : string) : FilesError := {| fe_code := code; fe_message := code |}.

Definition sdk_call {A B : Type} (b : B) (m : M fs_code FsDisk A) : M FilesError FsDisk B := fun d =>
  let '(o, d') := m d in (match o with Ok _ => Ok b | Throw c => Throw (sdk_error (code_name c)) end, d').

Definition sdk_upload (k b : string) : M FilesError FsDisk unit :=
  if sdk_refuses k then throw (sdk_error "Invalid")
  else
    _ ← sdk_call tt (mkdir_recursive (dirname (root ++ path_names k)));
    sdk_call tt (rename_onto (root ++ path_names k) b now).

Definition sdk_delete (k : string) : M FilesError FsDisk unit :=
  if sdk_refuses k then throw (sdk_error "Invalid") else sdk_call tt (rm_force (root ++ path_names k)).

Lemma accepted_dotless k : sdk_refuses k = false -> dotless (root ++ path_names k).
Proof.
  unfold sdk_refuses. intros [_ Hg%negb_false_iff]%orb_false_iff. apply Forall_app. split; [done|].
  apply path_names_dotless. by destruct (assertKeyInsideDrive k) as [[]|].
Qed.

Lemma sdk_call_plain {A B : Type} (b : B) (m : M fs_code FsDisk A) d : plain_disk (m d).2 -> plain_disk (sdk_call b m d).2.
Proof. unfold sdk_call. by destruct (m d). Qed.

Lemma sdk_upload_plain k b d : plain_disk d -> plain_disk (sdk_upload k b d).2.
Proof.
  intros Hd. unfold sdk_upload. destruct (sdk_refuses k) eqn:Er; [done|]. unfold mbind, M_bind.
  pose proof (sdk_call_plain tt _ _ (mkdir_plain (dirname (root ++ path_names k)) d Hd)) as H1.
  destruct (sdk_call tt _ d) as [[u|e] d1]; [|done]. by apply sdk_call_plain, rename_path_plain; [apply accepted_dotless|].
Qed.

Lemma sdk_delete_plain k d : plain_disk d -> plain_disk (sdk_delete k d).2.
Proof.
  intros Hd. unfold sdk_delete. destruct (sdk_refuses k) eqn:Er; [done|].
  by apply sdk_call_plain, rm_path_plain; [apply accepted_dotless|].
Qed.

Definition plain_sdk : FilesSdk PlainDisk := {|
  files_exists k s := Ok (bool_decide (is_Some (fs_view s (path_names k))));
  files_upload k b ct := on_plain (sdk_upload k b) (sdk_upload_plain k b);
  files_download k s :=
    if isLegacyReservedKey k then Throw (sdk_error "Invalid")
    else match fs_view s (path_names k) with
         | Some b => Ok {| stored_body := b; stored_type := None; stored_size := Z.of_nat (String.length b); stored_etag := None |}
         | None => Throw (sdk_error "NotFound")
         end;
  files_delete k := on_plain (sdk_delete k) (sdk_delete_plain k);
  files_head k s :=
    match fs_view s (path_names k) with
    | Some b => Ok {| hd_contentType := None; hd_size := Z.of_nat (String.length b); hd_lastModified := None; hd_etag := None |}
    | None => Throw (sdk_error "NotFound")
    end;
  files_list prefix delimiter cursor s := Ok {| page_items := []; page_prefixes := None; page_cursor := None |};
  disk_is_directory k s :=
    match fs_stat (proj1_sig s) (resolve_key root k) with Ok DirEntry => true | _ => false end
|}.

(** The path of a key files-sdk takes. *)
Lemma accepted_path k : sdk_refuses k = false ->
  exists q, root ++ path_names k = (root ++ q) ++ [basename k] /\ dotless (root ++ q) /\
    ends_with SIDECAR_SUFFIX (last_name (path_names k)) = false.
Proof.
  intros Hk. pose proof (accepted_dotless k Hk) as Hd. unfold sdk_refuses in Hk.
  apply orb_false_iff in Hk as [[[_ Hs]%orb_false_iff Hne%bool_decide_eq_false]%orb_false_iff _]. unfold basename in *.
  destruct (path_names k) as [|n q _] using rev_ind; [done|]. exists q. rewrite last_snoc in *. cbn [default from_option id] in *.
  split_and!; [by rewrite app_assoc| |unfold last_name; by rewrite last_snoc]. rewrite app_assoc in Hd. by apply Forall_app in Hd as [? _].
Qed.

(** A write at one path, as the view sees it. *)
Lemma view_effect k (s s' : PlainDisk) (b : option string) (ok : Prop) :
  (forall p, p <> root ++ path_names k -> file_at (proj1_sig s') p = file_at (proj1_sig s) p) ->
  (file_at (proj1_sig s') (root ++ path_names k) = file_at (proj1_sig s) (root ++ path_names k) \/
   file_at (proj1_sig s') (root ++ path_names k) = b) ->
  (ok -> file_at (proj1_sig s') (root ++ path_names k) = b /\ ends_with SIDECAR_SUFFIX (last_name (path_names k)) = false) ->
  one_path fs_view k s s' /\
  (fs_view s' (path_names k) = fs_view s (path_names k) \/ fs_view s' (path_names k) = b) /\
  (ok -> fs_view s' (path_names k) = b).
Proof.
  intros Hf Hb Hok. unfold fs_view. split_and!.
  - intros n Hn. destruct (ends_with _ (last_name n)) eqn:E; rewrite ?E; [done|]. apply Hf. by intros ?%app_inv_head.
  - destruct (ends_with _ _); auto.
  - intros [H1 H2]%Hok. by rewrite H2.
Qed.

Lemma sdk_upload_effect k b d : plain_disk d ->
  let r := sdk_upload k b d in
  (forall p, p <> root ++ path_names k -> file_at r.2 p = file_at d p) /\
  (file_at r.2 (root ++ path_names k) = file_at d (root ++ path_names k) \/ file_at r.2 (root ++ path_names k) = Some b) /\
  (is_ok r.1 = true -> file_at r.2 (root ++ path_names k) = Some b /\ ends_with SIDECAR_SUFFIX (last_name (path_names k)) = false).
Proof.
  intros Hd. unfold sdk_upload. destruct (sdk_refuses k) eqn:Hk; [by split_and!; [|left|]|].
  destruct (accepted_path k Hk) as (q & Hp & Hdot & Hs). unfold mbind, M_bind, sdk_call. rewrite Hp.
  assert (Hmk : forall n, file_at (mkdir_recursive (dirname ((root ++ q) ++ [basename k])) d).2 n = file_at d n) by (intros n; by apply mkdirs_files).
  pose proof (mkdir_plain (dirname ((root ++ q) ++ [basename k])) d Hd) as Hd1.
  destruct (mkdir_recursive _ d) as [[r|c] d1]; cbn [fst snd] in *; [|split_and!; [auto..|done]].
  destruct (rename_onto _ b now d1) as [o d2] eqn:E. destruct (rename_plain _ _ _ _ _ _ _ Hd1 Hdot E) as (_ & Hf & Hb).
  destruct o; cbn [fst snd is_ok]; (split_and!; [intros p Hne; by rewrite Hf|..]); [by right|done|subst; by left|done].
Qed.

Lemma sdk_delete_effect k d : plain_disk d ->
  let r := sdk_delete k d in
  (forall p, p <> root ++ path_names k -> file_at r.2 p = file_at d p) /\
  (file_at r.2 (root ++ path_names k) = file_at d (root ++ path_names k) \/ file_at r.2 (root ++ path_names k) = None) /\
  (is_ok r.1 = true -> file_at r.2 (root ++ path_names k) = None /\ ends_with SIDECAR_SUFFIX (last_name (path_names k)) = false).
Proof.
  intros Hd. unfold sdk_delete. destruct (sdk_refuses k) eqn:Hk; [by split_and!; [|left|]|].
  destruct (accepted_path k Hk) as (q & Hp & Hdot & Hs). unfold sdk_call. rewrite Hp.
  destruct (rm_force _ d) as [o d2] eqn:E. destruct (rm_plain _ _ _ _ _ Hd Hdot E) as (_ & Hf & Hb).
  destruct o; cbn [fst snd is_ok]; (split_and!; [done|..]); [by right|done|subst; by left|done].
Qed.

Lemma plain_sdk_laws : SdkLaws (sdk := plain_sdk) fs_view.
Proof.
  split.
  - intros k s b _ [= <-]. done.
  - intros k b ct s Hk. destruct (sdk_upload_effect k b _ (proj2_sig s)) as (Hf & He & Hok).
    by apply (view_effect k s (on_plain (sdk_upload k b) (sdk_upload_plain k b) s).2).
  - intros k s r (_ & _ & Hl). cbn. rewrite Hl. destruct (fs_view s _); [by intros [= <-]|done].
  - intros k s e (_ & _ & Hl). cbn. rewrite Hl. by destruct (fs_view s _).
  - intros k s Hk. destruct (sdk_delete_effect k _ (proj2_sig s)) as (Hf & He & Hok).
    by apply (view_effect k s (on_plain (sdk_delete k) (sdk_delete_plain k) s).2).
  - intros k s e s' _ H He. exfalso. cbn in H. unfold on_plain in H. injection H as H _. revert H He. unfold sdk_delete.
    destruct (sdk_refuses k); [by intros [= <-]|]. unfold sdk_call. destruct (rm_force _ _) as [[|c] d2]; [done|]. by intros [= <-]; destruct c.
  - intros k s r _ H _. cbn in H. destruct (fs_view s _) as [b|]; [|done]. injection H as <-. by exists b.
  - intros k s e _ H _. cbn in H. by destruct (fs_view s _).
  - intros k s (Hg & Hrel & _) H. cbn in H. rewrite (key_path_plain k Hg Hrel) in H. unfold fs_view.
    destruct (ends_with _ _); [done|].
    assert (Hdk : dotless (root ++ path_names k)) by (apply Forall_app; split; [done|by apply path_names_dotless]).
    unfold fs_stat in H. pose proof (realpath_plain _ _ (proj2_sig s) Hdk) as Hr. destruct (realpath _ _) as [p|]; [|done].
    destruct Hr as [-> _]. unfold file_at. by destruct (entry_at _ _) as [[]|].
  - intros k s r Hl H. cbn in H. by rewrite Hl in H.
Qed.
End Plain.

(** *** Witnesses *)

#[local] Instance toy_text : SidecarText := {|
  sha1hex s := "00"; json_parse text := Throw (ForeignError "SyntaxError" "Unexpected token" None false)
|}.

Lemma data_root : dotless ["data"].
Proof. by repeat constructor. Qed.

Lemma toy_parse_error (text : string) (e : error) : json_parse text = Throw e -> is_storage_not_found e = false.
Proof. by intros [= <-]. Qed.

Lemma local_disk_refines_witness :
  StorageLaws (rt := ascii_runtime) PlainDisk
    (SA := local_storage (rt := ascii_runtime) (sdk := plain_sdk (rt := ascii_runtime) ["data"] 7 data_root)
             (lk := plain_legacy ["data"] 7 data_root) 1)
    (SV := local_view (rt := ascii_runtime) (fs_view ["data"])).
Proof.
  apply (local_disk_refines (rt := ascii_runtime) ["data"] 7 data_root toy_parse_error).
  apply (plain_sdk_laws (rt := ascii_runtime)).
Defined.

(** A disk with a link inside the root and one that leads out of it. *)
Definition link_disk : FsDisk := list_to_map
  [(["data"], DirEntry); (["data"; "o"], DirEntry); (["data"; "o"; "a.fls-tmp"], FileEntry "x" 3);
   (["data"; "in"], LinkEntry true ["data"; "o"]); (["data"; "out"], LinkEntry false [".."; "etc"]);
   (["etc"], DirEntry); (["etc"; "p.fls-tmp"], FileEntry "secret" 4)].

Definition a_object : LegacyObject :=
  {| lo_size := 1; lo_contentType := DEFAULT_CONTENT_TYPE; lo_etag := None; lo_lastModified := 3 |}.

Lemma legacy_reads_inside_witness :
  fs_legacyGet ["data"] "out/p.fls-tmp" link_disk = Throw (outsideRoot "out/p.fls-tmp") /\
  exists realRoot p m, realpath link_disk ["data"] = Ok realRoot /\ isInside realRoot p = true /\ real_path link_disk p /\
    link_disk !! p = Some (FileEntry "x" m) /\ a_object.(lo_size) = 1.
Proof.
  split; [vm_compute; reflexivity|]. apply (legacy_reads_inside ["data"] "in/a.fls-tmp" link_disk "x" a_object).
  vm_compute. reflexivity.
Defined.

Lemma legacy_list_ends_witness :
  fs_legacyList ["data"] "" link_disk = Ok [("o/a.fls-tmp", a_object)] /\
  exists r, walk ["data"] (walk_fuel link_disk) link_disk ["data"] "" [["data"]] [] = Some r.
Proof. split; [vm_compute; reflexivity|]. apply legacy_list_ends. by left. Defined.
