(* ===== verification/JsMap.v ===== *)
(** * JavaScript's [Map] and [Set]: insertion-ordered collections

    A [Map] is the list of its entries in insertion order: [set] of a present key
    keeps its place, [set] of an absent one appends, [delete] removes.  A [Set] is
    the list of its elements in insertion order.  Used where the order of an
    iteration, or its emptiness, is what the code looks at. *)

From S2P Require Import Prelude.

Notation jsmap K V := (list (K * V)).

Section JsMap.
Context {K V : Type} `{EqDecision K}.
Implicit Types (m : jsmap K V) (k : K).

Definition jm_get k m : option V := snd <$> get_row (fun e => e.1 = k) m.

Definition jm_set k (v : V) m : jsmap K V :=
  match jm_get k m with
  | Some _ => update_where (fun e => e.1 = k) (fun _ => (k, v)) m
  | None => m ++ [(k, v)]
  end.

Definition jm_delete k m : jsmap K V := delete_where (fun e => e.1 = k) m.

(** No key twice. *)
Definition jm_wf m : Prop := NoDup m.*1.

Lemma jm_get_cons k k' v m : jm_get k ((k', v) :: m) = if decide (k' = k) then Some v else jm_get k m.
Proof. unfold jm_get. rewrite get_row_cons. cbn. by case_decide. Qed.

Lemma jm_get_none k m : jm_get k m = None <-> k ∉ m.*1.
Proof.
  unfold jm_get. rewrite fmap_None, get_row_none, list_elem_of_fmap. split.
  - intros H (e & -> & He). by apply (H e).
  - intros H e He <-. apply H. by exists e.
Qed.

Lemma jm_get_elem k v m : jm_wf m -> (k, v) ∈ m <-> jm_get k m = Some v.
Proof.
  unfold jm_wf. induction m as [|[k' v'] m IH]; cbn; [split; [by intros ?%elem_of_nil|done]|].
  intros [Hk Hm]%NoDup_cons. rewrite jm_get_cons, elem_of_cons. case_decide as E.
  - subst. split; [|intros [= <-]; by left]. intros [[= <-]|Hin]; [done|]. exfalso. apply Hk, list_elem_of_fmap. by exists (k, v).
  - rewrite <- IH by done. naive_solver.
Qed.

Lemma jm_get_set k k' v m : jm_get k (jm_set k' v m) = if decide (k' = k) then Some v else jm_get k m.
Proof.
  unfold jm_set. destruct (jm_get k' m) as [v0|] eqn:E.
  - unfold jm_get in *. destruct (decide (k' = k)) as [->|Hne].
    + rewrite get_row_update_same by done. by destruct (get_row _ m).
    + rewrite get_row_update_other; [done|]. cbn. intros e <-. split; congruence.
  - unfold jm_get in *. rewrite get_row_snoc. cbn [fst]. destruct (get_row (fun e => e.1 = k) m) as [e|] eqn:Ek; cbn.
    + rewrite decide_False; [done|]. intros ->. by rewrite Ek in E.
    + by case_decide.
Qed.

Lemma jm_get_delete k k' m : jm_get k (jm_delete k' m) = if decide (k' = k) then None else jm_get k m.
Proof.
  unfold jm_delete, delete_where. induction m as [|[k1 v1] m IH]; [by case_decide|].
  rewrite filter_cons. cbn [fst]. destruct (decide (k1 = k')) as [->|Hne].
  - rewrite decide_False by auto. rewrite IH, jm_get_cons. by case_decide.
  - rewrite decide_True by done. rewrite !jm_get_cons, IH. destruct (decide (k1 = k)) as [->|]; [|done]. by rewrite decide_False.
Qed.

Lemma jm_set_keys k v m : (jm_set k v m).*1 = if decide (k ∈ m.*1) then m.*1 else m.*1 ++ [k].
Proof.
  unfold jm_set. destruct (jm_get k m) eqn:E.
  - rewrite decide_True by (apply dec_stable; rewrite <- jm_get_none, E; done).
    apply fmap_update_where. intros e _. cbn. by intros ->.
  - apply jm_get_none in E. rewrite decide_False by done. by rewrite fmap_app.
Qed.

Lemma jm_wf_set k v m : jm_wf m -> jm_wf (jm_set k v m).
Proof.
  unfold jm_wf. intros Hm. rewrite jm_set_keys. case_decide; [done|]. apply NoDup_app. split; [done|].
  split; [|apply NoDup_singleton]. intros x Hx ->%list_elem_of_singleton. done.
Qed.

Lemma jm_wf_delete k m : jm_wf m -> jm_wf (jm_delete k m).
Proof. apply NoDup_delete_where. Qed.

Lemma jm_wf_nil : jm_wf [].
Proof. constructor. Qed.

(** A map emptied by a deletion held that key only. *)
Lemma jm_delete_nil k k' v m : jm_delete k m = [] -> jm_get k' m = Some v -> k' = k.
Proof.
  intros Hd Hg. pose proof (jm_get_delete k' k m) as H. rewrite Hd in H. case_decide as E; [done|].
  unfold jm_get at 1 in H. cbn in H. congruence.
Qed.
End JsMap.
#[global] Arguments jm_get : simpl never.
#[global] Arguments jm_set : simpl never.
#[global] Arguments jm_delete : simpl never.

#[export] Hint Resolve jm_wf_set jm_wf_delete jm_wf_nil : table.

(** ** [Set] *)

Section JsSet.
Context {A : Type} `{EqDecision A}.

Definition js_add (a : A) (s : list A) : list A := if decide (a ∈ s) then s else s ++ [a].
Definition js_remove (a : A) (s : list A) : list A := filter (fun x => x <> a) s.

Lemma elem_of_js_add a b s : b ∈ js_add a s <-> b = a \/ b ∈ s.
Proof. unfold js_add. case_decide; [naive_solver|]. rewrite elem_of_app, list_elem_of_singleton. tauto. Qed.

Lemma elem_of_js_remove a b s : b ∈ js_remove a s <-> b <> a /\ b ∈ s.
Proof. unfold js_remove. by rewrite list_elem_of_filter. Qed.

Lemma NoDup_js_add a s : NoDup s -> NoDup (js_add a s).
Proof.
  unfold js_add. case_decide; [done|]. intros Hs. apply NoDup_app. split; [done|]. split; [|apply NoDup_singleton].
  intros x Hx ->%list_elem_of_singleton. done.
Qed.

Lemma NoDup_js_remove a s : NoDup s -> NoDup (js_remove a s).
Proof. apply NoDup_filter. Qed.
End JsSet.
