(* ===== verification/Presence.v ===== *)
(** * Presence: core/src/presence/registry.ts, schema.ts, types.ts

    The in-memory registry of who has which drive open.  Entries, and the [Set]s
    of listeners, are objects that closures keep ([bind] and [subscribe] return
    functions over them), so they live in heaps and the maps hold references.  The
    clock is an argument; a listener is a sink that records what it is given
    ([pr_sent]), in order, and calls nothing back. *)

From S2P Require Import Prelude JsString JsMap Errors Webhooks.
#[local] Open Scope Z_scope.

(** ** types.ts *)

Inductive PresenceMode : Type := ViewMode | EditMode.
Inductive CommentPresence : Type := Viewing | Replying.

Record PresenceQuote : Type := { pq_exact : string; pq_prefix : option string; pq_suffix : option string }.

(** An [option (option T)] field: absent, [null], or a value. *)
Record PresenceSelection : Type := {
  sel_quote : PresenceQuote;
  sel_lineStart : Z;
  sel_lineEnd : Z;
  sel_fileVersion : option (option Z);
  sel_collapsed : bool
}.

Record PresenceTextPos : Type := {
  tp_quote : PresenceQuote;
  tp_charOffset : Z;
  tp_lineStart : Z;
  tp_fileVersion : option (option Z)
}.

Record PresenceState : Type := {
  ps_path : option string;
  ps_mode : PresenceMode;
  ps_selection : option (option PresenceSelection);
  ps_pointer : option (option PresenceTextPos);
  ps_commentId : option (option string);
  ps_commentState : option (option CommentPresence)
}.

Record PresenceSession : Type := {
  se_state : PresenceState;
  se_sessionId : string;
  se_userId : string;
  se_email : string;
  se_displayName : option string;
  se_updatedAt : string
}.

Inductive PresenceEvent : Type :=
| PresenceUpdated (driveId : string) (session : PresenceSession) (at_ : string)
| PresenceLeft (driveId sessionId userId at_ : string).

#[export] Instance PresenceMode_eq_dec : EqDecision PresenceMode.
Proof. solve_decision. Defined.
#[export] Instance CommentPresence_eq_dec : EqDecision CommentPresence.
Proof. solve_decision. Defined.
#[export] Instance PresenceQuote_eq_dec : EqDecision PresenceQuote.
Proof. solve_decision. Defined.
#[export] Instance PresenceSelection_eq_dec : EqDecision PresenceSelection.
Proof. solve_decision. Defined.
#[export] Instance PresenceTextPos_eq_dec : EqDecision PresenceTextPos.
Proof. solve_decision. Defined.
#[export] Instance PresenceState_eq_dec : EqDecision PresenceState.
Proof. solve_decision. Defined.
#[export] Instance PresenceSession_eq_dec : EqDecision PresenceSession.
Proof. solve_decision. Defined.

(** ** schema.ts: what the routes accept *)

Definition is_session_char (c : ascii) : bool :=
  let n := Ascii.nat_of_ascii c in
  is_digit c || (Nat.leb 65 n && Nat.leb n 90) || (Nat.leb 97 n && Nat.leb n 122) || Nat.eqb n 95 || Nat.eqb n 45.

(** [/^[A-Za-z0-9_-]{8,64}$/]. *)
Definition presenceSessionIdSchema (s : string) : bool :=
  Nat.leb 8 (String.length s) && Nat.leb (String.length s) 64 && all_chars is_session_char s.

Definition at_most (n : Z) (s : string) : bool := js_length s <=? n.
Definition optional {A} (p : A -> bool) (o : option A) : bool := match o with Some a => p a | None => true end.

Definition quote_ok (q : PresenceQuote) : bool :=
  at_most 256 q.(pq_exact) && optional (at_most 64) q.(pq_prefix) && optional (at_most 64) q.(pq_suffix).

Definition line_ok (n : Z) : bool := 0 <=? n.

Definition selection_ok (s : PresenceSelection) : bool :=
  quote_ok s.(sel_quote) && line_ok s.(sel_lineStart) && line_ok s.(sel_lineEnd).

Definition pointer_ok (p : PresenceTextPos) : bool :=
  quote_ok p.(tp_quote) && line_ok p.(tp_charOffset) && line_ok p.(tp_lineStart).

Definition presenceStateSchema (s : PresenceState) : bool :=
  optional (at_most 4096) s.(ps_path) && optional (optional selection_ok) s.(ps_selection) &&
  optional (optional pointer_ok) s.(ps_pointer) && optional (optional (at_most 128)) s.(ps_commentId).

(** ** registry.ts: the state *)

Record Entry : Type := {
  pe_userId : string;
  pe_session : option PresenceSession;
  pe_state : option PresenceState;
  pe_lastSeen : Z;
  pe_bindings : Z
}.

#[export] Instance Entry_eta : Eta Entry := fun e => {|
  pe_userId := e.(pe_userId); pe_session := e.(pe_session); pe_state := e.(pe_state);
  pe_lastSeen := e.(pe_lastSeen); pe_bindings := e.(pe_bindings)
|}.

(** The function [bind] returns, with its [released] flag. *)
Record Release : Type := {
  rl_entry : nat;
  rl_driveId : string;
  rl_sessionId : string;
  rl_userId : string;
  rl_released : bool
}.

#[export] Instance Release_eta : Eta Release := fun r => {|
  rl_entry := r.(rl_entry); rl_driveId := r.(rl_driveId); rl_sessionId := r.(rl_sessionId);
  rl_userId := r.(rl_userId); rl_released := r.(rl_released)
|}.

Record Registry : Type := {
  pr_entries : gmap nat Entry;                         (* entry objects *)
  pr_drives : jsmap string (jsmap string nat);         (* drives: sessionId -> entry *)
  pr_sets : gmap nat (list nat);                       (* listener [Set] objects *)
  pr_listeners : jsmap string nat;
  pr_releases : gmap nat Release;                      (* the closures of [bind] *)
  pr_next : nat;
  pr_sent : list (nat * PresenceEvent)                 (* what each listener was given *)
}.

#[export] Instance Registry_eta : Eta Registry := fun r => {|
  pr_entries := r.(pr_entries); pr_drives := r.(pr_drives); pr_sets := r.(pr_sets);
  pr_listeners := r.(pr_listeners); pr_releases := r.(pr_releases); pr_next := r.(pr_next); pr_sent := r.(pr_sent)
|}.

Definition new_registry : Registry :=
  {| pr_entries := ∅; pr_drives := []; pr_sets := ∅; pr_listeners := []; pr_releases := ∅; pr_next := 0; pr_sent := [] |}.

Definition MAX_SESSIONS : nat := 32.
Definition SESSION_TTL_MS : Z := 45000.

(** ** Operations *)

Section Registry.
Variable getDisplayName : string -> option string.

Definition drive_entries (driveId : string) (r : Registry) : jsmap string nat := jm_get driveId r.(pr_drives) ?? [].

(** [this.drives.get(driveId)?.get(sessionId)]: the object's reference. *)
Definition entry_ref (driveId sessionId : string) (r : Registry) : option nat :=
  jm_get sessionId (drive_entries driveId r).

Definition entry_of (driveId sessionId : string) (r : Registry) : option (nat * Entry) :=
  ref ← entry_ref driveId sessionId r; pair ref <$> r.(pr_entries) !! ref.

(** [entries(driveId)]: the drive's map, made when it is missing. *)
Definition entries (driveId : string) (r : Registry) : Registry :=
  match jm_get driveId r.(pr_drives) with
  | Some _ => r
  | None => r <| pr_drives ::= jm_set driveId [] |>
  end.

Definition set_entry (ref : nat) (e : Entry) (r : Registry) : Registry := r <| pr_entries ::= <[ref := e]> |>.

(** [entries.set(sessionId, entry = { ... })]. *)
Definition new_entry (driveId sessionId : string) (e : Entry) (r : Registry) : nat * Registry :=
  (r.(pr_next),
   r <| pr_entries ::= <[r.(pr_next) := e]> |>
     <| pr_drives ::= jm_set driveId (jm_set sessionId r.(pr_next) (drive_entries driveId r)) |>
     <| pr_next ::= S |>).

Definition assertOwner (entry : option Entry) (userId : string) : outcome error unit :=
  match entry with
  | Some e => if bool_decide (e.(pe_userId) <> userId)
              then Throw (EditConflictError "Presence session belongs to another user" None None) else Ok tt
  | None => Ok tt
  end.

Definition presence_drive (ev : PresenceEvent) : string :=
  match ev with PresenceUpdated d _ _ => d | PresenceLeft d _ _ _ => d end.

(** The listeners of a drive. *)
Definition listeners_of (driveId : string) (r : Registry) : list nat :=
  (ref ← jm_get driveId r.(pr_listeners); r.(pr_sets) !! ref) ?? [].

Definition publish (ev : PresenceEvent) (r : Registry) : Registry :=
  r <| pr_sent ::= fun sent => sent ++ ((fun l => (l, ev)) <$> listeners_of (presence_drive ev) r) |>.

(** The sessions of a user in a drive, by [entries.values()]. *)
Definition user_sessions (driveId userId : string) (r : Registry) : list Entry :=
  filter (fun e => is_Some e.(pe_session) /\ e.(pe_userId) = userId)
    (omap (fun x => r.(pr_entries) !! x.2) (drive_entries driveId r)).

(** [if (!entry) entries.set(sessionId, entry = { userId, lastSeen, bindings: 0 })]. *)
Definition found_or_new (now : Z) (driveId sessionId userId : string) (found : option (nat * Entry))
    : M error Registry (nat * Entry) := fun r =>
  match found with
  | Some x => (Ok x, r)
  | None =>
      let e := {| pe_userId := userId; pe_session := None; pe_state := None; pe_lastSeen := now; pe_bindings := 0 |} in
      let '(ref, r1) := new_entry driveId sessionId e r in (Ok (ref, e), r1)
  end.

(** A session built from its state. *)
Definition make_session (now : Z) (sessionId userId email : string) (displayName : option string) (state : PresenceState)
    : PresenceSession :=
  {| se_state := state; se_sessionId := sessionId; se_userId := userId; se_email := email;
     se_displayName := displayName; se_updatedAt := toISOString now |}.

Definition upsert (now : Z) (driveId sessionId userId email : string) (state : PresenceState)
    : M error Registry PresenceSession :=
  _ ← modify (entries driveId);
  found ← gets (entry_of driveId sessionId);
  _ ← from_outcome (assertOwner (snd <$> found) userId);
  mine ← gets (user_sessions driveId userId);
  _ ← throw_if (bool_decide (found ≫= (fun x => x.2.(pe_session)) = None) && bool_decide (MAX_SESSIONS <= length mine)%nat)
        PresenceLimitError;
  x ← found_or_new now driveId sessionId userId found;
  let entry := x.2 <| pe_lastSeen := now |> in
  match entry.(pe_session), bool_decide (entry.(pe_state) = Some state) with
  | Some session, true => _ ← modify (set_entry x.1 entry); mret session
  | session, _ =>
      let displayName := match session with Some old => old.(se_displayName) | None => getDisplayName userId end in
      let session' := make_session now sessionId userId email displayName state in
      _ ← modify (set_entry x.1 (entry <| pe_state := Some state |> <| pe_session := Some session' |>));
      _ ← modify (publish (PresenceUpdated driveId session' (toISOString now)));
      mret session'
  end.

Definition snapshot (driveId : string) (r : Registry) : list PresenceSession :=
  omap (fun x => r.(pr_entries) !! x.2 ≫= pe_session) (drive_entries driveId r).

(** Dropping an entry from its drive, and the drive once it is empty. *)
Definition drop_entry (driveId sessionId : string) (r : Registry) : Registry :=
  let es := jm_delete sessionId (drive_entries driveId r) in
  if bool_decide (es = []) then r <| pr_drives ::= jm_delete driveId |> else r <| pr_drives ::= jm_set driveId es |>.

Definition remove (now : Z) (driveId sessionId userId : string) : M error Registry unit :=
  found ← gets (entry_of driveId sessionId);
  _ ← from_outcome (assertOwner (snd <$> found) userId);
  match found with
  | None => mret tt
  | Some (ref, entry) =>
      let hadSession := bool_decide (is_Some entry.(pe_session)) in
      _ ← modify (set_entry ref (entry <| pe_session := None |> <| pe_state := None |>));
      _ ← when (bool_decide (entry.(pe_bindings) = 0)) (modify (drop_entry driveId sessionId));
      when hadSession (modify (publish (PresenceLeft driveId sessionId userId (toISOString now))))
  end.

(** The closure [bind] returns. *)
Definition new_release (c : Release) (r : Registry) : Registry :=
  r <| pr_releases ::= <[r.(pr_next) := c]> |> <| pr_next ::= S |>.

(** [bind]: the id of the closure it returns. *)
Definition bind (now : Z) (driveId sessionId userId : string) : M error Registry nat :=
  _ ← modify (entries driveId);
  found ← gets (entry_of driveId sessionId);
  _ ← from_outcome (assertOwner (snd <$> found) userId);
  x ← found_or_new now driveId sessionId userId found;
  _ ← modify (set_entry x.1 (x.2 <| pe_bindings ::= Z.succ |>));
  id ← gets pr_next;
  _ ← modify (new_release {| rl_entry := x.1; rl_driveId := driveId; rl_sessionId := sessionId; rl_userId := userId;
                             rl_released := false |});
  mret id.

(** A call of the closure: the entry it counts down is the object it closed over. *)
Definition release (now : Z) (id : nat) : M error Registry unit := fun r =>
  match r.(pr_releases) !! id with
  | None => (Ok tt, r)
  | Some c =>
      if c.(rl_released) then (Ok tt, r)
      else
        let r1 := r <| pr_releases ::= <[id := c <| rl_released := true |>]> |> in
        match r1.(pr_entries) !! c.(rl_entry) with
        | None => (Ok tt, r1)
        | Some entry =>
            let entry := entry <| pe_bindings ::= Z.pred |> in
            let r2 := set_entry c.(rl_entry) entry r1 in
            if bool_decide (entry.(pe_bindings) = 0) then remove now c.(rl_driveId) c.(rl_sessionId) c.(rl_userId) r2
            else (Ok tt, r2)
        end
  end.

(** The body of the sweep for one entry. *)
Definition sweep_entry (now : Z) (x : string * (string * nat)) : M error Registry unit := fun r =>
  match r.(pr_entries) !! x.2.2 with
  | Some entry =>
      if bool_decide (is_Some entry.(pe_session)) && bool_decide (entry.(pe_bindings) = 0)
           && (entry.(pe_lastSeen) <? now - SESSION_TTL_MS)
      then remove now x.1 x.2.1 entry.(pe_userId) r else (Ok tt, r)
  | None => (Ok tt, r)
  end.

(** The entries in iteration order; a removal drops the entry being visited only. *)
Definition all_entries (r : Registry) : list (string * (string * nat)) :=
  r.(pr_drives) ≫= fun d => (fun x => (d.1, x)) <$> d.2.

Definition sweep (now : Z) : M error Registry unit := fun r => for_each (all_entries r) (sweep_entry now) r.

(** [subscribe]: the reference of the [Set] the returned closure keeps. *)
Definition subscribe (driveId : string) (listener : nat) (r : Registry) : nat * Registry :=
  match jm_get driveId r.(pr_listeners) with
  | Some ref => (ref, r <| pr_sets ::= <[ref := js_add listener (r.(pr_sets) !! ref ?? [])]> |>)
  | None => (r.(pr_next), r <| pr_sets ::= <[r.(pr_next) := [listener]]> |>
                             <| pr_listeners ::= jm_set driveId r.(pr_next) |> <| pr_next ::= S |>)
  end.

Definition unsubscribe (driveId : string) (listener ref : nat) (r : Registry) : Registry :=
  let set := js_remove listener (r.(pr_sets) !! ref ?? []) in
  let r1 := r <| pr_sets ::= <[ref := set]> |> in
  if bool_decide (set = []) && bool_decide (jm_get driveId r.(pr_listeners) = Some ref)
  then r1 <| pr_listeners ::= jm_delete driveId |> else r1.

Definition dispose (r : Registry) : Registry := r <| pr_drives := [] |> <| pr_listeners := [] |>.
End Registry.
