(* ===== verification/PresenceSpec.v ===== *)
(** * What presence promises

    Over every history of calls: the registry's invariant ([registry_ok], which
    accounts for the open bindings of each entry), no user above 32 sessions in a
    drive, nobody's session touched by another user, a client that replays the
    events it is sent on the snapshot it started from holds the snapshot of now,
    and a session that is neither bound nor refreshed is gone, with its event, by
    the first sweep after its life. *)

From S2P Require Import Prelude JsString JsMap Errors Webhooks Presence.
#[local] Open Scope Z_scope.

(** ** Reading the registry *)

(** The session shown for a key. *)
Definition session_at (driveId sessionId : string) (r : Registry) : option PresenceSession :=
  entry_of driveId sessionId r ≫= fun x => x.2.(pe_session).

(** The bindings of an entry object that have not been released. *)
Definition open_bindings (ref : nat) (r : gmap nat Release) : nat :=
  size (filter (fun x : nat * Release => x.2.(rl_released) = false /\ x.2.(rl_entry) = ref) r).

Record registry_ok (r : Registry) : Prop := {
  ok_drives : jm_wf r.(pr_drives);
  ok_inner : forall d, jm_wf (drive_entries d r);
  ok_refs : forall d s ref, entry_ref d s r = Some ref -> exists e, r.(pr_entries) !! ref = Some e /\
              forall x, e.(pe_session) = Some x -> x.(se_sessionId) = s /\ x.(se_userId) = e.(pe_userId) /\ e.(pe_state) = Some x.(se_state);
  ok_inj : forall d s d' s' ref, entry_ref d s r = Some ref -> entry_ref d' s' r = Some ref -> d = d' /\ s = s';
  ok_fresh_entries : forall ref, is_Some (r.(pr_entries) !! ref) -> (ref < r.(pr_next))%nat;
  ok_fresh_releases : forall id c, r.(pr_releases) !! id = Some c -> (id < r.(pr_next))%nat /\ (c.(rl_entry) < r.(pr_next))%nat;
  ok_bound : forall id c, r.(pr_releases) !! id = Some c -> c.(rl_released) = false ->
               entry_ref c.(rl_driveId) c.(rl_sessionId) r = Some c.(rl_entry) /\
               exists e, r.(pr_entries) !! c.(rl_entry) = Some e /\ e.(pe_userId) = c.(rl_userId);
  ok_count : forall d s ref e, entry_ref d s r = Some ref -> r.(pr_entries) !! ref = Some e ->
               e.(pe_bindings) = Z.of_nat (open_bindings ref r.(pr_releases));
  ok_cap : forall d u l, NoDup l -> (forall s, s ∈ l -> exists x, session_at d s r = Some x /\ x.(se_userId) = u) ->
               (length l <= MAX_SESSIONS)%nat
}.

(** ** The primitive steps, as changes of the keys *)

Lemma drive_entries_entries d d' r : drive_entries d (entries d' r) = drive_entries d r.
Proof.
  unfold entries, drive_entries. destruct (jm_get d' (pr_drives r)) eqn:E; [done|]. cbn. rewrite jm_get_set.
  case_decide; [|done]. subst. by rewrite E.
Qed.

Lemma ref_entries d s d' r : entry_ref d s (entries d' r) = entry_ref d s r.
Proof. unfold entry_ref. by rewrite drive_entries_entries. Qed.

Lemma entries_same d r :
  (entries d r).(pr_entries) = r.(pr_entries) /\ (entries d r).(pr_sets) = r.(pr_sets) /\
  (entries d r).(pr_listeners) = r.(pr_listeners) /\ (entries d r).(pr_releases) = r.(pr_releases) /\
  (entries d r).(pr_next) = r.(pr_next) /\ (entries d r).(pr_sent) = r.(pr_sent).
Proof. unfold entries. by destruct (jm_get d (pr_drives r)). Qed.

Lemma drive_entries_new d s e r d' :
  drive_entries d' (new_entry d s e r).2 = if decide (d = d') then jm_set s r.(pr_next) (drive_entries d r) else drive_entries d' r.
Proof. unfold new_entry, drive_entries at 1. cbn. rewrite jm_get_set. by case_decide. Qed.

Lemma ref_new d s e r d' s' :
  entry_ref d' s' (new_entry d s e r).2 = if decide (d = d' /\ s = s') then Some r.(pr_next) else entry_ref d' s' r.
Proof.
  unfold entry_ref. rewrite drive_entries_new. destruct (decide (d = d')) as [->|Hd].
  - rewrite jm_get_set. destruct (decide (s = s')) as [->|Hs]; [by rewrite decide_True|]. by rewrite decide_False by tauto.
  - by rewrite decide_False by tauto.
Qed.

Lemma drive_entries_drop d s r d' :
  drive_entries d' (drop_entry d s r) = if decide (d = d') then jm_delete s (drive_entries d r) else drive_entries d' r.
Proof.
  unfold drop_entry. case_bool_decide as E; unfold drive_entries at 1; cbn; rewrite ?jm_get_delete, ?jm_get_set;
    case_decide; subst; cbn; try done.
Qed.

Lemma ref_drop d s r d' s' :
  entry_ref d' s' (drop_entry d s r) = if decide (d = d' /\ s = s') then None else entry_ref d' s' r.
Proof.
  unfold entry_ref. rewrite drive_entries_drop. destruct (decide (d = d')) as [->|Hd].
  - rewrite jm_get_delete. destruct (decide (s = s')) as [->|Hs]; [by rewrite decide_True|]. by rewrite decide_False by tauto.
  - by rewrite decide_False by tauto.
Qed.

Lemma drop_same d s r :
  (drop_entry d s r).(pr_entries) = r.(pr_entries) /\ (drop_entry d s r).(pr_sets) = r.(pr_sets) /\
  (drop_entry d s r).(pr_listeners) = r.(pr_listeners) /\ (drop_entry d s r).(pr_releases) = r.(pr_releases) /\
  (drop_entry d s r).(pr_next) = r.(pr_next) /\ (drop_entry d s r).(pr_sent) = r.(pr_sent).
Proof. unfold drop_entry. by case_bool_decide. Qed.

(** *** What a change of one key must respect *)

(** [r'] differs from [r] in the cell of one key at most, and the entry there has
    the binding count of [r']. *)
Lemma session_at_ref d s r r' :
  entry_ref d s r' = entry_ref d s r -> (forall ref, entry_ref d s r = Some ref -> r'.(pr_entries) !! ref = r.(pr_entries) !! ref) ->
  session_at d s r' = session_at d s r.
Proof.
  intros Href He. unfold session_at, entry_of. rewrite Href. destruct (entry_ref d s r) as [ref|]; [|done]. cbn. by rewrite He.
Qed.

Lemma session_at_cell d s r ref e : entry_ref d s r = Some ref -> r.(pr_entries) !! ref = Some e -> session_at d s r = e.(pe_session).
Proof. intros Href He. unfold session_at, entry_of. rewrite Href. cbn. by rewrite He. Qed.

Lemma session_at_none d s r : entry_ref d s r = None -> session_at d s r = None.
Proof. intros Href. unfold session_at, entry_of. by rewrite Href. Qed.

Lemma entry_of_some d s r ref e : entry_of d s r = Some (ref, e) <-> entry_ref d s r = Some ref /\ r.(pr_entries) !! ref = Some e.
Proof.
  unfold entry_of. destruct (entry_ref d s r) as [ref'|]; cbn; [|naive_solver].
  destruct (pr_entries r !! ref') eqn:E; cbn; naive_solver.
Qed.

Lemma entry_of_none d s r : registry_ok r -> entry_of d s r = None -> entry_ref d s r = None.
Proof.
  intros Hok. unfold entry_of. destruct (entry_ref d s r) as [ref|] eqn:E; [|done]. cbn.
  destruct (ok_refs r Hok d s ref E) as (e & -> & _). done.
Qed.

(** ** The sessions of a user, by key *)

(** Distinct keys with a session of the user are at most the list the guard counts. *)
Lemma keys_counted d u r l :
  registry_ok r -> NoDup l -> (forall s, s ∈ l -> exists x, session_at d s r = Some x /\ x.(se_userId) = u) ->
  (length l <= length (user_sessions d u r))%nat.
Proof.
  intros Hok Hnd Hl. set (ids := omap (fun e => se_sessionId <$> e.(pe_session)) (user_sessions d u r)).
  transitivity (length ids).
  - apply submseteq_length, NoDup_submseteq; [done|]. intros s Hs. destruct (Hl s Hs) as (x & Hx & Hu).
    unfold session_at in Hx. destruct (entry_of d s r) as [[ref e]|] eqn:E; [|done]. cbn in Hx. apply entry_of_some in E as [Href He].
    destruct (ok_refs r Hok d s ref Href) as (e' & He' & Hname). rewrite He in He'. injection He' as <-.
    destruct (Hname x Hx) as (H1 & H2 & _). apply list_elem_of_omap. exists e. rewrite Hx. split; [|cbn; congruence].
    apply list_elem_of_filter. split; [split; [by eexists|congruence]|]. apply list_elem_of_omap. exists (s, ref). split; [|done].
    apply jm_get_elem; [apply Hok|done].
  - unfold ids. generalize (user_sessions d u r). intros es. induction es as [|e es IH]; [done|]. cbn.
    destruct (se_sessionId <$> e.(pe_session)); cbn; lia.
Qed.

(** ** Changing the object at a key *)

(** The object of one key, the closures and the counter change; the keys stay. *)
Record touches (d s : string) (ref : nat) (e e' : Entry) (r r' : Registry) : Prop := {
  tc_ref : entry_ref d s r = Some ref;
  tc_entry : r.(pr_entries) !! ref = Some e;
  tc_drives : r'.(pr_drives) = r.(pr_drives);
  tc_entries : r'.(pr_entries) = <[ref := e']> r.(pr_entries);
  tc_next : (r.(pr_next) <= r'.(pr_next))%nat;
  tc_user : e'.(pe_userId) = e.(pe_userId);
  tc_names : forall x, e'.(pe_session) = Some x ->
    x.(se_sessionId) = s /\ x.(se_userId) = e.(pe_userId) /\ e'.(pe_state) = Some x.(se_state)
}.

Lemma touches_ref d s ref e e' r r' : touches d s ref e e' r r' -> forall d' s', entry_ref d' s' r' = entry_ref d' s' r.
Proof. intros H d' s'. unfold entry_ref, drive_entries. by rewrite (tc_drives _ _ _ _ _ _ _ H). Qed.

(** Only that key's session changes. *)
Lemma touches_sessions d s ref e e' r r' : registry_ok r -> touches d s ref e e' r r' ->
  session_at d s r = e.(pe_session) /\ session_at d s r' = e'.(pe_session) /\
  forall d' s', ~ (d' = d /\ s' = s) -> session_at d' s' r' = session_at d' s' r.
Proof.
  intros Hok H. pose proof (touches_ref _ _ _ _ _ _ _ H) as Href. destruct H as [H1 H2 _ H4 _ _ _]. split_and!.
  - by eapply session_at_cell.
  - eapply session_at_cell; [by rewrite Href|]. rewrite H4. apply lookup_insert_eq.
  - intros d' s' Hne. apply session_at_ref; [apply Href|]. intros ref' Href'. rewrite H4. apply lookup_insert_ne. intros <-.
    destruct (ok_inj r Hok _ _ _ _ _ Href' H1) as [-> ->]. by apply Hne.
Qed.

(** The user has room for a session in the drive. *)
Definition below_cap (d u : string) (r : Registry) : Prop :=
  forall l, NoDup l -> (forall s, s ∈ l -> exists x, session_at d s r = Some x /\ x.(se_userId) = u) ->
    (length l < MAX_SESSIONS)%nat.

Lemma below_cap_same d u r r' : (forall s, session_at d s r' = session_at d s r) -> below_cap d u r -> below_cap d u r'.
Proof. intros Hs H l Hnd Hl. apply (H l Hnd). intros s Hin. rewrite <- Hs. auto. Qed.

(** The guard of [upsert]. *)
Lemma guard_below_cap d u r : registry_ok r -> (length (user_sessions d u r) < MAX_SESSIONS)%nat -> below_cap d u r.
Proof. intros Hok Hlt l Hnd Hl. pose proof (keys_counted d u r l Hok Hnd Hl). lia. Qed.

(** The cap, when a key may gain a session only below it. *)
Lemma cap_kept d s r r' : registry_ok r ->
  (forall d' s', ~ (d' = d /\ s' = s) -> session_at d' s' r' = session_at d' s' r) ->
  (forall x, session_at d s r' = Some x ->
     (exists y, session_at d s r = Some y /\ y.(se_userId) = x.(se_userId)) \/
     below_cap d x.(se_userId) r) ->
  forall d' u l, NoDup l -> (forall s', s' ∈ l -> exists x, session_at d' s' r' = Some x /\ x.(se_userId) = u) ->
    (length l <= MAX_SESSIONS)%nat.
Proof.
  intros Hok Hother Hown d' u l Hnd Hl.
  destruct (decide (d' = d /\ s ∈ l)) as [[-> Hs]|Hno].
  - destruct (Hl s Hs) as (x & Hx & Hu). destruct (Hown x Hx) as [(y & Hy & Hyu)|Hlt].
    + apply (ok_cap r Hok d u l Hnd). intros s' Hs'. destruct (decide (s' = s)) as [->|Hne]; [exists y; split; congruence|].
      rewrite <- Hother by tauto. auto.
    + apply elem_of_Permutation in Hs as [l' Hp]. rewrite Hp in Hnd |- *. apply NoDup_cons in Hnd as [Hns Hnd].
      rewrite Hu in Hlt. apply Hlt; [done|]. intros s' Hs'. rewrite <- Hother by (intros [_ ->]; done). apply Hl. rewrite Hp. by right.
  - apply (ok_cap r Hok d' u l Hnd). intros s' Hs'. rewrite <- Hother; [by apply Hl|]. intros [-> ->]. by apply Hno.
Qed.

Lemma touches_ok d s ref e e' r r' : registry_ok r -> touches d s ref e e' r r' ->
  (forall id c, r'.(pr_releases) !! id = Some c -> (id < r'.(pr_next))%nat /\ (c.(rl_entry) < r'.(pr_next))%nat) ->
  (forall id c, r'.(pr_releases) !! id = Some c -> c.(rl_released) = false ->
     entry_ref c.(rl_driveId) c.(rl_sessionId) r = Some c.(rl_entry) /\
     exists x, r.(pr_entries) !! c.(rl_entry) = Some x /\ x.(pe_userId) = c.(rl_userId)) ->
  (forall ref', ref' <> ref -> open_bindings ref' r'.(pr_releases) = open_bindings ref' r.(pr_releases)) ->
  e'.(pe_bindings) = Z.of_nat (open_bindings ref r'.(pr_releases)) ->
  (e.(pe_session) = None -> is_Some e'.(pe_session) -> below_cap d e.(pe_userId) r) ->
  registry_ok r'.
Proof.
  intros Hok Ht Hfresh Hbound Hopen Hcount Hcap. pose proof (touches_ref _ _ _ _ _ _ _ Ht) as Href.
  destruct (touches_sessions _ _ _ _ _ _ _ Hok Ht) as (Hs1 & Hs2 & Hs3). destruct Ht as [H1 H2 H3 H4 H5 H6 H7]. split.
  - rewrite H3. apply Hok.
  - intros d'. unfold drive_entries. rewrite H3. apply (ok_inner r Hok).
  - intros d' s' ref' Hr'. rewrite Href in Hr'. rewrite H4. destruct (decide (ref' = ref)) as [->|Hne].
    + destruct (ok_inj r Hok _ _ _ _ _ Hr' H1) as [-> ->]. exists e'. rewrite lookup_insert_eq. split; [done|].
      intros x Hx. rewrite H6. auto.
    + rewrite lookup_insert_ne by done. by apply (ok_refs r Hok d').
  - intros d1 s1 d2 s2 ref'. rewrite !Href. apply (ok_inj r Hok).
  - intros ref'. rewrite H4. destruct (decide (ref' = ref)) as [->|Hne].
    + intros _. enough (ref < r.(pr_next))%nat by lia. apply (ok_fresh_entries r Hok). by eexists.
    + rewrite lookup_insert_ne by done. intros Hr'. apply (ok_fresh_entries r Hok) in Hr'. lia.
  - done.
  - intros id c Hc Hrel. rewrite Href, H4. destruct (Hbound id c Hc Hrel) as (Hr' & x & Hx & Hxu). split; [done|].
    destruct (decide (c.(rl_entry) = ref)) as [Heq|Hne].
    + rewrite Heq, lookup_insert_eq. exists e'. split; [done|]. rewrite Heq, H2 in Hx. congruence.
    + rewrite lookup_insert_ne by done. eauto.
  - intros d' s' ref' x Hr' Hx. rewrite Href in Hr'. rewrite H4 in Hx. destruct (decide (ref' = ref)) as [->|Hne].
    + rewrite lookup_insert_eq in Hx. by injection Hx as <-.
    + rewrite lookup_insert_ne in Hx by done. rewrite Hopen by done. by apply (ok_count r Hok d' s').
  - apply (cap_kept d s r r' Hok Hs3). intros x Hx. rewrite Hs2 in Hx. destruct (H7 x Hx) as (_ & Hu & _).
    destruct (pe_session e) as [y|] eqn:Ey.
    + left. exists y. split; [done|]. destruct (ok_refs r Hok d s ref H1) as (e0 & He0 & Hn). rewrite H2 in He0. injection He0 as <-.
      destruct (Hn y Ey) as (_ & -> & _). done.
    + right. rewrite Hu. apply Hcap; [done|]. by eexists.
Qed.

(** ** Steps that leave the keys, or change one of them *)

Lemma view_same_sessions r r' : r'.(pr_drives) = r.(pr_drives) -> r'.(pr_entries) = r.(pr_entries) ->
  forall d s, session_at d s r' = session_at d s r.
Proof. intros H1 H2 d s. unfold session_at, entry_of, entry_ref, drive_entries. by rewrite H1, H2. Qed.

Lemma view_same_ok r r' : registry_ok r -> r'.(pr_drives) = r.(pr_drives) -> r'.(pr_entries) = r.(pr_entries) ->
  r'.(pr_releases) = r.(pr_releases) -> (r.(pr_next) <= r'.(pr_next))%nat -> registry_ok r'.
Proof.
  intros Hok H1 H2 H3 H4. pose proof (view_same_sessions r r' H1 H2) as Hs. destruct Hok.
  split; unfold entry_ref, drive_entries in *; rewrite ?H1, ?H2, ?H3; try done.
  - intros ref Href. specialize (ok_fresh_entries0 ref Href). lia.
  - intros id c Hc. destruct (ok_fresh_releases0 id c Hc). lia.
  - intros d u l Hnd Hl. apply (ok_cap0 d u l Hnd). intros s Hin. rewrite <- Hs. auto.
Qed.

Lemma entries_ok d r : registry_ok r -> registry_ok (entries d r) /\ forall d' s', session_at d' s' (entries d r) = session_at d' s' r.
Proof.
  intros Hok. destruct (entries_same d r) as (He & _ & _ & Hr & Hn & _).
  assert (Hs : forall d' s', session_at d' s' (entries d r) = session_at d' s' r).
  { intros d' s'. apply session_at_ref; [apply ref_entries|by rewrite He]. }
  split; [|done]. destruct Hok. split; rewrite ?He, ?Hr, ?Hn; try done.
  - unfold entries. destruct (jm_get d (pr_drives r)); [done|]. by apply jm_wf_set.
  - intros d'. by rewrite drive_entries_entries.
  - intros d' s' ref. rewrite ref_entries. apply ok_refs0.
  - intros d1 s1 d2 s2 ref. rewrite !ref_entries. apply ok_inj0.
  - intros id c Hc Hrel. rewrite ref_entries. by apply (ok_bound0 id).
  - intros d' s' ref e. rewrite ref_entries. apply ok_count0.
  - intros d' u l Hnd Hl. apply (ok_cap0 d' u l Hnd). intros s Hin. rewrite <- Hs. auto.
Qed.

Lemma open_bindings_none ref rels : (forall id c, rels !! id = Some c -> c.(rl_entry) <> ref) -> open_bindings ref rels = 0%nat.
Proof.
  intros H. unfold open_bindings. apply map_size_empty_iff, map_empty_filter. intros id c Hc [_ He]. by apply (H id c).
Qed.

(** A new object with no session: nothing is shown of it. *)
Lemma new_entry_ok d s e r : registry_ok r -> entry_ref d s r = None -> e.(pe_session) = None -> e.(pe_bindings) = 0 ->
  registry_ok (new_entry d s e r).2 /\ forall d' s', session_at d' s' (new_entry d s e r).2 = session_at d' s' r.
Proof.
  intros Hok Hnone Hses Hb. set (r' := (new_entry d s e r).2).
  assert (He : r'.(pr_entries) = <[r.(pr_next) := e]> r.(pr_entries)) by done.
  assert (Hr : r'.(pr_releases) = r.(pr_releases)) by done. assert (Hn : r'.(pr_next) = S r.(pr_next)) by done.
  assert (Href : forall d' s', entry_ref d' s' r' = if decide (d = d' /\ s = s') then Some r.(pr_next) else entry_ref d' s' r) by (intros; apply ref_new).
  assert (Hold : forall d' s' ref, entry_ref d' s' r = Some ref -> ref <> r.(pr_next)).
  { intros d' s' ref H. destruct (ok_refs r Hok d' s' ref H) as (x & Hx & _).
    pose proof (ok_fresh_entries r Hok ref ltac:(by eexists)). lia. }
  assert (Hs : forall d' s', session_at d' s' r' = session_at d' s' r).
  { intros d' s'. destruct (decide (d = d' /\ s = s')) as [[-> ->]|Hne].
    - rewrite (session_at_none _ _ _ Hnone). rewrite (session_at_cell d' s' r' r.(pr_next) e); [done| |by rewrite He, lookup_insert_eq].
      by rewrite Href, decide_True.
    - apply session_at_ref; [by rewrite Href, decide_False|]. intros ref H. rewrite He. apply lookup_insert_ne. intros Heq.
      by apply (Hold _ _ _ H). }
  split; [|done]. split.
  - unfold r', new_entry. cbn. apply jm_wf_set, Hok.
  - intros d'. unfold r'. rewrite drive_entries_new. case_decide; [apply jm_wf_set|]; apply (ok_inner r Hok).
  - intros d' s' ref. rewrite Href, He. case_decide as E.
    + destruct E as [-> ->]. intros [= <-]. exists e. rewrite lookup_insert_eq. split; [done|]. intros x Hx. congruence.
    + intros H. rewrite lookup_insert_ne by (intros Heq; by apply (Hold _ _ _ H)). by apply (ok_refs r Hok d').
  - intros d1 s1 d2 s2 ref. rewrite !Href. repeat case_decide; [naive_solver| | |apply (ok_inj r Hok)];
      intros H1 H2; exfalso; [apply (Hold _ _ _ H2)|apply (Hold _ _ _ H1)]; congruence.
  - intros ref. rewrite He, Hn. destruct (decide (ref = r.(pr_next))) as [->|Hne]; [lia|]. rewrite lookup_insert_ne by done.
    intros H%(ok_fresh_entries r Hok). lia.
  - intros id c. rewrite Hr, Hn. intros H%(ok_fresh_releases r Hok). lia.
  - intros id c. rewrite Hr, He. intros Hc Hrel. destruct (ok_bound r Hok id c Hc Hrel) as (H1 & x & Hx & Hu). rewrite Href.
    rewrite decide_False by (intros [-> ->]; congruence). split; [done|]. exists x. split; [|done].
    rewrite lookup_insert_ne; [done|]. intros Heq. by apply (Hold _ _ _ H1).
  - intros d' s' ref x. rewrite Href, He, Hr. case_decide as E.
    + intros [= <-]. rewrite lookup_insert_eq. intros [= <-]. rewrite Hb, open_bindings_none; [done|].
      intros id c Hc Heq. destruct (ok_fresh_releases r Hok id c Hc). lia.
    + intros H. rewrite lookup_insert_ne by (intros Heq; by apply (Hold _ _ _ H)). by apply (ok_count r Hok d' s').
  - intros d' u l Hnd Hl. apply (ok_cap r Hok d' u l Hnd). intros s' Hin. rewrite <- Hs. auto.
Qed.

(** A bound entry has an open binding; one with none can go. *)
Lemma open_binding_counted id c rels : rels !! id = Some c -> c.(rl_released) = false -> (0 < open_bindings c.(rl_entry) rels)%nat.
Proof.
  intros Hc Hr. unfold open_bindings. apply Nat.neq_0_lt_0. intros H%map_size_empty_iff.
  assert (Hl : filter (fun x : nat * Release => x.2.(rl_released) = false /\ x.2.(rl_entry) = c.(rl_entry)) rels !! id = Some c)
    by (by apply map_lookup_filter_Some).
  by rewrite H in Hl.
Qed.

Lemma drop_entry_ok d s r ref e : registry_ok r -> entry_ref d s r = Some ref -> r.(pr_entries) !! ref = Some e ->
  e.(pe_session) = None -> e.(pe_bindings) = 0 ->
  registry_ok (drop_entry d s r) /\ forall d' s', session_at d' s' (drop_entry d s r) = session_at d' s' r.
Proof.
  intros Hok H1 H2 Hses Hb. destruct (drop_same d s r) as (He & _ & _ & Hr & Hn & _).
  assert (Hs : forall d' s', session_at d' s' (drop_entry d s r) = session_at d' s' r).
  { intros d' s'. destruct (decide (d = d' /\ s = s')) as [[-> ->]|Hne].
    - rewrite (session_at_cell _ _ _ _ _ H1 H2), Hses. apply session_at_none. by rewrite ref_drop, decide_True.
    - apply session_at_ref; [by rewrite ref_drop, decide_False|]. intros ref' _. by rewrite He. }
  assert (Hsub : forall d' s' ref', entry_ref d' s' (drop_entry d s r) = Some ref' -> entry_ref d' s' r = Some ref').
  { intros d' s' ref'. rewrite ref_drop. by case_decide. }
  split; [|done]. split.
  - unfold drop_entry. case_bool_decide; cbn; [apply jm_wf_delete|apply jm_wf_set]; apply Hok.
  - intros d'. rewrite drive_entries_drop. case_decide; [apply jm_wf_delete|]; apply (ok_inner r Hok).
  - intros d' s' ref' H%Hsub. rewrite He. by apply (ok_refs r Hok d').
  - intros d1 s1 d2 s2 ref' Ha%Hsub Hb'%Hsub. by apply (ok_inj r Hok _ _ _ _ _ Ha).
  - rewrite He, Hn. apply Hok.
  - rewrite Hr, Hn. apply Hok.
  - rewrite Hr, He. intros id c Hc Hrel. destruct (ok_bound r Hok id c Hc Hrel) as (Hc1 & x & Hx & Hu). rewrite ref_drop.
    rewrite decide_False; [by eauto|]. intros [-> ->]. rewrite H1 in Hc1. injection Hc1 as ->.
    pose proof (open_binding_counted id c _ Hc Hrel) as Hpos. pose proof (ok_count r Hok _ _ _ _ H1 H2). lia.
  - rewrite He, Hr. intros d' s' ref' x H%Hsub. by apply (ok_count r Hok d' s').
  - intros d' u l Hnd Hl. apply (ok_cap r Hok d' u l Hnd). intros s' Hin. rewrite <- Hs. auto.
Qed.

(** ** What the other keys see, and what the listeners are sent *)

Definition frame_but (d s : string) (r r' : Registry) : Prop :=
  forall d' s', ~ (d' = d /\ s' = s) -> entry_of d' s' r' = entry_of d' s' r.

Lemma frame_but_refl d s r : frame_but d s r r.
Proof. done. Qed.

Lemma frame_but_trans d s r1 r2 r3 : frame_but d s r1 r2 -> frame_but d s r2 r3 -> frame_but d s r1 r3.
Proof. intros H1 H2 d' s' Hne. rewrite H2, H1; done. Qed.

Lemma frame_sessions d s r r' d' s' : frame_but d s r r' -> ~ (d' = d /\ s' = s) -> session_at d' s' r' = session_at d' s' r.
Proof. intros H Hne. unfold session_at. by rewrite H. Qed.

Lemma entry_of_ref d s r r' :
  entry_ref d s r' = entry_ref d s r -> (forall ref, entry_ref d s r = Some ref -> r'.(pr_entries) !! ref = r.(pr_entries) !! ref) ->
  entry_of d s r' = entry_of d s r.
Proof. intros Href He. unfold entry_of. rewrite Href. destruct (entry_ref d s r) as [ref|]; [|done]. cbn. by rewrite He. Qed.

Lemma entries_entry_of d r d' s' : entry_of d' s' (entries d r) = entry_of d' s' r.
Proof. destruct (entries_same d r) as (He & _). apply entry_of_ref; [apply ref_entries|by rewrite He]. Qed.

Lemma touches_frame d s ref e e' r r' : registry_ok r -> touches d s ref e e' r r' -> frame_but d s r r'.
Proof.
  intros Hok H d' s' Hne. pose proof (touches_ref _ _ _ _ _ _ _ H) as Href. destruct H as [H1 H2 _ H4 _ _ _].
  apply entry_of_ref; [apply Href|]. intros ref' Hr'. rewrite H4. apply lookup_insert_ne. intros <-.
  destruct (ok_inj r Hok _ _ _ _ _ Hr' H1) as [-> ->]. by apply Hne.
Qed.

Lemma new_entry_frame d s e r : registry_ok r -> frame_but d s r (new_entry d s e r).2.
Proof.
  intros Hok d' s' Hne. apply entry_of_ref; [rewrite ref_new, decide_False; naive_solver|]. intros ref Href. cbn.
  apply lookup_insert_ne. intros <-. destruct (ok_refs r Hok _ _ _ Href) as (x & Hx & _).
  pose proof (ok_fresh_entries r Hok (pr_next r) ltac:(by eexists)). lia.
Qed.

Lemma drop_entry_frame d s r : frame_but d s r (drop_entry d s r).
Proof.
  intros d' s' Hne. destruct (drop_same d s r) as (He & _). apply entry_of_ref; [rewrite ref_drop, decide_False; naive_solver|].
  intros ref _. by rewrite He.
Qed.

(** What an event does to the session shown for a key. *)
Definition apply_at (d s : string) (o : option PresenceSession) (ev : PresenceEvent) : option PresenceSession :=
  match ev with
  | PresenceUpdated d' x _ => if bool_decide (d' = d /\ x.(se_sessionId) = s) then Some x else o
  | PresenceLeft d' s' _ _ => if bool_decide (d' = d /\ s' = s) then None else o
  end.

(** The listeners stay, each is sent the events of its drives, and the events are
    what happened to the sessions. *)
Record announces (evs : list PresenceEvent) (r r' : Registry) : Prop := {
  an_listeners : forall d, listeners_of d r' = listeners_of d r;
  an_sent : r'.(pr_sent) = r.(pr_sent) ++ (evs ≫= fun ev => (fun l => (l, ev)) <$> listeners_of (presence_drive ev) r);
  an_sessions : forall d s, session_at d s r' = foldl (apply_at d s) (session_at d s r) evs
}.

Lemma announces_trans evs1 evs2 r1 r2 r3 : announces evs1 r1 r2 -> announces evs2 r2 r3 -> announces (evs1 ++ evs2) r1 r3.
Proof.
  intros [Hl1 Hs1 Hx1] [Hl2 Hs2 Hx2]. split.
  - intros d. by rewrite Hl2, Hl1.
  - rewrite Hs2, Hs1, bind_app, app_assoc. f_equal. apply list_bind_ext; [|done]. intros ev. by rewrite Hl1.
  - intros d s. by rewrite Hx2, Hx1, foldl_app.
Qed.

(** A step that sends nothing and shows the same. *)
Lemma announces_nothing r r' : (forall d, listeners_of d r' = listeners_of d r) -> r'.(pr_sent) = r.(pr_sent) ->
  (forall d s, session_at d s r' = session_at d s r) -> announces [] r r'.
Proof. intros H1 H2 H3. split; [done|by rewrite H2, app_nil_r|done]. Qed.

Lemma listeners_same d r r' : r'.(pr_sets) = r.(pr_sets) -> r'.(pr_listeners) = r.(pr_listeners) -> listeners_of d r' = listeners_of d r.
Proof. intros H1 H2. unfold listeners_of. by rewrite H1, H2. Qed.

Lemma announces_refl r : announces [] r r.
Proof. by apply announces_nothing. Qed.

(** A step that changes one session, then announces it. *)
Lemma announces_one ev r r1 :
  r1.(pr_sets) = r.(pr_sets) -> r1.(pr_listeners) = r.(pr_listeners) -> r1.(pr_sent) = r.(pr_sent) ->
  (forall d s, session_at d s r1 = apply_at d s (session_at d s r) ev) -> announces [ev] r (publish ev r1).
Proof.
  intros H1 H2 H3 H4. assert (Hl : forall d, listeners_of d r1 = listeners_of d r) by (intros d; by apply listeners_same). split.
  - intros d. rewrite <- Hl. by apply listeners_same.
  - cbn. rewrite app_nil_r, H3. by rewrite Hl.
  - intros d s. cbn. rewrite <- H4. by apply view_same_sessions.
Qed.

(** ** The operations *)

(** A fresh entry object. *)
Definition blank (now : Z) (userId : string) : Entry :=
  {| pe_userId := userId; pe_session := None; pe_state := None; pe_lastSeen := now; pe_bindings := 0 |}.

Record found_post (now : Z) (d s u : string) (found : option (nat * Entry)) (ref : nat) (e : Entry) (r r' : Registry) : Prop := {
  fp_ok : registry_ok r';
  fp_frame : frame_but d s r r';
  fp_ref : entry_ref d s r' = Some ref;
  fp_entry : r'.(pr_entries) !! ref = Some e;
  fp_which : found = Some (ref, e) \/ (found = None /\ e = blank now u);
  fp_sessions : forall d' s', session_at d' s' r' = session_at d' s' r;
  fp_rest : r'.(pr_sets) = r.(pr_sets) /\ r'.(pr_listeners) = r.(pr_listeners) /\ r'.(pr_sent) = r.(pr_sent) /\
            r'.(pr_releases) = r.(pr_releases)
}.

Lemma found_or_new_step now d s u r ref e r' : registry_ok r ->
  found_or_new now d s u (entry_of d s r) r = (Ok (ref, e), r') -> found_post now d s u (entry_of d s r) ref e r r'.
Proof.
  intros Hok H. unfold found_or_new in H. destruct (entry_of d s r) as [[ref0 e0]|] eqn:E.
  - injection H as <- <- <-. pose proof E as [H1 H2]%entry_of_some. by split; auto.
  - apply entry_of_none in E; [|done]. fold (blank now u) in H. destruct (new_entry d s (blank now u) r) as [n r1] eqn:En.
    injection H as <- <- <-. destruct (new_entry_ok d s (blank now u) r Hok E eq_refl eq_refl) as [Hok' Hs].
    pose proof (new_entry_frame d s (blank now u) r Hok) as Hf. pose proof (ref_new d s (blank now u) r d s) as Href.
    rewrite En in *. cbn [snd] in *. rewrite decide_True in Href by done. unfold new_entry in En. injection En as <- <-.
    split; auto. cbn. apply lookup_insert_eq.
Qed.

(** The owner check. *)
Lemma assertOwner_ok found u : assertOwner found u = Ok tt <-> forall e, found = Some e -> e.(pe_userId) = u.
Proof. unfold assertOwner. destruct found as [e|]; [|naive_solver]. case_bool_decide; naive_solver. Qed.

(** [set_entry] on an entry that keeps its bindings. *)
Lemma set_entry_step d s ref e e' r : registry_ok r -> entry_ref d s r = Some ref -> r.(pr_entries) !! ref = Some e ->
  e'.(pe_userId) = e.(pe_userId) -> e'.(pe_bindings) = e.(pe_bindings) ->
  (forall x, e'.(pe_session) = Some x -> x.(se_sessionId) = s /\ x.(se_userId) = e.(pe_userId) /\ e'.(pe_state) = Some x.(se_state)) ->
  (e.(pe_session) = None -> is_Some e'.(pe_session) -> below_cap d e.(pe_userId) r) ->
  registry_ok (set_entry ref e' r) /\ frame_but d s r (set_entry ref e' r) /\
  session_at d s (set_entry ref e' r) = e'.(pe_session).
Proof.
  intros Hok H1 H2 H3 H4 H5 H6. assert (Ht : touches d s ref e e' r (set_entry ref e' r)) by (by split).
  split_and!; [|by eapply touches_frame|by eapply (touches_sessions _ _ _ _ _ _ _ Hok Ht)].
  eapply touches_ok; [done|exact Ht|exact (ok_fresh_releases r Hok)|exact (ok_bound r Hok)|done| |done].
  rewrite H4. by apply (ok_count r Hok d s).
Qed.

(** What a call by [u] on the key [(d, s)] leaves: the invariant, the other keys,
    a foreign session at the key, and the events it announced. *)
Record call_post (d s u : string) (r r' : Registry) : Prop := {
  cp_ok : registry_ok r';
  cp_frame : frame_but d s r r';
  cp_owner : forall x, session_at d s r = Some x -> x.(se_userId) <> u -> session_at d s r' = Some x;
  cp_announced : exists evs, announces evs r r'
}.

Lemma call_post_silent d s u r r' : registry_ok r' -> frame_but d s r r' -> (forall d' s', session_at d' s' r' = session_at d' s' r) ->
  r'.(pr_sets) = r.(pr_sets) -> r'.(pr_listeners) = r.(pr_listeners) -> r'.(pr_sent) = r.(pr_sent) -> call_post d s u r r'.
Proof.
  intros Hok Hf Hs H1 H2 H3. split; [done|done|by intros x; rewrite Hs|]. exists []. apply announces_nothing; [|done|done].
  intros d'. by apply listeners_same.
Qed.

(** The user of an entry owns the session it shows. *)
Lemma entry_owner d s r ref e x : registry_ok r -> entry_of d s r = Some (ref, e) -> session_at d s r = Some x ->
  x.(se_userId) = e.(pe_userId).
Proof.
  intros Hok [Href He]%entry_of_some Hx. rewrite (session_at_cell _ _ _ _ _ Href He) in Hx.
  destruct (ok_refs r Hok d s ref Href) as (e' & He' & Hn). rewrite He in He'. injection He' as <-. by apply Hn.
Qed.

(** A new session at a key, announced. *)
Lemma shown_step d s u ref e e' x at_ r r1 : registry_ok r -> registry_ok r1 -> frame_but d s r r1 ->
  (forall d' s', session_at d' s' r1 = session_at d' s' r) ->
  r1.(pr_sets) = r.(pr_sets) -> r1.(pr_listeners) = r.(pr_listeners) -> r1.(pr_sent) = r.(pr_sent) ->
  entry_ref d s r1 = Some ref -> r1.(pr_entries) !! ref = Some e -> e.(pe_userId) = u ->
  e'.(pe_userId) = u -> e'.(pe_bindings) = e.(pe_bindings) -> e'.(pe_session) = Some x -> e'.(pe_state) = Some x.(se_state) ->
  x.(se_sessionId) = s -> x.(se_userId) = u -> (e.(pe_session) = None -> below_cap d u r1) ->
  let r' := publish (PresenceUpdated d x at_) (set_entry ref e' r1) in
  call_post d s u r r' /\ session_at d s r' = Some x.
Proof.
  intros Hok Hok1 Hf1 Hs1 Hsets Hlis Hsent Href He Hu Hu' Hb Hx Hst Hxs Hxu Hroom r'.
  destruct (set_entry_step d s ref e e' r1 Hok1 Href He) as (Hok2 & Hf2 & Hs2); [congruence|done| | |].
  { rewrite Hx. intros x' [= <-]. split_and!; congruence. }
  { intros Hnone _. rewrite Hu. auto. }
  assert (Hsess : forall d' s', session_at d' s' r' = session_at d' s' (set_entry ref e' r1)) by (by apply view_same_sessions).
  assert (Hshown : session_at d s r' = Some x) by (by rewrite Hsess, Hs2).
  split; [|done]. split.
  - eapply view_same_ok; [exact Hok2|done..].
  - apply (frame_but_trans _ _ _ r1); [done|]. exact Hf2.
  - intros y Hy Hyu. exfalso. apply Hyu. rewrite <- Hs1 in Hy. rewrite <- Hu. eapply entry_owner; [exact Hok1| |exact Hy].
    by apply entry_of_some.
  - exists [PresenceUpdated d x at_]. apply announces_one; [by cbn..|]. intros d' s'. cbn [apply_at].
    case_bool_decide as Hkey.
    + destruct Hkey as [-> <-]. rewrite Hxs. by rewrite Hs2.
    + rewrite <- Hs1. apply (frame_sessions d s); [done|]. intros [-> ->]. by apply Hkey.
Qed.

Section Upsert.
Variable getDisplayName : string -> option string.

Lemma upsert_step now d s u email st r o r' : registry_ok r -> upsert getDisplayName now d s u email st r = (o, r') ->
  call_post d s u r r' /\
  forall x, o = Ok x -> session_at d s r' = Some x /\ x.(se_state) = st /\ x.(se_sessionId) = s /\ x.(se_userId) = u.
Proof.
  intros Hok H. unfold upsert in H. destruct (entries_ok d r Hok) as [Hok1 Hs1].
  destruct (entries_same d r) as (_ & Hsets & Hlis & Hrel & _ & Hsent).
  assert (Hf1 : frame_but d s r (entries d r)) by (intros d' s' _; apply entries_entry_of).
  assert (Hquiet : call_post d s u r (entries d r)) by (by apply call_post_silent).
  apply bind_inv in H as [([] & r1 & Hm & H)|(e & Hm & _)]; [|discriminate Hm]. injection Hm as <-.
  apply bind_inv in H as [(found & r1 & Hm & H)|(e & Hm & _)]; [|discriminate Hm]. apply gets_ok in Hm as [-> ->].
  apply bind_inv in H as [([] & r1 & Hm & H)|(e & Hm & ->)]; [|unfold from_outcome in Hm; injection Hm as _ <-; by split].
  apply from_outcome_ok in Hm as [Hown ->]. rewrite assertOwner_ok in Hown.
  apply bind_inv in H as [(mine & r1 & Hm & H)|(e & Hm & _)]; [|discriminate Hm]. apply gets_ok in Hm as [-> ->].
  apply bind_inv in H as [([] & r1 & Hm & H)|(e & Hm & ->)].
  2: { unfold throw_if in Hm. destruct (_ && _); injection Hm as _ <-; by split. }
  apply throw_if_ok in Hm as [Hcap ->].
  apply bind_inv in H as [([ref e] & r1 & Hm & H)|(e & Hm & ->)].
  2: { unfold found_or_new in Hm. destruct (entry_of d s (entries d r)); [discriminate|]. by destruct (new_entry _ _ _ _). }
  apply found_or_new_step in Hm as [Hok2 Hf2 Href He Hwhich Hs2 (Hsets2 & Hlis2 & Hsent2 & _)]; [|done]. cbn [fst snd] in H.
  assert (Hsess : session_at d s r = e.(pe_session)) by (by rewrite <- Hs1, <- Hs2; eapply session_at_cell).
  assert (Huser : e.(pe_userId) = u).
  { destruct Hwhich as [Hw|[_ ->]]; [|done]. apply Hown. by rewrite Hw. }
  assert (Hroom : e.(pe_session) = None -> below_cap d u r1).
  { intros Hnone. apply (below_cap_same _ _ (entries d r)); [done|]. apply guard_below_cap; [done|].
    apply andb_false_iff in Hcap as [Hc|Hc]; apply bool_decide_eq_false in Hc; [|lia]. exfalso. apply Hc.
    destruct Hwhich as [Hw|[Hw _]]; rewrite Hw; [done|done]. }
  destruct (ok_refs r1 Hok2 d s ref Href) as (e0 & He0 & Hnames). rewrite He in He0. injection He0 as <-.
  assert (Hpub : forall dn, let x := make_session now s u email dn st in
    call_post d s u r (publish (PresenceUpdated d x (toISOString now))
      (set_entry ref (e <| pe_lastSeen := now |> <| pe_state := Some st |> <| pe_session := Some x |>) r1)) /\
    session_at d s (publish (PresenceUpdated d x (toISOString now))
      (set_entry ref (e <| pe_lastSeen := now |> <| pe_state := Some st |> <| pe_session := Some x |>) r1)) = Some x).
  { intros dn x. eapply shown_step; try done; [|by intros; rewrite Hs2|congruence..].
    by apply (frame_but_trans _ _ _ (entries d r)). }
  change (pe_session (e <| pe_lastSeen := now |>)) with (pe_session e) in H.
  change (pe_state (e <| pe_lastSeen := now |>)) with (pe_state e) in H.
  destruct (pe_session e) as [old|] eqn:Eold; [case_bool_decide as Est|].
  - destruct (set_entry_step d s ref e (e <| pe_lastSeen := now |>) r1 Hok2 Href He) as (Hok3 & Hf3 & Hs3); [done|done| |by intros Hn; congruence|].
    { intros x Hx. change (pe_session e = Some x) in Hx. apply Hnames. congruence. }
    injection H as <- <-. split.
    + apply call_post_silent; [done| |..|by cbn; congruence|by cbn; congruence|by cbn; congruence].
      * apply (frame_but_trans _ _ _ r1); [by apply (frame_but_trans _ _ _ (entries d r))|done].
      * intros d' s'. destruct (decide (d' = d /\ s' = s)) as [[-> ->]|Hne].
        -- rewrite Hs3. change (pe_session e = session_at d s r). congruence.
        -- rewrite (frame_sessions d s r1); [by rewrite Hs2|done|done].
    + intros x [= <-]. rewrite Hs3. destruct (Hnames old eq_refl) as (Hn1 & Hn2 & Hn3).
      split_and!; [exact Eold|congruence|done|congruence].
  - destruct (Hpub old.(se_displayName)) as [Hp1 Hp2]. injection H as <- <-. split; [exact Hp1|]. by intros x [= <-].
  - destruct (Hpub (getDisplayName u)) as [Hp1 Hp2]. injection H as <- <-. split; [exact Hp1|]. by intros x [= <-].
Qed.
End Upsert.

Lemma call_post_refl d s u r : registry_ok r -> call_post d s u r r.
Proof. intros Hok. by apply call_post_silent. Qed.

Lemma call_post_trans d s u r1 r2 r3 : call_post d s u r1 r2 -> call_post d s u r2 r3 -> call_post d s u r1 r3.
Proof.
  intros [_ Hf1 Ho1 [e1 H1]] [Hok Hf2 Ho2 [e2 H2]]. split; [done|by eapply frame_but_trans|auto|].
  exists (e1 ++ e2). by eapply announces_trans.
Qed.

(** Leaving, announced when there was a session. *)
Lemma gone_step d s u at_ r r1 (had : bool) : registry_ok r1 -> frame_but d s r r1 -> session_at d s r1 = None ->
  (forall x, session_at d s r = Some x -> x.(se_userId) = u) -> (had = false -> session_at d s r = None) ->
  r1.(pr_sets) = r.(pr_sets) -> r1.(pr_listeners) = r.(pr_listeners) -> r1.(pr_sent) = r.(pr_sent) ->
  let r' := if had then publish (PresenceLeft d s u at_) r1 else r1 in
  call_post d s u r r' /\ session_at d s r' = None.
Proof.
  intros Hok1 Hf Hgone Hown Hhad Hsets Hlis Hsent r'.
  assert (Hs : forall d' s', session_at d' s' r1 = if bool_decide (d' = d /\ s' = s) then None else session_at d' s' r).
  { intros d' s'. case_bool_decide as Hk; [by destruct Hk as [-> ->]|]. by apply (frame_sessions d s). }
  destruct had.
  - assert (Hsess : forall d' s', session_at d' s' r' = session_at d' s' r1) by (by apply view_same_sessions).
    split; [|by rewrite Hsess]. split.
    + eapply view_same_ok; [exact Hok1|done..].
    + exact Hf.
    + intros x Hx Hne. by destruct (Hne (Hown x Hx)).
    + exists [PresenceLeft d s u at_]. apply announces_one; [done..|]. intros d' s'. cbn [apply_at]. rewrite Hs.
      case_bool_decide as H1; case_bool_decide as H2; naive_solver.
  - split; [|done]. apply call_post_silent; try done. intros d' s'. rewrite Hs. case_bool_decide as Hk; [|done].
    destruct Hk as [-> ->]. symmetry. auto.
Qed.

Lemma remove_step now d s u r o r' : registry_ok r -> remove now d s u r = (o, r') ->
  call_post d s u r r' /\ (o = Ok tt -> session_at d s r' = None) /\
  ((forall ref e, entry_of d s r = Some (ref, e) -> e.(pe_userId) = u) -> o = Ok tt) /\
  (forall e, o = Throw e -> r' = r).
Proof.
  intros Hok H. unfold remove in H.
  apply bind_inv in H as [(found & r1 & Hm & H)|(e & Hm & _)]; [|discriminate Hm]. apply gets_ok in Hm as [-> ->].
  apply bind_inv in H as [([] & r1 & Hm & H)|(er & Hm & ->)].
  2: { unfold from_outcome in Hm. injection Hm as Hm <-. split; [by apply call_post_refl|]. split; [done|]. split; [|done]. intros Hown. exfalso.
       unfold assertOwner in Hm. destruct (entry_of d s r) as [[ref e]|]; cbn in Hm; [|done]. case_bool_decide as Hu; [|done].
       apply Hu. by apply (Hown ref). }
  apply from_outcome_ok in Hm as [Hown ->]. rewrite assertOwner_ok in Hown.
  destruct (entry_of d s r) as [[ref e]|] eqn:E.
  2: { injection H as <- <-. split; [by apply call_post_refl|]. split; [|done]. intros _. unfold session_at. by rewrite E. }
  pose proof E as [Href He]%entry_of_some. specialize (Hown e eq_refl). set (e0 := e <| pe_session := None |> <| pe_state := None |>) in H.
  destruct (set_entry_step d s ref e e0 r Hok Href He) as (Hok1 & Hf1 & Hs1); [done|done|done|by intros _ [? [=]]|].
  assert (Hx : forall x, session_at d s r = Some x -> x.(se_userId) = u).
  { intros x Hx. rewrite <- Hown. exact (entry_owner d s r ref e x Hok E Hx). }
  change (session_at d s (set_entry ref e0 r) = None) in Hs1.
  pose proof (session_at_cell _ _ _ _ _ Href He) as Hsess.
  set (r1 := set_entry ref e0 r) in *.
  set (r2 := if bool_decide (e.(pe_bindings) = 0) then drop_entry d s r1 else r1).
  assert (Hr2 : registry_ok r2 /\ frame_but d s r r2 /\ session_at d s r2 = None /\ r2.(pr_sets) = r.(pr_sets) /\
    r2.(pr_listeners) = r.(pr_listeners) /\ r2.(pr_sent) = r.(pr_sent)).
  { unfold r2. destruct (decide (e.(pe_bindings) = 0)) as [Hb|Hb]; [rewrite bool_decide_true by done|rewrite bool_decide_false by done; by split_and!].
    destruct (drop_entry_ok d s r1 ref e0) as [Hok2 Hs2]; [done|done|by cbn; rewrite lookup_insert_eq|done|done|].
    destruct (drop_same d s r1) as (_ & H1 & H2 & _ & _ & H3).
    split_and!; [done|by eapply frame_but_trans, drop_entry_frame|by rewrite Hs2|done|done|done]. }
  destruct Hr2 as (Hok2 & Hf2 & Hs2 & H1 & H2 & H3).
  assert (Hrun : o = Ok tt /\ r' = if bool_decide (is_Some e.(pe_session)) then publish (PresenceLeft d s u (toISOString now)) r2 else r2).
  { unfold when, modify, mbind, M_bind in H. unfold r2.
    destruct (bool_decide (pe_bindings e = 0)), (bool_decide (is_Some (pe_session e))); by injection H as <- <-. }
  destruct Hrun as [-> ->].
  destruct (gone_step d s u (toISOString now) r r2 (bool_decide (is_Some e.(pe_session)))) as [Hp Hgone]; try done.
  intros Hhad%bool_decide_eq_false. rewrite Hsess. destruct (pe_session e); [|done]. by destruct Hhad.
Qed.

(** *** Bindings *)

Lemma open_bindings_insert ref id c rels : rels !! id = None ->
  open_bindings ref (<[id := c]> rels) =
  ((if bool_decide (c.(rl_released) = false /\ c.(rl_entry) = ref) then 1 else 0) + open_bindings ref rels)%nat.
Proof.
  intros Hid. unfold open_bindings. rewrite map_filter_insert. cbn [snd]. case_bool_decide as Hc.
  - rewrite decide_True by done. rewrite map_size_insert_None; [done|]. apply map_lookup_filter_None. by left.
  - rewrite decide_False by done. by rewrite delete_id by done.
Qed.

Lemma open_bindings_delete ref id c rels :
  open_bindings ref (<[id := c]> rels) =
  ((if bool_decide (c.(rl_released) = false /\ c.(rl_entry) = ref) then 1 else 0) + open_bindings ref (delete id rels))%nat.
Proof. rewrite <- insert_delete_eq. apply open_bindings_insert, lookup_delete_eq. Qed.

Lemma open_bindings_release ref id c rels : rels !! id = Some c -> c.(rl_released) = false ->
  open_bindings ref rels =
  ((if bool_decide (c.(rl_entry) = ref) then 1 else 0) + open_bindings ref (<[id := c <| rl_released := true |>]> rels))%nat.
Proof.
  intros Hid Hc. rewrite (open_bindings_delete ref id (c <| rl_released := true |>)). rewrite <- (insert_id rels id c) at 1 by done.
  rewrite open_bindings_delete. rewrite (bool_decide_false (true = false /\ _)) by (by intros [? _]).
  rewrite (bool_decide_ext (rl_released c = false /\ rl_entry c = ref) (rl_entry c = ref)) by tauto. done.
Qed.

Lemma bind_step now d s u r o r' : registry_ok r -> bind now d s u r = (o, r') -> call_post d s u r r'.
Proof.
  intros Hok H. unfold bind in H. destruct (entries_ok d r Hok) as [Hok1 Hs1].
  destruct (entries_same d r) as (_ & Hsets & Hlis & Hrel & _ & Hsent).
  assert (Hf1 : frame_but d s r (entries d r)) by (intros d' s' _; apply entries_entry_of).
  apply bind_inv in H as [([] & r1 & Hm & H)|(e & Hm & _)]; [|discriminate Hm]. injection Hm as <-.
  apply bind_inv in H as [(found & r1 & Hm & H)|(e & Hm & _)]; [|discriminate Hm]. apply gets_ok in Hm as [-> ->].
  apply bind_inv in H as [([] & r1 & Hm & H)|(e & Hm & ->)]; [|unfold from_outcome in Hm; injection Hm as _ <-; by apply call_post_silent].
  apply from_outcome_ok in Hm as [Hown ->]. rewrite assertOwner_ok in Hown.
  apply bind_inv in H as [([ref e] & r1 & Hm & H)|(e & Hm & ->)].
  2: { unfold found_or_new in Hm. destruct (entry_of d s (entries d r)); [discriminate|]. by destruct (new_entry _ _ _ _). }
  apply found_or_new_step in Hm as [Hok2 Hf2 Href He Hwhich Hs2 (Hsets2 & Hlis2 & Hsent2 & _)]; [|done].
  assert (Huser : e.(pe_userId) = u).
  { destruct Hwhich as [Hw|[_ ->]]; [|done]. apply Hown. by rewrite Hw. }
  set (e1 := e <| pe_bindings ::= Z.succ |>) in H. cbn [fst snd] in H.
  set (c := {| rl_entry := ref; rl_driveId := d; rl_sessionId := s; rl_userId := u; rl_released := false |}) in H.
  change (set_entry (ref, e).1 ((ref, e).2 <| pe_bindings ::= Z.succ |>)) with (set_entry ref e1) in H.
  assert (Hr' : r' = new_release c (set_entry ref e1 r1)) by (unfold modify, gets, mbind, M_bind in H; by injection H as _ <-).
  clear H. destruct (ok_refs r1 Hok2 d s ref Href) as (e0 & He0 & Hnames). rewrite He in He0. injection He0 as <-.
  assert (Ht : touches d s ref e e1 r1 r') by (rewrite Hr'; split; try done; cbn; lia).
  assert (Hfresh : r1.(pr_releases) !! r1.(pr_next) = None).
  { destruct (r1.(pr_releases) !! r1.(pr_next)) eqn:Ec; [|done]. destruct (ok_fresh_releases r1 Hok2 _ _ Ec). lia. }
  assert (Hrels : r'.(pr_releases) = <[r1.(pr_next) := c]> r1.(pr_releases)) by (by rewrite Hr').
  assert (Hnext : r'.(pr_next) = S r1.(pr_next)) by (by rewrite Hr').
  destruct (touches_sessions _ _ _ _ _ _ _ Hok2 Ht) as (Hx1 & Hx2 & Hx3).
  apply call_post_silent; [|by eapply frame_but_trans, touches_frame; [eapply frame_but_trans|..]| |rewrite Hr'; cbn; congruence..].
  - eapply touches_ok; [exact Hok2|exact Ht|..]; rewrite ?Hrels, ?Hnext.
    + intros id c' [[<- <-]|[_ Hc]]%lookup_insert_Some; [|destruct (ok_fresh_releases r1 Hok2 _ _ Hc); lia].
      pose proof (ok_fresh_entries r1 Hok2 ref ltac:(by eexists)). cbn. lia.
    + intros id c' [[<- <-]|[_ Hc]]%lookup_insert_Some Hrl; [by eauto|by apply (ok_bound r1 Hok2 id)].
    + intros ref' Hne. rewrite open_bindings_insert by done. rewrite bool_decide_false; [done|]. by intros [_ <-].
    + rewrite open_bindings_insert by done. rewrite bool_decide_true by done. pose proof (ok_count r1 Hok2 _ _ _ _ Href He).
      change (pe_bindings e1) with (Z.succ (pe_bindings e)). lia.
    + change (pe_session e1) with (pe_session e). by intros -> [? [=]].
  - intros d' s'. destruct (decide (d' = d /\ s' = s)) as [[-> ->]|Hne].
    + rewrite Hx2. change (pe_session e1) with (pe_session e). rewrite <- Hx1. by rewrite Hs2.
    + rewrite Hx3 by done. by rewrite Hs2.
Qed.

(** The closure of [bind]: a call for the key and the user it closed over. *)
Lemma release_step now id c r o r' : registry_ok r -> r.(pr_releases) !! id = Some c -> release now id r = (o, r') ->
  call_post c.(rl_driveId) c.(rl_sessionId) c.(rl_userId) r r' /\ (c.(rl_released) = true -> r' = r) /\
  (session_at c.(rl_driveId) c.(rl_sessionId) r = None -> session_at c.(rl_driveId) c.(rl_sessionId) r' = None).
Proof.
  intros Hok Hc H. unfold release in H. rewrite Hc in H. destruct (rl_released c) eqn:Erl.
  { injection H as _ <-. split; [by apply call_post_refl|]. split; done. }
  destruct (ok_bound r Hok id c Hc Erl) as (Href & e & He & Hu). set (ref := rl_entry c) in *.
  set (r1 := r <| pr_releases ::= <[id := c <| rl_released := true |>]> |>) in H.
  change (pr_entries r1) with (pr_entries r) in H. rewrite He in H. set (e1 := e <| pe_bindings ::= Z.pred |>) in H.
  set (r2 := set_entry ref e1 r1) in H. set (d := rl_driveId c) in *. set (s := rl_sessionId c) in *. set (u := rl_userId c) in *.
  destruct (ok_refs r Hok d s ref Href) as (e0 & He0 & Hnames). rewrite He in He0. injection He0 as <-.
  assert (Ht : touches d s ref e e1 r r2) by (by split).
  destruct (touches_sessions _ _ _ _ _ _ _ Hok Ht) as (Hx1 & Hx2 & Hx3).
  assert (Hrels : r2.(pr_releases) = <[id := c <| rl_released := true |>]> r.(pr_releases)) by done.
  assert (Hopen : forall ref', open_bindings ref' r.(pr_releases) =
    ((if bool_decide (ref = ref') then 1 else 0) + open_bindings ref' r2.(pr_releases))%nat) by (intros ref'; by apply open_bindings_release).
  assert (Hpost : call_post d s u r r2).
  { apply call_post_silent; [|by eapply touches_frame| |done..].
    - eapply touches_ok; [exact Hok|exact Ht|..].
      + intros id' c'. rewrite Hrels. intros [[<- <-]|[_ Hc']]%lookup_insert_Some; [by apply (ok_fresh_releases r Hok id c)|by apply (ok_fresh_releases r Hok)].
      + intros id' c'. rewrite Hrels. intros [[<- <-]|[_ Hc']]%lookup_insert_Some Hrl; [done|by apply (ok_bound r Hok id')].
      + intros ref' Hne. rewrite Hopen, bool_decide_false by done. done.
      + pose proof (ok_count r Hok _ _ _ _ Href He) as Hcount. rewrite Hopen, bool_decide_true in Hcount by done.
        change (pe_bindings e1) with (Z.pred (pe_bindings e)). lia.
      + change (pe_session e1) with (pe_session e). by intros -> [? [=]].
    - intros d' s'. destruct (decide (d' = d /\ s' = s)) as [[-> ->]|Hne]; [|by apply Hx3]. by rewrite Hx2, Hx1. }
  assert (Hnone2 : session_at d s r = None -> session_at d s r2 = None) by (intros Hn; by rewrite Hx2, <- Hn, Hx1).
  destruct (bool_decide (pe_bindings e1 = 0)); [|injection H as _ <-; split; [done|by split]].
  destruct (remove_step now d s u r2 o r' (cp_ok _ _ _ _ _ Hpost) H) as (Hp & Hgone & _ & Hsame).
  split; [by eapply call_post_trans|]. split; [done|]. intros Hn. destruct o as [[]|er]; [by apply Hgone|].
  rewrite (Hsame er eq_refl). by apply Hnone2.
Qed.

(** *** The sweep *)

(** Shown, unbound, and not refreshed for the life of a session. *)
Definition expired (now : Z) (d s : string) (r : Registry) : Prop :=
  exists ref e, entry_of d s r = Some (ref, e) /\ is_Some e.(pe_session) /\ e.(pe_bindings) = 0 /\
    e.(pe_lastSeen) < now - SESSION_TTL_MS.

Lemma elem_of_all_entries r d s ref : registry_ok r -> (d, (s, ref)) ∈ all_entries r <-> entry_ref d s r = Some ref.
Proof.
  intros Hok. unfold all_entries. rewrite list_elem_of_bind. unfold entry_ref, drive_entries. split.
  - intros ([d' es] & ([s' ref'] & [= -> -> ->] & Hin)%list_elem_of_fmap & Hd). cbn in *.
    apply (jm_get_elem _ _ _ (ok_drives r Hok)) in Hd. rewrite Hd. cbn. apply jm_get_elem; [|done].
    pose proof (ok_inner r Hok d') as Hw. unfold drive_entries in Hw. by rewrite Hd in Hw.
  - intros H. destruct (jm_get d (pr_drives r)) as [es|] eqn:Hd; [|done]. cbn in H. exists (d, es). split.
    + apply list_elem_of_fmap. exists (s, ref). split; [done|]. apply jm_get_elem; [|done].
      pose proof (ok_inner r Hok d) as Hw. unfold drive_entries in Hw. by rewrite Hd in Hw.
    + apply jm_get_elem; [apply Hok|done].
Qed.

Lemma all_entries_keys r : registry_ok r -> NoDup ((fun x => (x.1, x.2.1)) <$> all_entries r).
Proof.
  intros Hok. pose proof (ok_drives r Hok) as Hd. assert (Hi : forall d es, (d, es) ∈ r.(pr_drives) -> jm_wf es).
  { intros d es Hin. apply (jm_get_elem _ _ _ Hd) in Hin. pose proof (ok_inner r Hok d) as Hw. unfold drive_entries in Hw. by rewrite Hin in Hw. }
  unfold all_entries. clear Hok. induction (pr_drives r) as [|[d es] ds IH]; [constructor|]. cbn.
  apply NoDup_cons in Hd as [Hdn Hd]. rewrite fmap_app. apply NoDup_app. split; [|split].
  - rewrite <- list_fmap_compose. specialize (Hi d es ltac:(by left)). unfold jm_wf in Hi.
    apply (NoDup_fmap_2 (pair d)) in Hi. by rewrite <- list_fmap_compose in Hi.
  - intros [d' s'] (x & [= -> ->] & Hx)%list_elem_of_fmap (y & [= Hy1 _] & Hy)%list_elem_of_fmap.
    apply list_elem_of_fmap in Hx as (x' & -> & _). cbn in *. subst.
    apply list_elem_of_bind in Hy as ([d2 es2] & (y' & -> & _)%list_elem_of_fmap & Hin). cbn in *.
    apply Hdn, list_elem_of_fmap. by exists (d2, es2).
  - apply IH; [done|]. intros d' es' Hin. apply (Hi d'). by right.
Qed.

Lemma sweep_loop now l r : registry_ok r -> NoDup ((fun x => (x.1, x.2.1)) <$> l) ->
  (forall x, x ∈ l -> entry_ref x.1 x.2.1 r = Some x.2.2) ->
  exists r', for_each l (sweep_entry now) r = (Ok tt, r') /\ registry_ok r' /\ (exists evs, announces evs r r') /\
    (forall d s, entry_of d s r' = entry_of d s r \/ (expired now d s r /\ session_at d s r' = None)) /\
    (forall d s ref, (d, (s, ref)) ∈ l -> expired now d s r -> session_at d s r' = None).
Proof.
  revert r. induction l as [|[d [s ref]] l IH]; intros r Hok Hnd Hl.
  { exists r. split; [done|]. split; [done|]. split; [exists []; apply announces_refl|]. split; [by left|]. by intros d s ref ?%elem_of_nil. }
  apply NoDup_cons in Hnd as [Hnot Hnd]. pose proof (Hl (d, (s, ref)) ltac:(by left)) as Href. cbn in Href.
  destruct (ok_refs r Hok d s ref Href) as (e & He & _). assert (Hent : entry_of d s r = Some (ref, e)) by (by apply entry_of_some).
  assert (Hstep : exists r1, sweep_entry now (d, (s, ref)) r = (Ok tt, r1) /\ registry_ok r1 /\ (exists evs, announces evs r r1) /\
    frame_but d s r r1 /\ ((expired now d s r /\ session_at d s r1 = None) \/ (~ expired now d s r /\ r1 = r))).
  { unfold sweep_entry. cbn [fst snd]. rewrite He.
    assert (Hexp : expired now d s r <-> is_Some e.(pe_session) /\ e.(pe_bindings) = 0 /\ e.(pe_lastSeen) < now - SESSION_TTL_MS).
    { unfold expired. split; [intros (ref' & e' & E & H); rewrite Hent in E; by injection E as <- <-|intros H; by exists ref, e]. }
    destruct (bool_decide (is_Some (pe_session e)) && bool_decide (pe_bindings e = 0) && (pe_lastSeen e <? now - SESSION_TTL_MS)) eqn:Ec.
    - apply andb_true_iff in Ec as [[H1%bool_decide_eq_true H2%bool_decide_eq_true]%andb_true_iff H3%Z.ltb_lt].
      destruct (remove now d s (pe_userId e) r) as [o r1] eqn:Er. destruct (remove_step now d s _ r o r1 Hok Er) as (Hp & Hgone & Hok1 & _).
      assert (o = Ok tt) as -> by (apply Hok1; intros ref' e' E; rewrite Hent in E; by injection E as <- <-).
      exists r1. split; [done|]. destruct Hp as [Hp1 Hp2 _ Hp4]. split_and!; [done..|]. left. split; [by apply Hexp|by apply Hgone].
    - exists r. split; [done|]. split; [done|]. split; [exists []; apply announces_refl|]. split; [done|]. right. split; [|done].
      rewrite Hexp. intros (H1 & H2 & H3). rewrite !bool_decide_true in Ec by done. by apply Z.ltb_ge in Ec; lia. }
  destruct Hstep as (r1 & Hrun & Hok1 & [evs1 Han1] & Hf1 & Hcase).
  destruct (IH r1 Hok1 Hnd) as (r' & Hrun' & Hok' & [evs2 Han2] & Hframe & Hall).
  { intros x Hx. specialize (Hl x ltac:(by right)). destruct (ok_refs r Hok _ _ _ Hl) as (e' & He' & _).
    assert (Hx' : entry_of x.1 x.2.1 r1 = Some (x.2.2, e')).
    { rewrite Hf1; [by apply entry_of_some|]. intros [H1 H2]. apply Hnot, list_elem_of_fmap. exists x. split; [|done]. cbn. congruence. }
    by apply entry_of_some in Hx' as [? _]. }
  assert (Hsame : forall d' s', ~ (d' = d /\ s' = s) -> expired now d' s' r1 <-> expired now d' s' r).
  { intros d' s' Hne. unfold expired. by rewrite (Hf1 d' s' Hne). }
  assert (Hhere : expired now d s r -> session_at d s r' = None).
  { intros Hexp. destruct Hcase as [[_ Hgone]|[Hno _]]; [|done]. destruct (Hframe d s) as [Heq|[_ Hn]]; [|done].
    unfold session_at. rewrite Heq. exact Hgone. }
  exists r'. split; [by cbn; unfold mbind, M_bind; rewrite Hrun|]. split; [done|]. split; [exists (evs1 ++ evs2); by eapply announces_trans|].
  split.
  - intros d' s'. destruct (decide (d' = d /\ s' = s)) as [[-> ->]|Hne].
    + destruct Hcase as [[Hexp _]|[_ ->]]; [right; auto|]. apply Hframe.
    + rewrite <- (Hf1 d' s' Hne), <- Hsame by done. apply Hframe.
  - intros d' s' ref' [[= -> -> ->]|Hin]%elem_of_cons; [exact Hhere|]. intros Hexp. apply (Hall d' s' ref' Hin). rewrite Hsame; [done|].
    intros [-> ->]. apply Hnot, list_elem_of_fmap. by exists (d, (s, ref')).
Qed.

Lemma sweep_step now r : registry_ok r ->
  exists r', sweep now r = (Ok tt, r') /\ registry_ok r' /\ (exists evs, announces evs r r') /\
    (forall d s, entry_of d s r' = entry_of d s r \/ (expired now d s r /\ session_at d s r' = None)) /\
    (forall d s, expired now d s r -> session_at d s r' = None).
Proof.
  intros Hok. destruct (sweep_loop now (all_entries r) r Hok (all_entries_keys r Hok)) as (r' & Hrun & Hok' & Han & Hf & Hall).
  { intros [d [s ref]] Hin. by apply elem_of_all_entries in Hin. }
  exists r'. split_and!; try done. intros d s Hexp. pose proof Hexp as (ref & e & [Href _]%entry_of_some & _).
  by apply (Hall d s ref); [apply elem_of_all_entries|].
Qed.

(** ** Histories of calls *)

Inductive presence_op : Type :=
| PoUpsert (now : Z) (driveId sessionId userId email : string) (state : PresenceState)
| PoRemove (now : Z) (driveId sessionId userId : string)
| PoBind (now : Z) (driveId sessionId userId : string)
| PoRelease (now : Z) (closure : nat)
| PoSweep (now : Z)
| PoSubscribe (driveId : string) (listener : nat)
| PoUnsubscribe (driveId : string) (listener ref : nat).

Section Runs.
Variable getDisplayName : string -> option string.

(** A call, whether it returns or throws. *)
Definition presence_step (op : presence_op) (r : Registry) : Registry :=
  match op with
  | PoUpsert now d s u email st => (upsert getDisplayName now d s u email st r).2
  | PoRemove now d s u => (remove now d s u r).2
  | PoBind now d s u => (bind now d s u r).2
  | PoRelease now id => (release now id r).2
  | PoSweep now => (sweep now r).2
  | PoSubscribe d l => (subscribe d l r).2
  | PoUnsubscribe d l ref => unsubscribe d l ref r
  end.

Definition presence_run (ops : list presence_op) (r : Registry) : Registry := foldl (fun r op => presence_step op r) r ops.

(** Whose call it is, on which key. *)
Definition op_call (op : presence_op) (r : Registry) : option (string * string * string) :=
  match op with
  | PoUpsert _ d s u _ _ | PoRemove _ d s u | PoBind _ d s u => Some (d, s, u)
  | PoRelease _ id => (fun c => (c.(rl_driveId), c.(rl_sessionId), c.(rl_userId))) <$> r.(pr_releases) !! id
  | _ => None
  end.

Lemma op_call_post op r d s u : registry_ok r -> op_call op r = Some (d, s, u) -> call_post d s u r (presence_step op r).
Proof.
  intros Hok H. destruct op; cbn in H |- *; try discriminate.
  - injection H as <- <- <-. by apply (upsert_step getDisplayName now driveId sessionId userId email state r _ _ Hok (surjective_pairing _)).
  - injection H as <- <- <-. by apply (remove_step now driveId sessionId userId r _ _ Hok (surjective_pairing _)).
  - injection H as <- <- <-. by apply (bind_step now driveId sessionId userId r _ _ Hok (surjective_pairing _)).
  - destruct (pr_releases r !! closure) as [c|] eqn:Ec; [|done]. injection H as <- <- <-.
    by apply (release_step now closure c r _ _ Hok Ec (surjective_pairing _)).
Qed.

(** A step that is nobody's call on a key keeps all sessions, or sweeps. *)
Lemma quiet_ok r r' : registry_ok r -> r'.(pr_drives) = r.(pr_drives) -> r'.(pr_entries) = r.(pr_entries) ->
  r'.(pr_releases) = r.(pr_releases) -> (r.(pr_next) <= r'.(pr_next))%nat ->
  registry_ok r' /\ forall d s, entry_of d s r' = entry_of d s r.
Proof.
  intros Hok H1 H2 H3 H4. split; [by eapply view_same_ok|]. intros d s. unfold entry_of, entry_ref, drive_entries. by rewrite H1, H2.
Qed.

Lemma subscribe_quiet d l r :
  (subscribe d l r).2.(pr_drives) = r.(pr_drives) /\ (subscribe d l r).2.(pr_entries) = r.(pr_entries) /\
  (subscribe d l r).2.(pr_releases) = r.(pr_releases) /\ (r.(pr_next) <= (subscribe d l r).2.(pr_next))%nat.
Proof. unfold subscribe. destruct (jm_get d (pr_listeners r)); cbn; split_and!; try done; lia. Qed.

Lemma unsubscribe_quiet d l ref r :
  (unsubscribe d l ref r).(pr_drives) = r.(pr_drives) /\ (unsubscribe d l ref r).(pr_entries) = r.(pr_entries) /\
  (unsubscribe d l ref r).(pr_releases) = r.(pr_releases) /\ (r.(pr_next) <= (unsubscribe d l ref r).(pr_next))%nat.
Proof. unfold unsubscribe. destruct (_ && _); cbn; split_and!; done. Qed.

Lemma step_ok op r : registry_ok r -> registry_ok (presence_step op r).
Proof.
  intros Hok. destruct (op_call op r) as [[[d s] u]|] eqn:E; [by apply (op_call_post op r d s u Hok E)|].
  destruct op; cbn in E |- *; try discriminate.
  - unfold release. destruct (pr_releases r !! closure); [discriminate|done].
  - destruct (sweep_step now r Hok) as (r' & -> & Hok' & _). done.
  - destruct (subscribe_quiet driveId listener r) as (H1 & H2 & H3 & H4). by apply (quiet_ok r).
  - destruct (unsubscribe_quiet driveId listener ref r) as (H1 & H2 & H3 & H4). by apply (quiet_ok r).
Qed.

Lemma new_registry_ok : registry_ok new_registry.
Proof.
  split.
  - constructor.
  - intros d. constructor.
  - by intros d s ref H.
  - by intros d s d' s' ref H.
  - by intros ref [e He].
  - by intros id c H.
  - by intros id c H.
  - by intros d s ref e H.
  - intros d u l Hnd Hl. destruct l as [|s l]; [cbn; unfold MAX_SESSIONS; lia|]. destruct (Hl s ltac:(by left)) as (x & [=] & _).
Qed.

Lemma run_ok ops r : registry_ok r -> registry_ok (presence_run ops r).
Proof. revert r. induction ops as [|op ops IH]; intros r Hok; [done|]. cbn. by apply IH, step_ok. Qed.

(** The registry after a history. *)
Definition presence_after (ops : list presence_op) : Registry := presence_run ops new_registry.

Lemma after_ok ops : registry_ok (presence_after ops).
Proof. apply run_ok, new_registry_ok. Qed.

(** *** The cap *)

(** The keys of the sessions the guard counts. *)
Lemma user_session_keys d u r : registry_ok r ->
  exists l, (NoDup l /\ forall s, s ∈ l -> s ∈ (drive_entries d r).*1) /\ length l = length (user_sessions d u r) /\
    forall s, s ∈ l -> exists x, session_at d s r = Some x /\ x.(se_userId) = u.
Proof.
  intros Hok. pose proof (ok_inner r Hok d) as Hw. unfold user_sessions.
  assert (Hin : forall s ref, (s, ref) ∈ drive_entries d r -> entry_ref d s r = Some ref).
  { intros s ref H. by apply (jm_get_elem _ _ _ Hw). }
  revert Hw Hin. generalize (drive_entries d r). intros es. induction es as [|[s ref] es IH]; intros Hw Hin.
  { exists []. split; [split; [constructor|set_solver]|]. split; [done|]. by intros s ?%elem_of_nil. }
  apply NoDup_cons in Hw as [Hs Hw]. destruct (IH Hw) as (l & [Hnd Hsub] & Hlen & Hl); [intros s' ref' H; apply Hin; by right|].
  pose proof (Hin s ref ltac:(by left)) as Href. destruct (ok_refs r Hok d s ref Href) as (e & He & Hn). cbn. rewrite He, filter_cons.
  case_decide as Hc; [|exists l; split_and!; try done; intros s' H; right; auto]. destruct Hc as [[x Hx] Hu].
  exists (s :: l). split; [split; [constructor; [|done]; intros H; by apply Hs, Hsub|]|split; [cbn; congruence|]].
  - intros s' [->|H]%elem_of_cons; [by left|right; auto].
  - intros s' [->|Hs']%elem_of_cons; [|by apply Hl]. exists x. split; [by rewrite (session_at_cell _ _ _ _ _ Href He)|].
    destruct (Hn x Hx) as (_ & -> & _). done.
Qed.

(** The presence cap holds.  After any history of calls, returned or refused, no
    user shows more than 32 sessions in a drive: the guard of [upsert] counts the
    user's sessions of the drive as they are, and every other call only takes
    sessions away. *)
Theorem presence_capped ops d u :
  (length (user_sessions d u (presence_after ops)) <= MAX_SESSIONS)%nat.
Proof.
  destruct (user_session_keys d u (presence_after ops) (after_ok ops)) as (l & [Hnd _] & <- & Hl).
  by apply (ok_cap _ (after_ok ops) d u).
Qed.

(** Presence belongs to its user.  Whatever call another user makes on any key,
    with whatever outcome, the session stays exactly as it was; only its own
    user's calls change it, and the sweep removes it only when it is unbound and
    has not been refreshed for 45 seconds. *)
Theorem presence_ownership ops op d s x :
  let r := presence_after ops in
  session_at d s r = Some x ->
  (forall d' s' u, op_call op r = Some (d', s', u) -> x.(se_userId) <> u \/ ~ (d' = d /\ s' = s)) ->
  session_at d s (presence_step op r) = Some x \/
  exists now, op = PoSweep now /\ expired now d s r.
Proof.
  intros r Hx Hforeign. pose proof (after_ok ops) as Hok. fold r in Hok.
  destruct (op_call op r) as [[[d' s'] u]|] eqn:E.
  - left. pose proof (op_call_post op r d' s' u Hok E) as Hp. destruct (Hforeign d' s' u eq_refl) as [Hne|Hne].
    + destruct (decide (d = d' /\ s = s')) as [[-> ->]|Hk]; [by apply (cp_owner _ _ _ _ _ Hp)|].
      by rewrite (frame_sessions d' s' r _ d s (cp_frame _ _ _ _ _ Hp) Hk).
    + rewrite (frame_sessions d' s' r _ d s (cp_frame _ _ _ _ _ Hp)); [done|]. intros [-> ->]. by apply Hne.
  - destruct op; cbn in E |- *; try discriminate.
    + left. unfold release. destruct (pr_releases r !! closure); [discriminate|done].
    + destruct (sweep_step now r Hok) as (r' & -> & _ & _ & Hf & _). cbn. destruct (Hf d s) as [Heq|[Hexp _]]; [|by right; exists now].
      left. unfold session_at. by rewrite Heq.
    + left. destruct (subscribe_quiet driveId listener r) as (H1 & H2 & _). by rewrite (view_same_sessions r).
    + left. destruct (unsubscribe_quiet driveId listener ref r) as (H1 & H2 & _). by rewrite (view_same_sessions r).
Qed.

(** *** Listeners *)

Record listeners_ok (r : Registry) : Prop := {
  lo_refs : forall d ref, jm_get d r.(pr_listeners) = Some ref -> (ref < r.(pr_next))%nat /\ is_Some (r.(pr_sets) !! ref);
  lo_sets : forall ref set, r.(pr_sets) !! ref = Some set -> NoDup set
}.

Lemma listeners_ok_same r r' : r'.(pr_sets) = r.(pr_sets) -> r'.(pr_listeners) = r.(pr_listeners) ->
  (r.(pr_next) <= r'.(pr_next))%nat -> listeners_ok r -> listeners_ok r'.
Proof.
  intros H1 H2 H3 [Hr Hs]. split; rewrite ?H1, ?H2; [|done]. intros d ref H. destruct (Hr d ref H). split; [lia|done].
Qed.

Lemma entries_listeners d : preserves listeners_ok (modify (entries d) : M error Registry unit).
Proof. apply preserves_modify. intros r. destruct (entries_same d r) as (_ & H1 & H2 & _ & H3 & _). apply listeners_ok_same; [done..|lia]. Qed.

Lemma set_entry_listeners ref e : preserves listeners_ok (modify (set_entry ref e) : M error Registry unit).
Proof. apply preserves_modify. intros r. by apply listeners_ok_same. Qed.

Lemma publish_listeners ev : preserves listeners_ok (modify (publish ev) : M error Registry unit).
Proof. apply preserves_modify. intros r. by apply listeners_ok_same. Qed.

Lemma drop_entry_listeners d s : preserves listeners_ok (modify (drop_entry d s) : M error Registry unit).
Proof. apply preserves_modify. intros r. destruct (drop_same d s r) as (_ & H1 & H2 & _ & H3 & _). apply listeners_ok_same; [done..|lia]. Qed.

Lemma new_release_listeners c : preserves listeners_ok (modify (new_release c) : M error Registry unit).
Proof. apply preserves_modify. intros r. apply listeners_ok_same; [done..|cbn; lia]. Qed.

Lemma found_or_new_listeners now d s u found : preserves listeners_ok (found_or_new now d s u found).
Proof. intros r Hr. destruct found; [done|]. revert Hr. apply listeners_ok_same; [done..|cbn; lia]. Qed.

Hint Resolve entries_listeners set_entry_listeners publish_listeners drop_entry_listeners new_release_listeners
  found_or_new_listeners : preserve.

Lemma remove_listeners now d s u : preserves listeners_ok (remove now d s u).
Proof. unfold remove. preserve. Qed.

Lemma sweep_listeners now : preserves listeners_ok (sweep now).
Proof.
  intros r Hr. unfold sweep. revert r Hr. intros r Hr. generalize (all_entries r). intros l.
  apply (preserves_for_each listeners_ok); [|done]. intros x _ r0 Hr0. unfold sweep_entry. destruct (pr_entries r0 !! x.2.2); [|done].
  destruct (_ && _); [by apply remove_listeners|done].
Qed.

Lemma step_listeners op r : listeners_ok r -> listeners_ok (presence_step op r).
Proof.
  intros Hr. destruct op; cbn [presence_step].
  - revert r Hr. change (preserves listeners_ok (upsert getDisplayName now driveId sessionId userId email state)). unfold upsert. preserve.
  - by apply remove_listeners.
  - revert r Hr. change (preserves listeners_ok (bind now driveId sessionId userId)). unfold bind. preserve.
  - unfold release. destruct (pr_releases r !! closure) as [c|]; [|done]. destruct (rl_released c); [done|].
    cbn [pr_entries update]. destruct (pr_entries _ !! rl_entry c) as [e|]; [|by apply (listeners_ok_same r)].
    case_bool_decide; [apply remove_listeners|]; by apply (listeners_ok_same r).
  - by apply sweep_listeners.
  - destruct Hr as [Hr Hs]. unfold subscribe. destruct (jm_get driveId (pr_listeners r)) as [ref|] eqn:E; split; cbn.
    + intros d ref' H. destruct (Hr d ref' H) as [H1 H2]. split; [done|]. destruct (decide (ref' = ref)) as [->|Hne];
        [rewrite lookup_insert_eq|rewrite lookup_insert_ne by done]; eauto.
    + intros ref' set [[<- <-]|[_ H]]%lookup_insert_Some; [|by eapply Hs]. apply NoDup_js_add.
      destruct (pr_sets r !! ref) as [l|] eqn:El; [by eapply Hs|constructor].
    + intros d ref'. rewrite jm_get_set. case_decide as Hd; [intros [= <-]|intros H].
      * rewrite lookup_insert_eq. split; [lia|by eexists].
      * destruct (Hr d ref' H) as [H1 H2]. rewrite lookup_insert_ne by lia. split; [lia|done].
    + intros ref' set [[<- <-]|[_ H]]%lookup_insert_Some; [apply NoDup_singleton|by eapply Hs].
  - destruct Hr as [Hr Hs]. set (set' := js_remove listener (r.(pr_sets) !! ref ?? [])).
    assert (H1 : listeners_ok (r <| pr_sets ::= <[ref := set']> |>)).
    { split; cbn.
      - intros d ref' H. destruct (Hr d ref' H) as [H1 H2]. split; [done|]. destruct (decide (ref' = ref)) as [->|Hne];
          [rewrite lookup_insert_eq|rewrite lookup_insert_ne by done]; eauto.
      - intros ref' set [[<- <-]|[_ H]]%lookup_insert_Some; [|by eapply Hs]. apply NoDup_js_remove.
        destruct (pr_sets r !! ref) as [l|] eqn:El; [by eapply Hs|constructor]. }
    unfold unsubscribe. fold set'. destruct (_ && _); [|done]. destruct H1 as [H1 H2]. split; [|done]. cbn. intros d ref'.
    rewrite jm_get_delete. case_decide; [done|]. apply H1.
Qed.

(** The closure of [subscribe], called for another listener or not at all, leaves a
    subscription alone. *)
Definition keeps_listener (l : nat) (op : presence_op) : Prop :=
  match op with PoUnsubscribe _ l' _ => l' <> l | _ => True end.

Lemma step_keeps_listener op r d l : registry_ok r -> listeners_ok r -> keeps_listener l op ->
  l ∈ listeners_of d r -> l ∈ listeners_of d (presence_step op r).
Proof.
  intros Hok Hlo Hkeep Hl. destruct (op_call op r) as [[[d' s'] u]|] eqn:E.
  { destruct (cp_announced _ _ _ _ _ (op_call_post op r d' s' u Hok E)) as [evs Ha]. by rewrite (an_listeners _ _ _ Ha). }
  destruct op; cbn in E, Hkeep |- *; try discriminate.
  - unfold release. destruct (pr_releases r !! closure); [discriminate|done].
  - destruct (sweep_step now r Hok) as (r' & -> & _ & [evs Ha] & _). cbn. by rewrite (an_listeners _ _ _ Ha).
  - revert Hl. unfold listeners_of, subscribe. destruct (jm_get d (pr_listeners r)) as [ref|] eqn:Ed; [|by intros ?%elem_of_nil]. cbn.
    destruct (lo_refs r Hlo d ref Ed) as [Hlt [set Hset]]. rewrite Hset. cbn. intros Hin.
    destruct (jm_get driveId (pr_listeners r)) as [ref'|] eqn:E'; cbn.
    + rewrite Ed. cbn. destruct (decide (ref' = ref)) as [->|Hne].
      * rewrite lookup_insert_eq, Hset. cbn. apply elem_of_js_add. by right.
      * rewrite lookup_insert_ne by done. by rewrite Hset.
    + rewrite jm_get_set, decide_False by (intros ->; congruence). rewrite Ed. cbn. rewrite lookup_insert_ne by lia. by rewrite Hset.
  - revert Hl. unfold listeners_of, unsubscribe. destruct (jm_get d (pr_listeners r)) as [ref'|] eqn:Ed; [|by intros ?%elem_of_nil]. cbn.
    destruct (lo_refs r Hlo d ref' Ed) as [_ [set Hset]]. rewrite Hset. cbn. intros Hin.
    assert (Hsets : l ∈ (<[ref := js_remove listener (r.(pr_sets) !! ref ?? [])]> r.(pr_sets) !! ref' ?? [])).
    { destruct (decide (ref = ref')) as [->|Hne]; [|by rewrite lookup_insert_ne, Hset].
      rewrite lookup_insert_eq, Hset. cbn. by apply elem_of_js_remove. }
    destruct (bool_decide (js_remove _ _ = [])) eqn:Eset; cbn [andb]; [|cbn; rewrite Ed; exact Hsets].
    destruct (bool_decide (jm_get driveId (pr_listeners r) = Some ref)) eqn:Hd; [|cbn; rewrite Ed; exact Hsets].
    apply bool_decide_eq_true in Hd. cbn. rewrite jm_get_delete. case_decide as Hdd.
    + subst driveId. assert (ref = ref') as -> by congruence. apply bool_decide_eq_true in Eset. rewrite lookup_insert_eq, Eset in Hsets. by apply elem_of_nil in Hsets.
    + rewrite Ed. exact Hsets.
Qed.

(** *** Replaying the events *)

(** What a client holds: sessions by id, from a snapshot. *)
Definition shown (sessions : list PresenceSession) : gmap string PresenceSession :=
  list_to_map ((fun x => (x.(se_sessionId), x)) <$> sessions).

(** What it does with an event. *)
Definition apply_event (m : gmap string PresenceSession) (ev : PresenceEvent) : gmap string PresenceSession :=
  match ev with
  | PresenceUpdated _ x _ => <[x.(se_sessionId) := x]> m
  | PresenceLeft _ s _ _ => delete s m
  end.

(** The events a listener was given for a drive. *)
Definition received (l : nat) (d : string) (sent : list (nat * PresenceEvent)) : list PresenceEvent :=
  omap (fun x => if bool_decide (x.1 = l /\ presence_drive x.2 = d) then Some x.2 else None) sent.

Lemma elem_of_snapshot d r x : registry_ok r ->
  x ∈ snapshot d r <-> session_at d x.(se_sessionId) r = Some x.
Proof.
  intros Hok. unfold snapshot. rewrite list_elem_of_omap. split.
  - intros ([s ref] & Hin & Hx). apply (jm_get_elem _ _ _ (ok_inner r Hok d)) in Hin. cbn in Hx.
    destruct (ok_refs r Hok d s ref Hin) as (e & He & Hn). rewrite He in Hx. cbn in Hx. destruct (Hn x Hx) as (-> & _).
    by rewrite (session_at_cell _ _ _ _ _ Hin He).
  - intros H. unfold session_at in H. destruct (entry_of d _ r) as [[ref e]|] eqn:E; [|done]. cbn in H.
    apply entry_of_some in E as [Href He]. exists (x.(se_sessionId), ref). split; [by apply (jm_get_elem _ _ _ (ok_inner r Hok d))|].
    cbn. by rewrite He.
Qed.

Lemma snapshot_ids d r : registry_ok r -> NoDup (se_sessionId <$> snapshot d r).
Proof.
  intros Hok. pose proof (ok_inner r Hok d) as Hw. unfold snapshot.
  assert (Hin : forall s ref, (s, ref) ∈ drive_entries d r -> entry_ref d s r = Some ref) by (intros s ref H; by apply (jm_get_elem _ _ _ Hw)).
  assert (Hid : forall s ref x, (s, ref) ∈ drive_entries d r -> r.(pr_entries) !! ref ≫= pe_session = Some x -> x.(se_sessionId) = s).
  { intros s ref x H Hx. destruct (ok_refs r Hok d s ref (Hin s ref H)) as (e & He & Hn). rewrite He in Hx. cbn in Hx. by apply Hn. }
  clear Hin Hok. revert Hw Hid. generalize (drive_entries d r). intros es Hw Hid. induction es as [|[s ref] es IH]; [constructor|].
  apply NoDup_cons in Hw as [Hs Hw]. specialize (IH Hw ltac:(intros s' ref' x H; apply (Hid s' ref'); by right)). cbn.
  destruct (r.(pr_entries) !! ref ≫= pe_session) as [x|] eqn:Ex; [|done]. cbn. constructor; [|done].
  rewrite (Hid s ref x ltac:(by left) Ex). intros (y & Hy & ([s' ref'] & Hy' & Hin)%list_elem_of_omap)%list_elem_of_fmap.
  apply Hs, list_elem_of_fmap. exists (s', ref'). split; [|done]. cbn. rewrite Hy. apply (Hid s' ref' y); [by right|done].
Qed.

Lemma shown_at d r s : registry_ok r -> shown (snapshot d r) !! s = session_at d s r.
Proof.
  intros Hok. unfold shown. apply option_eq. intros x. rewrite <- elem_of_list_to_map.
  - rewrite list_elem_of_fmap. split.
    + intros (y & [= -> ->] & Hy). by apply elem_of_snapshot.
    + intros H. assert (Hid : x.(se_sessionId) = s).
      { unfold session_at in H. destruct (entry_of d s r) as [[ref e]|] eqn:E; [|done]. cbn in H.
        apply entry_of_some in E as [Href He]. destruct (ok_refs r Hok d s ref Href) as (e' & He' & Hn). rewrite He in He'.
        injection He' as <-. by apply Hn. }
      exists x. split; [congruence|]. apply elem_of_snapshot; [done|congruence].
  - rewrite <- list_fmap_compose. by apply snapshot_ids.
Qed.

Lemma replay_at d evs m s : (forall ev, ev ∈ evs -> presence_drive ev = d) ->
  foldl apply_event m evs !! s = foldl (apply_at d s) (m !! s) evs.
Proof.
  revert m. induction evs as [|ev evs IH]; intros m Hd; [done|]. cbn [foldl]. rewrite IH by (intros e He; apply Hd; by right). f_equal.
  specialize (Hd ev ltac:(by left)). destruct ev as [d' x a|d' s' u a]; cbn in Hd |- *; subst d'.
  - case_bool_decide as Hc; [destruct Hc as [_ <-]; by rewrite lookup_insert_eq|]. rewrite lookup_insert_ne; [done|]. intros Heq. by apply Hc.
  - case_bool_decide as Hc; [destruct Hc as [_ <-]; by rewrite lookup_delete_eq|]. rewrite lookup_delete_ne; [done|]. intros Heq. by apply Hc.
Qed.

(** Events of other drives are nothing to a drive. *)
Lemma foldl_other_drives d s o evs :
  foldl (apply_at d s) o evs = foldl (apply_at d s) o (filter (fun ev => presence_drive ev = d) evs).
Proof.
  revert o. induction evs as [|ev evs IH]; intros o; [done|]. rewrite filter_cons. cbn [foldl]. case_decide as Hd; [cbn [foldl]; apply IH|].
  rewrite <- IH. f_equal. destruct ev; cbn in Hd |- *; rewrite bool_decide_false; naive_solver.
Qed.

Lemma received_app l d a b : received l d (a ++ b) = received l d a ++ received l d b.
Proof. apply omap_app. Qed.

(** A listener that is subscribed gets each event of its drive once. *)
Lemma received_announced l d (listeners : string -> list nat) evs :
  NoDup (listeners d) -> l ∈ listeners d ->
  received l d (evs ≫= fun ev => (fun l => (l, ev)) <$> listeners (presence_drive ev)) = filter (fun ev => presence_drive ev = d) evs.
Proof.
  intros Hnd Hl. induction evs as [|ev evs IH]; [done|]. cbn [mbind list_bind]. rewrite received_app.
  rewrite IH, filter_cons. case_decide as Hd.
  - change (ev :: filter (fun ev => presence_drive ev = d) evs) with ([ev] ++ filter (fun ev => presence_drive ev = d) evs). f_equal.
    rewrite Hd. revert Hnd Hl. generalize (listeners d). intros ls. induction ls as [|x ls IHl]; [by intros _ ?%elem_of_nil|].
    intros [Hx Hnd]%NoDup_cons Hin. cbn. case_bool_decide as Hc.
    + destruct Hc as [-> _]. f_equal. clear -Hx Hd. induction ls as [|y ls IHy]; [done|]. cbn.
      rewrite bool_decide_false by (intros [-> _]; apply Hx; by left). apply IHy. intros H. apply Hx. by right.
    + apply IHl; [done|]. apply elem_of_cons in Hin as [->|?]; [|done]. by destruct Hc.
  - change (filter (fun ev => presence_drive ev = d) evs) with ([] ++ filter (fun ev => presence_drive ev = d) evs) at 2. f_equal.
    generalize (listeners (presence_drive ev)). intros ls. induction ls as [|y ls IHy]; [done|]. cbn. rewrite bool_decide_false by naive_solver. done.
Qed.

(** One step, as the listener and the snapshot see it. *)
Lemma step_replayed op r d l : registry_ok r -> listeners_ok r -> l ∈ listeners_of d r ->
  exists more, (presence_step op r).(pr_sent) = r.(pr_sent) ++ more /\
    forall s, session_at d s (presence_step op r) = foldl (apply_at d s) (session_at d s r) (received l d more).
Proof.
  intros Hok Hlo Hl. assert (Hnd : NoDup (listeners_of d r)).
  { unfold listeners_of. destruct (jm_get d (pr_listeners r)) as [ref|]; [|constructor]. cbn.
    destruct (pr_sets r !! ref) eqn:Es; [|constructor]. by eapply (lo_sets r Hlo). }
  assert (Hann : (exists evs, announces evs r (presence_step op r)) ->
    exists more, (presence_step op r).(pr_sent) = r.(pr_sent) ++ more /\
      forall s, session_at d s (presence_step op r) = foldl (apply_at d s) (session_at d s r) (received l d more)).
  { intros [evs [_ Hsent Hsess]]. eexists. split; [exact Hsent|]. intros s. rewrite Hsess, foldl_other_drives. f_equal. symmetry.
    by apply (received_announced l d (fun d => listeners_of d r)). }
  assert (Hquiet : (presence_step op r).(pr_sent) = r.(pr_sent) -> (forall s, session_at d s (presence_step op r) = session_at d s r) ->
    exists more, (presence_step op r).(pr_sent) = r.(pr_sent) ++ more /\
      forall s, session_at d s (presence_step op r) = foldl (apply_at d s) (session_at d s r) (received l d more)).
  { intros H1 H2. exists []. by rewrite app_nil_r. }
  destruct (op_call op r) as [[[d' s'] u]|] eqn:E; [apply Hann, (op_call_post op r d' s' u Hok E)|].
  destruct op; cbn in E; try discriminate.
  - apply Hquiet; cbn; unfold release; destruct (pr_releases r !! closure); (discriminate || done).
  - apply Hann. cbn. destruct (sweep_step now r Hok) as (r' & -> & _ & Ha & _). done.
  - destruct (subscribe_quiet driveId listener r) as (H1 & H2 & _). apply Hquiet; [|intros s; by apply view_same_sessions].
    cbn. unfold subscribe. by destruct (jm_get driveId (pr_listeners r)).
  - destruct (unsubscribe_quiet driveId listener ref r) as (H1 & H2 & _). apply Hquiet; [|intros s; by apply view_same_sessions].
    cbn. unfold unsubscribe. by destruct (_ && _).
Qed.

Lemma run_replayed ops r d l : registry_ok r -> listeners_ok r -> l ∈ listeners_of d r -> Forall (keeps_listener l) ops ->
  exists more, (presence_run ops r).(pr_sent) = r.(pr_sent) ++ more /\
    forall s, session_at d s (presence_run ops r) = foldl (apply_at d s) (session_at d s r) (received l d more).
Proof.
  intros Hok Hlo Hl Hkeep. revert r Hok Hlo Hl. induction ops as [|op ops IH]; intros r Hok Hlo Hl.
  { exists []. by rewrite app_nil_r. }
  apply Forall_cons in Hkeep as [Hk Hkeep]. destruct (step_replayed op r d l Hok Hlo Hl) as (m1 & Hs1 & Hx1).
  destruct (IH Hkeep (presence_step op r) (step_ok op r Hok) (step_listeners op r Hlo) (step_keeps_listener op r d l Hok Hlo Hk Hl)) as (m2 & Hs2 & Hx2).
  exists (m1 ++ m2). change (presence_run (op :: ops) r) with (presence_run ops (presence_step op r)).
  split; [by rewrite Hs2, Hs1, app_assoc|]. intros s. by rewrite Hx2, Hx1, received_app, foldl_app.
Qed.

Lemma after_listeners ops : listeners_ok (presence_after ops).
Proof.
  assert (H : forall r, listeners_ok r -> listeners_ok (presence_run ops r)).
  { induction ops as [|op ops IH]; intros r Hr; [done|]. cbn. by apply IH, step_listeners. }
  apply H. split; [by intros d ref [=]|by intros ref set [=]].
Qed.

(** C31: A client never loses track of who is present.  Take any registry after any
    history, a listener subscribed to a drive, and the snapshot the client took
    then: whatever calls and sweeps follow, the client that applies the events its
    listener was given since, in order, holds exactly the sessions a fresh
    snapshot would give it. *)
Theorem snapshot_replay before ops d l :
  let r := presence_after before in
  l ∈ listeners_of d r -> Forall (keeps_listener l) ops ->
  shown (snapshot d (presence_run ops r)) =
  foldl apply_event (shown (snapshot d r)) (received l d (drop (length r.(pr_sent)) (presence_run ops r).(pr_sent))).
Proof.
  intros r Hl Hkeep. pose proof (after_ok before) as Hok. pose proof (after_listeners before) as Hlo. fold r in Hok, Hlo.
  destruct (run_replayed ops r d l Hok Hlo Hl Hkeep) as (more & Hsent & Hsess). rewrite Hsent, drop_app_length. apply map_eq. intros s.
  rewrite (replay_at d), !shown_at; [apply Hsess|done|by apply run_ok|].
  intros ev (x & _ & Hx)%list_elem_of_omap. by case_bool_decide as Hc; [injection Hx as <-; destruct Hc|].
Qed.

(** *** Sessions that stop *)

(** Nothing that would keep the key alive. *)
Definition leaves_alone (d s : string) (op : presence_op) : Prop :=
  match op with
  | PoUpsert _ d' s' _ _ _ | PoBind _ d' s' _ => ~ (d' = d /\ s' = s)
  | _ => True
  end.

(** Gone, or still the unbound entry last refreshed at [t]. *)
Definition idle_since (t : Z) (d s : string) (r : Registry) : Prop :=
  session_at d s r = None \/
  exists ref e, entry_of d s r = Some (ref, e) /\ e.(pe_bindings) = 0 /\ e.(pe_lastSeen) = t.

Lemma idle_step t d s op r : registry_ok r -> leaves_alone d s op -> idle_since t d s r ->
  idle_since t d s (presence_step op r) /\
  (forall now, op = PoSweep now -> t < now - SESSION_TTL_MS -> session_at d s (presence_step op r) = None) /\
  (session_at d s r = None -> session_at d s (presence_step op r) = None).
Proof.
  intros Hok Hop Hidle.
  assert (Hsame : (entry_of d s (presence_step op r) = entry_of d s r) -> (forall now, op <> PoSweep now) ->
    idle_since t d s (presence_step op r) /\
    (forall now, op = PoSweep now -> t < now - SESSION_TTL_MS -> session_at d s (presence_step op r) = None) /\
    (session_at d s r = None -> session_at d s (presence_step op r) = None)).
  { intros He Hns. unfold idle_since, session_at in *. rewrite He. split_and!; [done|intros now Heq; by destruct (Hns now)|done]. }
  destruct op.
  - apply Hsame; [|done]. apply (cp_frame _ _ _ _ _ (op_call_post (PoUpsert now driveId sessionId userId email state) r _ _ _ Hok eq_refl)).
    cbn in Hop. naive_solver.
  - destruct (decide (d = driveId /\ s = sessionId)) as [[-> ->]|Hne].
    2: { apply Hsame; [|done]. by apply (cp_frame _ _ _ _ _ (op_call_post (PoRemove now driveId sessionId userId) r _ _ _ Hok eq_refl)). }
    cbn. destruct (remove now driveId sessionId userId r) as [o r'] eqn:Er.
    destruct (remove_step now driveId sessionId userId r o r' Hok Er) as (_ & Hgone & _ & Hkept). destruct o as [[]|er]; cbn.
    + specialize (Hgone eq_refl). split_and!; [by left|done|done].
    + rewrite (Hkept er eq_refl). by split_and!.
  - apply Hsame; [|done]. apply (cp_frame _ _ _ _ _ (op_call_post (PoBind now driveId sessionId userId) r _ _ _ Hok eq_refl)).
    cbn in Hop. naive_solver.
  - destruct (pr_releases r !! closure) as [c|] eqn:Ec; [|apply Hsame; [cbn; unfold release; by rewrite Ec|done]].
    destruct (release_step now closure c r _ _ Hok Ec (surjective_pairing _)) as (Hp & Hdone & Hstill).
    destruct (decide (d = rl_driveId c /\ s = rl_sessionId c)) as [[-> ->]|Hne]; [|apply Hsame; [by apply (cp_frame _ _ _ _ _ Hp)|done]].
    destruct (rl_released c) eqn:Erl; [apply Hsame; [cbn; by rewrite Hdone|done]|].
    destruct (ok_bound r Hok closure c Ec Erl) as (Href & e & He & Hu).
    pose proof (ok_count r Hok _ _ _ _ Href He) as Hcount. pose proof (open_binding_counted closure c _ Ec Erl) as Hpos.
    assert (Hent : entry_of (rl_driveId c) (rl_sessionId c) r = Some (rl_entry c, e)) by (by apply entry_of_some).
    destruct Hidle as [Hnone|(ref & e' & He' & Hb & _)]; [|rewrite Hent in He'; injection He' as <- <-; lia].
    assert (Hgone : session_at (rl_driveId c) (rl_sessionId c) (presence_step (PoRelease now closure) r) = None).
    { by apply Hstill. }
    split_and!; [by left|done|done].
  - destruct (sweep_step now r Hok) as (r' & Hrun & _ & _ & Hf & Hexp). cbn. rewrite Hrun. cbn. split_and!.
    + destruct (Hf d s) as [Heq|[_ Hn]]; [|by left]. unfold idle_since, session_at in *. by rewrite Heq.
    + intros now' [= <-] Hlt. destruct Hidle as [Hnone|(ref & e & He & Hb & Ht)].
      * destruct (Hf d s) as [Heq|[_ Hn]]; [|done]. unfold session_at in *. by rewrite Heq.
      * destruct (pe_session e) as [x|] eqn:Ex.
        -- apply Hexp. exists ref, e. split; [done|]. split; [by rewrite Ex; eexists|]. split; [done|lia].
        -- destruct (Hf d s) as [Heq|[_ Hn]]; [|done]. unfold session_at. by rewrite Heq, He.
    + intros Hnone. destruct (Hf d s) as [Heq|[_ Hn]]; [|done]. unfold session_at in *. by rewrite Heq.
  - apply Hsame; [|done]. destruct (subscribe_quiet driveId listener r) as (H1 & H2 & H3 & H4). by apply (quiet_ok r).
  - apply Hsame; [|done]. destruct (unsubscribe_quiet driveId listener ref r) as (H1 & H2 & H3 & H4). by apply (quiet_ok r).
Qed.

Lemma idle_run t d s ops r : registry_ok r -> Forall (leaves_alone d s) ops -> idle_since t d s r ->
  idle_since t d s (presence_run ops r) /\ (session_at d s r = None -> session_at d s (presence_run ops r) = None).
Proof.
  revert r. induction ops as [|op ops IH]; intros r Hok Hops Hidle; [done|]. apply Forall_cons in Hops as [Hop Hops].
  destruct (idle_step t d s op r Hok Hop Hidle) as (Hidle' & _ & Hnone). destruct (IH _ (step_ok op r Hok) Hops Hidle') as [H1 H2].
  split; [exact H1|]. intros Hn. apply H2. by apply Hnone.
Qed.

(** C32: A dead session leaves.  A session that no stream holds, last refreshed at
    [t]: in any continuation in which nobody refreshes or binds it again, once the
    sweep has run at a time more than 45 seconds after [t] it is in no snapshot
    any more, whatever else is called before and after, and a subscribed client
    that replays its events has dropped it too. *)
Theorem stale_session_leaves before ops1 now ops2 d s t l :
  let r := presence_after before in
  let final := presence_run (ops1 ++ PoSweep now :: ops2) r in
  idle_since t d s r -> Forall (leaves_alone d s) (ops1 ++ ops2) -> t + SESSION_TTL_MS < now ->
  (forall x, x ∈ snapshot d final -> x.(se_sessionId) <> s) /\
  (l ∈ listeners_of d r -> Forall (keeps_listener l) (ops1 ++ ops2) ->
   foldl apply_event (shown (snapshot d r)) (received l d (drop (length r.(pr_sent)) final.(pr_sent))) !! s = None).
Proof.
  intros r final Hidle Hops Hnow. pose proof (after_ok before) as Hok. pose proof (after_listeners before) as Hlo. fold r in Hok, Hlo.
  apply Forall_app in Hops as [Hops1 Hops2]. set (r1 := presence_run ops1 r).
  assert (Hok1 : registry_ok r1) by (by apply run_ok). destruct (idle_run t d s ops1 r Hok Hops1 Hidle) as [Hidle1 _].
  destruct (idle_step t d s (PoSweep now) r1 Hok1 I Hidle1) as (Hidle2 & Hgone & _). specialize (Hgone now eq_refl ltac:(lia)).
  assert (Hfinal : final = presence_run ops2 (presence_step (PoSweep now) r1)) by (unfold final, r1, presence_run; by rewrite foldl_app).
  assert (Hnone : session_at d s final = None).
  { rewrite Hfinal. apply (idle_run t d s ops2 _ (step_ok (PoSweep now) r1 Hok1) Hops2 Hidle2), Hgone. }
  assert (Hokf : registry_ok final) by (by apply run_ok). split.
  - intros x Hx <-. apply elem_of_snapshot in Hx; [congruence|done].
  - intros Hl Hkeep. assert (Hk : Forall (keeps_listener l) (ops1 ++ PoSweep now :: ops2)).
    { apply Forall_app in Hkeep as [Hk1 Hk2]. apply Forall_app. split; [done|]. by constructor. }
    destruct (run_replayed (ops1 ++ PoSweep now :: ops2) r d l Hok Hlo Hl Hk) as (more & Hsent & Hsess).
    fold final in Hsent, Hsess. rewrite Hsent, drop_app_length, (replay_at d), shown_at; [by rewrite <- Hsess|done|].
    intros ev (x & _ & Hx)%list_elem_of_omap. by case_bool_decide as Hc; [injection Hx as <-; destruct Hc|].
Qed.
End Runs.

(** ** Witnesses: two people on a drive, one of whom closes the lid *)

Definition viewing (path : string) : PresenceState :=
  {| ps_path := Some path; ps_mode := ViewMode; ps_selection := None; ps_pointer := None; ps_commentId := None; ps_commentState := None |}.

Definition nameless (userId : string) : option string := None.

Definition two_present : list presence_op :=
  [PoUpsert 1000 "d1" "tab-ann-1" "ann" "ann@x" (viewing "/a.md"); PoSubscribe "d1" 7;
   PoBind 1500 "d1" "tab-bob-1" "bob"; PoUpsert 2000 "d1" "tab-bob-1" "bob" "bob@x" (viewing "/b.md")].

Definition after_lid : list presence_op :=
  [PoUpsert 40000 "d1" "tab-bob-1" "bob" "bob@x" (viewing "/c.md"); PoRemove 41000 "d1" "tab-ann-1" "bob"].

Lemma snapshot_replay_witness :
  let r := presence_after nameless two_present in
  let final := presence_run nameless after_lid r in
  shown (snapshot "d1" final) =
    foldl apply_event (shown (snapshot "d1" r)) (received 7 "d1" (drop (length r.(pr_sent)) final.(pr_sent))) /\
  se_sessionId <$> snapshot "d1" final = ["tab-ann-1"; "tab-bob-1"].
Proof.
  split; [|vm_compute; reflexivity]. apply (snapshot_replay nameless two_present after_lid "d1" 7); [|by repeat constructor].
  vm_compute. left.
Defined.

(** Ann's tab last called at 1000: the sweep of 46001 drops it and keeps Bob's, whose stream is open. *)
Lemma stale_session_leaves_witness :
  let r := presence_after nameless two_present in
  let final := presence_run nameless (after_lid ++ [PoSweep 46001]) r in
  (forall x, x ∈ snapshot "d1" final -> x.(se_sessionId) <> "tab-ann-1") /\
  se_sessionId <$> snapshot "d1" final = ["tab-bob-1"].
Proof.
  split; [|vm_compute; reflexivity].
  apply (stale_session_leaves nameless two_present after_lid 46001 [] "d1" "tab-ann-1" 1000 7); [| |vm_compute; reflexivity].
  - right. eexists _, _. split; [vm_compute; reflexivity|]. by split.
  - repeat constructor; by intros [_ [=]].
Defined.

Definition ann_shown : PresenceSession :=
  {| se_state := viewing "/a.md"; se_sessionId := "tab-ann-1"; se_userId := "ann"; se_email := "ann@x"; se_displayName := None;
     se_updatedAt := toISOString 1000 |}.

Lemma presence_ownership_witness :
  session_at "d1" "tab-ann-1" (presence_step nameless (PoRemove 41000 "d1" "tab-ann-1" "bob") (presence_after nameless two_present))
    = Some ann_shown \/
  exists now, PoRemove 41000 "d1" "tab-ann-1" "bob" = PoSweep now /\ expired now "d1" "tab-ann-1" (presence_after nameless two_present).
Proof.
  apply (presence_ownership nameless two_present (PoRemove 41000 "d1" "tab-ann-1" "bob")); [vm_compute; reflexivity|].
  intros d' s' u [= <- <- <-]. left. by cbn.
Defined.
