(* ===== verification/Comments.v ===== *)
(** * Comments: core/src/ops/comment.ts

    Threads of one level on files: a root comment and its replies.  Each op that
    writes has one transaction (here a [*_tx] of its own), which also writes the
    op's events, its notifications and its webhook deliveries; after the commit
    it publishes on the bus and wakes the webhook worker.  A random id drawn by
    an op is a field of [CommentDraws]; [now] is the clock, read once. *)

From S2P Require Import Prelude JsString Errors Paths Schema Rbac Storage GlobCache Text Utf16 World Outbox Versioning Mentions.

Record CommentDraws : Type := {
  cd_id : string;
  cd_mentions : nat -> string;
  cd_event : string;
  cd_notices : nat -> string;
  cd_deliveries : nat -> string
}.

(** ** Parameters and results (ops/types.ts) *)

Record CommentQuote : Type := { q_exact : string; q_prefix : option string; q_suffix : option string }.

Record CommentAddParams : Type := {
  ca_path : option string;
  ca_body : string;
  ca_parentId : option string;
  ca_mentions : option (list string);
  ca_lineStart : option Z;
  ca_lineEnd : option Z;
  ca_quotedContent : option string;
  ca_quote : option CommentQuote
}.

Record CommentAddResult : Type := {
  cr_id : string;
  cr_path : string;
  cr_body : string;
  cr_parentId : option string;
  cr_lineStart : option Z;
  cr_lineEnd : option Z;
  cr_quote : option CommentQuote;
  cr_author : string;
  cr_authorDisplayName : option string;
  cr_createdAt : Z
}.

Record CommentListParams : Type := {
  cl_path : option string;
  cl_pathPrefix : option string;
  cl_parentId : option string;
  cl_resolved : option bool;
  cl_orgId : option string;
  cl_limit : option nat;
  cl_offset : option nat
}.

Record CommentEntry : Type := {
  ce_id : string;
  ce_parentId : option string;
  ce_path : string;
  ce_lineStart : option Z;
  ce_lineEnd : option Z;
  ce_quotedContent : option string;
  ce_quote : option CommentQuote;
  ce_body : string;
  ce_author : string;
  ce_authorDisplayName : option string;
  ce_mentions : option (list Mention);
  ce_resolved : bool;
  ce_resolvedBy : option string;
  ce_resolvedAt : option Z;
  ce_fileVersionId : option Z;
  ce_fileVersion : option Z;
  ce_replyCount : nat;
  ce_createdAt : Z;
  ce_updatedAt : Z
}.

#[export] Instance CommentEntry_eta : Eta CommentEntry := fun e => Build_CommentEntry e.(ce_id) e.(ce_parentId)
  e.(ce_path) e.(ce_lineStart) e.(ce_lineEnd) e.(ce_quotedContent) e.(ce_quote) e.(ce_body) e.(ce_author)
  e.(ce_authorDisplayName) e.(ce_mentions) e.(ce_resolved) e.(ce_resolvedBy) e.(ce_resolvedAt)
  e.(ce_fileVersionId) e.(ce_fileVersion) e.(ce_replyCount) e.(ce_createdAt) e.(ce_updatedAt).

(** ** Helpers *)

Definition in_drive (ctx : OpContext) (c : Comment_) : Prop :=
  c.(com_orgId) = ctx.(op_orgId) /\ c.(com_driveId) = ctx.(op_driveId).
#[export] Instance in_drive_dec ctx c : Decision (in_drive ctx c).
Proof. unfold in_drive. apply _. Defined.

(** A comment of the active org and drive, by id. *)
Definition scoped (ctx : OpContext) (id : string) (c : Comment_) : Prop := c.(com_id) = id /\ in_drive ctx c.
#[export] Instance scoped_dec ctx id c : Decision (scoped ctx id c).
Proof. unfold scoped. apply _. Defined.

(** A live reply of the active org and drive. *)
Definition live_reply (ctx : OpContext) (parentId : string) (c : Comment_) : Prop :=
  c.(com_parentId) = Some parentId /\ in_drive ctx c /\ c.(com_isDeleted) = false.
#[export] Instance live_reply_dec ctx p c : Decision (live_reply ctx p c).
Proof. unfold live_reply. apply _. Defined.

Definition getScopedComment (db : Db) (ctx : OpContext) (id : string) : option Comment_ :=
  get_row (fun c => scoped ctx id c /\ c.(com_isDeleted) = false) db.(comments).

Definition QUOTE_EXACT_MAX : nat := 4000.
Definition QUOTE_CONTEXT_MAX : nat := 64.

Definition normalizeQuote (quote : option CommentQuote) : option CommentQuote :=
  q ← quote;
  exact ← truthy (Some q.(q_exact));
  Some {| q_exact := slice_first QUOTE_EXACT_MAX exact;
          q_prefix := slice_last QUOTE_CONTEXT_MAX <$> truthy q.(q_prefix);
          q_suffix := slice_first QUOTE_CONTEXT_MAX <$> truthy q.(q_suffix) |}.

Definition toCommentEntry (row : Comment_) (replyCount : nat) : CommentEntry := {|
  ce_id := row.(com_id);
  ce_parentId := row.(com_parentId);
  ce_path := row.(com_path);
  ce_lineStart := row.(com_lineStart);
  ce_lineEnd := row.(com_lineEnd);
  ce_quotedContent := row.(com_quotedContent);
  ce_quote := (fun exact => {| q_exact := exact; q_prefix := row.(com_quotePrefix); q_suffix := row.(com_quoteSuffix) |})
              <$> truthy row.(com_quoteExact);
  ce_body := row.(com_body);
  ce_author := row.(com_author);
  ce_authorDisplayName := None;
  ce_mentions := None;
  ce_resolved := row.(com_resolved);
  ce_resolvedBy := row.(com_resolvedBy);
  ce_resolvedAt := row.(com_resolvedAt);
  ce_fileVersionId := row.(com_fileVersionId);
  ce_fileVersion := None;
  ce_replyCount := replyCount;
  ce_createdAt := row.(com_createdAt);
  ce_updatedAt := row.(com_updatedAt)
|}.

Definition display_name (db : Db) (userId : string) : option string :=
  get_row (fun u => u.(usr_id) = userId) db.(users) ≫= usr_displayName.

(** [addAuthorNames], [addMentions] and [addFileVersions], on one entry. *)
Definition add_author_name (db : Db) (e : CommentEntry) : CommentEntry :=
  e <| ce_authorDisplayName := display_name db e.(ce_author) |>.

Definition add_mentions (db : Db) (e : CommentEntry) : CommentEntry :=
  match mentions_of db e.(ce_id) with
  | [] => e
  | mentions => e <| ce_mentions := Some mentions |>
  end.

Definition add_file_version (db : Db) (ctx : OpContext) (e : CommentEntry) : CommentEntry :=
  match e.(ce_fileVersionId) with
  | None => e
  | Some id => e <| ce_fileVersion := fv_version <$>
      get_row (fun v => v.(fv_id) = id /\ v.(fv_driveId) = ctx.(op_driveId)) db.(fileVersions) |>
  end.

(** The row of [emitEvent]. *)
Definition comment_event (id : string) (ctx : OpContext) (type commentId : string) (metadata : option json) (now : Z)
    : Event :=
  Build_Event id ctx.(op_orgId) type "comment" commentId ctx.(op_userId) None EvCreated metadata (ts_sec now).

Definition emitEvent (id : string) (ctx : OpContext) (type commentId : string) (metadata : option json) (now : Z)
    : DbM unit := insert_event (comment_event id ctx type commentId metadata now).

Definition emitCommentNotifications (ids : nat -> string) (ctx : OpContext) (commentId path : string)
    (parentId : option string) (createdAt : Z) : DbM unit :=
  recipients ← gets (fun db => dm_userId <$>
    filter (fun m => m.(dm_driveId) = ctx.(op_driveId) /\ m.(dm_userId) <> ctx.(op_userId)) db.(driveMembers));
  _ ← emitCommentNotificationEvents ids ctx COMMENT_NOTIFICATION_EVENT commentId recipients
        (comment_metadata path parentId) createdAt;
  mret tt.

Definition insert_comment (c : Comment_) : DbM unit :=
  insert (fun db => first_taken [(comment_exists c.(com_id) db, "comments.id")])
    (fun db => org_exists c.(com_orgId) db && drive_exists c.(com_driveId) db && user_exists c.(com_author) db)
    (fun db => db <| comments ::= fun t => t ++ [c] |>).

(** The webhook events of an op: its own, and one per new mention. *)
Definition op_events (eventId type : string) (mentioned : list (string * string)) : list CommentWebhookEvent :=
  {| cw_eventId := eventId; cw_internalType := type; cw_mentionedUserId := None |} ::
  ((fun m => {| cw_eventId := m.1; cw_internalType := COMMENT_MENTION_EVENT; cw_mentionedUserId := Some m.2 |})
   <$> mentioned).

Section Comments.
Context {Store : Type} {rt : Runtime}.
Notation OpM := (OpM Store).

Definition publishCommentChange (ctx : OpContext) (id path : string) (parentId : option string)
    (action : comment_action) (now : Z) : OpM unit :=
  publish (CommentChanged ctx.(op_driveId) path id parentId action ctx.(op_userId) now).

(** What follows every commit. *)
Definition announce (ctx : OpContext) (c : Comment_) (action : comment_action) (queued : nat) (now : Z) : OpM unit :=
  _ ← publishCommentChange ctx c.(com_id) c.(com_path) c.(com_parentId) action now;
  when (0 <? queued)%nat notifyWebhooksEnqueued.

(** ** commentAdd *)

(** The path of the new comment, its parent checked. *)
Definition comment_path (db : Db) (ctx : OpContext) (params : CommentAddParams) : outcome error string :=
  path ← match truthy params.(ca_parentId) with
         | None => Ok (truthy params.(ca_path))
         | Some parentId =>
             match getScopedComment db ctx parentId with
             | None => Throw (NotFoundError "Parent comment not found" None
                         (Some "Check that the parent comment ID is correct and not deleted"))
             | Some parent =>
                 if bool_decide (is_Some (truthy parent.(com_parentId))) then
                   Throw (ValidationError "Cannot reply to a reply — only root comments accept replies" None
                            (Some "Reply to the root comment instead"))
                 else Ok (match truthy params.(ca_path) with
                          | Some p => Some p
                          | None => truthy (Some parent.(com_path))
                          end)
             end
         end;
  match path with
  | None => Throw (ValidationError "path is required for root comments" (Some "path") None)
  | Some p => Ok (normalizePath p)
  end.

(** [commentRow], with the clock's milliseconds. *)
Definition comment_row (dr : CommentDraws) (now : Z) (db : Db) (ctx : OpContext) (params : CommentAddParams)
    (path : string) : Comment_ :=
  let quote := normalizeQuote params.(ca_quote) in
  Build_Comment_ dr.(cd_id) params.(ca_parentId) ctx.(op_orgId) ctx.(op_driveId) path params.(ca_lineStart)
    params.(ca_lineEnd) params.(ca_quotedContent) (q_exact <$> quote) (quote ≫= q_prefix) (quote ≫= q_suffix)
    (fv_id <$> head_version db ctx.(op_driveId) path) params.(ca_body) ctx.(op_userId) false None None now now false.

(** The row as the table holds it. *)
Definition stored_comment (c : Comment_) : Comment_ :=
  c <| com_createdAt ::= ts_sec |> <| com_updatedAt ::= ts_sec |>.

Definition commentAdd_tx (dr : CommentDraws) (now : Z) (ctx : OpContext) (row : Comment_) (mentionUserIds : list string)
    : DbM nat :=
  transaction (
    _ ← insert_comment (stored_comment row);
    newMentionUserIds ← saveMentions row.(com_id) mentionUserIds now;
    mentionEvents ← emitMentionNotifications dr.(cd_mentions) ctx row.(com_id) row.(com_path) row.(com_parentId)
                      newMentionUserIds now;
    _ ← emitEvent dr.(cd_event) ctx "comment_created" row.(com_id)
          (Some (comment_metadata row.(com_path) row.(com_parentId))) now;
    _ ← emitCommentNotifications dr.(cd_notices) ctx row.(com_id) row.(com_path) row.(com_parentId) now;
    enqueueCommentWebhooks dr.(cd_deliveries) ctx row (op_events dr.(cd_event) "comment_created" mentionEvents) now).

Definition commentAdd (dr : CommentDraws) (now : Z) (ctx : OpContext) (params : CommentAddParams)
    : OpM CommentAddResult :=
  path ← reads (fun w => comment_path w.(w_db) ctx params);
  mentionUserIds ← match params.(ca_mentions) with
                   | Some raw => reads (fun w => resolveMentions w.(w_db) ctx raw)
                   | None => mret []
                   end;
  row ← query (fun db => comment_row dr now db ctx params path);
  queued ← in_db (commentAdd_tx dr now ctx row mentionUserIds);
  _ ← announce ctx row CaCreated queued now;
  name ← query (fun db => display_name db ctx.(op_userId));
  mret {| cr_id := row.(com_id); cr_path := path; cr_body := params.(ca_body); cr_parentId := params.(ca_parentId);
          cr_lineStart := params.(ca_lineStart); cr_lineEnd := params.(ca_lineEnd);
          cr_quote := normalizeQuote params.(ca_quote); cr_author := ctx.(op_userId);
          cr_authorDisplayName := name; cr_createdAt := now |}.

(** ** commentList and commentGet *)

(** The range of paths under a prefix, also for paths stored without a leading
    slash: "0" follows "/" in BINARY order. *)
Definition under_prefix (pathPrefix path : string) : bool :=
  let prefix := normalizePrefix pathPrefix in
  if bool_decide (prefix = "/") then true
  else
    let relativePrefix := drop_str 1 prefix in
    in_range prefix (drop_last_char prefix +:+ "0") path ||
    in_range relativePrefix (drop_last_char relativePrefix +:+ "0") path.

Definition list_matches (ctx : OpContext) (params : CommentListParams) (c : Comment_) : bool :=
  bool_decide (in_drive ctx c) && negb c.(com_isDeleted) &&
  match truthy params.(cl_path) with Some p => bool_decide (c.(com_path) = normalizePath p) | None => true end &&
  match params.(cl_pathPrefix) with Some p => under_prefix p c.(com_path) | None => true end &&
  match truthy params.(cl_parentId), params.(cl_parentId) with
  | Some p, _ => bool_decide (c.(com_parentId) = Some p)
  | None, Some _ => true
  | None, None =>
      bool_decide (c.(com_parentId) = None) &&
      (if params.(cl_resolved) ?? false then true else negb c.(com_resolved))
  end &&
  match truthy params.(cl_orgId) with Some o => bool_decide (c.(com_orgId) = o) | None => true end.

(** The live replies of a comment, oldest first. *)
Definition replies_of (db : Db) (ctx : OpContext) (parentId : string) : list Comment_ :=
  sort_by (fun a b => a.(com_createdAt) <=? b.(com_createdAt)) (filter (live_reply ctx parentId) db.(comments)).

(** The rows of one page, newest first. *)
Definition list_rows (db : Db) (ctx : OpContext) (params : CommentListParams) : list Comment_ :=
  take (params.(cl_limit) ?? 50%nat) (drop (params.(cl_offset) ?? 0%nat)
    (sort_by (fun a b => b.(com_createdAt) <=? a.(com_createdAt))
       (filter (fun c => list_matches ctx params c = true) db.(comments)))).

Definition thread_entries (db : Db) (ctx : OpContext) (row : Comment_) : CommentEntry * list CommentEntry :=
  let replies := replies_of db ctx row.(com_id) in
  (toCommentEntry row (length replies), (fun r => toCommentEntry r 0%nat) <$> replies).

(** What both listings add: names and mentions to every entry, the version number
    of the anchor to the roots. *)
Definition decorate_thread (db : Db) (ctx : OpContext) (thread : CommentEntry * list CommentEntry)
    : CommentEntry * list CommentEntry :=
  let named e := add_mentions db (add_author_name db e) in
  (add_file_version db ctx (named thread.1), named <$> thread.2).

Definition commentList (ctx : OpContext) (params : CommentListParams)
    : OpM (list (CommentEntry * list CommentEntry)) :=
  query (fun db => (fun row => decorate_thread db ctx (thread_entries db ctx row)) <$> list_rows db ctx params).

Definition comment_not_found : error :=
  NotFoundError "Comment not found" None (Some "Check that the comment ID is correct").

Definition commentGet (ctx : OpContext) (id : string) : OpM (CommentEntry * list CommentEntry) :=
  found ← query (fun db => getScopedComment db ctx id);
  row ← some_or_throw found comment_not_found;
  query (fun db => decorate_thread db ctx (thread_entries db ctx row)).

(** ** commentUpdate *)

(** The mentions of the comment that are not in the new list. *)
Definition dropped_mention (commentId : string) (keep : list string) (m : CommentMention) : Prop :=
  m.(men_commentId) = commentId /\ m.(men_userId) ∉ keep.
#[export] Instance dropped_mention_dec c k m : Decision (dropped_mention c k m).
Proof. unfold dropped_mention. apply _. Defined.

(** An unread mention notification of this comment for one of [users]. *)
Definition unread_mention (orgId commentId : string) (userIds : list string) (e : Event) : Prop :=
  e.(ev_orgId) = orgId /\ e.(ev_type) = COMMENT_MENTION_EVENT /\ e.(ev_resourceType) = "comment" /\
  e.(ev_resourceId) = commentId /\ (exists u, e.(ev_target) = Some u /\ u ∈ userIds) /\ e.(ev_status) = EvCreated.
#[export] Instance unread_mention_dec o c us e : Decision (unread_mention o c us e).
Proof.
  unfold unread_mention. apply and_dec; [apply _|]. apply and_dec; [apply _|]. apply and_dec; [apply _|].
  apply and_dec; [apply _|]. apply and_dec; [|apply _].
  destruct (ev_target e) as [u|]; [|by right; intros (? & ? & _)].
  destruct (decide (u ∈ us)) as [H|H]; [left; eauto|right; intros (? & [= <-] & ?); done].
Defined.

Definition update_mentions (dr : CommentDraws) (now : Z) (ctx : OpContext) (row : Comment_) (mentionUserIds : list string)
    : DbM (list (string * string)) :=
  removedUserIds ← gets (fun db => men_userId <$> filter (dropped_mention row.(com_id) mentionUserIds) db.(commentMentions));
  _ ← modify (fun db => db <| commentMentions ::= delete_where (dropped_mention row.(com_id) mentionUserIds) |>);
  _ ← when (negb (bool_decide (removedUserIds = []))) (modify (fun db =>
        db <| events ::= update_where (unread_mention ctx.(op_orgId) row.(com_id) removedUserIds)
                           (fun e => e <| ev_status := EvDeleted |>) |>));
  newMentionUserIds ← saveMentions row.(com_id) mentionUserIds now;
  emitMentionNotifications dr.(cd_mentions) ctx row.(com_id) row.(com_path) row.(com_parentId) newMentionUserIds now.

Definition commentUpdate_tx (dr : CommentDraws) (now : Z) (ctx : OpContext) (row : Comment_) (body : string)
    (mentionUserIds : option (list string)) : DbM nat :=
  transaction (
    _ ← modify (fun db => db <| comments ::= update_where (scoped ctx row.(com_id))
                                  (fun c => c <| com_body := body |> <| com_updatedAt := ts_sec now |>) |>);
    mentionEvents ← match mentionUserIds with
                    | Some ids => update_mentions dr now ctx row ids
                    | None => mret []
                    end;
    _ ← emitEvent dr.(cd_event) ctx "comment_updated" row.(com_id)
          (Some (comment_metadata row.(com_path) row.(com_parentId))) now;
    enqueueCommentWebhooks dr.(cd_deliveries) ctx (row <| com_body := body |> <| com_updatedAt := now |>)
      (op_events dr.(cd_event) "comment_updated" mentionEvents) now).

(** The live comment an op names, if it is the caller's own. *)
Definition own_comment (ctx : OpContext) (id message suggestion : string) : OpM Comment_ :=
  found ← query (fun db => getScopedComment db ctx id);
  row ← some_or_throw found comment_not_found;
  _ ← throw_if (negb (bool_decide (row.(com_author) = ctx.(op_userId))))
        (PermissionDeniedError message None None (Some suggestion));
  mret row.

Definition commentUpdate (dr : CommentDraws) (now : Z) (ctx : OpContext) (id body : string)
    (mentions : option (list string)) : OpM (string * string * Z) :=
  row ← own_comment ctx id "You can only edit your own comments" "Only the comment author can update it";
  mentionUserIds ← match mentions with
                   | Some raw => ids ← reads (fun w => resolveMentions w.(w_db) ctx raw); mret (Some ids)
                   | None => mret None
                   end;
  queued ← in_db (commentUpdate_tx dr now ctx row body mentionUserIds);
  _ ← announce ctx row CaUpdated queued now;
  mret (id, body, now).

(** ** commentDelete and commentResolve *)

Definition delete_comment (now : Z) (c : Comment_) : Comment_ :=
  c <| com_isDeleted := true |> <| com_updatedAt := ts_sec now |>.

(** A reply of the active org and drive, deleted or not. *)
Definition scoped_reply (ctx : OpContext) (parentId : string) (c : Comment_) : Prop :=
  c.(com_parentId) = Some parentId /\ in_drive ctx c.
#[export] Instance scoped_reply_dec ctx p c : Decision (scoped_reply ctx p c).
Proof. unfold scoped_reply. apply _. Defined.

Definition commentDelete_tx (dr : CommentDraws) (now : Z) (ctx : OpContext) (row : Comment_) : DbM nat :=
  transaction (
    _ ← modify (fun db => db <| comments ::= update_where (scoped ctx row.(com_id)) (delete_comment now) |>);
    _ ← when (negb (bool_decide (is_Some (truthy row.(com_parentId))))) (modify (fun db =>
          db <| comments ::= update_where (scoped_reply ctx row.(com_id)) (delete_comment now) |>));
    _ ← emitEvent dr.(cd_event) ctx "comment_deleted" row.(com_id) None now;
    enqueueCommentWebhooks dr.(cd_deliveries) ctx row (op_events dr.(cd_event) "comment_deleted" []) now).

Definition commentDelete (dr : CommentDraws) (now : Z) (ctx : OpContext) (id : string) : OpM bool :=
  row ← own_comment ctx id "You can only delete your own comments" "Only the comment author can delete it";
  queued ← in_db (commentDelete_tx dr now ctx row);
  _ ← announce ctx row CaDeleted queued now;
  mret true.

Definition resolve_comment (resolved : bool) (userId : string) (at_ updatedAt : Z) (c : Comment_) : Comment_ :=
  c <| com_resolved := resolved |> <| com_resolvedBy := if resolved then Some userId else None |>
    <| com_resolvedAt := if resolved then Some at_ else None |> <| com_updatedAt := updatedAt |>.

Definition commentResolve_tx (dr : CommentDraws) (now : Z) (ctx : OpContext) (row : Comment_) (resolved : bool)
    : DbM nat :=
  let type := if resolved then "comment_resolved" else "comment_reopened" in
  transaction (
    _ ← modify (fun db => db <| comments ::= update_where (scoped ctx row.(com_id))
                                  (resolve_comment resolved ctx.(op_userId) (ts_sec now) (ts_sec now)) |>);
    _ ← emitEvent dr.(cd_event) ctx type row.(com_id) None now;
    enqueueCommentWebhooks dr.(cd_deliveries) ctx (resolve_comment resolved ctx.(op_userId) now now row)
      (op_events dr.(cd_event) type []) now).

Definition commentResolve (dr : CommentDraws) (now : Z) (ctx : OpContext) (id : string) (resolved : bool)
    : OpM (string * bool * option string * option Z) :=
  found ← query (fun db => getScopedComment db ctx id);
  row ← some_or_throw found comment_not_found;
  _ ← throw_if (bool_decide (is_Some (truthy row.(com_parentId))))
        (ValidationError "Cannot resolve a reply — only root comments can be resolved" None
           (Some "Resolve the parent comment instead"));
  queued ← in_db (commentResolve_tx dr now ctx row resolved);
  _ ← announce ctx row (if resolved then CaResolved else CaReopened) queued now;
  mret (id, resolved, if resolved then Some ctx.(op_userId) else None, if resolved then Some now else None).
End Comments.
