(* ===== verification/Notifications.v ===== *)
(** * The comment inbox: core/src/ops/comment-notification.ts

    A notification is an [events] row for its target; the row names no drive, so
    every query joins the comment it is about, which does.  Listing shows unread
    rows first; reading marks the caller's own unread rows of the active drive. *)

From S2P Require Import Prelude JsString Errors Schema Rbac Storage GlobCache World Outbox Mentions Comments.

Inductive NotificationKind : Type := KindComment | KindMention.

Definition NOTIFICATION_TYPES (kind : NotificationKind) : string :=
  match kind with KindComment => COMMENT_NOTIFICATION_EVENT | KindMention => COMMENT_MENTION_EVENT end.

Definition DEFAULT_LIMIT : nat := 50.
Definition READ_BATCH_SIZE : nat := 500.

Record CommentNotificationEntry : Type := {
  cn_id : string;
  cn_kind : NotificationKind;
  cn_commentId : string;
  cn_parentId : option string;
  cn_path : string;
  cn_body : string;
  cn_actor : string;
  cn_actorDisplayName : option string;
  cn_createdAt : Z;
  cn_read : bool
}.

(** [notificationScope]: a row of the join of events and comments. *)
Definition notificationScope (ctx : OpContext) (types : list string) (row : Event * Comment_) : Prop :=
  row.1.(ev_orgId) = ctx.(op_orgId) /\ row.1.(ev_type) ∈ types /\ row.1.(ev_resourceType) = "comment" /\
  row.1.(ev_target) = Some ctx.(op_userId) /\
  row.2.(com_orgId) = ctx.(op_orgId) /\ row.2.(com_driveId) = ctx.(op_driveId) /\ row.2.(com_isDeleted) = false.
#[export] Instance notificationScope_dec ctx types row : Decision (notificationScope ctx types row).
Proof. unfold notificationScope. apply _. Defined.

(** [events INNER JOIN comments ON resource_id = comments.id AND resource_type = 'comment']. *)
Definition events_with_comments (db : Db) : list (Event * Comment_) :=
  e ← db.(events);
  (fun c => (e, c)) <$> filter (fun c => e.(ev_resourceId) = c.(com_id) /\ e.(ev_resourceType) = "comment") db.(comments).

Definition is_unread (row : Event * Comment_) : bool := bool_decide (row.1.(ev_status) = EvCreated).

(** Unread before read, then newest first. *)
Definition inbox_order (a b : Event * Comment_) : bool :=
  if is_unread a then if is_unread b then b.1.(ev_createdAt) <=? a.1.(ev_createdAt) else true
  else if is_unread b then false else b.1.(ev_createdAt) <=? a.1.(ev_createdAt).

Definition notification_entry (db : Db) (row : Event * Comment_) : CommentNotificationEntry := {|
  cn_id := row.1.(ev_id);
  cn_kind := if bool_decide (row.1.(ev_type) = NOTIFICATION_TYPES KindMention) then KindMention else KindComment;
  cn_commentId := row.2.(com_id);
  cn_parentId := row.2.(com_parentId);
  cn_path := row.2.(com_path);
  cn_body := row.2.(com_body);
  cn_actor := row.1.(ev_actor);
  cn_actorDisplayName := display_name db row.1.(ev_actor);
  cn_createdAt := row.1.(ev_createdAt);
  cn_read := bool_decide (row.1.(ev_status) = EvAck)
|}.

(** The event types of [params.kinds], comments by default. *)
Definition kinds_types (kinds : option (list NotificationKind)) : list string :=
  NOTIFICATION_TYPES <$> (kinds ?? [KindComment]).

Definition commentNotificationList (db : Db) (ctx : OpContext) (unreadOnly : bool)
    (kinds : option (list NotificationKind)) (limit offset : option nat) : list CommentNotificationEntry * nat :=
  let types := kinds_types kinds in
  let scope := filter (notificationScope ctx types) (events_with_comments db) in
  let rows := take (limit ?? DEFAULT_LIMIT) (drop (offset ?? 0%nat) (sort_by inbox_order
    (filter (fun r => r.1.(ev_status) <> EvDeleted /\ (unreadOnly = true -> r.1.(ev_status) = EvCreated)) scope))) in
  (notification_entry db <$> rows, length (filter (fun r => is_unread r = true) scope)).

(** ** commentNotificationRead *)

(** [for (offset = 0; offset < l.length; offset += n) l.slice(offset, offset + n)]. *)
Fixpoint batches_from {A} (fuel n : nat) (l : list A) : list (list A) :=
  match fuel with
  | O => []
  | S fuel' => match l with [] => [] | _ => take n l :: batches_from fuel' n (drop n l) end
  end.
Definition batches {A} (n : nat) (l : list A) : list (list A) := batches_from (length l) n l.

(** The rows one batch marks. *)
Definition markable (ctx : OpContext) (types batch : list string) (e : Event) : Prop :=
  e.(ev_id) ∈ batch /\ e.(ev_orgId) = ctx.(op_orgId) /\ e.(ev_target) = Some ctx.(op_userId) /\
  e.(ev_type) ∈ types /\ e.(ev_status) = EvCreated.
#[export] Instance markable_dec ctx types batch e : Decision (markable ctx types batch e).
Proof. unfold markable. apply _. Defined.

Definition mark_read (e : Event) : Event := e <| ev_status := EvAck |>.

Definition mark_batch (ctx : OpContext) (types batch : list string) : DbM nat :=
  updated ← gets (fun db => length (filter (markable ctx types batch) db.(events)));
  _ ← modify (fun db => db <| events ::= update_where (markable ctx types batch) mark_read |>);
  mret updated.

Definition among (ids : option (list string)) (id : string) : bool :=
  match ids with Some l => bool_decide (id ∈ l) | None => true end.

(** The unread rows in scope: all of them, or those with a given id. *)
Definition unread_ids (db : Db) (ctx : OpContext) (types : list string) (ids : option (list string)) : list string :=
  (fun r => r.1.(ev_id)) <$>
    filter (fun r => notificationScope ctx types r /\ r.1.(ev_status) = EvCreated /\
                     among ids r.1.(ev_id) = true)
      (events_with_comments db).

Definition commentNotificationRead (ctx : OpContext) (ids : option (list string)) (all : bool)
    (kinds : option (list NotificationKind)) : DbM nat :=
  _ ← throw_if (all && negb (bool_decide (ids ?? [] = [])))
        (ValidationError "Provide notification IDs or set all=true, not both" None
           (Some "Remove ids to mark all notifications, or omit all to mark selected IDs"));
  _ ← throw_if (negb all && bool_decide (ids ?? [] = []))
        (ValidationError "Provide notification IDs or set all=true" None
           (Some "Pass ids: [...] to mark selected notifications, or all: true"));
  let types := if all then kinds_types kinds else [NOTIFICATION_TYPES KindComment; NOTIFICATION_TYPES KindMention] in
  scopedIds ← gets (fun db => unread_ids db ctx types (if all then None else Some (ids ?? [])));
  marked ← map_m (batches READ_BATCH_SIZE scopedIds) (mark_batch ctx types);
  mret (foldr Nat.add 0%nat marked).

(** ** Reading is exact and idempotent *)

Lemma batches_from_join {A} n (l : list A) fuel :
  (0 < n)%nat -> (length l <= fuel)%nat -> mjoin (batches_from fuel n l) = l.
Proof.
  intros Hn. revert l. induction fuel as [|fuel IH]; intros l Hl; [by destruct l; [|cbn in Hl; lia]|].
  destruct l as [|a l]; [done|]. cbn [batches_from].
  change (mjoin (?x :: ?y)) with (x ++ mjoin y). rewrite IH; [apply take_drop|].
  rewrite length_drop. cbn in *. lia.
Qed.

(** Every id is in exactly one batch. *)
Lemma batches_join {A} n (l : list A) : (0 < n)%nat -> mjoin (batches n l) = l.
Proof. intros Hn. by apply batches_from_join. Qed.

Section Marking.
Context (ctx : OpContext) (types : list string).

Lemma mark_twice b1 b2 t :
  update_where (markable ctx types b2) mark_read (update_where (markable ctx types b1) mark_read t) =
    update_where (markable ctx types (b1 ++ b2)) mark_read t /\
  (length (filter (markable ctx types b1) t) +
   length (filter (markable ctx types b2) (update_where (markable ctx types b1) mark_read t)) =
   length (filter (markable ctx types (b1 ++ b2)) t))%nat.
Proof.
  unfold update_where. induction t as [|e t [IH1 IH2]]; [done|]. rewrite !fmap_cons, !filter_cons.
  assert (Hread : forall b, ~ markable ctx types b (mark_read e)) by (intros b (_ & _ & _ & _ & [=])).
  assert (Happ : markable ctx types (b1 ++ b2) e <-> markable ctx types b1 e \/ markable ctx types b2 e).
  { unfold markable. rewrite elem_of_app. tauto. }
  destruct (decide (markable ctx types b1 e)) as [H1|H1].
  - rewrite !(decide_False (P := markable ctx types b2 (mark_read e))) by apply Hread.
    rewrite !(decide_True (P := markable ctx types (b1 ++ b2) e)) by tauto. rewrite IH1. cbn [length]. split; [done|lia].
  - destruct (decide (markable ctx types b2 e)) as [H2|H2];
      [rewrite !(decide_True (P := markable ctx types (b1 ++ b2) e)) by tauto
      |rewrite !(decide_False (P := markable ctx types (b1 ++ b2) e)) by tauto];
      rewrite IH1; cbn [length]; (split; [done|lia]).
Qed.

Lemma mark_batches bs db ns db' :
  map_m bs (mark_batch ctx types) db = (Ok ns, db') ->
  db' = db <| events ::= update_where (markable ctx types (mjoin bs)) mark_read |> /\
  foldr Nat.add 0%nat ns = length (filter (markable ctx types (mjoin bs)) db.(events)).
Proof.
  revert db ns. induction bs as [|b bs IH]; intros db ns Hr; cbn in Hr; inv_ok.
  - assert (Hno : forall e, ~ markable ctx types [] e) by (intros e (He & _); set_solver).
    change (mjoin []) with (@nil string).
    change (?d <| events ::= ?f |>) with (d <| events := f d.(events) |>).
    rewrite update_where_none, filter_none by (intros; apply Hno). split; [by destruct db|done].
  - match goal with H : mark_batch _ _ _ _ = _ |- _ => unfold mark_batch in H; inv_ok end.
    match goal with H : map_m _ _ _ = _ |- _ => apply IH in H as [-> Hn] end.
    change (mjoin (b :: bs)) with (b ++ mjoin bs). cbn [foldr]. rewrite Hn.
    destruct (mark_twice b (mjoin bs) db.(events)) as [H1 H2]. split; [|exact H2].
    change (db <| events ::= update_where (markable ctx types (b ++ mjoin bs)) mark_read |>)
      with (db <| events := update_where (markable ctx types (b ++ mjoin bs)) mark_read db.(events) |>).
    by rewrite <- H1.
Qed.
Lemma mark_batches_run bs db : exists ns db', map_m bs (mark_batch ctx types) db = (Ok ns, db').
Proof.
  revert db. induction bs as [|b bs IH]; intros db; [by eexists _, _|]. cbn [map_m].
  destruct (IH (db <| events ::= update_where (markable ctx types b) mark_read |>)) as (ns & db' & E).
  eexists _, db'. apply bind_ok. eexists _, _. split; [reflexivity|]. apply bind_ok. by exists ns, db'.
Qed.
End Marking.

(** An unread notification of the caller about a live comment of the active
    drive, of one of [types] and, if [ids] are given, among them. *)
Definition in_inbox (db : Db) (ctx : OpContext) (types : list string) (ids : option (list string)) (e : Event) : Prop :=
  e.(ev_status) = EvCreated /\ among ids e.(ev_id) = true /\
  Exists (fun c => e.(ev_resourceId) = c.(com_id) /\ notificationScope ctx types (e, c)) db.(comments).
#[export] Instance in_inbox_dec db ctx types ids e : Decision (in_inbox db ctx types ids e).
Proof. unfold in_inbox. apply _. Defined.

Lemma elem_of_join db e c :
  (e, c) ∈ events_with_comments db <->
  e ∈ db.(events) /\ c ∈ db.(comments) /\ e.(ev_resourceId) = c.(com_id) /\ e.(ev_resourceType) = "comment".
Proof.
  unfold events_with_comments. rewrite list_elem_of_bind. split.
  - intros (e' & (c' & [= <- <-] & (Hr & Hc)%list_elem_of_filter)%list_elem_of_fmap & He). tauto.
  - intros (He & Hc & Hr & Ht). exists e. split; [|done]. apply list_elem_of_fmap. exists c. split; [done|].
    by apply list_elem_of_filter.
Qed.

Lemma elem_of_unread_ids db ctx types ids i :
  i ∈ unread_ids db ctx types ids <-> exists e, e ∈ db.(events) /\ e.(ev_id) = i /\ in_inbox db ctx types ids e.
Proof.
  unfold unread_ids. rewrite list_elem_of_fmap. split.
  - intros ([e c] & -> & ((Hscope & Hst & Ham) & (He & Hc & Hr & _)%elem_of_join)%list_elem_of_filter).
    exists e. split_and!; try done. split_and!; try done. apply Exists_exists. by exists c.
  - intros (e & He & <- & Hst & Ham & (c & Hc & Hr & Hscope)%Exists_exists). exists (e, c). split; [done|].
    apply list_elem_of_filter. split; [done|]. apply elem_of_join. split_and!; try done. apply Hscope.
Qed.

Lemma markable_inbox db ctx types ids e :
  NoDup (ev_id <$> db.(events)) -> e ∈ db.(events) ->
  markable ctx types (unread_ids db ctx types ids) e <-> in_inbox db ctx types ids e.
Proof.
  intros Hnd He. unfold markable. rewrite elem_of_unread_ids. split.
  - intros ((e' & He' & Hid & Hin) & _). by rewrite (NoDup_fmap_eq ev_id _ e e' Hnd He He').
  - intros Hin. pose proof Hin as (Hst & _ & (c & _ & _ & (Ho & Ht & _ & Htg & _))%Exists_exists). split_and!; try done. by exists e.
Qed.

(** The event types an op of these parameters is about. *)
Definition read_types (all : bool) (kinds : option (list NotificationKind)) : list string :=
  if all then kinds_types kinds else [NOTIFICATION_TYPES KindComment; NOTIFICATION_TYPES KindMention].
Definition read_ids (all : bool) (ids : option (list string)) : option (list string) :=
  if all then None else Some (ids ?? []).

(** The request is refused before anything is read. *)
Definition bad_read (ids : option (list string)) (all : bool) : bool :=
  Bool.eqb all (negb (bool_decide (ids ?? [] = []))).

Lemma read_refused ctx ids all kinds db :
  bad_read ids all = true -> exists e, commentNotificationRead ctx ids all kinds db = (Throw e, db).
Proof.
  unfold bad_read, commentNotificationRead. destruct all, (bool_decide (ids ?? [] = [])); try done; intros _; by eexists.
Qed.

Lemma read_runs ctx ids all kinds db :
  bad_read ids all = false -> let types := read_types all kinds in let marked := unread_ids db ctx types (read_ids all ids) in
  commentNotificationRead ctx ids all kinds db =
  (Ok (length (filter (markable ctx types marked) db.(events))),
   db <| events ::= update_where (markable ctx types marked) mark_read |>).
Proof.
  intros Hok. cbv zeta.
  destruct (mark_batches_run ctx (read_types all kinds)
    (batches READ_BATCH_SIZE (unread_ids db ctx (read_types all kinds) (read_ids all ids))) db) as (ns & db' & Hm).
  pose proof Hm as Hm'. apply mark_batches in Hm' as [-> Hn]. rewrite batches_join in * by (unfold READ_BATCH_SIZE; lia).
  rewrite <- Hn. unfold bad_read in Hok. unfold commentNotificationRead.
  destruct all, (bool_decide (ids ?? [] = [])) eqn:Ei; try done;
    (etrans; [|exact (f_equal (fun r : outcome error (list nat) * Db =>
       match r with (Ok l, s) => (Ok (foldr Nat.add 0%nat l), s) | (Throw e, s) => (Throw e, s) end) Hm)]);
    reflexivity.
Qed.

(** Marking notifications read is exact and idempotent.  A request that names
    both ids and [all], or neither, is refused without a write.  Any other marks
    exactly the caller's unread notifications of the active drive that it names,
    whatever batches it takes, returns their number, changes no other row and no
    other table, and a second request marks nothing. *)
Theorem notification_read_exact ctx ids all kinds db (Hids : NoDup (ev_id <$> db.(events))) :
  match commentNotificationRead ctx ids all kinds db with
  | (Throw _, db') => bad_read ids all = true /\ db' = db
  | (Ok n, db') =>
      bad_read ids all = false /\
      let inbox := in_inbox db ctx (read_types all kinds) (read_ids all ids) in
      db' = db <| events ::= update_where inbox mark_read |> /\ n = length (filter inbox db.(events)) /\
      commentNotificationRead ctx ids all kinds db' = (Ok 0%nat, db')
  end.
Proof.
  destruct (bad_read ids all) eqn:Hbad.
  { destruct (read_refused ctx ids all kinds db Hbad) as [e ->]. done. }
  rewrite read_runs by done. cbv zeta.
  set (types := read_types all kinds). set (named := read_ids all ids).
  assert (Hext : forall e, e ∈ db.(events) ->
    markable ctx types (unread_ids db ctx types named) e <-> in_inbox db ctx types named e) by (intros; by apply markable_inbox).
  rewrite (filter_ext_in _ _ _ Hext).
  change (db <| events ::= update_where (markable ctx types (unread_ids db ctx types named)) mark_read |>) with
    (db <| events := update_where (markable ctx types (unread_ids db ctx types named)) mark_read db.(events) |>).
  rewrite (update_where_ext _ _ mark_read _ Hext). split_and!; [done..|].
  set (db' := db <| events := update_where (in_inbox db ctx types named) mark_read db.(events) |>).
  rewrite read_runs by done. cbv zeta. fold types named.
  assert (Hno : unread_ids db' ctx types named = []).
  { apply elem_of_nil_inv. intros i (e & He & _ & Hin)%elem_of_unread_ids. revert He Hin. subst db'. cbn [events update].
    intros (e0 & He0 & [(Hi & ->)|(Hi & ->)])%elem_of_update_where; [by intros ([=] & _)|]. by intros ?. }
  rewrite Hno. assert (Hmark : forall e, ~ markable ctx types [] e) by (intros e (He & _); set_solver).
  rewrite filter_none by (intros; apply Hmark).
  change (db' <| events ::= update_where (markable ctx types []) mark_read |>) with
    (db' <| events := update_where (markable ctx types []) mark_read db'.(events) |>).
  rewrite update_where_none by (intros; apply Hmark). done.
Qed.

(** Two unread notifications of bob, one of them about a deleted comment. *)
Definition sample_inbox : Db := empty_db
  <| comments := [Build_Comment_ "c1" None "o" "d" "/a" None None None None None None None "hi" "alice" false None None 0 0 false;
                  Build_Comment_ "c2" None "o" "d" "/a" None None None None None None None "hi" "alice" false None None 0 0 true] |>
  <| events := [Build_Event "e1" "o" COMMENT_MENTION_EVENT "comment" "c1" "alice" (Some "bob") EvCreated None 0;
                Build_Event "e2" "o" COMMENT_MENTION_EVENT "comment" "c2" "alice" (Some "bob") EvCreated None 0] |>.
Definition sample_bob : OpContext := Build_OpContext "o" "d" "bob" None None None None.

Lemma notification_read_exact_witness :
  match commentNotificationRead sample_bob (Some ["e1"; "e2"]) false None sample_inbox with
  | (Throw _, _) => False
  | (Ok n, db') => n = 1%nat /\ (ev_status <$> db'.(events)) = [EvAck; EvCreated] /\
      commentNotificationRead sample_bob (Some ["e1"; "e2"]) false None db' = (Ok 0%nat, db')
  end.
Proof.
  assert (H : NoDup (ev_id <$> sample_inbox.(events))).
  { apply NoDup_cons_2; [intros [=]%list_elem_of_singleton|apply NoDup_singleton]. }
  pose proof (notification_read_exact sample_bob (Some ["e1"; "e2"]) false None sample_inbox H) as Hex.
  destruct (commentNotificationRead sample_bob (Some ["e1"; "e2"]) false None sample_inbox) as [[n|e] db'] eqn:E.
  - destruct Hex as (_ & _ & _ & Hagain). vm_compute in E. injection E as <- <-.
    split; [reflexivity|]. split; [reflexivity|exact Hagain].
  - vm_compute in E. discriminate.
Defined.
