(* ===== verification/CommentSpec.v ===== *)
(** * What the comment ops guarantee

    The theorems about Comments, Mentions and Notifications: threads stay one
    level deep and whole, a comment changes only by its author or its thread's,
    adding is all or nothing, changed mentions change notifications exactly, and
    reading the inbox is scoped and idempotent. *)

From S2P Require Import Prelude JsString Errors Paths Schema Rbac Drives Storage GlobCache Text Utf16 World Outbox Versioning FileOps Mentions Comments Notifications.

(** ** What each piece of a transaction writes *)

Definition mentioned (db : Db) (commentId userId : string) : bool :=
  exists_row (is_mention commentId userId) db.(commentMentions).

Lemma insert_mention_ok r db l db' :
  insert_mention r db = (Ok l, db') ->
  if mentioned db r.(men_commentId) r.(men_userId) then l = [] /\ db' = db
  else l = [r.(men_userId)] /\ db' = db <| commentMentions ::= fun t => t ++ [r] |>.
Proof.
  unfold insert_mention, mentioned. destruct (exists_row _ _); [by intros [= <- <-]|].
  destruct (_ && _); [|done]. by intros [= <- <-].
Qed.

Definition mention_rows (commentId : string) (now : Z) (userIds : list string) : list CommentMention :=
  (fun u => Build_CommentMention commentId u (ts_sec now)) <$> userIds.

(** The users of the list who are not mentioned yet. *)
Definition unmentioned (db : Db) (commentId : string) (userIds : list string) : list string :=
  filter (fun u => mentioned db commentId u = false) userIds.

Lemma unmentioned_cons db commentId u us :
  unmentioned db commentId (u :: us) =
  if mentioned db commentId u then unmentioned db commentId us else u :: unmentioned db commentId us.
Proof. unfold unmentioned. rewrite filter_cons. by destruct (mentioned db commentId u). Qed.

Lemma mentioned_after db commentId now u v :
  mentioned (db <| commentMentions ::= fun t => t ++ mention_rows commentId now [u] |>) commentId v =
  mentioned db commentId v || bool_decide (u = v).
Proof.
  unfold mentioned, mention_rows. apply eq_true_iff_eq. rewrite orb_true_iff, !exists_row_true, bool_decide_eq_true.
  change (commentMentions (db <| commentMentions ::= ?f |>)) with (f (commentMentions db)).
  split.
  - intros (r & [Hr|Hr]%elem_of_app & Hm); [left; eauto|]. cbn in Hr. apply list_elem_of_singleton in Hr as ->.
    right. by destruct Hm.
  - intros [(r & Hr & Hm)| ->]; [exists r; split; [set_solver|done]|].
    eexists. split; [apply elem_of_app; right; apply list_elem_of_here|done].
Qed.

Lemma saved_mentions commentId now userIds db ls db' :
  NoDup userIds ->
  map_m userIds (fun u => insert_mention (Build_CommentMention commentId u (ts_sec now))) db = (Ok ls, db') ->
  mjoin ls = unmentioned db commentId userIds /\
  db' = db <| commentMentions ::= fun t => t ++ mention_rows commentId now (unmentioned db commentId userIds) |>.
Proof.
  revert db ls. induction userIds as [|u us IH]; intros db ls Hnd Hr; cbn in Hr; inv_ok.
  - split; [done|]. unfold update. cbn. rewrite app_nil_r. by destruct db.
  - apply NoDup_cons in Hnd as [Hu Hnd].
    match goal with H : insert_mention _ _ = _ |- _ => apply insert_mention_ok in H; cbn in H; rename H into Hi end.
    match goal with H : map_m _ _ _ = _ |- _ => apply IH in H as [Hj ->]; [|done] end.
    rewrite unmentioned_cons. fold (mentioned db commentId u) in Hi.
    destruct (mentioned db commentId u) eqn:Em; destruct Hi as [-> ->]; [done|].
    assert (Heq : unmentioned (db <| commentMentions ::= fun t => t ++ mention_rows commentId now [u] |>) commentId us =
                  unmentioned db commentId us).
    { unfold unmentioned. apply filter_ext_in. intros v Hv.
      rewrite mentioned_after, bool_decide_false by (intros ->; done). by rewrite orb_false_r. }
    change ([Build_CommentMention commentId u (ts_sec now)]) with (mention_rows commentId now [u]) in *.
    change (mjoin ([u] :: a0)) with (u :: mjoin a0). rewrite Hj, Heq.
    split; [done|]. unfold update. cbn. by rewrite <- app_assoc.
Qed.

Lemma saveMentions_ok commentId userIds now db new db' :
  NoDup userIds -> saveMentions commentId userIds now db = (Ok new, db') ->
  new = unmentioned db commentId userIds /\
  db' = db <| commentMentions ::= fun t => t ++ mention_rows commentId now new |>.
Proof.
  intros Hnd. unfold saveMentions. case_bool_decide as He.
  - intros (-> & ->)%ret_ok. rewrite He. split; [done|]. unfold update. cbn. rewrite app_nil_r. by destruct db.
  - intros Hr. inv_ok.
    match goal with H : map_m _ _ _ = _ |- _ => apply saved_mentions in H as [-> ->]; done end.
Qed.

(** The notification rows for [rows], pairs of an id and its target. *)
Definition notice_rows (ctx : OpContext) (eventType commentId : string) (metadata : json) (createdAt : Z)
    (rows : list (string * string)) : list Event :=
  (fun r => Build_Event r.1 ctx.(op_orgId) eventType "comment" commentId ctx.(op_userId) (Some r.2) EvCreated
              (Some metadata) (ts_sec createdAt)) <$> rows.

Lemma insert_event_ok e db a db' :
  insert_event e db = (Ok a, db') -> db' = db <| events ::= fun t => t ++ [e] |>.
Proof. unfold insert_event. by intros (_ & _ & ->)%insert_ok. Qed.

Lemma insert_events_ok {A} (f : A -> Event) l db a db' :
  for_each l (fun x => insert_event (f x)) db = (Ok a, db') -> db' = db <| events ::= fun t => t ++ (f <$> l) |>.
Proof.
  revert db. induction l as [|x l IH]; intros db; cbn; intros Hr; inv_ok.
  - unfold update. cbn. rewrite app_nil_r. by destruct db.
  - match goal with Hi : insert_event _ _ = _ |- _ => apply insert_event_ok in Hi as -> end.
    apply IH in Hr as ->. unfold update. cbn. by rewrite <- app_assoc.
Qed.

(** The ids drawn for [userIds], with them. *)
Definition drawn (ids : nat -> string) (userIds : list string) : list (string * string) :=
  imap (fun i u => (ids i, u)) userIds.

Lemma emit_ok ids ctx eventType commentId userIds metadata createdAt db rows db' :
  emitCommentNotificationEvents ids ctx eventType commentId userIds metadata createdAt db = (Ok rows, db') ->
  rows = drawn ids userIds /\
  db' = db <| events ::= fun t => t ++ notice_rows ctx eventType commentId metadata createdAt rows |>.
Proof.
  unfold emitCommentNotificationEvents. case_bool_decide as He.
  - intros (-> & ->)%ret_ok. rewrite He. split; [done|]. unfold update. cbn. rewrite app_nil_r. by destruct db.
  - intros Hr. inv_ok. split; [done|].
    match goal with H : for_each _ _ _ = _ |- _ => by apply (insert_events_ok (fun r : string * string =>
      Build_Event r.1 ctx.(op_orgId) eventType "comment" commentId ctx.(op_userId) (Some r.2) EvCreated
        (Some metadata) (ts_sec createdAt))) in H end.
Qed.

(** The delivery rows of a commit: those whose subscription has none for the event. *)
Definition delivery_key (d : WebhookDelivery) : string * string := (d.(del_subscriptionId), d.(del_eventId)).

Lemma deliveries_inserted rows db bs db' :
  map_m rows insert_delivery_once db = (Ok bs, db') ->
  exists new, db' = db <| webhookDeliveries ::= fun t => t ++ new |> /\ new `sublist_of` rows /\
    length (filter (fun b => b = true) bs) = length new /\
    forall r, r ∈ rows -> delivery_key r ∈ delivery_key <$> db'.(webhookDeliveries).
Proof.
  revert db bs. induction rows as [|r rows IH]; intros db bs Hr; cbn in Hr; inv_ok.
  - exists []. split_and!; [unfold update; cbn; rewrite app_nil_r; by destruct db|constructor|done|set_solver].
  - match goal with H : map_m _ _ _ = _ |- _ => destruct (IH _ _ H) as (new & -> & Hsub & Hlen & Hall) end.
    match goal with H : insert_delivery_once _ _ = _ |- _ => unfold insert_delivery_once in H; rename H into Hi end.
    destruct (exists_row _ _) eqn:Ex.
    + injection Hi as <- <-. exists new. split_and!; [done|by constructor|done|].
      intros r' [-> |Hr']%elem_of_cons; [|by apply Hall].
      apply exists_row_true in Ex as (d & Hd & Hk1 & Hk2). cbn. rewrite fmap_app. apply elem_of_app. left.
      apply list_elem_of_fmap. exists d. split; [|done]. unfold delivery_key. by rewrite Hk1, Hk2.
    + inv_ok. match goal with H : insert_delivery _ _ = _ |- _ => apply insert_delivery_ok in H as -> end.
      exists (r :: new). split_and!; [unfold update; cbn; by rewrite <- app_assoc|by constructor|rewrite filter_cons_True by done; cbn; by rewrite Hlen|].
      intros r' [-> |Hr']%elem_of_cons; [|by apply Hall].
      cbn. rewrite !fmap_app. cbn. set_solver.
Qed.

(** The deliveries a commit added: some of [rows], and every pair of [rows] has one. *)
Definition queued_for (rows : list WebhookDelivery) (n : nat) (before after : list WebhookDelivery) : Prop :=
  exists new, after = before ++ new /\ length new = n /\ new `sublist_of` rows /\
    forall r, r ∈ rows -> delivery_key r ∈ delivery_key <$> after.

(** The rows to write do not depend on those already queued. *)
Lemma comment_deliveries_frame uuids f db ctx comment evs at_ :
  comment_deliveries uuids (db <| webhookDeliveries ::= f |>) ctx comment evs at_ =
  comment_deliveries uuids db ctx comment evs at_.
Proof. reflexivity. Qed.

Lemma enqueue_ok uuids ctx comment evs at_ db n db' :
  enqueueCommentWebhooks uuids ctx comment evs at_ db = (Ok n, db') ->
  exists new, db' = db <| webhookDeliveries ::= fun t => t ++ new |> /\
    queued_for (comment_deliveries uuids db' ctx comment evs at_) n db.(webhookDeliveries) db'.(webhookDeliveries).
Proof.
  unfold enqueueCommentWebhooks. intros Hr. inv_ok.
  match goal with H : map_m _ _ _ = _ |- _ => destruct (deliveries_inserted _ _ _ _ H) as (new & -> & ? & ? & ?) end.
  exists new. split; [done|]. rewrite comment_deliveries_frame. by exists new.
Qed.

(** ** Adding a comment *)

(** The members of the drive other than the caller. *)
Definition others_of (db : Db) (ctx : OpContext) : list string :=
  dm_userId <$> filter (fun m => m.(dm_driveId) = ctx.(op_driveId) /\ m.(dm_userId) <> ctx.(op_userId)) db.(driveMembers).

Lemma commentAdd_tx_ok dr now ctx row ids db n db' :
  NoDup ids -> commentAdd_tx dr now ctx row ids db = (Ok n, db') ->
  let meta := comment_metadata row.(com_path) row.(com_parentId) in
  let new := unmentioned db row.(com_id) ids in
  let mentions := drawn dr.(cd_mentions) new in
  db'.(comments) = db.(comments) ++ [stored_comment row] /\
  db'.(commentMentions) = db.(commentMentions) ++ mention_rows row.(com_id) now new /\
  db'.(events) = db.(events) ++
    notice_rows ctx COMMENT_MENTION_EVENT row.(com_id) meta now mentions ++
    [comment_event dr.(cd_event) ctx "comment_created" row.(com_id) (Some meta) now] ++
    notice_rows ctx COMMENT_NOTIFICATION_EVENT row.(com_id) meta now (drawn dr.(cd_notices) (others_of db ctx)) /\
  queued_for (comment_deliveries dr.(cd_deliveries) db' ctx row (op_events dr.(cd_event) "comment_created" mentions) now)
    n db.(webhookDeliveries) db'.(webhookDeliveries).
Proof.
  intros Hnd Hr. unfold commentAdd_tx, emitMentionNotifications, emitEvent, emitCommentNotifications in Hr. inv_ok.
  match goal with H : insert_comment _ _ = _ |- _ => unfold insert_comment in H; apply insert_ok in H as (_ & _ & ->) end.
  match goal with H : saveMentions _ _ _ _ = _ |- _ => apply saveMentions_ok in H as [-> ->]; [|done] end.
  repeat match goal with H : emitCommentNotificationEvents _ _ _ _ _ _ _ _ = _ |- _ => apply emit_ok in H as [-> ->] end.
  match goal with H : insert_event _ _ = _ |- _ => apply insert_event_ok in H as -> end.
  match goal with H : enqueueCommentWebhooks _ _ _ _ _ _ = _ |- _ => apply enqueue_ok in H as (rows & -> & Hq) end.
  split_and!; [reflexivity|reflexivity| |exact Hq].
  etrans; [|by rewrite app_assoc, app_assoc]. reflexivity.
Qed.

(** ** The other transactions *)

Definition set_status_deleted (e : Event) : Event := e <| ev_status := EvDeleted |>.

(** The users whose mention the new list drops. *)
Definition dropped_users (db : Db) (commentId : string) (keep : list string) : list string :=
  men_userId <$> filter (dropped_mention commentId keep) db.(commentMentions).

Lemma unread_mention_none orgId commentId e : ~ unread_mention orgId commentId [] e.
Proof. intros (_ & _ & _ & _ & (u & _ & Hu) & _). set_solver. Qed.

(** A dropped user is not in the new list, so the new ones are those of before. *)
Lemma unmentioned_after_drop db commentId ids :
  unmentioned (db <| commentMentions ::= delete_where (dropped_mention commentId ids) |>) commentId ids =
  unmentioned db commentId ids.
Proof.
  apply filter_ext_in. intros u Hu. unfold mentioned.
  change (commentMentions (db <| commentMentions ::= ?f |>)) with (f (commentMentions db)).
  rewrite !exists_row_false. split; intros H m.
  - intros Hm Hu'. apply (H m); [|done]. apply elem_of_delete_where. split; [done|].
    intros [_ Hn]. destruct Hu' as [_ <-]. done.
  - intros [Hm _]%elem_of_delete_where. by apply H.
Qed.

Lemma update_mentions_ok dr now ctx row ids db rows db' :
  NoDup ids -> update_mentions dr now ctx row ids db = (Ok rows, db') ->
  let new := unmentioned db row.(com_id) ids in
  rows = drawn dr.(cd_mentions) new /\
  db'.(comments) = db.(comments) /\ db'.(webhookDeliveries) = db.(webhookDeliveries) /\
  db'.(commentMentions) = delete_where (dropped_mention row.(com_id) ids) db.(commentMentions) ++
                          mention_rows row.(com_id) now new /\
  db'.(events) = update_where (unread_mention ctx.(op_orgId) row.(com_id) (dropped_users db row.(com_id) ids))
                   set_status_deleted db.(events) ++
                 notice_rows ctx COMMENT_MENTION_EVENT row.(com_id) (comment_metadata row.(com_path) row.(com_parentId))
                   now rows.
Proof.
  intros Hnd Hr. unfold update_mentions, emitMentionNotifications in Hr.
  apply bind_ok in Hr as (removed & s1 & [-> ->]%gets_ok & Hr). fold (dropped_users db row.(com_id) ids) in Hr.
  apply bind_ok in Hr as ([] & s1 & [_ ->]%modify_ok & Hr).
  apply bind_ok in Hr as ([] & s2 & Hwhen & Hr).
  assert (s2 = db <| commentMentions ::= delete_where (dropped_mention row.(com_id) ids) |>
                  <| events ::= update_where (unread_mention ctx.(op_orgId) row.(com_id) (dropped_users db row.(com_id) ids))
                                  set_status_deleted |>) as ->.
  { unfold when in Hwhen. case_bool_decide as He; cbn [negb] in Hwhen; [|by apply modify_ok in Hwhen as [_ ->]].
    apply ret_ok in Hwhen as [_ ->]. rewrite He.
    change (?d <| events ::= ?f |>) with (d <| events := f d.(events) |>).
    rewrite update_where_none; [by destruct db|]. intros e _. apply unread_mention_none. }
  apply bind_ok in Hr as (new & s3 & Hsave & Hr). apply saveMentions_ok in Hsave as [-> ->]; [|done].
  apply emit_ok in Hr as [-> ->].
  match goal with |- context [unmentioned ?d _ _] => idtac end.
  assert (Hnew : unmentioned (db <| commentMentions ::= delete_where (dropped_mention row.(com_id) ids) |>
       <| events ::= update_where (unread_mention ctx.(op_orgId) row.(com_id) (dropped_users db row.(com_id) ids))
                       set_status_deleted |>) row.(com_id) ids = unmentioned db row.(com_id) ids)
    by exact (unmentioned_after_drop db row.(com_id) ids).
  rewrite Hnew. split_and!; reflexivity.
Qed.

Definition updated_comment (body : string) (now : Z) (c : Comment_) : Comment_ :=
  c <| com_body := body |> <| com_updatedAt := ts_sec now |>.

Lemma commentUpdate_tx_ok dr now ctx row body ids db n db' :
  (forall l, ids = Some l -> NoDup l) -> commentUpdate_tx dr now ctx row body ids db = (Ok n, db') ->
  let meta := comment_metadata row.(com_path) row.(com_parentId) in
  let created := comment_event dr.(cd_event) ctx "comment_updated" row.(com_id) (Some meta) now in
  db'.(comments) = update_where (scoped ctx row.(com_id)) (updated_comment body now) db.(comments) /\
  match ids with
  | None => db'.(commentMentions) = db.(commentMentions) /\ db'.(events) = db.(events) ++ [created]
  | Some l =>
      let new := unmentioned db row.(com_id) l in
      db'.(commentMentions) = delete_where (dropped_mention row.(com_id) l) db.(commentMentions) ++
                              mention_rows row.(com_id) now new /\
      db'.(events) = update_where (unread_mention ctx.(op_orgId) row.(com_id) (dropped_users db row.(com_id) l))
                       set_status_deleted db.(events) ++
                     notice_rows ctx COMMENT_MENTION_EVENT row.(com_id) meta now (drawn dr.(cd_mentions) new) ++ [created]
  end.
Proof.
  intros Hnd Hr. unfold commentUpdate_tx, emitEvent in Hr. apply (proj1 (transaction_ok _ _ _ _)) in Hr.
  apply bind_ok in Hr as ([] & s1 & [_ ->]%modify_ok & Hr).
  apply bind_ok in Hr as (rows & s2 & Hm & Hr).
  apply bind_ok in Hr as ([] & s3 & ->%insert_event_ok & Hr).
  apply enqueue_ok in Hr as (new & -> & _).
  destruct ids as [l|].
  - apply update_mentions_ok in Hm as (-> & Hc & _ & Hme & He); [|by apply Hnd].
    cbv zeta. split_and!; [exact Hc|exact Hme|]. etrans; [apply (f_equal (fun t => t ++ [_])); exact He|].
    symmetry. apply app_assoc.
  - apply ret_ok in Hm as [-> ->]. split_and!; reflexivity.
Qed.

Lemma commentDelete_tx_ok dr now ctx row db n db' :
  commentDelete_tx dr now ctx row db = (Ok n, db') ->
  let own := update_where (scoped ctx row.(com_id)) (delete_comment now) db.(comments) in
  db'.(comments) = (if decide (is_Some (truthy row.(com_parentId))) then own
                    else update_where (scoped_reply ctx row.(com_id)) (delete_comment now) own).
Proof.
  intros Hr. unfold commentDelete_tx, emitEvent in Hr. apply (proj1 (transaction_ok _ _ _ _)) in Hr.
  apply bind_ok in Hr as ([] & s1 & [_ ->]%modify_ok & Hr).
  apply bind_ok in Hr as ([] & s2 & Hw & Hr).
  apply bind_ok in Hr as ([] & s3 & ->%insert_event_ok & Hr).
  apply enqueue_ok in Hr as (new & -> & _). unfold when in Hw. cbv zeta.
  case_bool_decide as Hp; cbn [negb] in Hw.
  - apply ret_ok in Hw as [_ ->]. by rewrite decide_True.
  - apply modify_ok in Hw as [_ ->]. by rewrite decide_False.
Qed.

Lemma commentResolve_tx_ok dr now ctx row resolved db n db' :
  commentResolve_tx dr now ctx row resolved db = (Ok n, db') ->
  db'.(comments) = update_where (scoped ctx row.(com_id))
                     (resolve_comment resolved ctx.(op_userId) (ts_sec now) (ts_sec now)) db.(comments).
Proof.
  intros Hr. unfold commentResolve_tx, emitEvent in Hr. apply (proj1 (transaction_ok _ _ _ _)) in Hr.
  apply bind_ok in Hr as ([] & s1 & [_ ->]%modify_ok & Hr).
  apply bind_ok in Hr as ([] & s3 & ->%insert_event_ok & Hr).
  apply enqueue_ok in Hr as (new & -> & _). reflexivity.
Qed.

Section CommentOps.
Context {Store : Type} {rt : Runtime}.
Implicit Types (w : World Store).

(** The world after [announce]. *)
Definition announced (ctx : OpContext) (c : Comment_) (action : comment_action) (queued : nat) (now : Z)
    (w : World Store) : World Store :=
  w <| w_events ::= fun l => l ++ [CommentChanged ctx.(op_driveId) c.(com_path) c.(com_id) c.(com_parentId) action
                                     ctx.(op_userId) now] |>
    <| w_wakeups ::= fun n => if (0 <? queued)%nat then S n else n |>.

Lemma announce_eq ctx c action queued now w :
  announce ctx c action queued now w = (Ok tt, announced ctx c action queued now w).
Proof. unfold announce, announced. destruct queued; cbn; [|done]. unfold update. cbn. by destruct w. Qed.

Lemma in_db_transaction_throw {A} (m : DbM A) w e w' : in_db (transaction m) w = (Throw e, w') -> w' = w.
Proof.
  unfold in_db, on. destruct (transaction m w.(w_db)) as [o db'] eqn:E. intros [= -> <-].
  apply transaction_throw in E as ->. unfold update. cbn. by destruct w.
Qed.

Lemma resolve_entries_NoDup members self resolved raw ids :
  NoDup resolved -> resolve_entries members self resolved raw = Ok ids -> NoDup ids.
Proof.
  revert resolved. induction raw as [|entry raw IH]; intros resolved Hnd; cbn; [by intros [= <-]|].
  destruct (resolve_mention members entry) as [u|]; cbn; [|done]. apply IH.
  case_bool_decide; [|done]. unfold set_add. case_bool_decide; [done|].
  apply NoDup_app. split_and!; [done|set_solver|apply NoDup_singleton].
Qed.

(** The mentions an op is given, resolved. *)
Definition resolved_mentions (db : Db) (ctx : OpContext) (mentions : option (list string)) (ids : list string) : Prop :=
  match mentions with Some raw => resolveMentions db ctx raw = Ok ids | None => ids = [] end.

Lemma resolved_mentions_NoDup db ctx mentions ids : resolved_mentions db ctx mentions ids -> NoDup ids.
Proof. destruct mentions; cbn; [|by intros ->; constructor]. apply resolve_entries_NoDup. constructor. Qed.

(** ** The ops, step by step

    Each op either refuses without writing, or commits its transaction and
    announces it. *)

Lemma resolve_step ctx (mentions : option (list string)) w o w' :
  match mentions with
  | Some raw => reads (fun w => resolveMentions w.(w_db) ctx raw)
  | None => mret []
  end w = (o, w') ->
  w' = w /\ forall ids, o = Ok ids -> resolved_mentions w.(w_db) ctx mentions ids.
Proof.
  destruct mentions as [raw|]; [unfold reads|unfold mret, M_ret]; intros [= <- <-]; split; try done.
  by intros ids [= <-].
Qed.

Lemma commentAdd_inv dr now ctx params w o w' :
  commentAdd dr now ctx params w = (o, w') ->
  (exists e, o = Throw e /\ w' = w) \/
  exists path ids n db' r, let row := comment_row dr now w.(w_db) ctx params path in
    o = Ok r /\ comment_path w.(w_db) ctx params = Ok path /\
    resolved_mentions w.(w_db) ctx params.(ca_mentions) ids /\
    commentAdd_tx dr now ctx row ids w.(w_db) = (Ok n, db') /\
    w' = announced ctx row CaCreated n now (w <| w_db := db' |>) /\
    r.(cr_id) = dr.(cd_id) /\ r.(cr_path) = path /\ r.(cr_author) = ctx.(op_userId).
Proof.
  unfold commentAdd. intros Hr.
  apply bind_inv in Hr as [(path & w1 & [Hpath ->]%reads_ok & Hr)|(e' & Hr & ->)];
    [|unfold reads in Hr; injection Hr as _ ->; left; by eexists].
  apply bind_inv in Hr as [(ids & w1 & Hids & Hr)|(e' & Hr & ->)]; apply resolve_step in Hids || apply resolve_step in Hr;
    [destruct Hids as [-> Hids]; specialize (Hids ids eq_refl)|destruct Hr as [-> _]; left; by eexists].
  apply bind_inv in Hr as [(row & w1 & [-> ->]%gets_ok & Hr)|(e' & Hr & _)]; [|done].
  apply bind_inv in Hr as [(n & w2 & (db' & Htx & ->)%in_db_ok & Hr)|(e' & Hr & ->)];
    [|apply in_db_transaction_throw in Hr as ->; left; by eexists].
  unfold mbind at 1, M_bind at 1 in Hr. rewrite announce_eq in Hr. injection Hr as <- <-.
  right. exists path, ids, n, db'. eexists. cbv zeta. split_and!; done.
Qed.

Lemma own_comment_eq ctx id m s w :
  own_comment ctx id m s w =
  (match getScopedComment w.(w_db) ctx id with
   | None => Throw comment_not_found
   | Some row => if decide (row.(com_author) = ctx.(op_userId)) then Ok row
                 else Throw (PermissionDeniedError m None None (Some s))
   end, w).
Proof.
  unfold own_comment, mbind, M_bind, query, gets. destruct (getScopedComment _ _ _) as [row|]; [|done]. cbn.
  unfold throw_if. case_bool_decide; cbn; [by rewrite decide_True|by rewrite decide_False].
Qed.

Lemma getScopedComment_some db ctx id row :
  getScopedComment db ctx id = Some row ->
  row ∈ db.(comments) /\ row.(com_id) = id /\ in_drive ctx row /\ row.(com_isDeleted) = false.
Proof. intros (Hin & [Hid Hd] & Hl)%get_row_some. done. Qed.

(** The tail of every op: the transaction commits and is announced, or nothing happens. *)
Lemma commit_inv {A} (tx : DbM nat) ctx c action now (a : A) w o w' :
  (queued ← in_db (transaction tx); _ ← announce ctx c action queued now; mret a) w = (o, w') ->
  (exists e, o = Throw e /\ w' = w) \/
  exists n db', transaction tx w.(w_db) = (Ok n, db') /\ w' = announced ctx c action n now (w <| w_db := db' |>) /\ o = Ok a.
Proof.
  intros [(n & w2 & (db' & Htx & ->)%in_db_ok & Hr)|(e' & Hr & ->)]%bind_inv;
    [|apply in_db_transaction_throw in Hr as ->; left; by eexists].
  unfold mbind, M_bind in Hr. rewrite announce_eq in Hr. injection Hr as <- <-. right. by exists n, db'.
Qed.

Lemma commentUpdate_inv dr now ctx id body mentions w o w' :
  commentUpdate dr now ctx id body mentions w = (o, w') ->
  (exists e, o = Throw e /\ w' = w) \/
  exists row ids n db',
    getScopedComment w.(w_db) ctx id = Some row /\ row.(com_author) = ctx.(op_userId) /\
    match mentions with
    | Some raw => exists l, ids = Some l /\ resolved_mentions w.(w_db) ctx mentions l
    | None => ids = None
    end /\
    commentUpdate_tx dr now ctx row body ids w.(w_db) = (Ok n, db') /\
    w' = announced ctx row CaUpdated n now (w <| w_db := db' |>) /\ o = Ok (id, body, now).
Proof.
  unfold commentUpdate. intros Hr.
  apply bind_inv in Hr as [(row & w1 & Hown & Hr)|(e' & Hr & ->)]; rewrite own_comment_eq in Hown || rewrite own_comment_eq in Hr.
  2: { injection Hr as _ ->. left. by eexists. }
  destruct (getScopedComment _ ctx id) as [row'|] eqn:Eg; [|done]. destruct (decide _) as [Ha|]; [|done].
  injection Hown as <- <-.
  apply bind_inv in Hr as [(ids & w1 & Hids & Hr)|(e' & Hr & ->)].
  2: { left. exists e'. destruct mentions as [raw|]; [|done].
       apply bind_inv in Hr as [(l & w2 & [_ ->]%reads_ok & Hr)|(e & Hr & _)]; [done|]. unfold reads in Hr. by injection Hr as _ ->. }
  assert (w1 = w /\ match mentions with
                    | Some raw => exists l, ids = Some l /\ resolved_mentions w.(w_db) ctx mentions l
                    | None => ids = None end) as [-> Hm].
  { destruct mentions as [raw|]; [|by apply ret_ok in Hids as [-> ->]].
    apply bind_ok in Hids as (l & w2 & [Hl ->]%reads_ok & [-> ->]%ret_ok). split; [done|]. by exists l. }
  apply commit_inv in Hr as [|(n & db' & Htx & -> & ->)]; [by left|]. right. by exists row', ids, n, db'.
Qed.

Lemma commentDelete_inv dr now ctx id w o w' :
  commentDelete dr now ctx id w = (o, w') ->
  (exists e, o = Throw e /\ w' = w) \/
  exists row n db', getScopedComment w.(w_db) ctx id = Some row /\ row.(com_author) = ctx.(op_userId) /\
    commentDelete_tx dr now ctx row w.(w_db) = (Ok n, db') /\
    w' = announced ctx row CaDeleted n now (w <| w_db := db' |>) /\ o = Ok true.
Proof.
  unfold commentDelete. intros Hr.
  apply bind_inv in Hr as [(row & w1 & Hown & Hr)|(e' & Hr & ->)]; rewrite own_comment_eq in Hown || rewrite own_comment_eq in Hr.
  2: { injection Hr as _ ->. left. by eexists. }
  destruct (getScopedComment _ ctx id) as [row'|] eqn:Eg; [|done]. destruct (decide _) as [Ha|]; [|done].
  injection Hown as <- <-.
  apply commit_inv in Hr as [|(n & db' & Htx & -> & ->)]; [by left|]. right. by exists row', n, db'.
Qed.

Lemma commentResolve_inv dr now ctx id resolved w o w' :
  commentResolve dr now ctx id resolved w = (o, w') ->
  (exists e, o = Throw e /\ w' = w) \/
  exists row n db' r, getScopedComment w.(w_db) ctx id = Some row /\ truthy row.(com_parentId) = None /\
    commentResolve_tx dr now ctx row resolved w.(w_db) = (Ok n, db') /\
    w' = announced ctx row (if resolved then CaResolved else CaReopened) n now (w <| w_db := db' |>) /\ o = Ok r.
Proof.
  unfold commentResolve. intros Hr.
  apply bind_inv in Hr as [(found & w1 & [-> ->]%gets_ok & Hr)|(e' & Hr & _)]; [|done].
  destruct (getScopedComment _ ctx id) as [row|] eqn:Eg; [|left; injection Hr as <- <-; by eexists].
  apply bind_inv in Hr as [(row' & w1 & [[= <-] ->]%some_or_throw_ok & Hr)|(e' & Hr & _)]; [|done].
  apply bind_inv in Hr as [([] & w1 & [Hp ->]%throw_if_ok & Hr)|(e' & Hr & ->)].
  2: { left. exists e'. unfold throw_if in Hr. destruct (bool_decide _); [|done]. by injection Hr as _ ->. }
  apply bool_decide_eq_false in Hp.
  apply commit_inv in Hr as [|(n & db' & Htx & -> & ->)]; [by left|]. right. exists row, n, db'. eexists.
  split_and!; [done| |done..]. destruct (truthy _); [|done]. by destruct Hp.
Qed.

(** Adding a comment is all or nothing.  A refused or failed add changes
    nothing at all: no comment, event, delivery or announcement.  A successful
    one appends the comment, its new mentions, one unread mention notification
    per new mention, the [comment_created] event and one notification per other
    member of the drive, and queues one delivery per event and enabled
    subscription that lists it; then it announces the change once, and wakes the
    worker exactly when something was queued. *)
Theorem commentAdd_atomic dr now ctx params w :
  match commentAdd dr now ctx params w with
  | (Throw _, w') => w' = w
  | (Ok r, w') =>
      exists path ids n, let db := w.(w_db) in let db' := w'.(w_db) in
      let row := comment_row dr now db ctx params path in
      let meta := comment_metadata path params.(ca_parentId) in
      let new := unmentioned db dr.(cd_id) ids in
      comment_path db ctx params = Ok path /\ resolved_mentions db ctx params.(ca_mentions) ids /\
      db'.(comments) = db.(comments) ++ [stored_comment row] /\
      db'.(commentMentions) = db.(commentMentions) ++ mention_rows dr.(cd_id) now new /\
      db'.(events) = db.(events) ++
        notice_rows ctx COMMENT_MENTION_EVENT dr.(cd_id) meta now (drawn dr.(cd_mentions) new) ++
        [comment_event dr.(cd_event) ctx "comment_created" dr.(cd_id) (Some meta) now] ++
        notice_rows ctx COMMENT_NOTIFICATION_EVENT dr.(cd_id) meta now (drawn dr.(cd_notices) (others_of db ctx)) /\
      queued_for (comment_deliveries dr.(cd_deliveries) db' ctx row
                    (op_events dr.(cd_event) "comment_created" (drawn dr.(cd_mentions) new)) now)
        n db.(webhookDeliveries) db'.(webhookDeliveries) /\
      w' = announced ctx row CaCreated n now (w <| w_db := db' |>) /\
      r.(cr_id) = dr.(cd_id) /\ r.(cr_path) = path /\ r.(cr_author) = ctx.(op_userId)
  end.
Proof.
  destruct (commentAdd dr now ctx params w) as [o w'] eqn:Hr.
  apply commentAdd_inv in Hr as [(e & -> & ->)|(path & ids & n & db' & r & -> & Hpath & Hids & Htx & -> & Hres)]; [done|].
  apply commentAdd_tx_ok in Htx as (? & ? & ? & ?); [|by eapply resolved_mentions_NoDup].
  exists path, ids, n. cbv zeta. split_and!; try done; apply Hres.
Qed.
(** After an update with a mention list, exactly the listed members are
    mentioned in the comment, and nobody's mention elsewhere changes.  Dropped
    members lose their unread notification of it, members who stay get no second
    one, and each new member gets one. *)
Theorem comment_mentions_synced dr now ctx id body raw w r w'
    (Hrun : commentUpdate dr now ctx id body (Some raw) w = (Ok r, w')) :
  exists ids row, let db := w.(w_db) in let db' := w'.(w_db) in
    let new := unmentioned db id ids in
    resolveMentions db ctx raw = Ok ids /\ getScopedComment db ctx id = Some row /\
    (forall u, mentioned db' id u = bool_decide (u ∈ ids)) /\
    (forall m, m.(men_commentId) <> id -> m ∈ db'.(commentMentions) <-> m ∈ db.(commentMentions)) /\
    db'.(events) =
      update_where (unread_mention ctx.(op_orgId) id (dropped_users db id ids)) set_status_deleted db.(events) ++
      notice_rows ctx COMMENT_MENTION_EVENT id (comment_metadata row.(com_path) row.(com_parentId)) now
        (drawn dr.(cd_mentions) new) ++
      [comment_event dr.(cd_event) ctx "comment_updated" id
         (Some (comment_metadata row.(com_path) row.(com_parentId))) now].
Proof.
  apply commentUpdate_inv in Hrun as [(e & [=] & _)|(row & ? & n & db' & Hrow & _ & (ids & -> & Hids) & Htx & -> & _)].
  exists ids, row. cbv zeta.
  assert (Hid : row.(com_id) = id) by (by apply getScopedComment_some in Hrow as (_ & ? & _)).
  apply commentUpdate_tx_ok in Htx as (_ & Hm & He).
  2: { intros l [= <-]. by eapply (resolved_mentions_NoDup _ _ (Some raw)). }
  rewrite Hid in Hm, He. split_and!; [exact Hids|exact Hrow| | |exact He].
  - intros u. apply eq_true_iff_eq. unfold mentioned. rewrite bool_decide_eq_true, exists_row_true.
    change (w_db (announced ctx row CaUpdated n now (w <| w_db := db' |>))) with db'. rewrite Hm. split.
    + intros (m & [[Hin Hk]%elem_of_delete_where|Hin]%elem_of_app & Hc & Hu).
      * destruct (decide (u ∈ ids)) as [|Hn]; [done|]. destruct Hk. by split; [|rewrite Hu].
      * apply list_elem_of_fmap in Hin as (v & -> & Hv). cbn in Hu. subst v.
        by apply list_elem_of_filter in Hv as [_ ?].
    + intros Hu. destruct (mentioned w.(w_db) id u) eqn:Em.
      * apply exists_row_true in Em as (m & Hm' & Hc & Hmu). exists m. split; [|done].
        apply elem_of_app. left. apply elem_of_delete_where. split; [done|]. intros [_ Hn]. by rewrite Hmu in Hn.
      * exists (Build_CommentMention id u (ts_sec now)). split; [|done]. apply elem_of_app. right.
        apply list_elem_of_fmap. exists u. split; [done|]. by apply list_elem_of_filter.
  - intros m Hne. change (w_db (announced ctx row CaUpdated n now (w <| w_db := db' |>))) with db'. rewrite Hm.
    rewrite elem_of_app, elem_of_delete_where. split.
    + intros [[? _]|(v & -> & _)%list_elem_of_fmap]; [done|]. by destruct Hne.
    + intros Hin. left. split; [done|]. by intros [? _].
Qed.

(** ** Threads *)

(** One comment op of a caller, at a time. *)
Inductive comment_op : Type :=
  | OpAdd (dr : CommentDraws) (params : CommentAddParams)
  | OpUpdate (dr : CommentDraws) (id body : string) (mentions : option (list string))
  | OpDelete (dr : CommentDraws) (id : string)
  | OpResolve (dr : CommentDraws) (id : string) (resolved : bool)
  | OpRead (ids : option (list string)) (all : bool) (kinds : option (list NotificationKind)).

(** The world after the op, whether it returned or threw. *)
Definition comment_step (now : Z) (ctx : OpContext) (op : comment_op) (w : World Store) : World Store :=
  match op with
  | OpAdd dr params => (commentAdd dr now ctx params w).2
  | OpUpdate dr id body mentions => (commentUpdate dr now ctx id body mentions w).2
  | OpDelete dr id => (commentDelete dr now ctx id w).2
  | OpResolve dr id resolved => (commentResolve dr now ctx id resolved w).2
  | OpRead ids all kinds => (in_db (commentNotificationRead ctx ids all kinds) w).2
  end.

(** Random ids are not empty. *)
Definition draws_id (op : comment_op) : Prop :=
  match op with OpAdd dr _ => dr.(cd_id) <> "" | _ => True end.

(** How one op changes the table of comments. *)
Inductive comments_change (now : Z) (ctx : OpContext) (op : comment_op) (cs : list Comment_) : list Comment_ -> Prop :=
  | same_comments : comments_change now ctx op cs cs
  | comment_added row :
      (draws_id op -> row.(com_id) <> "") -> row.(com_id) ∉ com_id <$> cs -> row.(com_orgId) = ctx.(op_orgId) -> row.(com_driveId) = ctx.(op_driveId) ->
      row.(com_author) = ctx.(op_userId) ->
      (forall p, truthy row.(com_parentId) = Some p -> exists c, c ∈ cs /\ c.(com_id) = p /\ in_drive ctx c /\
         truthy c.(com_parentId) = None /\ c.(com_isDeleted) = false) ->
      comments_change now ctx op cs (cs ++ [row])
  | comment_updated row body :
      row ∈ cs -> in_drive ctx row -> row.(com_author) = ctx.(op_userId) ->
      comments_change now ctx op cs (update_where (scoped ctx row.(com_id)) (updated_comment body now) cs)
  | reply_deleted row :
      row ∈ cs -> in_drive ctx row -> row.(com_author) = ctx.(op_userId) -> is_Some (truthy row.(com_parentId)) ->
      comments_change now ctx op cs (update_where (scoped ctx row.(com_id)) (delete_comment now) cs)
  | thread_deleted row :
      row ∈ cs -> in_drive ctx row -> row.(com_author) = ctx.(op_userId) -> truthy row.(com_parentId) = None ->
      comments_change now ctx op cs (update_where (scoped_reply ctx row.(com_id)) (delete_comment now)
        (update_where (scoped ctx row.(com_id)) (delete_comment now) cs))
  | thread_resolved row resolved :
      row ∈ cs -> in_drive ctx row ->
      comments_change now ctx op cs (update_where (scoped ctx row.(com_id))
        (resolve_comment resolved ctx.(op_userId) (ts_sec now) (ts_sec now)) cs).

Lemma comment_path_parent db ctx params path p :
  comment_path db ctx params = Ok path -> truthy params.(ca_parentId) = Some p ->
  exists c, c ∈ db.(comments) /\ c.(com_id) = p /\ in_drive ctx c /\ truthy c.(com_parentId) = None /\
    c.(com_isDeleted) = false.
Proof.
  unfold comment_path. intros Hp Hpar. rewrite Hpar in Hp. destruct (getScopedComment db ctx p) as [c|] eqn:Eg; [|done].
  case_bool_decide as Hroot; [done|]. apply getScopedComment_some in Eg as (? & ? & ? & ?). exists c.
  split_and!; [done..| |done]. destruct (truthy (com_parentId c)); [by destruct Hroot|done].
Qed.

Lemma commentAdd_tx_fresh dr now ctx row ids db n db' :
  commentAdd_tx dr now ctx row ids db = (Ok n, db') -> row.(com_id) ∉ com_id <$> db.(comments).
Proof.
  unfold commentAdd_tx. intros Hr. apply (proj1 (transaction_ok _ _ _ _)) in Hr.
  apply bind_ok in Hr as ([] & s1 & Hi & _). unfold insert_comment in Hi. apply insert_ok in Hi as (Hfree & _ & _).
  apply first_taken_none in Hfree as [Hfree _]. unfold comment_exists in Hfree. rewrite exists_row_false in Hfree.
  intros (c & Hc & Hin)%list_elem_of_fmap. by apply (Hfree c Hin).
Qed.

Lemma commentNotificationRead_comments ctx ids all kinds cs :
  preserves (fun db => db.(comments) = cs) (commentNotificationRead ctx ids all kinds).
Proof.
  unfold commentNotificationRead. preserve.
Qed.

Lemma comment_step_change now ctx op w :
  comments_change now ctx op w.(w_db).(comments) (comment_step now ctx op w).(w_db).(comments).
Proof.
  destruct op as [dr params|dr id body mentions|dr id|dr id resolved|ids all kinds]; cbn [comment_step].
  - destruct (commentAdd dr now ctx params w) as [o w'] eqn:Hr.
    apply commentAdd_inv in Hr as [(e & _ & ->)|(path & ids & n & db' & r & _ & Hpath & Hids & Htx & -> & _)]; [constructor|].
    pose proof (commentAdd_tx_fresh _ _ _ _ _ _ _ _ Htx) as Hfresh.
    apply commentAdd_tx_ok in Htx as (Hc & _); [|by eapply resolved_mentions_NoDup].
    cbn. rewrite Hc. apply comment_added; try done. intros p Hp. by eapply comment_path_parent.
  - destruct (commentUpdate dr now ctx id body mentions w) as [o w'] eqn:Hr.
    apply commentUpdate_inv in Hr as [(e & _ & ->)|(row & ids & n & db' & Hrow & Ha & Hids & Htx & -> & _)]; [constructor|].
    apply getScopedComment_some in Hrow as (Hin & _ & Hd & _).
    apply commentUpdate_tx_ok in Htx as (Hc & _).
    2: { intros l ->. destruct mentions as [raw|]; [|done]. destruct Hids as (? & [= <-] & Hids).
         exact (resolved_mentions_NoDup _ _ _ _ Hids). }
    cbn. rewrite Hc. by apply comment_updated.
  - destruct (commentDelete dr now ctx id w) as [o w'] eqn:Hr.
    apply commentDelete_inv in Hr as [(e & _ & ->)|(row & n & db' & Hrow & Ha & Htx & -> & _)]; [constructor|].
    apply getScopedComment_some in Hrow as (Hin & _ & Hd & _).
    apply commentDelete_tx_ok in Htx. cbn. rewrite Htx. case_decide as Hp; [by apply reply_deleted|].
    apply thread_deleted; try done. destruct (truthy (com_parentId row)); [by destruct Hp|done].
  - destruct (commentResolve dr now ctx id resolved w) as [o w'] eqn:Hr.
    apply commentResolve_inv in Hr as [(e & _ & ->)|(row & n & db' & r & Hrow & _ & Htx & -> & _)]; [constructor|].
    apply getScopedComment_some in Hrow as (Hin & _ & Hd & _).
    apply commentResolve_tx_ok in Htx. cbn. rewrite Htx. by apply thread_resolved.
  - rewrite in_db_state. rewrite (commentNotificationRead_comments ctx ids all kinds (comments (w_db w)) (w_db w) eq_refl).
    constructor.
Qed.

(** A comment is a root, or a reply to a root of its own drive; a live reply has a
    live root; ids are unique. *)
Definition threads (cs : list Comment_) : Prop :=
  NoDup (com_id <$> cs) /\ (forall c, c ∈ cs -> c.(com_id) <> "") /\
  forall r p, r ∈ cs -> truthy r.(com_parentId) = Some p -> exists c, c ∈ cs /\ c.(com_id) = p /\
    truthy c.(com_parentId) = None /\ c.(com_orgId) = r.(com_orgId) /\ c.(com_driveId) = r.(com_driveId) /\
    (r.(com_isDeleted) = false -> c.(com_isDeleted) = false).

(** What no op changes of a comment. *)
Definition place (c : Comment_) := (c.(com_id), c.(com_parentId), c.(com_orgId), c.(com_driveId)).

Lemma threads_map (g : Comment_ -> Comment_) cs :
  threads cs -> (forall c, c ∈ cs -> place (g c) = place c) ->
  (forall r, r ∈ cs -> (g r).(com_isDeleted) = false -> r.(com_isDeleted) = false) ->
  (forall r c, r ∈ cs -> c ∈ cs -> truthy r.(com_parentId) = Some c.(com_id) -> truthy c.(com_parentId) = None ->
     c.(com_orgId) = r.(com_orgId) -> c.(com_driveId) = r.(com_driveId) ->
     (g r).(com_isDeleted) = false -> c.(com_isDeleted) = false -> (g c).(com_isDeleted) = false) ->
  threads (g <$> cs).
Proof.
  intros (Hnd & Hne & Hpar) Hplace Hmono Hlive.
  assert (Hid : forall c, c ∈ cs -> (g c).(com_id) = c.(com_id)) by (intros c Hc; by injection (Hplace c Hc)).
  split; [|split].
  - rewrite <- list_fmap_compose. replace (compose com_id g <$> cs) with (com_id <$> cs); [done|].
    apply list_fmap_ext. intros i c Hc. symmetry. apply Hid. by eapply list_elem_of_lookup_2.
  - intros ? (c & -> & Hc)%list_elem_of_fmap. rewrite Hid by done. by apply Hne.
  - intros ? p (r & -> & Hr)%list_elem_of_fmap. pose proof (Hplace r Hr) as Hpr. unfold place in Hpr. injection Hpr as _ Hp Ho Hd.
    rewrite Hp, Ho, Hd. intros Htp. destruct (Hpar r p Hr Htp) as (c & Hc & <- & Hcr & Hco & Hcd & Hcl).
    pose proof (Hplace c Hc) as Hpc. unfold place in Hpc. injection Hpc as Hci Hcp Hco' Hcd'.
    exists (g c). split_and!; try congruence; [by apply list_elem_of_fmap_2|].
    intros Hl. apply (Hlive r c Hr Hc Htp Hcr Hco Hcd Hl), Hcl, Hmono; done.
Qed.

Lemma threads_snoc cs row ctx :
  threads cs -> row.(com_id) <> "" -> row.(com_id) ∉ com_id <$> cs ->
  row.(com_orgId) = ctx.(op_orgId) -> row.(com_driveId) = ctx.(op_driveId) ->
  (forall p, truthy row.(com_parentId) = Some p -> exists c, c ∈ cs /\ c.(com_id) = p /\ in_drive ctx c /\
     truthy c.(com_parentId) = None /\ c.(com_isDeleted) = false) ->
  threads (cs ++ [row]).
Proof.
  intros (Hnd & Hne & Hpar) Hid Hfresh Ho Hd Hrow. split; [|split].
  - apply NoDup_fmap_snoc; [done|]. intros c Hc Heq. apply Hfresh. rewrite <- Heq. by apply list_elem_of_fmap_2.
  - intros c [Hc| ->%list_elem_of_singleton]%elem_of_app; [by apply Hne|done].
  - intros r p [Hr| ->%list_elem_of_singleton]%elem_of_app Hp.
    + destruct (Hpar r p Hr Hp) as (c & Hc & Hrest). exists c. split; [by apply elem_of_app; left|done].
    + destruct (Hrow p Hp) as (c & Hc & Hci & [Hco Hcd] & Hcr & Hcl). exists c.
      split_and!; try congruence. by apply elem_of_app; left.
Qed.

Lemma threads_change now ctx op cs cs' :
  draws_id op -> comments_change now ctx op cs cs' -> threads cs -> threads cs'.
Proof.
  intros Hop Hch Ht. pose proof Ht as (Hnd & Hne & _).
  destruct Hch as [|row Hid Hfresh Ho Hd _ Hrow|row body _ _ _|row Hin _ _ Hrep|row Hin [Ho Hd] _ Hroot|row resolved _ _].
  - done.
  - eapply threads_snoc; eauto.
  - apply threads_map; [done|..]; intros r; [|intros ?|intros c ? ? ? ? ? ? ?]; repeat case_decide; done.
  - apply threads_map; [done|..].
    + intros r _. by case_decide.
    + intros r _. by case_decide.
    + intros r c _ Hc _ Hcr _ _ _ Hl. case_decide as Hs; [|done].
      destruct Hs as [Hs _]. assert (c = row) as -> by (by apply (NoDup_fmap_eq com_id cs)).
      destruct Hrep as [? Hrep]. congruence.
  - unfold update_where. rewrite <- list_fmap_compose. apply threads_map; [done|..]; unfold compose.
    + intros r _. repeat case_decide; done.
    + intros r _. repeat case_decide; done.
    + intros r c Hr Hc Hp Hcr Hco Hcd. destruct (decide (scoped ctx (com_id row) c)) as [[Hs [Hso Hsd]]|Hs].
      * assert (Hrep : scoped_reply ctx (com_id row) r).
        { split; [|split; congruence]. destruct (com_parentId r) as [[|]|]; cbn in Hp |- *; congruence. }
        destruct (decide (scoped ctx (com_id row) r)); (rewrite decide_True by exact Hrep); done.
      * assert (Hno : ~ scoped_reply ctx (com_id row) c).
        { intros [Hcp _]. rewrite Hcp in Hcr. specialize (Hne row Hin). by destruct (com_id row). }
        intros _ Hl. by rewrite (decide_False (P := scoped_reply ctx (com_id row) c)).
  - apply threads_map; [done|..]; intros r; [|intros ?|intros c ? ? ? ? ? ? ?]; repeat case_decide; done.
Qed.

(** C27: Threads stay whole.  Through any sequence of comment ops by any callers,
    refused ones included, every reply hangs from a root comment of its own org
    and drive (never from a reply or from nothing), and a reply is live only
    while its root is. *)
Theorem threads_stay_whole (ops : list (Z * OpContext * comment_op)) w
    (Hdraws : Forall (fun o => draws_id o.2) ops) (Hthreads : threads w.(w_db).(comments)) :
  threads (foldl (fun w o => comment_step o.1.1 o.1.2 o.2 w) w ops).(w_db).(comments).
Proof.
  revert w Hthreads. induction Hdraws as [|[[now ctx] op] ops Hop _ IH]; intros w Ht; [done|].
  cbn. apply IH. by eapply threads_change; [exact Hop|apply comment_step_change|].
Qed.

(** ** Authority *)

(** How one op of [ctx]'s user may leave a comment. *)
Record comment_evolves (ctx : OpContext) (cs : list Comment_) (c c' : Comment_) : Prop := {
  ev_place : place c' = place c;
  ev_fixed : (c'.(com_path), c'.(com_author), c'.(com_createdAt), c'.(com_fileVersionId), c'.(com_quoteExact)) =
             (c.(com_path), c.(com_author), c.(com_createdAt), c.(com_fileVersionId), c.(com_quoteExact));
  ev_foreign : ~ in_drive ctx c -> c' = c;
  ev_body : c'.(com_body) <> c.(com_body) -> c.(com_author) = ctx.(op_userId);
  ev_kept : c.(com_isDeleted) = true -> c'.(com_isDeleted) = true;
  ev_deleted : c'.(com_isDeleted) <> c.(com_isDeleted) -> c.(com_author) = ctx.(op_userId) \/
    exists root, root ∈ cs /\ c.(com_parentId) = Some root.(com_id) /\ root.(com_author) = ctx.(op_userId);
  ev_resolver : c'.(com_resolved) = true -> c.(com_resolved) = false -> c'.(com_resolvedBy) = Some ctx.(op_userId)
}.

Lemma evolves_refl ctx cs c : comment_evolves ctx cs c c.
Proof. split; congruence. Qed.

(** An update of the rows named by a scoped predicate. *)
Lemma evolves_update ctx cs (P : Comment_ -> Prop) `{forall c, Decision (P c)} f :
  (forall c, c ∈ cs -> P c -> comment_evolves ctx cs c (f c)) ->
  Forall2 (comment_evolves ctx cs) cs (update_where P f cs).
Proof.
  intros Hf. apply Forall2_fmap_r, Forall2_same_length_lookup. split; [done|].
  intros i c c' Hc Hc'. simplify_eq. cbn. case_decide; [|apply evolves_refl]. apply Hf; [by eapply list_elem_of_lookup_2|done].
Qed.

Lemma evolves_deleted ctx cs now c :
  in_drive ctx c ->
  c.(com_author) = ctx.(op_userId) \/
    (exists root, root ∈ cs /\ c.(com_parentId) = Some root.(com_id) /\ root.(com_author) = ctx.(op_userId)) ->
  comment_evolves ctx cs c (delete_comment now c).
Proof. intros Hd Ha. split; cbn; try congruence. done. Qed.

Lemma change_authority now ctx op cs cs' :
  NoDup (com_id <$> cs) -> comments_change now ctx op cs cs' ->
  exists kept new, cs' = kept ++ new /\ (length new <= 1)%nat /\
    Forall (fun c => in_drive ctx c /\ c.(com_author) = ctx.(op_userId)) new /\
    Forall2 (comment_evolves ctx cs) cs kept.
Proof.
  intros Hnd Hch.
  assert (Hrefl : Forall2 (comment_evolves ctx cs) cs cs).
  { apply Forall2_same_length_lookup. split; [done|]. intros i x y Hx Hy. simplify_eq. apply evolves_refl. }
  assert (Hsame : forall row c, row ∈ cs -> c ∈ cs -> scoped ctx row.(com_id) c -> c = row).
  { intros row c Hrow Hc [Hs _]. by apply (NoDup_fmap_eq com_id cs). }
  destruct Hch as [|row _ _ Ho Hd Ha _|row body Hin Hd Ha|row Hin Hd Ha _|row Hin Hd Ha _|row resolved Hin Hd].
  - exists cs, []. rewrite app_nil_r. split_and!; [done|cbn; lia|constructor|done].
  - exists cs, [row]. split_and!; [done|cbn; lia|by repeat constructor|done].
  - eexists _, []. rewrite app_nil_r. split_and!; [done|cbn; lia|constructor|]. apply evolves_update.
    intros c Hc Hs. rewrite (Hsame row c Hin Hc Hs). split; cbn; try congruence. done.
  - eexists _, []. rewrite app_nil_r. split_and!; [done|cbn; lia|constructor|]. apply evolves_update.
    intros c Hc Hs. rewrite (Hsame row c Hin Hc Hs). apply evolves_deleted; [done|by left].
  - eexists _, []. rewrite app_nil_r. split_and!; [done|cbn; lia|constructor|].
    unfold update_where. rewrite <- list_fmap_compose. apply Forall2_fmap_r, Forall2_same_length_lookup. split; [done|].
    intros i c c' Hc Hc'. simplify_eq. unfold compose. apply list_elem_of_lookup_2 in Hc.
    destruct (decide (scoped ctx (com_id row) c)) as [Hs|Hs].
    + rewrite (Hsame row c Hin Hc Hs). case_decide; [|apply evolves_deleted; [done|by left]].
      split; cbn; try congruence; try done. by left.
    + case_decide as Hr; [|apply evolves_refl]. apply evolves_deleted; [by destruct Hr|]. right. exists row. by destruct Hr.
  - eexists _, []. rewrite app_nil_r. split_and!; [done|cbn; lia|constructor|]. apply evolves_update.
    intros c Hc Hs. rewrite (Hsame row c Hin Hc Hs). split; cbn; try congruence; try done. by intros ->.
Qed.

(** C28: Who may change a comment.  Whatever comment op a caller runs, at most one
    comment is added, in the caller's drive and name; every comment of another
    org or drive is untouched; a body changes only by its author; a comment is
    deleted only by its author or by the author of its root, and stays deleted;
    its place, author, path and anchor never change; and whoever resolves a
    thread is recorded as the resolver. *)
Theorem comment_authority now ctx op w (Hids : NoDup (com_id <$> w.(w_db).(comments))) :
  let cs := w.(w_db).(comments) in
  exists kept new, (comment_step now ctx op w).(w_db).(comments) = kept ++ new /\ (length new <= 1)%nat /\
    Forall (fun c => in_drive ctx c /\ c.(com_author) = ctx.(op_userId)) new /\
    Forall2 (comment_evolves ctx cs) cs kept.
Proof. exact (change_authority _ _ _ _ _ Hids (comment_step_change now ctx op w)). Qed.
End CommentOps.

(** ** A drive of two members, for the witnesses *)

Module Sample.
Definition db : Db := empty_db
  <| users := [Build_User "alice" "alice@x" (Some "Alice") "h1" 0; Build_User "bob" "bob@x" None "h2" 0] |>
  <| orgs := [Build_Org "o" "Org" false 0] |>
  <| drives := [Build_Drive "d" "o" "Drive" true 0] |>
  <| driveMembers := [Build_DriveMember "d" "alice" Admin; Build_DriveMember "d" "bob" Editor] |>
  <| webhookSubscriptions := [Build_WebhookSubscription "s" "o" None "https://r" None
       (JArr [JStr "comment.created"; JStr "comment.mentioned"]) None "c" true None None 0 None None None "alice" 0 0] |>.
Definition world : World unit := Build_World unit db tt [] 0 empty_glob_cache.
Definition ctx (user : string) : OpContext := Build_OpContext "o" "d" user None None None None.
Definition draws (k : string) : CommentDraws :=
  {| cd_id := k +:+ "-id"; cd_mentions i := k +:+ "-m" +:+ pretty i; cd_event := k +:+ "-e";
     cd_notices i := k +:+ "-n" +:+ pretty i; cd_deliveries i := k +:+ "-d" +:+ pretty i |}.
Definition add (parent : option string) (path : option string) (mentions : list string) : CommentAddParams :=
  Build_CommentAddParams path "hello" parent (Some mentions) None None None None.
Definition root : World unit :=
  (commentAdd (rt := ascii_runtime) (draws "r") 5000 (ctx "alice") (add None (Some "a.md") ["BOB@x"]) world).2.
Definition ops : list (Z * OpContext * comment_op) := [
  (5000, ctx "alice", OpAdd (draws "r") (add None (Some "a.md") ["BOB@x"]));
  (6000, ctx "bob", OpAdd (draws "p") (add (Some "r-id") None []));
  (7000, ctx "bob", OpAdd (draws "q") (add (Some "p-id") None []));
  (8000, ctx "alice", OpDelete (draws "x") "r-id")].
End Sample.

(** The add commits: a comment, a mention, three events and two deliveries. *)
Example sample_root :
  (length Sample.root.(w_db).(comments), length Sample.root.(w_db).(commentMentions),
   ev_type <$> Sample.root.(w_db).(events), del_eventType <$> Sample.root.(w_db).(webhookDeliveries),
   Sample.root.(w_wakeups)) =
  (1%nat, 1%nat, ["comment_mention"; "comment_created"; "comment_notification"],
   ["comment.created"; "comment.mentioned"], 1%nat).
Proof. by vm_compute. Qed.

Lemma comment_mentions_synced_witness :
  exists r w' ids row, commentUpdate (rt := ascii_runtime) (Sample.draws "u") 9000 (Sample.ctx "alice") "r-id" "bye" (Some []) Sample.root
      = (Ok r, w') /\
    getScopedComment Sample.root.(w_db) (Sample.ctx "alice") "r-id" = Some row /\
    (forall u, mentioned w'.(w_db) "r-id" u = bool_decide (u ∈ (ids : list string))) /\
    (ev_status <$> w'.(w_db).(events)) = [EvDeleted; EvCreated; EvCreated; EvCreated].
Proof.
  destruct (commentUpdate (rt := ascii_runtime) (Sample.draws "u") 9000 (Sample.ctx "alice") "r-id" "bye" (Some []) Sample.root)
    as [[r|e] w'] eqn:E; [|vm_compute in E; discriminate].
  destruct (comment_mentions_synced (rt := ascii_runtime) (Sample.draws "u") 9000 (Sample.ctx "alice") "r-id" "bye" [] Sample.root r w' E)
    as (ids & row & _ & Hrow & Hm & _).
  exists r, w', ids, row. split; [reflexivity|]. split; [exact Hrow|]. split; [exact Hm|].
  vm_compute in E. injection E as _ <-. vm_compute. reflexivity.
Defined.

Lemma threads_stay_whole_witness :
  let w := foldl (fun w o => comment_step (rt := ascii_runtime) o.1.1 o.1.2 o.2 w) Sample.world Sample.ops in
  threads w.(w_db).(comments) /\
  ((fun c => (c.(com_id), c.(com_parentId), c.(com_isDeleted))) <$> w.(w_db).(comments)) =
    [("r-id", None, true); ("p-id", Some "r-id", true)].
Proof.
  split; [|vm_compute; reflexivity].
  apply (threads_stay_whole (rt := ascii_runtime) Sample.ops Sample.world).
  - repeat (apply Forall_cons; split; [cbn; discriminate || exact I|]). apply Forall_nil. exact I.
  - split; [apply NoDup_nil_2|split; [intros c Hc|intros c p Hc]]; exfalso; exact (not_elem_of_nil c Hc).
Defined.

Lemma comment_authority_witness :
  exists kept new, (comment_step (rt := ascii_runtime) 6000 (Sample.ctx "bob") (OpAdd (Sample.draws "p") (Sample.add (Some "r-id") None []))
      Sample.root).(w_db).(comments) = kept ++ new /\ (length new <= 1)%nat /\
    Forall (fun c => in_drive (Sample.ctx "bob") c /\ c.(com_author) = "bob") new /\
    Forall2 (comment_evolves (Sample.ctx "bob") Sample.root.(w_db).(comments)) Sample.root.(w_db).(comments) kept.
Proof.
  apply (comment_authority (rt := ascii_runtime) 6000 (Sample.ctx "bob") (OpAdd (Sample.draws "p") (Sample.add (Some "r-id") None []))
      Sample.root).
  vm_compute. repeat constructor. set_solver.
Defined.

(** A reply keeps the path the caller gives it: when the file of its root is
    removed, [rm] deletes the comments of that path and leaves the reply live. *)
Example reply_path_escapes_thread :
  let w := foldl (fun w o => comment_step (rt := ascii_runtime) o.1.1 o.1.2 o.2 w) Sample.world
    [(5000, Sample.ctx "alice", OpAdd (Sample.draws "r") (Sample.add None (Some "a.md") []));
     (6000, Sample.ctx "bob", OpAdd (Sample.draws "p") (Sample.add (Some "r-id") (Some "b.md") []))] in
  ((fun c => (c.(com_parentId), c.(com_path), c.(com_isDeleted))) <$>
     (delete_comments "d" "/a.md" 7000 w.(w_db)).(comments)) =
  [(None, "/a.md", true); (Some "r-id", "/b.md", false)].
Proof. by vm_compute. Qed.

(** A root added with an empty [parentId] is stored with one, and the default
    listing, which asks for no parent, leaves it out. *)
Example empty_parent_is_hidden :
  let w := (commentAdd (rt := ascii_runtime) (Sample.draws "r") 5000 (Sample.ctx "alice") (Sample.add (Some "") (Some "a.md") []) Sample.world).2 in
  length w.(w_db).(comments) = 1%nat /\
  (commentList (Sample.ctx "alice") (Build_CommentListParams (Some "a.md") None None None None None None) w).1 = Ok [].
Proof. by vm_compute. Qed.

(** [resolved: true] does not filter: it lists the open threads too. *)
Example resolved_lists_open :
  match (commentList (Sample.ctx "alice") (Build_CommentListParams None None None (Some true) None None None) Sample.root).1 with
  | Ok l => (fun t => t.1.(ce_resolved)) <$> l = [false]
  | Throw _ => False
  end.
Proof. by vm_compute. Qed.
