(* ===== verification/JbPath.v ===== *)
(** * Paths of the just-bash adapter: packages/just-bash/src/index.ts (helpers)

    The adapter keys its caches and its sets of known paths by normalised paths.
    A path is normalised when it is the rendering of a list of clean segments
    (not empty, not a dot segment, without a slash); every helper of the source
    is related to an operation on that list: [dirname] drops the last segment,
    [basename] is it, [joinPath] appends one. *)

From S2P Require Import Prelude JsString Paths.

(** ** The helpers *)

(** [resolved.pop()] for a dot-dot, [resolved.push(part)] otherwise. *)
Definition resolve_part (resolved : list string) (part : string) : list string :=
  if bool_decide (part = "..") then removelast resolved else resolved ++ [part].

Definition normalizePath (path : string) : string :=
  if bool_decide (path = "") || bool_decide (path = "/") then "/"
  else
    let normalized := if ends_with "/" path && negb (bool_decide (path = "/")) then drop_last_char path else path in
    let normalized := if starts_with "/" normalized then normalized else "/" +:+ normalized in
    let parts := filter (fun part => part <> "" /\ part <> ".") (split_on is_slash normalized) in
    "/" +:+ join "/" (foldl resolve_part [] parts).

(** [s.lastIndexOf("/")]: -1 when there is none. *)
Fixpoint last_slash (s : string) : Z :=
  match s with
  | EmptyString => -1
  | String c s' =>
      let i := last_slash s' in
      if (0 <=? i)%Z then (i + 1)%Z else if is_slash c then 0%Z else (-1)%Z
  end.

Definition dirname (path : string) : string :=
  let normalized := normalizePath path in
  if bool_decide (normalized = "/") then "/"
  else
    let index := last_slash normalized in
    if (index =? 0)%Z then "/" else take_str (Z.to_nat index) normalized.

Definition basename (path : string) : string :=
  let normalized := normalizePath path in
  if bool_decide (normalized = "/") then "/"
  else drop_str (Z.to_nat (last_slash normalized + 1)) normalized.

Definition joinPath (parent child : string) : string :=
  normalizePath (if bool_decide (parent = "/") then "/" +:+ child else parent +:+ "/" +:+ child).

Definition resolvePath (base path : string) : string :=
  if starts_with "/" path then normalizePath path
  else normalizePath (if bool_decide (base = "/") then "/" +:+ path else base +:+ "/" +:+ path).

Definition stripTrailingSlash (value : string) : string :=
  if ends_with "/" value then drop_last_char value else value.

(** ** Normalised paths as lists of segments *)

Definition clean (part : string) : Prop :=
  part <> "" /\ part <> "." /\ part <> ".." /\ has_char slash part = false.

#[export] Instance clean_dec part : Decision (clean part).
Proof. unfold clean. apply _. Defined.

Definition render (l : list string) : string := "/" +:+ join "/" l.

(** The segments that [normalizePath] keeps of a path. *)
Definition segments (path : string) : list string :=
  foldl resolve_part [] (filter (fun part => part <> "" /\ part <> ".") (split_on is_slash path)).

(** A path the adapter may use as a key. *)
Definition canonical (p : string) : Prop := exists l, p = render l /\ Forall clean l.

(** ** Lemmas *)

Lemma split_on_no_slash s : Forall (fun p => has_char slash p = false) (split_on is_slash s).
Proof.
  induction s as [|c s IH]; cbn; [by repeat constructor|].
  unfold is_slash at 1. case_bool_decide as Hc; [by constructor|].
  destruct (split_on is_slash s) as [|w ws]; [constructor; [|done]|].
  - cbn. by rewrite bool_decide_false by done.
  - inversion IH as [|? ? Hw Hws]; subst. constructor; [|done]. cbn. rewrite Hw, bool_decide_false by congruence. done.
Qed.

Lemma elem_of_removelast {A} (x : A) l : x ∈ removelast l -> x ∈ l.
Proof.
  induction l as [|y [|z l] IH]; cbn; [done|by intros ?%elem_of_nil|].
  intros [->|H]%elem_of_cons; [apply list_elem_of_here|]. by apply list_elem_of_further, IH.
Qed.

Lemma resolve_part_clean resolved part :
  Forall clean resolved -> part <> "" -> part <> "." -> has_char slash part = false -> Forall clean (resolve_part resolved part).
Proof.
  intros H ? ? ?. unfold resolve_part. case_bool_decide as Hd.
  - rewrite Forall_forall in *. intros x Hx. by apply H, elem_of_removelast.
  - apply Forall_app. split; [done|]. by constructor.
Qed.

Lemma foldl_resolve_clean parts resolved :
  Forall clean resolved -> Forall (fun p => p <> "" /\ p <> "." /\ has_char slash p = false) parts ->
  Forall clean (foldl resolve_part resolved parts).
Proof.
  revert resolved. induction parts as [|p parts IH]; intros resolved Hr Hp; cbn; [done|].
  inversion Hp as [|? ? (? & ? & ?) ?]; subst. apply IH; [by apply resolve_part_clean|done].
Qed.

Lemma segments_clean path : Forall clean (segments path).
Proof.
  apply foldl_resolve_clean; [constructor|]. apply Forall_forall. intros p [[? ?] Hp]%list_elem_of_filter.
  pose proof (split_on_no_slash path) as Hall. rewrite Forall_forall in Hall. auto.
Qed.

Lemma foldl_resolve_plain l resolved : Forall clean l -> foldl resolve_part resolved l = resolved ++ l.
Proof.
  revert resolved. induction l as [|x l IH]; intros resolved H; cbn; [by rewrite app_nil_r|].
  inversion H as [|? ? (? & ? & ? & ?) ?]; subst. rewrite IH by done.
  unfold resolve_part. rewrite bool_decide_false by done. by rewrite <- app_assoc.
Qed.

Lemma split_clean x : clean x -> split_on is_slash x = [x].
Proof. intros (_ & _ & _ & H). by apply (split_on_no_sep slash). Qed.

Lemma split_join l : l <> [] -> Forall clean l -> split_on is_slash (join "/" l) = l.
Proof.
  induction l as [|x l IH]; intros Hne H; [done|]. inversion H as [|? ? Hx Hl]; subst.
  destruct l as [|y l]; [by apply split_clean|].
  change (join "/" (x :: y :: l)) with (x +:+ String slash (join "/" (y :: l))).
  rewrite split_on_app_sep by done. rewrite IH by done. by rewrite (split_clean x).
Qed.

Lemma split_render l : Forall clean l -> filter (fun part => part <> "" /\ part <> ".") (split_on is_slash (render l)) = l.
Proof.
  intros H. unfold render. change ("/" +:+ join "/" l) with ("" +:+ String slash (join "/" l)).
  rewrite split_on_app_sep by done. cbn [split_on app].
  destruct l as [|x l]; [done|].
  rewrite split_join by done. rewrite filter_cons_False by tauto. revert H. generalize (x :: l). intros k H. induction H as [|y m Hy Hm IH]; [done|].
  destruct Hy as (? & ? & _). rewrite filter_cons_True by done. by rewrite IH.
Qed.

Lemma segments_render l : Forall clean l -> segments (render l) = l.
Proof. intros H. unfold segments. rewrite split_render by done. by rewrite foldl_resolve_plain. Qed.

(** Cutting a final slash, or adding a first one, keeps the segments. *)
Lemma segments_slash_end p : segments (p +:+ "/") = segments p.
Proof.
  unfold segments. change (p +:+ "/") with (p +:+ String slash ""). rewrite split_on_app_sep by done.
  rewrite filter_app. cbn. by rewrite app_nil_r.
Qed.

Lemma segments_slash_start p : segments ("/" +:+ p) = segments p.
Proof.
  unfold segments. change ("/" +:+ p) with ("" +:+ String slash p). rewrite split_on_app_sep by done.
  done.
Qed.

Lemma drop_last_slash p : ends_with "/" p = true -> drop_last_char p +:+ "/" = p.
Proof. intros [a ->]%ends_with_spec. by rewrite drop_last_char_app. Qed.

(** [normalizePath] renders the resolved segments of the path. *)
Lemma normalizePath_render path : normalizePath path = render (segments path).
Proof.
  unfold normalizePath. case_bool_decide as H1; [by subst|]. case_bool_decide as H2; [by subst|]. cbn [orb].
  rewrite andb_true_r.
  set (p1 := if ends_with "/" path then drop_last_char path else path).
  assert (H : segments p1 = segments path).
  { subst p1. destruct (ends_with "/" path) eqn:E; [|done]. rewrite <- (drop_last_slash path E) at 2. by rewrite segments_slash_end. }
  rewrite <- H. destruct (starts_with "/" p1); [done|]. by rewrite <- (segments_slash_start p1).
Qed.

Lemma render_clean_inj l m : Forall clean l -> Forall clean m -> render l = render m -> l = m.
Proof. intros Hl Hm H. by rewrite <- (segments_render l Hl), H, segments_render. Qed.

Lemma normalized_path_canonical path : canonical (normalizePath path).
Proof. rewrite normalizePath_render. eexists. split; [done|apply segments_clean]. Qed.

Lemma normalizePath_of_render l : Forall clean l -> normalizePath (render l) = render l.
Proof. intros H. by rewrite normalizePath_render, segments_render. Qed.

Lemma normalizePath_canonical_id p : canonical p -> normalizePath p = p.
Proof. intros (l & -> & H). by apply normalizePath_of_render. Qed.

Lemma render_root l : Forall clean l -> render l = "/" <-> l = [].
Proof. intros H. split; [|by intros ->]. intros E. apply (render_clean_inj l []); [done|constructor|done]. Qed.

Lemma last_slash_range s : (-1 <= last_slash s)%Z.
Proof. induction s as [|c s IH]; cbn; [lia|]. destruct (0 <=? last_slash s)%Z eqn:E, (is_slash c); lia. Qed.

Lemma last_slash_none s : has_char slash s = false -> last_slash s = (-1)%Z.
Proof.
  induction s as [|c s IH]; cbn; [done|]. intros [Hc Hs]%orb_false_iff. rewrite IH by done. cbn.
  unfold is_slash. apply bool_decide_eq_false in Hc. by rewrite bool_decide_false by congruence.
Qed.

Lemma last_slash_app a b : has_char slash b = false -> last_slash (a +:+ String slash b) = Z.of_nat (String.length a).
Proof.
  intros Hb. induction a as [|c a IH]; cbn.
  - by rewrite last_slash_none.
  - rewrite IH. destruct (0 <=? Z.of_nat (String.length a))%Z eqn:E; lia.
Qed.

Lemma join_app l m : l <> [] -> m <> [] -> join "/" (l ++ m) = join "/" l +:+ "/" +:+ join "/" m.
Proof.
  intros Hl Hm. induction l as [|y [|z l] IH]; [done|by destruct m|].
  change (join "/" ((y :: z :: l) ++ m)) with (y +:+ "/" +:+ join "/" ((z :: l) ++ m)).
  rewrite IH by done. change (join "/" (y :: z :: l)) with (y +:+ "/" +:+ join "/" (z :: l)).
  by rewrite !app_assoc_str.
Qed.

Lemma render_snoc l x : l <> [] -> render (l ++ [x]) = render l +:+ String slash x.
Proof. intros Hl. unfold render. rewrite join_app by done. by rewrite app_assoc_str. Qed.

Lemma dirname_render l : Forall clean l -> dirname (render l) = render (removelast l).
Proof.
  intros H. unfold dirname. rewrite normalizePath_of_render by done.
  case_bool_decide as E; [by apply render_root in E as ->|]. rewrite render_root in E by done.
  destruct (exists_last E) as (m & x & ->). rewrite removelast_last.
  apply Forall_app in H as [Hm [(? & ? & ? & Hx) _]%Forall_cons].
  destruct m as [|y m].
  - change (render ([] ++ [x])) with ("" +:+ String slash x). by rewrite last_slash_app.
  - rewrite render_snoc by done. rewrite last_slash_app by done. by rewrite Nat2Z.id, take_str_app.
Qed.

Lemma basename_render l x : Forall clean l -> clean x -> basename (render (l ++ [x])) = x.
Proof.
  intros H Hx. assert (Hlx : Forall clean (l ++ [x])) by (apply Forall_app; auto).
  unfold basename. rewrite normalizePath_of_render by done.
  case_bool_decide as E; [apply render_root in E; [by destruct l|done]|]. destruct Hx as (_ & _ & _ & Hx).
  assert (Hr : exists a, render (l ++ [x]) = a +:+ String slash x).
  { destruct l as [|y l]; [by exists ""|]. rewrite render_snoc by done. by eexists. }
  destruct Hr as [a ->]. rewrite last_slash_app by done.
  replace (Z.to_nat (Z.of_nat (String.length a) + 1)) with (String.length (a +:+ "/")) by (rewrite length_app_str; cbn; lia).
  replace (a +:+ String slash x) with ((a +:+ "/") +:+ x) by (by rewrite app_assoc_str). apply drop_str_app.
Qed.

Lemma joinPath_render l x : Forall clean l -> clean x -> joinPath (render l) x = render (l ++ [x]).
Proof.
  intros H Hx. unfold joinPath. case_bool_decide as E.
  - apply render_root in E as ->; [|done]. change ("/" +:+ x) with (render [x]). apply normalizePath_of_render. by constructor.
  - rewrite render_root in E by done. change (render l +:+ "/" +:+ x) with (render l +:+ String slash x).
    rewrite <- render_snoc by done. apply normalizePath_of_render. apply Forall_app. auto.
Qed.

Lemma path_dirname_canonical path : canonical (dirname path).
Proof.
  assert (dirname path = dirname (render (segments path))) as ->.
  { unfold dirname. rewrite <- normalizePath_render. by rewrite (normalizePath_canonical_id (normalizePath path)) by apply normalized_path_canonical. }
  rewrite dirname_render by apply segments_clean. eexists. split; [done|].
  pose proof (segments_clean path) as Hc. apply Forall_forall. intros x Hx%elem_of_removelast. by rewrite Forall_forall in Hc; apply Hc.
Qed.

(** A child's rendering starts with its ancestor's and a slash. *)
Lemma render_under l m : Forall clean l -> Forall clean m -> l <> [] ->
  starts_with (render l +:+ "/") (render m) = true <-> exists x k, m = l ++ x :: k.
Proof.
  intros Hl Hm Hne. rewrite starts_with_spec. split.
  - intros [r Hr]. assert (Hs : split_on is_slash (render m) = split_on is_slash (render l) ++ split_on is_slash r).
    { rewrite Hr. change ("/" +:+ r) with (String slash r). rewrite app_assoc_str. change ("/" +:+ r) with (String slash r).
      by rewrite split_on_app_sep. }
    assert (Hspl : forall k, k <> [] -> Forall clean k -> split_on is_slash (render k) = "" :: k).
    { intros k Hk Hc. unfold render. change ("/" +:+ join "/" k) with ("" +:+ String slash (join "/" k)).
      rewrite split_on_app_sep by done. by rewrite split_join. }
    assert (m <> []) as Hm0.
    { intros ->. apply (f_equal String.length) in Hr. unfold render in Hr. rewrite !length_app_str in Hr. cbn in Hr. lia. }
    rewrite !Hspl in Hs by done. injection Hs as Hs. destruct (split_on is_slash r) as [|x k] eqn:E; [by apply split_on_nonempty in E|]. eauto.
  - intros (x & k & ->). exists (join "/" (x :: k)). unfold render. rewrite join_app by done. by rewrite !app_assoc_str.
Qed.

(** ** The contract of the helpers *)

(** C34: whatever text a caller passes, every path helper answers a normalised
    path (absolute, without empty or dot segments), normalising again changes
    nothing, and splitting a normalised path other than the root into its
    directory and its name, and joining them, gives the path back. *)
Theorem path_helpers_canonical (path base child : string) :
  canonical (normalizePath path) /\
  normalizePath (normalizePath path) = normalizePath path /\
  canonical (dirname path) /\ canonical (joinPath base child) /\ canonical (resolvePath base path) /\
  (normalizePath path = "/" \/
   (clean (basename path) /\ joinPath (dirname path) (basename path) = normalizePath path /\
    exists l, dirname path = render l /\ Forall clean l /\ normalizePath path = render (l ++ [basename path]))).
Proof.
  assert (Hd : dirname path = render (removelast (segments path)) /\ basename path = basename (render (segments path))).
  { rewrite <- dirname_render by apply segments_clean. unfold dirname, basename. rewrite <- normalizePath_render.
    by rewrite (normalizePath_canonical_id (normalizePath path)) by apply normalized_path_canonical. }
  pose proof (segments_clean path) as Hc.
  split_and!.
  - apply normalized_path_canonical.
  - apply normalizePath_canonical_id, normalized_path_canonical.
  - apply path_dirname_canonical.
  - apply normalized_path_canonical.
  - unfold resolvePath. destruct (starts_with "/" path); apply normalized_path_canonical.
  - rewrite (proj1 Hd), (proj2 Hd), normalizePath_render.
    destruct (decide (segments path = [])) as [E|E]; [left; by rewrite E|right].
    destruct (exists_last E) as (m & x & Em). rewrite Em in *. rewrite removelast_last.
    apply Forall_app in Hc as [Hm [Hx _]%Forall_cons]. rewrite basename_render, joinPath_render by done.
    split_and!; [done..|]. by exists m.
Qed.
