(* ===== verification/RequestCache.v ===== *)
(** * The request cache of the just-bash adapter: packages/just-bash/src/index.ts ([RequestCache])

    Answers by path with the time they arrived, and the requests in flight.  A
    load is asynchronous: [rc_get] either has the answer, shares a request in
    flight, or starts request number [rc_next]; [rc_settle] is the continuation
    that runs when that request's promise settles.  A write drops a path
    ([rc_delete]) or a tree ([rc_deleteTree]).  The theorem: whatever the
    interleaving, an answer handed out after a drop of its path was loaded by a
    request made after the drop, arrived less than a life ago, and the cache
    never holds more than its bound. *)

From S2P Require Import Prelude JsString Paths JsMap.
#[local] Open Scope Z_scope.

Definition MAX_CACHE_ENTRIES : nat := Z.to_nat 10000.
Definition DEFAULT_CACHE_TTL_MS : Z := 5000.

(** [cacheTtlMs]: a number of milliseconds, or [Infinity]. *)
Inductive ttl : Type :=
| Ms (n : Z)
| Infinity.

Section RequestCache.
Context {T : Type}.

(** A [Map] of answers in arrival order; [inFlight] maps a path to its request. *)
Record RequestCache : Type := {
  rc_ttlMs : ttl;
  rc_answers : jsmap string (Z * T);
  rc_inFlight : jsmap string nat;
  rc_next : nat
}.
#[export] Instance eta_RequestCache : Eta RequestCache := fun c =>
  {| rc_ttlMs := rc_ttlMs c; rc_answers := rc_answers c; rc_inFlight := rc_inFlight c; rc_next := rc_next c |}.

Definition new_cache (ttlMs : ttl) : RequestCache :=
  {| rc_ttlMs := ttlMs; rc_answers := []; rc_inFlight := []; rc_next := 0 |}.

(** [Date.now() - at < this.ttlMs]. *)
Definition isFresh (now at_ : Z) (t : ttl) : bool :=
  match t with Ms n => now - at_ <? n | Infinity => true end.

(** [this.ttlMs > 0]. *)
Definition caches (t : ttl) : bool := match t with Ms n => 0 <? n | Infinity => true end.

Definition rc_answer (now : Z) (path : string) (c : RequestCache) : option T :=
  match jm_get path c.(rc_answers) with
  | Some hit => if isFresh now hit.1 c.(rc_ttlMs) then Some hit.2 else None
  | None => None
  end.

(** What a caller of [get] waits for: an answer, a request of another caller, a
    request of its own that the cache tracks, or one it does not. *)
Inductive got : Type :=
| Hit (value : T)
| Shared (request : nat)
| Started (request : nat)
| Untracked.

Definition rc_get (now : Z) (path : string) (c : RequestCache) : got * RequestCache :=
  match rc_answer now path c with
  | Some value => (Hit value, c)
  | None =>
      match jm_get path c.(rc_inFlight) with
      | Some pending => (Shared pending, c)
      | None =>
          if caches c.(rc_ttlMs) then
            let request := c.(rc_next) in
            (Started request, c <| rc_inFlight := jm_set path request c.(rc_inFlight) |> <| rc_next := S request |>)
          else (Untracked, c)
      end
  end.

(** The scan deletes from the front and stops at the first answer it keeps. *)
Fixpoint prune (now : Z) (t : ttl) (answers : jsmap string (Z * T)) : jsmap string (Z * T) :=
  match answers with
  | [] => []
  | e :: rest =>
      if bool_decide (length answers <= MAX_CACHE_ENTRIES)%nat && isFresh now e.2.1 t then answers
      else prune now t rest
  end.

(** The two continuations of [request.then]: a value, or a failure. *)
Definition rc_settle (now : Z) (path : string) (request : nat) (result : option T) (c : RequestCache) : RequestCache :=
  if decide (jm_get path c.(rc_inFlight) = Some request) then
    let c := c <| rc_inFlight := jm_delete path c.(rc_inFlight) |> in
    match result with
    | Some value =>
        c <| rc_answers := prune now c.(rc_ttlMs) (jm_set path (now, value) (jm_delete path c.(rc_answers))) |>
    | None => c
    end
  else c.

Definition rc_delete (path : string) (c : RequestCache) : RequestCache :=
  c <| rc_answers := jm_delete path c.(rc_answers) |> <| rc_inFlight := jm_delete path c.(rc_inFlight) |>.

(** [for (const key of [...map.keys()]) if (key.startsWith(prefix)) map.delete(key)]. *)
Definition drop_prefix {V} (prefix : string) (m : jsmap string V) : jsmap string V :=
  foldl (fun m key => if starts_with prefix key then jm_delete key m else m) m m.*1.

#[local] Arguments drop_prefix : simpl never.

Definition rc_deleteTree (path : string) (c : RequestCache) : RequestCache :=
  if bool_decide (path = "/") then c <| rc_answers := [] |> <| rc_inFlight := [] |>
  else
    let c := rc_delete path c in
    let prefix := path +:+ "/" in
    c <| rc_answers := drop_prefix prefix c.(rc_answers) |> <| rc_inFlight := drop_prefix prefix c.(rc_inFlight) |>.

(** ** Histories *)

(** What request [r] answers: a value, or a failure. *)
Variable loaded : nat -> option T.

Inductive cache_op : Type :=
| CacheGet (now : Z) (path : string)
| CacheSettle (now : Z) (path : string) (request : nat)
| CacheDelete (path : string)
| CacheDeleteTree (path : string).

Definition cache_step (op : cache_op) (c : RequestCache) : RequestCache :=
  match op with
  | CacheGet now path => (rc_get now path c).2
  | CacheSettle now path request => rc_settle now path request (loaded request) c
  | CacheDelete path => rc_delete path c
  | CacheDeleteTree path => rc_deleteTree path c
  end.

Definition cache_run (ops : list cache_op) (c : RequestCache) : RequestCache := foldl (fun c op => cache_step op c) c ops.

(** The paths an op drops. *)
Definition drops (op : cache_op) (path : string) : Prop :=
  match op with
  | CacheDelete p => path = p
  | CacheDeleteTree p => p = "/" \/ path = p \/ starts_with (p +:+ "/") path = true
  | _ => False
  end.

(** Everything the cache holds for [path], or is loading for it, comes from
    requests numbered from [n]. *)
Record since (n : nat) (path : string) (c : RequestCache) : Prop := {
  si_next : (n <= c.(rc_next))%nat;
  si_answer : forall at_ v, jm_get path c.(rc_answers) = Some (at_, v) -> exists r, (n <= r)%nat /\ loaded r = Some v;
  si_flight : forall r, jm_get path c.(rc_inFlight) = Some r -> (n <= r)%nat
}.

(** Requests are numbered in order, and the bound holds. *)
Record cache_wf (c : RequestCache) : Prop := {
  cw_flight : forall p r, jm_get p c.(rc_inFlight) = Some r -> (r < c.(rc_next))%nat;
  cw_keys : jm_wf c.(rc_answers);
  cw_bound : (length c.(rc_answers) <= MAX_CACHE_ENTRIES)%nat
}.

(** ** Lemmas *)

Lemma jm_get_drop_prefix {V} prefix k (m : jsmap string V) :
  jm_get k (drop_prefix prefix m) = if starts_with prefix k then None else jm_get k m.
Proof.
  unfold drop_prefix. assert (H : forall keys (m' : jsmap string V), jm_get k (foldl (fun m key => if starts_with prefix key then jm_delete key m else m) m' keys) =
    if starts_with prefix k && bool_decide (k ∈ keys) then None else jm_get k m').
  { induction keys as [|key keys IH]; intros m'; cbn [foldl]; [by rewrite bool_decide_false, andb_false_r by apply not_elem_of_nil|].
    rewrite IH. destruct (decide (key = k)) as [->|Hne].
    - rewrite (bool_decide_true (k ∈ k :: keys)) by left. destruct (starts_with prefix k); cbn; [|done].
      rewrite jm_get_delete, decide_True by done. by case_bool_decide.
    - rewrite (bool_decide_ext (k ∈ key :: keys) (k ∈ keys)) by (rewrite elem_of_cons; naive_solver).
      destruct (starts_with prefix key); [|done]. by rewrite jm_get_delete, decide_False. }
  rewrite H. destruct (starts_with prefix k); [|done]. cbn. case_bool_decide as Hin; [done|]. by apply jm_get_none.
Qed.

Lemma length_delete_where_le {A} (P : A -> Prop) `{forall a, Decision (P a)} (l : list A) : (length (delete_where P l) <= length l)%nat.
Proof. apply length_filter. Qed.

Lemma length_drop_prefix {V} prefix (m : jsmap string V) : (length (drop_prefix prefix m) <= length m)%nat.
Proof.
  unfold drop_prefix. generalize m.*1. intros keys. revert m. induction keys as [|key keys IH]; intros m; cbn; [done|].
  etrans; [apply IH|]. destruct (starts_with prefix key); [apply length_delete_where_le|done].
Qed.

Lemma prune_suffix now t l : exists k, prune now t l = drop k l.
Proof.
  induction l as [|e l [k IH]]; [by exists 0%nat|]. cbn [prune]. destruct (_ && _); [by exists 0%nat|].
  rewrite IH. by exists (S k).
Qed.

Lemma prune_bound now t l : (length (prune now t l) <= MAX_CACHE_ENTRIES)%nat.
Proof.
  induction l as [|e l IH]; cbn [prune]; [apply Nat.le_0_l|].
  case_bool_decide as H; cbn [andb]; [|done]. by destruct (isFresh now e.2.1 t).
Qed.

Lemma jm_get_drop {V} n k (m : jsmap string V) v : jm_wf m -> jm_get k (drop n m) = Some v -> jm_get k m = Some v.
Proof.
  intros Hm Hg. apply jm_get_elem; [done|]. assert (jm_wf (drop n m)) as Hd.
  { unfold jm_wf in *. rewrite fmap_drop. eapply sublist_NoDup; [exact Hm|apply sublist_drop]. }
  apply jm_get_elem in Hg; [|done]. rewrite <- (take_drop n m). apply elem_of_app. by right.
Qed.

Lemma jm_wf_drop_prefix {V} prefix (m : jsmap string V) : jm_wf m -> jm_wf (drop_prefix prefix m).
Proof.
  unfold drop_prefix. generalize m.*1. intros keys. revert m. induction keys as [|key keys IH]; intros m Hm; cbn; [done|].
  apply IH. destruct (starts_with prefix key); auto with table.
Qed.

Lemma jm_wf_prune now t (m : jsmap string (Z * T)) : jm_wf m -> jm_wf (prune now t m).
Proof.
  destruct (prune_suffix now t m) as [k ->]. unfold jm_wf. rewrite fmap_drop. intros H.
  eapply sublist_NoDup; [exact H|apply sublist_drop].
Qed.

(** What the operations do to one path. *)
Lemma rc_get_state now p c : (rc_get now p c).2 = c \/
  (jm_get p c.(rc_inFlight) = None /\
   (rc_get now p c).2 = c <| rc_inFlight := jm_set p c.(rc_next) c.(rc_inFlight) |> <| rc_next := S c.(rc_next) |>).
Proof.
  unfold rc_get. destruct (rc_answer now p c); [by left|]. destruct (jm_get p c.(rc_inFlight)) eqn:E; [by left|].
  destruct (caches _); [right|by left]. done.
Qed.

Lemma rc_settle_state now p r c : cache_wf c -> jm_get p c.(rc_inFlight) = Some r ->
  let c' := rc_settle now p r (loaded r) c in
  rc_next c' = rc_next c /\ rc_inFlight c' = jm_delete p c.(rc_inFlight) /\
  (forall q at_ v, jm_get q (rc_answers c') = Some (at_, v) ->
     (q = p /\ loaded r = Some v) \/ jm_get q c.(rc_answers) = Some (at_, v)).
Proof.
  intros [_ Hk _] Hr. unfold rc_settle. rewrite decide_True by done. destruct (loaded r) as [v0|]; cbn; [|auto].
  split_and!; [done|done|]. intros q at_ v Hg.
  assert (Hwf : jm_wf (jm_set p (now, v0) (jm_delete p c.(rc_answers)))) by auto with table.
  destruct (prune_suffix now (rc_ttlMs c) (jm_set p (now, v0) (jm_delete p c.(rc_answers)))) as [k Hp].
  rewrite Hp in Hg. apply jm_get_drop in Hg; [|done]. rewrite jm_get_set in Hg. case_decide as E; [subst|].
  - injection Hg as _ <-. by left.
  - rewrite jm_get_delete, decide_False in Hg by done. by right.
Qed.

Lemma cache_step_wf op c : cache_wf c -> cache_wf (cache_step op c).
Proof.
  intros Hwf. pose proof Hwf as [Hf Hk Hb]. destruct op as [now p|now p r|p|p]; cbn [cache_step].
  - destruct (rc_get_state now p c) as [->|[Hn ->]]; [done|]. split; cbn; [|done|done].
    intros q r. rewrite jm_get_set. case_decide; [intros [= <-]; lia|]. intros ?%Hf. lia.
  - unfold rc_settle. case_decide as Hr; [|done]. destruct (loaded r) as [v|]; split; cbn; auto using prune_bound.
    + intros q r'. rewrite jm_get_delete. case_decide; [done|]. apply Hf.
    + apply jm_wf_prune. auto with table.
    + intros q r'. rewrite jm_get_delete. case_decide; [done|]. apply Hf.
  - split; cbn; [|auto with table|].
    + intros q r'. rewrite jm_get_delete. case_decide; [done|]. apply Hf.
    + etrans; [apply length_delete_where_le|done].
  - unfold rc_deleteTree. case_bool_decide; [by split; [|apply jm_wf_nil|apply Nat.le_0_l]|]. split; cbn.
    + intros q r'. rewrite jm_get_drop_prefix. destruct (starts_with _ q); [done|]. rewrite jm_get_delete. case_decide; [done|]. apply Hf.
    + apply jm_wf_drop_prefix. auto with table.
    + etrans; [apply length_drop_prefix|]. etrans; [apply length_delete_where_le|done].
Qed.

Lemma cache_run_wf ops c : cache_wf c -> cache_wf (cache_run ops c).
Proof. revert c. induction ops as [|op ops IH]; intros c H; [done|]. cbn. by apply IH, cache_step_wf. Qed.

Lemma new_cache_wf t : cache_wf (new_cache t).
Proof. split; cbn; [done|apply jm_wf_nil|apply Nat.le_0_l]. Qed.

(** A drop leaves nothing of the path, so the next request is the first. *)
Lemma drop_since op path c : drops op path -> since c.(rc_next) path (cache_step op c).
Proof.
  assert (Htree : forall p : string, starts_with (p +:+ "/") p = false).
  { intros p. apply not_true_iff_false. intros [r Hr]%starts_with_spec. apply (f_equal String.length) in Hr.
    rewrite !length_app_str in Hr. cbn in Hr. lia. }
  destruct op as [now p|now p r|p|p]; cbn [drops cache_step]; [done|done| |].
  - intros ->. split; cbn; [done| |]; rewrite jm_get_delete, decide_True by done; done.
  - intros H. unfold rc_deleteTree. case_bool_decide as E; [by split|]. destruct H as [?|H]; [done|].
    split; cbn; [done| |]; rewrite jm_get_drop_prefix, jm_get_delete; destruct H as [->|H].
    1, 3: by rewrite Htree, decide_True. all: by rewrite H.
Qed.

Lemma since_step op n path c : cache_wf c -> since n path c -> since n path (cache_step op c).
Proof.
  intros Hwf Hs. pose proof Hwf as [Hf Hk Hb]. pose proof Hs as [Hn Ha Hi]. destruct op as [now p|now p r|p|p]; cbn [cache_step].
  - destruct (rc_get_state now p c) as [->|[Hnone ->]]; [done|]. split; cbn; [lia|done|].
    intros r. rewrite jm_get_set. case_decide; [intros [= <-]; lia|]. apply Hi.
  - destruct (decide (jm_get p c.(rc_inFlight) = Some r)) as [Hr|Hr].
    + destruct (rc_settle_state now p r c Hwf Hr) as (E1 & E2 & E3). split.
      * by rewrite E1.
      * intros at_ v [[-> Hv]|Hv]%E3; [|by eapply Ha]. exists r. split; [by apply Hi|done].
      * rewrite E2. intros r'. rewrite jm_get_delete. case_decide; [done|]. apply Hi.
    + unfold rc_settle. by rewrite decide_False.
  - split; cbn; [done| |].
    + intros at_ v. rewrite jm_get_delete. case_decide; [done|]. apply Ha.
    + intros r. rewrite jm_get_delete. case_decide; [done|]. apply Hi.
  - unfold rc_deleteTree. case_bool_decide; [by split|]. split; cbn; [done| |].
    + intros at_ v. rewrite jm_get_drop_prefix. destruct (starts_with _ path); [done|]. rewrite jm_get_delete. case_decide; [done|]. apply Ha.
    + intros r. rewrite jm_get_drop_prefix. destruct (starts_with _ path); [done|]. rewrite jm_get_delete. case_decide; [done|]. apply Hi.
Qed.

Lemma since_run ops n path c : cache_wf c -> since n path c -> since n path (cache_run ops c).
Proof.
  revert c. induction ops as [|op ops IH]; intros c Hwf Hs; [done|]. cbn. apply IH; [by apply cache_step_wf|by apply since_step].
Qed.

(** Whatever the interleaving of reads, settlements and drops, once a write
    has dropped a path, every answer handed out for it was loaded by a request
    started after the drop, and arrived less than a life ago; a shared or new
    request also started after the drop.  The cache holds at most its bound. *)
Theorem cache_answers_after_drop t before d after path now :
  drops d path ->
  let c0 := cache_run before (new_cache t) in
  let c := cache_run after (cache_step d c0) in
  (length c.(rc_answers) <= MAX_CACHE_ENTRIES)%nat /\
  match (rc_get now path c).1 with
  | Hit v => (exists r, (rc_next c0 <= r)%nat /\ loaded r = Some v) /\
             exists at_, jm_get path c.(rc_answers) = Some (at_, v) /\ isFresh now at_ c.(rc_ttlMs) = true
  | Shared r | Started r => (rc_next c0 <= r)%nat
  | Untracked => True
  end.
Proof.
  intros Hd c0 c. assert (Hwf0 : cache_wf c0) by apply cache_run_wf, new_cache_wf.
  assert (Hwf : cache_wf c) by (apply cache_run_wf; by apply cache_step_wf).
  assert (Hs : since (rc_next c0) path c) by (apply since_run; [by apply cache_step_wf|by apply drop_since]).
  destruct Hwf as [_ _ Hb]. split; [done|]. destruct Hs as [Hn Ha Hf]. unfold rc_get, rc_answer.
  destruct (jm_get path c.(rc_answers)) as [[at_ v]|] eqn:E; cbn.
  - destruct (isFresh now at_ c.(rc_ttlMs)) eqn:Ef; cbn; [split; [by eapply Ha|by exists at_]|].
    destruct (jm_get path c.(rc_inFlight)) eqn:Ei; cbn; [by apply Hf|]. by destruct (caches _).
  - destruct (jm_get path c.(rc_inFlight)) eqn:Ei; cbn; [by apply Hf|]. by destruct (caches _).
Qed.
End RequestCache.
Arguments RequestCache : clear implicits.
Arguments got : clear implicits.
#[global] Arguments drop_prefix : simpl never.

Lemma cache_answers_after_drop_witness :
  let loaded (r : nat) := Some (Z.of_nat r) in
  let before := [CacheGet 0 "/a/b"; CacheGet 1 "/c"; CacheSettle 2 "/c" 1] in
  let d := CacheDeleteTree "/a" in
  let after := [CacheSettle 3 "/a/b" 0; CacheGet 4 "/a/b"; CacheSettle 5 "/a/b" 2] in
  let c0 := cache_run loaded before (new_cache (Ms 5000)) in
  let c := cache_run loaded after (cache_step loaded d c0) in
  (length c.(rc_answers) <= MAX_CACHE_ENTRIES)%nat /\
  match (rc_get 6 "/a/b" c).1 with
  | Hit v => (exists r, (rc_next c0 <= r)%nat /\ loaded r = Some v) /\
             exists at_, jm_get "/a/b" c.(rc_answers) = Some (at_, v) /\ isFresh 6 at_ c.(rc_ttlMs) = true
  | Shared r | Started r => (rc_next c0 <= r)%nat
  | Untracked => True
  end.
Proof. apply (cache_answers_after_drop (fun r => Some (Z.of_nat r)) (Ms 5000) _ (CacheDeleteTree "/a") _ "/a/b"). right. right. reflexivity. Defined.
