(* ===== verification/JbBytes.v ===== *)
(** * File contents of the just-bash adapter: packages/just-bash/src/index.ts (encodings)

    A file's content is text in one of Node's encodings or raw bytes.  Bytes are
    a string of bytes; text is UTF-8, read by UTF-16 unit where the source reads
    [charCodeAt].  The theorem: what a read decodes, a write with the same
    encoding stores back byte for byte, and what the exact limits of that are. *)

From S2P Require Import Prelude JsString Text Utf16 Base64.

(** ** Errors of the adapter: [Error], and [AgentFsHttpError] which extends it *)

Inductive js_error : Type :=
| JsError (message : string)
| AgentFsHttpError (message : string) (status : Z) (code : option string)
| OutOfFuel.

Definition message_of (e : js_error) : string :=
  match e with JsError m => m | AgentFsHttpError m _ _ => m | OutOfFuel => "" end.

Inductive BufferEncoding : Type := Enc_base64 | Enc_hex | Enc_binary | Enc_latin1 | Enc_ascii | Enc_utf_8 | Enc_utf8.

Definition getEncoding (options : option BufferEncoding) : BufferEncoding := options ?? Enc_utf8.

(** [FileContent]: a string or a [Uint8Array]. *)
Inductive FileContent : Type :=
| TextContent (value : string)
| BytesContent (bytes : string).

(** ** One unit per byte *)

Definition byte_string (l : list Z) : string := of_chars (byte_of <$> l).
Fixpoint byte_values (s : string) : list Z :=
  match s with
  | EmptyString => []
  | String c s' => byte_value c :: byte_values s'
  end.

Definition bytesToLatin1 (bytes : string) : string := of_utf16 (byte_values bytes).
Definition latin1ToBytes (value : string) : string := byte_string ((fun u => Z.land u 255) <$> to_utf16 value).
Definition bytesToAscii (bytes : string) : string := of_utf16 ((fun b => Z.land b 127) <$> byte_values bytes).
Definition asciiToBytes (value : string) : string := byte_string ((fun u => Z.land u 127) <$> to_utf16 value).

Definition concatBytes (left right : string) : string := left +:+ right.

(** ** Hex *)

Definition bytesToHex (bytes : string) : string := to_hex bytes.

(** JavaScript's white space and line terminators, as units. *)
Definition is_space_unit (u : Z) : bool :=
  bool_decide (u ∈ [9; 10; 11; 12; 13; 32; 160; 5760; 8232; 8233; 8239; 8287; 12288; 65279]) ||
  ((8192 <=? u) && (u <=? 8202)).

Definition hex_unit (u : Z) : option Z :=
  if (48 <=? u) && (u <=? 57) then Some (u - 48)
  else if (97 <=? u) && (u <=? 102) then Some (u - 87)
  else if (65 <=? u) && (u <=? 70) then Some (u - 55)
  else None.

(** The longest prefix of hex digits. *)
Fixpoint hex_prefix (acc : option Z) (units : list Z) : option Z :=
  match units with
  | [] => acc
  | u :: rest =>
      match hex_unit u with
      | Some d => hex_prefix (Some ((acc ?? 0) * 16 + d)) rest
      | None => acc
      end
  end.

Fixpoint skip_spaces (units : list Z) : list Z :=
  match units with
  | u :: rest => if is_space_unit u then skip_spaces rest else units
  | [] => []
  end.

(** [Number.parseInt(s, 16)]: white space, a sign, [0x], then digits; [None] is NaN. *)
Definition parseInt16 (units : list Z) : option Z :=
  let units := skip_spaces units in
  let '(sign, units) := match units with
    | 43 :: rest => (1, rest)
    | 45 :: rest => (-1, rest)
    | _ => (1, units)
    end in
  let units := match units with
    | 48 :: x :: rest => if (x =? 120) || (x =? 88) then rest else units
    | _ => units
    end in
  (fun n => sign * n) <$> hex_prefix None units.

(** The pairs [value.slice(i * 2, i * 2 + 2)], each stored modulo 256. *)
Fixpoint hex_bytes (units : list Z) : option (list Z) :=
  match units with
  | a :: b :: rest =>
      match parseInt16 [a; b] with
      | Some byte => (fun l => byte mod 256 :: l) <$> hex_bytes rest
      | None => None
      end
  | _ => Some []
  end.

Definition hexToBytes (value : string) : outcome js_error string :=
  let units := to_utf16 value in
  if negb (Z.of_nat (length units) mod 2 =? 0) then Throw (JsError "Invalid hex string length")
  else match hex_bytes units with
       | Some l => Ok (byte_string l)
       | None => Throw (JsError "Invalid hex string")
       end.

(** ** Base64: [btoa] and [atob] *)

Definition bytesToBase64 (bytes : string) : string := base64_encode bytes.

(** The forgiving decoder of [atob]: ASCII white space is dropped, one or two
    final equals signs complete a group, and anything else is refused. *)
Definition is_atob_space (c : ascii) : bool := bool_decide (byte_value c ∈ [9; 10; 12; 13; 32]).

Fixpoint drop_chars (p : ascii -> bool) (s : string) : string :=
  match s with
  | EmptyString => EmptyString
  | String c s' => if p c then drop_chars p s' else String c (drop_chars p s')
  end.

Definition drop_equals (s : string) : string :=
  if Nat.eqb (String.length s mod 4) 0 then
    if ends_with "==" s then take_str (String.length s - 2) s
    else if ends_with "=" s then take_str (String.length s - 1) s
    else s
  else s.

Definition atob_refused : js_error := JsError "The string to be decoded is not correctly encoded.".

Definition atob (value : string) : outcome js_error string :=
  let data := drop_equals (drop_chars is_atob_space value) in
  if Nat.eqb (String.length data mod 4) 1 || negb (all_chars is_base64_char data) then Throw atob_refused
  else Ok (of_sextets (sextets_of data)).

(** [latin1ToBytes(atob(value))]: the characters of [atob] are the bytes. *)
Definition base64ToBytes (value : string) : outcome js_error string := atob value.

(** ** The two switches *)

Definition encodeContent (content : FileContent) (encoding : BufferEncoding) : outcome js_error string :=
  match content with
  | BytesContent bytes => Ok bytes
  | TextContent content =>
      match encoding with
      | Enc_base64 => base64ToBytes content
      | Enc_hex => hexToBytes content
      | Enc_binary | Enc_latin1 => Ok (latin1ToBytes content)
      | Enc_ascii => Ok (asciiToBytes content)
      | Enc_utf_8 | Enc_utf8 => Ok content
      end
  end.

Definition decodeBytes (bytes : string) (encoding : BufferEncoding) : string :=
  match encoding with
  | Enc_base64 => bytesToBase64 bytes
  | Enc_hex => bytesToHex bytes
  | Enc_binary | Enc_latin1 => bytesToLatin1 bytes
  | Enc_ascii => bytesToAscii bytes
  | Enc_utf_8 | Enc_utf8 => decode_utf8 bytes
  end.

(** Bytes that the encoding can show: 7-bit for ASCII, well-formed UTF-8
    without a byte order mark for UTF-8. *)
Definition representable (encoding : BufferEncoding) (bytes : string) : bool :=
  match encoding with
  | Enc_ascii => ascii_only bytes
  | Enc_utf_8 | Enc_utf8 =>
      negb (starts_with (JsString.bytes [239; 187; 191]%nat) bytes) && negb (decode_from 0 128 191 "" bytes).2
  | _ => true
  end.

(** ** Lemmas *)

Lemma byte_string_values s : byte_string (byte_values s) = s.
Proof.
  unfold byte_string. induction s as [|c s IH]; [done|]. cbn. rewrite IH. f_equal. by apply byte_of_value.
Qed.

Lemma byte_values_range s : Forall (fun u => 0 <= u < 256) (byte_values s).
Proof. induction s as [|c s IH]; cbn; constructor; [apply byte_value_range|done]. Qed.

Lemma to_utf16_latin1 u s : 0 <= u < 256 -> to_utf16 (encode_point u +:+ s) = u :: to_utf16 s.
Proof.
  intros Hu. assert (Hbv : forall n, 0 <= n < 256 -> byte_value (byte_of n) = n).
  { intros n Hn. unfold byte_value, byte_of. rewrite Ascii.nat_ascii_embedding by lia. lia. }
  unfold encode_point. destruct (u <? 128) eqn:E; cbn -[Z.div Z.modulo Z.mul].
  - rewrite Hbv by lia. by rewrite E.
  - assert (E2 : u <? 2048 = true) by lia. rewrite E2. cbn -[Z.div Z.modulo Z.mul].
    unfold cont_value. rewrite !Hbv by (Z.to_euclidean_division_equations; lia).
    destruct (192 + u / 64 <? 128) eqn:E3; [Z.to_euclidean_division_equations; lia|].
    destruct (192 + u / 64 <? 224) eqn:E4; [|Z.to_euclidean_division_equations; lia].
    f_equal. Z.to_euclidean_division_equations; lia.
Qed.

Lemma to_of_utf16_latin1 l : Forall (fun u => 0 <= u < 256) l -> to_utf16 (of_utf16 l) = l.
Proof.
  induction 1 as [|u l Hu Hl IH]; [done|]. cbn [of_utf16].
  assert (is_high u = false) as -> by (unfold is_high; lia). assert (is_low u = false) as -> by (unfold is_low; lia).
  rewrite to_utf16_latin1 by lia. by rewrite IH.
Qed.

Lemma land_ones_small n u k : 0 <= k -> n = Z.ones k -> 0 <= u < 2 ^ k -> Z.land u n = u.
Proof. intros Hk -> Hu. rewrite Z.land_ones by done. by apply Z.mod_small. Qed.

Lemma fmap_id_on {A} (f : A -> A) (l : list A) (P : A -> Prop) : (forall a, P a -> f a = a) -> Forall P l -> f <$> l = l.
Proof. intros Hf. induction 1 as [|a l Ha Hl IH]; [done|]. cbn. by rewrite IH, Hf. Qed.

Lemma latin1_round_trip b : latin1ToBytes (bytesToLatin1 b) = b.
Proof.
  unfold latin1ToBytes, bytesToLatin1. rewrite to_of_utf16_latin1 by apply byte_values_range.
  rewrite (fmap_id_on _ _ (fun u => 0 <= u < 256)); [apply byte_string_values| |apply byte_values_range].
  intros u Hu. by apply (land_ones_small 255 u 8).
Qed.

Lemma ascii_values b : ascii_only b = true -> Forall (fun u => 0 <= u < 128) (byte_values b).
Proof.
  induction b as [|c b IH]; cbn -[Nat.ltb]; [constructor|]. intros [Hc Hb]%andb_true_iff. constructor; [|by apply IH].
  apply Nat.ltb_lt in Hc. unfold byte_value. lia.
Qed.

Lemma ascii_round_trip b : ascii_only b = true -> asciiToBytes (bytesToAscii b) = b.
Proof.
  intros Hb%ascii_values. unfold asciiToBytes, bytesToAscii.
  assert (Hid : (fun u => Z.land u 127) <$> byte_values b = byte_values b).
  { apply (fmap_id_on _ _ (fun u => 0 <= u < 128)); [|done]. intros u Hu. by apply (land_ones_small 127 u 7). }
  rewrite Hid, to_of_utf16_latin1; [rewrite Hid; apply byte_string_values|]. eapply Forall_impl; [exact Hb|]. cbn. lia.
Qed.

(** Text that decodes without a replacement is its own decoding. *)
Lemma decode_from_valid s need lo hi pend :
  (need = 0%nat -> pend = "") -> (decode_from need lo hi pend s).2 = false -> (decode_from need lo hi pend s).1 = pend +:+ s.
Proof.
  revert need lo hi pend. induction s as [|c s IH]; intros need lo hi pend Hp; cbn [decode_from].
  - destruct need; [by rewrite Hp|done].
  - set (start := if Nat.ltb _ 128 then _ else _).
    assert (Hstart : start.2 = false -> start.1 = String c s).
    { subst start. repeat match goal with |- context [if ?b then _ else _] => destruct b eqn:? end; cbn; intros H;
        try discriminate H; try (rewrite IH by done; done). }
    destruct need as [|k].
    + rewrite (Hp eq_refl). apply Hstart.
    + destruct (Nat.leb lo _ && Nat.leb _ hi); [|done]. destruct k as [|k]; cbn; intros H.
      * by rewrite IH.
      * rewrite IH by done. by rewrite app_assoc_str.
Qed.

Lemma to_utf16_ascii s : ascii_only s = true -> to_utf16 s = byte_values s.
Proof.
  induction s as [|c s IH]; cbn -[Nat.ltb]; [done|]. intros [Hc Hs]%andb_true_iff.
  apply Nat.ltb_lt in Hc. assert (byte_value c <? 128 = true) as -> by (unfold byte_value; lia). by rewrite IH.
Qed.

(** *** Hex *)

Lemma hex_pairs : forallb (fun n => bool_decide (parseInt16 [byte_value (hex_digit (n / 16)); byte_value (hex_digit (n mod 16))] = Some (Z.of_nat n)))
  (seq 0 256) = true.
Proof. by vm_compute. Qed.

Lemma hex_pair n : (n < 256)%nat -> parseInt16 [byte_value (hex_digit (n / 16)); byte_value (hex_digit (n mod 16))] = Some (Z.of_nat n).
Proof.
  intros Hn. pose proof hex_pairs as H. rewrite forallb_forall in H. specialize (H n).
  apply bool_decide_eq_true in H; [done|]. apply in_seq. lia.
Qed.

Lemma hex_char_ascii c : is_hex_char c = true -> (Ascii.nat_of_ascii c < 128)%nat.
Proof. unfold is_hex_char. rewrite orb_true_iff, !andb_true_iff, !Nat.leb_le. lia. Qed.

Lemma to_hex_ascii s : ascii_only (to_hex s) = true.
Proof.
  pose proof (fun n H => hex_char_ascii (hex_digit n) H) as Hd.
  assert (Hn : forall n, (n < 16)%nat -> is_hex_char (hex_digit n) = true).
  { intros n Hn. do 16 (destruct n as [|n]; [done|]). lia. }
  induction s as [|c s IH]; cbn -[hex_digit Nat.div Nat.modulo Nat.ltb]; [done|].
  pose proof (Ascii.nat_ascii_bounded c). rewrite IH.
  assert (H1 : (Ascii.nat_of_ascii c / 16 < 16)%nat) by (apply Nat.Div0.div_lt_upper_bound; lia).
  assert (H2 : (Ascii.nat_of_ascii c mod 16 < 16)%nat) by (apply Nat.mod_upper_bound; lia).
  apply Hn, Hd, Nat.ltb_lt in H1. apply Hn, Hd, Nat.ltb_lt in H2. by rewrite H1, H2.
Qed.

Lemma hex_round_trip b : hexToBytes (bytesToHex b) = Ok b.
Proof.
  unfold hexToBytes, bytesToHex. rewrite to_utf16_ascii by apply to_hex_ascii.
  assert (Hl : Z.of_nat (length (byte_values (to_hex b))) mod 2 = 0).
  { induction b as [|c b IH]; [done|]. cbn [to_hex byte_values length]. rewrite !Nat2Z.inj_succ.
    rewrite Z.mod_divide in IH by done. rewrite Z.mod_divide by done. destruct IH as [k Hk]. exists (k + 1). lia. }
  rewrite Hl. cbn [negb Z.eqb].
  assert (Hb : hex_bytes (byte_values (to_hex b)) = Some (byte_values b)).
  { clear Hl. induction b as [|c b IH]; [done|]. cbn [to_hex byte_values hex_bytes].
    rewrite hex_pair by apply Ascii.nat_ascii_bounded. rewrite IH. cbn. f_equal. f_equal.
    apply Z.mod_small. apply (byte_value_range c). }
  by rewrite Hb, byte_string_values.
Qed.

(** *** Base64 *)

Lemma drop_chars_none p s : all_chars (fun c => negb (p c)) s = true -> drop_chars p s = s.
Proof. induction s as [|c s IH]; cbn; [done|]. intros [Hc Hs]%andb_true_iff. destruct (p c); [done|]. by rewrite IH. Qed.

Lemma no_equals s : all_chars is_base64_char s = true -> ends_with "=" s = false.
Proof.
  intros Hs. apply not_true_iff_false. intros [r ->]%ends_with_spec. rewrite all_chars_app in Hs.
  apply andb_true_iff in Hs as [_ Hs]. discriminate Hs.
Qed.

Lemma all_chars_impl (p q : ascii -> bool) s : (forall c, p c = true -> q c = true) -> all_chars p s = true -> all_chars q s = true.
Proof. intros Hpq. induction s as [|c s IH]; cbn; [done|]. intros [Hc Hs]%andb_true_iff. rewrite (Hpq c Hc). by apply IH. Qed.

Lemma base64_not_space c : is_base64_char c = true -> negb (is_atob_space c) = true.
Proof. by destruct c as [[] [] [] [] [] [] [] []]. Qed.

(** The padding of a group is cut, whatever its width. *)
Lemma drop_equals_padding x pad : all_chars is_base64_char x = true -> pad = "" \/ pad = "=" \/ pad = "==" ->
  (String.length (x +:+ pad) mod 4 = 0)%nat -> drop_equals (x +:+ pad) = x.
Proof.
  intros Hx Hp Hl. unfold drop_equals. rewrite Hl. cbn [Nat.eqb]. pose proof (no_equals x Hx) as Hne.
  assert (Hcut : forall w, take_str (String.length (x +:+ w) - String.length w) (x +:+ w) = x).
  { intros w. rewrite length_app_str. replace (String.length x + String.length w - String.length w)%nat with (String.length x) by lia. apply take_str_app. }
  assert (H2 : forall r, r +:+ "==" = (r +:+ "=") +:+ "=") by (intros r; by rewrite app_assoc_str).
  destruct Hp as [->|[->| ->]].
  - rewrite app_nil_r_str. destruct (ends_with "==" x) eqn:E.
    { apply ends_with_spec in E as [r Hr]. rewrite H2 in Hr. rewrite Hr, ends_with_app in Hne. discriminate. }
    by rewrite Hne.
  - destruct (ends_with "==" (x +:+ "=")) eqn:E.
    { apply ends_with_spec in E as [r Hr]. rewrite H2 in Hr. apply (f_equal drop_last_char) in Hr.
      rewrite !drop_last_char_app in Hr. rewrite Hr, ends_with_app in Hne. discriminate. }
    rewrite ends_with_app. apply (Hcut "=").
  - rewrite ends_with_app. apply (Hcut "==").
Qed.

Lemma base64_atob b : atob (base64_encode b) = Ok b.
Proof.
  unfold atob. destruct (base64_groups b) as [k Hk]. unfold base64_encode in *.
  set (x := of_chars (sextet_char false <$> to_sextets b)) in *.
  assert (Hx : all_chars is_base64_char x = true) by apply sextets_are_base64, to_sextets_range.
  pose proof (padding_short b) as Hp.
  rewrite drop_chars_none.
  2:{ rewrite all_chars_app. rewrite (all_chars_impl _ _ x base64_not_space Hx). by destruct Hp as [->|[->| ->]]. }
  rewrite drop_equals_padding; [|done|done|rewrite Hk, Nat.mul_comm; apply Nat.Div0.mod_mul].
  rewrite Hx. assert (Hm : Nat.eqb (String.length x mod 4) 1 = false).
  { rewrite length_app_str in Hk. apply Nat.eqb_neq. intros Hm. pose proof (Nat.div_mod (String.length x) 4).
    destruct Hp as [E|[E|E]]; rewrite E in Hk; cbn in Hk; lia. }
  rewrite Hm. cbn [orb negb]. f_equal. subst x. pose proof (sextets_of_chars false (to_sextets b) "" (to_sextets_range b)) as H.
  rewrite app_nil_r_str, app_nil_r in H. rewrite H. apply of_to_sextets.
Qed.

(** ** The contract *)

(** Decoding the bytes of a file for a reader and encoding that text for a
    write with the same encoding gives the same bytes, for every encoding and
    all bytes the encoding can represent (ASCII keeps 7 bits; UTF-8 must be
    well formed and without a byte order mark); raw bytes are never changed. *)
Theorem content_round_trip (encoding : BufferEncoding) (bytes : string) :
  encodeContent (BytesContent bytes) encoding = Ok bytes /\
  (representable encoding bytes = true ->
   encodeContent (TextContent (decodeBytes bytes encoding)) encoding = Ok bytes).
Proof.
  split; [done|]. assert (Hutf : forall e, e = Enc_utf_8 \/ e = Enc_utf8 -> representable e bytes = true -> decode_utf8 bytes = bytes).
  { intros e He Hr. assert (Hr' : representable Enc_utf8 bytes = true) by (by destruct He as [->| ->]).
    unfold representable in Hr'. apply andb_true_iff in Hr' as [Hb%negb_true_iff Hv%negb_true_iff].
    unfold decode_utf8, strip_bom. rewrite Hb. by rewrite decode_from_valid. }
  destruct encoding; cbn [encodeContent decodeBytes representable]; intros Hr.
  - apply base64_atob.
  - apply hex_round_trip.
  - f_equal. apply latin1_round_trip.
  - f_equal. apply latin1_round_trip.
  - f_equal. by apply ascii_round_trip.
  - f_equal. by apply (Hutf Enc_utf_8); auto.
  - f_equal. by apply (Hutf Enc_utf8); auto.
Qed.

Lemma content_round_trip_witness :
  encodeContent (BytesContent "a") Enc_utf8 = Ok "a" /\
  (representable Enc_utf8 (JsString.bytes [226; 130; 172; 97]%nat) = true ->
   encodeContent (TextContent (decodeBytes (JsString.bytes [226; 130; 172; 97]%nat) Enc_utf8)) Enc_utf8 = Ok (JsString.bytes [226; 130; 172; 97]%nat)).
Proof.
  split; [exact (proj1 (content_round_trip Enc_utf8 "a"))|].
  apply (content_round_trip Enc_utf8 (JsString.bytes [226; 130; 172; 97]%nat)).
Defined.

(** Not every accepted hex text is hex: a pair is read by [parseInt], which
    ignores what follows a digit, and a sign is a sign. *)
Lemma hex_is_lenient : hexToBytes "1z" = Ok (byte_string [1]) /\ hexToBytes "-1" = Ok (byte_string [255]).
Proof. by vm_compute. Qed.
