(* ===== verification/JbAdapter.v ===== *)
(** * The just-bash file system adapter: packages/just-bash/src/index.ts ([AgentFsFileSystem])

    A file system for a shell, over a drive reached by HTTP.  The adapter keeps
    the paths it has met ([knownFiles], [knownDirectories]) and two caches of
    server answers: [statCache] and [lsCache].  The server is the class
    [Remote]: what its operations answer, and the clock.  A call of the adapter
    is one computation over the adapter and the server; a request that another
    caller has in flight answers as [others] says.

    A directory exists when the server lists something under it or the adapter
    has met it; [mkdir] makes it exist by writing a marker file.  The recursive
    operations take fuel, one unit per level of the tree. *)

From S2P Require Import Prelude JsString Schema LocalAdapter JsMap RequestCache JbPath JbBytes.

(** ** Data *)

Definition DEFAULT_DIR_MODE : Z := 493.
Definition DEFAULT_FILE_MODE : Z := 420.
Definition DEFAULT_DIRECTORY_MARKER : string := ".agent-fs-dir".

Inductive LsType : Type := LsFile | LsDirectory.
#[export] Instance LsType_eq_dec : EqDecision LsType.
Proof. solve_decision. Defined.

Record AgentFsLsEntry : Type := {
  le_name : string;
  le_type : LsType;
  le_size : Z;
  le_modifiedAt : option string
}.

#[export] Instance AgentFsLsEntry_eq_dec : EqDecision AgentFsLsEntry.
Proof. solve_decision. Defined.

Record AgentFsStatResult : Type := {
  sr_size : Z;
  sr_modifiedAt : option string;
  sr_createdAt : option string
}.

(** [mtime]: [new Date(text)], or the time of the call. *)
Inductive Mtime : Type :=
| DateOf (text : string)
| DateNow (now : Z).

Record FsStat : Type := {
  fst_isFile : bool;
  fst_isDirectory : bool;
  fst_isSymbolicLink : bool;
  fst_mode : Z;
  fst_size : Z;
  fst_mtime : Mtime
}.

Record DirentEntry : Type := {
  de_name : string;
  de_isFile : bool;
  de_isDirectory : bool;
  de_isSymbolicLink : bool
}.

Definition coerceDate (now : Z) (value : option string) : Mtime :=
  match value with Some text => DateOf text | None => DateNow now end.

Definition fileStat (now : Z) (result : AgentFsStatResult) : FsStat :=
  {| fst_isFile := true; fst_isDirectory := false; fst_isSymbolicLink := false; fst_mode := DEFAULT_FILE_MODE;
     fst_size := result.(sr_size);
     fst_mtime := coerceDate now (match result.(sr_modifiedAt) with Some m => Some m | None => result.(sr_createdAt) end) |}.

Definition directoryStat (now : Z) : FsStat :=
  {| fst_isFile := false; fst_isDirectory := true; fst_isSymbolicLink := false; fst_mode := DEFAULT_DIR_MODE;
     fst_size := 0; fst_mtime := DateNow now |}.

(** ** Errors *)

(** [`ENOENT: no such file or directory, open 'p'`]. *)
Definition fs_message (code text operation path : string) : js_error :=
  JsError (code +:+ ": " +:+ text +:+ ", " +:+ operation +:+ " '" +:+ path +:+ "'").

Definition enoent (operation path : string) : js_error := fs_message "ENOENT" "no such file or directory" operation path.
Definition eexist (operation path : string) : js_error := fs_message "EEXIST" "file already exists" operation path.
Definition enotdir (operation path : string) : js_error := fs_message "ENOTDIR" "not a directory" operation path.
Definition eisdir (operation path : string) : js_error :=
  fs_message "EISDIR" "illegal operation on a directory" operation path.

Definition isNotFound (e : js_error) : bool :=
  match e with AgentFsHttpError _ status _ => bool_decide (status = 404) | _ => false end.

Definition isPathNotFound (e : js_error) : bool :=
  match e with OutOfFuel => false | _ => starts_with "ENOENT:" (message_of e) end.

Definition toPathError (e : js_error) (operation path : string) : js_error :=
  if isNotFound e then enoent operation path else e.

(** ** The server *)

Class Remote (R : Type) : Type := {
  remote_now : R -> Z;
  remote_stat : string -> M js_error R AgentFsStatResult;
  remote_ls : string -> M js_error R (list AgentFsLsEntry);
  remote_rm : string -> M js_error R unit;
  remote_cp : string -> string -> M js_error R unit;
  remote_mv : string -> string -> option string -> M js_error R unit;
  remote_get : string -> M js_error R string;
  remote_put : string -> string -> option string -> M js_error R unit
}.

(** ** The adapter *)

Record AgentFs : Type := {
  directoryMarkerName : string;
  writeMessage : string -> string -> option string;
  knownFiles : list string;
  knownDirectories : list string;
  statCache : RequestCache (option AgentFsStatResult);
  lsCache : RequestCache (list AgentFsLsEntry)
}.
#[export] Instance eta_AgentFs : Eta AgentFs := fun f =>
  {| directoryMarkerName := directoryMarkerName f; writeMessage := writeMessage f; knownFiles := knownFiles f;
     knownDirectories := knownDirectories f; statCache := statCache f; lsCache := lsCache f |}.

Definition new_adapter (marker : option string) (message : string -> string -> option string) (cacheTtlMs : option ttl) : AgentFs :=
  let t := cacheTtlMs ?? Ms DEFAULT_CACHE_TTL_MS in
  {| directoryMarkerName := marker ?? DEFAULT_DIRECTORY_MARKER; writeMessage := message;
     knownFiles := []; knownDirectories := ["/"]; statCache := new_cache t; lsCache := new_cache t |}.

(** [rememberAncestors]: the loop ends at the root; each turn drops a segment. *)
Fixpoint ancestors (fuel : nat) (path : string) : list string :=
  match fuel with
  | O => []
  | S fuel' => if bool_decide (path = "/") then [] else dirname path :: ancestors fuel' (dirname path)
  end.

Definition ancestors_of (path : string) : list string := ancestors (String.length path) path.

Definition rememberAncestors (path : string) (f : AgentFs) : AgentFs :=
  f <| knownDirectories := foldl (fun s d => js_add d s) f.(knownDirectories)
         (if bool_decide (path = "/") then ["/"] else ancestors_of path) |>.

Definition rememberFile (path : string) (f : AgentFs) : AgentFs :=
  let normalized := normalizePath path in
  rememberAncestors normalized (f <| knownFiles := js_add normalized f.(knownFiles) |>).

Definition rememberDirectory (path : string) (f : AgentFs) : AgentFs :=
  let normalized := normalizePath path in
  rememberAncestors normalized (f <| knownDirectories := js_add normalized f.(knownDirectories) |>).

Definition forgetFile (path : string) (f : AgentFs) : AgentFs :=
  f <| knownFiles := js_remove (normalizePath path) f.(knownFiles) |>.

(** [p === normalized || p.startsWith(normalized + "/")]. *)
Definition at_or_under (normalized p : string) : bool :=
  bool_decide (p = normalized) || starts_with (normalized +:+ "/") p.

Definition forgetDirectory (path : string) (f : AgentFs) : AgentFs :=
  let normalized := normalizePath path in
  f <| knownFiles := filter (fun file => at_or_under normalized file = false) f.(knownFiles) |>
    <| knownDirectories := filter (fun dir => negb (bool_decide (dir = "/")) && at_or_under normalized dir = false) f.(knownDirectories) |>.

(** Drops what a write at [path] can change. *)
Definition invalidate (path : string) (f : AgentFs) : AgentFs :=
  f <| statCache := rc_delete path f.(statCache) |>
    <| lsCache := foldl (fun c p => rc_delete p c) (rc_delete path f.(lsCache)) (ancestors_of path) |>.

Definition invalidateTree (path : string) (f : AgentFs) : AgentFs :=
  let f := invalidate path f in
  f <| statCache := rc_deleteTree path f.(statCache) |> <| lsCache := rc_deleteTree path f.(lsCache) |>.

Definition markerPath (f : AgentFs) (path : string) : string := joinPath path f.(directoryMarkerName).
Definition isDirectoryMarkerName (f : AgentFs) (name : string) : bool := bool_decide (name = f.(directoryMarkerName)).
Definition isDirectoryMarkerPath (f : AgentFs) (path : string) : bool := bool_decide (basename path = f.(directoryMarkerName)).

Definition getAllPaths (f : AgentFs) : list string :=
  sort_by js_le (filter (fun path => isDirectoryMarkerPath f path = false)
    (foldl (fun s p => js_add p s) [] (f.(knownDirectories) ++ f.(knownFiles)))).

(** What a fresh listing of the parent says about [path]. *)
Record Listed : Type := {
  li_file : option AgentFsLsEntry;
  li_directory : bool
}.

Definition listedChild (now : Z) (path : string) (f : AgentFs) : option Listed :=
  if bool_decide (path = "/") then None
  else
    match rc_answer now (dirname path) f.(lsCache) with
    | None => None
    | Some value =>
        let name := basename path in
        let matches := filter (fun entry => entry.(le_name) = name) value in
        Some {| li_file := head (filter (fun entry => entry.(le_type) = LsFile) matches);
                li_directory := existsb (fun entry => bool_decide (entry.(le_type) = LsDirectory)) matches |}
    end.

(** ** Calls *)

Section Calls.
Context {R : Type} {RM : Remote R}.
(** What the request of another caller answers, and the order of [localeCompare]. *)
Context (other_stat : nat -> outcome js_error (option AgentFsStatResult))
        (other_ls : nat -> outcome js_error (list AgentFsLsEntry))
        (localeCompare_le : string -> string -> bool).

(** The adapter and its server. *)
Record Client : Type := {
  c_fs : AgentFs;
  c_remote : R
}.
#[export] Instance eta_Client : Eta Client := fun c => {| c_fs := c_fs c; c_remote := c_remote c |}.

Definition JbM (A : Type) : Type := M js_error Client A.

Definition at_remote {A} (m : M js_error R A) : JbM A := on c_remote (fun r c => c <| c_remote := r |>) m.
Definition update_fs (f : AgentFs -> AgentFs) : JbM unit := modify (fun c => c <| c_fs ::= f |>).
Definition now_of (c : Client) : Z := remote_now c.(c_remote).

(** [cache.get(path, load)], awaited: the request's continuation runs before the
    caller's. *)
Definition cached {T} (get : AgentFs -> RequestCache T) (put : RequestCache T -> AgentFs -> AgentFs)
    (others : nat -> outcome js_error T) (path : string) (load : M js_error R T) : JbM T := fun c =>
  let '(g, cache) := rc_get (now_of c) path (get c.(c_fs)) in
  let c := c <| c_fs ::= put cache |> in
  match g with
  | Hit value => (Ok value, c)
  | Shared request => (others request, c)
  | Untracked => at_remote load c
  | Started request =>
      let '(answer, c) := at_remote load c in
      let value := match answer with Ok v => Some v | Throw _ => None end in
      (answer, c <| c_fs ::= fun f => put (rc_settle (now_of c) path request value (get f)) f |>)
  end.

Definition load_stat (path : string) : M js_error R (option AgentFsStatResult) :=
  try_catch (r ← remote_stat path; mret (Some r))
    (fun e => if isNotFound e || isPathNotFound e then mret None else throw e).

Definition statFile (path : string) : JbM (option AgentFsStatResult) :=
  listed ← gets (fun c => listedChild (now_of c) path c.(c_fs));
  let ask := cached statCache (fun s f => f <| statCache := s |>) other_stat path (load_stat path) in
  match listed with
  | Some {| li_file := None |} => mret None
  | Some {| li_file := Some file |} =>
      match file.(le_modifiedAt) with
      | Some m => mret (Some {| sr_size := file.(le_size); sr_modifiedAt := Some m; sr_createdAt := None |})
      | None => ask
      end
  | None => ask
  end.

Definition lsEntries (path : string) : JbM (list AgentFsLsEntry) :=
  listed ← gets (fun c => listedChild (now_of c) path c.(c_fs));
  let ask := cached lsCache (fun s f => f <| lsCache := s |>) other_ls path (remote_ls path) in
  match listed with
  | Some l => if l.(li_directory) then ask else mret []
  | None => ask
  end.

(** [try { op } finally { invalidate }]. *)
Definition mutate (op : M js_error R unit) (touched : list string) : JbM unit := fun c =>
  let '(answer, c) := at_remote op c in
  (answer, c <| c_fs ::= fun f => foldl (fun f path => invalidate path f) f touched |>).

Definition putRaw (path bytes : string) (message : option string) : JbM unit := mutate (remote_put path bytes message) [path].

Definition messageFor (operation path : string) : JbM (option string) :=
  gets (fun c => writeMessage c.(c_fs) operation path).

(** [`ENOENT: path contains null byte, op 'p'`]. *)
Definition validatePath (path operation : string) : JbM unit :=
  throw_if (has_char nul path) (fs_message "ENOENT" "path contains null byte" operation path).

Definition fileExists (path : string) : JbM bool :=
  found ← statFile path;
  match found with
  | None => mret false
  | Some _ => _ ← update_fs (rememberFile path); mret true
  end.

Definition remember_entry (path : string) (entry : AgentFsLsEntry) (f : AgentFs) : AgentFs :=
  let child := joinPath path entry.(le_name) in
  if decide (entry.(le_type) = LsDirectory) then rememberDirectory child f else rememberFile child f.

Definition listDirectory (path : string) (includeMarkers : bool) : JbM (list AgentFsLsEntry) :=
  all ← lsEntries path;
  marker ← gets (fun c => isDirectoryMarkerName c.(c_fs));
  let entries := if includeMarkers then all else filter (fun entry => marker entry.(le_name) = false) all in
  _ ← update_fs (fun f => foldl (fun f entry => remember_entry path entry f) f all);
  mret entries.

Definition directoryExists (path : string) : JbM bool :=
  if bool_decide (path = "/") then mret true
  else
    entries ← listDirectory path true;
    match entries with
    | [] => gets (fun c => bool_decide (path ∈ knownDirectories c.(c_fs)))
    | _ => _ ← update_fs (rememberDirectory path); mret true
    end.

Definition assertDirectoryReadable (normalized original : string) : JbM unit :=
  if bool_decide (normalized = "/") then mret tt
  else
    file ← fileExists normalized;
    _ ← throw_if file (enotdir "scandir" original);
    directory ← directoryExists normalized;
    throw_if (negb directory) (enoent "scandir" original).

Definition assertParentWritable (path operation : string) : JbM unit :=
  let parent := dirname path in
  if bool_decide (parent = "/") then mret tt
  else
    file ← fileExists parent;
    throw_if file (enotdir operation path).

Definition assertParentDirectory (path operation : string) (recursive : bool) : JbM unit :=
  let parent := dirname path in
  if bool_decide (parent = "/") then mret tt
  else
    file ← fileExists parent;
    _ ← throw_if file (enotdir operation path);
    if recursive then mret tt
    else
      directory ← directoryExists parent;
      throw_if (negb directory) (enoent operation path).

(** *** Reading *)

Definition fs_stat (path : string) : JbM FsStat :=
  _ ← validatePath path "stat";
  let normalized := normalizePath path in
  if bool_decide (normalized = "/") then gets (fun c => directoryStat (now_of c))
  else
    file ← statFile normalized;
    match file with
    | Some file => _ ← update_fs (rememberFile normalized); gets (fun c => fileStat (now_of c) file)
    | None =>
        directory ← directoryExists normalized;
        if directory : bool then
          _ ← update_fs (rememberDirectory normalized); gets (fun c => directoryStat (now_of c))
        else throw (enoent "stat" path)
    end.

Definition exists_ (path : string) : JbM bool :=
  if has_char nul path then mret false
  else
    let normalized := normalizePath path in
    if bool_decide (normalized = "/") then mret true
    else try_catch (_ ← fs_stat normalized; mret true) (fun _ => mret false).

Definition readFileBuffer (path : string) : JbM string :=
  _ ← validatePath path "open";
  let normalized := normalizePath path in
  try_catch (bytes ← at_remote (remote_get normalized); _ ← update_fs (rememberFile normalized); mret bytes)
    (fun e =>
      if isNotFound e then
        directory ← directoryExists normalized;
        throw (if directory : bool then eisdir "read" path else toPathError e "open" path)
      else throw (toPathError e "open" path)).

Definition readFile (path : string) (options : option BufferEncoding) : JbM string :=
  bytes ← readFileBuffer path;
  mret (decodeBytes bytes (getEncoding options)).

Definition readFileBytes (path : string) : JbM string :=
  bytes ← readFileBuffer path;
  mret (bytesToLatin1 bytes).

Definition readdirWithFileTypes (path : string) : JbM (list DirentEntry) :=
  _ ← validatePath path "scandir";
  let normalized := normalizePath path in
  _ ← assertDirectoryReadable normalized path;
  entries ← listDirectory normalized false;
  mret (sort_by (fun a b => localeCompare_le a.(de_name) b.(de_name))
    ((fun entry => {| de_name := entry.(le_name); de_isFile := bool_decide (entry.(le_type) = LsFile);
                      de_isDirectory := bool_decide (entry.(le_type) = LsDirectory); de_isSymbolicLink := false |}) <$> entries)).

Definition readdir (path : string) : JbM (list string) :=
  entries ← readdirWithFileTypes path;
  mret (de_name <$> entries).

Definition realpath (path : string) : JbM string :=
  _ ← validatePath path "realpath";
  let normalized := normalizePath path in
  found ← exists_ normalized;
  _ ← throw_if (negb found) (enoent "realpath" path);
  mret normalized.

Definition lstat (path : string) : JbM FsStat := fs_stat path.

(** *** Writing *)

Definition writeFile (path : string) (content : FileContent) (options : option BufferEncoding) : JbM unit :=
  _ ← validatePath path "write";
  let normalized := normalizePath path in
  _ ← assertParentWritable normalized "write";
  bytes ← from_outcome (encodeContent content (getEncoding options));
  message ← messageFor "write" normalized;
  _ ← putRaw normalized bytes message;
  update_fs (rememberFile normalized).

Definition appendFile (path : string) (content : FileContent) (options : option BufferEncoding) : JbM unit :=
  _ ← validatePath path "append";
  let normalized := normalizePath path in
  _ ← assertParentWritable normalized "append";
  existing ← try_catch (readFileBuffer normalized)
    (fun e => if isNotFound e || isPathNotFound e then mret "" else throw e);
  added ← from_outcome (encodeContent content (getEncoding options));
  message ← messageFor "append" normalized;
  _ ← putRaw normalized (concatBytes existing added) message;
  update_fs (rememberFile normalized).

Definition mkdir (path : string) (recursive : bool) : JbM unit :=
  _ ← validatePath path "mkdir";
  let normalized := normalizePath path in
  if bool_decide (normalized = "/") then mret tt
  else
    existing ← exists_ normalized;
    if existing : bool then (if recursive then mret tt else throw (eexist "mkdir" path))
    else
      _ ← assertParentDirectory normalized "mkdir" recursive;
      marker ← gets (fun c => markerPath c.(c_fs) normalized);
      message ← messageFor "mkdir" normalized;
      _ ← putRaw marker "" message;
      _ ← update_fs (rememberDirectory normalized);
      update_fs (rememberFile marker).

Definition chmod (path : string) (mode : Z) : JbM unit :=
  _ ← validatePath path "chmod";
  found ← exists_ path;
  throw_if (negb found) (enoent "chmod" path).

Definition utimes (path : string) : JbM unit :=
  _ ← validatePath path "utimes";
  found ← exists_ path;
  throw_if (negb found) (enoent "utimes" path).

Definition readlink (path : string) : JbM string :=
  _ ← validatePath path "readlink";
  found ← exists_ path;
  _ ← throw_if (negb found) (enoent "readlink" path);
  throw (fs_message "EINVAL" "invalid argument" "readlink" path).

Definition symlink (target linkPath : string) : JbM unit :=
  _ ← validatePath target "symlink";
  _ ← validatePath linkPath "symlink";
  throw (JsError ("EPERM: operation not permitted, symlink '" +:+ target +:+ "' -> '" +:+ linkPath +:+ "'")).

(** *** The recursive operations *)

Fixpoint collectFilePaths (fuel : nat) (path : string) : JbM (list string) :=
  match fuel with
  | O => throw OutOfFuel
  | S fuel' =>
      entries ← listDirectory path true;
      files ← map_m entries (fun entry =>
        let child := joinPath path entry.(le_name) in
        if decide (entry.(le_type) = LsDirectory) then collectFilePaths fuel' child else mret [child]);
      mret (concat files)
  end.

Fixpoint refreshDirectory (fuel : nat) (path : string) : JbM unit :=
  match fuel with
  | O => throw OutOfFuel
  | S fuel' =>
      directory ← directoryExists path;
      if directory : bool then
        entries ← listDirectory path false;
        for_each entries (fun entry =>
          when (bool_decide (entry.(le_type) = LsDirectory)) (refreshDirectory fuel' (joinPath path entry.(le_name))))
      else mret tt
  end.

Definition refreshAllPaths (fuel : nat) (path : string) : JbM (list string) :=
  _ ← validatePath path "scandir";
  let normalized := normalizePath path in
  _ ← update_fs (invalidateTree normalized);
  _ ← refreshDirectory fuel normalized;
  gets (fun c => getAllPaths c.(c_fs)).

(** [recursive] and [force] of [RmOptions]. *)
Definition rm (fuel : nat) (path : string) (recursive force : bool) : JbM unit :=
  _ ← validatePath path "rm";
  let normalized := normalizePath path in
  _ ← throw_if (bool_decide (normalized = "/")) (fs_message "EBUSY" "resource busy or locked" "rm" path);
  file ← fileExists normalized;
  if file : bool then
    _ ← mutate (remote_rm normalized) [normalized];
    update_fs (forgetFile normalized)
  else
    directoryEntries ← listDirectory normalized true;
    known ← gets (fun c => bool_decide (normalized ∈ knownDirectories c.(c_fs)));
    if negb (Nat.ltb 0 (length directoryEntries) || known) then
      (if force then mret tt else throw (enoent "rm" path))
    else
      marker ← gets (fun c => isDirectoryMarkerName c.(c_fs));
      let visibleEntries := filter (fun entry => marker entry.(le_name) = false) directoryEntries in
      _ ← throw_if (Nat.ltb 0 (length visibleEntries) && negb recursive) (fs_message "ENOTEMPTY" "directory not empty" "rm" path);
      files ← collectFilePaths fuel normalized;
      _ ← for_each files (fun file =>
        _ ← mutate (remote_rm file) [file];
        update_fs (forgetFile file));
      _ ← update_fs (forgetDirectory normalized);
      update_fs (invalidateTree normalized).

Fixpoint cp (fuel : nat) (src dest : string) (recursive : bool) : JbM unit :=
  match fuel with
  | O => throw OutOfFuel
  | S fuel' =>
      _ ← validatePath src "cp";
      _ ← validatePath dest "cp";
      let srcNorm := normalizePath src in
      let destNorm := normalizePath dest in
      _ ← assertParentWritable destNorm "cp";
      file ← fileExists srcNorm;
      if file : bool then
        _ ← mutate (remote_cp srcNorm destNorm) [destNorm];
        update_fs (rememberFile destNorm)
      else
        directory ← directoryExists srcNorm;
        _ ← throw_if (negb directory) (enoent "cp" src);
        _ ← throw_if (negb recursive) (eisdir "cp" src);
        _ ← mkdir destNorm true;
        entries ← listDirectory srcNorm false;
        for_each entries (fun entry =>
          cp fuel' (joinPath srcNorm entry.(le_name)) (joinPath destNorm entry.(le_name))
             (bool_decide (entry.(le_type) = LsDirectory)))
  end.

Definition mv (fuel : nat) (src dest : string) : JbM unit :=
  _ ← validatePath src "rename";
  _ ← validatePath dest "rename";
  let srcNorm := normalizePath src in
  let destNorm := normalizePath dest in
  _ ← assertParentWritable destNorm "rename";
  file ← fileExists srcNorm;
  if file : bool then
    message ← messageFor "mv" destNorm;
    _ ← mutate (remote_mv srcNorm destNorm message) [srcNorm; destNorm];
    _ ← update_fs (forgetFile srcNorm);
    update_fs (rememberFile destNorm)
  else
    directory ← directoryExists srcNorm;
    _ ← throw_if (negb directory) (enoent "rename" src);
    _ ← cp fuel srcNorm destNorm true;
    rm fuel srcNorm true false.

Definition link (fuel : nat) (existingPath newPath : string) : JbM unit :=
  _ ← validatePath existingPath "link";
  _ ← validatePath newPath "link";
  found ← exists_ newPath;
  _ ← throw_if found (eexist "link" newPath);
  cp fuel existingPath newPath false.

(** *** [writeInitialFiles]: text or bytes, a provider of them, or a [FileInit]. *)
Inductive InitialFile : Type :=
| InitialContent (content : FileContent)
| InitialProvider (provided : outcome js_error FileContent)
| InitialInit (content : FileContent) (has_mtime : bool) (mode : option Z).

Definition writeInitialFile (path : string) (value : InitialFile) : JbM unit :=
  match value with
  | InitialProvider provided => content ← from_outcome provided; writeFile path content None
  | InitialInit content has_mtime mode =>
      _ ← writeFile path content None;
      _ ← when has_mtime (utimes path);
      match mode with Some mode => chmod path mode | None => mret tt end
  | InitialContent content => writeFile path content None
  end.

Definition writeInitialFiles (initialFiles : list (string * InitialFile)) : JbM unit :=
  for_each initialFiles (fun e => writeInitialFile e.1 e.2).
End Calls.
Arguments Client : clear implicits.
Arguments JbM : clear implicits.
