(* ===== verification/JbSpec.v ===== *)
(** * The adapter's caches are transparent: JbAdapter against an abstract tree

    [RemoteLaws] states what the adapter relies on: the server's answers describe
    one tree of files ([tree]), reading changes nothing, and a write changes only
    the files it names.  [coherent] says that everything the caches hold is what
    the server would answer now.  Every call of the adapter keeps it, whether it
    succeeds or fails and whatever the life of an answer, so what the adapter
    says of a path is what the tree says. *)

From S2P Require Import Prelude JsString Schema JsMap RequestCache JbPath JbBytes JbAdapter.

(** ** The abstract tree *)

Notation Tree := (gmap (list string) AgentFsStatResult).

(** Some file lies strictly under [l]. *)
Definition folder (t : Tree) (l : list string) : Prop := exists x k, t !! (l ++ x :: k) <> None.

(** [es] lists the folder [l]: its files with their size and date, and the names
    of its folders, each name of a file or folder, nothing else. *)
Record listing (t : Tree) (l : list string) (es : list AgentFsLsEntry) : Prop := {
  ls_clean : forall e, e ∈ es -> clean e.(le_name);
  ls_files : forall e, e ∈ es -> e.(le_type) = LsFile ->
    exists s, t !! (l ++ [e.(le_name)]) = Some s /\ e.(le_size) = s.(sr_size) /\ e.(le_modifiedAt) = s.(sr_modifiedAt);
  ls_folders : forall e, e ∈ es -> e.(le_type) = LsDirectory -> folder t (l ++ [e.(le_name)]);
  ls_all_files : forall n s, t !! (l ++ [n]) = Some s -> exists e, e ∈ es /\ e.(le_type) = LsFile /\ e.(le_name) = n;
  ls_all_folders : forall n, folder t (l ++ [n]) -> exists e, e ∈ es /\ e.(le_type) = LsDirectory /\ e.(le_name) = n
}.

(** Two trees that differ at [l] only. *)
Definition only_at (l : list string) (t t' : Tree) : Prop := forall q, q <> l -> t' !! q = t !! q.

Definition not_found (e : js_error) : bool := isNotFound e || isPathNotFound e.

(** What the adapter relies on; a failing write may still have taken effect.
    ([OutOfFuel] is the model's own, no error of a server.) *)
Class RemoteLaws (R : Type) {RM : Remote R} : Type := {
  tree : R -> Tree;
  tree_clean : forall r l s, tree r !! l = Some s -> Forall clean l;
  stat_law : forall r l, Forall clean l ->
    let '(o, r') := remote_stat (render l) r in
    tree r' = tree r /\
    match o with Ok s => tree r !! l = Some s | Throw e => e <> OutOfFuel /\ (not_found e = true -> tree r !! l = None) end;
  ls_law : forall r l, Forall clean l ->
    let '(o, r') := remote_ls (render l) r in
    tree r' = tree r /\ match o with Ok es => listing (tree r) l es | Throw e => e <> OutOfFuel end;
  get_law : forall r p, tree (remote_get p r).2 = tree r;
  put_law : forall r l bytes message, Forall clean l -> only_at l (tree r) (tree (remote_put (render l) bytes message r).2);
  rm_law : forall r l, Forall clean l ->
    let '(o, r') := remote_rm (render l) r in
    only_at l (tree r) (tree r') /\ match o with Ok _ => tree r' !! l = None | Throw e => e <> OutOfFuel end;
  cp_law : forall r l m, Forall clean l -> Forall clean m -> only_at m (tree r) (tree (remote_cp (render l) (render m) r).2);
  mv_law : forall r l m message, Forall clean l -> Forall clean m ->
    forall q, q <> l -> q <> m -> tree (remote_mv (render l) (render m) message r).2 !! q = tree r !! q
}.

(** ** One cache *)

Section OneCache.
Context {T : Type} (answers : list string -> T -> Prop).
Implicit Types (s : RequestCache T).

(** Nothing is in flight, and every answer kept is right. *)
Definition correct s : Prop :=
  rc_inFlight s = [] /\ forall l at_ v, Forall clean l -> jm_get (render l) (rc_answers s) = Some (at_, v) -> answers l v.

Lemma correct_new t : correct (new_cache t).
Proof. done. Qed.

(** A hit is right; a request is started only when nothing is known. *)
Lemma correct_get s now l : correct s -> Forall clean l ->
  (exists v, rc_get now (render l) s = (Hit v, s) /\ answers l v) \/
  rc_get now (render l) s = (Untracked, s) \/
  rc_get now (render l) s = (Started (rc_next s),
    s <| rc_inFlight := [(render l, rc_next s)] |> <| rc_next := S (rc_next s) |>).
Proof.
  intros [Hf Ha] Hl. unfold rc_get. destruct (rc_answer now (render l) s) as [v|] eqn:E.
  - left. exists v. split; [done|]. unfold rc_answer in E. destruct (jm_get (render l) (rc_answers s)) as [[at_ v']|] eqn:Ej; [|done].
    destruct (isFresh _ _ _); [|done]. injection E as [= <-]. by apply (Ha l at_).
  - rewrite Hf. destruct (caches (rc_ttlMs s)); [|by right; left]. by right; right.
Qed.

Lemma correct_settle s now l result : cache_wf s -> correct s -> Forall clean l ->
  (forall v, result = Some v -> answers l v) ->
  let s' := rc_settle now (render l) (rc_next s) result
              (s <| rc_inFlight := [(render l, rc_next s)] |> <| rc_next := S (rc_next s) |>) in
  cache_wf s' /\ correct s'.
Proof.
  intros Hwf [Hf Ha] Hl Hr s'. set (s1 := s <| rc_inFlight := _ |> <| rc_next := _ |>) in *.
  assert (Hwf1 : cache_wf s1).
  { destruct Hwf as [H1 H2 H3]. split; [|done|done]. intros p r. cbn. rewrite jm_get_cons. case_decide; [intros [= <-]; lia|done]. }
  assert (Hfl : jm_get (render l) (rc_inFlight s1) = Some (rc_next s)) by (cbn; by rewrite jm_get_cons, decide_True).
  assert (Hdel : jm_delete (render l) (rc_inFlight s1) = []).
  { cbn. unfold jm_delete, delete_where. rewrite filter_cons_False; [done|]. cbn. tauto. }
  pose proof (cache_step_wf (fun _ => result) (CacheSettle now (render l) (rc_next s)) s1 Hwf1) as Hwf'.
  destruct (rc_settle_state (fun _ => result) now (render l) (rc_next s) s1 Hwf1 Hfl) as (_ & E2 & E3).
  split; [exact Hwf'|]. split; [unfold s'; by rewrite E2|].
  intros m at_ v Hm [[E ->]|Hg]%E3; [|by apply (Ha m at_)]. apply render_clean_inj in E as ->; [|done|done]. by apply Hr.
Qed.
End OneCache.

(** Dropping a set of paths makes the rest right for the new answers. *)
Lemma correct_drop {T} (answers answers' : list string -> T -> Prop) (s s' : RequestCache T) :
  correct answers s -> rc_inFlight s' = [] ->
  (forall l at_ v, Forall clean l -> jm_get (render l) (rc_answers s') = Some (at_, v) ->
     jm_get (render l) (rc_answers s) = Some (at_, v) /\ (answers l v -> answers' l v)) ->
  correct answers' s'.
Proof. intros [Hf Ha] Hf' H. split; [done|]. intros l at_ v Hl [Hg Hi]%H; [|done]. by apply Hi, (Ha l at_). Qed.

Lemma rc_delete_answers {T} p q (s : RequestCache T) at_ v :
  jm_get q (rc_answers (rc_delete p s)) = Some (at_, v) -> p <> q /\ jm_get q (rc_answers s) = Some (at_, v).
Proof. cbn. rewrite jm_get_delete. by case_decide. Qed.

Lemma rc_delete_flight {T} p (s : RequestCache T) : rc_inFlight s = [] -> rc_inFlight (rc_delete p s) = [].
Proof. cbn. by intros ->. Qed.

Lemma rc_delete_all {T} ps q (s : RequestCache T) at_ v :
  let s' := foldl (fun c p => rc_delete p c) s ps in
  jm_get q (rc_answers s') = Some (at_, v) -> q ∉ ps /\ jm_get q (rc_answers s) = Some (at_, v).
Proof.
  revert s. induction ps as [|p ps IH]; intros s; cbn; [by split; [apply not_elem_of_nil|]|].
  intros [H1 [H2 H3]%rc_delete_answers]%IH. split; [|done]. rewrite elem_of_cons. intros [->|?]; auto.
Qed.

Lemma rc_delete_all_flight {T} ps (s : RequestCache T) :
  rc_inFlight s = [] -> rc_inFlight (foldl (fun c p => rc_delete p c) s ps) = [].
Proof. revert s. induction ps as [|p ps IH]; intros s H; cbn; [done|]. by apply IH, rc_delete_flight. Qed.

Lemma rc_delete_all_wf {T} ps (s : RequestCache T) : cache_wf s -> cache_wf (foldl (fun c p => rc_delete p c) s ps).
Proof.
  revert s. induction ps as [|p ps IH]; intros s H; cbn; [done|]. apply IH. by apply (cache_step_wf (fun _ => None) (CacheDelete p)).
Qed.

(** The ancestors of a normalised path are the renderings of its prefixes. *)
Lemma elem_of_ancestors fuel l q : Forall clean l -> (length l <= fuel)%nat ->
  q ∈ ancestors fuel (render l) <-> exists m x k, l = m ++ x :: k /\ q = render m.
Proof.
  revert l. induction fuel as [|fuel IH]; intros l Hl Hf; cbn [ancestors].
  - destruct l; cbn in Hf; [|lia]. split; [by intros ?%elem_of_nil|]. intros (m & x & k & H & _). by destruct m.
  - case_bool_decide as E.
    + apply render_root in E as ->; [|done]. split; [by intros ?%elem_of_nil|]. intros (m & x & k & H & _). by destruct m.
    + rewrite render_root in E by done. rewrite dirname_render by done. destruct (exists_last E) as (m & x & ->).
      rewrite removelast_last. pose proof Hl as [Hm _]%Forall_app. rewrite length_app in Hf. cbn in Hf.
      rewrite elem_of_cons, (IH m) by (done || lia). split.
      * intros [->|(m' & y & k & -> & ->)]; [by exists m, x, []|]. exists m', y, (k ++ [x]). by rewrite <- app_assoc.
      * intros (m' & y & k & Heq & ->). destruct (decide (k = [])) as [->|Hk].
        -- apply app_inj_tail in Heq as [-> _]. by left.
        -- right. destruct (exists_last Hk) as (k' & z & ->). exists m', y, k'. split; [|done].
           change (y :: k' ++ [z]) with ((y :: k') ++ [z]) in Heq. rewrite app_assoc in Heq. by apply app_inj_tail in Heq as [-> _].
Qed.

Lemma length_join l : (length l <= S (String.length (join "/" l)))%nat.
Proof.
  induction l as [|x l IH]; [cbn; lia|]. destruct l as [|y l]; [cbn; lia|].
  change (join "/" (x :: y :: l)) with (x +:+ "/" +:+ join "/" (y :: l)).
  rewrite !length_app_str. cbn [length String.length] in *. lia.
Qed.

Lemma length_render l : (length l <= String.length (render l))%nat.
Proof. unfold render. rewrite length_app_str. cbn [String.length]. pose proof (length_join l). lia. Qed.

Lemma elem_of_ancestors_of l q : Forall clean l -> q ∈ ancestors_of (render l) <-> exists m x k, l = m ++ x :: k /\ q = render m.
Proof. intros Hl. apply elem_of_ancestors; [done|apply length_render]. Qed.

(** *** Listings see only what lies under their folder *)

Lemma folder_only t t' l m : (forall x k, t' !! (l ++ x :: k) = t !! (l ++ x :: k)) -> folder t (l ++ m) <-> folder t' (l ++ m).
Proof.
  intros H. unfold folder. assert (E : forall x k, t' !! ((l ++ m) ++ x :: k) = t !! ((l ++ m) ++ x :: k)).
  { intros x k. rewrite <- app_assoc. destruct m as [|y m]; cbn; apply H. }
  split; intros (x & k & Hk); exists x, k; by rewrite E in *.
Qed.

Lemma listing_only t t' l es : (forall x k, t' !! (l ++ x :: k) = t !! (l ++ x :: k)) -> listing t l es -> listing t' l es.
Proof.
  intros H [H1 H2 H3 H4 H5]. split.
  - done.
  - intros e He Ht. destruct (H2 e He Ht) as (s & Hs & ?). exists s. by rewrite H.
  - intros e He Ht. rewrite <- (folder_only t t' l) by done. by apply H3.
  - intros n s Hs. rewrite H in Hs. by eapply H4.
  - intros n. rewrite <- (folder_only t t' l) by done. apply H5.
Qed.

Section Coherence.
Context {R : Type} {RM : Remote R} {RL : RemoteLaws R}.
Context (other_stat : nat -> outcome js_error (option AgentFsStatResult))
        (other_ls : nat -> outcome js_error (list AgentFsLsEntry))
        (localeCompare_le : string -> string -> bool).
Implicit Types (c : Client R) (t : Tree) (l : list string).

(** ** The invariant *)

Definition stat_correct t : RequestCache (option AgentFsStatResult) -> Prop := correct (fun l v => v = t !! l).
Definition ls_correct t : RequestCache (list AgentFsLsEntry) -> Prop := correct (listing t).

(** Everything cached is what the server would answer now. *)
Definition coherent_at t c : Prop :=
  tree c.(c_remote) = t /\ cache_wf c.(c_fs).(statCache) /\ cache_wf c.(c_fs).(lsCache) /\
  stat_correct t c.(c_fs).(statCache) /\ ls_correct t c.(c_fs).(lsCache).

Definition coherent c : Prop := coherent_at (tree c.(c_remote)) c.

(** A call that only reads. *)
Definition observes {A} (m : JbM R A) : Prop := forall t, preserves (coherent_at t) m.

Lemma observes_coherent {A} (m : JbM R A) : observes m -> preserves coherent m.
Proof.
  intros H c Hc. specialize (H _ c Hc). unfold coherent. by rewrite (proj1 H).
Qed.

(** ** Primitive steps *)

(** An update of the known paths only. *)
Definition same_caches (f g : AgentFs) : Prop := statCache f = statCache g /\ lsCache f = lsCache g.

Lemma coherent_same_caches t c f : same_caches (f c.(c_fs)) c.(c_fs) -> coherent_at t c -> coherent_at t (c <| c_fs ::= f |>).
Proof. intros [H1 H2] H. unfold coherent_at in *. destruct c as [fs r]. cbn in *. by rewrite H1, H2. Qed.

Lemma observes_update f : (forall g, same_caches (f g) g) -> observes (update_fs (R:=R) f).
Proof. intros Hf t. apply preserves_modify. intros c. by apply coherent_same_caches. Qed.

Lemma same_rememberAncestors p g : same_caches (rememberAncestors p g) g. Proof. done. Qed.
Lemma same_rememberFile p g : same_caches (rememberFile p g) g. Proof. done. Qed.
Lemma same_rememberDirectory p g : same_caches (rememberDirectory p g) g. Proof. done. Qed.
Lemma same_forgetFile p g : same_caches (forgetFile p g) g. Proof. done. Qed.
Lemma same_forgetDirectory p g : same_caches (forgetDirectory p g) g. Proof. done. Qed.

Lemma same_foldl {B} (f : AgentFs -> B -> AgentFs) (l : list B) g : (forall g b, same_caches (f g b) g) -> same_caches (foldl f g l) g.
Proof.
  intros Hf. revert g. induction l as [|b l IH]; intros g; cbn; [done|].
  destruct (IH (f g b)) as [H1 H2], (Hf g b) as [H3 H4]. split; congruence.
Qed.

Lemma same_remember_entry p e g : same_caches (remember_entry p e g) g.
Proof. unfold remember_entry. by case_decide. Qed.

(** ** What a listing of the parent says *)

Lemma listedChild_spec t c l li : coherent_at t c -> Forall clean l ->
  listedChild (now_of c) (render l) c.(c_fs) = Some li ->
  match li.(li_file) with
  | None => t !! l = None
  | Some e => exists s, t !! l = Some s /\ e.(le_size) = s.(sr_size) /\ e.(le_modifiedAt) = s.(sr_modifiedAt)
  end /\ (li.(li_directory) = true <-> folder t l).
Proof.
  intros (_ & _ & _ & _ & [_ Hls]) Hl. unfold listedChild. case_bool_decide as E; [done|]. rewrite render_root in E by done.
  destruct (exists_last E) as (m & x & ->). pose proof Hl as [Hm [Hx _]%Forall_cons]%Forall_app.
  rewrite dirname_render, removelast_last, basename_render by done. unfold rc_answer.
  destruct (jm_get (render m) _) as [[at_ es]|] eqn:Eg; [|done]. apply Hls in Eg; [|done].
  destruct (isFresh _ _ _); [|done]. intros [= <-]. cbn. destruct Eg as [H1 H2 H3 H4 H5]. split.
  - destruct (head _) as [e|] eqn:Eh.
    + apply head_Some_elem_of, list_elem_of_filter in Eh as [Ht Hin]. apply list_elem_of_filter in Hin as [<- Hin]. by apply H2.
    + destruct (t !! (m ++ [x])) as [s|] eqn:Es; [|done]. destruct (H4 _ _ Es) as (e & He & Ht & Hn). exfalso.
      rewrite head_None in Eh. apply (not_elem_of_nil e). rewrite <- Eh. rewrite !list_elem_of_filter. done.
  - rewrite existsb_exists. split.
    + intros (e & Hin & Ht%bool_decide_eq_true). apply list_elem_of_In, list_elem_of_filter in Hin as [<- Hin]. by apply H3.
    + intros (e & He & Ht & Hn)%H5. exists e. rewrite <- list_elem_of_In, list_elem_of_filter, bool_decide_eq_true. done.
Qed.

(** ** Requests through a cache *)

Lemma stat_load_law r l : Forall clean l ->
  tree (load_stat (render l) r).2 = tree r /\ forall v, (load_stat (render l) r).1 = Ok v -> v = tree r !! l.
Proof.
  intros Hl. pose proof (stat_law r l Hl) as H. unfold load_stat, try_catch, mbind, M_bind.
  destruct (remote_stat (render l) r) as [[s|e] r'] eqn:Es; cbn.
  - destruct H as [Ht Hs]. split; [done|]. by intros v [= <-].
  - destruct H as [Ht [_ Hs]]. change (isNotFound e || isPathNotFound e) with (not_found e).
    destruct (not_found e); cbn; (split; [done|]); [|done]. intros v [= <-]. by rewrite Hs.
Qed.

Section Cached.
Context {T : Type} (get : AgentFs -> RequestCache T) (put : RequestCache T -> AgentFs -> AgentFs).
Context (answers : list string -> T -> Prop) (other : AgentFs -> Prop) (t : Tree).
Hypothesis get_put : forall s f, get (put s f) = s.
Hypothesis other_put : forall s f, other f -> other (put s f).

Definition good_cache c : Prop :=
  tree c.(c_remote) = t /\ cache_wf (get c.(c_fs)) /\ correct answers (get c.(c_fs)) /\ other c.(c_fs).

Lemma good_put c s : good_cache c -> cache_wf s -> correct answers s -> good_cache (c <| c_fs ::= put s |>).
Proof. intros (H1 & _ & _ & H4) Hw Hs. destruct c as [f r]. unfold good_cache in *. cbn in *. rewrite get_put. auto. Qed.

(** A request through the cache answers what the server would, and keeps the
    cache right. *)
Lemma cached_spec others load c l : Forall clean l -> good_cache c ->
  (forall r, tree r = t -> tree (load r).2 = t /\ forall v, (load r).1 = Ok v -> answers l v) ->
  good_cache (cached get put others (render l) load c).2 /\
  forall v, (cached get put others (render l) load c).1 = Ok v -> answers l v.
Proof.
  intros Hl Hc Hload. pose proof Hc as (Ht & Hwf & Hok & Ho). unfold cached.
  destruct (correct_get answers (get (c_fs c)) (now_of c) l Hok Hl) as [(v & E & Hv)|[E|E]]; rewrite E.
  - split; [by apply good_put|]. by intros v' [= <-].
  - destruct c as [f r]. cbn in *. unfold at_remote, on. cbn. destruct (Hload r Ht) as [Ht' Hv]. destruct (load r) as [o r']. cbn in *.
    split; [|done]. unfold good_cache. cbn. by rewrite get_put; auto.
  - destruct c as [f r]. cbn in *. unfold at_remote, on. cbn. destruct (Hload r Ht) as [Ht' Hv]. destruct (load r) as [o r']. cbn in *.
    split; [|done]. unfold good_cache. cbn. rewrite !get_put.
    destruct (correct_settle answers (get f) (remote_now r') l (match o with Ok v => Some v | Throw _ => None end) Hwf Hok Hl) as [W C].
    { intros v. destruct o; [|done]. intros [= ->]. by apply Hv. }
    by split_and!; [|exact W|exact C|apply other_put, other_put].
Qed.
End Cached.

Lemma ask_stat_spec t c l : Forall clean l -> coherent_at t c ->
  let m := cached statCache (fun s f => f <| statCache := s |>) other_stat (render l) (load_stat (render l)) in
  coherent_at t (m c).2 /\ forall v, (m c).1 = Ok v -> v = t !! l.
Proof.
  intros Hl (H1 & H2 & H3 & H4 & H5) m.
  destruct (cached_spec statCache (fun s f => f <| statCache := s |>) (fun l v => v = t !! l)
    (fun f => cache_wf (lsCache f) /\ ls_correct t (lsCache f)) t ltac:(done) ltac:(done) other_stat (load_stat (render l)) c l Hl)
    as [(G1 & G2 & G3 & G4 & G5) Hv]; [done| |by split].
  intros r <-. by apply stat_load_law.
Qed.

Lemma ask_ls_spec t c l : Forall clean l -> coherent_at t c ->
  let m := cached lsCache (fun s f => f <| lsCache := s |>) other_ls (render l) (remote_ls (render l)) in
  coherent_at t (m c).2 /\ forall es, (m c).1 = Ok es -> listing t l es.
Proof.
  intros Hl (H1 & H2 & H3 & H4 & H5) m.
  destruct (cached_spec lsCache (fun s f => f <| lsCache := s |>) (listing t)
    (fun f => cache_wf (statCache f) /\ stat_correct t (statCache f)) t ltac:(done) ltac:(done) other_ls (remote_ls (render l)) c l Hl)
    as [(G1 & G2 & G3 & G4 & G5) Hv]; [done| |by split].
  intros r <-. pose proof (ls_law r l Hl) as H. destruct (remote_ls (render l) r) as [o r']. destruct H as [H Ho].
  split; [done|]. intros es. cbn. by intros ->.
Qed.

(** ** The two readers of the tree *)

(** What [statFile] says of a file, and what the tree says. *)
Definition agrees (v o : option AgentFsStatResult) : Prop :=
  match v, o with
  | None, None => True
  | Some a, Some b => a.(sr_size) = b.(sr_size) /\ a.(sr_modifiedAt) = b.(sr_modifiedAt) /\
                      (a.(sr_modifiedAt) <> None \/ a.(sr_createdAt) = b.(sr_createdAt))
  | _, _ => False
  end.

Lemma agrees_refl o : agrees o o.
Proof. destruct o as [s|]; cbn; auto. Qed.

Lemma statFile_spec t c l : Forall clean l -> coherent_at t c ->
  coherent_at t (statFile other_stat (render l) c).2 /\
  forall v, (statFile other_stat (render l) c).1 = Ok v -> agrees v (t !! l).
Proof.
  intros Hl Hc. pose proof (ask_stat_spec t c l Hl Hc) as Hask. cbn zeta in Hask.
  assert (Hask' : forall o c', cached statCache (fun s f => f <| statCache := s |>) other_stat (render l) (load_stat (render l)) c = (o, c') ->
     coherent_at t c' /\ forall v, o = Ok v -> agrees v (t !! l)).
  { intros o c' E. rewrite E in Hask. destruct Hask as [H1 H2]. split; [done|]. intros v ->. rewrite <- (H2 v eq_refl). apply agrees_refl. }
  unfold statFile, gets. unfold mbind, M_bind.
  destruct (listedChild (now_of c) (render l) (c_fs c)) as [li|] eqn:E.
  - pose proof (listedChild_spec t c l li Hc Hl E) as [Hf _]. destruct li as [[e|] d]; cbn in *.
    + destruct (le_modifiedAt e) as [m|] eqn:Em.
      * split; [done|]. intros v [= <-]. destruct Hf as (s & -> & H1 & H2). cbn. split_and!; [done..|]. by left.
      * destruct (cached _ _ _ _ _ c) as [o c'] eqn:Ec. by apply Hask'.
    + split; [done|]. intros v [= <-]. by rewrite Hf.
  - destruct (cached _ _ _ _ _ c) as [o c'] eqn:Ec. by apply Hask'.
Qed.

Lemma lsEntries_spec t c l : Forall clean l -> coherent_at t c ->
  coherent_at t (lsEntries other_ls (render l) c).2 /\
  forall es, (lsEntries other_ls (render l) c).1 = Ok es -> listing t l es.
Proof.
  intros Hl Hc. pose proof (ask_ls_spec t c l Hl Hc) as Hask. cbn zeta in Hask. unfold lsEntries, gets. unfold mbind, M_bind.
  destruct (listedChild (now_of c) (render l) (c_fs c)) as [li|] eqn:E; [|done].
  pose proof (listedChild_spec t c l li Hc Hl E) as [_ Hd]. destruct (li_directory li) eqn:Ed; [done|].
  split; [done|]. intros es [= <-]. assert (Hnf : ~ folder t l) by (intros H%Hd; done).
  assert (Hno : forall x k, t !! (l ++ x :: k) = None).
  { intros x k. destruct (t !! _) eqn:Ek; [|done]. exfalso. apply Hnf. exists x, k. by rewrite Ek. }
  split; try (intros e He; by apply elem_of_nil in He).
  - intros n s Hs. by rewrite Hno in Hs.
  - intros n (x & k & Hk). rewrite <- app_assoc in Hk. cbn in Hk. by rewrite Hno in Hk.
Qed.

(** ** Writes *)

Lemma invalidate_all_answers paths f :
  let f' := foldl (fun f path => invalidate path f) f paths in
  (forall q at_ v, jm_get q (rc_answers (statCache f')) = Some (at_, v) ->
     q ∉ paths /\ jm_get q (rc_answers (statCache f)) = Some (at_, v)) /\
  (forall q at_ es, jm_get q (rc_answers (lsCache f')) = Some (at_, es) ->
     (forall p, p ∈ paths -> q ∉ ancestors_of p) /\ jm_get q (rc_answers (lsCache f)) = Some (at_, es)).
Proof.
  revert f. induction paths as [|p paths IH]; intros f; cbn [foldl].
  - split; intros q at_ v Hq; (split; [|done]); [by apply not_elem_of_nil|]. by intros p ?%elem_of_nil.
  - destruct (IH (invalidate p f)) as [IHs IHl]. split.
    + intros q at_ v [H1 [H2 H3]%rc_delete_answers]%IHs. split; [|done]. rewrite elem_of_cons. intros [->|?]; auto.
    + intros q at_ es [H1 [H2 [H3 H4]%rc_delete_answers]%rc_delete_all]%IHl. split; [|done].
      intros p' [->|Hp]%elem_of_cons; [done|by apply H1].
Qed.

Lemma invalidate_all_wf paths f :
  cache_wf (statCache f) /\ cache_wf (lsCache f) /\ rc_inFlight (statCache f) = [] /\ rc_inFlight (lsCache f) = [] ->
  let f' := foldl (fun f path => invalidate path f) f paths in
  cache_wf (statCache f') /\ cache_wf (lsCache f') /\ rc_inFlight (statCache f') = [] /\ rc_inFlight (lsCache f') = [].
Proof.
  revert f. induction paths as [|p paths IH]; intros f H; cbn [foldl]; [done|]. apply IH. destruct H as (H1 & H2 & H3 & H4).
  split_and!.
  - by apply (cache_step_wf (fun _ => None) (CacheDelete p)).
  - apply rc_delete_all_wf. by apply (cache_step_wf (fun _ => None) (CacheDelete p)).
  - by apply rc_delete_flight.
  - by apply rc_delete_all_flight, rc_delete_flight.
Qed.

(** Dropping what a write at some paths can change restores coherence. *)
Lemma invalidate_coherent t t' c r' (ls : list (list string)) :
  coherent_at t c -> Forall (Forall clean) ls -> (forall q, q ∉ ls -> t' !! q = t !! q) -> tree r' = t' ->
  coherent_at t' {| c_fs := foldl (fun f path => invalidate path f) c.(c_fs) (render <$> ls); c_remote := r' |}.
Proof.
  intros (H1 & H2 & H3 & [F1 H4] & [F2 H5]) Hls Hq Hr. destruct (invalidate_all_answers (render <$> ls) (c_fs c)) as [As Al].
  destruct (invalidate_all_wf (render <$> ls) (c_fs c)) as (W1 & W2 & W3 & W4); [done|].
  rewrite Forall_forall in Hls. split_and!; cbn; [done|done|done| |].
  - split; [done|]. intros l at_ v Hl [Hn Hg]%As. rewrite Hq; [by apply (H4 l at_)|]. intros Hin. apply Hn, list_elem_of_fmap. eauto.
  - split; [done|]. intros l at_ es Hl [Hn Hg]%Al. apply (listing_only t); [|by apply (H5 l at_)].
    intros x k. apply Hq. intros Hin. apply (Hn (render (l ++ x :: k))); [apply list_elem_of_fmap; eauto|].
    apply elem_of_ancestors_of; [by apply Hls|]. eauto 6.
Qed.

Lemma mutate_spec op (ls : list (list string)) t c : coherent_at t c -> Forall (Forall clean) ls ->
  (forall r q, q ∉ ls -> tree (op r).2 !! q = tree r !! q) ->
  coherent_at (tree (op c.(c_remote)).2) (mutate op (render <$> ls) c).2.
Proof.
  intros Hc Hls Hop. unfold mutate, at_remote, on. pose proof Hc as [Ht _]. destruct c as [f r]. cbn in *.
  specialize (Hop r). destruct (op r) as [o r'] eqn:E. cbn in *.
  apply (invalidate_coherent t _ {| c_fs := f; c_remote := r |}); try done. intros q Hq. rewrite <- Ht. by apply Hop.
Qed.

Lemma coherent_of_at t c : coherent_at t c -> coherent c.
Proof. intros H. unfold coherent. by rewrite (proj1 H). Qed.

Lemma mutate_coherent op paths : Forall canonical paths ->
  (forall ls, paths = render <$> ls -> Forall (Forall clean) ls -> forall r q, q ∉ ls -> tree (op r).2 !! q = tree r !! q) ->
  preserves coherent (mutate op paths).
Proof.
  intros Hp Hop c Hc. assert (exists ls, paths = render <$> ls /\ Forall (Forall clean) ls) as (ls & -> & Hls).
  { clear Hop. induction Hp as [|p paths (l & -> & Hl) Hp (ls & -> & Hls)]; [by exists []|]. exists (l :: ls). split; [done|by constructor]. }
  eapply coherent_of_at, mutate_spec; [exact Hc|done|]. by apply Hop.
Qed.

(** ** Every call keeps coherence *)

Lemma canonical_normalizePath p : canonical (normalizePath p). Proof. apply normalized_path_canonical. Qed.
Lemma canonical_joinPath p q : canonical (joinPath p q). Proof. apply normalized_path_canonical. Qed.
Lemma canonical_dirname p : canonical (dirname p). Proof. apply path_dirname_canonical. Qed.
#[local] Hint Resolve canonical_normalizePath canonical_joinPath canonical_dirname : preserve.

Lemma observes_statFile p t : canonical p -> preserves (coherent_at t) (statFile other_stat p).
Proof. intros (l & -> & Hl) c Hc. by apply statFile_spec. Qed.

Lemma observes_lsEntries p t : canonical p -> preserves (coherent_at t) (lsEntries other_ls p).
Proof. intros (l & -> & Hl) c Hc. by apply lsEntries_spec. Qed.

Lemma observes_update_fs f t : (forall g, same_caches (f g) g) -> preserves (coherent_at t) (update_fs (R:=R) f).
Proof. intros Hf. by apply observes_update. Qed.

Lemma observes_get p t : preserves (coherent_at t) (at_remote (R:=R) (remote_get p)).
Proof.
  intros c (H1 & H2). unfold at_remote, on. pose proof (get_law (c_remote c) p) as Hg.
  destruct (remote_get p (c_remote c)) as [o r]. destruct c as [f r0]. cbn in *. unfold coherent_at. cbn. by rewrite Hg.
Qed.

Lemma same_remember_entries p es g : same_caches (foldl (fun f entry => remember_entry p entry f) g es) g.
Proof. apply same_foldl. intros. apply same_remember_entry. Qed.

#[local] Hint Resolve observes_statFile observes_lsEntries observes_update_fs observes_get same_rememberFile
  same_rememberDirectory same_forgetFile same_forgetDirectory same_remember_entries : preserve.

(** Reduce a call that reads to its steps. *)
Ltac observe := repeat first
  [ progress preserve
  | match goal with |- preserves _ (if ?b then _ else _) => destruct b end
  | match goal with |- preserves _ (match ?x with _ => _ end) => destruct x end ].

Lemma observes_fileExists p t : canonical p -> preserves (coherent_at t) (fileExists other_stat p).
Proof. intros Hp. unfold fileExists. observe. Qed.

Lemma observes_listDirectory p b t : canonical p -> preserves (coherent_at t) (listDirectory other_ls p b).
Proof. intros Hp. unfold listDirectory. observe. Qed.
#[local] Hint Resolve observes_fileExists observes_listDirectory : preserve.

Lemma observes_directoryExists p t : canonical p -> preserves (coherent_at t) (directoryExists other_ls p).
Proof. intros Hp. unfold directoryExists. observe. Qed.
#[local] Hint Resolve observes_directoryExists : preserve.

Lemma observes_assertParentWritable p o t : preserves (coherent_at t) (assertParentWritable other_stat p o).
Proof. unfold assertParentWritable. observe. Qed.

Lemma observes_assertParentDirectory p o b t : preserves (coherent_at t) (assertParentDirectory other_stat other_ls p o b).
Proof. unfold assertParentDirectory. observe. Qed.

Lemma observes_assertDirectoryReadable p o t : canonical p -> preserves (coherent_at t) (assertDirectoryReadable other_stat other_ls p o).
Proof. intros Hp. unfold assertDirectoryReadable. observe. Qed.

Lemma observes_validatePath p o t : preserves (coherent_at t) (validatePath (R:=R) p o).
Proof. unfold validatePath. observe. Qed.
#[local] Hint Resolve observes_assertParentWritable observes_assertParentDirectory observes_assertDirectoryReadable
  observes_validatePath : preserve.

Lemma observes_fs_stat p t : preserves (coherent_at t) (fs_stat other_stat other_ls p).
Proof. unfold fs_stat. observe. Qed.
#[local] Hint Resolve observes_fs_stat : preserve.

Lemma observes_exists p t : preserves (coherent_at t) (exists_ other_stat other_ls p).
Proof. unfold exists_. observe. Qed.

Lemma observes_readFileBuffer p t : preserves (coherent_at t) (readFileBuffer other_ls p).
Proof. unfold readFileBuffer. observe. Qed.

Lemma observes_readdirWithFileTypes p t : preserves (coherent_at t) (readdirWithFileTypes other_stat other_ls localeCompare_le p).
Proof. unfold readdirWithFileTypes. observe. Qed.

Lemma observes_collectFilePaths fuel p t : canonical p -> preserves (coherent_at t) (collectFilePaths other_ls fuel p).
Proof. revert p. induction fuel as [|fuel IH]; intros p Hp; cbn [collectFilePaths]; observe. Qed.

Lemma observes_refreshDirectory fuel p t : canonical p -> preserves (coherent_at t) (refreshDirectory other_ls fuel p).
Proof. revert p. induction fuel as [|fuel IH]; intros p Hp; cbn [refreshDirectory]; observe. Qed.
#[local] Hint Resolve observes_exists observes_readFileBuffer observes_readdirWithFileTypes observes_collectFilePaths
  observes_refreshDirectory : preserve.

#[local] Hint Extern 4 (preserves coherent _) => apply observes_coherent; intros ?; solve [eauto with preserve] : preserve.

(** A call that writes: its steps read, or write and drop. *)
Ltac keep := repeat first
  [ apply observes_coherent; intros ?; solve [eauto with preserve]
  | progress preserve
  | match goal with |- preserves _ (if ?b then _ else _) => destruct b end
  | match goal with |- preserves _ (match ?x with _ => _ end) => destruct x end ].

(** The next statement of a call. *)
Ltac step := apply preserves_bind; [keep|intros ?].

(** A continuation may use what its first step can answer. *)
Lemma preserves_bind_value {S A B} (I : S -> Prop) (m : M js_error S A) (f : A -> M js_error S B) :
  preserves I m -> (forall a s s', m s = (Ok a, s') -> preserves I (f a)) -> preserves I (m ≫= f).
Proof.
  intros Hm Hf s Hs. specialize (Hm s Hs). unfold mbind, M_bind.
  destruct (m s) as [[a|e] s1] eqn:E; cbn in *; [by apply (Hf a s s1)|done].
Qed.

Lemma coherent_putRaw p bytes message : canonical p -> preserves coherent (putRaw p bytes message).
Proof.
  intros Hp. apply mutate_coherent; [by repeat constructor|]. intros [|l [|]] E Hls r q Hq; try discriminate E.
  injection E as ->. apply Forall_cons in Hls as [Hl _]. apply put_law; [done|]. set_solver.
Qed.

Lemma coherent_rm p : canonical p -> preserves coherent (mutate (remote_rm p) [p]).
Proof.
  intros Hp. apply mutate_coherent; [by repeat constructor|]. intros [|l [|]] E Hls r q Hq; try discriminate E.
  injection E as ->. apply Forall_cons in Hls as [Hl _]. pose proof (rm_law r l Hl) as H.
  destruct (remote_rm (render l) r) as [o r']. apply (proj1 H). set_solver.
Qed.

Lemma coherent_cp p q : canonical p -> canonical q -> preserves coherent (mutate (remote_cp p q) [q]).
Proof.
  intros (l & -> & Hl) Hq. apply mutate_coherent; [by repeat constructor|]. intros [|m [|]] E Hls r x Hx; try discriminate E.
  injection E as ->. apply Forall_cons in Hls as [Hm _]. apply cp_law; [done..|]. set_solver.
Qed.

Lemma coherent_mv p q message : canonical p -> canonical q -> preserves coherent (mutate (remote_mv p q message) [p; q]).
Proof.
  intros Hp Hq. apply mutate_coherent; [by repeat constructor|]. intros [|l [|m [|]]] E Hls r x Hx; try discriminate E.
  injection E as -> ->. apply Forall_cons in Hls as [Hl Hls]. apply Forall_cons in Hls as [Hm _]. apply mv_law; [done..| |]; set_solver.
Qed.

Lemma coherent_update_fs f : (forall g, same_caches (f g) g) -> preserves coherent (update_fs (R:=R) f).
Proof. intros Hf. by apply observes_coherent, observes_update. Qed.
#[local] Hint Resolve coherent_putRaw coherent_rm coherent_cp coherent_mv coherent_update_fs : preserve.

Lemma canonical_markerPath f p : canonical (markerPath f p). Proof. apply normalized_path_canonical. Qed.
#[local] Hint Resolve canonical_markerPath : preserve.

Lemma coherent_writeFile p content o : preserves coherent (writeFile other_stat p content o).
Proof. unfold writeFile, messageFor. keep. Qed.

Lemma coherent_appendFile p content o : preserves coherent (appendFile other_stat other_ls p content o).
Proof. unfold appendFile, messageFor. keep. Qed.

(** The marker that [mkdir] writes is read from the adapter just before. *)
Lemma coherent_mkdir p b : preserves coherent (mkdir other_stat other_ls p b).
Proof.
  unfold mkdir, messageFor. step. case_match; [keep|]. step. case_match; [keep|]. step.
  apply preserves_bind_value; [keep|]. intros marker c c' [= <- <-]. keep.
Qed.
#[local] Hint Resolve coherent_writeFile coherent_appendFile coherent_mkdir : preserve.

(** [collectFilePaths] answers joined paths. *)
Lemma collectFilePaths_canonical fuel p c files c' :
  collectFilePaths other_ls fuel p c = (Ok files, c') -> Forall canonical files.
Proof.
  revert p c files c'. induction fuel as [|fuel IH]; intros p c files c'; cbn [collectFilePaths]; [done|].
  intros (es & c1 & _ & H)%bind_ok. apply bind_ok in H as (fs & c2 & H & Hr). apply ret_ok in Hr as [-> _].
  revert c1 fs H. induction es as [|e es IHes]; intros c1 fs; cbn [map_m].
  - intros [-> _]%ret_ok. constructor.
  - intros (f & c3 & Hf & H)%bind_ok. apply bind_ok in H as (fs' & c4 & H & [-> ->]%ret_ok). cbn. apply Forall_app. split; [|by eapply IHes].
    case_decide; [by eapply IH|]. apply ret_ok in Hf as [-> _]. constructor; [apply canonical_joinPath|constructor].
Qed.

Lemma coherent_deleteTree p : canonical p -> preserves coherent (update_fs (R:=R) (invalidateTree p)).
Proof.
  intros (l & -> & Hl) c Hc. pose proof (invalidate_coherent (tree c.(c_remote)) (tree c.(c_remote)) c c.(c_remote) [l] Hc) as H.
  destruct H as (H1 & H2 & H3 & [F1 H4] & [F2 H5]); [apply Forall_singleton, Hl|done|done|].
  apply (coherent_of_at (tree (c_remote c))). unfold update_fs, modify. cbn.
  assert (Hdel : forall T (s : RequestCache T), cache_wf s -> rc_inFlight s = [] ->
    cache_wf (rc_deleteTree (render l) s) /\ rc_inFlight (rc_deleteTree (render l) s) = [] /\
    forall q v, jm_get q (rc_answers (rc_deleteTree (render l) s)) = Some v -> jm_get q (rc_answers s) = Some v).
  { intros T s Hw Hf. split; [by apply (cache_step_wf (fun _ => None) (CacheDeleteTree (render l)))|].
    unfold rc_deleteTree. destruct (bool_decide (render l = "/")); [split; [reflexivity|]; intros q v E; discriminate E|]. cbn. rewrite Hf. split; [done|]. intros q v. rewrite jm_get_drop_prefix.
    destruct (starts_with _ q); [done|]. rewrite jm_get_delete. by case_decide. }
  destruct (Hdel _ _ H2 F1) as (W1 & W2 & W3), (Hdel _ _ H3 F2) as (W4 & W5 & W6).
  split_and!; [done|exact W1|exact W4| |].
  - split; [exact W2|]. intros m at_ v Hm Hg%W3. by apply (H4 m at_).
  - split; [exact W5|]. intros m at_ es Hm Hg%W6. by apply (H5 m at_).
Qed.
#[local] Hint Resolve coherent_deleteTree : preserve.

Lemma coherent_rm_tree fuel p b1 b2 : preserves coherent (rm other_stat other_ls fuel p b1 b2).
Proof.
  unfold rm. do 3 step. case_match; [keep|]. do 2 step. case_match; [keep|]. do 2 step. apply preserves_bind_value; [keep|]. intros files c c' Hf%collectFilePaths_canonical.
  rewrite Forall_forall in Hf. keep.
Qed.

Lemma coherent_cp_tree fuel p q b : preserves coherent (cp other_stat other_ls fuel p q b).
Proof. revert p q b. induction fuel as [|fuel IH]; intros p q b; cbn [cp]; keep. Qed.
#[local] Hint Resolve coherent_rm_tree coherent_cp_tree : preserve.

Lemma coherent_mv_tree fuel p q : preserves coherent (mv other_stat other_ls fuel p q).
Proof. unfold mv, messageFor. keep. Qed.

(** ** Sequences of calls *)

Inductive fs_call : Type :=
| CStat (path : string) | CExists (path : string) | CReadFile (path : string) (options : option BufferEncoding)
| CReadFileBytes (path : string) | CReaddir (path : string) | CRealpath (path : string) | CLstat (path : string)
| CWriteFile (path : string) (content : FileContent) (options : option BufferEncoding)
| CAppendFile (path : string) (content : FileContent) (options : option BufferEncoding)
| CMkdir (path : string) (recursive : bool) | CChmod (path : string) (mode : Z) | CUtimes (path : string)
| CReadlink (path : string) | CSymlink (target linkPath : string) | CLink (existingPath newPath : string)
| CRm (path : string) (recursive force : bool) | CCp (src dest : string) (recursive : bool) | CMv (src dest : string)
| CRefresh (path : string) | CInitial (initialFiles : list (string * InitialFile)).

Definition ignore {A} (m : JbM R A) : JbM R unit := _ ← m; mret tt.

Definition run_call (fuel : nat) (call : fs_call) : JbM R unit :=
  match call with
  | CStat path => ignore (fs_stat other_stat other_ls path)
  | CExists path => ignore (exists_ other_stat other_ls path)
  | CReadFile path options => ignore (readFile other_ls path options)
  | CReadFileBytes path => ignore (readFileBytes other_ls path)
  | CReaddir path => ignore (readdir other_stat other_ls localeCompare_le path)
  | CRealpath path => ignore (realpath other_stat other_ls path)
  | CLstat path => ignore (lstat other_stat other_ls path)
  | CWriteFile path content options => writeFile other_stat path content options
  | CAppendFile path content options => appendFile other_stat other_ls path content options
  | CMkdir path recursive => mkdir other_stat other_ls path recursive
  | CChmod path mode => chmod other_stat other_ls path mode
  | CUtimes path => utimes other_stat other_ls path
  | CReadlink path => ignore (readlink other_stat other_ls path)
  | CSymlink target linkPath => symlink target linkPath
  | CLink existingPath newPath => link other_stat other_ls fuel existingPath newPath
  | CRm path recursive force => rm other_stat other_ls fuel path recursive force
  | CCp src dest recursive => cp other_stat other_ls fuel src dest recursive
  | CMv src dest => mv other_stat other_ls fuel src dest
  | CRefresh path => ignore (refreshAllPaths other_ls fuel path)
  | CInitial initialFiles => writeInitialFiles other_stat other_ls initialFiles
  end.

(** A caller catches what a call throws and goes on. *)
Definition run_calls (fuel : nat) (calls : list fs_call) (c : Client R) : Client R :=
  foldl (fun c call => (run_call fuel call c).2) c calls.

#[local] Hint Resolve coherent_mv_tree : preserve.

Lemma coherent_call fuel call : preserves coherent (run_call fuel call).
Proof.
  destruct call; cbn [run_call]; unfold ignore; keep;
    unfold readFile, readFileBytes, readdir, realpath, lstat, chmod, utimes, readlink, symlink, link, refreshAllPaths,
      writeInitialFiles, writeInitialFile; keep.
Qed.

Lemma coherent_calls fuel calls c : coherent c -> coherent (run_calls fuel calls c).
Proof. revert c. induction calls as [|call calls IH]; intros c H; [done|]. cbn. by apply IH, coherent_call. Qed.

Lemma coherent_new marker message cacheTtlMs r : coherent {| c_fs := new_adapter marker message cacheTtlMs; c_remote := r |}.
Proof. split_and!; cbn; try apply new_cache_wf; done. Qed.

(** ** What a coherent adapter answers *)

Lemma observed {A} (m : JbM R A) t c o c' : preserves (coherent_at t) m -> coherent_at t c -> m c = (o, c') -> coherent_at t c'.
Proof. intros Hm Hc E. specialize (Hm c Hc). by rewrite E in Hm. Qed.

Lemma listing_nil t l es : listing t l es -> es <> [] <-> folder t l.
Proof.
  intros [H1 H2 H3 H4 H5]. split.
  - destruct es as [|e es]; [done|]. intros _. destruct (le_type e) eqn:Et.
    + destruct (H2 e ltac:(left) Et) as (s & Hs & _). exists (le_name e), []. by rewrite Hs.
    + destruct (H3 e ltac:(left) Et) as (x & k & Hk). exists (le_name e), (x :: k). by rewrite <- app_assoc in Hk.
  - intros (x & [|y k] & Hk) ->.
    + destruct (t !! (l ++ [x])) as [s|] eqn:Es; [|done]. destruct (H4 _ _ Es) as (e & He & _). by apply elem_of_nil in He.
    + destruct (H5 x) as (e & He & _); [exists y, k; by rewrite <- app_assoc|]. by apply elem_of_nil in He.
Qed.

Lemma remember_marker p es f :
  directoryMarkerName (foldl (fun f entry => remember_entry p entry f) f es) = directoryMarkerName f.
Proof. revert f. induction es as [|e es IH]; intros f; cbn; [done|]. rewrite IH. unfold remember_entry. by case_decide. Qed.

Lemma listDirectory_value t c l b es c' : Forall clean l -> coherent_at t c ->
  listDirectory other_ls (render l) b c = (Ok es, c') ->
  exists all, listing t l all /\
    es = if b then all else filter (fun e => bool_decide (e.(le_name) = directoryMarkerName c'.(c_fs)) = false) all.
Proof.
  intros Hl Hc. unfold listDirectory. intros (all & c1 & H1 & H)%bind_ok.
  pose proof (lsEntries_spec t c l Hl Hc) as [_ Hv]. rewrite H1 in Hv. specialize (Hv all eq_refl).
  apply bind_ok in H as (mk & c2 & [-> ->]%gets_ok & H). apply bind_ok in H as (u & c3 & [_ ->]%modify_ok & [-> ->]%ret_ok).
  exists all. split; [done|]. destruct b; [done|].
  assert (E : directoryMarkerName (c_fs (c1 <| c_fs ::= fun f => foldl (fun f entry => remember_entry (render l) entry f) f all |>)) =
    directoryMarkerName (c_fs c1)) by apply remember_marker.
  unfold isDirectoryMarkerName. by rewrite E.
Qed.

Lemma directoryExists_value t c l b c' : Forall clean l -> coherent_at t c ->
  directoryExists other_ls (render l) c = (Ok b, c') ->
  b = true <-> l = [] \/ folder t l \/ render l ∈ knownDirectories c'.(c_fs).
Proof.
  intros Hl Hc. unfold directoryExists. destruct (bool_decide (render l = "/")) eqn:Er.
  - apply bool_decide_eq_true in Er. rewrite render_root in Er by done. intros [-> _]%ret_ok. naive_solver.
  - apply bool_decide_eq_false in Er. rewrite render_root in Er by done. intros (es & c1 & H1 & H)%bind_ok.
    destruct (listDirectory_value t c l true es c1 Hl Hc H1) as (all & Hall & ->).
    pose proof (listing_nil t l all Hall) as Hnil. destruct all as [|e all].
    + apply gets_ok in H as [-> ->]. rewrite bool_decide_eq_true. split; [by right; right|]. intros [?|[Hf|?]]; [done| |done].
      by apply Hnil in Hf.
    + apply bind_ok in H as (u & c2 & _ & [-> _]%ret_ok). split; [|done]. intros _. right. left. by apply Hnil.
Qed.

Lemma elem_of_add_all (p : string) ps (s : list string) : p ∈ foldl (fun s d => js_add d s) s ps <-> p ∈ ps \/ p ∈ s.
Proof.
  revert s. induction ps as [|q ps IH]; intros s; cbn [foldl].
  - split; [by right|]. by intros [?%elem_of_nil|].
  - rewrite IH, elem_of_js_add, elem_of_cons. tauto.
Qed.

Lemma rememberDirectory_known l f : Forall clean l -> render l ∈ knownDirectories (rememberDirectory (render l) f).
Proof.
  intros Hl. unfold rememberDirectory, rememberAncestors. rewrite normalizePath_of_render by done.
  apply elem_of_add_all. right. apply elem_of_js_add. by left.
Qed.

Lemma fs_stat_value t c path st c' : coherent_at t c -> fs_stat other_stat other_ls path c = (Ok st, c') ->
  let l := segments path in
  (exists now s, t !! l = Some s /\ st = fileStat now s) \/
  (exists now, st = directoryStat now /\ (l = [] \/ t !! l = None /\ (folder t l \/ render l ∈ knownDirectories c'.(c_fs)))).
Proof.
  intros Hc H l. assert (Hl : Forall clean l) by apply segments_clean. revert H. unfold fs_stat. rewrite normalizePath_render. fold l.
  intros (u & c1 & H1 & H)%bind_ok. apply (observed _ t) in H1 as Hc1; [|apply observes_validatePath|done].
  destruct (bool_decide (render l = "/")) eqn:Er.
  { apply bool_decide_eq_true in Er. rewrite render_root in Er by done. apply gets_ok in H as [-> _]. right. eauto. }
  apply bool_decide_eq_false in Er. rewrite render_root in Er by done. apply bind_ok in H as (v & c2 & H2 & H).
  pose proof (statFile_spec t c1 l Hl Hc1) as [Hc2 Hv]. rewrite H2 in Hc2, Hv. specialize (Hv v eq_refl). cbn in Hc2.
  destruct v as [a|].
  - apply bind_ok in H as (u' & c3 & _ & [-> _]%gets_ok). destruct (t !! l) as [b|]; [|done]. destruct Hv as (E1 & E2 & E3).
    left. eexists _, b. split; [done|]. unfold fileStat. rewrite E1, E2. destruct (sr_modifiedAt b) eqn:Eb; [done|].
    destruct E3 as [E3| ->]; [congruence|done].
  - destruct (t !! l) as [b|] eqn:Et; [done|]. apply bind_ok in H as (d & c3 & H3 & H).
    pose proof (directoryExists_value t c2 l d c3 Hl Hc2 H3) as Hd. destruct d; [|done].
    apply bind_ok in H as (u' & c4 & [_ ->]%modify_ok & [-> ->]%gets_ok). right. eexists. split; [done|]. right. split; [done|].
    destruct (proj1 Hd eq_refl) as [?|[?|Hk]]; [done|by left|right]. by apply rememberDirectory_known.
Qed.

Lemma readdir_value t c path names c' : coherent_at t c ->
  readdir other_stat other_ls localeCompare_le path c = (Ok names, c') ->
  let l := segments path in
  forall n, n ∈ names <-> n <> directoryMarkerName c'.(c_fs) /\ (t !! (l ++ [n]) <> None \/ folder t (l ++ [n])).
Proof.
  intros Hc H l n. assert (Hl : Forall clean l) by apply segments_clean. revert H. unfold readdir.
  intros (ds & c1 & H & [-> ->]%ret_ok)%bind_ok. revert H. unfold readdirWithFileTypes. rewrite normalizePath_render. fold l.
  intros (u & c2 & H1 & H)%bind_ok. apply (observed _ t) in H1 as Hc2; [|apply observes_validatePath|done].
  apply bind_ok in H as (u' & c3 & H2 & H).
  apply (observed _ t) in H2 as Hc3; [|apply observes_assertDirectoryReadable; exists l; auto|done].
  apply bind_ok in H as (es & c4 & H3 & [-> ->]%ret_ok).
  destruct (listDirectory_value t c3 l false es c4 Hl Hc3 H3) as (all & [L1 L2 L3 L4 L5] & ->).
  rewrite list_elem_of_fmap. setoid_rewrite elem_of_sort_by. setoid_rewrite list_elem_of_fmap. setoid_rewrite list_elem_of_filter.
  setoid_rewrite bool_decide_eq_false. split.
  - intros (d & -> & e & -> & Hm & He). cbn. split; [done|]. destruct (le_type e) eqn:Et.
    + destruct (L2 e He Et) as (s & -> & _). by left.
    + right. by apply L3.
  - intros [Hm [Ht|Hf]].
    + destruct (t !! (l ++ [n])) as [s|] eqn:Es; [|done]. destruct (L4 _ _ Es) as (e & He & _ & <-).
      by refine (ex_intro _ _ (conj _ (ex_intro _ e (conj eq_refl (conj Hm He))))).
    + destruct (L5 _ Hf) as (e & He & _ & <-).
      by refine (ex_intro _ _ (conj _ (ex_intro _ e (conj eq_refl (conj Hm He))))).
Qed.

End Coherence.

#[export] Hint Resolve canonical_normalizePath canonical_joinPath canonical_dirname canonical_markerPath
  observes_statFile observes_lsEntries observes_update_fs observes_get same_rememberFile same_rememberDirectory
  same_forgetFile same_forgetDirectory same_remember_entries observes_fileExists observes_listDirectory
  observes_directoryExists observes_validatePath observes_exists observes_collectFilePaths observes_refreshDirectory
  coherent_rm coherent_update_fs : preserve.
