(* ===== verification/JbServer.v ===== *)
(** * A drive in memory, as the adapter's server

    The smallest server that keeps [RemoteLaws]: files by path, with their bytes
    and the time of their last write.  The theorems of the adapter are evaluated
    on it, and the laws are shown to be satisfiable. *)

From S2P Require Import Prelude JsString Schema JsMap RequestCache JbPath JbBytes JbAdapter JbSpec.

Record MemFile : Type := {
  mf_body : string;
  mf_at : Z
}.

Record MemDrive : Type := {
  md_files : gmap (list string) MemFile;
  md_now : Z
}.

Definition mem_stat (f : MemFile) : AgentFsStatResult :=
  {| sr_size := Z.of_nat (String.length f.(mf_body)); sr_modifiedAt := Some (pretty f.(mf_at)); sr_createdAt := None |}.

(** Only clean paths can be stored; the tree shows those. *)
Definition mem_tree (d : MemDrive) : Tree := mem_stat <$> filter (fun kf => Forall clean kf.1) d.(md_files).

Definition not_found_error : js_error := AgentFsHttpError "File not found" 404 (Some "NOT_FOUND").

(** What the entry under [k] is for the folder [l]. *)
Fixpoint below (l k : list string) : option (list string) :=
  match l, k with
  | [], _ => Some k
  | x :: l', y :: k' => if decide (x = y) then below l' k' else None
  | _ :: _, [] => None
  end.

Definition mem_entry (l : list string) (kf : list string * AgentFsStatResult) : option AgentFsLsEntry :=
  match below l kf.1 with
  | Some [n] => Some {| le_name := n; le_type := LsFile; le_size := kf.2.(sr_size); le_modifiedAt := kf.2.(sr_modifiedAt) |}
  | Some (n :: _) => Some {| le_name := n; le_type := LsDirectory; le_size := 0; le_modifiedAt := None |}
  | _ => None
  end.

Definition mem_ls (d : MemDrive) (l : list string) : list AgentFsLsEntry :=
  remove_dups (omap (mem_entry l) (map_to_list (mem_tree d))).

Definition mem_write (l : list string) (body : string) (d : MemDrive) : MemDrive :=
  {| md_files := <[l := {| mf_body := body; mf_at := d.(md_now) |}]> d.(md_files); md_now := d.(md_now) + 1 |}.
Definition mem_delete (l : list string) (d : MemDrive) : MemDrive :=
  {| md_files := delete l d.(md_files); md_now := d.(md_now) + 1 |}.

Definition find_file (path : string) : M js_error MemDrive MemFile :=
  reads (fun d => match d.(md_files) !! segments path with Some f => Ok f | None => Throw not_found_error end).

#[export] Instance mem_remote : Remote MemDrive := {
  remote_now := md_now;
  remote_stat path := (f ← find_file path; mret (mem_stat f));
  remote_ls path := gets (fun d => mem_ls d (segments path));
  remote_rm path := (_ ← find_file path; modify (mem_delete (segments path)));
  remote_cp from to := (f ← find_file from; modify (mem_write (segments to) f.(mf_body)));
  remote_mv from to _ := (f ← find_file from; modify (fun d => mem_write (segments to) f.(mf_body) (mem_delete (segments from) d)));
  remote_get path := (f ← find_file path; mret f.(mf_body));
  remote_put path body _ := modify (mem_write (segments path) body)
}.

(** ** Lemmas *)

Lemma below_app l k : below l (l ++ k) = Some k.
Proof. induction l as [|x l IH]; cbn; [by destruct k|]. by rewrite decide_True. Qed.

Lemma below_some l k m : below l k = Some m -> k = l ++ m.
Proof.
  revert k. induction l as [|x l IH]; intros k; cbn; [by intros [= ->]|]. destruct k as [|y k]; [done|].
  case_decide as E; [subst|done]. by intros ->%IH.
Qed.

Lemma mem_tree_lookup d l : mem_tree d !! l = if decide (Forall clean l) then mem_stat <$> d.(md_files) !! l else None.
Proof.
  unfold mem_tree. rewrite lookup_fmap, map_lookup_filter. destruct (d.(md_files) !! l) as [f|]; cbn; [|by case_decide].
  rewrite option_guard_decide. cbn. by repeat case_decide.
Qed.

Lemma mem_tree_clean d l s : mem_tree d !! l = Some s -> Forall clean l.
Proof. rewrite mem_tree_lookup. by case_decide. Qed.

Lemma mem_listing d l : Forall clean l -> listing (mem_tree d) l (mem_ls d l).
Proof.
  intros Hl. assert (Hin : forall e, e ∈ mem_ls d l <-> exists k s, mem_tree d !! k = Some s /\ mem_entry l (k, s) = Some e).
  { intros e. unfold mem_ls. rewrite elem_of_remove_dups, list_elem_of_omap. split.
    - intros ([k s] & Hk%elem_of_map_to_list & He). eauto.
    - intros (k & s & Hk & He). exists (k, s). by rewrite elem_of_map_to_list. }
  assert (Hcases : forall k s e, mem_entry l (k, s) = Some e ->
    (exists n, k = l ++ [n] /\ e = {| le_name := n; le_type := LsFile; le_size := sr_size s; le_modifiedAt := sr_modifiedAt s |}) \/
    (exists n x r, k = l ++ n :: x :: r /\ e = {| le_name := n; le_type := LsDirectory; le_size := 0; le_modifiedAt := None |})).
  { intros k s e. unfold mem_entry. cbn [fst snd]. destruct (below l k) as [[|n [|x r]]|] eqn:Eb; intros [= <-];
      apply below_some in Eb as ->; eauto 6. }
  split.
  - intros e (k & s & Hk%mem_tree_clean & He)%Hin. destruct (Hcases k s e He) as [(n & -> & ->)|(n & x & r & -> & ->)];
      by apply Forall_app in Hk as [_ [? _]%Forall_cons].
  - intros e (k & s & Hk & He)%Hin Ht. destruct (Hcases k s e He) as [(n & -> & ->)|(n & x & r & -> & ->)]; [by exists s|done].
  - intros e (k & s & Hk & He)%Hin Ht. destruct (Hcases k s e He) as [(n & -> & ->)|(n & x & r & -> & ->)]; [done|].
    exists x, r. rewrite <- app_assoc. cbn. by rewrite Hk.
  - intros n s Hn. eexists. split; [apply Hin; exists (l ++ [n]), s; split; [done|]; unfold mem_entry; cbn; rewrite below_app; done|done].
  - intros n (x & r & Hk). rewrite <- app_assoc in Hk. cbn in Hk. destruct (mem_tree d !! (l ++ n :: x :: r)) as [s|] eqn:Es; [|done].
    eexists. split; [apply Hin; exists (l ++ n :: x :: r), s; split; [done|]; unfold mem_entry; cbn; rewrite below_app; done|done].
Qed.

Lemma mem_write_only l body d : only_at l (mem_tree d) (mem_tree (mem_write l body d)).
Proof. intros q Hq. rewrite !mem_tree_lookup. cbn. by rewrite lookup_insert_ne. Qed.

Lemma mem_delete_only l d : only_at l (mem_tree d) (mem_tree (mem_delete l d)).
Proof. intros q Hq. rewrite !mem_tree_lookup. cbn. by rewrite lookup_delete_ne. Qed.

(** [find_file] of a clean path. *)
Lemma find_file_render l d : Forall clean l ->
  find_file (render l) d = (match d.(md_files) !! l with Some f => Ok f | None => Throw not_found_error end, d).
Proof. intros Hl. unfold find_file, reads. by rewrite segments_render. Qed.

#[local] Arguments find_file : simpl never.
#[local] Arguments render : simpl never.
#[local] Arguments segments : simpl never.

#[export] Instance mem_laws : RemoteLaws MemDrive.
Proof.
  refine {| tree := mem_tree |}.
  - apply mem_tree_clean.
  - intros d l Hl. cbn. unfold mbind, M_bind. rewrite find_file_render by done.
    destruct (md_files d !! l) as [f|] eqn:E; cbn; (split; [done|]); try (split; [done|]); rewrite mem_tree_lookup, E; by case_decide.
  - intros d l Hl. cbn. rewrite segments_render by done. split; [done|]. by apply mem_listing.
  - intros d p. cbn. unfold mbind, M_bind, find_file, reads. by destruct (md_files d !! segments p).
  - intros d l body message Hl. cbn. rewrite segments_render by done. apply mem_write_only.
  - intros d l Hl. cbn. unfold mbind, M_bind. rewrite find_file_render, segments_render by done.
    destruct (md_files d !! l) as [f|] eqn:E; cbn; [|by split]. split; [apply mem_delete_only|]. rewrite mem_tree_lookup. cbn.
    rewrite lookup_delete_eq. by case_decide.
  - intros d l m Hl Hm. cbn. unfold mbind, M_bind. rewrite find_file_render, segments_render by done.
    destruct (md_files d !! l) as [f|] eqn:E; cbn; [apply mem_write_only|by intros q].
  - intros d l m message Hl Hm q Hql Hqm. cbn. unfold mbind, M_bind. rewrite find_file_render, !segments_render by done.
    destruct (md_files d !! l) as [f|] eqn:E; cbn; [|done]. rewrite mem_write_only by done. by apply mem_delete_only.
Defined.

(** ** An example: one client of an empty drive *)

Definition quiet (operation path : string) : option string := None.
Definition no_stat (request : nat) : outcome js_error (option AgentFsStatResult) := Throw (JsError "no such request").
Definition no_ls (request : nat) : outcome js_error (list AgentFsLsEntry) := Throw (JsError "no such request").

Definition empty_drive : MemDrive := {| md_files := ∅; md_now := 0 |}.
Definition example_calls : list fs_call :=
  [CWriteFile "/a/x" (TextContent "hi") None; CStat "/a/x"; CReaddir "/"; CMkdir "/a/d" false; CReaddir "/a";
   CWriteFile "/a/d/y" (TextContent "yo") None; CWriteFile "/b" (TextContent "b") None].
Definition example_client (cacheTtlMs : ttl) : Client MemDrive :=
  run_calls no_stat no_ls string_le 9 example_calls
    {| c_fs := new_adapter None quiet (Some cacheTtlMs); c_remote := empty_drive |}.

