(* ===== verification/JbTree.v ===== *)
(** * Removing trees: JbAdapter's recursive operations

    [rm] of a folder collects the files under it and removes them one by one.
    The theorems: a removal that succeeds leaves nothing at or under its path, no
    removal, successful or not, touches anything else, and the recursive walks
    end on every drive.  The last part evaluates what [mv] of a folder onto
    itself does. *)

From S2P Require Import Prelude JsString Schema JsMap RequestCache JbPath JbBytes JbAdapter JbSpec JbServer.

#[local] Arguments render : simpl never.

Section Trees.
Context {R : Type} {RM : Remote R} {RL : RemoteLaws R}.
Context (other_stat : nat -> outcome js_error (option AgentFsStatResult))
        (other_ls : nat -> outcome js_error (list AgentFsLsEntry)).
Implicit Types (c : Client R) (t : Tree) (l : list string).

(** ** What [collectFilePaths] answers: the files under the folder *)

Definition collect_entry (fuel : nat) (l : list string) (entry : AgentFsLsEntry) : JbM R (list string) :=
  let child := joinPath (render l) entry.(le_name) in
  if decide (entry.(le_type) = LsDirectory) then collectFilePaths other_ls fuel child else mret [child].

(** A file strictly under [l], by its path. *)
Definition file_under t l (p : string) : Prop := exists x k, p = render (l ++ x :: k) /\ t !! (l ++ x :: k) <> None.

(** The files that an entry of the listing stands for. *)
Definition entry_file t l (e : AgentFsLsEntry) (p : string) : Prop :=
  if decide (e.(le_type) = LsDirectory) then file_under t (l ++ [e.(le_name)]) p else p = render (l ++ [e.(le_name)]).

Lemma listing_entry_files t l es p : listing t l es -> file_under t l p <-> exists e, e ∈ es /\ entry_file t l e p.
Proof.
  intros [L1 L2 L3 L4 L5]. unfold entry_file, file_under. split.
  - intros (x & [|y k] & -> & Hk).
    + destruct (t !! (l ++ [x])) as [s|] eqn:Es; [|done]. destruct (L4 _ _ Es) as (e & He & Ht & <-).
      exists e. split; [done|]. rewrite decide_False; [done|]. by rewrite Ht.
    + destruct (L5 x) as (e & He & Ht & <-); [exists y, k; by rewrite <- app_assoc|].
      exists e. split; [done|]. rewrite decide_True by done. exists y, k. by rewrite <- app_assoc.
  - intros (e & He & Hp). case_decide as Ht.
    + destruct Hp as (x & k & -> & Hk). exists (le_name e), (x :: k). by rewrite <- app_assoc in *.
    + destruct (le_type e) eqn:Et; [|done]. destruct (L2 e He Et) as (s & Hs & _). exists (le_name e), []. by rewrite Hs.
Qed.

Lemma collectFilePaths_value fuel t l c files c' : Forall clean l -> coherent_at t c ->
  collectFilePaths other_ls fuel (render l) c = (Ok files, c') -> forall p, p ∈ files <-> file_under t l p.
Proof.
  revert l c files c'. induction fuel as [|fuel IH]; intros l c files c' Hl Hc; cbn [collectFilePaths]; [done|].
  intros (es & c1 & H1 & H)%bind_ok p. destruct (listDirectory_value other_ls t c l true es c1 Hl Hc H1) as (all & Hall & ->).
  apply (observed _ t) in H1 as Hc1; [|apply observes_listDirectory; exists l; auto|done].
  apply bind_ok in H as (fs & c2 & H & [-> _]%ret_ok). rewrite (listing_entry_files t l all p Hall).
  assert (Hclean : forall e, e ∈ all -> clean (le_name e)) by apply Hall. clear Hall H1.
  revert c1 fs Hc1 H. induction all as [|e all IHall]; intros c1 fs Hc1 H; cbn [map_m] in H.
  - apply ret_ok in H as [-> _]. cbn. split; [by intros ?%elem_of_nil|]. by intros (e & ?%elem_of_nil & _).
  - apply bind_ok in H as (f & c3 & Hf & H). apply bind_ok in H as (fs' & c4 & H & [-> ->]%ret_ok).
    assert (Hle : Forall clean (l ++ [le_name e])).
    { apply Forall_app. split; [done|]. constructor; [apply Hclean; left|constructor]. }
    assert (He : coherent_at t c3 /\ (p ∈ f <-> entry_file t l e p)).
    { unfold entry_file. rewrite joinPath_render in Hf by (done || apply Hclean; left). case_decide as Ht.
      - split; [|by eapply IH]. eapply observed; [|exact Hc1|exact Hf]. apply observes_collectFilePaths. by exists (l ++ [le_name e]).
      - apply ret_ok in Hf as [-> ->]. by rewrite list_elem_of_singleton. }
    cbn. rewrite elem_of_app, (proj2 He), (IHall (fun e He => Hclean e ltac:(right; exact He)) c3 fs' (proj1 He) H).
    setoid_rewrite elem_of_cons. naive_solver.
Qed.

(** ** Removing a list of files *)

Definition remove_file (file : string) : JbM R unit := _ ← mutate (remote_rm file) [file]; update_fs (forgetFile file).

Lemma remove_file_effect l c : Forall clean l -> coherent c ->
  let '(o, c') := remove_file (render l) c in
  coherent c' /\ only_at l (tree c.(c_remote)) (tree c'.(c_remote)) /\
  (o = Ok tt -> tree c'.(c_remote) !! l = None) /\ o <> Throw OutOfFuel.
Proof.
  intros Hl Hc. assert (Hp : preserves coherent (remove_file (render l))).
  { unfold remove_file. apply preserves_bind; [apply coherent_rm; by exists l|]. intros _. eauto with preserve. }
  specialize (Hp c Hc). revert Hp. unfold remove_file, mutate, update_fs, modify, at_remote, on, mbind, M_bind.
  pose proof (rm_law (c_remote c) l Hl) as Hrm. destruct c as [f r]. cbn in Hrm |- *.
  destruct (remote_rm (render l) r) as [[u|e] r']; cbn in *; intros Hco; split_and!; try done; try tauto.
  intros [= ->]. tauto.
Qed.

Lemma remove_files_effect ls c : Forall (Forall clean) ls -> coherent c ->
  let '(o, c') := for_each (render <$> ls) remove_file c in
  coherent c' /\ (forall q, q ∉ ls -> tree c'.(c_remote) !! q = tree c.(c_remote) !! q) /\
  (o = Ok tt -> forall q, q ∈ ls -> tree c'.(c_remote) !! q = None) /\ o <> Throw OutOfFuel.
Proof.
  intros Hls. revert c. induction Hls as [|l ls Hl Hls IH]; intros c Hc; cbn [for_each fmap list_fmap].
  { split_and!; [done|done| |done]. intros _ q Hq. by apply elem_of_nil in Hq. }
  pose proof (remove_file_effect l c Hl Hc) as H1. unfold mbind at 1, M_bind at 1.
  destruct (remove_file (render l) c) as [[u|e] c1]; destruct H1 as (H1 & H2 & H3 & H4).
  - specialize (IH c1 H1). destruct (for_each (render <$> ls) remove_file c1) as [o c2]. destruct IH as (I1 & I2 & I3 & I4).
    split_and!; [done| | |done].
    + intros q Hq. rewrite not_elem_of_cons in Hq. rewrite I2 by tauto. apply H2. tauto.
    + intros Ho q. destruct (decide (q ∈ ls)) as [Hin|Hin]; [intros _; by apply I3|].
      intros [->|?]%elem_of_cons; [|done]. rewrite I2 by done. destruct u. by apply H3.
  - split_and!; [done| |done|done]. intros q Hq. rewrite not_elem_of_cons in Hq. apply H2. tauto.
Qed.

(** ** Calls that end: they read, and never run out of fuel *)

Definition ends {A} t (m : JbM R A) : Prop :=
  forall c, coherent_at t c -> coherent_at t (m c).2 /\ (m c).1 <> Throw OutOfFuel.

Lemma ends_intro {A} t (m : JbM R A) :
  preserves (coherent_at t) m -> (forall c, coherent_at t c -> (m c).1 <> Throw OutOfFuel) -> ends t m.
Proof. intros H1 H2 c Hc. split; [by apply H1|by apply H2]. Qed.

Lemma ends_bind {A B} t (m : JbM R A) (f : A -> JbM R B) :
  ends t m -> (forall a c c', coherent_at t c -> m c = (Ok a, c') -> ends t (f a)) -> ends t (m ≫= f).
Proof.
  intros Hm Hf c Hc. specialize (Hm c Hc). unfold mbind, M_bind.
  destruct (m c) as [[a|e] c1] eqn:E; cbn in *; [exact (Hf a c c1 Hc E c1 (proj1 Hm))|]. split; [apply Hm|]. intros [= ->]. by apply (proj2 Hm).
Qed.

Lemma ends_ret {A} t (a : A) : ends t (mret a : JbM R A). Proof. by intros c. Qed.
Lemma ends_gets {A} t (f : Client R -> A) : ends t (gets f : JbM R A). Proof. by intros c. Qed.
Lemma ends_throw {A} t e : e <> OutOfFuel -> ends t (throw e : JbM R A).
Proof. intros He c Hc. split; [done|]. by intros [= ->]. Qed.
Lemma ends_throw_if t b e : e <> OutOfFuel -> ends t (throw_if b e : JbM R unit).
Proof. intros He. destruct b; [by apply ends_throw|apply ends_ret]. Qed.
Lemma ends_update t f : (forall g, same_caches (f g) g) -> ends t (update_fs (R:=R) f).
Proof. intros Hf. apply ends_intro; [by apply observes_update_fs|done]. Qed.

Lemma ends_for_each {A} t (es : list A) (f : A -> JbM R unit) : (forall e, e ∈ es -> ends t (f e)) -> ends t (for_each es f).
Proof.
  induction es as [|e es IH]; intros Hf; [apply ends_ret|]. apply ends_bind; [apply Hf; left|]. intros _ _ _ _ _.
  apply IH. intros e' He. apply Hf. by right.
Qed.

Lemma ends_map_m {A B} t (es : list A) (f : A -> JbM R B) : (forall e, e ∈ es -> ends t (f e)) -> ends t (map_m es f).
Proof.
  induction es as [|e es IH]; intros Hf; [apply ends_ret|]. apply ends_bind; [apply Hf; left|]. intros b _ _ _ _.
  apply ends_bind; [apply IH; intros e' He; apply Hf; by right|]. intros. apply ends_ret.
Qed.

(** A cached request fails only as the server's does. *)
Lemma cached_ends {T} (get : AgentFs -> RequestCache T) put others path load c : rc_inFlight (get c.(c_fs)) = [] ->
  (load c.(c_remote)).1 <> Throw OutOfFuel -> (cached get put others path load c).1 <> Throw OutOfFuel.
Proof.
  intros Hf Hl. unfold cached, rc_get. destruct (rc_answer _ _ _); [done|]. rewrite Hf. unfold at_remote, on.
  destruct c as [f r]. cbn in *. destruct (caches _); cbn; by destruct (load r).
Qed.

Lemma ends_statFile t l : Forall clean l -> ends t (statFile other_stat (render l)).
Proof.
  intros Hl. apply ends_intro; [apply observes_statFile; by exists l|]. intros c Hc. unfold statFile, gets, mbind, M_bind.
  assert (Hask : (cached statCache (fun s f => f <| statCache := s |>) other_stat (render l) (load_stat (render l)) c).1 <> Throw OutOfFuel).
  { apply cached_ends; [apply Hc|]. pose proof (stat_law (c_remote c) l Hl) as H. unfold load_stat, try_catch, mbind, M_bind.
    destruct (remote_stat (render l) (c_remote c)) as [[s|e] r']; cbn; [done|]. destruct (isNotFound e || isPathNotFound e); [done|].
    intros [= ->]. by destruct H as [_ [H _]]. }
  destruct (listedChild _ _ _) as [[[e|] d]|]; cbn; [|done|done]. by destruct (le_modifiedAt e).
Qed.

Lemma ends_lsEntries t l : Forall clean l -> ends t (lsEntries other_ls (render l)).
Proof.
  intros Hl. apply ends_intro; [apply observes_lsEntries; by exists l|]. intros c Hc. unfold lsEntries, gets, mbind, M_bind.
  assert (Hask : (cached lsCache (fun s f => f <| lsCache := s |>) other_ls (render l) (remote_ls (render l)) c).1 <> Throw OutOfFuel).
  { apply cached_ends; [apply Hc|]. pose proof (ls_law (c_remote c) l Hl) as H.
    destruct (remote_ls (render l) (c_remote c)) as [[s|e] r']; cbn; [done|]. intros [= ->]. by destruct H. }
  destruct (listedChild _ _ _) as [li|]; [|done]. by destruct (li_directory li).
Qed.

Lemma ends_fileExists t l : Forall clean l -> ends t (fileExists other_stat (render l)).
Proof.
  intros Hl. apply ends_bind; [by apply ends_statFile|]. intros [s|] _ _ _ _; [|apply ends_ret].
  apply ends_bind; [apply ends_update, same_rememberFile|]. intros. apply ends_ret.
Qed.

Lemma ends_listDirectory t l b : Forall clean l -> ends t (listDirectory other_ls (render l) b).
Proof.
  intros Hl. apply ends_bind; [by apply ends_lsEntries|]. intros es _ _ _ _. apply ends_bind; [apply ends_gets|]. intros mk _ _ _ _.
  apply ends_bind; [apply ends_update, same_remember_entries|]. intros. apply ends_ret.
Qed.

Lemma ends_directoryExists t l : Forall clean l -> ends t (directoryExists other_ls (render l)).
Proof.
  intros Hl. unfold directoryExists. case_bool_decide; [apply ends_ret|]. apply ends_bind; [by apply ends_listDirectory|].
  intros [|e es] _ _ _ _; [apply ends_gets|]. apply ends_bind; [apply ends_update, same_rememberDirectory|]. intros. apply ends_ret.
Qed.

(** The folders under [l] are less deep than the fuel. *)
Definition shallow (fuel : nat) t l : Prop := (0 < fuel)%nat /\ forall x k, t !! (l ++ x :: k) <> None -> (length k < fuel)%nat.

Lemma shallow_child fuel t l n : shallow (S fuel) t l -> folder t (l ++ [n]) -> shallow fuel t (l ++ [n]).
Proof.
  intros [_ H] (x & k & Hk). assert (Hd : forall y m, t !! ((l ++ [n]) ++ y :: m) <> None -> (length m < fuel)%nat).
  { intros y m Hm. rewrite <- app_assoc in Hm. apply H in Hm. cbn in Hm. lia. }
  split; [|done]. specialize (Hd x k Hk). lia.
Qed.

Lemma ends_collectFilePaths fuel t l : Forall clean l -> shallow fuel t l -> ends t (collectFilePaths other_ls fuel (render l)).
Proof.
  revert l. induction fuel as [|fuel IH]; intros l Hl Hs; [by destruct Hs; lia|]. cbn [collectFilePaths].
  apply ends_bind; [by apply ends_listDirectory|]. intros es c c' Hc H1.
  destruct (listDirectory_value other_ls t c l true es c' Hl Hc H1) as (all & [L1 L2 L3 _ _] & ->).
  apply ends_bind; [|intros; apply ends_ret]. apply ends_map_m. intros e He. specialize (L1 e He). rewrite joinPath_render by done.
  case_decide as Ht; [|apply ends_ret]. apply IH; [apply Forall_app; auto|]. by apply shallow_child, L3.
Qed.

Lemma ends_refreshDirectory fuel t l : Forall clean l -> shallow fuel t l -> ends t (refreshDirectory other_ls fuel (render l)).
Proof.
  revert l. induction fuel as [|fuel IH]; intros l Hl Hs; [by destruct Hs; lia|]. cbn [refreshDirectory].
  apply ends_bind; [by apply ends_directoryExists|]. intros d c0 c0' _ _. destruct d; [|apply ends_ret].
  apply ends_bind; [by apply ends_listDirectory|]. intros es c c' Hc H1.
  destruct (listDirectory_value other_ls t c l false es c' Hl Hc H1) as (all & [L1 L2 L3 _ _] & ->).
  apply ends_for_each. intros e [_ He]%list_elem_of_filter. specialize (L1 e He). unfold when.
  case_bool_decide as Ht; [|apply ends_ret]. rewrite joinPath_render by done. apply IH; [apply Forall_app; auto|].
  by apply shallow_child, L3.
Qed.

(** ** The effect of [rm] *)

(** From the tree [t]: nothing outside [l] changes, the fuel is enough, and after
    success there is no file at [l], nor under it when [l] was no file. *)
Definition removed t l (oc : outcome js_error unit * Client R) : Prop :=
  let t' := tree oc.2.(c_remote) in
  (forall q, q <> l -> (forall x k, q <> l ++ x :: k) -> t' !! q = t !! q) /\
  oc.1 <> Throw OutOfFuel /\
  (oc.1 = Ok tt -> t' !! l = None /\ (t !! l = None -> forall x k, t' !! (l ++ x :: k) = None)).

Lemma removed_throw t l e c : coherent_at t c -> e <> OutOfFuel -> removed t l (Throw e, c).
Proof. intros [Ht _] He. unfold removed. cbn. rewrite Ht. split_and!; [done|congruence|done]. Qed.

(** A step that reads, then the rest. *)
Lemma read_then {A B} t (P : outcome js_error B * Client R -> Prop) (m : JbM R A) (f : A -> JbM R B) c :
  coherent_at t c -> ends t m -> (forall e c1, coherent_at t c1 -> e <> OutOfFuel -> P (Throw e, c1)) ->
  (forall a c1, coherent_at t c1 -> m c = (Ok a, c1) -> P (f a c1)) -> P ((m ≫= f) c).
Proof.
  intros Hc Hm Ht Hf. specialize (Hm c Hc). unfold mbind, M_bind. destruct (m c) as [[a|e] c1]; cbn in Hm; [apply Hf; [apply Hm|done]|].
  apply Ht; [apply Hm|]. intros ->. by apply (proj2 Hm).
Qed.

Lemma fileExists_value t c l b c' : Forall clean l -> coherent_at t c -> fileExists other_stat (render l) c = (Ok b, c') ->
  b = true <-> t !! l <> None.
Proof.
  intros Hl Hc. unfold fileExists. intros (v & c1 & H1 & H)%bind_ok.
  pose proof (statFile_spec other_stat t c l Hl Hc) as [_ Hv]. rewrite H1 in Hv. specialize (Hv v eq_refl).
  destruct v as [a|]; destruct (t !! l); try done.
  - by apply bind_ok in H as (u & c2 & _ & [-> _]%ret_ok).
  - by apply ret_ok in H as [-> _].
Qed.

(** The removals of a folder's files. *)
Lemma removed_files t l files c :
  Forall clean l -> coherent_at t c -> t !! l = None -> (forall p, p ∈ files <-> file_under t l p) ->
  removed t l ((_ ← for_each files remove_file; _ ← update_fs (forgetDirectory (render l)); update_fs (invalidateTree (render l))) c).
Proof.
  intros Hl Hc Ht Hfiles. pose proof tree_clean as Hclean. pose proof Hc as [Htree _].
  assert (exists ls, files = render <$> ls /\ Forall (Forall clean) ls /\ forall k, k ∈ ls -> exists x r, k = l ++ x :: r) as (ls & -> & Hls & Hunder).
  { assert (Hall : forall p, p ∈ files -> exists x r, p = render (l ++ x :: r) /\ Forall clean (l ++ x :: r)).
    { intros p (x & r & -> & Hr)%Hfiles. exists x, r. split; [done|]. destruct (t !! (l ++ x :: r)) as [s|] eqn:Es; [|done].
      rewrite <- Htree in Es. by eapply Hclean. }
    clear Hfiles. induction files as [|p files IH]; [exists []; split_and!; [done|constructor|by intros k ?%elem_of_nil]|].
    destruct IH as (ls & -> & H1 & H2); [intros q Hq; apply Hall; by right|]. destruct (Hall p) as (x & r & -> & Hr); [left|].
    exists ((l ++ x :: r) :: ls). split_and!; [done|by constructor|]. intros k [->|Hk]%elem_of_cons; eauto. }
  pose proof (remove_files_effect ls c Hls (coherent_of_at t c Hc)) as H. unfold mbind at 1, M_bind at 1.
  destruct (for_each (render <$> ls) remove_file c) as [[u|e] c1]; destruct H as (H1 & H2 & H3 & H4); unfold removed; cbn.
  - split_and!; [| done |].
    + intros q Hq Hqu. rewrite <- Htree. apply H2. intros (x & r & ->)%Hunder. by apply (Hqu x r).
    + intros _. assert (Hkeep : forall q, q ∉ ls -> tree (c_remote c1) !! q = t !! q) by (intros q Hq; rewrite <- Htree; by apply H2).
      split.
      * rewrite Hkeep; [done|]. intros (x & r & E)%Hunder. apply (f_equal length) in E. rewrite length_app in E. cbn in E. lia.
      * intros _ x k. destruct (decide (l ++ x :: k ∈ ls)) as [Hin|Hin]; [by destruct u; apply H3|].
        rewrite Hkeep by done. destruct (t !! (l ++ x :: k)) as [s|] eqn:Es; [|done]. exfalso. apply Hin.
        assert (Hf : render (l ++ x :: k) ∈ render <$> ls) by (apply Hfiles; exists x, k; by rewrite Es).
        apply list_elem_of_fmap in Hf as (m & E & Hm). rewrite Forall_forall in Hls. apply render_clean_inj in E as ->; [done| |by apply Hls].
        rewrite <- Htree in Es. by eapply Hclean.
  - split_and!; [|done|done]. intros q Hq Hqu. rewrite <- Htree. apply H2. intros (x & r & ->)%Hunder. by apply (Hqu x r).
Qed.

(** Removing a path never changes a file elsewhere on the drive, whether it
    succeeds or fails at any point; when it succeeds nothing is left at the path,
    nor under it when it was a folder; and on a drive less deep than the fuel the
    walk ends by itself. *)
Theorem rm_removes_the_tree fuel path recursive force c :
  coherent c ->
  let t := tree c.(c_remote) in
  let l := segments path in
  shallow fuel t l ->
  let '(o, c') := rm other_stat other_ls fuel path recursive force c in
  let t' := tree c'.(c_remote) in
  coherent c' /\
  (forall q, q <> l -> (forall x k, q <> l ++ x :: k) -> t' !! q = t !! q) /\
  o <> Throw OutOfFuel /\
  (o = Ok tt -> t' !! l = None /\ (t !! l = None -> forall x k, t' !! (l ++ x :: k) = None)).
Proof.
  intros Hc t l Hs. assert (Hl : Forall clean l) by apply segments_clean.
  assert (Hco : coherent (rm other_stat other_ls fuel path recursive force c).2) by (by apply coherent_rm_tree).
  cut (removed t l (rm other_stat other_ls fuel path recursive force c)).
  { destruct (rm _ _ _ _ _ _ c) as [o c']. by split. }
  clear Hco. pose proof (removed_throw t l) as Hthrow. unfold rm. rewrite normalizePath_render. fold l.
  eapply read_then; [exact Hc|by apply ends_throw_if|auto|]. intros _ c1 Hc1 _.
  eapply read_then; [exact Hc1|by apply ends_throw_if|auto|]. intros _ c2 Hc2 _.
  eapply read_then; [exact Hc2|by apply ends_fileExists|auto|]. intros file c3 Hc3 Hfile.
  destruct file.
  { pose proof (remove_file_effect l c3 Hl (coherent_of_at t c3 Hc3)) as H. pose proof Hc3 as [Ht3 _].
    change (removed t l (remove_file (render l) c3)). destruct (remove_file (render l) c3) as [o c4]. destruct H as (H1 & H2 & H3 & H4). unfold removed. cbn. split_and!; [|done|].
    - intros q Hq _. by rewrite (H2 q Hq), Ht3.
    - intros Ho. split; [by apply H3|]. intros Hn. by apply (fileExists_value t c2 l true c3) in Hn. }
  assert (Hnone : t !! l = None).
  { destruct (t !! l) as [s|] eqn:Es; [|done]. apply (fileExists_value t c2 l false c3 Hl Hc2) in Hfile. by destruct Hfile as [_ Hf]; discriminate Hf; rewrite Es. }
  eapply read_then; [exact Hc3|by apply ends_listDirectory|auto|]. intros es c4 Hc4 Hes.
  destruct (listDirectory_value other_ls t c3 l true es c4 Hl Hc3 Hes) as (all & Hall & ->).
  eapply read_then; [exact Hc4|by apply ends_gets|auto|]. intros known c5 Hc5 _.
  destruct (negb (Nat.ltb 0 (length all) || known)) eqn:Eno.
  { destruct force; [|by apply Hthrow]. destruct all as [|e all]; [|done]. pose proof Hc5 as [Ht5 _].
    unfold removed. cbn. rewrite Ht5. split_and!; [done|done|]. intros _. split; [done|]. intros _ x k.
    destruct (t !! (l ++ x :: k)) as [s|] eqn:Es; [|done]. exfalso. apply (listing_nil t l [] Hall); [|done]. exists x, k. by rewrite Es. }
  eapply read_then; [exact Hc5|by apply ends_gets|auto|]. intros marker c6 Hc6 _.
  eapply read_then; [exact Hc6|by apply ends_throw_if|auto|]. intros _ c7 Hc7 _.
  eapply read_then; [exact Hc7|by apply ends_collectFilePaths|auto|]. intros files c8 Hc8 Hfiles.
  apply (removed_files t l files c8 Hl Hc8 Hnone). exact (collectFilePaths_value fuel t l c7 files c8 Hl Hc7 Hfiles).
Qed.
End Trees.

(** ** Instances on the drive in memory *)

Lemma shallow_by_depth fuel t l : (0 < fuel)%nat -> bool_decide (map_Forall (fun k _ => (length k <= fuel)%nat) t) = true -> shallow fuel t l.
Proof.
  intros Hf Ht. apply bool_decide_eq_true in Ht. split; [done|]. intros x k Hk. destruct (t !! (l ++ x :: k)) as [s|] eqn:Es; [|done].
  specialize (Ht _ s Es). cbn in Ht. rewrite length_app in Ht. cbn in Ht. lia.
Qed.

Lemma rm_removes_the_tree_witness :
  let c := example_client (Ms 5000) in
  let '(o, c') := rm no_stat no_ls 9 "/a/" true false c in
  o = Ok tt /\ mem_tree c'.(c_remote) !! ["a"; "d"; "y"] = None /\
  mem_tree c'.(c_remote) !! ["b"] = mem_tree c.(c_remote) !! ["b"].
Proof.
  intros c. assert (Hs : shallow 9 (mem_tree c.(c_remote)) ["a"]) by (apply shallow_by_depth; [lia|vm_compute; reflexivity]).
  assert (Hc : coherent c) by apply coherent_calls, coherent_new.
  assert (Ho : (rm no_stat no_ls 9 "/a/" true false c).1 = Ok tt) by (vm_compute; reflexivity).
  pose proof (rm_removes_the_tree no_stat no_ls 9 "/a/" true false c Hc Hs) as H.
  destruct (rm no_stat no_ls 9 "/a/" true false c) as [o c']. cbn in Ho. subst o. destruct H as (_ & Hq & _ & Hr).
  split; [reflexivity|]. split.
  - apply (Hr eq_refl). vm_compute. reflexivity.
  - apply Hq; [done|]. intros x k. cbn. intros E. discriminate E.
Defined.

(** [mv] copies a folder and then removes its source.  Onto itself that removes
    every file, and the call succeeds. *)
Lemma mv_onto_itself_deletes :
  let c := example_client (Ms 5000) in
  let '(o, c') := mv no_stat no_ls 9 "/a" "/a" c in
  o = Ok tt /\ mem_tree c.(c_remote) !! ["a"; "d"; "y"] <> None /\ mem_tree c'.(c_remote) !! ["a"; "d"; "y"] = None /\
  mem_tree c'.(c_remote) !! ["a"; "x"] = None.
Proof. vm_compute. done. Qed.
