(* ===== verification/RawRoute.v ===== *)
(** * Raw file URLs, from the clients to the server

    A file's bytes are read and written at
    [/orgs/:orgId/drives/:driveId/files/<path>/raw].  The just-bash adapter
    builds that URL with [encodeURIComponent] per segment (just-bash/src/index.ts,
    [rawUrl]), the command line and the FUSE mount with [encodeURI]
    (cli/src/api-client.ts), and the server cuts it again
    (server/src/routes/files.ts).  The theorem: the server serves the very path
    the adapter asked for, in the drive it asked for, and reads the version
    message it sent; [encodeURI] does the same for paths without [?] and [#]
    only, and a path with them reaches another file.

    A URL without dot segments keeps its path when it is parsed; [url_pathname]
    is what comes before the query and the fragment. *)

From S2P Require Import Prelude JsString Text Schema Paths Share JbPath.

(** ** Percent-encoding *)

Definition in_chars (allowed : string) (c : ascii) : bool := has_char c allowed.

Definition is_alnum (c : ascii) : bool :=
  let n := Ascii.nat_of_ascii c in
  (Nat.leb 65 n && Nat.leb n 90) || (Nat.leb 97 n && Nat.leb n 122) || (Nat.leb 48 n && Nat.leb n 57).

Definition uri_unreserved (c : ascii) : bool := is_alnum c || in_chars "-_.!~*'()" c.
Definition uri_reserved (c : ascii) : bool := in_chars ";/?:@&=+$,#" c.

Definition upper_hex (n : nat) : ascii := chr (if Nat.ltb n 10 then 48 + n else 55 + n).

Definition percent_encode (keep : ascii -> bool) (c : ascii) : string :=
  if keep c then String c ""
  else let n := Ascii.nat_of_ascii c in String "%" (String (upper_hex (n / 16)) (String (upper_hex (n mod 16)) "")).

Fixpoint encode_with (keep : ascii -> bool) (s : string) : string :=
  match s with
  | EmptyString => EmptyString
  | String c s' => percent_encode keep c +:+ encode_with keep s'
  end.

Definition encodeURIComponent : string -> string := encode_with uri_unreserved.
Definition encodeURI : string -> string := encode_with (fun c => uri_unreserved c || uri_reserved c).

(** ** The clients *)

(** [path.replace(/^\/+/, "")]. *)
Fixpoint drop_leading_slashes (s : string) : string :=
  match s with
  | String c s' => if is_slash c then drop_leading_slashes s' else s
  | EmptyString => EmptyString
  end.

Definition raw_path (orgId driveId encoded : string) : string :=
  "/orgs/" +:+ orgId +:+ "/drives/" +:+ driveId +:+ "/files/" +:+ encoded +:+ "/raw".

(** just-bash: [rawUrl], without the base URL. *)
Definition rawUrl (orgId driveId path : string) : string :=
  let encoded := join "/" (encodeURIComponent <$> split_on is_slash (drop_leading_slashes path)) in
  raw_path (encodeURIComponent orgId) (encodeURIComponent driveId) encoded.

(** cli: the URL of [putRaw] and [getRaw], without the base URL. *)
Definition cli_rawUrl (orgId driveId path : string) : string :=
  raw_path orgId driveId (encodeURI (drop_leading_slashes path)).

(** The headers of a write's message. *)
Definition message_headers (message : option string) : list (string * string) :=
  match message with
  | Some m => if bool_decide (m = "") then []
              else [("X-Agent-FS-Message", encodeURIComponent m); ("X-Agent-FS-Message-Encoding", "percent")]
  | None => []
  end.

(** ** The server *)

(** The path of a URL: what precedes its query and its fragment. *)
Fixpoint url_pathname (url : string) : string :=
  match url with
  | EmptyString => EmptyString
  | String c s => if in_chars "?#" c then EmptyString else String c (url_pathname s)
  end.

(** [pathname.match(/\/files\/(.+)\/raw$/)]: the leftmost match, its group. *)
Fixpoint files_match (s : string) : option string :=
  let here :=
    if starts_with "/files/" s then
      let rest := drop_str 7 s in
      if ends_with "/raw" rest && Nat.ltb 4 (String.length rest) then Some (take_str (String.length rest - 4) rest) else None
    else None in
  match here with
  | Some m => Some m
  | None => match s with EmptyString => None | String _ s' => files_match s' end
  end.

(** What a request for [url] names: the parameters of the route
    [/orgs/:orgId/drives/:driveId/files/*] and the file; no route; a path the
    expression does not match; or a path that does not decode. *)
Inductive RawTarget : Type :=
| RawFile (orgId driveId filePath : string)
| NoRoute
| InvalidFilePath
| UriError.

Definition raw_target (url : string) : RawTarget :=
  let pathname := url_pathname url in
  match split_on is_slash pathname with
  | "" :: "orgs" :: orgId :: "drives" :: driveId :: "files" :: _ =>
      match files_match pathname with
      | None => InvalidFilePath
      | Some encoded =>
          match decodeURIComponent encoded with
          | None => UriError
          | Some decoded => RawFile orgId driveId (Paths.normalizePath decoded)
          end
      end
  | _ => NoRoute
  end.

Definition header (name : string) (headers : list (string * string)) : option string :=
  snd <$> get_row (fun h => h.1 = name) headers.

(** The version message of a PUT. *)
Definition read_message (headers : list (string * string)) : option string :=
  match header "X-Agent-FS-Message" headers with
  | None => None
  | Some rawMessage =>
      if bool_decide (header "X-Agent-FS-Message-Encoding" headers = Some "percent") then
        match decodeURIComponent rawMessage with Some m => Some m | None => Some rawMessage end
      else Some rawMessage
  end.

(** ** Lemmas *)

(** Text that JavaScript can hold: well-formed UTF-8. *)
Definition well_formed (s : string) : bool := negb (decode_from 0 128 191 "" s).2.

(** An identifier of the routes: unreserved characters, not the word that the
    expression looks for. *)
Definition route_id (s : string) : bool := all_chars uri_unreserved s && negb (bool_decide (s = "")) && negb (bool_decide (s = "files")).

Lemma percent_decode_char keep c t : keep "%"%char = false ->
  percent_decode (percent_encode keep c +:+ t) = String c <$> percent_decode t.
Proof.
  intros Hk. unfold percent_encode. destruct (keep c) eqn:E.
  - cbn. rewrite bool_decide_false; [done|]. congruence.
  - clear. by destruct c as [[] [] [] [] [] [] [] []].
Qed.

Lemma percent_decode_encode keep s t : keep "%"%char = false ->
  percent_decode (encode_with keep s +:+ t) = (fun u => s +:+ u) <$> percent_decode t.
Proof.
  intros Hk. induction s as [|c s IH]; cbn [encode_with]; [cbn; by destruct (percent_decode t)|].
  rewrite app_assoc_str, percent_decode_char, IH by done. by destruct (percent_decode t).
Qed.

Lemma encode_with_app keep a b : encode_with keep (a +:+ b) = encode_with keep a +:+ encode_with keep b.
Proof. induction a as [|c a IH]; cbn; [done|]. by rewrite IH, app_assoc_str. Qed.

Lemma encode_kept keep s : all_chars keep s = true -> encode_with keep s = s.
Proof.
  induction s as [|c s IH]; cbn; [done|]. intros [Hc Hs]%andb_true_iff. rewrite IH by done. unfold percent_encode. by rewrite Hc.
Qed.

Lemma decodeURIComponent_encode keep s : keep "%"%char = false -> well_formed s = true ->
  decodeURIComponent (encode_with keep s) = Some s.
Proof.
  intros Hk Hs. unfold decodeURIComponent. rewrite <- (app_nil_r_str (encode_with keep s)), percent_decode_encode by done.
  cbn. rewrite app_nil_r_str. unfold well_formed in Hs. by destruct (decode_from 0 128 191 "" s).2.
Qed.

(** The encoded segments decode, together, to the text they came from. *)
Lemma percent_decode_segments l : percent_decode (join "/" (encodeURIComponent <$> l)) = Some (join "/" l).
Proof.
  assert (Hu : uri_unreserved "%" = false) by done.
  induction l as [|x l IH]; [done|]. destruct l as [|y l].
  - cbn [fmap list_fmap join]. rewrite <- (app_nil_r_str (encodeURIComponent x)). unfold encodeURIComponent.
    rewrite percent_decode_encode by done. cbn. by rewrite app_nil_r_str.
  - change (join "/" (encodeURIComponent <$> x :: y :: l)) with (encodeURIComponent x +:+ "/" +:+ join "/" (encodeURIComponent <$> y :: l)).
    unfold encodeURIComponent at 1. rewrite percent_decode_encode by done.
    change ("/" +:+ join "/" (encodeURIComponent <$> y :: l)) with (String slash (join "/" (encodeURIComponent <$> y :: l))).
    cbn [percent_decode]. rewrite bool_decide_false by done. by rewrite IH.
Qed.

(** *** The expression of the route *)

Lemma split_lacks_slash x : has_char slash x = false -> split_on is_slash x = [x].
Proof. apply (split_on_no_sep slash). Qed.

Lemma files_match_skip c s : starts_with "/files/" (String c s) = false -> files_match (String c s) = files_match s.
Proof. intros H. cbn [files_match]. by rewrite H. Qed.

Lemma files_match_no_slash a s : has_char slash a = false -> files_match (a +:+ s) = files_match s.
Proof.
  induction a as [|c a IH]; cbn [has_char]; [done|]. intros [Hc Ha]%orb_false_iff. apply bool_decide_eq_false in Hc.
  change (String c a +:+ s) with (String c (a +:+ s)). rewrite files_match_skip; [by apply IH|].
  apply not_true_iff_false. intros [r Hr]%starts_with_spec. by injection Hr as -> _.
Qed.

Lemma files_match_segment x s : has_char slash x = false -> x <> "files" ->
  files_match (String slash (x +:+ String slash s)) = files_match (String slash s).
Proof.
  intros Hx Hne. rewrite files_match_skip; [by apply files_match_no_slash|]. apply not_true_iff_false.
  intros [r Hr]%starts_with_spec. apply Hne. assert (Hs := f_equal (split_on is_slash) Hr).
  change ("/files/" +:+ r) with ("" +:+ String slash ("files" +:+ String slash r)) in Hs.
  change (String slash (x +:+ String slash s)) with ("" +:+ String slash (x +:+ String slash s)) in Hs.
  rewrite !split_on_app_sep in Hs by done. rewrite (split_lacks_slash x) in Hs by done. by injection Hs.
Qed.

Lemma files_match_here m : m <> "" -> files_match ("/files/" +:+ m +:+ "/raw") = Some m.
Proof.
  intros Hm. assert (Hs : starts_with "/files/" ("/files/" +:+ m +:+ "/raw") = true) by apply starts_with_app.
  assert (Hd : drop_str 7 ("/files/" +:+ m +:+ "/raw") = m +:+ "/raw") by done.
  destruct ("/files/" +:+ m +:+ "/raw") as [|c s] eqn:E; [done|]. cbn [files_match]. rewrite Hs, Hd, ends_with_app, length_app_str.
  destruct m as [|d m]; [done|]. cbn [String.length].
  assert (Nat.ltb 4 (S (String.length m) + 4) = true) as -> by (apply Nat.ltb_lt; lia). cbn [andb].
  replace (S (String.length m) + 4 - 4)%nat with (String.length (String d m)) by (cbn; lia). f_equal. apply take_str_app.
Qed.

Lemma all_chars_no c p s : p c = false -> all_chars p s = true -> has_char c s = false.
Proof.
  intros Hp. induction s as [|d s IH]; cbn; [done|]. intros [Hd Hs]%andb_true_iff. rewrite (IH Hs), orb_false_r.
  apply bool_decide_eq_false. congruence.
Qed.

Lemma raw_path_match o d m : has_char slash o = false -> has_char slash d = false -> o <> "files" -> d <> "files" -> m <> "" ->
  files_match (raw_path o d m) = Some m.
Proof.
  intros Ho Hd Hof Hdf Hm. unfold raw_path.
  change (files_match ("/orgs/" +:+ o +:+ "/drives/" +:+ d +:+ "/files/" +:+ m +:+ "/raw"))
    with (files_match (String slash ("orgs" +:+ String slash (o +:+ String slash ("drives" +:+ String slash (d +:+ "/files/" +:+ m +:+ "/raw")))))).
  rewrite files_match_segment by done. rewrite files_match_segment by done. rewrite files_match_segment by done.
  change ("/files/" +:+ m +:+ "/raw") with (String slash ("files/" +:+ m +:+ "/raw")).
  rewrite files_match_segment by done. by apply files_match_here.
Qed.

Lemma split_raw_path o d m : has_char slash o = false -> has_char slash d = false ->
  exists rest, split_on is_slash (raw_path o d m) = "" :: "orgs" :: o :: "drives" :: d :: "files" :: rest.
Proof.
  intros Ho Hd. unfold raw_path. exists (split_on is_slash (m +:+ "/raw")).
  change ("/orgs/" +:+ o +:+ "/drives/" +:+ d +:+ "/files/" +:+ m +:+ "/raw")
    with ("" +:+ String slash ("orgs" +:+ String slash (o +:+ String slash ("drives" +:+ String slash (d +:+ String slash ("files" +:+ String slash (m +:+ "/raw"))))))).
  rewrite !split_on_app_sep by done. by rewrite (split_lacks_slash o), (split_lacks_slash d) by done.
Qed.

Lemma url_pathname_id s : all_chars (fun c => negb (in_chars "?#" c)) s = true -> url_pathname s = s.
Proof. induction s as [|c s IH]; cbn [all_chars url_pathname]; [done|]. intros [Hc Hs]%andb_true_iff. destruct (in_chars "?#" c); [done|]. by rewrite IH. Qed.

Lemma unreserved_no_query c : uri_unreserved c = true -> negb (in_chars "?#" c) = true.
Proof.
  assert (H : implb (uri_unreserved c) (negb (in_chars "?#" c)) = true) by (by destruct c as [[] [] [] [] [] [] [] []]).
  intros Hc. by rewrite Hc in H.
Qed.

(** A target built from encoded text without [?] and [#]. *)
Lemma raw_target_of o d encoded decoded :
  route_id o = true -> route_id d = true -> encoded <> "" ->
  all_chars (fun c => negb (in_chars "?#" c)) encoded = true -> decodeURIComponent encoded = Some decoded ->
  raw_target (raw_path o d encoded) = RawFile o d (Paths.normalizePath decoded).
Proof.
  intros Ho Hd Hne Henc Hdec.
  assert (Hid : forall x, route_id x = true -> has_char slash x = false /\ x <> "files" /\ all_chars (fun c => negb (in_chars "?#" c)) x = true).
  { intros x Hx. unfold route_id in Hx. apply andb_true_iff in Hx as [[Hx _]%andb_true_iff Hf%negb_true_iff].
    apply bool_decide_eq_false in Hf. split_and!; [by apply (all_chars_no slash uri_unreserved)|done|]. clear Hf. induction x as [|c x IH]; [done|].
    cbn [all_chars] in *. apply andb_true_iff in Hx as [Hc Hx]. rewrite IH by done. rewrite andb_true_r. clear -Hc.
    by apply unreserved_no_query. }
  destruct (Hid o Ho) as (Ho1 & Ho2 & Ho3), (Hid d Hd) as (Hd1 & Hd2 & Hd3). unfold raw_target.
  rewrite url_pathname_id.
  - destruct (split_raw_path o d encoded Ho1 Hd1) as [rest ->]. rewrite raw_path_match by done. by rewrite Hdec.
  - unfold raw_path. rewrite !all_chars_app, Ho3, Hd3, Henc. reflexivity.
Qed.

Lemma encode_nonempty keep s : s <> "" -> encode_with keep s <> "".
Proof. destruct s as [|c s]; [done|]. intros _. cbn. unfold percent_encode. by destruct (keep c). Qed.

(** Percent-encoded text has the kept characters, hex and the percent sign. *)
Lemma encode_chars keep (q : ascii -> bool) s : all_chars (fun c => negb (keep c) || q c) s = true ->
  q "%"%char = true -> (forall n, (n < 16)%nat -> q (upper_hex n) = true) -> all_chars q (encode_with keep s) = true.
Proof.
  intros Hk Hp Hh. induction s as [|c s IH]; [done|]. cbn [encode_with]. cbn [all_chars] in Hk. apply andb_true_iff in Hk as [Hc Hs].
  rewrite all_chars_app, IH, andb_true_r by done.
  unfold percent_encode. destruct (keep c) eqn:E; cbn [all_chars]; [cbn in Hc; by rewrite Hc|]. pose proof (Ascii.nat_ascii_bounded c).
  rewrite Hp, !Hh; [done|apply Nat.mod_upper_bound; lia|apply Nat.Div0.div_lt_upper_bound; lia].
Qed.

Lemma upper_hex_all (q : ascii -> bool) : forallb (fun n => q (upper_hex n)) (seq 0 16) = true -> forall n, (n < 16)%nat -> q (upper_hex n) = true.
Proof. rewrite forallb_forall. intros H n Hn. apply H, in_seq. lia. Qed.

Lemma all_chars_join p l : p slash = true -> Forall (fun x => all_chars p x = true) l -> all_chars p (join "/" l) = true.
Proof.
  intros Hs. induction 1 as [|x l Hx Hl IH]; [done|]. destruct l as [|y l]; [done|].
  change (join "/" (x :: y :: l)) with (x +:+ "/" +:+ join "/" (y :: l)). rewrite !all_chars_app, Hx, IH. change (all_chars p "/") with (p slash && true). by rewrite Hs.
Qed.

Lemma join_start l : Forall clean l -> l <> [] -> exists c s, join "/" l = String c s /\ c <> slash.
Proof.
  intros Hl Hne. destruct l as [|x l]; [done|]. apply Forall_cons in Hl as [(Hx & _ & _ & Hs) _].
  destruct x as [|c x]; [done|]. cbn [has_char] in Hs. apply orb_false_iff in Hs as [Hs _]. apply bool_decide_eq_false in Hs.
  exists c. destruct l; cbn; eauto.
Qed.

(** The text of a normalised path without its first slash. *)
Lemma drop_leading_render l : Forall clean l -> drop_leading_slashes (render l) = join "/" l.
Proof.
  intros H. change (drop_leading_slashes (render l)) with (drop_leading_slashes (join "/" l)).
  destruct (decide (l = [])) as [->|Hne]; [done|]. destruct (join_start l H Hne) as (c & s & -> & Hc). cbn [drop_leading_slashes].
  unfold is_slash. by rewrite bool_decide_false.
Qed.

Lemma has_char_rev c s : has_char c (string_rev s) = has_char c s.
Proof. induction s as [|d s IH]; cbn; [done|]. rewrite has_char_app, IH. cbn. by rewrite orb_false_r, orb_comm. Qed.

Lemma paths_normalize_join l : Forall clean l -> l <> [] -> Paths.normalizePath (join "/" l) = render l.
Proof.
  intros Hl Hne. destruct (exists_last Hne) as (m & x & ->). apply Forall_app in Hl as [Hm [Hx _]%Forall_cons].
  assert (Hstart : starts_with "/" (join "/" (m ++ [x])) = false).
  { destruct (join_start (m ++ [x])) as (c & s & -> & Hc); [apply Forall_app; auto|by destruct m|].
    apply not_true_iff_false. intros [r Hr]%starts_with_spec. by injection Hr as -> _. }
  unfold Paths.normalizePath. rewrite Hstart. assert (Hend : ends_with "/" ("/" +:+ join "/" (m ++ [x])) = false); [|by rewrite Hend, andb_false_r].
  apply not_true_iff_false. intros [r Hr]%ends_with_spec.
  assert (Hlast : exists a, "/" +:+ join "/" (m ++ [x]) = a +:+ String slash x).
  { change ("/" +:+ join "/" (m ++ [x])) with (render (m ++ [x])). destruct m as [|y m]; [by exists ""|]. rewrite render_snoc by done. by eexists. }
  destruct Hlast as [a Ha]. rewrite Hr in Ha. destruct Hx as (Hx & _ & _ & Hs).
  apply (f_equal string_rev) in Ha. rewrite !string_rev_app in Ha. cbn in Ha. destruct (string_rev x) as [|c s] eqn:Ex.
  - apply Hx. by rewrite <- (string_rev_rev x), Ex.
  - cbn in Ha. injection Ha as <- _. assert (Hc : has_char slash (string_rev x) = true) by (by rewrite Ex; cbn; rewrite bool_decide_true).
    rewrite <- (string_rev_rev x), has_char_rev in Hs. congruence.
Qed.

Lemma all_chars_of (p : ascii -> bool) s : (forall c, p c = true) -> all_chars p s = true.
Proof. intros Hp. induction s as [|c s IH]; cbn; [done|]. by rewrite Hp. Qed.

Lemma no_query_hex n : (n < 16)%nat -> negb (in_chars "?#" (upper_hex n)) = true.
Proof. revert n. by apply (upper_hex_all (fun c => negb (in_chars "?#" c))). Qed.

Lemma well_formed_render l : well_formed (render l) = well_formed (join "/" l).
Proof. done. Qed.

Lemma route_id_encode s : route_id s = true -> encodeURIComponent s = s.
Proof. unfold route_id. intros [[H _]%andb_true_iff _]%andb_true_iff. by apply encode_kept. Qed.

Lemma join_nonempty l : Forall clean l -> l <> [] -> join "/" l <> "".
Proof. intros Hl Hne. by destruct (join_start l Hl Hne) as (c & s & -> & _). Qed.

(** The target of a path whose encoding is free of [?] and [#]. *)
Lemma raw_target_render o d l encoded : route_id o = true -> route_id d = true -> Forall clean l -> l <> [] ->
  encoded <> "" -> all_chars (fun c => negb (in_chars "?#" c)) encoded = true ->
  decodeURIComponent encoded = Some (join "/" l) -> raw_target (raw_path o d encoded) = RawFile o d (render l).
Proof. intros Ho Hd Hl Hne He Hq Hdec. rewrite (raw_target_of o d encoded (join "/" l)) by done. by rewrite paths_normalize_join. Qed.

Lemma rawUrl_target o d l : route_id o = true -> route_id d = true -> Forall clean l -> l <> [] -> well_formed (render l) = true ->
  raw_target (rawUrl o d (render l)) = RawFile o d (render l).
Proof.
  intros Ho Hd Hl Hne Hw. unfold rawUrl. rewrite !route_id_encode, drop_leading_render, split_join by done. apply raw_target_render; try done.
  - intros He. pose proof (percent_decode_segments l) as Hp. rewrite He in Hp. injection Hp as Hp. by apply (join_nonempty l).
  - apply all_chars_join; [done|]. apply Forall_fmap, Forall_forall. intros x _. apply encode_chars; [|done|apply no_query_hex].
    apply all_chars_of. intros c. destruct (uri_unreserved c) eqn:E; [|done]. by apply unreserved_no_query.
  - unfold decodeURIComponent. rewrite percent_decode_segments. cbn. rewrite well_formed_render in Hw.
    unfold well_formed in Hw. by destruct (decode_from 0 128 191 "" (join "/" l)).2.
Qed.

Lemma cli_rawUrl_target o d l : route_id o = true -> route_id d = true -> Forall clean l -> l <> [] -> well_formed (render l) = true ->
  all_chars (fun c => negb (in_chars "?#" c)) (render l) = true -> raw_target (cli_rawUrl o d (render l)) = RawFile o d (render l).
Proof.
  intros Ho Hd Hl Hne Hw Hq. unfold cli_rawUrl. rewrite drop_leading_render by done. apply raw_target_render; try done.
  - by apply encode_nonempty, join_nonempty.
  - apply encode_chars; [|done|apply no_query_hex]. change (all_chars (fun c => negb (in_chars "?#" c)) (join "/" l) = true) in Hq.
    revert Hq. generalize (join "/" l). induction s as [|c s IH]; [done|]. cbn [all_chars]. intros [Hc Hs]%andb_true_iff.
    by rewrite Hc, orb_true_r, IH.
  - by apply decodeURIComponent_encode.
Qed.

(** The URL that the adapter builds for a path is, to the server, that path
    of that drive, whatever characters the path has, and the version message it
    sends is the one the server records; the command line's URL is so for paths
    without a question mark and a number sign. *)
Theorem raw_url_names_the_file orgId driveId path message :
  route_id orgId = true -> route_id driveId = true -> segments path <> [] -> well_formed (JbPath.normalizePath path) = true ->
  message <> "" -> well_formed message = true ->
  raw_target (rawUrl orgId driveId (JbPath.normalizePath path)) = RawFile orgId driveId (JbPath.normalizePath path) /\
  read_message (message_headers (Some message)) = Some message /\
  (all_chars (fun c => negb (in_chars "?#" c)) (JbPath.normalizePath path) = true ->
   raw_target (cli_rawUrl orgId driveId (JbPath.normalizePath path)) = RawFile orgId driveId (JbPath.normalizePath path)).
Proof.
  intros Ho Hd Hne Hw Hm Hmw. rewrite normalizePath_render in *. pose proof (segments_clean path) as Hl. split_and!.
  - by apply rawUrl_target.
  - unfold read_message, message_headers, header. rewrite bool_decide_false by done. cbn [get_row].
    unfold get_row. rewrite filter_cons_True by done. cbn [head fmap option_fmap option_map snd].
    rewrite filter_cons_False by done. rewrite filter_cons_True by done. cbn [head fmap option_fmap option_map snd].
    rewrite bool_decide_true by done. unfold encodeURIComponent. by rewrite decodeURIComponent_encode.
  - intros Hq. by apply cli_rawUrl_target.
Qed.

Lemma raw_url_names_the_file_witness :
  raw_target (rawUrl "org-1" "drive-1" (JbPath.normalizePath "/a b/raw?#%/files/x/raw")) =
    RawFile "org-1" "drive-1" (JbPath.normalizePath "/a b/raw?#%/files/x/raw").
Proof. apply (raw_url_names_the_file "org-1" "drive-1" "/a b/raw?#%/files/x/raw" "50% done"); vm_compute; done. Defined.

(** With [encodeURI] a path with a question mark reaches another file. *)
Lemma cli_url_other_file : raw_target (cli_rawUrl "o" "d" "/notes/raw?x") = RawFile "o" "d" "/notes".
Proof. by vm_compute. Qed.
