(* ===== verification/Gateway.v ===== *)
(** * The gates of the HTTP server: server/src/middleware/*.ts, server/src/app.ts

    Every request passes the authentication ([authMiddleware]) and a sliding
    window rate limiter ([rateLimitMiddleware], or [ipRateLimitMiddleware] on the
    public routes).  The theorems: who gets past the authentication, and that a
    key scoped to an org reaches that org's routes only; the limiter decides
    exactly as one that counts the admitted requests of the last minute, whatever
    its clean-ups, and [Retry-After] is when the next request is admitted. *)

From S2P Require Import Prelude JsString Errors Schema Paths ApiKeys JsMap JbPath RawRoute.
#[local] Open Scope Z_scope.

(** ** Authentication *)

Definition PUBLIC_PATHS : list string := ["/auth/register"; "/health"].

Definition scopedKeyAllows (path scopeOrgId method : string) : bool :=
  if bool_decide (path = "/auth/me") then bool_decide (method = "GET")
  else
    let parts := split_on is_slash path in
    bool_decide (parts !! 0%nat = Some "") && bool_decide (parts !! 1%nat = Some "orgs") && bool_decide (parts !! 2%nat = Some scopeOrgId).

(** What the middleware does with a request: pass it on unauthenticated, pass it
    on as a user, or answer. *)
Inductive Gate : Type :=
| GatePublic
| GateUser (user : ResolvedKey)
| GateRefused (status : Z) (code message : string).

Section Auth.
Context {rt : Runtime}.

Definition authMiddleware (now : Z) (path method : string) (authorization : option string) : DbM Gate :=
  if existsb (fun p => bool_decide (path = p) || starts_with p path) PUBLIC_PATHS then mret GatePublic
  else
    match authorization with
    | Some authHeader =>
        if starts_with "Bearer " authHeader then
          let apiKey := drop_str 7 authHeader in
          user ← getUserByApiKey now apiKey;
          match user with
          | None => mret (GateRefused 401 "UNAUTHORIZED" "Invalid API key")
          | Some user =>
              match user.(rk_scopeOrgId) with
              | Some scope =>
                  if negb (bool_decide (scope = "")) && negb (scopedKeyAllows path scope method)
                  then mret (GateRefused 403 "FORBIDDEN" "This API key is limited to one org")
                  else mret (GateUser user)
              | None => mret (GateUser user)
              end
          end
        else mret (GateRefused 401 "UNAUTHORIZED" "Missing or invalid Authorization header")
    | None => mret (GateRefused 401 "UNAUTHORIZED" "Missing or invalid Authorization header")
    end.
End Auth.

(** ** Rate limits *)

Definition WINDOW_MS : Z := 60000.

(** [windows]: the times of the admitted requests, by key. *)
Definition Windows : Type := jsmap string (list Z).

Definition live (cutoff : Z) (timestamps : list Z) : list Z := filter (fun t => cutoff < t) timestamps.

(** The clean-up timer; deleting the visited key does not disturb the iteration. *)
Definition clean_entry (now : Z) (windows : Windows) (e : string * list Z) : Windows :=
  match live (now - WINDOW_MS) e.2 with
  | [] => jm_delete e.1 windows
  | filtered => jm_set e.1 filtered windows
  end.

Definition clean_windows (now : Z) (windows : Windows) : Windows := foldl (clean_entry now) windows windows.

(** [Math.ceil(n / 1000)]. *)
Definition ceil_seconds (n : Z) : Z := (n + 999) / 1000.

Inductive Verdict : Type :=
| Passed
| TooMany (retryAfter : Z).

(** The body of both limiters, with the key already chosen. *)
Definition limit (requestsPerMinute : nat) (now : Z) (key : string) (windows : Windows) : Verdict * Windows :=
  let cutoff := now - WINDOW_MS in
  let timestamps := live cutoff (jm_get key windows ?? []) in
  if Nat.leb requestsPerMinute (length timestamps) then
    let oldestInWindow := head timestamps ?? 0 in
    (TooMany (ceil_seconds (oldestInWindow + WINDOW_MS - now)), windows)
  else (Passed, jm_set key (timestamps ++ [now]) windows).

(** The key of [rateLimitMiddleware]: the API key, else the forwarded address. *)
Definition rate_key (authorization forwardedFor : option string) : string :=
  let authHeader := authorization ?? "" in
  if starts_with "Bearer " authHeader then drop_str 7 authHeader else forwardedFor ?? "unknown".

(** The key of [ipRateLimitMiddleware]: [fly] says whether the server is on Fly. *)
Definition clientIp (fly : bool) (flyClientIp socket : option string) : string :=
  match (if fly then flyClientIp else None) with
  | Some ip => if bool_decide (ip = "") then socket ?? "unknown" else ip
  | None => socket ?? "unknown"
  end.

Definition rateLimitMiddleware (requestsPerMinute : nat) (now : Z) (authorization forwardedFor : option string) (windows : Windows)
    : Verdict * Windows :=
  limit requestsPerMinute now (rate_key authorization forwardedFor) windows.

Definition ipRateLimitMiddleware (requestsPerMinute : nat) (now : Z) (fly : bool) (flyClientIp socket : option string) (windows : Windows)
    : Verdict * Windows :=
  limit requestsPerMinute now (clientIp fly flyClientIp socket) windows.

(** ** Which limits a path has (app.ts) *)

(** [/^\/orgs\/[^/]+\/drives\/[^/]+\/presence(?:\/[^/]+)?$/]. *)
Definition isPresencePath (path : string) : bool :=
  match split_on is_slash path with
  | ["" ; "orgs"; o; "drives"; d; "presence"] => negb (bool_decide (o = "")) && negb (bool_decide (d = ""))
  | ["" ; "orgs"; o; "drives"; d; "presence"; s] =>
      negb (bool_decide (o = "")) && negb (bool_decide (d = "")) && negb (bool_decide (s = ""))
  | _ => false
  end.

Definition isSitePath (path : string) : bool := bool_decide (path = "/site") || starts_with "/site/" path.

(** ** Histories of the limiter, and the reference *)

Inductive limiter_event : Type :=
| Request (now : Z) (key : string)
| Sweep (now : Z).

Definition event_time (e : limiter_event) : Z := match e with Request now _ => now | Sweep now => now end.

Definition limiter_step (n : nat) (windows : Windows) (e : limiter_event) : option Verdict * Windows :=
  match e with
  | Request now key => let '(v, w) := limit n now key windows in (Some v, w)
  | Sweep now => (None, clean_windows now windows)
  end.

Fixpoint limiter_run (n : nat) (windows : Windows) (es : list limiter_event) : list Verdict * Windows :=
  match es with
  | [] => ([], windows)
  | e :: es =>
      let '(v, w) := limiter_step n windows e in
      let '(vs, w) := limiter_run n w es in
      (option_list v ++ vs, w)
  end.

(** The admitted requests of [key] in the minute up to [now]. *)
Definition in_last_minute (now : Z) (key : string) (log : list (string * Z)) : list Z :=
  (filter (fun e => e.1 = key /\ now - WINDOW_MS < e.2) log).*2.

(** The reference: admit while fewer than [n] were admitted in the last minute. *)
Fixpoint counting_run (n : nat) (log : list (string * Z)) (es : list limiter_event) : list bool * list (string * Z) :=
  match es with
  | [] => ([], log)
  | Sweep _ :: es => counting_run n log es
  | Request now key :: es =>
      let ok := Nat.ltb (length (in_last_minute now key log)) n in
      let '(vs, log') := counting_run n (if ok then log ++ [(key, now)] else log) es in
      (ok :: vs, log')
  end.

Definition is_passed (v : Verdict) : bool := match v with Passed => true | TooMany _ => false end.

(** The clock never goes back. *)
Fixpoint clock_from (t : Z) (es : list limiter_event) : Prop :=
  match es with
  | [] => True
  | e :: es => t <= event_time e /\ clock_from (event_time e) es
  end.

(** ** Lemmas *)

(** From time [t] on, the windows hold what the log says of every key. *)
Definition agrees_from (t : Z) (w : Windows) (log : list (string * Z)) : Prop :=
  forall key now, t <= now -> live (now - WINDOW_MS) (jm_get key w ?? []) = in_last_minute now key log.

Lemma live_live a b l : a <= b -> live b (live a l) = live b l.
Proof.
  intros Hab. unfold live. rewrite list_filter_filter. apply list_filter_iff. intros t. cbn. split; [tauto|]. intros H. split; [done|lia].
Qed.

Lemma live_app a l m : live a (l ++ m) = live a l ++ live a m.
Proof. apply filter_app. Qed.

Lemma in_last_minute_snoc now key log k t :
  in_last_minute now key (log ++ [(k, t)]) = in_last_minute now key log ++ (if decide (k = key) then live (now - WINDOW_MS) [t] else []).
Proof.
  unfold in_last_minute, live. rewrite filter_app, fmap_app. f_equal. destruct (decide (k = key)) as [->|Hne].
  - destruct (decide (now - WINDOW_MS < t)) as [H|H].
    + by rewrite !filter_cons_True by (cbn; auto).
    + by rewrite !filter_cons_False by (cbn; tauto).
  - by rewrite filter_cons_False by (cbn; tauto).
Qed.

Lemma agrees_later t t' w log : t <= t' -> agrees_from t w log -> agrees_from t' w log.
Proof. intros Ht H key now Hn. apply H. lia. Qed.

Lemma limit_agrees n now key w log t : t <= now -> agrees_from t w log ->
  let ok := Nat.ltb (length (in_last_minute now key log)) n in
  is_passed (limit n now key w).1 = ok /\
  agrees_from now (limit n now key w).2 (if ok then log ++ [(key, now)] else log).
Proof.
  intros Ht H ok. unfold limit. rewrite (H key now Ht). subst ok.
  rewrite Nat.leb_antisym. destruct (Nat.ltb (length (in_last_minute now key log)) n) eqn:E; cbn.
  - split; [done|]. intros k m Hm. rewrite jm_get_set, in_last_minute_snoc. destruct (decide (key = k)) as [->|Hne].
    + cbn [from_option id]. rewrite live_app, <- (H k now Ht), live_live by lia. f_equal. apply H. lia.
    + rewrite app_nil_r. apply H. lia.
  - split; [done|]. by apply (agrees_later t).
Qed.

Lemma clean_get now (w : Windows) key : jm_wf w ->
  default [] (jm_get key (clean_windows now w)) = live (now - WINDOW_MS) (default [] (jm_get key w)).
Proof.
  intros Hw. unfold clean_windows.
  assert (Hf : forall m e, default [] (jm_get key (clean_entry now m e)) = if decide (e.1 = key) then live (now - WINDOW_MS) e.2 else default [] (jm_get key m)).
  { intros m [k l]. unfold clean_entry. cbn [fst snd]. destruct (live (now - WINDOW_MS) l) as [|x r] eqn:E.
    - rewrite jm_get_delete. by case_decide.
    - rewrite jm_get_set. by case_decide. }
  assert (Hgo : forall es (m : Windows), jm_wf es -> default [] (jm_get key (foldl (clean_entry now) m es)) =
    match jm_get key es with Some l => live (now - WINDOW_MS) l | None => default [] (jm_get key m) end).
  { induction es as [|[k l] es IH]; intros m Hes; [done|]. cbn [foldl]. unfold jm_wf in Hes. cbn in Hes.
    apply NoDup_cons in Hes as [Hk Hes]. rewrite IH, Hf, jm_get_cons by done. cbn [fst snd]. case_decide as Hd; [subst|done].
    by rewrite (proj2 (jm_get_none key es) Hk). }
  rewrite Hgo by done. by destruct (jm_get key w).
Qed.

Lemma limit_wf n now key w : jm_wf w -> jm_wf (limit n now key w).2.
Proof. intros H. unfold limit. destruct (Nat.leb _ _); cbn; auto with table. Qed.

Lemma clean_wf now w : jm_wf w -> jm_wf (clean_windows now w).
Proof.
  unfold clean_windows. assert (Hgo : forall es m, jm_wf m -> jm_wf (foldl (clean_entry now) m es)); [|apply Hgo].
  induction es as [|[k l] es IH]; intros m H; [done|]. cbn [foldl]. apply IH. unfold clean_entry. cbn [fst snd].
  destruct (live (now - WINDOW_MS) l); auto with table.
Qed.

(** No window of the log holds more than [n] requests of a key, none is later
    than [t]. *)
Definition bounded_log (n : nat) (t : Z) (log : list (string * Z)) : Prop :=
  Forall (fun e => e.2 <= t) log /\
  forall (key : string) (last : Z), (length (filter (fun e => e.1 = key /\ (last - WINDOW_MS < e.2 <= last)%Z) log) <= n)%nat.

Lemma filter_length_weaken {A} (P Q : A -> Prop) `{forall a, Decision (P a), forall a, Decision (Q a)} (l : list A) :
  (forall a, P a -> Q a) -> (length (filter P l) <= length (filter Q l))%nat.
Proof.
  intros HPQ. induction l as [|a l IH]; [done|]. rewrite !filter_cons. destruct (decide (P a)) as [Hp|], (decide (Q a)) as [|Hq]; cbn; try lia.
  by apply HPQ in Hp.
Qed.

Lemma bounded_snoc n t log key now : t <= now -> bounded_log n t log -> (length (in_last_minute now key log) < n)%nat ->
  bounded_log n now (log ++ [(key, now)]).
Proof.
  intros Ht [Hle Hb] Hn. split.
  - apply Forall_app. split; [|by repeat constructor]. eapply Forall_impl; [exact Hle|]. cbn. lia.
  - intros k last. rewrite filter_app, length_app. destruct (decide (k = key /\ last - WINDOW_MS < now <= last)) as [[-> Hl]|Hl].
    + rewrite filter_cons_True by (cbn; tauto). cbn [length].
      enough (length (filter (fun e => e.1 = key /\ (last - WINDOW_MS < e.2 <= last)%Z) log) <= length (in_last_minute now key log))%nat by (cbn; lia).
      unfold in_last_minute. rewrite length_fmap. apply filter_length_weaken. intros e [? ?]. split; [done|lia].
    + rewrite filter_cons_False by (cbn; naive_solver). cbn. specialize (Hb k last). lia.
Qed.

(** The time of the last event. *)
Definition last_time (t : Z) (es : list limiter_event) : Z := foldl (fun _ e => event_time e) t es.

(** One run of the limiter against the reference. *)
Lemma limiter_refines n es t w log : jm_wf w -> agrees_from t w log -> bounded_log n t log -> clock_from t es ->
  let r := limiter_run n w es in let s := counting_run n log es in
  is_passed <$> r.1 = s.1 /\ agrees_from (last_time t es) r.2 s.2 /\ bounded_log n (last_time t es) s.2.
Proof.
  revert t w log. induction es as [|e es IH]; intros t w log Hw Ha Hb Hc; cbn [limiter_run counting_run].
  { done. }
  destruct Hc as [Ht Hc]. destruct e as [now key|now]; cbn [limiter_step event_time] in *.
  - pose proof (limit_agrees n now key w log t Ht Ha) as [Hv Ha'].
    pose proof (limit_wf n now key w Hw) as Hw'. destruct (limit n now key w) as [v w']. cbn in Hv, Ha', Hw' |- *. rewrite <- Hv in *.
    assert (Hb' : bounded_log n now (if is_passed v then log ++ [(key, now)] else log)).
    { destruct (is_passed v); [apply (bounded_snoc n t); [done..|]; by apply Nat.ltb_lt|].
      destruct Hb as [Hle Hb]. split; [|done]. eapply Forall_impl; [exact Hle|]. cbn. lia. }
    destruct (IH now w' _ Hw' Ha' Hb' Hc) as (H1 & H2 & H3).
    destruct (limiter_run n w' es) as [vs w'']. destruct (counting_run n _ es) as [bs log']. cbn in *. by rewrite H1.
  - assert (Ha' : agrees_from now (clean_windows now w) log).
    { intros key m Hm. rewrite clean_get, live_live by (done || lia). apply Ha. lia. }
    assert (Hb' : bounded_log n now log).
    { destruct Hb as [Hle Hb]. split; [|done]. eapply Forall_impl; [exact Hle|]. cbn. lia. }
    destruct (IH now _ log (clean_wf now w Hw) Ha' Hb' Hc) as (H1 & H2 & H3).
    destruct (limiter_run n (clean_windows now w) es) as [vs w'']. destruct (counting_run n log es) as [bs log']. by cbn in *.
Qed.

Lemma ceil_seconds_spec m : 0 < m <= WINDOW_MS -> 1 <= ceil_seconds m <= 60 /\ m <= 1000 * ceil_seconds m.
Proof. unfold ceil_seconds, WINDOW_MS. intros H. Z.to_euclidean_division_equations; lia. Qed.

(** A refusal in a state that agrees with a bounded log. *)
Lemma retry_after_works n t w log now key r : (0 < n)%nat -> agrees_from t w log -> bounded_log n t log -> t <= now ->
  (limit n now key w).1 = TooMany r -> 1 <= r <= 60 /\ (limit n (now + 1000 * r) key w).1 = Passed.
Proof.
  intros Hn Ha [Hle Hb] Ht. unfold limit. rewrite (Ha key now Ht). pose proof (Ha key) as Hk. pose proof (Hb key now) as Hbn.
  assert (Hin : Forall (fun x => now - WINDOW_MS < x <= now) (in_last_minute now key log) /\ (length (in_last_minute now key log) <= n)%nat).
  { unfold in_last_minute. rewrite length_fmap. split.
    - apply Forall_fmap, Forall_forall. intros e [[_ H1] H2]%list_elem_of_filter. cbn. rewrite Forall_forall in Hle. specialize (Hle e H2). lia.
    - etrans; [|exact Hbn]. apply Nat.eq_le_incl. f_equal. apply filter_ext_in. intros e He. rewrite Forall_forall in Hle. specialize (Hle e He).
      split; [intros [? ?]; split; [done|lia]|tauto]. }
  destruct Hin as [Hin Hlen]. destruct (Nat.leb n (length (in_last_minute now key log))) eqn:E; [|done]. apply Nat.leb_le in E.
  cbn [fst]. intros [= <-]. rewrite <- (Ha key now Ht) in *. set (l := live (now - WINDOW_MS) _) in *.
  destruct l as [|x l'] eqn:El; [cbn in E; lia|]. cbn [head from_option id]. inversion Hin as [|? ? Hx Hl']; subst x0 l0.
  destruct (ceil_seconds_spec (x + WINDOW_MS - now)) as [Hr Hr']; [lia|]. split; [done|]. set (r := ceil_seconds _) in *.
  assert (Hlive : live (now + 1000 * r - WINDOW_MS) (default [] (jm_get key w)) = live (now + 1000 * r - WINDOW_MS) (x :: l')).
  { rewrite <- El. subst l. by rewrite live_live by lia. }
  rewrite Hlive. unfold live at 1 2. rewrite filter_cons_False by lia. fold (live (now + 1000 * r - WINDOW_MS) l').
  assert (Hsh : (length (live (now + 1000 * r - WINDOW_MS) l') < n)%nat).
  { eapply Nat.le_lt_trans; [apply length_filter|]. cbn in Hlen. lia. }
  destruct (Nat.leb n _) eqn:E2; [apply Nat.leb_le in E2; lia|done].
Qed.

(** ** The contracts *)

(** Whatever the requests and the clean-ups of the timer, the limiter admits
    exactly the requests that find fewer than the limit admitted for their key in
    the last minute, so no minute holds more than the limit; a refusal names a
    wait between one second and a minute, after which the key is admitted. *)
Theorem limiter_counts n es t :
  clock_from t es ->
  let r := limiter_run n [] es in
  let s := counting_run n [] es in
  is_passed <$> r.1 = s.1 /\
  (forall (key : string) (last : Z), (length (filter (fun e => e.1 = key /\ (last - WINDOW_MS < e.2 <= last)%Z) s.2) <= n)%nat) /\
  (forall now key ra, (0 < n)%nat -> last_time t es <= now -> (limit n now key r.2).1 = TooMany ra ->
     1 <= ra <= 60 /\ (limit n (now + 1000 * ra) key r.2).1 = Passed).
Proof.
  intros Hc r s. destruct (limiter_refines n es t [] [] jm_wf_nil) as (H1 & H2 & H3); [done| |done|].
  { split; [constructor|]. intros key last. apply Nat.le_0_l. }
  split; [done|]. split; [apply H3|]. intros now key ra Hn Ht Hr. by apply (retry_after_works n (last_time t es) _ s.2).
Qed.

Lemma limiter_counts_witness :
  let es := [Request 0 "k"; Request 10 "k"; Request 20 "k"; Sweep 30; Request 60000 "k"; Request 60005 "k"] in
  clock_from 0 es /\ (is_passed <$> (limiter_run 2 [] es).1) = (counting_run 2 [] es).1 /\
  (counting_run 2 [] es).1 = [true; true; false; true; false].
Proof.
  intros es. assert (Hc : clock_from 0 es) by (cbn; lia). split; [exact Hc|]. split; [apply (limiter_counts 2 es 0 Hc)|reflexivity].
Defined.

Section GateContract.
Context {rt : Runtime}.

(** What a scoped key reaches. *)
Lemma scoped_path path scope method : scopedKeyAllows path scope method = true ->
  (path = "/auth/me" /\ method = "GET") \/ exists rest, split_on is_slash path = "" :: "orgs" :: scope :: rest.
Proof.
  unfold scopedKeyAllows. case_bool_decide as E.
  - intros Hm%bool_decide_eq_true. by left.
  - intros [[H0 H1]%andb_true_iff H2]%andb_true_iff. apply bool_decide_eq_true in H0, H1, H2. right.
    destruct (split_on is_slash path) as [|a [|b [|c rest]]]; try done. cbn in *. simplify_eq. by exists rest.
Qed.

(** The public paths are the ones below these two. *)
Lemma public_path path : existsb (fun p => bool_decide (path = p) || starts_with p path) PUBLIC_PATHS = true ->
  (exists rest, path = "/auth/register" +:+ rest) \/ (exists rest, path = "/health" +:+ rest).
Proof.
  intros (p & Hp & Ho)%existsb_exists.
  assert (H : exists rest, path = p +:+ rest).
  { apply orb_true_iff in Ho as [Ho%bool_decide_eq_true|Ho%starts_with_spec]; [|done]. exists "". by rewrite app_nil_r_str. }
  destruct Hp as [<-|[<-|[]]]; [by left|by right].
Qed.

(** C38: a request gets past the authentication on a path that begins with
    [/auth/register] or [/health], or with a Bearer key that resolves to the user
    it is passed on as; with a key scoped to an org only under that org's routes or
    to read its own identity, so that the file routes serve it files of that org
    only.  Every other request is answered with 401 or 403, or fails with the
    lookup of its key. *)
Theorem gate_keeps_scope now path method authorization db :
  match (authMiddleware now path method authorization db).1 with
  | Ok GatePublic => (exists rest, path = "/auth/register" +:+ rest) \/ (exists rest, path = "/health" +:+ rest)
  | Ok (GateUser user) =>
      (exists apiKey, authorization = Some ("Bearer " +:+ apiKey) /\ (getUserByApiKey now apiKey db).1 = Ok (Some user)) /\
      forall scope, user.(rk_scopeOrgId) = Some scope -> scope <> "" ->
        ((path = "/auth/me" /\ method = "GET") \/ exists rest, split_on is_slash path = "" :: "orgs" :: scope :: rest) /\
        forall url o d p, path = url_pathname url -> raw_target url = RawFile o d p -> o = scope
  | Ok (GateRefused status _ _) => status = 401 \/ status = 403
  | Throw e => exists apiKey, (getUserByApiKey now apiKey db).1 = Throw e
  end.
Proof.
  unfold authMiddleware. destruct (existsb _ PUBLIC_PATHS) eqn:Ep.
  { by apply public_path. }
  destruct authorization as [authHeader|]; [|by left]. destruct (starts_with "Bearer " authHeader) eqn:Eb; [|by left].
  apply starts_with_spec in Eb as [apiKey ->]. change (drop_str 7 ("Bearer " +:+ apiKey)) with apiKey.
  unfold mbind, M_bind. destruct (getUserByApiKey now apiKey db) as [[[user|]|e] db'] eqn:Eg; cbn; [|by left|by exists apiKey; rewrite Eg].
  assert (Hk : exists apiKey0, Some ("Bearer " +:+ apiKey) = Some ("Bearer " +:+ apiKey0) /\ (getUserByApiKey now apiKey0 db).1 = Ok (Some user))
    by (exists apiKey; by rewrite Eg).
  destruct (rk_scopeOrgId user) as [scope|] eqn:Es; cbn; [|split; [exact Hk|intros ? Hs; congruence]].
  destruct (negb (bool_decide (scope = "")) && negb (scopedKeyAllows path scope method)) eqn:Ea; cbn; [by right|].
  split; [done|]. rewrite Es. intros scope' [= <-] Hne. rewrite bool_decide_false in Ea by done. apply negb_false_iff in Ea.
  apply scoped_path in Ea. split; [done|]. intros url o d p -> Ht. unfold raw_target in Ht.
  destruct Ea as [[E _]|[rest E]]; rewrite E in Ht; [done|]. by repeat case_match; simplify_eq.
Qed.
End GateContract.

(** A key scoped to [o1] reads a file of [o1]; it is refused under [o2], as is a
    request without a key. *)
Definition o1_file : string := "/orgs/o1/drives/d1/files/a.md/raw".
Definition o1_gate (path : string) (authorization : option string) : outcome error Gate :=
  (authMiddleware (rt := ascii_runtime) 9000 path "GET" authorization minted.2).1.

Lemma gate_keeps_scope_witness :
  (exists user, o1_gate o1_file (Some "Bearer af_1") = Ok (GateUser user) /\ user.(rk_id) = "u2" /\
     exists rest, split_on is_slash o1_file = "" :: "orgs" :: "o1" :: rest) /\
  o1_gate "/orgs/o2/drives/d1/files/a.md/raw" (Some "Bearer af_1") =
    Ok (GateRefused 403 "FORBIDDEN" "This API key is limited to one org") /\
  o1_gate o1_file None = Ok (GateRefused 401 "UNAUTHORIZED" "Missing or invalid Authorization header") /\
  o1_gate o1_file (Some "Bearer af_2") = Ok (GateRefused 401 "UNAUTHORIZED" "Invalid API key") /\
  o1_gate "/health" None = Ok GatePublic.
Proof.
  split; [|vm_compute; tauto].
  pose proof (gate_keeps_scope (rt := ascii_runtime) 9000 o1_file "GET" (Some "Bearer af_1") minted.2) as H.
  destruct (o1_gate o1_file (Some "Bearer af_1")) as [g|e] eqn:E; [|vm_compute in E; discriminate E].
  assert (Hu : exists user, g = GateUser user /\ user.(rk_id) = "u2" /\ user.(rk_scopeOrgId) = Some "o1").
  { vm_compute in E. injection E as <-. eexists. split; [reflexivity|]. split; reflexivity. }
  destruct Hu as (user & -> & Hid & Hs). exists user. split; [reflexivity|]. split; [exact Hid|].
  unfold o1_gate in E. rewrite E in H. destruct H as [_ H].
  destruct (H "o1" Hs ltac:(discriminate)) as [[[Hp _]|Hr] _]; [discriminate Hp|exact Hr].
Defined.
