(* ===== verification/EventStreams.v ===== *)
(** * The event streams of a drive: server/src/routes/events.ts

    A client opens a server-sent event stream on a drive; it gets the drive's
    events (core/src/events/bus.ts) and, on request, the presence of others
    (Presence).  A user has at most eight streams; each heartbeat checks that the
    key and the role still hold and closes the stream otherwise; closing runs
    once.  The hub is what the route keeps: the count of streams by user, the
    streams, the bus and the registry.  A stream's number is its listener on
    both; what it was sent is [sm_pending].

    The theorem: the count is exact and bounded whatever streams open, abort and
    beat, an event reaches the open streams of its drive only, and a stream whose
    key or role is gone is closed at its next heartbeat. *)

From S2P Require Import Prelude JsString Errors Schema Rbac ApiKeys World JsMap Presence PresenceSpec.
#[local] Open Scope Z_scope.

Definition MAX_STREAMS_PER_USER : Z := 8.

Inductive SseMessage : Type :=
| SseReady (driveId : string) (at_ : Z)
| SseSnapshot (sessions : list PresenceSession)
| SseEvent (ev : DriveEvent)
| SsePing.

(** A stream and its closures: [sm_unbind] is the closure of [bind],
    [sm_presence] the listener set its presence subscription is in, and
    [sm_live] says that it listens and beats. *)
Record Stream : Type := {
  sm_userId : string;
  sm_apiKey : string;
  sm_orgId : string;
  sm_driveId : string;
  sm_unbind : option nat;
  sm_presence : option nat;
  sm_live : bool;
  sm_cleaned : bool;
  sm_released : bool;
  sm_pending : list SseMessage
}.

#[export] Instance Stream_eta : Eta Stream := fun s => {|
  sm_userId := s.(sm_userId); sm_apiKey := s.(sm_apiKey); sm_orgId := s.(sm_orgId); sm_driveId := s.(sm_driveId);
  sm_unbind := s.(sm_unbind); sm_presence := s.(sm_presence); sm_live := s.(sm_live); sm_cleaned := s.(sm_cleaned);
  sm_released := s.(sm_released); sm_pending := s.(sm_pending)
|}.

Record Hub : Type := {
  h_db : Db;
  h_streams : gmap nat Stream;
  h_counts : jsmap string Z;
  h_bus : Bus;
  h_presence : Registry;
  h_next : nat
}.

#[export] Instance Hub_eta : Eta Hub := fun h => {|
  h_db := h.(h_db); h_streams := h.(h_streams); h_counts := h.(h_counts); h_bus := h.(h_bus);
  h_presence := h.(h_presence); h_next := h.(h_next)
|}.

Section EventStreams.
Context {rt : Runtime}.

Definition HubM (A : Type) : Type := M error Hub A.

Definition at_registry {A} (m : M error Registry A) : HubM A := on h_presence (fun r h => h <| h_presence := r |>) m.
Definition at_db {A} (m : DbM A) : HubM A := on h_db (fun db h => h <| h_db := db |>) m.
Definition set_stream (id : nat) (f : Stream -> Stream) (h : Hub) : Hub :=
  match h.(h_streams) !! id with Some s => h <| h_streams ::= <[id := f s]> |> | None => h end.
Definition push (id : nat) (msg : SseMessage) (h : Hub) : Hub := set_stream id (fun s => s <| sm_pending ::= fun l => l ++ [msg] |>) h.

(** [release]: gives the user's slot back, once. *)
Definition release_slot (id : nat) (h : Hub) : Hub :=
  match h.(h_streams) !! id with
  | None => h
  | Some s =>
      if s.(sm_released) then h
      else
        let h := set_stream id (fun s => s <| sm_released := true |>) h in
        let remaining := (jm_get s.(sm_userId) h.(h_counts) ?? 1) - 1 in
        if remaining =? 0 then h <| h_counts ::= jm_delete s.(sm_userId) |>
        else h <| h_counts ::= jm_set s.(sm_userId) remaining |>
  end.

Definition unsubscribe_presence (id : nat) (s : Stream) (r : Registry) : Registry :=
  match s.(sm_presence) with Some ref => unsubscribe s.(sm_driveId) id ref r | None => r end.

Definition cleanup (now : Z) (id : nat) : HubM unit := fun h =>
  match h.(h_streams) !! id with
  | None => (Ok tt, h)
  | Some s =>
      if s.(sm_cleaned) then (Ok tt, h)
      else
        (_ ← modify (set_stream id (fun s => s <| sm_cleaned := true |> <| sm_live := false |>));
         _ ← modify (fun h => h <| h_bus ::= unsubscribeDrive s.(sm_driveId) id |>);
         _ ← modify (fun h => h <| h_presence ::= unsubscribe_presence id s |>);
         _ ← match s.(sm_unbind) with Some closure => at_registry (release now closure) | None => mret tt end;
         modify (release_slot id)) h
  end.

(** The body of [streamSSE] up to its first wait. *)
Definition start_stream (now : Z) (id : nat) (driveId : string) (withPresence : bool) (h : Hub) : Hub :=
  let h := push id (SseReady driveId now) h in
  let h := if withPresence then
      let h := push id (SseSnapshot (snapshot driveId h.(h_presence))) h in
      let '(ref, r) := subscribe driveId id h.(h_presence) in
      set_stream id (fun s => s <| sm_presence := Some ref |>) (h <| h_presence := r |>)
    else h in
  set_stream id (fun s => s <| sm_live := true |>) (h <| h_bus ::= subscribeDrive driveId id |>).

(** The route: [None] is the answer 429. *)
Definition open_stream (now : Z) (aborted : bool) (userId apiKey orgId driveParam : string) (withPresence : bool)
    (sessionId : option string) : HubM (option nat) :=
  ctx ← reads (fun h => resolveContext h.(h_db) userId (Some orgId) (Some driveParam));
  let driveId := ctx.(ctx_driveId) in
  count ← gets (fun h => jm_get userId h.(h_counts) ?? 0);
  if MAX_STREAMS_PER_USER <=? count then mret None
  else
    unbind ← (match sessionId with
              | Some session =>
                  if withPresence && presenceSessionIdSchema session
                  then closure ← at_registry (bind now driveId session userId); mret (Some closure)
                  else mret None
              | None => mret None
              end);
    _ ← modify (fun h => h <| h_counts ::= jm_set userId (count + 1) |>);
    id ← gets h_next;
    _ ← modify (fun h => h <| h_next ::= S |> <| h_streams ::= <[id := {|
           sm_userId := userId; sm_apiKey := apiKey; sm_orgId := orgId; sm_driveId := driveId; sm_unbind := unbind;
           sm_presence := None; sm_live := false; sm_cleaned := false; sm_released := false; sm_pending := [] |}]> |>);
    _ ← (if aborted : bool then cleanup now id else modify (start_stream now id driveId withPresence));
    mret (Some id).

(** The heartbeat: the key and the role are checked again. *)
Definition heartbeat (now : Z) (id : nat) : HubM unit := fun h =>
  match h.(h_streams) !! id with
  | None => (Ok tt, h)
  | Some s =>
      if s.(sm_live) then
        (user ← at_db (getUserByApiKey now s.(sm_apiKey));
         allowed ← gets (fun h => match user with
           | Some u => bool_decide (u.(rk_id) = s.(sm_userId)) &&
                       is_ok (resolveContext h.(h_db) s.(sm_userId) (Some s.(sm_orgId)) (Some s.(sm_driveId)))
           | None => false
           end);
         if allowed : bool then modify (push id SsePing) else cleanup now id) h
      else (Ok tt, h)
  end.

(** A published event, to every listener of its drive. *)
Definition publish_to_streams (ev : DriveEvent) (h : Hub) : Hub :=
  foldl (fun h id => push id (SseEvent ev) h) h (publishDriveEvent h.(h_bus) ev).

(** ** Histories *)

Inductive hub_op : Type :=
| HubOpen (now : Z) (aborted : bool) (userId apiKey orgId driveParam : string) (withPresence : bool) (sessionId : option string)
| HubAbort (now : Z) (id : nat)
| HubBeat (now : Z) (id : nat)
| HubPublish (ev : DriveEvent)
| HubDb (f : Db -> Db)
| HubPresence (op : presence_op).

Context (getDisplayName : string -> option string).

(** A request that fails, or a heartbeat, leaves the state it reached. *)
Definition hub_step (op : hub_op) (h : Hub) : Hub :=
  match op with
  | HubOpen now aborted u k o d p s => (open_stream now aborted u k o d p s h).2
  | HubAbort now id => (cleanup now id h).2
  | HubBeat now id => (heartbeat now id h).2
  | HubPublish ev => publish_to_streams ev h
  | HubDb f => h <| h_db ::= f |>
  | HubPresence op => h <| h_presence ::= presence_step getDisplayName op |>
  end.

Definition hub_run (ops : list hub_op) (h : Hub) : Hub := foldl (fun h op => hub_step op h) h ops.

Definition new_hub (db : Db) : Hub :=
  {| h_db := db; h_streams := ∅; h_counts := []; h_bus := ∅; h_presence := new_registry; h_next := 0 |}.

(** ** The invariant *)

Definition holds_slot (u : string) (s : Stream) : Prop := s.(sm_userId) = u /\ s.(sm_released) = false.

(** The streams of a user that hold a slot. *)
Definition open_count (u : string) (m : gmap nat Stream) : nat := size (filter (fun kv => holds_slot u kv.2) m).

(** Between the steps of an opening, and after it ([hub_ok]). *)
Record hub_mid (h : Hub) : Prop := {
  ho_registry : registry_ok h.(h_presence);
  ho_fresh : forall id s, h.(h_streams) !! id = Some s -> (id < h.(h_next))%nat;
  ho_flags : forall id s, h.(h_streams) !! id = Some s -> s.(sm_released) = s.(sm_cleaned) /\ (s.(sm_live) = true -> s.(sm_cleaned) = false);
  ho_count : forall u, jm_get u h.(h_counts) = (let n := open_count u h.(h_streams) in if decide (n = 0%nat) then None else Some (Z.of_nat n));
  ho_cap : forall u, Z.of_nat (open_count u h.(h_streams)) <= MAX_STREAMS_PER_USER;
  ho_bus : forall d id, id ∈ default [] (h.(h_bus) !! d) <-> exists s, h.(h_streams) !! id = Some s /\ s.(sm_driveId) = d /\ s.(sm_live) = true;
  ho_bus_once : forall d, NoDup (default [] (h.(h_bus) !! d))
}.

Definition hub_ok (h : Hub) : Prop :=
  hub_mid h /\ forall id s, h.(h_streams) !! id = Some s -> s.(sm_live) = negb s.(sm_cleaned).

(** ** Lemmas *)

Lemma count_insert_new u id s (m : gmap nat Stream) : m !! id = None ->
  open_count u (<[id := s]> m) = ((if decide (holds_slot u s) then 1 else 0) + open_count u m)%nat.
Proof.
  intros Hn. unfold open_count. case_decide as Hs.
  - rewrite map_filter_insert_True by done. rewrite map_size_insert_None; [done|]. apply map_lookup_filter_None. by left.
  - rewrite map_filter_insert_False by done. by rewrite delete_id by done.
Qed.

Lemma count_change u id s s' (m : gmap nat Stream) : m !! id = Some s ->
  (open_count u (<[id := s']> m) + (if decide (holds_slot u s) then 1 else 0) =
   open_count u m + (if decide (holds_slot u s') then 1 else 0))%nat.
Proof.
  intros Hs. rewrite <- (insert_delete_id m id s Hs) at 2. rewrite <- (insert_delete_eq m id s').
  rewrite !count_insert_new by apply lookup_delete_eq. lia.
Qed.

Lemma release_ok now id r : registry_ok r -> (release now id r).1 = Ok tt.
Proof.
  intros Hok. unfold release. destruct (pr_releases r !! id) as [c|] eqn:Ec; [|done]. destruct (rl_released c) eqn:Er; [done|].
  destruct (ok_bound r Hok id c Ec Er) as (Href & e & He & Hu). cbn. rewrite He. case_bool_decide as Hb; [|done].
  unfold remove. unfold mbind, M_bind, gets. set (r2 := set_entry _ _ _).
  assert (Hf : exists e', entry_of (rl_driveId c) (rl_sessionId c) r2 = Some (rl_entry c, e') /\ e'.(pe_userId) = c.(rl_userId)).
  { eexists. split; [apply entry_of_some; split; [exact Href|apply lookup_insert_eq]|exact Hu]. }
  destruct Hf as (e' & -> & Hu'). cbn. unfold assertOwner. rewrite bool_decide_false by (cbn; tauto). cbn.
  destruct (bool_decide (pe_bindings e' = 0)), (bool_decide (is_Some (pe_session e'))); done.
Qed.

Lemma elem_of_subscribeDrive d id bus d' x :
  x ∈ default [] (subscribeDrive d id bus !! d') <-> x ∈ default [] (bus !! d') \/ (d' = d /\ x = id).
Proof.
  unfold subscribeDrive, Bus in *. cbv zeta. destruct (decide (d' = d)) as [->|Hd].
  - rewrite lookup_insert_eq. cbn. case_bool_decide as E; [|set_solver]. split; [tauto|]. by intros [|[_ ->]].
  - rewrite lookup_insert_ne by done. naive_solver.
Qed.

Lemma elem_of_unsubscribeDrive d id bus d' x :
  x ∈ default [] (unsubscribeDrive d id bus !! d') <-> x ∈ default [] (bus !! d') /\ ~ (d' = d /\ x = id).
Proof.
  unfold unsubscribeDrive, Bus in *. cbv zeta. destruct (bus !! d) as [l|] eqn:E.
  - destruct (bool_decide _) eqn:Eb; [apply bool_decide_eq_true in Eb|]; destruct (decide (d' = d)) as [->|Hd].
    + rewrite lookup_delete_eq, E. cbn. split; [by intros ?%elem_of_nil|]. intros [Hx Hn].
      assert (x ∈ filter (fun x => x <> id) l) as Hf by (apply list_elem_of_filter; naive_solver). by rewrite Eb in Hf.
    + rewrite lookup_delete_ne by done. naive_solver.
    + rewrite lookup_insert_eq, E. cbn. rewrite list_elem_of_filter. naive_solver.
    + rewrite lookup_insert_ne by done. naive_solver.
  - split; [|tauto]. intros H. split; [done|]. intros [-> _]. rewrite E in H. by apply elem_of_nil in H.
Qed.

Lemma NoDup_subscribeDrive d id bus d' : NoDup (default [] (bus !! d')) -> NoDup (default [] (subscribeDrive d id bus !! d')).
Proof.
  unfold subscribeDrive, Bus in *. cbv zeta. destruct (decide (d' = d)) as [->|Hd]; [|by rewrite lookup_insert_ne].
  rewrite lookup_insert_eq. cbn. intros H. case_bool_decide; [done|]. apply NoDup_app. split_and!; [done| |apply NoDup_singleton]. set_solver.
Qed.

Lemma NoDup_unsubscribeDrive d id bus d' : NoDup (default [] (bus !! d')) -> NoDup (default [] (unsubscribeDrive d id bus !! d')).
Proof.
  unfold unsubscribeDrive, Bus in *. cbv zeta. intros H. destruct (bus !! d) as [l|] eqn:E; [|done].
  destruct (bool_decide _); destruct (decide (d' = d)) as [->|Hd].
  - rewrite lookup_delete_eq. constructor.
  - by rewrite lookup_delete_ne.
  - rewrite lookup_insert_eq. rewrite E in H. by apply NoDup_filter.
  - by rewrite lookup_insert_ne.
Qed.

(** A slot given back, or taken: the count follows. *)
Lemma slot_count u u' n n' (counts : jsmap string Z) :
  jm_get u counts = (if decide (n = 0%nat) then None else Some (Z.of_nat n)) -> (u = u' -> n = S n') -> (u <> u' -> n = n') ->
  forall remaining, (u = u' -> remaining = Z.of_nat n') ->
  jm_get u (if remaining =? 0 then jm_delete u' counts else jm_set u' remaining counts) =
  (if decide (n' = 0%nat) then None else Some (Z.of_nat n')).
Proof.
  intros Hc He Hne remaining Hr. destruct (Z.eqb_spec remaining 0) as [E|E]; rewrite ?jm_get_delete, ?jm_get_set.
  - destruct (decide (u' = u)) as [->|Hu]; [|rewrite Hc, Hne by congruence; done]. specialize (Hr eq_refl). by rewrite decide_True by lia.
  - destruct (decide (u' = u)) as [->|Hu]; [|rewrite Hc, Hne by congruence; done]. specialize (Hr eq_refl). rewrite decide_False by lia. by rewrite Hr.
Qed.

Definition closed (s : Stream) : Stream := s <| sm_cleaned := true |> <| sm_live := false |> <| sm_released := true |>.

Lemma release_slot_some id s h : h.(h_streams) !! id = Some s -> s.(sm_released) = false ->
  release_slot id h =
  h <| h_streams := <[id := s <| sm_released := true |>]> h.(h_streams) |>
    <| h_counts := (let remaining := (jm_get s.(sm_userId) h.(h_counts) ?? 1) - 1 in
                    if remaining =? 0 then jm_delete s.(sm_userId) h.(h_counts) else jm_set s.(sm_userId) remaining h.(h_counts)) |>.
Proof. intros Hs Hr. unfold release_slot. rewrite Hs, Hr. unfold set_stream. rewrite Hs. cbn. by destruct (_ =? 0). Qed.

Lemma unsubscribe_ok id s r : registry_ok r -> registry_ok (unsubscribe_presence id s r).
Proof.
  intros H. unfold unsubscribe_presence. destruct (sm_presence s) as [ref|]; [|done].
  by apply (step_ok getDisplayName (PoUnsubscribe (sm_driveId s) id ref)).
Qed.

Lemma unbind_ok now o h : registry_ok h.(h_presence) ->
  exists r, registry_ok r /\
    (match o with Some closure => at_registry (release now closure) | None => mret (M := M error Hub) tt end : M error Hub unit) h =
    (Ok tt, h <| h_presence := r |>).
Proof.
  intros H. destruct o as [c|].
  - exists (release now c h.(h_presence)).2. split; [by apply (step_ok getDisplayName (PoRelease now c))|].
    unfold at_registry, on. pose proof (release_ok now c _ H) as E. destruct (release now c _) as [o r]. cbn in E |- *. by rewrite E.
  - exists h.(h_presence). split; [done|]. by destruct h.
Qed.

(** The count, when a stream that held a slot stops holding it. *)
Lemma close_count u id s (m : gmap nat Stream) : m !! id = Some s -> s.(sm_released) = false ->
  (open_count u (<[id := closed s]> m) + (if decide (s.(sm_userId) = u) then 1 else 0) = open_count u m)%nat.
Proof.
  intros Hs Hr. pose proof (count_change u id s (closed s) m Hs) as H. unfold holds_slot in H.
  assert (Hcr : sm_released (closed s) = true) by reflexivity. rewrite Hcr in H.
  rewrite (decide_False (P := _ /\ true = false)) in H by (by intros [_ ?]).
  destruct (decide (sm_userId s = u)); [rewrite decide_True in H by done|rewrite decide_False in H by tauto]; lia.
Qed.

Lemma cleanup_closes now id s h : hub_mid h -> h.(h_streams) !! id = Some s -> s.(sm_cleaned) = false ->
  exists h', cleanup now id h = (Ok tt, h') /\ hub_mid h' /\ h'.(h_streams) = <[id := closed s]> h.(h_streams) /\ h'.(h_db) = h.(h_db).
Proof.
  intros [Hr Hf Hfl Hc Hcap Hb Hb1] Hs Hcl. unfold cleanup. rewrite Hs, Hcl. unfold mbind, M_bind, modify. cbn.
  unfold set_stream at 1. rewrite Hs. cbn. set (h1 := h <| h_streams ::= _ |> <| h_bus ::= _ |> <| h_presence ::= _ |>).
  destruct (unbind_ok now (sm_unbind s) h1) as (r & Hokr & E); [by apply unsubscribe_ok|]. rewrite E. clear E.
  set (h2 := h1 <| h_presence := r |>). destruct (Hfl id s Hs) as [Hrel _]. rewrite Hcl in Hrel.
  rewrite (release_slot_some id (s <| sm_cleaned := true |> <| sm_live := false |>) h2); [|apply lookup_insert_eq|exact Hrel].
  eexists. split; [reflexivity|].
  assert (Hstr : <[id := closed s]> (h_streams h2) = <[id := closed s]> h.(h_streams)) by (cbn; by rewrite insert_insert_eq).
  split; [|by split]. split; cbn -[h2 open_count]; change (s <| sm_cleaned := true |> <| sm_live := false |> <| sm_released := true |>) with (closed s);
    rewrite ?Hstr.
  - done.
  - intros id' s' [[<- _]|[_ Hs']]%lookup_insert_Some; [by eapply Hf|by eapply Hf].
  - intros id' s' [[<- <-]|[_ Hs']]%lookup_insert_Some; [done|by eapply Hfl].
  - intros u. pose proof (close_count u id s _ Hs Hrel) as Hn. specialize (Hc u). cbn zeta in Hc.
    apply (slot_count _ _ _ _ _ Hc).
    + intros ->. rewrite decide_True in Hn by done. lia.
    + intros Hu. rewrite decide_False in Hn by done. lia.
    + intros ->. rewrite decide_True in Hn by done. cbn -[open_count]. rewrite Hc, decide_False by lia. cbn -[open_count]. lia.
  - intros u. pose proof (close_count u id s _ Hs Hrel). specialize (Hcap u). lia.
  - intros d id'. cbn. rewrite elem_of_unsubscribeDrive, Hb. split.
    + intros [(s' & Hs' & <- & Hl) Hne]. exists s'. split_and!; [|done|done]. rewrite lookup_insert_ne; [done|]. intros <-.
      apply Hne. rewrite Hs in Hs'. by injection Hs' as <-.
    + intros (s' & [[<- <-]|[Hne Hs']]%lookup_insert_Some & <- & Hl); [done|]. split; [by exists s'|]. naive_solver.
  - intros d. by apply NoDup_unsubscribeDrive.
Qed.

Lemma cleanup_ok now id h : hub_mid h -> exists h', cleanup now id h = (Ok tt, h') /\ hub_mid h' /\ h'.(h_db) = h.(h_db) /\
  h'.(h_streams) = match h.(h_streams) !! id with
                   | Some s => if s.(sm_cleaned) then h.(h_streams) else <[id := closed s]> h.(h_streams)
                   | None => h.(h_streams)
                   end.
Proof.
  intros Hok. destruct (h_streams h !! id) as [s|] eqn:Hs; [destruct (sm_cleaned s) eqn:Hc|].
  - exists h. unfold cleanup. by rewrite Hs, Hc.
  - destruct (cleanup_closes now id s h Hok Hs Hc) as (h' & ? & ? & ? & ?). by exists h'.
  - exists h. unfold cleanup. by rewrite Hs.
Qed.

(** *** The steps *)

(** What the invariant reads of a stream. *)
Definition same_slot (s s' : Stream) : Prop :=
  s'.(sm_userId) = s.(sm_userId) /\ s'.(sm_driveId) = s.(sm_driveId) /\ s'.(sm_live) = s.(sm_live) /\
  s'.(sm_cleaned) = s.(sm_cleaned) /\ s'.(sm_released) = s.(sm_released).

Lemma count_same u id s s' (m : gmap nat Stream) : m !! id = Some s -> same_slot s s' -> open_count u (<[id := s']> m) = open_count u m.
Proof.
  intros Hs (H1 & _ & _ & _ & H5). pose proof (count_change u id s s' m Hs) as H. unfold holds_slot in H. rewrite H1, H5 in H. lia.
Qed.

Lemma update_mid id s s' h h' : hub_mid h -> h.(h_streams) !! id = Some s -> same_slot s s' ->
  h'.(h_streams) = <[id := s']> h.(h_streams) -> h'.(h_counts) = h.(h_counts) -> h'.(h_bus) = h.(h_bus) ->
  h'.(h_next) = h.(h_next) -> registry_ok h'.(h_presence) -> hub_mid h'.
Proof.
  intros [Hr Hf Hfl Hc Hcap Hb Hb1] Hs Hsame E1 E2 E3 E4 Hr'. pose proof Hsame as (Hu & Hd & Hl & Hcl & Hre).
  split; rewrite ?E1, ?E2, ?E3, ?E4; try done.
  - intros id' x [[<- _]|[_ Hx]]%lookup_insert_Some; by eapply Hf.
  - intros id' x [[<- <-]|[_ Hx]]%lookup_insert_Some; [rewrite Hl, Hcl, Hre; by eapply Hfl|by eapply Hfl].
  - intros u. rewrite (count_same u id s s') by done. apply Hc.
  - intros u. rewrite (count_same u id s s') by done. apply Hcap.
  - intros d id'. rewrite Hb. destruct (decide (id' = id)) as [->|Hne]; [|by rewrite lookup_insert_ne].
    rewrite lookup_insert_eq, Hs. split; intros (x & [= <-] & Hxd & Hxl); eexists; (split; [done|split; congruence]).
Qed.

(** One stream of [h'] moved inside its slot; the rest is that of [h]. *)
Definition moved (id : nat) (s' : Stream) (h h' : Hub) : Prop :=
  h'.(h_streams) = <[id := s']> h.(h_streams) /\ h'.(h_db) = h.(h_db).

Lemma set_stream_mid id f s h : hub_mid h -> h.(h_streams) !! id = Some s -> same_slot s (f s) ->
  hub_mid (set_stream id f h) /\ moved id (f s) h (set_stream id f h).
Proof.
  intros Hok Hs Hsame. unfold set_stream, moved. rewrite Hs. split; [|done].
  eapply update_mid; [exact Hok|exact Hs|exact Hsame|done..|apply Hok].
Qed.

Lemma push_mid id msg s h : hub_mid h -> h.(h_streams) !! id = Some s ->
  hub_mid (push id msg h) /\ moved id (s <| sm_pending ::= fun l => l ++ [msg] |>) h (push id msg h).
Proof. intros Hok Hs. by apply set_stream_mid. Qed.

Lemma live_mid id s h : hub_mid h -> h.(h_streams) !! id = Some s -> s.(sm_cleaned) = false -> s.(sm_live) = false ->
  hub_mid (set_stream id (fun s => s <| sm_live := true |>) (h <| h_bus ::= subscribeDrive s.(sm_driveId) id |>)).
Proof.
  intros [Hr Hf Hfl Hc Hcap Hb Hb1] Hs Hcl Hl. set (s' := s <| sm_live := true |>).
  assert (Hn : forall u, open_count u (<[id := s']> h.(h_streams)) = open_count u h.(h_streams)).
  { intros u. pose proof (count_change u id s s' _ Hs) as H. unfold holds_slot in H.
    change (sm_userId s') with (sm_userId s) in H. change (sm_released s') with (sm_released s) in H. lia. }
  unfold set_stream. cbn. rewrite Hs. split; cbn -[s' open_count]; try done.
  - intros id' x [[<- _]|[_ Hx]]%lookup_insert_Some; by eapply Hf.
  - intros id' x [[<- <-]|[_ Hx]]%lookup_insert_Some; [|by eapply Hfl]. split; [exact (proj1 (Hfl id s Hs))|intros _; exact Hcl].
  - intros u. fold s'. rewrite Hn. apply Hc.
  - intros u. fold s'. rewrite Hn. apply Hcap.
  - intros d id'. rewrite elem_of_subscribeDrive, Hb. split.
    + intros [(x & Hx & <- & Hxl)|[-> ->]]; [|exists s'; by rewrite lookup_insert_eq].
      exists x. rewrite lookup_insert_ne; [done|]. intros <-. rewrite Hs in Hx. injection Hx as <-. congruence.
    + intros (x & [[<- <-]|[Hne Hx]]%lookup_insert_Some & <- & Hxl); [by right|]. left. by exists x.
  - intros d. by apply NoDup_subscribeDrive.
Qed.

Lemma start_stream_mid now id p s h : hub_mid h -> h.(h_streams) !! id = Some s -> s.(sm_cleaned) = false -> s.(sm_live) = false ->
  let h' := start_stream now id s.(sm_driveId) p h in
  hub_mid h' /\ h'.(h_db) = h.(h_db) /\
  exists s', h'.(h_streams) = <[id := s']> h.(h_streams) /\ s'.(sm_live) = true /\ s'.(sm_cleaned) = false /\ s'.(sm_userId) = s.(sm_userId).
Proof.
  intros Hok Hs Hcl Hl. cbn zeta. unfold start_stream. destruct (push_mid id (SseReady s.(sm_driveId) now) s h Hok Hs) as [Hok1 [Hm1 Hdb1]].
  set (h1 := push id _ h) in *. set (s1 := s <| sm_pending ::= _ |>) in Hm1.
  set (h2 := if p then _ else h1).
  assert (H2 : exists s2, hub_mid h2 /\ same_slot s s2 /\ moved id s2 h h2).
  { subst h2. destruct p; [|by exists s1].
    destruct (push_mid id (SseSnapshot (snapshot s.(sm_driveId) (h_presence h1))) s1 h1 Hok1 ltac:(rewrite Hm1; apply lookup_insert_eq)) as [Hok2 [Hm2 Hdb2]].
    set (h2 := push id _ h1) in *. set (s2 := s1 <| sm_pending ::= _ |>) in Hm2.
    pose proof (step_ok getDisplayName (PoSubscribe s.(sm_driveId) id) h2.(h_presence) (ho_registry _ Hok2)) as Hreg. cbn in Hreg.
    destruct (subscribe s.(sm_driveId) id h2.(h_presence)) as [ref r]. cbn in Hreg. unfold set_stream. cbn. rewrite Hm2, lookup_insert_eq.
    exists (s2 <| sm_presence := Some ref |>). split_and!; [|done|split; cbn; [|congruence]].
    - eapply (update_mid id s2 (s2 <| sm_presence := Some ref |>) h2); try done; cbn; rewrite Hm2; apply lookup_insert_eq.
    - by rewrite Hm2, Hm1, !insert_insert_eq. }
  destruct H2 as (s2 & Hok2 & (Hu & Hd & Hl2 & Hc2 & _) & Hm2 & Hdb2). rewrite <- Hd.
  assert (Hs2 : h2.(h_streams) !! id = Some s2) by (rewrite Hm2; apply lookup_insert_eq).
  split; [by apply live_mid; [|done|congruence..]|].
  unfold set_stream. cbn -[h2]. rewrite Hs2. split; [done|]. exists (s2 <| sm_live := true |>). cbn -[h2].
  rewrite Hm2, insert_insert_eq. split_and!; [done|done|congruence|done].
Qed.

Lemma add_stream_mid s h : hub_mid h -> (jm_get s.(sm_userId) h.(h_counts) ?? 0) < MAX_STREAMS_PER_USER ->
  s.(sm_live) = false -> s.(sm_cleaned) = false -> s.(sm_released) = false ->
  hub_mid (h <| h_counts ::= jm_set s.(sm_userId) ((jm_get s.(sm_userId) h.(h_counts) ?? 0) + 1) |>
             <| h_next ::= S |> <| h_streams ::= <[h.(h_next) := s]> |>).
Proof.
  intros [Hr Hf Hfl Hc Hcap Hb Hb1] Hlt Hl Hcl Hrel.
  assert (Hnew : h.(h_streams) !! h.(h_next) = None).
  { destruct (h_streams h !! h_next h) eqn:E; [|done]. apply Hf in E. lia. }
  assert (Hn : forall u, open_count u (<[h.(h_next) := s]> h.(h_streams)) =
    ((if decide (s.(sm_userId) = u) then 1 else 0) + open_count u h.(h_streams))%nat).
  { intros u. rewrite count_insert_new by done. unfold holds_slot.
    destruct (decide (sm_userId s = u)); [by rewrite decide_True|by rewrite decide_False by tauto]. }
  assert (Hcount : (jm_get s.(sm_userId) h.(h_counts) ?? 0) = Z.of_nat (open_count s.(sm_userId) h.(h_streams))).
  { rewrite Hc. cbn zeta. case_decide; cbn -[open_count]; lia. }
  rewrite Hcount in Hlt |- *. split; cbn -[open_count Z.add]; try done.
  - intros id' x [[<- _]|[_ Hx]]%lookup_insert_Some; [lia|]. apply Hf in Hx. lia.
  - intros id' x [[<- <-]|[_ Hx]]%lookup_insert_Some; [by rewrite Hl, Hcl, Hrel|by eapply Hfl].
  - intros u. rewrite Hn, jm_get_set. destruct (decide (sm_userId s = u)) as [<-|]; [|apply Hc].
    rewrite decide_False by lia. f_equal. lia.
  - intros u. rewrite Hn. destruct (decide (sm_userId s = u)) as [<-|]; [unfold MAX_STREAMS_PER_USER in *; lia|apply Hcap].
  - intros d id'. rewrite Hb. split.
    + intros (x & Hx & Hd & Hxl). exists x. rewrite lookup_insert_ne; [done|]. intros <-. congruence.
    + intros (x & [[<- <-]|[Hne Hx]]%lookup_insert_Some & Hd & Hxl); [congruence|by exists x].
Qed.

(** The flags of the untouched streams are what they were. *)
Lemma flags_changed id s' (h h' : Hub) : hub_ok h -> h'.(h_streams) = <[id := s']> h.(h_streams) -> s'.(sm_live) = negb s'.(sm_cleaned) ->
  hub_mid h' -> hub_ok h'.
Proof.
  intros [_ Hfl] E Hs' Hm. split; [done|]. intros id' x. rewrite E.
  intros [[<- <-]|[_ Hx]]%lookup_insert_Some; [done|by eapply Hfl].
Qed.

Lemma flags_same (h h' : Hub) : hub_ok h -> h'.(h_streams) = h.(h_streams) -> hub_mid h' -> hub_ok h'.
Proof. intros [_ Hfl] E Hm. split; [done|]. by rewrite E. Qed.

Lemma cleanup_hub_ok now id h : hub_ok h -> hub_ok (cleanup now id h).2.
Proof.
  intros Hok. destruct (cleanup_ok now id h (proj1 Hok)) as (h' & -> & Hm & _ & Hs). cbn.
  destruct (h_streams h !! id) as [s|] eqn:E; [|by apply (flags_same h)].
  destruct (sm_cleaned s); [by apply (flags_same h)|by apply (flags_changed id (closed s) h)].
Qed.

(** Another database or registry, with the same streams. *)
Lemma elsewhere_ok h db r : hub_ok h -> registry_ok r -> hub_ok (h <| h_db := db |> <| h_presence := r |>).
Proof. intros [[Hr Hf Hfl Hc Hcap Hb Hb1] Hs] Hr'. by split. Qed.

Lemma hub_eta h : h = h <| h_db := h.(h_db) |> <| h_presence := h.(h_presence) |>.
Proof. by destruct h. Qed.

Lemma db_ok h db : hub_ok h -> hub_ok (h <| h_db := db |>).
Proof. intros H. apply (elsewhere_ok h db h.(h_presence) H), H. Qed.

Lemma presence_ok h r : hub_ok h -> registry_ok r -> hub_ok (h <| h_presence := r |>).
Proof. apply (elsewhere_ok h h.(h_db) r). Qed.

(** The streams of [h] are left alone. *)
Definition grows (h h' : Hub) : Prop := hub_ok h' /\ forall id, id <> h.(h_next) -> h'.(h_streams) !! id = h.(h_streams) !! id.

(** A stream that was counted: aborted already, or started. *)
Lemma opened_ok now (aborted : bool) s p h h1 : hub_ok h -> h1 = h <| h_counts ::= jm_set s.(sm_userId) ((jm_get s.(sm_userId) h.(h_counts) ?? 0) + 1) |>
             <| h_next ::= S |> <| h_streams ::= <[h.(h_next) := s]> |> ->
  (jm_get s.(sm_userId) h.(h_counts) ?? 0) < MAX_STREAMS_PER_USER ->
  s.(sm_live) = false -> s.(sm_cleaned) = false -> s.(sm_released) = false ->
  grows h ((if aborted then cleanup now h.(h_next) else modify (start_stream now h.(h_next) s.(sm_driveId) p)) h1).2.
Proof.
  intros Hok -> Hlt Hl Hcl Hrel. pose proof (add_stream_mid s h (proj1 Hok) Hlt Hl Hcl Hrel) as Hm. set (h1 := h <| h_counts ::= _ |> <| h_next ::= _ |> <| h_streams ::= _ |>) in *.
  assert (Hs1 : h1.(h_streams) = <[h.(h_next) := s]> h.(h_streams)) by done.
  assert (Hs : h1.(h_streams) !! h.(h_next) = Some s) by (rewrite Hs1; apply lookup_insert_eq). destruct aborted.
  - destruct (cleanup_closes now _ s h1 Hm Hs Hcl) as (h' & -> & Hm' & E & _). cbn -[h1].
    rewrite Hs1, insert_insert_eq in E. split; [by apply (flags_changed h.(h_next) (closed s) h)|].
    intros id Hne. rewrite E. by apply lookup_insert_ne.
  - destruct (start_stream_mid now _ p s h1 Hm Hs Hcl Hl) as (Hm' & _ & s' & E & Hl' & Hcl' & _). cbn -[h1 start_stream].
    rewrite Hs1, insert_insert_eq in E. split; [apply (flags_changed h.(h_next) s' h); [done|done|by rewrite Hl', Hcl'|done]|].
    intros id Hne. rewrite E. by apply lookup_insert_ne.
Qed.

Lemma binding_ok now d p u sid h : hub_ok h ->
  exists o r, registry_ok r /\
    (match sid with
     | Some session =>
         if p && presenceSessionIdSchema session then closure ← at_registry (bind now d session u); mret (Some closure) else mret None
     | None => mret None
     end : HubM (option nat)) h = (o, h <| h_presence := r |>).
Proof.
  intros [[Hr _] _]. destruct sid as [session|]; [destruct (p && presenceSessionIdSchema session)|];
    [|exists (Ok None), h.(h_presence); split; [done|by destruct h]..].
  pose proof (step_ok getDisplayName (PoBind now d session u) h.(h_presence) Hr) as H. cbn in H.
  unfold at_registry, on, mbind, M_bind. destruct (bind now d session u h.(h_presence)) as [[c|e] r]; [exists (Ok (Some c)), r|exists (Throw e), r]; done.
Qed.

Lemma open_stream_ok now aborted u k o d p sid h : hub_ok h -> grows h (open_stream now aborted u k o d p sid h).2.
Proof.
  intros Hok. unfold open_stream, reads, gets, modify, mbind, M_bind. destruct (resolveContext _ _ _ _) as [ctx|e]; [|done].
  destruct (Z.leb_spec MAX_STREAMS_PER_USER (jm_get u h.(h_counts) ?? 0)) as [|Hlt]; [done|].
  destruct (binding_ok now ctx.(ctx_driveId) p u sid h Hok) as (ob & r & Hr & E). unfold mbind, M_bind in E |- *. rewrite E. clear E.
  destruct ob as [unbind|e]; [|split; [by apply presence_ok|done]].
  set (s := Build_Stream u k o ctx.(ctx_driveId) unbind None false false false []).
  pose proof (opened_ok now aborted s p (h <| h_presence := r |>) _ (presence_ok h r Hok Hr) eq_refl Hlt eq_refl eq_refl eq_refl) as H.
  cbn -[start_stream cleanup] in H |- *. destruct aborted; [|exact H].
  revert H. by destruct (cleanup _ _ _) as [[[]|e] h'].
Qed.

(** The check of a heartbeat. *)
Definition still_allowed (now : Z) (s : Stream) (db : Db) : bool :=
  match getUserByApiKey now s.(sm_apiKey) db with
  | (Ok (Some u), db') =>
      bool_decide (u.(rk_id) = s.(sm_userId)) && is_ok (resolveContext db' s.(sm_userId) (Some s.(sm_orgId)) (Some s.(sm_driveId)))
  | _ => false
  end.

Lemma heartbeat_live now id s h : h.(h_streams) !! id = Some s -> s.(sm_live) = true ->
  heartbeat now id h =
  let h1 := h <| h_db := (getUserByApiKey now s.(sm_apiKey) h.(h_db)).2 |> in
  if still_allowed now s h.(h_db) then (Ok tt, push id SsePing h1) else cleanup now id h1.
Proof.
  intros Hs Hl. unfold heartbeat, still_allowed. rewrite Hs, Hl. unfold at_db, on, gets, modify, mbind, M_bind.
  pose proof (getUserByApiKey_outcome now (sm_apiKey s) (h_db h)) as E.
  destruct (getUserByApiKey now (sm_apiKey s) (h_db h)) as [o db]. cbn in E. subst o. cbn zeta. cbn [snd fst].
  destruct (match primary_match (h_db h) _ with Some _ => _ | None => _ end) as [r|]; [|done].
  change (h_db (h <| h_db := db |>)) with db. by destruct (_ && _).
Qed.

Lemma heartbeat_beats now id s h : hub_ok h -> h.(h_streams) !! id = Some s -> s.(sm_live) = true ->
  let h' := (heartbeat now id h).2 in
  hub_ok h' /\ h'.(h_streams) = <[id := if still_allowed now s h.(h_db) then s <| sm_pending ::= fun l => l ++ [SsePing] |> else closed s]> h.(h_streams).
Proof.
  intros Hok Hs Hl. cbn zeta. rewrite (heartbeat_live now id s h Hs Hl). cbn zeta. pose proof (db_ok h (getUserByApiKey now (sm_apiKey s) (h_db h)).2 Hok) as Hok1.
  set (h1 := h <| h_db := _ |>) in *. destruct (still_allowed now s (h_db h)).
  - destruct (push_mid id SsePing s h1 (proj1 Hok1) Hs) as (Hm & E & _). split; [|exact E].
    apply (flags_changed id (s <| sm_pending ::= fun l => l ++ [SsePing] |>) h1); [done|exact E| |exact Hm].
    exact (proj2 Hok id s Hs).
  - destruct (cleanup_closes now id s h1 (proj1 Hok1) Hs) as (h' & -> & Hm & E & _).
    { by apply (ho_flags h (proj1 Hok) id s Hs). }
    split; [|exact E]. by apply (flags_changed id (closed s) h1).
Qed.

Lemma heartbeat_dead now id h : (forall s, h.(h_streams) !! id = Some s -> s.(sm_live) = false) -> (heartbeat now id h).2 = h.
Proof. intros H. unfold heartbeat. destruct (h_streams h !! id) as [s|]; [|done]. by rewrite (H s eq_refl). Qed.

Lemma push_hub_ok id msg h : hub_ok h -> hub_ok (push id msg h).
Proof.
  intros Hok. destruct (h_streams h !! id) as [s|] eqn:Hs; [|unfold push, set_stream; by rewrite Hs].
  destruct (push_mid id msg s h (proj1 Hok) Hs) as (Hm & E & _). apply (flags_changed id _ h _ Hok E); [|done]. exact (proj2 Hok id s Hs).
Qed.

Lemma push_streams id msg h id' : (push id msg h).(h_streams) !! id' =
  (if decide (id' = id) then (fun s => s <| sm_pending ::= fun l => l ++ [msg] |>) <$> h.(h_streams) !! id' else h.(h_streams) !! id').
Proof.
  unfold push, set_stream. destruct (h_streams h !! id) as [s|] eqn:Hs; case_decide as Hid; subst; rewrite ?Hs; try done; cbn.
  - by rewrite lookup_insert_eq.
  - by rewrite lookup_insert_ne.
Qed.

Lemma publish_each ids msg h : NoDup ids -> hub_ok h ->
  let h' := foldl (fun h id => push id msg h) h ids in
  hub_ok h' /\ forall id, h'.(h_streams) !! id =
    (if bool_decide (id ∈ ids) then (fun s => s <| sm_pending ::= fun l => l ++ [msg] |>) <$> h.(h_streams) !! id else h.(h_streams) !! id).
Proof.
  revert h. induction ids as [|i ids IH]; intros h Hnd Hok; [by split|]. apply NoDup_cons in Hnd as [Hi Hnd].
  destruct (IH (push i msg h) Hnd (push_hub_ok i msg h Hok)) as [H1 H2]. split; [exact H1|]. intros id. cbn. rewrite H2, push_streams.
  destruct (decide (id = i)) as [->|Hne].
  - rewrite bool_decide_false by done. by rewrite bool_decide_true by left.
  - by rewrite (bool_decide_ext (id ∈ i :: ids) (id ∈ ids)) by set_solver.
Qed.

Lemma publish_delivers ev h : hub_ok h ->
  hub_ok (publish_to_streams ev h) /\
  forall id s, h.(h_streams) !! id = Some s -> (publish_to_streams ev h).(h_streams) !! id =
    Some (if s.(sm_live) && bool_decide (s.(sm_driveId) = event_drive ev) then s <| sm_pending ::= fun l => l ++ [SseEvent ev] |> else s).
Proof.
  intros Hok. pose proof (proj1 Hok) as [_ _ _ _ _ Hb Hb1].
  destruct (publish_each (publishDriveEvent h.(h_bus) ev) (SseEvent ev) h (Hb1 _) Hok) as [H1 H2]. split; [exact H1|].
  intros id s Hs. unfold publish_to_streams. rewrite H2, Hs. cbn.
  destruct (bool_decide (id ∈ _)) eqn:E.
  - apply bool_decide_eq_true, Hb in E as (s' & Hs' & Hd & Hl). rewrite Hs in Hs'. injection Hs' as <-. by rewrite Hl, bool_decide_true.
  - apply bool_decide_eq_false in E. unfold publishDriveEvent in E. rewrite Hb in E.
    destruct (sm_live s) eqn:Hl; [|done]. rewrite bool_decide_false; [done|]. intros Hd. apply E. by exists s.
Qed.

Lemma new_hub_ok db : hub_ok (new_hub db).
Proof.
  split; [|done]. split; cbn; try done.
  - apply new_registry_ok.
  - intros d id. change ((∅ : Bus) !! d) with (None (A := list nat)). split; [by intros ?%elem_of_nil|]. by intros (s & ? & _).
  - intros d. constructor.
Qed.

Lemma hub_step_ok op h : hub_ok h -> hub_ok (hub_step op h).
Proof.
  intros Hok. destruct op; cbn -[open_stream cleanup heartbeat presence_step].
  - by apply open_stream_ok.
  - by apply cleanup_hub_ok.
  - destruct (h_streams h !! id) as [s|] eqn:Hs; [destruct (sm_live s) eqn:Hl; [by eapply heartbeat_beats|]|];
      rewrite heartbeat_dead; [done| |done|]; intros s'; congruence.
  - by apply publish_delivers.
  - by apply db_ok.
  - apply presence_ok; [done|]. apply step_ok, Hok.
Qed.

Lemma hub_run_ok ops h : hub_ok h -> hub_ok (hub_run ops h).
Proof. revert h. induction ops as [|op ops IH]; intros h Hok; [done|]. cbn. by apply IH, hub_step_ok. Qed.

(** A closed stream is closed for good: nothing more is sent to it. *)
Lemma closed_step op h id s : hub_ok h -> h.(h_streams) !! id = Some s -> s.(sm_live) = false -> (hub_step op h).(h_streams) !! id = Some s.
Proof.
  intros Hok Hs Hl. assert (Hc : s.(sm_cleaned) = true) by (pose proof (proj2 Hok id s Hs) as E; rewrite Hl in E; by destruct (sm_cleaned s)).
  destruct op; cbn -[open_stream cleanup heartbeat presence_step]; try done.
  - destruct (open_stream_ok now aborted userId apiKey orgId driveParam withPresence sessionId h Hok) as [_ ->]; [done|].
    pose proof (ho_fresh h (proj1 Hok) id s Hs). lia.
  - destruct (cleanup_ok now id0 h (proj1 Hok)) as (h' & -> & _ & _ & E). cbn. rewrite E.
    destruct (h_streams h !! id0) as [s0|] eqn:Hs0; [|done]. destruct (sm_cleaned s0) eqn:Hc0; [done|]. rewrite lookup_insert_ne; congruence.
  - destruct (h_streams h !! id0) as [s0|] eqn:Hs0; [destruct (sm_live s0) eqn:Hl0|].
    + destruct (heartbeat_beats now id0 s0 h Hok Hs0 Hl0) as [_ ->]. rewrite lookup_insert_ne; congruence.
    + rewrite heartbeat_dead; [done|]. intros x; congruence.
    + rewrite heartbeat_dead; [done|]. intros x; congruence.
  - rewrite (proj2 (publish_delivers ev h Hok) id s Hs). by rewrite Hl.
Qed.

Lemma closed_run ops h id s : hub_ok h -> h.(h_streams) !! id = Some s -> s.(sm_live) = false -> (hub_run ops h).(h_streams) !! id = Some s.
Proof.
  revert h. induction ops as [|op ops IH]; intros h Hok Hs Hl; [done|]. cbn. apply IH; [by apply hub_step_ok|by apply closed_step|done].
Qed.

(** ** What the route promises *)

Definition live_streams (u : string) (m : gmap nat Stream) : nat := size (filter (fun kv => kv.2.(sm_userId) = u /\ kv.2.(sm_live) = true) m).

Lemma live_open u h : hub_ok h -> live_streams u h.(h_streams) = open_count u h.(h_streams).
Proof.
  intros [Hm Hfl]. unfold live_streams, open_count. f_equal. apply map_filter_ext. intros id s Hs. unfold holds_slot. cbn.
  destruct (ho_flags h Hm id s Hs) as [-> _]. rewrite (Hfl id s Hs). destruct (sm_cleaned s); cbn; naive_solver.
Qed.

(** C30: The event streams of server/src/routes/events.ts, after any history of
    openings, aborts, heartbeats, published events, presence calls and writes of
    the database.  The count kept for a user is the number of the live streams
    of that user, absent at zero, and at most eight; an event published on a
    drive is appended to each live stream of that drive and to no other; a
    heartbeat pings a live stream whose key still names its user and whose user
    still reaches the drive, and otherwise closes it; and a closed stream is
    sent nothing more, whatever follows. *)
Theorem streams_bounded_and_delivered ops db :
  let h := hub_run ops (new_hub db) in
  (forall u, jm_get u h.(h_counts) = (let n := live_streams u h.(h_streams) in if decide (n = 0%nat) then None else Some (Z.of_nat n)) /\
             Z.of_nat (live_streams u h.(h_streams)) <= MAX_STREAMS_PER_USER) /\
  (forall ev id s, h.(h_streams) !! id = Some s ->
     (hub_step (HubPublish ev) h).(h_streams) !! id =
       Some (if s.(sm_live) && bool_decide (s.(sm_driveId) = event_drive ev)
             then s <| sm_pending ::= fun l => l ++ [SseEvent ev] |> else s)) /\
  (forall now id s, h.(h_streams) !! id = Some s -> s.(sm_live) = true ->
     (hub_step (HubBeat now id) h).(h_streams) =
       <[id := if still_allowed now s h.(h_db) then s <| sm_pending ::= fun l => l ++ [SsePing] |> else closed s]> h.(h_streams)) /\
  (forall ops' id s, h.(h_streams) !! id = Some s -> s.(sm_live) = false -> (hub_run ops' h).(h_streams) !! id = Some s).
Proof.
  cbn zeta. pose proof (hub_run_ok ops (new_hub db) (new_hub_ok db)) as Hok. set (h := hub_run ops (new_hub db)) in *. split_and!.
  - intros u. rewrite live_open by done. split; [apply (ho_count h (proj1 Hok))|apply (ho_cap h (proj1 Hok))].
  - intros ev id s. by apply publish_delivers.
  - intros now id s Hs Hl. by apply heartbeat_beats.
  - intros ops' id s. by apply closed_run.
Qed.
End EventStreams.
