(* ===== verification/PathNames.v ===== *)
(** * Canonical paths, as the server sees them

    JbPath's canonical paths ([render] of clean names) under the path functions of
    core/src/ops/paths.ts: how they split, what [normalizePrefix] makes of them,
    and that a drive's keys of two paths differ. *)

From S2P Require Import Prelude JsString JbPath Paths RawRoute.

Lemma split_rooted l : l <> [] -> Forall clean l -> split_on is_slash (render l) = "" :: l.
Proof.
  intros Hne Hl. unfold render. change ("/" +:+ join "/" l) with ("" +:+ String slash (join "/" l)).
  rewrite split_on_app_sep by done. by rewrite split_join.
Qed.

Lemma render_not_root l : l <> [] -> Forall clean l -> render l <> "/".
Proof. intros Hne Hl [= H]. by apply (join_nonempty l). Qed.

Lemma normalizePrefix_render f : Forall clean f -> normalizePrefix (render f) = if decide (f = []) then "/" else render f +:+ "/".
Proof.
  intros Hf. unfold normalizePrefix. rewrite (proj2 (starts_with_spec "/" (render f))) by (by eexists). case_decide as Hne; [by subst|].
  destruct (ends_with "/" (render f)) eqn:E; [|done]. exfalso. apply ends_with_spec in E as [a Ha].
  pose proof (split_rooted f Hne Hf) as Hs. rewrite Ha in Hs. change (a +:+ "/") with (a +:+ String slash "") in Hs.
  rewrite split_on_app_sep in Hs by done. cbn [split_on] in Hs.
  assert (Hin : "" ∈ f).
  { destruct (split_on is_slash a) as [|x xs] eqn:Ex; [by apply split_on_nonempty in Ex|]. cbn in Hs. injection Hs as -> <-. set_solver. }
  pose proof (proj1 (Forall_forall _ _) Hf _ Hin) as [? _]. done.
Qed.

Lemma key_inj o d p q : starts_with "/" p = true -> starts_with "/" q = true -> getS3Key o d p = getS3Key o d q -> p = q.
Proof.
  intros Hp Hq H. unfold getS3Key in H. rewrite <- (stripLeadingSlash_normalized p Hp), <- (stripLeadingSlash_normalized q Hq).
  f_equal. by apply app_inj_l_str, app_inj_l_str, app_inj_l_str, app_inj_l_str in H.
Qed.

(** The rest of a path below a folder. *)
Lemma render_split f x k : Forall clean (f ++ x :: k) -> render (f ++ x :: k) = normalizePrefix (render f) +:+ join "/" (x :: k).
Proof.
  intros Hl. pose proof (proj1 (Forall_app _ _ _) Hl) as [Hf _]. rewrite normalizePrefix_render by done. case_decide as Hne; [by subst|].
  unfold render. rewrite join_app by done. by rewrite !app_assoc_str.
Qed.

Lemma prefix_render f : Forall clean f -> exists a, normalizePrefix (render f) = a +:+ "/" /\ (a = render f \/ (a = "" /\ f = [])).
Proof. intros Hf. rewrite normalizePrefix_render by done. case_decide; [exists ""|exists (render f)]; auto. Qed.

(** The first slash of a text. *)
Lemma has_char_split c s : has_char c s = true -> exists a b, s = a +:+ String c b /\ has_char c a = false.
Proof.
  induction s as [|d s IH]; [done|]. cbn [has_char]. case_bool_decide as Hd.
  - intros _. subst d. by exists "", s.
  - intros H. destruct (IH H) as (a & b & -> & Ha). exists (String d a), b. split; [done|]. cbn [has_char]. by rewrite bool_decide_false.
Qed.

Lemma normalizePath_of_names l : Forall clean l -> l <> [] -> Paths.normalizePath (render l) = render l.
Proof.
  intros Hl Hne. rewrite <- (paths_normalize_join l Hl Hne) at 2. rewrite !normalizePath_eq. f_equal.
  destruct (join_start l Hl Hne) as (c & s & Hj & Hc). unfold render, withLeadingSlash. rewrite (proj2 (starts_with_spec "/" _)) by (by eexists).
  rewrite Hj. destruct (starts_with "/" (String c s)) eqn:E; [|done]. apply starts_with_spec in E as [q Hq]. by injection Hq as ->.
Qed.
