(* ===== verification/ShareList.v ===== *)
(** * Listing share links: core/src/ops/share-list.ts

    Who sees which links of a drive, or which links of their own, page by page and
    never with the link itself.  The theorems: the listing follows the authority
    of [shareRevoke] (a link is listed for exactly those who may revoke it, and
    [canRevoke] says whether revoking it now would), its pages are the pages of
    one list in the order of creation, and the links "covering" a path are exactly
    the site links that serve the file at that path. *)

From S2P Require Import Prelude JsString Errors JbPath Paths Schema Rbac Drives Invites Text World Share Webhooks DeliveryLog RawRoute PathNames.
#[local] Open Scope Z_scope.

Definition SHARE_LIST_DEFAULT_LIMIT : nat := 100.
Definition SHARE_LIST_MAX_LIMIT : nat := 500.

Inductive ShareScope : Type := ScopeDrive | ScopeMine.
#[export] Instance ShareScope_eq_dec : EqDecision ShareScope.
Proof. solve_decision. Defined.

Record ShareListParams : Type := {
  sl_scope : option ShareScope;
  sl_path : option string;
  sl_includeInactive : bool;
  sl_limit : option nat;
  sl_offset : option nat
}.

Inductive ShareRelation : Type := RelExact | RelCovering.

Record SharePerson : Type := { sp_userId : string; sp_email : option string; sp_displayName : option string }.

Record ShareListItem : Type := {
  si_id : string;
  si_drive : string * option string;
  si_path : string;
  si_kind : ShareKind;
  si_relation : option ShareRelation;
  si_status : ShareState;
  si_createdAt : string;
  si_createdBy : SharePerson;
  si_expiresAt : option string;
  si_views : Z;
  si_maxViews : option Z;
  si_lastViewedAt : option string;
  si_revokedAt : option string;
  si_revokedBy : option SharePerson;
  si_canRevoke : bool;
  si_appUrl : option string
}.

Inductive ShareVisibility : Type := VisAll | VisOwn.

Record ShareListResult : Type := {
  sr_shares : list ShareListItem;
  sr_total : nat;
  sr_limit : nat;
  sr_offset : nat;
  sr_scope : ShareScope;
  sr_visibility : ShareVisibility
}.

(** [parts.slice(0, i)] for [i] from [parts.length - 1] down to 1, then the root. *)
Definition coveringFolders (path : string) : list string :=
  let parts := filter (fun s => s <> "") (split_on is_slash path) in
  let out := (fun i => "/" +:+ join "/" (take i parts)) <$> rev (seq 1 (length parts - 1)) in
  if bool_decide (path = "/") then out else out ++ ["/"].

Section ShareList.
Context {rt : Runtime}.

(** The active links, as the query selects them: dates compare in seconds. *)
Definition sql_active (now : Z) (s : Share) : Prop :=
  s.(share_revokedAt) = None /\ ts_sec now < s.(share_expiresAt) /\
  match s.(share_maxViews) with None => True | Some m => s.(share_views) < m end.
#[export] Instance sql_active_dec now s : Decision (sql_active now s).
Proof. unfold sql_active. destruct (share_maxViews s); apply _. Defined.

(** On the path itself, or a folder link above it. *)
Definition on_path (path : string) (s : Share) : Prop :=
  s.(share_path) = path \/ (s.(share_kind) = ShareSite /\ s.(share_path) ∈ coveringFolders path).
#[export] Instance on_path_dec path s : Decision (on_path path s).
Proof. unfold on_path. apply _. Defined.

Definition drive_scope (ctx : OpContext) (admin : bool) (path : option string) (s : Share) : Prop :=
  s.(share_driveId) = ctx.(op_driveId) /\ (admin = false -> s.(share_createdBy) = ctx.(op_userId)) /\
  match path with None => True | Some path => on_path path s end.
#[export] Instance drive_scope_dec ctx admin path s : Decision (drive_scope ctx admin path s).
Proof. unfold drive_scope. destruct path; apply _. Defined.

Definition mine_scope (ctx : OpContext) (driveIds : list string) (s : Share) : Prop :=
  s.(share_orgId) = ctx.(op_orgId) /\ s.(share_createdBy) = ctx.(op_userId) /\ s.(share_driveId) ∈ driveIds.
#[export] Instance mine_scope_dec ctx ids s : Decision (mine_scope ctx ids s).
Proof. unfold mine_scope. apply _. Defined.

(** [ORDER BY created_at DESC, id DESC]. *)
Definition share_order (a b : Share) : bool :=
  (b.(share_createdAt) <? a.(share_createdAt)) ||
  ((a.(share_createdAt) =? b.(share_createdAt)) && string_le b.(share_id) a.(share_id)).

Definition share_person (db : Db) (userId : string) : SharePerson :=
  let row := get_row (fun u => u.(usr_id) = userId) db.(users) in
  {| sp_userId := userId; sp_email := usr_email <$> row; sp_displayName := u ← row; u.(usr_displayName) |}.

Definition share_item (now : Z) (db : Db) (ctx : OpContext) (admin : bool) (path : option string) (row : Share) : ShareListItem :=
  let status := getShareState (toRecord row) now in {|
    si_id := row.(share_id);
    si_drive := (row.(share_driveId), drv_name <$> get_row (fun d => d.(drv_id) = row.(share_driveId)) db.(drives));
    si_path := row.(share_path);
    si_kind := row.(share_kind);
    si_relation := (fun path => if bool_decide (row.(share_path) = path) then RelExact else RelCovering) <$> path;
    si_status := status;
    si_createdAt := toISOString row.(share_createdAt);
    si_createdBy := share_person db row.(share_createdBy);
    si_expiresAt := if row.(share_neverExpires) then None else Some (toISOString row.(share_expiresAt));
    si_views := row.(share_views);
    si_maxViews := row.(share_maxViews);
    si_lastViewedAt := toISOString <$> row.(share_lastViewedAt);
    si_revokedAt := toISOString <$> row.(share_revokedAt);
    si_revokedBy := share_person db <$> truthy row.(share_revokedBy);
    si_canRevoke := negb (bool_decide (status = StRevoked)) && (bool_decide (row.(share_createdBy) = ctx.(op_userId)) || admin);
    si_appUrl := (fun url => buildAppUrl url ctx.(op_orgId) row.(share_driveId) row.(share_path)) <$> truthy ctx.(op_appUrl)
  |}.

Definition quoted (s : string) : string := String (chr 34) (s +:+ String (chr 34) "").

(** The path of the parameters, or its error. *)
Definition share_list_path (scope : ShareScope) (path : option string) : outcome error (option string) :=
  match path with
  | None => Ok None
  | Some p =>
      match scope with
      | ScopeMine => Throw (ValidationError ("path cannot be combined with scope " +:+ quoted "mine") (Some "path")
          (Some "Drop path to list all your links, or use the drive scope to list the links on one path"))
      | ScopeDrive =>
          let path := Paths.normalizePath p in
          _ ← assertPathInsideDrive path;
          Ok (Some path)
      end
  end.

(** The page of the rows that [where] selects. *)
Definition share_page (now : Z) (db : Db) (ctx : OpContext) (params : ShareListParams) (scope : ShareScope) (visibility : ShareVisibility)
    (admin : bool) (path : option string) (scoped : list Share) : ShareListResult :=
  let rows := filter (fun s => params.(sl_includeInactive) = false -> sql_active now s) scoped in
  let limit := params.(sl_limit) ?? SHARE_LIST_DEFAULT_LIMIT in
  let offset := params.(sl_offset) ?? 0%nat in
  {| sr_shares := share_item now db ctx admin path <$> take limit (drop offset (sort_by share_order rows));
     sr_total := length rows; sr_limit := limit; sr_offset := offset; sr_scope := scope; sr_visibility := visibility |}.

Definition shareList (now : Z) (db : Db) (ctx : OpContext) (params : ShareListParams) : outcome error ShareListResult :=
  let scope := params.(sl_scope) ?? ScopeDrive in
  path ← share_list_path scope params.(sl_path);
  match scope with
  | ScopeMine =>
      let driveIds := (fun d => d.1.1) <$> listDrivesForUser db ctx.(op_orgId) ctx.(op_userId) in
      if bool_decide (driveIds = []) then
        Ok {| sr_shares := []; sr_total := 0; sr_limit := params.(sl_limit) ?? SHARE_LIST_DEFAULT_LIMIT;
              sr_offset := params.(sl_offset) ?? 0%nat; sr_scope := scope; sr_visibility := VisOwn |}
      else Ok (share_page now db ctx params scope VisOwn false path (filter (mine_scope ctx driveIds) db.(shares)))
  | ScopeDrive =>
      let admin := is_share_admin db ctx in
      Ok (share_page now db ctx params scope (if admin then VisAll else VisOwn) admin path
            (filter (drive_scope ctx admin path) db.(shares)))
  end.

(** ** Lemmas *)

Lemma sql_active_state now s : ts_sec s.(share_expiresAt) = s.(share_expiresAt) ->
  sql_active now s <-> getShareState (toRecord s) now = StActive.
Proof.
  intros He. unfold getShareState, sql_active. cbn. rewrite (ts_sec_lt_iff now _ He).
  destruct (share_revokedAt s); [naive_solver|]. destruct (Z.leb_spec (share_expiresAt s) now); [split; [lia|done]|].
  destruct (share_maxViews s) as [m|]; [|naive_solver]. destruct (Z.leb_spec m (share_views s)); naive_solver lia.
Qed.

Lemma state_revoked now s : getShareState (toRecord s) now = StRevoked <-> s.(share_revokedAt) <> None.
Proof.
  unfold getShareState. cbn. destruct (share_revokedAt s); [done|]. split; [|done].
  destruct (_ <=? _); [done|]. destruct (share_maxViews s); [by destruct (_ <=? _)|done].
Qed.

Lemma filter_unique {A K} (key : A -> K) (P : A -> Prop) `{forall x, Decision (P x)} (l : list A) a :
  NoDup (key <$> l) -> a ∈ l -> P a -> (forall b, P b -> key b = key a) -> filter P l = [a].
Proof.
  induction l as [|c l IH]; intros Hnd Ha HP Hk; [by apply elem_of_nil in Ha|]. cbn in Hnd. apply NoDup_cons in Hnd as [Hc Hnd].
  apply elem_of_cons in Ha as [->|Ha].
  - rewrite filter_cons_True by done. f_equal. apply filter_none. intros x Hx HPx. apply Hc. rewrite <- (Hk x HPx). by apply list_elem_of_fmap_2.
  - rewrite filter_cons_False; [by apply IH|]. intros HPc. apply Hc. rewrite (Hk c HPc). by apply list_elem_of_fmap_2.
Qed.

(** The same call on another drive. *)
Definition on_drive (driveId : string) (ctx : OpContext) : OpContext :=
  Build_OpContext ctx.(op_orgId) driveId ctx.(op_userId) ctx.(op_embeddingProvider) ctx.(op_appUrl) ctx.(op_apiUrl) ctx.(op_apiUrlSource).

Lemma on_same_drive ctx : on_drive ctx.(op_driveId) ctx = ctx.
Proof. by destruct ctx. Qed.

Definition by_id (id : string) : ShareRevokeParams := {| sv_id := Some id; sv_token := None; sv_path := None |}.

Lemma revoke_by_id now db ctx s : shares_keyed db -> s ∈ db.(shares) -> s.(share_driveId) = ctx.(op_driveId) -> may_revoke db ctx s ->
  (shareRevoke now ctx (by_id s.(share_id)) db).1 = Ok (match s.(share_revokedAt) with None => [s.(share_id)] | Some _ => [] end).
Proof.
  intros Hk Hs Hd Hm. pose proof (shareRevoke_exact now ctx (by_id s.(share_id)) db Hk) as H. cbn [named_shares by_id sv_id sv_token sv_path] in H.
  assert (E : filter (fun x => x.(share_id) = s.(share_id) /\ x.(share_driveId) = ctx.(op_driveId)) db.(shares) = [s]).
  { apply (filter_unique share_id); [apply Hk|done|done|]. intros x [Hx _]. exact Hx. }
  rewrite E in H. cbv zeta in H. rewrite filter_cons_True, filter_nil in H by done. destruct H as [_ H].
  rewrite decide_False in H by done. rewrite H. cbn [fst]. f_equal.
  destruct (share_revokedAt s) eqn:Er; [rewrite filter_cons_False by congruence|rewrite filter_cons_True by done]; by rewrite filter_nil.
Qed.

Lemma share_order_total a b : share_order a b = true \/ share_order b a = true.
Proof.
  unfold share_order. destruct (Z.ltb_spec b.(share_createdAt) a.(share_createdAt)); [by left|].
  destruct (Z.ltb_spec a.(share_createdAt) b.(share_createdAt)); [by right|].
  rewrite !(proj2 (Z.eqb_eq _ _)) by lia. apply string_le_total.
Qed.

Lemma elem_of_member_drives db org user d :
  d ∈ ((fun d => d.1.1) <$> listDrivesForUser db org user) <->
  exists drive m, drive ∈ db.(drives) /\ drive.(drv_id) = d /\ drive.(drv_orgId) = org /\ m ∈ db.(driveMembers) /\ is_drive_member d user m.
Proof.
  unfold listDrivesForUser. rewrite list_elem_of_fmap. split.
  - intros ([[i n] b] & -> & Hx). apply list_elem_of_bind in Hx as (drive & Hx & Hd). apply list_elem_of_fmap in Hx as (m & [= -> -> ->] & Hm).
    apply list_elem_of_filter in Hm as [Hm Hin], Hd as [Ho Hd]. exists drive, m. done.
  - intros (drive & m & Hd & <- & Ho & Hm & Hmm). exists (drive_info drive). split; [done|].
    apply list_elem_of_bind. exists drive. split; [|by apply list_elem_of_filter].
    apply list_elem_of_fmap. exists m. split; [done|]. by apply list_elem_of_filter.
Qed.

(** What each scope lists, said of one row. *)
Definition lists (now : Z) (db : Db) (ctx : OpContext) (params : ShareListParams) (s : Share) : Prop :=
  s ∈ db.(shares) /\ (params.(sl_includeInactive) = true \/ getShareState (toRecord s) now = StActive) /\
  match params.(sl_scope) ?? ScopeDrive with
  | ScopeDrive => s.(share_driveId) = ctx.(op_driveId) /\ may_revoke db ctx s /\
                  match params.(sl_path) with None => True | Some p => on_path (Paths.normalizePath p) s end
  | ScopeMine => s.(share_createdBy) = ctx.(op_userId) /\ s.(share_orgId) = ctx.(op_orgId) /\
                 exists drive m, drive ∈ db.(drives) /\ drive.(drv_id) = s.(share_driveId) /\ drive.(drv_orgId) = ctx.(op_orgId) /\
                                 m ∈ db.(driveMembers) /\ is_drive_member s.(share_driveId) ctx.(op_userId) m
  end.

Definition paged (params : ShareListParams) (limit offset : option nat) : ShareListParams :=
  {| sl_scope := params.(sl_scope); sl_path := params.(sl_path); sl_includeInactive := params.(sl_includeInactive);
     sl_limit := limit; sl_offset := offset |}.

(** The rows in order, whatever the page. *)
Definition all_rows (now : Z) (db : Db) (ctx : OpContext) (params : ShareListParams) : list Share :=
  let active := filter (fun s => params.(sl_includeInactive) = false -> sql_active now s) in
  sort_by share_order (active (match params.(sl_scope) ?? ScopeDrive with
    | ScopeDrive => filter (drive_scope ctx (is_share_admin db ctx) (Paths.normalizePath <$> params.(sl_path))) db.(shares)
    | ScopeMine => filter (mine_scope ctx ((fun d => d.1.1) <$> listDrivesForUser db ctx.(op_orgId) ctx.(op_userId))) db.(shares)
    end)).

Definition list_admin (db : Db) (ctx : OpContext) (params : ShareListParams) : bool :=
  match params.(sl_scope) ?? ScopeDrive with ScopeDrive => is_share_admin db ctx | ScopeMine => false end.

Lemma shareList_pages now db ctx params r : shareList now db ctx params = Ok r ->
  forall limit offset, exists r', shareList now db ctx (paged params limit offset) = Ok r' /\
    r'.(sr_total) = length (all_rows now db ctx params) /\
    r'.(sr_shares) = share_item now db ctx (list_admin db ctx params) (Paths.normalizePath <$> params.(sl_path)) <$>
                       take (limit ?? SHARE_LIST_DEFAULT_LIMIT) (drop (offset ?? 0%nat) (all_rows now db ctx params)).
Proof.
  intros H limit offset. unfold shareList in *. cbn [paged sl_scope sl_path]. unfold all_rows, list_admin.
  destruct (share_list_path (sl_scope params ?? ScopeDrive) (sl_path params)) as [path|e] eqn:Ep; [|done].
  assert (Hpath : path = Paths.normalizePath <$> params.(sl_path)).
  { revert Ep. unfold share_list_path. destruct (sl_path params) as [p|]; [|by intros [= <-]]. destruct (sl_scope params ?? ScopeDrive); [|done].
    cbn. destruct (assertPathInsideDrive _); [|done]. by intros [= <-]. }
  cbn [mbind outcome_bind] in *. destruct (sl_scope params ?? ScopeDrive).
  - eexists. split; [reflexivity|]. cbn [sr_total sr_shares share_page]. rewrite Hpath. split; [|done]. symmetry. apply Permutation_length, sort_by_perm.
  - destruct (bool_decide _) eqn:E.
    + apply bool_decide_eq_true in E. eexists. split; [reflexivity|]. cbn. rewrite E.
      rewrite (filter_none (mine_scope ctx []) db.(shares)) by (intros x _ (_ & _ & ?%elem_of_nil); done).
      rewrite filter_nil. cbn [sort_by foldr]. by rewrite drop_nil, take_nil.
    + eexists. split; [reflexivity|]. cbn [sr_total sr_shares share_page]. rewrite Hpath. split; [|done]. symmetry. apply Permutation_length, sort_by_perm.
Qed.

Lemma elem_of_all_rows now db ctx params s : (forall s, s ∈ db.(shares) -> ts_sec s.(share_expiresAt) = s.(share_expiresAt)) ->
  s ∈ all_rows now db ctx params <-> lists now db ctx params s.
Proof.
  intros Hsec. unfold all_rows, lists. rewrite elem_of_sort_by, list_elem_of_filter.
  assert (Ha : s ∈ db.(shares) -> (params.(sl_includeInactive) = false -> sql_active now s) <->
    (params.(sl_includeInactive) = true \/ getShareState (toRecord s) now = StActive)).
  { intros Hs. rewrite (sql_active_state now s (Hsec s Hs)). destruct (sl_includeInactive params); naive_solver. }
  destruct (sl_scope params ?? ScopeDrive); rewrite list_elem_of_filter.
  - assert (Hm : (is_share_admin db ctx = false -> s.(share_createdBy) = ctx.(op_userId)) <-> may_revoke db ctx s).
    { unfold may_revoke. destruct (is_share_admin db ctx); naive_solver. }
    unfold drive_scope. rewrite Hm. destruct (sl_path params); cbn [fmap option_fmap option_map]; tauto.
  - unfold mine_scope. rewrite elem_of_member_drives. tauto.
Qed.

Lemma item_revocable now db ctx params s : shares_keyed db -> lists now db ctx params s ->
  let item := share_item now db ctx (list_admin db ctx params) (Paths.normalizePath <$> params.(sl_path)) s in
  item.(si_canRevoke) = true <-> (shareRevoke now (on_drive s.(share_driveId) ctx) (by_id s.(share_id)) db).1 = Ok [s.(share_id)].
Proof.
  intros Hk (Hs & _ & Hscope). cbn zeta. cbn [share_item si_canRevoke].
  assert (Hown : may_revoke db (on_drive s.(share_driveId) ctx) s /\
                 bool_decide (s.(share_createdBy) = ctx.(op_userId)) || list_admin db ctx params = true).
  { unfold list_admin. destruct (sl_scope params ?? ScopeDrive).
    - destruct Hscope as (-> & Hm & _). rewrite on_same_drive. split; [done|]. apply orb_true_iff.
      destruct Hm as [->|Hm]; [by right|]. left. by apply bool_decide_eq_true.
    - destruct Hscope as (Hm & _). split; [by right|]. by rewrite bool_decide_true. }
  destruct Hown as [Hm ->]. rewrite andb_true_r, (revoke_by_id now db (on_drive s.(share_driveId) ctx) s) by done.
  rewrite negb_true_iff, bool_decide_eq_false, state_revoked. destruct (share_revokedAt s); naive_solver.
Qed.

(** *** Covering links *)

Lemma covering_render l : Forall clean l -> coveringFolders (render l) = (fun i => render (take i l)) <$> rev (seq 0 (length l)).
Proof.
  intros Hl. destruct (decide (l = [])) as [->|Hne]; [done|]. unfold coveringFolders. rewrite split_rooted by done.
  rewrite filter_cons_False by tauto. rewrite filter_all by (intros x Hx; by apply (proj1 (Forall_forall _ _) Hl)).
  rewrite bool_decide_false by by apply render_not_root. destruct (length l) as [|n] eqn:E; [by destruct l|].
  cbn [seq rev]. rewrite Nat.sub_succ, Nat.sub_0_r, fmap_app. done.
Qed.

Lemma elem_of_covering l f : Forall clean l -> f ∈ coveringFolders (render l) <-> exists i, (i < length l)%nat /\ f = render (take i l).
Proof.
  intros Hl. rewrite covering_render by done. rewrite list_elem_of_fmap. split.
  - intros (i & -> & Hi). apply list_elem_of_In, in_rev, list_elem_of_In, elem_of_seq in Hi. exists i. split; [lia|done].
  - intros (i & Hi & ->). exists i. split; [done|]. apply list_elem_of_In; rewrite <- in_rev; apply list_elem_of_In, elem_of_seq; lia.
Qed.

(** What follows a slash of well-formed text is well-formed. *)
Lemma decode_after_slash a b need lo hi pend : (128 <= lo)%nat ->
  (decode_from need lo hi pend (a +:+ String slash b)).2 = false -> (decode_from 0 128 191 "" b).2 = false.
Proof.
  revert need lo hi pend. induction a as [|c a IH]; intros need lo hi pend Hlo.
  - destruct need as [|k]; [done|]. cbn [String.append decode_from]. change (Ascii.nat_of_ascii slash) with 47%nat.
    destruct (Nat.leb_spec lo 47); [lia|done].
  - cbn [String.append decode_from]. cbv zeta. set (n := Ascii.nat_of_ascii c).
    assert (Hstart : (if (n <? 128)%nat then (String c (decode_from 0 128 191 "" (a +:+ String slash b)).1, (decode_from 0 128 191 "" (a +:+ String slash b)).2)
       else if ((194 <=? n) && (n <=? 223))%nat then decode_from 1 128 191 (String c "") (a +:+ String slash b)
       else if ((224 <=? n) && (n <=? 239))%nat then
         decode_from 2 (if (n =? 224)%nat then 160 else 128) (if (n =? 237)%nat then 159 else 191) (String c "") (a +:+ String slash b)
       else if ((240 <=? n) && (n <=? 244))%nat then
         decode_from 3 (if (n =? 240)%nat then 144 else 128) (if (n =? 244)%nat then 143 else 191) (String c "") (a +:+ String slash b)
       else (replacement +:+ (decode_from 0 128 191 "" (a +:+ String slash b)).1, true)).2 = false -> (decode_from 0 128 191 "" b).2 = false).
    { destruct (n <? 128)%nat; [apply IH; lia|]. destruct (_ && _); [apply IH; lia|]. destruct (_ && _); [apply IH; destruct (n =? 224)%nat; lia|].
      destruct (_ && _); [apply IH; destruct (n =? 240)%nat; lia|done]. }
    destruct need as [|k]; [exact Hstart|]. destruct (Nat.leb lo n && Nat.leb n hi); [|done]. destruct k; [apply IH; lia|apply IH; lia].
Qed.

Lemma well_formed_suffix a b : well_formed (a +:+ "/" +:+ b) = true -> well_formed b = true.
Proof. unfold well_formed. rewrite !negb_true_iff. by apply decode_after_slash. Qed.

Lemma drop_slashes_clean c s : c <> slash -> drop_slashes (String c s) = String c s.
Proof. intros Hc. cbn. by rewrite bool_decide_false. Qed.

Lemma inside_split a b : assertPathInsideDrive (a +:+ "/" +:+ b) = Ok tt -> assertPathInsideDrive a = Ok tt /\ assertPathInsideDrive b = Ok tt.
Proof.
  rewrite !assertPathInsideDrive_ok. change ("/" +:+ b) with (String slash b). rewrite has_char_app.
  change (has_char nul (String slash b)) with (has_char nul b). unfold has_dot_segment. rewrite split_on_app_sep by done.
  rewrite existsb_app. rewrite !orb_false_iff. tauto.
Qed.

Lemma drop_slashes_join l : Forall clean l -> drop_slashes (join "/" l) = join "/" l.
Proof.
  intros Hl. destruct (decide (l = [])) as [->|Hne]; [done|]. destruct (join_start l Hl Hne) as (c & s & -> & Hc). by apply drop_slashes_clean.
Qed.

(** What [drop_slashes] leaves does not start with a slash. *)
Lemma drop_slashes_start s : starts_with "/" (drop_slashes s) = false.
Proof.
  induction s as [|c s IH]; [done|]. cbn [drop_slashes]. case_bool_decide as Hc; [done|].
  destruct (starts_with "/" (String c s)) eqn:E; [|done]. apply starts_with_spec in E as [q Hq]. by injection Hq as -> _.
Qed.

(** ** Theorems *)

(** The listing of share links follows the authority of [shareRevoke], and
    its pages are pages of one list.  Whatever the page asked for, a listing that
    succeeds takes its items from one list, in the order of creation (newest
    first), each link once, whose length is [total]; in that list are exactly the
    links of the drive that the caller may revoke (in the scope of the caller,
    the caller's links in the drives where the caller is a member now), active
    unless inactive links are asked for; and an item can be revoked, by the
    caller, on the drive it names, exactly when it says so. *)
Theorem share_list_follows_authority now db ctx params r :
  shares_keyed db -> (forall s, s ∈ db.(shares) -> ts_sec s.(share_expiresAt) = s.(share_expiresAt)) ->
  shareList now db ctx params = Ok r ->
  exists all : list Share,
    NoDup all /\ Sorted (fun a b => share_order a b = true) all /\ (forall s, s ∈ all <-> lists now db ctx params s) /\
    forall limit offset, exists r', shareList now db ctx (paged params limit offset) = Ok r' /\
      r'.(sr_total) = length all /\
      Forall2 (fun s item => item.(si_id) = s.(share_id) /\ item.(si_drive).1 = s.(share_driveId) /\
                 item.(si_status) = getShareState (toRecord s) now /\
                 (item.(si_canRevoke) = true <->
                  (shareRevoke now (on_drive item.(si_drive).1 ctx) (by_id item.(si_id)) db).1 = Ok [item.(si_id)]))
        (take (limit ?? SHARE_LIST_DEFAULT_LIMIT) (drop (offset ?? 0%nat) all)) r'.(sr_shares).
Proof.
  intros Hk Hsec Hr. exists (all_rows now db ctx params).
  assert (Hall : forall s, s ∈ all_rows now db ctx params <-> lists now db ctx params s) by (intros s; by apply elem_of_all_rows).
  split_and!; [| |exact Hall|].
  - unfold all_rows. rewrite sort_by_perm. apply NoDup_filter.
    assert (Hnd : NoDup db.(shares)) by (apply (NoDup_fmap_1 share_id), Hk).
    destruct (sl_scope params ?? ScopeDrive); by apply NoDup_filter.
  - apply sort_by_sorted, share_order_total.
  - intros limit offset. destruct (shareList_pages now db ctx params r Hr limit offset) as (r' & E & Ht & Hs).
    exists r'. split; [done|]. split; [done|]. rewrite Hs. apply Forall2_fmap_r, Forall_Forall2_diag, Forall_forall. intros s Hin.
    assert (Hl : lists now db ctx params s).
    { apply Hall. apply (elem_of_sublist _ _ _ Hin). etransitivity; [apply sublist_take|apply sublist_drop]. }
    split_and!; [done..|]. by apply item_revocable.
Qed.

(** With a path, the listing finds the site links that publish the file at
    that path: a site link's folder is one of the covering folders exactly when
    some request path under the link leads to that file's storage key. *)
Theorem covering_links_serve s f l : Forall clean f -> Forall clean l -> l <> [] -> well_formed (render l) = true ->
  assertPathInsideDrive (render l) = Ok tt -> s.(share_kind) = ShareSite -> s.(share_path) = render f ->
  s.(share_path) ∈ coveringFolders (render l) <->
  exists rest, siteObjectKey (toRecord s) rest = Some (getS3Key s.(share_orgId) s.(share_driveId) (render l)).
Proof.
  intros Hf Hl Hne Hw Hin Hk Hp. rewrite Hp, elem_of_covering by done. unfold siteObjectKey. cbn [toRecord sh_kind sh_path sh_orgId sh_driveId].
  rewrite Hk, Hp, bool_decide_true by done. cbn [negb]. split.
  - intros (i & Hi & Hfi). apply render_clean_inj in Hfi; [|done|by apply Forall_take]. subst f.
    destruct (drop i l) as [|x k] eqn:Ed; [apply (f_equal length) in Ed; rewrite length_drop in Ed; cbn in Ed; lia|].
    assert (El : l = take i l ++ x :: k) by (by rewrite <- Ed, take_drop).
    assert (Hpath : render l = normalizePrefix (render (take i l)) +:+ join "/" (x :: k)) by (rewrite El at 1; apply render_split; by rewrite <- El).
    assert (Htail : Forall clean (x :: k)) by (rewrite <- Ed; by apply Forall_drop).
    destruct (prefix_render (take i l) Hf) as (pre & Ha & Hroot). rewrite Ha, app_assoc_str in Hpath. rewrite Hpath in Hw, Hin.
    destruct (inside_split _ _ Hin) as [Hfolder Hrest].
    exists (encodeURIComponent (join "/" (x :: k))). unfold encodeURIComponent.
    rewrite decodeURIComponent_encode by (done || by eapply well_formed_suffix).
    assert (Hroot' : assertPathInsideDrive (render (take i l)) = Ok tt) by (destruct Hroot as [<-|[_ ->]]; [done|by vm_compute]).
    by rewrite Hroot', Hrest, drop_slashes_join, Ha, app_assoc_str, Hpath.
  - intros [rest H]. destruct (decodeURIComponent rest) as [decoded|]; [|done].
    destruct (assertPathInsideDrive (render f)); [|done]. destruct (assertPathInsideDrive decoded); [|done]. injection H as H.
    destruct (prefix_render f Hf) as (pre & Ha & Hroot). rewrite Ha, app_assoc_str in H.
    assert (Hpath : pre +:+ "/" +:+ drop_slashes decoded = render l).
    { apply key_inj in H; [done| |apply starts_with_spec; by eexists]. apply starts_with_spec.
      destruct Hroot as [->|[-> _]]; eexists; [|reflexivity]. unfold render. by rewrite app_assoc_str. }
    assert (Hsplit : f ++ split_on is_slash (drop_slashes decoded) = l).
    { pose proof (f_equal (split_on is_slash) Hpath) as Hs. rewrite (split_rooted l Hne Hl) in Hs.
      change ("/" +:+ drop_slashes decoded) with (String slash (drop_slashes decoded)) in Hs. rewrite split_on_app_sep in Hs by done.
      destruct (decide (f = [])) as [->|Hfne].
      - destruct Hroot as [->|[-> _]]; [|by injection Hs as Hs]. exfalso. cbn in Hs. injection Hs as Hs.
        assert (Hin' : "" ∈ l) by (rewrite <- Hs; by left). by pose proof (proj1 (Forall_forall _ _) Hl _ Hin') as [? _].
      - destruct Hroot as [->|[_ ?]]; [|done]. rewrite (split_rooted f Hfne Hf) in Hs. by injection Hs. }
    exists (length f). split; [|by rewrite <- Hsplit, take_app_length].
    rewrite <- Hsplit, length_app. pose proof (split_on_nonempty is_slash (drop_slashes decoded)).
    destruct (split_on is_slash (drop_slashes decoded)); [done|cbn; lia].
Qed.

(** ** Witnesses *)

Definition listing : ShareListParams := {| sl_scope := None; sl_path := None; sl_includeInactive := false; sl_limit := None; sl_offset := None |}.

Definition lister : OpContext := Build_OpContext "o1" "d1" "u1" None None None None.

Definition sample_site : Share :=
  Build_Share "s2" "o1" "d1" "/a" ShareSite "hash" 90000 false None 0 None "u1" 0 None None.

Lemma covering_links_serve_witness :
  sample_site.(share_path) ∈ coveringFolders (render ["a"; "b%.md"]) <->
  exists rest, siteObjectKey (toRecord sample_site) rest = Some (getS3Key "o1" "d1" (render ["a"; "b%.md"])).
Proof.
  apply (covering_links_serve sample_site ["a"]); [repeat constructor; try discriminate; reflexivity..|discriminate| | | |]; vm_compute; reflexivity.
Defined.
End ShareList.

Lemma share_list_follows_authority_witness :
  exists all, NoDup all /\ length all = 1%nat /\ forall s, s ∈ all <-> lists 5000 sample_shares lister listing s.
Proof.
  destruct (share_list_follows_authority (rt := ascii_runtime) 5000 sample_shares lister listing
              (match shareList 5000 sample_shares lister listing with Ok r => r | Throw _ =>
                 {| sr_shares := []; sr_total := 0; sr_limit := 0; sr_offset := 0; sr_scope := ScopeDrive; sr_visibility := VisAll |} end))
    as (all & H1 & _ & H2 & H3).
  - split; apply NoDup_singleton.
  - intros s Hs. apply list_elem_of_singleton in Hs as ->. reflexivity.
  - reflexivity.
  - exists all. split; [exact H1|]. split; [|exact H2]. destruct (H3 None None) as (r' & E & Ht & _).
    rewrite <- Ht. vm_compute in E. injection E as <-. reflexivity.
Defined.
