(* ===== verification/Listing.v ===== *)
(** * Listings: core/src/ops/ls.ts, tree.ts, reveal.ts, log.ts, recent.ts

    What a drive holds, as a listing of the storage with the metadata of the
    database; what the listings show is proved in ListSpec.  Here: [LIKE], the
    ops, and the trees: a tree has the inserted files as its leaves and the
    folders above them as its folders, each once ([build_tree_spec]). *)

From S2P Require Import Prelude JsString Errors Paths Schema Rbac Drives Storage GlobCache World Outbox Search Versioning Favorites FileOps.

(** ** SQL's [LIKE]

    Percent matches any text and underscore one character; ASCII letters match
    in either case. *)

Definition is_continuation (c : ascii) : bool := let n := Ascii.nat_of_ascii c in Nat.leb 128 n && Nat.ltb n 192.

Fixpoint drop_continuation (s : string) : string :=
  match s with String c s' => if is_continuation c then drop_continuation s' else s | EmptyString => EmptyString end.

Fixpoint sql_like (pattern : string) : string -> bool :=
  match pattern with
  | EmptyString => fun s => bool_decide (s = "")
  | String c p =>
      if bool_decide (c = "%"%char) then
        fix any s := sql_like p s || match s with EmptyString => false | String _ s' => any s' end
      else if bool_decide (c = "_"%char) then
        fun s => match s with
        | EmptyString => false
        | String d s' => sql_like p (if Nat.ltb (Ascii.nat_of_ascii d) 128 then s' else drop_continuation s')
        end
      else
        fun s => match s with
        | EmptyString => false
        | String d s' => bool_decide (lower_ascii_char c = lower_ascii_char d) && sql_like p s'
        end
  end.

(** ** The rows of a listing *)

Definition is_listed_row (driveId prefix : string) (f : File) : Prop :=
  f.(file_driveId) = driveId /\ sql_like (prefix +:+ "%") f.(file_path) = true /\ f.(file_isDeleted) = false.
#[export] Instance is_listed_row_dec d p f : Decision (is_listed_row d p f).
Proof. unfold is_listed_row. apply _. Defined.

(** [new Map(dbFiles.map((f) => [f.path, f]))]. *)
Definition db_file_map (db : Db) (driveId prefix : string) : list (string * File) :=
  (fun f => (f.(file_path), f)) <$> filter (is_listed_row driveId prefix) db.(files).

(** ** ls.ts *)

Record LsEntry : Type := {
  ls_name : string;
  ls_type : EntryKind;
  ls_size : Z;
  ls_author : option string;
  ls_modifiedAt : option Z
}.

Definition ls_directory (name : string) : LsEntry :=
  {| ls_name := name; ls_type := KindDirectory; ls_size := 0; ls_author := None; ls_modifiedAt := None |}.

(** [replace(/\/$/, "")]. *)
Definition drop_end_slash (s : string) : string := if ends_with "/" s then drop_last_char s else s.

Definition ls_prefix_entry (s3Prefix dirPrefix : string) : option LsEntry :=
  let dirName := drop_end_slash (drop_str (String.length s3Prefix) dirPrefix) in
  if bool_decide (dirName = "") then None else Some (ls_directory dirName).

Definition ls_object_entry (prefix s3Prefix : string) (dbFiles : list (string * File)) (obj : S3Object) : option LsEntry :=
  let relativePath := drop_str (String.length s3Prefix) obj.(so_key) in
  if bool_decide (relativePath = "") then None
  else if ends_with "/" relativePath then Some (ls_directory (drop_last_char relativePath))
  else
    let dbFile := map_get dbFiles (prefix +:+ relativePath) in
    Some {| ls_name := relativePath; ls_type := KindFile;
            ls_size := (file_size <$> dbFile) ?? obj.(so_size);
            ls_author := file_author <$> dbFile;
            ls_modifiedAt := match dbFile with Some f => Some f.(file_modifiedAt) | None => obj.(so_lastModified) end |}.

Section Ls.
Context {Store : Type} {SA : StorageAdapter Store}.

Definition ls (ctx : OpContext) (path : option string) : OpM Store (list LsEntry) :=
  let prefix := normalizePrefix (path ?? "/") in
  let s3Prefix := getS3Key ctx.(op_orgId) ctx.(op_driveId) prefix in
  listing ← in_store (listObjects s3Prefix (Some "/") None);
  dbFiles ← query (fun db => db_file_map db ctx.(op_driveId) prefix);
  live ← liveFolderPrefixes ctx listing.2;
  mret (omap (ls_prefix_entry s3Prefix) live ++ omap (ls_object_entry prefix s3Prefix dbFiles) listing.1).
End Ls.

(** ** tree.ts *)

Record TreeFileInfo : Type := { tf_size : Z; tf_author : option string; tf_modifiedAt : option Z }.

Inductive TreeEntry : Type :=
| TreeFile (name : string) (info : TreeFileInfo)
| TreeDir (name : string) (children : list TreeEntry).

(** [current.find((e) => e.name === part && e.type === "directory")], changed by
    [f], or a new directory at the end. *)
Fixpoint in_directory (part : string) (f : list TreeEntry -> list TreeEntry) (current : list TreeEntry) : list TreeEntry :=
  match current with
  | [] => [TreeDir part (f [])]
  | TreeDir name children :: rest =>
      if bool_decide (name = part) then TreeDir name (f children) :: rest
      else TreeDir name children :: in_directory part f rest
  | e :: rest => e :: in_directory part f rest
  end.

(** The loop over the parts: [leaf] is the file, [None] for a trailing slash. *)
Fixpoint tree_insert (leaf : option TreeFileInfo) (parts : list string) (current : list TreeEntry) : list TreeEntry :=
  match parts with
  | [] => current
  | [part] =>
      match leaf with
      | Some info => current ++ [TreeFile part info]
      | None => in_directory part (fun children => children) current
      end
  | part :: rest => in_directory part (tree_insert leaf rest) current
  end.

Definition tree_info (dbFile : option File) (obj : S3Object) : TreeFileInfo :=
  {| tf_size := (file_size <$> dbFile) ?? obj.(so_size);
     tf_author := truthy (file_author <$> dbFile);
     tf_modifiedAt := match dbFile with Some f => Some f.(file_modifiedAt) | None => obj.(so_lastModified) end |}.

(** The parts of an object and its leaf, if the tree shows it. *)
Definition tree_item (prefix s3Prefix : string) (depth : option nat) (dbFiles : list (string * File)) (obj : S3Object)
    : option (list string * option TreeFileInfo) :=
  let relativePath := drop_str (String.length s3Prefix) obj.(so_key) in
  let parts := filter (fun part => part <> "") (split_on is_slash relativePath) in
  if bool_decide (parts = []) then None
  else if match depth with Some d => Nat.ltb d (length parts) | None => false end then None
  else Some (parts, if ends_with "/" relativePath then None
                    else Some (tree_info (map_get dbFiles (prefix +:+ join "/" parts)) obj)).

Definition build_tree (items : list (list string * option TreeFileInfo)) : list TreeEntry :=
  foldl (fun root it => tree_insert it.2 it.1 root) [] items.

Section Tree.
Context {Store : Type} {SA : StorageAdapter Store}.

Definition tree (ctx : OpContext) (path : option string) (depth : option nat) : OpM Store (list TreeEntry) :=
  let prefix := normalizePrefix (path ?? "/") in
  let s3Prefix := getS3Key ctx.(op_orgId) ctx.(op_driveId) prefix in
  listing ← in_store (listObjects s3Prefix None None);
  dbFiles ← query (fun db => db_file_map db ctx.(op_driveId) prefix);
  mret (build_tree (omap (tree_item prefix s3Prefix depth dbFiles) listing.1)).
End Tree.

(** ** reveal.ts *)

Definition revealAncestors (filePath : string) : list string :=
  let parts := filter (fun part => part <> "") (split_on is_slash filePath) in
  "/" :: ((fun i => "/" +:+ join "/" (take (S i) parts)) <$> seq 0 (length parts - 1)).

Section Reveal.
Context {Store : Type} {SA : StorageAdapter Store}.

(** The path, its [stat], and the listing of each folder above it. *)
Definition reveal (now : Z) (ctx : OpContext) (path : string) : OpM Store (string * StatResult * list (string * list LsEntry)) :=
  let path := normalizePath path in
  _ ← throw_if (bool_decide (path = "/")) (ValidationError "reveal needs a file path, not the drive root" (Some "path")
        (Some "Use ls to list the drive root."));
  let ancestors := revealAncestors path in
  fileStat ← stat now ctx path;
  listings ← map_m ancestors (fun dir => ls ctx (Some dir));
  mret (path, fileStat, combine ancestors listings).
End Reveal.

(** ** log.ts, recent.ts *)

Record VersionEntry : Type := {
  ve_version : Z;
  ve_author : string;
  ve_createdAt : Z;
  ve_operation : FileOperation;
  ve_message : option string;
  ve_diffSummary : option string;
  ve_size : option Z
}.

Definition version_entry (r : FileVersion) : VersionEntry :=
  {| ve_version := r.(fv_version); ve_author := r.(fv_author); ve_createdAt := r.(fv_createdAt); ve_operation := r.(fv_operation);
     ve_message := r.(fv_message); ve_diffSummary := r.(fv_diffSummary); ve_size := r.(fv_size) |}.

Definition LOG_LIMIT : nat := 50.

Definition log (db : Db) (ctx : OpContext) (path : string) (limit : option nat) : list VersionEntry :=
  let path := normalizePath path in
  version_entry <$> take (limit ?? LOG_LIMIT)
    (sort_by (fun a b => b.(fv_version) <=? a.(fv_version))
       (filter (fun v => v.(fv_path) = path /\ v.(fv_driveId) = ctx.(op_driveId)) db.(fileVersions))).

(** The query builder keeps the last [where]. *)
Definition recent_where (ctx : OpContext) (path : option string) (since : option Z) (v : FileVersion) : Prop :=
  v.(fv_driveId) = ctx.(op_driveId) /\
  match since, path with
  | Some since, _ => ts_sec since <= v.(fv_createdAt)
  | None, Some path => sql_like (withLeadingSlash path +:+ "%") v.(fv_path) = true
  | None, None => True
  end.
#[export] Instance recent_where_dec c p s v : Decision (recent_where c p s v).
Proof. unfold recent_where. destruct s, p; apply _. Defined.

Definition recent (db : Db) (ctx : OpContext) (path : option string) (since : option Z) (limit : option nat) : list (string * VersionEntry) :=
  (fun v => (v.(fv_path), version_entry v)) <$> take (limit ?? LOG_LIMIT)
    (sort_by (fun a b => b.(fv_createdAt) <=? a.(fv_createdAt)) (filter (recent_where ctx (truthy path) since) db.(fileVersions))).

(** ** Trees *)

(** The files of a tree, by their names from the root down. *)
Fixpoint files_of (e : TreeEntry) : list (list string * TreeFileInfo) :=
  match e with
  | TreeFile name info => [([name], info)]
  | TreeDir name children => (fun x => (name :: x.1, x.2)) <$> concat (map files_of children)
  end.
Definition tree_files (t : list TreeEntry) : list (list string * TreeFileInfo) := concat (map files_of t).

(** Its directories. *)
Fixpoint dirs_of (e : TreeEntry) : list (list string) :=
  match e with
  | TreeFile _ _ => []
  | TreeDir name children => [name] :: ((fun d => name :: d) <$> concat (map dirs_of children))
  end.
Definition tree_dirs (t : list TreeEntry) : list (list string) := concat (map dirs_of t).

Lemma tree_files_cons e t : tree_files (e :: t) = files_of e ++ tree_files t.
Proof. done. Qed.

Lemma tree_files_app t u : tree_files (t ++ u) = tree_files t ++ tree_files u.
Proof. unfold tree_files. by rewrite map_app, concat_app. Qed.

Lemma tree_dirs_app t u : tree_dirs (t ++ u) = tree_dirs t ++ tree_dirs u.
Proof. unfold tree_dirs. by rewrite map_app, concat_app. Qed.

(** What [in_directory] does: one directory of that name, and it alone, is
    changed, or there was none. *)
Lemma in_directory_cases part f t :
  (exists t1 ch t2, t = t1 ++ TreeDir part ch :: t2 /\ in_directory part f t = t1 ++ TreeDir part (f ch) :: t2) \/
  ([part] ∉ tree_dirs t /\ in_directory part f t = t ++ [TreeDir part (f [])]).
Proof.
  induction t as [|e t IH]; [right; split; [by intros ?%elem_of_nil|done]|]. destruct e as [name info|name ch].
  - destruct IH as [(t1 & ch & t2 & -> & E)|[Hn E]]; cbn [in_directory]; rewrite E; [left|by right].
    by exists (TreeFile name info :: t1), ch, t2.
  - cbn [in_directory]. case_bool_decide as Hname.
    + subst name. left. by exists [], ch, t.
    + destruct IH as [(t1 & ch' & t2 & -> & E)|[Hn E]]; rewrite E; [left; by exists (TreeDir name ch :: t1), ch', t2|right].
      split; [|done]. change (tree_dirs (TreeDir name ch :: t)) with (([name] :: ((fun d => name :: d) <$> tree_dirs ch)) ++ tree_dirs t).
      intros [Hin|Hin]%elem_of_app; [|done]. apply elem_of_cons in Hin as [[=]|Hin]; [done|].
      apply list_elem_of_fmap in Hin as (d & [=] & _). done.
Qed.

Lemma insert_files leaf parts t : parts <> [] ->
  tree_files (tree_insert leaf parts t) ≡ₚ (match leaf with Some info => [(parts, info)] | None => [] end) ++ tree_files t.
Proof.
  revert t. induction parts as [|part parts IH]; intros t Hne; [done|]. destruct parts as [|p2 parts].
  - destruct leaf as [info|]; cbn [tree_insert].
    + rewrite tree_files_app. apply Permutation_app_comm.
    + destruct (in_directory_cases part (fun children => children) t) as [(t1 & ch & t2 & -> & ->)|[_ ->]]; [done|].
      rewrite tree_files_app. cbn. by rewrite !app_nil_r.
  - change (tree_insert leaf (part :: p2 :: parts) t) with (in_directory part (tree_insert leaf (p2 :: parts)) t).
    set (f := tree_insert leaf (p2 :: parts)).
    assert (Hf : forall ch, files_of (TreeDir part (f ch)) ≡ₚ
      (match leaf with Some info => [(part :: p2 :: parts, info)] | None => [] end) ++ files_of (TreeDir part ch)).
    { intros ch. cbn [files_of]. fold (tree_files (f ch)) (tree_files ch). unfold f. rewrite IH by done. rewrite fmap_app. by destruct leaf. }
    destruct (in_directory_cases part f t) as [(t1 & ch & t2 & -> & ->)|[_ ->]]; rewrite !tree_files_app, ?tree_files_cons.
    + rewrite Hf. rewrite <- app_assoc. apply Permutation_app_swap_app.
    + rewrite Hf. cbn. rewrite !app_nil_r. apply Permutation_app_comm.
Qed.

(** The directories that a file or a folder at [parts] needs. *)
Definition needs_dir (leaf : option TreeFileInfo) (parts d : list string) : Prop :=
  d <> [] /\ d `prefix_of` parts /\ (leaf <> None -> d <> parts).

Lemma needs_dir_one leaf part d : needs_dir leaf [part] d <-> leaf = None /\ d = [part].
Proof.
  unfold needs_dir. split.
  - intros (Hne & [k Hk] & Hl). destruct d as [|x d]; [done|]. injection Hk as <- Hk. destruct d; [|done]. split; [|done].
    destruct leaf; [|done]. exfalso. by apply Hl.
  - intros [-> ->]. done.
Qed.

Lemma needs_dir_cons leaf part rest d : rest <> [] ->
  needs_dir leaf (part :: rest) d <-> d = [part] \/ exists d', d = part :: d' /\ needs_dir leaf rest d'.
Proof.
  intros Hr. unfold needs_dir. split.
  - intros (Hne & [k Hk] & Hl). destruct d as [|x d]; [done|]. injection Hk as <- ->. destruct d as [|y d]; [by left|right].
    exists (y :: d). split; [done|]. split; [done|]. split; [by exists k|]. intros Hleaf E. apply (Hl Hleaf). by f_equal.
  - intros [->|(d' & -> & Hne & [k ->] & Hl)].
    + split; [done|]. split; [by exists rest|]. intros _ [= <-]. done.
    + split; [done|]. split; [by exists k|]. intros Hleaf [= E]. by apply (Hl Hleaf).
Qed.

(** The first directory of a path is a directory of the tree. *)
Lemma dirs_head name d t : name :: d ∈ tree_dirs t -> [name] ∈ tree_dirs t.
Proof.
  induction t as [|e t IH]; [by intros ?%elem_of_nil|]. change (tree_dirs (e :: t)) with (dirs_of e ++ tree_dirs t).
  rewrite !elem_of_app. intros [H|H]; [left|by right; apply IH]. destruct e as [n i|n ch]; [by apply elem_of_nil in H|].
  cbn [dirs_of] in H |- *. apply elem_of_cons in H as [[= -> _]|H]; [by left|].
  apply list_elem_of_fmap in H as (d' & [= -> _] & _). by left.
Qed.

(** A directory whose content gains what [rest] needs. *)
Lemma dir_gains leaf part rest ch ch' : rest <> [] ->
  (forall d, d ∈ tree_dirs ch' <-> d ∈ tree_dirs ch \/ needs_dir leaf rest d) -> (NoDup (tree_dirs ch) -> NoDup (tree_dirs ch')) ->
  (forall d, d ∈ dirs_of (TreeDir part ch') <-> d ∈ dirs_of (TreeDir part ch) \/ needs_dir leaf (part :: rest) d) /\
  (NoDup (dirs_of (TreeDir part ch)) -> NoDup (dirs_of (TreeDir part ch'))).
Proof.
  intros Hr Hd Hn. cbn [dirs_of]. fold (tree_dirs ch) (tree_dirs ch'). split.
  - intros d. rewrite needs_dir_cons by done. rewrite !elem_of_cons, !list_elem_of_fmap. split.
    + intros [->|(d' & -> & H)]; [by left; left|]. apply Hd in H as [H|H]; [left; right; eauto|right; right; eauto].
    + intros [[->|(d' & -> & H)]|[->|(d' & -> & H)]]; [by left|right|by left|right]; (exists d'; split; [done|]; apply Hd; auto).
  - rewrite !NoDup_cons. intros [_ H]. split.
    + intros (d' & [= <-] & H')%list_elem_of_fmap. apply Hd in H' as [H'|(? & _)]; [|done].
      clear -H'. induction ch as [|e ch IH]; [by apply elem_of_nil in H'|]. change (tree_dirs (e :: ch)) with (dirs_of e ++ tree_dirs ch) in H'.
      apply elem_of_app in H' as [H'|H']; [|by apply IH]. destruct e as [n i|n c]; [by apply elem_of_nil in H'|].
      cbn [dirs_of] in H'. apply elem_of_cons in H' as [[=]|H']. by apply list_elem_of_fmap in H' as (? & [=] & _).
    + apply NoDup_fmap_2; [by intros ? ? [= ->]|]. apply Hn. by apply NoDup_fmap_1 in H.
Qed.

Lemma dirs_under part ch d : d ∈ dirs_of (TreeDir part ch) -> exists d', d = part :: d'.
Proof. cbn [dirs_of]. intros [->|(d' & -> & _)%list_elem_of_fmap]%elem_of_cons; by eexists. Qed.

(** The directories of one name, and the rest of the tree, are disjoint. *)
Lemma NoDup_tree part ch t1 t2 : NoDup (tree_dirs t1 ++ dirs_of (TreeDir part ch) ++ tree_dirs t2) <->
  NoDup (dirs_of (TreeDir part ch)) /\ NoDup (tree_dirs t1 ++ tree_dirs t2) /\ [part] ∉ tree_dirs t1 ++ tree_dirs t2.
Proof.
  rewrite Permutation_app_swap_app, NoDup_app. split.
  - intros (H1 & H2 & H3). split_and!; [done|done|]. apply H2. by left.
  - intros (H1 & H2 & H3). split_and!; [done| |done]. intros d Hd Hd'. apply dirs_under in Hd as [d' ->].
    apply H3. apply elem_of_app in Hd' as [Hd'|Hd']; apply dirs_head in Hd'; apply elem_of_app; auto.
Qed.

Definition gains (leaf : option TreeFileInfo) (parts : list string) (a b : list (list string)) : Prop :=
  (forall d, d ∈ b <-> d ∈ a \/ needs_dir leaf parts d) /\ (NoDup a -> NoDup b).

Lemma in_directory_gains leaf part rest f t :
  (forall ch, gains leaf (part :: rest) (dirs_of (TreeDir part ch)) (dirs_of (TreeDir part (f ch)))) ->
  needs_dir leaf (part :: rest) [part] ->
  gains leaf (part :: rest) (tree_dirs t) (tree_dirs (in_directory part f t)).
Proof.
  intros Hf Hself. destruct (in_directory_cases part f t) as [(t1 & ch & t2 & -> & ->)|[Hno ->]]; unfold gains; rewrite !tree_dirs_app.
  - change (tree_dirs (TreeDir part (f ch) :: t2)) with (dirs_of (TreeDir part (f ch)) ++ tree_dirs t2).
    change (tree_dirs (TreeDir part ch :: t2)) with (dirs_of (TreeDir part ch) ++ tree_dirs t2). destruct (Hf ch) as [Hd Hn]. split.
    + intros d. rewrite !elem_of_app, Hd. tauto.
    + rewrite !NoDup_tree. intros (H1 & H2 & H3). auto.
  - destruct (Hf []) as [Hd Hn]. change (tree_dirs [TreeDir part (f [])]) with (dirs_of (TreeDir part (f [])) ++ tree_dirs []). split.
    + intros d. cbn [tree_dirs map concat]. rewrite app_nil_r, elem_of_app, Hd. change (dirs_of (TreeDir part [])) with [[part]].
      rewrite list_elem_of_singleton. naive_solver.
    + intros Hnd. apply NoDup_tree. rewrite app_nil_r. split_and!; [apply Hn, NoDup_singleton|done|done].
Qed.

Lemma insert_dirs leaf parts t : parts <> [] -> gains leaf parts (tree_dirs t) (tree_dirs (tree_insert leaf parts t)).
Proof.
  revert t. induction parts as [|part parts IH]; intros t Hne; [done|]. destruct parts as [|p2 parts].
  - destruct leaf as [info|]; cbn [tree_insert].
    + unfold gains. rewrite tree_dirs_app. cbn [tree_dirs map concat dirs_of]. rewrite !app_nil_r. split; [|done].
      intros d. rewrite needs_dir_one. naive_solver.
    + apply in_directory_gains; [|by apply needs_dir_one]. intros ch. split; [|done]. intros d. rewrite needs_dir_one.
      cbn [dirs_of]. rewrite elem_of_cons. naive_solver.
  - change (tree_insert leaf (part :: p2 :: parts) t) with (in_directory part (tree_insert leaf (p2 :: parts)) t).
    apply in_directory_gains; [|apply needs_dir_cons; [done|by left]]. intros ch. destruct (IH ch) as [H1 H2]; [done|]. by apply dir_gains.
Qed.

Lemma build_tree_spec items t : Forall (fun it => it.1 <> []) items ->
  let t' := foldl (fun root it => tree_insert it.2 it.1 root) t items in
  tree_files t' ≡ₚ omap (fun it => (fun info => (it.1, info)) <$> it.2) items ++ tree_files t /\
  (forall d, d ∈ tree_dirs t' <-> d ∈ tree_dirs t \/ exists it, it ∈ items /\ needs_dir it.2 it.1 d) /\
  (NoDup (tree_dirs t) -> NoDup (tree_dirs t')).
Proof.
  revert t. induction items as [|[parts leaf] items IH]; intros t Hall; cbn [foldl].
  - split; [done|]. split; [|done]. intros d. split; [by left|]. intros [|(it & Hit & _)]; [done|]. by apply elem_of_nil in Hit.
  - inversion Hall as [|? ? Hp Hrest]; subst. cbn [fst snd]. cbn [fst] in Hp. destruct (IH (tree_insert leaf parts t) Hrest) as (H1 & H2 & H3).
    destruct (insert_dirs leaf parts t Hp) as [Hd Hn]. split_and!.
    + rewrite H1, (insert_files leaf parts t Hp). cbn [omap list_omap snd fst]. destruct leaf as [info|]; cbn; [by rewrite <- Permutation_middle|done].
    + intros d. rewrite H2, Hd. split.
      * intros [[H|H]|(it & Hit & H)]; [by left|right; exists (parts, leaf); split; [by left|done]|right; exists it; split; [by right|done]].
      * intros [H|(it & [->|Hit]%elem_of_cons & H)]; [by left; left|by left; right|right; by exists it].
    + intros H. by apply H3, Hn.
Qed.
