(* ===== verification/ListSpec.v ===== *)
(** * What [ls] and [reveal] show

    [ListingLaws] is the contract of [listObjects] that the listings rely on (a
    delimiter lists one level; a bucket may still report a prefix whose objects
    are gone).  By it [ls] answers exactly the files directly below a folder, and
    the folders that hold a file, and [reveal] shows the way to a file. *)

From S2P Require Import Prelude JsString Errors JbPath Paths Schema Rbac Drives Storage GlobCache World Outbox Search Versioning Favorites FileOps FileSpec RawRoute PathNames Listing.

(** A key without empty names. *)
Definition plain_key (k : string) : Prop := Forall (fun part => part <> "") (split_on is_slash k).

Definition no_slash (s : string) : Prop := has_char slash s = false.

Class ListingLaws (Store : Type) {SA : StorageAdapter Store} {SV : StorageView Store} : Prop := {
  list_all_law : forall p s objs pre s', listObjects p None None s = (Ok (objs, pre), s') ->
    s' = s /\ NoDup (so_key <$> objs) /\
    (forall o, o ∈ objs -> starts_with p o.(so_key) = true /\
       exists b, object s o.(so_key) = Some b /\ o.(so_size) = Z.of_nat (String.length b)) /\
    (forall k, object_key k -> plain_key k -> starts_with p k = true -> is_Some (object s k) -> k ∈ so_key <$> objs);
  list_level_law : forall p s objs pre s', listObjects p (Some "/") None s = (Ok (objs, pre), s') ->
    s' = s /\ NoDup (so_key <$> objs) /\ NoDup pre /\
    (forall o, o ∈ objs -> exists name, o.(so_key) = p +:+ name /\ no_slash name /\
       exists b, object s o.(so_key) = Some b /\ o.(so_size) = Z.of_nat (String.length b)) /\
    (forall name, object_key (p +:+ name) -> plain_key (p +:+ name) -> no_slash name ->
       is_Some (object s (p +:+ name)) -> p +:+ name ∈ so_key <$> objs) /\
    (forall q, q ∈ pre -> exists name, q = p +:+ name +:+ "/" /\ no_slash name) /\
    (forall name rest, object_key (p +:+ name +:+ "/" +:+ rest) -> plain_key (p +:+ name +:+ "/" +:+ rest) -> no_slash name ->
       is_Some (object s (p +:+ name +:+ "/" +:+ rest)) -> p +:+ name +:+ "/" ∈ pre);
  list_first_law : forall p s objs pre s', listObjects p None (Some 1%nat) s = (Ok (objs, pre), s') ->
    s' = s /\ (objs <> [] -> exists rest, is_Some (object s (p +:+ rest))) /\
    (forall rest, object_key (p +:+ rest) -> plain_key (p +:+ rest) -> is_Some (object s (p +:+ rest)) -> objs <> [])
}.

(** ** The memory backend keeps the contract *)

Lemma elem_of_mem_all p (m : gmap string (string * option string)) o :
  o ∈ mem_object_info <$> filter (fun e : string * (string * option string) => starts_with p e.1 = true) (map_to_list m) <->
  starts_with p o.(so_key) = true /\ exists x, m !! o.(so_key) = Some x /\ o = mem_object_info (o.(so_key), x).
Proof.
  rewrite list_elem_of_fmap. split.
  - intros ([k x] & -> & [Hp Hin]%list_elem_of_filter). apply elem_of_map_to_list in Hin. split; [done|]. by exists x.
  - intros (Hp & x & Hx & Ho). exists (o.(so_key), x). split; [done|]. apply list_elem_of_filter. split; [done|]. by apply elem_of_map_to_list.
Qed.

Lemma mem_all_keys p (m : gmap string (string * option string)) :
  NoDup (so_key <$> (mem_object_info <$> filter (fun e : string * (string * option string) => starts_with p e.1 = true) (map_to_list m))).
Proof.
  rewrite <- list_fmap_compose. apply (NoDup_fmap_filter (so_key ∘ mem_object_info)).
  change (so_key ∘ mem_object_info) with (@fst string (string * option string)). apply NoDup_fst_map_to_list.
Qed.

Lemma level_prefix_none p name : level_prefix p (p +:+ name) = None <-> no_slash name.
Proof.
  unfold level_prefix. rewrite drop_str_app. unfold no_slash. split.
  - destruct (has_char slash name) eqn:E; [|done]. apply has_char_split in E as (a & b & -> & Ha).
    rewrite split_on_app_sep, split_lacks_slash by done. cbn. by destruct (split_on is_slash b) eqn:Eb; [apply split_on_nonempty in Eb|].
  - intros H. by rewrite split_lacks_slash.
Qed.

Lemma level_prefix_some p name rest : no_slash name -> level_prefix p (p +:+ name +:+ "/" +:+ rest) = Some (p +:+ name +:+ "/").
Proof.
  intros H. unfold level_prefix. rewrite drop_str_app. change ("/" +:+ rest) with (String slash rest).
  rewrite split_on_app_sep, split_lacks_slash by done. cbn. by destruct (split_on is_slash rest) eqn:E; [apply split_on_nonempty in E|].
Qed.

Lemma level_prefix_inv p k q : starts_with p k = true -> level_prefix p k = Some q ->
  exists name rest, no_slash name /\ k = p +:+ name +:+ "/" +:+ rest /\ q = p +:+ name +:+ "/".
Proof.
  intros [name ->]%starts_with_spec Hq. destruct (has_char slash name) eqn:E.
  - apply has_char_split in E as (a & b & -> & Ha). change (a +:+ String slash b) with (a +:+ "/" +:+ b) in Hq |- *.
    rewrite level_prefix_some in Hq by done. injection Hq as <-. by exists a, b.
  - rewrite (proj2 (level_prefix_none p name)) in Hq by done. discriminate.
Qed.

Lemma mem_object_some (s : MemStore) k : is_Some (mem_object s k) <-> exists x, s.(ms_objects) !! k = Some x.
Proof.
  unfold mem_object. split; [intros [b Hb]; destruct (ms_objects s !! k) as [x|] eqn:E; [by exists x|discriminate]|].
  intros [x ->]. by eexists.
Qed.

Lemma mem_listed (s : MemStore) o x : s.(ms_objects) !! o.(so_key) = Some x -> o = mem_object_info (o.(so_key), x) ->
  exists b, mem_object s o.(so_key) = Some b /\ o.(so_size) = Z.of_nat (String.length b).
Proof. intros Hx Ho. exists x.1. unfold mem_object. rewrite Hx. split; [done|]. by rewrite Ho. Qed.

#[export] Instance memory_listing : ListingLaws MemStore.
Proof.
  split.
  - intros p s objs pre s' [= <- <- <-]. split; [done|]. split; [apply mem_all_keys|]. split.
    + intros o (Hp & x & Hx & Ho)%elem_of_mem_all. split; [done|]. by apply (mem_listed s o x).
    + intros k _ _ Hp [x Hx]%mem_object_some. apply list_elem_of_fmap. exists (mem_object_info (k, x)). split; [done|].
      apply elem_of_mem_all. split; [done|]. by exists x.
  - intros p s objs pre s' [= <- <- <-]. set (all := mem_object_info <$> _). split; [done|]. split_and!.
    + apply NoDup_fmap_filter, mem_all_keys.
    + apply NoDup_remove_dups.
    + intros o [Hn (Hp & x & Hx & Ho)%elem_of_mem_all]%list_elem_of_filter. apply starts_with_spec in Hp as [name Hname].
      exists name. split; [done|]. split; [apply (level_prefix_none p); by rewrite <- Hname|]. by apply (mem_listed s o x).
    + intros name _ _ Hn [x Hx]%mem_object_some. apply list_elem_of_fmap. exists (mem_object_info (p +:+ name, x)). split; [done|].
      apply list_elem_of_filter. split; [by apply level_prefix_none|]. apply elem_of_mem_all. split; [by apply starts_with_spec; exists name|by exists x].
    + intros q (o & (Hp & _)%elem_of_mem_all & Hq)%elem_of_remove_dups%list_elem_of_omap.
      apply (level_prefix_inv p _ _ Hp) in Hq as (name & rest & Hn & _ & ->). by exists name.
    + intros name rest _ _ Hn [x Hx]%mem_object_some. apply elem_of_remove_dups, list_elem_of_omap.
      exists (mem_object_info (p +:+ name +:+ "/" +:+ rest, x)). split; [|by apply level_prefix_some].
      apply elem_of_mem_all. split; [by apply starts_with_spec; exists (name +:+ "/" +:+ rest)|by exists x].
  - intros p s objs pre s' [= <- <- <-]. set (all := mem_object_info <$> _). split; [done|]. split.
    + intros Hne. destruct all as [|o all'] eqn:E; [done|]. assert (Ho : o ∈ all) by (rewrite E; by left).
      apply elem_of_mem_all in Ho as (Hp & x & Hx & _). apply starts_with_spec in Hp as [rest Hr]. exists rest. rewrite <- Hr. apply mem_object_some. by exists x.
    + intros rest _ _ [x Hx]%mem_object_some. assert (Ho : mem_object_info (p +:+ rest, x) ∈ all).
      { apply elem_of_mem_all. split; [by apply starts_with_spec; exists rest|by exists x]. }
      destruct all; [by apply elem_of_nil in Ho|done].
Qed.

(** ** The parts of [ls] *)

Lemma like_all x : sql_like "%" x = true.
Proof.
  induction x as [|d x IH]; [done|]. change (sql_like "%" (String d x)) with (bool_decide (String d x = "") || sql_like "%" x).
  by rewrite IH, orb_true_r.
Qed.

Lemma like_percent p s : sql_like p s = true -> sql_like (String "%" p) s = true.
Proof. intros H. destruct s; cbn [sql_like]; rewrite bool_decide_true by done; by rewrite H. Qed.

Lemma sql_like_prefix p x : sql_like (p +:+ "%") (p +:+ x) = true.
Proof.
  induction p as [|c p IH]; [apply like_all|]. change (String c p +:+ "%") with (String c (p +:+ "%")). change (String c p +:+ x) with (String c (p +:+ x)).
  destruct (decide (c = "%"%char)) as [->|H1].
  - change (sql_like (String "%" (p +:+ "%")) (String "%" (p +:+ x))) with
      (sql_like (p +:+ "%") (String "%" (p +:+ x)) || sql_like (String "%" (p +:+ "%")) (p +:+ x)).
    rewrite (like_percent _ _ IH). apply orb_true_r.
  - destruct (decide (c = "_"%char)) as [->|H2]; cbn [sql_like].
    + done.
    + rewrite (bool_decide_false _ H1), (bool_decide_false _ H2), bool_decide_true by done. done.
Qed.

Section Ls.
Context {rt : Runtime} {Store : Type} {SA : StorageAdapter Store} {SV : StorageView Store} {SL : StorageLaws Store} {LL : ListingLaws Store}.

Lemma map_m_pure {A B S E} (f : A -> M E S B) (P : A -> B -> Prop) l s bs s' :
  (forall a s b s', f a s = (Ok b, s') -> s' = s) -> (forall a b, f a s = (Ok b, s) -> P a b) ->
  map_m l f s = (Ok bs, s') -> s' = s /\ Forall2 P l bs.
Proof.
  intros Hs HP. revert bs s'. induction l as [|a l IH]; intros bs s' H; cbn [map_m] in H.
  - injection H as <- <-. split; [done|constructor].
  - apply bind_ok in H as (b & s1 & Hb & H). pose proof (Hs _ _ _ _ Hb) as ->. apply bind_ok in H as (bs' & s2 & Hbs & H).
    injection H as <- <-. destruct (IH _ _ Hbs) as [-> HF]. split; [done|]. constructor; auto.
Qed.

Definition live_row_under (db : Db) (driveId dir : string) : Prop :=
  exists f, f ∈ db.(files) /\ f.(file_driveId) = driveId /\ f.(file_isDeleted) = false /\ starts_with (dir +:+ "/") f.(file_path) = true.

Lemma hasLiveFileRow_spec db driveId dir : hasLiveFileRow db driveId (dir +:+ "/") = true <-> live_row_under db driveId dir.
Proof.
  unfold hasLiveFileRow, live_row_under. rewrite exists_row_true, drop_last_char_app.
  split; intros (f & Hf & H); exists f; rewrite range_is_prefix in *; tauto.
Qed.

Lemma key_pre o d x : getS3Key o d x = (o +:+ "/drives/" +:+ d +:+ "/") +:+ stripLeadingSlash x.
Proof. unfold getS3Key. by rewrite !app_assoc_str. Qed.

Lemma key_app o d p x : starts_with "/" p = true -> getS3Key o d (p +:+ x) = getS3Key o d p +:+ x.
Proof.
  intros Hp. rewrite !key_pre. generalize (o +:+ "/drives/" +:+ d +:+ "/"). intros pre. rewrite app_assoc_str. f_equal.
  apply starts_with_spec in Hp as [q ->]. unfold stripLeadingSlash. rewrite app_assoc_str, !(proj2 (starts_with_spec _ _)) by (by eexists). by rewrite !(drop_str_app "/").
Qed.

(** A folder prefix of the drive's listing is live when a row says so, or the
    storage holds an object under it. *)
Lemma is_live_prefix_spec ctx dir w b w' :
  is_live_prefix ctx (getS3Key ctx.(op_orgId) ctx.(op_driveId) dir +:+ "/") w = (Ok b, w') ->
  starts_with "/" dir = true ->
  w' = w /\
  (b = true -> live_row_under w.(w_db) ctx.(op_driveId) dir \/
     exists rest, is_Some (object w.(w_store) (getS3Key ctx.(op_orgId) ctx.(op_driveId) dir +:+ "/" +:+ rest))) /\
  (forall rest, object_key (getS3Key ctx.(op_orgId) ctx.(op_driveId) dir +:+ "/" +:+ rest) ->
     plain_key (getS3Key ctx.(op_orgId) ctx.(op_driveId) dir +:+ "/" +:+ rest) ->
     is_Some (object w.(w_store) (getS3Key ctx.(op_orgId) ctx.(op_driveId) dir +:+ "/" +:+ rest)) -> b = true).
Proof.
  intros H Hd. unfold is_live_prefix in H. set (q := getS3Key _ _ dir +:+ "/") in H.
  assert (Hq : "/" +:+ drop_str (String.length (getS3Key ctx.(op_orgId) ctx.(op_driveId) "/")) q = dir +:+ "/").
  { subst q. rewrite <- (stripLeadingSlash_normalized dir Hd) at 2. rewrite !key_pre. change (stripLeadingSlash "/") with "".
    rewrite app_nil_r_str. generalize (ctx.(op_orgId) +:+ "/drives/" +:+ ctx.(op_driveId) +:+ "/"). intros pre.
    by rewrite app_assoc_str, drop_str_app. }
  rewrite Hq in H. apply bind_ok in H as (row & w1 & Hrow & H). apply gets_ok in Hrow as [-> ->].
  destruct (hasLiveFileRow w.(w_db) ctx.(op_driveId) (dir +:+ "/")) eqn:E.
  - injection H as <- <-. apply hasLiveFileRow_spec in E. auto.
  - apply bind_ok in H as (listing & w1 & Hl & H). injection H as <- <-. apply in_store_ok in Hl as (s' & Hl & ->). destruct listing as [objs pre].
    apply list_first_law in Hl as (-> & H1 & H2). split; [by destruct w|]. cbn [fst]. split.
    + intros Hb%bool_decide_eq_true. right. destruct H1 as [rest Hrest]; [by intros ->; cbn in Hb; lia|]. exists rest. subst q. by rewrite app_assoc_str in Hrest.
    + intros rest Hk Hp Ho. apply bool_decide_eq_true. subst q. rewrite <- (app_assoc_str _ "/" rest) in Hk, Hp, Ho. specialize (H2 rest Hk Hp Ho).
      destruct objs; [done|cbn; lia].
Qed.

Lemma no_slash_end name : no_slash name -> ends_with "/" name = false.
Proof.
  intros H. destruct (ends_with "/" name) eqn:E; [|done]. apply ends_with_spec in E as [a ->]. unfold no_slash in H.
  rewrite has_char_app in H. by apply orb_false_iff in H as [_ [=]].
Qed.

Lemma ls_prefix_entry_name p name : no_slash name ->
  ls_prefix_entry p (p +:+ name +:+ "/") = if bool_decide (name = "") then None else Some (ls_directory name).
Proof.
  intros H. unfold ls_prefix_entry, drop_end_slash. rewrite drop_str_app.
  rewrite (proj2 (ends_with_spec _ _)) by (by eexists). by rewrite drop_last_char_app.
Qed.

Definition file_entry (dbFile : option File) (name : string) (o : S3Object) : LsEntry :=
  {| ls_name := name; ls_type := KindFile; ls_size := (file_size <$> dbFile) ?? o.(so_size); ls_author := file_author <$> dbFile;
     ls_modifiedAt := match dbFile with Some f => Some f.(file_modifiedAt) | None => o.(so_lastModified) end |}.

Lemma ls_object_entry_name prefix p dbFiles o name : o.(so_key) = p +:+ name -> no_slash name ->
  ls_object_entry prefix p dbFiles o =
  if bool_decide (name = "") then None else Some (file_entry (map_get dbFiles (prefix +:+ name)) name o).
Proof. intros Hk Hn. unfold ls_object_entry. rewrite Hk, drop_str_app. by rewrite no_slash_end. Qed.

(** A listing of the storage as [ls] uses it. *)
Record level (ctx : OpContext) (prefix : string) (w : World Store) (objs : list S3Object) (pre live : list string) : Prop := {
  lv_listed : exists s, listObjects (getS3Key ctx.(op_orgId) ctx.(op_driveId) prefix) (Some "/") None w.(w_store) = (Ok (objs, pre), s);
  lv_live : forall q, q ∈ live -> q ∈ pre;
  lv_shown : forall name, prefix +:+ name <> "" -> no_slash name ->
    getS3Key ctx.(op_orgId) ctx.(op_driveId) prefix +:+ name +:+ "/" ∈ live ->
    live_row_under w.(w_db) ctx.(op_driveId) (prefix +:+ name) \/
    exists rest, is_Some (object w.(w_store) (getS3Key ctx.(op_orgId) ctx.(op_driveId) (prefix +:+ name +:+ "/" +:+ rest)));
  lv_kept : forall name rest, no_slash name ->
    let k := getS3Key ctx.(op_orgId) ctx.(op_driveId) (prefix +:+ name +:+ "/" +:+ rest) in
    object_key k -> plain_key k -> is_Some (object w.(w_store) k) ->
    getS3Key ctx.(op_orgId) ctx.(op_driveId) prefix +:+ name +:+ "/" ∈ live;
  lv_once : NoDup live
}.

Lemma is_live_prefix_pure ctx q w b w' : is_live_prefix ctx q w = (Ok b, w') -> w' = w.
Proof.
  intros H. unfold is_live_prefix in H. apply bind_ok in H as (row & w1 & Hrow & H). apply gets_ok in Hrow as [-> ->].
  destruct (hasLiveFileRow _ _ _); [by injection H as _ <-|]. apply bind_ok in H as (listing & w1 & Hl & H). injection H as _ <-.
  apply in_store_ok in Hl as (s' & Hl & ->). apply list_law in Hl as ->. by destruct w.
Qed.

Lemma elem_of_flagged (P : string -> bool -> Prop) pre bs q : (forall a b b', P a b -> P a b' -> b = b') -> Forall2 P pre bs ->
  q ∈ (filter (fun pl => pl.2 = true) (combine pre bs)).*1 <-> q ∈ pre /\ P q true.
Proof.
  intros Hdet HF. induction HF as [|a b pre bs Hab HF IH]; [split; [by intros ?%elem_of_nil|by intros [?%elem_of_nil _]]|].
  cbn [combine]. destruct b.
  - rewrite filter_cons_True by done. rewrite fmap_cons, !elem_of_cons, IH. cbn. naive_solver.
  - rewrite filter_cons_False by done. rewrite elem_of_cons, IH. split; [naive_solver|]. intros [[->|Hq] HP]; [|done].
    by specialize (Hdet _ _ _ Hab HP).
Qed.

Lemma flagged_sublist (pre : list string) (bs : list bool) : (filter (fun pl => pl.2 = true) (combine pre bs)).*1 `sublist_of` pre.
Proof.
  revert bs. induction pre as [|a pre IH]; intros [|b bs]; [done..|apply sublist_nil_l|]. cbn [combine]. destruct b.
  - rewrite filter_cons_True by done. by apply sublist_skip.
  - rewrite filter_cons_False by done. by apply sublist_cons.
Qed.

Lemma live_answer {A} (P : string -> A -> Prop) pre bs q : Forall2 P pre bs -> q ∈ pre -> exists b, P q b.
Proof. intros HF. induction HF; [by intros ?%elem_of_nil|]. intros [->|Hq]%elem_of_cons; eauto. Qed.

Lemma ls_level ctx path w entries w' : let prefix := normalizePrefix path in starts_with "/" prefix = true ->
  ls ctx (Some path) w = (Ok entries, w') ->
  w' = w /\ exists objs pre live, level ctx prefix w objs pre live /\
    entries = omap (ls_prefix_entry (getS3Key ctx.(op_orgId) ctx.(op_driveId) prefix)) live ++
              omap (ls_object_entry prefix (getS3Key ctx.(op_orgId) ctx.(op_driveId) prefix) (db_file_map w.(w_db) ctx.(op_driveId) prefix)) objs.
Proof.
  intros prefix Hp H. unfold ls in H. change (normalizePrefix (Some path ?? "/")) with prefix in H. set (p := getS3Key _ _ prefix) in *.
  apply bind_ok in H as ([objs pre] & w1 & Hl & H). apply in_store_ok in Hl as (s' & Hl & ->).
  pose proof (list_level_law _ _ _ _ _ Hl) as (-> & _ & Hnd & _ & _ & Hpre & Hall). replace (w <| w_store := w.(w_store) |>) with w in H by (by destruct w).
  apply bind_ok in H as (dbFiles & w1 & Hq & H). apply gets_ok in Hq as [-> ->].
  apply bind_ok in H as (live & w1 & Hlive & H). injection H as <- <-. unfold liveFolderPrefixes in Hlive.
  apply bind_ok in Hlive as (bs & w2 & Hbs & H). injection H as <- <-. cbn [snd] in Hbs.
  apply (map_m_pure (is_live_prefix ctx) (fun q b => is_live_prefix ctx q w = (Ok b, w))) in Hbs as [-> HF]; [|by apply is_live_prefix_pure|done].
  split; [done|]. exists objs, pre, ((filter (fun pl => pl.2 = true) (combine pre bs)).*1). split; [|done].
  assert (Hin : forall q, q ∈ (filter (fun pl => pl.2 = true) (combine pre bs)).*1 <-> q ∈ pre /\ is_live_prefix ctx q w = (Ok true, w)).
  { intros q. apply (elem_of_flagged (fun q b => is_live_prefix ctx q w = (Ok b, w))); [|done]. intros a b b' E E'. congruence. }
  assert (Hkey : forall x, getS3Key ctx.(op_orgId) ctx.(op_driveId) (prefix +:+ x) = p +:+ x) by (intros x; by apply key_app).
  assert (Hroot : forall x, starts_with "/" (prefix +:+ x) = true).
  { intros x. apply starts_with_spec in Hp as [r ->]. apply starts_with_spec. by exists (r +:+ x). }
  split.
  - by eexists.
  - by intros q [Hq _]%Hin.
  - intros name _ Hn [_ Hq]%Hin. rewrite <- app_assoc_str, <- Hkey in Hq.
    apply is_live_prefix_spec in Hq as (_ & Hq & _); [|by apply Hroot].
    destruct (Hq eq_refl) as [Hrow|[rest Hr]]; [by left|right]. exists rest. by rewrite Hkey, app_assoc_str, <- Hkey in Hr.
  - intros name rest Hn k. subst k. rewrite Hkey. intros Hk Hpk Ho. apply Hin. pose proof (Hall name rest Hk Hpk Hn Ho) as Hq. split; [done|].
    destruct (live_answer _ pre bs _ HF Hq) as [b Hb]. pose proof Hb as Hb'. rewrite <- app_assoc_str, <- Hkey in Hb'.
    apply is_live_prefix_spec in Hb' as (_ & _ & Hb'); [|by apply Hroot]. rewrite (Hb' rest) in Hb; [exact Hb|by rewrite Hkey, app_assoc_str..].
  - by apply (sublist_NoDup _ _ Hnd), flagged_sublist.
Qed.

(** ** Canonical folders *)

Definition folder_prefix (l : list string) : string := normalizePrefix (render l).
Definition key_of_names_in (ctx : OpContext) (l : list string) : string := getS3Key ctx.(op_orgId) ctx.(op_driveId) (render l).

Lemma folder_prefix_rooted l : Forall clean l -> starts_with "/" (folder_prefix l) = true.
Proof.
  intros Hl. apply starts_with_spec. destruct (prefix_render l Hl) as (a & Ha & [->|[-> _]]); unfold folder_prefix; rewrite Ha; [|by exists ""].
  unfold render. eexists. by rewrite app_assoc_str.
Qed.

Lemma folder_prefix_child l name rest : Forall clean (l ++ name :: rest) -> folder_prefix l +:+ join "/" (name :: rest) = render (l ++ name :: rest).
Proof. intros H. by rewrite render_split. Qed.

Lemma folder_prefix_below l name rest : Forall clean (l ++ name :: rest) -> rest <> [] ->
  folder_prefix l +:+ name +:+ "/" +:+ join "/" rest = render (l ++ name :: rest).
Proof. intros H Hr. rewrite <- folder_prefix_child by done. by destruct rest. Qed.

Lemma plain_key_names ctx m : plain_segment ctx.(op_orgId) -> plain_segment ctx.(op_driveId) -> Forall clean m -> m <> [] ->
  plain_key (key_of_names_in ctx m).
Proof.
  intros Ho Hd Hm Hne. unfold plain_key, key_of_names_in. rewrite split_getS3Key by done. destruct Ho as [Ho _], Hd as [Hd _].
  repeat constructor; try done. unfold stripLeadingSlash, render. rewrite (proj2 (starts_with_spec _ _)) by (by eexists).
  rewrite (drop_str_app "/"), split_join by done. eapply Forall_impl; [exact Hm|]. by intros x [? _].
Qed.

Definition shows (entries : list LsEntry) (name : string) (type : EntryKind) : Prop :=
  exists e, e ∈ entries /\ e.(ls_name) = name /\ e.(ls_type) = type.

(** The entry of a file has the live row's metadata, or the object's size. *)
Definition described (db : Db) (driveId path : string) (b : option string) (e : LsEntry) : Prop :=
  (forall f, NoDup ((fun f => (f.(file_path), f.(file_driveId))) <$> db.(files)) ->
     f ∈ db.(files) -> f.(file_path) = path -> f.(file_driveId) = driveId -> f.(file_isDeleted) = false ->
     e.(ls_size) = f.(file_size) /\ e.(ls_author) = Some f.(file_author) /\ e.(ls_modifiedAt) = Some f.(file_modifiedAt)) /\
  ((forall f, f ∈ db.(files) -> f.(file_path) = path -> f.(file_driveId) = driveId -> f.(file_isDeleted) = false -> False) ->
     exists content, b = Some content /\ e.(ls_size) = Z.of_nat (String.length content) /\ e.(ls_author) = None).

Lemma map_get_file_map db driveId prefix path f : map_get (db_file_map db driveId prefix) path = Some f ->
  f ∈ db.(files) /\ f.(file_path) = path /\ f.(file_driveId) = driveId /\ f.(file_isDeleted) = false.
Proof.
  intros H%map_get_some. unfold db_file_map in H. apply list_elem_of_fmap in H as (g & [= -> ->] & [(Hd & _ & Hdel) Hg]%list_elem_of_filter). done.
Qed.

Lemma map_get_live_row db driveId prefix x f : NoDup ((fun f => (f.(file_path), f.(file_driveId))) <$> db.(files)) ->
  f ∈ db.(files) -> f.(file_path) = prefix +:+ x -> f.(file_driveId) = driveId -> f.(file_isDeleted) = false ->
  map_get (db_file_map db driveId prefix) (prefix +:+ x) = Some f.
Proof.
  intros Hnd Hf Hp Hd Hdel. unfold db_file_map. set (rows := filter (is_listed_row driveId prefix) db.(files)).
  assert (Hin : f ∈ rows).
  { apply list_elem_of_filter. split; [|done]. split_and!; [done| |done]. rewrite Hp. apply sql_like_prefix. }
  assert (Hrows : NoDup (file_path <$> rows)).
  { apply (NoDup_fmap_refine (fun f => (f.(file_path), f.(file_driveId)))); [|by apply NoDup_fmap_filter].
    intros a b [(Ha & _) _]%list_elem_of_filter [(Hb & _) _]%list_elem_of_filter E. by rewrite E, Ha, Hb. }
  rewrite (map_get_unique _ _ (f.(file_path), f)); [done| |by apply list_elem_of_fmap; exists f|done].
  by rewrite <- list_fmap_compose.
Qed.

Lemma file_entry_described db driveId prefix name o content : o.(so_size) = Z.of_nat (String.length content) ->
  described db driveId (prefix +:+ name) (Some content) (file_entry (map_get (db_file_map db driveId prefix) (prefix +:+ name)) name o).
Proof.
  intros Hs. split.
  - intros f Hnd Hf Hp Hd Hdel. by rewrite (map_get_live_row db driveId prefix name f).
  - intros Hno. exists content. split; [done|]. destruct (map_get _ _) as [f|] eqn:E; [|done].
    apply map_get_file_map in E as (Hf & Hp & Hd & Hdel). by destruct (Hno f).
Qed.

(** The files of the listed level. *)
Lemma level_files ctx l w objs pre live e : plain_segment ctx.(op_orgId) -> plain_segment ctx.(op_driveId) -> Forall clean l ->
  level ctx (folder_prefix l) w objs pre live ->
  let p := getS3Key ctx.(op_orgId) ctx.(op_driveId) (folder_prefix l) in
  e ∈ omap (ls_object_entry (folder_prefix l) p (db_file_map w.(w_db) ctx.(op_driveId) (folder_prefix l))) objs <->
  exists o name, o ∈ objs /\ o.(so_key) = p +:+ name /\ name <> "" /\
    e = file_entry (map_get (db_file_map w.(w_db) ctx.(op_driveId) (folder_prefix l)) (folder_prefix l +:+ name)) name o.
Proof.
  intros Ho Hd Hl [[s Hlist] _ _ _ _] p. pose proof (list_level_law _ _ _ _ _ Hlist) as (_ & _ & _ & Hobjs & _). rewrite list_elem_of_omap. split.
  - intros (o & Hin & He). destruct (Hobjs o Hin) as (name & Hk & Hn & _). exists o, name.
    rewrite (ls_object_entry_name _ p _ o name Hk Hn) in He. case_bool_decide as Hne; [done|]. by injection He as <-.
  - intros (o & name & Hin & Hk & Hne & ->). exists o. split; [done|]. destruct (Hobjs o Hin) as (name' & Hk' & Hn & _).
    fold p in Hk'. rewrite Hk in Hk'. apply app_inj_l_str in Hk' as <-. rewrite (ls_object_entry_name _ p _ o name Hk Hn). by rewrite bool_decide_false.
Qed.

Lemma level_dirs ctx l w objs pre live e : level ctx (folder_prefix l) w objs pre live ->
  let p := getS3Key ctx.(op_orgId) ctx.(op_driveId) (folder_prefix l) in
  e ∈ omap (ls_prefix_entry p) live <-> exists name, no_slash name /\ name <> "" /\ p +:+ name +:+ "/" ∈ live /\ e = ls_directory name.
Proof.
  intros [[s Hlist] Hsub _ _ _] p. pose proof (list_level_law _ _ _ _ _ Hlist) as (_ & _ & _ & _ & _ & Hpre & _). rewrite list_elem_of_omap. split.
  - intros (q & Hq & He). destruct (Hpre q (Hsub q Hq)) as (name & -> & Hn). fold p in He, Hq. rewrite ls_prefix_entry_name in He by done.
    case_bool_decide; [done|]. injection He as <-. by exists name.
  - intros (name & Hn & Hne & Hq & ->). exists (p +:+ name +:+ "/"). split; [done|]. rewrite ls_prefix_entry_name by done. by rewrite bool_decide_false.
Qed.

Lemma NoDup_omap {A B K} (f : A -> option B) (key : B -> K) l :
  NoDup l -> (forall a b x y, a ∈ l -> b ∈ l -> f a = Some x -> f b = Some y -> key x = key y -> a = b) -> NoDup (key <$> omap f l).
Proof.
  induction l as [|a l IH]; intros Hnd Hinj; [constructor|]. apply NoDup_cons in Hnd as [Ha Hnd].
  assert (Hl : NoDup (key <$> omap f l)) by (apply IH; [done|]; intros b c x y Hb Hc; apply Hinj; by right).
  change (omap f (a :: l)) with (match f a with Some x => x :: omap f l | None => omap f l end).
  destruct (f a) as [x|] eqn:Ex; [|done]. rewrite fmap_cons, NoDup_cons. split; [|done].
  intros (y & Hxy & Hy)%list_elem_of_fmap. apply list_elem_of_omap in Hy as (b & Hb & Ey). apply Ha.
  rewrite (Hinj a b x y); [done|by left|by right|done|done|done].
Qed.

Definition level_entries (ctx : OpContext) (l : list string) (w : World Store) (objs : list S3Object) (live : list string) : list LsEntry :=
  let p := getS3Key ctx.(op_orgId) ctx.(op_driveId) (folder_prefix l) in
  omap (ls_prefix_entry p) live ++
  omap (ls_object_entry (folder_prefix l) p (db_file_map w.(w_db) ctx.(op_driveId) (folder_prefix l))) objs.

Section Level.
Context (ctx : OpContext) (l : list string) (w : World Store) (objs : list S3Object) (pre live : list string).
Context (Ho : plain_segment ctx.(op_orgId)) (Hd : plain_segment ctx.(op_driveId)) (Hl : Forall clean l).
Context (Hlv : level ctx (folder_prefix l) w objs pre live).

Let p : string := getS3Key ctx.(op_orgId) ctx.(op_driveId) (folder_prefix l).

Lemma shows_file name : shows (level_entries ctx l w objs live) name KindFile <-> exists o, o ∈ objs /\ o.(so_key) = p +:+ name /\ name <> "".
Proof.
  unfold shows, level_entries. split.
  - intros (e & He & <- & Ht). apply elem_of_app in He as [He|He].
    + apply (level_dirs ctx l w objs pre live) in He as (x & _ & _ & _ & ->); [done|done].
    + apply (level_files ctx l w objs pre live) in He as (o & x & Hin & Hk & Hne & ->); [|done..]. by exists o.
  - intros (o & Hin & Hk & Hne). eexists. split; [apply elem_of_app; right; apply (level_files ctx l w objs pre live); [done..|]|].
    + by exists o, name.
    + done.
Qed.

Lemma shows_folder name : shows (level_entries ctx l w objs live) name KindDirectory <-> no_slash name /\ name <> "" /\ p +:+ name +:+ "/" ∈ live.
Proof.
  unfold shows, level_entries. split.
  - intros (e & He & <- & Ht). apply elem_of_app in He as [He|He].
    + apply (level_dirs ctx l w objs pre live) in He as (x & Hn & Hne & Hq & ->); [|done]. done.
    + apply (level_files ctx l w objs pre live) in He as (o & x & _ & _ & _ & ->); done.
  - intros (Hn & Hne & Hq). exists (ls_directory name). split; [|done]. apply elem_of_app. left.
    apply (level_dirs ctx l w objs pre live); [done|]. by exists name.
Qed.

Lemma level_entries_once : NoDup ((fun e => (e.(ls_name), e.(ls_type))) <$> level_entries ctx l w objs live).
Proof.
  destruct (lv_listed _ _ _ _ _ _ Hlv) as [s Hlist]. pose proof (list_level_law _ _ _ _ _ Hlist) as (_ & Hkeys & _ & Hobjs & _ & Hpre & _).
  unfold level_entries. rewrite fmap_app. apply NoDup_app. split_and!.
  - apply NoDup_omap; [apply Hlv|]. intros a b x y Ha Hb Hx Hy [= E].
    apply (lv_live _ _ _ _ _ _ Hlv) in Ha, Hb. apply Hpre in Ha as (n & -> & Hn), Hb as (m & -> & Hm).
    rewrite ls_prefix_entry_name in Hx, Hy by done. case_bool_decide; [done|]. case_bool_decide; [done|].
    injection Hx as <-. injection Hy as <-. cbn in E. by rewrite E.
  - intros nt (x & -> & Hx)%list_elem_of_fmap (y & E & Hy)%list_elem_of_fmap.
    apply (level_dirs ctx l w objs pre live) in Hx as (n & _ & _ & _ & ->); [|done].
    apply (level_files ctx l w objs pre live) in Hy as (o & m & _ & _ & _ & ->); [|done..]. done.
  - apply NoDup_omap; [by apply NoDup_fmap_1 in Hkeys|]. intros a b x y Ha Hb Hx Hy [= E].
    apply (NoDup_fmap_eq so_key objs); [done..|]. destruct (Hobjs a Ha) as (n & Hn & Hns & _), (Hobjs b Hb) as (m & Hm & Hms & _).
    rewrite (ls_object_entry_name _ _ _ _ n Hn Hns) in Hx. rewrite (ls_object_entry_name _ _ _ _ m Hm Hms) in Hy.
    case_bool_decide; [done|]. case_bool_decide; [done|]. injection Hx as <-. injection Hy as <-. cbn in E. by rewrite Hn, Hm, E.
Qed.

Lemma child_key name rest : Forall clean (l ++ name :: rest) -> p +:+ join "/" (name :: rest) = key_of_names_in ctx (l ++ name :: rest).
Proof. intros H. unfold key_of_names_in, p. rewrite <- folder_prefix_child by done. symmetry. apply key_app, folder_prefix_rooted, Hl. Qed.
Lemma child_key_one name : clean name -> Forall clean (l ++ [name]) /\ p +:+ name = key_of_names_in ctx (l ++ [name]).
Proof. intros Hn. assert (Hc : Forall clean (l ++ [name])) by (apply Forall_app; by split; [|constructor]). split; [done|]. exact (child_key name [] Hc). Qed.

Lemma child_key_below name rest : Forall clean (name :: rest) -> rest <> [] ->
  p +:+ name +:+ "/" +:+ join "/" rest = key_of_names_in ctx (l ++ name :: rest).
Proof. intros Hn Hr. rewrite <- child_key by (by apply Forall_app). by destruct rest. Qed.
End Level.

(** What a listing of the folder [l] shows. *)
Record children_shown (ctx : OpContext) (l : list string) (w : World Store) (entries : list LsEntry) : Prop := {
  cs_files : forall name, clean name -> shows entries name KindFile <-> is_Some (object w.(w_store) (key_of_names_in ctx (l ++ [name])));
  cs_metadata : forall e, e ∈ entries -> e.(ls_type) = KindFile ->
    exists b, object w.(w_store) (getS3Key ctx.(op_orgId) ctx.(op_driveId) (folder_prefix l +:+ e.(ls_name))) = Some b /\
      described w.(w_db) ctx.(op_driveId) (folder_prefix l +:+ e.(ls_name)) (Some b) e;
  cs_folders : forall name rest, Forall clean (name :: rest) -> rest <> [] ->
    is_Some (object w.(w_store) (key_of_names_in ctx (l ++ name :: rest))) -> shows entries name KindDirectory;
  cs_only_folders : forall name, shows entries name KindDirectory -> live_row_under w.(w_db) ctx.(op_driveId) (folder_prefix l +:+ name) \/
    exists rest, is_Some (object w.(w_store) (getS3Key ctx.(op_orgId) ctx.(op_driveId) (folder_prefix l +:+ name +:+ "/" +:+ rest)));
  cs_once : NoDup ((fun e => (e.(ls_name), e.(ls_type))) <$> entries)
}.

Lemma ls_children ctx l w entries w' :
  plain_segment ctx.(op_orgId) -> plain_segment ctx.(op_driveId) -> Forall clean l ->
  ls ctx (Some (render l)) w = (Ok entries, w') -> w' = w /\ children_shown ctx l w entries.
Proof.
  intros Ho Hd Hl H. pose proof (folder_prefix_rooted l Hl) as Hroot.
  apply ls_level in H as (-> & objs & pre & live & Hlv & E); [|done]. fold (folder_prefix l) in *.
  change (entries = level_entries ctx l w objs live) in E. subst entries. split; [done|].
  destruct (lv_listed _ _ _ _ _ _ Hlv) as [s Hlist]. pose proof (list_level_law _ _ _ _ _ Hlist) as (_ & _ & _ & Hobjs & Hlisted & _ & _).
  split.
  - intros name Hn. destruct (child_key_one ctx l Hl name Hn) as [Hc Hkey]. rewrite (shows_file ctx l w objs pre live), <- Hkey by done. split.
    + intros (o & Hin & Hk & _). destruct (Hobjs o Hin) as (_ & _ & _ & b & Hb & _). rewrite <- Hk. by exists b.
    + intros Hs. destruct Hn as (Hne & _ & _ & Hslash).
      assert (Hin : getS3Key ctx.(op_orgId) ctx.(op_driveId) (folder_prefix l) +:+ name ∈ so_key <$> objs).
      { apply Hlisted; [rewrite <- key_app by done; by apply drive_key_law|rewrite Hkey; apply plain_key_names; [done..|by destruct l]|done|done]. }
      apply list_elem_of_fmap in Hin as (o & Hk & Hin). by exists o.
  - intros e He Ht. apply elem_of_app in He as [He|He].
    { apply (level_dirs ctx l w objs pre live) in He as (x & _ & _ & _ & ->); done. }
    apply (level_files ctx l w objs pre live) in He as (o & name & Hin & Hk & Hne & ->); [|done..].
    destruct (Hobjs o Hin) as (_ & _ & _ & b & Hb & Hsize). exists b. rewrite key_app by done. rewrite <- Hk at 1. split; [done|].
    by apply file_entry_described.
  - intros name rest Hn Hr Hs. apply (shows_folder ctx l w objs pre live); [done..|]. pose proof (child_key_below ctx l Hl name rest Hn Hr) as Hkey.
    inversion Hn as [|? ? (Hne & _ & _ & Hslash) _]; subst. split_and!; [done|done|].
    assert (Ek : getS3Key ctx.(op_orgId) ctx.(op_driveId) (folder_prefix l +:+ name +:+ "/" +:+ join "/" rest) = key_of_names_in ctx (l ++ name :: rest)) by (by rewrite key_app).
    apply (lv_kept _ _ _ _ _ _ Hlv name (join "/" rest)); [done|by apply drive_key_law| |by rewrite Ek].
    rewrite Ek. apply plain_key_names; [done..|by apply Forall_app|by destruct l].
  - intros name (Hn & Hne & Hq)%(shows_folder ctx l w objs pre live); [|done..]. apply (lv_shown _ _ _ _ _ _ Hlv name); [|done|done].
    apply starts_with_spec in Hroot as [r ->]. discriminate.
  - by apply (level_entries_once ctx l w objs pre live).
Qed.

(** The part of it that [reveal] needs. *)
Lemma ls_shows_children_at ctx l w es : plain_segment ctx.(op_orgId) -> plain_segment ctx.(op_driveId) -> Forall clean l ->
  ls ctx (Some (render l)) w = (Ok es, w) ->
  (forall name, clean name -> is_Some (object w.(w_store) (key_of_names_in ctx (l ++ [name]))) -> shows es name KindFile) /\
  (forall name rest, Forall clean (name :: rest) -> rest <> [] ->
     is_Some (object w.(w_store) (key_of_names_in ctx (l ++ name :: rest))) -> shows es name KindDirectory).
Proof.
  intros Ho Hd Hl H. apply ls_children in H as (_ & [Hf _ Hdir _ _]); [|done..]. split; [|exact Hdir]. intros name Hn. by apply Hf.
Qed.

(** [ls] of a folder answers exactly what is directly below it.  In storage
    that keeps [ListingLaws], and for the folder of any canonical path: a name is
    listed as a file exactly when the storage holds an object at that path, with
    the size, author and date of its live row, or the object's size; a folder
    that holds an object at any depth is listed, a listed folder holds an object
    or a live row, no name is listed twice as one kind, and nothing is changed. *)
Theorem ls_shows_children ctx l w entries w' :
  plain_segment ctx.(op_orgId) -> plain_segment ctx.(op_driveId) -> Forall clean l ->
  ls ctx (Some (render l)) w = (Ok entries, w') -> w' = w /\ children_shown ctx l w entries.
Proof. apply ls_children. Qed.

(** ** [reveal] *)

Lemma revealAncestors_names m : Forall clean m -> m <> [] -> revealAncestors (render m) = (fun i => render (take i m)) <$> seq 0 (length m).
Proof.
  intros Hm Hne. unfold revealAncestors. rewrite split_rooted by done. rewrite filter_cons_False by tauto.
  rewrite filter_all by (intros x Hx; by apply (proj1 (Forall_forall _ _) Hm)). destruct m as [|x m]; [done|].
  cbn [length]. rewrite Nat.sub_succ, Nat.sub_0_r. cbn [seq fmap list_fmap]. f_equal. rewrite <- seq_shift, <- list_fmap_compose. done.
Qed.

Lemma stat_found now ctx m w st w' : plain_segment ctx.(op_orgId) -> Forall clean m -> m <> [] ->
  stat now ctx (render m) w = (Ok st, w') -> w' = w /\ is_Some (object w.(w_store) (key_of_names_in ctx m)).
Proof.
  intros Ho Hm Hne H. unfold stat in H. rewrite normalizePath_of_names in H by done. fold (key_of_names_in ctx m) in H.
  apply bind_ok in H as (hd & w1 & Hh & H). apply bind_ok in H as (f & w2 & Hq & H). injection H as _ <-. apply gets_ok in Hq as [_ ->].
  unfold try_catch, in_store, on in Hh. destruct (headObject (key_of_names_in ctx m) w.(w_store)) as [[r|e] s'] eqn:E.
  - injection Hh as _ <-. apply head_law in E as (-> & Hfound & _). split; [by destruct w|].
    destruct (Hfound ltac:(by apply drive_key_law) r eq_refl) as (b & Hb & _). by exists b.
  - destruct (is_storage_not_found e); discriminate Hh.
Qed.

Lemma normalizePrefix_rooted path : starts_with "/" (normalizePrefix path) = true.
Proof.
  apply starts_with_spec. unfold normalizePrefix. destruct (starts_with "/" path) eqn:E.
  - apply starts_with_spec in E as [q ->]. destruct (ends_with _ _); eexists; [done|by rewrite app_assoc_str].
  - destruct (ends_with _ _); eexists; [done|by rewrite app_assoc_str].
Qed.

Lemma ls_pure ctx path w es w' : ls ctx (Some path) w = (Ok es, w') -> w' = w.
Proof. intros H. by apply ls_level in H as [-> _]; [|apply normalizePrefix_rooted]. Qed.

Lemma combined {A B} (P : A -> B -> Prop) l k : Forall2 P l k ->
  (combine l k).*1 = l /\ forall (i : nat) a, l !! i = Some a -> exists b, combine l k !! i = Some (a, b) /\ P a b.
Proof.
  intros HF. induction HF as [|a b l k Hab HF [IH1 IH2]]; [split; [done|]; intros i a Hi; by rewrite lookup_nil in Hi|].
  split; [cbn; by f_equal|]. intros [|i] x Hi; cbn in Hi |- *; [injection Hi as <-; by exists b|by apply IH2].
Qed.

(** [reveal] shows the way to a file.  When it answers for a canonical path,
    nothing is changed, there is one listing for every folder on the path, from
    the root down, and each listing shows the next name of the path: a folder,
    and in the last listing the file itself. *)
Theorem reveal_shows_the_way now ctx m w p st listings w' :
  plain_segment ctx.(op_orgId) -> plain_segment ctx.(op_driveId) -> Forall clean m -> m <> [] ->
  reveal now ctx (render m) w = (Ok (p, st, listings), w') ->
  w' = w /\ p = render m /\ listings.*1 = (fun i => render (take i m)) <$> seq 0 (length m) /\
  forall i name, m !! i = Some name -> exists entries, listings !! i = Some (render (take i m), entries) /\
    shows entries name (if decide (S i = length m) then KindFile else KindDirectory).
Proof.
  intros Ho Hd Hm Hne H. unfold reveal in H. rewrite normalizePath_of_names in H by done.
  apply bind_ok in H as (u & w1 & Ht & H). apply throw_if_ok in Ht as [_ ->]. rewrite revealAncestors_names in H by done.
  apply bind_ok in H as (st' & w1 & Hst & H). apply stat_found in Hst as [-> Hobj]; [|done..].
  apply bind_ok in H as (ls_ & w1 & Hls & H). injection H as <- <- <- <-.
  set (dirs := (fun i => render (take i m)) <$> seq 0 (length m)) in *.
  apply (map_m_pure (fun dir => ls ctx (Some dir)) (fun dir es => ls ctx (Some dir) w = (Ok es, w))) in Hls as [-> HF]; [|by intros dir; apply ls_pure|done].
  split; [done|]. split; [done|]. destruct (combined _ _ _ HF) as [Hfst Hnth]. split; [exact Hfst|]. intros i name Hi.
  pose proof (lookup_lt_Some _ _ _ Hi) as Hlt. destruct (Hnth i (render (take i m))) as (entries & Hent & Hrun).
  { unfold dirs. by rewrite list_lookup_fmap, lookup_seq_lt. }
  exists entries. split; [done|]. pose proof (take_drop_middle m i name Hi) as Hsplit.
  apply ls_shows_children_at in Hrun; [|done..|by apply Forall_take]. destruct Hrun as [Hfile Hfolder].
  assert (Hclean : Forall clean (name :: drop (S i) m)) by (rewrite <- Hsplit in Hm; by apply Forall_app in Hm as [_ Hm]).
  case_decide as Hlast.
  - apply Hfile; [by inversion Hclean|]. rewrite (drop_ge m (S i)) in Hsplit by lia. by rewrite Hsplit.
  - apply (Hfolder name (drop (S i) m)); [done| |by rewrite Hsplit].
    intros E. apply (f_equal length) in E. rewrite length_drop in E. cbn in E. lia.
Qed.

(** ** [tree] *)

Definition within (depth : option nat) (m : list string) : Prop := match depth with Some d => (length m <= d)%nat | None => True end.

Lemma join_no_end m : Forall clean m -> m <> [] -> ends_with "/" (join "/" m) = false.
Proof.
  intros Hm Hne. destruct (ends_with "/" (join "/" m)) eqn:E; [|done]. exfalso. apply ends_with_spec in E as [a Ha].
  pose proof (split_join m Hne Hm) as Hs. rewrite Ha in Hs. change (a +:+ "/") with (a +:+ String slash "") in Hs. rewrite split_on_app_sep in Hs by done.
  assert (Hin : "" ∈ m) by (rewrite <- Hs; apply elem_of_app; right; by left). by pose proof (proj1 (Forall_forall _ _) Hm _ Hin) as [? _].
Qed.

Lemma tree_item_names prefix p depth dbFiles o m : o.(so_key) = p +:+ join "/" m -> Forall clean m -> m <> [] -> within depth m ->
  exists info, tree_item prefix p depth dbFiles o = Some (m, Some info).
Proof.
  intros Hk Hm Hne Hw. unfold tree_item. rewrite Hk, drop_str_app, split_join by done.
  rewrite filter_all by (intros x Hx; by apply (proj1 (Forall_forall _ _) Hm)). rewrite bool_decide_false by done. rewrite join_no_end by done.
  destruct depth as [d|]; [|by eexists]. cbn in Hw. destruct (Nat.ltb_spec d (length m)); [lia|by eexists].
Qed.

Lemma tree_item_parts prefix p depth dbFiles o it : tree_item prefix p depth dbFiles o = Some it -> it.1 <> [].
Proof. unfold tree_item. case_bool_decide; [done|]. destruct (match depth with Some _ => _ | None => _ end); [done|]. by intros [= <-]. Qed.

(** [tree] answers the listing as a tree.  Its leaves are exactly the listed
    objects that the depth admits, each at the path of its names; its folders are
    exactly the folders above them and the folder markers, and no folder appears
    twice; so every object at a canonical path within the depth is a leaf, under
    all its folders; and nothing is changed. *)
Theorem tree_is_the_listing ctx l depth w t w' :
  plain_segment ctx.(op_orgId) -> plain_segment ctx.(op_driveId) -> Forall clean l ->
  tree ctx (Some (render l)) depth w = (Ok t, w') ->
  let p := getS3Key ctx.(op_orgId) ctx.(op_driveId) (folder_prefix l) in
  w' = w /\
  exists objs pre, listObjects p None None w.(w_store) = (Ok (objs, pre), w.(w_store)) /\
    (let items := omap (tree_item (folder_prefix l) p depth (db_file_map w.(w_db) ctx.(op_driveId) (folder_prefix l))) objs in
     tree_files t ≡ₚ omap (fun it => (fun info => (it.1, info)) <$> it.2) items /\
     (forall d, d ∈ tree_dirs t <-> exists it, it ∈ items /\ needs_dir it.2 it.1 d)) /\
    NoDup (tree_dirs t) /\
    forall m, Forall clean m -> m <> [] -> within depth m -> is_Some (object w.(w_store) (key_of_names_in ctx (l ++ m))) ->
      (exists info, (m, info) ∈ tree_files t) /\ forall d, d <> [] -> d `prefix_of` m -> d <> m -> d ∈ tree_dirs t.
Proof.
  intros Ho Hd Hl H p. unfold tree in H. change (normalizePrefix (Some (render l) ?? "/")) with (folder_prefix l) in H. fold p in H.
  apply bind_ok in H as ([objs pre] & w1 & Hlist & H). apply in_store_ok in Hlist as (s' & Hlist & ->).
  pose proof (list_all_law _ _ _ _ _ Hlist) as (-> & _ & _ & Hall). replace (w <| w_store := w.(w_store) |>) with w in H by (by destruct w).
  apply bind_ok in H as (dbFiles & w1 & Hq & H). apply gets_ok in Hq as [-> ->]. injection H as <- <-. split; [done|].
  exists objs, pre. split; [done|]. cbn [fst]. set (items := omap _ objs).
  destruct (build_tree_spec items []) as (Hf & Hdirs & Hnd).
  { apply Forall_forall. intros it (o & _ & Ho')%list_elem_of_omap. by eapply tree_item_parts. }
  fold (build_tree items) in Hf, Hdirs, Hnd. cbn [tree_files map concat] in Hf. rewrite app_nil_r in Hf.
  assert (Hdirs' : forall d, d ∈ tree_dirs (build_tree items) <-> exists it, it ∈ items /\ needs_dir it.2 it.1 d).
  { intros d. rewrite Hdirs. split; [|by right]. by intros [?%elem_of_nil|]. }
  split; [by split|]. split; [apply Hnd; constructor|]. intros m Hm Hne Hw Hs.
  assert (Hin : exists info, (m, Some info) ∈ items).
  { destruct m as [|name rest]; [done|]. assert (Hlm : Forall clean (l ++ name :: rest)) by (by apply Forall_app).
    rewrite <- (child_key ctx l Hl name rest Hlm) in Hs. fold p in Hs.
    assert (Hk : p +:+ join "/" (name :: rest) ∈ so_key <$> objs).
    { apply Hall; [| |apply starts_with_app|done]; unfold p; rewrite (child_key ctx l Hl name rest Hlm);
        [by apply drive_key_law|apply plain_key_names; [done..|by destruct l]]. }
    apply list_elem_of_fmap in Hk as (o & Hk & Hin).
    destruct (tree_item_names (folder_prefix l) p depth (db_file_map w.(w_db) ctx.(op_driveId) (folder_prefix l)) o (name :: rest)) as [info Hinfo]; [done..|].
    exists info. apply list_elem_of_omap. by exists o. }
  destruct Hin as [info Hin]. split.
  - exists info. rewrite Hf. apply list_elem_of_omap. by exists (m, Some info).
  - intros d Hd1 Hd2 Hd3. apply Hdirs'. exists (m, Some info). done.
Qed.
End Ls.

(** ** Witnesses: a drive with a file, a file in a folder, and a file further down *)

Definition listed_store : MemStore :=
  let put k b s := {| ms_objects := <[k := (b, None)]> s.(ms_objects); ms_versions := s.(ms_versions); ms_next := s.(ms_next) |} in
  put "o1/drives/d1/a.md" "hello" (put "o1/drives/d1/docs/b.md" "b" (put "o1/drives/d1/docs/old/c.md" "" empty_store)).

Definition listed_world : World MemStore :=
  {| w_db := empty_db; w_store := listed_store; w_events := []; w_wakeups := 0; w_glob := empty_glob_cache |}.

Definition reader : OpContext := Build_OpContext "o1" "d1" "u1" None None None None.

Lemma listed_clean : Forall clean ["docs"; "b.md"].
Proof. repeat constructor; try discriminate; reflexivity. Qed.

Definition root_entries : list LsEntry :=
  [ls_directory "docs"; {| ls_name := "a.md"; ls_type := KindFile; ls_size := 5; ls_author := None; ls_modifiedAt := None |}].

Lemma ls_shows_children_witness :
  ls reader (Some (render [])) listed_world = (Ok root_entries, listed_world) /\ children_shown reader [] listed_world root_entries.
Proof.
  assert (H : ls reader (Some (render [])) listed_world = (Ok root_entries, listed_world)) by (vm_compute; reflexivity).
  split; [exact H|].
  apply (ls_shows_children (rt := ascii_runtime) reader [] listed_world root_entries listed_world); [..|constructor|exact H];
    repeat split; (discriminate || reflexivity).
Defined.

Lemma tree_is_the_listing_witness :
  exists t, tree reader (Some (render [])) None listed_world = (Ok t, listed_world) /\ NoDup (tree_dirs t) /\
    (["docs"; "b.md"], {| tf_size := 1; tf_author := None; tf_modifiedAt := None |}) ∈ tree_files t /\ ["docs"; "old"] ∈ tree_dirs t.
Proof.
  destruct (tree reader (Some (render [])) None listed_world) as [o w'] eqn:E.
  assert (Ho : exists t, o = Ok t /\ w' = listed_world /\
    (["docs"; "b.md"], {| tf_size := 1; tf_author := None; tf_modifiedAt := None |}) ∈ tree_files t /\ ["docs"; "old"] ∈ tree_dirs t).
  { vm_compute in E. injection E as <- <-. eexists. split; [reflexivity|]. split; [reflexivity|]. split; vm_compute; set_solver. }
  destruct Ho as (t & -> & -> & Hf & Hdir). exists t. split; [reflexivity|].
  apply (tree_is_the_listing (rt := ascii_runtime)) in E as (_ & objs & pre & _ & _ & Hnd & _);
    [|repeat split; (discriminate || reflexivity)..|constructor].
  split; [exact Hnd|]. split; [exact Hf|exact Hdir].
Defined.

Lemma reveal_shows_the_way_witness :
  exists st entries sub, reveal 0 reader (render ["docs"; "b.md"]) listed_world =
    (Ok (render ["docs"; "b.md"], st, [("/", entries); ("/docs", sub)]), listed_world) /\
    shows entries "docs" KindDirectory /\ shows sub "b.md" KindFile.
Proof.
  destruct (reveal 0 reader (render ["docs"; "b.md"]) listed_world) as [o w'] eqn:E.
  assert (Ho : exists st entries sub, o = Ok (render ["docs"; "b.md"], st, [("/", entries); ("/docs", sub)])).
  { vm_compute in E. injection E as <- _. do 3 eexists. reflexivity. }
  destruct Ho as (st & entries & sub & ->). exists st, entries, sub.
  apply (reveal_shows_the_way (rt := ascii_runtime)) in E as (-> & _ & _ & Hway);
    [|repeat split; (discriminate || reflexivity)..|apply listed_clean|discriminate].
  split; [reflexivity|]. destruct (Hway 0%nat "docs" eq_refl) as (es & [= <-] & H0). destruct (Hway 1%nat "b.md" eq_refl) as (es & [= <-] & H1).
  split; [exact H0|exact H1].
Defined.

(** With a depth, a folder whose files are all deeper is not shown at all. *)
Lemma tree_depth_hides_folders :
  tree reader (Some "/docs/") (Some 1%nat) listed_world =
    (Ok [TreeFile "b.md" {| tf_size := 1; tf_author := None; tf_modifiedAt := None |}], listed_world).
Proof. by vm_compute. Qed.
