(* ===== verification/Glob.v ===== *)
(** * Glob patterns: core/src/ops/glob.ts

    [globToRegex] turns a pattern into a regular expression of three kinds of
    atoms; it is kept here as those atoms ([regex_source] is its text), over the
    UTF-16 units that JavaScript matches.  The theorem: [glob] answers the
    listed files that the op's description promises for the pattern, and no other
    when the pattern has no two stars before a slash; the slash that follows two
    stars is dropped by the code, and the language that this gives is stated too.
    A pattern without two stars matches at its own depth only.  The listing comes
    from GlobCache. *)

From S2P Require Import Prelude JsString Errors Paths Schema Drives Text Utf16 Storage GlobCache World Outbox Search Versioning FileOps FileSpec JbPath RawRoute PathNames Listing ListSpec.

Inductive GlobToken : Type :=
| GAll            (* [.*] *)
| GName           (* [[^/]*] *)
| GOne            (* [[^/]] *)
| GChar (c : Z).

Definition STAR : Z := 42.
Definition QUESTION : Z := 63.
Definition SLASH : Z := 47.

(** The loop of [globToRegex]. *)
Fixpoint glob_tokens (pattern : list Z) : list GlobToken :=
  match pattern with
  | [] => []
  | char :: p1 =>
      if char =? STAR then
        match p1 with
        | c2 :: p2 =>
            if c2 =? STAR then
              GAll :: match p2 with
                      | c3 :: p3 => if c3 =? SLASH then glob_tokens p3 else glob_tokens p2
                      | [] => []
                      end
            else GName :: glob_tokens p1
        | [] => [GName]
        end
      else if char =? QUESTION then GOne :: glob_tokens p1
      else GChar char :: glob_tokens p1
  end.

Definition globToRegex (pattern : string) : list GlobToken := glob_tokens (to_utf16 pattern).

(** The text of the expression, between [^] and [$]. *)
Definition special : list Z := to_utf16 ".+^${}()|[]\".
Definition token_source (t : GlobToken) : list Z :=
  match t with
  | GAll => to_utf16 ".*"
  | GName => to_utf16 "[^/]*"
  | GOne => to_utf16 "[^/]"
  | GChar c => if bool_decide (c ∈ special) then [92; c] else [c]
  end.
Definition regex_source (ts : list GlobToken) : list Z := [94] ++ concat (map token_source ts) ++ [36].

Example regex_of_pattern : regex_source (globToRegex "**/a?*.md") = to_utf16 "^.*a[^/][^/]*\.md$".
Proof. by vm_compute. Qed.

(** A dot does not match a line terminator. *)
Definition is_line_end (u : Z) : bool := (u =? 10) || (u =? 13) || (u =? 8232) || (u =? 8233).

(** [regex.test]. *)
Fixpoint regex_test (ts : list GlobToken) : list Z -> bool :=
  match ts with
  | [] => fun u => match u with [] => true | _ => false end
  | GChar c :: ts' => fun u => match u with x :: u' => (x =? c) && regex_test ts' u' | [] => false end
  | GOne :: ts' => fun u => match u with x :: u' => negb (x =? SLASH) && regex_test ts' u' | [] => false end
  | GName :: ts' =>
      fix any u := regex_test ts' u || match u with x :: u' => negb (x =? SLASH) && any u' | [] => false end
  | GAll :: ts' =>
      fix any u := regex_test ts' u || match u with x :: u' => negb (is_line_end x) && any u' | [] => false end
  end.

(** ** The op *)

Record GlobMatch : Type := { gm_path : string; gm_size : Z; gm_modifiedAt : option Z }.

Definition glob_matches (regex : list GlobToken) (relativePath : string) : bool :=
  negb (bool_decide (relativePath = "")) && negb (ends_with "/" relativePath) && regex_test regex (to_utf16 relativePath).

Definition glob_match (regex : list GlobToken) (prefix s3Prefix : string) (dbFiles : list (string * File)) (obj : S3Object) : option GlobMatch :=
  let relativePath := drop_str (String.length s3Prefix) obj.(so_key) in
  if glob_matches regex relativePath then
    let dbFile := map_get dbFiles (prefix +:+ relativePath) in
    Some {| gm_path := prefix +:+ relativePath; gm_size := (file_size <$> dbFile) ?? obj.(so_size);
            gm_modifiedAt := match dbFile with Some f => Some f.(file_modifiedAt) | None => obj.(so_lastModified) end |}
  else None.

Section Glob.
Context {Store : Type} {SA : StorageAdapter Store}.

(** [await getCachedDriveListing(...)], called at [now], its load settling at
    [settled].  The op is the only one running, so that no load of another is
    pending and a promised listing is the one this call loads. *)
Definition cached_listing (now settled : Z) (ctx : OpContext) (prefix : string) (load : OpM Store (list S3Object * list string))
    : OpM Store (list S3Object * list string) := fun w =>
  let r := getCachedDriveListing now ctx.(op_orgId) ctx.(op_driveId) prefix w.(w_glob) in
  let w := w <| w_glob := r.2 |> in
  match r.1 with
  | Cached listing => (Ok listing, w)
  | Promised request =>
      match load w with
      | (Ok listing, w) => (Ok listing, w <| w_glob ::= settle settled request (Some listing) |>)
      | (Throw e, w) => (Throw e, w <| w_glob ::= settle settled request None |>)
      end
  end.

Definition glob (now settled : Z) (ctx : OpContext) (pattern : string) (path : option string) : OpM Store (list GlobMatch) :=
  let prefix := match truthy path with Some path => normalizePrefix path | None => "/" end in
  let s3Prefix := getS3Key ctx.(op_orgId) ctx.(op_driveId) prefix in
  listing ← cached_listing now settled ctx prefix (in_store (listObjects s3Prefix None None));
  dbFiles ← query (fun db => db_file_map db ctx.(op_driveId) prefix);
  let regex := globToRegex pattern in
  mret (omap (glob_match regex prefix s3Prefix dbFiles) listing.1).
End Glob.

(** ** The language of an expression *)

Inductive glob_lang : list GlobToken -> list Z -> Prop :=
| gl_end : glob_lang [] []
| gl_char c ts u : glob_lang ts u -> glob_lang (GChar c :: ts) (c :: u)
| gl_one x ts u : x <> SLASH -> glob_lang ts u -> glob_lang (GOne :: ts) (x :: u)
| gl_name v ts u : Forall (fun x => x <> SLASH) v -> glob_lang ts u -> glob_lang (GName :: ts) (v ++ u)
| gl_all v ts u : Forall (fun x => is_line_end x = false) v -> glob_lang ts u -> glob_lang (GAll :: ts) (v ++ u).

(** A run of units that the atom admits, and the rest. *)
Lemma run_spec (admits : Z -> bool) (rest : list Z -> bool) u :
  (fix any u := rest u || match u with x :: u' => admits x && any u' | [] => false end) u = true <->
  exists v u', u = v ++ u' /\ Forall (fun x => admits x = true) v /\ rest u' = true.
Proof.
  induction u as [|x u IH].
  - rewrite orb_false_r. split; [by exists [], []|]. intros (v & u' & E & _ & H). symmetry in E. by apply app_nil in E as [-> ->].
  - rewrite orb_true_iff, andb_true_iff, IH. split.
    + intros [H|(Hx & v & u' & -> & Hv & H)]; [by exists [], (x :: u)|]. exists (x :: v), u'. split; [done|]. split; [by constructor|done].
    + intros ([|y v] & u' & E & Hv & H); cbn in E.
      * left. by rewrite E.
      * right. injection E as -> ->. inversion Hv; subst. split; [done|]. by exists v, u'.
Qed.

Lemma regex_test_spec ts u : regex_test ts u = true <-> glob_lang ts u.
Proof.
  revert u. induction ts as [|t ts IH]; intros u.
  - destruct u; split; [constructor|done|done|inversion 1].
  - destruct t as [| | |c]; cbn [regex_test].
    + rewrite (run_spec (fun x => negb (is_line_end x)) (regex_test ts)). split.
      * intros (v & u' & -> & Hv & H). constructor; [|by apply IH]. eapply Forall_impl; [exact Hv|]. intros x Hx. by apply negb_true_iff.
      * intros H. inversion H as [| | | |v ts' u' Hv Hu]; subst. exists v, u'. split; [done|]. split; [|by apply IH].
        eapply Forall_impl; [exact Hv|]. intros x Hx. by apply negb_true_iff.
    + rewrite (run_spec (fun x => negb (x =? SLASH)) (regex_test ts)). split.
      * intros (v & u' & -> & Hv & H). constructor; [|by apply IH]. eapply Forall_impl; [exact Hv|]. intros x Hx. by apply Z.eqb_neq, negb_true_iff.
      * intros H. inversion H as [| | |v ts' u' Hv Hu|]; subst. exists v, u'. split; [done|]. split; [|by apply IH].
        eapply Forall_impl; [exact Hv|]. intros x Hx. by apply negb_true_iff, Z.eqb_neq.
    + destruct u as [|x u]; [split; [done|inversion 1]|]. rewrite andb_true_iff, negb_true_iff, Z.eqb_neq, IH. split; [intros [? ?]; by constructor|by inversion 1].
    + destruct u as [|x u]; [split; [done|inversion 1]|]. rewrite andb_true_iff, Z.eqb_eq, IH. split; [intros [-> ?]; by constructor|by inversion 1].
Qed.

(** ** The language of a pattern

    The wildcards as the comment of [globToRegex] gives them: two stars any
    characters, a slash too, one star any but a slash, a question mark one that is
    no slash; every other character is itself, the slash after two stars as well. *)
Inductive wild_lang : list Z -> list Z -> Prop :=
| wl_end : wild_lang [] []
| wl_stars v p u : wild_lang p u -> wild_lang (STAR :: STAR :: p) (v ++ u)
| wl_star v p u : Forall (fun x => x <> SLASH) v -> head p <> Some STAR -> wild_lang p u -> wild_lang (STAR :: p) (v ++ u)
| wl_one x p u : x <> SLASH -> wild_lang p u -> wild_lang (QUESTION :: p) (x :: u)
| wl_char c p u : c <> STAR -> c <> QUESTION -> wild_lang p u -> wild_lang (c :: p) (c :: u).

(** The language that the description of the op promises: two stars are any path
    depth, so that where a name begins ([start]), two stars and a slash are no
    folder too, and [**/*.md] answers the files of the scope itself. *)
Inductive documented : bool -> list Z -> list Z -> Prop :=
| dl_end start : documented start [] []
| dl_no_folder p u : documented true p u -> documented true (STAR :: STAR :: SLASH :: p) u
| dl_stars start v p u : documented false p u -> documented start (STAR :: STAR :: p) (v ++ u)
| dl_star start v p u : Forall (fun x => x <> SLASH) v -> head p <> Some STAR -> documented false p u -> documented start (STAR :: p) (v ++ u)
| dl_one start x p u : x <> SLASH -> documented false p u -> documented start (QUESTION :: p) (x :: u)
| dl_char start c p u : c <> STAR -> c <> QUESTION -> documented (c =? SLASH) p u -> documented start (c :: p) (c :: u).

(** The pattern without the slash that follows two stars. *)
Fixpoint drop_star_slashes (p : list Z) : list Z :=
  match p with
  | [] => []
  | c :: p1 =>
      if c =? STAR then
        match p1 with
        | c2 :: p2 =>
            if c2 =? STAR then
              STAR :: STAR :: match p2 with
                              | c3 :: p3 => if c3 =? SLASH then drop_star_slashes p3 else drop_star_slashes p2
                              | [] => []
                              end
            else STAR :: drop_star_slashes p1
        | [] => [STAR]
        end
      else c :: drop_star_slashes p1
  end.

(** Two stars and a slash. *)
Fixpoint has_star_slash (p : list Z) : bool :=
  match p with c :: p' => ((c =? STAR) && bool_decide (take 2 p' = [STAR; SLASH])) || has_star_slash p' | [] => false end.

Definition one_line (u : list Z) : Prop := Forall (fun x => is_line_end x = false) u.

(** How the loop goes through a pattern. *)
Inductive tokens_of : list Z -> list GlobToken -> Prop :=
| to_end : tokens_of [] []
| to_stars_slash p ts : tokens_of p ts -> tokens_of (STAR :: STAR :: SLASH :: p) (GAll :: ts)
| to_stars p ts : head p <> Some SLASH -> tokens_of p ts -> tokens_of (STAR :: STAR :: p) (GAll :: ts)
| to_star p ts : head p <> Some STAR -> tokens_of p ts -> tokens_of (STAR :: p) (GName :: ts)
| to_one p ts : tokens_of p ts -> tokens_of (QUESTION :: p) (GOne :: ts)
| to_char c p ts : c <> STAR -> c <> QUESTION -> tokens_of p ts -> tokens_of (c :: p) (GChar c :: ts).

Lemma glob_tokens_of p : tokens_of p (glob_tokens p).
Proof.
  remember (length p) as n eqn:En. revert p En. induction (lt_wf n) as [n _ IH]. intros p ->.
  assert (IH' : forall q, (length q < length p)%nat -> tokens_of q (glob_tokens q)) by (intros q Hq; by eapply IH). clear IH.
  destruct p as [|c p1]; [constructor|]. cbn [glob_tokens]. destruct (Z.eqb_spec c STAR) as [->|Hc].
  - destruct p1 as [|c2 p2]; [by repeat constructor|]. destruct (Z.eqb_spec c2 STAR) as [->|Hc2].
    + destruct p2 as [|c3 p3]; [by repeat constructor|].
      destruct (Z.eqb_spec c3 SLASH) as [->|Hc3]; constructor; [apply IH'; cbn; lia|by intros [= ->]|apply IH'; cbn; lia].
    + constructor; [by intros [= ->]|apply IH'; cbn; lia].
  - destruct (Z.eqb_spec c QUESTION) as [->|Hq]; constructor; try done; apply IH'; cbn; lia.
Qed.

(** How the slashes are dropped, by the steps of the loop. *)
Lemma drop_stars p : head p <> Some SLASH -> drop_star_slashes (STAR :: STAR :: p) = STAR :: STAR :: drop_star_slashes p.
Proof. intros H. destruct p as [|c p]; [done|]. cbn. destruct (Z.eqb_spec c SLASH) as [->|]; done. Qed.

Lemma drop_star p : head p <> Some STAR -> drop_star_slashes (STAR :: p) = STAR :: drop_star_slashes p.
Proof. intros H. destruct p as [|c p]; [done|]. cbn. destruct (Z.eqb_spec c STAR) as [->|]; done. Qed.

Lemma drop_char c p : c <> STAR -> drop_star_slashes (c :: p) = c :: drop_star_slashes p.
Proof. intros H. cbn. by rewrite (proj2 (Z.eqb_neq c STAR)). Qed.

Lemma drop_head p : head p <> Some STAR -> head (drop_star_slashes p) <> Some STAR.
Proof. intros H. destruct p as [|c p]; [done|]. rewrite drop_char by (by intros ->). exact H. Qed.

Lemma one_line_app u v : one_line (u ++ v) <-> one_line u /\ one_line v.
Proof. apply Forall_app. Qed.

(** The regular expression is the pattern without those slashes. *)
Lemma glob_wild p u : glob_lang (glob_tokens p) u -> wild_lang (drop_star_slashes p) u.
Proof.
  pose proof (glob_tokens_of p) as H. revert u.
  induction H as [|p ts H IH|p ts Hs H IH|p ts Hs H IH|p ts H IH|c p ts H1 H2 H IH]; intros u Hu; inversion Hu; subst.
  - constructor.
  - apply wl_stars. by apply IH.
  - rewrite drop_stars by done. apply wl_stars. by apply IH.
  - rewrite drop_star by done. apply wl_star; [done|by apply drop_head|by apply IH].
  - rewrite drop_char by done. apply wl_one; [done|by apply IH].
  - rewrite drop_char by done. apply wl_char; [done..|by apply IH].
Qed.

Lemma wild_glob p u : one_line u -> wild_lang (drop_star_slashes p) u -> glob_lang (glob_tokens p) u.
Proof.
  pose proof (glob_tokens_of p) as H. revert u.
  induction H as [|p ts H IH|p ts Hs H IH|p ts Hs H IH|p ts H IH|c p ts H1 H2 H IH]; intros u Hl Hu.
  - inversion Hu. constructor.
  - inversion Hu as [|v q w Hw| | |]; subst; try done. apply one_line_app in Hl as [? ?]. constructor; [done|by apply IH].
  - rewrite drop_stars in Hu by done. inversion Hu as [|v q w Hw| | |]; subst; try done.
    apply one_line_app in Hl as [? ?]. constructor; [done|by apply IH].
  - rewrite drop_star in Hu by done. pose proof (drop_head p Hs) as Hh.
    inversion Hu as [|v q w Hw Hq|v q w Hv Hq Hw| |]; subst; try done; [match goal with E : _ :: _ = drop_star_slashes _ |- _ => rewrite <- E in Hh; by destruct Hh end|].
    apply one_line_app in Hl as [? ?]. constructor; [done|by apply IH].
  - rewrite drop_char in Hu by done. inversion Hu; subst; try done. inversion Hl; subst. constructor; [done|by apply IH].
  - rewrite drop_char in Hu by done. inversion Hu; subst; try done. inversion Hl; subst. constructor; by apply IH.
Qed.

Lemma drop_none p : has_star_slash p = false -> drop_star_slashes p = p.
Proof.
  pose proof (glob_tokens_of p) as H. induction H as [|p ts H IH|p ts Hs H IH|p ts Hs H IH|p ts H IH|c p ts H1 H2 H IH]; intros Hn.
  - done.
  - done.
  - rewrite drop_stars by done. do 2 f_equal. apply IH. cbn [has_star_slash] in Hn. by apply orb_false_iff in Hn as [_ [_ Hn]%orb_false_iff].
  - rewrite drop_star by done. f_equal. apply IH. cbn [has_star_slash] in Hn. by apply orb_false_iff in Hn as [_ Hn].
  - rewrite drop_char by done. f_equal. by apply IH.
  - rewrite drop_char by done. f_equal. apply IH. cbn [has_star_slash] in Hn. by apply orb_false_iff in Hn as [_ Hn].
Qed.

(** What is promised is in the language of the expression. *)
Lemma documented_wild start p u : documented start p u -> wild_lang (drop_star_slashes p) u.
Proof.
  induction 1 as [|p u H IH|start v p u H IH|start v p u Hv Hs H IH|start x p u Hx H IH|start c p u H1 H2 H IH].
  - constructor.
  - apply (wl_stars [] _ u IH).
  - destruct (decide (head p = Some SLASH)) as [Hp|Hp]; [|rewrite drop_stars by done; by apply wl_stars].
    destruct p as [|c p]; [done|]. injection Hp as ->. rewrite drop_char in IH by done. inversion IH as [| | | |c' p' u' _ _ Hu']; subst; try done.
    change (v ++ SLASH :: u') with (v ++ [SLASH] ++ u'). rewrite app_assoc. by apply (wl_stars (v ++ [SLASH])).
  - rewrite drop_star by done. apply wl_star; [done|by apply drop_head|done].
  - rewrite drop_char by done. by apply wl_one.
  - rewrite drop_char by done. by apply wl_char.
Qed.

Lemma wild_documented start p u : wild_lang p u -> documented start p u.
Proof. intros H. revert start. induction H; intros start; by constructor. Qed.

(** Two stars in a row. *)
Fixpoint has_stars (p : list Z) : bool :=
  match p with c :: p' => ((c =? STAR) && bool_decide (head p' = Some STAR)) || has_stars p' | [] => false end.

(** How many slashes. *)
Definition depth_of (u : list Z) : nat := length (filter (fun x => x = SLASH) u).

Lemma depth_of_app u v : depth_of (u ++ v) = (depth_of u + depth_of v)%nat.
Proof. unfold depth_of. by rewrite filter_app, length_app. Qed.

Lemma depth_of_name v : Forall (fun x => x <> SLASH) v -> depth_of v = 0%nat.
Proof. intros H. unfold depth_of. rewrite filter_none; [done|]. intros x Hx. by apply (proj1 (Forall_forall _ _) H). Qed.

(** Without two stars in a row, the slashes of a path are those of the pattern. *)
Lemma pattern_depth p u : has_stars p = false -> wild_lang p u -> depth_of u = depth_of p.
Proof.
  intros Hn H. induction H as [|v p u H IH|v p u Hv Hs H IH|x p u Hx H IH|c p u H1 H2 H IH]; [done|done|..];
    cbn [has_stars] in Hn; apply orb_false_iff in Hn as [_ Hn].
  - rewrite depth_of_app, (IH Hn), depth_of_name by done. done.
  - change (x :: u) with ([x] ++ u). rewrite depth_of_app, (IH Hn), depth_of_name by (by constructor). done.
  - change (c :: u) with ([c] ++ u). change (c :: p) with ([c] ++ p). by rewrite !depth_of_app, (IH Hn).
Qed.

Lemma no_stars_no_slash p : has_stars p = false -> has_star_slash p = false.
Proof.
  induction p as [|c p IH]; [done|]. cbn. intros [H1 H2]%orb_false_iff. apply orb_false_iff. split; [|by apply IH].
  apply andb_false_iff in H1 as [H1|H1]; apply andb_false_iff; [by left|right]. rewrite bool_decide_eq_false in H1 |- *.
  intros H. apply H1. destruct p as [|d p]; [done|]. cbn in *. congruence.
Qed.

Lemma documented_char start c p u : c <> STAR -> c <> QUESTION -> documented start (c :: p) u ->
  exists u', u = c :: u' /\ documented (c =? SLASH) p u'.
Proof. intros Hs Hq H. inversion H; subst; try done. eauto. Qed.

(** ** What [glob] answers *)

Section GlobSpec.
Context {rt : Runtime} {Store : Type} {SA : StorageAdapter Store} {SV : StorageView Store} {SL : StorageLaws Store} {LL : ListingLaws Store}.

Definition cached_only (now : Z) (ctx : OpContext) (prefix : string) (w : World Store) : option (list S3Object * list string) :=
  match (getCachedDriveListing now ctx.(op_orgId) ctx.(op_driveId) prefix w.(w_glob)).1 with Cached listing => Some listing | Promised _ => None end.

Lemma cached_listing_spec now settled ctx prefix p (w : World Store) listing w' :
  cached_listing now settled ctx prefix (in_store (listObjects p None None)) w = (Ok listing, w') ->
  w'.(w_db) = w.(w_db) /\ w'.(w_store) = w.(w_store) /\
  match cached_only now ctx prefix w with
  | Some kept => listing = kept
  | None => listObjects p None None w.(w_store) = (Ok listing, w.(w_store))
  end.
Proof.
  unfold cached_listing, cached_only. destruct (getCachedDriveListing _ _ _ _ _) as [[kept|r] g]; cbn [fst snd].
  - by intros [= <- <-].
  - destruct (in_store _ _) as [[got|e] w1] eqn:E; [|discriminate]. intros [= <- <-]. apply in_store_ok in E as (s' & E & ->).
    destruct got as [objs pre]. pose proof (list_all_law _ _ _ _ _ E) as (-> & _). done.
Qed.

Lemma glob_matches_spec pattern rel : glob_matches (globToRegex pattern) rel = true <->
  rel <> "" /\ ends_with "/" rel = false /\ glob_lang (glob_tokens (to_utf16 pattern)) (to_utf16 rel).
Proof. unfold glob_matches, globToRegex. rewrite !andb_true_iff, !negb_true_iff, bool_decide_eq_false, regex_test_spec. tauto. Qed.

(** What a matching path is, and which paths match. *)
Lemma glob_matches_only pattern rel : glob_matches (globToRegex pattern) rel = true ->
  let pat := to_utf16 pattern in
  rel <> "" /\ ends_with "/" rel = false /\ wild_lang (drop_star_slashes pat) (to_utf16 rel) /\
  (has_star_slash pat = false -> documented true pat (to_utf16 rel)) /\
  (has_stars pat = false -> depth_of (to_utf16 rel) = depth_of pat).
Proof.
  intros (Hne & He & H%glob_wild)%glob_matches_spec pat. fold pat in H. split_and!; [done..| |].
  - intros Hn. rewrite drop_none in H by done. by apply wild_documented.
  - intros Hn. rewrite drop_none in H by (by apply no_stars_no_slash). by apply pattern_depth.
Qed.

Lemma glob_matches_all pattern rel : rel <> "" -> ends_with "/" rel = false -> one_line (to_utf16 rel) ->
  wild_lang (drop_star_slashes (to_utf16 pattern)) (to_utf16 rel) \/ documented true (to_utf16 pattern) (to_utf16 rel) ->
  glob_matches (globToRegex pattern) rel = true.
Proof.
  intros Hne He Hl H. apply glob_matches_spec. split; [done|]. split; [done|]. apply wild_glob; [done|].
  destruct H as [H|H]; [done|by apply documented_wild in H].
Qed.

(** The answered paths, in the order of the listing. *)
Lemma glob_answer ts prefix p dbFiles (objs : list S3Object) :
  gm_path <$> omap (glob_match ts prefix p dbFiles) objs =
  (fun rel => prefix +:+ rel) <$> filter (fun rel => glob_matches ts rel = true) ((fun o => drop_str (String.length p) o.(so_key)) <$> objs).
Proof.
  induction objs as [|o objs IH]; [done|]. cbn [omap list_omap fmap list_fmap]. rewrite filter_cons. unfold glob_match at 1.
  destruct (glob_matches ts _); [|by rewrite decide_False]. rewrite decide_True by done. cbn. by f_equal.
Qed.

(** C35: [glob] answers the listed files that the description of the op promises,
    in the order of the listing: every listed path without a line break that is
    documented to match the pattern, and, when the pattern has no two stars before
    a slash, only such paths.  In any case a path that is answered matches the
    pattern without the slash that follows two stars, which is how the code reads
    it.  A pattern without two stars answers only paths with as many slashes as it
    has.  The listing is the cached one of the scope, else what the storage lists
    now, and then a file at any canonical path that is documented to match is
    answered.  Neither the rows nor the objects change. *)
Theorem glob_answers_as_documented now settled ctx pattern l (w : World Store) ms w' :
  plain_segment ctx.(op_orgId) -> plain_segment ctx.(op_driveId) -> Forall clean l ->
  glob now settled ctx pattern (Some (render l)) w = (Ok ms, w') ->
  let p := getS3Key ctx.(op_orgId) ctx.(op_driveId) (folder_prefix l) in
  let pat := to_utf16 pattern in
  w'.(w_db) = w.(w_db) /\ w'.(w_store) = w.(w_store) /\
  (exists listing, match cached_only now ctx (folder_prefix l) w with
     | Some kept => listing = kept
     | None => listObjects p None None w.(w_store) = (Ok listing, w.(w_store))
     end /\
     let listed := (fun o => drop_str (String.length p) o.(so_key)) <$> listing.1 in
     exists rels, gm_path <$> ms = (fun rel => folder_prefix l +:+ rel) <$> rels /\ rels `sublist_of` listed /\
       (forall rel, rel ∈ rels -> rel <> "" /\ ends_with "/" rel = false /\
          wild_lang (drop_star_slashes pat) (to_utf16 rel) /\
          (has_star_slash pat = false -> documented true pat (to_utf16 rel)) /\
          (has_stars pat = false -> depth_of (to_utf16 rel) = depth_of pat)) /\
       (forall rel, rel ∈ listed -> rel <> "" -> ends_with "/" rel = false -> one_line (to_utf16 rel) ->
          wild_lang (drop_star_slashes pat) (to_utf16 rel) \/ documented true pat (to_utf16 rel) -> rel ∈ rels)) /\
  (cached_only now ctx (folder_prefix l) w = None -> forall m, Forall clean m -> m <> [] ->
     is_Some (object w.(w_store) (key_of_names_in ctx (l ++ m))) -> one_line (to_utf16 (join "/" m)) ->
     documented true pat (to_utf16 (join "/" m)) -> render (l ++ m) ∈ gm_path <$> ms).
Proof.
  intros Ho Hd Hl H p pat. unfold glob in H.
  change (match truthy (Some (render l)) with Some path => normalizePrefix path | None => "/" end) with (folder_prefix l) in H.
  cbv zeta in H. fold p in H.
  apply bind_ok in H as (listing & w1 & Hlist & H). apply cached_listing_spec in Hlist as (Hdb & Hst & Hlist).
  apply bind_ok in H as (dbFiles & w2 & Hq & H). apply gets_ok in Hq as [_ ->]. injection H as <- <-.
  rewrite glob_answer. set (all := (fun o => drop_str _ _) <$> listing.1). split; [done|]. split; [done|]. split.
  - exists listing. split; [done|]. eexists. split; [done|]. split; [apply sublist_filter|]. split; intros rel.
    + intros [Hm _]%list_elem_of_filter. by apply glob_matches_only in Hm.
    + intros Hin Hne He Hone Hm. apply list_elem_of_filter. split; [by apply glob_matches_all|done].
  - intros Hfresh m Hm Hne Hs Hone Hin. rewrite Hfresh in Hlist. destruct listing as [objs pre]. apply list_all_law in Hlist as (_ & _ & _ & Hall).
    destruct m as [|name rest]; [done|]. assert (Hlm : Forall clean (l ++ name :: rest)) by (by apply Forall_app).
    rewrite <- (child_key ctx l Hl name rest Hlm) in Hs. fold p in Hs.
    assert (Hk : p +:+ join "/" (name :: rest) ∈ so_key <$> objs).
    { apply Hall; [| |apply starts_with_app|done]; unfold p; rewrite (child_key ctx l Hl name rest Hlm);
        [by apply drive_key_law|apply plain_key_names; [done..|by destruct l]]. }
    rewrite <- folder_prefix_child by done. apply list_elem_of_fmap. exists (join "/" (name :: rest)). split; [done|].
    apply list_elem_of_filter. split.
    + apply glob_matches_all; [|by apply join_no_end|done|by right]. destruct rest; cbn; inversion Hm as [|? ? [? ?]]; [done|]. by destruct name.
    + apply list_elem_of_fmap in Hk as (o & Hk & Hio). apply list_elem_of_fmap. exists o. split; [|done]. by rewrite <- Hk, drop_str_app.
Qed.
End GlobSpec.

Lemma glob_answers_as_documented_witness :
  exists ms w', glob 0 1 reader "*/?.md" (Some (render [])) listed_world = (Ok ms, w') /\ gm_path <$> ms = ["/docs/b.md"] /\
    w'.(w_store) = listed_store /\ documented true (to_utf16 "*/?.md") (to_utf16 "docs/b.md").
Proof.
  destruct (glob 0 1 reader "*/?.md" (Some (render [])) listed_world) as [o w'] eqn:E.
  assert (Ho : exists ms, o = Ok ms /\ gm_path <$> ms = ["/docs/b.md"]).
  { vm_compute in E. injection E as <- _. eexists. split; reflexivity. }
  destruct Ho as (ms & -> & Hms). exists ms, w'. split; [reflexivity|]. split; [exact Hms|].
  apply (glob_answers_as_documented (rt := ascii_runtime)) in E as (_ & Hst & (listing & _ & rels & Hrels & _ & Hsound & _) & _);
    [|repeat split; (discriminate || reflexivity)..|constructor].
  split; [exact Hst|]. destruct (Hsound "docs/b.md") as (_ & _ & _ & Hdoc & _); [|apply Hdoc; vm_compute; reflexivity].
  rewrite Hms in Hrels. destruct rels as [|rel [|rel' rest]]; [discriminate Hrels| |discriminate Hrels].
  apply list_elem_of_singleton. injection Hrels as Hrels. exact Hrels.
Defined.

(** The slash after two stars is dropped, so they also match inside a name, which
    is not documented; and they do not match across a line break, which is. *)
Lemma stars_match_inside_a_name : regex_test (globToRegex "docs/**/x.md") (to_utf16 "docs/oldx.md") = true /\
  ~ documented true (to_utf16 "docs/**/x.md") (to_utf16 "docs/oldx.md").
Proof.
  split; [by vm_compute|]. intros H. vm_compute in H.
  do 5 (apply documented_char in H as (? & E & H); [|done|done]; injection E as <-; cbn in H).
  inversion H as [|p0 u0 H'|s0 v p0 u H' E1 E2|s0 v p0 u Hv Hs Hu|s0 x p0 u Hx Hu|s0 c p0 u Hc]; subst; try done; try congruence.
  - by apply documented_char in H' as (? & E & _).
  - match goal with H2 : documented false _ u |- _ => apply documented_char in H2 as (u' & -> & _); [|done|done] end.
    assert (Hin : 47 ∈ v ++ 47 :: u') by (apply elem_of_app; right; by left).
    match goal with E2 : v ++ _ = _ |- _ => rewrite E2 in Hin end. apply (bool_decide_pack _) in Hin. by vm_compute in Hin.
Qed.

Lemma stars_stop_at_a_line : regex_test (globToRegex "**") [97; 10; 98] = false /\ documented true (to_utf16 "**") [97; 10; 98].
Proof. split; [by vm_compute|]. change [97; 10; 98] with ([97; 10; 98] ++ []). apply dl_stars, dl_end. Qed.
