(* ===== verification/Anchor.v ===== *)
(** * Comment anchors: live/src/lib/comment-anchor.ts

    Where a comment's quote and line range point in the text a viewer shows.  Text
    is a list of UTF-16 units, an offset an index into it.  Case mapping and the
    letter class are the platform's ([Unicode]); [UnicodeLaws] is what is used of
    them.  The whole module is here; what it guarantees is in AnchorSpec, and the
    mapping of lines through a diff in AnchorDiff. *)

From S2P Require Import Prelude JsString Text Utf16 Chunker.

Class Unicode : Type := {
  lowerCase : list Z -> list Z;  (* [s.toLowerCase()] *)
  isWord : Z -> bool             (* [\p{L}] and [\p{N}], of a code point *)
}.

(** ** Data *)

Record AnchorQuote : Type := { aq_exact : list Z; aq_prefix : option (list Z); aq_suffix : option (list Z) }.

Inductive ChangeType : Type := ChAdd | ChRemove | ChContext.
#[export] Instance ChangeType_eq_dec : EqDecision ChangeType. Proof. solve_decision. Defined.

Record AnchorDiffChange : Type := { ch_type : ChangeType; ch_oldLine : option Z; ch_newLine : option Z }.

Record TextSpace : Type := {
  ts_text : list Z;
  ts_lineRangeToOffsets : option (Z -> Z -> option (nat * nat));
  ts_offsetToLine : option (nat -> option Z)
}.

Record AnchorInput : Type := {
  ai_quote : option AnchorQuote;
  ai_lineStart : option Z;
  ai_lineEnd : option Z;
  ai_stale : bool;
  ai_changes : option (list AnchorDiffChange)
}.

Inductive AnchorStatus : Type := Anchored | Moved | Lost.
Inductive AnchorMethod : Type := ByQuote | ByLines | ByPartial.

Record AnchorResolution : Type := {
  ar_status : AnchorStatus;
  ar_method : option AnchorMethod;
  ar_start : option nat;
  ar_end : option nat;
  ar_lineStart : option Z;
  ar_lineEnd : option Z;
  ar_ambiguous : bool
}.

Definition QUOTE_CONTEXT_CHARS : nat := 32.
Definition QUOTE_EXACT_MAX : nat := 2000.
Definition PARTIAL_CHARS : nat := 32.
Definition MAX_CANDIDATES : nat := 500.

(** ** Normalization *)

(** [\s], which is also what [trim] trims. *)
Definition unit_space (u : Z) : bool :=
  ((9 <=? u) && (u <=? 13)) || (u =? 32) || (u =? 160) || (u =? 5760) || ((8192 <=? u) && (u <=? 8202)) ||
  (u =? 8232) || (u =? 8233) || (u =? 8239) || (u =? 8287) || (u =? 12288) || (u =? 65279).

Inductive Mode : Type := Strict | Loose.

(** [norm] and [map], index by index. *)
Record Normalized : Type := { nz_norm : list Z; nz_map : list nat }.

Definition LOOSE_MARKS : list Z := to_utf16 "*_`~#>|\[]".
Definition LOOSE_DROP (u : Z) : bool := unit_space u || bool_decide (u ∈ LOOSE_MARKS).

Fixpoint drop_spaces (t : list Z) : list Z :=
  match t with u :: t' => if unit_space u then drop_spaces t' else t | [] => [] end.
Definition trim_units (t : list Z) : list Z := rev (drop_spaces (rev (drop_spaces t))).

(** The loop in strict mode, at index [i]. *)
Fixpoint normalize_strict (i : nat) (inSpace : bool) (text : list Z) : list (Z * nat) :=
  match text with
  | [] => []
  | ch :: text' =>
      if unit_space ch then (if inSpace then [] else [(32, i)]) ++ normalize_strict (S i) true text'
      else (ch, i) :: normalize_strict (S i) false text'
  end.

Section Anchors.
Context {U : Unicode}.

(** The loop in loose mode. *)
Fixpoint normalize_loose (i : nat) (text : list Z) : list (Z * nat) :=
  match text with
  | [] => []
  | ch :: text' => (if LOOSE_DROP ch then [] else (fun u => (u, i)) <$> lowerCase [ch]) ++ normalize_loose (S i) text'
  end.

Definition normalize (text : list Z) (mode : Mode) : Normalized :=
  let l := match mode with Strict => normalize_strict 0 false text | Loose => normalize_loose 0 text end in
  {| nz_norm := l.*1; nz_map := l.*2 |}.

Definition normalizeNeedle (text : list Z) (mode : Mode) : list Z :=
  let n := (normalize text mode).(nz_norm) in
  match mode with Strict => trim_units n | Loose => n end.

(** [hayCache] keeps the normalizations of the last text. *)
Record HayCache : Type := { hc_text : list Z; hc_strict : option Normalized; hc_loose : option Normalized }.
Definition hayCache0 : HayCache := {| hc_text := []; hc_strict := None; hc_loose := None |}.

Definition normalizeHay_cached (text : list Z) (mode : Mode) (c : HayCache) : Normalized * HayCache :=
  let c := if bool_decide (c.(hc_text) = text) then c else {| hc_text := text; hc_strict := None; hc_loose := None |} in
  match (match mode with Strict => c.(hc_strict) | Loose => c.(hc_loose) end) with
  | Some n => (n, c)
  | None =>
      let n := normalize text mode in
      (n, match mode with
          | Strict => {| hc_text := c.(hc_text); hc_strict := Some n; hc_loose := c.(hc_loose) |}
          | Loose => {| hc_text := c.(hc_text); hc_strict := c.(hc_strict); hc_loose := Some n |}
          end)
  end.

(** What it answers ([normalizeHay_cached_ok]). *)
Definition normalizeHay (text : list Z) (mode : Mode) : Normalized := normalize text mode.

(** ** Candidate search *)

Record Candidate : Type := { c_start : nat; c_end : nat; c_strict : bool }.

Fixpoint is_prefix (p l : list Z) : bool :=
  match p, l with
  | [], _ => true
  | x :: p', y :: l' => (x =? y) && is_prefix p' l'
  | _ :: _, [] => false
  end.

Fixpoint find_at (needle l : list Z) (i : nat) : option nat :=
  if is_prefix needle l then Some i else match l with [] => None | _ :: l' => find_at needle l' (S i) end.

(** [l.indexOf(needle, from)], for a needle that is not empty. *)
Definition index_of (l needle : list Z) (from : nat) : option nat := find_at needle (drop from l) from.

(** The loop of [findAll]: [n] more candidates at most. *)
Fixpoint find_loop (n : nat) (hay : Normalized) (needle : list Z) (from : nat) : list Candidate :=
  match n with
  | O => []
  | S n =>
      match index_of hay.(nz_norm) needle from with
      | None => []
      | Some i =>
          {| c_start := hay.(nz_map) !!! i; c_end := S (hay.(nz_map) !!! (i + length needle - 1)%nat); c_strict := false |}
          :: find_loop n hay needle (S i)
      end
  end.

Definition findAll (hay : Normalized) (needle : list Z) : list Candidate :=
  match needle with [] => [] | _ => find_loop MAX_CANDIDATES hay needle 0 end.

Fixpoint commonPrefixLength (a b : list Z) : nat :=
  match a, b with
  | x :: a', y :: b' => if x =? y then S (commonPrefixLength a' b') else 0
  | _, _ => 0
  end.
Definition commonSuffixLength (a b : list Z) : nat := commonPrefixLength (rev a) (rev b).

(** [text.replace(/\]\([^)\s]*\)?/g, "")]. *)
Fixpoint drop_links (inside : bool) (t : list Z) : list Z :=
  match t with
  | [] => []
  | u :: t' =>
      if inside then
        if u =? 41 then drop_links false t'
        else if unit_space u then u :: drop_links false t'
        else drop_links true t'
      else if u =? 93 then
        match t' with
        | v :: t'' => if v =? 40 then drop_links true t'' else u :: drop_links false t'
        | [] => [u]
        end
      else u :: drop_links false t'
  end.

(** [text.replace(/[^\p{L}\p{N}]/gu, "")]. *)
Fixpoint word_units (t : list Z) : list Z :=
  match t with
  | [] => []
  | u :: t' =>
      match t' with
      | v :: t'' =>
          if is_high u && is_low v then
            (if isWord (65536 + (u - 55296) * 1024 + (v - 56320)) then [u; v] else []) ++ word_units t''
          else (if isWord u then [u] else []) ++ word_units t'
      | [] => if isWord u then [u] else []
      end
  end.

Definition contextKey (text : list Z) : list Z := word_units (lowerCase (drop_links false text)).

Definition CONTEXT_SKIP : nat := 3.
Definition CONTEXT_MIN : nat := 3.

Inductive Side : Type := Prefix | Suffix.

(** [l.slice(0, k)]: a negative end counts from the end. *)
Definition slice_to (l : list Z) (k : Z) : list Z := if k <? 0 then take (Z.to_nat (Z.of_nat (length l) + k)) l else take (Z.to_nat k) l.

Definition sideMatch (want got : list Z) (side : Side) : nat :=
  foldl (fun best a =>
    foldl (fun best b =>
      let n := match side with
               | Prefix => commonSuffixLength (slice_to want (Z.of_nat (length want) - Z.of_nat a)) (slice_to got (Z.of_nat (length got) - Z.of_nat b))
               | Suffix => commonPrefixLength (drop a want) (drop b got)
               end in
      if Nat.ltb best n then n else best) best (seq 0 (S CONTEXT_SKIP))) 0%nat (seq 0 (S CONTEXT_SKIP)).

Record ContextMatch : Type := { cm_score : nat; cm_conflicts : bool }.

Definition quote_side (quote : AnchorQuote) (side : Side) : option (list Z) :=
  match side with Prefix => quote.(aq_prefix) | Suffix => quote.(aq_suffix) end.

(** [if (!saved)]: an empty side says nothing. *)
Definition saved_side (quote : AnchorQuote) (side : Side) : option (list Z) :=
  match quote_side quote side with Some [] => None | s => s end.

Definition context_window (text : list Z) (c : Candidate) (saved : list Z) (side : Side) : list Z :=
  match side with
  | Prefix => slice_units text (c.(c_start) - length saved * 3) c.(c_start)
  | Suffix => slice_units text c.(c_end) (c.(c_end) + length saved * 3)
  end.

(** The body of the loop over the two sides. *)
Definition match_side (text : list Z) (c : Candidate) (quote : AnchorQuote) (m : ContextMatch) (side : Side) : ContextMatch :=
  match saved_side quote side with
  | None => m
  | Some saved =>
      let want := contextKey saved in
      let n := sideMatch want (contextKey (context_window text c saved side)) side in
      {| cm_score := m.(cm_score) + n;
         cm_conflicts := m.(cm_conflicts) ||
           (negb (Nat.ltb (length want) CONTEXT_MIN) &&
            Nat.ltb n (Nat.min (length want) (Nat.max 8 (Nat.div2 (S (length want))))))  |}
  end.

Definition contextMatch (text : list Z) (c : Candidate) (quote : AnchorQuote) : ContextMatch :=
  foldl (match_side text c quote) {| cm_score := 0; cm_conflicts := false |} [Prefix; Suffix].

Record Pick : Type := { pk_best : option Candidate; pk_score : nat; pk_tie : bool }.

Definition best_strict (p : Pick) : bool := match p.(pk_best) with Some b => b.(c_strict) | None => false end.

Definition pick_step (text : list Z) (quote : AnchorQuote) (p : Pick) (c : Candidate) : Pick :=
  let s := (contextMatch text c quote).(cm_score) in
  if Nat.ltb p.(pk_score) s || (Nat.eqb s p.(pk_score) && Nat.ltb 0 s && c.(c_strict) && negb (best_strict p)) then
    {| pk_best := Some c; pk_score := s; pk_tie := false |}
  else if Nat.eqb s p.(pk_score) && Nat.ltb 0 s && Bool.eqb c.(c_strict) (best_strict p) then
    {| pk_best := p.(pk_best); pk_score := p.(pk_score); pk_tie := true |}
  else p.

Definition has_context (quote : AnchorQuote) : bool :=
  bool_decide (is_Some (saved_side quote Prefix)) || bool_decide (is_Some (saved_side quote Suffix)).

Definition pickByContext (text : list Z) (cands : list Candidate) (quote : AnchorQuote) : option Candidate :=
  if negb (has_context quote) then None
  else
    let p := foldl (pick_step text quote) {| pk_best := None; pk_score := 0; pk_tie := false |} cands in
    if p.(pk_tie) then None else p.(pk_best).

Definition nearest_step (toLine : nat -> option Z) (line : Z) (p : option (Z * Candidate)) (c : Candidate) : option (Z * Candidate) :=
  match toLine c.(c_start) with
  | None => p
  | Some l =>
      let d := Z.abs (l - line) in
      match p with Some (bestDist, _) => if d <? bestDist then Some (d, c) else p | None => Some (d, c) end
  end.

Definition pickNearestLine (space : TextSpace) (cands : list Candidate) (line : Z) : option Candidate :=
  toLine ← space.(ts_offsetToLine); snd <$> foldl (nearest_step toLine line) None cands.

Definition find_mode (space : TextSpace) (needle : list Z) (mode : Mode) : list Candidate :=
  let n := normalizeNeedle needle mode in
  match n with [] => [] | _ => findAll (normalizeHay space.(ts_text) mode) n end.

Definition as_strict (c : Candidate) : Candidate := {| c_start := c.(c_start); c_end := c.(c_end); c_strict := true |}.
Definition overlap (s c : Candidate) : bool := Nat.ltb s.(c_start) c.(c_end) && Nat.ltb c.(c_start) s.(c_end).
Definition starts_before (a b : Candidate) : bool := Nat.leb a.(c_start) b.(c_start).

Definition findQuote (space : TextSpace) (needle : list Z) : list Candidate :=
  let strict := as_strict <$> find_mode space needle Strict in
  let loose := filter (fun c => existsb (fun s => overlap s c) strict = false) (find_mode space needle Loose) in
  sort_by starts_before (strict ++ loose).

Definition overlapsLines (space : TextSpace) (c : Candidate) (lineStart lineEnd : Z) : bool :=
  let at_ offset := toLine ← space.(ts_offsetToLine); toLine offset in
  match at_ c.(c_start), at_ (Nat.max c.(c_start) (c.(c_end) - 1)) with
  | Some a, Some b => (a <=? lineEnd) && (lineStart <=? b)
  | _, _ => false
  end.

Definition pick_partial (space : TextSpace) (quote : AnchorQuote) (lineHint : option Z) (cands : list Candidate) : option Candidate :=
  match cands with
  | [c] => Some c
  | _ =>
      match pickByContext space.(ts_text) cands quote with
      | Some c => Some c
      | None =>
          match (line ← lineHint; pickNearestLine space cands line) with
          | Some c => Some c
          | None => head cands
          end
      end
  end.

Definition findPartial (space : TextSpace) (quote : AnchorQuote) (lineHint : option Z) : option Candidate :=
  let needle := normalizeNeedle quote.(aq_exact) Loose in
  if Nat.leb (length needle) PARTIAL_CHARS then None
  else
    let hay := normalizeHay space.(ts_text) Loose in
    let pick := pick_partial space quote lineHint in
    let hd := pick (findAll hay (take PARTIAL_CHARS needle)) in
    let tl := pick (findAll hay (drop (length needle - PARTIAL_CHARS) needle)) in
    match hd, tl with
    | Some h, Some t =>
        if Nat.leb h.(c_end) t.(c_start) && Nat.leb (t.(c_end) - h.(c_start)) (length space.(ts_text)) &&
           Nat.leb (t.(c_start) - h.(c_end)) (length quote.(aq_exact) * 2)
        then Some {| c_start := h.(c_start); c_end := t.(c_end); c_strict := false |}
        else Some h
    | Some h, None => Some h
    | None, t => t
    end.

(** ** Line remapping *)

Definition diffHasLineNumbers (changes : list AnchorDiffChange) : bool :=
  match changes with
  | [] => true
  | _ => existsb (fun c => bool_decide (is_Some c.(ch_oldLine)) || bool_decide (is_Some c.(ch_newLine))) changes
  end.

Fixpoint next_new (changes : list AnchorDiffChange) : option Z :=
  match changes with
  | [] => None
  | c :: rest => match c.(ch_newLine) with Some n => Some n | None => next_new rest end
  end.

(** The loop: the line and whether it was removed. *)
Fixpoint remap_from (delta lastNew : Z) (changes : list AnchorDiffChange) (line : Z) : Z * bool :=
  match changes with
  | [] => (line + delta, false)
  | c :: rest =>
      let lastNew := match c.(ch_newLine) with Some n => Z.max lastNew n | None => lastNew end in
      match c.(ch_oldLine) with
      | None => remap_from delta lastNew rest line
      | Some o =>
          if o <? line then
            remap_from (match c.(ch_newLine) with
                        | Some n => if bool_decide (c.(ch_type) = ChContext) then n - o else delta
                        | None => delta
                        end) lastNew rest line
          else if o =? line then
            match c.(ch_newLine), bool_decide (c.(ch_type) = ChContext) with
            | Some n, true => (n, false)
            | _, _ => match next_new rest with Some n => (n, true) | None => (Z.max 1 (lastNew + 1), true) end
            end
          else (line + delta, false)
      end
  end.
Definition remapLine (changes : list AnchorDiffChange) (line : Z) : Z * bool := remap_from 0 0 changes line.

Record LineRange : Type := { lr_lineStart : Z; lr_lineEnd : Z; lr_touched : bool; lr_deleted : bool }.

Definition find_index (P : AnchorDiffChange -> bool) (changes : list AnchorDiffChange) : option nat :=
  fst <$> list_find (fun c => P c = true) changes.

Definition removes (line : Z) (c : AnchorDiffChange) : bool :=
  bool_decide (c.(ch_type) = ChRemove) && bool_decide (c.(ch_oldLine) = Some line).
Definition is_context (c : AnchorDiffChange) : bool := bool_decide (c.(ch_type) = ChContext).

Fixpoint block_lo (changes : list AnchorDiffChange) (lo : nat) : nat :=
  match lo with
  | O => O
  | S lo' => match changes !! lo' with Some c => if is_context c then lo else block_lo changes lo' | None => lo end
  end.
(** [while (hi < changes.length - 1 && ...) hi++], by the changes after [hi]. *)
Fixpoint block_hi (after : list AnchorDiffChange) (hi : nat) : nat :=
  match after with [] => hi | c :: rest => if is_context c then hi else block_hi rest (S hi) end.

Definition added_line (c : AnchorDiffChange) : option Z := if bool_decide (c.(ch_type) = ChAdd) then c.(ch_newLine) else None.

(** The lines that the block of the removed range adds. *)
Definition block_added (changes : list AnchorDiffChange) (lineStart lineEnd : Z) : list Z :=
  match find_index (removes lineStart) changes, find_index (removes lineEnd) changes with
  | Some first, Some last =>
      let lo := block_lo changes first in
      let hi := block_hi (drop (S last) changes) last in
      omap added_line (take (S hi - lo) (drop lo changes))
  | _, _ => []
  end.

Definition removed_in (lineStart lineEnd : Z) (c : AnchorDiffChange) : bool :=
  bool_decide (c.(ch_type) = ChRemove) && match c.(ch_oldLine) with Some o => (lineStart <=? o) && (o <=? lineEnd) | None => false end.
Definition inserted_in (start end_ : Z) (c : AnchorDiffChange) : bool :=
  bool_decide (c.(ch_type) = ChAdd) && match c.(ch_newLine) with Some n => (start <? n) && (n <=? end_) | None => false end.

Definition remapLineRange (changes : list AnchorDiffChange) (lineStart lineEnd : Z) : LineRange :=
  let a := remapLine changes lineStart in
  let b := remapLine changes lineEnd in
  let removedInRange := Z.of_nat (length (filter (fun c => removed_in lineStart lineEnd c = true) changes)) in
  let start := a.1 in
  let end_ := Z.max start (if b.2 then b.1 - 1 else b.1) in
  let insertedInside := existsb (inserted_in start end_) changes in
  if removedInRange =? lineEnd - lineStart + 1 then
    match block_added changes lineStart lineEnd with
    | n :: added => {| lr_lineStart := foldr Z.min n added; lr_lineEnd := foldr Z.max n added; lr_touched := true; lr_deleted := false |}
    | [] => {| lr_lineStart := start; lr_lineEnd := start; lr_touched := true; lr_deleted := true |}
    end
  else {| lr_lineStart := start; lr_lineEnd := Z.max start end_; lr_touched := (0 <? removedInRange) || insertedInside; lr_deleted := false |}.

(** ** Resolution *)

Definition found (status : AnchorStatus) (method : AnchorMethod) (start end_ : nat) : AnchorResolution :=
  {| ar_status := status; ar_method := Some method; ar_start := Some start; ar_end := Some end_;
     ar_lineStart := None; ar_lineEnd := None; ar_ambiguous := false |}.
Definition lost : AnchorResolution :=
  {| ar_status := Lost; ar_method := None; ar_start := None; ar_end := None; ar_lineStart := None; ar_lineEnd := None; ar_ambiguous := false |}.

Definition withLines (space : TextSpace) (r : AnchorResolution) : AnchorResolution :=
  match r.(ar_start), r.(ar_end), space.(ts_offsetToLine), r.(ar_lineStart) with
  | Some start, Some end_, Some toLine, None =>
      {| ar_status := r.(ar_status); ar_method := r.(ar_method); ar_start := Some start; ar_end := Some end_;
         ar_lineStart := toLine start; ar_lineEnd := toLine (Nat.max start (end_ - 1)); ar_ambiguous := r.(ar_ambiguous) |}
  | _, _, _, _ => r
  end.

Definition by_quote (space : TextSpace) (c : Candidate) : AnchorResolution :=
  withLines space (found Anchored ByQuote c.(c_start) c.(c_end)).

Definition at_lines (status : AnchorStatus) (offsets : nat * nat) (lineStart lineEnd : Z) : AnchorResolution :=
  {| ar_status := status; ar_method := Some ByLines; ar_start := Some offsets.1; ar_end := Some offsets.2;
     ar_lineStart := Some lineStart; ar_lineEnd := Some lineEnd; ar_ambiguous := false |}.

(** [input.quote?.exact?.trim() ? input.quote : undefined]. *)
Definition nonblank (quote : option AnchorQuote) : option AnchorQuote :=
  q ← quote; if bool_decide (trim_units q.(aq_exact) = []) then None else Some q.

Definition stored_end (input : AnchorInput) (lineStart : Z) : Z := Z.max lineStart (input.(ai_lineEnd) ?? lineStart).

(** The lines that can be trusted in the current version. *)
Definition trusted_lines (input : AnchorInput) : option LineRange :=
  lineStart ← input.(ai_lineStart);
  if lineStart <=? 0 then None
  else
    let end_ := stored_end input lineStart in
    if negb input.(ai_stale) then Some {| lr_lineStart := lineStart; lr_lineEnd := end_; lr_touched := false; lr_deleted := false |}
    else match input.(ai_changes) with
         | Some changes => if diffHasLineNumbers changes then Some (remapLineRange changes lineStart end_) else None
         | None => None
         end.

Record QuoteSearch : Type := { qs_picked : option Candidate; qs_ambiguous : list Candidate; qs_conflicting : list Candidate }.

Definition conflicts_at (space : TextSpace) (quote : AnchorQuote) (c : Candidate) : bool :=
  (contextMatch space.(ts_text) c quote).(cm_conflicts).

Definition search_quote (space : TextSpace) (quote : AnchorQuote) : QuoteSearch :=
  let all := findQuote space quote.(aq_exact) in
  let conflicting := if has_context quote then filter (fun c => conflicts_at space quote c = true) all else [] in
  let strict := filter (fun c => c.(c_strict) = true) all in
  let cands := if has_context quote then filter (fun c => conflicts_at space quote c = false) all
               else match strict with [] => all | _ => strict end in
  let picked := match cands with [c] => Some c | _ => pickByContext space.(ts_text) cands quote end in
  {| qs_picked := picked; qs_ambiguous := cands; qs_conflicting := conflicting |}.

(** Step 2: the line range. *)
Definition resolve_lines (space : TextSpace) (lines : LineRange) (ambiguous conflicting : list Candidate) : option AnchorResolution :=
  if lines.(lr_deleted) then None
  else match pickNearestLine space ambiguous lines.(lr_lineStart) with
  | Some near => Some (by_quote space near)
  | None =>
      match find (fun c => overlapsLines space c lines.(lr_lineStart) lines.(lr_lineEnd)) conflicting with
      | Some confirmed => Some (by_quote space confirmed)
      | None =>
          toOffsets ← space.(ts_lineRangeToOffsets);
          offsets ← toOffsets lines.(lr_lineStart) lines.(lr_lineEnd);
          Some (at_lines (if lines.(lr_touched) then Moved else Anchored) offsets lines.(lr_lineStart) lines.(lr_lineEnd))
      end
  end.

Definition near_or_first (space : TextSpace) (line : option Z) (cands : list Candidate) : option Candidate :=
  match (l ← line; pickNearestLine space cands l) with Some c => Some c | None => head cands end.

(** Step 3: the quote alone; [None] goes on. *)
Definition resolve_quote (space : TextSpace) (input : AnchorInput) (quote : AnchorQuote) (lines : option LineRange) (q : QuoteSearch)
    : option AnchorResolution :=
  let hint := match lines with Some l => Some l.(lr_lineStart) | None => input.(ai_lineStart) end in
  match near_or_first space input.(ai_lineStart) q.(qs_ambiguous) with
  | Some c => let r := by_quote space c in
              Some {| ar_status := r.(ar_status); ar_method := r.(ar_method); ar_start := r.(ar_start); ar_end := r.(ar_end);
                      ar_lineStart := r.(ar_lineStart); ar_lineEnd := r.(ar_lineEnd); ar_ambiguous := true |}
  | None =>
      match near_or_first space (_ ← input.(ai_lineStart); hint) q.(qs_conflicting) with
      | Some c =>
          if match lines with Some l => l.(lr_deleted) | None => false end then Some lost
          else Some (withLines space (found Moved ByQuote c.(c_start) c.(c_end)))
      | None =>
          match findPartial space quote hint with
          | Some c => Some (withLines space (found Moved ByPartial c.(c_start) c.(c_end)))
          | None => None
          end
      end
  end.

(** The stored lines, when the file changed and nothing could be verified. *)
Definition resolve_stale (space : TextSpace) (input : AnchorInput) (quote : option AnchorQuote) (lines : option LineRange) : option AnchorResolution :=
  match quote, input.(ai_stale), lines, input.(ai_lineStart) with
  | None, true, None, Some lineStart =>
      if lineStart <=? 0 then None
      else
        toOffsets ← space.(ts_lineRangeToOffsets);
        let end_ := stored_end input lineStart in
        offsets ← toOffsets lineStart end_;
        Some (at_lines Moved offsets lineStart end_)
  | _, _, _, _ => None
  end.

Definition or_else {A} (m : option A) (k : option A) : option A := match m with Some _ => m | None => k end.

Definition resolveAnchor (space : TextSpace) (input : AnchorInput) : AnchorResolution :=
  let quote := nonblank input.(ai_quote) in
  let lines := trusted_lines input in
  let q := match quote with Some q => search_quote space q | None => {| qs_picked := None; qs_ambiguous := []; qs_conflicting := [] |} end in
  match or_else (by_quote space <$> q.(qs_picked))
          (or_else (l ← lines; resolve_lines space l q.(qs_ambiguous) q.(qs_conflicting))
             (or_else (qu ← quote; resolve_quote space input qu lines q)
                (resolve_stale space input quote lines))) with
  | Some r => r
  | None => lost
  end.

(** ** Views and capture *)

(** The two loops that trim the selection; [n] bounds [end_ - start]. *)
Fixpoint skip_spaces (text : list Z) (n start : nat) : nat :=
  match n with
  | O => start
  | S n => match text !! start with Some u => if unit_space u then skip_spaces text n (S start) else start | None => start end
  end.
Fixpoint cut_spaces (text : list Z) (n end_ : nat) : nat :=
  match n with
  | O => end_
  | S n => match text !! (end_ - 1)%nat with Some u => if unit_space u then cut_spaces text n (end_ - 1)%nat else end_ | None => end_ end
  end.

Definition captureQuote (text : list Z) (start end_ : nat) : option AnchorQuote :=
  let start := skip_spaces text (end_ - start)%nat start in
  let end_ := cut_spaces text (end_ - start)%nat end_ in
  if Nat.leb end_ start then None
  else
    let side s := match s with [] => None | _ => Some s end in
    Some {| aq_exact := slice_units text start (Nat.min end_ (start + QUOTE_EXACT_MAX));
            aq_prefix := side (slice_units text (start - QUOTE_CONTEXT_CHARS) start);
            aq_suffix := side (slice_units text end_ (end_ + QUOTE_CONTEXT_CHARS)) |}.

Definition is_anchored (r : AnchorResolution) : bool := match r.(ar_status) with Anchored => true | _ => false end.

Definition quote_only (quote : option AnchorQuote) (stale : bool) : AnchorInput :=
  {| ai_quote := quote; ai_lineStart := None; ai_lineEnd := None; ai_stale := stale; ai_changes := None |}.

Definition resolveAnchorInView (view source : TextSpace) (input : AnchorInput) : AnchorResolution :=
  let direct := _ ← nonblank input.(ai_quote); Some (resolveAnchor view (quote_only input.(ai_quote) input.(ai_stale))) in
  let in_source (_ : unit) :=
    let inSource := resolveAnchor source input in
    match inSource.(ar_start), inSource.(ar_end) with
    | Some start, Some end_ =>
        let inView := carried ← captureQuote source.(ts_text) start end_; Some (resolveAnchor view (quote_only (Some carried) false)) in
        match inView with
        | Some v =>
            match v.(ar_start), v.(ar_end) with
            | Some s, Some e =>
                {| ar_status := if is_anchored inSource && is_anchored v then Anchored else Moved;
                   ar_method := inSource.(ar_method); ar_start := Some s; ar_end := Some e;
                   ar_lineStart := inSource.(ar_lineStart); ar_lineEnd := inSource.(ar_lineEnd); ar_ambiguous := false |}
            | _, _ => direct ?? lost
            end
        | None => direct ?? lost
        end
    | _, _ => direct ?? inSource
    end in
  match direct with
  | Some d => if (is_anchored d && negb d.(ar_ambiguous)) || bool_decide (input.(ai_lineStart) = None) then d else in_source tt
  | None => in_source tt
  end.

Definition anchorNeedsDiff (r : option AnchorResolution) : bool :=
  match r with
  | Some r => negb (is_anchored r && match r.(ar_method) with Some ByQuote => true | _ => false end && negb r.(ar_ambiguous))
  | None => true
  end.

(** What a comment stores of its anchor. *)
Record AnchoredComment : Type := {
  ac_quote : option AnchorQuote;
  ac_quotedContent : option (list Z);
  ac_lineStart : option Z;
  ac_lineEnd : option Z;
  ac_fileVersion : option Z
}.

Definition commentQuote (c : AnchoredComment) : option AnchorQuote :=
  match (q ← c.(ac_quote); match q.(aq_exact) with [] => None | _ => Some q end) with
  | Some q => Some q
  | None =>
      quoted ← c.(ac_quotedContent);
      if bool_decide (trim_units quoted = []) then None else Some {| aq_exact := quoted; aq_prefix := None; aq_suffix := None |}
  end.

(** The version to compare with, when the file changed, and what to resolve. *)
Definition commentAnchorInput (c : AnchoredComment) (currentVersion : option Z) : option (option Z * AnchorInput) :=
  let quote := commentQuote c in
  if bool_decide (quote = None) && match c.(ac_lineStart) with Some l => l =? 0 | None => true end then None
  else
    let stale := match c.(ac_fileVersion), currentVersion with Some v, Some w => negb (v =? w) | _, _ => false end in
    Some (if stale then c.(ac_fileVersion) else None,
          {| ai_quote := quote; ai_lineStart := c.(ac_lineStart); ai_lineEnd := c.(ac_lineEnd); ai_stale := stale; ai_changes := None |}).

Fixpoint line_starts_from (text : list Z) (i : nat) : list nat :=
  match text with [] => [] | u :: text' => (if u =? 10 then [S i] else []) ++ line_starts_from text' (S i) end.
Definition lineStarts (text : list Z) : list nat := 0%nat :: line_starts_from text 0.

(** The binary search of [offsetToLine]; [n] bounds [hi - lo]. *)
Fixpoint line_search (n : nat) (starts : list nat) (offset lo hi : nat) : nat :=
  match n with
  | O => lo
  | S n =>
      if Nat.ltb lo hi then
        let mid := Nat.div2 (lo + hi + 1) in
        if Nat.leb (starts !!! mid) offset then line_search n starts offset mid hi else line_search n starts offset lo (mid - 1)
      else lo
  end.

Definition offsetToLine (text : list Z) (offset : nat) : Z :=
  let starts := lineStarts text in
  let lineCount := length starts in
  Z.of_nat (S (line_search lineCount starts offset 0 (lineCount - 1))).

Definition lineRangeToOffsets (text : list Z) (a b : Z) : option (nat * nat) :=
  let starts := lineStarts text in
  let lineCount := Z.of_nat (length starts) in
  if lineCount <? a then None
  else
    let s := Z.max 1 a in
    let e := Z.min lineCount (Z.max s b) in
    Some (starts !!! Z.to_nat (s - 1), if e <? lineCount then (starts !!! Z.to_nat e - 1)%nat else length text).

Definition sourceTextSpace (text : list Z) : TextSpace :=
  {| ts_text := text; ts_lineRangeToOffsets := Some (lineRangeToOffsets text);
     ts_offsetToLine := Some (fun offset => Some (offsetToLine text offset)) |}.
End Anchors.
