(* ===== verification/AnchorDiff.v ===== *)
(** * Lines through a diff

    The reference for [remapLineRange] (Anchor.v): an edit script, in which every
    line of the old text is kept or deleted, and every line of the new one kept or
    inserted.  A diff shows the script with its line numbers, except for kept lines
    away from any change; [well_shown] says which lines it may hide: kept ones,
    after a kept line or the start and before a kept line or the end, as the hunks
    of a patch do.  The theorems: a line is mapped to where the script puts it, and
    a range is called untouched exactly when its lines are kept side by side. *)

From S2P Require Import Prelude JsString Text Utf16 Chunker Anchor.

Inductive Edit : Type := Keep (line : string) | Del (line : string) | Ins (line : string).
#[export] Instance Edit_eq_dec : EqDecision Edit. Proof. solve_decision. Defined.

Definition old_line (e : Edit) : option string := match e with Keep l | Del l => Some l | Ins _ => None end.
Definition new_line (e : Edit) : option string := match e with Keep l | Ins l => Some l | Del _ => None end.
Definition olds (es : list Edit) : list string := omap old_line es.
Definition news (es : list Edit) : list string := omap new_line es.
Definition is_keep (e : Edit) : bool := match e with Keep _ => true | _ => false end.

(** Where the script puts the old line at distance [k], when the next new line
    has number [n]; and whether it is deleted. *)
Fixpoint image (es : list Edit) (k n : Z) : Z * bool :=
  match es with
  | [] => (n + k, false)
  | Keep _ :: es => if k =? 0 then (n, false) else image es (k - 1) (n + 1)
  | Del _ :: es => if k =? 0 then (n, true) else image es (k - 1) n
  | Ins _ :: es => image es k (n + 1)
  end.

(** ** How a diff shows a script *)

(** [Marker] is the note on a missing newline at the end of a file. *)
Inductive Item : Type := Shown (e : Edit) | Hidden (line : string) | Marker.

Definition item_edit (i : Item) : option Edit := match i with Shown e => Some e | Hidden l => Some (Keep l) | Marker => None end.
Definition edits (items : list Item) : list Edit := omap item_edit items.

Definition marker : AnchorDiffChange := {| ch_type := ChContext; ch_oldLine := None; ch_newLine := None |}.

Fixpoint shown (o n : Z) (items : list Item) : list AnchorDiffChange :=
  match items with
  | [] => []
  | Hidden _ :: its => shown (o + 1) (n + 1) its
  | Marker :: its => marker :: shown o n its
  | Shown (Keep _) :: its => {| ch_type := ChContext; ch_oldLine := Some o; ch_newLine := Some n |} :: shown (o + 1) (n + 1) its
  | Shown (Del _) :: its => {| ch_type := ChRemove; ch_oldLine := Some o; ch_newLine := None |} :: shown (o + 1) n its
  | Shown (Ins _) :: its => {| ch_type := ChAdd; ch_oldLine := None; ch_newLine := Some n |} :: shown o (n + 1) its
  end.

(** [kept]: the edit before is kept, or there is none; [hid]: it is hidden. *)
Fixpoint well_shown (kept hid : bool) (items : list Item) : Prop :=
  match items with
  | [] => True
  | Hidden _ :: its => kept = true /\ well_shown true true its
  | Marker :: its => well_shown kept hid its
  | Shown e :: its => (is_keep e = true \/ hid = false) /\ well_shown (is_keep e) false its
  end.

(** ** A line *)

Lemma remap_before items : forall d ln o n line, line < o -> remap_from d ln (shown o n items) line = (line + d, false).
Proof.
  induction items as [|[[l|l|l]|l|] its IH]; intros d ln o n line Hlt; cbn; [done|..]; try (apply IH; lia);
    rewrite (proj2 (Z.ltb_ge _ _)), (proj2 (Z.eqb_neq _ _)) by lia; done.
Qed.

Lemma next_new_shown items : forall o n, well_shown false false items ->
  next_new (shown o n items) = Some n \/ (next_new (shown o n items) = None /\ news (edits items) = []).
Proof.
  induction items as [|[[l|l|l]|l|] its IH]; intros o n Hw; cbn in *; [by right|by left|by apply IH, Hw|by left|by destruct Hw as [[=] _]|by apply IH].
Qed.

Lemma olds_cons e es : olds (e :: es) = match old_line e with Some l => l :: olds es | None => olds es end.
Proof. done. Qed.
Lemma news_cons e es : news (e :: es) = match new_line e with Some l => l :: news es | None => news es end.
Proof. done. Qed.

Lemma remap_shown items : forall d ln o n line kept hid,
  well_shown kept hid items -> (kept = true -> d = n - o) -> ln <= n - 1 -> (hid = false -> ln = n - 1) -> 1 <= n ->
  o <= line < o + Z.of_nat (length (olds (edits items))) ->
  remap_from d ln (shown o n items) line = image (edits items) (line - o) n.
Proof.
  induction items as [|[[l|l|l]|l|] its IH]; intros d ln o n line kept hid Hw Hd Hle Hln Hn Ho; cbn in Ho; [lia|..];
    cbn [shown edits omap list_omap item_edit image remap_from ch_oldLine ch_newLine ch_type marker];
    change (omap item_edit its) with (edits its) in *; change (omap old_line (edits its)) with (olds (edits its)) in *;
    cbn [well_shown is_keep] in Hw.
  - rewrite bool_decide_true by done. destruct Hw as [_ Hw]. destruct (Z.ltb_spec o line) as [Hlt|Hge].
    + rewrite (proj2 (Z.eqb_neq _ _)) by lia. rewrite (IH _ _ _ _ _ true false) by (done || (intros; lia)). f_equal; lia.
    + replace line with o by lia. by rewrite Z.eqb_refl, Z.sub_diag.
  - destruct Hw as [[[=]|Hh] Hw]. specialize (Hln Hh). destruct (Z.ltb_spec o line) as [Hlt|Hge].
    + rewrite (proj2 (Z.eqb_neq _ _)) by lia. rewrite (IH _ _ _ _ _ false false) by (done || (intros; lia)). f_equal; lia.
    + replace line with o by lia. rewrite Z.eqb_refl, Z.sub_diag. cbn.
      destruct (next_new_shown its (o + 1) n Hw) as [->|[-> _]]; [done|]. f_equal; lia.
  - destruct Hw as [[[=]|Hh] Hw]. specialize (Hln Hh). apply (IH _ _ _ _ _ false false); (done || (intros; lia)).
  - destruct Hw as [-> Hw]. specialize (Hd eq_refl). destruct (Z.eqb_spec (line - o) 0) as [He|Hne].
    + rewrite remap_before by lia. f_equal; lia.
    + rewrite (IH _ _ _ _ _ true true) by (done || (intros; lia)). f_equal; lia.
  - apply (IH _ _ _ _ _ kept hid); (done || (intros; lia)).
Qed.

(** What a diff shows of a script. *)
Definition changes_of (items : list Item) : list AnchorDiffChange := shown 1 1 items.

Lemma remap_line_image items line : well_shown true false items -> 1 <= line <= Z.of_nat (length (olds (edits items))) ->
  remapLine (changes_of items) line = image (edits items) (line - 1) 1.
Proof. intros Hw Hl. apply (remap_shown _ _ _ _ _ _ true false); (done || lia). Qed.

(** ** Scripts *)

Lemma olds_app a b : olds (a ++ b) = olds a ++ olds b. Proof. apply omap_app. Qed.
Lemma news_app a b : news (a ++ b) = news a ++ news b. Proof. apply omap_app. Qed.
Lemma edits_app a b : edits (a ++ b) = edits a ++ edits b. Proof. apply omap_app. Qed.
Lemma olds_keep l : olds (Keep <$> l) = l. Proof. induction l as [|x l IH]; [done|]. cbn. f_equal. exact IH. Qed.
Lemma news_keep l : news (Keep <$> l) = l. Proof. induction l as [|x l IH]; [done|]. cbn. f_equal. exact IH. Qed.

Lemma image_at pre e post n : is_Some (old_line e) ->
  image (pre ++ e :: post) (Z.of_nat (length (olds pre))) n = (n + Z.of_nat (length (news pre)), negb (is_keep e)).
Proof.
  intros He. revert n. induction pre as [|[l|l|l] pre IH]; intros n.
  - cbn. destruct e as [l|l|l]; cbn; [f_equal; lia..|by destruct He].
  - cbn [app image]. rewrite olds_cons, news_cons. cbn [old_line new_line length]. rewrite (proj2 (Z.eqb_neq _ _)) by lia.
    replace (Z.of_nat (S (length (olds pre))) - 1) with (Z.of_nat (length (olds pre))) by lia. rewrite IH. f_equal; lia.
  - cbn [app image]. rewrite olds_cons, news_cons. cbn [old_line new_line length]. rewrite (proj2 (Z.eqb_neq _ _)) by lia.
    replace (Z.of_nat (S (length (olds pre))) - 1) with (Z.of_nat (length (olds pre))) by lia. by rewrite IH.
  - cbn [app image]. rewrite olds_cons, news_cons. cbn [old_line new_line length]. rewrite IH. f_equal; lia.
Qed.

Lemma split_at_old es k : (k < length (olds es))%nat ->
  exists pre e post, es = pre ++ e :: post /\ length (olds pre) = k /\ is_Some (old_line e).
Proof.
  revert k. induction es as [|e es IH]; intros k Hk; [cbn in Hk; lia|]. rewrite olds_cons in Hk.
  destruct (old_line e) as [l|] eqn:E.
  - destruct k as [|k]; [exists [], e, es; rewrite E; by eauto|]. cbn in Hk. destruct (IH k) as (pre & e' & post & -> & Hl & He); [lia|].
    exists (e :: pre), e', post. split; [done|]. rewrite olds_cons, E. cbn. by rewrite Hl.
  - destruct (IH k Hk) as (pre & e' & post & -> & Hl & He). exists (e :: pre), e', post. by rewrite olds_cons, E.
Qed.

(** A range of old lines is the old side of a part that starts and ends in old lines. *)
Lemma split_range es a b : (1 <= a)%nat -> (a <= b)%nat -> (b <= length (olds es))%nat ->
  exists pre mid post, es = pre ++ mid ++ post /\ S (length (olds pre)) = a /\ (length (olds pre) + length (olds mid))%nat = b /\
    (exists e mid', mid = e :: mid' /\ is_Some (old_line e)) /\ (exists mid' e, mid = mid' ++ [e] /\ is_Some (old_line e)).
Proof.
  intros Ha Hab Hb. destruct (split_at_old es (a - 1)) as (pre & e & post & -> & Hl & He); [lia|].
  rewrite olds_app, length_app, olds_cons in Hb. destruct He as [l He]. rewrite He in Hb. cbn in Hb.
  destruct (decide (a = b)) as [<-|Hne].
  - exists pre, [e], post. split; [done|]. rewrite olds_cons, He. cbn. split; [lia|]. split; [lia|]. split; [exists e, []; by rewrite He|exists [], e; by rewrite He].
  - destruct (split_at_old post (b - a - 1)) as (pre' & e' & post' & -> & Hl' & He'); [lia|].
    exists pre, (e :: pre' ++ [e']), post'. split; [cbn; by rewrite <- app_assoc|].
    rewrite olds_cons, He, olds_app, olds_cons. destruct He' as [l' He']. rewrite He'. cbn. rewrite length_app. cbn.
    split; [lia|]. split; [lia|]. split; [exists e, (pre' ++ [e']); by rewrite He|exists (e :: pre'), e'; by rewrite He'].
Qed.

(** ** What a diff shows of the changes *)

Lemma shown_app a b : forall o n,
  shown o n (a ++ b) = shown o n a ++ shown (o + Z.of_nat (length (olds (edits a)))) (n + Z.of_nat (length (news (edits a)))) b.
Proof.
  induction a as [|[[l|l|l]|l|] a IH]; intros o n; cbn [app shown edits omap list_omap item_edit];
    [by rewrite !Z.add_0_r|..]; try (f_equal; rewrite IH; do 2 f_equal); change (omap item_edit a) with (edits a);
    rewrite ?olds_cons, ?news_cons; cbn [old_line new_line length]; try lia; rewrite ?IH; do 2 f_equal; lia.
Qed.

Definition script (es : list Edit) : list Item := Shown <$> es.

Lemma edits_script es : edits (script es) = es.
Proof. induction es as [|e es IH]; [done|]. cbn. f_equal. exact IH. Qed.

(** Hidden lines and markers show no change. *)
Lemma shown_changes (P : AnchorDiffChange -> bool) items : (forall c, is_context c = true -> P c = false) -> forall o n,
  filter (fun c => P c = true) (shown o n items) = filter (fun c => P c = true) (shown o n (script (edits items))).
Proof.
  intros HP. induction items as [|[[l|l|l]|l|] its IH]; intros o n; cbn [shown edits omap list_omap item_edit script fmap list_fmap]; [done|..];
    change (omap item_edit its) with (edits its); change (Shown <$> edits its) with (script (edits its)); rewrite ?filter_cons.
  - rewrite HP by done. cbn. apply IH.
  - destruct (P _); cbn; [f_equal|]; apply IH.
  - destruct (P _); cbn; [f_equal|]; apply IH.
  - rewrite HP by done. cbn. apply IH.
  - rewrite HP by done. cbn. apply IH.
Qed.

Definition is_del (e : Edit) : bool := match e with Del _ => true | _ => false end.
Definition dels (es : list Edit) : list Edit := filter (fun e => is_del e = true) es.

#[local] Ltac decided := repeat first [rewrite decide_True by done | rewrite decide_False by done].

Definition is_ins (e : Edit) : bool := match e with Ins _ => true | _ => false end.
Definition count (P : AnchorDiffChange -> bool) (l : list AnchorDiffChange) : nat := length (filter (fun c => P c = true) l).

Lemma count_app P a b : count P (a ++ b) = (count P a + count P b)%nat.
Proof. unfold count. by rewrite filter_app, length_app. Qed.

Lemma count_cons P c l : count P (c :: l) = ((if P c then 1 else 0) + count P l)%nat.
Proof. unfold count. rewrite filter_cons. by destruct (P c). Qed.

Lemma existsb_count P l : existsb P l = Nat.ltb 0 (count P l).
Proof. induction l as [|c l IH]; [done|]. cbn [existsb]. rewrite count_cons, IH. by destruct (P c). Qed.


Lemma removed_in_context a b c : is_context c = true -> removed_in a b c = false.
Proof. unfold is_context, removed_in. intros H%bool_decide_eq_true. by rewrite H. Qed.
Lemma inserted_in_context s e c : is_context c = true -> inserted_in s e c = false.
Proof. unfold is_context, inserted_in. intros H%bool_decide_eq_true. by rewrite H. Qed.

Lemma removed_outside es a b : forall o n, o + Z.of_nat (length (olds es)) <= a \/ b < o -> count (removed_in a b) (shown o n (script es)) = 0%nat.
Proof.
  induction es as [|[l|l|l] es IH]; intros o n H; [done|..]; rewrite olds_cons in H; cbn [old_line length] in H;
    cbn [script fmap list_fmap shown]; change (Shown <$> es) with (script es); rewrite count_cons, IH by lia; [done| |done].
  change (removed_in a b _) with ((a <=? o) && (o <=? b)). destruct (Z.leb_spec a o), (Z.leb_spec o b); (done || lia).
Qed.

Lemma removed_inside es a b : forall o n, a <= o -> o + Z.of_nat (length (olds es)) - 1 <= b ->
  count (removed_in a b) (shown o n (script es)) = length (dels es).
Proof.
  induction es as [|[l|l|l] es IH]; intros o n Ha Hb; [done|..]; rewrite olds_cons in Hb; cbn [old_line length] in Hb;
    cbn [script fmap list_fmap shown]; change (Shown <$> es) with (script es); rewrite count_cons, IH by lia; [done| |done].
  change (removed_in a b _) with ((a <=? o) && (o <=? b)). rewrite (proj2 (Z.leb_le a o)), (proj2 (Z.leb_le o b)) by lia. done.
Qed.

Lemma inserted_outside es s e : forall o n, n + Z.of_nat (length (news es)) - 1 <= s \/ e < n -> count (inserted_in s e) (shown o n (script es)) = 0%nat.
Proof.
  induction es as [|[l|l|l] es IH]; intros o n H; [done|..]; rewrite news_cons in H; cbn [new_line length] in H;
    cbn [script fmap list_fmap shown]; change (Shown <$> es) with (script es); rewrite count_cons, IH by lia; [done|done|].
  change (inserted_in s e _) with ((s <? n) && (n <=? e)). destruct (Z.ltb_spec s n), (Z.leb_spec n e); (done || lia).
Qed.

Lemma inserted_inside es s e : forall o n, s < n -> n + Z.of_nat (length (news es)) - 1 <= e ->
  count (inserted_in s e) (shown o n (script es)) = length (filter (fun x => is_ins x = true) es).
Proof.
  induction es as [|[l|l|l] es IH]; intros o n Hs He; [done|..]; rewrite news_cons in He; cbn [new_line length] in He;
    cbn [script fmap list_fmap shown]; change (Shown <$> es) with (script es); rewrite count_cons, IH by lia; [done|done|].
  change (inserted_in s e _) with ((s <? n) && (n <=? e)). rewrite (proj2 (Z.ltb_lt s n)), (proj2 (Z.leb_le n e)) by lia. done.
Qed.

Lemma count_shown P items o n : (forall c, is_context c = true -> P c = false) ->
  count P (shown o n items) = count P (shown o n (script (edits items))).
Proof. intros HP. unfold count. by rewrite shown_changes. Qed.

Lemma shown_three pre mid post : forall P,
  count P (shown 1 1 (script (pre ++ mid ++ post))) =
  (count P (shown 1 1 (script pre)) +
   (count P (shown (1 + Z.of_nat (length (olds pre))) (1 + Z.of_nat (length (news pre))) (script mid)) +
    count P (shown (1 + Z.of_nat (length (olds pre)) + Z.of_nat (length (olds mid))) (1 + Z.of_nat (length (news pre)) + Z.of_nat (length (news mid)))
       (script post))))%nat.
Proof. intros P. unfold script at 1. rewrite !fmap_app, !shown_app, !count_app. fold (script pre) (script mid) (script post). by rewrite !edits_script. Qed.

(** The lines deleted from a range. *)
Lemma removed_in_range items pre mid post : edits items = pre ++ mid ++ post ->
  count (removed_in (1 + Z.of_nat (length (olds pre))) (Z.of_nat (length (olds pre)) + Z.of_nat (length (olds mid)))) (changes_of items) = length (dels mid).
Proof.
  intros He. unfold changes_of. rewrite count_shown, He, shown_three by apply removed_in_context.
  rewrite removed_outside, removed_inside, removed_outside by lia. lia.
Qed.

Lemma dels_length es : length (olds es) = (length (dels es) + length (filter (fun e => is_keep e = true) es))%nat.
Proof. induction es as [|[l|l|l] es IH]; [done|..]; rewrite olds_cons; unfold dels in *; rewrite !filter_cons; decided; cbn; lia. Qed.

Lemma dels_none_keep es : dels es = [] -> filter (fun x => is_ins x = true) es = [] -> es = Keep <$> olds es.
Proof.
  unfold dels. induction es as [|[l|l|l] es IH]; [done|..]; rewrite !filter_cons, olds_cons; decided; cbn; [|done|done].
  intros H1 H2. f_equal. by apply IH.
Qed.

(** ** A range *)

Section Range.
Context (items : list Item) (pre mid post : list Edit).
Context (Hw : well_shown true false items) (Hes : edits items = pre ++ mid ++ post).
Context (Hfirst : exists e mid', mid = e :: mid' /\ is_Some (old_line e)).
Context (Hlast : exists mid' e, mid = mid' ++ [e] /\ is_Some (old_line e)).

Let a : Z := Z.of_nat (S (length (olds pre))).
Let b : Z := Z.of_nat (length (olds pre) + length (olds mid)).

Lemma range_nonempty : (1 <= length (olds mid))%nat.
Proof. destruct Hfirst as (e & mid' & -> & [l He]). rewrite olds_cons, He. cbn. lia. Qed.

Lemma remap_first e mid' : mid = e :: mid' -> is_Some (old_line e) ->
  remapLine (changes_of items) a = (Z.of_nat (S (length (news pre))), negb (is_keep e)).
Proof.
  intros Hm He. rewrite remap_line_image; [|done|].
  - rewrite Hes, Hm. cbn [app]. replace (a - 1) with (Z.of_nat (length (olds pre))) by lia. rewrite image_at by done. f_equal. lia.
  - rewrite Hes, !olds_app, !length_app. pose proof range_nonempty. lia.
Qed.

Lemma remap_last mid' e : mid = mid' ++ [e] -> is_Some (old_line e) ->
  remapLine (changes_of items) b = (Z.of_nat (S (length (news pre) + length (news mid'))), negb (is_keep e)).
Proof.
  intros Hm He. assert (Hb : b = Z.of_nat (S (length (olds (pre ++ mid'))))).
  { unfold b. rewrite Hm, !olds_app, !length_app. destruct He as [l He]. rewrite (olds_cons e []), He. cbn. lia. }
  rewrite remap_line_image; [|done|].
  - rewrite Hes, Hm, Hb. replace (Z.of_nat (S _) - 1) with (Z.of_nat (length (olds (pre ++ mid')))) by lia.
    rewrite <- app_assoc, app_assoc. cbn [app]. rewrite image_at by done. rewrite news_app, length_app. f_equal. lia.
  - rewrite Hes, !olds_app, !length_app. pose proof range_nonempty. unfold b. lia.
Qed.

Lemma removed_count : count (removed_in a b) (changes_of items) = length (dels mid).
Proof. rewrite <- (removed_in_range items pre mid post Hes). f_equal. f_equal; lia. Qed.

(** The lines inserted inside, when the range starts and ends in kept lines. *)
Lemma inserted_count e mid' : mid = e :: mid' -> is_keep e = true ->
  count (inserted_in (Z.of_nat (S (length (news pre)))) (Z.of_nat (length (news pre) + length (news mid)))) (changes_of items) =
  length (filter (fun x => is_ins x = true) mid).
Proof.
  intros Hm He. unfold changes_of. rewrite count_shown, Hes, shown_three by apply inserted_in_context.
  rewrite inserted_outside by lia. rewrite (inserted_outside post) by lia. rewrite Nat.add_0_r. cbn [Nat.add].
  rewrite Hm. destruct e as [l| |]; [|done..]. rewrite news_cons, filter_cons. rewrite decide_False by done.
  cbn [script fmap list_fmap shown new_line length]. change (Shown <$> mid') with (script mid'). rewrite count_cons. cbn [inserted_in].
  rewrite inserted_in_context by done. rewrite inserted_inside by lia. done.
Qed.

Lemma filter_kept (P : Edit -> bool) es : (forall l, P (Keep l) = false) -> Forall (fun x => is_keep x = true) es -> filter (fun x => P x = true) es = [].
Proof.
  intros HP Hk. induction Hk as [|[l|l|l] es Hx Hk IH]; [done| |done..]. rewrite filter_cons, HP. by rewrite decide_False.
Qed.

Lemma range_kept lines : mid = Keep <$> lines ->
  remapLineRange (changes_of items) a b =
  {| lr_lineStart := Z.of_nat (S (length (news pre))); lr_lineEnd := Z.of_nat (length (news pre) + length lines); lr_touched := false; lr_deleted := false |}.
Proof.
  intros Hm. pose proof range_nonempty as Hne. destruct Hfirst as (e & mid1 & He & Hold). destruct Hlast as (mid2 & e' & He' & Hold').
  assert (Hk : Forall (fun x => is_keep x = true) mid) by (rewrite Hm; by apply Forall_fmap, Forall_true).
  assert (Hek : is_keep e = true) by (rewrite He in Hk; by inversion Hk).
  assert (Hek' : is_keep e' = true) by (rewrite He' in Hk; apply Forall_app in Hk as [_ Hk]; by inversion Hk).
  assert (Hdel : dels mid = []) by (by apply (filter_kept is_del)).
  assert (Hins : filter (fun x => is_ins x = true) mid = []) by (by apply (filter_kept is_ins)).
  unfold remapLineRange. rewrite (remap_first _ _ He Hold), (remap_last _ _ He' Hold'), Hek, Hek'. cbn [fst snd negb].
  fold (count (removed_in a b) (changes_of items)). rewrite removed_count, Hdel. cbn [length].
  replace (Z.of_nat 0 =? b - a + 1) with false by (symmetry; apply Z.eqb_neq; unfold a, b; lia).
  assert (Hnm : length (news mid) = length lines) by (by rewrite Hm, news_keep).
  assert (Hn2 : S (length (news mid2)) = length lines).
  { rewrite <- Hnm, He', news_app, length_app. destruct e'; cbn; [lia|done..]. }
  replace (Z.max (Z.of_nat (S (length (news pre)))) (Z.of_nat (S (length (news pre) + length (news mid2))))) with
    (Z.of_nat (length (news pre) + length (news mid))) by lia.
  rewrite existsb_count, (inserted_count _ _ He Hek), Hins. cbn. f_equal; lia.
Qed.

Lemma range_untouched : (remapLineRange (changes_of items) a b).(lr_touched) = false -> mid = Keep <$> olds mid.
Proof.
  intros Ht. destruct Hfirst as (e & mid1 & He & Hold). destruct Hlast as (mid2 & e' & He' & Hold').
  unfold remapLineRange in Ht. rewrite (remap_first _ _ He Hold), (remap_last _ _ He' Hold') in Ht. cbn [fst snd] in Ht.
  fold (count (removed_in a b) (changes_of items)) in Ht. rewrite removed_count in Ht.
  destruct (_ =? _); [by destruct (block_added _ _ _)|]. cbn [lr_touched] in Ht. apply orb_false_iff in Ht as [Hd Hi].
  apply Z.ltb_ge in Hd. assert (Hdel : dels mid = []) by (apply nil_length_inv; lia).
  assert (Hkeep : forall x, x ∈ mid -> is_Some (old_line x) -> is_keep x = true).
  { intros x Hx Hs. destruct x as [l|l|l]; [done| |by destruct Hs]. exfalso. assert (Hin : Del l ∈ dels mid) by (by apply list_elem_of_filter).
    rewrite Hdel in Hin. by apply elem_of_nil in Hin. }
  assert (Hek : is_keep e = true) by (apply Hkeep; [rewrite He; by left|done]).
  assert (Hek' : is_keep e' = true) by (apply Hkeep; [rewrite He'; apply elem_of_app; right; by left|done]).
  rewrite Hek' in Hi. cbn [negb] in Hi. rewrite existsb_count in Hi.
  replace (Z.max (Z.of_nat (S (length (news pre)))) (Z.of_nat (S (length (news pre) + length (news mid2))))) with
    (Z.of_nat (length (news pre) + length (news mid))) in Hi.
  - rewrite (inserted_count _ _ He Hek) in Hi. apply Nat.ltb_ge in Hi. apply dels_none_keep; [done|]. apply nil_length_inv; lia.
  - rewrite He', news_app, length_app. destruct e'; [|done..]. cbn. lia.
Qed.
End Range.

(** The lines [a] to [b] are kept side by side in a script: there they are. *)
Definition kept_range (es : list Edit) (a b : nat) (pre : list Edit) (lines : list string) : Prop :=
  exists post, es = pre ++ (Keep <$> lines) ++ post /\ S (length (olds pre)) = a /\ (length (olds pre) + length lines)%nat = b.

Theorem untouched_range_kept items (a b : nat) : well_shown true false items ->
  (1 <= a)%nat -> (a <= b)%nat -> (b <= length (olds (edits items)))%nat ->
  let r := remapLineRange (changes_of items) (Z.of_nat a) (Z.of_nat b) in
  (r.(lr_touched) = false <-> exists pre lines, kept_range (edits items) a b pre lines) /\
  forall pre lines, kept_range (edits items) a b pre lines ->
    r = {| lr_lineStart := Z.of_nat (S (length (news pre))); lr_lineEnd := Z.of_nat (length (news pre) + length lines);
           lr_touched := false; lr_deleted := false |}.
Proof.
  intros Hw Ha Hab Hb r.
  assert (Hkept : forall pre lines, kept_range (edits items) a b pre lines ->
    r = {| lr_lineStart := Z.of_nat (S (length (news pre))); lr_lineEnd := Z.of_nat (length (news pre) + length lines);
           lr_touched := false; lr_deleted := false |}).
  { intros pre lines (post & Hes & <- & <-). subst r.
    rewrite <- (olds_keep lines) at 1. apply (range_kept items pre (Keep <$> lines) post); [done..| | |done].
    - destruct lines as [|l lines]; [cbn in Hab; lia|]. exists (Keep l), (Keep <$> lines). by split.
    - destruct (rev lines) as [|l rl] eqn:E; [apply (f_equal length) in E; rewrite length_rev in E; cbn in E; lia|].
      apply (f_equal (@rev string)) in E. rewrite rev_involutive in E. cbn in E. exists (Keep <$> rev rl), (Keep l). rewrite E, fmap_app. by split. }
  split; [|exact Hkept]. split; [|intros (pre & lines & Hk); by rewrite (Hkept pre lines Hk)]. intros Ht.
  destruct (split_range _ _ _ Ha Hab Hb) as (pre & mid & post & Hes & <- & <- & Hf & Hl). subst r.
  pose proof (range_untouched items pre mid post Hw Hes Hf Hl Ht) as Hm. exists pre, (olds mid), post. by rewrite <- Hm.
Qed.

(** ** A range whose lines are all deleted *)

Lemma removes_number items x c : forall o n, c ∈ shown o n items -> removes x c = true -> o <= x < o + Z.of_nat (length (olds (edits items))).
Proof.
  induction items as [|[[l|l|l]|l|] its IH]; intros o n Hc Hx; cbn [shown] in Hc; [by apply elem_of_nil in Hc|..];
    cbn [edits omap list_omap item_edit]; change (omap item_edit its) with (edits its); rewrite ?olds_cons; cbn [old_line length].
  - apply elem_of_cons in Hc as [->|Hc]; [done|]. specialize (IH _ _ Hc Hx). lia.
  - apply elem_of_cons in Hc as [->|Hc]; [|specialize (IH _ _ Hc Hx); lia].
    unfold removes in Hx. apply andb_true_iff in Hx as [_ Hx%bool_decide_eq_true]. injection Hx as ->. lia.
  - apply elem_of_cons in Hc as [->|Hc]; [done|]. specialize (IH _ _ Hc Hx). lia.
  - specialize (IH _ _ Hc Hx). lia.
  - apply elem_of_cons in Hc as [->|Hc]; [done|]. by apply (IH o n).
Qed.

Definition no_keep (es : list Edit) : Prop := Forall (fun e => is_keep e = false) es.

Lemma removes_exists es x : forall o n, no_keep es -> o <= x < o + Z.of_nat (length (olds es)) -> exists c, c ∈ shown o n (script es) /\ removes x c = true.
Proof.
  induction es as [|[l|l|l] es IH]; intros o n Hk Hx; inversion Hk as [|? ? Hk1 Hk2]; subst; [cbn in Hx; lia|done|..]; rewrite olds_cons in Hx; cbn [old_line length] in Hx;
    cbn [script fmap list_fmap shown]; change (Shown <$> es) with (script es).
  - destruct (decide (x = o)) as [->|Hne].
    + eexists. split; [by left|]. unfold removes. by rewrite !bool_decide_true.
    + destruct (IH (o + 1) n Hk2) as (c & Hc & Hr); [lia|]. exists c. split; [by right|done].
  - destruct (IH o (n + 1) Hk2) as (c & Hc & Hr); [lia|]. exists c. split; [by right|done].
Qed.

Lemma no_keep_changes es : forall o n, no_keep es -> Forall (fun c => is_context c = false) (shown o n (script es)).
Proof.
  induction es as [|[l|l|l] es IH]; intros o n Hk; inversion Hk as [|? ? Hk1 Hk2]; subst; [constructor|done|..];
    cbn [script fmap list_fmap shown]; change (Shown <$> es) with (script es); (constructor; [done|by apply IH]).
Qed.

Lemma added_lines es : forall o n, no_keep es -> omap added_line (shown o n (script es)) = (fun i => n + Z.of_nat i) <$> seq 0 (length (news es)).
Proof.
  induction es as [|[l|l|l] es IH]; intros o n Hk; inversion Hk as [|? ? Hk1 Hk2]; subst; [done|done|..];
    cbn [script fmap list_fmap shown omap list_omap]; change (Shown <$> es) with (script es); rewrite news_cons; cbn [new_line length].
  - change (added_line _) with (@None Z). by apply IH.
  - change (added_line _) with (Some n). cbn [seq fmap list_fmap]. f_equal; [lia|]. change (list_omap _ _ added_line ?l) with (omap added_line l).
    rewrite IH by done. rewrite <- fmap_S_seq, <- list_fmap_compose. apply list_fmap_ext. intros i x _. cbn. lia.
Qed.

Lemma min_of_run n k : foldr Z.min n ((fun i => n + Z.of_nat i) <$> seq 1 k) = n.
Proof.
  assert (H : forall l, Forall (fun x => n <= x) l -> foldr Z.min n l = n) by (intros l Hl; induction Hl as [|x l Hx Hl IH]; [done|]; cbn; lia).
  apply H, Forall_fmap, Forall_forall. intros i _. cbn. lia.
Qed.

Lemma max_of_run n k : foldr Z.max n ((fun i => n + Z.of_nat i) <$> seq 1 k) = n + Z.of_nat k.
Proof.
  induction k as [|k IH]; [cbn; lia|]. rewrite seq_S, fmap_app, foldr_app. cbn.
  assert (H : forall l m, Forall (fun x => x <= m) l -> n <= m -> foldr Z.max m l = m) by (intros l m Hl Hm; induction Hl as [|x l Hx Hl IHl]; [done|]; cbn; lia).
  rewrite H; [lia| |lia]. apply Forall_fmap, Forall_forall. intros i Hi. apply elem_of_seq in Hi. cbn. lia.
Qed.

Lemma block_lo_spec (p l : list AnchorDiffChange) : (p = [] \/ exists p' c, p = p' ++ [c] /\ is_context c = true) -> forall k,
  Forall (fun c => is_context c = false) (take k (drop (length p) l)) -> (length p + k <= length l)%nat -> take (length p) l = p -> block_lo l (length p + k) = length p.
Proof.
  intros Hp k. induction k as [|k IH]; intros Hk Hlen Htake.
  - rewrite Nat.add_0_r. destruct Hp as [->|(p' & c & -> & Hc)]; [done|]. rewrite length_app. cbn [length]. rewrite Nat.add_comm. cbn [block_lo Nat.add].
    assert (Hl : l !! length p' = Some c).
    { rewrite <- (lookup_take_lt l (length (p' ++ [c]))) by (rewrite length_app; cbn; lia). rewrite Htake, lookup_app_r, Nat.sub_diag by lia. done. }
    by rewrite Hl, Hc.
  - rewrite Nat.add_succ_r. cbn [block_lo]. destruct (lookup_lt_is_Some_2 l (length p + k)) as [c Hc]; [lia|]. rewrite Hc.
    assert (Hn : is_context c = false).
    { apply (proj1 (Forall_forall _ _) Hk). apply list_elem_of_lookup. exists k. rewrite lookup_take_lt, lookup_drop by lia. done. }
    rewrite Hn. apply IH; [|lia|done]. rewrite (take_S_r _ _ c) in Hk by (by rewrite lookup_drop). by apply Forall_app in Hk as [Hk _].
Qed.

Lemma block_hi_spec bl q hi : Forall (fun c => is_context c = false) bl -> (q = [] \/ exists c q', q = c :: q' /\ is_context c = true) ->
  block_hi (bl ++ q) hi = (hi + length bl)%nat.
Proof.
  intros Hb Hq. revert hi. induction Hb as [|c bl Hc Hb IH]; intros hi; cbn.
  - destruct Hq as [->|(c & q' & -> & Hc)]; cbn; [lia|]. rewrite Hc. lia.
  - rewrite Hc, IH. lia.
Qed.

Section Block.
Context (ps : list Item) (blk : list Edit) (qs : list Item).
Context (Hblk : no_keep blk).
Context (Hps : ps = [] \/ exists ps' l, ps = ps' ++ [Shown (Keep l)]) (Hqs : qs = [] \/ exists l qs', qs = Shown (Keep l) :: qs').

Let o : Z := 1 + Z.of_nat (length (olds (edits ps))).
Let n : Z := 1 + Z.of_nat (length (news (edits ps))).
Let L : list AnchorDiffChange := changes_of (ps ++ script blk ++ qs).
Let Lp : list AnchorDiffChange := shown 1 1 ps.
Let Lb : list AnchorDiffChange := shown o n (script blk).
Let Lq : list AnchorDiffChange := shown (o + Z.of_nat (length (olds blk))) (n + Z.of_nat (length (news blk))) qs.

Lemma block_changes : L = Lp ++ Lb ++ Lq.
Proof. unfold L, changes_of. rewrite !shown_app, edits_script. done. Qed.

Lemma before_block : Lp = [] \/ exists p' c, Lp = p' ++ [c] /\ is_context c = true.
Proof.
  destruct Hps as [H|(ps' & l & H)]; unfold Lp; rewrite H; [by left|right]. rewrite shown_app. eexists _, _. split; [cbn; reflexivity|done].
Qed.
Lemma after_block : Lq = [] \/ exists c q', Lq = c :: q' /\ is_context c = true.
Proof. destruct Hqs as [H|(l & qs' & H)]; unfold Lq; rewrite H; [by left|right]. eexists _, _. split; [cbn; reflexivity|done]. Qed.

Lemma find_in_block x : o <= x < o + Z.of_nat (length (olds blk)) ->
  exists i, find_index (removes x) L = Some i /\ (length Lp <= i < length Lp + length Lb)%nat.
Proof.
  intros Hx. destruct (removes_exists blk x o n Hblk Hx) as (c & Hc & Hr).
  assert (HcL : c ∈ L) by (rewrite block_changes; apply elem_of_app; right; apply elem_of_app; by left).
  destruct (list_find_elem_of (fun c => removes x c = true) L c HcL Hr) as [[i c'] Hf]. exists i. unfold find_index. rewrite Hf. split; [done|].
  apply list_find_Some in Hf as (Hi & Hr' & _). rewrite block_changes in Hi. split.
  - destruct (decide (i < length Lp)%nat) as [Hlt|]; [exfalso|lia]. rewrite lookup_app_l in Hi by done.
    apply list_elem_of_lookup_2 in Hi. pose proof (removes_number _ _ _ _ _ Hi Hr'). lia.
  - destruct (decide (i < length Lp + length Lb)%nat) as [|Hge]; [done|exfalso]. rewrite lookup_app_r, lookup_app_r in Hi by lia.
    apply list_elem_of_lookup_2 in Hi. pose proof (removes_number _ _ _ _ _ Hi Hr'). lia.
Qed.

Lemma block_context : Forall (fun c => is_context c = false) Lb.
Proof. by apply no_keep_changes. Qed.

Lemma added_of_block a b : o <= a -> a <= b -> b < o + Z.of_nat (length (olds blk)) ->
  block_added L a b = (fun i => n + Z.of_nat i) <$> seq 0 (length (news blk)).
Proof.
  intros Ha Hab Hb. unfold block_added.
  destruct (find_in_block a) as (i & -> & Hi); [lia|]. destruct (find_in_block b) as (j & -> & Hj); [lia|].
  assert (HL : L = Lp ++ Lb ++ Lq) by apply block_changes.
  assert (Hlo : block_lo L i = length Lp).
  { replace i with (length Lp + (i - length Lp))%nat by lia. apply block_lo_spec; [apply before_block| | |].
    - rewrite HL, drop_app_length, take_app_le by lia. apply Forall_take, block_context.
    - rewrite HL, !length_app. lia.
    - by rewrite HL, take_app_length. }
  rewrite Hlo. assert (Hhi : block_hi (drop (S j) L) j = (length Lp + length Lb - 1)%nat).
  { rewrite HL, drop_app_ge by lia. rewrite drop_app_le by lia. rewrite block_hi_spec; [|apply Forall_drop, block_context|apply after_block].
    rewrite length_drop. lia. }
  rewrite Hhi, HL, drop_app_length. replace (S (length Lp + length Lb - 1) - length Lp)%nat with (length Lb) by lia.
  rewrite take_app_length. by apply added_lines.
Qed.
End Block.

(** A block of changes is as large as it can be, and no marker breaks it. *)
Record whole_block (items ps : list Item) (blk : list Edit) (qs : list Item) : Prop := {
  wb_items : items = ps ++ script blk ++ qs;
  wb_changes : no_keep blk;
  wb_before : ps = [] \/ exists ps' l, ps = ps' ++ [Shown (Keep l)];
  wb_after : qs = [] \/ exists l qs', qs = Shown (Keep l) :: qs'
}.

Lemma no_keep_dels es : no_keep es -> length (dels es) = length (olds es).
Proof.
  intros Hk. rewrite dels_length. replace (filter (fun e => is_keep e = true) es) with (@nil Edit); [cbn; lia|].
  symmetry. induction Hk as [|e es He Hk IH]; [done|]. rewrite filter_cons, decide_False by (by rewrite He). done.
Qed.

Lemma no_keep_part pre mid post blk : no_keep blk -> blk = pre ++ mid ++ post -> no_keep mid.
Proof. intros Hk ->. apply Forall_app in Hk as [_ Hk]. by apply Forall_app in Hk as [Hk _]. Qed.

Theorem removed_range_replaced items ps blk qs (a b : nat) : well_shown true false items -> whole_block items ps blk qs ->
  (length (olds (edits ps)) < a)%nat -> (a <= b)%nat -> (b <= length (olds (edits ps)) + length (olds blk))%nat ->
  let n := S (length (news (edits ps))) in
  remapLineRange (changes_of items) (Z.of_nat a) (Z.of_nat b) =
  match news blk with
  | [] => {| lr_lineStart := Z.of_nat n; lr_lineEnd := Z.of_nat n; lr_touched := true; lr_deleted := true |}
  | _ :: added => {| lr_lineStart := Z.of_nat n; lr_lineEnd := Z.of_nat (n + length added); lr_touched := true; lr_deleted := false |}
  end.
Proof.
  intros Hw [-> Hk Hp Hq] Ha Hab Hb n.
  destruct (split_range blk (a - length (olds (edits ps))) (b - length (olds (edits ps)))) as (p1 & mid & p2 & Hblk & Hsa & Hsb & Hf & Hl); [lia..|].
  assert (Hes : edits (ps ++ script blk ++ qs) = (edits ps ++ p1) ++ mid ++ (p2 ++ edits qs)).
  { rewrite !edits_app, edits_script, Hblk, <- !app_assoc. done. }
  assert (Hza : Z.of_nat a = Z.of_nat (S (length (olds (edits ps ++ p1))))) by (rewrite olds_app, length_app; lia).
  assert (Hzb : Z.of_nat b = Z.of_nat (length (olds (edits ps ++ p1)) + length (olds mid))) by (rewrite olds_app, length_app; lia).
  pose proof (no_keep_dels mid (no_keep_part _ _ _ _ Hk Hblk)) as Hdels.
  pose proof (removed_count _ _ _ _ Hes) as Hcount. rewrite <- Hza, <- Hzb, Hdels in Hcount.
  unfold remapLineRange. fold (count (removed_in (Z.of_nat a) (Z.of_nat b)) (changes_of (ps ++ script blk ++ qs))). rewrite Hcount.
  rewrite (proj2 (Z.eqb_eq _ _)) by lia.
  rewrite (added_of_block ps blk qs Hk Hp Hq) by lia.
  destruct (news blk) as [|x added] eqn:Hn; cbn [length seq fmap list_fmap].
  - destruct Hf as (e & mid' & Hmid & He). rewrite Hza, (remap_first _ _ _ _ Hw Hes ltac:(by exists e, mid') ltac:(done) e mid' Hmid He). cbn [fst].
    assert (Hp1 : news p1 = []) by (rewrite Hblk, news_app in Hn; by apply app_nil in Hn as [Hn _]).
    rewrite news_app, Hp1, app_nil_r. done.
  - change ((fun i => 1 + Z.of_nat (length (news (edits ps))) + Z.of_nat i) <$> seq 1 (length added)) with
      ((fun i => (1 + Z.of_nat (length (news (edits ps)))) + Z.of_nat i) <$> seq 1 (length added)).
    rewrite Z.add_0_r, min_of_run, max_of_run. f_equal; lia.
Qed.

(** A range is called deleted only if none of its lines is kept. *)
Definition deleted_range (es : list Edit) (a b : nat) : Prop :=
  exists pre mid post, es = pre ++ mid ++ post /\ S (length (olds pre)) = a /\ (length (olds pre) + length (olds mid))%nat = b /\ no_keep mid.

Lemma deleted_range_removed items (a b : nat) : well_shown true false items ->
  (1 <= a)%nat -> (a <= b)%nat -> (b <= length (olds (edits items)))%nat ->
  (remapLineRange (changes_of items) (Z.of_nat a) (Z.of_nat b)).(lr_deleted) = true -> deleted_range (edits items) a b.
Proof.
  intros Hw Ha Hab Hb Hdel. destruct (split_range _ _ _ Ha Hab Hb) as (pre & mid & post & Hes & <- & <- & Hf & Hl).
  exists pre, mid, post. split; [done|]. split; [done|]. split; [done|]. unfold remapLineRange in Hdel.
  pose proof (removed_count items pre mid post Hes) as Hc. unfold count in Hc. rewrite Hc in Hdel.
  destruct (Z.eqb_spec (Z.of_nat (length (dels mid))) (Z.of_nat (length (olds pre) + length (olds mid)) - Z.of_nat (S (length (olds pre))) + 1)) as [He|];
    [|discriminate]. pose proof (dels_length mid) as Hlen.
  assert (Hk : filter (fun e => is_keep e = true) mid = []) by (apply nil_length_inv; lia).
  apply Forall_forall. intros e He'. destruct (is_keep e) eqn:E; [|done]. exfalso.
  assert (Hin : e ∈ filter (fun e => is_keep e = true) mid) by (by apply list_elem_of_filter). rewrite Hk in Hin. by apply elem_of_nil in Hin.
Qed.

(** A marker does break a block: the last line of a file without a final newline,
    rewritten, is called deleted. *)
Definition last_line_rewritten : list Item := [Shown (Keep "a"); Shown (Del "b"); Marker; Shown (Ins "c"); Marker].
Lemma marker_breaks_block : remapLineRange (changes_of last_line_rewritten) 2 2 =
  {| lr_lineStart := 2; lr_lineEnd := 2; lr_touched := true; lr_deleted := true |}.
Proof. by vm_compute. Qed.
