(* ===== verification/Json.v ===== *)
(** * JSON.parse

    The parser of JSON texts, over UTF-16 units; a syntax error is [None].  A value
    nests no deeper than the text is long, and each level takes two calls, which
    bounds the fuel.  A number is kept as its text. *)

From S2P Require Import Prelude JsString Text Utf16.
#[local] Open Scope Z_scope.

Inductive Json : Type :=
| JNull
| JBool (b : bool)
| JNum (text : list Z)
| JStr (s : list Z)
| JArr (l : list Json)
| JObj (members : list (list Z * Json)).

Fixpoint skip_ws (l : list Z) : list Z :=
  match l with
  | u :: l' => if (u =? 32) || (u =? 9) || (u =? 10) || (u =? 13) then skip_ws l' else l
  | [] => []
  end.

Fixpoint strip (p l : list Z) : option (list Z) :=
  match p, l with
  | [], _ => Some l
  | x :: p', y :: l' => if x =? y then strip p' l' else None
  | _ :: _, [] => None
  end.

Definition hex_value (u : Z) : option Z :=
  if (48 <=? u) && (u <=? 57) then Some (u - 48)
  else if (97 <=? u) && (u <=? 102) then Some (u - 87)
  else if (65 <=? u) && (u <=? 70) then Some (u - 55)
  else None.

Definition escape_value (u : Z) : option Z :=
  if (u =? 34) || (u =? 92) || (u =? 47) then Some u
  else if u =? 98 then Some 8 else if u =? 102 then Some 12 else if u =? 110 then Some 10
  else if u =? 114 then Some 13 else if u =? 116 then Some 9 else None.

(** The rest of a string, after its opening quote. *)
Fixpoint string_rest (l : list Z) : option (list Z * list Z) :=
  match l with
  | [] => None
  | u :: l1 =>
      if u =? 34 then Some ([], l1)
      else if u =? 92 then
        match l1 with
        | [] => None
        | e :: l2 =>
            if e =? 117 then
              match l2 with
              | h1 :: h2 :: h3 :: h4 :: l3 =>
                  a ← hex_value h1; b ← hex_value h2; c ← hex_value h3; d ← hex_value h4;
                  r ← string_rest l3; Some (a * 4096 + b * 256 + c * 16 + d :: r.1, r.2)
              | _ => None
              end
            else v ← escape_value e; r ← string_rest l2; Some (v :: r.1, r.2)
        end
      else if u <? 32 then None
      else r ← string_rest l1; Some (u :: r.1, r.2)
  end.

Definition is_digit_unit (u : Z) : bool := (48 <=? u) && (u <=? 57).
Fixpoint digits_of (l : list Z) : list Z * list Z :=
  match l with u :: l' => if is_digit_unit u then let r := digits_of l' in (u :: r.1, r.2) else ([], l) | [] => ([], []) end.

(** [-? (0 | [1-9][0-9]* ) (\. [0-9]+)? ([eE] [+-]? [0-9]+)?] *)
Definition number_of (l : list Z) : option (list Z * list Z) :=
  let (sign, l) := match l with u :: l' => if u =? 45 then ([u], l') else ([], l) | [] => ([], []) end in
  let (int, l) := match l with u :: l' => if u =? 48 then ([u], l') else digits_of l | [] => ([], []) end in
  match int with
  | [] => None
  | _ =>
      frac ← match l with
             | u :: l' => if u =? 46 then let r := digits_of l' in match r.1 with [] => None | _ => Some (u :: r.1, r.2) end else Some ([], l)
             | [] => Some ([], [])
             end;
      exp ← match frac.2 with
            | u :: l' =>
                if (u =? 101) || (u =? 69) then
                  let (s, l') := match l' with v :: l2 => if (v =? 43) || (v =? 45) then ([v], l2) else ([], l') | [] => ([], []) end in
                  let r := digits_of l' in match r.1 with [] => None | _ => Some (u :: s ++ r.1, r.2) end
                else Some ([], frac.2)
            | [] => Some ([], [])
            end;
      Some (sign ++ int ++ frac.1 ++ exp.1, exp.2)
  end.

(** A value, and the text after it; with [first], no element or json_member came yet. *)
Fixpoint json_value (n : nat) (l : list Z) : option (Json * list Z) :=
  match n with
  | O => None
  | S n =>
      let l := skip_ws l in
      match l with
      | [] => None
      | u :: l1 =>
          if u =? 34 then r ← string_rest l1; Some (JStr r.1, r.2)
          else if u =? 123 then r ← json_members n true l1; Some (JObj r.1, r.2)
          else if u =? 91 then r ← json_elements n true l1; Some (JArr r.1, r.2)
          else if u =? 110 then r ← strip (to_utf16 "null") l; Some (JNull, r)
          else if u =? 116 then r ← strip (to_utf16 "true") l; Some (JBool true, r)
          else if u =? 102 then r ← strip (to_utf16 "false") l; Some (JBool false, r)
          else r ← number_of l; Some (JNum r.1, r.2)
      end
  end
with json_elements (n : nat) (first : bool) (l : list Z) : option (list Json * list Z) :=
  match n with
  | O => None
  | S n =>
      match skip_ws l with
      | [] => None
      | u :: l1 =>
          if u =? 93 then if first then Some ([], l1) else None
          else v ← json_value n (u :: l1);
               match skip_ws v.2 with
               | u :: l2 => if u =? 93 then Some ([v.1], l2) else if u =? 44 then r ← json_elements n false l2; Some (v.1 :: r.1, r.2) else None
               | [] => None
               end
      end
  end
with json_members (n : nat) (first : bool) (l : list Z) : option (list (list Z * Json) * list Z) :=
  match n with
  | O => None
  | S n =>
      match skip_ws l with
      | [] => None
      | u :: l1 =>
          if u =? 125 then if first then Some ([], l1) else None
          else if u =? 34 then
            k ← string_rest l1;
            l2 ← strip [58] (skip_ws k.2);
            v ← json_value n l2;
            match skip_ws v.2 with
            | u :: l3 => if u =? 125 then Some ([(k.1, v.1)], l3)
                         else if u =? 44 then r ← json_members n false l3; Some ((k.1, v.1) :: r.1, r.2) else None
            | [] => None
            end
          else None
      end
  end.

Definition parse_json (text : string) : option Json :=
  let l := to_utf16 text in
  r ← json_value (2 * length l + 2) l; match skip_ws r.2 with [] => Some r.1 | _ => None end.

(** [value[key]], where reading a json_member of [null] throws ([None]); the last of
    repeated keys counts. *)
Definition json_member (key : list Z) (v : Json) : option (option Json) :=
  match v with
  | JNull => None
  | JObj members => Some (snd <$> last (filter (fun m => m.1 = key) members))
  | _ => Some None
  end.

(** The digits before the exponent. *)
Fixpoint mantissa (text : list Z) : list Z :=
  match text with u :: t => if (u =? 101) || (u =? 69) then [] else u :: mantissa t | [] => [] end.

(** Whether a value is truthy; a number too small for a double is read as it is
    written. *)
Definition json_truthy (v : Json) : bool :=
  match v with
  | JNull => false
  | JBool b => b
  | JNum text => existsb (fun u => (49 <=? u) && (u <=? 57)) (mantissa text)
  | JStr s => negb (bool_decide (s = []))
  | _ => true
  end.

Example parse_object : parse_json (bytes [123; 34; 97; 34; 58; 32; 91; 45; 49; 46; 53; 101; 50; 44; 34; 92; 110; 34; 93; 125]%nat) =
  Some (JObj [([97], JArr [JNum [45; 49; 46; 53; 101; 50]; JStr [10]])]).
Proof. by vm_compute. Qed.
