(* ===== verification/Diff.v ===== *)
(** * Comparing two versions: core/src/ops/diff.ts, live/src/lib/diff-source.ts

    [diff] fetches two versions and turns the hunks of a patch into numbered
    changes, or falls back to the snippets stored with the edit.  The patch comes
    from a library: [structuredPatch] is a parameter, and [DifferLaws] is what a
    patch is: the hunks of an edit script between the lines of the texts
    (AnchorDiff.v).  The theorem: a line range that the client carries through the
    changes, and that is called untouched, holds the same text in both versions. *)

From S2P Require Import Prelude JsString Errors Paths Schema Rbac Text Utf16 Storage GlobCache World Outbox Search Versioning Favorites FileOps FileSpec Chunker Json Anchor AnchorDiff.

Record DiffChange : Type := { dc_type : ChangeType; dc_content : Json; dc_oldLine : option Z; dc_newLine : option Z }.
Inductive DiffSource : Type := SrcContent | SrcSummary | SrcNone.
#[export] Instance DiffSource_eq_dec : EqDecision DiffSource. Proof. solve_decision. Defined.
Record DiffResult : Type := { df_changes : list DiffChange; df_source : option DiffSource }.

Record Hunk : Type := { h_oldStart : Z; h_newStart : Z; h_lines : list string }.

(** [structuredPatch(path, path, text1, text2).hunks]. *)
Class Differ : Type := { structuredPatch : string -> string -> list Hunk }.

(** The loop over the lines of a hunk. *)
Fixpoint hunk_changes (oldLine newLine : Z) (lines : list string) : list DiffChange :=
  match lines with
  | [] => []
  | line :: rest =>
      let content := JStr (to_utf16 (drop_str 1 line)) in
      if starts_with "\" line then
        {| dc_type := ChContext; dc_content := content; dc_oldLine := None; dc_newLine := None |} :: hunk_changes oldLine newLine rest
      else if starts_with "+" line then
        {| dc_type := ChAdd; dc_content := content; dc_oldLine := None; dc_newLine := Some newLine |} :: hunk_changes oldLine (newLine + 1) rest
      else if starts_with "-" line then
        {| dc_type := ChRemove; dc_content := content; dc_oldLine := Some oldLine; dc_newLine := None |} :: hunk_changes (oldLine + 1) newLine rest
      else
        {| dc_type := ChContext; dc_content := content; dc_oldLine := Some oldLine; dc_newLine := Some newLine |}
        :: hunk_changes (oldLine + 1) (newLine + 1) rest
  end.

Definition patch_changes (hunks : list Hunk) : list DiffChange :=
  concat ((fun hunk => hunk_changes hunk.(h_oldStart) hunk.(h_newStart) hunk.(h_lines)) <$> hunks).

(** The snippets of a stored summary; [None] when reading it throws. *)
Definition summary_changes (diffSummary : string) : option (list DiffChange) :=
  summary ← parse_json diffSummary;
  old ← json_member (to_utf16 "old") summary;
  new ← json_member (to_utf16 "new") summary;
  let change type v := {| dc_type := type; dc_content := v; dc_oldLine := None; dc_newLine := None |} in
  let snippet type v := match v with Some v => if json_truthy v then [change type v] else [] | None => [] end in
  Some (snippet ChRemove old ++ snippet ChAdd new).

Definition stored_changes (diffSummary : option string) : list DiffChange :=
  match truthy diffSummary with
  | None => []
  | Some text =>
      match summary_changes text with
      | Some changes => changes
      | None => [{| dc_type := ChContext; dc_content := JStr (to_utf16 text); dc_oldLine := None; dc_newLine := None |}]
      end
  end.

Section Diff.
Context {rt : Runtime} {D : Differ} {Store : Type} {SA : StorageAdapter Store}.

(** The body of the [try]. *)
Definition content_diff (ctx : OpContext) (path handle1 handle2 : string) : OpM Store (list DiffChange) :=
  let s3Key := getS3Key ctx.(op_orgId) ctx.(op_driveId) path in
  content1 ← in_store (getObject s3Key (Some handle1));
  content2 ← in_store (getObject s3Key (Some handle2));
  mret (patch_changes (structuredPatch (decode_utf8 content1.(get_body)) (decode_utf8 content2.(get_body)))).

Definition diff (ctx : OpContext) (path : string) (v1 v2 : Z) : OpM Store DiffResult :=
  let path := normalizePath path in
  v1Record ← query (fun db => find_version db ctx.(op_driveId) path v1);
  v2Record ← query (fun db => find_version db ctx.(op_driveId) path v2);
  match v1Record, v2Record with
  | Some r1, Some r2 =>
      let stored := let changes := stored_changes r2.(fv_diffSummary) in
        {| df_changes := changes; df_source := Some (match changes with [] => SrcNone | _ => SrcSummary end) |} in
      if (cap_versioning (@capabilities _ SA)) && negb (bool_decide (r1.(fv_s3VersionId) = "")) && negb (bool_decide (r2.(fv_s3VersionId) = "")) then
        try_catch (changes ← content_diff ctx path r1.(fv_s3VersionId) r2.(fv_s3VersionId);
                   mret {| df_changes := changes; df_source := Some SrcContent |})
          (fun _ => mret stored)
      else mret stored
  | _, _ =>
      throw (NotFoundError ("Version " +:+ pretty (match v1Record with None => v1 | Some _ => v2 end) +:+ " not found for " +:+ path) (Some path) None)
  end.
End Diff.

(** ** diff-source.ts *)

Inductive DiffOutcome : Type :=
| Identical
| Unavailable
| Changed (changes : list DiffChange) (partial : bool).

Definition diffOutcome (d : DiffResult) : DiffOutcome :=
  if bool_decide (d.(df_source) = Some SrcNone) then Unavailable
  else match d.(df_changes) with
  | [] => if bool_decide (d.(df_source) = Some SrcContent) then Identical else Unavailable
  | changes => Changed changes (bool_decide (d.(df_source) = Some SrcSummary))
  end.

Definition anchor_change (c : DiffChange) : AnchorDiffChange :=
  {| ch_type := c.(dc_type); ch_oldLine := c.(dc_oldLine); ch_newLine := c.(dc_newLine) |}.

(** The changes are passed on as they are; [AnchorDiffChange] is what of them the
    anchors read. *)
Definition anchorDiffChanges (d : DiffResult) : option (list AnchorDiffChange) :=
  let changes := anchor_change <$> d.(df_changes) in
  if bool_decide (d.(df_source) = Some SrcContent) then Some changes
  else if bool_decide (is_Some d.(df_source)) || bool_decide (d.(df_changes) = []) then None
  else if diffHasLineNumbers changes then Some changes else None.

(** ** What a patch is *)

(** The lines of a text, each with its newline. *)
Fixpoint close_lines (l : list string) : list string :=
  match l with
  | [] => []
  | [x] => if bool_decide (x = "") then [] else [x]
  | x :: rest => (x +:+ String newline "") :: close_lines rest
  end.
Definition text_lines (text : string) : list string := close_lines (lines text).

Definition chomp (line : string) : string := if ends_with (String newline "") line then drop_last_char line else line.

Definition item_text (i : Item) : string :=
  match i with
  | Shown (Keep l) | Hidden l => " " +:+ chomp l
  | Shown (Del l) => "-" +:+ chomp l
  | Shown (Ins l) => "+" +:+ chomp l
  | Marker => "\ No newline at end of file"
  end.

Definition is_hidden (i : Item) : bool := match i with Hidden _ => true | _ => false end.

(** The hunks of a script: its runs of lines that are not hidden. *)
Inductive hunks_of : Z -> Z -> list Item -> list Hunk -> Prop :=
| ho_end o n : hunks_of o n [] []
| ho_hidden o n l items hs : hunks_of (o + 1) (n + 1) items hs -> hunks_of o n (Hidden l :: items) hs
| ho_hunk o n body items hs : Forall (fun i => is_hidden i = false) body ->
    hunks_of (o + Z.of_nat (length (olds (edits body)))) (n + Z.of_nat (length (news (edits body)))) items hs ->
    hunks_of o n (body ++ items) ({| h_oldStart := o; h_newStart := n; h_lines := item_text <$> body |} :: hs).

Class DifferLaws {D : Differ} : Prop := {
  patch_law : forall text1 text2, exists items, well_shown true false items /\
    olds (edits items) = text_lines text1 /\ news (edits items) = text_lines text2 /\
    hunks_of 1 1 items (structuredPatch text1 text2)
}.

(** ** The changes of a patch are what it shows of its script *)

Lemma prefix_nil s : String.prefix "" s = true.
Proof. by destruct s. Qed.

Lemma hunk_changes_shown body : forall o n, Forall (fun i => is_hidden i = false) body ->
  anchor_change <$> hunk_changes o n (item_text <$> body) = shown o n body.
Proof.
  induction body as [|[[l|l|l]|l|] body IH]; intros o n Hb; inversion Hb as [|? ? H1 H2]; subst; [done| | | |done|];
    cbn [fmap list_fmap item_text hunk_changes shown]; cbn [fmap list_fmap]; unfold anchor_change at 1; cbn; rewrite ?prefix_nil; cbn; f_equal; by apply IH.
Qed.

Lemma patch_changes_shown o n items hs : hunks_of o n items hs -> anchor_change <$> patch_changes hs = shown o n items.
Proof.
  intros H. induction H as [o n|o n l items hs H IH|o n body items hs Hb H IH]; [done|exact IH|].
  unfold patch_changes in *. cbn [fmap list_fmap concat h_oldStart h_newStart h_lines]. rewrite fmap_app, hunk_changes_shown by done.
  rewrite shown_app. f_equal. exact IH.
Qed.

(** The lines [a] to [b] of a list, counted from 1. *)
Definition line_range (ls : list string) (a b : Z) : list string := take (Z.to_nat (b - a + 1)) (drop (Z.to_nat (a - 1)) ls).

Lemma kept_range_lines es a b pre lines : kept_range es a b pre lines ->
  line_range (olds es) (Z.of_nat a) (Z.of_nat b) = lines /\
  line_range (news es) (Z.of_nat (S (length (news pre)))) (Z.of_nat (length (news pre) + length lines)) = lines.
Proof.
  intros (post & -> & <- & <-). unfold line_range. rewrite !olds_app, !news_app, olds_keep, news_keep. split.
  - replace (Z.to_nat (Z.of_nat (S _) - 1)) with (length (olds pre)) by lia. rewrite drop_app_length.
    replace (Z.to_nat (_ - _ + 1)) with (length lines) by lia. apply take_app_length.
  - replace (Z.to_nat (Z.of_nat (S _) - 1)) with (length (news pre)) by lia. rewrite drop_app_length.
    replace (Z.to_nat (_ - _ + 1)) with (length lines) by lia. apply take_app_length.
Qed.

Section DiffSpec.
Context {rt : Runtime} {D : Differ} {DL : DifferLaws} {Store : Type} {SA : StorageAdapter Store} {SV : StorageView Store} {SL : StorageLaws Store}.

Lemma content_diff_ok ctx path h1 h2 (w : World Store) changes w' : h1 <> "" -> h2 <> "" ->
  content_diff ctx path h1 h2 w = (Ok changes, w') ->
  w' = w /\ exists r1 r2,
    getObject (getS3Key ctx.(op_orgId) ctx.(op_driveId) path) (Some h1) w.(w_store) = (Ok r1, w.(w_store)) /\
    getObject (getS3Key ctx.(op_orgId) ctx.(op_driveId) path) (Some h2) w.(w_store) = (Ok r2, w.(w_store)) /\
    changes = patch_changes (structuredPatch (decode_utf8 r1.(get_body)) (decode_utf8 r2.(get_body))).
Proof.
  intros H1 H2 H. unfold content_diff in H. apply bind_ok in H as (r1 & w1 & Hr1 & H). apply in_store_ok in Hr1 as (s1 & Hr1 & ->).
  pose proof (get_version_law _ _ _ _ _ H1 Hr1) as [-> _]. replace (w <| w_store := w.(w_store) |>) with w in H by (by destruct w).
  apply bind_ok in H as (r2 & w2 & Hr2 & H). apply in_store_ok in Hr2 as (s2 & Hr2 & ->).
  pose proof (get_version_law _ _ _ _ _ H2 Hr2) as [-> _]. replace (w <| w_store := w.(w_store) |>) with w in H by (by destruct w).
  injection H as <- <-. split; [done|]. by exists r1, r2.
Qed.

(** A comparison of contents: the versions it read, and a script between them. *)
Record compared (ctx : OpContext) (path : string) (v1 v2 : Z) (w : World Store) (text1 text2 : string) : Prop := {
  cmp_rows : exists r1 r2 c1 c2,
    find_version w.(w_db) ctx.(op_driveId) path v1 = Some r1 /\ find_version w.(w_db) ctx.(op_driveId) path v2 = Some r2 /\
    getObject (getS3Key ctx.(op_orgId) ctx.(op_driveId) path) (Some r1.(fv_s3VersionId)) w.(w_store) = (Ok c1, w.(w_store)) /\
    getObject (getS3Key ctx.(op_orgId) ctx.(op_driveId) path) (Some r2.(fv_s3VersionId)) w.(w_store) = (Ok c2, w.(w_store)) /\
    text1 = decode_utf8 c1.(get_body) /\ text2 = decode_utf8 c2.(get_body)
}.

Lemma stored_source (changes : list DiffChange) : (match changes with [] => SrcNone | _ => SrcSummary end) <> SrcContent.
Proof. by destruct changes. Qed.

Lemma diff_content ctx path v1 v2 (w : World Store) r w' : diff ctx path v1 v2 w = (Ok r, w') -> r.(df_source) = Some SrcContent ->
  w' = w /\ exists text1 text2 items, compared ctx (normalizePath path) v1 v2 w text1 text2 /\
    well_shown true false items /\ olds (edits items) = text_lines text1 /\ news (edits items) = text_lines text2 /\
    anchorDiffChanges r = Some (changes_of items).
Proof.
  intros H Hsrc. unfold diff in H. apply bind_ok in H as (o1 & w1 & H1 & H). apply gets_ok in H1 as [-> ->].
  apply bind_ok in H as (o2 & w1 & H2 & H). apply gets_ok in H2 as [-> ->].
  destruct (find_version _ _ _ v1) as [r1|] eqn:E1; [|discriminate]. destruct (find_version _ _ _ v2) as [r2|] eqn:E2; [|discriminate].
  set (stored := {| df_changes := stored_changes _; df_source := _ |}) in H.
  assert (Hno : forall w0 : World Store, (@Ok error _ stored, w0) = (Ok r, w') -> False).
  { intros w0 [= <- _]. injection Hsrc as Hsrc. by apply stored_source in Hsrc. }
  destruct (_ && _ && _) eqn:Hc; [|by apply Hno in H]. apply andb_true_iff in Hc as [[_ Hh1]%andb_true_iff Hh2].
  apply negb_true_iff, bool_decide_eq_false in Hh1. apply negb_true_iff, bool_decide_eq_false in Hh2.
  unfold try_catch in H. destruct ((_ ← content_diff _ _ _ _; _) w) as [[a|e] w1] eqn:E; [|by apply Hno in H]. injection H as -> ->.
  apply bind_ok in E as (changes & w1 & E & H). injection H as <- <-. apply content_diff_ok in E as (-> & c1 & c2 & Hc1 & Hc2 & ->); [|done..].
  split; [done|]. destruct (patch_law (decode_utf8 c1.(get_body)) (decode_utf8 c2.(get_body))) as (items & Hw & Ho & Hn & Hh).
  eexists _, _, items. split; [split; exists r1, r2, c1, c2; by split_and!|]. split; [done|]. split; [exact Ho|]. split; [exact Hn|].
  unfold anchorDiffChanges. cbn [df_source df_changes]. rewrite bool_decide_true by done. f_equal. by apply patch_changes_shown.
Qed.

End DiffSpec.

(** ** A patch that shows everything, and keeps what the texts begin with *)

Fixpoint common_lines (a b : list string) : list string :=
  match a, b with x :: a', y :: b' => if bool_decide (x = y) then x :: common_lines a' b' else [] | _, _ => [] end.

Definition whole_script (text1 text2 : string) : list Edit :=
  let a := text_lines text1 in let b := text_lines text2 in let p := common_lines a b in
  (Keep <$> p) ++ (Del <$> drop (length p) a) ++ (Ins <$> drop (length p) b).

#[export] Instance whole_differ : Differ := {
  structuredPatch text1 text2 := [{| h_oldStart := 1; h_newStart := 1; h_lines := item_text <$> script (whole_script text1 text2) |}]
}.

Lemma common_lines_prefix a b : exists a' b', a = common_lines a b ++ a' /\ b = common_lines a b ++ b' /\
  drop (length (common_lines a b)) a = a' /\ drop (length (common_lines a b)) b = b'.
Proof.
  revert b. induction a as [|x a IH]; intros [|y b]; cbn; [by eexists _, _..|]. case_bool_decide as E; cbn; [|by eexists _, _].
  subst y. destruct (IH b) as (a' & b' & H1 & H2 & H3 & H4). exists a', b'. split_and!; [by f_equal..|done|done].
Qed.

Lemma olds_del l : olds (Del <$> l) = l /\ news (Del <$> l) = [].
Proof. induction l as [|x l [IH1 IH2]]; [done|]. cbn. split; [f_equal; exact IH1|exact IH2]. Qed.
Lemma olds_ins l : olds (Ins <$> l) = [] /\ news (Ins <$> l) = l.
Proof. induction l as [|x l [IH1 IH2]]; [done|]. cbn. split; [exact IH1|f_equal; exact IH2]. Qed.

Lemma script_shown es : forall kept, well_shown kept false (script es).
Proof. induction es as [|e es IH]; intros kept; [done|]. cbn. split; [by right|apply IH]. Qed.

Lemma whole_script_lines text1 text2 : olds (whole_script text1 text2) = text_lines text1 /\ news (whole_script text1 text2) = text_lines text2.
Proof.
  unfold whole_script. destruct (common_lines_prefix (text_lines text1) (text_lines text2)) as (a' & b' & Ha & Hb & -> & ->).
  rewrite !olds_app, !news_app, olds_keep, news_keep. destruct (olds_del a') as [-> ->]. destruct (olds_ins b') as [-> ->].
  by rewrite app_nil_r.
Qed.

Lemma script_hunk es : hunks_of 1 1 (script es) [{| h_oldStart := 1; h_newStart := 1; h_lines := item_text <$> script es |}].
Proof.
  rewrite <- (app_nil_r (script es)) at 1. apply ho_hunk; [|constructor]. by apply Forall_fmap, Forall_true.
Qed.

#[export] Instance whole_differ_laws : DifferLaws.
Proof.
  split. intros text1 text2. exists (script (whole_script text1 text2)). split; [apply script_shown|]. rewrite edits_script.
  destruct (whole_script_lines text1 text2) as [-> ->]. split; [done|]. split; [done|]. apply script_hunk.
Qed.

Definition versioned_store : MemStore := {|
  ms_objects := ∅;
  ms_versions := <[("o1/drives/d1/a.md", "v1") := "x
y
"]> (<[("o1/drives/d1/a.md", "v2") := "x
z
"]> ∅);
  ms_next := 2
|}.

Definition a_version (n : Z) (handle : string) : FileVersion := {|
  fv_id := n; fv_path := "/a.md"; fv_driveId := "d1"; fv_version := n; fv_s3VersionId := handle; fv_author := "u1"; fv_operation := OpWrite;
  fv_message := None; fv_diffSummary := None; fv_size := None; fv_etag := None; fv_createdAt := 0; fv_contentHash := None |}.

Definition versioned_world : World MemStore :=
  {| w_db := empty_db <| fileVersions := [a_version 1 "v1"; a_version 2 "v2"] |>; w_store := versioned_store; w_events := []; w_wakeups := 0;
     w_glob := empty_glob_cache |}.

Definition reader_ctx : OpContext := Build_OpContext "o1" "d1" "u1" None None None None.

