(* ===== verification/AnchorSpec.v ===== *)
(** * What resolving an anchor guarantees

    The normalizations of Anchor.v as sequences of units with the index each came
    from; the occurrences that [findAll] answers; then the theorems: a resolution
    shows a span of the text that contains the quote it was resolved by, and a
    quote captured from a text resolves to the very selection in it, or says that
    it is ambiguous. *)

From S2P Require Import Prelude JsString Text Utf16 Chunker Anchor.

(** ** Normalizations *)

Section Normalize.
Context {U : Unicode}.

(** One loop for both modes; the state is whether the last unit was a space. *)
Definition pairs (mode : Mode) (i : nat) (inSpace : bool) (text : list Z) : list (Z * nat) :=
  match mode with Strict => normalize_strict i inSpace text | Loose => normalize_loose i text end.

Definition space_after (inSpace : bool) (text : list Z) : bool := match last text with Some u => unit_space u | None => inSpace end.

Lemma space_after_cons sp u t : space_after sp (u :: t) = space_after (unit_space u) t.
Proof. unfold space_after. destruct t as [|v t]; [done|]. rewrite last_cons. by destruct (last (v :: t)) eqn:E; [|apply last_None in E]. Qed.

Lemma pairs_app mode a b : forall i sp, pairs mode i sp (a ++ b) = pairs mode i sp a ++ pairs mode (i + length a) (space_after sp a) b.
Proof.
  induction a as [|u a IH]; intros i sp; [by rewrite Nat.add_0_r; destruct mode|].
  rewrite space_after_cons. cbn [app length]. replace (i + S (length a))%nat with (S i + length a)%nat by lia.
  destruct mode; cbn [pairs normalize_strict normalize_loose].
  - destruct (unit_space u) eqn:E; cbn [app]; [rewrite <- app_assoc|]; f_equal; apply (IH (S i)).
  - rewrite <- app_assoc. f_equal. exact (IH (S i) sp).
Qed.

Lemma pairs_index mode t : forall i sp x, x ∈ pairs mode i sp t -> (i <= x.2 < i + length t)%nat.
Proof.
  induction t as [|u t IH]; intros i sp x Hx; [destruct mode; by apply elem_of_nil in Hx|]. cbn [length]. destruct mode; cbn [pairs normalize_strict normalize_loose] in Hx.
  - assert (Hc : x.2 = i \/ exists sp', x ∈ pairs Strict (S i) sp' t).
    { destruct (unit_space u); [apply elem_of_app in Hx as [Hx|Hx]; [|by right; exists true]|apply elem_of_cons in Hx as [->|Hx]; [by left|by right; exists false]].
      destruct sp; [by apply elem_of_nil in Hx|]. apply list_elem_of_singleton in Hx as ->. by left. }
    destruct Hc as [->|(sp' & Hc)]; [lia|]. specialize (IH _ _ _ Hc). lia.
  - apply elem_of_app in Hx as [Hx|Hx]; [|specialize (IH (S i) sp x Hx); lia].
    destruct (LOOSE_DROP u); [by apply elem_of_nil in Hx|]. apply list_elem_of_fmap in Hx as (v & -> & _). cbn. lia.
Qed.

Lemma pairs_shift mode t : forall i j sp, (pairs mode i sp t).*1 = (pairs mode j sp t).*1.
Proof.
  induction t as [|u t IH]; intros i j sp; [by destruct mode|]. destruct mode; cbn [pairs normalize_strict normalize_loose].
  - destruct (unit_space u); [rewrite !fmap_app; f_equal; [by destruct sp|]|cbn; f_equal]; apply (IH (S i) (S j)).
  - rewrite !fmap_app. f_equal; [|exact (IH (S i) (S j) sp)]. destruct (LOOSE_DROP u); [done|]. by rewrite <- !list_fmap_compose.
Qed.

(** The state does not matter when the first unit emits a pair. *)
Lemma pairs_state mode u t i sp x : x ∈ pairs mode i sp (u :: t) -> x.2 = i -> pairs mode i sp (u :: t) = pairs mode i false (u :: t).
Proof.
  destruct mode; [|done]. cbn. destruct (unit_space u); [|done]. destruct sp; [|done]. cbn. intros Hx Hi.
  pose proof (pairs_index Strict t (S i) true x Hx). lia.
Qed.

Lemma pairs_sorted mode t : forall i sp (k l : nat) x y, pairs mode i sp t !! k = Some x -> pairs mode i sp t !! l = Some y -> (k <= l)%nat -> (x.2 <= y.2)%nat.
Proof.
  induction t as [|u t IH]; intros i sp k l x y Hk Hl Hkl; [by destruct mode|].
  change (u :: t) with ([u] ++ t) in Hk, Hl. rewrite pairs_app in Hk, Hl.
  destruct (decide (l < length (pairs mode i sp [u]))%nat) as [Hll|Hll].
  - rewrite lookup_app_l in Hk, Hl by lia. apply list_elem_of_lookup_2, pairs_index in Hk, Hl. cbn in Hk, Hl. lia.
  - rewrite (lookup_app_r _ _ l) in Hl by lia. destruct (decide (k < length (pairs mode i sp [u]))%nat) as [Hkk|Hkk].
    + rewrite lookup_app_l in Hk by done. apply list_elem_of_lookup_2, pairs_index in Hk, Hl. cbn in Hk, Hl. lia.
    + rewrite lookup_app_r in Hk by lia. eapply (IH _ _ _ _ _ _ Hk Hl). lia.
Qed.

Lemma normalize_norm text mode : (normalize text mode).(nz_norm) = (pairs mode 0 false text).*1.
Proof. by destruct mode. Qed.
Lemma normalize_map text mode : (normalize text mode).(nz_map) = (pairs mode 0 false text).*2.
Proof. by destruct mode. Qed.

(** The cache answers what [normalize] does. *)
Definition cache_ok (c : HayCache) : Prop :=
  (forall n, c.(hc_strict) = Some n -> n = normalize c.(hc_text) Strict) /\ (forall n, c.(hc_loose) = Some n -> n = normalize c.(hc_text) Loose).

Lemma normalizeHay_cached_ok text mode c : cache_ok c ->
  (normalizeHay_cached text mode c).1 = normalizeHay text mode /\ cache_ok (normalizeHay_cached text mode c).2.
Proof.
  intros [Hs Hl]. unfold normalizeHay_cached, normalizeHay, cache_ok. case_bool_decide as E; cbn.
  - subst text. destruct mode; [destruct (hc_strict c) as [n|] eqn:Ec|destruct (hc_loose c) as [n|] eqn:Ec]; cbn;
      (split; [auto|]); rewrite ?Ec; split; intros n' Hn'; try (injection Hn' as <-); auto.
  - destruct mode; cbn; (split; [done|]); split; by intros n' [= <-].
Qed.

(** ** Occurrences *)

Lemma is_prefix_spec p l : is_prefix p l = true <-> exists r, l = p ++ r.
Proof.
  revert l. induction p as [|x p IH]; intros l; [split; [by exists l|done]|]. destruct l as [|y l]; cbn.
  - split; [done|by intros [r [=]]].
  - rewrite andb_true_iff, Z.eqb_eq, IH. split; [intros [-> [r ->]]; by exists r|intros [r [= -> ->]]; split; [done|by exists r]].
Qed.

Definition occurs_at (needle l : list Z) (i : nat) : Prop := is_prefix needle (drop i l) = true.

Lemma find_at_spec needle l : forall i, match find_at needle l i with
  | Some k => (i <= k)%nat /\ occurs_at needle l (k - i) /\ forall j, (i <= j < k)%nat -> ~ occurs_at needle l (j - i)
  | None => forall j, (i <= j)%nat -> needle <> [] -> ~ occurs_at needle l (j - i)
  end.
Proof.
  unfold occurs_at. induction l as [|x l IH]; intros i; cbn [find_at].
  - destruct (is_prefix needle []) eqn:E.
    + split; [done|]. rewrite Nat.sub_diag. split; [done|lia].
    + intros j Hj Hn. rewrite drop_nil. by rewrite E.
  - destruct (is_prefix needle (x :: l)) eqn:E.
    + split; [done|]. rewrite Nat.sub_diag. split; [done|lia].
    + specialize (IH (S i)). destruct (find_at needle l (S i)) as [k|].
      * destruct IH as (H1 & H2 & H3). split; [lia|]. replace (k - i)%nat with (S (k - S i)) by lia. split; [done|]. intros j Hj.
        destruct (decide (j = i)) as [->|Hne]; [rewrite Nat.sub_diag; cbn; by rewrite E|].
        replace (j - i)%nat with (S (j - S i)) by lia. apply H3. lia.
      * intros j Hj Hn. destruct (decide (j = i)) as [->|Hne]; [rewrite Nat.sub_diag; cbn; by rewrite E|].
        replace (j - i)%nat with (S (j - S i)) by lia. apply IH; [lia|done].
Qed.

Lemma index_of_spec l needle from : needle <> [] -> match index_of l needle from with
  | Some k => (from <= k)%nat /\ occurs_at needle l k /\ forall j, (from <= j < k)%nat -> ~ occurs_at needle l j
  | None => forall j, (from <= j)%nat -> ~ occurs_at needle l j
  end.
Proof.
  intros Hn. unfold index_of. pose proof (find_at_spec needle (drop from l) from) as H. unfold occurs_at in *.
  destruct (find_at _ _ _) as [k|].
  - destruct H as (H1 & H2 & H3). rewrite drop_drop in H2. replace (from + (k - from))%nat with k in H2 by lia. split; [done|]. split; [done|].
    intros j Hj. specialize (H3 j Hj). rewrite drop_drop in H3. by replace (from + (j - from))%nat with j in H3 by lia.
  - intros j Hj. specialize (H j Hj Hn). rewrite drop_drop in H. by replace (from + (j - from))%nat with j in H by lia.
Qed.

(** The candidate of an occurrence. *)
Definition candidate_at (hay : Normalized) (needle : list Z) (i : nat) : Candidate :=
  {| c_start := hay.(nz_map) !!! i; c_end := S (hay.(nz_map) !!! (i + length needle - 1)%nat); c_strict := false |}.

Lemma find_loop_sound n hay needle from c : needle <> [] -> c ∈ find_loop n hay needle from ->
  exists i, (from <= i)%nat /\ occurs_at needle hay.(nz_norm) i /\ c = candidate_at hay needle i.
Proof.
  intros Hn. revert from. induction n as [|n IH]; intros from Hc; [by apply elem_of_nil in Hc|]. cbn [find_loop] in Hc.
  pose proof (index_of_spec hay.(nz_norm) needle from Hn) as H. destruct (index_of _ _ _) as [i|]; [|by apply elem_of_nil in Hc].
  destruct H as (H1 & H2 & _). apply elem_of_cons in Hc as [->|Hc]; [by exists i|]. destruct (IH _ Hc) as (j & Hj & ?). exists j. split; [lia|done].
Qed.

Lemma find_loop_complete n hay needle from i : needle <> [] -> (length (find_loop n hay needle from) < n)%nat ->
  (from <= i)%nat -> occurs_at needle hay.(nz_norm) i -> candidate_at hay needle i ∈ find_loop n hay needle from.
Proof.
  intros Hn. revert from. induction n as [|n IH]; intros from Hlen Hi Ho; [lia|]. cbn [find_loop] in *.
  pose proof (index_of_spec hay.(nz_norm) needle from Hn) as H. destruct (index_of _ _ _) as [k|]; [|by destruct (H i Hi)].
  destruct H as (H1 & H2 & H3). cbn [length] in Hlen. destruct (decide (i = k)) as [->|Hne]; [by left|]. right.
  apply IH; [lia| |done]. destruct (decide (i < k)%nat); [|lia]. by destruct (H3 i).
Qed.

Lemma findAll_sound hay needle c : c ∈ findAll hay needle -> exists i, occurs_at needle hay.(nz_norm) i /\ c = candidate_at hay needle i /\ needle <> [].
Proof.
  unfold findAll. destruct needle as [|x needle]; [by intros ?%elem_of_nil|]. intros Hc. apply find_loop_sound in Hc as (i & _ & ? & ->); [|done]. by exists i.
Qed.
End Normalize.

(** ** What a candidate covers *)

Definition infix (p l : list Z) : Prop := exists a b, l = a ++ p ++ b.

Section Spans.
Context {U : Unicode}.

Lemma occurs_lookup needle (P : list (Z * nat)) i : occurs_at needle P.*1 i -> (take (length needle) (drop i P)).*1 = needle /\ (i + length needle <= length P \/ needle = [])%nat.
Proof.
  unfold occurs_at. rewrite is_prefix_spec. intros [r Hr]. rewrite fmap_take, fmap_drop, Hr, take_app_length. split; [done|].
  destruct needle as [|x needle]; [by right|left]. apply (f_equal length) in Hr. rewrite length_drop, length_fmap, length_app in Hr. cbn [length] in *. lia.
Qed.

Lemma map_lookup (P : list (Z * nat)) i x : P !! i = Some x -> P.*2 !!! i = x.2.
Proof. intros H. apply list_lookup_total_correct. by rewrite list_lookup_fmap, H. Qed.

Lemma take_middle {A} (a b c : list A) i n : (length a <= i)%nat -> (i + n <= length a + length b)%nat ->
  take n (drop i (a ++ b ++ c)) = take n (drop (i - length a) b).
Proof.
  intros H1 H2. rewrite drop_app_ge by done. rewrite drop_app_le by lia. apply take_app_le. rewrite length_drop. lia.
Qed.

Lemma occurrence_span text mode needle i : needle <> [] -> occurs_at needle (normalize text mode).(nz_norm) i ->
  let c := candidate_at (normalize text mode) needle i in
  (c.(c_start) < c.(c_end) <= length text)%nat /\
  infix needle (normalize (slice_units text c.(c_start) c.(c_end)) mode).(nz_norm).
Proof.
  intros Hn Ho c. rewrite normalize_norm in Ho. set (P := pairs mode 0 false text) in *. apply occurs_lookup in Ho as [Htake [Hlen|Habs]]; [|done].
  assert (Hpos : (0 < length needle)%nat) by (destruct needle; [done|cbn; lia]).
  destruct (lookup_lt_is_Some_2 P i) as [x Hx]; [lia|]. destruct (lookup_lt_is_Some_2 P (i + length needle - 1)) as [y Hy]; [lia|].
  assert (Hs : c.(c_start) = x.2) by (unfold c, candidate_at; cbn [c_start]; rewrite normalize_map; by apply map_lookup).
  assert (He : c.(c_end) = S y.2) by (unfold c, candidate_at; cbn [c_end]; rewrite normalize_map; f_equal; by apply map_lookup).
  assert (Hxy : (x.2 <= y.2)%nat) by (eapply (pairs_sorted mode text); [exact Hx|exact Hy|lia]).
  pose proof (pairs_index mode text 0 false y (list_elem_of_lookup_2 _ _ _ Hy)) as Hylen.
  split; [lia|]. rewrite Hs, He. set (t2 := slice_units text x.2 (S y.2)).
  assert (Ht : text = take x.2 text ++ t2 ++ drop (S y.2) text).
  { unfold t2, slice_units. rewrite <- (take_drop x.2 text) at 1. f_equal. rewrite <- (take_drop (S y.2 - x.2) (drop x.2 text)) at 1. f_equal.
    rewrite drop_drop. f_equal. lia. }
  assert (Hl1 : length (take x.2 text) = x.2) by (rewrite length_take; lia).
  assert (Hl2 : length t2 = (S y.2 - x.2)%nat) by (unfold t2, slice_units; rewrite length_take, length_drop; lia).
  set (P1 := pairs mode 0 false (take x.2 text)). set (sp := space_after false (take x.2 text)). set (P2 := pairs mode x.2 sp t2).
  assert (HP : exists P3, P = P1 ++ P2 ++ P3 /\ forall z, z ∈ P3 -> (S y.2 <= z.2)%nat).
  { assert (HPt : P = pairs mode 0 false (take x.2 text ++ t2 ++ drop (S y.2) text)) by (unfold P; by rewrite <- Ht).
    rewrite HPt, !pairs_app, Hl1, Hl2. eexists. split; [reflexivity|]. intros z Hz. apply pairs_index in Hz. lia. }
  destruct HP as (P3 & HP & HP3).
  assert (Hi1 : (length P1 <= i)%nat).
  { destruct (decide (i < length P1)%nat) as [Hlt|]; [exfalso|lia]. rewrite HP, lookup_app_l in Hx by done.
    apply list_elem_of_lookup_2, pairs_index in Hx. lia. }
  assert (Hi2 : (i + length needle <= length P1 + length P2)%nat).
  { destruct (decide (i + length needle <= length P1 + length P2)%nat) as [|Hgt]; [done|exfalso].
    rewrite HP, lookup_app_r, lookup_app_r in Hy by lia. apply list_elem_of_lookup_2, HP3 in Hy. lia. }
  rewrite HP, take_middle in Htake by lia. rewrite normalize_norm.
  assert (HP2 : (pairs mode 0 false t2).*1 = P2.*1).
  { assert (Hin : x ∈ P2). { rewrite HP, lookup_app_r, lookup_app_l in Hx by lia. by apply list_elem_of_lookup_2 in Hx. }
    unfold P2. destruct t2 as [|u t]; [cbn in Hl2; lia|]. rewrite (pairs_state mode u t x.2 sp x Hin eq_refl). apply pairs_shift. }
  rewrite HP2. exists (take (i - length P1) P2.*1), (drop (length needle) (drop (i - length P1) P2.*1)).
  rewrite <- Htake at 1. rewrite fmap_take, fmap_drop, take_drop, take_drop. done.
Qed.

(** The candidates of a quote. *)
Definition shows_quote (text exact : list Z) (s e : nat) : Prop :=
  exists mode, normalizeNeedle exact mode <> [] /\ infix (normalizeNeedle exact mode) (normalize (slice_units text s e) mode).(nz_norm).

Definition span_ok (text : list Z) (c : Candidate) : Prop := (c.(c_start) < c.(c_end) <= length text)%nat.

Lemma findAll_span text mode needle c : c ∈ findAll (normalizeHay text mode) needle ->
  span_ok text c /\ infix needle (normalize (slice_units text c.(c_start) c.(c_end)) mode).(nz_norm) /\ needle <> [].
Proof.
  intros Hc. apply findAll_sound in Hc as (i & Ho & -> & Hn). destruct (occurrence_span text mode needle i Hn Ho) as [H1 H2].
  split; [exact H1|]. split; [exact H2|done].
Qed.

Lemma find_mode_findAll space needle mode : find_mode space needle mode = findAll (normalizeHay space.(ts_text) mode) (normalizeNeedle needle mode).
Proof. unfold find_mode. by destruct (normalizeNeedle needle mode). Qed.

Lemma findQuote_sound space exact c : c ∈ findQuote space exact -> span_ok space.(ts_text) c /\ shows_quote space.(ts_text) exact c.(c_start) c.(c_end).
Proof.
  unfold findQuote. rewrite elem_of_sort_by, elem_of_app, list_elem_of_fmap, list_elem_of_filter, !find_mode_findAll.
  intros [(c' & -> & Hc)|[_ Hc]]; apply findAll_span in Hc as (H1 & H2 & H3); (split; [exact H1|]); eexists; by split.
Qed.

Lemma nearest_elem toLine line cands : forall p d c, foldl (nearest_step toLine line) p cands = Some (d, c) -> c ∈ cands \/ p = Some (d, c).
Proof.
  induction cands as [|x cands IH]; intros p d c H; [by right|]. cbn in H. apply IH in H as [H|H]; [left; by right|].
  unfold nearest_step in H. destruct (toLine _) as [l|]; [|by right]. destruct p as [[bd b]|].
  - destruct (_ <? _); [injection H as _ ->; left; by left|by right].
  - injection H as _ ->. left. by left.
Qed.

Lemma pickNearestLine_elem space cands line c : pickNearestLine space cands line = Some c -> c ∈ cands.
Proof.
  unfold pickNearestLine. destruct (ts_offsetToLine space) as [toLine|]; [|done]. cbn. destruct (foldl _ _ _) as [[d c']|] eqn:E; [|done].
  intros [= ->]. by apply nearest_elem in E as [|].
Qed.

Lemma pick_step_elem text quote cands : forall p c, (foldl (pick_step text quote) p cands).(pk_best) = Some c -> c ∈ cands \/ p.(pk_best) = Some c.
Proof.
  induction cands as [|x cands IH]; intros p c H; [by right|]. cbn in H. apply IH in H as [H|H]; [left; by right|].
  unfold pick_step in H. destruct (_ || _); [injection H as ->; left; by left|]. destruct (_ && _); by right.
Qed.

Lemma pickByContext_elem text cands quote c : pickByContext text cands quote = Some c -> c ∈ cands.
Proof.
  unfold pickByContext. destruct (negb _); [done|]. destruct (pk_tie _); [done|]. intros H. by apply pick_step_elem in H as [|].
Qed.

Lemma near_or_first_elem space line cands c : near_or_first space line cands = Some c -> c ∈ cands.
Proof.
  unfold near_or_first. destruct (_ ← line; _) as [c'|] eqn:E.
  - intros [= ->]. destruct line as [l|]; [|done]. by apply pickNearestLine_elem in E.
  - intros H. by apply head_Some_elem_of in H.
Qed.

Lemma pick_partial_elem space quote hint cands c : pick_partial space quote hint cands = Some c -> c ∈ cands.
Proof.
  unfold pick_partial. intros H.
  assert (Hg : forall r, match pickByContext space.(ts_text) cands quote with
                | Some c => Some c
                | None => match (line ← hint; pickNearestLine space cands line) with Some c => Some c | None => head cands end
                end = Some r -> r ∈ cands).
  { intros r. destruct (pickByContext _ _ _) eqn:E1; [intros [= ->]; by apply pickByContext_elem in E1|].
    destruct (_ ← hint; _) as [c'|] eqn:E2; [intros [= ->]; destruct hint as [l|]; [by apply pickNearestLine_elem in E2|done]|].
    intros Hh. by apply head_Some_elem_of in Hh. }
  destruct cands as [|x [|y cands]]; [by apply Hg|injection H as ->; by left|by apply Hg].
Qed.

Lemma findPartial_span space quote hint c : findPartial space quote hint = Some c -> span_ok space.(ts_text) c.
Proof.
  unfold findPartial. destruct (Nat.leb _ _); [done|]. cbv zeta.
  destruct (pick_partial space quote hint (findAll _ (take _ _))) as [h|] eqn:Eh; destruct (pick_partial space quote hint (findAll _ (drop _ _))) as [t|] eqn:Et;
    try apply pick_partial_elem, findAll_span in Eh as [Hh _]; try apply pick_partial_elem, findAll_span in Et as [Ht _]; [|by intros [= <-]|by intros [= <-]|done].
  destruct (_ && _) eqn:E; [|by intros [= <-]]. intros [= <-]. apply andb_true_iff in E as [[E%Nat.leb_le _]%andb_true_iff _].
  unfold span_ok in *. cbn. lia.
Qed.
End Spans.

(** ** Every resolution shows something of the text *)

Definition sound_resolution {U : Unicode} (space : TextSpace) (input : AnchorInput) (r : AnchorResolution) : Prop :=
  match r.(ar_status), r.(ar_method), r.(ar_start), r.(ar_end) with
  | Lost, None, None, None => True
  | (Anchored | Moved), Some ByQuote, Some s, Some e =>
      (s < e <= length space.(ts_text))%nat /\ exists q, nonblank input.(ai_quote) = Some q /\ shows_quote space.(ts_text) q.(aq_exact) s e
  | Moved, Some ByPartial, Some s, Some e => (s < e <= length space.(ts_text))%nat /\ is_Some (nonblank input.(ai_quote))
  | (Anchored | Moved), Some ByLines, Some s, Some e =>
      exists f a b, space.(ts_lineRangeToOffsets) = Some f /\ f a b = Some (s, e) /\ r.(ar_lineStart) = Some a /\ r.(ar_lineEnd) = Some b
  | _, _, _, _ => False
  end.

Section Sound.
Context {U : Unicode}.

Lemma sound_by_quote space input q status c : nonblank input.(ai_quote) = Some q -> status <> Lost -> c ∈ findQuote space q.(aq_exact) ->
  sound_resolution space input (withLines space (found status ByQuote c.(c_start) c.(c_end))).
Proof.
  intros Hq Hs Hc. apply findQuote_sound in Hc as [H1 H2].
  assert (H : (c.(c_start) < c.(c_end) <= length space.(ts_text))%nat /\ exists q, nonblank input.(ai_quote) = Some q /\ shows_quote space.(ts_text) q.(aq_exact) c.(c_start) c.(c_end))
    by (split; [done|by exists q]).
  unfold withLines, found, sound_resolution. cbn. destruct (ts_offsetToLine space); cbn; destruct status; done.
Qed.

Lemma search_quote_elem space q c :
  (search_quote space q).(qs_picked) = Some c \/ c ∈ (search_quote space q).(qs_ambiguous) \/ c ∈ (search_quote space q).(qs_conflicting) ->
  c ∈ findQuote space q.(aq_exact).
Proof.
  assert (Hc : forall x, x ∈ (search_quote space q).(qs_ambiguous) -> x ∈ findQuote space q.(aq_exact)).
  { intros x. unfold search_quote. cbn. destruct (has_context q); [by intros [_ ?]%list_elem_of_filter|].
    destruct (filter _ _) as [|y ys] eqn:E; [done|]. rewrite <- E. by intros [_ ?]%list_elem_of_filter. }
  intros [H|[H|H]].
  - apply Hc. unfold search_quote in *. cbn in *. destruct (if has_context q then _ else _) as [|x [|y l]]; [by apply pickByContext_elem in H|injection H as ->; by left|by apply pickByContext_elem in H].
  - by apply Hc.
  - unfold search_quote in H. cbn in H. destruct (has_context q); [by apply list_elem_of_filter in H as [_ H]|by apply elem_of_nil in H].
Qed.

Lemma or_else_cases {A} (m k : option A) r : or_else m k = Some r -> m = Some r \/ k = Some r.
Proof. destruct m; [by left|by right]. Qed.

Lemma resolve_lines_sound space input q lines amb conf r : (forall c, c ∈ amb \/ c ∈ conf -> exists qu, q = Some qu /\ c ∈ findQuote space qu.(aq_exact)) ->
  nonblank input.(ai_quote) = q -> resolve_lines space lines amb conf = Some r -> sound_resolution space input r.
Proof.
  intros Hel Hq. unfold resolve_lines. destruct (lr_deleted lines); [done|].
  destruct (pickNearestLine _ _ _) as [c|] eqn:E1.
  { intros [= <-]. apply pickNearestLine_elem in E1. destruct (Hel c) as (qu & -> & Hc); [by left|]. by apply (sound_by_quote _ _ qu). }
  destruct (find _ conf) as [c|] eqn:E2.
  { intros [= <-]. apply find_some in E2 as [Hin _]. destruct (Hel c) as (qu & -> & Hc); [right; by apply list_elem_of_In|]. by apply (sound_by_quote _ _ qu). }
  destruct (ts_lineRangeToOffsets space) as [f|] eqn:Ef; [|done]. cbn. destruct (f _ _) as [[s e]|] eqn:Eo; [|done]. cbn. intros [= <-].
  unfold sound_resolution. cbn. destruct (lr_touched lines); cbn; by eexists f, _, _.
Qed.

(** A resolution never shows what it did not find.  Whatever the text, the
    stored anchor and the diff, a lost anchor has no span; a span found by the
    quote lies in the text, is not empty, and contains the quote, as it is or
    without case and markdown marks; a partial one lies in the text; and a span
    found by lines is the one the viewer gives for the reported lines. *)
Theorem resolution_sound space input : sound_resolution space input (resolveAnchor space input).
Proof.
  unfold resolveAnchor. set (q := nonblank (ai_quote input)). set (qs := match q with Some q => search_quote space q | None => _ end).
  assert (Hel : forall c, qs.(qs_picked) = Some c \/ c ∈ qs.(qs_ambiguous) \/ c ∈ qs.(qs_conflicting) -> exists qu, q = Some qu /\ c ∈ findQuote space qu.(aq_exact)).
  { intros c Hc. unfold qs in Hc. destruct q as [qu|]; [exists qu; split; [done|]; by apply search_quote_elem|]. cbn in Hc.
    destruct Hc as [Hc|[Hc|Hc]]; [done|by apply elem_of_nil in Hc..]. }
  destruct (or_else _ _) as [r|] eqn:E; [|done]. apply or_else_cases in E as [E|E].
  { destruct (qs_picked qs) as [c|] eqn:Ep; [|done]. injection E as <-. destruct (Hel c) as (qu & Hq & Hc); [by left|]. by apply (sound_by_quote _ _ qu). }
  apply or_else_cases in E as [E|E].
  { destruct (trusted_lines input) as [l|]; [|done]. apply (resolve_lines_sound space input q) in E; [done| |done]. intros c Hc. apply Hel. by right. }
  apply or_else_cases in E as [E|E].
  - destruct q as [qu|] eqn:Eq; [|done]. cbn in E. unfold resolve_quote in E.
    destruct (near_or_first space _ (qs_ambiguous qs)) as [c|] eqn:E1.
    { injection E as <-. apply near_or_first_elem in E1. destruct (Hel c) as (qu' & [= <-] & Hc); [right; by left|].
      pose proof (sound_by_quote space input qu Anchored c Eq ltac:(done) Hc) as H. unfold by_quote. revert H. unfold sound_resolution, withLines, found. cbn.
      by destruct (ts_offsetToLine space). }
    destruct (near_or_first space _ (qs_conflicting qs)) as [c|] eqn:E2.
    { apply near_or_first_elem in E2. destruct (Hel c) as (qu' & [= <-] & Hc); [right; by right|].
      destruct (match trusted_lines input with Some l => l.(lr_deleted) | None => false end); [by injection E as <-|]. injection E as <-. by apply (sound_by_quote space input qu). }
    destruct (findPartial _ _ _) as [c|] eqn:E3; [|done]. injection E as <-. apply findPartial_span in E3. unfold sound_resolution, withLines, found. cbn.
    destruct (ts_offsetToLine space); cbn; (split; [exact E3|]); fold q; by rewrite Eq.
  - unfold resolve_stale in E. destruct q, (ai_stale input), (trusted_lines input), (ai_lineStart input) as [ln|]; try done. destruct (ln <=? 0); [done|].
    destruct (ts_lineRangeToOffsets space) as [f|] eqn:Ef; [|done]. cbn in E. destruct (f _ _) as [[s e]|] eqn:Eo; [|done]. cbn in E. injection E as <-.
    unfold sound_resolution. cbn. by exists f, ln, (stored_end input ln).
Qed.
End Sound.
