(* ===== verification/AnchorCapture.v ===== *)
(** * A captured quote resolves to its selection

    The theorem: in the text it was captured from, a quote resolves to the very
    selection, or it is reported as ambiguous.  Its conditions: the selection has
    at most 2000 units ([QUOTE_EXACT_MAX], where the code cuts it) and fewer than
    500 occurrences ([MAX_CANDIDATES], where the code stops to look), and the whole
    text holds no closing bracket before an opening parenthesis (no inline link),
    no surrogate and no capital sigma, so that the letters of a piece of it do not
    depend on what is beside the piece.  The examples show that the bound of 2000
    and the condition on links are needed: without them the quote may be reported
    as moved. *)

From S2P Require Import Prelude JsString Text Utf16 Chunker Anchor AnchorSpec.

(** A unit that is a code point and whose case does not depend on its place. *)
Definition plain_unit (u : Z) : Prop := is_high u = false /\ is_low u = false /\ u <> 931.

Class UnicodeLaws {U : Unicode} : Prop := {
  lower_plain : forall t, Forall plain_unit t -> lowerCase t = concat ((fun u => lowerCase [u]) <$> t);
  lower_units : forall u, plain_unit u -> Forall (fun v => is_high v = false) (lowerCase [u])
}.

(** No [](] in a text. *)
Fixpoint no_link (t : list Z) : Prop :=
  match t with u :: t' => ~ (u = 93 /\ head t' = Some 40) /\ no_link t' | [] => True end.

Definition plain_text (t : list Z) : Prop := Forall plain_unit t /\ no_link t.

Lemma no_link_app a b : no_link (a ++ b) -> no_link a /\ no_link b.
Proof.
  induction a as [|u a IH]; [done|]. cbn. intros [H1 H2]. apply IH in H2 as [Ha Hb]. split; [|done]. split; [|done].
  intros [-> Hh]. apply H1. split; [done|]. by destruct a.
Qed.

Lemma plain_app a b : plain_text (a ++ b) -> plain_text a /\ plain_text b.
Proof. intros [[Ha Hb]%Forall_app [La Lb]%no_link_app]. by repeat split. Qed.

Lemma drop_links_none t : no_link t -> drop_links false t = t.
Proof.
  induction t as [|u t IH]; [done|]. cbn. intros [H1 H2]. destruct (Z.eqb_spec u 93) as [->|]; [|by rewrite IH].
  destruct t as [|v t]; [done|]. destruct (Z.eqb_spec v 40) as [->|]; [by destruct H1|]. by rewrite IH.
Qed.

Section Context.
Context {U : Unicode} {UL : UnicodeLaws}.

Lemma word_units_plain t : Forall (fun v => is_high v = false) t -> word_units t = filter (fun u => isWord u = true) t.
Proof.
  intros Ht. induction Ht as [|u t Hu Ht IH]; [done|]. cbn [word_units]. rewrite filter_cons.
  destruct t as [|v t]; [by destruct (isWord u)|]. rewrite Hu. cbn [andb]. rewrite IH. by destruct (isWord u).
Qed.

Definition unit_key (u : Z) : list Z := filter (fun v => isWord v = true) (lowerCase [u]).

Lemma contextKey_plain t : plain_text t -> contextKey t = concat (unit_key <$> t).
Proof.
  intros [Hp Hl]. unfold contextKey. rewrite (drop_links_none _ Hl), lower_plain by done. rewrite word_units_plain.
  - clear Hl. induction Hp as [|u t Hu Hp IH]; [done|]. cbn. by rewrite filter_app, IH.
  - clear Hl. induction Hp as [|u t Hu Hp IH]; [constructor|]. cbn. apply Forall_app. split; [by apply lower_units|done].
Qed.

Lemma contextKey_app a b : plain_text (a ++ b) -> contextKey (a ++ b) = contextKey a ++ contextKey b.
Proof.
  intros H. pose proof (plain_app _ _ H) as [Ha Hb]. rewrite !contextKey_plain by done. by rewrite fmap_app, concat_app.
Qed.
End Context.

(** ** Comparing contexts *)

Lemma common_prefix_le a b : (commonPrefixLength a b <= length a)%nat.
Proof. revert b. induction a as [|x a IH]; intros b; [done|]. destruct b as [|y b]; cbn; [lia|]. destruct (x =? y); [specialize (IH b)|]; lia. Qed.

Lemma common_prefix_app a b : commonPrefixLength a (a ++ b) = length a.
Proof. induction a as [|x a IH]; [done|]. cbn. by rewrite Z.eqb_refl, IH. Qed.

Lemma slice_to_le l k : (length (slice_to l k) <= length l)%nat.
Proof. unfold slice_to. destruct (k <? 0); rewrite length_take; lia. Qed.

Lemma foldl_max_ge (f : nat -> nat) l : forall z, (z <= foldl (fun best b => if Nat.ltb best (f b) then f b else best) z l)%nat /\
  forall b, b ∈ l -> (f b <= foldl (fun best b => if Nat.ltb best (f b) then f b else best) z l)%nat.
Proof.
  induction l as [|x l IH]; intros z; [split; [done|by intros b ?%elem_of_nil]|]. cbn [foldl].
  destruct (Nat.ltb_spec z (f x)) as [Hz|Hz]; [destruct (IH (f x)) as [H1 H2]|destruct (IH z) as [H1 H2]].
  - split; [lia|]. intros b [->|Hb]%elem_of_cons; [done|by apply H2].
  - split; [done|]. intros b [->|Hb]%elem_of_cons; [lia|by apply H2].
Qed.

Lemma foldl_max_le (f : nat -> nat) l m : (forall b, b ∈ l -> (f b <= m)%nat) -> forall z, (z <= m)%nat ->
  (foldl (fun best b => if Nat.ltb best (f b) then f b else best) z l <= m)%nat.
Proof.
  induction l as [|x l IH]; intros Hf z Hz; [done|]. cbn [foldl]. apply IH; [intros b Hb; apply Hf; by right|].
  destruct (Nat.ltb _ _); [apply Hf; by left|done].
Qed.

Definition side_length (want got : list Z) (side : Side) (a b : nat) : nat :=
  match side with
  | Prefix => commonSuffixLength (slice_to want (Z.of_nat (length want) - Z.of_nat a)) (slice_to got (Z.of_nat (length got) - Z.of_nat b))
  | Suffix => commonPrefixLength (drop a want) (drop b got)
  end.

Lemma side_length_le want got side a b : (side_length want got side a b <= length want)%nat.
Proof.
  destruct side; cbn.
  - unfold commonSuffixLength. etransitivity; [apply common_prefix_le|]. rewrite length_rev. apply slice_to_le.
  - etransitivity; [apply common_prefix_le|]. rewrite length_drop. lia.
Qed.

(** The inner loop of [sideMatch], and the outer. *)
Definition inner_best (want got : list Z) (side : Side) (best a : nat) : nat :=
  foldl (fun best b => if Nat.ltb best (side_length want got side a b) then side_length want got side a b else best) best (seq 0 (S CONTEXT_SKIP)).

Lemma sideMatch_loops want got side : sideMatch want got side = foldl (inner_best want got side) 0%nat (seq 0 (S CONTEXT_SKIP)).
Proof. done. Qed.

Lemma inner_best_le want got side a z : (z <= length want)%nat -> (inner_best want got side z a <= length want)%nat.
Proof. intros Hz. apply foldl_max_le; [|done]. intros b _. apply side_length_le. Qed.

Lemma inner_best_ge want got side a z : (z <= inner_best want got side z a)%nat.
Proof. apply foldl_max_ge. Qed.

Lemma sideMatch_le want got side : (sideMatch want got side <= length want)%nat.
Proof. rewrite sideMatch_loops. cbn [seq foldl]. repeat apply inner_best_le. lia. Qed.

Lemma sideMatch_full want got side : side_length want got side 0 0 = length want -> sideMatch want got side = length want.
Proof.
  intros H. apply Nat.le_antisymm; [apply sideMatch_le|]. rewrite sideMatch_loops. cbn [seq foldl].
  assert (H0 : (length want <= inner_best want got side 0 0)%nat) by (rewrite <- H; apply foldl_max_ge; by left).
  etransitivity; [exact H0|]. do 3 (etransitivity; [|apply inner_best_ge]). done.
Qed.

Lemma slice_to_all l : slice_to l (Z.of_nat (length l) - Z.of_nat 0) = l.
Proof. unfold slice_to. rewrite (proj2 (Z.ltb_ge _ _)) by lia. apply take_ge. lia. Qed.

Lemma sideMatch_prefix before want : sideMatch want (before ++ want) Prefix = length want.
Proof.
  apply sideMatch_full. cbn. rewrite !slice_to_all. unfold commonSuffixLength. rewrite rev_app_distr, common_prefix_app. apply length_rev.
Qed.

Lemma sideMatch_suffix after want : sideMatch want (want ++ after) Suffix = length want.
Proof. apply sideMatch_full. cbn. apply common_prefix_app. Qed.

(** The best pick of a fold, over candidates of the text. *)
Section Pick.
Context {U : Unicode} (text : list Z) (quote : AnchorQuote).

Definition score (c : Candidate) : nat := (contextMatch text c quote).(cm_score).

Record pick_ok (l : list Candidate) (p : Pick) : Prop := {
  po_max : forall c, c ∈ l -> (score c <= p.(pk_score))%nat;
  po_none : p.(pk_best) = None -> p.(pk_score) = 0%nat;
  po_best : forall b, p.(pk_best) = Some b -> (0 < p.(pk_score))%nat;
  po_strict : forall c, c ∈ l -> c.(c_strict) = true -> score c = p.(pk_score) -> (0 < score c)%nat -> best_strict p = true;
  po_unique : p.(pk_tie) = false -> forall c, c ∈ l -> c.(c_strict) = true -> score c = p.(pk_score) -> (0 < score c)%nat -> p.(pk_best) = Some c
}.

Lemma pick_step_ok l p c : pick_ok l p -> pick_ok (l ++ [c]) (pick_step text quote p c).
Proof.
  intros [Hmax Hnone Hbest Hstrict Huniq]. unfold pick_step. fold (score c).
  assert (Hin : forall x, x ∈ l ++ [c] -> x ∈ l \/ x = c) by (intros x [?|?%list_elem_of_singleton]%elem_of_app; auto).
  destruct (Nat.ltb (pk_score p) (score c) || _) eqn:E1; [|destruct (Nat.eqb (score c) _ && _ && Bool.eqb _ _) eqn:E2].
  - assert (Hs : (pk_score p < score c)%nat \/ (score c = pk_score p /\ (0 < score c)%nat /\ c.(c_strict) = true /\ best_strict p = false)).
    { apply orb_true_iff in E1 as [E1|E1]; [left; by apply Nat.ltb_lt|right]. rewrite !andb_true_iff, negb_true_iff in E1.
      destruct E1 as [[[E1%Nat.eqb_eq E0%Nat.ltb_lt] Es] Eb]. done. }
    assert (Hold : forall x, x ∈ l -> c_strict x = true -> score x = score c -> (0 < score x)%nat -> False).
    { intros x Hx Hxs He Hp. pose proof (Hmax x Hx). destruct Hs as [Hs|(Hs & _ & _ & Hb)]; [lia|].
      rewrite (Hstrict x Hx Hxs) in Hb by lia. done. }
    split; cbn.
    + intros x [Hx| ->]%Hin; [|done]. pose proof (Hmax x Hx). destruct Hs as [|[-> _]]; lia.
    + done.
    + intros _ _. destruct Hs as [|(_ & Hz & _)]; lia.
    + intros x [Hx| ->]%Hin Hxs He Hp; [by destruct (Hold x Hx Hxs He Hp)|done].
    + intros _ x [Hx| ->]%Hin Hxs He Hp; [by destruct (Hold x Hx Hxs He Hp)|done].
  - rewrite !andb_true_iff in E2. destruct E2 as [[E2%Nat.eqb_eq E3%Nat.ltb_lt] E4%Bool.eqb_prop]. split; cbn.
    + intros x [Hx| ->]%Hin; [by apply Hmax|lia].
    + done.
    + done.
    + intros x [Hx| ->]%Hin Hxs He Hp; [by apply (Hstrict x)|]. change (best_strict p = true). by rewrite <- E4.
    + done.
  - apply orb_false_iff in E1 as [E1%Nat.ltb_ge E1']. split.
    + intros x [Hx| ->]%Hin; [by apply Hmax|done].
    + done.
    + done.
    + intros x [Hx| ->]%Hin Hxs He Hp; [by apply (Hstrict x)|]. rewrite He, Nat.eqb_refl, Hxs in E1'. rewrite (proj2 (Nat.ltb_lt _ _)) in E1' by lia.
      cbn in E1'. by apply negb_false_iff in E1'.
    + intros Ht x [Hx| ->]%Hin Hxs He Hp; [by apply Huniq|exfalso]. rewrite He, Nat.eqb_refl, Hxs in E1', E2. rewrite (proj2 (Nat.ltb_lt _ _)) in E1', E2 by lia.
      cbn in E1', E2. apply negb_false_iff in E1'. rewrite E1' in E2. done.
Qed.

Lemma pick_fold_ok cands : pick_ok cands (foldl (pick_step text quote) {| pk_best := None; pk_score := 0; pk_tie := false |} cands).
Proof.
  induction cands as [|c cands IH] using rev_ind.
  - split; [by intros ? H%elem_of_nil|done|done|by intros ? H%elem_of_nil|by intros _ ? H%elem_of_nil].
  - rewrite foldl_app. by apply pick_step_ok.
Qed.

(** A strict candidate that scores as high as any is the pick, if there is one. *)
Lemma pick_best cands c r : c ∈ cands -> c.(c_strict) = true -> (forall x, x ∈ cands -> (score x <= score c)%nat) ->
  pickByContext text cands quote = Some r -> r = c.
Proof.
  intros Hc Hs Hmax. unfold pickByContext. destruct (negb _); [done|]. set (p := foldl _ _ cands). destruct (pk_tie p) eqn:Et; [done|]. intros Hr.
  destruct (pick_fold_ok cands) as [Hm Hno Hb Hst Hu]. fold p in Hm, Hno, Hb, Hst, Hu.
  assert (Hpos : (0 < pk_score p)%nat) by (by apply (Hb r)).
  assert (Hle : (pk_score p <= score c)%nat).
  { assert (Hatt : forall l q, (forall x, x ∈ l -> (score x <= score c)%nat) -> (q.(pk_score) <= score c)%nat -> ((foldl (pick_step text quote) q l).(pk_score) <= score c)%nat).
    { induction l as [|x l IH]; intros q Hl Hq; [done|]. cbn. apply IH; [intros y Hy; apply Hl; by right|]. unfold pick_step. fold (score x).
      destruct (_ || _); cbn; [apply Hl; by left|]. by destruct (_ && _). }
    apply Hatt; [done|cbn; lia]. }
  pose proof (Hm c Hc). assert (He : score c = pk_score p) by lia. rewrite (Hu Et c Hc Hs He) in Hr by lia. by injection Hr.
Qed.
End Pick.

(** ** What is captured *)

Lemma skip_spaces_spec text n : forall start, let s := skip_spaces text n start in
  (start <= s <= start + n)%nat /\ (forall i, (start <= i < s)%nat -> exists u, text !! i = Some u /\ unit_space u = true) /\
  ((s < start + n)%nat -> forall u, text !! s = Some u -> unit_space u = false).
Proof.
  induction n as [|n IH]; intros start; cbn [skip_spaces]; [split; [lia|]; split; intros; lia|].
  destruct (text !! start) as [u|] eqn:E; [destruct (unit_space u) eqn:Eu|].
  - destruct (IH (S start)) as (H1 & H2 & H3). split; [lia|]. split; [|intros H; apply H3; lia].
    intros i Hi. destruct (decide (i = start)) as [->|]; [by exists u|apply H2; lia].
  - split; [lia|]. split; [intros; lia|]. intros _ v Hv. congruence.
  - split; [lia|]. split; [intros; lia|]. intros _ v Hv. congruence.
Qed.

Lemma cut_spaces_spec text n : forall end_, (n <= end_)%nat -> let e := cut_spaces text n end_ in
  (end_ - n <= e <= end_)%nat /\ (forall i, (e <= i < end_)%nat -> exists u, text !! i = Some u /\ unit_space u = true) /\
  ((end_ - n < e)%nat -> forall u, text !! (e - 1)%nat = Some u -> unit_space u = false).
Proof.
  induction n as [|n IH]; intros end_ Hn; cbn [cut_spaces]; [split; [lia|]; split; intros; lia|].
  destruct (text !! (end_ - 1)%nat) as [u|] eqn:E; [destruct (unit_space u) eqn:Eu|].
  - destruct (IH (end_ - 1)%nat) as (H1 & H2 & H3); [lia|]. split; [lia|]. split; [|intros H; apply H3; lia].
    intros i Hi. destruct (decide (i = (end_ - 1)%nat)) as [->|]; [by exists u|apply H2; lia].
  - split; [lia|]. split; [intros; lia|]. intros _ v Hv. congruence.
  - split; [lia|]. split; [intros; lia|]. intros _ v Hv. congruence.
Qed.

(** [s] to [e] is the selection without the spaces around it. *)
Record trimmed (text : list Z) (start end_ s e : nat) : Prop := {
  tr_bounds : (start <= s < e)%nat /\ (e <= end_)%nat;
  tr_before : forall i, (start <= i < s)%nat -> exists u, text !! i = Some u /\ unit_space u = true;
  tr_after : forall i, (e <= i < end_)%nat -> exists u, text !! i = Some u /\ unit_space u = true;
  tr_first : forall u, text !! s = Some u -> unit_space u = false;
  tr_last : forall u, text !! (e - 1)%nat = Some u -> unit_space u = false
}.

Definition side_of (l : list Z) : option (list Z) := match l with [] => None | _ => Some l end.

Definition quote_at (text : list Z) (s e : nat) : AnchorQuote := {|
  aq_exact := slice_units text s (Nat.min e (s + QUOTE_EXACT_MAX));
  aq_prefix := side_of (slice_units text (s - QUOTE_CONTEXT_CHARS) s);
  aq_suffix := side_of (slice_units text e (e + QUOTE_CONTEXT_CHARS))
|}.

Lemma captureQuote_spec text start end_ q : captureQuote text start end_ = Some q ->
  exists s e, trimmed text start end_ s e /\ q = quote_at text s e.
Proof.
  unfold captureQuote. cbv zeta. destruct (skip_spaces_spec text (end_ - start) start) as (Hs1 & Hs2 & Hs3).
  set (s := skip_spaces text (end_ - start) start) in *. destruct (cut_spaces_spec text (end_ - s) end_) as (He1 & He2 & He3); [lia|].
  set (e := cut_spaces text (end_ - s) end_) in *. destruct (Nat.leb_spec e s) as [Hle|Hlt]; [discriminate|]. intros [= <-].
  exists s, e. split; [|done]. split; [lia|done|done| |]; [apply Hs3; lia|apply He3; lia].
Qed.

(** ** Slices *)

Lemma slice_app (text : list Z) a b c : (a <= b <= c)%nat -> slice_units text a c = slice_units text a b ++ slice_units text b c.
Proof.
  intros H. unfold slice_units. rewrite <- (take_drop (b - a) (take (c - a) (drop a text))). f_equal.
  - rewrite take_take. f_equal. lia.
  - rewrite skipn_firstn_comm, drop_drop. f_equal; [lia|]. f_equal. lia.
Qed.

Lemma slice_length (text : list Z) a b : length (slice_units text a b) = Nat.min (b - a) (length text - a).
Proof. unfold slice_units. by rewrite length_take, length_drop. Qed.

Lemma slice_three (text : list Z) s e : (s <= e)%nat -> text = take s text ++ slice_units text s e ++ drop e text.
Proof.
  intros H. unfold slice_units. rewrite <- (take_drop s text) at 1. f_equal. rewrite <- (take_drop (e - s) (drop s text)) at 1. f_equal.
  rewrite drop_drop. f_equal. lia.
Qed.

Lemma plain_slice text a b : (a <= b)%nat -> plain_text text -> plain_text (slice_units text a b).
Proof. intros H Hp. rewrite (slice_three text a b H) in Hp. apply plain_app in Hp as [_ Hp]. by apply plain_app in Hp as [Hp _]. Qed.

(** ** The context of the selection *)

Section Capture.
Context {U : Unicode} {UL : UnicodeLaws} (text : list Z) (s e : nat).
Context (Hplain : plain_text text) (Hse : (s < e)%nat) (Hlen : (e <= length text)%nat).
Context (Hfirst : forall u, text !! s = Some u -> unit_space u = false) (Hlast : forall u, text !! (e - 1)%nat = Some u -> unit_space u = false).
Context (Hmax : (e - s <= QUOTE_EXACT_MAX)%nat).

Let q : AnchorQuote := quote_at text s e.
Let c0 : Candidate := {| c_start := s; c_end := e; c_strict := true |}.

Definition side_key (side : Side) : nat := match saved_side q side with Some saved => length (contextKey saved) | None => 0 end.

Lemma match_side_le c m side : ((match_side text c q m side).(cm_score) <= m.(cm_score) + side_key side)%nat.
Proof.
  unfold match_side, side_key. destruct (saved_side q side) as [saved|]; [|lia]. cbn [cm_score].
  pose proof (sideMatch_le (contextKey saved) (contextKey (context_window text c saved side)) side). lia.
Qed.

Lemma score_le c : (score text q c <= side_key Prefix + side_key Suffix)%nat.
Proof.
  unfold score, contextMatch. cbn [foldl]. etransitivity; [apply match_side_le|]. pose proof (match_side_le c {| cm_score := 0; cm_conflicts := false |} Prefix) as H.
  cbn [cm_score] in H |- *. lia.
Qed.

Lemma saved_prefix l : saved_side q Prefix = Some l -> l = slice_units text (s - QUOTE_CONTEXT_CHARS) s.
Proof. unfold saved_side, q. cbn. unfold side_of. destruct (slice_units text _ s); [done|]. by intros [= <-]. Qed.
Lemma saved_suffix l : saved_side q Suffix = Some l -> l = slice_units text e (e + QUOTE_CONTEXT_CHARS).
Proof. unfold saved_side, q. cbn. unfold side_of. destruct (slice_units text e _); [done|]. by intros [= <-]. Qed.

Lemma own_side side saved : saved_side q side = Some saved ->
  sideMatch (contextKey saved) (contextKey (context_window text c0 saved side)) side = length (contextKey saved).
Proof.
  destruct side; intros Hs.
  - pose proof (saved_prefix _ Hs) as ->. unfold context_window. change (c_start c0) with s. set (k := length (slice_units text (s - QUOTE_CONTEXT_CHARS) s)).
    assert (Hk : k = Nat.min QUOTE_CONTEXT_CHARS s) by (unfold k; rewrite slice_length; lia).
    assert (Hw : slice_units text (s - k * 3) s = slice_units text (s - k * 3) (s - QUOTE_CONTEXT_CHARS) ++ slice_units text (s - QUOTE_CONTEXT_CHARS) s).
    { apply slice_app. unfold QUOTE_CONTEXT_CHARS in *. lia. }
    pose proof (plain_slice text (s - k * 3) s ltac:(lia) Hplain) as Hp. rewrite Hw in Hp |- *. rewrite contextKey_app by done. apply sideMatch_prefix.
  - pose proof (saved_suffix _ Hs) as ->. unfold context_window. change (c_end c0) with e. set (l := slice_units text e (e + QUOTE_CONTEXT_CHARS)). set (k := length l).
    assert (Hl : l = slice_units text e (e + k)).
    { unfold k, l, slice_units. replace (e + QUOTE_CONTEXT_CHARS - e)%nat with QUOTE_CONTEXT_CHARS by lia. set (d := drop e text).
      replace (e + length (take QUOTE_CONTEXT_CHARS d) - e)%nat with (length (take QUOTE_CONTEXT_CHARS d)) by lia. rewrite length_take.
      destruct (decide (QUOTE_CONTEXT_CHARS <= length d)%nat); [by rewrite Nat.min_l|]. rewrite Nat.min_r by lia. rewrite !take_ge by lia. done. }
    assert (Hw : slice_units text e (e + k * 3) = l ++ slice_units text (e + k) (e + k * 3)) by (rewrite Hl; apply slice_app; lia).
    pose proof (plain_slice text e (e + k * 3) ltac:(lia) Hplain) as Hp. rewrite Hw in Hp |- *. rewrite contextKey_app by done. apply sideMatch_suffix.
Qed.

Lemma match_side_own m side : match_side text c0 q m side = {| cm_score := m.(cm_score) + side_key side; cm_conflicts := m.(cm_conflicts) |}.
Proof.
  unfold match_side, side_key. destruct (saved_side q side) as [saved|] eqn:E.
  - rewrite own_side by done. f_equal. rewrite (proj2 (Nat.ltb_ge _ (Nat.min _ _))) by lia. by rewrite andb_false_r, orb_false_r.
  - rewrite Nat.add_0_r. by destruct m.
Qed.

Lemma context_own : contextMatch text c0 q = {| cm_score := side_key Prefix + side_key Suffix; cm_conflicts := false |}.
Proof. unfold contextMatch. cbn [foldl]. by rewrite !match_side_own. Qed.

(** ** Its occurrence *)

Let exact : list Z := slice_units text s e.

Lemma exact_is : q.(aq_exact) = exact.
Proof. unfold q, quote_at, exact. cbn. f_equal. lia. Qed.

Lemma exact_lookup i : (i < e - s)%nat -> exact !! i = text !! (s + i)%nat.
Proof. intros Hi. unfold exact, slice_units. rewrite lookup_take_lt by done. apply lookup_drop. Qed.

Lemma exact_length : length exact = (e - s)%nat.
Proof. unfold exact. rewrite slice_length. lia. Qed.

Lemma exact_first : exists u t, exact = u :: t /\ unit_space u = false.
Proof.
  destruct exact as [|u t] eqn:E; [pose proof exact_length as H; rewrite E in H; cbn in H; lia|]. exists u, t. split; [done|]. apply Hfirst.
  rewrite <- (Nat.add_0_r s), <- exact_lookup by lia. by rewrite E.
Qed.

Lemma exact_last : exists t v, exact = t ++ [v] /\ unit_space v = false.
Proof.
  destruct (exists_last (l := exact)) as (t & v & E); [intros E; pose proof exact_length as H; rewrite E in H; cbn in H; lia|].
  exists t, v. split; [done|]. apply Hlast. assert (Ht : length t = (e - s - 1)%nat) by (pose proof exact_length as H; rewrite E, length_app in H; cbn in H; lia).
  replace (e - 1)%nat with (s + length t)%nat by lia. rewrite <- exact_lookup by lia. rewrite E. by apply list_lookup_middle.
Qed.

Lemma trim_units_id l u t t' v : l = u :: t -> l = t' ++ [v] -> unit_space u = false -> unit_space v = false -> trim_units l = l.
Proof.
  intros H1 H2 Hu Hv. unfold trim_units. assert (Hd : drop_spaces l = l) by (rewrite H1; cbn; by rewrite Hu). rewrite Hd.
  rewrite H2, rev_app_distr. cbn. rewrite Hv. cbn. by rewrite rev_involutive.
Qed.

Lemma exact_nonblank : nonblank (Some q) = Some q.
Proof.
  change (nonblank (Some q)) with (if bool_decide (trim_units (aq_exact q) = []) then None else Some q). rewrite exact_is.
  destruct exact_first as (u & t & E1 & Hu). destruct exact_last as (t' & v & E2 & Hv). rewrite (trim_units_id exact u t t' v) by done.
  rewrite bool_decide_false; [done|]. by rewrite E1.
Qed.

Lemma needle_strict : normalizeNeedle exact Strict = (pairs Strict 0 false exact).*1 /\ normalizeNeedle exact Strict <> [].
Proof.
  destruct exact_first as (u & t & E1 & Hu). destruct exact_last as (t' & v & E2 & Hv).
  assert (H1 : (pairs Strict 0 false exact).*1 = u :: (pairs Strict 1 false t).*1) by (rewrite E1; cbn; by rewrite Hu).
  assert (H2 : (pairs Strict 0 false exact).*1 = (pairs Strict 0 false t').*1 ++ [v]) by (rewrite E2, pairs_app, fmap_app; f_equal; cbn; by rewrite Hv).
  assert (H : normalizeNeedle exact Strict = (pairs Strict 0 false exact).*1).
  { unfold normalizeNeedle. rewrite normalize_norm. by apply (trim_units_id _ u _ _ v H1 H2). }
  split; [exact H|]. by rewrite H, H1.
Qed.

Let needle : list Z := normalizeNeedle exact Strict.
Let i0 : nat := length (pairs Strict 0 false (take s text)).

Lemma own_pairs : exists P3, pairs Strict 0 false text = pairs Strict 0 false (take s text) ++ pairs Strict s false exact ++ P3.
Proof.
  assert (Ht : pairs Strict 0 false text = pairs Strict 0 false (take s text ++ exact ++ drop e text)).
  { unfold exact. by rewrite <- (slice_three text s e) by lia. }
  rewrite Ht, !pairs_app, length_take, Nat.min_l by lia. cbn [Nat.add]. eexists. f_equal. f_equal.
  destruct exact_first as (u & t & -> & Hu). cbn. by rewrite Hu.
Qed.

Lemma own_occurs : occurs_at needle (normalize text Strict).(nz_norm) i0 /\ candidate_at (normalize text Strict) needle i0 = {| c_start := s; c_end := e; c_strict := false |}.
Proof.
  destruct own_pairs as [P3 HP]. destruct needle_strict as [Hn Hne]. fold needle in Hn, Hne.
  assert (Hn2 : needle = (pairs Strict s false exact).*1) by (rewrite Hn; apply pairs_shift).
  assert (Hlen2 : length needle = length (pairs Strict s false exact)) by (by rewrite Hn2, length_fmap).
  split.
  - unfold occurs_at. rewrite normalize_norm, HP, !fmap_app. unfold i0. rewrite <- (length_fmap fst). rewrite drop_app_length.
    apply is_prefix_spec. exists (P3.*1). by rewrite Hn2.
  - destruct exact_first as (u & t & E1 & Hu). destruct exact_last as (t' & v & E2 & Hv).
    assert (Hf : pairs Strict s false exact !! 0%nat = Some (u, s)) by (rewrite E1; cbn; by rewrite Hu).
    assert (Hl : pairs Strict s false exact !! (length needle - 1)%nat = Some (v, (e - 1)%nat)).
    { rewrite Hlen2, E2, pairs_app. set (P0 := pairs Strict s false t'). cbn [pairs normalize_strict]. rewrite Hv. rewrite length_app. cbn [length].
      replace (length P0 + 1 - 1)%nat with (length P0) by lia. rewrite lookup_app_r, Nat.sub_diag by lia. cbn.
      do 2 f_equal. pose proof exact_length as H. rewrite E2, length_app in H. cbn in H. lia. }
    assert (Hpos : (0 < length needle)%nat) by (destruct needle; [done|cbn; lia]).
    unfold candidate_at. rewrite normalize_map. f_equal.
    + apply (map_lookup _ _ (u, s)). rewrite HP. unfold i0. rewrite lookup_app_r, Nat.sub_diag by lia. rewrite lookup_app_l by lia. exact Hf.
    + assert (Hy : (pairs Strict 0 false text).*2 !!! (i0 + length needle - 1)%nat = (v, (e - 1)%nat).2); [|rewrite Hy; cbn; lia].
      apply map_lookup. rewrite HP. unfold i0. rewrite lookup_app_r by lia. rewrite lookup_app_l by lia. rewrite <- Hl. f_equal. lia.
Qed.

Context (space : TextSpace) (Hspace : space.(ts_text) = text) (Hfew : (length (find_mode space exact Strict) < MAX_CANDIDATES)%nat).

Lemma own_candidate : c0 ∈ findQuote space q.(aq_exact).
Proof.
  unfold findQuote. rewrite exact_is, elem_of_sort_by, elem_of_app. left. apply list_elem_of_fmap. exists {| c_start := s; c_end := e; c_strict := false |}.
  split; [done|]. rewrite find_mode_findAll in Hfew |- *. rewrite Hspace in Hfew |- *. destruct own_occurs as [Ho <-]. destruct needle_strict as [_ Hne].
  unfold findAll in *. fold needle in Hne, Hfew |- *. destruct needle as [|x n] eqn:En; [done|]. rewrite <- En in *.
  apply find_loop_complete; [by rewrite En|done|lia|exact Ho].
Qed.

(** ** Its resolution *)

Lemma own_no_conflict : conflicts_at space q c0 = false.
Proof. unfold conflicts_at. rewrite Hspace, context_own. done. Qed.

Lemma own_ambiguous : c0 ∈ (search_quote space q).(qs_ambiguous).
Proof.
  unfold search_quote. cbn [qs_ambiguous]. destruct (has_context q).
  - apply list_elem_of_filter. split; [apply own_no_conflict|apply own_candidate].
  - assert (H : c0 ∈ filter (fun c => c.(c_strict) = true) (findQuote space q.(aq_exact))) by (apply list_elem_of_filter; split; [done|apply own_candidate]).
    destruct (filter _ (findQuote _ _)) as [|c l] eqn:E; [by apply elem_of_nil in H|exact H].
Qed.

Lemma own_picked r : (search_quote space q).(qs_picked) = Some r -> r = c0.
Proof.
  intros H. pose proof own_ambiguous as Hin. unfold search_quote in H, Hin. cbn [qs_picked qs_ambiguous] in H, Hin.
  set (cands := if has_context q then _ else _) in H, Hin.
  assert (Hpick : pickByContext space.(ts_text) cands q = Some r -> r = c0).
  { intros Hp. rewrite Hspace in Hp. apply (pick_best text q cands c0 r); [done|done| |done]. intros x _.
    unfold score at 2. rewrite context_own. apply score_le. }
  destruct cands as [|c [|c' l]]; [by apply Hpick| |by apply Hpick]. injection H as ->. by apply list_elem_of_singleton in Hin.
Qed.

Lemma own_unique : findQuote space q.(aq_exact) = [c0] -> (search_quote space q).(qs_picked) = Some c0.
Proof.
  intros H. unfold search_quote. cbn [qs_picked]. rewrite H. rewrite !filter_cons. rewrite (decide_True (P := conflicts_at space q c0 = false)) by apply own_no_conflict.
  change (c_strict c0) with true. rewrite (decide_True (P := true = true)) by done. change (filter ?P []) with (@nil Candidate). by destruct (has_context q).
Qed.

Lemma capture_resolves : let r := resolveAnchor space (quote_only (Some q) false) in
  is_anchored r = true /\ r.(ar_method) = Some ByQuote /\
  (r.(ar_ambiguous) = false -> r.(ar_start) = Some s /\ r.(ar_end) = Some e) /\
  (length (findQuote space q.(aq_exact)) = 1%nat -> r.(ar_ambiguous) = false).
Proof.
  intros r. subst r. unfold resolveAnchor. change (ai_quote (quote_only (Some q) false)) with (Some q). rewrite exact_nonblank.
  change (trusted_lines (quote_only (Some q) false)) with (@None LineRange).
  destruct (qs_picked (search_quote space q)) as [c|] eqn:Ep.
  - rewrite (own_picked c Ep). cbn [fmap option_fmap option_map or_else]. unfold by_quote, withLines, found, is_anchored. cbn.
    destruct (ts_offsetToLine space); cbn; done.
  - cbn [fmap option_fmap option_map or_else mbind option_bind]. unfold resolve_quote. cbn [ai_lineStart quote_only].
    pose proof own_ambiguous as Hin. unfold near_or_first. cbn [mbind option_bind].
    destruct (qs_ambiguous (search_quote space q)) as [|c l] eqn:Ea; [by apply elem_of_nil in Hin|]. cbn [head or_else].
    unfold by_quote, withLines, found, is_anchored. cbn. assert (Hn : length (findQuote space q.(aq_exact)) <> 1%nat).
    { intros H1. pose proof own_candidate as Hc. destruct (findQuote space q.(aq_exact)) as [|x [|y l']] eqn:Ef; [done| |done].
      apply list_elem_of_singleton in Hc as <-. rewrite own_unique in Ep; done. }
    destruct (ts_offsetToLine space); cbn; done.
Qed.
End Capture.

(** C37: A captured quote resolves to its selection, in a text that holds no
    closing bracket before an opening parenthesis, no surrogate and no capital
    sigma: a selection of at most 2000 units, with fewer than 500 occurrences (but
    for the length of white space), resolved in the text it was captured from, is found by its text,
    is anchored, and unless it is reported as ambiguous, which it is not when it
    occurs once, shows the very selection without the spaces around it. *)
Theorem captured_quote_resolves {U : Unicode} {UL : UnicodeLaws} text space start end_ quote :
  space.(ts_text) = text -> plain_text text -> (end_ <= length text)%nat ->
  captureQuote text start end_ = Some quote ->
  exists s e, trimmed text start end_ s e /\
    ((e - s <= 2000)%nat -> (length (find_mode space quote.(aq_exact) Strict) < 500)%nat ->
     let r := resolveAnchor space (quote_only (Some quote) false) in
     is_anchored r = true /\ r.(ar_method) = Some ByQuote /\
     (r.(ar_ambiguous) = false -> r.(ar_start) = Some s /\ r.(ar_end) = Some e) /\
     (length (findQuote space quote.(aq_exact)) = 1%nat -> r.(ar_ambiguous) = false)).
Proof.
  intros Hsp Hp Hlen Hq. apply captureQuote_spec in Hq as (s & e & Ht & ->). exists s, e. split; [done|]. intros Hmax Hfew.
  destruct Ht as [[Hse He] _ _ Hf Hl]. apply (capture_resolves text s e); [done|lia|lia|done|done|done|done|].
  rewrite <- (exact_is text s e) by (done || lia). exact Hfew.
Qed.

(** ** Examples, with the ASCII letters *)

Definition ascii_lower (u : Z) : Z := if (65 <=? u) && (u <=? 90) then u + 32 else u.
#[export] Instance ascii_unicode : Unicode := {
  lowerCase t := ascii_lower <$> t;
  isWord u := ((48 <=? u) && (u <=? 57)) || ((97 <=? u) && (u <=? 122)) || ((65 <=? u) && (u <=? 90))
}.

#[export] Instance ascii_unicode_laws : UnicodeLaws.
Proof.
  split.
  - intros t _. cbn. induction t as [|u t IH]; [done|]. cbn. by rewrite IH.
  - intros u [Hh _]. cbn. repeat constructor. unfold ascii_lower. destruct (_ && _) eqn:E; [|done].
    apply andb_true_iff in E as [E1%Z.leb_le E2%Z.leb_le]. unfold is_high. apply andb_false_iff. left. apply Z.leb_gt. lia.
Qed.

Definition plain_unitb (u : Z) : bool := negb (is_high u) && negb (is_low u) && negb (u =? 931).
Fixpoint no_linkb (t : list Z) : bool :=
  match t with u :: t' => negb ((u =? 93) && bool_decide (head t' = Some 40)) && no_linkb t' | [] => true end.

Lemma plain_textb t : forallb plain_unitb t && no_linkb t = true -> plain_text t.
Proof.
  intros [Hu Hl]%andb_true_iff. split.
  - rewrite forallb_forall in Hu. apply Forall_forall. intros u Hin. apply list_elem_of_In, Hu in Hin. unfold plain_unitb in Hin.
    rewrite !andb_true_iff, !negb_true_iff, Z.eqb_neq in Hin. by destruct Hin as [[? ?] ?].
  - clear Hu. induction t as [|u t IH]; [done|]. cbn in Hl |- *. apply andb_true_iff in Hl as [H1 H2]. split; [|by apply IH].
    apply negb_true_iff, andb_false_iff in H1. intros [-> Hh]. destruct H1 as [H1|H1]; [done|]. by apply bool_decide_eq_false in H1.
Qed.

(** A text with the selected words twice. *)
Definition sample_text : list Z := to_utf16 "first the cat sat, then the cat ran away".
Definition sample_space : TextSpace := sourceTextSpace sample_text.

Lemma captured_quote_resolves_witness : exists quote s e, captureQuote sample_text 23 32 = Some quote /\ trimmed sample_text 23 32 s e /\
  let r := resolveAnchor sample_space (quote_only (Some quote) false) in
  is_anchored r = true /\ r.(ar_ambiguous) = false /\ r.(ar_start) = Some s /\ r.(ar_end) = Some e.
Proof.
  destruct (captureQuote sample_text 23 32) as [quote|] eqn:E; [|vm_compute in E; discriminate E].
  assert (Hq : captureQuote sample_text 23 32 = Some quote) by exact E.
  apply (captured_quote_resolves sample_text sample_space) in E as (s & e & Ht & H); [|reflexivity|apply plain_textb; vm_compute; reflexivity|vm_compute; lia].
  exists quote, s, e. split; [reflexivity|]. split; [exact Ht|]. cbv zeta.
  assert (Hr : (e - s <= 9)%nat) by (destruct Ht as [Hb _ _ _ _]; lia).
  vm_compute in Hq. injection Hq as Hq. subst quote.
  destruct H as (H1 & _ & H2 & _); [lia|vm_compute; lia|].
  match type of H2 with ?amb = false -> _ => assert (Ha : amb = false) by (vm_compute; reflexivity) end.
  destruct (H2 Ha) as [H3 H4]. split; [exact H1|]. split; [exact Ha|]. split; [exact H3|exact H4].
Defined.

(** ** What the conditions are for *)

(** A selection longer than [QUOTE_EXACT_MAX]: the suffix is the text after the
    selection, and is compared with the text after the quote, which was cut. *)
Definition long_text : list Z := ((fun i => 97 + Z.of_nat (i / 100) mod 26) <$> seq 0 2100) ++ to_utf16 " and the end of the text".

Lemma long_quote_conflicts : match captureQuote long_text 0 2100 with
  | Some quote => (resolveAnchor (sourceTextSpace long_text) (quote_only (Some quote) false)).(ar_status)
  | None => Lost
  end = Moved.
Proof. by vm_compute. Qed.

(** A link that ends in the saved prefix and begins before it. *)
Definition link_text : list Z := to_utf16 "[docs](https://example.com/very/long/path) see the note here".

Lemma link_prefix_conflicts : match captureQuote link_text 51 55 with
  | Some quote => Some (quote.(aq_exact), (resolveAnchor (sourceTextSpace link_text) (quote_only (Some quote) false)).(ar_status))
  | None => None
  end = Some (to_utf16 "note", Moved).
Proof. by vm_compute. Qed.
