(* ===== verification/AnchorLines.v ===== *)
(** * Lines and offsets of a source text: [sourceTextSpace] of live/src/lib/comment-anchor.ts

    The binary search of [offsetToLine] counts the newlines before an offset, and
    [lineRangeToOffsets] answers the span from the start of the first line to the
    end of the last. *)

From S2P Require Import Prelude JsString Text Utf16 Chunker Anchor.

Definition newlines (t : list Z) : nat := length (filter (fun u => u = 10) t).

Lemma newlines_app a b : newlines (a ++ b) = (newlines a + newlines b)%nat.
Proof. unfold newlines. by rewrite filter_app, length_app. Qed.

Lemma newlines_cons u t : newlines (u :: t) = ((if decide (u = 10%Z) then 1 else 0) + newlines t)%nat.
Proof. unfold newlines. rewrite filter_cons. by destruct (decide _). Qed.

Lemma newlines_take t i j : (i <= j)%nat -> (newlines (take i t) <= newlines (take j t))%nat.
Proof.
  intros H. replace (take i t) with (take i (take j t)) by (rewrite take_take; f_equal; lia).
  rewrite <- (take_drop i (take j t)) at 2. rewrite newlines_app. lia.
Qed.

Lemma newlines_le t i : (newlines (take i t) <= newlines t)%nat.
Proof. rewrite <- (take_drop i t) at 2. rewrite newlines_app. lia. Qed.

Lemma newlines_take_S t j : t !! j = Some 10%Z -> newlines (take (S j) t) = S (newlines (take j t)).
Proof. intros H. rewrite (take_S_r _ _ _ H), newlines_app. change (newlines [10%Z]) with 1%nat. lia. Qed.

Lemma line_starts_lookup t : forall i k x, line_starts_from t i !! k = Some x ->
  exists j, x = S (i + j) /\ t !! j = Some 10%Z /\ newlines (take j t) = k.
Proof.
  induction t as [|u t IH]; intros i k x H; [done|]. cbn [line_starts_from] in H. destruct (Z.eqb_spec u 10) as [->|Hne]; cbn [app] in H.
  - destruct k as [|k]; [injection H as <-; exists 0%nat; split; [lia|done]|]. destruct (IH _ _ _ H) as (j & -> & Hj & <-).
    exists (S j). split; [lia|]. split; [done|]. cbn [take]. rewrite newlines_cons. by rewrite decide_True.
  - destruct (IH _ _ _ H) as (j & -> & Hj & <-). exists (S j). split; [lia|]. split; [done|]. cbn [take]. rewrite newlines_cons. by rewrite decide_False.
Qed.

Lemma line_starts_length t : forall i, length (line_starts_from t i) = newlines t.
Proof.
  induction t as [|u t IH]; intros i; [done|]. cbn [line_starts_from]. rewrite length_app, IH, newlines_cons.
  destruct (Z.eqb_spec u 10) as [->|Hne]; [by rewrite decide_True|by rewrite decide_False].
Qed.

Section Lines.
Context (text : list Z).

Lemma starts_length : length (lineStarts text) = S (newlines text).
Proof. unfold lineStarts. cbn. by rewrite line_starts_length. Qed.

(** Line [k + 1] starts after [k] newlines. *)
Lemma start_spec k : (k < length (lineStarts text))%nat -> let x := lineStarts text !!! k in
  (x <= length text)%nat /\ newlines (take x text) = k /\ (x = 0%nat \/ text !! (x - 1)%nat = Some 10%Z).
Proof.
  intros Hk x. destruct (lookup_lt_is_Some_2 _ _ Hk) as [y Hy]. subst x. rewrite (list_lookup_total_correct _ _ _ Hy). unfold lineStarts in Hy.
  destruct k as [|k]; [injection Hy as <-; split; [lia|]; split; [done|by left]|]. apply line_starts_lookup in Hy as (j & -> & Hj & Hn). cbn [Nat.add].
  pose proof (lookup_lt_Some _ _ _ Hj). split; [lia|]. rewrite newlines_take_S by done. split; [by f_equal|]. right. by replace (S j - 1)%nat with j by lia.
Qed.

Lemma start_before k : (S k < length (lineStarts text))%nat -> exists j, lineStarts text !!! S k = S j /\ text !! j = Some 10%Z /\ newlines (take j text) = k.
Proof.
  intros Hk. destruct (lookup_lt_is_Some_2 _ _ Hk) as [y Hy]. rewrite (list_lookup_total_correct _ _ _ Hy). unfold lineStarts in Hy.
  apply line_starts_lookup in Hy as (j & -> & Hj & Hn). by exists j.
Qed.

Lemma line_search_spec starts offset n : forall lo hi, (hi - lo <= n)%nat -> (lo <= hi < length starts)%nat -> (starts !!! lo <= offset)%nat ->
  (S hi = length starts \/ offset < starts !!! S hi)%nat ->
  let r := line_search n starts offset lo hi in
  (lo <= r <= hi)%nat /\ (starts !!! r <= offset)%nat /\ (S r = length starts \/ offset < starts !!! S r)%nat.
Proof.
  induction n as [|n IH]; intros lo hi Hn Hr Hlo Hhi; cbn [line_search].
  - replace hi with lo in * by lia. split; [lia|done].
  - destruct (Nat.ltb_spec lo hi) as [Hlt|Hge]; [|replace hi with lo in * by lia; split; [lia|done]].
    set (mid := Nat.div2 (lo + hi + 1)). assert (Hm : (lo < mid <= hi)%nat).
    { unfold mid. rewrite Nat.div2_div. pose proof (Nat.div_mod_eq (lo + hi + 1) 2). pose proof (Nat.mod_upper_bound (lo + hi + 1) 2). lia. }
    destruct (Nat.leb_spec (starts !!! mid) offset) as [Hle|Hgt].
    + destruct (IH mid hi) as (H1 & H2 & H3); [lia|lia|done|done|]. split; [lia|done].
    + destruct (IH lo (mid - 1)%nat) as (H1 & H2 & H3); [lia|lia|done|right; by replace (S (mid - 1)) with mid by lia|]. split; [lia|done].
Qed.

Lemma offsetToLine_counts offset : (offset <= length text)%nat -> offsetToLine text offset = Z.of_nat (S (newlines (take offset text))).
Proof.
  intros Ho. unfold offsetToLine. do 2 f_equal. pose proof starts_length as Hlen.
  destruct (line_search_spec (lineStarts text) offset (length (lineStarts text)) 0 (length (lineStarts text) - 1)) as (H1 & H2 & H3); [lia|lia| |left; lia|].
  { change (lineStarts text !!! 0%nat) with 0%nat. lia. }
  set (r := line_search _ _ _ _ _) in *. assert (Hr : (r < length (lineStarts text))%nat) by lia. destruct (start_spec r Hr) as (_ & Hn & _).
  apply Nat.le_antisymm; [rewrite <- Hn; by apply newlines_take|]. destruct H3 as [H3|H3].
  - assert (Hall : (newlines (take offset text) <= newlines text)%nat) by apply newlines_le. lia.
  - destruct (decide (S r < length (lineStarts text))%nat) as [Hlt|Hge].
    + destruct (start_before r Hlt) as (j & Hj & _ & <-). apply newlines_take. lia.
    + assert (Hall : (newlines (take offset text) <= newlines text)%nat) by apply newlines_le. lia.
Qed.

(** Line numbers and offsets agree.  The line of an offset is one more than
    the newlines before it; and the offsets of the lines [a] to [b] are the start of
    line [a] and the end of line [b], with both inside the text; beyond the last
    line there are none. *)
Theorem lines_and_offsets :
  (forall offset, (offset <= length text)%nat -> offsetToLine text offset = Z.of_nat (S (newlines (take offset text)))) /\
  (forall a b : nat, (1 <= a <= b)%nat -> (b <= S (newlines text))%nat -> exists s e,
     lineRangeToOffsets text (Z.of_nat a) (Z.of_nat b) = Some (s, e) /\ (s <= e <= length text)%nat /\
     (s = 0%nat \/ text !! (s - 1)%nat = Some 10%Z) /\ (e = length text \/ text !! e = Some 10%Z) /\
     offsetToLine text s = Z.of_nat a /\ offsetToLine text e = Z.of_nat b) /\
  (forall a b, (Z.of_nat (S (newlines text)) < a)%Z -> lineRangeToOffsets text a b = None).
Proof.
  split; [exact offsetToLine_counts|]. pose proof starts_length as Hlen. split.
  - intros a b Hab Hb. unfold lineRangeToOffsets. rewrite Hlen. rewrite (proj2 (Z.ltb_ge _ _)) by lia.
    replace (Z.max 1 (Z.of_nat a)) with (Z.of_nat a) by lia. rewrite Z.max_r by lia. rewrite Z.min_r by lia.
    replace (Z.to_nat (Z.of_nat a - 1)) with (a - 1)%nat by lia. rewrite Nat2Z.id.
    destruct (start_spec (a - 1)) as (Hs1 & Hs2 & Hs3); [lia|]. set (s := lineStarts text !!! (a - 1)%nat) in *.
    assert (Hsl : offsetToLine text s = Z.of_nat a) by (rewrite offsetToLine_counts, Hs2 by done; lia).
    destruct (Z.ltb_spec (Z.of_nat b) (Z.of_nat (S (newlines text)))) as [Hlt|Hge].
    + destruct (start_before (b - 1)) as (j & Hj & Hj2 & Hj3); [lia|]. replace (S (b - 1)) with b in Hj by lia. rewrite Hj. cbn [Nat.sub]. rewrite Nat.sub_0_r.
      pose proof (lookup_lt_Some _ _ _ Hj2). exists s, j. split; [done|]. split.
      { split; [|lia]. destruct (decide (s <= j)%nat) as [|Hgt]; [done|exfalso]. pose proof (newlines_take text (S j) s ltac:(lia)) as Hc.
        rewrite newlines_take_S, Hs2 in Hc by done. lia. }
      split; [done|]. split; [by right|]. split; [done|]. rewrite offsetToLine_counts by lia. lia.
    + exists s, (length text). split; [done|]. split; [lia|]. split; [done|]. split; [by left|]. split; [done|].
      rewrite offsetToLine_counts, firstn_all by lia. lia.
  - intros a b Ha. unfold lineRangeToOffsets. rewrite Hlen. by rewrite (proj2 (Z.ltb_lt _ _)) by lia.
Qed.
End Lines.
