(* ===== verification/PathMigration.v ===== *)
(** * The migration of stored paths: core/src/db/path-normalization-migration.ts

    Old clients stored some paths without their leading slash.  The daemon moves
    every row of such a bare path to its canonical path and, where both forms
    have a history, merges the two: the versions are numbered again by creation
    time, in two passes so that the unique index never sees a number twice.

    The state is the database with the two full-text tables that older layouts
    may still have, and the summary the migration counts up.  [LIKE '/%'] is
    [starts_with "/"].  The order in which [localeCompare] puts the paths is a
    parameter; nothing depends on it.  The log line is left out: the skipped
    paths it would name are [mg_skipped]. *)

From S2P Require Import Prelude JsString Errors Paths Schema JsMap Search Versioning.

(** ** Data *)

Record PathNormalizationMigrationSummary : Type := {
  renamedPaths : Z;
  mergedPaths : Z;
  versionsRenumbered : Z;
  commentsRemapped : Z;
  skippedPaths : Z
}.

Record BarePath : Type := { bp_driveId : string; bp_path : string }.

(** A row of a full-text table that keeps its own content. *)
Record FtsRow : Type := { fts_rowid : Z; fts_driveId : string; fts_path : string; fts_content : string }.

(** [files_fts] in its old layout, and [files_fts_legacy]. *)
Inductive FtsName : Type := InternalFts | LegacyFts.

Record VirtualFtsTable : Type := { vt_name : FtsName; vt_rowIdsByPath : gmap string (list Z) }.

Record FtsTables : Type := { ft_internal : option VirtualFtsTable; ft_legacy : option VirtualFtsTable }.

(** The database file, and the variables of a run.  A full-text table that does
    not exist is [None]. *)
Record Mig : Type := {
  mg_db : Db;
  mg_internal : option (list FtsRow);
  mg_legacy : option (list FtsRow);
  mg_summary : PathNormalizationMigrationSummary;
  mg_skipped : list BarePath
}.

#[export] Instance Summary_eta : Eta PathNormalizationMigrationSummary := fun r =>
  Build_PathNormalizationMigrationSummary r.(renamedPaths) r.(mergedPaths) r.(versionsRenumbered)
    r.(commentsRemapped) r.(skippedPaths).
#[export] Instance FtsRow_eta : Eta FtsRow := fun r =>
  Build_FtsRow r.(fts_rowid) r.(fts_driveId) r.(fts_path) r.(fts_content).
#[export] Instance Mig_eta : Eta Mig := fun r =>
  Build_Mig r.(mg_db) r.(mg_internal) r.(mg_legacy) r.(mg_summary) r.(mg_skipped).

Definition MigM (A : Type) : Type := M error Mig A.

Definition no_progress : PathNormalizationMigrationSummary :=
  {| renamedPaths := 0; mergedPaths := 0; versionsRenumbered := 0; commentsRemapped := 0; skippedPaths := 0 |}.

(** A statement on the database file. *)
Definition sql {A} (m : DbM A) : MigM A := on mg_db (fun db s => s <| mg_db := db |>) m.

(** ** Statements *)

Definition is_bare (path : string) : bool := negb (starts_with "/" path).

(** An UPDATE of a table with a unique index: SQLite checks the index at every
    row it writes. *)
Fixpoint update_rows {R K} `{EqDecision K} (key : R -> K) (P : R -> Prop) `{forall r, Decision (P r)}
    (f : R -> R) (past todo : list R) : option (list R) :=
  match todo with
  | [] => Some past
  | r :: todo' =>
      if decide (P r)
      then if bool_decide (key (f r) ∈ key <$> (past ++ todo')) then None
           else update_rows key P f (past ++ [f r]) todo'
      else update_rows key P f (past ++ [r]) todo'
  end.

Definition update_unique {R K} `{EqDecision K} (key : R -> K) (columns : string)
    (P : R -> Prop) `{forall r, Decision (P r)} (f : R -> R) (t : list R) : outcome error (list R) :=
  match update_rows key P f [] t with
  | Some t' => Ok t'
  | None => Throw (sqlite_unique columns)
  end.

Definition file_key (f : File) : string * string := (f.(file_path), f.(file_driveId)).
Definition version_key (v : FileVersion) : string * string * Z := (v.(fv_path), v.(fv_driveId), v.(fv_version)).

Definition update_files (P : File -> Prop) `{forall r, Decision (P r)} (f : File -> File) : DbM unit :=
  fun db => match update_unique file_key "files.path, files.drive_id" P f db.(files) with
            | Ok t => (Ok tt, db <| files := t |>)
            | Throw e => (Throw e, db)
            end.

Definition update_file_versions (P : FileVersion -> Prop) `{forall r, Decision (P r)}
    (f : FileVersion -> FileVersion) : DbM unit :=
  fun db => match update_unique version_key
                    "file_versions.path, file_versions.drive_id, file_versions.version" P f db.(fileVersions) with
            | Ok t => (Ok tt, db <| fileVersions := t |>)
            | Throw e => (Throw e, db)
            end.

Definition update_docs (P : string * string * string -> Prop) `{forall r, Decision (P r)}
    (f : string * string * string -> string * string * string) : DbM unit :=
  fun db => match update_unique fst "files_fts_docs.drive_id, files_fts_docs.path" P f db.(fts_docs) with
            | Ok t => (Ok tt, db <| fts_docs := t |>)
            | Throw e => (Throw e, db)
            end.

Definition is_comment_at (driveId path : string) (c : Comment_) : Prop :=
  c.(com_driveId) = driveId /\ c.(com_path) = path.
#[export] Instance is_comment_at_dec d p c : Decision (is_comment_at d p c).
Proof. unfold is_comment_at. apply _. Defined.

Definition is_share_at (driveId path : string) (s : Share) : Prop :=
  s.(share_driveId) = driveId /\ s.(share_path) = path.
#[export] Instance is_share_at_dec d p s : Decision (is_share_at d p s).
Proof. unfold is_share_at. apply _. Defined.

Definition is_chunk_at (driveId path : string) (c : ContentChunk) : Prop :=
  c.(chunk_driveId) = driveId /\ c.(chunk_filePath) = path.
#[export] Instance is_chunk_at_dec d p c : Decision (is_chunk_at d p c).
Proof. unfold is_chunk_at. apply _. Defined.

(** ** The bare paths *)

Definition path_key (driveId path : string) : string := driveId +:+ String nul path.

(** The rows of the six queries, in their order. *)
Definition bare_rows (db : Db) : list BarePath :=
  filter (fun b => is_bare b.(bp_path) = true)
    (((fun f => Build_BarePath f.(file_driveId) f.(file_path)) <$> db.(files))
     ++ ((fun v => Build_BarePath v.(fv_driveId) v.(fv_path)) <$> db.(fileVersions))
     ++ ((fun c => Build_BarePath c.(com_driveId) c.(com_path)) <$> db.(comments))
     ++ ((fun s => Build_BarePath s.(share_driveId) s.(share_path)) <$> db.(shares))
     ++ ((fun c => Build_BarePath c.(chunk_driveId) c.(chunk_filePath)) <$> db.(contentChunks))
     ++ ((fun d => Build_BarePath d.1.1 d.1.2) <$> db.(fts_docs))).

(** [String.prototype.localeCompare]. *)
Class Collation : Type := localeCompare : string -> string -> Z.

Definition collectBarePaths {coll : Collation} (db : Db) : list BarePath :=
  let seen := foldl (fun m b => jm_set (path_key b.(bp_driveId) b.(bp_path)) b m) [] (bare_rows db) in
  sort_by (fun a b =>
    let byDrive := localeCompare a.(bp_driveId) b.(bp_driveId) in
    if decide (byDrive = 0) then localeCompare a.(bp_path) b.(bp_path) <=? 0 else byDrive <=? 0)
    seen.*2.

Definition hasFileHistory (db : Db) (driveId path : string) : bool :=
  exists_row (is_file path driveId) db.(files) || exists_row (is_version path driveId) db.(fileVersions).

(** [normalizePath(path) === "/" + path && !path.includes("//")]. *)
Fixpoint has_double_slash (path : string) : bool :=
  match path with
  | EmptyString => false
  | String c rest => (bool_decide (c = slash) && starts_with "/" rest) || has_double_slash rest
  end.

Definition canSafelyPrefixBarePath (path : string) : bool :=
  bool_decide (normalizePath path = "/" +:+ path) && negb (has_double_slash path).

(** ** The index rows of a path *)

Definition deleteChunks (driveId path : string) : DbM unit :=
  chunks ← gets (fun db => filter (is_chunk_at driveId path) db.(contentChunks));
  _ ← for_each chunks (fun chunk =>
        modify (fun db => db <| chunk_vectors ::= delete_where (fun id => id = chunk.(chunk_id)) |>));
  modify (fun db => db <| contentChunks ::= delete_where (is_chunk_at driveId path) |>).

Definition reconcileChunks (driveId barePath canonicalPath : string) (preferCanonical : bool) : DbM bool :=
  let preferredPath := if preferCanonical then canonicalPath else barePath in
  let discardedPath := if preferCanonical then barePath else canonicalPath in
  hasPreferred ← gets (fun db => exists_row (is_chunk_at driveId preferredPath) db.(contentChunks));
  _ ← deleteChunks driveId discardedPath;
  _ ← when (negb preferCanonical && hasPreferred)
        (modify (fun db => db <| contentChunks ::= update_where (is_chunk_at driveId barePath)
                                   (fun c => c <| chunk_filePath := canonicalPath |>) |>));
  mret hasPreferred.

(** Called with [files_fts_docs] only. *)
Definition reconcilePathTable (driveId barePath canonicalPath : string) (preferCanonical : bool) : DbM bool :=
  let preferredPath := if preferCanonical then canonicalPath else barePath in
  let discardedPath := if preferCanonical then barePath else canonicalPath in
  hasPreferred ← gets (fun db => exists_row (is_doc driveId preferredPath) db.(fts_docs));
  _ ← modify (fun db => db <| fts_docs ::= delete_where (is_doc driveId discardedPath) |>);
  _ ← when (negb preferCanonical && hasPreferred)
        (update_docs (is_doc driveId barePath) (fun d => (driveId, canonicalPath, d.2)));
  mret hasPreferred.

Definition fts_rows (name : FtsName) (s : Mig) : list FtsRow :=
  match name with InternalFts => s.(mg_internal) | LegacyFts => s.(mg_legacy) end ?? [].

Definition write_fts (name : FtsName) (f : list FtsRow -> list FtsRow) : MigM unit :=
  modify (fun s => match name with
                   | InternalFts => s <| mg_internal ::= fmap f |>
                   | LegacyFts => s <| mg_legacy ::= fmap f |>
                   end).

Definition readVirtualFtsTable (name : FtsName) : MigM VirtualFtsTable :=
  gets (fun s => {| vt_name := name;
    vt_rowIdsByPath := foldl (fun m row =>
      let key := path_key row.(fts_driveId) row.(fts_path) in
      <[ key := (m !! key ?? []) ++ [row.(fts_rowid)] ]> m) (∅ : gmap string (list Z)) (fts_rows name s) |}).

Definition deleteFtsRow (name : FtsName) (rowid : Z) : MigM unit :=
  write_fts name (delete_where (fun r => r.(fts_rowid) = rowid)).

Definition reconcileVirtualFtsRows (table : VirtualFtsTable) (driveId barePath canonicalPath : string)
    (preferCanonical : bool) : MigM bool :=
  let preferredPath := if preferCanonical then canonicalPath else barePath in
  let discardedPath := if preferCanonical then barePath else canonicalPath in
  let preferredRowIds := table.(vt_rowIdsByPath) !! path_key driveId preferredPath ?? [] in
  let discardedRowIds := table.(vt_rowIdsByPath) !! path_key driveId discardedPath ?? [] in
  _ ← for_each discardedRowIds (deleteFtsRow table.(vt_name));
  _ ← when (negb preferCanonical) (for_each preferredRowIds (fun rowid =>
        write_fts table.(vt_name) (update_where (fun r => r.(fts_rowid) = rowid)
                                     (fun r => r <| fts_path := canonicalPath |>))));
  mret (bool_decide (preferredRowIds <> [])).

(** [if (table !== null) hasPreferred = reconcile(table) || hasPreferred]. *)
Definition reconcileOptionalTable (table : option VirtualFtsTable) (driveId barePath canonicalPath : string)
    (preferCanonical hasPreferred : bool) : MigM bool :=
  match table with
  | None => mret hasPreferred
  | Some t =>
      has ← reconcileVirtualFtsRows t driveId barePath canonicalPath preferCanonical;
      mret (has || hasPreferred)
  end.

Definition reconcileFtsRows (fts : FtsTables) (driveId barePath canonicalPath : string)
    (preferCanonical : bool) : MigM bool :=
  hasPreferred ← sql (reconcilePathTable driveId barePath canonicalPath preferCanonical);
  hasPreferred ← reconcileOptionalTable fts.(ft_internal) driveId barePath canonicalPath preferCanonical hasPreferred;
  reconcileOptionalTable fts.(ft_legacy) driveId barePath canonicalPath preferCanonical hasPreferred.

Definition deleteAllIndexRows (fts : FtsTables) (driveId barePath canonicalPath : string) : MigM unit :=
  _ ← sql (deleteChunks driveId barePath);
  _ ← sql (deleteChunks driveId canonicalPath);
  _ ← sql (modify (fun db => db <| fts_docs ::= delete_where (fun d =>
        is_doc driveId barePath d \/ is_doc driveId canonicalPath d) |>));
  for_each [fts.(ft_internal); fts.(ft_legacy)] (fun table =>
    match table with
    | None => mret tt
    | Some t =>
        for_each [barePath; canonicalPath] (fun path =>
          for_each (t.(vt_rowIdsByPath) !! path_key driveId path ?? []) (deleteFtsRow t.(vt_name)))
    end).

(** ** One path *)

(** The comments' [changes] are the rows that the UPDATE matched. *)
Definition renameBareOnlyPath (fts : FtsTables) (driveId barePath canonicalPath : string)
    (preferCanonical : bool) : MigM Z :=
  _ ← sql (update_files (is_file barePath driveId) (fun f => f <| file_path := canonicalPath |>));
  _ ← sql (update_file_versions (is_version barePath driveId) (fun v => v <| fv_path := canonicalPath |>));
  commentsRemapped ← gets (fun s =>
    Z.of_nat (length (filter (is_comment_at driveId barePath) s.(mg_db).(comments))));
  _ ← sql (modify (fun db => db <| comments ::= update_where (is_comment_at driveId barePath)
                                     (fun c => c <| com_path := canonicalPath |>) |>));
  _ ← sql (modify (fun db => db <| shares ::= update_where (is_share_at driveId barePath)
                                     (fun s => s <| share_path := canonicalPath |>) |>));
  _ ← sql (reconcileChunks driveId barePath canonicalPath preferCanonical);
  _ ← reconcileFtsRows fts driveId barePath canonicalPath preferCanonical;
  mret commentsRemapped.

(** [a.createdAt - b.createdAt || a.id - b.id]. *)
Definition version_le (a b : FileVersion) : bool :=
  if decide (a.(fv_createdAt) = b.(fv_createdAt)) then a.(fv_id) <=? b.(fv_id)
  else a.(fv_createdAt) <=? b.(fv_createdAt).

Definition readVersions (db : Db) (driveId barePath canonicalPath : string) : list FileVersion :=
  sort_by version_le
    (filter (fun v => is_version barePath driveId v \/ is_version canonicalPath driveId v) db.(fileVersions)).

Definition readFiles (db : Db) (driveId barePath canonicalPath : string) : list File :=
  filter (fun f => is_file barePath driveId f \/ is_file canonicalPath driveId f) db.(files).

(** [a[i]] with its index, from 0. *)
Definition with_index {A} (l : list A) : list (Z * A) := imap (fun i a => (Z.of_nat i, a)) l.

(** The two passes over the versions, and the ids whose number changes. *)
Definition renumberVersions (canonicalPath : string) (versions : list FileVersion) : MigM (list Z) :=
  let maxOldVersion := foldl (fun max row => Z.max max row.(fv_version)) 0 versions in
  _ ← for_each (with_index versions) (fun '(index, row) =>
        _ ← when (negb (bool_decide (row.(fv_version) = index + 1)))
              (modify (fun s => s <| mg_summary ::= fun m => m <| versionsRenumbered ::= Z.succ |> |>));
        sql (update_file_versions (fun v => v.(fv_id) = row.(fv_id)) (fun v =>
          v <| fv_path := canonicalPath |> <| fv_version := maxOldVersion + index + 1 |>)));
  _ ← for_each (with_index versions) (fun '(index, row) =>
        sql (update_file_versions (fun v => v.(fv_id) = row.(fv_id)) (fun v =>
          v <| fv_version := index + 1 |>)));
  mret ((fun e => e.2.(fv_id)) <$> filter (fun e => e.2.(fv_version) <> e.1 + 1) (with_index versions)).

(** Whether the loop over the comments counts one. *)
Definition comment_moves (canonicalPath : string) (changedVersionIds : list Z) (c : Comment_) : bool :=
  negb (bool_decide (c.(com_path) = canonicalPath))
  || match c.(com_fileVersionId) with Some v => bool_decide (v ∈ changedVersionIds) | None => false end.

(** The [reduce] that keeps the newest row, the first of equals. *)
Definition latest_file (files : list File) : option File :=
  foldl (fun latest row =>
    match latest with
    | None => Some row
    | Some l => if l.(file_modifiedAt) <? row.(file_modifiedAt) then Some row else Some l
    end) None files.

Definition source_file (latestVersion : option FileVersion) (files : list File) : option File :=
  match latestVersion with
  | Some v => match get_row (fun f => f.(file_path) = v.(fv_path)) files with
              | Some f => Some f
              | None => latest_file files
              end
  | None => latest_file files
  end.

(** [Math.min(...)]; [None] is infinity. *)
Definition min_of (l : list Z) : option Z :=
  foldr (fun a m => Some (match m with Some b => Z.min a b | None => a end)) None l.

(** The index rows of the winner, and what they make of its status. *)
Definition mergeIndex (fts : FtsTables) (driveId barePath canonicalPath : string)
    (isDeleted : bool) (winner : option string) (embeddingStatus : option EmbeddingStatus)
    : MigM (option EmbeddingStatus) :=
  if isDeleted
  then _ ← deleteAllIndexRows fts driveId barePath canonicalPath; mret embeddingStatus
  else
    let preferCanonical := bool_decide (winner = Some canonicalPath) in
    hasChunks ← sql (reconcileChunks driveId barePath canonicalPath preferCanonical);
    hasFts ← reconcileFtsRows fts driveId barePath canonicalPath preferCanonical;
    mret (match embeddingStatus with
          | None => None
          | Some status =>
              if negb hasFts || (negb hasChunks && negb (bool_decide (status = EsSkipped)))
              then Some EsPending else Some status
          end).

Definition mergeSplitPath (now : Z) (fts : FtsTables) (driveId barePath canonicalPath : string) : MigM unit :=
  versions ← gets (fun s => readVersions s.(mg_db) driveId barePath canonicalPath);
  files ← gets (fun s => readFiles s.(mg_db) driveId barePath canonicalPath);
  changedVersionIds ← renumberVersions canonicalPath versions;
  _ ← modify (fun s => s <| mg_summary ::= fun m => m <| commentsRemapped ::= Z.add (Z.of_nat (length
        (filter (fun c => comment_moves canonicalPath changedVersionIds c = true)
          (filter (fun c => is_comment_at driveId barePath c \/ is_comment_at driveId canonicalPath c)
             s.(mg_db).(comments))))) |> |>);
  _ ← sql (modify (fun db => db <| comments ::= update_where (is_comment_at driveId barePath)
                                     (fun c => c <| com_path := canonicalPath |>) |>));
  _ ← sql (modify (fun db => db <| shares ::= update_where (is_share_at driveId barePath)
                                     (fun s => s <| share_path := canonicalPath |>) |>));
  let latestVersion := last versions in
  let sourceFile := source_file latestVersion files in
  _ ← match get_row (fun f => f.(file_path) = canonicalPath) files with
      | None => sql (update_files (is_file barePath driveId) (fun f => f <| file_path := canonicalPath |>))
      | Some _ => sql (modify (fun db => db <| Schema.files ::= delete_where (is_file barePath driveId) |>))
      end;
  let fileCreatedAt := min_of ((file_createdAt <$> files) ++ (fv_createdAt <$> versions)) ?? ts_sec now in
  let size := (latestVersion ≫= fv_size) ?? (file_size <$> sourceFile) ?? 0 in
  let author := (fv_author <$> latestVersion) ?? (file_author <$> sourceFile) ?? "unknown" in
  let modifiedAt := (fv_createdAt <$> latestVersion) ?? (file_modifiedAt <$> sourceFile) ?? fileCreatedAt in
  let isDeleted := match latestVersion with
                   | Some v => bool_decide (v.(fv_operation) = OpDelete)
                   | None => (file_isDeleted <$> sourceFile) ?? false
                   end in
  let winner := match latestVersion with
                | Some v => Some v.(fv_path)
                | None => file_path <$> sourceFile
                end in
  embeddingStatus ← mergeIndex fts driveId barePath canonicalPath isDeleted winner
    (match sourceFile with Some f => f.(file_embeddingStatus) | None => Some EsPending end);
  sql (update_files (is_file canonicalPath driveId) (fun f =>
    f <| file_size := size |>
      <| file_contentType := sourceFile ≫= file_contentType |>
      <| file_author := author |>
      <| file_currentVersionId := match latestVersion with
                                  | Some _ => Some (pretty (Z.of_nat (length versions)))
                                  | None => sourceFile ≫= file_currentVersionId
                                  end |>
      <| file_createdAt := fileCreatedAt |>
      <| file_modifiedAt := modifiedAt |>
      <| file_isDeleted := isDeleted |>
      <| file_embeddingStatus := embeddingStatus |>)).

(** The body of the loop over the bare paths. *)
Definition migratePath (now : Z) (fts : FtsTables) (b : BarePath) : MigM unit :=
  let driveId := b.(bp_driveId) in
  let barePath := b.(bp_path) in
  if negb (canSafelyPrefixBarePath barePath)
  then modify (fun s => s <| mg_skipped ::= fun l => l ++ [b] |>
                          <| mg_summary ::= fun m => m <| skippedPaths ::= Z.succ |> |>)
  else
    let canonicalPath := "/" +:+ barePath in
    hasBareHistory ← gets (fun s => hasFileHistory s.(mg_db) driveId barePath);
    hasCanonicalHistory ← gets (fun s => hasFileHistory s.(mg_db) driveId canonicalPath);
    if hasBareHistory && hasCanonicalHistory
    then _ ← modify (fun s => s <| mg_summary ::= fun m => m <| mergedPaths ::= Z.succ |> |>);
         mergeSplitPath now fts driveId barePath canonicalPath
    else n ← renameBareOnlyPath fts driveId barePath canonicalPath (negb hasBareHistory && hasCanonicalHistory);
         modify (fun s => s <| mg_summary ::= fun m => m <| commentsRemapped ::= Z.add n |>
                                                         <| renamedPaths ::= Z.succ |> |>).

Definition runPathNormalizationMigration {coll : Collation} (now : Z)
    : MigM (option PathNormalizationMigrationSummary) :=
  _ ← modify (fun s => s <| mg_skipped := [] |> <| mg_summary := no_progress |>);
  transaction (
    internalFts ← gets (fun s => bool_decide (is_Some s.(mg_internal)));
    legacyFts ← gets (fun s => bool_decide (is_Some s.(mg_legacy)));
    barePaths ← gets (fun s => collectBarePaths s.(mg_db));
    if bool_decide (barePaths = []) then mret None
    else
      internal ← (if (internalFts : bool) then t ← readVirtualFtsTable InternalFts; mret (Some t) else mret None);
      legacy ← (if (legacyFts : bool) then t ← readVirtualFtsTable LegacyFts; mret (Some t) else mret None);
      let fts := {| ft_internal := internal; ft_legacy := legacy |} in
      _ ← for_each barePaths (migratePath now fts);
      summary ← gets mg_summary;
      mret (Some summary)).

(** packages/server/src/startup-migrations.ts: a failed migration is logged and tried at the next start. *)
Definition runPathNormalizationAtStartup {coll : Collation} (now : Z) : MigM unit :=
  try_catch (_ ← runPathNormalizationMigration now; mret tt) (fun _ => mret tt).
