(* ===== verification/PathMigrationSpec.v ===== *)
(** * What the migration of stored paths does

    On a well-formed database the migration never fails on a unique index, and
    afterwards only the paths it must skip are bare.  A history keeps its rows;
    merged histories are ordered by creation and numbered 1, 2, 3, ...; the file
    row of a merged path describes the newest version. *)

From S2P Require Import Prelude JsString Errors Paths Schema JsMap Search Versioning PathMigration.

(** ** UPDATEs of tables with a unique index *)

Section Unique.
Context {R K : Type} `{EqDecision K} (key : R -> K) (P : R -> Prop) `{Pdec : forall r, Decision (P r)} (f : R -> R).

Lemma update_rows_ok past todo :
  NoDup (key <$> past ++ todo) ->
  (forall r r', r ∈ todo -> P r -> r' ∈ past ++ todo -> key (f r) = key r' -> r' = r) ->
  (forall r r', r ∈ todo -> r' ∈ todo -> P r -> P r' -> key (f r) = key (f r') -> key r = key r') ->
  update_rows key P f past todo = Some (past ++ update_where P f todo) /\
  NoDup (key <$> past ++ update_where P f todo).
Proof.
  revert past. induction todo as [|r todo IH]; intros past Hnd Hfree Hinj; [cbn; by rewrite app_nil_r in *|].
  assert (Hsplit : forall x : R, past ++ x :: update_where P f todo = (past ++ [x]) ++ update_where P f todo)
    by (intros x; by rewrite <- app_assoc).
  cbn [update_rows update_where fmap list_fmap].
  change (list_fmap R R _ todo) with (update_where P f todo).
  assert (Hr : key r ∉ key <$> (past ++ todo)).
  { rewrite fmap_app in Hnd |- *. apply NoDup_app in Hnd as (_ & Hdis & Ht).
    apply NoDup_cons in Ht as [Ht _]. rewrite elem_of_app. intros [Hx|Hx]; [|done].
    apply (Hdis _ Hx). cbn. set_solver. }
  destruct (decide (P r)) as [HP|HP]; rewrite Hsplit.
  - rewrite bool_decide_eq_false_2.
    + apply IH.
      * rewrite <- app_assoc. cbn. rewrite fmap_app. cbn. apply NoDup_Permutation_proper with (key (f r) :: (key <$> past ++ todo)).
        { rewrite fmap_app. symmetry. apply Permutation_middle. }
        apply NoDup_cons. split.
        -- intros (x & Hx & Hin)%list_elem_of_fmap. apply Hr. rewrite list_elem_of_fmap. exists x. split; [|done].
           f_equal. symmetry. apply Hfree; [set_solver..|done].
        -- rewrite fmap_app in Hnd |- *. apply (NoDup_Permutation_proper _ (key r :: (key <$> past) ++ (key <$> todo))) in Hnd;
             [|cbn; symmetry; apply Permutation_middle]. by apply NoDup_cons in Hnd as [_ ?].
      * intros x y Hx HPx Hy Hk. rewrite <- app_assoc in Hy. apply elem_of_app in Hy as [Hy|Hy].
        { apply (Hfree x y); set_solver. }
        cbn in Hy. apply elem_of_cons in Hy as [->|Hy]; [|apply (Hfree x y); set_solver].
        exfalso. apply Hr. apply list_elem_of_fmap. exists x. split; [|set_solver].
        symmetry. apply Hinj; [set_solver..|done].
      * intros x y Hx Hy. apply Hinj; set_solver.
    + intros (x & Hx & Hin)%list_elem_of_fmap. apply Hr. rewrite list_elem_of_fmap. exists x. split; [|done].
      f_equal. symmetry. apply Hfree; [set_solver..|done].
  - apply IH.
    + by rewrite <- app_assoc.
    + intros x y Hx HPx Hy Hk. rewrite <- app_assoc in Hy. apply (Hfree x y); set_solver.
    + intros x y Hx Hy. apply Hinj; set_solver.
Qed.

Lemma update_unique_ok columns t :
  NoDup (key <$> t) ->
  (forall r r', r ∈ t -> P r -> r' ∈ t -> key (f r) = key r' -> r' = r) ->
  (forall r r', r ∈ t -> r' ∈ t -> P r -> P r' -> key (f r) = key (f r') -> key r = key r') ->
  update_unique key columns P f t = Ok (update_where P f t) /\ NoDup (key <$> update_where P f t).
Proof.
  intros Hnd Hfree Hinj. unfold update_unique.
  by destruct (update_rows_ok [] t Hnd Hfree Hinj) as [-> ?].
Qed.
End Unique.

(** An UPDATE of one row by its id is refused only if it makes two keys equal. *)
Lemma update_unique_by_id {R K I} `{EqDecision K, EqDecision I} (key : R -> K) (id : R -> I) columns i f (t : list R) :
  NoDup (id <$> t) -> (forall r, id (f r) = id r) -> NoDup (key <$> t) ->
  NoDup (key <$> update_where (fun r => id r = i) f t) ->
  update_unique key columns (fun r => id r = i) f t = Ok (update_where (fun r => id r = i) f t).
Proof.
  intros Hid Hf Hk Hk'. apply update_unique_ok; [done|..].
  - intros r r' Hr Hi Hr' He. apply (NoDup_fmap_eq id t); [done..|].
    destruct (decide (id r' = i)) as [|Hne]; [congruence|].
    rewrite <- (Hf r). f_equal. apply (NoDup_fmap_eq key _ _ _ Hk'); [| |done]; apply elem_of_update_where; eauto.
  - intros r r' Hr Hr' Hi Hi' _. f_equal. apply (NoDup_fmap_eq id t); congruence.
Qed.

(** ** The two passes over the versions *)

Section Pass.
Context (f : Z -> FileVersion -> FileVersion) (Hid : forall i v, (f i v).(fv_id) = v.(fv_id)).

(** The table after the updates of [es]: each row as the update of its id left it. *)
Definition assigned (es : list (Z * FileVersion)) (v : FileVersion) : FileVersion :=
  match get_row (fun e => e.2.(fv_id) = v.(fv_id)) es with Some e => f e.1 v | None => v end.

Lemma assigned_id es v : (assigned es v).(fv_id) = v.(fv_id).
Proof. unfold assigned. by destruct (get_row _ es). Qed.

Lemma assigned_snoc es e t :
  e.2.(fv_id) ∉ (fun e => e.2.(fv_id)) <$> es ->
  assigned (es ++ [e]) <$> t = update_where (fun v => v.(fv_id) = e.2.(fv_id)) (f e.1) (assigned es <$> t).
Proof.
  intros Hnot. unfold update_where. rewrite <- list_fmap_compose. apply list_fmap_ext. intros _ v _. cbn.
  rewrite assigned_id. unfold assigned. rewrite get_row_snoc.
  destruct (get_row _ es) as [e'|] eqn:E.
  - apply get_row_some in E as [Hin He]. rewrite decide_False; [done|]. intros Hv.
    apply Hnot, list_elem_of_fmap. exists e'. split; [congruence|done].
  - destruct (decide (e.2.(fv_id) = v.(fv_id))) as [Hv|Hv]; [by rewrite decide_True|]. rewrite decide_False; [done|congruence].
Qed.

Lemma pass_run (F : Z * FileVersion -> MigM unit) g es past t (s : Mig) :
  (forall e s db', update_file_versions (fun v => v.(fv_id) = e.2.(fv_id)) (f e.1) s.(mg_db) = (Ok tt, db') ->
    F e s = (Ok tt, s <| mg_summary ::= g e |> <| mg_db := db' |>)) ->
  NoDup (fv_id <$> t) -> NoDup ((fun e => e.2.(fv_id)) <$> past ++ es) ->
  (forall p q, past ++ es = p ++ q -> NoDup (version_key <$> (assigned p <$> t))) ->
  s.(mg_db).(fileVersions) = assigned past <$> t ->
  for_each es F s =
    (Ok tt, s <| mg_summary := foldl (fun m e => g e m) s.(mg_summary) es |>
              <| mg_db := s.(mg_db) <| fileVersions := assigned (past ++ es) <$> t |> |>).
Proof.
  intros HF Hids. revert past s. induction es as [|e es IH]; intros past s Hnd Hkeys Hs.
  - cbn. rewrite app_nil_r, <- Hs. by destruct s as [[] ? ? ? ?].
  - assert (Hrun : update_file_versions (fun v => v.(fv_id) = e.2.(fv_id)) (f e.1) s.(mg_db)
      = (Ok tt, s.(mg_db) <| fileVersions := assigned (past ++ [e]) <$> t |>)).
    { assert (Hnew : assigned (past ++ [e]) <$> t = update_where (fun v => v.(fv_id) = e.2.(fv_id)) (f e.1) (assigned past <$> t)).
      { apply assigned_snoc. rewrite fmap_app in Hnd. apply NoDup_app in Hnd as (_ & Hdis & _).
        intros Hin. apply (Hdis _ Hin). cbn. set_solver. }
      unfold update_file_versions. rewrite Hs.
      rewrite (update_unique_by_id version_key fv_id); [by rewrite <- Hnew|..].
      - replace (fv_id <$> (assigned past <$> t)) with (fv_id <$> t); [done|].
        rewrite <- list_fmap_compose. apply list_fmap_ext. intros _ v _. cbn. by rewrite assigned_id.
      - apply Hid.
      - by apply (Hkeys past (e :: es)).
      - rewrite <- Hnew. apply (Hkeys (past ++ [e]) es). by rewrite <- app_assoc. }
    cbn [for_each]. unfold mbind, M_bind at 1. rewrite (HF _ _ _ Hrun).
    rewrite (IH (past ++ [e])).
    + rewrite <- app_assoc. done.
    + by rewrite <- app_assoc.
    + intros p q Hpq. apply (Hkeys p q). by rewrite <- Hpq, <- app_assoc.
    + done.
Qed.
End Pass.

Lemma elem_of_entries {A} (l : list A) i a : (i, a) ∈ with_index l <-> exists n, i = Z.of_nat n /\ l !! n = Some a.
Proof.
  unfold with_index. rewrite elem_of_lookup_imap. split.
  - intros (n & y & [= -> ->] & Hn). eauto.
  - intros (n & -> & Hn). eauto.
Qed.

Lemma with_index_split {A} (l : list A) p q i a :
  with_index l = p ++ q -> (i, a) ∈ with_index l ->
  0 <= i /\ ((i, a) ∈ p -> i < Z.of_nat (length p)) /\ ((i, a) ∉ p -> Z.of_nat (length p) <= i).
Proof.
  intros Hpq Hin.
  assert (Hat : forall n x, with_index l !! n = Some x -> x.1 = Z.of_nat n).
  { intros n x. unfold with_index. rewrite list_lookup_imap. destruct (l !! n); cbn; [by intros [= <-]|done]. }
  split_and!.
  - apply elem_of_entries in Hin as (n & -> & _). lia.
  - intros (n & Hn)%list_elem_of_lookup_1. pose proof (lookup_lt_Some _ _ _ Hn).
    specialize (Hat n (i, a)). rewrite Hpq, lookup_app_l in Hat by done. specialize (Hat Hn). cbn in Hat. lia.
  - intros Hp. rewrite Hpq, elem_of_app in Hin. destruct Hin as [Hin|(n & Hn)%list_elem_of_lookup_1]; [done|].
    specialize (Hat (length p + n)%nat (i, a)). rewrite Hpq, lookup_app_r in Hat by lia.
    replace (length p + n - length p)%nat with n in Hat by lia. specialize (Hat Hn). cbn in Hat. lia.
Qed.

Lemma with_index_snd {A} (l : list A) : (with_index l).*2 = l.
Proof. unfold with_index. rewrite fmap_imap. cbn. apply list_eq. intros i. rewrite list_lookup_imap. by destruct (l !! i). Qed.

Lemma fold_max_bound (l : list FileVersion) m :
  m <= foldl (fun m r => Z.max m r.(fv_version)) m l /\
  (forall v, v ∈ l -> v.(fv_version) <= foldl (fun m r => Z.max m r.(fv_version)) m l).
Proof.
  revert m. induction l as [|a l IH]; intros m; cbn; [split; [lia|set_solver]|].
  destruct (IH (Z.max m a.(fv_version))) as [H1 H2]. split; [lia|].
  intros v [->|Hv]%elem_of_cons; [lia|by apply H2].
Qed.

(** A version of a merged history: its number is its rank among the versions [vs]. *)
Definition merged_version (canonicalPath : string) (vs : list FileVersion) (v : FileVersion) : FileVersion :=
  match get_row (fun e => e.2.(fv_id) = v.(fv_id)) (with_index vs) with
  | Some e => v <| fv_path := canonicalPath |> <| fv_version := e.1 + 1 |>
  | None => v
  end.

Section Renumber.
Context (d b c : string) (t vs : list FileVersion).
Definition in_group (v : FileVersion) : Prop := is_version b d v \/ is_version c d v.
Context (Hids : NoDup (fv_id <$> t)) (Hkeys : NoDup (version_key <$> t))
        (Hvs : forall v, v ∈ vs <-> in_group v /\ v ∈ t) (Hnd : NoDup (fv_id <$> vs)).

Let max := foldl (fun m r => Z.max m r.(fv_version)) 0 vs.
Let park i v := v <| fv_path := c |> <| fv_version := max + i + 1 |>.
Let number i v := v <| fv_version := i + 1 |>.

Lemma entry_of p q v :
  with_index vs = p ++ q -> v ∈ t ->
  match get_row (fun e => e.2.(fv_id) = v.(fv_id)) p with
  | Some e => e ∈ p /\ e ∈ with_index vs /\ e.2 = v /\ v ∈ vs
  | None => forall e, e ∈ p -> e.2 <> v
  end.
Proof.
  intros Hpq Hv. destruct (get_row _ p) as [e|] eqn:E.
  - apply get_row_some in E as [He Hi].
    assert (Hin : e ∈ with_index vs) by (rewrite Hpq; set_solver).
    assert (Hin2 : e.2 ∈ vs) by (rewrite <- (with_index_snd vs); by apply list_elem_of_fmap_2).
    assert (Heq : e.2 = v) by (apply (NoDup_fmap_eq fv_id t); [done|by apply Hvs|done..]).
    rewrite <- Heq. done.
  - intros e He <-. by apply (proj1 (get_row_none _ _) E e He).
Qed.

Lemma with_index_fun e e' : e ∈ with_index vs -> e' ∈ with_index vs -> e.2 = e'.2 -> e = e'.
Proof.
  destruct e as [i v], e' as [j v']. cbn. intros (n & -> & Hn)%elem_of_entries (m & -> & Hm)%elem_of_entries <-.
  f_equal. f_equal. assert (Hvs' : NoDup vs) by (by apply NoDup_fmap_1 in Hnd). by eapply NoDup_lookup.
Qed.

(** A row outside the group never has the key of a row that was moved. *)
Lemma group_apart v w n :
  v ∈ vs -> w ∈ t -> w ∉ vs -> version_key (v <| fv_path := c |> <| fv_version := n |>) <> version_key w.
Proof.
  intros Hv Hw Hn [= Hp Hd _]. apply Hn, Hvs. split; [|done]. right. split; [done|]. cbn in Hd. rewrite <- Hd.
  apply Hvs in Hv as [[[_ ?]|[_ ?]] _]; done.
Qed.

Lemma index_fun e e' : e ∈ with_index vs -> e' ∈ with_index vs -> e.1 = e'.1 -> e = e'.
Proof.
  destruct e as [i v], e' as [j v']. cbn. intros (n & -> & Hn)%elem_of_entries (m & -> & Hm)%elem_of_entries Hi.
  assert (n = m) as -> by lia. congruence.
Qed.

Lemma parked_keys p q : with_index vs = p ++ q -> NoDup (version_key <$> (assigned park p <$> t)).
Proof.
  intros Hpq. rewrite <- list_fmap_compose.
  eapply (NoDup_fmap_refine fv_id); [|done]. intros v w Hv Hw. cbn. unfold assigned.
  pose proof (entry_of p q v Hpq Hv) as Ev. pose proof (entry_of p q w Hpq Hw) as Ew.
  destruct (fold_max_bound vs 0) as [_ Hmax]. fold max in Hmax.
  assert (Hparked : forall i x y, (i, x) ∈ with_index vs -> x ∈ vs -> y ∈ t -> version_key (park i x) <> version_key y).
  { intros i x y Hi Hx Hy Hk.
    destruct (decide (is_version b d y \/ is_version c d y)) as [Hg|Hg];
      [assert (Hyv : y ∈ vs) by (by apply Hvs)
      |apply (group_apart x y (max + i + 1)); [done..| |done]; by intros [? _]%Hvs].
    injection Hk as _ _ Hver. cbn in Hver. specialize (Hmax y Hyv). apply elem_of_entries in Hi as (n & -> & _). lia. }
  destruct (get_row _ p) as [[i v']|]; [destruct Ev as (_ & Hev & <- & Hvin)|];
    (destruct (get_row _ p) as [[j w']|]; [destruct Ew as (_ & Hew & <- & Hwin)|]); cbn [fst snd] in *.
  - intros Hk. injection Hk as _ Hver. cbn in Hver. assert (i = j) as -> by lia.
    by pose proof (index_fun _ _ Hev Hew eq_refl) as [= ->].
  - intros Hk. by destruct (Hparked _ _ _ Hev Hvin Hw Hk).
  - intros Hk. by destruct (Hparked _ _ _ Hew Hwin Hv (eq_sym Hk)).
  - intros Hk. f_equal. by apply (NoDup_fmap_eq version_key t).
Qed.

(** The table between the second pass's updates of [p] and [q]. *)
Lemma assigned_park v : v ∈ t ->
  assigned park (with_index vs) v =
  match get_row (fun e => e.2.(fv_id) = v.(fv_id)) (with_index vs) with Some e => park e.1 v | None => v end.
Proof. done. Qed.

Lemma numbered_keys p q :
  with_index vs = p ++ q -> NoDup (version_key <$> (assigned number p <$> (assigned park (with_index vs) <$> t))).
Proof.
  intros Hpq. rewrite <- !list_fmap_compose.
  eapply (NoDup_fmap_refine fv_id); [|done]. intros v w Hv Hw.
  destruct (fold_max_bound vs 0) as [Hmax0 _]. fold max in Hmax0.
  assert (Hview : forall x, x ∈ t ->
    (exists i n, (i, x) ∈ with_index vs /\ x ∈ vs /\
       version_key (assigned number p (assigned park (with_index vs) x)) = version_key (x <| fv_path := c |> <| fv_version := n |>) /\
       (n = i + 1 /\ i < Z.of_nat (length p) \/ n = max + i + 1 /\ Z.of_nat (length p) <= i)) \/
    (x ∉ vs /\ version_key (assigned number p (assigned park (with_index vs) x)) = version_key x)).
  { intros x Hx. pose proof (entry_of (with_index vs) [] x (eq_sym (app_nil_r _)) Hx) as E.
    pose proof (entry_of p q x Hpq Hx) as Ep. unfold assigned at 2 4.
    destruct (get_row _ (with_index vs)) as [[i x']|] eqn:Ei; unfold assigned; cbn [fv_id update].
    - destruct E as (Hin & _ & <- & Hxvs). cbn [fst snd] in *. left. exists i.
      change (fv_id (park i x')) with (fv_id x').
      destruct (with_index_split vs p q i x' Hpq Hin) as (Hi0 & Hlt & Hge).
      destruct (get_row _ p) as [e|] eqn:Ep'.
      + destruct Ep as (Hep & Heall & He & _). pose proof (with_index_fun e (i, x') Heall Hin He) as ->.
        exists (i + 1). split_and!; [done..|]. left. auto.
      + exists (max + i + 1). split_and!; [done..|]. right. split; [done|]. apply Hge. intros Hp.
        by apply (Ep (i, x') Hp).
    - right. destruct (get_row _ p) as [e|] eqn:Ep'.
      + destruct Ep as (_ & Hin & He & _). by destruct (E e Hin).
      + split; [|done]. intros Hxvs. apply list_elem_of_lookup_1 in Hxvs as [n Hn].
        apply (E (Z.of_nat n, x)); [|done]. apply elem_of_entries. eauto. }
  cbn. destruct (Hview v Hv) as [(i & n & Hiv & Hvv & -> & Hn)|[Hvv ->]];
    destruct (Hview w Hw) as [(j & m & Hjw & Hww & -> & Hm)|[Hww ->]]; intros Hk.
  - injection Hk as _ Hver. cbn in Hver. assert (i = j) as -> by lia. by pose proof (index_fun _ _ Hiv Hjw eq_refl) as [= ->].
  - by destruct (group_apart v w n).
  - by destruct (group_apart w v m).
  - f_equal. by apply (NoDup_fmap_eq version_key t).
Qed.

Lemma both_passes :
  assigned number (with_index vs) <$> (assigned park (with_index vs) <$> t) = merged_version c vs <$> t.
Proof.
  rewrite <- list_fmap_compose. apply list_fmap_ext. intros _ v _. cbn.
  unfold assigned at 1. rewrite assigned_id by done. unfold assigned, merged_version.
  by destruct (get_row _ (with_index vs)).
Qed.

Lemma renumberVersions_run (s : Mig) :
  s.(mg_db).(fileVersions) = t ->
  exists ids m, renumberVersions c vs s =
    (Ok ids, s <| mg_summary := m |>
               <| mg_db := s.(mg_db) <| fileVersions := merged_version c vs <$> t |> |>).
Proof.
  intros Hs. unfold renumberVersions. fold max.
  assert (Hent : NoDup ((fun e => e.2.(fv_id)) <$> with_index vs)).
  { replace ((fun e => e.2.(fv_id)) <$> with_index vs) with (fv_id <$> (with_index vs).*2) by by rewrite <- list_fmap_compose.
    by rewrite with_index_snd. }
  unfold mbind, M_bind at 1.
  erewrite (pass_run park (fun _ _ => eq_refl) _
    (fun e m => if negb (bool_decide (e.2.(fv_version) = e.1 + 1)) then m <| versionsRenumbered ::= Z.succ |> else m)
    (with_index vs) [] t s);
    [|intros [i v] s' db' Hrun|done|done|intros p q; apply parked_keys|by rewrite Hs, list_fmap_id].
  2:{ unfold mbind, M_bind, when, modify, sql, on. cbn [fst snd] in *.
      unfold park in Hrun. destruct s' as [db0 ? ? ? ?]. change (mg_db (Build_Mig db0 _ _ _ _)) with db0 in Hrun.
      destruct (negb _); unfold mret, M_ret; cbv beta iota;
        match goal with |- context [update_file_versions _ _ ?x] => change x with db0 end; by rewrite Hrun. }
  unfold mbind, M_bind at 1.
  erewrite (pass_run number (fun _ _ => eq_refl) _ (fun _ m => m) (with_index vs) [] (assigned park (with_index vs) <$> t));
    [|intros [i v] s' db' Hrun| |done|intros p q; apply numbered_keys|by rewrite list_fmap_id].
  - cbn [app]. rewrite both_passes. do 2 eexists. unfold mret, M_ret. f_equal.
  - unfold sql, on. cbn [fst snd] in *. unfold number in Hrun. rewrite Hrun. by destruct s' as [[] ? ? ? ?].
  - replace (fv_id <$> (assigned park (with_index vs) <$> t)) with (fv_id <$> t); [done|].
    rewrite <- list_fmap_compose. apply list_fmap_ext. intros _ v _. cbn. by rewrite assigned_id.
Qed.
End Renumber.

(** ** The index rows of a path *)

(** Runs of [m], which never throw, end in states that [Q] relates to the start. *)
Definition runs {S A} (m : M error S A) (Q : S -> A -> S -> Prop) (s : S) : Prop :=
  exists a s', m s = (Ok a, s') /\ Q s a s'.

Lemma runs_bind {S A B} (m : M error S A) (k : A -> M error S B) Q R s :
  runs m Q s -> (forall a s', Q s a s' -> runs (k a) (fun _ b s'' => R s b s'') s') -> runs (m ≫= k) R s.
Proof.
  intros (a & s' & Hm & HQ) Hk. destruct (Hk a s' HQ) as (b & s'' & Hb & HR).
  exists b, s''. split; [|done]. unfold mbind, M_bind. by rewrite Hm.
Qed.

Lemma for_each_modify {E S A} (l : list A) (f : A -> S -> S) (s : S) :
  for_each l (fun a => modify (f a)) s = (Ok tt, foldl (fun s a => f a s) s l : S) :> outcome E unit * S.
Proof. revert s. induction l as [|a l IH]; intros s; [done|]. apply IH. Qed.

Definition chunks_after (d b c : string) (prefer : bool) (t : list ContentChunk) : list ContentChunk :=
  if prefer then delete_where (is_chunk_at d b) t
  else update_where (is_chunk_at d b) (fun r => r <| chunk_filePath := c |>) (delete_where (is_chunk_at d c) t).

Definition docs_after (d b c : string) (prefer : bool) (t : list (string * string * string)) :=
  if prefer then delete_where (is_doc d b) t
  else update_where (is_doc d b) (fun x => (d, c, x.2)) (delete_where (is_doc d c) t).

Lemma update_chunks_ext (db : Db) f g :
  f db.(contentChunks) = g db.(contentChunks) -> db <| contentChunks ::= f |> = db <| contentChunks ::= g |>.
Proof. intros H. cbv [update]. by rewrite H. Qed.

Lemma update_docs_ext (db : Db) f g :
  f db.(fts_docs) = g db.(fts_docs) -> db <| fts_docs ::= f |> = db <| fts_docs ::= g |>.
Proof. intros H. cbv [update]. by rewrite H. Qed.

Lemma deleteChunks_run d p db :
  exists vs, deleteChunks d p db =
    (Ok tt, db <| chunk_vectors := vs |> <| contentChunks ::= delete_where (is_chunk_at d p) |>).
Proof.
  unfold deleteChunks, mbind, M_bind, gets. rewrite for_each_modify.
  assert (Hfold : forall l (db : Db), exists vs,
    foldl (fun db (chunk : ContentChunk) => db <| chunk_vectors ::= delete_where (fun id => id = chunk.(chunk_id)) |>) db l
    = db <| chunk_vectors := vs |>).
  { induction l as [|a l IH]; intros db0; [exists db0.(chunk_vectors); by destruct db0|].
    cbn [foldl]. destruct (IH (db0 <| chunk_vectors ::= delete_where (fun id => id = a.(chunk_id)) |>)) as [vs ->].
    by exists vs. }
  destruct (Hfold (filter (is_chunk_at d p) db.(contentChunks)) db) as [vs ->]. by exists vs.
Qed.

Lemma reconcileChunks_run d b c prefer db :
  b <> c ->
  exists vs, reconcileChunks d b c prefer db =
    (Ok (exists_row (is_chunk_at d (if prefer then c else b)) db.(contentChunks)),
     db <| chunk_vectors := vs |> <| contentChunks ::= chunks_after d b c prefer |>).
Proof.
  intros Hbc. unfold reconcileChunks, mbind, M_bind at 1, gets.
  destruct (deleteChunks_run d (if prefer then b else c) db) as [vs Hd].
  unfold mbind, M_bind. rewrite Hd. exists vs.
  destruct prefer; cbn [negb andb when]; [done|].
  destruct (exists_row _ _) eqn:E; cbn [when]; [done|]. unfold mret, M_ret. f_equal.
  assert (Hnone : chunks_after d b c false db.(contentChunks) = delete_where (is_chunk_at d c) db.(contentChunks)).
  { unfold chunks_after. rewrite update_where_none; [done|]. intros r [Hr _]%elem_of_delete_where.
    by apply (proj1 (exists_row_false _ _) E). }
  by apply (update_chunks_ext (db <| chunk_vectors := vs |>)).
Qed.

Lemma reconcilePathTable_run d b c prefer db :
  b <> c -> NoDup (fst <$> db.(fts_docs)) ->
  reconcilePathTable d b c prefer db =
    (Ok (exists_row (is_doc d (if prefer then c else b)) db.(fts_docs)),
     db <| fts_docs ::= docs_after d b c prefer |>) /\
  NoDup (fst <$> docs_after d b c prefer db.(fts_docs)).
Proof.
  intros Hbc Hnd. unfold reconcilePathTable, mbind, M_bind, gets, modify.
  destruct prefer; cbn [negb andb when]; [split; [done|]; by apply NoDup_delete_where|].
  pose proof (NoDup_delete_where (is_doc d c) fst _ Hnd) as Hnd'.
  destruct (update_unique_ok fst (is_doc d b) (fun x => (d, c, x.2))
    "files_fts_docs.drive_id, files_fts_docs.path" _ Hnd') as [Hup Hafter].
  - intros x y Hx HPx [Hy Hyc]%elem_of_delete_where Hk. cbn in Hk. by destruct Hyc.
  - intros x y _ _ HPx HPy _. unfold is_doc in *. congruence.
  - split; [|done]. destruct (exists_row _ _) eqn:E; cbn [when].
    + unfold update_docs. cbn [fts_docs update]. unfold update in *. rewrite Hup. done.
    + unfold mret, M_ret. f_equal.
      assert (Hnone : docs_after d b c false db.(fts_docs) = delete_where (is_doc d c) db.(fts_docs)).
      { unfold docs_after. rewrite update_where_none; [done|]. intros r [Hr _]%elem_of_delete_where.
        by apply (proj1 (exists_row_false _ _) E). }
      by apply update_docs_ext.
Qed.

(** Steps on the full-text tables that keep their own content leave the database file. *)
Definition fts_only {A} (m : MigM A) : Prop :=
  forall s, runs m (fun s _ s' => s'.(mg_db) = s.(mg_db) /\ s'.(mg_skipped) = s.(mg_skipped)) s.

Lemma fts_only_ret {A} (a : A) : fts_only (mret a).
Proof. intros s. by exists a, s. Qed.

Lemma fts_only_bind {A B} (m : MigM A) (k : A -> MigM B) :
  fts_only m -> (forall a, fts_only (k a)) -> fts_only (m ≫= k).
Proof.
  intros Hm Hk s. eapply runs_bind; [apply Hm|]. intros a s' [Hdb Hsk].
  destruct (Hk a s') as (b & s'' & Hb & [Hdb' Hsk']). exists b, s''. by rewrite Hdb', Hsk'.
Qed.

Lemma fts_only_for_each {A} (l : list A) (f : A -> MigM unit) :
  (forall a, fts_only (f a)) -> fts_only (for_each l f).
Proof. intros Hf. induction l; [apply fts_only_ret|]. by apply fts_only_bind. Qed.

Lemma fts_only_when c (m : MigM unit) : fts_only m -> fts_only (when c m).
Proof. destruct c; [done|]. intros _. apply fts_only_ret. Qed.

Lemma fts_only_write name f : fts_only (write_fts name f).
Proof. intros s. exists tt. eexists. split; [done|]. by destruct name. Qed.

Create HintDb fts.
#[export] Hint Resolve fts_only_ret fts_only_bind fts_only_for_each fts_only_when fts_only_write : fts.

Lemma fts_only_optional t d b c prefer has : fts_only (reconcileOptionalTable t d b c prefer has).
Proof.
  destruct t as [t|]; cbn; [|apply fts_only_ret].
  apply fts_only_bind; [|eauto with fts]. unfold reconcileVirtualFtsRows, deleteFtsRow. auto with fts.
Qed.

(** Where the index has rows. *)
Definition index_paths (db : Db) : list (string * string) :=
  ((fun r => (r.(chunk_driveId), r.(chunk_filePath))) <$> db.(contentChunks)) ++ db.(fts_docs).*1.

(** What the migration of a path does not touch while it works on the index. *)
Definition rows (s : Mig) := (s.(mg_db).(files), s.(mg_db).(fileVersions), s.(mg_db).(comments), s.(mg_db).(shares), s.(mg_skipped)).

(** The index has left the bare path. *)
Record reindexed (d b c : string) (s s' : Mig) : Prop := {
  ri_rows : rows s' = rows s;
  ri_left : forall k, k ∈ index_paths s'.(mg_db) -> k = (d, c) \/ k ∈ index_paths s.(mg_db) /\ k <> (d, b);
  ri_docs : NoDup s'.(mg_db).(fts_docs).*1
}.

Lemma mig_bind_run {S A B} (m : M error S A) (k : A -> M error S B) s a s' :
  m s = (Ok a, s') -> (m ≫= k) s = k a s'.
Proof. unfold mbind, M_bind. by intros ->. Qed.

Lemma sql_run {A} (m : DbM A) a db' (s : Mig) :
  m s.(mg_db) = (Ok a, db') -> sql m s = (Ok a, s <| mg_db := db' |>).
Proof. unfold sql, on. by intros ->. Qed.

Lemma docs_after_left d b c prefer t k :
  b <> c -> k ∈ (docs_after d b c prefer t).*1 -> k = (d, c) \/ k ∈ t.*1 /\ k <> (d, b).
Proof.
  intros Hbc (x & -> & Hx)%list_elem_of_fmap. unfold docs_after in Hx. destruct prefer.
  - apply elem_of_delete_where in Hx as [Hx Hn]. right. split; [by apply list_elem_of_fmap_2|done].
  - apply elem_of_update_where in Hx as (y & [Hy Hyc]%elem_of_delete_where & [[_ ->]|[Hn ->]]); [by left|].
    right. split; [by apply list_elem_of_fmap_2|done].
Qed.

Lemma chunks_after_left d b c prefer t r :
  b <> c -> r ∈ chunks_after d b c prefer t ->
  (r.(chunk_driveId), r.(chunk_filePath)) = (d, c) \/
  (exists r', r' ∈ t /\ (r'.(chunk_driveId), r'.(chunk_filePath)) = (r.(chunk_driveId), r.(chunk_filePath))) /\
  (r.(chunk_driveId), r.(chunk_filePath)) <> (d, b).
Proof.
  intros Hbc Hr. unfold chunks_after in Hr. destruct prefer.
  - apply elem_of_delete_where in Hr as [Hr Hn]. right. split; [eauto|]. intros [= ? ?]. by apply Hn.
  - apply elem_of_update_where in Hr as (y & [Hy Hyc]%elem_of_delete_where & [[[Hd _] ->]|[Hn ->]]).
    + left. cbn. by rewrite Hd.
    + right. split; [eauto|]. intros [= ? ?]. by apply Hn.
Qed.

(** Chunks and documents of a path are moved, or dropped, together. *)
Lemma reindex_run fts d b c prefer (s : Mig) :
  b <> c -> NoDup s.(mg_db).(fts_docs).*1 ->
  exists h1 s1 h2 s2,
    sql (reconcileChunks d b c prefer) s = (Ok h1, s1) /\ reconcileFtsRows fts d b c prefer s1 = (Ok h2, s2) /\
    reindexed d b c s s2 /\
    s2.(mg_db).(contentChunks) = chunks_after d b c prefer s.(mg_db).(contentChunks) /\
    s2.(mg_db).(fts_docs) = docs_after d b c prefer s.(mg_db).(fts_docs).
Proof.
  intros Hbc Hdocs. destruct (reconcileChunks_run d b c prefer s.(mg_db) Hbc) as [vs Hchunks].
  pose proof (sql_run _ _ _ s Hchunks) as Hchunks'. revert Hchunks'.
  set (s1 := s <| mg_db := _ |>).
  intros Hchunks'. destruct (reconcilePathTable_run d b c prefer s1.(mg_db) Hbc Hdocs) as [Htable Hnd].
  pose proof (sql_run _ _ _ s1 Htable) as Htable'. revert Htable'.
  set (s2 := s1 <| mg_db := _ |>). set (h := exists_row _ _). intros Htable'.
  destruct (fts_only_optional fts.(ft_internal) d b c prefer h s2) as (h1 & s3 & H1 & Hdb1 & Hsk1).
  destruct (fts_only_optional fts.(ft_legacy) d b c prefer h1 s3) as (h2 & s4 & H2 & Hdb2 & Hsk2).
  assert (Hfts : reconcileFtsRows fts d b c prefer s1 = (Ok h2, s4)).
  { unfold reconcileFtsRows. by rewrite (mig_bind_run _ _ _ _ _ Htable'), (mig_bind_run _ _ _ _ _ H1). }
  eexists _, s1, h2, s4. rewrite Hdb1 in Hdb2. split_and!; [exact Hchunks'|exact Hfts|split|by rewrite Hdb2..].
  - unfold rows. rewrite Hdb2, Hsk2, Hsk1. done.
  - rewrite Hdb2. intros k. unfold index_paths. rewrite !elem_of_app. intros [(r & -> & Hr)%list_elem_of_fmap|Hk].
    + destruct (chunks_after_left d b c prefer _ r Hbc Hr) as [|[(r' & Hr' & <-) Hn]]; [by left|].
      right. split; [|done]. left. by apply (list_elem_of_fmap_2 (fun r => (r.(chunk_driveId), r.(chunk_filePath)))).
    + destruct (docs_after_left d b c prefer _ k Hbc Hk) as [|[Hk' Hn]]; [by left|]. right. auto.
  - by rewrite Hdb2.
Qed.

Lemma deleteAllIndexRows_run fts d b c (s : Mig) :
  b <> c -> NoDup s.(mg_db).(fts_docs).*1 ->
  runs (deleteAllIndexRows fts d b c) (fun s _ s' => reindexed d b c s s') s.
Proof.
  intros Hbc Hdocs. unfold deleteAllIndexRows.
  destruct (deleteChunks_run d b s.(mg_db)) as [vs1 H1]. pose proof (sql_run _ _ _ s H1) as H1'. revert H1'.
  set (s1 := s <| mg_db := _ |>). intros H1'.
  destruct (deleteChunks_run d c s1.(mg_db)) as [vs2 H2]. pose proof (sql_run _ _ _ s1 H2) as H2'. revert H2'.
  set (s2 := s1 <| mg_db := _ |>). intros H2'.
  unfold runs. rewrite (mig_bind_run _ _ _ _ _ H1'), (mig_bind_run _ _ _ _ _ H2').
  erewrite (mig_bind_run (S := Mig)) by (apply sql_run; done). set (s3 := s2 <| mg_db := _ |>).
  assert (Hfts : fts_only (for_each [fts.(ft_internal); fts.(ft_legacy)] (fun table =>
    match table with
    | None => mret tt
    | Some t => for_each [b; c] (fun path =>
          for_each (t.(vt_rowIdsByPath) !! path_key d path ?? []) (deleteFtsRow t.(vt_name)))
    end : MigM unit))).
  { apply fts_only_for_each. intros [t|]; [|apply fts_only_ret]. unfold deleteFtsRow. auto with fts. }
  destruct (Hfts s3) as ([] & s4 & Hrun & Hdb & Hsk). do 2 eexists. split; [exact Hrun|]. split.
  - unfold rows. by rewrite Hdb, Hsk.
  - rewrite Hdb. intros k. unfold index_paths. rewrite !elem_of_app. intros [(r & -> & Hr)%list_elem_of_fmap|Hk]; right.
    + apply elem_of_delete_where in Hr as [[Hr Hb]%elem_of_delete_where Hc]. split.
      * left. by apply (list_elem_of_fmap_2 (fun r => (r.(chunk_driveId), r.(chunk_filePath)))).
      * intros [= ? ?]. by apply Hb.
    + apply list_elem_of_fmap in Hk as (x & -> & [Hx Hn]%elem_of_delete_where). split.
      * right. by apply list_elem_of_fmap_2.
      * intros Hx'. apply Hn. by left.
  - rewrite Hdb. by apply NoDup_delete_where.
Qed.

Lemma mergeIndex_run fts d b c deleted winner status (s : Mig) :
  b <> c -> NoDup s.(mg_db).(fts_docs).*1 ->
  runs (mergeIndex fts d b c deleted winner status) (fun s _ s' => reindexed d b c s s') s.
Proof.
  intros Hbc Hdocs. unfold mergeIndex. destruct deleted.
  - destruct (deleteAllIndexRows_run fts d b c s Hbc Hdocs) as ([] & s' & Hrun & Hri).
    unfold runs. rewrite (mig_bind_run _ _ _ _ _ Hrun). by do 2 eexists.
  - destruct (reindex_run fts d b c (bool_decide (winner = Some c)) s Hbc Hdocs) as (h1 & s1 & h2 & s2 & H1 & H2 & Hri & _).
    unfold runs. rewrite (mig_bind_run _ _ _ _ _ H1), (mig_bind_run _ _ _ _ _ H2). by do 2 eexists.
Qed.

(** ** One path *)

(** The unique indexes of the tables. *)
Record mig_wf (s : Mig) : Prop := {
  wf_files : NoDup (file_key <$> s.(mg_db).(files));
  wf_ids : NoDup (fv_id <$> s.(mg_db).(fileVersions));
  wf_versions : NoDup (version_key <$> s.(mg_db).(fileVersions));
  wf_docs : NoDup s.(mg_db).(fts_docs).*1
}.

(** The file rows once the bare one has given way to the canonical one. *)
Definition files_moved (d b c : string) (t : list File) : list File :=
  if exists_row (is_file c d) t then delete_where (is_file b d) t
  else update_where (is_file b d) (fun f => f <| file_path := c |>) t.

(** What migrating one path does: [g] is what a merge writes into the file row,
    [m] what becomes of the versions. *)
Record moved (d b c : string) (g : File -> File) (m : FileVersion -> FileVersion) (s s' : Mig) : Prop := {
  mv_files : s'.(mg_db).(files) = update_where (is_file c d) g (files_moved d b c s.(mg_db).(files));
  mv_versions : s'.(mg_db).(fileVersions) = m <$> s.(mg_db).(fileVersions);
  mv_comments : s'.(mg_db).(comments) =
    update_where (is_comment_at d b) (fun r => r <| com_path := c |>) s.(mg_db).(comments);
  mv_shares : s'.(mg_db).(shares) =
    update_where (is_share_at d b) (fun r => r <| share_path := c |>) s.(mg_db).(shares);
  mv_skipped : s'.(mg_skipped) = s.(mg_skipped);
  mv_index : forall k, k ∈ index_paths s'.(mg_db) -> k = (d, c) \/ k ∈ index_paths s.(mg_db) /\ k <> (d, b);
  mv_wf : mig_wf s'
}.

Definition renamed_version (d b c : string) (v : FileVersion) : FileVersion :=
  if decide (is_version b d v) then v <| fv_path := c |> else v.

Lemma files_moved_rename d b c t :
  NoDup (file_key <$> t) -> (forall r r', r ∈ t -> r' ∈ t -> is_file b d r -> ~ is_file c d r') ->
  files_moved d b c t = update_where (is_file b d) (fun f => f <| file_path := c |>) t.
Proof.
  intros Hnd Hone. unfold files_moved. destruct (exists_row _ t) eqn:E; [|done].
  apply exists_row_true in E as (r' & Hr' & Hc).
  assert (Hnone : forall r, r ∈ t -> ~ is_file b d r) by (intros r Hr Hb; by apply (Hone r r')).
  rewrite update_where_none by done. apply filter_all. intros x Hx. by apply Hnone.
Qed.

Lemma update_files_rename d b c (db : Db) :
  NoDup (file_key <$> db.(files)) ->
  (forall r r', r ∈ db.(files) -> r' ∈ db.(files) -> is_file b d r -> ~ is_file c d r') ->
  update_files (is_file b d) (fun f => f <| file_path := c |>) db =
    (Ok tt, db <| files := files_moved d b c db.(files) |>) /\
  NoDup (file_key <$> files_moved d b c db.(files)).
Proof.
  intros Hnd Hone. rewrite (files_moved_rename d b c _ Hnd Hone).
  destruct (update_unique_ok file_key (is_file b d) (fun f => f <| file_path := c |>)
    "files.path, files.drive_id" db.(files) Hnd) as [Hup Hafter].
  - intros r r' Hr HP Hr' Hk. injection Hk as Hp Hd. cbn in Hp, Hd. exfalso. apply (Hone r r' Hr Hr' HP).
    split; [done|]. destruct HP. congruence.
  - intros r r' _ _ [Hp Hd] [Hp' Hd'] _. unfold file_key. congruence.
  - split; [|done]. unfold update_files. by rewrite Hup.
Qed.

Lemma update_versions_rename d b c (db : Db) :
  NoDup (version_key <$> db.(fileVersions)) ->
  (forall r r', r ∈ db.(fileVersions) -> r' ∈ db.(fileVersions) -> is_version b d r -> ~ is_version c d r') ->
  update_file_versions (is_version b d) (fun v => v <| fv_path := c |>) db =
    (Ok tt, db <| fileVersions := renamed_version d b c <$> db.(fileVersions) |>) /\
  NoDup (version_key <$> (renamed_version d b c <$> db.(fileVersions))).
Proof.
  intros Hnd Hone.
  destruct (update_unique_ok version_key (is_version b d) (fun v => v <| fv_path := c |>)
    "file_versions.path, file_versions.drive_id, file_versions.version" db.(fileVersions) Hnd) as [Hup Hafter].
  - intros r r' Hr HP Hr' Hk. injection Hk as Hp Hd _. cbn in Hp, Hd. exfalso. apply (Hone r r' Hr Hr' HP).
    split; [done|]. destruct HP. congruence.
  - intros r r' _ _ [Hp Hd] [Hp' Hd'] Hk. injection Hk as _ Hv. unfold version_key. cbn in *. congruence.
  - split; [|done]. unfold update_file_versions. by rewrite Hup.
Qed.

Lemma hasFileHistory_false db d p :
  hasFileHistory db d p = false <->
  (forall f, f ∈ db.(files) -> ~ is_file p d f) /\ (forall v, v ∈ db.(fileVersions) -> ~ is_version p d v).
Proof. unfold hasFileHistory. by rewrite orb_false_iff, !exists_row_false. Qed.

Lemma renameBareOnlyPath_run fts d b c prefer (s : Mig) :
  b <> c -> mig_wf s -> hasFileHistory s.(mg_db) d b && hasFileHistory s.(mg_db) d c = false ->
  runs (renameBareOnlyPath fts d b c prefer) (fun s _ s' => moved d b c id (renamed_version d b c) s s') s.
Proof.
  intros Hbc [Hf Hi Hv Hd] Hone.
  assert (Hfiles : forall r r', r ∈ s.(mg_db).(files) -> r' ∈ s.(mg_db).(files) -> is_file b d r -> ~ is_file c d r').
  { intros r r' Hr Hr' HP HQ. apply andb_false_iff in Hone as [[H _]%hasFileHistory_false|[H _]%hasFileHistory_false];
      [by apply (H r)|by apply (H r')]. }
  assert (Hvers : forall r r', r ∈ s.(mg_db).(fileVersions) -> r' ∈ s.(mg_db).(fileVersions) ->
    is_version b d r -> ~ is_version c d r').
  { intros r r' Hr Hr' HP HQ. apply andb_false_iff in Hone as [[_ H]%hasFileHistory_false|[_ H]%hasFileHistory_false];
      [by apply (H r)|by apply (H r')]. }
  destruct (update_files_rename d b c s.(mg_db) Hf Hfiles) as [H1 Hf'].
  pose proof (sql_run _ _ _ s H1) as H1'. revert H1'. set (s1 := s <| mg_db := _ |>). intros H1'.
  destruct (update_versions_rename d b c s1.(mg_db) Hv Hvers) as [H2 Hv'].
  pose proof (sql_run _ _ _ s1 H2) as H2'. revert H2'. set (s2 := s1 <| mg_db := _ |>). intros H2'.
  unfold renameBareOnlyPath, runs. rewrite (mig_bind_run _ _ _ _ _ H1'), (mig_bind_run _ _ _ _ _ H2'). cbv beta.
  erewrite (mig_bind_run (S := Mig)) by done. cbv beta. do 2 (erewrite (mig_bind_run (S := Mig)) by (apply sql_run; done); cbv beta).
  set (s3 := update mg_db _ (update mg_db _ s2)).
  destruct (reindex_run fts d b c prefer s3 Hbc Hd) as (h1 & s4 & h2 & s5 & H4 & H5 & [Hrows Hleft Hdocs] & _).
  rewrite (mig_bind_run _ _ _ _ _ H4), (mig_bind_run _ _ _ _ _ H5).
  injection Hrows as Rf Rv Rc Rs Rk. do 2 eexists. split; [done|]. split.
  - rewrite Rf. unfold update_where. symmetry. rewrite <- list_fmap_id. apply list_fmap_ext. intros _ x _. by case_decide.
  - by rewrite Rv.
  - by rewrite Rc.
  - by rewrite Rs.
  - by rewrite Rk.
  - exact Hleft.
  - split; [by rewrite Rf| |by rewrite Rv|done]. rewrite Rv. cbn.
    replace (fv_id <$> (renamed_version d b c <$> s.(mg_db).(fileVersions))) with (fv_id <$> s.(mg_db).(fileVersions)); [done|].
    rewrite <- list_fmap_compose. apply list_fmap_ext. intros _ v _. cbn. unfold renamed_version. by case_decide.
Qed.

(** What a merge writes into the file row: the newest version's data. *)
Definition describes_newest (vs : list FileVersion) (g : File -> File) : Prop :=
  forall f, file_key (g f) = file_key f /\
    forall v, last vs = Some v ->
      (g f).(file_author) = v.(fv_author) /\ (g f).(file_modifiedAt) = v.(fv_createdAt) /\
      (g f).(file_currentVersionId) = Some (pretty (Z.of_nat (length vs))) /\
      (g f).(file_isDeleted) = bool_decide (v.(fv_operation) = OpDelete) /\
      (forall n, v.(fv_size) = Some n -> (g f).(file_size) = n).

Lemma elem_of_readVersions db d b c v :
  v ∈ readVersions db d b c <-> in_group d b c v /\ v ∈ db.(fileVersions).
Proof. unfold readVersions. by rewrite elem_of_sort_by, list_elem_of_filter. Qed.

Lemma readVersions_ids db d b c :
  NoDup (fv_id <$> db.(fileVersions)) -> NoDup (fv_id <$> readVersions db d b c).
Proof.
  intros Hnd. unfold readVersions. rewrite (sort_by_perm version_le). by apply NoDup_fmap_filter.
Qed.

Lemma merged_version_id c vs v : (merged_version c vs v).(fv_id) = v.(fv_id).
Proof. unfold merged_version. by destruct (get_row _ _). Qed.

(** The merged versions have distinct numbers. *)
Lemma merged_keys d b c t vs :
  NoDup (fv_id <$> t) -> NoDup (version_key <$> t) -> (forall v, v ∈ vs <-> in_group d b c v /\ v ∈ t) ->
  NoDup (fv_id <$> vs) -> NoDup (version_key <$> (merged_version c vs <$> t)).
Proof.
  intros Hi Hk Hvs Hnd. rewrite <- (both_passes c t vs).
  apply (numbered_keys d b c t vs Hi Hk Hvs Hnd (with_index vs) []). by rewrite app_nil_r.
Qed.

Lemma files_moved_keys d b c t :
  NoDup (file_key <$> t) -> NoDup (file_key <$> files_moved d b c t).
Proof.
  intros Hnd. unfold files_moved. destruct (exists_row _ t) eqn:E; [by apply NoDup_delete_where|].
  apply (update_unique_ok file_key (is_file b d) _ "" t Hnd).
  - intros r r' Hr HP Hr' Hk. injection Hk as Hp Hd. cbn in Hp, Hd. exfalso.
    apply (proj1 (exists_row_false _ _) E r' Hr'). split; [done|]. destruct HP. congruence.
  - intros r r' _ _ [Hp Hd] [Hp' Hd'] _. unfold file_key. congruence.
Qed.

Lemma update_file_row d c g (db : Db) :
  NoDup (file_key <$> db.(files)) -> (forall f, file_key (g f) = file_key f) ->
  update_files (is_file c d) g db = (Ok tt, db <| files ::= update_where (is_file c d) g |>) /\
  NoDup (file_key <$> update_where (is_file c d) g db.(files)).
Proof.
  intros Hnd Hg.
  destruct (update_unique_ok file_key (is_file c d) g "files.path, files.drive_id" db.(files) Hnd) as [Hup Hafter].
  - intros r r' Hr _ Hr' Hk. rewrite Hg in Hk. by apply (NoDup_fmap_eq file_key db.(files)).
  - intros r r' _ _ _ _. by rewrite !Hg.
  - split; [|done]. unfold update_files. by rewrite Hup.
Qed.

(** The statement that makes room at the canonical path. *)
Lemma merge_file_rows d b c (s : Mig) (db0 : Db) :
  s.(mg_db).(files) = db0.(files) -> NoDup (file_key <$> db0.(files)) -> b <> c ->
  (match get_row (fun f => f.(file_path) = c) (readFiles db0 d b c) with
   | None => sql (update_files (is_file b d) (fun f => f <| file_path := c |>))
   | Some _ => sql (modify (fun db => db <| files ::= delete_where (is_file b d) |>))
   end) s = (Ok tt, s <| mg_db ::= fun db => db <| files := files_moved d b c db0.(files) |> |>).
Proof.
  intros Hs Hnd Hbc.
  assert (Hcan : get_row (fun f => f.(file_path) = c) (readFiles db0 d b c) = None <->
                 exists_row (is_file c d) db0.(files) = false).
  { rewrite get_row_none, exists_row_false. unfold readFiles. split.
    - intros H f Hf [Hp Hd]. apply (H f); [|done]. apply list_elem_of_filter. split; [by right|done].
    - intros H f [[[Hp _]|Hf] Hin]%list_elem_of_filter Hc; [congruence|by apply (H f)]. }
  destruct (get_row _ _) as [f|] eqn:E.
  - unfold sql, on, modify, files_moved. destruct (exists_row _ db0.(files)); [|by destruct Hcan as [_ Hcan]; specialize (Hcan eq_refl)].
    rewrite <- Hs. by destruct s as [[] ? ? ? ?].
  - destruct (update_files_rename d b c s.(mg_db)) as [Hup _]; rewrite ?Hs; [done| |].
    + intros r r' _ Hr' _. by apply (proj1 (exists_row_false _ _) (proj1 Hcan eq_refl)).
    + rewrite (sql_run _ _ _ _ Hup), Hs. by destruct s as [[] ? ? ? ?].
Qed.

Lemma mergeSplitPath_run now fts d b c (s : Mig) :
  b <> c -> mig_wf s ->
  runs (mergeSplitPath now fts d b c) (fun s _ s' =>
    exists g, describes_newest (readVersions s.(mg_db) d b c) g /\
      moved d b c g (merged_version c (readVersions s.(mg_db) d b c)) s s') s.
Proof.
  intros Hbc [Hf Hi Hv Hd]. unfold mergeSplitPath, runs.
  erewrite (mig_bind_run (S := Mig)) by done. cbv beta. erewrite (mig_bind_run (S := Mig)) by done. cbv beta.
  set (vs := readVersions s.(mg_db) d b c). set (fs := readFiles s.(mg_db) d b c).
  pose proof (fun v => elem_of_readVersions s.(mg_db) d b c v) as Hvs. fold vs in Hvs.
  pose proof (readVersions_ids s.(mg_db) d b c Hi) as Hnd. fold vs in Hnd.
  destruct (renumberVersions_run d b c s.(mg_db).(fileVersions) vs Hi Hv Hvs Hnd s eq_refl) as (ids & m & Hrun).
  rewrite (mig_bind_run _ _ _ _ _ Hrun). cbv beta.
  erewrite (mig_bind_run (S := Mig)) by done. cbv beta.
  do 2 (erewrite (mig_bind_run (S := Mig)) by (apply sql_run; done); cbv beta).
  set (s3 := update mg_db _ (update mg_db _ _)).
  rewrite (mig_bind_run _ _ _ _ _ (merge_file_rows d b c s3 s.(mg_db) eq_refl Hf Hbc)). cbv beta zeta.
  match goal with |- context [(mergeIndex fts d b c ?del ?win ?st ≫= _) ?s0] =>
    destruct (mergeIndex_run fts d b c del win st s0 Hbc Hd) as (es & s4 & Hrun4 & [Hrows Hleft Hdocs]) end.
  rewrite (mig_bind_run _ _ _ _ _ Hrun4). cbv beta.
  injection Hrows as Rf Rv Rc Rs Rk.
  match goal with |- context [update_files (is_file c d) ?g0] => set (g := g0) end.
  assert (Hg : forall f, file_key (g f) = file_key f) by done.
  destruct (update_file_row d c g s4.(mg_db)) as [Hup Hkeys]; [rewrite Rf; by apply files_moved_keys|done|].
  rewrite (sql_run _ _ _ _ Hup). do 2 eexists. split; [done|]. exists g. split.
  - intros f. split; [done|]. intros v Hlast. unfold g. rewrite Hlast. cbn.
    split_and!; [done..|]. intros n Hn. by rewrite Hn.
  - split.
    + cbn. by rewrite Rf.
    + cbn. by rewrite Rv.
    + cbn. by rewrite Rc.
    + cbn. by rewrite Rs.
    + cbn. by rewrite Rk.
    + exact Hleft.
    + split; cbn.
      * done.
      * rewrite Rv. cbn. rewrite <- list_fmap_compose. erewrite list_fmap_ext; [exact Hi|].
        intros _ v _. apply merged_version_id.
      * rewrite Rv. by apply (merged_keys d b c).
      * done.
Qed.
