(* ===== verification/PathMigrationRun.v ===== *)
(** * Runs of the migration of stored paths

    The loop over the bare paths: PathMigrationSpec says what one path does; here
    a run is a sequence of such steps, and a step leaves every other path as it
    was.  The theorems: a run ends, keeps the unique indexes, leaves only the
    paths it skips bare, and is settled when run again; it keeps every recorded
    version under the same storage key, and orders and numbers merged histories. *)

From stdpp Require Import sorting.
From S2P Require Import Prelude JsString Errors Paths Schema JsMap Search Versioning PathMigration PathMigrationSpec.

(** ** The bare paths *)

Lemma path_key_inj d p d' p' :
  has_char nul d = false -> has_char nul d' = false -> path_key d p = path_key d' p' -> d = d' /\ p = p'.
Proof.
  unfold path_key. intros Hd Hd' Heq. pose proof (f_equal (split_on (fun c => bool_decide (c = nul))) Heq) as Hs.
  rewrite !split_on_app_sep, (split_on_no_sep nul d), (split_on_no_sep nul d') in Hs by done.
  cbn in Hs. injection Hs as -> _. split; [done|]. apply app_inj_l_str in Heq. congruence.
Qed.

(** No drive id holds the byte that separates it from the path in the keys. *)
Definition plain_drives (db : Db) : Prop :=
  forall b, b ∈ bare_rows db -> has_char nul b.(bp_driveId) = false.

Definition key_of_bare (b : BarePath) : string := path_key b.(bp_driveId) b.(bp_path).

Lemma seen_spec l m :
  let seen := foldl (fun m b => jm_set (path_key b.(bp_driveId) b.(bp_path)) b m) m l in
  jm_wf m -> (forall k x, (k, x) ∈ m -> k = key_of_bare x) ->
  jm_wf seen /\ (forall k x, (k, x) ∈ seen -> k = key_of_bare x /\ (x ∈ l \/ (k, x) ∈ m)) /\
  (forall x, x ∈ l -> key_of_bare x ∈ seen.*1) /\ (forall k, k ∈ m.*1 -> k ∈ seen.*1).
Proof.
  cbn. revert m. induction l as [|b l IH]; intros m Hwf Hm; [cbn; split_and!; [done|eauto|set_solver|done]|].
  cbn [foldl].
  assert (Hset : forall k x, (k, x) ∈ jm_set (key_of_bare b) b m -> k = key_of_bare x /\ (x = b \/ (k, x) ∈ m)).
  { intros k x Hin. apply (jm_get_elem _ _ _ (jm_wf_set (key_of_bare b) b m Hwf)) in Hin.
    rewrite jm_get_set in Hin. case_decide as Hk; [injection Hin as <-; auto|].
    apply (jm_get_elem _ _ _ Hwf) in Hin. auto. }
  destruct (IH (jm_set (key_of_bare b) b m)) as (H1 & H2 & H3 & H4).
  - by apply jm_wf_set.
  - intros k x Hin. by apply Hset.
  - assert (Hmono : forall k, k ∈ m.*1 \/ k = key_of_bare b -> k ∈ (jm_set (key_of_bare b) b m).*1).
    { intros k Hk. rewrite jm_set_keys. case_decide; set_solver. }
    split_and!; [done| | |].
    + intros k x Hin. destruct (H2 k x Hin) as [Hk [Hx|Hx]]; [set_solver|].
      apply Hset in Hx as [_ [->|Hx]]; set_solver.
    + intros x [->|Hx]%elem_of_cons; [|by apply H3]. apply H4, Hmono. by right.
    + intros k Hk. apply H4, Hmono. by left.
Qed.

Section Collect.
Context {coll : Collation}.

Lemma collectBarePaths_sound db b : b ∈ collectBarePaths db -> b ∈ bare_rows db.
Proof.
  unfold collectBarePaths. rewrite elem_of_sort_by. intros ([k x] & -> & Hx)%list_elem_of_fmap.
  destruct (seen_spec (bare_rows db) []) as (_ & H & _); [apply jm_wf_nil|set_solver|].
  destruct (H k x Hx) as [_ [?|?]]; set_solver.
Qed.

Lemma collectBarePaths_complete db b : plain_drives db -> b ∈ bare_rows db -> b ∈ collectBarePaths db.
Proof.
  intros Hd Hb. unfold collectBarePaths. rewrite elem_of_sort_by.
  destruct (seen_spec (bare_rows db) []) as (_ & H & Hall & _); [apply jm_wf_nil|set_solver|].
  apply Hall in Hb as Hk. apply list_elem_of_fmap in Hk as ([k x] & Hk & Hx). cbn in Hk.
  destruct (H k x Hx) as [-> [Hin|Hin]]; [|set_solver].
  apply path_key_inj in Hk as [Hd' Hp]; [|by apply Hd..].
  apply list_elem_of_fmap. exists (key_of_bare x, x). split; [|done]. destruct b, x; cbn in *; congruence.
Qed.

Lemma collectBarePaths_NoDup db : NoDup (collectBarePaths db).
Proof.
  unfold collectBarePaths. rewrite (sort_by_perm _).
  destruct (seen_spec (bare_rows db) []) as (Hwf & H & _); [apply jm_wf_nil|set_solver|].
  apply (NoDup_fmap_1 key_of_bare). rewrite <- list_fmap_compose.
  match goal with |- NoDup ?l => replace l with (foldl (fun m b => jm_set (path_key b.(bp_driveId) b.(bp_path)) b m) [] (bare_rows db)).*1; [done|] end.
  apply list_fmap_ext. intros _ [k x] Hin%list_elem_of_lookup_2. by destruct (H k x Hin) as [-> _].
Qed.

Lemma bare_rows_bare db b : b ∈ bare_rows db -> is_bare b.(bp_path) = true.
Proof. unfold bare_rows. by intros [? _]%list_elem_of_filter. Qed.
End Collect.

(** ** One step *)

Definition canonical_of (path : string) : string := "/" +:+ path.

Lemma bare_not_canonical b p : is_bare b = true -> b <> canonical_of p.
Proof. intros Hb ->. unfold canonical_of in Hb. by destruct p. Qed.

Lemma canonical_inj p p' : canonical_of p = canonical_of p' -> p = p'.
Proof. by intros [= ->]. Qed.

(** What one turn of the loop does to the tables. *)
Inductive migrate_step (b : BarePath) (s s' : Mig) : Prop :=
| StepSkip : canSafelyPrefixBarePath b.(bp_path) = false -> s'.(mg_db) = s.(mg_db) ->
    s'.(mg_skipped) = s.(mg_skipped) ++ [b] -> migrate_step b s s'
| StepRename : canSafelyPrefixBarePath b.(bp_path) = true ->
    hasFileHistory s.(mg_db) b.(bp_driveId) b.(bp_path)
      && hasFileHistory s.(mg_db) b.(bp_driveId) (canonical_of b.(bp_path)) = false ->
    moved b.(bp_driveId) b.(bp_path) (canonical_of b.(bp_path)) id
      (renamed_version b.(bp_driveId) b.(bp_path) (canonical_of b.(bp_path))) s s' -> migrate_step b s s'
| StepMerge g : canSafelyPrefixBarePath b.(bp_path) = true ->
    hasFileHistory s.(mg_db) b.(bp_driveId) b.(bp_path)
      && hasFileHistory s.(mg_db) b.(bp_driveId) (canonical_of b.(bp_path)) = true ->
    describes_newest (readVersions s.(mg_db) b.(bp_driveId) b.(bp_path) (canonical_of b.(bp_path))) g ->
    moved b.(bp_driveId) b.(bp_path) (canonical_of b.(bp_path)) g
      (merged_version (canonical_of b.(bp_path))
        (readVersions s.(mg_db) b.(bp_driveId) b.(bp_path) (canonical_of b.(bp_path)))) s s' -> migrate_step b s s'.

(** [moved] looks at the tables of the start only. *)
Lemma moved_start d b c g m s0 s s' :
  s0.(mg_db) = s.(mg_db) -> s0.(mg_skipped) = s.(mg_skipped) -> moved d b c g m s0 s' -> moved d b c g m s s'.
Proof. intros Hdb Hsk [H1 H2 H3 H4 H5 H6 H7]. rewrite Hdb in *. rewrite Hsk in *. by split. Qed.

Lemma moved_end d b c g m s s0 s' :
  s0.(mg_db) = s'.(mg_db) -> s0.(mg_skipped) = s'.(mg_skipped) -> moved d b c g m s s0 -> moved d b c g m s s'.
Proof.
  intros Hdb Hsk [H1 H2 H3 H4 H5 H6 [W1 W2 W3 W4]]. rewrite Hdb in *. rewrite Hsk in *. split; try done; by split.
Qed.

Lemma migratePath_run now fts b (s : Mig) :
  is_bare b.(bp_path) = true -> mig_wf s -> runs (migratePath now fts b) (fun s _ s' => migrate_step b s s') s.
Proof.
  intros Hb Hwf. destruct b as [d p]. cbn [bp_driveId bp_path] in *.
  pose proof (bare_not_canonical p p Hb) as Hbc.
  unfold migratePath. cbn [bp_driveId bp_path]. destruct (canSafelyPrefixBarePath p) eqn:Esafe; cbn [negb].
  2:{ do 2 eexists. split; [done|]. by apply StepSkip. }
  unfold runs. change ("/" +:+ p) with (canonical_of p).
  do 2 (erewrite (mig_bind_run (S := Mig)) by done; cbv beta).
  destruct (hasFileHistory s.(mg_db) d p && hasFileHistory s.(mg_db) d (canonical_of p)) eqn:Eh.
  - erewrite (mig_bind_run (S := Mig)) by done. cbv beta. set (s1 := update mg_summary _ s).
    destruct (mergeSplitPath_run now fts d p (canonical_of p) s1 Hbc) as ([] & s2 & Hrun & g & Hg & Hm); [by destruct Hwf|].
    do 2 eexists. split; [exact Hrun|]. apply (StepMerge _ _ _ g); [done..|]. by apply (moved_start _ _ _ _ _ s1).
  - destruct (renameBareOnlyPath_run fts d p (canonical_of p)
      (negb (hasFileHistory s.(mg_db) d p) && hasFileHistory s.(mg_db) d (canonical_of p)) s Hbc Hwf Eh)
      as (n & s2 & Hrun & Hm).
    rewrite (mig_bind_run _ _ _ _ _ Hrun). do 2 eexists. split; [done|]. apply StepRename; [done..|].
    by apply (moved_end _ _ _ _ _ _ s2).
Qed.

Lemma migrate_step_wf b s s' : mig_wf s -> migrate_step b s s' -> mig_wf s'.
Proof.
  intros [H1 H2 H3 H4] [_ Hdb _|_ _ []|g _ _ _ []]; [split; by rewrite Hdb|done..].
Qed.

(** The loop, as the sequence of its steps. *)
Inductive migrate_steps : list BarePath -> Mig -> Mig -> Prop :=
| StepsNil s : migrate_steps [] s s
| StepsCons b bs s1 s2 s3 : migrate_step b s1 s2 -> migrate_steps bs s2 s3 -> migrate_steps (b :: bs) s1 s3.

Lemma migrate_loop_run now fts bs (s : Mig) :
  (forall b, b ∈ bs -> is_bare b.(bp_path) = true) -> mig_wf s ->
  runs (for_each bs (migratePath now fts)) (fun s _ s' => migrate_steps bs s s' /\ mig_wf s') s.
Proof.
  revert s. induction bs as [|b bs IH]; intros s Hb Hwf.
  - exists tt, s. split; [done|]. split; [constructor|done].
  - destruct (migratePath_run now fts b s) as ([] & s1 & Hrun & Hstep); [set_solver|done|].
    destruct (IH s1) as ([] & s2 & Hrun2 & Hsteps & Hwf2); [set_solver|by eapply migrate_step_wf|].
    exists tt, s2. cbn [for_each]. rewrite (mig_bind_run _ _ _ _ _ Hrun). split; [done|]. split; [by econstructor|done].
Qed.

(** ** What a step leaves alone *)

(** [m] moves the versions of the two paths to [c] and keeps the others. *)
Definition moves_group (d b c : string) (m : FileVersion -> FileVersion) (t : list FileVersion) : Prop :=
  forall v, v ∈ t ->
    (in_group d b c v -> is_version c d (m v)) /\ (~ in_group d b c v -> m v = v) /\
    m v = v <| fv_path := (m v).(fv_path) |> <| fv_version := (m v).(fv_version) |>.

Lemma renamed_moves d b c t : moves_group d b c (renamed_version d b c) t.
Proof.
  intros v _. unfold renamed_version, in_group. case_decide as Hb; [|split_and!; [by intros [?|?]|done|by destruct v]].
  split_and!; [|tauto|by destruct v]. intros _. split; [done|]. apply Hb.
Qed.

Lemma merged_moves (db : Db) d b c :
  NoDup (fv_id <$> db.(fileVersions)) -> NoDup (version_key <$> db.(fileVersions)) ->
  moves_group d b c (merged_version c (readVersions db d b c)) db.(fileVersions).
Proof.
  intros Hi Hk v Hv. unfold merged_version.
  pose proof (entry_of d b c db.(fileVersions) (readVersions db d b c) Hi Hk
    (fun v => elem_of_readVersions db d b c v) (readVersions_ids db d b c Hi) (with_index _) [] v (eq_sym (app_nil_r _)) Hv) as E.
  destruct (get_row _ _) as [e|].
  - destruct E as (_ & _ & _ & Hin). apply elem_of_readVersions in Hin as [Hg _].
    split_and!; [|tauto|by destruct v]. intros _. split; [done|]. by destruct Hg as [[_ ?]|[_ ?]].
  - split_and!; [|done|by destruct v]. intros Hg. exfalso.
    assert (Hin : v ∈ readVersions db d b c) by (by apply elem_of_readVersions).
    apply list_elem_of_lookup_1 in Hin as [n Hn]. apply (E (Z.of_nat n, v)); [|done].
    apply elem_of_entries. eauto.
Qed.

(** The tables that hold a path. *)
Definition stored (db : Db) (d p : string) : Prop :=
  (exists f, f ∈ db.(files) /\ is_file p d f) \/ (exists v, v ∈ db.(fileVersions) /\ is_version p d v) \/
  (exists c, c ∈ db.(comments) /\ is_comment_at d p c) \/ (exists s, s ∈ db.(shares) /\ is_share_at d p s) \/
  (d, p) ∈ index_paths db.

Lemma elem_of_bare_rows db b :
  b ∈ bare_rows db <-> is_bare b.(bp_path) = true /\ stored db b.(bp_driveId) b.(bp_path).
Proof.
  unfold bare_rows, stored, index_paths. rewrite list_elem_of_filter. apply and_iff_compat_l.
  rewrite !elem_of_app, !list_elem_of_fmap. destruct b as [d p]. cbn.
  unfold is_file, is_version, is_comment_at, is_share_at. split.
  - intros [(x & [= -> ->] & H)|[(x & [= -> ->] & H)|[(x & [= -> ->] & H)|[(x & [= -> ->] & H)|[(x & [= -> ->] & H)|(x & [= -> ->] & H)]]]]].
    1-4: naive_solver.
    + do 4 right. left. eauto.
    + do 5 right. exists x. by destruct x as [[] ?].
  - intros [(x & H & <- & <-)|[(x & H & <- & <-)|[(x & H & <- & <-)|[(x & H & <- & <-)|[(x & [= -> ->] & H)|(x & Hx & H)]]]]].
    1-5: naive_solver.
    do 5 right. exists x. by rewrite <- Hx.
Qed.

Lemma moved_stored d b c g m s s' d' p' :
  b <> c -> (forall f, file_key (g f) = file_key f) -> moves_group d b c m s.(mg_db).(fileVersions) ->
  moved d b c g m s s' -> stored s'.(mg_db) d' p' ->
  (d', p') = (d, c) \/ stored s.(mg_db) d' p' /\ (d', p') <> (d, b).
Proof.
  intros Hbc Hg Hm [Hf Hv Hc Hs _ Hi _] [(f & H & HP)|[(v & H & HP)|[(x & H & HP)|[(x & H & HP)|H]]]].
  - assert (Hmoved : exists f0, f0 ∈ files_moved d b c s.(mg_db).(files) /\ is_file p' d' f0).
    { rewrite Hf in H. apply elem_of_update_where in H as (f0 & H0 & [[_ ->]|[_ ->]]); [|eauto].
      exists f0. split; [done|]. pose proof (Hg f0) as Hk. injection Hk as Hp Hd. destruct HP. split; congruence. }
    clear f H HP. destruct Hmoved as (f & H & HP). unfold files_moved in H. destruct (exists_row _ _).
    + apply elem_of_delete_where in H as [H Hn]. right. split; [left; eauto|]. intros [= -> ->]. by apply Hn.
    + apply elem_of_update_where in H as (f0 & H & [[[_ Hd] ->]|[Hn ->]]).
      * left. destruct HP as [Hp Hd']. cbn in *. congruence.
      * right. split; [left; eauto|]. intros [= -> ->]. by apply Hn.
  - rewrite Hv in H. apply list_elem_of_fmap in H as (v0 & -> & H0).
    destruct (Hm v0 H0) as (Hin & Hout & _).
    destruct (decide (is_version b d v0 \/ is_version c d v0)) as [Hgr|Hgr].
    + left. destruct (Hin Hgr), HP. congruence.
    + rewrite (Hout Hgr) in HP. right. split; [right; left; eauto|]. intros [= -> ->]. apply Hgr. by left.
  - rewrite Hc in H. apply elem_of_update_where in H as (x0 & H & [[[Hd _] ->]|[Hn ->]]).
    + left. destruct HP as [Hd' Hp]. cbn in *. congruence.
    + right. split; [do 2 right; left; eauto|]. intros [= -> ->]. by apply Hn.
  - rewrite Hs in H. apply elem_of_update_where in H as (x0 & H & [[[Hd _] ->]|[Hn ->]]).
    + left. destruct HP as [Hd' Hp]. cbn in *. congruence.
    + right. split; [do 3 right; left; eauto|]. intros [= -> ->]. by apply Hn.
  - destruct (Hi _ H) as [|[Hold Hn]]; [by left|]. right. split; [by do 4 right|done].
Qed.

(** A bare path that is stored after a step was stored before, and was not migrated. *)
Lemma step_bare b s s' x :
  is_bare b.(bp_path) = true -> mig_wf s -> migrate_step b s s' -> x ∈ bare_rows s'.(mg_db) ->
  x ∈ bare_rows s.(mg_db) /\ (x = b -> canSafelyPrefixBarePath b.(bp_path) = false).
Proof.
  intros Hb Hwf Hstep. rewrite !elem_of_bare_rows. intros [Hx Hst].
  assert (Hcase : forall g m, (forall f, file_key (g f) = file_key f) ->
    moves_group b.(bp_driveId) b.(bp_path) (canonical_of b.(bp_path)) m s.(mg_db).(fileVersions) ->
    moved b.(bp_driveId) b.(bp_path) (canonical_of b.(bp_path)) g m s s' ->
    (is_bare x.(bp_path) = true /\ stored s.(mg_db) x.(bp_driveId) x.(bp_path)) /\ x <> b).
  { intros g m Hg Hm Hmv. destruct (moved_stored _ _ _ _ _ _ _ _ _ (bare_not_canonical _ _ Hb) Hg Hm Hmv Hst)
      as [[= _ Hp]|[Hold Hn]].
    - exfalso. by apply (bare_not_canonical _ _ Hx Hp).
    - split; [done|]. intros ->. by apply Hn. }
  destruct Hstep as [Hsafe Hdb _|Hsafe _ Hmv|g Hsafe _ Hg Hmv].
  - rewrite Hdb in Hst. done.
  - destruct (Hcase _ _ (fun _ => eq_refl) (renamed_moves _ _ _ _) Hmv) as [? Hne]. split; [done|]. by intros ->.
  - destruct (Hcase _ _ (fun f => proj1 (Hg f)) (merged_moves _ _ _ _ (wf_ids s Hwf) (wf_versions s Hwf)) Hmv) as [? Hne].
    split; [done|]. by intros ->.
Qed.

(** ** Runs *)

Lemma steps_bare bs s s' x :
  (forall b, b ∈ bs -> is_bare b.(bp_path) = true) -> mig_wf s -> migrate_steps bs s s' ->
  x ∈ bare_rows s'.(mg_db) ->
  x ∈ bare_rows s.(mg_db) /\ (x ∈ bs -> canSafelyPrefixBarePath x.(bp_path) = false).
Proof.
  intros Hb Hwf Hsteps. induction Hsteps as [|b bs s1 s2 s3 Hstep Hsteps IH]; intros Hx; [set_solver|].
  destruct IH as [Hx2 Hsafe]; [set_solver|by eapply migrate_step_wf|done|].
  destruct (step_bare b s1 s2 x) as [Hx1 Hsafe1]; [set_solver|done..|]. split; [done|].
  intros [->|Hin]%elem_of_cons; auto.
Qed.

Lemma steps_skipped bs s s' :
  migrate_steps bs s s' ->
  s'.(mg_skipped) = s.(mg_skipped) ++ filter (fun b => canSafelyPrefixBarePath b.(bp_path) = false) bs.
Proof.
  induction 1 as [|b bs s1 s2 s3 Hstep _ ->]; [by rewrite app_nil_r|]. rewrite filter_cons.
  destruct Hstep as [Hsafe _ ->|Hsafe _ [_ _ _ _ -> _ _]|g Hsafe _ _ [_ _ _ _ -> _ _]].
  - by rewrite decide_True, <- app_assoc by done.
  - by rewrite decide_False by congruence.
  - by rewrite decide_False by congruence.
Qed.

Lemma steps_idle bs s s' :
  (forall b, b ∈ bs -> canSafelyPrefixBarePath b.(bp_path) = false) -> migrate_steps bs s s' ->
  s'.(mg_db) = s.(mg_db).
Proof.
  intros Hb. induction 1 as [|b bs s1 s2 s3 Hstep _ IH]; [done|]. rewrite IH by set_solver.
  assert (Hu : canSafelyPrefixBarePath b.(bp_path) = false) by set_solver.
  destruct Hstep; [done|congruence..].
Qed.

(** A run is the steps of the bare paths it collects. *)
Lemma migration_run {coll : Collation} now (s : Mig) :
  mig_wf s ->
  exists r s0 s', runPathNormalizationMigration now s = (Ok r, s') /\ mig_wf s' /\
    s0.(mg_db) = s.(mg_db) /\ s0.(mg_skipped) = [] /\ migrate_steps (collectBarePaths s.(mg_db)) s0 s' /\
    (r = None <-> collectBarePaths s.(mg_db) = []).
Proof.
  intros Hwf. unfold runPathNormalizationMigration.
  erewrite (mig_bind_run (S := Mig)) by done. cbv beta. set (s0 := update mg_summary _ (update mg_skipped _ s)).
  assert (Hwf0 : mig_wf s0) by (by destruct Hwf). unfold transaction.
  do 3 (rewrite (mig_bind_run (S := Mig) _ _ _ _ _ (eq_refl : gets _ s0 = _)); cbv beta).
  change (mg_db s0) with (mg_db s).
  destruct (decide (collectBarePaths s.(mg_db) = [])) as [E|E].
  { rewrite bool_decide_eq_true_2 by done. exists None, s0, s0. rewrite E. split_and!; [done..|constructor|done]. }
  rewrite bool_decide_eq_false_2 by done.
  assert (Hread : forall (c : bool) name, exists t,
    (if c then t ← readVirtualFtsTable name; mret (Some t) else mret None) s0 = (Ok t, s0)).
  { intros [] name; by eexists. }
  destruct (Hread (bool_decide (is_Some s0.(mg_internal))) InternalFts) as [t1 H1].
  destruct (Hread (bool_decide (is_Some s0.(mg_legacy))) LegacyFts) as [t2 H2].
  rewrite (mig_bind_run _ _ _ _ _ H1). cbv beta. rewrite (mig_bind_run _ _ _ _ _ H2). cbv beta zeta.
  destruct (migrate_loop_run now {| ft_internal := t1; ft_legacy := t2 |} (collectBarePaths s.(mg_db)) s0)
    as ([] & s' & Hrun & Hsteps & Hwf').
  { intros b Hb. apply (bare_rows_bare s.(mg_db)). by apply collectBarePaths_sound. }
  { done. }
  rewrite (mig_bind_run _ _ _ _ _ Hrun). exists (Some s'.(mg_summary)), s0, s'. by split_and!.
Qed.

(** Migrating the stored paths never fails on a unique index and keeps them
    all; it answers [null] exactly when no bare path is stored; afterwards the
    only bare paths in any table are the unsafe ones it lists as skipped; and
    running it again changes nothing in the database. *)
Theorem migration_completes {coll : Collation} now (s : Mig)
    (Hwf : mig_wf s) (Hplain : plain_drives s.(mg_db)) :
  exists r s', runPathNormalizationMigration now s = (Ok r, s') /\ mig_wf s' /\
    (r = None <-> bare_rows s.(mg_db) = []) /\
    (forall b, b ∈ bare_rows s'.(mg_db) -> canSafelyPrefixBarePath b.(bp_path) = false /\ b ∈ s'.(mg_skipped)) /\
    (forall now', exists r' s'', runPathNormalizationMigration now' s' = (Ok r', s'') /\ s''.(mg_db) = s'.(mg_db)).
Proof.
  destruct (migration_run now s Hwf) as (r & s0 & s' & Hrun & Hwf' & Hdb0 & Hsk0 & Hsteps & Hr).
  assert (Hb : forall b, b ∈ collectBarePaths s.(mg_db) -> is_bare b.(bp_path) = true).
  { intros b Hb. by apply (bare_rows_bare s.(mg_db)), collectBarePaths_sound. }
  assert (Hleft : forall b, b ∈ bare_rows s'.(mg_db) -> canSafelyPrefixBarePath b.(bp_path) = false /\ b ∈ s'.(mg_skipped)).
  { intros b Hin. destruct (steps_bare _ s0 s' b Hb) as [Hold Hsafe]; [|done..|].
    { destruct Hwf. split; by rewrite Hdb0. }
    rewrite Hdb0 in Hold. pose proof (collectBarePaths_complete _ b Hplain Hold) as Hc.
    split; [by apply Hsafe|]. rewrite (steps_skipped _ _ _ Hsteps), Hsk0. apply list_elem_of_filter. auto. }
  exists r, s'. split_and!; [done..| |done|].
  - rewrite Hr. split; intros He.
    + destruct (bare_rows s.(mg_db)) as [|b l] eqn:E; [done|]. exfalso.
      assert (Hin : b ∈ collectBarePaths s.(mg_db)) by (apply collectBarePaths_complete; [done|rewrite E; set_solver]).
      rewrite He in Hin. set_solver.
    + destruct (collectBarePaths s.(mg_db)) as [|b l] eqn:E; [done|]. exfalso.
      assert (Hin : b ∈ bare_rows s.(mg_db)) by (apply collectBarePaths_sound; rewrite E; set_solver).
      rewrite He in Hin. set_solver.
  - intros now'. destruct (migration_run now' s' Hwf') as (r' & s1 & s'' & Hrun' & _ & Hdb1 & _ & Hsteps' & _).
    exists r', s''. split; [done|]. rewrite <- Hdb1. apply (steps_idle _ _ _) in Hsteps'; [done|].
    intros b Hin. by apply Hleft, collectBarePaths_sound.
Qed.

(** ** Histories *)

Definition form (b : BarePath) : string := canonical_of b.(bp_path).

(** The rows of the two forms of a path. *)
Definition group_of (b : BarePath) : FileVersion -> Prop := in_group b.(bp_driveId) b.(bp_path) (form b).
#[export] Instance group_of_dec b v : Decision (group_of b v).
Proof. unfold group_of, in_group. apply _. Defined.

Definition file_of (b : BarePath) (f : File) : Prop :=
  is_file b.(bp_path) b.(bp_driveId) f \/ is_file (form b) b.(bp_driveId) f.
#[export] Instance file_of_dec b f : Decision (file_of b f).
Proof. unfold file_of. apply _. Defined.

Definition versions_of (db : Db) (b : BarePath) : list FileVersion := filter (group_of b) db.(fileVersions).
Definition files_of (db : Db) (b : BarePath) : list File := filter (file_of b) db.(files).

(** Both forms have a history, and the bare one can be prefixed. *)
Definition merges (db : Db) (b : BarePath) : bool :=
  canSafelyPrefixBarePath b.(bp_path) &&
  (hasFileHistory db b.(bp_driveId) b.(bp_path) && hasFileHistory db b.(bp_driveId) (form b)).

Lemma filter_fmap_same {A} (P : A -> Prop) `{forall x, Decision (P x)} (m : A -> A) (l : list A) :
  (forall x, x ∈ l -> (P (m x) <-> P x) /\ (P x -> m x = x)) -> filter P (m <$> l) = filter P l.
Proof.
  induction l as [|a l IH]; intros Hm; [done|]. rewrite fmap_cons, !filter_cons, IH by set_solver.
  destruct (Hm a) as [Hiff Heq]; [set_solver|].
  destruct (decide (P a)) as [Ha|Ha].
  - rewrite decide_True by (by apply Hiff). by rewrite Heq.
  - rewrite decide_False; [done|]. by rewrite Hiff.
Qed.

Lemma filter_fmap_comp {A} (P : A -> Prop) `{forall x, Decision (P x)} (m : A -> A) (l : list A) :
  filter P (m <$> l) = m <$> filter (fun x => P (m x)) l.
Proof.
  induction l as [|a l IH]; [done|]. rewrite fmap_cons, !filter_cons, IH.
  by destruct (decide (P (m a))).
Qed.

Lemma filter_filter_ {A} (P Q : A -> Prop) `{forall x, Decision (P x), forall x, Decision (Q x)} (l : list A) :
  (forall x, x ∈ l -> P x -> Q x) -> filter P (filter Q l) = filter P l.
Proof.
  induction l as [|a l IH]; intros Hpq; [done|]. rewrite (filter_cons Q).
  destruct (decide (Q a)) as [Ha|Ha]; rewrite !(filter_cons P), IH by set_solver; [done|].
  rewrite decide_False; [done|]. intros HP. apply Ha, Hpq; [set_solver|done].
Qed.

Lemma forms_apart b b' d x :
  is_bare b.(bp_path) = true -> is_bare b'.(bp_path) = true -> d = b.(bp_driveId) -> d = b'.(bp_driveId) ->
  x = b.(bp_path) \/ x = form b -> x = b'.(bp_path) \/ x = form b' -> b = b'.
Proof.
  destruct b as [d1 p], b' as [d2 p']. unfold form. cbn. intros Hb Hb' -> -> [->| ->] [H|H].
  - by subst.
  - by destruct (bare_not_canonical _ _ Hb H).
  - by destruct (bare_not_canonical _ _ Hb' (eq_sym H)).
  - by apply canonical_inj in H as ->.
Qed.

Lemma groups_apart b b' v :
  is_bare b.(bp_path) = true -> is_bare b'.(bp_path) = true -> group_of b v -> group_of b' v -> b = b'.
Proof.
  unfold group_of, in_group, is_version. intros Hb Hb' H H'.
  apply (forms_apart b b' v.(fv_driveId) v.(fv_path)); tauto || (symmetry; tauto) || naive_solver.
Qed.

Lemma files_apart b b' f :
  is_bare b.(bp_path) = true -> is_bare b'.(bp_path) = true -> file_of b f -> file_of b' f -> b = b'.
Proof.
  unfold file_of, is_file. intros Hb Hb' H H'.
  apply (forms_apart b b' f.(file_driveId) f.(file_path)); tauto || naive_solver.
Qed.

Lemma moved_frame b b' g m s s' :
  is_bare b.(bp_path) = true -> is_bare b'.(bp_path) = true -> b <> b' ->
  (forall f, file_key (g f) = file_key f) ->
  moves_group b.(bp_driveId) b.(bp_path) (form b) m s.(mg_db).(fileVersions) ->
  moved b.(bp_driveId) b.(bp_path) (form b) g m s s' ->
  versions_of s'.(mg_db) b' = versions_of s.(mg_db) b' /\ files_of s'.(mg_db) b' = files_of s.(mg_db) b'.
Proof.
  intros Hb Hb' Hne Hg Hm [Hf Hv _ _ _ _ _]. unfold versions_of, files_of. split.
  - rewrite Hv. apply filter_fmap_same. intros v Hin. destruct (Hm v Hin) as (Hgr & Hout & _).
    destruct (decide (group_of b v)) as [Hbv|Hbv]; [|rewrite (Hout Hbv); done].
    assert (Hmv : group_of b (m v)) by (right; by apply Hgr).
    pose proof (fun Hx => Hne (groups_apart b b' v Hb Hb' Hbv Hx)).
    pose proof (fun Hx => Hne (groups_apart b b' (m v) Hb Hb' Hmv Hx)). tauto.
  - rewrite Hf. unfold update_where at 1. rewrite filter_fmap_same.
    2:{ intros f _. case_decide as Hfc; [|done].
        assert (Hfb : file_of b f) by (by right).
        assert (Hgf : file_of b (g f)).
        { right. pose proof (Hg f) as Hk. injection Hk as Hp Hd. destruct Hfc. split; congruence. }
        pose proof (fun Hx => Hne (files_apart b b' f Hb Hb' Hfb Hx)).
        pose proof (fun Hx => Hne (files_apart b b' (g f) Hb Hb' Hgf Hx)). tauto. }
    unfold files_moved. destruct (exists_row _ _).
    + apply filter_filter_. intros f _ Hx Hy. apply Hne, (files_apart b b' f Hb Hb'); [by left|done].
    + unfold update_where. apply filter_fmap_same. intros f _. case_decide as Hfc; [|done].
      assert (Hfb : file_of b f) by (by left).
      assert (Hgf : file_of b (f <| file_path := form b |>)) by (right; split; [done|apply Hfc]).
      pose proof (fun Hx => Hne (files_apart b b' f Hb Hb' Hfb Hx)).
      pose proof (fun Hx => Hne (files_apart b b' _ Hb Hb' Hgf Hx)). tauto.
Qed.

Lemma step_frame b b' s s' :
  is_bare b.(bp_path) = true -> is_bare b'.(bp_path) = true -> b <> b' -> mig_wf s -> migrate_step b s s' ->
  versions_of s'.(mg_db) b' = versions_of s.(mg_db) b' /\ files_of s'.(mg_db) b' = files_of s.(mg_db) b'.
Proof.
  intros Hb Hb' Hne Hwf [_ Hdb _|_ _ Hmv|g _ _ Hg Hmv].
  - by rewrite Hdb.
  - by eapply (moved_frame b b' id); [..|apply renamed_moves|exact Hmv].
  - eapply (moved_frame b b' g); [done..|apply Hg|apply merged_moves; apply Hwf|exact Hmv].
Qed.

(** The versions [vs] at path [c], numbered 1, 2, 3, ... in their order. *)
Definition renumbered (c : string) (vs : list FileVersion) : list FileVersion :=
  imap (fun i v => v <| fv_path := c |> <| fv_version := Z.of_nat i + 1 |>) vs.

Definition read_group (db : Db) (b : BarePath) : list FileVersion :=
  readVersions db b.(bp_driveId) b.(bp_path) (form b).

Lemma read_group_eq db b : read_group db b = sort_by version_le (versions_of db b).
Proof. done. Qed.

Lemma sort_by_fmap {A} (le : A -> A -> bool) (m : A -> A) l :
  (forall a b, le (m a) (m b) = le a b) -> sort_by le (m <$> l) = m <$> sort_by le l.
Proof.
  intros Hm. assert (Hins : forall a l, insert_sorted le (m a) (m <$> l) = m <$> insert_sorted le a l).
  { intros a l'. induction l' as [|b l' IH]; [done|]. cbn. rewrite Hm. destruct (le a b); [done|]. cbn. by rewrite <- IH. }
  induction l as [|a l IH]; [done|]. cbn. rewrite <- Hins. f_equal. exact IH.
Qed.

Lemma merged_on_self c vs :
  NoDup (fv_id <$> vs) -> merged_version c vs <$> vs = renumbered c vs.
Proof.
  intros Hnd. apply list_eq. intros i. unfold renumbered. rewrite list_lookup_fmap, list_lookup_imap.
  destruct (vs !! i) as [v|] eqn:E; [|done]. cbn. f_equal. unfold merged_version.
  rewrite (get_row_unique (fun e => e.2.(fv_id)) _ _ (Z.of_nat i, v)); [done| |apply elem_of_entries; eauto|done|by intros ? ->].
  replace ((fun e => e.2.(fv_id)) <$> with_index vs) with (fv_id <$> (with_index vs).*2) by by rewrite <- list_fmap_compose.
  by rewrite with_index_snd.
Qed.

Lemma merged_group b (db : Db) t' :
  NoDup (fv_id <$> db.(fileVersions)) -> NoDup (version_key <$> db.(fileVersions)) ->
  t' = merged_version (form b) (read_group db b) <$> db.(fileVersions) ->
  sort_by version_le (filter (group_of b) t') = renumbered (form b) (read_group db b).
Proof.
  intros Hi Hk ->. rewrite <- merged_on_self by (by apply readVersions_ids).
  rewrite filter_fmap_comp, (filter_ext_in _ (group_of b)).
  - rewrite (sort_by_fmap version_le).
    + done.
    + intros v w. unfold merged_version, version_le. by destruct (get_row _ _), (get_row _ _).
  - intros v Hv. destruct (merged_moves db b.(bp_driveId) b.(bp_path) (form b) Hi Hk v Hv) as (Hin & Hout & _).
    fold (read_group db b) in Hin, Hout. cbv beta. destruct (decide (group_of b v)) as [Hg|Hg].
    + split; [done|]. intros _. right. by apply Hin.
    + by rewrite (Hout Hg).
Qed.

(** The file row of a merged path describes the newest of its versions. *)
Definition newest_row (vs : list FileVersion) (f : File) : Prop :=
  forall v, last vs = Some v ->
    f.(file_author) = v.(fv_author) /\ f.(file_modifiedAt) = v.(fv_createdAt) /\
    f.(file_currentVersionId) = Some (pretty (Z.of_nat (length vs))) /\
    f.(file_isDeleted) = bool_decide (v.(fv_operation) = OpDelete) /\
    (forall n, v.(fv_size) = Some n -> f.(file_size) = n).

(** The group of [b] after its own step. *)
Lemma step_merges b s s' :
  is_bare b.(bp_path) = true -> mig_wf s -> migrate_step b s s' -> merges s.(mg_db) b = true ->
  read_group s'.(mg_db) b = renumbered (form b) (read_group s.(mg_db) b) /\
  (forall f, f ∈ files_of s'.(mg_db) b -> newest_row (read_group s.(mg_db) b) f).
Proof.
  unfold merges, form. intros Hb Hwf Hstep [Hsafe Hh]%andb_true_iff.
  destruct Hstep as [Hu _ _|_ Hu _|g _ _ Hg Hmv]; [congruence..|].
  fold (form b) in *. fold (read_group s.(mg_db) b) in *. destruct Hmv as [Hf Hv _ _ _ _ _]. split.
  - rewrite read_group_eq. unfold versions_of. apply merged_group; [apply Hwf..|done].
  - intros f. unfold files_of. rewrite Hf, list_elem_of_filter. intros [Hfo Hin].
    assert (Hnot : forall x, x ∈ files_moved b.(bp_driveId) b.(bp_path) (form b) s.(mg_db).(files) ->
      ~ is_file b.(bp_path) b.(bp_driveId) x).
    { intros x Hx [Hp Hd]. unfold files_moved in Hx. destruct (exists_row _ _).
      - apply elem_of_delete_where in Hx as [_ Hn]. by apply Hn.
      - apply elem_of_update_where in Hx as (y & _ & [[_ ->]|[Hn ->]]); [|by apply Hn].
        cbn in Hp. by apply (bare_not_canonical _ _ Hb (eq_sym Hp)). }
    apply elem_of_update_where in Hin as (f0 & H0 & [[HP ->]|[Hn ->]]).
    + intros v Hlast. by apply (Hg f0).
    + exfalso. destruct Hfo as [Hfo|Hfo]; [by apply (Hnot f0)|done].
Qed.

Lemma history_congr db db' b :
  versions_of db b = versions_of db' b -> files_of db b = files_of db' b -> merges db b = merges db' b.
Proof.
  intros Hv Hf. unfold merges. f_equal.
  assert (Hone : forall (db : Db) p, p = b.(bp_path) \/ p = form b -> hasFileHistory db b.(bp_driveId) p =
    exists_row (is_file p b.(bp_driveId)) (files_of db b) || exists_row (is_version p b.(bp_driveId)) (versions_of db b)).
  { intros db0 p Hp. unfold hasFileHistory, exists_row, files_of, versions_of. rewrite !filter_filter_; [done| |].
    - intros v _ Hx. destruct Hp as [->| ->]; [by left|by right].
    - intros f _ Hx. destruct Hp as [->| ->]; [by left|by right]. }
  rewrite !Hone by auto. by rewrite Hv, Hf.
Qed.

(** ** What a run does to the versions *)

(** A version keeps everything but its number and the form of its path. *)
Definition carried (v v' : FileVersion) : Prop :=
  v' = v <| fv_path := v'.(fv_path) |> <| fv_version := v'.(fv_version) |> /\
  (v'.(fv_path) = v.(fv_path) \/
   is_bare v.(fv_path) = true /\ canSafelyPrefixBarePath v.(fv_path) = true /\
   v'.(fv_path) = canonical_of v.(fv_path)).

Lemma carried_refl v : carried v v.
Proof. split; [by destruct v|by left]. Qed.

Lemma carried_trans v1 v2 v3 : carried v1 v2 -> carried v2 v3 -> carried v1 v3.
Proof.
  intros [H1 P1] [H2 P2]. split.
  - rewrite H2 at 1. rewrite H1 at 1. by destruct v1.
  - destruct P2 as [->|(Hb & Hs & ->)]; [done|]. destruct P1 as [P1|(_ & _ & P1)]; rewrite P1 in *.
    + right. done.
    + by destruct (bare_not_canonical _ (fv_path v1) Hb).
Qed.

Lemma step_versions b s s' :
  is_bare b.(bp_path) = true -> mig_wf s -> migrate_step b s s' ->
  exists m, s'.(mg_db).(fileVersions) = m <$> s.(mg_db).(fileVersions) /\
    forall v, v ∈ s.(mg_db).(fileVersions) -> carried v (m v) /\ (~ group_of b v -> m v = v) /\
      (group_of b v -> group_of b (m v)) /\
      ((group_of b v -> merges s.(mg_db) b = false) -> (m v).(fv_version) = v.(fv_version)).
Proof.
  intros Hb Hwf Hstep.
  assert (Hmoves : forall m, canSafelyPrefixBarePath b.(bp_path) = true ->
    moves_group b.(bp_driveId) b.(bp_path) (form b) m s.(mg_db).(fileVersions) -> forall v, v ∈ s.(mg_db).(fileVersions) ->
    carried v (m v) /\ (~ group_of b v -> m v = v) /\ (group_of b v -> group_of b (m v))).
  { intros m Hsafe Hm v Hv. destruct (Hm v Hv) as (Hin & Hout & Heq). split_and!; [|done|].
    - split; [done|]. destruct (decide (group_of b v)) as [Hg|Hg]; [|left; by rewrite (Hout Hg)].
      destruct (Hin Hg) as [Hp _]. rewrite Hp. destruct Hg as [[Hq _]|[Hq _]]; rewrite Hq; [right|by left]. done.
    - intros Hg. right. by apply Hin. }
  destruct Hstep as [_ Hdb _|Hsafe _ [_ Hv _ _ _ _ _]|g Hsafe Hh _ [_ Hv _ _ _ _ _]].
  - exists id. rewrite Hdb, list_fmap_id. split; [done|]. intros v _. split_and!; [apply carried_refl|done..].
  - eexists. split; [exact Hv|]. intros v Hin.
    destruct (Hmoves _ Hsafe (renamed_moves _ _ _ _) v Hin) as (H1 & H2 & H3). split_and!; [done..|].
    intros _. unfold renamed_version. by case_decide.
  - eexists. split; [exact Hv|]. intros v Hin.
    destruct (Hmoves _ Hsafe (merged_moves _ _ _ _ (wf_ids s Hwf) (wf_versions s Hwf)) v Hin) as (H1 & H2 & H3).
    split_and!; [done..|]. intros Hm. destruct (decide (group_of b v)) as [Hg|Hg]; [|exact (f_equal fv_version (H2 Hg))].
    exfalso. specialize (Hm Hg). unfold merges, form in Hm. unfold canonical_of in Hm, Hh. rewrite Hsafe, Hh in Hm. done.
Qed.

Lemma steps_versions bs s s' :
  (forall b, b ∈ bs -> is_bare b.(bp_path) = true) -> NoDup bs -> mig_wf s -> migrate_steps bs s s' ->
  exists m, s'.(mg_db).(fileVersions) = m <$> s.(mg_db).(fileVersions) /\
    forall v, v ∈ s.(mg_db).(fileVersions) -> carried v (m v) /\
      ((forall b, b ∈ bs -> group_of b v -> merges s.(mg_db) b = false) -> (m v).(fv_version) = v.(fv_version)).
Proof.
  intros Hb Hnd Hwf Hsteps. induction Hsteps as [s|b bs s1 s2 s3 Hstep Hsteps IH].
  { exists id. rewrite list_fmap_id. split; [done|]. intros v _. split; [apply carried_refl|done]. }
  apply NoDup_cons in Hnd as [Hnot Hnd].
  assert (Hbb : is_bare b.(bp_path) = true) by (apply Hb; set_solver).
  destruct (step_versions b s1 s2 Hbb Hwf Hstep) as (m1 & H1 & Hm1).
  destruct IH as (m2 & H2 & Hm2); [set_solver|done|by eapply migrate_step_wf|].
  exists (fun v => m2 (m1 v)). split; [rewrite H2, H1; by rewrite <- list_fmap_compose|].
  intros v Hv. destruct (Hm1 v Hv) as (Hc1 & Hout1 & Hin1 & Hn1).
  destruct (Hm2 (m1 v)) as (Hc2 & Hn2); [rewrite H1; by apply list_elem_of_fmap_2|].
  split; [by eapply carried_trans|]. intros Hall. rewrite Hn2; [apply Hn1, Hall; set_solver|].
  intros b' Hb' Hg'. assert (Hbb' : is_bare b'.(bp_path) = true) by (apply Hb; set_solver).
  assert (Hne : b <> b') by (intros ->; done).
  destruct (step_frame b b' s1 s2 Hbb Hbb' Hne Hwf Hstep) as [Hfv Hff].
  rewrite (history_congr _ _ _ Hfv Hff). apply Hall; [set_solver|].
  destruct (decide (group_of b v)) as [Hg|Hg]; [|by rewrite (Hout1 Hg) in Hg'].
  destruct Hne. apply (groups_apart b b' (m1 v)); auto.
Qed.

Lemma steps_group bs s s' b :
  (forall b, b ∈ bs -> is_bare b.(bp_path) = true) -> NoDup bs -> mig_wf s -> migrate_steps bs s s' ->
  is_bare b.(bp_path) = true ->
  (b ∉ bs -> versions_of s'.(mg_db) b = versions_of s.(mg_db) b /\ files_of s'.(mg_db) b = files_of s.(mg_db) b) /\
  (b ∈ bs -> merges s.(mg_db) b = true ->
    read_group s'.(mg_db) b = renumbered (form b) (read_group s.(mg_db) b) /\
    forall f, f ∈ files_of s'.(mg_db) b -> newest_row (read_group s.(mg_db) b) f).
Proof.
  intros Hb Hnd Hwf Hsteps Hbare. induction Hsteps as [s|b0 bs s1 s2 s3 Hstep Hsteps IH]; [split; [done|set_solver]|].
  apply NoDup_cons in Hnd as [Hnot Hnd].
  assert (Hbb : is_bare b0.(bp_path) = true) by (apply Hb; set_solver).
  destruct IH as [IHout IHin]; [set_solver|done|by eapply migrate_step_wf|]. split.
  - intros Hn. destruct IHout as [-> ->]; [set_solver|]. apply (step_frame b0); [done..|set_solver|done|done].
  - intros [->|Hin]%elem_of_cons Hm.
    + destruct (step_merges b0 s1 s2 Hbb Hwf Hstep Hm) as [Hg Hf]. destruct (IHout Hnot) as [Hv' Hf'].
      rewrite Hf'. split; [|done]. rewrite <- Hg. by rewrite !read_group_eq, Hv'.
    + assert (Hne : b0 <> b) by (intros ->; done).
      destruct (step_frame b0 b s1 s2 Hbb Hbare Hne Hwf Hstep) as [Hv Hf].
      rewrite (history_congr _ _ _ Hv Hf) in IHin.
      assert (Hrg : read_group s2.(mg_db) b = read_group s1.(mg_db) b) by (by rewrite !read_group_eq, Hv).
      rewrite Hrg in IHin. by apply IHin.
Qed.

(** Both forms of a path name the same object of the storage. *)
Lemma canonical_same_key o d p : is_bare p = true -> getS3Key o d (canonical_of p) = getS3Key o d p.
Proof.
  unfold is_bare. intros Hb. apply negb_true_iff in Hb. unfold getS3Key, canonical_of. f_equal. f_equal. f_equal. f_equal.
  transitivity p; [by destruct p|]. unfold stripLeadingSlash. by rewrite Hb.
Qed.

Lemma renumbered_versions c vs : fv_version <$> renumbered c vs = seqZ 1 (Z.of_nat (length vs)).
Proof.
  apply list_eq. intros i. unfold renumbered. rewrite list_lookup_fmap, list_lookup_imap.
  destruct (vs !! i) as [v|] eqn:E; cbn.
  - symmetry. apply lookup_seqZ. apply lookup_lt_Some in E. lia.
  - symmetry. apply lookup_ge_None in E. apply lookup_seqZ_ge. lia.
Qed.

Lemma merged_history b (db : Db) vs :
  read_group db b = renumbered (form b) vs -> history db (form b) b.(bp_driveId) ≡ₚ seqZ 1 (Z.of_nat (length vs)).
Proof.
  intros Hg. rewrite <- (renumbered_versions (form b)), <- Hg. unfold history, read_group, readVersions.
  rewrite (sort_by_perm version_le). f_equiv. rewrite (filter_ext_in (is_version (form b) b.(bp_driveId)) (fun v => is_version b.(bp_path) b.(bp_driveId) v \/ is_version (form b) b.(bp_driveId) v)); [done|]. intros v Hv.
  split; [by right|]. intros Hgr.
  assert (Hin : v ∈ read_group db b) by (by apply elem_of_readVersions).
  rewrite Hg in Hin. apply elem_of_lookup_imap in Hin as (i & w & -> & _). split; [done|]. by destruct Hgr as [[_ ?]|[_ ?]].
Qed.

(** Created first; of two rows of one moment, the smaller id. *)
Definition created_before (v w : FileVersion) : Prop :=
  v.(fv_createdAt) < w.(fv_createdAt) \/ v.(fv_createdAt) = w.(fv_createdAt) /\ v.(fv_id) < w.(fv_id).

Lemma created_before_asym v w : created_before v w -> ~ created_before w v.
Proof. unfold created_before. lia. Qed.

(** A later row of the sorted group was created later. *)
Lemma read_group_created db b i j v w :
  NoDup (fv_id <$> db.(fileVersions)) -> read_group db b !! i = Some v -> read_group db b !! j = Some w -> (i < j)%nat ->
  created_before v w.
Proof.
  intros Hnd Hi Hj Hij.
  assert (Hs : StronglySorted (fun a b => version_le a b = true) (read_group db b)).
  { apply Sorted_StronglySorted.
    - intros x y z. unfold version_le. repeat case_decide; rewrite ?Z.leb_le; lia.
    - apply sort_by_sorted. intros x y. unfold version_le. repeat case_decide; rewrite ?Z.leb_le; lia. }
  rewrite <- (take_drop (S i) (read_group db b)) in Hs. apply StronglySorted_app in Hs as (Hc & _ & _).
  assert (Hle : version_le v w = true).
  { apply Hc; [apply (list_elem_of_lookup_2 _ i); by rewrite lookup_take_lt by lia|].
    apply (list_elem_of_lookup_2 _ (j - S i)). rewrite lookup_drop. by replace (S i + (j - S i))%nat with j by lia. }
  assert (Hne : v.(fv_id) <> w.(fv_id)).
  { intros E. apply (Nat.lt_neq _ _ Hij). apply (NoDup_lookup (fv_id <$> read_group db b) i j v.(fv_id)).
    - apply (readVersions_ids db _ _ _ Hnd).
    - by rewrite list_lookup_fmap, Hi.
    - by rewrite list_lookup_fmap, Hj, E. }
  unfold created_before, version_le in *. case_decide; apply Z.leb_le in Hle; lia.
Qed.

(** The path has a row, deleted or not, or a version. *)
Definition has_history (db : Db) (d p : string) : Prop :=
  (exists f, f ∈ db.(files) /\ f.(file_driveId) = d /\ f.(file_path) = p) \/
  (exists v, v ∈ db.(fileVersions) /\ v.(fv_driveId) = d /\ v.(fv_path) = p).

Lemma has_history_spec db d p : hasFileHistory db d p = true <-> has_history db d p.
Proof.
  unfold hasFileHistory, has_history. rewrite orb_true_iff, !exists_row_true. unfold is_file, is_version. naive_solver.
Qed.

(** Both forms have a history, and the bare one may be prefixed. *)
Definition two_histories (db : Db) (b : BarePath) : Prop :=
  canSafelyPrefixBarePath b.(bp_path) = true /\
  has_history db b.(bp_driveId) b.(bp_path) /\ has_history db b.(bp_driveId) ("/" +:+ b.(bp_path)).

Lemma merges_spec db b : merges db b = true <-> two_histories db b.
Proof. unfold merges, two_histories. by rewrite !andb_true_iff, !has_history_spec. Qed.

(** The versions at a merged path, by their numbers. *)
Lemma merged_at b (db : Db) vs v :
  read_group db b = renumbered (form b) vs -> v ∈ db.(fileVersions) -> is_version (form b) b.(bp_driveId) v ->
  exists i w, vs !! i = Some w /\ v = w <| fv_path := form b |> <| fv_version := Z.of_nat i + 1 |>.
Proof.
  intros Hg Hv Hat. assert (Hin : v ∈ read_group db b) by (apply elem_of_readVersions; split; [by right|done]).
  rewrite Hg in Hin. apply elem_of_lookup_imap in Hin as (i & w & -> & Hw). by exists i, w.
Qed.

(** Numbers follow creation. *)
Lemma merged_in_order b (db0 db : Db) v w :
  NoDup (fv_id <$> db0.(fileVersions)) -> read_group db b = renumbered (form b) (read_group db0 b) ->
  v ∈ db.(fileVersions) -> is_version (form b) b.(bp_driveId) v ->
  w ∈ db.(fileVersions) -> is_version (form b) b.(bp_driveId) w ->
  v.(fv_version) < w.(fv_version) -> created_before v w.
Proof.
  intros Hnd Hg Hv Hva Hw Hwa Hlt.
  destruct (merged_at b db _ v Hg Hv Hva) as (i & v0 & Hi & ->), (merged_at b db _ w Hg Hw Hwa) as (j & w0 & Hj & ->).
  cbn in Hlt. apply (read_group_created db0 b i j v0 w0); [done..|lia].
Qed.

(** [v] is the version of the path created last, and the row describes it. *)
Definition newest_at (db : Db) (d p : string) (v : FileVersion) : Prop :=
  v ∈ db.(fileVersions) /\ is_version p d v /\
  forall w, w ∈ db.(fileVersions) -> is_version p d w -> w = v \/ created_before w v.

Definition describes (f : File) (v : FileVersion) : Prop :=
  f.(file_author) = v.(fv_author) /\ f.(file_modifiedAt) = v.(fv_createdAt) /\
  f.(file_currentVersionId) = Some (pretty v.(fv_version)) /\
  f.(file_isDeleted) = bool_decide (v.(fv_operation) = OpDelete) /\
  (forall n, v.(fv_size) = Some n -> f.(file_size) = n).

Lemma merged_newest b (db0 db : Db) v f :
  NoDup (fv_id <$> db0.(fileVersions)) -> read_group db b = renumbered (form b) (read_group db0 b) ->
  newest_row (read_group db0 b) f -> newest_at db b.(bp_driveId) (form b) v -> describes f v.
Proof.
  intros Hnd Hg Hrow (Hv & Hva & Hnew). destruct (merged_at b db _ v Hg Hv Hva) as (i & v0 & Hi & Ev).
  set (vs := read_group db0 b) in *. apply lookup_lt_Some in Hi as Hlt.
  assert (Hlast : S i = length vs).
  { destruct (decide (S i = length vs)) as [|Hne]; [done|exfalso].
    destruct (lookup_lt_is_Some_2 vs (S i)) as [w0 Hw0]; [lia|].
    pose proof (read_group_created db0 b i (S i) v0 w0 Hnd Hi Hw0 ltac:(lia)) as Hbefore.
    set (w := w0 <| fv_path := form b |> <| fv_version := Z.of_nat (S i) + 1 |>).
    assert (Hw : w ∈ read_group db b) by (rewrite Hg; apply elem_of_lookup_imap; by exists (S i), w0).
    apply elem_of_readVersions in Hw as [_ Hw].
    assert (Hd : is_version (form b) b.(bp_driveId) w).
    { split; [done|]. assert (Hin : w0 ∈ vs) by (by apply (list_elem_of_lookup_2 _ (S i))).
      apply elem_of_readVersions in Hin as [[[_ ?]|[_ ?]] _]; done. }
    destruct (Hnew w Hw Hd) as [E|Hb].
    - subst v. apply (f_equal fv_version) in E. cbn in E. lia.
    - subst v. by apply (created_before_asym v0 w0). }
  destruct (Hrow v0) as (H1 & H2 & H3 & H4 & H5).
  { rewrite last_lookup, <- Hlast. done. }
  subst v. split_and!; [done..| |done|done]. rewrite H3. cbn. do 2 f_equal. lia.
Qed.

(** C23: The migration keeps every recorded version: its author, operation, hashes
    and times, and the storage object that its path names; the path becomes
    canonical wherever that is safe, and outside merged histories the number
    stays.  Where a path had two histories, their versions become one, numbered
    1, 2, ..., n: of two versions the one with the smaller number was created
    first (of two of one moment, the one with the smaller row id), and the file row
    describes the one created last. *)
Theorem migration_keeps_histories {coll : Collation} now (s s' : Mig) r
    (Hwf : mig_wf s) (Hplain : plain_drives s.(mg_db))
    (Hrun : runPathNormalizationMigration now s = (Ok r, s')) :
  (exists m, s'.(mg_db).(fileVersions) = m <$> s.(mg_db).(fileVersions) /\
    forall v, v ∈ s.(mg_db).(fileVersions) ->
      m v = v <| fv_path := (m v).(fv_path) |> <| fv_version := (m v).(fv_version) |> /\
      (m v).(fv_path) = (if is_bare v.(fv_path) && canSafelyPrefixBarePath v.(fv_path)
                         then "/" +:+ v.(fv_path) else v.(fv_path)) /\
      (forall orgId, getS3Key orgId v.(fv_driveId) (m v).(fv_path) = getS3Key orgId v.(fv_driveId) v.(fv_path)) /\
      ((forall b, group_of b v -> ~ two_histories s.(mg_db) b) -> (m v).(fv_version) = v.(fv_version))) /\
  (forall b, is_bare b.(bp_path) = true -> two_histories s.(mg_db) b ->
    let path := "/" +:+ b.(bp_path) in
    history s'.(mg_db) path b.(bp_driveId) ≡ₚ seqZ 1 (Z.of_nat (length (versions_of s.(mg_db) b))) /\
    (forall v w, v ∈ s'.(mg_db).(fileVersions) -> is_version path b.(bp_driveId) v ->
       w ∈ s'.(mg_db).(fileVersions) -> is_version path b.(bp_driveId) w ->
       v.(fv_version) < w.(fv_version) -> created_before v w) /\
    (forall f v, f ∈ s'.(mg_db).(files) -> is_file path b.(bp_driveId) f ->
       newest_at s'.(mg_db) b.(bp_driveId) path v -> describes f v)).
Proof.
  destruct (migration_run now s Hwf) as (r' & s0 & s1 & Hrun' & Hwf' & Hdb0 & Hsk0 & Hsteps & _).
  rewrite Hrun in Hrun'. injection Hrun' as <- <-.
  assert (Hb : forall b, b ∈ collectBarePaths s.(mg_db) -> is_bare b.(bp_path) = true).
  { intros b Hb. by apply (bare_rows_bare s.(mg_db)), collectBarePaths_sound. }
  assert (Hwf0 : mig_wf s0) by (destruct Hwf; split; by rewrite Hdb0).
  pose proof (collectBarePaths_NoDup s.(mg_db)) as Hnd. split.
  - destruct (steps_versions _ s0 s' Hb Hnd Hwf0 Hsteps) as (m & Hm & Hall). rewrite Hdb0 in *.
    exists m. split; [done|]. intros v Hv. destruct (Hall v Hv) as [[Heq Hpath] Hver]. split_and!; [done| | |].
    + destruct (is_bare v.(fv_path) && canSafelyPrefixBarePath v.(fv_path)) eqn:E.
      * destruct Hpath as [Hp|(_ & _ & Hp)]; [|done]. exfalso. apply andb_true_iff in E as [Eb Es].
        assert (Hin : Build_BarePath v.(fv_driveId) v.(fv_path) ∈ bare_rows s'.(mg_db)).
        { apply elem_of_bare_rows. split; [done|]. right. left. exists (m v).
          split; [rewrite Hm; by apply list_elem_of_fmap_2|]. split; [done|]. by rewrite Heq. }
        destruct (steps_bare _ s0 s' _ Hb Hwf0 Hsteps Hin) as [Hold Hu]. rewrite Hdb0 in Hold.
        specialize (Hu (collectBarePaths_complete _ _ Hplain Hold)). cbn in Hu. congruence.
      * destruct Hpath as [Hp|(Eb & Es & _)]; [done|]. by rewrite Eb, Es in E.
    + intros o. destruct Hpath as [->|(Eb & _ & ->)]; [done|]. by apply canonical_same_key.
    + intros Hno. apply Hver. intros b _ Hg. apply not_true_is_false. rewrite merges_spec. by apply Hno.
  - intros b Hbare Hm path. apply merges_spec in Hm.
    assert (Hin : b ∈ collectBarePaths s.(mg_db)).
    { apply collectBarePaths_complete; [done|]. apply elem_of_bare_rows. split; [done|].
      unfold merges, hasFileHistory in Hm. apply andb_true_iff in Hm as [_ [Hh _]%andb_true_iff].
      apply orb_true_iff in Hh as [Hh|Hh]; apply exists_row_true in Hh; [by left|by right; left]. }
    destruct (steps_group _ s0 s' b Hb Hnd Hwf0 Hsteps Hbare) as [_ Hg]. rewrite Hdb0 in Hg.
    destruct (Hg Hin Hm) as [Hread Hfiles]. pose proof (wf_ids s Hwf) as Hids. split_and!.
    + rewrite <- (Permutation_length (sort_by_perm version_le _)). by apply merged_history.
    + intros v w. by apply (merged_in_order b s.(mg_db)).
    + intros f v Hf Hat. apply (merged_newest b s.(mg_db)); [done..|].
      apply Hfiles. apply list_elem_of_filter. split; [by right|done].
Qed.

(** ** A small database *)

Definition sample_version (id : Z) (path : string) (version at_ : Z) : FileVersion :=
  {| fv_id := id; fv_path := path; fv_driveId := "d1"; fv_version := version; fv_s3VersionId := "s" +:+ pretty id;
     fv_author := "u1"; fv_operation := OpWrite; fv_message := None; fv_diffSummary := None; fv_size := Some id;
     fv_etag := None; fv_contentHash := None; fv_createdAt := at_ |}.

Definition sample_file (path : string) (version modified : Z) (image : option ImageEmbeddingStatus) : File :=
  {| file_path := path; file_driveId := "d1"; file_size := 1; file_contentType := Some "image/png"; file_author := "u1";
     file_currentVersionId := Some (pretty version); file_createdAt := 1000; file_modifiedAt := modified;
     file_isDeleted := false; file_embeddingStatus := Some EsSkipped; file_imageEmbeddingStatus := image |}.

Definition sample_chunk (id : Z) (path : string) : ContentChunk :=
  {| chunk_id := id; chunk_filePath := path; chunk_driveId := "d1"; chunk_chunkIndex := 0; chunk_content := "";
     chunk_charOffset := 0; chunk_tokenCount := 0; chunk_page := None; chunk_kind := ImageChunk |}.

(** [a.png] was written under both forms in turn, the bare one last; the row of its
    first version has the largest id; [b//c] cannot be prefixed. *)
Definition split_db : Db := empty_db
  <| files := [sample_file "/a.png" 1 2000 (Some IsIndexed); sample_file "a.png" 2 3000 None] |>
  <| fileVersions := [sample_version 5 "a.png" 1 1000; sample_version 2 "/a.png" 1 2000;
                      sample_version 3 "a.png" 2 3000; sample_version 4 "b//c" 1 4000] |>
  <| contentChunks := [sample_chunk 1 "/a.png"] |>
  <| chunk_vectors := [1] |>.

Definition split_state : Mig :=
  {| mg_db := split_db; mg_internal := None; mg_legacy := None; mg_summary := no_progress; mg_skipped := [] |}.

#[export] Instance plain_collation : Collation := fun a b => if string_lt a b then -1 else if decide (a = b) then 0 else 1.

Lemma split_wf : mig_wf split_state.
Proof. split; apply (bool_decide_unpack _); vm_compute; exact I. Qed.

Lemma split_plain_drives : plain_drives split_db.
Proof.
  intros b Hb. assert (Hall : Forall (fun b => has_char nul b.(bp_driveId) = false) (bare_rows split_db)).
  { apply (bool_decide_unpack _); vm_compute; exact I. }
  by apply (proj1 (Forall_forall _ _) Hall).
Qed.

Definition split_after : Mig := (runPathNormalizationMigration 9000 split_state).2.

Lemma migration_completes_witness :
  mig_wf split_after /\ split_after.(mg_skipped) = [Build_BarePath "d1" "b//c"] /\
  (forall b, b ∈ bare_rows split_after.(mg_db) -> b ∈ split_after.(mg_skipped)).
Proof.
  destruct (migration_completes 9000 split_state split_wf split_plain_drives) as (r & s' & Hrun & Hwf & _ & Hleft & _).
  assert (Hs : split_after = s') by (unfold split_after; by rewrite Hrun).
  split; [by rewrite Hs|]. split; [by vm_compute|]. rewrite Hs. intros b Hb. by apply Hleft.
Defined.

Lemma migration_keeps_histories_witness :
  runPathNormalizationMigration 9000 split_state = (Ok (Some {| renamedPaths := 0; mergedPaths := 1;
    versionsRenumbered := 2; commentsRemapped := 0; skippedPaths := 1 |}), split_after) /\
  two_histories split_db (Build_BarePath "d1" "a.png") /\
  history split_after.(mg_db) "/a.png" "d1" ≡ₚ seqZ 1 3 /\
  (forall v w, v ∈ split_after.(mg_db).(fileVersions) -> is_version "/a.png" "d1" v ->
     w ∈ split_after.(mg_db).(fileVersions) -> is_version "/a.png" "d1" w ->
     v.(fv_version) < w.(fv_version) -> created_before v w) /\
  (fun v => (v.(fv_path), v.(fv_s3VersionId), v.(fv_createdAt), v.(fv_version))) <$> split_after.(mg_db).(fileVersions) =
    [("/a.png", "s5", 1000, 1); ("/a.png", "s2", 2000, 2); ("/a.png", "s3", 3000, 3); ("b//c", "s4", 4000, 1)].
Proof.
  assert (Hrun : runPathNormalizationMigration 9000 split_state = (Ok (Some {| renamedPaths := 0; mergedPaths := 1;
    versionsRenumbered := 2; commentsRemapped := 0; skippedPaths := 1 |}), split_after)) by (by vm_compute).
  assert (Htwo : two_histories split_db (Build_BarePath "d1" "a.png")) by (by apply merges_spec).
  destruct (migration_keeps_histories 9000 split_state split_after _ split_wf split_plain_drives Hrun) as [_ Hm].
  destruct (Hm (Build_BarePath "d1" "a.png")) as (Hh & Ho & _); [done..|].
  split; [done|]. split; [done|]. split; [exact Hh|]. split; [exact Ho|by vm_compute].
Defined.

(** The newest content came from the bare path, so the canonical path's image
    chunks are dropped; but its row still says that its image is indexed. *)
Theorem merge_keeps_image_status :
  contentChunks (mg_db split_after) = [] /\
  (fun f => (f.(file_path), f.(file_currentVersionId), f.(file_imageEmbeddingStatus))) <$> (mg_db split_after).(files)
    = [("/a.png", Some "3", Some IsIndexed)].
Proof. by vm_compute. Qed.
