(* ===== verification/FtsMigration.v ===== *)
(** * The migration of the full-text index: core/src/db/fts-migration.ts

    The old full-text table is renamed out of the way, its rows are copied into
    the new table in small committed slices between which the event loop serves
    other requests, and then it is dropped.  A cursor in [meta] says how far the
    copy came, so a process that dies resumes.  Here: the synchronous pieces, the
    whole run when nothing interrupts it, and the steps of a system where the
    process may die and other requests write between two slices. *)

From stdpp Require Import sorting.
From S2P Require Import Prelude JsString Errors Schema Search Versioning PathMigration.

Definition DEFAULT_BATCH_SIZE : Z := 50.
Definition DEFAULT_BATCH_BYTES : Z := 512 * 1024.
Definition COPY_CRISISMERGE : Z := 1000.
Definition DEFAULT_CRISISMERGE : Z := 16.

Record FtsMigrationResult : Type := { copied : Z; skipped : Z }.

Record FtsMigrationOptions : Type := { batchSize : option Z; batchBytes : option Z }.

(** The database file: [fd_internal] is [files_fts] while it has its old layout,
    [fd_legacy] is [files_fts_legacy], [fd_cursor] and [fd_tuning] are the two
    keys of [meta]. *)
Record FtsDb : Type := {
  fd_db : Db;
  fd_internal : option (list FtsRow);
  fd_legacy : option (list FtsRow);
  fd_cursor : option Z;
  fd_tuning : bool;
  fd_crisismerge : Z
}.

#[export] Instance FtsMigrationResult_eta : Eta FtsMigrationResult := fun r =>
  Build_FtsMigrationResult r.(copied) r.(skipped).
#[export] Instance FtsDb_eta : Eta FtsDb := fun r =>
  Build_FtsDb r.(fd_db) r.(fd_internal) r.(fd_legacy) r.(fd_cursor) r.(fd_tuning) r.(fd_crisismerge).

(** ** Step 1: the rename *)

Definition isLegacyFtsTable (s : FtsDb) : bool := bool_decide (is_Some s.(fd_internal)).
Definition hasLegacyFts (s : FtsDb) : bool := bool_decide (is_Some s.(fd_legacy)).
Definition ftsMigrationPending (s : FtsDb) : bool := hasLegacyFts s || s.(fd_tuning).

(** SQLite refuses to rename a table to a name that is taken. *)
Definition table_exists : error :=
  ForeignError "SQLiteError" "there is already another table or index with this name: files_fts_legacy" None true.

Definition prepareFtsMigration : M error FtsDb bool :=
  _ ← transaction (
    legacy ← gets isLegacyFtsTable;
    when legacy (
      taken ← gets hasLegacyFts;
      _ ← throw_if taken table_exists;
      modify (fun s => s <| fd_legacy := s.(fd_internal) |> <| fd_internal := None |>)));
  gets ftsMigrationPending.

(** ** Step 2: the copy *)

Definition setCrisismerge (value : Z) (s : FtsDb) : FtsDb := s <| fd_crisismerge := value |>.

(** What the copy does with a row. *)
Inductive decision : Type := Copied (row : FtsRow) | Skipped (row : FtsRow).

Definition decided_row (x : decision) : FtsRow := match x with Copied r => r | Skipped r => r end.

Definition isLive (db : Db) (row : FtsRow) : bool :=
  exists_row (fun f => is_file row.(fts_path) row.(fts_driveId) f /\ f.(file_isDeleted) = false) db.(files).

Definition docExists (db : Db) (row : FtsRow) : bool :=
  exists_row (is_doc row.(fts_driveId) row.(fts_path)) db.(fts_docs).

Definition insertDoc (row : FtsRow) (db : Db) : Db :=
  db <| fts_docs ::= fun t => t ++ [(row.(fts_driveId), row.(fts_path), row.(fts_content))] |>.

(** The loop of [copyBatch]: the database and the decisions. *)
Fixpoint copy_rows (rows : list FtsRow) (db : Db) : Db * list decision :=
  match rows with
  | [] => (db, [])
  | row :: rest =>
      if negb (isLive db row) || docExists db row
      then let '(db', ds) := copy_rows rest db in (db', Skipped row :: ds)
      else let '(db', ds) := copy_rows rest (insertDoc row db) in (db', Copied row :: ds)
  end.

Definition count_decision (r : FtsMigrationResult) (x : decision) : FtsMigrationResult :=
  match x with Copied _ => r <| copied ::= Z.succ |> | Skipped _ => r <| skipped ::= Z.succ |> end.

(** The variables of a copy: [rows] is what is left of the batch it has read. *)
Record Copier : Type := { cp_cursor : Z; cp_rows : list FtsRow; cp_result : FtsMigrationResult }.

Definition copyBatch (rows : list FtsRow) (s : FtsDb) : FtsDb * Z * list decision :=
  let '(db', ds) := copy_rows rows s.(fd_db) in
  let cursor := (fts_rowid <$> last rows) ?? 0 in
  (s <| fd_db := db' |> <| fd_cursor := Some cursor |>, cursor, ds).

(** [WHERE rowid > ? ORDER BY rowid LIMIT ?] of a table in rowid order; a
    negative LIMIT is none. *)
Definition selectBatch (s : FtsDb) (cursor limit : Z) : list FtsRow :=
  let rows := filter (fun r => cursor < r.(fts_rowid)) (s.(fd_legacy) ?? []) in
  if limit <? 0 then rows else take (Z.to_nat limit) rows.

(** The inner [do ... while]: rows are taken while they fit; the first always is. *)
Fixpoint slice_more (budget bytes : Z) (rows : list FtsRow) : list FtsRow * list FtsRow :=
  match rows with
  | [] => ([], [])
  | row :: rest =>
      if bytes + js_length row.(fts_content) <=? budget
      then let '(a, b) := slice_more budget (bytes + js_length row.(fts_content)) rest in (row :: a, b)
      else ([], rows)
  end.

Definition next_slice (budget : Z) (rows : list FtsRow) : list FtsRow * list FtsRow :=
  match rows with
  | [] => ([], [])
  | row :: rest =>
      let '(a, b) := slice_more budget (js_length row.(fts_content)) rest in (row :: a, b)
  end.

(** The beginning of [copyLegacyRows]. *)
Definition start_copy (s : FtsDb) : FtsDb * Copier :=
  (setCrisismerge COPY_CRISISMERGE s <| fd_tuning := true |>,
   {| cp_cursor := s.(fd_cursor) ?? 0; cp_rows := []; cp_result := {| copied := 0; skipped := 0 |} |}).

(** From one [await] to the next: the next slice is committed; with no row left the
    old table is dropped and the copy returns. *)
Definition copy_turn (opts : FtsMigrationOptions) (c : Copier) (s : FtsDb)
    : FtsDb * (Copier + FtsMigrationResult) * list decision :=
  let rows := match c.(cp_rows) with
              | [] => selectBatch s c.(cp_cursor) (opts.(batchSize) ?? DEFAULT_BATCH_SIZE)
              | rows => rows
              end in
  match rows with
  | [] => (s <| fd_legacy := None |> <| fd_cursor := None |>, inr c.(cp_result), [])
  | _ =>
      let '(slice, rest) := next_slice (opts.(batchBytes) ?? DEFAULT_BATCH_BYTES) rows in
      let '(s', cursor, ds) := copyBatch slice s in
      (s', inl {| cp_cursor := cursor; cp_rows := rest; cp_result := foldl count_decision c.(cp_result) ds |}, ds)
  end.

(** The end of [runFtsMigration]. *)
Definition restore_merge (s : FtsDb) : FtsDb := setCrisismerge DEFAULT_CRISISMERGE s <| fd_tuning := false |>.

(** [copyLegacyRows] when nothing else runs. *)
Fixpoint copyLegacyRows (fuel : nat) (opts : FtsMigrationOptions) (c : Copier) (s : FtsDb)
    : option (FtsDb * FtsMigrationResult) :=
  match fuel with
  | O => None
  | S fuel' =>
      match copy_turn opts c s with
      | (s', inl c', _) => copyLegacyRows fuel' opts c' s'
      | (s', inr result, _) => Some (s', result)
      end
  end.

(** One slice a row at most, and the turn that ends it. *)
Definition copy_fuel (s : FtsDb) : nat := S (length (s.(fd_legacy) ?? [])).

Definition runFtsMigration (opts : FtsMigrationOptions) (s : FtsDb) : option (FtsDb * FtsMigrationResult) :=
  if negb (ftsMigrationPending s) then Some (s, {| copied := 0; skipped := 0 |})
  else
    done ← (if hasLegacyFts s
            then let '(s', c) := start_copy s in copyLegacyRows (copy_fuel s) opts c s'
            else Some (s, {| copied := 0; skipped := 0 |}));
    Some (restore_merge done.1, done.2).

(** ** A server that may die, and that serves requests between two slices *)

Inductive Proc : Type :=
| Stopped
| Copying (c : Copier)
| Restoring (r : FtsMigrationResult)
| Returned (r : FtsMigrationResult).

Definition Sys : Type := FtsDb * Proc.

(** A request may write files and documents, but not what the migration owns. *)
Definition request_step (s s' : FtsDb) : Prop :=
  s'.(fd_legacy) = s.(fd_legacy) /\ s'.(fd_cursor) = s.(fd_cursor) /\ s'.(fd_tuning) = s.(fd_tuning) /\
  (NoDup s.(fd_db).(fts_docs).*1 -> NoDup s'.(fd_db).(fts_docs).*1).

Section Steps.
Context (opts : FtsMigrationOptions).

Inductive fts_step : Sys -> list decision -> Sys -> Prop :=
| FtsStart s : hasLegacyFts s = true ->
    fts_step (s, Stopped) [] ((start_copy s).1, Copying (start_copy s).2)
| FtsStartRestore s : hasLegacyFts s = false -> s.(fd_tuning) = true ->
    fts_step (s, Stopped) [] (s, Restoring {| copied := 0; skipped := 0 |})
| FtsStartDone s : ftsMigrationPending s = false ->
    fts_step (s, Stopped) [] (s, Returned {| copied := 0; skipped := 0 |})
| FtsTurn s c s' c' ds : copy_turn opts c s = (s', inl c', ds) ->
    fts_step (s, Copying c) ds (s', Copying c')
| FtsFinish s c s' r ds : copy_turn opts c s = (s', inr r, ds) ->
    fts_step (s, Copying c) ds (s', Restoring r)
| FtsRestore s r : fts_step (s, Restoring r) [] (restore_merge s, Returned r)
| FtsCrash s p : fts_step (s, p) [] (s, Stopped)
| FtsRequest s s' p : request_step s s' -> fts_step (s, p) [] (s', p).

(** Steps, and the decisions they made, in order. *)
Inductive fts_steps : Sys -> list decision -> Sys -> Prop :=
| FtsNone s : fts_steps s [] s
| FtsMore s1 s2 s3 ds1 ds2 : fts_steps s1 ds1 s2 -> fts_step s2 ds2 s3 -> fts_steps s1 (ds1 ++ ds2) s3.
End Steps.

(** ** Slices *)

Lemma slice_more_app budget bytes rows a b : slice_more budget bytes rows = (a, b) -> rows = a ++ b.
Proof.
  revert bytes a b. induction rows as [|row rest IH]; intros bytes a b; cbn [slice_more]; [by intros [= <- <-]|].
  case_match; [|by intros [= <- <-]]. destruct (slice_more _ _ rest) as [a' b'] eqn:E.
  intros [= <- <-]. cbn. f_equal. by eapply IH.
Qed.

(** A slice is a non-empty beginning of the rows. *)
Lemma next_slice_app budget rows a b :
  next_slice budget rows = (a, b) -> rows <> [] -> rows = a ++ b /\ a <> [].
Proof.
  destruct rows as [|row rest]; [done|]. cbn. destruct (slice_more _ _ rest) as [a' b'] eqn:E.
  intros [= <- <-] _. split; [|done]. cbn. f_equal. by eapply slice_more_app.
Qed.

(** ** A committed slice *)

Lemma copy_rows_decides rows db db' ds :
  copy_rows rows db = (db', ds) -> decided_row <$> ds = rows.
Proof.
  revert db db' ds. induction rows as [|row rest IH]; intros db db' ds; cbn [copy_rows]; [by intros [= <- <-]|].
  case_match; destruct (copy_rows rest _) as [db1 ds1] eqn:E; intros [= <- <-]; cbn; f_equal; by eapply IH.
Qed.

(** The documents that the decisions add, in order. *)
Definition new_docs (ds : list decision) : list (string * string * string) :=
  omap (fun x => match x with
                 | Copied r => Some (r.(fts_driveId), r.(fts_path), r.(fts_content))
                 | Skipped _ => None
                 end) ds.

(** Nothing else is written, no document is replaced and none appears twice. *)
Lemma copy_rows_docs rows db db' ds :
  copy_rows rows db = (db', ds) ->
  db' = db <| fts_docs ::= fun t => t ++ new_docs ds |> /\
  (NoDup db.(fts_docs).*1 -> NoDup db'.(fts_docs).*1).
Proof.
  revert db db' ds. induction rows as [|row rest IH]; intros db db' ds; cbn [copy_rows].
  { intros [= <- <-]. split; [|done]. cbn. destruct db. unfold update. cbn. by rewrite app_nil_r. }
  destruct (negb (isLive db row) || docExists db row) eqn:Ed;
    destruct (copy_rows rest _) as [db1 ds1] eqn:E; intros [= <- <-]; destruct (IH _ _ _ E) as [-> Hnd].
  - split; [done|exact Hnd].
  - split.
    + cbn. destruct db. unfold insertDoc, update. cbn. by rewrite <- app_assoc.
    + intros H. apply Hnd. apply orb_false_iff in Ed as [_ Ed]. apply NoDup_fmap_snoc; [done|].
      intros x Hx He. by apply (proj1 (exists_row_false _ _) Ed x Hx).
Qed.

(** A row whose file is live has a document afterwards; a row is skipped only if
    its file is gone or it had a document. *)
Lemma copy_rows_right rows db db' ds :
  copy_rows rows db = (db', ds) ->
  (forall r, r ∈ rows -> isLive db r = true -> docExists db' r = true) /\
  (forall r, Copied r ∈ ds -> isLive db r = true /\ docExists db r = false).
Proof.
  revert db db' ds. induction rows as [|row rest IH]; intros db db' ds; cbn [copy_rows].
  { intros [= <- <-]. split; intros r Hr; set_solver. }
  assert (Hkeep : forall db0 db1 ds1 r, copy_rows rest db0 = (db1, ds1) -> docExists db0 r = true -> docExists db1 r = true).
  { intros db0 db1 ds1 r E Hr. destruct (copy_rows_docs _ _ _ _ E) as [-> _]. unfold docExists in *.
    apply exists_row_true in Hr as (x & Hx & HP). apply exists_row_true. exists x. split; [|done]. cbn. set_solver. }
  destruct (negb (isLive db row) || docExists db row) eqn:Ed;
    destruct (copy_rows rest _) as [db1 ds1] eqn:E; intros [= <- <-]; destruct (IH _ _ _ E) as [H1 H2].
  - split; [|intros r [Hr|Hr]%elem_of_cons; [done|by apply H2]].
    intros r [->|Hr]%elem_of_cons Hl; [|by apply H1]. rewrite Hl in Ed. cbn in Ed. by eapply Hkeep.
  - apply orb_false_iff in Ed as [El Ed]. apply negb_false_iff in El. split.
    + intros r [->|Hr]%elem_of_cons Hl; [|by apply H1].
      apply (Hkeep _ _ _ _ E). apply exists_row_true. eexists. split; [cbn; apply elem_of_app; right; by left|done].
    + intros r [[= ->]|Hr]%elem_of_cons; [done|]. destruct (H2 r Hr) as [Hl Hd]. split; [done|].
      apply exists_row_false. intros x Hx HP. apply (proj1 (exists_row_false _ _) Hd x); [|done]. cbn. set_solver.
Qed.

(** ** The system *)

Definition by_rowid (a b : FtsRow) : Prop := a.(fts_rowid) < b.(fts_rowid).

Definition committed (s : FtsDb) : Z := s.(fd_cursor) ?? 0.

(** The rows [past] are decided and [todo] are not: the cursor is between them, and
    a process has read the beginning of [todo]. *)
Definition copy_state (past todo : list FtsRow) (s : FtsDb) (p : Proc) : Prop :=
  s.(fd_legacy) = Some (past ++ todo) /\
  (forall r, r ∈ past -> r.(fts_rowid) <= committed s) /\ (forall r, r ∈ todo -> committed s < r.(fts_rowid)) /\
  match p with
  | Copying c => c.(cp_cursor) = committed s /\ exists later, todo = c.(cp_rows) ++ later
  | Stopped => True
  | Restoring _ | Returned _ => False
  end.

(** The old table is gone, and every row was decided. *)
Definition dropped_state (todo : list FtsRow) (s : FtsDb) (p : Proc) : Prop :=
  s.(fd_legacy) = None /\ s.(fd_cursor) = None /\ todo = [] /\
  match p with Copying _ => False | Returned _ => s.(fd_tuning) = false | _ => True end.

Definition fts_inv (L : list FtsRow) (ds : list decision) (x : Sys) : Prop :=
  exists past todo, L = past ++ todo /\ decided_row <$> ds = past /\
    (copy_state past todo x.1 x.2 \/ dropped_state todo x.1 x.2).

Lemma select_rest past todo s cursor :
  s.(fd_legacy) = Some (past ++ todo) ->
  (forall r, r ∈ past -> r.(fts_rowid) <= cursor) -> (forall r, r ∈ todo -> cursor < r.(fts_rowid)) ->
  filter (fun r => cursor < r.(fts_rowid)) (s.(fd_legacy) ?? []) = todo.
Proof.
  intros -> Hp Ht. cbn [default]. unfold default. cbn. rewrite filter_app, (filter_none _ past), filter_all; [done|done|].
  intros r Hr Hlt. specialize (Hp r Hr). lia.
Qed.

(** A batch that is read is the beginning of the rows to do, and is empty only with them. *)
Lemma select_prefix past todo s cursor limit :
  s.(fd_legacy) = Some (past ++ todo) -> limit <> 0 ->
  (forall r, r ∈ past -> r.(fts_rowid) <= cursor) -> (forall r, r ∈ todo -> cursor < r.(fts_rowid)) ->
  (exists later, todo = selectBatch s cursor limit ++ later) /\ (selectBatch s cursor limit = [] -> todo = []).
Proof.
  intros Hl Hlim Hp Ht. unfold selectBatch. rewrite (select_rest past todo s cursor) by done.
  destruct (limit <? 0) eqn:E; [split; [exists []; by rewrite app_nil_r|done]|]. apply Z.ltb_ge in E. split.
  - exists (drop (Z.to_nat limit) todo). by rewrite take_drop.
  - intros H. destruct todo as [|r todo]; [done|]. destruct (Z.to_nat limit) eqn:En; [lia|done].
Qed.

Lemma last_some {A} (l : list A) : l <> [] -> exists x, last l = Some x /\ x ∈ l.
Proof.
  intros Hl. destruct (last l) as [x|] eqn:E; [|by apply last_None in E].
  exists x. split; [done|]. apply last_Some in E as [l' ->]. set_solver.
Qed.

(** The cursor of a committed slice parts the rows. *)
Lemma slice_cursor past slice rest x :
  StronglySorted by_rowid (past ++ slice ++ rest) -> last slice = Some x ->
  (forall r, r ∈ past ++ slice -> r.(fts_rowid) <= x.(fts_rowid)) /\ (forall r, r ∈ rest -> x.(fts_rowid) < r.(fts_rowid)).
Proof.
  intros Hs [l ->]%last_Some. rewrite app_assoc in Hs. apply StronglySorted_app in Hs as (Hcross & Hl & _).
  split.
  - rewrite app_assoc in Hl |- *. apply StronglySorted_app in Hl as (Hc & _ & _).
    intros r [Hr|Hr]%elem_of_app; [assert (by_rowid r x) by (apply Hc; set_solver); unfold by_rowid in *; lia|].
    apply list_elem_of_singleton in Hr as ->. lia.
  - intros r Hr. apply (Hcross x r); [set_solver|done].
Qed.

Section Invariant.
Context (opts : FtsMigrationOptions) (Hlimit : opts.(batchSize) ?? DEFAULT_BATCH_SIZE <> 0).

(** A turn commits the next rows, or drops the table when there are none. *)
Lemma copy_turn_spec past todo c s :
  StronglySorted by_rowid (past ++ todo) -> copy_state past todo s (Copying c) ->
  (todo = [] /\ copy_turn opts c s = (s <| fd_legacy := None |> <| fd_cursor := None |>, inr c.(cp_result), [])) \/
  (exists slice rest ds s' c', todo = slice ++ rest /\ slice <> [] /\
     copy_turn opts c s = (s', inl c', ds) /\ decided_row <$> ds = slice /\
     copy_rows slice s.(fd_db) = (s'.(fd_db), ds) /\ s'.(fd_tuning) = s.(fd_tuning) /\
     c'.(cp_result) = foldl count_decision c.(cp_result) ds /\
     copy_state (past ++ slice) rest s' (Copying c')).
Proof.
  intros Hs (Hl & Hp & Ht & Hc & later & Hrows).
  set (rows := match c.(cp_rows) with [] => selectBatch s c.(cp_cursor) (opts.(batchSize) ?? DEFAULT_BATCH_SIZE) | r => r end).
  assert (Hread : (exists later, todo = rows ++ later) /\ (rows = [] -> todo = [])).
  { unfold rows. destruct (cp_rows c) eqn:E; [|split; [by exists later|done]].
    apply (select_prefix past); rewrite ?Hc; done. }
  destruct Hread as [[later' Htodo] Hnil].
  assert (Hturn : copy_turn opts c s = match rows with
    | [] => (s <| fd_legacy := None |> <| fd_cursor := None |>, inr c.(cp_result), [])
    | _ => let '(slice, rest) := next_slice (opts.(batchBytes) ?? DEFAULT_BATCH_BYTES) rows in
           let '(s', cursor, ds) := copyBatch slice s in
           (s', inl {| cp_cursor := cursor; cp_rows := rest; cp_result := foldl count_decision c.(cp_result) ds |}, ds)
    end) by done.
  destruct (decide (rows = [])) as [E|E]; [left; rewrite Hturn, E; auto|right].
  destruct (next_slice (opts.(batchBytes) ?? DEFAULT_BATCH_BYTES) rows) as [slice rest] eqn:En.
  destruct (next_slice_app _ _ _ _ En E) as [Happ Hne]. destruct (last_some slice Hne) as (x & Hx & _).
  destruct (copy_rows slice s.(fd_db)) as [db' ds] eqn:Ecopy.
  assert (Hall : todo = slice ++ rest ++ later') by (by rewrite Htodo, Happ, <- app_assoc).
  exists slice, (rest ++ later'), ds. unfold copyBatch in Hturn. rewrite Ecopy, Hx in Hturn.
  assert (Hturn' : forall (a b : FtsDb * (Copier + FtsMigrationResult) * list decision),
    match rows with [] => a | _ => b end = b) by (by destruct rows).
  rewrite Hturn' in Hturn. do 2 eexists. split_and!; [done|done|exact Hturn|by eapply copy_rows_decides|done..|].
  rewrite Hall in Hs. destruct (slice_cursor past slice (rest ++ later') x Hs Hx) as [Hle Hgt].
  split_and!; cbn; [by rewrite Hl, Hall, <- app_assoc|done|done|done|by exists later'].
Qed.

Lemma fts_step_inv L ds ds' x y :
  StronglySorted by_rowid L -> fts_inv L ds x -> fts_step opts x ds' y -> fts_inv L (ds ++ ds') y.
Proof.
  intros HL (past & todo & -> & Hds & Hst) Hstep.
  assert (Hsame : forall p, (copy_state past todo y.1 p \/ dropped_state todo y.1 p) -> ds' = [] -> y.2 = p ->
    fts_inv (past ++ todo) (ds ++ ds') y).
  { intros p Hp -> <-. exists past, todo. by rewrite app_nil_r. }
  destruct Hstep as [s Hleg|s Hleg Htun|s Hpend|s c s' c' ds' Hturn|s c s' r ds' Hturn|s r|s p|s s' p Hreq]; cbn [fst snd] in *.
  - eapply Hsame; [|done..]. left. destruct Hst as [(Hl & Hp & Ht & _)|(Hn & _)].
    + split_and!; [done..|]. cbn. by exists todo.
    + unfold hasLegacyFts in Hleg. by rewrite Hn in Hleg.
  - eapply Hsame; [|done..]. right. destruct Hst as [(Hl & _)|(Hn & Hc & Ht & _)]; [|done].
    unfold hasLegacyFts in Hleg. by rewrite Hl in Hleg.
  - eapply Hsame; [|done..]. right. unfold ftsMigrationPending, hasLegacyFts in Hpend.
    destruct Hst as [(Hl & _)|(Hn & Hc & Ht & _)]; [by rewrite Hl in Hpend|].
    rewrite Hn in Hpend. by split_and!.
  - destruct Hst as [Hst|(_ & _ & _ & [])].
    destruct (copy_turn_spec past todo c s HL Hst) as [[_ E]|(slice & rest & ds1 & s1 & c1 & -> & _ & E & Hd & _ & _ & _ & Hst')];
      rewrite Hturn in E; [done|]. injection E as -> -> ->.
    exists (past ++ slice), rest. rewrite <- app_assoc, fmap_app, Hds, Hd. auto.
  - destruct Hst as [Hst|(_ & _ & _ & [])].
    destruct (copy_turn_spec past todo c s HL Hst) as [[-> E]|(slice & rest & ds1 & s1 & c1 & _ & _ & E & _)];
      rewrite Hturn in E; [|done]. injection E as -> -> ->. eapply Hsame; [|done..]. by right.
  - eapply Hsame; [|done..]. right. destruct Hst as [(_ & _ & _ & [])|(Hn & Hc & Ht & _)]. by split_and!.
  - eapply Hsame; [|done..]. destruct Hst as [(Hl & Hp & Ht & _)|(Hn & Hc & Ht & _)]; [by left|by right].
  - eapply Hsame; [|done..]. destruct Hreq as (Hl' & Hc' & Htn & _). unfold copy_state, dropped_state, committed.
    rewrite Hl', Hc', Htn. exact Hst.
Qed.

Lemma fts_step_docs x ds y :
  fts_step opts x ds y -> NoDup x.1.(fd_db).(fts_docs).*1 -> NoDup y.1.(fd_db).(fts_docs).*1.
Proof.
  intros Hstep Hnd. destruct Hstep as [s _|s _ _|s _|s c s' c' ds Hturn|s c s' r ds Hturn|s r|s p|s s' p Hreq]; try done.
  - unfold copy_turn in Hturn. destruct (match cp_rows c with [] => _ | _ => _ end); [done|].
    destruct (next_slice _ _) as [slice rest]. unfold copyBatch in Hturn.
    destruct (copy_rows slice s.(fd_db)) as [db' ds1] eqn:E. injection Hturn as <- _ _. cbn.
    by apply (copy_rows_docs _ _ _ _ E).
  - unfold copy_turn in Hturn. destruct (match cp_rows c with [] => _ | _ => _ end); [by injection Hturn as <- _ _|].
    destruct (next_slice _ _), (copyBatch _ _) as [[? ?] ?]. done.
  - by apply Hreq.
Qed.

(** What a step decides is right when it decides it. *)
Lemma fts_step_right x ds y :
  fts_step opts x ds y ->
  (forall r, r ∈ decided_row <$> ds -> isLive x.1.(fd_db) r = true -> docExists y.1.(fd_db) r = true) /\
  (forall r, Copied r ∈ ds -> isLive x.1.(fd_db) r = true /\ docExists x.1.(fd_db) r = false).
Proof.
  intros Hstep.
  assert (Hnil : forall db db', (forall r, r ∈ decided_row <$> ([] : list decision) -> isLive db r = true -> docExists db' r = true) /\
    (forall r, Copied r ∈ ([] : list decision) -> isLive db r = true /\ docExists db r = false)).
  { intros db db'. split; intros r Hr; by apply elem_of_nil in Hr. }
  destruct Hstep as [s _|s _ _|s _|s c s' c' ds Hturn|s c s' r ds Hturn|s r|s p|s s' p Hreq]; try by apply Hnil.
  - unfold copy_turn in Hturn. destruct (match cp_rows c with [] => _ | _ => _ end); [done|].
    destruct (next_slice _ _) as [slice rest]. unfold copyBatch in Hturn.
    destruct (copy_rows slice s.(fd_db)) as [db' ds1] eqn:E. injection Hturn as <- _ <-. cbn.
    rewrite (copy_rows_decides _ _ _ _ E). by apply (copy_rows_right _ _ _ _ E).
  - unfold copy_turn in Hturn. destruct (match cp_rows c with [] => _ | _ => _ end); [by injection Hturn as _ _ <-|].
    destruct (next_slice _ _), (copyBatch _ _) as [[? ?] ?]. done.
Qed.

(** The turns of an uninterrupted copy are one pass over the rows to do. *)
Lemma copyLegacyRows_pass fuel past todo c s :
  StronglySorted by_rowid (past ++ todo) -> copy_state past todo s (Copying c) -> (length todo < fuel)%nat ->
  exists db' ds s', copy_rows todo s.(fd_db) = (db', ds) /\
    copyLegacyRows fuel opts c s = Some (s', foldl count_decision c.(cp_result) ds) /\
    s'.(fd_db) = db' /\ s'.(fd_legacy) = None /\ s'.(fd_cursor) = None.
Proof.
  revert past todo c s. induction fuel as [|fuel IH]; intros past todo c s HL Hst Hfuel; [lia|].
  destruct (copy_turn_spec past todo c s HL Hst) as
    [[-> E]|(slice & rest & ds1 & s1 & c1 & -> & Hne & E & _ & Hcopy & _ & Hres & Hst')]; cbn [copyLegacyRows]; rewrite E.
  { by do 3 eexists. }
  destruct (IH (past ++ slice) rest c1 s1) as (db' & ds2 & s' & Hrest & Hrun & Hdb & Hl & Hc).
  - by rewrite <- app_assoc.
  - done.
  - rewrite length_app in Hfuel. destruct slice; [done|]. cbn in Hfuel. lia.
  - exists db', (ds1 ++ ds2), s'. rewrite Hrun, Hres, foldl_app. split_and!; [|done..].
    clear -Hcopy Hrest. revert ds1 Hcopy. generalize (fd_db s). induction slice as [|r slice IHs]; intros db ds1 Hcopy.
    + by injection Hcopy as -> <-.
    + cbn [app copy_rows] in *. destruct (negb (isLive db r) || docExists db r);
        destruct (copy_rows slice _) as [db1 dsx] eqn:Ex; injection Hcopy as -> <-; by rewrite (IHs _ _ Ex).
Qed.
End Invariant.

(** A database before the copy: the old table in rowid order, no cursor. *)
Definition fresh_legacy (L : list FtsRow) (s : FtsDb) : Prop :=
  s.(fd_legacy) = Some L /\ s.(fd_cursor) = None /\ StronglySorted by_rowid L /\
  (forall r, r ∈ L -> 0 < r.(fts_rowid)) /\ NoDup s.(fd_db).(fts_docs).*1.

Lemma fts_steps_reach opts L s0 ds x :
  opts.(batchSize) ?? DEFAULT_BATCH_SIZE <> 0 -> fresh_legacy L s0 ->
  fts_steps opts (s0, Stopped) ds x -> fts_inv L ds x /\ NoDup x.1.(fd_db).(fts_docs).*1.
Proof.
  intros Hlim (Hl & Hc & HL & Hpos & Hnd) Hsteps. remember (s0, Stopped) as x0 eqn:Ex.
  induction Hsteps as [x1|x1 x2 x3 ds1 ds2 Hs12 IH Hstep]; subst.
  - split; [|done]. exists [], L. split; [done|]. split; [done|]. left. split_and!; [done|set_solver| |done].
    intros r Hr. unfold committed. cbn. rewrite Hc. by apply Hpos.
  - destruct IH as [Hinv Hn]; [done|]. split; [by eapply fts_step_inv|by eapply fts_step_docs].
Qed.

(** C24: However often the process dies, and whatever other requests write between
    two slices, the rows of the old table are decided in their order and each
    once; the table is dropped only when all are, and then its cursor with it;
    no path ever has two documents; a row is copied only while its file is live
    and has no document, and a live file has one after its row was decided. *)
Theorem each_row_decided_once opts L s0 ds x
    (Hlimit : opts.(batchSize) ?? DEFAULT_BATCH_SIZE <> 0) (Hfresh : fresh_legacy L s0)
    (Hsteps : fts_steps opts (s0, Stopped) ds x) :
  (exists todo, L = (decided_row <$> ds) ++ todo) /\
  (x.1.(fd_legacy) = None -> decided_row <$> ds = L /\ x.1.(fd_cursor) = None) /\
  (forall r, x.2 = Returned r -> x.1.(fd_legacy) = None /\ x.1.(fd_tuning) = false) /\
  NoDup x.1.(fd_db).(fts_docs).*1 /\
  (forall ds' y, fts_step opts x ds' y ->
     (forall r, r ∈ decided_row <$> ds' -> isLive x.1.(fd_db) r = true -> docExists y.1.(fd_db) r = true) /\
     (forall r, Copied r ∈ ds' -> isLive x.1.(fd_db) r = true /\ docExists x.1.(fd_db) r = false)).
Proof.
  destruct (fts_steps_reach opts L s0 ds x Hlimit Hfresh Hsteps) as [(past & todo & HL & <- & Hst) Hnd].
  split_and!; [by exists todo| | |done|intros ds' y; apply fts_step_right].
  - intros Hn. destruct Hst as [(Hl & _)|(_ & Hc & -> & _)]; [congruence|]. by rewrite HL, app_nil_r.
  - intros r Hr. rewrite Hr in Hst. destruct Hst as [(_ & _ & _ & [])|(Hn & _ & _ & Ht)]. done.
Qed.

(** C40: Uninterrupted, and from wherever an earlier process stopped, the migration
    ends: it drops the old table and restores the merge setting, and whatever the
    batch size and byte budget, it has done with the rows past the cursor what
    one loop over them does, and counted it. *)
Theorem migration_ends opts past todo (s : FtsDb)
    (Hlimit : opts.(batchSize) ?? DEFAULT_BATCH_SIZE <> 0)
    (Hlegacy : s.(fd_legacy) = Some (past ++ todo)) (Hsorted : StronglySorted by_rowid (past ++ todo))
    (Hpast : forall r, r ∈ past -> r.(fts_rowid) <= s.(fd_cursor) ?? 0)
    (Htodo : forall r, r ∈ todo -> s.(fd_cursor) ?? 0 < r.(fts_rowid)) :
  exists db' ds s', copy_rows todo s.(fd_db) = (db', ds) /\
    runFtsMigration opts s = Some (s', foldl count_decision {| copied := 0; skipped := 0 |} ds) /\
    s'.(fd_db) = db' /\ s'.(fd_legacy) = None /\ s'.(fd_cursor) = None /\
    s'.(fd_tuning) = false /\ s'.(fd_crisismerge) = DEFAULT_CRISISMERGE.
Proof.
  assert (Hhas : hasLegacyFts s = true) by (unfold hasLegacyFts; by rewrite Hlegacy).
  destruct (copyLegacyRows_pass opts Hlimit (copy_fuel s) past todo (start_copy s).2 (start_copy s).1 Hsorted)
    as (db' & ds & s' & Hcopy & Hrun & Hdb & Hl & Hc).
  - split_and!; [done..|]. by exists todo.
  - unfold copy_fuel. rewrite Hlegacy. cbn. rewrite length_app. lia.
  - exists db', ds, (restore_merge s'). split_and!; [done| |done..].
    unfold runFtsMigration, ftsMigrationPending. rewrite Hhas. cbn [orb negb].
    unfold start_copy in *. cbn [fst snd cp_result] in Hrun. by rewrite Hrun.
Qed.

(** ** An old table of three rows *)

Definition legacy_row (rowid : Z) (path : string) : FtsRow :=
  {| fts_rowid := rowid; fts_driveId := "d1"; fts_path := path; fts_content := "old " +:+ path |}.

Definition live_file (path : string) : File :=
  {| file_path := path; file_driveId := "d1"; file_size := 1; file_contentType := None; file_author := "u1";
     file_currentVersionId := None; file_createdAt := 0; file_modifiedAt := 0; file_isDeleted := false;
     file_embeddingStatus := None; file_imageEmbeddingStatus := None |}.

Definition old_rows : list FtsRow := [legacy_row 1 "/a"; legacy_row 2 "/b"; legacy_row 3 "/c"].

(** [/b] was written again after the rename, [/c] was removed. *)
Definition old_index : FtsDb :=
  {| fd_db := empty_db <| files := [live_file "/a"; live_file "/b"] |> <| fts_docs := [("d1", "/b", "new /b")] |>;
     fd_internal := None; fd_legacy := Some old_rows; fd_cursor := None; fd_tuning := false; fd_crisismerge := 16 |}.

Definition one_by_one : FtsMigrationOptions := {| batchSize := Some 2; batchBytes := Some 0 |}.

Lemma old_fresh : fresh_legacy old_rows old_index.
Proof.
  split_and!; [done|done| | |].
  - repeat constructor.
  - intros r [->|[->|[->|[]%elem_of_nil]%elem_of_cons]%elem_of_cons]%elem_of_cons; done.
  - apply (bool_decide_unpack _). vm_compute. exact I.
Qed.

(** The first slice is committed, the process dies, and the next one resumes. *)
Lemma old_index_steps :
  exists (ds : list decision) (x : Sys), fts_steps one_by_one (old_index, Stopped) ds x /\ ds = [Copied (legacy_row 1 "/a"); Skipped (legacy_row 2 "/b")] /\
    x.1.(fd_cursor) = Some 2.
Proof.
  do 2 eexists. split; [|split; [|]].
  - eapply FtsMore; [eapply FtsMore; [eapply FtsMore; [eapply FtsMore; [eapply FtsMore; [apply FtsNone|]|]|]|]|].
    + by apply FtsStart.
    + by apply FtsTurn.
    + apply FtsCrash.
    + by apply FtsStart.
    + by apply FtsTurn.
  - by vm_compute.
  - by vm_compute.
Qed.

Lemma each_row_decided_once_witness :
  exists (ds : list decision) (x : Sys), ds = [Copied (legacy_row 1 "/a"); Skipped (legacy_row 2 "/b")] /\
    (exists todo, old_rows = (decided_row <$> ds) ++ todo) /\ NoDup x.1.(fd_db).(fts_docs).*1.
Proof.
  destruct old_index_steps as (ds & x & Hsteps & Hds & _). exists ds, x.
  destruct (each_row_decided_once one_by_one old_rows old_index ds x ltac:(done) old_fresh Hsteps) as (Htodo & _ & _ & Hnd & _).
  done.
Defined.

Lemma migration_ends_witness :
  exists s', runFtsMigration one_by_one (old_index <| fd_cursor := Some 1 |>) = Some (s', {| copied := 0; skipped := 2 |}) /\
    s'.(fd_legacy) = None /\ s'.(fd_db).(fts_docs) = [("d1", "/b", "new /b")].
Proof.
  destruct (migration_ends one_by_one [legacy_row 1 "/a"] [legacy_row 2 "/b"; legacy_row 3 "/c"]
    (old_index <| fd_cursor := Some 1 |>)) as (db' & ds & s' & Hcopy & Hrun & Hdb & Hl & _).
  - done.
  - done.
  - repeat constructor.
  - intros r [->|[]%elem_of_nil]%elem_of_cons. done.
  - intros r [->|[->|[]%elem_of_nil]%elem_of_cons]%elem_of_cons; done.
  - vm_compute in Hcopy. injection Hcopy as <- <-. exists s'. split; [exact Hrun|]. split; [exact Hl|]. by rewrite Hdb.
Defined.
