(* ===== verification/Sse.v ===== *)
(** * Server-sent events in the viewer: live/src/lib/sse.ts

    The parser of an event stream that arrives in chunks.  However the stream is
    cut, the frames that were written come out, in order, once each.  With
    carriage returns this holds only while no chunk ends between [\r] and [\n]:
    each chunk is normalised on its own. *)

From S2P Require Import Prelude JsString.

Definition LF : ascii := chr 10.
Definition CR : ascii := chr 13.
Definition lf : string := String LF "".

Record SseFrame : Type := { sse_event : string; sse_data : string }.

(** What the handlers are called with. *)
Inductive sse_call : Type := OnFrame (f : SseFrame) | OnComment (text : string).

(** [chunk.replace(/\r\n?/g, "\n")]. *)
Fixpoint normalise_newlines (s : string) : string :=
  match s with
  | EmptyString => EmptyString
  | String c rest =>
      if decide (c = CR)
      then String LF (match rest with
                      | String d rest' => if decide (d = LF) then normalise_newlines rest' else normalise_newlines rest
                      | EmptyString => EmptyString
                      end)
      else String c (normalise_newlines rest)
  end.

(** [buffer.indexOf("\n\n")]: what is before the first blank line, and what is after. *)
Fixpoint cut_block (s : string) : option (string * string) :=
  match s with
  | EmptyString => None
  | String c rest =>
      match rest with
      | String d rest' =>
          if decide (c = LF /\ d = LF) then Some (EmptyString, rest')
          else prod_map (String c) id <$> cut_block rest
      | EmptyString => None
      end
  end.

(** [line.indexOf(":")]. *)
Fixpoint cut_colon (s : string) : option (string * string) :=
  match s with
  | EmptyString => None
  | String c rest => if decide (c = ":"%char) then Some (EmptyString, rest) else prod_map (String c) id <$> cut_colon rest
  end.

Definition strip_space (s : string) : string := if starts_with " " s then drop_str 1 s else s.

Definition field_of (line : string) : string * string :=
  match cut_colon line with
  | None => (line, "")
  | Some (field, value) => (field, strip_space value)
  end.

(** The variables of a block: the calls so far, [event] and [data]. *)
Definition sse_line (st : list sse_call * string * list string) (line : string) : list sse_call * string * list string :=
  let '(calls, event, data) := st in
  if starts_with ":" line then (calls ++ [OnComment (drop_str 1 line)], event, data)
  else
    let '(field, value) := field_of line in
    if decide (field = "event") then (calls, value, data)
    else if decide (field = "data") then (calls, event, data ++ [value])
    else (calls, event, data).

Definition is_lf (c : ascii) : bool := bool_decide (c = LF).

Definition sse_block (block : string) : list sse_call :=
  let '(calls, event, data) := foldl sse_line ([], "", []) (split_on is_lf block) in
  if decide (event = "" /\ data = []) then calls
  else calls ++ [OnFrame {| sse_event := if decide (event = "") then "message" else event;
                            sse_data := join lf data |}].

(** The [while] loop; the buffer gets shorter at each turn. *)
Fixpoint drain (fuel : nat) (buffer : string) : list sse_call * string :=
  match fuel with
  | O => ([], buffer)
  | S fuel' =>
      match cut_block buffer with
      | None => ([], buffer)
      | Some (block, rest) => let '(calls, buffer') := drain fuel' rest in (sse_block block ++ calls, buffer')
      end
  end.

(** Feeding a chunk to a parser that holds [buffer]. *)
Definition feed (buffer chunk : string) : list sse_call * string :=
  let buffer := buffer +:+ normalise_newlines chunk in drain (String.length buffer) buffer.

(** [createSseParser], fed with the chunks in turn. *)
Definition feed_all (chunks : list string) : list sse_call * string :=
  foldl (fun st chunk => let '(calls, buffer) := feed st.2 chunk in (st.1 ++ calls, buffer)) ([], "") chunks.

(** ** The loop *)

Lemma cut_block_cons c d s :
  cut_block (String c (String d s)) =
  if decide (c = LF /\ d = LF) then Some ("", s) else prod_map (String c) id <$> cut_block (String d s).
Proof. done. Qed.

Lemma cut_block_app s x block rest :
  cut_block s = Some (block, rest) -> cut_block (s +:+ x) = Some (block, rest +:+ x).
Proof.
  revert block rest. induction s as [|c s IH]; intros block rest; [done|].
  destruct s as [|d s]; [done|]. change (String c (String d s) +:+ x) with (String c (String d (s +:+ x))).
  rewrite !cut_block_cons. case_decide as H; [by intros [= <- <-]|].
  intros ([b r] & Hb & Heq)%fmap_Some. cbn in Heq. injection Heq as -> ->. change (String d (s +:+ x)) with (String d s +:+ x).
  by rewrite (IH b r Hb).
Qed.

Lemma cut_block_length s block rest :
  cut_block s = Some (block, rest) -> (String.length rest + 2 <= String.length s)%nat.
Proof.
  revert block rest. induction s as [|c s IH]; intros block rest; [done|]. destruct s as [|d s]; [done|].
  rewrite cut_block_cons. case_decide; [intros [= <- <-]; cbn; lia|].
  intros ([b r] & Hb & Heq)%fmap_Some. cbn in Heq. injection Heq as -> ->. specialize (IH b r Hb). cbn in *. lia.
Qed.

Lemma drain_fuel n m s :
  (String.length s <= n)%nat -> (String.length s <= m)%nat -> drain n s = drain m s.
Proof.
  revert m s. induction n as [|n IH]; intros m s Hn Hm.
  - destruct s; [|cbn in Hn; lia]. by destruct m.
  - destruct m as [|m]; [destruct s; [done|cbn in Hm; lia]|]. cbn [drain].
    destruct (cut_block s) as [[b r]|] eqn:E; [|done]. apply cut_block_length in E. by rewrite (IH m r) by lia.
Qed.

Lemma drain_shrinks n s calls buffer :
  drain n s = (calls, buffer) -> (String.length buffer <= String.length s)%nat.
Proof.
  revert s calls buffer. induction n as [|n IH]; intros s calls buffer; cbn [drain]; [intros [= _ <-]; lia|].
  destruct (cut_block s) as [[b r]|] eqn:E; [|intros [= _ <-]; lia]. apply cut_block_length in E.
  destruct (drain n r) as [c2 r2] eqn:Ed. intros [= _ <-]. apply IH in Ed. lia.
Qed.

(** The loop over a longer buffer: first what the beginning holds, then the rest. *)
Lemma drain_app n s x :
  (String.length (s +:+ x) <= n)%nat ->
  drain n (s +:+ x) = let '(calls, rest) := drain (String.length s) s in
                      let '(calls', rest') := drain n (rest +:+ x) in (calls ++ calls', rest').
Proof.
  remember (String.length s) as k eqn:Hk. revert s n Hk. induction (lt_wf k) as [k _ IH]. intros s n -> Hn.
  destruct (cut_block s) as [[b r]|] eqn:E.
  - pose proof (cut_block_length _ _ _ E) as Hlen. pose proof (cut_block_app _ x _ _ E) as Ex.
    rewrite length_app_str in Hn. destruct n as [|n]; [lia|].
    cbn [drain]. rewrite Ex. destruct (String.length s) as [|k] eqn:Ek; [lia|]. cbn [drain]. rewrite E.
    rewrite (drain_fuel k (String.length r) r) by lia.
    rewrite (IH (String.length r)) by (rewrite ?length_app_str; lia).
    destruct (drain (String.length r) r) as [c1 r1] eqn:Er.
    assert (Hr1 : (String.length r1 <= String.length r)%nat) by (by eapply drain_shrinks).
    change (match cut_block (r1 +:+ x) with
            | Some (block, rest) => let '(calls, buffer') := drain n rest in (sse_block block ++ calls, buffer')
            | None => ([], r1 +:+ x) end) with (drain (S n) (r1 +:+ x)).
    rewrite (drain_fuel (S n) n (r1 +:+ x)) by (rewrite length_app_str; lia).
    destruct (drain n (r1 +:+ x)). by rewrite app_assoc.
  - assert (Hs : drain (String.length s) s = ([], s)).
    { destruct (String.length s); cbn [drain]; [done|]. by rewrite E. }
    rewrite Hs. by destruct (drain n (s +:+ x)).
Qed.

(** ** Chunks *)

Lemma normalise_app a b :
  ends_with (String CR "") a = false -> normalise_newlines (a +:+ b) = normalise_newlines a +:+ normalise_newlines b.
Proof.
  intros Ha. assert (Hl : forall r, a <> r +:+ String CR "").
  { intros r ->. assert (H : ends_with (String CR "") (r +:+ String CR "") = true) by (apply ends_with_spec; eauto). congruence. }
  clear Ha. remember (String.length a) as n eqn:Hn. revert a Hn Hl. induction (lt_wf n) as [n _ IH]. intros a -> Hl.
  destruct a as [|c a]; [done|].
  assert (Hrest : forall r, a <> r +:+ String CR "") by (intros r ->; by apply (Hl (String c r))).
  cbn [normalise_newlines String.append]. destruct (decide (c = CR)) as [->|Hc].
  - destruct a as [|d a]; [by destruct (Hl "")|]. cbn [String.append]. f_equal.
    assert (Hrest' : forall r, a <> r +:+ String CR "") by (intros r ->; by apply (Hrest (String d r))).
    destruct (decide (d = LF)).
    + apply (IH (String.length a)); [cbn; lia|done|done].
    + change (String d (a +:+ b)) with (String d a +:+ b). apply (IH (String.length (String d a))); [cbn; lia|done|done].
  - cbn [String.append]. f_equal. apply (IH (String.length a)); [cbn; lia|done|done].
Qed.

Lemma normalise_none s : has_char CR s = false -> normalise_newlines s = s.
Proof.
  induction s as [|c s IH]; [done|]. cbn. intros [Hc Hs]%orb_false_iff. apply bool_decide_eq_false in Hc.
  rewrite decide_False by congruence. by rewrite IH.
Qed.

Lemma has_char_end c s : has_char c s = false -> ends_with (String c "") s = false.
Proof.
  intros H. apply not_true_iff_false. intros [r ->]%ends_with_spec. rewrite has_char_app in H.
  apply orb_false_iff in H as [_ H]. cbn in H. by rewrite bool_decide_true in H.
Qed.

Definition concat_str (l : list string) : string := foldr String.append "" l.

Lemma concat_app a b : concat_str (a ++ b) = concat_str a +:+ concat_str b.
Proof.
  induction a as [|x a IH]; [done|]. change (x +:+ concat_str (a ++ b) = (x +:+ concat_str a) +:+ concat_str b).
  by rewrite IH, app_assoc_str.
Qed.

Lemma concat_normalise chunks :
  (forall c, c ∈ chunks -> ends_with (String CR "") c = false) ->
  normalise_newlines (concat_str chunks) = concat_str (normalise_newlines <$> chunks).
Proof.
  induction chunks as [|c chunks IH]; intros Hc; [done|]. cbn [fmap list_fmap concat_str foldr].
  rewrite normalise_app by (apply Hc; by left). f_equal. apply IH. intros x Hx. apply Hc. by right.
Qed.

(** Feeding chunks is feeding the text they make. *)
Lemma feed_all_text chunks :
  (forall c, c ∈ chunks -> ends_with (String CR "") c = false) ->
  let text := normalise_newlines (concat_str chunks) in feed_all chunks = drain (String.length text) text.
Proof.
  intros Hc. cbn. rewrite (concat_normalise chunks Hc). clear Hc.
  induction chunks as [|c chunks IH] using rev_ind; [done|].
  unfold feed_all in *. rewrite foldl_app. cbn [foldl]. rewrite IH, fmap_app, concat_app.
  set (s := concat_str (normalise_newlines <$> chunks)).
  assert (Hx : concat_str (normalise_newlines <$> [c]) = normalise_newlines c) by (cbn; apply app_nil_r_str).
  rewrite Hx, drain_app by done. destruct (drain (String.length s) s) as [calls buffer] eqn:E. cbn [fst snd].
  unfold feed. rewrite (drain_fuel (String.length (s +:+ normalise_newlines c))
    (String.length (buffer +:+ normalise_newlines c)) (buffer +:+ normalise_newlines c)); [by destruct (drain _ _)| |done].
  rewrite !length_app_str. enough (String.length buffer <= String.length s)%nat by lia.
  by eapply drain_shrinks.
Qed.

(** ** Frames *)

(** The text of a frame as a server writes it. *)
Definition sse_lines (f : SseFrame) : list string :=
  ("event: " +:+ f.(sse_event)) :: ((fun l => "data: " +:+ l) <$> split_on is_lf f.(sse_data)).

Definition sse_text (f : SseFrame) : string := join lf (sse_lines f) +:+ lf +:+ lf.

Definition frame_ok (f : SseFrame) : Prop :=
  f.(sse_event) <> "" /\ has_char LF f.(sse_event) = false /\ has_char CR (sse_text f) = false.

Definition line_ok (l : string) : Prop := l <> "" /\ has_char LF l = false.

Lemma cut_block_line l s : line_ok l -> cut_block (l +:+ lf +:+ lf +:+ s) = Some (l, s).
Proof.
  intros [Hne Hl]. induction l as [|c l IH]; [done|]. cbn in Hl. apply orb_false_iff in Hl as [Hc Hl].
  apply bool_decide_eq_false in Hc. destruct l as [|d l].
  - cbn [String.append lf]. rewrite cut_block_cons, decide_False by naive_solver. done.
  - change (String c (String d l) +:+ lf +:+ lf +:+ s) with (String c (String d (l +:+ lf +:+ lf +:+ s))).
    rewrite cut_block_cons, decide_False by naive_solver.
    change (String d (l +:+ lf +:+ lf +:+ s)) with (String d l +:+ lf +:+ lf +:+ s). rewrite IH by done. done.
Qed.

Lemma cut_block_more l d s b r :
  line_ok l -> d <> LF -> cut_block (String d s) = Some (b, r) ->
  cut_block (l +:+ lf +:+ String d s) = Some (l +:+ lf +:+ b, r).
Proof.
  intros [Hne Hl] Hd Hs. induction l as [|c l IH]; [done|]. cbn in Hl. apply orb_false_iff in Hl as [Hc Hl].
  apply bool_decide_eq_false in Hc. destruct l as [|e l].
  - cbn [String.append lf]. rewrite cut_block_cons, decide_False by naive_solver.
    rewrite cut_block_cons, decide_False by naive_solver. rewrite Hs. done.
  - change (String c (String e l) +:+ lf +:+ String d s) with (String c (String e (l +:+ lf +:+ String d s))).
    rewrite cut_block_cons, decide_False by naive_solver.
    change (String e (l +:+ lf +:+ String d s)) with (String e l +:+ lf +:+ String d s). rewrite IH by done. done.
Qed.

Lemma cut_block_lines ls s :
  ls <> [] -> Forall line_ok ls -> cut_block (join lf ls +:+ lf +:+ lf +:+ s) = Some (join lf ls, s).
Proof.
  intros Hne Hls. induction Hls as [|l ls Hl Hls IH]; [done|]. destruct ls as [|l2 ls]; [by apply cut_block_line|].
  change (join lf (l :: l2 :: ls)) with (l +:+ lf +:+ join lf (l2 :: ls)). rewrite !app_assoc_str.
  assert (Hd : exists d t, join lf (l2 :: ls) = String d t /\ d <> LF).
  { apply Forall_cons in Hls as [[Hne2 Hl2] _]. destruct l2 as [|d t]; [done|]. cbn in Hl2.
    apply orb_false_iff in Hl2 as [Hd _]. apply bool_decide_eq_false in Hd.
    destruct ls; [by exists d, t|]. exists d. eexists. split; [reflexivity|congruence]. }
  destruct Hd as (d & t & Hj & Hd). specialize (IH ltac:(done)). rewrite Hj in *.
  change (String d t +:+ lf +:+ lf +:+ s) with (String d (t +:+ lf +:+ lf +:+ s)) in *. by apply cut_block_more.
Qed.

Lemma split_pieces_clean s l : l ∈ split_on is_lf s -> has_char LF l = false.
Proof.
  revert l. induction s as [|c s IH]; intros l; cbn [split_on]; [by intros ->%list_elem_of_singleton|].
  unfold is_lf at 1. case_bool_decide as Hc.
  - intros [->|Hl]%elem_of_cons; [done|by apply IH].
  - destruct (split_on is_lf s) as [|w ws]; [intros ->%list_elem_of_singleton; cbn; by rewrite bool_decide_false by congruence|].
    intros [->|Hl]%elem_of_cons; [|apply IH; by right]. cbn.
    rewrite bool_decide_false by congruence. apply IH. by left.
Qed.

Lemma split_lines ls : ls <> [] -> Forall line_ok ls -> split_on is_lf (join lf ls) = ls.
Proof.
  intros Hne Hls. induction Hls as [|l ls [_ Hl] Hls IH]; [done|].
  assert (Hone : split_on is_lf l = [l]) by (apply split_on_no_sep, Hl).
  destruct ls as [|l2 ls]; [exact Hone|].
  change (join lf (l :: l2 :: ls)) with (l +:+ String LF (join lf (l2 :: ls))).
  rewrite split_on_app_sep by (unfold is_lf; by apply bool_decide_true). by rewrite Hone, IH.
Qed.

Lemma sse_lines_ok f : frame_ok f -> Forall line_ok (sse_lines f).
Proof.
  intros (_ & He & _). constructor.
  - split; [done|]. by rewrite has_char_app, He.
  - apply Forall_fmap, Forall_forall. intros l Hl. split; [done|]. cbn [compose]. by rewrite has_char_app, (split_pieces_clean _ _ Hl).
Qed.

Lemma field_of_data l : field_of ("data: " +:+ l) = ("data", l).
Proof. by destruct l. Qed.
Lemma field_of_event l : field_of ("event: " +:+ l) = ("event", l).
Proof. by destruct l. Qed.

Lemma data_lines calls event data ls :
  foldl sse_line (calls, event, data) ((fun l => "data: " +:+ l) <$> ls) = (calls, event, data ++ ls).
Proof.
  revert data. induction ls as [|l ls IH]; intros data; [by rewrite app_nil_r|]. rewrite fmap_cons. cbn [foldl].
  assert (Hl : sse_line (calls, event, data) ("data: " +:+ l) = (calls, event, data ++ [l])).
  { unfold sse_line. rewrite field_of_data. done. }
  by rewrite Hl, IH, <- app_assoc.
Qed.

(** A frame's text is one block that is read as the frame. *)
Lemma sse_block_frame f : frame_ok f -> sse_block (join lf (sse_lines f)) = [OnFrame f].
Proof.
  intros Hf. pose proof Hf as (He & _ & _). unfold sse_block. rewrite split_lines by (done || by apply sse_lines_ok).
  unfold sse_lines. cbn [foldl].
  assert (Hev : sse_line ([], "", []) ("event: " +:+ f.(sse_event)) = ([], f.(sse_event), [])).
  { unfold sse_line. rewrite field_of_event. done. }
  rewrite Hev, data_lines. rewrite decide_False by naive_solver. rewrite decide_False by done.
  cbn [app]. do 2 f_equal. destruct f as [e d]. cbn. f_equal. apply (join_split LF).
Qed.

Lemma drain_frames frames tail n :
  Forall frame_ok frames -> cut_block tail = None ->
  (String.length (concat_str (sse_text <$> frames) +:+ tail) <= n)%nat ->
  drain n (concat_str (sse_text <$> frames) +:+ tail) = (OnFrame <$> frames, tail).
Proof.
  intros Hf Ht. revert n. induction Hf as [|f frames Hf Hfs IH]; intros n Hn.
  - cbn. destruct n; cbn [drain]; [done|]. by rewrite Ht.
  - cbn [fmap list_fmap concat_str foldr] in *. fold (concat_str (sse_text <$> frames)) in *.
    unfold sse_text at 1. rewrite !app_assoc_str. unfold sse_text at 1 in Hn. rewrite !app_assoc_str in Hn.
    pose proof (cut_block_lines (sse_lines f) (concat_str (sse_text <$> frames) +:+ tail) ltac:(done) (sse_lines_ok f Hf)) as Hcut.
    pose proof (cut_block_length _ _ _ Hcut) as Hlen. destruct n as [|n]; [lia|]. cbn [drain]. rewrite Hcut.
    rewrite IH by lia. by rewrite sse_block_frame.
Qed.

(** C29: However the stream is cut into chunks, the parser hands out exactly the
    frames that were written, in order and once each, and keeps the beginning of
    a frame that is still to come.  (No carriage return is in the stream.) *)
Theorem frames_survive_chunking frames tail chunks
    (Hframes : Forall frame_ok frames) (Htail : cut_block tail = None) (Hcr : has_char CR tail = false)
    (Htext : concat_str chunks = concat_str (sse_text <$> frames) +:+ tail) :
  feed_all chunks = (OnFrame <$> frames, tail).
Proof.
  assert (Hclean : has_char CR (concat_str chunks) = false).
  { rewrite Htext, has_char_app, Hcr, orb_false_r. clear -Hframes. induction Hframes as [|f frames (_ & _ & Hf) _ IH]; [done|].
    cbn [fmap list_fmap concat_str foldr]. by rewrite has_char_app, Hf. }
  rewrite feed_all_text.
  - rewrite (normalise_none _ Hclean), Htext. by apply drain_frames.
  - clear -Hclean. induction chunks as [|c chunks IH]; intros x; [by intros ?%elem_of_nil|].
    cbn in Hclean. rewrite has_char_app in Hclean. apply orb_false_iff in Hclean as [Hc Hs].
    intros [->|Hx]%elem_of_cons; [by apply has_char_end|by apply IH].
Qed.

Definition pong : SseFrame := {| sse_event := "presence.left"; sse_data := "{}" |}.

Lemma frames_survive_chunking_witness :
  feed_all ["event: presen"; "ce.left" +:+ lf; "data: {}" +:+ lf; lf +:+ "eve"] = ([OnFrame pong], "eve").
Proof.
  apply (frames_survive_chunking [pong] "eve"); [|done..].
  constructor; [|constructor]. by vm_compute.
Defined.

(** A stream with [\r\n], cut in the middle of one, gains a blank line: the frame's
    two lines of data come out as two frames. *)
Theorem crlf_cut_splits_frame :
  let crlf := String CR lf in
  let a := "data: 1" +:+ String CR "" in let b := lf +:+ "data: 2" +:+ crlf +:+ crlf in
  feed_all [a +:+ b] = ([OnFrame {| sse_event := "message"; sse_data := "1" +:+ lf +:+ "2" |}], "") /\
  feed_all [a; b] = ([OnFrame {| sse_event := "message"; sse_data := "1" |};
                      OnFrame {| sse_event := "message"; sse_data := "2" |}], "").
Proof. by vm_compute. Qed.
