(* ===== verification/JsNumber.v ===== *)
(** * [Number(s)] of a string: the language's conversion, to a double

    [StringToNumber] of ECMAScript: white space is trimmed, the empty text is 0,
    a literal is decimal (with a fraction and an exponent), hexadecimal, octal or
    binary, and its mathematical value is rounded to the nearest double, ties to
    even.  A finite double is an integer times a power of two.  The lemma: the
    decimal text of a number below 2^53 converts to that number. *)

From S2P Require Import Prelude JsString Base64.
#[global] Open Scope Z_scope.

Inductive js_number : Type :=
| NaN
| Infinite (negative : bool)
| Finite (negative : bool) (m e : Z).

(** ** Rounding *)

(** [n / d] to an integer, ties to even. *)
Definition round_half_even (n d : Z) : Z :=
  let q := n / d in
  match Z.compare (2 * (n mod d)) d with
  | Lt => q
  | Gt => q + 1
  | Eq => if Z.even q then q else q + 1
  end.

(** The exponent of the leading bit of [n / d]. *)
Definition leading_bit (n d : Z) : Z :=
  let k := Z.log2 n - Z.log2 d in
  if (if 0 <=? k then d * 2 ^ k <=? n else d <=? n * 2 ^ (- k)) then k else k - 1.

(** The double nearest to [n / d], with 53 bits of precision and the smallest
    exponent -1074; what reaches 2^1024 is infinite. *)
Definition to_double (negative : bool) (n d : Z) : js_number :=
  if n =? 0 then Finite negative 0 0
  else
    let e := Z.max (leading_bit n d - 52) (-1074) in
    let m := if 0 <=? e then round_half_even n (d * 2 ^ e) else round_half_even (n * 2 ^ (- e)) d in
    if 2 ^ 1024 <=? m * 2 ^ Z.max 0 e then Infinite negative else Finite negative m e.

(** ** Literals *)

(** The longest prefix of characters of [p], and the rest. *)
Fixpoint span (p : ascii -> bool) (s : string) : string * string :=
  match s with
  | String c s' => if p c then let '(a, b) := span p s' in (String c a, b) else (EmptyString, s)
  | EmptyString => (EmptyString, EmptyString)
  end.

Definition is_e (c : ascii) : bool := bool_decide (c = "e"%char) || bool_decide (c = "E"%char).

(** [+] or [-], if it is there. *)
Definition sign_of (s : string) : bool * string :=
  match s with
  | String c s' => if bool_decide (c = "-"%char) then (true, s') else if bool_decide (c = "+"%char) then (false, s') else (false, s)
  | EmptyString => (false, s)
  end.

(** What follows the digits: nothing, or an exponent. *)
Definition exponent_part (s : string) : option Z :=
  match s with
  | EmptyString => Some 0
  | String c s' =>
      if is_e c then
        let '(negative, digits) := sign_of s' in
        if all_digits digits then Some (if negative then - digits_value 0 digits else digits_value 0 digits) else None
      else None
  end.

(** [StrUnsignedDecimalLiteral] without its sign: numerator and denominator. *)
Definition decimal_value (s : string) : option (Z * Z) :=
  let '(whole, rest) := span is_digit s in
  let '(fraction, rest) := match rest with
                           | String c rest' => if bool_decide (c = "."%char) then span is_digit rest' else ("", rest)
                           | EmptyString => ("", rest)
                           end in
  if bool_decide (whole = "") && bool_decide (fraction = "") then None
  else
    (fun e => let m := digits_value 0 (whole +:+ fraction) in
              let e := e - Z.of_nat (String.length fraction) in
              if 0 <=? e then (m * 10 ^ e, 1) else (m, 10 ^ (- e))) <$> exponent_part rest.

(** A digit of a radix, and the value of digits. *)
Definition digit_value (c : ascii) : option Z :=
  let n := Z.of_nat (Ascii.nat_of_ascii c) in
  if (48 <=? n) && (n <=? 57) then Some (n - 48)
  else if (65 <=? n) && (n <=? 70) then Some (n - 55)
  else if (97 <=? n) && (n <=? 102) then Some (n - 87)
  else None.

Fixpoint radix_value (radix acc : Z) (s : string) : option Z :=
  match s with
  | EmptyString => Some acc
  | String c s' =>
      v ← digit_value c;
      if v <? radix then radix_value radix (acc * radix + v) s' else None
  end.

Definition radix_literal (s : string) : option (Z * string) :=
  match s with
  | String z (String x digits) =>
      if bool_decide (z = "0"%char) then
        if bool_decide (x ∈ ["x"; "X"]%char) then Some (16, digits)
        else if bool_decide (x ∈ ["o"; "O"]%char) then Some (8, digits)
        else if bool_decide (x ∈ ["b"; "B"]%char) then Some (2, digits)
        else None
      else None
  | _ => None
  end.

Definition Number (text : string) : js_number :=
  let s := trim text in
  if bool_decide (s = "") then Finite false 0 0
  else match radix_literal s with
       | Some (radix, digits) =>
           if bool_decide (digits = "") then NaN
           else match radix_value radix 0 digits with Some n => to_double false n 1 | None => NaN end
       | None =>
           let '(negative, literal) := sign_of s in
           if bool_decide (literal = "Infinity") then Infinite negative
           else match decimal_value literal with Some (n, d) => to_double negative n d | None => NaN end
       end.

(** The integer that a double is: [Number.isInteger(x)], and its value. *)
Definition integer_of (x : js_number) : option Z :=
  match x with
  | Finite negative m e =>
      let v := if 0 <=? e then Some (m * 2 ^ e)
               else if m mod 2 ^ (- e) =? 0 then Some (m / 2 ^ (- e)) else None in
      (fun v => if negative then - v else v) <$> v
  | _ => None
  end.

(** ** Lemmas *)

Lemma leading_bit_integer n : 0 < n -> leading_bit n 1 = Z.log2 n.
Proof.
  intros Hn. unfold leading_bit. change (Z.log2 1) with 0. rewrite Z.sub_0_r.
  pose proof (Z.log2_nonneg n). pose proof (Z.log2_spec n Hn) as [Hl _].
  rewrite (proj2 (Z.leb_le 0 _)) by done. by rewrite Z.mul_1_l, (proj2 (Z.leb_le _ _)).
Qed.

Lemma round_exact n : round_half_even n 1 = n.
Proof. unfold round_half_even. by rewrite Z.mod_1_r, Z.div_1_r. Qed.

(** An integer below 2^53 is a double. *)
Lemma to_double_integer n : 0 <= n < 2 ^ 53 -> integer_of (to_double false n 1) = Some n.
Proof.
  intros Hn. unfold to_double. destruct (Z.eqb_spec n 0) as [->|H0]; [done|].
  rewrite leading_bit_integer by lia. assert (Hlog : 0 <= Z.log2 n < 53).
  { split; [apply Z.log2_nonneg|]. apply Z.log2_lt_pow2; lia. }
  set (e := Z.max (Z.log2 n - 52) (-1074)). assert (He : -52 <= e <= 0) by lia.
  assert (Hm : (if 0 <=? e then round_half_even n (1 * 2 ^ e) else round_half_even (n * 2 ^ (- e)) 1) = n * 2 ^ (- e)).
  { destruct (Z.leb_spec 0 e); [|apply round_exact]. replace e with 0 by lia. rewrite round_exact. lia. }
  rewrite Hm. rewrite Z.max_l, Z.mul_1_r by lia.
  assert (Hbig : n * 2 ^ (- e) < 2 ^ 1024).
  { assert (2 ^ (- e) <= 2 ^ 52) by (apply Z.pow_le_mono_r; lia).
    assert (n * 2 ^ (- e) <= 2 ^ 53 * 2 ^ 52) by (apply Z.mul_le_mono_nonneg; lia).
    assert (2 ^ 53 * 2 ^ 52 < 2 ^ 1024) by done. lia. }
  rewrite (proj2 (Z.leb_gt _ _) Hbig). cbn [integer_of]. destruct (Z.leb_spec 0 e).
  - replace e with 0 by lia. cbn [fmap option_fmap option_map]. f_equal. lia.
  - rewrite Z.mod_mul, Z.eqb_refl, Z.div_mul by lia. done.
Qed.

Lemma digit_cases (q : ascii -> bool) :
  forallb (fun n => q (chr n)) (seq 48 10) = true -> forall c, is_digit c = true -> q c = true.
Proof.
  intros Hq c [H1%Nat.leb_le H2%Nat.leb_le]%andb_true_iff. rewrite forallb_forall in Hq.
  rewrite <- (Ascii.ascii_nat_embedding c). apply Hq, in_seq. lia.
Qed.

Lemma span_all p s : all_chars p s = true -> span p s = (s, "").
Proof. induction s as [|c s IH]; [done|]. cbn. intros [-> Hs]%andb_true_iff. by rewrite IH. Qed.

Lemma radix_literal_digits s : all_chars is_digit s = true -> radix_literal s = None.
Proof.
  destruct s as [|z [|x s]]; [done..|]. cbn. intros [_ [Hx _]%andb_true_iff]%andb_true_iff.
  pose proof (digit_cases (fun c => negb (bool_decide (c ∈ ["x"; "X"; "o"; "O"; "b"; "B"]%char))) eq_refl x Hx) as H.
  cbv beta in H. apply negb_true_iff, bool_decide_eq_false in H. case_bool_decide; [|done].
  rewrite !bool_decide_false by set_solver. done.
Qed.

Lemma sign_of_digits s : all_chars is_digit s = true -> sign_of s = (false, s).
Proof.
  destruct s as [|c s]; [done|]. cbn. intros [Hc _]%andb_true_iff.
  pose proof (digit_cases (fun c => negb (bool_decide (c ∈ ["-"; "+"]%char))) eq_refl c Hc) as H.
  cbv beta in H. apply negb_true_iff, bool_decide_eq_false in H. by rewrite !bool_decide_false by set_solver.
Qed.

(** The decimal text of a number below 2^53 is that number. *)
Lemma Number_pretty n : 0 <= n < 2 ^ 53 -> integer_of (Number (pretty n)) = Some n.
Proof.
  intros Hn. destruct (pretty_digits n ltac:(lia)) as [[Hne Hd]%andb_true_iff Hv].
  apply negb_true_iff, bool_decide_eq_false in Hne. unfold Number.
  rewrite trim_no_space.
  2:{ clear -Hd. induction (pretty n) as [|c s IH]; [done|]. cbn [all_chars] in *.
      apply andb_true_iff in Hd as [Hc Hs]. by rewrite (digit_cases never_space eq_refl c Hc), IH. }
  rewrite bool_decide_false, radix_literal_digits, sign_of_digits by done. rewrite bool_decide_false.
  2:{ intros Hi. by rewrite Hi in Hd. }
  unfold decimal_value. rewrite span_all by done. cbv beta iota. rewrite bool_decide_false by done. cbn [andb].
  cbn [exponent_part fmap option_fmap option_map String.length Z.of_nat]. rewrite app_nil_r_str, Hv.
  change (if 0 <=? 0 - 0 then (n * 10 ^ (0 - 0), 1) else (n, 10 ^ (- (0 - 0)))) with (n * 1, 1).
  cbv beta iota. rewrite Z.mul_1_r. by apply to_double_integer.
Qed.
