(* ===== verification/FileRoute.v ===== *)
(** * The raw file route: server/src/routes/files.ts

    GET and PUT of [/orgs/:orgId/drives/:driveId/files/<path>/raw], which the
    FUSE mount, the command line, the viewer and the just-bash adapter use.  A
    handler is given what the router found ([orgId], [driveId], the request) and
    returns a response; what it throws is answered by the error middleware
    ([handled]).  The theorems: what a PUT stored is what a GET serves, under the
    same ETag; and a PUT under the ETag of an earlier GET is refused, without any
    change, if the file has moved on. *)

From S2P Require Import Prelude JsString Errors Text Paths Schema Rbac Storage World Outbox Search Versioning FileOps Share Base64 JsNumber Webhooks JbPath RawRoute FileSpec.

(** ** Requests and responses *)

Record Request : Type := { rq_url : string; rq_headers : list (string * string); rq_body : string }.

Inductive Body : Type := BodyBytes (b : string) | BodyJson (j : json).

Record Response : Type := { rs_status : Z; rs_headers : list (string * string); rs_body : Body }.

(** [c.json(value, status)]. *)
Definition json_response (status : Z) (j : json) : Response :=
  {| rs_status := status; rs_headers := [("Content-Type", "application/json")]; rs_body := BodyJson j |}.

Definition text_object (fields : list (string * string)) : json := JObj ((fun f => (f.1, JStr f.2)) <$> fields).

(** [handleError(err, c)], for what a handler throws. *)
Definition error_response (e : error) : Response :=
  let '(status, body) := handleError e in json_response status (text_object body).

Definition bad_request (status : Z) (message : string) : Response :=
  json_response status (text_object [("error", "VALIDATION_ERROR"); ("message", message)]).

(** What [decodeURIComponent] throws. *)
Definition uri_error : error := JsError "URI error".

(** ** Header values *)

Definition quote : string := bytes [34]%nat.
Definition etag (version : Z) : string := quote +:+ pretty version +:+ quote.

(** [ifMatch.replace(/^"|"$/g, "")]. *)
Definition strip_quotes (s : string) : string :=
  let s := if starts_with quote s then drop_str 1 s else s in
  if ends_with quote s then drop_last_char s else s.

(** The version that the conditional headers ask for; [None] is a value of
    [If-Match] that is refused. *)
Definition expected_version (ifNoneMatch ifMatch : option string) : option (option Z) :=
  if bool_decide (ifNoneMatch = Some "*") then Some (Some 0)
  else match ifMatch with
       | None => Some None
       | Some m =>
           match integer_of (Number (strip_quotes m)) with
           | Some parsed => if parsed <? 0 then None else Some (Some parsed)
           | None => None
           end
       end.

(** [/;\s*charset=/i.test(contentType)]. *)
Fixpoint names_charset (s : string) : bool :=
  match s with
  | EmptyString => false
  | String c s' => (bool_decide (c = ";"%char) && starts_with "charset=" (sql_lower (trim_start s'))) || names_charset s'
  end.

(** [value.replace(/['()*]/g, ...)]: the character in hex. *)
Fixpoint escape_marks (s : string) : string :=
  match s with
  | EmptyString => EmptyString
  | String c s' => (if in_chars "'()*" c then percent_encode (fun _ => false) c else String c "") +:+ escape_marks s'
  end.

Definition encodeRFC5987ValueChars (value : string) : string := escape_marks (encodeURIComponent value).

Definition DAY_NAMES : list string := ["Sun"; "Mon"; "Tue"; "Wed"; "Thu"; "Fri"; "Sat"].
Definition MONTH_NAMES : list string :=
  ["Jan"; "Feb"; "Mar"; "Apr"; "May"; "Jun"; "Jul"; "Aug"; "Sep"; "Oct"; "Nov"; "Dec"].

(** [toUTCString] of a date of the years 0 to 9999. *)
Definition toUTCString (ms : Z) : string :=
  let days := ms / 86400000 in
  let '(y, m, d) := civil_of_days days in
  let t := ms mod 86400000 in
  DAY_NAMES !!! Z.to_nat ((days + 4) mod 7) +:+ ", " +:+ pad 2 d +:+ " " +:+ MONTH_NAMES !!! Z.to_nat (m - 1) +:+ " " +:+
  pad 4 y +:+ " " +:+ pad 2 (t / 3600000) +:+ ":" +:+ pad 2 (t / 60000 mod 60) +:+ ":" +:+ pad 2 (t / 1000 mod 60) +:+ " GMT".

Section FileRoute.
Context {rt : Runtime} {cfg : Config} {Store : Type} {SA : StorageAdapter Store}.
Variable fmt : Formats.
Variable extractPdfText : string -> option string.
Variable embeddingProvider : option EmbeddingProvider.
Variable appUrl : option string.

Definition withUtf8Charset (contentType : string) : string :=
  if negb (isIndexableMimeType (mime_base contentType)) then contentType
  else if names_charset contentType then contentType
  else contentType +:+ "; charset=utf-8".

(** The file that the request's path names. *)
Definition path_of (url : string) : outcome error (option string) :=
  match files_match (url_pathname url) with
  | None => Ok None
  | Some encoded =>
      match decodeURIComponent encoded with
      | None => Throw uri_error
      | Some decoded => Ok (Some (Paths.normalizePath decoded))
      end
  end.

(** ** GET *)

Definition version_headers (head : HeadVersionRow) : list (string * string) :=
  [("ETag", etag head.(hv_version)); ("X-Agent-FS-Version", pretty head.(hv_version))] ++
  match truthy head.(hv_contentHash) with Some h => [("X-Agent-FS-Content-Hash", h)] | None => [] end ++
  [("Last-Modified", toUTCString head.(hv_createdAt))].

Definition file_response (filePath : string) (result : GetObjectResult) (head : option HeadVersionRow) : Response :=
  {| rs_status := 200;
     rs_headers :=
       [("Content-Type", withUtf8Charset (truthy result.(get_contentType) ?? "application/octet-stream"));
        ("Content-Length", pretty (blen result.(get_body)));
        ("Content-Disposition",
          "attachment; filename*=UTF-8''" +:+ encodeRFC5987ValueChars (last (split_on is_slash filePath) ?? "download"));
        ("Cache-Control", "private, max-age=60")] ++
       match head with Some h => version_headers h | None => [] end;
     rs_body := BodyBytes result.(get_body) |}.

Definition get_raw (user orgId driveId : string) (req : Request) : OpM Store Response :=
  resolved ← reads (fun w => resolveContext w.(w_db) user (Some orgId) (Some driveId));
  found ← from_outcome (path_of req.(rq_url));
  match found with
  | None => mret (bad_request 400 "Invalid file path")
  | Some filePath =>
      let key := getS3Key resolved.(ctx_orgId) resolved.(ctx_driveId) filePath in
      try_catch
        (result ← in_store (getObject key None);
         head ← query (fun db => getHeadVersionRow db resolved.(ctx_driveId) filePath);
         mret (file_response filePath result head))
        (fun e => if is_no_such_key e
                  then mret (json_response 404 (text_object [("error", "NOT_FOUND"); ("message", "File not found: " +:+ filePath)]))
                  else throw e)
  end.

(** ** PUT *)

Definition route_context (user : string) (resolved : ResolvedContext) : OpContext :=
  Build_OpContext resolved.(ctx_orgId) resolved.(ctx_driveId) user embeddingProvider appUrl None None.

Definition write_json (r : WriteResult) : json :=
  JObj [("version", JNum r.(wr_version)); ("path", JStr r.(wr_path)); ("size", JNum r.(wr_size));
        ("contentHash", JStr r.(wr_contentHash)); ("deduped", JBool r.(wr_deduped))].

Definition put_response (r : WriteResult) : Response :=
  {| rs_status := 200;
     rs_headers :=
       [("Content-Type", "application/json"); ("ETag", etag r.(wr_version)); ("X-Agent-FS-Version", pretty r.(wr_version))] ++
       match truthy (Some r.(wr_contentHash)) with Some h => [("X-Agent-FS-Content-Hash", h)] | None => [] end ++
       [("X-Agent-FS-Deduped", if r.(wr_deduped) then "1" else "0")];
     rs_body := BodyJson (write_json r) |}.

Definition put_raw (dr : Draws) (now : Z) (user orgId driveId : string) (req : Request) : OpM Store Response :=
  let ct := header "Content-Type" req.(rq_headers) ?? "" in
  if starts_with "application/json" (toLowerCase ct) then
    mret (bad_request 415 "PUT /raw expects a binary body; use POST /ops with op=write for JSON-encoded content")
  else
    resolved ← reads (fun w => resolveContext w.(w_db) user (Some orgId) (Some driveId));
    found ← from_outcome (path_of req.(rq_url));
    match found with
    | None => mret (bad_request 400 "Invalid file path")
    | Some filePath =>
        let ifMatch := header "If-Match" req.(rq_headers) in
        match expected_version (header "If-None-Match" req.(rq_headers)) ifMatch with
        | None => mret (bad_request 400 ("If-Match must be a non-negative integer version, got: " +:+ (ifMatch ?? "")))
        | Some expectedVersion =>
            let message := read_message req.(rq_headers) in
            result ← writeRaw fmt extractPdfText dr now (route_context user resolved) filePath req.(rq_body) message expectedVersion;
            mret (put_response result)
        end
    end.

(** [app.onError]: what a handler throws becomes a response. *)
Definition handled (m : OpM Store Response) : OpM Store Response := try_catch m (fun e => mret (error_response e)).
End FileRoute.

(** ** Headers *)

Lemma strip_quotes_etag v : 0 <= v -> strip_quotes (etag v) = pretty v.
Proof.
  intros Hv. unfold strip_quotes, etag. rewrite starts_with_app.
  change 1%nat with (String.length quote). rewrite drop_str_app, ends_with_app.
  change quote with (String (chr 34) ""). apply drop_last_char_app.
Qed.

(** The ETag of a response, sent back in [If-Match], asks for that version. *)
Lemma expected_etag inm v : inm <> Some "*" -> 0 <= v < 2 ^ 53 ->
  expected_version inm (Some (etag v)) = Some (Some v).
Proof.
  intros Hi Hv. unfold expected_version. rewrite bool_decide_false by done.
  rewrite strip_quotes_etag, Number_pretty by lia. by rewrite (proj2 (Z.ltb_ge v 0)) by lia.
Qed.

Lemma etag_inj a b : 0 <= a -> 0 <= b -> etag a = etag b -> a = b.
Proof.
  intros Ha Hb H. apply (f_equal strip_quotes) in H. rewrite !strip_quotes_etag in H by done.
  destruct (pretty_digits a Ha) as [_ Ea], (pretty_digits b Hb) as [_ Eb]. congruence.
Qed.

Lemma header_here k v l : header k ((k, v) :: l) = Some v.
Proof. unfold header, get_row. by rewrite filter_cons_True. Qed.

Lemma header_skip k k' v l : k' <> k -> header k ((k', v) :: l) = header k l.
Proof. intros Hk. unfold header, get_row. by rewrite filter_cons_False. Qed.

Lemma path_of_target url o d p : raw_target url = RawFile o d p -> path_of url = Ok (Some p).
Proof.
  unfold raw_target, path_of. repeat case_match; try discriminate. by intros [= _ _ ->].
Qed.

Section Guarantees.
Context {rt : Runtime} {RL : RuntimeLaws rt} {cfg : Config} {Store : Type} {SA : StorageAdapter Store} {SV : StorageView Store}
  {SL : StorageLaws Store}.
Variable fmt : Formats.
Variable extractPdfText : string -> option string.
Variable embeddingProvider : option EmbeddingProvider.
Variable appUrl : option string.

Notation put_raw' := (put_raw fmt extractPdfText embeddingProvider appUrl).
Notation context := (route_context embeddingProvider appUrl).

(** A PUT that reaches the op: a binary body for a file of a drive that the user
    may write to. *)
Record admitted (user o d p : string) (req : Request) (resolved : ResolvedContext) (w : World Store) : Prop := {
  ad_binary : starts_with "application/json" (toLowerCase (header "Content-Type" req.(rq_headers) ?? "")) = false;
  ad_target : raw_target req.(rq_url) = RawFile o d p;
  ad_resolved : resolveContext w.(w_db) user (Some o) (Some d) = Ok resolved;
  ad_editor : roleAtLeast (Some resolved.(ctx_role)) Editor = true;
  ad_size : blen req.(rq_body) <= getMaxUploadBytes
}.

Lemma reads_run {S A} (f : S -> outcome error A) s a : f s = Ok a -> reads f s = (Ok a, s).
Proof. intros H. unfold reads. by rewrite H. Qed.

Lemma found_run {S A} (a : A) (s : S) : from_outcome (E := error) (Ok a) s = (Ok a, s).
Proof. done. Qed.

(** What an admitted PUT does: the write at the version it expects. *)
Lemma put_raw_run dr now user o d p req resolved e (w : World Store) :
  admitted user o d p req resolved w ->
  expected_version (header "If-None-Match" req.(rq_headers)) (header "If-Match" req.(rq_headers)) = Some e ->
  put_raw' dr now user o d req w =
  (result ← writeInternal fmt extractPdfText dr now (context user resolved) p req.(rq_body) (read_message req.(rq_headers)) e
              None getMaxUploadBytes;
   mret (put_response result)) w.
Proof.
  intros [Hbin Htarget Hres Hed _] He. unfold put_raw. rewrite Hbin.
  run (reads_run (fun w => resolveContext w.(w_db) user (Some o) (Some d)) w _ Hres).
  rewrite (path_of_target _ _ _ _ Htarget). run (found_run (Some p) w). rewrite He.
  etrans; [apply bind_assoc|]. assert (Hrole : requireDriveRole w.(w_db) user resolved.(ctx_driveId) Editor = Ok resolved.(ctx_role)).
  { apply requireDriveRole_ok. split; [|exact Hed]. by apply resolveContext_sound in Hres as (_ & Hrole & _). }
  by run (reads_run (fun w => requireDriveRole w.(w_db) user resolved.(ctx_driveId) Editor) w _ Hrole).
Qed.

Lemma resolved_ids db user o d resolved : o <> "" -> d <> "" -> resolveContext db user (Some o) (Some d) = Ok resolved ->
  resolved.(ctx_orgId) = o /\ resolved.(ctx_driveId) = d.
Proof.
  intros Ho Hd (_ & _ & H1 & H2)%resolveContext_sound. split; [apply H1|apply H2]; by destruct o, d.
Qed.

(** What a GET answers when the storage returns the object. *)
Lemma get_raw_run user o d p req resolved (w : World Store) g s :
  raw_target req.(rq_url) = RawFile o d p -> resolveContext w.(w_db) user (Some o) (Some d) = Ok resolved ->
  getObject (getS3Key resolved.(ctx_orgId) resolved.(ctx_driveId) p) None w.(w_store) = (Ok g, s) ->
  get_raw user o d req w = (Ok (file_response p g (getHeadVersionRow w.(w_db) resolved.(ctx_driveId) p)), w).
Proof.
  intros Ht Hr Hg. unfold get_raw. run (reads_run (fun w => resolveContext w.(w_db) user (Some o) (Some d)) w _ Hr).
  rewrite (path_of_target _ _ _ _ Ht). run (found_run (Some p) w).
  assert (s = w.(w_store)) as -> by (by apply get_law in Hg as [-> _]).
  assert (Hw : w <| w_store := w.(w_store) |> = w) by (by destruct w).
  assert (Hbody : (result ← in_store (getObject (getS3Key resolved.(ctx_orgId) resolved.(ctx_driveId) p) None);
                   head ← query (fun db => getHeadVersionRow db resolved.(ctx_driveId) p);
                   mret (file_response p result head)) w
    = (Ok (file_response p g (getHeadVersionRow w.(w_db) resolved.(ctx_driveId) p)), w)).
  { run (proj2 (in_store_ok _ w g _) (ex_intro _ _ (conj Hg eq_refl))). by rewrite Hw. }
  unfold try_catch. by rewrite Hbody.
Qed.

Lemma head_version_bounds db d p h : contiguous db -> head_version db d p = Some h ->
  1 <= h.(fv_version) <= Z.of_nat (length (history db p d)).
Proof.
  intros Hc Hh. destruct (history_nonneg db p d Hc) as (n & Hn & Hs). rewrite Hs, length_seqZ.
  assert (Hin : h.(fv_version) ∈ history db p d).
  { unfold history. apply list_elem_of_fmap. exists h. split; [done|]. unfold head_version in Hh.
    apply (elem_of_sort_by (fun a b => b.(fv_version) <=? a.(fv_version))).
    destruct (sort_by _ _); [done|]. injection Hh as ->. by left. }
  rewrite Hs, elem_of_seqZ in Hin. lia.
Qed.

(** ** What was put is what is got *)

(** C19: a PUT stores what a GET serves.  When the storage accepts the bytes, an
    unconditional PUT by an editor answers 200 with the next version as its ETag;
    from then on a GET by whoever may read the drive, when the storage returns the
    object, answers 200 with exactly those bytes, that ETag and their digest. *)
Theorem put_then_get dr now user o d p req resolved (w : World Store) r s :
  o <> "" -> d <> "" -> Paths.normalizePath p = p ->
  admitted user o d p req resolved w ->
  expected_version (header "If-None-Match" req.(rq_headers)) (header "If-Match" req.(rq_headers)) = Some None ->
  ready dr (context user resolved) w ->
  putObject (getS3Key o d p) req.(rq_body) (Some (detectMimeType p)) w.(w_store) = (Ok r, s) ->
  exists v w' resp, handled (put_raw' dr now user o d req) w = (Ok resp, w') /\
    resp.(rs_status) = 200 /\ header "ETag" resp.(rs_headers) = Some (etag v) /\
    v = Z.of_nat (length (history w.(w_db) p d)) + 1 /\
    forall reader req2 resolved2 g s2,
      raw_target req2.(rq_url) = RawFile o d p ->
      resolveContext w'.(w_db) reader (Some o) (Some d) = Ok resolved2 ->
      getObject (getS3Key o d p) None w'.(w_store) = (Ok g, s2) ->
      exists resp2, handled (get_raw reader o d req2) w' = (Ok resp2, w') /\
        resp2.(rs_status) = 200 /\ resp2.(rs_body) = BodyBytes req.(rq_body) /\
        header "ETag" resp2.(rs_headers) = Some (etag v) /\
        header "X-Agent-FS-Content-Hash" resp2.(rs_headers) = Some (sha256hex req.(rq_body)).
Proof.
  intros Ho Hd Hp Had Hexp Hready Hput. pose proof Had as [_ _ Hres _ Hsize].
  destruct (resolved_ids _ _ _ _ _ Ho Hd Hres) as [Eo Ed].
  assert (Hkey : key_of (context user resolved) p = getS3Key o d p) by (unfold key_of; cbn; by rewrite Eo, Ed, Hp).
  destruct (writeInternal_stores fmt extractPdfText dr now (context user resolved) p req.(rq_body)
    (read_message req.(rq_headers)) None getMaxUploadBytes w r s Hready Hsize ltac:(rewrite Hkey, Hp; exact Hput))
    as (v & w' & Hrun & [Hv Hobj (h & Hh & Hhv & Hhash & _) _ _] & _).
  rewrite Hp in Hrun, Hv, Hh. cbn in Hv, Hh. rewrite Ed in Hv, Hh. rewrite Hkey in Hobj.
  eexists v, w', _. split_and!.
  - unfold handled, try_catch. rewrite (put_raw_run _ _ _ _ _ _ _ _ _ _ Had Hexp).
    erewrite op_bind_run by exact Hrun. reflexivity.
  - done.
  - cbn [rs_headers put_response app]. rewrite header_skip by done. apply header_here.
  - exact Hv.
  - intros reader req2 resolved2 g s2 Ht Hr2 Hg. destruct (resolved_ids _ _ _ _ _ Ho Hd Hr2) as [Eo2 Ed2].
    assert (Hbody : g.(get_body) = req.(rq_body)).
    { pose proof (get_law _ _ _ _ Hg) as (_ & Hob & _).
      assert (Hk : object_key (getS3Key o d p)) by (rewrite <- Hkey; by eapply ready_key).
      specialize (Hob Hk g eq_refl). congruence. }
    exists (file_response p g (getHeadVersionRow w'.(w_db) d p)). split.
    + unfold handled, try_catch. rewrite (get_raw_run reader o d p req2 resolved2 w' g s2) by (rewrite ?Eo2, ?Ed2; done).
      by rewrite Ed2.
    + assert (Hhead : getHeadVersionRow w'.(w_db) d p = Some {| hv_version := v; hv_contentHash := Some (sha256hex req.(rq_body));
        hv_etag := h.(fv_etag); hv_createdAt := h.(fv_createdAt) |}).
      { unfold getHeadVersionRow. rewrite Hh. cbn. by rewrite Hhv, Hhash. }
      rewrite Hhead. split; [done|]. cbn [rs_body rs_headers file_response]. rewrite Hbody. split; [done|].
      unfold version_headers. cbn [app hv_version hv_contentHash].
      assert (Htr : truthy (Some (sha256hex req.(rq_body))) = Some (sha256hex req.(rq_body))).
      { pose proof (sha256hex_nonempty req.(rq_body)) as Hne. by destruct (sha256hex req.(rq_body)). }
      rewrite Htr. split; repeat (rewrite header_skip by done); apply header_here.
Qed.

(** ** Conditional writes *)

(** The request without its condition. *)
Definition unconditional (req : Request) : Request :=
  {| rq_url := req.(rq_url); rq_headers := filter (fun h => h.1 <> "If-Match") req.(rq_headers); rq_body := req.(rq_body) |}.

Lemma header_unconditional k l : k <> "If-Match" -> header k (filter (fun h => h.1 <> "If-Match") l) = header k l.
Proof.
  intros Hk. unfold header, get_row. rewrite list_filter_filter. f_equal. f_equal. apply list_filter_iff. naive_solver.
Qed.

Lemma header_removed l : header "If-Match" (filter (fun h => h.1 <> "If-Match") l) = None.
Proof.
  unfold header, get_row. rewrite list_filter_filter, (filter_none _ l); [done|]. naive_solver.
Qed.

Lemma admitted_unconditional user o d p req resolved w :
  admitted user o d p req resolved w -> admitted user o d p (unconditional req) resolved w.
Proof. intros []. constructor; cbn; try done. by rewrite header_unconditional. Qed.

Lemma read_message_unconditional req : read_message (rq_headers (unconditional req)) = read_message req.(rq_headers).
Proof. unfold read_message. cbn. by rewrite !header_unconditional. Qed.

(** A GET that answers 200 with an ETag names the head version. *)
Lemma get_raw_etag reader o d p req resolved (w0 : World Store) resp w1 t :
  raw_target req.(rq_url) = RawFile o d p -> resolveContext w0.(w_db) reader (Some o) (Some d) = Ok resolved ->
  handled (get_raw reader o d req) w0 = (Ok resp, w1) -> resp.(rs_status) = 200 -> header "ETag" resp.(rs_headers) = Some t ->
  exists h, head_version w0.(w_db) resolved.(ctx_driveId) p = Some h /\ t = etag h.(fv_version).
Proof.
  intros Ht Hr. destruct (getObject (getS3Key resolved.(ctx_orgId) resolved.(ctx_driveId) p) None w0.(w_store)) as [[g|e] s] eqn:Hg.
  - unfold handled, try_catch. rewrite (get_raw_run reader o d p req resolved w0 g s) by done. intros [= <- <-] _.
    unfold getHeadVersionRow. destruct (head_version w0.(w_db) _ p) as [h|]; cbn [fmap option_fmap option_map file_response rs_headers].
    + unfold version_headers. cbn [app]. repeat (rewrite header_skip by done). rewrite header_here. intros [= <-]. by exists h.
    + cbn [app]. by repeat (rewrite header_skip by done).
  - intros Hrun Hst. exfalso. revert Hrun.
    assert (Hbody : exists o' w', get_raw reader o d req w0 = (o', w') /\
      (o' = Ok (json_response 404 (text_object [("error", "NOT_FOUND"); ("message", "File not found: " +:+ p)])) \/ o' = Throw e)).
    { exists (get_raw reader o d req w0).1, (get_raw reader o d req w0).2. split; [apply surjective_pairing|].
      assert (Hin : in_store (getObject (getS3Key resolved.(ctx_orgId) resolved.(ctx_driveId) p) None) w0
        = (Throw e, w0 <| w_store := s |>)) by (unfold in_store, on; by rewrite Hg).
      unfold get_raw. rewrite (op_bind_run _ _ _ _ _ (reads_run (fun w => resolveContext w.(w_db) reader (Some o) (Some d)) w0 _ Hr)).
      rewrite (path_of_target _ _ _ _ Ht), (op_bind_run _ _ _ _ _ (found_run (Some p) w0)). unfold try_catch, mbind, M_bind.
      rewrite Hin. destruct (is_no_such_key e); cbn; auto. }
    destruct Hbody as (o' & w' & Hrun & Ho). unfold handled, try_catch. rewrite Hrun.
    destruct Ho as [->| ->]; intros [= <- <-]; [done|]. unfold error_response in Hst. unfold handleError in Hst.
    pose proof (getStatusCode_range e). destruct (toJSON e); cbn in Hst; lia.
Qed.

(** C20: no lost update.  A PUT under the ETag that an earlier GET returned is
    refused with 409, and nothing changes, when the file has another version by
    then; otherwise, if the content is already the stored one it says so and
    changes nothing, and if not it is the unconditional PUT. *)
Theorem conditional_put_guards dr now user o d p req resolved (w : World Store) reader req0 resolved0 (w0 w1 : World Store) resp0 t :
  o <> "" -> d <> "" -> Paths.normalizePath p = p ->
  raw_target req0.(rq_url) = RawFile o d p -> resolveContext w0.(w_db) reader (Some o) (Some d) = Ok resolved0 ->
  contiguous w0.(w_db) -> Z.of_nat (length (history w0.(w_db) p d)) < 2 ^ 53 ->
  handled (get_raw reader o d req0) w0 = (Ok resp0, w1) -> resp0.(rs_status) = 200 -> header "ETag" resp0.(rs_headers) = Some t ->
  admitted user o d p req resolved w ->
  header "If-None-Match" req.(rq_headers) = None -> header "If-Match" req.(rq_headers) = Some t ->
  let version db := fv_version <$> head_version db d p in
  if decide (version w.(w_db) = version w0.(w_db)) then
    if decide (head_version w.(w_db) d p ≫= fv_contentHash = Some (sha256hex req.(rq_body)))
    then exists resp, handled (put_raw' dr now user o d req) w = (Ok resp, w) /\ resp.(rs_status) = 200 /\
           header "ETag" resp.(rs_headers) = Some t
    else handled (put_raw' dr now user o d req) w = handled (put_raw' dr now user o d (unconditional req)) w
  else exists resp, handled (put_raw' dr now user o d req) w = (Ok resp, w) /\ resp.(rs_status) = 409.
Proof.
  intros Ho Hd Hp Ht0 Hr0 Hc0 Hmax Hget Hst Htag Had Hnone Hmatch version.
  destruct (resolved_ids _ _ _ _ _ Ho Hd Hr0) as [_ Ed0].
  destruct (get_raw_etag _ _ _ _ _ _ _ _ _ _ Ht0 Hr0 Hget Hst Htag) as (h0 & Hh0 & ->). rewrite Ed0 in Hh0.
  pose proof (head_version_bounds _ _ _ _ Hc0 Hh0) as Hb. pose proof Had as [_ _ Hres _ Hsize].
  destruct (resolved_ids _ _ _ _ _ Ho Hd Hres) as [_ Ed].
  assert (Hexp : expected_version (header "If-None-Match" req.(rq_headers)) (header "If-Match" req.(rq_headers))
    = Some (Some h0.(fv_version))) by (rewrite Hnone, Hmatch; apply expected_etag; [done|lia]).
  pose proof (writeInternal_guard fmt extractPdfText dr now (context user resolved) p req.(rq_body) (read_message req.(rq_headers))
    None getMaxUploadBytes h0.(fv_version) w Hsize) as Hguard.
  cbv zeta in Hguard. cbn [op_driveId route_context] in Hguard. rewrite Hp, Ed in Hguard.
  unfold handled, try_catch. rewrite (put_raw_run _ _ _ _ _ _ _ _ _ _ Had Hexp).
  assert (Hv0 : version w0.(w_db) = Some h0.(fv_version)) by (unfold version; by rewrite Hh0).
  rewrite Hv0. destruct (decide (version w.(w_db) = Some h0.(fv_version))) as [Hsame|Hmoved]; unfold version in *.
  - rewrite decide_True in Hguard by (left; by rewrite Hsame). rewrite Hsame in Hguard. cbn [from_option id] in Hguard.
    destruct (decide (head_version w.(w_db) d p ≫= fv_contentHash = _)) as [Hhash|Hhash].
    + rewrite decide_True in Hguard by (split; [lia|done]). eexists. split; [by erewrite op_bind_run by exact Hguard|].
      split; [done|].
      cbn [rs_headers put_response app]. rewrite header_skip by done. apply header_here.
    + rewrite decide_False in Hguard by tauto.
      assert (Hunc : expected_version (header "If-None-Match" (unconditional req).(rq_headers)) (header "If-Match" (unconditional req).(rq_headers)) = Some None).
      { cbn. by rewrite header_unconditional, Hnone, header_removed. }
      rewrite (put_raw_run _ _ _ _ _ _ _ _ _ _ (admitted_unconditional _ _ _ _ _ _ _ Had) Hunc).
      rewrite read_message_unconditional. unfold mbind, M_bind. by rewrite Hguard.
  - rewrite decide_False in Hguard.
    + destruct Hguard as (err & Hrun & Herr). exists (error_response err). split; [unfold mbind, M_bind; by rewrite Hrun|].
      unfold error_response, handleError. destruct (toJSON err); cbn; exact Herr.
    + intros [He|[He _]]; [|lia]. apply Hmoved. destruct (head_version w.(w_db) d p); cbn in *; [by rewrite He|lia].
Qed.
End Guarantees.

(** ** Witnesses *)

Definition sample_url : string := "/orgs/o1/drives/d1/files/a.txt/raw".
Definition sample_put (headers : list (string * string)) (body : string) : Request :=
  {| rq_url := sample_url; rq_headers := ("Content-Type", "text/plain") :: headers; rq_body := body |}.
Definition sample_get : Request := {| rq_url := sample_url; rq_headers := []; rq_body := "" |}.
Definition sample_resolved : ResolvedContext := {| ctx_orgId := "o1"; ctx_driveId := "d1"; ctx_role := Editor |}.

Notation sample_put_raw := (put_raw (rt := ascii_runtime) sample_formats no_pdf None None).

(** The drive after a first PUT. *)
Definition routed_world : World MemStore :=
  (handled (sample_put_raw (sample_draws "1") 5000 "u2" "o1" "d1" (sample_put [] "hello")) sample_world).2.

Lemma sample_admitted (w : World MemStore) headers body :
  resolveContext w.(w_db) "u2" (Some "o1") (Some "d1") = Ok sample_resolved -> blen body <= 100 ->
  admitted (rt := ascii_runtime) "u2" "o1" "d1" "/a.txt" (sample_put headers body) sample_resolved w.
Proof. intros Hr Hb. constructor; [by vm_compute..|exact Hr|done|cbn; lia]. Qed.

Lemma put_then_get_witness :
  exists v w' resp, handled (sample_put_raw (sample_draws "1") 5000 "u2" "o1" "d1" (sample_put [] "hello")) sample_world = (Ok resp, w') /\
    header "ETag" resp.(rs_headers) = Some (etag v).
Proof.
  destruct (put_then_get (rt := ascii_runtime) sample_formats no_pdf None None (sample_draws "1") 5000 "u2" "o1" "d1" "/a.txt"
    (sample_put [] "hello") sample_resolved sample_world _ _ ltac:(done) ltac:(done) eq_refl
    (sample_admitted sample_world [] "hello" eq_refl ltac:(by vm_compute)) eq_refl (sample_ready "1") (surjective_pairing _))
    as (v & w' & resp & H & _ & He & _).
  exists v, w', resp. exact (conj H He).
Defined.

Lemma routed_contiguous : contiguous routed_world.(w_db).
Proof.
  intros path d. assert (Hrows : fileVersions routed_world.(w_db) = take 1 (fileVersions routed_world.(w_db))) by (by vm_compute).
  unfold history. rewrite Hrows. destruct (fileVersions routed_world.(w_db)) as [|x l] eqn:E; [by exists 0|]. cbn [take].
  assert (Hx : x.(fv_version) = 1).
  { assert (Hv : fv_version <$> head (fileVersions routed_world.(w_db)) = Some 1) by (by vm_compute). rewrite E in Hv. by injection Hv. }
  rewrite filter_cons. case_decide; [exists 1; cbn; by rewrite Hx|by exists 0].
Qed.

Definition first_get : outcome error Response * World MemStore := handled (get_raw (rt := ascii_runtime) "u1" "o1" "d1" sample_get) routed_world.
Definition first_response : Response := match first_get.1 with Ok r => r | Throw e => error_response e end.

(** The GET of the first version, and a later PUT under its ETag, once the file is
    at its second version. *)
Lemma conditional_put_guards_witness :
  let second := (handled (sample_put_raw (sample_draws "2") 6000 "u2" "o1" "d1" (sample_put [] "hello again")) routed_world).2 in
  exists resp, handled (sample_put_raw (sample_draws "3") 7000 "u2" "o1" "d1" (sample_put [("If-Match", etag 1)] "mine")) second
    = (Ok resp, second) /\ resp.(rs_status) = 409.
Proof.
  intros second.
  pose proof (conditional_put_guards (rt := ascii_runtime) (SL := memory_laws (rt := ascii_runtime)) sample_formats no_pdf None None
    (sample_draws "3") 7000 "u2" "o1" "d1" "/a.txt" (sample_put [("If-Match", etag 1)] "mine") sample_resolved second
    "u1" sample_get {| ctx_orgId := "o1"; ctx_driveId := "d1"; ctx_role := Admin |} routed_world first_get.2 first_response (etag 1) ltac:(done) ltac:(done) eq_refl
    ltac:(by vm_compute) ltac:(by vm_compute)) as H.
  cbv zeta in H. rewrite decide_False in H by (by vm_compute). eapply H.
  - exact routed_contiguous.
  - by vm_compute.
  - by vm_compute.
  - by vm_compute.
  - by vm_compute.
  - apply sample_admitted; by vm_compute.
  - by vm_compute.
  - by vm_compute.
Defined.

(** A trailing slash is dropped twice on the way to a write and once on the way to
    a read: what was put at [a//] is not there for the GET of the same URL. *)
Theorem put_double_slash_not_got :
  let req := {| rq_url := "/orgs/o1/drives/d1/files/a///raw"; rq_headers := []; rq_body := "x" |} in
  let put := handled (sample_put_raw (sample_draws "1") 5000 "u2" "o1" "d1" req) sample_world in
  rs_status <$> (match put.1 with Ok r => Some r | Throw _ => None end) = Some 200 /\
  rs_status <$> (match (handled (get_raw (rt := ascii_runtime) "u2" "o1" "d1" req) put.2).1 with Ok r => Some r | Throw _ => None end) = Some 404.
Proof. by vm_compute. Qed.

(** An empty [If-Match] passes for version 0, and a hexadecimal one for its value. *)
Lemma loose_if_match :
  expected_version None (Some "") = Some (Some 0) /\ expected_version None (Some "0x10") = Some (Some 16) /\
  expected_version None (Some "*") = None /\ expected_version None (Some "1.5") = None.
Proof. by vm_compute. Qed.
