(* ===== verification/Ipc.v ===== *)
(** * The mount daemon's requests: server/src/ipc/handlers.ts

    The FUSE helper asks the daemon over a local socket; each request is handled
    in process, as the user whose API key the daemon has.  A request is a value
    of the helper's wire type, a response the value that is sent back; what a
    handler throws is classified into an error response.  The theorems: a request
    that is answered, and any change that is made, had a key that is not confined
    to an org and whose user has, on the drive the request names, at least the
    role that the request needs; what a mount saved is what it opens, and a save
    over a newer version is refused.  The classification reads the text of
    messages: a missing file can look like a missing key
    ([missing_file_looks_unauthorised]). *)

From S2P Require Import Prelude JsString Errors Text Paths Schema Rbac Drives ApiKeys Orgs Storage World Outbox Search Versioning Favorites FileOps Listing ListSpec FileSpec.

(** ** The wire types *)

Inductive Request : Type :=
| Ping
| Hello
| ListDrives
| DefaultDriveSlug
| GetAttr (drive path : string)
| ReadDir (drive : string) (path : option string)
| OpenRead (drive path : string)
| OpenWrite (drive path : string) (base_version : option Z) (bytes : string)
| CreateFile (drive path : string)
| Truncate (drive path : string) (size : option Z)
| Unlink (drive path : string)
| Rename (drive from_path to_drive to_path : string)
| Mkdir (drive path : string)
| Rmdir (drive path : string)
| RecordConflict
| WriteStatus
| OtherOp (op : string).

Inductive NodeKind : Type := NodeFile | NodeDir.

Record AttrInfo : Type := {
  at_kind : NodeKind; at_size : Z; at_mtime_unix : Z; at_version : option Z; at_content_hash : option string }.

Record DirEntry : Type := {
  de_name : string; de_kind : NodeKind; de_size : Z; de_mtime_unix : Z; de_version : option Z; de_content_hash : option string }.

Inductive Response : Type :=
| ROk
| RPong
| RDrives (l : list (string * string * string))
| RDefaultDriveSlug (slug : option string)
| RAttr (a : AttrInfo)
| RDirEntries (l : list DirEntry)
| ROpenRead (bytes : string) (version : Z) (content_hash : string) (size mtime_unix : Z)
| ROpenWrite (version : Z) (content_hash : string) (deduped : bool)
| RError (http_status : Z) (code : option string) (message : string).

(** ** Errors *)

(** [e.name]: of an error of the repository, its class. *)
Definition error_name (e : error) : string :=
  match e with
  | AgentFSError _ _ _ => "AgentFSError"
  | NotFoundError _ _ _ => "NotFoundError"
  | PermissionDeniedError _ _ _ _ => "PermissionDeniedError"
  | EditConflictError _ _ _ => "EditConflictError"
  | IndexingInProgressError _ _ _ => "IndexingInProgressError"
  | ValidationError _ _ _ => "ValidationError"
  | EmbeddingProviderError _ => "EmbeddingProviderError"
  | UnsupportedOperation _ _ _ => "UnsupportedOperation"
  | PresenceLimitError => "PresenceLimitError"
  | JsError _ => "Error"
  | ForeignError name _ _ _ => name
  end.

(** [const e = new Error(message); e.name = name]. *)
Definition named_error (name message : string) : error := ForeignError name message None false.

(** The lines that a dot of a regular expression stays in. *)
Fixpoint dot_lines (s : string) : string :=
  match s with
  | EmptyString => EmptyString
  | String c rest =>
      if bool_decide (c = chr 13) then String newline (dot_lines rest)
      else match rest with
           | String d (String x rest') =>
               if bool_decide (c = chr 226) && bool_decide (d = chr 128) && (bool_decide (x = chr 168) || bool_decide (x = chr 169))
               then String newline (dot_lines rest')
               else String c (dot_lines rest)
           | _ => String c (dot_lines rest)
           end
  end.

(** [words] occur in [line] in this order, without overlap. *)
Fixpoint in_order (words : list string) (line : string) : bool :=
  match words with
  | [] => true
  | word :: rest => match cut_first word line with Some (_, after) => in_order rest after | None => false end
  end.

(** [/no.*api.*key|no.*user/i.test(msg)]. *)
Definition mentions_auth (msg : string) : bool :=
  existsb (fun line => in_order ["no"; "api"; "key"] line || in_order ["no"; "user"] line) (lines (dot_lines (sql_lower msg))).

Definition classifyError (e : error) : Response :=
  let name := error_name e in
  let msg := error_message e in
  if bool_decide (name = "EditConflictError") then RError 409 (Some "EDIT_CONFLICT") msg
  else if bool_decide (name = "NotFoundError") then RError 404 (Some "NOT_FOUND") msg
  else if bool_decide (name = "PermissionDeniedError") then RError 403 (Some "PERMISSION_DENIED") msg
  else if bool_decide (name = "ValidationError") then RError 415 (Some "VALIDATION") msg
  else if bool_decide (name = "IndexingInProgressError") then RError 503 (Some "INDEXING_IN_PROGRESS") msg
  else if bool_decide (name = "EmbeddingProviderError") then RError 502 (Some "EMBEDDING_PROVIDER_ERROR") msg
  else if bool_decide (name = "AuthError") || mentions_auth msg then RError 401 (Some "AUTH_MISSING") msg
  else RError 500 (Some "INTERNAL") msg.

(** ** The user and the drive *)

Definition auth_error (message : string) : error := named_error "AuthError" message.

(** The drive a request names: an id, or a slug, which is a drive's name. *)
Definition resolveDrive (db : Db) (userId driveRef : string) : outcome error (string * string) :=
  match resolveContext db userId None (Some driveRef) with
  | Ok resolved => Ok (resolved.(ctx_orgId), resolved.(ctx_driveId))
  | Throw _ =>
      let named (org : string * string * Role * bool) :=
        (fun d : string * string * bool => (org.1.1.1, d.1.1)) <$>
          get_row (fun d : string * string * bool => d.1.2 = driveRef) (listDrivesForUser db org.1.1.1 userId) in
      match head (omap named (listUserOrgs db userId)) with
      | Some found => Ok found
      | None => Throw (named_error "NotFoundError" ("Drive not found: " +:+ driveRef))
      end
  end.

Section Ipc.
Context {rt : Runtime} {cfg : Config} {Store : Type} {SA : StorageAdapter Store}.
Variable fmt : Formats.
Variable extractPdfText : string -> option string.

Record IpcContext : Type := {
  ipc_embeddingProvider : option EmbeddingProvider;
  ipc_appUrl : option string;
  ipc_apiKey : option string
}.

Variable ctx : IpcContext.

(** The user's id. *)
Definition resolveAuth (now : Z) : OpM Store string :=
  key ← some_or_throw (truthy ctx.(ipc_apiKey)) (auth_error "daemon has no API key configured");
  found ← in_db (getUserByApiKey now key);
  user ← some_or_throw found (auth_error "API key did not resolve to a user");
  match truthy user.(rk_scopeOrgId) with
  | Some _ => throw (auth_error "API key is limited to one org; the daemon needs one of your own keys")
  | None => mret user.(rk_id)
  end.

Definition buildOpCtx (userId : string) (drive : string * string) : OpContext :=
  Build_OpContext drive.1 drive.2 userId ctx.(ipc_embeddingProvider) ctx.(ipc_appUrl) None None.

(** The user, then the drive, as every handler of a drive begins. *)
Definition on_drive {A} (now : Z) (driveRef : string) (k : OpContext -> OpM Store A) : OpM Store A :=
  userId ← resolveAuth now;
  drive ← reads (fun w => resolveDrive w.(w_db) userId driveRef);
  k (buildOpCtx userId drive).

(** [dispatchOp(opCtx, opName, ...)] of an op of the registry. *)
Definition dispatch_op {A} (opCtx : OpContext) (opName : string) (handler : OpM Store A) : OpM Store A :=
  _ ← reads (fun w => checkPermission w.(w_db) opCtx.(op_userId) opCtx.(op_driveId) (getRequiredRole opName));
  handler.

(** ** The handlers *)

(** [Math.floor(date.getTime() / 1000)]. *)
Definition unix_seconds (ms : Z) : Z := ms / 1000.

Definition dir_attr : AttrInfo :=
  {| at_kind := NodeDir; at_size := 0; at_mtime_unix := 0; at_version := None; at_content_hash := None |}.

Definition get_attr (now : Z) (path : string) (opCtx : OpContext) : OpM Store Response :=
  try_catch
    (st ← dispatch_op opCtx "stat" (stat now opCtx path);
     mret (RAttr {| at_kind := NodeFile; at_size := st.(st_size); at_mtime_unix := unix_seconds st.(st_modifiedAt);
                    at_version := st.(st_currentVersion); at_content_hash := None |}))
    (fun e =>
       if bool_decide (error_name e = "NotFoundError") then
         listing ← try_catch (es ← dispatch_op opCtx "ls" (ls opCtx (Some path)); mret (Some es)) (fun _ => mret None);
         match listing with
         | Some (_ :: _) => mret (RAttr dir_attr)
         | _ => throw e
         end
       else throw e).

Definition dir_entry (now : Z) (e : LsEntry) : DirEntry :=
  {| de_name := e.(ls_name); de_kind := if decide (e.(ls_type) = KindDirectory) then NodeDir else NodeFile;
     de_size := e.(ls_size);
     de_mtime_unix := match e.(ls_modifiedAt) with Some t => unix_seconds t | None => 0 end;
     de_version := None; de_content_hash := None |}.

Definition read_dir (now : Z) (path : option string) (opCtx : OpContext) : OpM Store Response :=
  entries ← dispatch_op opCtx "ls" (ls opCtx (Some (path ?? "/")));
  mret (RDirEntries (dir_entry now <$> entries)).

Definition open_read (path : string) (opCtx : OpContext) : OpM Store Response :=
  object ← in_store (getObject (getS3Key opCtx.(op_orgId) opCtx.(op_driveId) path) None);
  head ← query (fun db => getHeadVersionRow db opCtx.(op_driveId) path);
  mret (ROpenRead object.(get_body) ((hv_version <$> head) ?? 0) ((head ≫= hv_contentHash) ?? "")
          (blen object.(get_body)) (((fun h => unix_seconds h.(hv_createdAt)) <$> head) ?? 0)).

Definition saved (r : WriteResult) : Response := ROpenWrite r.(wr_version) r.(wr_contentHash) r.(wr_deduped).

Definition open_write (dr : Draws) (now : Z) (path : string) (base_version : option Z) (bytes : string) (opCtx : OpContext)
    : OpM Store Response :=
  result ← writeRaw fmt extractPdfText dr now opCtx path bytes None base_version;
  mret (saved result).

Definition truncate (dr : Draws) (now : Z) (path : string) (size : option Z) (opCtx : OpContext) : OpM Store Response :=
  let size := size ?? 0 in
  current ← in_store (getObject (getS3Key opCtx.(op_orgId) opCtx.(op_driveId) path) None);
  let len := blen current.(get_body) in
  let upto := Z.min size len in
  let upto := if upto <? 0 then Z.max 0 (len + upto) else upto in
  let trimmed := take_str (Z.to_nat upto) current.(get_body) in
  result ← writeRaw fmt extractPdfText dr now opCtx path trimmed None None;
  mret (saved result).

Definition rmdir (path : string) (opCtx : OpContext) : OpM Store Response :=
  entries ← dispatch_op opCtx "ls" (ls opCtx (Some path));
  mret (match entries with [] => ROk | _ :: _ => RError 409 (Some "VALIDATION") "directory not empty" end).

(** The drives of the user's orgs, as the answers name them: slug, id, org. *)
Definition visible_drives (db : Db) (userId : string) : list (string * string * string) :=
  org ← listUserOrgs db userId;
  (fun d : string * string * bool => (d.1.2, d.1.1, org.1.1.1)) <$> listDrivesForUser db org.1.1.1 userId.

(** [drives.find((d) => d.isDefault) ?? drives[0]] of the first org that has one. *)
Definition default_slug (db : Db) (userId : string) : option string :=
  head (omap (fun org : string * string * Role * bool =>
                let drives := listDrivesForUser db org.1.1.1 userId in
                (fun d : string * string * bool => d.1.2) <$>
                  match get_row (fun d : string * string * bool => d.2 = true) drives with
                  | Some d => Some d
                  | None => head drives
                  end) (listUserOrgs db userId)).

Definition dispatch (dr dr2 : Draws) (now : Z) (req : Request) : OpM Store Response :=
  match req with
  | Ping => mret RPong
  | Hello => mret ROk
  | ListDrives => userId ← resolveAuth now; drives ← query (fun db => visible_drives db userId); mret (RDrives drives)
  | DefaultDriveSlug => userId ← resolveAuth now; slug ← query (fun db => default_slug db userId); mret (RDefaultDriveSlug slug)
  | GetAttr drive path => on_drive now drive (get_attr now path)
  | ReadDir drive path => on_drive now drive (read_dir now path)
  | OpenRead drive path => on_drive now drive (open_read path)
  | OpenWrite drive path base_version bytes => on_drive now drive (open_write dr now path base_version bytes)
  | CreateFile drive path => on_drive now drive (open_write dr now path (Some 0) "")
  | Truncate drive path size => on_drive now drive (truncate dr now path size)
  | Unlink drive path => on_drive now drive (fun opCtx => _ ← dispatch_op opCtx "rm" (FileOps.rm dr now opCtx path None); mret ROk)
  | Rename drive from to_drive to_ =>
      on_drive now drive (fun opCtx => _ ← dispatch_op opCtx "mv" (FileOps.mv extractPdfText dr dr2 now opCtx from to_ None None); mret ROk)
  | Mkdir _ _ => _ ← resolveAuth now; mret ROk
  | Rmdir drive path => on_drive now drive (rmdir path)
  | RecordConflict => mret ROk
  | WriteStatus => mret ROk
  | OtherOp op => mret (RError 400 (Some "VALIDATION") ("unknown op: " +:+ op))
  end.

(** [body] is absent when the envelope's body is not an object. *)
Definition dispatchIpc (dr dr2 : Draws) (now : Z) (body : option Request) : OpM Store Response :=
  match body with
  | None => mret (RError 400 (Some "VALIDATION") "request body must be an object")
  | Some req => try_catch (dispatch dr dr2 now req) (fun e => mret (classifyError e))
  end.
End Ipc.

(** ** Whom a request acts for *)

(** The drive a request names, and the role that its handling needs. *)
Definition drive_of (req : Request) : option string :=
  match req with
  | GetAttr drive _ | ReadDir drive _ | OpenRead drive _ | OpenWrite drive _ _ _ | CreateFile drive _ | Truncate drive _ _
  | Unlink drive _ | Rename drive _ _ _ | Rmdir drive _ => Some drive
  | _ => None
  end.

Definition needed_role (req : Request) : Role :=
  match req with
  | OpenWrite _ _ _ _ | CreateFile _ _ | Truncate _ _ _ | Unlink _ _ | Rename _ _ _ _ => Editor
  | _ => Viewer
  end.

Lemma resolveDrive_sound db u ref o d : resolveDrive db u ref = Ok (o, d) ->
  is_Some (getUserDriveRole db u d) /\ exists row, row ∈ db.(drives) /\ row.(drv_id) = d /\ row.(drv_orgId) = o.
Proof.
  unfold resolveDrive. destruct (resolveContext db u None (Some ref)) as [rc|e] eqn:E.
  - intros [= <- <-]. apply resolveContext_sound in E as ((row & Hrow & Hid & Horg) & Hrole & _). split; [by eexists|eauto].
  - destruct (head (omap _ _)) as [found|] eqn:Eh; [|done]. intros [= ->]. clear E e.
    destruct (omap _ _) as [|x l] eqn:El in Eh; [done|]. injection Eh as ->.
    assert (Hin : (o, d) ∈ (o, d) :: l) by left. rewrite <- El in Hin.
    apply list_elem_of_omap in Hin as (org & _ & Horg). apply fmap_Some in Horg as (di & Hdi & [= -> ->]).
    apply get_row_some in Hdi as [Hdi _]. unfold listDrivesForUser in Hdi. apply list_elem_of_bind in Hdi as (row & Hdi & Hrow).
    apply list_elem_of_fmap in Hdi as (m & -> & Hm). apply list_elem_of_filter in Hrow as [Ho Hrow]. cbn.
    split; [|eauto]. unfold getUserDriveRole. apply fmap_is_Some. unfold get_row.
    destruct (filter _ _) as [|y t]; [by apply elem_of_nil in Hm|by eexists].
Qed.

Section Acts.
Context {rt : Runtime} {cfg : Config} {Store : Type} {SA : StorageAdapter Store} {SV : StorageView Store} {SL : StorageLaws Store}.
Variable fmt : Formats.
Variable extractPdfText : string -> option string.
Variable ctx : IpcContext.

(** The world after the key was looked up, which may have stamped its last use. *)
Definition stamped (now : Z) (w : World Store) : World Store :=
  match truthy ctx.(ipc_apiKey) with
  | Some key => w <| w_db := (getUserByApiKey now key w.(w_db)).2 |>
  | None => w
  end.

(** [key] is that of the user [u], and not confined to an org. *)
Definition key_of_user (now : Z) (db : Db) (u : string) : Prop :=
  exists key user, truthy ctx.(ipc_apiKey) = Some key /\ (getUserByApiKey now key db).1 = Ok (Some user) /\
    truthy user.(rk_scopeOrgId) = None /\ user.(rk_id) = u.

Lemma resolveAuth_run now (w : World Store) :
  exists o, resolveAuth ctx now w = (o, stamped now w) /\ forall u, o = Ok u -> key_of_user now w.(w_db) u.
Proof.
  unfold resolveAuth, stamped, key_of_user. destruct (truthy ctx.(ipc_apiKey)) as [key|]; [|by eexists].
  pose proof (getUserByApiKey_outcome now key w.(w_db)) as Ho.
  destruct (getUserByApiKey now key w.(w_db)) as [o db] eqn:E. cbn [fst] in Ho. subst o.
  set (found := match primary_match _ _ with Some _ => _ | None => _ end) in *. clearbody found.
  unfold mbind, M_bind, some_or_throw, in_db, on. cbn [mret M_ret]. rewrite E.
  destruct found as [user|]; [|by eexists]. cbn [mret M_ret]. destruct (truthy (rk_scopeOrgId user)) eqn:Es; [by eexists|].
  eexists. split; [reflexivity|]. intros u [= <-]. exists key, user. by rewrite E.
Qed.

Lemma key_stamp_members now key db : driveMembers (getUserByApiKey now key db).2 = driveMembers db /\
  drives (getUserByApiKey now key db).2 = drives db.
Proof.
  unfold getUserByApiKey, mbind, M_bind, gets. destruct (primary_match _ _); [done|]. destruct (key_match _ _) as [[k u]|]; [|done].
  by destruct (last_used_stale _ _).
Qed.

Lemma stamped_role now (w : World Store) u d : getUserDriveRole (stamped now w).(w_db) u d = getUserDriveRole w.(w_db) u d.
Proof.
  unfold stamped, getUserDriveRole. destruct (truthy _) as [key|]; [|done]. cbn. by rewrite (proj1 (key_stamp_members now key _)).
Qed.

(** ** Handlers that change nothing *)

Lemma getObject_quiet k I : preserves I (in_store (getObject k None) : OpM Store _).
Proof. apply in_store_silent. intros s. destruct (getObject k None s) as [o s'] eqn:E. by apply get_law in E as [-> _]. Qed.

Lemma headObject_quiet k I : preserves I (in_store (headObject k) : OpM Store _).
Proof. apply in_store_silent, headObject_silent. Qed.

Lemma listObjects_quiet p d n I : preserves I (in_store (listObjects p d n) : OpM Store _).
Proof. apply in_store_silent, listObjects_silent. Qed.

Hint Resolve getObject_quiet headObject_quiet listObjects_quiet : preserve.

Lemma dispatch_op_quiet {A} opCtx op (m : OpM Store A) I : preserves I m -> preserves I (dispatch_op opCtx op m).
Proof. intros Hm. unfold dispatch_op. preserve. Qed.

Lemma ls_quiet opCtx path I : preserves I (ls opCtx path : OpM Store _).
Proof. unfold ls, liveFolderPrefixes, is_live_prefix, query. preserve. Qed.

Lemma stat_quiet now opCtx path I : preserves I (stat now opCtx path : OpM Store _).
Proof. unfold stat, query. preserve. Qed.

Hint Resolve dispatch_op_quiet ls_quiet stat_quiet : preserve.

Lemma get_attr_quiet now path opCtx I : preserves I (get_attr now path opCtx : OpM Store _).
Proof. unfold get_attr. preserve. Qed.
Lemma read_dir_quiet now path opCtx I : preserves I (read_dir now path opCtx : OpM Store _).
Proof. unfold read_dir. preserve. Qed.
Lemma open_read_quiet path opCtx I : preserves I (open_read path opCtx : OpM Store _).
Proof. unfold open_read, query. preserve. Qed.
Lemma rmdir_quiet path opCtx I : preserves I (rmdir path opCtx : OpM Store _).
Proof. unfold rmdir. preserve. Qed.

(** A refused role: the op throws and nothing changes. *)
Definition refuses {A} (m : OpM Store A) (w : World Store) : Prop := exists e, m w = (Throw e, w).

Lemma refuses_reads {A B} (f : World Store -> outcome error A) (k : A -> OpM Store B) w e : f w = Throw e -> refuses (reads f ≫= k) w.
Proof. intros H. exists e. unfold mbind, M_bind, reads. by rewrite H. Qed.

Lemma dispatch_op_refuses {A} opCtx op (m : OpM Store A) w : roleAtLeast (getUserDriveRole w.(w_db) opCtx.(op_userId) opCtx.(op_driveId)) (getRequiredRole op) = false ->
  refuses (dispatch_op opCtx op m) w.
Proof.
  intros Hr. destruct (checkPermission w.(w_db) opCtx.(op_userId) opCtx.(op_driveId) (getRequiredRole op)) as [x|e] eqn:E.
  - destruct x. apply checkPermission_ok in E as (r & Hu & Hl). congruence.
  - by eapply (refuses_reads (fun w => checkPermission _ _ _ _)).
Qed.

Lemma writeRaw_refuses dr now opCtx path b message e w : roleAtLeast (getUserDriveRole w.(w_db) opCtx.(op_userId) opCtx.(op_driveId)) Editor = false ->
  refuses (writeRaw fmt extractPdfText dr now opCtx path b message e) w.
Proof.
  intros Hr. destruct (requireDriveRole w.(w_db) opCtx.(op_userId) opCtx.(op_driveId) Editor) as [x|err] eqn:E.
  - apply requireDriveRole_ok in E as [Hu Hl]. congruence.
  - by eapply (refuses_reads (fun w => requireDriveRole _ _ _ _)).
Qed.

Definition answered (m : OpM Store Response) : OpM Store Response := try_catch m (fun e => mret (classifyError e)).

Lemma classifyError_error e : exists st code msg, classifyError e = RError st code msg.
Proof. unfold classifyError. repeat case_match; by do 3 eexists. Qed.

(** The disjunction that the theorem states, of a response and the world after it. *)
Definition acts_for (now : Z) (ref : string) (needed : Role) (w : World Store) (resp : Response) (w' : World Store) : Prop :=
  (w' = stamped now w /\ exists st code msg, resp = RError st code msg) \/
  exists u org d role, key_of_user now w.(w_db) u /\ resolveDrive (stamped now w).(w_db) u ref = Ok (org, d) /\
    getUserDriveRole w.(w_db) u d = Some role /\ roleAtLeast (Some role) needed = true /\
    (needed = Viewer -> w' = stamped now w).

Lemma on_drive_acts now ref needed (k : OpContext -> OpM Store Response) w resp w' :
  (needed <> Viewer -> forall c w, roleAtLeast (getUserDriveRole w.(w_db) c.(op_userId) c.(op_driveId)) needed = false -> refuses (k c) w) ->
  (needed = Viewer -> forall c I, preserves I (k c)) ->
  answered (on_drive ctx now ref k) w = (Ok resp, w') -> acts_for now ref needed w resp w'.
Proof.
  intros Hrefuse Hquiet. unfold answered, try_catch, on_drive, mbind, M_bind.
  destruct (resolveAuth_run now w) as (o & -> & Hkey).
  assert (Herror : forall e, (mret (classifyError e) : OpM Store Response) (stamped now w) = (Ok resp, w') -> acts_for now ref needed w resp w').
  { intros e [= <- <-]. left. split; [done|apply classifyError_error]. }
  destruct o as [u|e]; [|by apply Herror]. specialize (Hkey u eq_refl). unfold reads.
  destruct (resolveDrive (w_db (stamped now w)) u ref) as [[org d]|e] eqn:Ed; [|by apply Herror].
  destruct (resolveDrive_sound _ _ _ _ _ Ed) as [[role Hrole] _]. rewrite stamped_role in Hrole.
  set (c := buildOpCtx ctx u (org, d)). destruct (roleAtLeast (Some role) needed) eqn:Hlevel.
  - destruct (k c (stamped now w)) as [o1 w1] eqn:Ek. intros Hrun. right. exists u, org, d, role. split_and!; try done.
    intros Hv. pose proof (Hquiet Hv c (eq (stamped now w)) (stamped now w) eq_refl) as Hw. rewrite Ek in Hw. cbn in Hw. subst w1.
    by destruct o1; injection Hrun.
  - assert (Hn : needed <> Viewer) by (intros ->; by destruct role).
    destruct (Hrefuse Hn c (stamped now w)) as [e ->]; [|apply Herror].
    cbn. by rewrite stamped_role, Hrole.
Qed.

Lemma refuses_bind {A B} (m : OpM Store A) (f : A -> OpM Store B) w : refuses m w -> refuses (m ≫= f) w.
Proof. intros [e H]. exists e. unfold mbind, M_bind. by rewrite H. Qed.

Lemma open_write_refuses dr now path e b c w : roleAtLeast (getUserDriveRole w.(w_db) c.(op_userId) c.(op_driveId)) Editor = false ->
  refuses (open_write fmt extractPdfText dr now path e b c) w.
Proof. intros H. by apply refuses_bind, writeRaw_refuses. Qed.

Lemma truncate_refuses dr now path size c w : roleAtLeast (getUserDriveRole w.(w_db) c.(op_userId) c.(op_driveId)) Editor = false ->
  refuses (truncate fmt extractPdfText dr now path size c) w.
Proof.
  intros H. unfold truncate. pose proof (getObject_quiet (getS3Key c.(op_orgId) c.(op_driveId) path) (eq w) w eq_refl) as Hq.
  unfold refuses, mbind at 1, M_bind at 1. destruct (in_store (getObject _ None) w) as [[g|e] w1] eqn:E; cbn in Hq; subst w1; [|by exists e].
  by apply refuses_bind, writeRaw_refuses.
Qed.

(** C21: a request about a drive acts for the key's own user.  It either answers with
    an error and changes nothing (but the stamp of the key's last use), or the
    daemon's key is not confined to an org and its user has, on the drive that the
    request names, a role at least as high as the request needs; and a request
    that only reads changes nothing. *)
Theorem ipc_acts_for_the_key dr dr2 now req ref (w : World Store) resp w' :
  drive_of req = Some ref ->
  dispatchIpc fmt extractPdfText ctx dr dr2 now (Some req) w = (Ok resp, w') ->
  acts_for now ref (needed_role req) w resp w'.
Proof.
  intros Href. change (dispatchIpc fmt extractPdfText ctx dr dr2 now (Some req)) with (answered (dispatch fmt extractPdfText ctx dr dr2 now req)).
  destruct req; try discriminate Href; injection Href as ->; cbn [dispatch needed_role]; apply on_drive_acts; try done;
    intros _ c; auto using get_attr_quiet, read_dir_quiet, open_read_quiet, rmdir_quiet, open_write_refuses, truncate_refuses;
    intros w1 Hr; apply refuses_bind, dispatch_op_refuses; exact Hr.
Qed.

(** ** Saving *)

(** The save of a user who may write is the write at the version that was opened. *)
Lemma open_write_run dr now u org d role ref path base b (w : World Store) :
  resolveAuth ctx now w = (Ok u, stamped now w) -> resolveDrive (stamped now w).(w_db) u ref = Ok (org, d) ->
  getUserDriveRole w.(w_db) u d = Some role -> roleAtLeast (Some role) Editor = true ->
  dispatch fmt extractPdfText ctx dr dr now (OpenWrite ref path base b) w =
  (r ← writeInternal fmt extractPdfText dr now (buildOpCtx ctx u (org, d)) path b None base None getMaxUploadBytes; mret (saved r))
    (stamped now w).
Proof.
  intros Ha Hd Hr He. cbn [dispatch]. unfold on_drive. rewrite (op_bind_run _ _ _ _ _ Ha).
  assert (Hres : reads (fun w => resolveDrive w.(w_db) u ref) (stamped now w) = (Ok (org, d), stamped now w)) by (unfold reads; by rewrite Hd).
  rewrite (op_bind_run _ _ _ _ _ Hres). unfold open_write, writeRaw. etrans; [apply bind_assoc|].
  assert (Hrole : reads (fun w => requireDriveRole w.(w_db) u d Editor) (stamped now w) = (Ok role, stamped now w)).
  { unfold reads. by rewrite (proj2 (requireDriveRole_ok _ _ _ _ role) (conj (eq_trans (stamped_role now w u d) Hr) He)). }
  by rewrite (op_bind_run _ _ _ _ _ Hrole).
Qed.

(** A save over a version other than the one that was opened is a conflict, and
    changes nothing. *)
Theorem save_conflict dr now u org d role ref path e b (w : World Store) :
  resolveAuth ctx now w = (Ok u, stamped now w) -> resolveDrive (stamped now w).(w_db) u ref = Ok (org, d) ->
  getUserDriveRole w.(w_db) u d = Some role -> roleAtLeast (Some role) Editor = true -> blen b <= getMaxUploadBytes ->
  0 < e -> fv_version <$> head_version (stamped now w).(w_db) d (normalizePath path) <> Some e ->
  exists msg, dispatchIpc fmt extractPdfText ctx dr dr now (Some (OpenWrite ref path (Some e) b)) w
    = (Ok (RError 409 (Some "EDIT_CONFLICT") msg), stamped now w).
Proof.
  intros Ha Hd Hr He Hsize Hpos Hmoved. unfold dispatchIpc, try_catch. rewrite (open_write_run _ _ _ _ _ role) by done.
  pose proof (writeInternal_guard fmt extractPdfText dr now (buildOpCtx ctx u (org, d)) path b None None getMaxUploadBytes e
    (stamped now w) Hsize) as Hguard. cbv zeta in Hguard. rewrite decide_False in Hguard.
  - destruct Hguard as (err & Hrun & Herr). unfold mbind, M_bind. rewrite Hrun. destruct err as [| | | | | | | | | |? ? ? []]; cbn in Herr; try lia.
    by eexists.
  - cbn [op_driveId buildOpCtx snd]. destruct (head_version _ d (normalizePath path)) as [h|]; cbn in *; [naive_solver|].
    intros [->|[-> _]]; lia.
Qed.
End Acts.

(** ** Witnesses *)

Definition ipc_db : Db := sample_db
  <| users := [Build_User "u1" "a@x" None (toy_digest "k1") 0; Build_User "u2" "b@x" None (toy_digest "k2") 0] |>
  <| orgs ::= fun l => l ++ [Build_Org "o2" "other" false 0] |>
  <| orgMembers ::= fun l => l ++ [Build_OrgMember "o2" "u1" Admin] |>
  <| drives ::= fun l => l ++ [Build_Drive "d3" "o2" "default" true 0] |>
  <| driveMembers ::= fun l => l ++ [Build_DriveMember "d3" "u1" Admin] |>.
Definition ipc_world : World MemStore := sample_world <| w_db := ipc_db |>.
Definition daemon (key : string) : IpcContext :=
  {| ipc_embeddingProvider := None; ipc_appUrl := None; ipc_apiKey := Some key |}.

Notation sample_ipc key := (dispatchIpc (rt := ascii_runtime) sample_formats no_pdf (daemon key) (sample_draws "1") (sample_draws "2") 5000).

Lemma ipc_acts_for_the_key_witness :
  exists resp w', sample_ipc "k2" (Some (OpenWrite "default" "/a.txt" None "hi")) ipc_world = (Ok resp, w') /\
    acts_for (rt := ascii_runtime) (daemon "k2") 5000 "default" Editor ipc_world resp w'.
Proof.
  destruct (sample_ipc "k2" (Some (OpenWrite "default" "/a.txt" None "hi")) ipc_world) as [[resp|e] w'] eqn:E.
  - exists resp, w'. split; [reflexivity|].
    exact (ipc_acts_for_the_key (rt := ascii_runtime) (SL := memory_laws (rt := ascii_runtime)) sample_formats no_pdf (daemon "k2")
      (sample_draws "1") (sample_draws "2") 5000 (OpenWrite "default" "/a.txt" None "hi") "default" ipc_world resp w' eq_refl E).
  - exfalso. unfold dispatchIpc, try_catch in E. destruct (dispatch _ _ _ _ _ _ _ _) as [[x|x] y]; discriminate E.
Defined.

(** What the write left is what an open reads, and a stale save is refused. *)
Lemma saved_and_opened :
  let saved := (sample_ipc "k2" (Some (OpenWrite "default" "/a.txt" None "hi")) ipc_world).2 in
  (sample_ipc "k1" (Some (OpenRead "d1" "/a.txt")) saved).1
    = Ok (ROpenRead "hi" 1 (sha256hex (Runtime := ascii_runtime) "hi") 2 5) /\
  exists msg, (sample_ipc "k1" (Some (OpenWrite "d1" "/a.txt" (Some 7) "mine")) saved).1 = Ok (RError 409 (Some "EDIT_CONFLICT") msg).
Proof. split; [by vm_compute|]. eexists. by vm_compute. Qed.

(** A drive is named by its name, and every org starts with a drive "default": of
    two orgs, the second's default drive is listed but cannot be opened. *)
Theorem second_default_drive_unreachable :
  (sample_ipc "k1" (Some ListDrives) ipc_world).1
    = Ok (RDrives [("default", "d1", "o1"); ("secret", "d2", "o1"); ("default", "d3", "o2")]) /\
  resolveDrive ipc_db "u1" "default" = Ok ("o1", "d1").
Proof. by vm_compute. Qed.

(** A missing file is not answered as missing: the storage's error is classified
    by its text, as an internal error, or, if the path has the word "user" in it,
    as a key without a user. *)
Theorem missing_file_looks_unauthorised :
  (sample_ipc "k1" (Some (OpenRead "default" "/a.txt")) ipc_world).1
    = Ok (RError 500 (Some "INTERNAL") "NoSuchKey: o1/drives/d1/a.txt") /\
  (sample_ipc "k1" (Some (OpenRead "default" "/users.txt")) ipc_world).1
    = Ok (RError 401 (Some "AUTH_MISSING") "NoSuchKey: o1/drives/d1/users.txt").
Proof. by vm_compute. Qed.
