(* ===== verification/IpcFrames.v ===== *)
(** * The mount daemon's socket: server/src/ipc/server.ts

    A frame is a length, four bytes with the most significant first, and a body
    that a library packs.  The socket's data arrives in chunks of any size; the
    theorem: however the frames of a client are cut, the daemon handles their
    envelopes in order, once each, keeps the beginning of a frame that is still to
    come, and does not close the connection.  The packing library is a parameter
    ([Codec]); its one law is that it unpacks what it packed. *)

From S2P Require Import Prelude JsString Errors Text FileOps Utf16 Base64 DeliveryLog Sse.

(** ** The packing library *)

Section Frames.
Context {Body : Type}.

Record Envelope : Type := { env_id : Z; env_body : Body }.

Class Codec : Type := { pack : Envelope -> string; unpack : string -> option Envelope }.
Class CodecLaws (codec : Codec) : Prop := {
  unpack_pack : forall e, 0 <= e.(env_id) -> unpack (pack e) = Some e;
  pack_nonempty : forall e, pack e <> ""
}.
Context {codec : Codec}.

Definition MAX_FRAME_BYTES : Z := 64 * 1024 * 1024.

(** ** Lengths *)

Definition low_byte (v : Z) : ascii := byte_of (Z.land v 255).

(** [lenBuf.writeUInt32BE(v, 0)]. *)
Definition writeUInt32BE (v : Z) : string :=
  String (low_byte (Z.shiftr v 24)) (String (low_byte (Z.shiftr v 16)) (String (low_byte (Z.shiftr v 8)) (String (low_byte v) ""))).

(** [buf.readUInt32BE(0)], of a buffer with at least four bytes. *)
Definition readUInt32BE (buf : string) : Z :=
  match buf with
  | String a (String b (String c (String d _))) =>
      Z.lor (Z.shiftl (byte_value a) 24) (Z.lor (Z.shiftl (byte_value b) 16) (Z.lor (Z.shiftl (byte_value c) 8) (byte_value d)))
  | _ => 0
  end.

(** ** One frame *)

(** [None]: [writeUInt32BE] throws, for the length has no four bytes. *)
Definition encodeFrame (env : Envelope) : option string :=
  let body := pack env in
  if blen body <? 2 ^ 32 then Some (writeUInt32BE (blen body) +:+ body) else None.

(** What [decodeFrame] returns; [Undecodable]: the library throws. *)
Inductive decoded : Type := Incomplete | Undecodable | Decoded (env : Envelope) (rest : string).

Definition decodeFrame (buf : string) : decoded :=
  if blen buf <? 4 then Incomplete
  else
    let len := readUInt32BE buf in
    if blen buf <? 4 + len then Incomplete
    else match unpack (take_str (Z.to_nat len) (drop_str 4 buf)) with
         | Some env => Decoded env (drop_str (Z.to_nat (4 + len)) buf)
         | None => Undecodable
         end.

(** The end of [handleEnvelope]: the frame of the reply, under the request's id. *)
Definition handleEnvelope (env : Envelope) (respBody : Body) : option string :=
  let buf := pack {| env_id := env.(env_id); env_body := respBody |} in
  if blen buf <? 2 ^ 32 then Some (writeUInt32BE (blen buf) +:+ buf) else None.

(** ** The socket *)

(** What a call of [drainFrames] does: envelopes given to [handleEnvelope], and
    [socket.end()]. *)
Inductive socket_call : Type := HandleEnvelope (env : Envelope) | EndSocket.

(** [drainFrames], over the buffer of the connection; a frame takes at least one
    byte of it. *)
Fixpoint drainFrames (fuel : nat) (buf : string) : list socket_call * string :=
  match fuel with
  | O => ([], buf)
  | S fuel' =>
      if blen buf <? 4 then ([], buf)
      else
        let len := readUInt32BE buf in
        if (len =? 0) || (MAX_FRAME_BYTES <? len) then ([EndSocket], buf)
        else if blen buf <? 4 + len then ([], buf)
        else
          let body := take_str (Z.to_nat len) (drop_str 4 buf) in
          let buf := drop_str (Z.to_nat (4 + len)) buf in
          match unpack body with
          | None => ([EndSocket], buf)
          | Some env => let '(calls, buf) := drainFrames fuel' buf in (HandleEnvelope env :: calls, buf)
          end
  end.

(** [data(socket, chunk)]. *)
Definition on_data (buf chunk : string) : list socket_call * string :=
  let buf := buf +:+ chunk in drainFrames (String.length buf) buf.

(** The chunks of a connection, in turn. *)
Definition on_chunks (chunks : list string) : list socket_call * string :=
  foldl (fun st chunk => let '(calls, buf) := on_data st.2 chunk in (st.1 ++ calls, buf)) ([], "") chunks.

(** ** Lemmas *)

Lemma low_byte_value v : byte_value (low_byte v) = Z.land v 255.
Proof.
  unfold byte_value, low_byte, byte_of. change 255 with (Z.ones 8). rewrite Z.land_ones by lia.
  pose proof (Z.mod_pos_bound v (2 ^ 8) eq_refl). rewrite Ascii.nat_ascii_embedding by lia. lia.
Qed.

Lemma testbit_byte v k : 0 <= k -> Z.testbit (Z.land v 255) k = Z.testbit v k && (k <? 8).
Proof. intros Hk. change 255 with (Z.ones 8). rewrite Z.land_spec. f_equal. apply Z.testbit_ones_nonneg; lia. Qed.

Lemma testbit_part v n k : 0 <= n -> 0 <= k ->
  Z.testbit (Z.shiftl (Z.land (Z.shiftr v n) 255) n) k = Z.testbit v k && (n <=? k) && (k <? n + 8).
Proof.
  intros Hn Hk. rewrite Z.shiftl_spec by done. destruct (Z.leb_spec n k).
  - rewrite testbit_byte, Z.shiftr_spec by lia. replace (k - n + n) with k by lia. rewrite andb_true_r. f_equal.
    destruct (Z.ltb_spec (k - n) 8), (Z.ltb_spec k (n + 8)); lia || done.
  - rewrite Z.testbit_neg_r by lia. by rewrite andb_false_r.
Qed.

Lemma readUInt32BE_write v s : 0 <= v < 2 ^ 32 -> readUInt32BE (writeUInt32BE v +:+ s) = v.
Proof.
  intros Hv. cbn [writeUInt32BE String.append readUInt32BE]. rewrite !low_byte_value. apply Z.bits_inj'. intros k Hk.
  rewrite !Z.lor_spec, !testbit_part, testbit_byte by lia. destruct (Z.leb_spec 32 k).
  - assert (Hz : Z.testbit v k = false); [|by rewrite Hz].
    apply Z.bits_above_log2; [lia|]. destruct (Z.eq_dec v 0) as [->|]; [cbn; lia|]. apply (Z.lt_le_trans _ 32); [|done].
    apply Z.log2_lt_pow2; lia.
  - destruct (Z.testbit v k); [|done]. cbn [andb].
    destruct (Z.leb_spec 24 k), (Z.leb_spec 16 k), (Z.leb_spec 8 k), (Z.ltb_spec k (24 + 8)), (Z.ltb_spec k (16 + 8)),
      (Z.ltb_spec k (8 + 8)), (Z.ltb_spec k 8); done || lia.
Qed.

Lemma readUInt32BE_prefix s y : (4 <= String.length s)%nat -> readUInt32BE (s +:+ y) = readUInt32BE s.
Proof. do 4 (destruct s as [|? s]; [cbn; lia|]). done. Qed.

Lemma length_header v : String.length (writeUInt32BE v) = 4%nat.
Proof. done. Qed.

(** Two ways to cut one text. *)
Lemma app_split (s y f r : string) : s +:+ y = f +:+ r ->
  ((String.length f <= String.length s)%nat /\ exists s', s = f +:+ s' /\ s' +:+ y = r) \/
  ((String.length s < String.length f)%nat /\ exists f', f = s +:+ f').
Proof.
  revert s. induction f as [|c f IH]; intros s H; [left; split; [cbn; lia|by exists s]|].
  destruct s as [|d s]; [right; split; [cbn; lia|by exists (String c f)]|]. injection H as -> H.
  destruct (IH s H) as [(Hl & s' & -> & Hr)|(Hl & f' & ->)]; [left|right]; (split; [cbn; lia|]); by eexists.
Qed.

Definition frame (env : Envelope) : string := writeUInt32BE (blen (pack env)) +:+ pack env.

Definition frame_ok (env : Envelope) : Prop := 0 <= env.(env_id) /\ blen (pack env) <= MAX_FRAME_BYTES.

(** A buffer for which more bytes are awaited: the beginning of a frame. *)
Definition waiting (buf : string) : Prop :=
  blen buf < 4 \/ 0 < readUInt32BE buf <= MAX_FRAME_BYTES /\ blen buf < 4 + readUInt32BE buf.

Context {CL : CodecLaws codec}.

Lemma pack_length e : 0 < blen (pack e).
Proof. pose proof (pack_nonempty e). unfold blen. destruct (pack e); [done|cbn; lia]. Qed.

Lemma blen_app a b : blen (a +:+ b) = blen a + blen b.
Proof. unfold blen. rewrite length_app_str. lia. Qed.

Lemma frame_length e : blen (frame e) = 4 + blen (pack e).
Proof. unfold frame. by rewrite blen_app. Qed.

Lemma frame_reads_32 e s : blen (pack e) < 2 ^ 32 -> readUInt32BE (frame e +:+ s) = blen (pack e).
Proof. intros Hs. unfold frame. rewrite app_assoc_str. apply readUInt32BE_write. pose proof (pack_length e). lia. Qed.

Lemma frame_reads e s : frame_ok e -> readUInt32BE (frame e +:+ s) = blen (pack e).
Proof. intros [_ Hs]. apply frame_reads_32. unfold MAX_FRAME_BYTES in Hs. lia. Qed.

Lemma frame_body e s : take_str (Z.to_nat (blen (pack e))) (drop_str 4 (frame e +:+ s)) = pack e /\
  drop_str (Z.to_nat (4 + blen (pack e))) (frame e +:+ s) = s.
Proof.
  split.
  - unfold frame. rewrite app_assoc_str. change 4%nat with (String.length (writeUInt32BE (blen (pack e)))).
    rewrite drop_str_app. unfold blen. rewrite Nat2Z.id. apply take_str_app.
  - rewrite <- frame_length. unfold blen at 1. rewrite Nat2Z.id. apply drop_str_app.
Qed.

Lemma drain_waiting n s : waiting s -> drainFrames n s = ([], s).
Proof.
  destruct n as [|n]; [done|]. intros Hw. cbn [drainFrames]. destruct (Z.ltb_spec (blen s) 4); [done|].
  destruct Hw as [|[Hlen Hshort]]; [lia|]. rewrite (proj2 (Z.eqb_neq _ 0)) by lia. rewrite (proj2 (Z.ltb_ge _ (readUInt32BE s))) by lia.
  cbn [orb]. by rewrite (proj2 (Z.ltb_lt _ _)).
Qed.

Lemma drain_frame n e s : frame_ok e ->
  drainFrames (S n) (frame e +:+ s) = let '(calls, buf) := drainFrames n s in (HandleEnvelope e :: calls, buf).
Proof.
  intros He. pose proof (pack_length e). pose proof He as [Hid Hmax]. cbn [drainFrames]. rewrite blen_app, frame_length, frame_reads by done.
  assert (0 <= blen s) by (unfold blen; lia).
  rewrite (proj2 (Z.ltb_ge _ 4)) by lia. rewrite (proj2 (Z.eqb_neq _ 0)), (proj2 (Z.ltb_ge MAX_FRAME_BYTES _)) by lia. cbn [orb].
  rewrite (proj2 (Z.ltb_ge _ (4 + _))) by lia. destruct (frame_body e s) as [-> ->]. by rewrite unpack_pack.
Qed.

(** A prefix of a waiting buffer, or of a frame, waits. *)
Lemma prefix_waits s y : waiting (s +:+ y) -> waiting s.
Proof.
  unfold waiting. rewrite blen_app. assert (0 <= blen y) by (unfold blen; lia). intros [?|[Hl Hs]]; [left; lia|].
  destruct (Z.lt_ge_cases (blen s) 4); [by left|right]. rewrite readUInt32BE_prefix in Hl, Hs by (unfold blen in *; lia). lia.
Qed.

Lemma prefix_of_frame_waits s f e : frame_ok e -> frame e = s +:+ f -> (String.length s < String.length (frame e))%nat -> waiting s.
Proof.
  intros He Hf Hl. destruct (Z.lt_ge_cases (blen s) 4); [by left|right].
  assert (Hr : readUInt32BE s = blen (pack e)).
  { rewrite <- (readUInt32BE_prefix s f) by (unfold blen in *; lia). rewrite <- Hf, <- (app_nil_r_str (frame e)). by apply frame_reads. }
  pose proof (frame_length e). pose proof (pack_length e). destruct He as [_ Hmax]. rewrite Hr. unfold blen in *. lia.
Qed.

(** The loop over a prefix of a client's stream: some of its frames, and the
    beginning of the next, from which the loop goes on as if it had not stopped. *)
Lemma drain_prefix es tail s y n : Forall frame_ok es -> waiting tail -> s +:+ y = concat_str (frame <$> es) +:+ tail ->
  (String.length s <= n)%nat ->
  exists es1 es2 rest, es = es1 ++ es2 /\ drainFrames n s = (HandleEnvelope <$> es1, rest) /\
    rest +:+ y = concat_str (frame <$> es2) +:+ tail /\ waiting rest.
Proof.
  intros Hes Ht. revert s n. induction Hes as [|e es He Hes IH]; intros s n Heq Hn.
  - cbn in Heq. assert (waiting s) by (apply (prefix_waits s y); by rewrite Heq).
    exists [], [], s. split; [done|]. split; [by apply drain_waiting|done].
  - cbn [fmap list_fmap concat_str foldr] in Heq. rewrite app_assoc_str in Heq.
    destruct (app_split _ _ _ _ Heq) as [(Hl & s' & -> & Hs')|(Hl & f' & Hf)].
    + pose proof (frame_length e) as Hfl. pose proof (pack_length e). rewrite length_app_str in Hn. unfold blen in *.
      destruct n as [|n]; [lia|]. destruct (IH s' n Hs' ltac:(lia)) as (es1 & es2 & rest & -> & Hd & Hr).
      exists (e :: es1), es2, rest. split; [done|]. split; [|done]. rewrite drain_frame by done. by rewrite Hd.
    + assert (waiting s) by by apply (prefix_of_frame_waits s f' e).
      exists [], (e :: es), s. split; [done|]. split; [by apply drain_waiting|]. split; [|done].
      cbn [fmap list_fmap concat_str foldr]. by rewrite app_assoc_str.
Qed.

(** The chunks of a prefix of a client's stream. *)
Lemma on_chunks_prefix es tail chunks y : Forall frame_ok es -> waiting tail ->
  concat_str chunks +:+ y = concat_str (frame <$> es) +:+ tail ->
  exists es1 es2 rest, es = es1 ++ es2 /\ on_chunks chunks = (HandleEnvelope <$> es1, rest) /\
    rest +:+ y = concat_str (frame <$> es2) +:+ tail /\ waiting rest.
Proof.
  intros Hes Htail. revert y. induction chunks as [|c chunks IH] using rev_ind; intros y Hy.
  - exists [], es, "". do 3 (split; [done|]). by left.
  - rewrite concat_app, app_assoc_str in Hy. cbn [concat_str foldr] in Hy. rewrite app_nil_r_str in Hy.
    destruct (IH (c +:+ y) Hy) as (es1 & es2 & rest & -> & Hrun & Hrest & _). apply Forall_app in Hes as [_ Hes2].
    rewrite <- app_assoc_str in Hrest.
    destruct (drain_prefix es2 tail _ y (String.length (rest +:+ c)) Hes2 Htail Hrest ltac:(lia)) as (es3 & es4 & rest' & -> & Hd & Hr).
    exists (es1 ++ es3), es4, rest'. rewrite app_assoc. split; [done|]. split; [|done].
    unfold on_chunks in *. rewrite foldl_app, Hrun. cbn [foldl fst snd]. unfold on_data. rewrite Hd. by rewrite fmap_app.
Qed.

(** A buffer that begins with a whole frame does not wait. *)
Lemma frame_not_waiting e s : frame_ok e -> ~ waiting (frame e +:+ s).
Proof.
  intros He. unfold waiting. rewrite frame_reads, blen_app, frame_length by done. pose proof (pack_length e).
  assert (0 <= blen s) by (unfold blen; lia). lia.
Qed.

Lemma decode_frame e f rest : 0 <= e.(env_id) -> encodeFrame e = Some f -> decodeFrame (f +:+ rest) = Decoded e rest.
Proof.
  intros Hid He. unfold encodeFrame in He. destruct (Z.ltb_spec (blen (pack e)) (2 ^ 32)) as [Hs|]; [|done]. injection He as <-.
  change (decodeFrame (frame e +:+ rest) = Decoded e rest).
  unfold decodeFrame. pose proof (pack_length e). rewrite blen_app, frame_length, frame_reads_32 by done.
  assert (0 <= blen rest) by (unfold blen; lia). rewrite !(proj2 (Z.ltb_ge _ _)) by lia.
  destruct (frame_body e rest) as [-> ->]. by rewrite unpack_pack.
Qed.

(** What a client may send: encoded envelopes that are not above the limit. *)
Definition sent (e : Envelope) (f : string) : Prop :=
  0 <= e.(env_id) /\ blen f <= 4 + MAX_FRAME_BYTES /\ encodeFrame e = Some f.

Lemma sent_frames es fs : Forall2 sent es fs -> fs = frame <$> es /\ Forall frame_ok es.
Proof.
  induction 1 as [|e f es fs (Hid & Hmax & He) _ [-> Hes]]; [by split; [|constructor]|].
  unfold encodeFrame in He. destruct (_ <? _); [|done]. injection He as <-. split; [done|]. constructor; [|done].
  split; [done|]. change (blen (frame e) <= 4 + MAX_FRAME_BYTES) in Hmax. rewrite frame_length in Hmax. lia.
Qed.

(** C22: frames reach the handler.  However the bytes of a client's frames are cut
    into chunks, the daemon handles exactly their envelopes, in order and once each,
    keeps the beginning of the frame that is still to come, and does not end the
    connection; and the reply to each decodes, whatever follows it, to the same id
    with the handler's answer. *)
Theorem frames_reach_the_handler es fs tail chunks
    (Hframes : Forall2 sent es fs)
    (Htail : waiting tail) (Htext : concat_str chunks = concat_str fs +:+ tail) :
  on_chunks chunks = (HandleEnvelope <$> es, tail) /\
  Forall (fun e => forall answer reply rest, handleEnvelope e answer = Some reply ->
    decodeFrame (reply +:+ rest) = Decoded {| env_id := e.(env_id); env_body := answer |} rest) es.
Proof.
  destruct (sent_frames _ _ Hframes) as [-> Hes]. split.
  - destruct (on_chunks_prefix es tail chunks "" Hes Htail) as (es1 & es2 & rest & -> & Hrun & Hrest & Hw);
      [by rewrite app_nil_r_str|].
    rewrite app_nil_r_str in Hrest. subst rest. apply Forall_app in Hes as [_ Hes2]. destruct es2 as [|e es2].
    + by rewrite app_nil_r.
    + exfalso. cbn [fmap list_fmap concat_str foldr] in Hw. rewrite app_assoc_str in Hw.
      apply Forall_cons in Hes2 as [He _]. by apply (frame_not_waiting e _ He) in Hw.
  - apply (Forall_impl _ _ _ Hes). intros e [Hid _] answer reply rest Hreply. by apply decode_frame.
Qed.
End Frames.
Arguments Envelope : clear implicits.
Arguments Codec : clear implicits.

(** ** A connection *)

(** A packing: the id in decimal, a colon, and the body. *)
Definition text_codec : Codec string := {|
  pack e := pretty e.(env_id) +:+ String ":"%char e.(env_body);
  unpack s := (fun p => {| env_id := digits_value 0 p.1; env_body := p.2 |}) <$> cut_first ":" s
|}.

Lemma text_codec_laws : CodecLaws text_codec.
Proof.
  split.
  - intros [i b] Hi. cbn [env_id] in Hi. cbn -[cut_first digits_value pretty]. destruct (pretty_digits i Hi) as [[_ Hd]%andb_true_iff Hv].
    destruct (digits_plain _ Hd) as [Hc _]. rewrite cut_first_colon by done. cbn [fmap option_fmap option_map fst snd]. by rewrite Hv.
  - intros [i b]. cbn [pack text_codec]. by destruct (pretty _).
Qed.

Definition two_requests : list (Envelope string) :=
  [{| env_id := 7; env_body := "ping" |}; {| env_id := 8; env_body := "hello" |}].

Definition two_frames : string := concat_str (omap (@encodeFrame _ text_codec) two_requests).

(** Two frames and the beginning of a third, cut inside the first length, inside
    the second body and inside the third length. *)
Lemma frames_reach_the_handler_witness :
  let tail := take_str 3 two_frames in
  @on_chunks _ text_codec [take_str 2 two_frames; take_str 17 (drop_str 2 two_frames); drop_str 19 two_frames +:+ tail] =
    (HandleEnvelope <$> two_requests, tail) /\
  Forall (fun e => forall answer reply rest, @handleEnvelope _ text_codec e answer = Some reply ->
    @decodeFrame _ text_codec (reply +:+ rest) = Decoded {| env_id := e.(env_id); env_body := answer |} rest) two_requests.
Proof.
  intros tail.
  apply (@frames_reach_the_handler _ text_codec text_codec_laws two_requests (omap (@encodeFrame _ text_codec) two_requests)).
  - repeat constructor; try (vm_compute; congruence); vm_compute; reflexivity.
  - left. vm_compute. reflexivity.
  - vm_compute. reflexivity.
Defined.

(** A length of zero ends the connection. *)
Example empty_frame_ends : @on_data _ text_codec "" (writeUInt32BE 0) = ([EndSocket], writeUInt32BE 0).
Proof. reflexivity. Qed.
