(* ===== verification/ShareRender.v ===== *)
(** * The share page: server/src/share/render.ts

    What a public link shows: the kind of a file by its name, the page's HTML and
    the headers that go with it.  The static texts of the page (its style sheet
    and its two scripts) and the Markdown renderer, which stands on a library, are
    parameters.  In the templates a backtick stands for a double quote ([q]).  The
    theorem: whatever a file is called and holds, it adds no markup to the page. *)

From S2P Require Import Prelude JsString Errors Paths Schema Invites Text FileOps Base64 Share Webhooks JbBytes RawRoute FileRoute Sse Utf16 Ipc.

(** ** Text of a page *)

Definition dquote : ascii := chr 34.

(** A template of the source: its double quotes are written as backticks. *)
Fixpoint q (template : string) : string :=
  match template with
  | EmptyString => EmptyString
  | String c rest => String (if bool_decide (c = "`"%char) then dquote else c) (q rest)
  end.

Definition ESCAPES (c : ascii) : option string :=
  if bool_decide (c = "&"%char) then Some "&amp;"
  else if bool_decide (c = "<"%char) then Some "&lt;"
  else if bool_decide (c = ">"%char) then Some "&gt;"
  else if bool_decide (c = dquote) then Some "&quot;"
  else if bool_decide (c = "'"%char) then Some "&#39;"
  else None.

(** The replacement of the five characters, everywhere. *)
Fixpoint escapeHtml (value : string) : string :=
  match value with
  | EmptyString => EmptyString
  | String c rest => (ESCAPES c ?? String c "") +:+ escapeHtml rest
  end.

(** ** Kinds of files *)

Definition EXTRA_MIME : list (string * string) := [
  ("avif", "image/avif"); ("bmp", "image/bmp"); ("mp3", "audio/mpeg"); ("wav", "audio/wav"); ("ogg", "audio/ogg");
  ("oga", "audio/ogg"); ("opus", "audio/ogg"); ("m4a", "audio/mp4"); ("aac", "audio/aac"); ("flac", "audio/flac");
  ("mp4", "video/mp4"); ("m4v", "video/mp4"); ("webm", "video/webm"); ("mov", "video/quicktime"); ("ogv", "video/ogg")].

Definition DOWNLOAD_ONLY_EXT : list string := ["xhtml"; "xht"; "shtml"; "mht"; "mhtml"; "svg"; "svgz"].
Definition HTML_EXT : list string := ["html"; "htm"].

Definition HTML_SANDBOX : string := "allow-scripts allow-forms allow-popups allow-popups-to-escape-sandbox allow-modals".
Definition HTML_RAW_CSP : string := "sandbox " +:+ HTML_SANDBOX +:+ "; frame-ancestors 'self'".
Definition SHARE_HTML_MAX_BYTES : Z := 25 * 1024 * 1024.

Definition EMBEDDABLE_MIME : list string := [
  "image/png"; "image/jpeg"; "image/gif"; "image/webp"; "image/avif"; "image/bmp"; "image/x-icon";
  "application/pdf";
  "audio/mpeg"; "audio/wav"; "audio/ogg"; "audio/mp4"; "audio/aac"; "audio/flac";
  "video/mp4"; "video/webm"; "video/quicktime"; "video/ogg"].

(** [ShareKind] of render.ts. *)
Inductive PreviewKind : Type := PkMarkdown | PkText | PkHtml | PkImage | PkPdf | PkAudio | PkVideo | PkSniff | PkNone.
#[export] Instance PreviewKind_eq_dec : EqDecision PreviewKind.
Proof. solve_decision. Defined.

Record ShareFileType : Type := { sft_mime : string; sft_kind : PreviewKind; sft_downloadOnly : bool }.

Section Render.
Context {rt : Runtime}.

Definition extensionOf (path : string) : string :=
  let name := last (split_on is_slash path) ?? "" in
  match split_on (fun c => bool_decide (c = "."%char)) name with
  | [] | [_] => ""
  | _ :: parts => toLowerCase (last parts ?? "")
  end.

Definition download_only : ShareFileType :=
  {| sft_mime := "application/octet-stream"; sft_kind := PkNone; sft_downloadOnly := true |}.
Definition file_type (mime : string) (kind : PreviewKind) : ShareFileType :=
  {| sft_mime := mime; sft_kind := kind; sft_downloadOnly := false |}.

Definition classifyShareFile (path : string) : ShareFileType :=
  let ext := extensionOf path in
  if bool_decide (ext ∈ DOWNLOAD_ONLY_EXT) then download_only
  else if bool_decide (ext ∈ HTML_EXT) then file_type "text/html" PkHtml
  else
    let mime := detectMimeType path in
    let mime := if bool_decide (mime = "application/octet-stream")
                then (snd <$> get_row (fun e => e.1 = ext) EXTRA_MIME) ?? mime else mime in
    if bool_decide (mime = "image/svg+xml") || bool_decide (mime = "text/html") then download_only
    else if bool_decide (mime = "text/markdown") then file_type mime PkMarkdown
    else if bool_decide (mime = "application/pdf") then file_type mime PkPdf
    else if bool_decide (mime ∈ EMBEDDABLE_MIME) then
      file_type mime (if starts_with "image/" mime then PkImage else if starts_with "audio/" mime then PkAudio else PkVideo)
    else if starts_with "text/" mime ||
            bool_decide (mime ∈ ["application/json"; "application/x-ndjson"; "application/xml"; "application/x-yaml"; "application/toml"])
    then file_type mime PkText
    else if bool_decide (mime = "application/octet-stream") then file_type mime PkSniff
    else file_type mime PkNone.

Definition isEmbeddable (type : ShareFileType) : bool :=
  bool_decide (type.(sft_mime) ∈ EMBEDDABLE_MIME) && negb type.(sft_downloadOnly).

Definition shareContentType (type : ShareFileType) : string :=
  if bool_decide (type.(sft_kind) = PkHtml) then "application/octet-stream" else withUtf8Charset type.(sft_mime).

(** ** Markdown that is safe to parse *)

Definition MAX_MARKDOWN_RENDER_CHARS : Z := 256 * 1024.

(** [\d{1,9}[.)]]. *)
Fixpoint ordinal_marker (digits : nat) (s : string) : option string :=
  match s with
  | String c rest =>
      if is_digit c then match digits with O => None | S d => ordinal_marker d rest end
      else if (bool_decide (c = "."%char) || bool_decide (c = ")"%char)) && Nat.ltb digits 9 then Some rest else None
  | EmptyString => None
  end.

(** [[ \t]*(?:>|[-*+]|\d{1,9}[.)])]: the text after it. *)
Fixpoint container_marker (s : string) : option string :=
  match s with
  | String c rest =>
      if bool_decide (c = " "%char) || bool_decide (c = chr 9) then container_marker rest
      else if bool_decide (c ∈ [">"; "-"; "*"; "+"]%char) then Some rest
      else ordinal_marker 9 s
  | EmptyString => None
  end.

Fixpoint container_markers (n : nat) (s : string) : bool :=
  match n with
  | O => true
  | S n' => match container_marker s with Some rest => container_markers n' rest | None => false end
  end.

(** [!DEEP_CONTAINER.test(markdown)], with the multi-line flag: at any line. *)
Definition isMarkdownSafeToRender (markdown : string) : bool :=
  (Z.of_nat (length (to_utf16 markdown)) <=? MAX_MARKDOWN_RENDER_CHARS) &&
  negb (existsb (container_markers 40) (lines (dot_lines markdown))).

(** ** Numbers of the page *)

(** [String(tenths / 10)]. *)
Definition tenths_text (tenths : Z) : string :=
  if bool_decide (tenths mod 10 = 0) then pretty (tenths / 10) else pretty (tenths / 10) +:+ "." +:+ pretty (tenths mod 10).

Definition UNITS : list string := ["KB"; "MB"; "GB"; "TB"].

(** The loop: the number of bytes of a unit, and the unit; after the last it stops. *)
Fixpoint unit_of (bytes_ divisor : Z) (units : list string) : Z * string :=
  match units with
  | [] => (divisor, "")
  | [u] => (divisor, u)
  | u :: rest => if divisor * 1024 <=? bytes_ then unit_of bytes_ (divisor * 1024) rest else (divisor, u)
  end.

(** [Math.round(n / d)]. *)
Definition round_div (n d : Z) : Z := (2 * n + d) / (2 * d).

Definition formatBytes (bytes_ : Z) : string :=
  if bytes_ <? 0 then "unknown size"
  else if bytes_ <? 1024 then pretty bytes_ +:+ " B"
  else
    let '(divisor, u) := unit_of bytes_ 1024 UNITS in
    (if 10 * divisor <=? bytes_ then pretty (round_div bytes_ divisor) else tenths_text (round_div (10 * bytes_) divisor)) +:+ " " +:+ u.

Definition plural (n : Z) : string := if n =? 1 then "" else "s".

Definition formatRemaining (ms : Z) : string :=
  let minutes := Z.max 1 (round_div ms 60000) in
  if minutes <? 60 then "in " +:+ pretty minutes +:+ " minute" +:+ plural minutes
  else
    let hours := round_div minutes 60 in
    if hours <? 48 then "in " +:+ pretty hours +:+ " hour" +:+ plural hours
    else "in " +:+ pretty (round_div hours 24) +:+ " days".

Definition formatReadingTime (words : Z) : string := pretty (Z.max 1 (round_div words 220)) +:+ " min read".

(** ** The page *)

(** A heading of the table of contents, and what [renderMarkdownDocument] of
    markdown.ts makes of a document. *)
Record TocEntry : Type := { toc_level : Z; toc_id : string; toc_text : string }.
Record PageScripts : Type := { ps_mermaid : bool; ps_math : bool; ps_highlight : bool }.
Record MarkdownDocument : Type := {
  md_html : string; md_frontmatter : option string; md_toc : list TocEntry; md_words : Z; md_features : PageScripts }.

Inductive EmbedTag : Type := TagImg | TagIframe | TagHtml | TagAudio | TagVideo.

Inductive ShareBody : Type :=
| SbMarkdown (doc : MarkdownDocument) (source : string)
| SbText (text : string)
| SbEmbed (tag : EmbedTag) (src : string)
| SbNone (reason : string).

Record SharePageInput : Type := {
  pg_token : string; pg_filename : string; pg_size : Z; pg_mime : string; pg_expiresAt : option Z; pg_now : Z;
  pg_viewsLeft : option Z; pg_grant : option string; pg_body : ShareBody }.

(** The static texts: STYLE, and the scripts of client.ts with their digests. *)
Record PageAssets : Type := {
  STYLE : string; THEME_INIT_SCRIPT : string; PAGE_SCRIPT : string; THEME_INIT_HASH : string; PAGE_SCRIPT_HASH : string }.
Variable assets : PageAssets.

Definition script_tag (script : string) : string := "<script>" +:+ script +:+ "</script>
".

Definition shell (title body : string) (scripts : bool) : string :=
  q "<!doctype html>
<html lang=`en`>
<head>
<meta charset=`utf-8`>
<meta name=`viewport` content=`width=device-width,initial-scale=1`>
<meta name=`robots` content=`noindex,nofollow,noarchive`>
<meta name=`referrer` content=`no-referrer`>
<meta name=`color-scheme` content=`light dark`>
<title>" +:+ escapeHtml title +:+ "</title>
" +:+ (if scripts then script_tag assets.(THEME_INIT_SCRIPT) else "") +:+ "<style>" +:+ assets.(STYLE) +:+ "</style>
</head>
<body>
" +:+ body +:+ "
" +:+ (if scripts then script_tag assets.(PAGE_SCRIPT) else "") +:+ "</body>
</html>
".

Definition renderExpiredPage : string :=
  shell "Link expired · agent-fs" (q "<div class=`center`>
<h1>This link has expired</h1>
<p>It has passed its expiry time, been revoked, or already been opened the maximum number of times.</p>
<p>Ask the person who shared it for a new link.</p>
</div>") false.

Definition renderUnavailablePage : string :=
  shell "File unavailable · agent-fs" (q "<div class=`center`>
<h1>This file is no longer available</h1>
<p>The shared file was deleted or moved. Ask the person who shared it for a new link.</p>
</div>") false.

Definition renderPreviewBotPage : string :=
  shell "Shared file · agent-fs" (q "<div class=`center`>
<h1>A file was shared with you</h1>
<p>Open this link in a browser to view and download it.</p>
</div>") false.

Definition grantQuery (grant : option string) : string :=
  match truthy grant with Some g => "?g=" +:+ encodeURIComponent g | None => "" end.

Definition renderEmbed (tag : EmbedTag) (rawSrc filename : string) : string :=
  let src := escapeHtml rawSrc in
  let label := escapeHtml filename in
  match tag with
  | TagImg => q "<img class=`media` src=`" +:+ src +:+ q "` alt=`" +:+ label +:+ q "`>"
  | TagIframe => q "<iframe class=`media` src=`" +:+ src +:+ q "` title=`" +:+ label +:+ q "`></iframe>"
  | TagHtml => q "<iframe class=`media page` src=`" +:+ src +:+ q "` title=`" +:+ label +:+ q "` sandbox=`" +:+ HTML_SANDBOX +:+
      q "` referrerpolicy=`no-referrer`></iframe>"
  | TagAudio => q "<audio class=`media` src=`" +:+ src +:+ q "` controls preload=`metadata`></audio>"
  | TagVideo => q "<video class=`media` src=`" +:+ src +:+ q "` controls preload=`metadata`></video>"
  end.

Definition MIN_TOC_ENTRIES : nat := 3.

Definition top_level (toc : list TocEntry) : Z := foldr (fun e top => Z.min e.(toc_level) top) (default 0 (toc_level <$> head toc)) toc.

Definition toc_item (top : Z) (e : TocEntry) : string :=
  q "<li class=`t" +:+ pretty (e.(toc_level) - top + 1) +:+ q "`><a href=`#" +:+ escapeHtml e.(toc_id) +:+ q "`>" +:+
  escapeHtml e.(toc_text) +:+ "</a></li>".

Definition renderTocList (doc : MarkdownDocument) : string :=
  "<ol>" +:+ join "" (toc_item (top_level doc.(md_toc)) <$> doc.(md_toc)) +:+ "</ol>".

Definition has_toc (doc : MarkdownDocument) : bool := Nat.leb MIN_TOC_ENTRIES (length doc.(md_toc)).

Definition renderMarkdownBody (doc : MarkdownDocument) (source : string) : string :=
  let hasToc := has_toc doc in
  let list := if hasToc then renderTocList doc else "" in
  q "<div class=`doc" +:+ (if hasToc then " has-toc" else "") +:+ q "`>
" +:+ (if hasToc then q "<details class=`toc-mobile`><summary>Contents</summary>" +:+ list +:+ "</details>" else "") +:+ q "
<div class=`doc-tools js-only`><button type=`button` class=`tool source-toggle` aria-pressed=`false`>View source</button><button type=`button` class=`tool copy-md`>Copy markdown</button></div>
<div class=`doc-body`>
" +:+ (doc.(md_frontmatter) ?? "") +:+ "
<article>" +:+ doc.(md_html) +:+ q "</article>
</div>
<pre class=`source` hidden>" +:+ escapeHtml source +:+ "</pre>
" +:+ (if hasToc then q "<nav class=`toc` aria-label=`Contents`><p class=`toc-title`>Contents</p>" +:+ list +:+ "</nav>" else "") +:+ "
</div>".

Definition renderBody (input : SharePageInput) : string :=
  match input.(pg_body) with
  | SbMarkdown doc source => renderMarkdownBody doc source
  | SbText text => "<pre>" +:+ escapeHtml text +:+ "</pre>"
  | SbEmbed tag src => renderEmbed tag src input.(pg_filename)
  | SbNone reason => q "<div class=`card`><h2>No preview available</h2><p>" +:+ escapeHtml reason +:+ "</p></div>"
  end.

Definition THEME_PICKER : string := q "<select class=`theme-select js-only` aria-label=`Theme`>
<option value=`system`>System</option><option value=`light`>Light</option><option value=`dark`>Dark</option>
</select>".

(** [iso.replace("T", " ").slice(0, 16)]. *)
Definition short_date (iso : string) : string :=
  take_str 16 (match cut_first "T" iso with Some (before, after) => before +:+ " " +:+ after | None => iso end).

Definition expiry_text (expiresAt : option Z) (now : Z) : string :=
  match expiresAt with
  | None => "Never expires"
  | Some t => q "Expires <time datetime=`" +:+ toISOString t +:+ q "`>" +:+ escapeHtml (short_date (toISOString t)) +:+
      " UTC</time> (" +:+ formatRemaining (t - now) +:+ ")"
  end.

Definition views_note (viewsLeft : option Z) : string :=
  match viewsLeft with
  | None => ""
  | Some n =>
      if n =? 0 then q "<p class=`note`>This link has now been used up and will not open again. Download the file now if you need it.</p>"
      else q "<p class=`note`>This link can be opened " +:+ pretty n +:+ " more time" +:+ plural n +:+ ".</p>"
  end.

Definition open_full_page (body : ShareBody) : string :=
  match body with
  | SbEmbed TagHtml src => q "<a class=`btn ghost` href=`" +:+ escapeHtml src +:+ q "` target=`_blank` rel=`noopener noreferrer`>Open full page</a>
"
  | _ => ""
  end.

Definition renderSharePage (input : SharePageInput) : string :=
  let type := if bool_decide (input.(pg_mime) = "application/octet-stream") then "" else escapeHtml input.(pg_mime) +:+ " · " in
  let reading := match input.(pg_body) with SbMarkdown doc _ => formatReadingTime doc.(md_words) +:+ " · " | _ => "" end in
  let wide := match input.(pg_body) with SbMarkdown doc _ => has_toc doc | _ => false end in
  shell (input.(pg_filename) +:+ " · agent-fs")
    (q "<header class=`bar`>
<div class=`bar-title`>
<h1>" +:+ escapeHtml input.(pg_filename) +:+ q "</h1>
<p class=`sub`>" +:+ type +:+ escapeHtml (formatBytes input.(pg_size)) +:+ " · " +:+ reading +:+
     expiry_text input.(pg_expiresAt) input.(pg_now) +:+ q "</p>
</div>
<div class=`actions`>
" +:+ THEME_PICKER +:+ "
" +:+ open_full_page input.(pg_body) +:+ q "<a class=`btn` href=`/share/" +:+ input.(pg_token) +:+ "/download" +:+
     grantQuery input.(pg_grant) +:+ q "`>Download</a>
</div>
</header>
<main" +:+ (if wide then q " class=`wide`" else "") +:+ ">
" +:+ views_note input.(pg_viewsLeft) +:+ "
" +:+ renderBody input +:+ "
</main>
<footer>Shared with agent-fs</footer>") true.

(** ** Headers *)

Definition pageScripts (body : ShareBody) : PageScripts :=
  match body with
  | SbMarkdown doc _ => doc.(md_features)
  | _ => {| ps_mermaid := false; ps_math := false; ps_highlight := false |}
  end.

Definition CDN : string := "https://cdn.jsdelivr.net/npm".
Definition mermaid_src : string := CDN +:+ "/mermaid@11.17.2/dist/mermaid.min.js".
Definition katex_src : string := CDN +:+ "/katex@0.18.9/dist/katex.min.js".
Definition katexCss_src : string := CDN +:+ "/katex@0.18.9/dist/katex.min.css".
Definition katexFonts : string := CDN +:+ "/katex@0.18.9/dist/fonts/".
Definition highlight_src : string := CDN +:+ "/@highlightjs/cdn-assets@11.12.0/highlight.min.js".

Definition script_directives (s : PageScripts) : list string :=
  ("script-src " +:+ join " " ([assets.(THEME_INIT_HASH); assets.(PAGE_SCRIPT_HASH)] ++
      (if s.(ps_highlight) then [highlight_src] else []) ++ (if s.(ps_math) then [katex_src] else []) ++
      (if s.(ps_mermaid) then [mermaid_src] else []))) ::
  (if s.(ps_math) then ["font-src " +:+ katexFonts] else []).

Definition buildCsp (embedSource : option string) (scripts : option PageScripts) : string :=
  let math := match scripts with Some s => s.(ps_math) | None => false end in
  join "; " (
    ["default-src 'none'";
     "style-src " +:+ join " " ("'unsafe-inline'" :: (if math then [katexCss_src] else []));
     "base-uri 'none'"; "form-action 'none'"; "frame-ancestors 'none'"] ++
    match scripts with Some s => script_directives s | None => [] end ++
    match truthy embedSource with
    | Some src => ["img-src " +:+ src; "media-src " +:+ src; "frame-src " +:+ src]
    | None => []
    end).

Definition SHARE_BASELINE_CSP : string :=
  "default-src 'none'; base-uri 'none'; form-action 'none'; frame-ancestors 'none'; sandbox".

(** [{...base, ...extra}]. *)
Definition spread (base extra : list (string * string)) : list (string * string) :=
  ((fun h => (h.1, header h.1 extra ?? h.2)) <$> base) ++ filter (fun h => header h.1 base = None) extra.

Definition shareSecurityHeaders (extra : list (string * string)) : list (string * string) :=
  spread [("Cache-Control", "no-store"); ("X-Content-Type-Options", "nosniff"); ("Referrer-Policy", "no-referrer");
          ("X-Robots-Tag", "noindex, nofollow, noarchive"); ("X-Frame-Options", "DENY");
          ("Content-Security-Policy", SHARE_BASELINE_CSP)] extra.

Definition PREVIEW_BOT_UA : list string := [
  "slackbot"; "slack-imgproxy"; "twitterbot"; "facebookexternalhit"; "facebot"; "whatsapp"; "telegrambot"; "discordbot";
  "linkedinbot"; "skypeuripreview"; "embedly"; "pinterest"; "redditbot"; "googlebot"; "bingbot"; "applebot"; "iframely";
  "vkshare"; "mattermost"].

(** The expression is an alternative of words, without regard to case. *)
Definition isLinkPreviewBot (userAgent : option string) : bool :=
  match userAgent with
  | None => false
  | Some ua => existsb (fun word => bool_decide (is_Some (cut_first word (sql_lower ua)))) PREVIEW_BOT_UA
  end.
End Render.

(** ** No markup from a file *)

Definition is_markup (c : ascii) : bool := in_chars "<>'" c || bool_decide (c = dquote).

(** The characters of a text that delimit tags and attributes. *)
Fixpoint markup (s : string) : string :=
  match s with
  | EmptyString => EmptyString
  | String c rest => if is_markup c then String c (markup rest) else markup rest
  end.

Lemma markup_app a b : markup (a +:+ b) = markup a +:+ markup b.
Proof.
  induction a as [|c a IH]; [done|]. change (String c a +:+ b) with (String c (a +:+ b)). cbn [markup].
  destruct (is_markup c); rewrite IH; done.
Qed.

Lemma markup_escape_char c : markup (ESCAPES c ?? String c "") = "".
Proof. by destruct c as [[] [] [] [] [] [] [] []]; vm_compute. Qed.

Lemma markup_escape s : markup (escapeHtml s) = "".
Proof. induction s as [|c s IH]; [done|]. cbn [escapeHtml]. by rewrite markup_app, IH, markup_escape_char. Qed.

Lemma markup_plain s : all_chars (fun c => negb (is_markup c)) s = true -> markup s = "".
Proof.
  induction s as [|c s IH]; [done|]. cbn [all_chars markup]. intros [Hc Hs]%andb_true_iff.
  apply negb_true_iff in Hc. rewrite Hc. by apply IH.
Qed.

Lemma markup_digits s : all_chars is_digit s = true -> markup s = "".
Proof.
  intros Hs. apply markup_plain. revert Hs. apply all_chars_impl. intros c. unfold is_digit.
  destruct c as [[] [] [] [] [] [] [] []]; vm_compute; done.
Qed.

Lemma markup_pretty (z : Z) : markup (pretty z) = "".
Proof.
  assert (Hnat : forall n, 0 <= n -> markup (pretty n) = "").
  { intros n Hn. apply markup_digits. destruct (pretty_digits n Hn) as [Hd _]. by apply andb_true_iff in Hd as [_ Hd]. }
  destruct z as [|p|p]; [done|by apply Hnat|]. change (pretty (Zneg p)) with ("-" +:+ pretty (Zpos p)).
  rewrite markup_app. by rewrite Hnat.
Qed.

Lemma markup_join l : markup (join "" l) = join "" (markup <$> l).
Proof.
  induction l as [|x l IH]; [done|]. destruct l as [|y l]; [done|].
  change (join "" (x :: y :: l)) with (x +:+ "" +:+ join "" (y :: l)). rewrite !markup_app, IH. done.
Qed.

Lemma markup_pad n z : markup (pad n z) = "".
Proof.
  unfold pad. rewrite markup_app, markup_pretty, app_nil_r_str.
  induction (n - String.length (pretty z))%nat as [|k IH]; [done|]. exact IH.
Qed.

Lemma markup_iso t : markup (toISOString t) = "".
Proof.
  unfold toISOString. destruct (civil_of_days _) as [[y m] d]. by rewrite !markup_app, !markup_pad.
Qed.

Lemma markup_plural n : markup (plural n) = "".
Proof. unfold plural. by case_match. Qed.

Lemma markup_remaining ms : markup (formatRemaining ms) = "".
Proof. unfold formatRemaining. repeat case_match; rewrite !markup_app, ?markup_pretty, ?markup_plural; done. Qed.

Lemma markup_token s : is_token s = true -> markup s = "".
Proof.
  intros [_ Hs]%andb_true_iff. apply markup_plain. revert Hs. apply all_chars_impl. intros c.
  destruct c as [[] [] [] [] [] [] [] []]; vm_compute; done.
Qed.

Lemma token_encode s : is_token s = true -> encodeURIComponent s = s.
Proof.
  intros [_ Hs]%andb_true_iff. apply encode_kept. revert Hs. apply all_chars_impl. intros c.
  destruct c as [[] [] [] [] [] [] [] []]; vm_compute; done.
Qed.

Lemma markup_grant grant : (forall g, grant = Some g -> is_token g = true) -> markup (grantQuery grant) = "".
Proof.
  intros Hg. unfold grantQuery. destruct (truthy grant) as [g|] eqn:E; [|done].
  assert (grant = Some g) by (unfold truthy in E; destruct grant as [[|]|]; congruence).
  specialize (Hg g ltac:(done)). rewrite markup_app, (token_encode _ Hg), (markup_token _ Hg). done.
Qed.

(** A page about nothing: the same structure, and no content. *)
Definition blank_entry (e : TocEntry) : TocEntry := {| toc_level := 0; toc_id := ""; toc_text := "" |}.

Definition blank_body (body : ShareBody) : ShareBody :=
  match body with
  | SbMarkdown doc _ =>
      SbMarkdown {| md_html := doc.(md_html); md_frontmatter := doc.(md_frontmatter); md_toc := blank_entry <$> doc.(md_toc);
                    md_words := 0; md_features := doc.(md_features) |} ""
  | SbText _ => SbText ""
  | SbEmbed tag _ => SbEmbed tag ""
  | SbNone _ => SbNone ""
  end.

Definition blank_page (input : SharePageInput) : SharePageInput :=
  {| pg_token := ""; pg_filename := ""; pg_size := 0; pg_mime := ""; pg_expiresAt := (fun _ => 0) <$> input.(pg_expiresAt);
     pg_now := 0; pg_viewsLeft := (fun _ => 0) <$> input.(pg_viewsLeft); pg_grant := None; pg_body := blank_body input.(pg_body) |}.

Section Markup.
Variable assets : PageAssets.

Lemma markup_shell title title' body body' scripts : markup body = markup body' ->
  markup (shell assets title body scripts) = markup (shell assets title' body' scripts).
Proof. intros Hb. unfold shell. rewrite !markup_app, !markup_escape. by rewrite Hb. Qed.

Lemma markup_embed tag src src' name name' : markup (renderEmbed tag src name) = markup (renderEmbed tag src' name').
Proof. destruct tag; cbn [renderEmbed]; by rewrite !markup_app, !markup_escape. Qed.

Lemma markup_toc_item top top' e e' : markup (toc_item top e) = markup (toc_item top' e').
Proof. unfold toc_item. by rewrite !markup_app, !markup_escape, !markup_pretty. Qed.

Lemma markup_toc_items top top' l l' : length l = length l' -> markup ∘ toc_item top <$> l = markup ∘ toc_item top' <$> l'.
Proof.
  revert l'. induction l as [|e l IH]; intros [|e' l'] Hl; try done. rewrite !fmap_cons. f_equal; [apply markup_toc_item|].
  apply IH. by injection Hl.
Qed.

Lemma markup_toc_list doc doc' : length doc.(md_toc) = length doc'.(md_toc) -> markup (renderTocList doc) = markup (renderTocList doc').
Proof.
  intros Hl. unfold renderTocList. rewrite !markup_app, !markup_join, <- !list_fmap_compose.
  by rewrite (markup_toc_items _ (top_level doc'.(md_toc)) _ _ Hl).
Qed.

Lemma markup_body input : markup (renderBody input) = markup (renderBody (blank_page input)).
Proof.
  unfold renderBody. cbn [pg_body blank_page pg_filename]. destruct (pg_body input) as [doc source|text|tag src|reason]; cbn [blank_body].
  - set (doc' := Build_MarkdownDocument _ _ _ _ _).
    assert (Hl : length (md_toc doc) = length (md_toc doc')) by (cbn; by rewrite length_fmap).
    assert (Ht : has_toc doc' = has_toc doc) by (unfold has_toc; by rewrite Hl).
    unfold renderMarkdownBody. rewrite Ht. change (md_html doc') with (md_html doc). change (md_frontmatter doc') with (md_frontmatter doc).
    destruct (has_toc doc); rewrite !markup_app, !markup_escape, ?(markup_toc_list doc doc' Hl); done.
  - by rewrite !markup_app, !markup_escape.
  - apply markup_embed.
  - by rewrite !markup_app, !markup_escape.
Qed.

Lemma markup_expiry expiresAt now : markup (expiry_text expiresAt now) = markup (expiry_text ((fun _ => 0) <$> expiresAt) 0).
Proof.
  destruct expiresAt as [t|]; [|done]. cbn [expiry_text fmap option_fmap option_map].
  by rewrite !markup_app, !markup_escape, !markup_iso, !markup_remaining.
Qed.

Lemma markup_views viewsLeft : markup (views_note viewsLeft) = markup (views_note ((fun _ => 0) <$> viewsLeft)).
Proof.
  destruct viewsLeft as [n|]; [|done]. cbn [views_note fmap option_fmap option_map]. destruct (n =? 0); [done|].
  by rewrite !markup_app, markup_pretty, markup_plural.
Qed.

Lemma markup_open_full body : markup (open_full_page body) = markup (open_full_page (blank_body body)).
Proof. destruct body as [| |tag src|]; [done..| |done]. destruct tag; [reflexivity..| |reflexivity|reflexivity]. cbn [open_full_page blank_body]. rewrite !markup_app, !markup_escape. reflexivity. Qed.

(** C25: a file adds no markup to its page.  Whatever the file is called, however
    large it is, whatever its text, its links and its times are, the characters
    that delimit tags and attributes are, in order, those of the page of the same
    structure with no content at all; only what the Markdown renderer made of a
    document adds its own. *)
Theorem page_markup_fixed input :
  is_token input.(pg_token) = true -> (forall g, input.(pg_grant) = Some g -> is_token g = true) ->
  markup (renderSharePage assets input) = markup (renderSharePage assets (blank_page input)).
Proof.
  intros Htoken Hgrant. unfold renderSharePage. apply markup_shell.
  assert (Hwide : match pg_body (blank_page input) with SbMarkdown doc _ => has_toc doc | _ => false end =
                  match pg_body input with SbMarkdown doc _ => has_toc doc | _ => false end).
  { cbn. destruct (pg_body input); cbn; [|done..]. unfold has_toc. cbn. by rewrite length_fmap. }
  rewrite Hwide. clear Hwide. rewrite !markup_app, !markup_escape, <- markup_body, (markup_token _ Htoken), (markup_grant _ Hgrant).
  cbn [blank_page pg_mime pg_expiresAt pg_now pg_viewsLeft pg_body pg_token pg_grant].
  rewrite <- (markup_expiry _ input.(pg_now)), <- markup_views, <- markup_open_full.
  assert (Htype : markup (if bool_decide (pg_mime input = "application/octet-stream") then "" else escapeHtml (pg_mime input) +:+ " · ") = "").
  { case_bool_decide; [done|]. by rewrite markup_app, markup_escape. }
  assert (Hread : forall b, markup (match b with SbMarkdown doc _ => formatReadingTime doc.(md_words) +:+ " · " | _ => "" end) = "").
  { intros [doc s| | |]; try done. unfold formatReadingTime. by rewrite !markup_app, markup_pretty. }
  rewrite Htype, !Hread. done.
Qed.
End Markup.

(** ** A page *)

Definition plain_assets : PageAssets :=
  {| STYLE := ""; THEME_INIT_SCRIPT := ""; PAGE_SCRIPT := ""; THEME_INIT_HASH := "'a'"; PAGE_SCRIPT_HASH := "'b'" |}.

Definition hostile_page : SharePageInput :=
  {| pg_token := sample_share_token; pg_filename := "<script>alert(1)</script>.html"; pg_size := 1536; pg_mime := "text/html";
     pg_expiresAt := Some 90000; pg_now := 1500; pg_viewsLeft := Some 0; pg_grant := Some sample_grant_token;
     pg_body := SbText "</pre><img src=x onerror='alert(2)'>" |}.

Lemma page_markup_fixed_witness :
  markup (renderSharePage plain_assets hostile_page) = markup (renderSharePage plain_assets (blank_page hostile_page)).
Proof. apply page_markup_fixed; [reflexivity|]. intros g [= <-]. reflexivity. Defined.

Example sizes : formatBytes 1536 = "1.5 KB" /\ formatBytes 10240 = "10 KB" /\ formatBytes 1048576 = "1 MB" /\ formatBytes 5 = "5 B".
Proof. by vm_compute. Qed.
