(* ===== verification/ShareRoute.v ===== *)
(** * Public share links: server/src/routes/share.ts

    The page of a link and the two routes for its file's bytes.  The token, and for
    a view-limited link the grant, is the only credential.  A handler waits for the
    storage, and meanwhile anything may happen: [meanwhile i] is what other
    requests do before ([2 i]) and after ([2 i + 1]) the answer of the [i]th wait,
    and [clock i] the time of the handler's [i]th look at the clock, which need not
    follow from each other.  The last look is [clock 3].  The theorems: whatever
    happens meanwhile, bytes are released only while the link allows them, only of
    the shared file, and never so that a page of the user runs as one of the host;
    a page is shown for a view that was spent; and without interference the link
    of the page leads to the file's bytes. *)

From S2P Require Import Prelude JsString Errors Paths Schema Text Storage World FileOps FileSpec Invites Share RawRoute FileRoute ShareRender.

Definition MAX_PREVIEW_BYTES : Z := 1024 * 1024.
Definition EMBED_URL_TTL_SECONDS : Z := 3600.
Definition DOWNLOAD_URL_TTL_SECONDS : Z := 300.

(** ** Replies *)

Inductive ReplyBody : Type := HtmlBody (page : string) | TextBody (text : string) | ObjectBody (b : string) | NoBody.

Record Reply : Type := { rp_status : Z; rp_headers : list (string * string); rp_body : ReplyBody }.

Section Replies.
Context {rt : Runtime}.
Variable assets : PageAssets.

Definition html (status : Z) (body : string) (csp : string) : Reply :=
  {| rp_status := status;
     rp_headers := shareSecurityHeaders [("Content-Type", "text/html; charset=utf-8"); ("Content-Security-Policy", csp)];
     rp_body := HtmlBody body |}.

Definition bare_csp : string := buildCsp assets None None.

Definition plain (status : Z) (message : string) : Reply :=
  {| rp_status := status; rp_headers := shareSecurityHeaders [("Content-Type", "text/plain; charset=utf-8")]; rp_body := TextBody message |}.

Definition redirect (location : string) : Reply :=
  {| rp_status := 302; rp_headers := shareSecurityHeaders [("Location", location)]; rp_body := NoBody |}.

Definition htmlTooLarge : Reply :=
  plain 413 ("This page is larger than " +:+ pretty (SHARE_HTML_MAX_BYTES / 1024 / 1024) +:+
             " MB and cannot be rendered from a share link").

Definition deniedBytes (reason : DenialReason) : Reply :=
  match reason with
  | NotFound => plain 404 "This link has expired"
  | GrantRequired => plain 403 "Open the share link to view or download this file"
  | Gone => plain 410 "This link has expired"
  end.

Definition no_longer_available : Reply := plain 404 "This file is no longer available".

Definition contentDisposition (kind filename : string) : string :=
  kind +:+ "; filename*=UTF-8''" +:+ encodeRFC5987ValueChars filename.

Definition filenameOf (share : ShareRecord) : string := truthy (last (split_on is_slash share.(sh_path))) ?? "download".

(** [opts.embed] of [streamObject]. *)
Record Embed : Type := { em_pdf : bool; em_csp : option string }.

Definition stream_csp (embed : option Embed) : string :=
  match embed with
  | None => "default-src 'none'; sandbox"
  | Some e =>
      match truthy e.(em_csp) with
      | Some csp => csp
      | None => if e.(em_pdf) then "frame-ancestors 'self'" else "default-src 'none'; frame-ancestors 'self'; sandbox"
      end
  end.

Definition object_reply (contentType disposition : string) (embed : option Embed) (b : string) : Reply :=
  {| rp_status := 200;
     rp_headers := shareSecurityHeaders (
       [("Content-Type", contentType); ("Content-Length", pretty (blen b)); ("Content-Disposition", disposition);
        ("Content-Security-Policy", stream_csp embed); ("Cross-Origin-Resource-Policy", "same-origin")] ++
       match embed with Some _ => [("X-Frame-Options", "SAMEORIGIN")] | None => [] end);
     rp_body := ObjectBody b |}.
End Replies.

(** ** The routes *)

Section Routes.
Context {rt : Runtime} {Store : Type} {SA : StorageAdapter Store}.
Variable assets : PageAssets.
(** markdown.ts, which renders with a library. *)
Variable renderMarkdownDocument : string -> MarkdownDocument.
(** The platform's URL parser, and the backend's signer. *)
Variable url_params : string -> option (string -> option string).
Variable url_origin : string -> outcome error string.
Variable presign : string -> Z -> option string -> option string -> Z -> outcome error string.
(** What happens while a handler waits, and its looks at the clock. *)
Variable meanwhile : nat -> World Store -> World Store.
Variable clock : nat -> Z.

Definition await {A} (i : nat) (m : OpM Store A) : OpM Store A := fun w =>
  let r := m (meanwhile (2 * i) w) in (r.1, meanwhile (2 * i + 1) r.2).

(** What a request brings: the route's token, [?g=], and for the page the method
    and the user agent. *)
Variable token : string.
Variable g : option string.

Definition authorizeBytes (look : nat) : OpM Store ShareByteAccess :=
  query (fun db => authorizeShareBytes db token g (clock look)).

Definition sign (share : ShareRecord) (key : string) (capSeconds : Z) (contentType disposition : string) : OpM Store (option string) :=
  await 1 (from_outcome (presignShareUrl url_params presign (clock 2) share key capSeconds (Some contentType) (Some disposition))).

(** An error of the storage that says the object is not there answers [reply]. *)
Definition or_missing (m : OpM Store Reply) (reply : Reply) : OpM Store Reply :=
  try_catch m (fun e => if is_storage_not_found e then mret reply else throw e).

(** [stillAllowed] is [authorizeBytes(c).ok]. *)
Definition streamObject (key contentType disposition : string) (embed : option Embed) (maxBytes : option Z) : OpM Store Reply :=
  or_missing
    (result ← await 1 (in_store (getObject key None));
     if match maxBytes with Some n => n <? blen result.(get_body) | None => false end then mret htmlTooLarge
     else
       allowed ← authorizeBytes 3;
       mret (match allowed with
             | BytesOk _ => object_reply contentType disposition embed result.(get_body)
             | BytesDenied _ => plain 410 "This link has expired"
             end))
    no_longer_available.

(** The bytes of an HTML page: its size is looked at before it is read. *)
Definition stream_page (key filename : string) : OpM Store Reply :=
  sized ← try_catch (head ← await 0 (in_store (headObject key));
                     mret (if SHARE_HTML_MAX_BYTES <? head.(head_size) then Some htmlTooLarge else None))
            (fun e => if is_storage_not_found e then mret (Some no_longer_available) else throw e);
  match sized with
  | Some reply => mret reply
  | None =>
      streamObject key (withUtf8Charset "text/html") (contentDisposition "inline" filename)
        (Some {| em_pdf := false; em_csp := Some HTML_RAW_CSP |}) (Some SHARE_HTML_MAX_BYTES)
  end.

Definition redirect_signed (url : option string) : OpM Store Reply :=
  again ← authorizeBytes 3;
  mret (match again with
        | BytesDenied reason => deniedBytes reason
        | BytesOk _ => match url with None => plain 410 "This link has expired" | Some url => redirect url end
        end).

Definition get_share_raw : OpM Store Reply :=
  access ← authorizeBytes 0;
  match access with
  | BytesDenied reason => mret (deniedBytes reason)
  | BytesOk share =>
      let type := classifyShareFile share.(sh_path) in
      if bool_decide (share.(sh_kind) = ShareSite) then mret (plain 404 "Not found")
      else if negb (isEmbeddable type) && negb (bool_decide (type.(sft_kind) = PkHtml)) then mret (plain 404 "Not found")
      else match shareStorageKey share with
      | None => mret no_longer_available
      | Some key =>
          let filename := filenameOf share in
          if bool_decide (type.(sft_kind) = PkHtml) then stream_page key filename
          else if capabilities.(cap_presignedUrls) then
            url ← sign share key DOWNLOAD_URL_TTL_SECONDS type.(sft_mime) (contentDisposition "inline" filename);
            redirect_signed url
          else streamObject key (shareContentType type) (contentDisposition "inline" filename)
                 (Some {| em_pdf := bool_decide (type.(sft_kind) = PkPdf); em_csp := None |}) None
      end
  end.

Definition get_share_download : OpM Store Reply :=
  access ← authorizeBytes 0;
  match access with
  | BytesDenied reason => mret (deniedBytes reason)
  | BytesOk share =>
      if bool_decide (share.(sh_kind) = ShareSite) then mret (plain 404 "Not found")
      else match shareStorageKey share with
      | None => mret no_longer_available
      | Some key =>
          let type := classifyShareFile share.(sh_path) in
          let disposition := contentDisposition "attachment" (filenameOf share) in
          or_missing
            (if capabilities.(cap_presignedUrls) then
               _ ← await 0 (in_store (headObject key));
               again ← authorizeBytes 1;
               match again with
               | BytesDenied reason => mret (deniedBytes reason)
               | BytesOk share =>
                   url ← sign share key DOWNLOAD_URL_TTL_SECONDS (shareContentType type) disposition;
                   redirect_signed url
               end
             else streamObject key (shareContentType type) disposition None None)
            no_longer_available
      end
  end.

(** ** The page *)

Definition no_preview (reason : string) : ShareBody * option string := (SbNone reason, None).

Definition embed_tag (kind : PreviewKind) : EmbedTag :=
  match kind with PkPdf => TagIframe | PkImage => TagImg | PkAudio => TagAudio | _ => TagVideo end.

Definition raw_src (grant : option string) : string := "/share/" +:+ token +:+ "/raw" +:+ grantQuery grant.

(** The preview of a text that was read. *)
Definition text_body (kind : PreviewKind) (b : string) : ShareBody * option string :=
  let text := if bool_decide (kind = PkSniff) then decodeIndexableText b "application/octet-stream" else Some (decode_utf8 b) in
  match text with
  | None => no_preview "This file type can't be previewed here. Use Download to get it."
  | Some text =>
      if bool_decide (kind = PkMarkdown) && isMarkdownSafeToRender text
      then (SbMarkdown (renderMarkdownDocument text) text, None)
      else (SbText text, None)
  end.

Definition buildBody (key : string) (share : ShareRecord) (filename : string) (type : ShareFileType) (size : Z) (grant : option string)
    : OpM Store (option (ShareBody * option string)) :=
  if type.(sft_downloadOnly) then mret (Some (no_preview "This file type is not previewed for safety. Use Download to get it."))
  else if bool_decide (type.(sft_kind) = PkHtml) then
    mret (Some (if SHARE_HTML_MAX_BYTES <? size then no_preview "This page is too large to render here. Use Download to get it."
                else (SbEmbed TagHtml (raw_src grant), Some "'self'")))
  else if isEmbeddable type then
    if capabilities.(cap_presignedUrls) then
      url ← sign share key EMBED_URL_TTL_SECONDS type.(sft_mime) (contentDisposition "inline" filename);
      match url with
      | None => mret None
      | Some url => origin ← from_outcome (url_origin url); mret (Some (SbEmbed (embed_tag type.(sft_kind)) url, Some origin))
      end
    else mret (Some (SbEmbed (embed_tag type.(sft_kind)) (raw_src grant), Some "'self'"))
  else if bool_decide (type.(sft_kind) ∈ [PkMarkdown; PkText; PkSniff]) then
    if MAX_PREVIEW_BYTES <? size then mret (Some (no_preview "This file is too large to preview. Use Download to get it."))
    else
      object ← await 1 (in_store (getObject key None));
      mret (Some (text_body type.(sft_kind) object.(get_body)))
  else mret (Some (no_preview "This file type can't be previewed here. Use Download to get it.")).

Definition expired (share : option ShareRecord) : Reply :=
  html (if share then 410 else 404) (renderExpiredPage assets) (bare_csp assets).
Definition unavailable : Reply := html 404 (renderUnavailablePage assets) (bare_csp assets).

(** The last look before the page is released. *)
Definition still_live (live : option ShareRecord) : bool :=
  match live with
  | None => false
  | Some live => bool_decide (live.(sh_revokedAt) = None) && negb (live.(sh_expiresAt) <=? clock 3)
  end.

Definition page_input (filename : string) (size : Z) (type : ShareFileType) (opened : OpenedShareView) (body : ShareBody) : SharePageInput :=
  let spent := opened.(ov_share) in
  {| pg_token := token; pg_filename := filename; pg_size := size; pg_mime := type.(sft_mime);
     pg_expiresAt := if spent.(sh_neverExpires) then None else Some spent.(sh_expiresAt); pg_now := clock 3;
     pg_viewsLeft := (fun m => Z.max 0 (m - spent.(sh_views))) <$> spent.(sh_maxViews);
     pg_grant := fst <$> opened.(ov_grant); pg_body := body |}.

(** After the view was spent: the body, the last look, and the page. *)
Definition finish_page (key filename : string) (type : ShareFileType) (size : Z) (opened : OpenedShareView) : OpM Store Reply :=
  let spent := opened.(ov_share) in
  built ← try_catch (b ← buildBody key spent filename type size (fst <$> opened.(ov_grant)); mret (inl b))
            (fun e => if is_storage_not_found e then mret (inr unavailable) else throw e);
  match built with
  | inr reply => mret reply
  | inl None => mret (expired (Some spent))
  | inl (Some (body, embedSource)) =>
      live ← query (fun db => findShareByToken db token);
      mret (if still_live live
            then html 200 (renderSharePage assets (page_input filename size type opened body))
                   (buildCsp assets embedSource (Some (pageScripts body)))
            else expired live)
  end.

(** [grantToken] and [eventId] are drawn at random. *)
Definition get_share_page (grantToken eventId : string) (isHead : bool) (userAgent : option string) : OpM Store Reply :=
  share ← query (fun db => findShareByToken db token);
  match share with
  | None => mret (expired None)
  | Some share =>
      if negb (bool_decide (getShareState share (clock 0) = StActive)) then mret (expired (Some share))
      else if bool_decide (share.(sh_kind) = ShareSite) then mret (redirect ("/site/" +:+ token +:+ "/"))
      else if isHead then mret (html 200 "" (bare_csp assets))
      else if isLinkPreviewBot userAgent then mret (html 200 (renderPreviewBotPage assets) (bare_csp assets))
      else match shareStorageKey share with
      | None => mret unavailable
      | Some key =>
          let filename := filenameOf share in
          let type := classifyShareFile share.(sh_path) in
          found ← try_catch (head ← await 0 (in_store (headObject key)); mret (Some head))
                    (fun e => if is_storage_not_found e then mret None else throw e);
          match found with
          | None => mret unavailable
          | Some head =>
              opened ← in_db (openShareView grantToken token (clock 1));
              match opened with
              | None => mret (expired (Some share))
              | Some opened =>
                  _ ← in_db (recordShareViewed eventId (clock 1) opened.(ov_share));
                  finish_page key filename type head.(head_size) opened
              end
          end
      end
  end.

(** The router: what a handler throws is answered without a word of the error, and
    a reply that lacks a baseline header gets it. *)
Definition fill_headers (r : Reply) : Reply :=
  {| rp_status := r.(rp_status);
     rp_headers := r.(rp_headers) ++ filter (fun h => header h.1 r.(rp_headers) = None) (shareSecurityHeaders []);
     rp_body := r.(rp_body) |}.

Definition share_reply (m : OpM Store Reply) : OpM Store Reply :=
  reply ← try_catch m (fun _ => mret (plain 500 "Something went wrong"));
  mret (fill_headers reply).
End Routes.

(** ** Headers *)

(** The page may run scripts, but in an origin of its own. *)
Definition sandboxed (csp : string) : bool :=
  bool_decide (is_Some (cut_first "sandbox" csp)) && bool_decide (cut_first "allow-same-origin" csp = None).

Lemma header_cons name h (l : list (string * string)) : header name (h :: l) = if decide (h.1 = name) then Some h.2 else header name l.
Proof. unfold header. rewrite get_row_cons. by case_decide. Qed.

Lemma header_app name (l1 l2 : list (string * string)) :
  header name (l1 ++ l2) = match header name l1 with Some v => Some v | None => header name l2 end.
Proof. induction l1 as [|h l1 IH]; [done|]. cbn [app]. rewrite !header_cons, IH. by case_decide. Qed.

(** The base's headers, each with the extra's value. *)
Lemma header_overridden name (base extra : list (string * string)) :
  header name ((fun h => (h.1, header h.1 extra ?? h.2)) <$> base) =
  (fun v => header name extra ?? v) <$> header name base.
Proof. induction base as [|h l IH]; [done|]. rewrite fmap_cons, !header_cons, IH. cbn [fst snd]. by case_decide; subst. Qed.

Lemma header_filter_keep name (base l : list (string * string)) :
  header name base = None -> header name (filter (fun h => header h.1 base = None) l) = header name l.
Proof.
  intros Hb. induction l as [|h l IH]; [done|]. rewrite filter_cons, header_cons.
  destruct (decide (h.1 = name)) as [<-|Hne].
  - rewrite decide_True by done. rewrite header_cons. by rewrite decide_True.
  - case_decide; [|done]. rewrite header_cons. by rewrite decide_False.
Qed.

(** [extra] wins, and what it does not name is the base's. *)
Lemma header_spread name base extra :
  header name (spread base extra) = match header name extra with Some v => Some v | None => header name base end.
Proof.
  unfold spread. rewrite header_app, header_overridden. destruct (header name base) as [v|] eqn:Eb; cbn [fmap option_fmap option_map].
  - by destruct (header name extra).
  - rewrite header_filter_keep by done. by destruct (header name extra).
Qed.

Lemma pdf_mime {rt : Runtime} path : (classifyShareFile path).(sft_kind) = PkPdf -> (classifyShareFile path).(sft_mime) = "application/pdf".
Proof.
  unfold classifyShareFile. cbv zeta. set (mime := if bool_decide (detectMimeType path = _) then _ else _). clearbody mime.
  repeat match goal with |- context [if ?b then _ else _] => destruct b eqn:?; try done end.
  all: by intros _; cbn; eapply bool_decide_eq_true_1.
Qed.

(** ** What the byte routes release *)

Section Released.
Context {rt : Runtime} {Store : Type} {SA : StorageAdapter Store}.
Variable url_params : string -> option (string -> option string).
Variable presign : string -> Z -> option string -> option string -> Z -> outcome error string.
Variable meanwhile : nat -> World Store -> World Store.
Variable clock : nat -> Z.
Variable token : string.
Variable g : option string.

Notation raw := (get_share_raw url_params presign meanwhile clock token g).
Notation download := (get_share_download url_params presign meanwhile clock token g).
Notation allowed_at w := (exists s, authorizeShareBytes w.(w_db) token g (clock 3) = BytesOk s).

(** A reply that is neither bytes nor a way to them. *)
Definition refusal (r : Reply) : Prop := (exists text, r.(rp_body) = TextBody text) /\ r.(rp_status) <> 302.

(** Bytes of the user run, if at all, in an origin of their own; a PDF, which a
    browser would not show under a sandbox, may only be framed by the host. *)
Definition confined (r : Reply) : Prop :=
  exists csp, header "Content-Security-Policy" r.(rp_headers) = Some csp /\
    (sandboxed csp = true \/
     csp = "frame-ancestors 'self'" /\ header "Content-Type" r.(rp_headers) = Some (withUtf8Charset "application/pdf")).

(** The world in which the object is read: the first or the second wait. *)
Definition read_world (key : string) (w w1 : World Store) : Prop :=
  w1 = meanwhile 2 w \/ w1 = meanwhile 2 (meanwhile 1 (in_store (headObject key) (meanwhile 0 w)).2).

Definition released (key : string) (w : World Store) (r : Reply) (w' : World Store) : Prop :=
  refusal r \/
  allowed_at w' /\
  forall b, r.(rp_body) = ObjectBody b ->
    confined r /\ exists w1 res, read_world key w w1 /\ (in_store (getObject key None) w1).1 = Ok res /\ b = res.(get_body).

Lemma plain_refuses status message : status <> 302 -> refusal (plain status message).
Proof. split; [by eexists|done]. Qed.

Lemma denied_refuses reason : refusal (deniedBytes reason).
Proof. destruct reason; by apply plain_refuses. Qed.

Lemma try_ok {A} (m : OpM Store A) h (w : World Store) r w' :
  try_catch m h w = (Ok r, w') -> m w = (Ok r, w') \/ exists e w1, m w = (Throw e, w1) /\ h e w1 = (Ok r, w').
Proof. unfold try_catch. destruct (m w) as [[a|e] w1]; [by left|]. right. eauto. Qed.

Lemma or_missing_ok (m : OpM Store Reply) (w : World Store) r w' :
  or_missing m no_longer_available w = (Ok r, w') -> m w = (Ok r, w') \/ refusal r.
Proof.
  unfold or_missing. intros [H|(e & w1 & _ & H)]%try_ok; [by left|right].
  destruct (is_storage_not_found e); [|done]. injection H as <- _. by apply plain_refuses.
Qed.

Definition confining (contentType : string) (embed : option Embed) : Prop :=
  sandboxed (stream_csp embed) = true \/ stream_csp embed = "frame-ancestors 'self'" /\ contentType = withUtf8Charset "application/pdf".

Lemma object_reply_confined ct disp embed b : confining ct embed -> confined (object_reply ct disp embed b).
Proof.
  intros Hc. exists (stream_csp embed). unfold object_reply, shareSecurityHeaders. cbn [rp_headers]. rewrite !header_spread.
  split; [done|]. destruct Hc as [?|[? ->]]; [by left|by right].
Qed.

Lemma streamObject_released key ct disp embed n w0 (w : World Store) r w' : confining ct embed -> read_world key w0 (meanwhile 2 w) ->
  streamObject meanwhile clock token g key ct disp embed n w = (Ok r, w') -> released key w0 r w'.
Proof.
  intros Hc Hread [H|?]%or_missing_ok; [|by left]. apply bind_ok in H as (res & w1 & Hget & H).
  unfold await in Hget. injection Hget as Hget Hw1.
  destruct (match n with Some n => _ | None => false end); [injection H as <- _; left; by apply plain_refuses|].
  apply bind_ok in H as (allowed & w2 & Ha & H). injection Ha as <- <-. injection H as <- <-.
  destruct (authorizeShareBytes (w_db w1) token g (clock 3)) as [s|reason] eqn:E; [|left; by apply plain_refuses].
  right. split; [by exists s|]. intros b [= <-]. split; [by apply object_reply_confined|eauto].
Qed.

Lemma stream_page_released key filename (w : World Store) r w' :
  stream_page meanwhile clock token g key filename w = (Ok r, w') -> released key w r w'.
Proof.
  intros (sized & w1 & H1 & H)%bind_ok. destruct sized as [r'|].
  - injection H as <- _. left. apply try_ok in H1 as [(head & w2 & _ & H)%bind_ok|(e & w2 & _ & H)].
    + destruct (_ <? _); [|done]. injection H as <- _. by apply plain_refuses.
    + destruct (is_storage_not_found e); [|done]. injection H as <- _. by apply plain_refuses.
  - apply try_ok in H1 as [(head & w2 & Hh & H1)%bind_ok|(e & w2 & _ & H1)]; [|by destruct (is_storage_not_found e)].
    unfold await in Hh. injection Hh as Hh <-. destruct (_ <? _); [done|]. injection H1 as <-.
    revert H. apply streamObject_released; [by left|]. by right.
Qed.

Lemma redirect_released key w0 url (w : World Store) r w' : redirect_signed clock token g url w = (Ok r, w') -> released key w0 r w'.
Proof.
  intros (again & w1 & Ha & H)%bind_ok. injection Ha as <- <-. injection H as <- <-.
  destruct (authorizeShareBytes (w_db w) token g (clock 3)) as [s|reason] eqn:E; [|left; apply denied_refuses].
  destruct url as [url|]; [|left; by apply plain_refuses]. right. split; [by exists s|done].
Qed.

(** What both routes have before they look at the storage. *)
Definition released_share (w : World Store) (r : Reply) (w' : World Store) : Prop :=
  refusal r \/ exists s key, authorizeShareBytes w.(w_db) token g (clock 0) = BytesOk s /\ s.(sh_kind) <> ShareSite /\
    shareStorageKey s = Some key /\ released key w r w'.

Lemma raw_released (w : World Store) r w' : raw w = (Ok r, w') -> released_share w r w'.
Proof.
  intros (access & w1 & Ha & H)%bind_ok. injection Ha as <- <-. cbv zeta in H.
  destruct (authorizeShareBytes _ _ _ _) as [s|reason] eqn:E; [|injection H as <- _; left; apply denied_refuses].
  case_bool_decide as Hsite; [injection H as <- _; left; by apply plain_refuses|].
  destruct (_ && _) eqn:Ekind; [injection H as <- _; left; by apply plain_refuses|].
  destruct (shareStorageKey s) as [key|] eqn:Ek; [|injection H as <- _; left; by apply plain_refuses].
  right. exists s, key. split_and!; [done..|]. case_bool_decide as Hhtml; [by apply (stream_page_released _ _ _ _ _ H)|].
  destruct (cap_presignedUrls _).
  - apply bind_ok in H as (url & w1 & _ & H). by apply (redirect_released _ _ _ _ _ _ H).
  - revert H. apply streamObject_released; [|by left]. case_bool_decide as Hpdf; [right|by left].
    split; [done|]. unfold shareContentType. rewrite bool_decide_false by done. by rewrite pdf_mime.
Qed.

Lemma download_released (w : World Store) r w' : download w = (Ok r, w') -> released_share w r w'.
Proof.
  intros (access & w1 & Ha & H)%bind_ok. injection Ha as <- <-. cbv zeta in H.
  destruct (authorizeShareBytes _ _ _ _) as [s|reason] eqn:E; [|injection H as <- _; left; apply denied_refuses].
  case_bool_decide as Hsite; [injection H as <- _; left; by apply plain_refuses|].
  destruct (shareStorageKey s) as [key|] eqn:Ek; [|injection H as <- _; left; by apply plain_refuses].
  right. exists s, key. split_and!; [done..|]. apply or_missing_ok in H as [H|?]; [|by left]. destruct (cap_presignedUrls _).
  - apply bind_ok in H as (head & w1 & _ & H). apply bind_ok in H as (again & w2 & Ha & H). injection Ha as <- <-.
    destruct (authorizeShareBytes (w_db w1) token g (clock 1)) as [s'|reason]; [|injection H as <- _; left; apply denied_refuses].
    apply bind_ok in H as (url & w2 & _ & H). by apply (redirect_released _ _ _ _ _ _ H).
  - revert H. apply streamObject_released; by left.
Qed.

(** ** The theorems on the byte routes *)

Lemma fill_kept name r v : header name r.(rp_headers) = Some v -> header name (fill_headers r).(rp_headers) = Some v.
Proof. intros H. unfold fill_headers. cbn [rp_headers]. by rewrite header_app, H. Qed.

Lemma fill_confined r : confined r -> confined (fill_headers r).
Proof.
  intros (csp & Hcsp & H). exists csp. split; [by apply fill_kept|]. destruct H as [?|[? ?]]; [by left|right]. split; [done|by apply fill_kept].
Qed.

Lemma fill_released w r w' : released_share w r w' -> released_share w (fill_headers r) w'.
Proof.
  intros [H|(s & key & Ha & Hk & Hkey & H)]; [by left|right]. exists s, key. do 3 (split; [done|]).
  destruct H as [H|[Hal H]]; [by left|right]. split; [done|]. intros b Hb. destruct (H b Hb) as [Hc ?].
  split; [by apply fill_confined|done].
Qed.

(** C14: a link's bytes, and only while it allows them.  Whatever other requests do
    while the handler waits, and however the clock runs, a reply of a byte route
    is a refusal, or at the moment it is sent the link (with the request's grant)
    allows bytes; bytes that it carries are those of the shared file, read
    meanwhile, and cannot run as a page of the host.  Every reply has all the
    baseline headers. *)
Theorem bytes_only_while_allowed route (w : World Store) reply w' :
  route = raw \/ route = download ->
  share_reply route w = (Ok reply, w') ->
  released_share w reply w' /\
  forall name, is_Some (header name (shareSecurityHeaders [])) -> is_Some (header name reply.(rp_headers)).
Proof.
  intros Hroute Hrun. apply bind_ok in Hrun as (r & w1 & Hrun & H). injection H as <- <-. split.
  - apply fill_released. apply try_ok in Hrun as [Hrun|(e & w2 & _ & H)].
    + destruct Hroute as [-> | ->]; [by apply raw_released|by apply download_released].
    + injection H as <- _. left. by apply plain_refuses.
  - intros name [v Hv]. unfold fill_headers. cbn [rp_headers]. rewrite header_app.
    destruct (header name (rp_headers r)) eqn:E; [by eexists|]. rewrite header_filter_keep by done. by eexists.
Qed.
End Released.

(** ** The page *)

Section Page.
Context {rt : Runtime} {Store : Type} {SA : StorageAdapter Store}.
Variable assets : PageAssets.
Variable renderMarkdownDocument : string -> MarkdownDocument.
Variable url_params : string -> option (string -> option string).
Variable url_origin : string -> outcome error string.
Variable presign : string -> Z -> option string -> option string -> Z -> outcome error string.
Variable meanwhile : nat -> World Store -> World Store.
Variable clock : nat -> Z.
Variable token : string.

Notation page := (get_share_page assets renderMarkdownDocument url_params url_origin presign meanwhile clock token).

(** What a shown page says of the view that was spent for it. *)
Definition shown (opened : OpenedShareView) (reply : Reply) (w' : World Store) : Prop :=
  (exists filename size type body src,
     reply = html 200 (renderSharePage assets (page_input clock token filename size type opened body))
               (buildCsp assets src (Some (pageScripts body)))) /\
  exists live, findShareByToken w'.(w_db) token = Some live /\ live.(sh_revokedAt) = None /\ clock 3 < live.(sh_expiresAt).

Lemma finish_page_shown key filename type size opened (w : World Store) reply w' :
  finish_page assets renderMarkdownDocument url_params url_origin presign meanwhile clock token key filename type size opened w
    = (Ok reply, w') ->
  reply.(rp_status) = 200 -> shown opened reply w'.
Proof.
  intros (built & w1 & Hb & H)%bind_ok Hst. destruct built as [[[body src]|]|reply'].
  - apply bind_ok in H as (live & w2 & Hl & H). injection Hl as <- <-. injection H as <- <-.
    destruct (findShareByToken (w_db w1) token) as [live|] eqn:E; [|done].
    destruct (still_live clock (Some live)) eqn:El; [|done]. split; [by do 5 eexists|]. exists live. split; [done|].
    apply andb_true_iff in El as [Hr%bool_decide_eq_true He%negb_true_iff]. split; [done|]. by apply Z.leb_gt.
  - injection H as <- _. done.
  - injection H as <- _. apply try_ok in Hb as [(b & w2 & _ & H)%bind_ok|(e & w2 & _ & H)]; [done|].
    destruct (is_storage_not_found e); [|done]. injection H as <- _. done.
Qed.

(** A page for a spent view.  A probe, and a crawler that previews links, change
    nothing; to any other request for the link of a file, a page is shown only for
    a view that was counted while it was handled (of a view-limited link with the
    grant drawn for it), and only while the link is neither revoked nor expired,
    whatever happens meanwhile. *)
Theorem page_for_a_spent_view grantToken eventId isHead userAgent (w : World Store) reply w' :
  page grantToken eventId isHead userAgent w = (Ok reply, w') ->
  if isHead || isLinkPreviewBot userAgent then w' = w
  else reply.(rp_status) = 200 ->
    exists key opened w2, let w1 := meanwhile 1 (in_store (headObject key) (meanwhile 0 w)).2 in
      in_db (openShareView grantToken token (clock 1)) w1 = (Ok (Some opened), w2) /\ shown opened reply w'.
Proof.
  intros H. unfold get_share_page in H. apply bind_ok in H as (share & w1 & Hs & H). injection Hs as <- <-.
  destruct (findShareByToken (w_db w) token) as [share|] eqn:Ef; [|injection H as <- <-; by destruct (_ || _)].
  destruct (negb _); [injection H as <- <-; by destruct (_ || _)|].
  destruct (bool_decide _); [injection H as <- <-; by destruct (_ || _)|].
  destruct isHead; [by injection H as _ <-|]. destruct (isLinkPreviewBot userAgent); [by injection H as _ <-|]. cbn [orb].
  intros Hst. destruct (shareStorageKey share) as [key|] eqn:Ek; [|by injection H as <- _]. cbv zeta in H.
  apply bind_ok in H as (found & w1 & Hfound & H). destruct found as [hd|]; [|by injection H as <- _].
  apply try_ok in Hfound as [(hd' & w2 & Hhead & Hf)%bind_ok|(e & w2 & _ & Hf)]; [|by destruct (is_storage_not_found e)].
  injection Hf as -> ->. unfold await in Hhead. injection Hhead as Hhead Hw1.
  apply bind_ok in H as (opened & w2 & Hopen & H). destruct opened as [opened|]; [|injection H as <- _; done].
  apply bind_ok in H as ([] & w3 & _ & H). exists key, opened, w2. cbn zeta. split.
  - change (2 * 0)%nat with 0%nat in Hw1. change (0 + 1)%nat with 1%nat in Hw1. by rewrite Hw1.
  - by apply (finish_page_shown _ _ _ _ _ _ _ _ H).
Qed.
End Page.

(** ** From the page to the bytes *)

Section Calm.
Context {rt : Runtime}.

(** The same link: what the byte routes take from a record. *)
Definition same_link (a b : ShareRecord) : Prop :=
  a.(sh_orgId) = b.(sh_orgId) /\ a.(sh_driveId) = b.(sh_driveId) /\ a.(sh_path) = b.(sh_path) /\ a.(sh_kind) = b.(sh_kind).

Lemma count_view_same now s : same_link (toRecord (count_view now s)) (toRecord s).
Proof. done. Qed.

(** The time up to which the grant of a view, if it has one, is good. *)
Definition grant_good (opened : OpenedShareView) (later : Z) : Prop :=
  forall t e, opened.(ov_grant) = Some (t, e) -> ts_sec later < ts_sec e.

Lemma found_row token db share : findShareByToken db token = Some share ->
  isWellFormedShareToken token = true /\ exists s, s ∈ db.(shares) /\ s.(share_tokenHash) = hashShareToken token /\ share = toRecord s.
Proof.
  unfold findShareByToken. destruct (isWellFormedShareToken token); [|done]. intros (s & Hs & ->)%fmap_Some.
  apply get_row_some in Hs as [? ?]. eauto.
Qed.

Lemma row_found token db s : shares_keyed db -> isWellFormedShareToken token = true -> s ∈ db.(shares) ->
  s.(share_tokenHash) = hashShareToken token -> findShareByToken db token = Some (toRecord s).
Proof.
  intros [_ Hhash] Ht Hs Hh. unfold findShareByToken. rewrite Ht. cbn [negb].
  rewrite (get_row_unique share_tokenHash _ _ s Hhash Hs Hh); [done|]. intros b Hb. congruence.
Qed.

(** A live link whose view was opened allows bytes under the grant of that view. *)
Lemma opened_allows grantToken token now db later share :
  shares_keyed db -> whole_seconds db -> is_token grantToken = true ->
  exists_row (fun g => g.(grant_grantHash) = hashShareToken grantToken) db.(shareViewGrants) = false ->
  findShareByToken db token = Some share -> getShareState share now = StActive ->
  exists opened db', openShareView grantToken token now db = (Ok (Some opened), db') /\ shares_keyed db' /\
    same_link opened.(ov_share) share /\ findShareByToken db' token = Some opened.(ov_share) /\
    opened.(ov_share).(sh_revokedAt) = None /\ opened.(ov_share).(sh_expiresAt) = share.(sh_expiresAt) /\
    (forall t e, opened.(ov_grant) = Some (t, e) -> e = grant_expiry now share) /\
    (later < share.(sh_expiresAt) -> grant_good opened later ->
     forall db2, db2.(shares) = db'.(shares) -> db2.(shareViewGrants) = db'.(shareViewGrants) ->
     authorizeShareBytes db2 token (fst <$> opened.(ov_grant)) later = BytesOk opened.(ov_share)).
Proof.
  intros Hk Hsec Hgt Hfresh Hfind Hactive. destruct (found_row _ _ _ Hfind) as (Ht & s & Hs & Hh & ->).
  pose proof (proj1 (active_consumable token now s (Hsec s Hs) Hh) Hactive) as Hc.
  assert (Hspend : spendable token now db = Some s).
  { unfold spendable. rewrite Ht. apply (get_row_unique share_tokenHash _ _ s (proj2 Hk) Hs Hc). intros b Hb. destruct Hb, Hc. congruence. }
  set (db1 := db <| shares ::= update_where (consumable token now) (count_view now) |>).
  assert (Hk1 : shares_keyed db1) by by apply keyed_update.
  assert (Hin1 : count_view now s ∈ db1.(shares)) by (apply elem_of_update_where; exists s; split; [done|by left]).
  assert (Hstate : later < share_expiresAt s -> getShareState (toRecord (count_view now s)) later <> StRevoked /\
                   getShareState (toRecord (count_view now s)) later <> StExpired).
  { intros Hl. unfold getShareState. cbn. destruct Hc as (_ & -> & _ & _). rewrite (proj2 (Z.leb_gt _ _)) by lia. by repeat case_match. }
  unfold openShareView, transaction, mbind, M_bind. rewrite consumeShareView_eq, Hspend. fold db1. cbn [modify mret M_ret toRecord sh_maxViews count_view share_maxViews].
  change (share_maxViews (count_view now s)) with (share_maxViews s). destruct (share_maxViews s) as [m|] eqn:Em.
  - unfold insert_grant, insert. cbn [first_taken shareViewGrants].
    match goal with |- context [exists_row ?P ?l] => assert (Hx : exists_row P l = false) end.
    { apply exists_row_false. intros x Hx. cbn in Hx. apply elem_of_delete_where in Hx as [Hx _].
      by apply (proj1 (exists_row_false _ _) Hfresh x Hx). }
    rewrite Hx. do 2 eexists. split; [reflexivity|]. split; [exact Hk1|]. split; [done|]. cbn [ov_share ov_grant].
    split; [by apply row_found|]. split; [apply Hc|]. split; [done|]. split; [by intros t e [= _ <-]|]. intros Hl Hgood db2 Hshares Hgrants.
    unfold authorizeShareBytes. rewrite (row_found token db2 (count_view now s)) by (unfold shares_keyed; rewrite ?Hshares; done).
    destruct (Hstate Hl) as [Hr He]. rewrite !bool_decide_false by done. cbn [orb toRecord sh_maxViews count_view share_maxViews].
    change (share_maxViews (count_view now s)) with (share_maxViews s). rewrite Em. cbn [fmap option_fmap option_map fst].
    assert (Htr : truthy (Some grantToken) = Some grantToken) by (destruct grantToken; [discriminate Hgt|done]).
    rewrite Htr. unfold isWellFormedShareToken. rewrite Hgt. cbn [negb]. rewrite Hgrants.
    rewrite (proj2 (exists_row_true _ _)); [done|]. eexists. split; [apply elem_of_app; right; by left|].
    split; [done|]. split; [done|]. cbn [grant_expiresAt]. by eapply Hgood.
  - do 2 eexists. split; [reflexivity|]. split; [exact Hk1|]. split; [done|]. cbn [ov_share ov_grant].
    split; [by apply row_found|]. split; [apply Hc|]. split; [done|]. split; [done|]. intros Hl _ db2 Hshares Hgrants.
    unfold authorizeShareBytes. rewrite (row_found token db2 (count_view now s)) by (unfold shares_keyed; rewrite ?Hshares; done).
    destruct (Hstate Hl) as [Hr He]. rewrite !bool_decide_false by done. cbn [orb toRecord sh_maxViews count_view share_maxViews].
    change (share_maxViews (count_view now s)) with (share_maxViews s). by rewrite Em.
Qed.

Context {Store : Type} {SA : StorageAdapter Store}.
Variable assets : PageAssets.
Variable renderMarkdownDocument : string -> MarkdownDocument.
Variable url_params : string -> option (string -> option string).
Variable url_origin : string -> outcome error string.
Variable presign : string -> Z -> option string -> option string -> Z -> outcome error string.

(** Nothing else happens. *)
Definition calm : nat -> World Store -> World Store := fun _ w => w.

Lemma await_calm {A} i (m : OpM Store A) w : await calm i m w = m w.
Proof. unfold await, calm. by destruct (m w). Qed.

Lemma buildBody_calm clock token key share filename type size grant (w : World Store) r :
  capabilities.(cap_presignedUrls) = false -> in_store (getObject key None) w = (Ok r, w) ->
  exists body src, buildBody renderMarkdownDocument url_params url_origin presign calm clock token key share filename type size grant w
    = (Ok (Some (body, src)), w).
Proof.
  intros Hcap Hget. unfold buildBody. rewrite Hcap. destruct (sft_downloadOnly type); [by do 2 eexists|].
  destruct (bool_decide (sft_kind type = PkHtml)); [destruct (_ <? _); by do 2 eexists|]. destruct (isEmbeddable type); [by do 2 eexists|].
  destruct (bool_decide (_ ∈ _)); [|by do 2 eexists]. destruct (_ <? _); [by do 2 eexists|].
  rewrite (op_bind_run _ _ w r w); [|by rewrite await_calm]. destruct (text_body _ _ _) as [body src]. by do 2 eexists.
Qed.

Lemma recordShareViewed_rows id now share db :
  let db' := (recordShareViewed id now share db).2 in db'.(shares) = db.(shares) /\ db'.(shareViewGrants) = db.(shareViewGrants) /\
  exists x, (recordShareViewed id now share db).1 = Ok x.
Proof.
  unfold recordShareViewed, try_catch, insert_event, insert. destruct (first_taken _); [by split_and!; [..|eexists]|].
  destruct (_ && _); by split_and!; [..|eexists].
Qed.

End Calm.

(** ** Witnesses: a one-off link, opened, and downloaded *)

Definition no_markdown (text : string) : MarkdownDocument :=
  {| md_html := ""; md_frontmatter := None; md_toc := []; md_words := 0;
     md_features := {| ps_mermaid := false; ps_math := false; ps_highlight := false |} |}.
Definition no_url (url : string) : option (string -> option string) := None.
Definition no_origin (url : string) : outcome error string := Throw uri_error.
Definition no_signer (key : string) (ttl : Z) (ct disp : option string) (at_ : Z) : outcome error string := Throw uri_error.

Definition stored_hi : MemStore :=
  {| ms_objects := {["o1/drives/d1/a.md" := ("hi", None)]}; ms_versions := ∅; ms_next := 0 |}.
Definition link_world : World MemStore := sample_shares_world <| w_store := stored_hi |>.
Definition at_1500 : nat -> Z := fun _ => 1500.

Notation sample_page := (get_share_page (rt := ascii_runtime) plain_assets no_markdown no_url no_origin no_signer calm at_1500
  sample_share_token sample_grant_token "e1").
Notation sample_download meanwhile g := (get_share_download (rt := ascii_runtime) no_url no_signer meanwhile at_1500 sample_share_token g).

Definition viewed_world : World MemStore := (sample_page false None link_world).2.

Lemma page_for_a_spent_view_witness :
  exists reply w', sample_page false None link_world = (Ok reply, w') /\ reply.(rp_status) = 200 /\
    exists key opened w2, let w1 := calm 1%nat (in_store (headObject key) (calm 0%nat link_world)).2 in
      in_db (openShareView (rt := ascii_runtime) sample_grant_token sample_share_token 1500) w1 = (Ok (Some opened), w2) /\
      shown (rt := ascii_runtime) plain_assets at_1500 sample_share_token opened reply w'.
Proof.
  destruct (sample_page false None link_world) as [[reply|e] w'] eqn:E.
  - exists reply, w'. split; [reflexivity|].
    assert (Hst : reply.(rp_status) = 200).
    { replace reply with (match (sample_page false None link_world).1 with Ok r => r | Throw _ => reply end) by (by rewrite E).
      vm_compute. reflexivity. }
    split; [exact Hst|].
    exact (page_for_a_spent_view (rt := ascii_runtime) plain_assets no_markdown no_url no_origin no_signer calm at_1500 sample_share_token
      sample_grant_token "e1" false None link_world reply w' E Hst).
  - exfalso. assert (Hx : (sample_page false None link_world).1 = Throw e) by (by rewrite E). vm_compute in Hx. discriminate Hx.
Defined.

Lemma bytes_only_while_allowed_witness :
  exists reply w', share_reply (sample_download calm (Some sample_grant_token)) viewed_world = (Ok reply, w') /\
    reply.(rp_body) = ObjectBody "hi" /\
    released_share (rt := ascii_runtime) calm at_1500 sample_share_token (Some sample_grant_token) viewed_world reply w' /\
    forall name, is_Some (header name (shareSecurityHeaders [])) -> is_Some (header name reply.(rp_headers)).
Proof.
  destruct (share_reply (sample_download calm (Some sample_grant_token)) viewed_world) as [[reply|e] w'] eqn:E.
  - exists reply, w'. split; [reflexivity|]. split.
    + replace reply with (match (share_reply (sample_download calm (Some sample_grant_token)) viewed_world).1 with
                          | Ok r => r | Throw _ => reply end) by (by rewrite E).
      vm_compute. reflexivity.
    + exact (bytes_only_while_allowed (rt := ascii_runtime) no_url no_signer calm at_1500 sample_share_token (Some sample_grant_token)
        _ viewed_world reply w' (or_intror eq_refl) E).
  - exfalso. assert (Hx : (share_reply (sample_download calm (Some sample_grant_token)) viewed_world).1 = Throw e) by (by rewrite E).
    vm_compute in Hx. discriminate Hx.
Defined.


(** The link is revoked while its bytes are read: they are not handed over. *)
Definition revoking (i : nat) (w : World MemStore) : World MemStore :=
  if Nat.eqb i 2 then w <| w_db ::= fun db => db <| shares ::= map (mark_revoked 1500 "u1") |> |> else w.

Example revoked_while_reading :
  (sample_download revoking (Some sample_grant_token) viewed_world).1 = Ok (plain 410 "This link has expired").
Proof. by vm_compute. Qed.
