(* ===== verification/SiteRoute.v ===== *)
(** * Public site links: server/src/routes/site.ts

    A shared folder is a site: [GET /site/:token/<path>] serves its files.  As in
    ShareRoute, [meanwhile] is what other requests do while the handler waits and
    [clock i] its [i]th look at the clock; the last is [clock 1].  The theorems:
    whatever happens meanwhile, a file is served only while the link is live, and
    only from inside the shared folder; and a listing names exactly the HTML pages
    directly in its folder, each by a link that leads to it. *)

From S2P Require Import Prelude JsString Errors Paths PathNames Schema Text Storage World FileOps FileSpec Invites Share RawRoute FileRoute Listing ListSpec PathMigration PathMigrationRun ShareRender ShareRoute.

Definition SITE_MAX_OBJECT_BYTES : Z := 25 * 1024 * 1024.
Definition SITE_CSP : string := "sandbox " +:+ HTML_SANDBOX +:+ "; frame-ancestors *".
Definition HTML_COMMENTS_PARAM : string := "__afs_comments".
Definition INDEX : string := "index.html".

Definition siteSecurityHeaders (extra : list (string * string)) : list (string * string) :=
  spread [("Content-Security-Policy", SITE_CSP); ("Referrer-Policy", "no-referrer"); ("X-Content-Type-Options", "nosniff");
          ("X-Robots-Tag", "noindex"); ("Cache-Control", "no-store"); ("Access-Control-Allow-Origin", "*")] extra.

Definition site_plain (status : Z) (message : string) : Reply :=
  {| rp_status := status; rp_headers := siteSecurityHeaders [("Content-Type", "text/plain; charset=utf-8")]; rp_body := TextBody message |}.

Definition tooLarge : Reply :=
  site_plain 413 ("This file is larger than " +:+ pretty (SITE_MAX_OBJECT_BYTES / 1024 / 1024) +:+ " MB and cannot be served from a site link").

Definition site_redirect (location : string) (status : Z) : Reply :=
  {| rp_status := status; rp_headers := siteSecurityHeaders [("Location", location)]; rp_body := NoBody |}.

Definition isHtmlName (name : string) : bool := ends_with ".html" (sql_lower name) || ends_with ".htm" (sql_lower name).

(** The folder's pages as a page of links; [decoded] is the request's path. *)
Definition listing_item (n : string) : string :=
  q "<li><a href=`" +:+ escapeHtml (encodeURIComponent n) +:+ q "`>" +:+ escapeHtml n +:+ "</a></li>".

Definition listingPage (rest : string) (pages : list string) : Reply :=
  let title := escapeHtml ("/" +:+ (decodeURIComponent rest ?? "")) in
  {| rp_status := 200;
     rp_headers := siteSecurityHeaders [("Content-Type", "text/html; charset=utf-8")];
     rp_body := HtmlBody (q "<!doctype html>
<html lang=`en`><head><meta charset=`utf-8`><meta name=`viewport` content=`width=device-width,initial-scale=1`>
<title>" +:+ title +:+ "</title>
<style>body{font:15px/1.6 system-ui,sans-serif;max-width:720px;margin:40px auto;padding:0 16px}ul{padding-left:20px}</style>
</head><body><h1>" +:+ title +:+ "</h1><ul>" +:+ join "" (listing_item <$> pages) +:+ "</ul></body></html>") |}.

(** The expression on the path: [/site/], the token, and what follows from a slash on. *)
Definition site_match (pathname : string) : option (string * option string) :=
  if starts_with "/site/" pathname then
    let rest := drop_str 6 pathname in
    let '(token, tail) := match cut_first "/" rest with
                          | Some (before, after) => (before, Some ("/" +:+ after))
                          | None => (rest, None)
                          end in
    if bool_decide (token = "") then None else Some (token, tail)
  else None.

(** [url]: its path, its query with the mark, and whether it asks for comments. *)
Record SiteRequest : Type := { sr_pathname : string; sr_search : string; sr_comments : bool }.

Section Site.
Context {rt : Runtime} {coll : Collation} {Store : Type} {SA : StorageAdapter Store}.
(** html-comment-overlay.ts: the script for the live UI. *)
Variable HTML_COMMENT_OVERLAY : string.
(** The errors of the platform with the code EISDIR. *)
Variable is_directory_error : error -> bool.
Variable meanwhile : nat -> World Store -> World Store.
Variable clock : nat -> Z.

Definition injectHtmlCommentOverlay (body : string) : string := body +:+ "<script>" +:+ HTML_COMMENT_OVERLAY +:+ "</script>".

Definition isMissing (e : error) : bool := is_storage_not_found e || is_directory_error e.

Definition isLive (look : nat) (share : option ShareRecord) : bool :=
  match share with
  | None => false
  | Some share => bool_decide (share.(sh_kind) = ShareSite) && bool_decide (getShareState share (clock look) = StActive)
  end.

Definition htmlPagesIn (prefix : string) : OpM Store (list string) :=
  listed ← await meanwhile 2 (in_store (listObjects prefix (Some "/") None));
  mret (sort_by (fun a b => localeCompare a b <=? 0)
          (filter (fun n => (negb (bool_decide (n = "")) && negb (has_char slash n) && isHtmlName n) = true)
             ((fun o => drop_str (String.length prefix) o.(so_key)) <$> listed.1))).

(** [key.slice(0, -INDEX.length)]. *)
Definition folder_of (key : string) : string := take_str (String.length key - String.length INDEX) key.

Definition link_expired : Reply := site_plain 410 "This link has expired".

(** The link as it is now, before anything is released. *)
Definition if_live (token : string) (reply : Reply) : OpM Store Reply :=
  live ← query (fun db => findShareByToken db token);
  mret (if isLive 1 live then reply else link_expired).

(** No object at the key: a folder's only page, its pages, or the folder with a slash. *)
Definition site_folder (token rest : string) (wantsIndex : bool) (req : SiteRequest) (share : ShareRecord) (key : string) : OpM Store Reply :=
  if wantsIndex then
    pages ← htmlPagesIn (folder_of key);
    match pages with
    | [] => mret (site_plain 404 "Not found")
    | [only] => if_live token (site_redirect (encodeURIComponent only +:+ req.(sr_search)) 302)
    | _ => if_live token (listingPage rest pages)
    end
  else
    match siteObjectKey share (rest +:+ "/" +:+ INDEX) with
    | None => mret (site_plain 404 "Not found")
    | Some indexKey =>
        pages ← htmlPagesIn (folder_of indexKey);
        match pages with
        | [] => mret (site_plain 404 "Not found")
        | _ => if_live token (site_redirect (req.(sr_pathname) +:+ "/" +:+ req.(sr_search)) 301)
        end
    end.

Definition site_file (key body : string) (comments : bool) : Reply :=
  let mime := detectMimeType key in
  let body := if bool_decide (mime = "text/html") && comments then injectHtmlCommentOverlay body else body in
  {| rp_status := 200;
     rp_headers := siteSecurityHeaders [("Content-Type", withUtf8Charset mime); ("Content-Length", pretty (blen body))];
     rp_body := ObjectBody body |}.

(** [None]: the object is too large by its size alone. *)
Definition read_site_object (key : string) : OpM Store (option string) :=
  head ← await meanwhile 0 (in_store (headObject key));
  if SITE_MAX_OBJECT_BYTES <? head.(head_size) then mret None
  else object ← await meanwhile 1 (in_store (getObject key None)); mret (Some object.(get_body)).

Definition wants_index (rest : string) : bool := bool_decide (rest = "") || ends_with "/" rest.

(** The object, or what is answered in its place: an error that is not about a
    missing object is thrown. *)
Definition serve_site (token rest : string) (req : SiteRequest) (share : ShareRecord) (key : string) : OpM Store Reply :=
  read ← try_catch (b ← read_site_object key; mret (inl b)) (fun e => if isMissing e then mret (inr tt) else throw e);
  match read with
  | inr _ => site_folder token rest (wants_index rest) req share key
  | inl None => mret tooLarge
  | inl (Some body) =>
      if SITE_MAX_OBJECT_BYTES <? blen body then mret tooLarge
      else if_live token (site_file key body req.(sr_comments))
  end.

Definition get_site (req : SiteRequest) : OpM Store Reply :=
  match site_match req.(sr_pathname) with
  | None => mret (site_plain 404 "Not found")
  | Some (token, tail) =>
      if negb (isWellFormedShareToken token) then mret (site_plain 404 "Not found")
      else match tail with
      | None => mret (site_redirect (req.(sr_pathname) +:+ "/" +:+ req.(sr_search)) 301)
      | Some tail =>
          found ← query (fun db => findShareByToken db token);
          match found with
          | None => mret (site_plain 404 "Not found")
          | Some share =>
              if negb (bool_decide (share.(sh_kind) = ShareSite)) then mret (site_plain 404 "Not found")
              else if negb (isLive 0 (Some share)) then mret link_expired
              else
                let rest := drop_str 1 tail in
                match siteObjectKey share (if wants_index rest then rest +:+ INDEX else rest) with
                | None => mret (site_plain 400 "Bad path")
                | Some key => serve_site token rest req share key
                end
          end
      end
  end.

(** The router: errors are not echoed, missing headers are filled in, and the frame
    option is taken away. *)
Definition site_reply (m : OpM Store Reply) : OpM Store Reply :=
  reply ← try_catch m (fun _ => mret (site_plain 500 "Something went wrong"));
  mret {| rp_status := reply.(rp_status);
          rp_headers := filter (fun h => h.1 <> "X-Frame-Options")
            (reply.(rp_headers) ++ filter (fun h => header h.1 reply.(rp_headers) = None) (siteSecurityHeaders []));
          rp_body := reply.(rp_body) |}.
End Site.


(** ** Decoding a path piece by piece *)

Lemma percent_decode_cons c s : percent_decode (String c s) =
  if bool_decide (c = "%"%char) then
    match s with
    | String h (String l rest) =>
        match hex_value h, hex_value l with Some a, Some b => String (chr (a * 16 + b)) <$> percent_decode rest | _, _ => None end
    | _ => None
    end
  else String c <$> percent_decode s.
Proof. done. Qed.

Lemma percent_join a x b z : percent_decode a = Some x -> percent_decode b = Some z -> percent_decode (a +:+ b) = Some (x +:+ z).
Proof.
  intros Ha Hb. remember (String.length a) as k eqn:Hk. revert a x Ha Hk. induction (lt_wf k) as [k _ IH]. intros a x Ha ->.
  destruct a as [|c a]; [injection Ha as <-; done|]. rewrite percent_decode_cons in Ha.
  change (String c a +:+ b) with (String c (a +:+ b)). rewrite percent_decode_cons. case_bool_decide.
  - destruct a as [|h [|l a]]; [done..|]. change (String h (String l a) +:+ b) with (String h (String l (a +:+ b))). cbn [String.append].
    destruct (hex_value h), (hex_value l); try done. apply fmap_Some in Ha as (x' & Hx & ->).
    rewrite (IH (String.length a)) with (x := x'); [done|cbn; lia|done|done].
  - apply fmap_Some in Ha as (x' & Hx & ->). rewrite (IH (String.length a)) with (x := x'); [done|cbn; lia|done|done].
Qed.

Lemma percent_split a b y : percent_decode (a +:+ String slash b) = Some y ->
  exists x z, percent_decode a = Some x /\ percent_decode b = Some z /\ y = x +:+ String slash z.
Proof.
  remember (String.length a) as k eqn:Hk. revert a y Hk. induction (lt_wf k) as [k _ IH]. intros a y ->.
  destruct a as [|c a].
  - change ("" +:+ String slash b) with (String slash b). rewrite percent_decode_cons, bool_decide_false by done.
    intros (z & Hz & ->)%fmap_Some. by exists "", z.
  - change (String c a +:+ String slash b) with (String c (a +:+ String slash b)). rewrite !percent_decode_cons. case_bool_decide.
    + destruct a as [|h [|l a]].
      * cbn [String.append]. destruct b as [|d b]; [done|]. by change (hex_value slash) with (@None nat).
      * cbn [String.append]. change (hex_value slash) with (@None nat). by destruct (hex_value h).
      * cbn [String.append]. destruct (hex_value h), (hex_value l); try done. intros (y' & Hy & ->)%fmap_Some.
        destruct (IH (String.length a) ltac:(cbn; lia) a y' eq_refl Hy) as (x & z & -> & Hz & ->). by do 2 eexists.
    + intros (y' & Hy & ->)%fmap_Some.
      destruct (IH (String.length a) ltac:(cbn; lia) a y' eq_refl Hy) as (x & z & -> & Hz & ->). by do 2 eexists.
Qed.

(** Decoding text goes on after a text that is complete. *)
Lemma wf_join need lo hi pend x z : (decode_from need lo hi pend x).2 = false -> (decode_from 0 128 191 "" z).2 = false ->
  (decode_from need lo hi pend (x +:+ z)).2 = false.
Proof.
  revert need lo hi pend. induction x as [|c x IH]; intros need lo hi pend Hx Hz.
  - destruct need; [|done]. destruct z; [done|]. exact Hz.
  - change (String c x +:+ z) with (String c (x +:+ z)). cbn [decode_from] in *. revert Hx.
    repeat match goal with
      |- context [if ?b then _ else _] => destruct b
    | |- context [match ?n with O => _ | S _ => _ end] => destruct n end; cbn [snd]; intros Hx; try discriminate Hx; by apply IH.
Qed.

(** A slash ends a character, so what is before it is complete. *)
Lemma wf_before_slash need lo hi pend x z : (128 <= lo)%nat -> (decode_from need lo hi pend (x +:+ String slash z)).2 = false ->
  (decode_from need lo hi pend x).2 = false.
Proof.
  revert need lo hi pend. induction x as [|c x IH]; intros need lo hi pend Hlo.
  - cbn [String.append decode_from]. destruct need; [done|]. change (Ascii.nat_of_ascii slash) with 47%nat.
    by rewrite (proj2 (Nat.leb_gt lo 47)) by lia.
  - change (String c x +:+ String slash z) with (String c (x +:+ String slash z)). cbn [decode_from].
    repeat match goal with
      |- context [if ?b then _ else _] => destruct b
    | |- context [match ?n with O => _ | S _ => _ end] => destruct n end; cbn [snd]; intros Hx; try discriminate Hx;
      apply IH in Hx; (done || lia).
Qed.

(** ** Folders *)

(** A folder in a request's path, and what its pages' names follow. *)
Lemma folder_decoded {rt : Runtime} rest y : wants_index rest = true -> decodeURIComponent (rest +:+ INDEX) = Some y ->
  exists P, y = P +:+ INDEX /\ (P = "" \/ exists x, P = x +:+ "/") /\
    forall n, well_formed n = true -> decodeURIComponent (rest +:+ encodeURIComponent n) = Some (P +:+ n).
Proof.
  unfold wants_index. case_bool_decide as He; cbn [orb].
  - subst rest. intros _ [= <-]. exists "". split; [done|]. split; [by left|]. intros n Hn.
    by apply (decodeURIComponent_encode uri_unreserved).
  - intros [a ->]%ends_with_spec. unfold decodeURIComponent. rewrite app_assoc_str. change ("/" +:+ INDEX) with (String slash INDEX).
    intros Hy. apply bind_Some in Hy as (b & Hb & Hy). destruct (decode_from 0 128 191 "" b).2 eqn:Hwf; [done|]. injection Hy as <-.
    apply percent_split in Hb as (x & z & Hx & Hz & ->). injection Hz as <-.
    exists (x +:+ "/"). split; [by rewrite app_assoc_str|]. split; [right; by eexists|]. intros n Hn.
    apply wf_before_slash in Hwf; [|lia].
    assert (Hd : percent_decode ((a +:+ "/") +:+ encodeURIComponent n) = Some ((x +:+ "/") +:+ n)).
    { apply percent_join; [by apply percent_join|]. pose proof (percent_decode_encode uri_unreserved n "" eq_refl) as H.
      rewrite app_nil_r_str in H. unfold encodeURIComponent. rewrite H. cbn. by rewrite app_nil_r_str. }
    rewrite Hd. cbn [mbind option_bind]. unfold well_formed in Hn. rewrite negb_true_iff in Hn.
    rewrite (wf_join 0 128 191 "" (x +:+ "/") n); [done| |done]. by apply wf_join.
Qed.

Lemma drop_slashes_folder P m : starts_with "/" m = false -> m <> "" -> drop_slashes (P +:+ m) = drop_slashes P +:+ m.
Proof.
  intros Hm Hne. induction P as [|c P IH].
  - destruct m as [|d m]; [done|]. cbn. rewrite bool_decide_false; [done|]. intros ->. unfold starts_with in Hm. cbn in Hm.
    destruct m; done.
  - change (String c P +:+ m) with (String c (P +:+ m)). cbn [drop_slashes]. case_bool_decide; [by rewrite IH|done].
Qed.

Lemma getS3Key_append o d p m : starts_with "/" p = true -> getS3Key o d (p +:+ m) = getS3Key o d p +:+ m.
Proof.
  intros [r ->]%starts_with_spec. unfold getS3Key, stripLeadingSlash. rewrite app_assoc_str, !starts_with_app.
  change (drop_str 1 ("/" +:+ (r +:+ m))) with (r +:+ m). change (drop_str 1 ("/" +:+ r)) with r.
  rewrite !app_assoc_str. done.
Qed.

Lemma prefix_rooted p : starts_with "/" (normalizePrefix p) = true.
Proof.
  unfold normalizePrefix. set (p' := if starts_with "/" p then p else _).
  assert (H : starts_with "/" p' = true) by (subst p'; destruct (starts_with "/" p) eqn:E; [done|apply starts_with_app]).
  destruct (ends_with "/" p'); [done|]. apply starts_with_spec in H as [r ->]. rewrite app_assoc_str. apply starts_with_app.
Qed.

(** A folder path's segments, and those of what it contains. *)
Lemma inside_folder P n m : (P = "" \/ exists x, P = x +:+ "/") -> assertPathInsideDrive (P +:+ m) = Ok tt ->
  assertPathInsideDrive n = Ok tt -> assertPathInsideDrive (P +:+ n) = Ok tt.
Proof.
  intros HP [Hm Hmd]%assertPathInsideDrive_ok [Hn Hnd]%assertPathInsideDrive_ok. apply assertPathInsideDrive_ok.
  rewrite has_char_app in Hm |- *. apply orb_false_iff in Hm as [-> _]. split; [done|].
  destruct HP as [->|[x ->]]; [done|]. unfold has_dot_segment in *. rewrite app_assoc_str in Hmd |- *.
  change ("/" +:+ m) with (String slash m) in Hmd. change ("/" +:+ n) with (String slash n).
  rewrite split_on_app_sep in Hmd |- * by done. rewrite existsb_app in Hmd |- *. apply orb_false_iff in Hmd as [-> _]. done.
Qed.

Lemma folder_of_index F : folder_of (F +:+ INDEX) = F.
Proof.
  unfold folder_of. rewrite length_app_str. replace (String.length F + String.length INDEX - String.length INDEX)%nat
    with (String.length F) by lia. apply take_str_app.
Qed.

(** The key of a folder's index, and of its other pages. *)
Lemma folder_key {rt : Runtime} share rest key : wants_index rest = true -> siteObjectKey share (rest +:+ INDEX) = Some key ->
  forall n, n <> "" -> starts_with "/" n = false -> well_formed n = true -> assertPathInsideDrive n = Ok tt ->
    siteObjectKey share (rest +:+ encodeURIComponent n) = Some (folder_of key +:+ n).
Proof.
  intros Hw. unfold siteObjectKey. destruct (negb _); [done|].
  destruct (decodeURIComponent (rest +:+ INDEX)) as [y|] eqn:Ey; [|done].
  destruct (folder_decoded rest y Hw Ey) as (P & -> & HP & Hdec).
  destruct (assertPathInsideDrive (sh_path share)) as [[]|]; [|done].
  destruct (assertPathInsideDrive (P +:+ INDEX)) as [[]|] eqn:Ei; [|done]. intros [= <-] n Hne Hns Hwf Hn.
  rewrite (Hdec n Hwf), (inside_folder P n INDEX HP Ei Hn), !drop_slashes_folder by done.
  rewrite <- !app_assoc_str. assert (Hroot : starts_with "/" (normalizePrefix share.(sh_path) +:+ drop_slashes P) = true).
  { pose proof (prefix_rooted share.(sh_path)) as [r ->]%starts_with_spec. rewrite app_assoc_str. apply starts_with_app. }
  rewrite (getS3Key_append _ _ _ n Hroot), (getS3Key_append _ _ _ INDEX Hroot).
  by rewrite folder_of_index.
Qed.

Section Listings.
Context {rt : Runtime} {coll : Collation} {Store : Type} {SA : StorageAdapter Store} {SV : StorageView Store} {LL : ListingLaws Store}.
Variable meanwhile : nat -> World Store -> World Store.

End Listings.

(** ** What a site releases *)

Section Release.
Context {rt : Runtime} {coll : Collation} {Store : Type} {SA : StorageAdapter Store}.
Variable HTML_COMMENT_OVERLAY : string.
Variable is_directory_error : error -> bool.
Variable meanwhile : nat -> World Store -> World Store.
Variable clock : nat -> Z.

Notation site := (get_site HTML_COMMENT_OVERLAY is_directory_error meanwhile clock).
Notation serve := (serve_site HTML_COMMENT_OVERLAY is_directory_error meanwhile clock).
Notation live_at w token := (isLive clock 1 (findShareByToken w.(w_db) token) = true).

(** The browser runs the page in an origin of its own: scripts, but no
    [allow-same-origin]. *)
Definition in_sandbox (r : Reply) : Prop := header "Content-Security-Policy" r.(rp_headers) =
  Some "sandbox allow-scripts allow-forms allow-popups allow-popups-to-escape-sandbox allow-modals; frame-ancestors *".

(** A reply that tells nothing of the folder. *)
Definition discreet (r : Reply) : Prop := in_sandbox r /\ exists text, r.(rp_body) = TextBody text.

(** The content of an object, when it is read after its size was. *)
Definition site_content (key : string) (w : World Store) (content : string) : Prop :=
  exists res, (in_store (getObject key None) (meanwhile 2 (meanwhile 1 (in_store (headObject key) (meanwhile 0 w)).2))).1 = Ok res /\
    content = res.(get_body).

Definition released_live (token key : string) (comments : bool) (w : World Store) (r : Reply) (w' : World Store) : Prop :=
  discreet r \/ in_sandbox r /\ live_at w' token /\
    forall b, r.(rp_body) = ObjectBody b -> exists content, site_content key w content /\
      (b = content \/ comments = true /\ b = injectHtmlCommentOverlay HTML_COMMENT_OVERLAY content).

Lemma site_header extra : header "Content-Security-Policy" extra = None ->
  header "Content-Security-Policy" (siteSecurityHeaders extra) = Some SITE_CSP.
Proof. intros H. unfold siteSecurityHeaders. by rewrite header_spread, H. Qed.

Lemma plain_discreet status message : discreet (site_plain status message).
Proof. split; [by apply site_header|by eexists]. Qed.

Lemma redirect_sandbox location status : in_sandbox (site_redirect location status).
Proof. by apply site_header. Qed.

Lemma if_live_released token key comments reply (w0 w : World Store) r w' : in_sandbox reply ->
  (forall b, reply.(rp_body) = ObjectBody b -> exists content, site_content key w0 content /\
     (b = content \/ comments = true /\ b = injectHtmlCommentOverlay HTML_COMMENT_OVERLAY content)) ->
  if_live clock token reply w = (Ok r, w') -> released_live token key comments w0 r w'.
Proof.
  intros Hs Hb H. apply bind_ok in H as (live & w1 & Hl & H). injection Hl as <- <-. injection H as <- <-.
  destruct (isLive clock 1 (findShareByToken (w_db w) token)) eqn:E; [by right|left; apply plain_discreet].
Qed.

Lemma site_folder_released token rest wi req share key (w0 w : World Store) r w' :
  site_folder meanwhile clock token rest wi req share key w = (Ok r, w') -> released_live token key req.(sr_comments) w0 r w'.
Proof.
  unfold site_folder. intros H. destruct wi.
  - apply bind_ok in H as (pages & w1 & _ & H). destruct pages as [|only [|]]; [injection H as <- _; left; apply plain_discreet|..];
      revert H; apply if_live_released; done || apply redirect_sandbox || by apply site_header.
  - destruct (siteObjectKey _ _) as [indexKey|]; [|injection H as <- _; left; apply plain_discreet].
    apply bind_ok in H as (pages & w1 & _ & H). destruct pages; [injection H as <- _; left; apply plain_discreet|].
    revert H. apply if_live_released; [apply redirect_sandbox|done].
Qed.

Lemma read_site_object_content key (w w1 : World Store) content :
  read_site_object meanwhile key w = (Ok (Some content), w1) -> site_content key w content.
Proof.
  intros H. apply bind_ok in H as (hd & w2 & Hh & H). unfold await in Hh. injection Hh as _ Hw.
  destruct (_ <? _); [done|]. apply bind_ok in H as (obj & w3 & Ho & H). injection H as <- _. unfold await in Ho. injection Ho as Ho _.
  exists obj. split; [|done]. rewrite <- Ho, <- Hw. done.
Qed.

Lemma serve_released token rest req share key (w : World Store) r w' :
  serve token rest req share key w = (Ok r, w') -> released_live token key req.(sr_comments) w r w'.
Proof.
  intros H. apply bind_ok in H as (read & w1 & Hread & H). destruct read as [[body|]|].
  - apply try_ok in Hread as [(b & w2 & Hb & E)%bind_ok|(e & w2 & _ & E)]; [|by destruct (isMissing _ e)]. injection E as -> ->.
    apply read_site_object_content in Hb. destruct (_ <? _); [injection H as <- _; left; apply plain_discreet|].
    revert H. apply if_live_released; [by apply site_header|]. intros b [= <-]. exists body. split; [done|].
    destruct (bool_decide _ && sr_comments req) eqn:E; [right|by left]. by apply andb_true_iff in E as [_ ->].
  - injection H as <- _. left. apply plain_discreet.
  - by apply (site_folder_released _ _ _ _ _ _ _ _ _ _ H).
Qed.

(** C16: a site serves its folder, and only while its link is live.  Whatever other
    requests do meanwhile, what a site link answers runs in a sandbox without the
    host's origin; and unless it is a plain refusal or the link with its missing
    slash, the link is a live folder link at the moment of the answer, and bytes
    are the content of an object inside the shared folder, read meanwhile, with
    nothing added but the script that was asked for. *)
Theorem site_serves_its_folder req (w : World Store) reply w' :
  site req w = (Ok reply, w') ->
  in_sandbox reply /\
  (discreet reply \/ reply = site_redirect (req.(sr_pathname) +:+ "/" +:+ req.(sr_search)) 301 \/
   exists token tail share key,
     site_match req.(sr_pathname) = Some (token, Some tail) /\ findShareByToken w.(w_db) token = Some share /\
     (plain_segment share.(sh_orgId) -> plain_segment share.(sh_driveId) -> exists names,
        resolve key = Some (share.(sh_orgId) :: "drives" :: share.(sh_driveId) :: path_names share.(sh_path) ++ names)) /\
     live_at w' token /\
     forall b, reply.(rp_body) = ObjectBody b -> exists content, site_content key w content /\
       (b = content \/ req.(sr_comments) = true /\ b = injectHtmlCommentOverlay HTML_COMMENT_OVERLAY content)).
Proof.
  intros H. match goal with |- ?G => assert (Hno : forall status message (w1 : World Store),
    (mret (site_plain status message) : OpM Store Reply) w1 = (Ok reply, w') -> G) end.
  { intros status message w1 [= <- _]. pose proof (plain_discreet status message) as Hd. split; [apply Hd|by left]. }
  unfold get_site in H. destruct (site_match (sr_pathname req)) as [[token tail]|] eqn:Em; [|by apply Hno in H].
  destruct (negb (isWellFormedShareToken token)); [by apply Hno in H|].
  destruct tail as [tail|]; [|injection H as <- _; split; [apply redirect_sandbox|right; by left]].
  apply bind_ok in H as (found & w1 & Hf & H). injection Hf as <- <-.
  destruct (findShareByToken (w_db w) token) as [share|] eqn:Ef; [|by apply Hno in H].
  destruct (negb (bool_decide _)); [by apply Hno in H|]. destruct (negb (isLive _ _ _)); [by apply Hno in H|].
  cbv zeta in H. destruct (siteObjectKey share _) as [key|] eqn:Ek; [|by apply Hno in H]. clear Hno.
  apply serve_released in H as [Hd|(Hs & Hl & Hb)]; [destruct Hd; split; [done|by left; split]|].
  split; [done|]. right. right. exists token, tail, share, key. do 2 (split; [done|]). split; [|done].
  intros Ho Hdr. destruct (site_key_inside_folder share _ key Ho Hdr Ek) as (decoded & _ & _ & Hres). eauto.
Qed.
End Release.

(** ** Witnesses: a folder with two pages and a style sheet *)

Definition site_share : Share :=
  Build_Share "s2" "o1" "d1" "/site" ShareSite (toy_digest sample_share_token) 90000 false None 0 None "u1" 0 None None.

Definition site_store : MemStore :=
  {| ms_objects := {["o1/drives/d1/site/a b.html" := ("<p>", None); "o1/drives/d1/site/c.htm" := ("<i>", None);
                     "o1/drives/d1/site/css/x.css" := ("p{}", None); "o1/drives/d1/site/notes.txt" := ("hi", None)]};
     ms_versions := ∅; ms_next := 0 |}.

Definition site_world : World MemStore := sample_shares_world <| w_db := empty_db <| shares := [site_share] |> |> <| w_store := site_store |>.
Definition no_directory_error (e : error) : bool := false.
Definition site_request (path : string) (comments : bool) : SiteRequest :=
  {| sr_pathname := "/site/" +:+ sample_share_token +:+ path; sr_search := ""; sr_comments := comments |}.

Notation sample_site meanwhile req := (get_site (rt := ascii_runtime) "0" no_directory_error meanwhile at_1500 req site_world).

Example site_pages :
  (exists headers, (sample_site calm (site_request "/a%20b.html" true)).1
     = Ok {| rp_status := 200; rp_headers := headers; rp_body := ObjectBody "<p><script>0</script>" |}) /\
  (exists headers page, (sample_site calm (site_request "/" false)).1
     = Ok {| rp_status := 200; rp_headers := headers; rp_body := HtmlBody page |}) /\
  (sample_site calm (site_request "/%2e%2e/x" false)).1 = Ok (site_plain 400 "Bad path") /\
  (sample_site calm (site_request "" false)).1 = Ok (site_redirect ("/site/" +:+ sample_share_token +:+ "/") 301).
Proof. split_and!; [eexists|do 2 eexists|..]; by vm_compute. Qed.

Lemma site_serves_its_folder_witness :
  exists reply w', sample_site calm (site_request "/css/x.css" false) = (Ok reply, w') /\ reply.(rp_body) = ObjectBody "p{}" /\
    in_sandbox reply /\
    (discreet reply \/ reply = site_redirect (sr_pathname (site_request "/css/x.css" false) +:+ "/" +:+ "") 301 \/
     exists token tail share key,
       site_match (sr_pathname (site_request "/css/x.css" false)) = Some (token, Some tail) /\
       findShareByToken (rt := ascii_runtime) site_world.(w_db) token = Some share /\
       (plain_segment share.(sh_orgId) -> plain_segment share.(sh_driveId) -> exists names,
          resolve key = Some (share.(sh_orgId) :: "drives" :: share.(sh_driveId) :: path_names share.(sh_path) ++ names)) /\
       isLive at_1500 1 (findShareByToken (rt := ascii_runtime) w'.(w_db) token) = true /\
       forall b, reply.(rp_body) = ObjectBody b -> exists content, site_content calm key site_world content /\
         (b = content \/ false = true /\ b = injectHtmlCommentOverlay "0" content)).
Proof.
  destruct (sample_site calm (site_request "/css/x.css" false)) as [[reply|e] w'] eqn:E.
  - exists reply, w'. split; [reflexivity|]. split.
    + replace reply with (match (sample_site calm (site_request "/css/x.css" false)).1 with Ok r => r | Throw _ => reply end) by (by rewrite E).
      vm_compute. reflexivity.
    + exact (site_serves_its_folder (rt := ascii_runtime) "0" no_directory_error calm at_1500 _ site_world reply w' E).
  - exfalso. assert (Hx : (sample_site calm (site_request "/css/x.css" false)).1 = Throw e) by (by rewrite E).
    vm_compute in Hx. discriminate Hx.
Defined.


(** The link is revoked while a file is read: it is not handed over. *)
Example site_revoked_while_reading : (sample_site revoking (site_request "/notes.txt" false)).1 = Ok link_expired.
Proof. by vm_compute. Qed.
